(* ===== verification/_CoqProject ===== *)
-Q . S2P
Prelude.v
Text.v
AppError.v
EntityRef.v
RoomModel.v
RoomInvariant.v
RoomBehaviour.v
RoomStore.v
RoomStoreFacts.v
RoomConcurrency.v
RoomListing.v
RoomService.v
RoomServiceFacts.v
RoomServiceFlows.v
ByteRange.v
Breaker.v
StreamTicket.v
JobKind.v
JobQueue.v
JobRepository.v
JobQueueFacts.v
JobLifecycle.v
JobClaims.v
JobLiveness.v
LookupLane.v
Sequences.v
PlaylistEdit.v
PlaylistEditFacts.v
PlaylistReduce.v
PlaylistReduceFacts.v
PlaylistJournal.v
PlaylistReconcile.v
PlaylistJournalFacts.v
PlaylistReconcileFacts.v
PlaylistObserve.v
PlaylistWriters.v
PlaylistSync.v
WritePauses.v
SyncRows.v
SyncProgram.v
SyncSystem.v
SyncProtocol.v
SyncSafety.v
SyncLeases.v
Connections.v
ConnectionFacts.v
ConnectionRuns.v
RedisClock.v
NetAddress.v
Admission.v
Windows.v
SealedGate.v
SealedFacts.v
Coalesce.v
SyncEnqueue.v
StreamTarget.v
StreamFetch.v
HlsDownload.v
HlsFacts.v
StreamSlots.v
Transcodings.v
RemoteDevices.v
RemoteStore.v
RemoteHub.v
RemoteSystem.v
RemoteProtocol.v
RemoteFacts.v
Links.v
LinkFacts.v
ChatTables.v
ChatOps.v
ChatSystem.v
ChatDevices.v
ChatFacts.v
ChatGroups.v
ChatHandlers.v
ChatSecrets.v
ChatDeviceFacts.v
ChatMessages.v
ChatSample.v
