(* ===== verification/Prelude.v ===== *)
(** * A verified model of SoundCloud-Backend

    The repository is the Rust backend of a SoundCloud client: [api] (HTTP API,
    listening rooms, chat), [jobs] (background workers on a Postgres queue),
    [streaming] and [storage] (audio), [gateway], and shared crates under
    [utils] and [backend-contracts].  This library models the parts of it that
    carry its own logic, as executable definitions translated from the source,
    and proves what makes them correct.

    ** Files

    - [Prelude]: machine integers with their wrap-around, [result], the state
      and error monad [ST] with its weakest preconditions, lists as [Vec]s, stable
      sorting, the tactics, and the monad of effectful handlers with the protocols they
      keep.  [Text]: Rust strings as lists of code points (trim,
      split, decimal printing and parsing), and bytes with their UTF-8 and hex forms.
    - [EntityRef] ([utils/entity-ref]): SoundCloud references and their URNs, and the
      spellings of a user ([sc_ids.rs]).
    - [AppError] ([api/src/error.rs]): JSON values, the error type, its status and
      retry-after.
    - Listening rooms ([api/src/modules/rooms]): [RoomModel] is [model.rs] and
      [model/*.rs], one definition per method of [Room], in the monad
      [RoomM = ST Room AppError]; [RoomInvariant] is the well-formedness of a room
      and that every method keeps it; [RoomBehaviour] what each method does.
      [RoomStore] is the interface to Redis (a class with laws, and an instance) and
      [store.rs], [store/cas.rs] and [directory.rs] over it, the Lua scripts included, with the JSON codec as a class and
      an instance of it; [RoomStoreFacts] and [RoomConcurrency] are their theorems.
      [RoomListing] is what others see (public cards, views, previews, chat
      rows); [RoomService] is the operations of [RoomsService], composed as the
      source composes them, on a [World] (database, clock, caches, events);
      [RoomServiceFacts] and [RoomServiceFlows] are their theorems.
    - [ByteRange] ([storage/src/byte_range.rs]); [Breaker]
      ([utils/sc-transport], the circuit breakers); [StreamTicket]
      ([utils/stream-ticket]).
    - The job queue ([jobs/src/queue]): [JobKind] (kinds, lanes, who runs what),
      [JobQueue] (the three tables, their constraints and every SQL
      statement on them, also those of the handlers, the scheduler and the API),
      [JobRepository] (the waits of [backoff.rs], the operations of the
      repository, what [process_job] records, the worker's turns), [JobQueueFacts],
      [JobLifecycle], [JobClaims], [JobLiveness] (their theorems);
      [LookupLane] is the write governor and the lane of lyrics lookups.
    - Playlist edits ([api/src/modules/playlists],
      [jobs/src/handlers/playlist_observe]): [PlaylistEdit] is [edit.rs] (requests
      and the operations derived from them) and what is hashed,
      [PlaylistJournal] is [journal.rs] over the tables and the SQL command
      [membership_op], [PlaylistReduce] is [reduce.rs], [classification.rs] and the
      SQL twin of the reducer, [PlaylistReconcile] is [repository.rs] (capture,
      persist, failures), [PlaylistObserve] the reading of pages and the failure
      policy.  [PlaylistEditFacts], [PlaylistReduceFacts], [PlaylistJournalFacts],
      [PlaylistReconcileFacts] are their theorems.  [PlaylistWriters] is the other commands
      that write a playlist's tables (a created playlist confirmed, deleted here or on
      SoundCloud, listed, read), [PlaylistSync] the playlist under any interleaving of edits,
      observations and these.  [Sequences]
      are the list operations they share.
    - Writing to SoundCloud ([jobs/src/handlers/sync_queue]): [WritePauses] is
      [write_pause.rs] and [pause_group.rs]; [SyncRows] the queue's rows and every
      statement on them; [SyncProgram] the whole of [execute] as a program;
      [SyncSystem] the workers and the API interleaved; [SyncProtocol] and
      [SyncSafety] show that a comment gets through at most once, [SyncLeases]
      that no lease is leaked.  [Connections] is [connection.rs] (access tokens and
      their refresh), [ConnectionFacts] its interleavings, [ConnectionRuns] a
      refresh from beginning to end.  [SyncEnqueue] is how the API queues what a user
      wants ([api/src/modules/sync_queue]), with the proof that this is a step of
      the workers' system and that the last wish counts.
    - The door of the API: [RedisClock] is Redis with expiring keys; [Admission] is
      [common/admission.rs] with its Lua limiter and configuration, [NetAddress] the
      proxy chain and the identities of clients; [Windows] is [common/windows.rs];
      [SealedGate] is [auth/sealed] (gates, effort, proofs of work,
      claims and the decision on a sealed request); [Coalesce] is [KeyedCoalesce] of
      [cache/single_flight.rs].  [RedisClock] also has the counting lemmas of the limiters,
      [SealedFacts] the theorems on sealed requests; the others hold their own.
    - Streaming ([streaming/src/stream]): [StreamTarget] is [target.rs] and [validate.rs]
      (where requests may go, which bodies are audio), [StreamFetch] is [proxy.rs] (the
      proxy, the relay and their race) as programs of network effects, [HlsDownload] is
      [hls.rs] (playlists and downloads in segments) on top of them; [StreamSlots] is
      [free_hq.rs], [upload_slots.rs] and the memory of [egress.rs]; [Transcodings] the
      choice of copies ([quality.rs], [restricted.rs] and parts of [cookies.rs] and
      [anon.rs]) and the rotation of accounts;
      [HlsFacts] holds the theorems on targets and downloads, the others their own.
    - Remote control ([api/src/modules/remote]): [RemoteDevices] is [devices.rs] and
      [waits.rs] with their theorems, [RemoteStore] is [store.rs] over NATS as programs of
      effects, [RemoteHub] is [hub.rs] (asking a device, replying, waiting for commands);
      [RemoteSystem] is the hubs of all nodes interleaved on one NATS with its clocks,
      [RemoteProtocol] what a worker may do given what it learned, [RemoteFacts] the
      theorems and a run.  [Links] is [links.rs] and [secrets.rs] (codes,
      grants and tokens of voice assistants) with the SQL and its requests
      interleaved, [LinkFacts] the theorems and a run.
    - Chat ([api/src/modules/chat]): [ChatTables] is a conversation's rows of the five
      tables and every SQL statement on them; [ChatOps] the operations in their
      transactions ([members/changes.rs], [invites.rs], [conversations/], the rules and
      storing of messages, the renewal of keys); [ChatSystem] a conversation under any
      interleaving of them, with accesses loaded earlier; [ChatFacts] that every step takes
      it forward, and what that means for who has gone; [ChatGroups] owners and links.
      [ChatDevices] is [devices.rs] and [devices/] (the table of devices, its rules,
      handlers and sweep) and the system of all devices and conversations;
      [ChatDeviceFacts] its theorems.
      [ChatHandlers] is handing out keys, sending and redacting as programs of effects
      that run in this system; [ChatSecrets] and [ChatMessages] are their theorems, with
      pages of history and [hot_cache.rs]; [ChatSample] runs.

    ** What is shown

    - Rooms: each method's outcome on every branch (who may kick, ban, mute, hand
      over, change settings or playback, and exactly what changes); one invariant
      kept by all of them; optimistic updates under any interleaving of clients
      refine atomic changes ([cas_refines]), so every stored room is well formed
      ([stored_rooms_wf]); leaving and joining end to end.
    - Jobs: the tables' constraints hold under any interleaving of the statements of
      workers, handlers, scheduler and API, and refuse no statement of a worker but the dead
      letter of a collection whose attempts were reset ([queue_invariant]); no job is lost;
      the bounded passes that release and recover jobs reach every one whose lease is over
      ([job_never_stuck]); a worker without the lease cannot touch it, the holder's result decides it, a claim takes exactly
      the best due jobs; the lookup lane accounts for its slots and shares them.
    - Playlists: an edit derives operations that do exactly what it asks; the API's,
      the database's and the reducer's implementations of an operation agree; edits
      are never lost, observations that raced with one are discarded, and the
      tables stay consistent under every interleaving.
    - Writes: a comment reaches SoundCloud at most once, finished workers hold no
      lease, one probe at a time tests a paused action; token refreshes are
      serialized and a stored pair replaces exactly the token it was granted for;
      what a refresh does on every branch; the queue of a reversible action is a
      toggle.
    - The door: request limits over any stretch of time, honest refusals, addresses a
      client cannot choose, bounded tables of windows that behave as one window per
      client, proofs of work and envelopes good for one use, loads shared by callers
      and never stale.
    - Streaming: credentials never reach the relay, playlists cannot point into our
      network, a download ends and returns the whole track, slots are counted exactly,
      memories are bounded and honest, copies and accounts are tried in the right order.
    - Remote control: a command is handed to one device of its user, everyone gets the
      same answer to it, waits are bounded and replaced in order; a code or a refresh
      token is exchanged once, tokens never change hands, stolen ones revoke the link.
    - Chat: who has gone opens nothing sent later, who joined a group that hides its
      history and a device not trusted yet get no older key ([intruder_sealed]), a revoked
      device opens nothing sent later, all under any interleaving and with stale accesses;
      handlers of devices run as steps of the system ([device_handlers_step]), a user has at
      most ten devices and a session one; at most one owner, and who keeps a group owned; links let in no
      more people than they have uses; a message sent again is stored once and answered; pages give
      every message once, and the cache what the database would.  Three runs show what the
      code does against its intent: declining keeps the key, two requests of an owner can
      leave a group without one, and links pass the limit on members.
    - Tickets, ranges, references: round trips and exact acceptance; the breakers
      open and announce exactly when they should.

    ** Assumptions, bounds and fuel

    Code outside the repository is a parameter with named laws and an instance
    that satisfies them: Redis ([Redis], [gmap_redis]), serde_json's encoding of
    rooms ([RoomCodec], [countable_codec]), URL parsing ([Externals]), the AEAD and
    base64 ([Sealing], [toy_sealing]), what the rooms ask of other services
    ([Surroundings]), job payloads ([Payloads]).  Postgres is modelled: a
    statement is atomic and rolled back when a constraint fails; rows locked by
    others, random ids and rows that an insert selects from other tables are
    arguments.  A Redis script is atomic and its keys expire
    ([RedisClock]); the [ipnet] crate, hashes and the verification of a proof of work
    are parameters of the files of the door, the [url] crate and base64 of those of
    streaming; NATS ([Kv], [gmap_kv]), the JSON of commands ([RemoteCodec]), the time in a
    uuid ([UuidTime]) and SHA-256 of those of remote control, where clocks may be off by a
    bounded skew and two loops have any bound on the messages that arrive; the classes of
    messages, the wrapping and sealing of keys ([sc_chat_wire]) and the JSON of events and
    views of those of chat.  A transaction of chat locks the row of its conversation first
    and is one step, and so is one that changes a device (the order of the steps is the
    order in which the database serialises them); the conversations are direct, saved and
    group ones, while the chats of rooms and the public chat are never started; a lookup of a device answers any
    row read before, as its cache may; [sc_chat_wire::bind] and the alive sessions are
    parameters; limits, restrictions, blocks, media and the public chat are effects
    that answer anything.  The bounded loops of the source keep
    their own bounds (eight compare-and-swap attempts, six codes, four attempts
    to leave); [from_utf8] uses the length as fuel and each step consumes a byte;
    decimal printing uses the binary logarithm, which exceeds the digit count.
    The release profile has no overflow checks, so plain arithmetic wraps.
    Floats are [SpecFloat]'s IEEE doubles.  Hashes, uuid v5 and hex are parameters of
    the playlist files; the answers of SoundCloud, of the connections and of the
    track storage are unconstrained answers of effects, and a statement of a
    program may fail after it took effect.  Programs are finite trees, so running
    one needs no fuel; [min_by_key], page walks and listings keep the source's
    bounds.  The loop of a segmented download has fuel, and four rounds are shown to be
    enough ([download_ends]), as is the length for the walk over MP4 boxes.

    ** Not modelled

    HTTP handlers and extraction, the publications of rooms on NATS, logging and metrics, SQL
    outside the job queue, the playlist tables, the sync queue, the connections, the links
    and the conversations with their devices, the inside of the cache of devices, media, long polls, moderation and public room of the
    chat, replication and purges
    between nodes (the [scd] triggers), the confirmation of a write in the local
    tables ([apply_local]), the Python worker, recommendation and catalog
    pipelines, decryption and transcoding, the handlers of streams, the long-poll loop of rooms, the
    timed select loops of the workers.

    ** Plan

    In this order: pagination and caches, the confirmation of writes, the rooms' long
    poll and perk recheck, the job drive loop with its heartbeats, likes order, the
    regions of anonymous reading and the cascade of sources, the confirmation of links,
    the long polls of the chat. *)

From Stdlib Require Import ZArith Lia.
From stdpp Require Import base list list_numbers numbers gmap sorting option tactics.
(** ** Machine integers

    The crates are built in release mode without [overflow-checks], so the
    plain operators wrap.  A fixed-width integer is a [Z] in range. *)
Declare Scope rust_scope.
Delimit Scope rust_scope with rust.

Definition u16_max : Z := 65535.
Definition u32_max : Z := 4294967295.
Definition u64_max : Z := 18446744073709551615.
Definition i64_max : Z := 9223372036854775807.
Definition i64_min : Z := -9223372036854775808.

Definition in_u64 (z : Z) : Prop := (0 <= z <= u64_max)%Z.
Definition in_i64 (z : Z) : Prop := (i64_min <= z <= i64_max)%Z.

Definition wrap_u32 (z : Z) : Z := (z mod 4294967296)%Z.
Definition wrap_u64 (z : Z) : Z := (z mod 18446744073709551616)%Z.
Definition wrap_i64 (z : Z) : Z :=
  ((z + 9223372036854775808) mod 18446744073709551616 - 9223372036854775808)%Z.

(** [u64::saturating_sub], [u64::saturating_add]. *)
Definition sat_sub_u64 (a b : Z) : Z := Z.max 0 (a - b).
Definition sat_add_u64 (a b : Z) : Z := Z.min u64_max (a + b).

(** [Ord::clamp]. *)
Definition clampZ (lo hi z : Z) : Z := Z.min hi (Z.max lo z).

Notation "a +u64 b" := (wrap_u64 (a + b)%Z) (at level 50, left associativity) : rust_scope.
Notation "a +i64 b" := (wrap_i64 (a + b)%Z) (at level 50, left associativity) : rust_scope.
Notation "a -i64 b" := (wrap_i64 (a - b)%Z) (at level 50, left associativity) : rust_scope.

Lemma wrap_u64_small z : in_u64 z -> wrap_u64 z = z.
Proof. unfold in_u64, wrap_u64, u64_max. intros. apply Z.mod_small. lia. Qed.

Lemma wrap_i64_small z : in_i64 z -> wrap_i64 z = z.
Proof.
  unfold in_i64, wrap_i64, i64_min, i64_max. intros.
  rewrite Z.mod_small; lia.
Qed.

Lemma wrap_u64_range z : in_u64 (wrap_u64 z).
Proof.
  unfold in_u64, wrap_u64, u64_max.
  pose proof (Z.mod_pos_bound z 18446744073709551616). lia.
Qed.

Lemma wrap_i64_range z : in_i64 (wrap_i64 z).
Proof.
  unfold in_i64, wrap_i64, i64_min, i64_max.
  pose proof (Z.mod_pos_bound (z + 9223372036854775808) 18446744073709551616). lia.
Qed.

Lemma clampZ_range lo hi z : (lo <= hi)%Z -> (lo <= clampZ lo hi z <= hi)%Z.
Proof. unfold clampZ. lia. Qed.

Lemma clampZ_id lo hi z : (lo <= z <= hi)%Z -> clampZ lo hi z = z.
Proof. unfold clampZ. lia. Qed.

(** ** Results and the state-and-error monad

    A Rust [fn f(&mut self, ..) -> Result<T, E>] may mutate [self] and then
    return [Err]; the caller sees both.  [ST S E A] keeps the final state on
    the error path too. *)
Inductive result (A E : Type) : Type :=
| Ok (a : A)
| Err (e : E).
Arguments Ok {A E} a.
Arguments Err {A E} e.

Definition ST (S E A : Type) : Type := S -> result A E * S.

Global Instance ST_ret {S E} : MRet (ST S E) := fun A a s => (Ok a, s).
Global Instance ST_bind {S E} : MBind (ST S E) := fun A B f m s =>
  match m s with
  | (Ok a, s') => f a s'
  | (Err e, s') => (Err e, s')
  end.

Definition throw {S E A} (e : E) : ST S E A := fun s => (Err e, s).
Definition gets {S E A} (f : S -> A) : ST S E A := fun s => (Ok (f s), s).
Definition modify {S E} (f : S -> S) : ST S E unit := fun s => (Ok tt, f s).
Definition ensure {S E} (b : bool) (e : E) : ST S E unit :=
  if b then mret tt else throw e.
Definition of_option {S E A} (e : E) (o : option A) : ST S E A :=
  match o with Some a => mret a | None => throw e end.
Definition of_result {S E A} (r : result A E) : ST S E A := fun s => (r, s).

Definition result_of {A E S} (p : result A E * S) : result A E := p.1.
Definition is_ok {A E} (r : result A E) : bool :=
  match r with Ok _ => true | Err _ => false end.

(** Weakest preconditions with one postcondition per outcome. *)
Definition wp {S E A} (m : ST S E A) (Q : A -> S -> Prop) (F : E -> S -> Prop) (s : S) : Prop :=
  match m s with
  | (Ok a, s') => Q a s'
  | (Err e, s') => F e s'
  end.

Section wp_rules.
Context {S E : Type}.

Lemma wp_ret {A} (a : A) Q F (s : S) : @wp S E A (mret a) Q F s = Q a s.
Proof. reflexivity. Qed.

Lemma wp_throw {A} (e : E) (Q : A -> S -> Prop) F s : wp (throw e) Q F s = F e s.
Proof. reflexivity. Qed.

Lemma wp_gets {A} (f : S -> A) Q F s : @wp S E A (gets f) Q F s = Q (f s) s.
Proof. reflexivity. Qed.

Lemma wp_modify (f : S -> S) Q F s : @wp S E unit (modify f) Q F s = Q tt (f s).
Proof. reflexivity. Qed.

Lemma wp_bind {A B} (m : ST S E A) (k : A -> ST S E B) Q F s :
  wp (m ≫= k) Q F s = wp m (fun a => wp (k a) Q F) F s.
Proof.
  unfold wp, mbind, ST_bind.
  destruct (m s) as [[a|e] s']; reflexivity.
Qed.

Lemma wp_if {A} (b : bool) (m1 m2 : ST S E A) Q F (s : S) :
  wp (if b then m1 else m2) Q F s = if b then wp m1 Q F s else wp m2 Q F s.
Proof. by destruct b. Qed.

Lemma wp_ensure b (e : E) Q F (s : S) :
  wp (ensure b e) Q F s = if b then Q tt s else F e s.
Proof. destruct b; reflexivity. Qed.

Lemma wp_of_option {A} (e : E) (o : option A) Q F (s : S) :
  wp (of_option e o) Q F s = match o with Some a => Q a s | None => F e s end.
Proof. destruct o; reflexivity. Qed.

Lemma wp_of_result {A} (r : result A E) Q F (s : S) :
  wp (of_result r) Q F s = match r with Ok a => Q a s | Err e => F e s end.
Proof. destruct r; reflexivity. Qed.

Lemma wp_mono {A} (m : ST S E A) (Q Q' : A -> S -> Prop) (F F' : E -> S -> Prop) s :
  (forall a s', Q a s' -> Q' a s') -> (forall e s', F e s' -> F' e s') ->
  wp m Q F s -> wp m Q' F' s.
Proof. unfold wp. destruct (m s) as [[a|e] s']; auto. Qed.

Lemma wp_run {A} (m : ST S E A) Q F s r s' :
  wp m Q F s -> m s = (r, s') ->
  match r with Ok a => Q a s' | Err e => F e s' end.
Proof. unfold wp. intros H Hm. rewrite Hm in H. destruct r; exact H. Qed.

Lemma wp_eq_run {A} (m : ST S E A) Q F s a s' :
  m s = (Ok a, s') -> wp m Q F s = Q a s'.
Proof. unfold wp. by intros ->. Qed.

(** A body that returned went through each of its steps. *)
Lemma bind_inv {A B} (m : ST S E A) (k : A -> ST S E B) s b s'' :
  (m ≫= k) s = (Ok b, s'') -> exists a s', m s = (Ok a, s') /\ k a s' = (Ok b, s'').
Proof. unfold mbind, ST_bind. destruct (m s) as [[a|e] s']; [eauto|done]. Qed.

Lemma bind_Ok {A B} (m : ST S E A) (k : A -> ST S E B) s a s' :
  m s = (Ok a, s') -> (m ≫= k) s = k a s'.
Proof. unfold mbind, ST_bind. by intros ->. Qed.

Lemma ensure_inv b (e : E) (s : S) s' : ensure b e s = (Ok tt, s') -> b = true /\ s' = s.
Proof. destruct b; cbv; [by intros [= <-]|done]. Qed.

Lemma of_option_inv {A} (e : E) (o : option A) (s : S) a s' :
  of_option e o s = (Ok a, s') -> o = Some a /\ s' = s.
Proof. destruct o; cbv; [by intros [= <- <-]|done]. Qed.

(** The state after [m] satisfies [I] whenever the state before did, whatever
    the outcome. *)
Definition preserves {A} (I : S -> Prop) (m : ST S E A) : Prop :=
  forall s, I s -> I (m s).2.

Lemma preserves_wp {A} (I : S -> Prop) (m : ST S E A) :
  (forall s, I s -> wp m (fun _ => I) (fun _ => I) s) -> preserves I m.
Proof.
  intros H s Hs. specialize (H s Hs). unfold wp in H.
  destruct (m s) as [[a|e] s']; exact H.
Qed.

Lemma preserves_bind {A B} I (m : ST S E A) (k : A -> ST S E B) :
  preserves I m -> (forall a, preserves I (k a)) -> preserves I (m ≫= k).
Proof.
  intros Hm Hk s Hs. unfold mbind, ST_bind.
  specialize (Hm s Hs). destruct (m s) as [[a|e] s']; simpl in *; [by apply Hk|done].
Qed.

Lemma preserves_pure {A} I (m : ST S E A) :
  (forall s, (m s).2 = s) -> preserves I m.
Proof. intros H s Hs. by rewrite H. Qed.

Lemma preserves_modify I (f : S -> S) :
  (forall s, I s -> I (f s)) -> preserves I (@modify S E f).
Proof. intros H s Hs. by apply H. Qed.

Lemma preserves_ret {A} I (a : A) : preserves I (mret a).
Proof. by apply preserves_pure. Qed.

Lemma preserves_throw {A} I (e : E) : preserves (A := A) I (throw e).
Proof. by apply preserves_pure. Qed.

Lemma preserves_gets {A} I (f : S -> A) : preserves I (gets f).
Proof. by apply preserves_pure. Qed.

Lemma preserves_ensure I b (e : E) : preserves I (ensure b e).
Proof. apply preserves_pure. by destruct b. Qed.

Lemma preserves_of_option {A} I (e : E) (o : option A) : preserves I (of_option e o).
Proof. apply preserves_pure. by destruct o. Qed.

Lemma preserves_of_result {A} I (r : result A E) : preserves I (of_result r).
Proof. by apply preserves_pure. Qed.
End wp_rules.

Global Opaque wp.

Create HintDb rust.
Create HintDb preserves discriminated.
#[export] Hint Resolve preserves_bind preserves_ret preserves_throw preserves_gets
  preserves_ensure preserves_of_option preserves_of_result preserves_modify : preserves.
Create Rewrite HintDb wp.
#[export] Hint Rewrite @wp_ret @wp_throw @wp_gets @wp_modify @wp_bind @wp_if @wp_ensure
  @wp_of_option @wp_of_result : wp.

(** [wp_step] pushes [wp] through a monadic body; the tests it meets stay as
    [if]s of the goal. *)
Ltac wp_step := autorewrite with wp; cbn beta.

(** Walk a successful run [H] back through its steps. *)
Ltac step_inv H :=
  repeat match type of H with
  | (_ ≫= _) _ = (Ok _, _) =>
      let a := fresh "a" in let s := fresh "s" in let H1 := fresh "Hrun" in
      apply bind_inv in H as (a & s & H1 & H); cbn beta in H
  end.

(** Case analysis on every test the goal branches on, booleans turned into the
    propositions they decide. *)
Ltac split_ifs :=
  repeat match goal with
  | |- context [ if ?b then _ else _ ] =>
      lazymatch b with
      | context [ if _ then _ else _ ] => fail
      | _ => let H := fresh "Hc" in destruct b eqn:H
      end
  | |- context [ match ?o with Some _ => _ | None => _ end ] =>
      let H := fresh "Ho" in destruct o eqn:H
  end.

Ltac bprop :=
  repeat match goal with
  | H : _ && _ = true |- _ => apply andb_prop in H; destruct H
  | H : _ || _ = false |- _ => apply orb_false_elim in H; destruct H
  | H : _ && _ = false |- _ => apply andb_false_iff in H
  | H : _ || _ = true |- _ => apply orb_true_iff in H
  | H : negb _ = true |- _ => apply negb_true_iff in H
  | H : negb _ = false |- _ => apply negb_false_iff in H
  | H : bool_decide _ = true |- _ => apply bool_decide_eq_true_1 in H
  | H : bool_decide _ = false |- _ => apply bool_decide_eq_false_1 in H
  | H : Z.ltb _ _ = true |- _ => apply Z.ltb_lt in H
  | H : Z.ltb _ _ = false |- _ => apply Z.ltb_ge in H
  | H : Z.leb _ _ = true |- _ => apply Z.leb_le in H
  | H : Z.leb _ _ = false |- _ => apply Z.leb_gt in H
  | H : Z.eqb _ _ = true |- _ => apply Z.eqb_eq in H
  | H : Z.eqb _ _ = false |- _ => apply Z.eqb_neq in H
  | H : Nat.ltb _ _ = true |- _ => apply Nat.ltb_lt in H
  | H : Nat.ltb _ _ = false |- _ => apply Nat.ltb_ge in H
  | H : Nat.leb _ _ = true |- _ => apply Nat.leb_le in H
  | H : Nat.leb _ _ = false |- _ => apply Nat.leb_gt in H
  | H : Nat.eqb _ _ = true |- _ => apply Nat.eqb_eq in H
  | H : Nat.eqb _ _ = false |- _ => apply Nat.eqb_neq in H
  end.

(** ** Vectors

    [Option::is_some], [Vec::retain], [iter().any], [iter().find] and [drain(..n)] on lists, with
    Boolean predicates as in the source. *)
Definition is_some {A} (o : option A) : bool := match o with Some _ => true | None => false end.
Definition retain {A} (f : A -> bool) (l : list A) : list A := List.filter f l.
Definition any {A} (f : A -> bool) (l : list A) : bool := existsb f l.
Definition find_map {A B} (f : A -> option B) : list A -> option B :=
  fix go l := match l with
  | [] => None
  | x :: l' => match f x with Some y => Some y | None => go l' end
  end.

(** [iter_mut().find(p)] followed by a mutation of the element found. *)
Fixpoint update_first {A} (p : A -> bool) (f : A -> A) (l : list A) : list A :=
  match l with
  | [] => []
  | x :: l' => if p x then f x :: l' else x :: update_first p f l'
  end.

Section vec.
Context {A : Type}.
Implicit Types (p q : A -> bool) (l : list A).

Lemma retain_In p l x : x ∈ retain p l <-> x ∈ l /\ p x = true.
Proof. unfold retain. rewrite !list_elem_of_In. apply filter_In. Qed.

Lemma retain_length p l : length (retain p l) <= length l.
Proof. apply filter_length_le. Qed.

Lemma retain_all p l : (forall x, x ∈ l -> p x = true) -> retain p l = l.
Proof.
  induction l as [|x l IH]; intros H; simpl; [done|].
  rewrite (H x) by set_solver. f_equal. apply IH. set_solver.
Qed.

Lemma retain_sublist p l : retain p l `sublist_of` l.
Proof.
  induction l as [|x l IH]; simpl; [constructor|].
  destruct (p x); by constructor.
Qed.

Lemma retain_NoDup p l : NoDup l -> NoDup (retain p l).
Proof. intros H. eapply sublist_NoDup; [exact H|apply retain_sublist]. Qed.

Lemma map_sublist {B} (f : A -> B) l1 l2 :
  l1 `sublist_of` l2 -> map f l1 `sublist_of` map f l2.
Proof. induction 1; simpl; by constructor. Qed.

Lemma map_retain_sublist {B} (f : A -> B) p l :
  map f (retain p l) `sublist_of` map f l.
Proof. apply map_sublist, retain_sublist. Qed.

Lemma NoDup_map_retain {B} (f : A -> B) p l :
  NoDup (map f l) -> NoDup (map f (retain p l)).
Proof. intros H. eapply sublist_NoDup; [apply H|apply map_retain_sublist]. Qed.

Lemma any_spec p l : any p l = true <-> exists x, x ∈ l /\ p x = true.
Proof.
  unfold any. rewrite existsb_exists.
  split; intros [x [H1 H2]]; exists x; (split; [|done]); by apply list_elem_of_In.
Qed.

Lemma any_false p l : any p l = false <-> forall x, x ∈ l -> p x = false.
Proof.
  split.
  - intros H x Hx. destruct (p x) eqn:E; [|done].
    assert (any p l = true) by (apply any_spec; eauto). congruence.
  - intros H. destruct (any p l) eqn:E; [|done].
    apply any_spec in E as [x [Hx Hp]]. rewrite H in Hp; done.
Qed.

Lemma find_Some p l x : find p l = Some x -> x ∈ l /\ p x = true.
Proof. intros H. apply List.find_some in H. by rewrite list_elem_of_In. Qed.

Lemma find_None p l : find p l = None <-> forall x, x ∈ l -> p x = false.
Proof.
  split.
  - intros H x Hx. eapply List.find_none; [done|]. by apply list_elem_of_In.
  - induction l as [|y l IH]; intros H; simpl; [done|].
    rewrite (H y) by set_solver. apply IH. set_solver.
Qed.

Lemma update_first_map {B} (g : A -> B) p (f : A -> A) l :
  (forall x, g (f x) = g x) -> map g (update_first p f l) = map g l.
Proof.
  intros Hg. induction l as [|x l IH]; simpl; [done|].
  destruct (p x); simpl; [by rewrite Hg|by rewrite IH].
Qed.

Lemma update_first_length p (f : A -> A) l : length (update_first p f l) = length l.
Proof. induction l as [|x l IH]; simpl; [done|]. destruct (p x); simpl; lia. Qed.
End vec.

(** [list.drain(..overflow)] where [overflow = len.saturating_sub(max)]. *)
Lemma drop_overflow_length {A} (l : list A) (n : nat) :
  length (drop (length l - n) l) <= n.
Proof. rewrite length_drop. lia. Qed.

Lemma drop_In {A} (l : list A) n x : x ∈ drop n l -> x ∈ l.
Proof. intros H. rewrite <- (take_drop n l). set_solver. Qed.

Lemma drop_NoDup {A} (l : list A) n : NoDup l -> NoDup (drop n l).
Proof. intros H. eapply sublist_NoDup; [exact H|apply sublist_drop]. Qed.

#[export] Hint Resolve retain_NoDup NoDup_map_retain drop_NoDup : rust.

(** ** Stable sorting

    [slice::sort_by] is a stable sort, which fixes its result for a total
    preorder: insertion of each element before the later ones it ties with. *)
Section sort.
Context {A : Type} (le : A -> A -> bool).

Fixpoint insert_sorted (x : A) (l : list A) : list A :=
  match l with
  | [] => [x]
  | y :: l' => if le x y then x :: l else y :: insert_sorted x l'
  end.

Definition sort_by (l : list A) : list A := foldr insert_sorted [] l.

Lemma insert_sorted_perm x l : insert_sorted x l ≡ₚ x :: l.
Proof.
  induction l as [|y l IH]; simpl; [done|]. destruct (le x y); [done|].
  rewrite IH. constructor.
Qed.

Lemma sort_by_perm l : sort_by l ≡ₚ l.
Proof. induction l as [|x l IH]; simpl; [done|]. by rewrite insert_sorted_perm, IH. Qed.

Lemma insert_sorted_sorted x l :
  (forall x y, le x y = false -> le y x = true) ->
  (forall x y z, le x y = true -> le y z = true -> le x z = true) ->
  StronglySorted (fun x y => le x y = true) l ->
  StronglySorted (fun x y => le x y = true) (insert_sorted x l).
Proof.
  intros Htotal Htrans. induction 1 as [|y l Hl IH Hy]; simpl; [repeat constructor|].
  destruct (le x y) eqn:E.
  - constructor; [by constructor|]. constructor; [done|].
    eapply Forall_impl; [|exact Hy]. eauto.
  - constructor; [done|]. rewrite insert_sorted_perm. constructor; [by apply Htotal|done].
Qed.

Lemma sort_by_sorted l :
  (forall x y, le x y = false -> le y x = true) ->
  (forall x y z, le x y = true -> le y z = true -> le x z = true) ->
  StronglySorted (fun x y => le x y = true) (sort_by l).
Proof.
  intros. induction l as [|x l IH]; simpl; [constructor|]. by apply insert_sorted_sorted.
Qed.
End sort.

Lemma elem_of_sort_by {A} (le : A -> A -> bool) x l : x ∈ sort_by le l <-> x ∈ l.
Proof. by rewrite (sort_by_perm le l). Qed.

Lemma elem_of_bool_filter {A} (p : A -> bool) x l : x ∈ List.filter p l <-> x ∈ l /\ p x = true.
Proof. rewrite !list_elem_of_In. apply filter_In. Qed.

Lemma StronglySorted_weaken {A} (R R' : A -> A -> Prop) l :
  (forall x y, R x y -> R' x y) -> StronglySorted R l -> StronglySorted R' l.
Proof. intros H. induction 1; constructor; [done|]. eapply Forall_impl; [|eassumption]. apply H. Qed.

(** [Ordering::then]. *)
Definition then_cmp (a b : comparison) : comparison := match a with Eq => b | _ => a end.

(** [bool::cmp]: [false] first. *)
Definition bool_cmp (a b : bool) : comparison :=
  match a, b with false, true => Lt | true, false => Gt | _, _ => Eq end.

(** * Effectful handlers as trees of effects

    A handler that talks to a database and to other services is a program over an
    indexed type of effects: each statement and each request is a node that waits for
    its answer, and between two nodes anything else may run.  A [Protocol] says what
    a program may do next given what it was answered so far; [keeps] is the weakest
    precondition of a program for it. *)

Inductive program (E : Type -> Type) (R : Type) : Type :=
| Ret (r : R)
| Vis (A : Type) (e : E A) (k : A -> program E R).
Arguments Ret {E R} r.
Arguments Vis {E R A} e k.

Global Instance program_ret {E} : MRet (program E) := @Ret E.
Global Instance program_bind {E} : MBind (program E) := fun A B f =>
  fix go p := match p with Ret r => f r | Vis e k => Vis e (fun a => go (k a)) end.

Definition trigger {E : Type -> Type} {A} (e : E A) : program E A := Vis e Ret.

(** [?]. *)
Definition try {E : Type -> Type} {A B X} (p : program E (result A X)) (f : A -> program E (result B X))
  : program E (result B X) :=
  r ← p; match r with Ok a => f a | Err e => mret (Err e) end.
Notation "x ←? p ; q" := (try p (fun x => q))
  (at level 20, p at level 100, q at level 200, only parsing) : stdpp_scope.

(** ** Protocols *)

(** The answers an effect may get. *)
Class Answers (E : Type -> Type) := possible : forall A, E A -> A -> Prop.
Arguments possible {E _ A} e a.

Class Protocol (E : Type -> Type) (S : Type) := {
  permits : S -> forall A, E A -> Prop;
  after : S -> forall A, E A -> A -> S }.
Arguments permits {E S _} ph {A} e.
Arguments after {E S _} ph {A} e a.

Section keeps.
Context {E : Type -> Type} `{!Answers E} {S : Type} `{!Protocol E S}.
Implicit Types (ph : S).

(** The program keeps to the protocol and ends with [Q]. *)
Fixpoint keeps {R} ph (p : program E R) (Q : S -> R -> Prop) : Prop :=
  match p with
  | Ret r => Q ph r
  | Vis e k => permits ph e /\ forall a, possible e a -> keeps (after ph e a) (k a) Q
  end.

Lemma keeps_bind {R T} ph (p : program E R) (f : R -> program E T) Q :
  keeps ph p (fun ph' r => keeps ph' (f r) Q) -> keeps ph (p ≫= f) Q.
Proof.
  revert ph. induction p as [r|A e k IH]; intros ph; simpl; [done|].
  intros [Hp H]. split; [done|]. intros a Ha. apply IH, H, Ha.
Qed.

Lemma keeps_impl {R} ph (p : program E R) (Q Q' : S -> R -> Prop) :
  (forall ph r, Q ph r -> Q' ph r) -> keeps ph p Q -> keeps ph p Q'.
Proof.
  intros HQ. revert ph. induction p as [r|A e k IH]; intros ph; simpl; [apply HQ|].
  intros [Hp H]. split; [done|]. intros a Ha. apply IH, H, Ha.
Qed.

Lemma keeps_try {A B X} ph (p : program E (result A X)) (f : A -> program E (result B X)) Q :
  keeps ph p (fun ph' r => match r with Ok a => keeps ph' (f a) Q | Err e => Q ph' (Err e) end) ->
  keeps ph (try p f) Q.
Proof. intros H. apply keeps_bind. eapply keeps_impl; [|exact H]. by intros ph' [a|e]. Qed.
End keeps.

(** Ends in any way. *)
Abbreviation anyhow := (fun _ _ => True).

(** ** Runs

    [meanwhile] is what others do to the state before an effect, [answers] how the effect
    is then answered and what it does itself. *)
Section runs.
Context {E : Type -> Type} {S : Type} (meanwhile : S -> S -> Prop) (answers : forall A, E A -> S -> A -> S -> Prop).

(** Every run of the program ends with [Q]. *)
Fixpoint run_ends {R} (p : program E R) (s : S) (Q : R -> S -> Prop) : Prop :=
  match p with
  | Ret r => Q r s
  | Vis e k => forall s1 a s2, meanwhile s s1 -> answers _ e s1 a s2 -> run_ends (k a) s2 Q
  end.

Lemma run_ends_bind {A R} (p : program E A) (k : A -> program E R) s Q :
  run_ends p s (fun a s' => run_ends (k a) s' Q) -> run_ends (p ≫= k) s Q.
Proof. revert s. induction p as [r|B e f IH]; intros s; cbn; [done|]. intros H s1 a s2 H1 H2. apply IH. eauto. Qed.

Lemma run_ends_impl {R} (p : program E R) s (Q Q' : R -> S -> Prop) :
  (forall r s', Q r s' -> Q' r s') -> run_ends p s Q -> run_ends p s Q'.
Proof. intros HQ. revert s. induction p as [r|B e f IH]; intros s; cbn; [apply HQ|]. eauto. Qed.

Lemma run_ends_try {A R X} (p : program E (result A X)) (k : A -> program E (result R X)) s Q :
  run_ends p s (fun r s' => match r with Ok a => run_ends (k a) s' Q | Err e => Q (Err e) s' end) ->
  run_ends (try p k) s Q.
Proof. intros H. apply run_ends_bind. eapply run_ends_impl; [|exact H]. by intros [a|e] s'. Qed.

(** A run takes the state by [moves]; when the handler succeeds, [P] holds. *)
Context (moves : S -> S -> Prop) `{!PreOrder moves}.

Definition run_says {R X} (p : program E (result R X)) (s : S) (P : R -> S -> Prop) : Prop :=
  run_ends p s (fun r s' => moves s s' /\ match r with Ok a => P a s' | Err _ => True end).

Lemma run_says_weaken {R X} (p : program E (result R X)) s s' P : moves s s' -> run_says p s' P ->
  run_ends p s' (fun r s'' => moves s s'' /\ match r with Ok a => P a s'' | Err _ => True end).
Proof. intros H. apply run_ends_impl. intros r s'' [Hm HP]. split; [by etrans|done]. Qed.

Lemma run_says_impl {R X} (p : program E (result R X)) s (P P' : R -> S -> Prop) :
  (forall a s', moves s s' -> P a s' -> P' a s') -> run_says p s P -> run_says p s P'.
Proof. intros H. apply run_ends_impl. intros [a|e] s' [Hm HP]; split; auto. Qed.

Lemma run_says_try {A R X} (p : program E (result A X)) (k : A -> program E (result R X)) s P :
  run_says p s (fun a s' => run_says (k a) s' P) -> run_says (try p k) s P.
Proof.
  intros H. apply run_ends_try. eapply run_ends_impl; [|exact H].
  intros [a|e] s' [Hm Hk]; [by apply run_says_weaken|done].
Qed.

Lemma run_says_ret {R X} (r : result R X) s (P : R -> S -> Prop) : (forall a, r = Ok a -> P a s) -> run_says (mret r) s P.
Proof. intros H. split; [done|]. destruct r; auto. Qed.
End runs.
