(* ===== verification/Text.v ===== *)
(** * Text: the part of Rust's [char], [str] and integer formatting the crates use.

    A [&str] is the list of its Unicode scalar values, a [char] is a scalar
    value in [Z].  [str::len] counts UTF-8 bytes.  [char::is_whitespace] is the
    [White_Space] property and [char::is_control] the [Cc] category.  Every
    byte of a multi-byte scalar is [>= 0x80], so a test such as
    [bytes().all(|b| b.is_ascii_digit())] is the same test on the scalars. *)

From Stdlib Require Import ZArith Lia Ascii String.
From stdpp Require Import base list numbers tactics sets gmap.
From S2P Require Import Prelude.
Local Open Scope Z_scope.

Abbreviation char := Z (only parsing).
Abbreviation str := (list Z).

Declare Scope str_scope.
Delimit Scope str_scope with str.

(** A literal of the source. *)
Definition lit (s : string) : str :=
  List.map (fun c => Z.of_N (N_of_ascii c)) (list_ascii_of_string s).

(** ** Characters *)

Definition is_whitespace (c : char) : bool :=
  ((9 <=? c) && (c <=? 13)) || (c =? 32) || (c =? 133) || (c =? 160) || (c =? 5760)
  || ((8192 <=? c) && (c <=? 8202)) || (c =? 8232) || (c =? 8233) || (c =? 8239)
  || (c =? 8287) || (c =? 12288).

Definition is_control (c : char) : bool :=
  ((0 <=? c) && (c <=? 31)) || ((127 <=? c) && (c <=? 159)).

Definition is_ascii_digit (c : char) : bool := (48 <=? c) && (c <=? 57).
Definition is_ascii_lowercase (c : char) : bool := (97 <=? c) && (c <=? 122).
Definition is_ascii_uppercase (c : char) : bool := (65 <=? c) && (c <=? 90).
Definition to_ascii_uppercase (c : char) : char := if is_ascii_lowercase c then c - 32 else c.
Definition to_ascii_lowercase (c : char) : char := if is_ascii_uppercase c then c + 32 else c.

Definition eq_ignore_ascii_case (a b : str) : bool :=
  bool_decide (map to_ascii_lowercase a = map to_ascii_lowercase b).

Definition len_utf8 (c : char) : Z :=
  if c <? 128 then 1 else if c <? 2048 then 2 else if c <? 65536 then 3 else 4.

(** [str::len]: bytes of the UTF-8 form. *)
Fixpoint str_len (s : str) : Z :=
  match s with [] => 0 | c :: s' => len_utf8 c + str_len s' end.

(** ** Slices *)

Fixpoint drop_while {A} (p : A -> bool) (l : list A) : list A :=
  match l with
  | [] => []
  | x :: l' => if p x then drop_while p l' else l
  end.

Definition trim_start (s : str) : str := drop_while is_whitespace s.
Definition trim_end (s : str) : str := rev (drop_while is_whitespace (rev s)).
Definition trim (s : str) : str := trim_end (trim_start s).

Fixpoint strip_prefix (p s : str) : option str :=
  match p, s with
  | [], _ => Some s
  | c :: p', d :: s' => if c =? d then strip_prefix p' s' else None
  | _ :: _, [] => None
  end.

Definition starts_with (p s : str) : bool :=
  match strip_prefix p s with Some _ => true | None => false end.

Definition strip_suffix (p s : str) : option str :=
  match strip_prefix (rev p) (rev s) with Some r => Some (rev r) | None => None end.

Definition ends_with_char (c : char) (s : str) : bool :=
  match rev s with d :: _ => c =? d | [] => false end.

Fixpoint split_once (c : char) (s : str) : option (str * str) :=
  match s with
  | [] => None
  | d :: s' =>
      if c =? d then Some ([], s')
      else match split_once c s' with
           | Some (a, b) => Some (d :: a, b)
           | None => None
           end
  end.

Definition contains_char (c : char) (s : str) : bool := existsb (Z.eqb c) s.

(** [s.replace(from, to)] for two characters. *)
Definition replace_char (a b : char) (s : str) : str :=
  List.map (fun c => if c =? a then b else c) s.

(** [split_whitespace]: the maximal runs of non-whitespace characters. *)
Fixpoint split_ws_from (cur : str) (s : str) : list str :=
  match s with
  | [] => match cur with [] => [] | _ => [rev cur] end
  | c :: s' =>
      if is_whitespace c
      then match cur with [] => split_ws_from [] s' | _ => rev cur :: split_ws_from [] s' end
      else split_ws_from (c :: cur) s'
  end.
Definition split_whitespace (s : str) : list str := split_ws_from [] s.

Fixpoint join (sep : str) (l : list str) : str :=
  match l with
  | [] => []
  | [w] => w
  | w :: l' => w ++ sep ++ join sep l'
  end.

(** ** Decimal integers *)

Fixpoint print_digits (fuel : nat) (n : Z) : str :=
  match fuel with
  | O => []
  | S f => if n <? 10 then [48 + n] else print_digits f (n / 10) ++ [48 + n mod 10]
  end.

(** [n.to_string()] for a non-negative [n]; [log2 n + 1] digits are enough. *)
Definition to_string (n : Z) : str := print_digits (S (Z.to_nat (Z.log2 n))) n.

Definition digits_value (s : str) : Z := foldl (fun acc c => acc * 10 + (c - 48)) 0 s.

(** [u64::from_str]: an optional [+], then digits, refusing overflow. *)
Definition parse_u64 (s : str) : option Z :=
  let digits := match s with
                | c :: ((_ :: _) as s') => if c =? 43 then s' else s
                | _ => s
                end in
  if bool_decide (digits = []) then None
  else if forallb is_ascii_digit digits
       then if digits_value digits <=? u64_max then Some (digits_value digits) else None
       else None.

(** ** Lemmas *)

Lemma lit_app s t : lit (s ++ t) = lit s ++ lit t.
Proof. unfold lit. induction s as [|c s IH]; simpl; [done|]. by rewrite IH. Qed.

Lemma str_len_app s t : str_len (s ++ t) = str_len s + str_len t.
Proof. induction s as [|c s IH]; simpl; [done|]. lia. Qed.

Lemma len_utf8_pos c : 1 <= len_utf8 c <= 4.
Proof. unfold len_utf8. repeat case_match; lia. Qed.

Lemma str_len_nonneg s : 0 <= str_len s.
Proof. induction s as [|c s IH]; simpl; [lia|]. pose proof (len_utf8_pos c). lia. Qed.

Lemma str_len_length s : Z.of_nat (length s) <= str_len s <= 4 * Z.of_nat (length s).
Proof. induction s as [|c s IH]; simpl; [lia|]. pose proof (len_utf8_pos c). lia. Qed.

Lemma str_len_ascii s : Forall (fun c => c < 128) s -> str_len s = Z.of_nat (length s).
Proof.
  induction 1 as [|c s Hc _ IH]; [done|].
  cbn [str_len length]. unfold len_utf8. destruct (Z.ltb_spec c 128); lia.
Qed.

Section drop_while.
Context {A : Type} (p : A -> bool).

Lemma drop_while_suffix l : exists pre, l = pre ++ drop_while p l /\ Forall (fun x => p x = true) pre.
Proof.
  induction l as [|x l [pre [IH1 IH2]]]; simpl; [by exists []|].
  destruct (p x) eqn:E; [|by exists []].
  exists (x :: pre). simpl. rewrite <- IH1. auto.
Qed.

Lemma drop_while_head l x l' : drop_while p l = x :: l' -> p x = false.
Proof.
  induction l as [|y l IH]; simpl; [done|].
  destruct (p y) eqn:E; [done|]. intros [= -> ->]. done.
Qed.

Lemma drop_while_id l : (forall x l', l = x :: l' -> p x = false) -> drop_while p l = l.
Proof. destruct l as [|x l]; simpl; intros H; [done|]. by rewrite (H x l). Qed.

Lemma drop_while_idemp l : drop_while p (drop_while p l) = drop_while p l.
Proof. apply drop_while_id. intros x l'. apply drop_while_head. Qed.
End drop_while.

(** A string with no whitespace at either end. *)
Definition trimmed (s : str) : Prop :=
  (forall c s', s = c :: s' -> is_whitespace c = false) /\
  (forall c s', s = s' ++ [c] -> is_whitespace c = false).

Lemma trim_trimmed s : trimmed s -> trim s = s.
Proof.
  intros [H1 H2]. unfold trim, trim_start, trim_end.
  rewrite (drop_while_id _ s) by exact H1.
  rewrite drop_while_id, rev_involutive; [done|].
  intros c l' Hl. apply (H2 c (rev l')).
  rewrite <- (rev_involutive s), Hl. done.
Qed.

Lemma trim_end_prefix s : exists post, s = trim_end s ++ post.
Proof.
  unfold trim_end. destruct (drop_while_suffix is_whitespace (rev s)) as [pre [H _]].
  exists (rev pre). rewrite <- rev_app_distr, <- H. by rewrite rev_involutive.
Qed.

Lemma trim_end_last s c s' : trim_end s = s' ++ [c] -> is_whitespace c = false.
Proof.
  unfold trim_end. intros H.
  apply (drop_while_head is_whitespace (rev s) c (rev s')).
  rewrite <- (rev_involutive (drop_while _ _)), H, rev_app_distr. done.
Qed.

Lemma trim_is_trimmed s : trimmed (trim s).
Proof.
  split.
  - intros c s' H. destruct (trim_end_prefix (trim_start s)) as [post Hp].
    fold (trim s) in Hp. rewrite H in Hp. simpl in Hp.
    by apply drop_while_head in Hp.
  - intros c s' H. by apply trim_end_last in H.
Qed.

Lemma trim_idemp s : trim (trim s) = trim s.
Proof. apply trim_trimmed, trim_is_trimmed. Qed.

Lemma strip_prefix_Some p s r : strip_prefix p s = Some r <-> s = p ++ r.
Proof.
  revert s. induction p as [|c p IH]; intros s; simpl.
  - split; [by intros [= ->]|by intros ->].
  - destruct s as [|d s]; [naive_solver|].
    destruct (Z.eqb_spec c d) as [->|Hne]; [rewrite IH; naive_solver|naive_solver].
Qed.

Lemma strip_prefix_app p r : strip_prefix p (p ++ r) = Some r.
Proof. by apply strip_prefix_Some. Qed.

Lemma split_once_Some c s a b :
  split_once c s = Some (a, b) <-> s = a ++ c :: b /\ c ∉ a.
Proof.
  revert a. induction s as [|d s IH]; intros a; simpl.
  - split; [done|]. intros [H _]. by destruct a.
  - destruct (Z.eqb_spec c d) as [->|Hne].
    + split.
      * intros [= <- <-]. split; [done|set_solver].
      * intros [H Hn]. destruct a as [|e a]; simpl in *; [naive_solver|].
        injection H as -> _. set_solver.
    + destruct (split_once c s) as [[a' b']|] eqn:E.
      * split.
        -- intros [= <- <-]. destruct (IH a') as [IH1 _].
           destruct IH1 as [-> Hn]; [done|]. split; [done|set_solver].
        -- intros [H Hn]. destruct a as [|e a]; simpl in H; [naive_solver|].
           injection H as <- H. destruct (IH a) as [_ IH2].
           assert (Some (a', b') = Some (a, b)) as [= -> ->]; [|done].
           apply IH2. split; [done|set_solver].
      * split; [done|]. intros [H Hn]. destruct a as [|e a]; simpl in H; [naive_solver|].
        injection H as <- H. destruct (IH a) as [_ IH2].
        assert (None = Some (a, b)); [|done]. apply IH2. split; [done|set_solver].
Qed.

Lemma split_once_None c s : split_once c s = None <-> c ∉ s.
Proof.
  induction s as [|d s IH]; simpl; [set_solver|].
  destruct (Z.eqb_spec c d) as [->|Hne]; [set_solver|].
  destruct (split_once c s) as [[a b]|]; rewrite elem_of_cons; naive_solver.
Qed.

Lemma contains_char_spec c s : contains_char c s = true <-> c ∈ s.
Proof.
  unfold contains_char. rewrite existsb_exists. split.
  - intros [x [Hx E]]. apply Z.eqb_eq in E as <-. by apply list_elem_of_In.
  - intros H. exists c. rewrite Z.eqb_refl. split; [by apply list_elem_of_In|done].
Qed.

(** *** Decimal printing and parsing *)

Lemma digits_value_snoc s c : digits_value (s ++ [c]) = digits_value s * 10 + (c - 48).
Proof. unfold digits_value. by rewrite foldl_app. Qed.

Lemma print_digits_value f n : 0 <= n < 10 ^ Z.of_nat f -> digits_value (print_digits f n) = n.
Proof.
  revert n. induction f as [|f IH]; intros n Hn.
  - simpl in *. cbn. lia.
  - simpl. destruct (Z.ltb_spec n 10) as [H|H]; [cbn; lia|].
    rewrite digits_value_snoc, IH; [pose proof (Z.div_mod n 10); lia|].
    rewrite Nat2Z.inj_succ, Z.pow_succ_r in Hn by lia.
    split; [apply Z.div_pos; lia|]. apply Z.div_lt_upper_bound; lia.
Qed.

Lemma print_digits_all f n : 0 <= n -> forallb is_ascii_digit (print_digits f n) = true.
Proof.
  revert n. induction f as [|f IH]; intros n Hn; simpl; [done|].
  destruct (Z.ltb_spec n 10) as [H|H].
  - simpl. unfold is_ascii_digit. rewrite andb_true_r. apply andb_true_intro. lia.
  - rewrite forallb_app, IH by (apply Z.div_pos; lia). simpl.
    pose proof (Z.mod_pos_bound n 10). unfold is_ascii_digit.
    rewrite andb_true_r. apply andb_true_intro. lia.
Qed.

Lemma print_digits_head f n : 0 < n -> (1 <= f)%nat ->
  n < 10 ^ Z.of_nat f -> exists c s, print_digits f n = c :: s /\ 49 <= c <= 57.
Proof.
  revert n. induction f as [|f IH]; intros n Hn Hf Hlt; [lia|]. simpl.
  destruct (Z.ltb_spec n 10) as [H|H].
  - exists (48 + n), []. split; [done|lia].
  - rewrite Nat2Z.inj_succ, Z.pow_succ_r in Hlt by lia.
    assert (0 < n / 10) by (apply Z.div_str_pos; lia).
    assert (n / 10 < 10 ^ Z.of_nat f) by (apply Z.div_lt_upper_bound; lia).
    destruct f as [|f]; [simpl in *; lia|].
    destruct (IH (n / 10)) as (c & s & -> & Hc); [lia..|].
    by exists c, (s ++ [48 + n mod 10]).
Qed.

Lemma log2_fuel n : 0 <= n -> n < 10 ^ Z.of_nat (S (Z.to_nat (Z.log2 n))).
Proof.
  intros Hn. destruct (Z.eq_dec n 0) as [->|Hz]; [cbn; lia|].
  pose proof (Z.log2_spec n). pose proof (Z.log2_nonneg n).
  rewrite Nat2Z.inj_succ, Z2Nat.id by lia.
  apply (Z.lt_le_trans _ (2 ^ Z.succ (Z.log2 n))); [lia|].
  apply Z.pow_le_mono_l. lia.
Qed.

Lemma to_string_value n : 0 <= n -> digits_value (to_string n) = n.
Proof. intros Hn. apply print_digits_value. split; [done|by apply log2_fuel]. Qed.

Lemma to_string_digits n : 0 <= n -> forallb is_ascii_digit (to_string n) = true.
Proof. apply print_digits_all. Qed.

Lemma to_string_head n : 0 < n -> exists c s, to_string n = c :: s /\ 49 <= c <= 57.
Proof. intros Hn. apply print_digits_head; [done|lia|apply log2_fuel; lia]. Qed.

Lemma to_string_zero : to_string 0 = [48].
Proof. reflexivity. Qed.

Lemma to_string_nonempty n : 0 <= n -> to_string n <> [].
Proof.
  intros Hn. destruct (Z.eq_dec n 0) as [->|]; [done|].
  destruct (to_string_head n) as (c & s & -> & _); [lia|done].
Qed.

Lemma to_string_inj a b : 0 <= a -> 0 <= b -> to_string a = to_string b -> a = b.
Proof.
  intros Ha Hb H. rewrite <- (to_string_value a), <- (to_string_value b) by done.
  by rewrite H.
Qed.

Lemma digit_bounds c : is_ascii_digit c = true <-> 48 <= c <= 57.
Proof. unfold is_ascii_digit. rewrite andb_true_iff. lia. Qed.

Lemma forallb_Forall_digits s :
  forallb is_ascii_digit s = true <-> Forall (fun c => 48 <= c <= 57) s.
Proof.
  rewrite forallb_forall, Forall_forall. setoid_rewrite list_elem_of_In.
  split; intros H x Hx; [by apply digit_bounds, H|apply digit_bounds; by apply H].
Qed.

Lemma digits_value_nonneg s : forallb is_ascii_digit s = true -> 0 <= digits_value s.
Proof.
  rewrite forallb_Forall_digits.
  induction s as [|c s IH] using rev_ind; [done|].
  rewrite Forall_app, Forall_singleton, digits_value_snoc. intros [H1 H2].
  specialize (IH H1). lia.
Qed.

Lemma digits_value_bound s :
  forallb is_ascii_digit s = true -> digits_value s < 10 ^ Z.of_nat (length s).
Proof.
  rewrite forallb_Forall_digits.
  induction s as [|c s IH] using rev_ind; [done|].
  rewrite Forall_app, Forall_singleton, digits_value_snoc, length_app. intros [H1 H2].
  specialize (IH H1). simpl.
  rewrite Nat2Z.inj_add, Z.pow_add_r by lia. change (10 ^ Z.of_nat 1) with 10. lia.
Qed.

Lemma print_digits_snoc f n d :
  0 < n -> 0 <= d < 10 -> print_digits (S f) (n * 10 + d) = print_digits f n ++ [48 + d].
Proof.
  intros Hn Hd. simpl. destruct (Z.ltb_spec (n * 10 + d) 10); [lia|].
  assert ((n * 10 + d) / 10 = n) as -> by (symmetry; apply (Z.div_unique _ _ _ d); lia).
  assert ((n * 10 + d) mod 10 = d) as -> by (symmetry; apply (Z.mod_unique _ _ n); lia).
  done.
Qed.

Lemma print_digits_fuel f f' n :
  (1 <= f)%nat -> (1 <= f')%nat -> 0 <= n -> n < 10 ^ Z.of_nat f -> n < 10 ^ Z.of_nat f' ->
  print_digits f n = print_digits f' n.
Proof.
  revert f' n. induction f as [|f IH]; intros f' n Hf Hf' Hn H1 H2; [lia|].
  destruct f' as [|f']; [lia|]. simpl.
  destruct (Z.ltb_spec n 10) as [H|H]; [done|]. f_equal.
  rewrite Nat2Z.inj_succ, Z.pow_succ_r in H1, H2 by lia.
  destruct f as [|f]; [simpl in *; lia|]. destruct f' as [|f']; [simpl in *; lia|].
  apply IH; [lia|lia|apply Z.div_pos; lia|apply Z.div_lt_upper_bound; lia..].
Qed.

Lemma print_digits_length f n : (length (print_digits f n) <= f)%nat.
Proof.
  revert n. induction f as [|f IH]; intros n; simpl; [lia|].
  destruct (n <? 10); [simpl; lia|]. rewrite length_app. simpl. specialize (IH (n / 10)). lia.
Qed.

Lemma to_string_length k n :
  (1 <= k)%nat -> 0 <= n < 10 ^ Z.of_nat k -> (length (to_string n) <= k)%nat.
Proof.
  intros Hk Hn. unfold to_string.
  rewrite (print_digits_fuel _ k n); [apply print_digits_length|lia|lia|lia|apply log2_fuel; lia|lia].
Qed.

Lemma to_string_ascii n : 0 <= n -> str_len (to_string n) = Z.of_nat (length (to_string n)).
Proof.
  intros Hn. apply str_len_ascii.
  eapply Forall_impl; [apply forallb_Forall_digits, to_string_digits, Hn|]. simpl. lia.
Qed.

(** Printing inverts reading on digit strings without a leading zero. *)
Lemma to_string_of_digits s :
  forallb is_ascii_digit s = true -> s <> [] -> head s <> Some 48 ->
  0 < digits_value s /\ to_string (digits_value s) = s.
Proof.
  rewrite forallb_Forall_digits.
  induction s as [|c s IH] using rev_ind; [done|]. intros Hall _ Hhead.
  rewrite Forall_app, Forall_singleton in Hall. destruct Hall as [H1 H2].
  destruct s as [|e s'].
  - assert (c <> 48) by (simpl in Hhead; congruence).
    rewrite digits_value_snoc. change (digits_value []) with 0.
    split; [lia|]. unfold to_string. cbn [print_digits].
    destruct (Z.ltb_spec (0 * 10 + (c - 48)) 10); [simpl; f_equal; lia|lia].
  - destruct IH as [IH1 IH2]; [done|done|done|].
    rewrite digits_value_snoc. set (v := digits_value (e :: s')) in *.
    split; [lia|]. unfold to_string.
    set (n := v * 10 + (c - 48)).
    assert (n < 10 ^ Z.of_nat (S (S (Z.to_nat (Z.log2 v))))) as Hfuel.
    { pose proof (log2_fuel v). rewrite Nat2Z.inj_succ, Z.pow_succ_r by lia. lia. }
    rewrite (print_digits_fuel _ (S (S (Z.to_nat (Z.log2 v)))) n);
      [|lia|lia|lia|apply log2_fuel; lia|exact Hfuel].
    unfold n. rewrite print_digits_snoc by lia. fold (to_string v). rewrite IH2.
    f_equal. f_equal. lia.
Qed.

Lemma parse_u64_digits s :
  s <> [] -> forallb is_ascii_digit s = true ->
  parse_u64 s = if digits_value s <=? u64_max then Some (digits_value s) else None.
Proof.
  intros Hne Hd. destruct s as [|c s]; [done|].
  pose proof Hd as Hd'. simpl in Hd'. apply andb_prop in Hd' as [Hc _].
  apply digit_bounds in Hc.
  assert (c <> 43) as Hplus by lia. apply Z.eqb_neq in Hplus.
  unfold parse_u64. destruct s as [|d s]; cbv zeta iota; rewrite ?Hplus;
    rewrite bool_decide_eq_false_2, Hd by done; done.
Qed.

Lemma parse_u64_to_string n : in_u64 n -> parse_u64 (to_string n) = Some n.
Proof.
  intros [H1 H2].
  rewrite parse_u64_digits by (apply to_string_nonempty || apply to_string_digits; lia).
  rewrite to_string_value by done. destruct (Z.leb_spec n u64_max); [done|lia].
Qed.

#[export] Hint Resolve to_string_digits to_string_nonempty trim_is_trimmed : rust.

(** ** Single-spaced text

    What joining the words of a text with one space gives: [prev] tells whether
    the character before was a space (or the start of the text). *)
Fixpoint spaced_from (prev : bool) (s : str) : Prop :=
  match s with
  | [] => True
  | c :: s' =>
      if is_whitespace c then c = 32 /\ prev = false /\ spaced_from true s'
      else spaced_from false s'
  end.

Definition ends_in_word (s : str) : Prop := forall c s', s = s' ++ [c] -> is_whitespace c = false.

Definition is_word (w : str) : Prop := w <> [] /\ Forall (fun c => is_whitespace c = false) w.

Lemma split_ws_words cur s :
  Forall (fun c => is_whitespace c = false) cur -> Forall is_word (split_ws_from cur s).
Proof.
  revert cur. induction s as [|c s IH]; intros cur Hcur; simpl.
  - destruct cur as [|d cur]; [constructor|]. repeat constructor.
    + simpl. by destruct (rev cur).
    + by apply Forall_rev.
  - destruct (is_whitespace c) eqn:E; [|apply IH; by constructor].
    destruct cur as [|d cur]; [by apply IH|]. constructor; [|by apply IH].
    split; [simpl; by destruct (rev cur)|by apply Forall_rev].
Qed.

Lemma split_ws_chars cur s c :
  c ∈ join [] (split_ws_from cur s) -> c ∈ cur \/ c ∈ s.
Proof.
  assert (forall w l, c ∈ join [] (w :: l) -> c ∈ w \/ c ∈ join [] l) as Hj.
  { intros w [|v l]; simpl; [auto|]. by rewrite elem_of_app. }
  assert (forall l : str, c ∈ rev l -> c ∈ l) as Hr.
  { intros l. rewrite !list_elem_of_In, <- in_rev. done. }
  revert cur. induction s as [|d s IH]; intros cur; simpl.
  - destruct cur; [set_solver|]. intros H. left. by apply Hr.
  - destruct (is_whitespace d).
    + destruct cur as [|e cur].
      * intros H. apply IH in H as [H|H]; set_solver.
      * intros H. apply Hj in H as [H|H]; [left; by apply Hr|].
        apply IH in H as [H|H]; set_solver.
    + intros H. apply IH in H as [H|H]; set_solver.
Qed.

Lemma join_chars l c : c ∈ join [32] l -> c = 32 \/ c ∈ join [] l.
Proof.
  induction l as [|w [|v l] IH]; [auto|auto|].
  change (join [32] (w :: v :: l)) with (w ++ [32] ++ join [32] (v :: l)).
  change (join [] (w :: v :: l)) with (w ++ [] ++ join [] (v :: l)).
  rewrite !elem_of_app, list_elem_of_singleton. naive_solver.
Qed.

Lemma spaced_word w prev s :
  w <> [] -> Forall (fun c => is_whitespace c = false) w ->
  spaced_from prev (w ++ s) <-> spaced_from false s.
Proof.
  intros Hne Hw. revert prev. induction Hw as [|c w Hc Hw IH]; intros prev; [done|].
  simpl. rewrite Hc. destruct w; [done|]. by apply IH.
Qed.

Lemma join_spaced l prev : Forall is_word l -> spaced_from prev (join [32] l).
Proof.
  intros H. revert prev. induction H as [|w l [Hne Hw] _ IH]; intros prev; [done|].
  destruct l as [|v l].
  - change (join [32] [w]) with w. rewrite <- (app_nil_r w). by apply spaced_word.
  - change (join [32] (w :: v :: l)) with (w ++ 32 :: join [32] (v :: l)).
    apply spaced_word; [done..|]. simpl. auto.
Qed.

Lemma spaced_prefix a b prev : spaced_from prev (a ++ b) -> spaced_from prev a.
Proof.
  revert prev. induction a as [|c a IH]; intros prev; simpl; [done|].
  destruct (is_whitespace c); naive_solver.
Qed.

Lemma ends_in_word_tail c s : ends_in_word (c :: s) -> ends_in_word s.
Proof. intros H d s' ->. by apply (H d (c :: s')). Qed.

Lemma join_split_from cur s :
  spaced_from (bool_decide (cur = [])) s -> ends_in_word s ->
  join [32] (split_ws_from cur s) = rev cur ++ s.
Proof.
  revert cur. induction s as [|c s IH]; intros cur Hs He; simpl.
  - by destruct cur; simpl; rewrite ?app_nil_r.
  - simpl in Hs. destruct (is_whitespace c) eqn:E.
    + destruct Hs as (-> & Hcur & Hs). bprop. destruct cur as [|d cur]; [done|].
      pose proof (IH [] Hs (ends_in_word_tail _ _ He)) as IHs. simpl in IHs.
      destruct (split_ws_from [] s) as [|w l]; [|by rewrite <- IHs].
      simpl in IHs. subst s. specialize (He 32 [] eq_refl). done.
    + rewrite IH; [simpl; by rewrite <- app_assoc|done|by eapply ends_in_word_tail].
Qed.

(** Text that is already single-spaced is what its words give back. *)
Lemma join_split_spaced s :
  spaced_from true s -> ends_in_word s -> join [32] (split_whitespace s) = s.
Proof. intros. by apply (join_split_from []). Qed.

Lemma trim_end_id s : ends_in_word s -> trim_end s = s.
Proof.
  intros H. unfold trim_end. rewrite drop_while_id, rev_involutive; [done|].
  intros c l' Hl. apply (H c (rev l')). rewrite <- (rev_involutive s), Hl. done.
Qed.

(** ** Signed decimals *)

(** [n.to_string()] for an [i64]. *)
Definition i64_to_string (n : Z) : str :=
  if n <? 0 then lit "-" ++ to_string (- n) else to_string n.

(** [i64::from_str]. *)
Definition parse_i64 (s : str) : option Z :=
  match s with
  | 45 :: ((_ :: _) as digits) =>
      if forallb is_ascii_digit digits
      then if digits_value digits <=? - i64_min then Some (- digits_value digits) else None
      else None
  | _ => match parse_u64 s with
         | Some n => if n <=? i64_max then Some n else None
         | None => None
         end
  end.

Lemma parse_i64_to_string n : in_i64 n -> parse_i64 (i64_to_string n) = Some n.
Proof.
  intros Hn. unfold i64_to_string. destruct (Z.ltb_spec n 0) as [Hneg|Hpos].
  - assert (0 < - n) as Hp by lia. destruct (to_string_head (- n) Hp) as (c & s & Hs & _).
    change (lit "-" ++ to_string (- n)) with (45 :: to_string (- n)).
    pose proof (to_string_digits (- n) ltac:(lia)) as Hd.
    pose proof (to_string_value (- n) ltac:(lia)) as Hv. rewrite Hs in *.
    cbn [parse_i64]. rewrite Hd, Hv.
    destruct (Z.leb_spec (- n) (- i64_min)); [f_equal; lia|unfold in_i64 in *; lia].
  - assert (in_u64 n) as Hu.
    { unfold in_u64, u64_max, in_i64, i64_max in *. lia. }
    assert (exists c s, to_string n = c :: s /\ 48 <= c <= 57) as (c & s & Hs & Hc).
    { destruct (Z.eq_dec n 0) as [->|]; [rewrite to_string_zero; exists 48, []; split; [done|lia]|].
      destruct (to_string_head n) as (c & s & Hs & Hc); [lia|]. exists c, s. split; [done|lia]. }
    assert (parse_i64 (to_string n) = match parse_u64 (to_string n) with
      | Some n => if n <=? i64_max then Some n else None | None => None end) as ->.
    { rewrite Hs. unfold parse_i64. by repeat case_match; subst; try lia. }
    rewrite parse_u64_to_string by done.
    destruct (Z.leb_spec n i64_max); [done|unfold in_i64 in *; lia].
Qed.

(** ** UUIDs *)

Definition hex_digit (n : Z) : char := if n <? 10 then 48 + n else 87 + n.

(** The [n] lowest nibbles of [u], most significant first. *)
Fixpoint hex_digits (n : nat) (u : Z) : str :=
  match n with
  | O => []
  | S n' => hex_digit (Z.land (Z.shiftr u (4 * Z.of_nat n')) 15) :: hex_digits n' u
  end.

(** [Uuid]'s [Display]: 8-4-4-4-12 lowercase hexadecimal digits. *)
Definition uuid_to_string (u : Z) : str :=
  let h := hex_digits 32 u in
  take 8 h ++ lit "-" ++ take 4 (drop 8 h) ++ lit "-" ++ take 4 (drop 12 h) ++ lit "-"
  ++ take 4 (drop 16 h) ++ lit "-" ++ drop 20 h.

(** * Big-endian integers and UTF-8

    [to_be_bytes], [from_be_bytes] and [str::as_bytes], with the facts that
    make length-prefixed encodings injective.  A byte is a [Z] in [0, 255]. *)

Abbreviation bytes := (list Z).

(** [n.to_be_bytes()] for a [k]-byte integer, and back. *)
Fixpoint to_be_bytes (k : nat) (n : Z) : bytes :=
  match k with
  | O => []
  | S k' => (n / 256 ^ Z.of_nat k') mod 256 :: to_be_bytes k' n
  end.

Definition from_be_bytes (b : bytes) : Z := foldl (fun acc x => acc * 256 + x) 0 b.

(** A Unicode scalar value in UTF-8, and [str::as_bytes]. *)
Definition utf8_char (c : char) : bytes :=
  if c <? 128 then [c]
  else if c <? 2048 then [192 + c / 64; 128 + c mod 64]
  else if c <? 65536 then [224 + c / 4096; 128 + c / 64 mod 64; 128 + c mod 64]
  else [240 + c / 262144; 128 + c / 4096 mod 64; 128 + c / 64 mod 64; 128 + c mod 64].

Definition as_bytes (s : str) : bytes := concat (map utf8_char s).

(** Code points that a Rust [char] can hold (the surrogates play no part). *)
Definition scalar (c : char) : Prop := 0 <= c < 1114112.
Definition scalars (s : str) : Prop := Forall scalar s.

Lemma to_be_bytes_length k n : length (to_be_bytes k n) = k.
Proof. induction k as [|k IH]; simpl; [done|]. by rewrite IH. Qed.

Lemma foldl_be acc b :
  foldl (fun acc x => acc * 256 + x) acc b = acc * 256 ^ Z.of_nat (length b) + from_be_bytes b.
Proof.
  unfold from_be_bytes. revert acc. induction b as [|x b IH]; intros acc; [simpl; lia|].
  cbn [foldl length]. rewrite IH, (IH (0 * 256 + x)). rewrite Nat2Z.inj_succ, Z.pow_succ_r by lia. lia.
Qed.

Lemma from_to_be_bytes k n : 0 <= n -> from_be_bytes (to_be_bytes k n) = n mod 256 ^ Z.of_nat k.
Proof.
  intros Hn. induction k as [|k IH]; [simpl; by rewrite Z.mod_1_r|].
  cbn [to_be_bytes]. unfold from_be_bytes at 1. cbn [foldl]. rewrite foldl_be, IH, to_be_bytes_length.
  rewrite Nat2Z.inj_succ, Z.pow_succ_r by lia. rewrite Z.mul_comm with (n := 256).
  rewrite Z.rem_mul_r by (try apply Z.pow_nonzero; lia). lia.
Qed.

Lemma from_to_be_small k n : 0 <= n < 256 ^ Z.of_nat k -> from_be_bytes (to_be_bytes k n) = n.
Proof. intros H. rewrite from_to_be_bytes by lia. by apply Z.mod_small. Qed.

Lemma to_be_inj k n m :
  0 <= n < 256 ^ Z.of_nat k -> 0 <= m < 256 ^ Z.of_nat k -> to_be_bytes k n = to_be_bytes k m -> n = m.
Proof. intros Hn Hm H. rewrite <- (from_to_be_small k n), <- (from_to_be_small k m) by done. by rewrite H. Qed.

Lemma utf8_char_length c : Z.of_nat (length (utf8_char c)) = len_utf8 c.
Proof. unfold utf8_char, len_utf8. by repeat destruct (_ <? _). Qed.

Lemma as_bytes_length s : Z.of_nat (length (as_bytes s)) = str_len s.
Proof.
  induction s as [|c s IH]; [done|]. unfold as_bytes in *. cbn [map concat str_len].
  rewrite length_app, Nat2Z.inj_add, IH, utf8_char_length. done.
Qed.

(** UTF-8 is prefix free. *)
Lemma utf8_char_prefix_free c d s t :
  scalar c -> scalar d -> utf8_char c ++ s = utf8_char d ++ t -> c = d /\ s = t.
Proof.
  unfold scalar, utf8_char. intros Hc Hd.
  destruct (Z.ltb_spec c 128), (Z.ltb_spec d 128);
  try (destruct (Z.ltb_spec c 2048)); try (destruct (Z.ltb_spec d 2048));
  try (destruct (Z.ltb_spec c 65536)); try (destruct (Z.ltb_spec d 65536));
    cbn [app]; intros Heq; injection Heq; intros; subst;
    (split; [|done]) || exfalso; Z.to_euclidean_division_equations; lia.
Qed.

Lemma as_bytes_inj s t : scalars s -> scalars t -> as_bytes s = as_bytes t -> s = t.
Proof.
  revert t. induction s as [|c s IH]; intros [|d t] Hs Ht; [done|..].
  - unfold as_bytes. cbn [map concat]. intros H. exfalso. apply (f_equal length) in H.
    rewrite length_app in H. pose proof (utf8_char_length d). pose proof (len_utf8_pos d). simpl in H. lia.
  - unfold as_bytes. cbn [map concat]. intros H. exfalso. apply (f_equal length) in H.
    rewrite length_app in H. pose proof (utf8_char_length c). pose proof (len_utf8_pos c). simpl in H. lia.
  - inversion Hs as [|? ? Hc Hs']; inversion Ht as [|? ? Hd Ht']; subst. unfold as_bytes. cbn [map concat].
    intros H. apply utf8_char_prefix_free in H as [-> H]; [|done|done]. f_equal. by apply IH.
Qed.

(** Two byte strings cut at the same place agree on both sides. *)
Lemma app_inj_length {A} (a b c d : list A) : length a = length c -> a ++ b = c ++ d -> a = c /\ b = d.
Proof. intros Hl H. by apply app_inj_1. Qed.
