(* ===== verification/AppError.v ===== *)
(** * AppError: JSON values and the API's error type ([api/src/error.rs]).

    [value] is serde_json's [Value] with its constructors; the payloads of the
    errors of other crates keep only what [status] and [retry_after_sec] look
    at. *)

From Stdlib Require Import ZArith Lia String SpecFloat.
From stdpp Require Import base list numbers option tactics sets gmap.
From S2P Require Import Prelude Text.
Local Open Scope Z_scope.

(** ** JSON values *)

Inductive number :=
| PosInt (n : Z)
| NegInt (n : Z)
| Float (x : spec_float).

Inductive value :=
| Null
| Bool (b : bool)
| Number (n : number)
| VString (s : str)
| Array (l : list value)
| Object (fields : list (str * value)).

Definition is_object (v : value) : bool := match v with Object _ => true | _ => false end.
Definition as_str (v : value) : option str := match v with VString s => Some s | _ => None end.
Definition as_i64 (v : value) : option Z :=
  match v with
  | Number (PosInt n) => if n <=? i64_max then Some n else None
  | Number (NegInt n) => Some n
  | _ => None
  end.

(** [value["key"]]: [Null] on a missing key or on a value that is no object. *)
Definition field (key : str) (v : value) : value :=
  match v with
  | Object fields =>
      match find (fun kv => bool_decide (kv.1 = key)) fields with
      | Some kv => kv.2
      | None => Null
      end
  | _ => Null
  end.

(** ** The error type *)

Inductive db_error := PoolTimedOut | PoolClosed | DbOther.
Inductive pool_error := PoolErrTimeout | PoolErrClosed | PoolErrOther.
Inductive http_error := HttpTimeout | HttpOther.

Inductive AppError :=
| BadRequest (m : str)
| Unauthorized (m : str)
| Forbidden (m : str)
| NotFound (m : str)
| Conflict (m : str)
| ServiceUnavailable (m : str)
| Coded (status : Z) (code : str) (message : str) (retry_after : option Z)
| ScApi (status : Z) (body : value) (retry_after : option Z)
| ScUnreachable (m : str)
| SoundCloudReauthorizationRequired
| SoundCloudTemporarilyUnavailable (retry_after : option Z)
| SoundCloudRefreshTimedOut
| ScDeadlineExceeded
| SoundCloudRefreshRateLimited (retry_after : Z)
| Db (e : db_error)
| Redis (m : str)
| RedisPool (e : pool_error)
| Http (e : http_error)
| Internal (m : str).

Definition AppResult (A : Type) : Type := result A AppError.

Definition SC_DEADLINE_RETRY_AFTER : Z := 15.
Definition UNAVAILABLE_RETRY_AFTER : Z := 3.
Definition RETRY_AFTER_MAX_SECONDS : Z := 3600.

Definition coded (status : Z) (code message : str) : AppError := Coded status code message None.

Definition with_retry_after (e : AppError) (seconds : Z) : AppError :=
  match e with
  | Coded s c m _ => Coded s c m (Some (Z.max seconds 1))
  | _ => e
  end.

(** [StatusCode::from_u16(status).unwrap_or(BAD_GATEWAY)]: the http crate takes
    three-digit codes only. *)
Definition status_or_bad_gateway (status : Z) : Z :=
  if (100 <=? status) && (status <=? 999) then status else 502.

Definition status (e : AppError) : Z :=
  match e with
  | BadRequest _ => 400
  | Unauthorized _ => 401
  | Forbidden _ => 403
  | NotFound _ => 404
  | Conflict _ => 409
  | ServiceUnavailable _ => 503
  | Coded s _ _ _ | ScApi s _ _ => status_or_bad_gateway s
  | ScUnreachable _ => 502
  | SoundCloudReauthorizationRequired => 409
  | SoundCloudTemporarilyUnavailable _ => 502
  | SoundCloudRefreshTimedOut | ScDeadlineExceeded => 504
  | SoundCloudRefreshRateLimited _ => 429
  | Db (PoolTimedOut | PoolClosed) => 503
  | RedisPool (PoolErrTimeout | PoolErrClosed) => 503
  | Http HttpTimeout => 504
  | Db _ | Redis _ | RedisPool _ | Http _ | Internal _ => 500
  end.

Definition retry_after_sec (e : AppError) : option Z :=
  let seconds :=
    match e with
    | ScApi _ _ r | Coded _ _ _ r | SoundCloudTemporarilyUnavailable r => r
    | SoundCloudRefreshRateLimited r => Some r
    | ScDeadlineExceeded => Some SC_DEADLINE_RETRY_AFTER
    | ServiceUnavailable _
    | Db (PoolTimedOut | PoolClosed)
    | RedisPool (PoolErrTimeout | PoolErrClosed) => Some UNAVAILABLE_RETRY_AFTER
    | _ => None
    end in
  clampZ 1 RETRY_AFTER_MAX_SECONDS <$> seconds.

(** ** Properties *)

(** Every error becomes a three-digit HTTP status, and a [Retry-After] it
    carries is between one second and the hour the policy allows, whatever the
    upstream asked for. *)
Theorem error_response_bounds e :
  100 <= status e <= 999 /\
  (forall s, retry_after_sec e = Some s -> 1 <= s <= RETRY_AFTER_MAX_SECONDS).
Proof.
  split.
  - unfold status, status_or_bad_gateway. repeat case_match; lia.
  - intros s H. unfold retry_after_sec in H. apply fmap_Some in H as (x & _ & ->).
    apply clampZ_range. done.
Qed.
