(* ===== verification/EntityRef.v ===== *)
(** * EntityRef: canonical SoundCloud references ([utils/entity-ref/src/lib.rs]).

    A reference is read from a bare decimal id or from a
    [soundcloud:<segment>:<id>] URN and printed back as the canonical URN, as a
    storage name and as an object key. *)

From Stdlib Require Import ZArith Lia String.
From stdpp Require Import base list numbers option tactics sets gmap.
From S2P Require Import Prelude Text AppError.
Local Open Scope Z_scope.

Inductive EntityKind := Track | Playlist | User.

Global Instance EntityKind_eq_dec : EqDecision EntityKind.
Proof. solve_decision. Defined.

Definition segment (k : EntityKind) : str :=
  match k with
  | Track => lit "tracks"
  | Playlist => lit "playlists"
  | User => lit "users"
  end.

Definition from_segment (s : str) : option EntityKind :=
  if bool_decide (s = lit "tracks") then Some Track
  else if bool_decide (s = lit "playlists") then Some Playlist
  else if bool_decide (s = lit "users") then Some User
  else None.

Record EntityRef := { kind : EntityKind; id : Z }.

Definition URN_PREFIX : str := lit "soundcloud:".

Definition new (k : EntityKind) (i : Z) : option EntityRef :=
  if (0 <? i) && (i <=? i64_max) then Some {| kind := k; id := i |} else None.

Definition parse_digits (raw : str) : option Z :=
  if bool_decide (raw = []) || (19 <? str_len raw) || starts_with (lit "0") raw
     || negb (forallb is_ascii_digit raw)
  then None
  else parse_u64 raw.

Definition colon : char := 58.
Definition underscore : char := 95.

Definition parse_urn (input : str) : option EntityRef :=
  rest ← strip_prefix URN_PREFIX (trim input);
  halves ← split_once colon rest;
  k ← from_segment halves.1;
  n ← parse_digits halves.2;
  new k n.

Definition parse (k : EntityKind) (input : str) : option EntityRef :=
  let input := trim input in
  match parse_urn input with
  | Some parsed => if bool_decide (kind parsed = k) then Some parsed else None
  | None => if contains_char colon input then None else n ← parse_digits input; new k n
  end.

Definition sc_id (r : EntityRef) : str := to_string (id r).
Definition urn (r : EntityRef) : str :=
  URN_PREFIX ++ segment (kind r) ++ lit ":" ++ to_string (id r).
Definition storage_name (r : EntityRef) : str := replace_char colon underscore (urn r).
Definition object_key (r : EntityRef) : str := storage_name r ++ lit ".m4a".

Definition track (input : str) : option EntityRef := parse Track input.
Definition track_urn (input : str) : option str := urn <$> track input.
Definition track_object_key (input : str) : option str := object_key <$> track input.
Definition sc_track_id (input : str) : option str := sc_id <$> track input.

Definition is_canonical_urn (k : EntityKind) (input : str) : bool :=
  match parse_urn input with
  | Some parsed => bool_decide (kind parsed = k) && bool_decide (urn parsed = input)
  | None => false
  end.

(** ** Well-formedness and helper lemmas *)

(** What [EntityRef::new] accepts. *)
Definition wf_ref (r : EntityRef) : Prop := 0 < id r <= i64_max.

Lemma new_Some k i r : new k i = Some r <-> kind r = k /\ id r = i /\ wf_ref r.
Proof.
  unfold new, wf_ref. destruct r as [k' i']; simpl.
  destruct (Z.ltb_spec 0 i), (Z.leb_spec i i64_max); simpl; naive_solver lia.
Qed.

Lemma from_segment_segment k : from_segment (segment k) = Some k.
Proof. by destruct k. Qed.

Lemma from_segment_Some s k : from_segment s = Some k <-> s = segment k.
Proof.
  split; [|intros ->; apply from_segment_segment].
  unfold from_segment. repeat case_bool_decide; naive_solver.
Qed.

Lemma starts_with_zero s : starts_with (lit "0") s = true <-> head s = Some 48.
Proof.
  unfold starts_with. change (lit "0") with [48].
  destruct s as [|c s]; cbn [strip_prefix head]; [split; done|].
  destruct (Z.eqb_spec 48 c); split; congruence.
Qed.

Lemma parse_digits_Some raw n :
  parse_digits raw = Some n <-> raw = to_string n /\ 0 < n < 10 ^ 19.
Proof.
  unfold parse_digits. split.
  - destruct (_ || _) eqn:E; [done|]. intros H.
    apply orb_false_elim in E as [E E4]. apply orb_false_elim in E as [E E3].
    apply orb_false_elim in E as [E1 E2]. bprop.
    assert (head raw <> Some 48) as Hh.
    { rewrite <- starts_with_zero. congruence. }
    destruct (to_string_of_digits raw) as [Hpos Hs]; [done|done|done|].
    rewrite parse_u64_digits in H by done.
    destruct (Z.leb_spec (digits_value raw) u64_max); [|done]. injection H as <-.
    rewrite Hs. split; [done|split; [done|]].
    pose proof (digits_value_bound raw ltac:(done)) as Hb.
    pose proof (str_len_length raw).
    eapply Z.lt_le_trans; [exact Hb|]. apply Z.pow_le_mono_r; lia.
  - intros [-> Hn]. assert (10 ^ 19 <= u64_max) by (vm_compute; discriminate).
    destruct (to_string_head n) as (c & s & Hs & Hc); [lia|].
    rewrite bool_decide_eq_false_2 by (apply to_string_nonempty; lia).
    assert (str_len (to_string n) <= 19) as Hlen.
    { rewrite to_string_ascii by lia. pose proof (to_string_length 19 n). lia. }
    destruct (Z.ltb_spec 19 (str_len (to_string n))); [lia|].
    rewrite to_string_digits by lia.
    destruct (starts_with _ _) eqn:E0.
    + apply starts_with_zero in E0. rewrite Hs in E0. simpl in E0. injection E0 as ->. lia.
    + simpl. apply parse_u64_to_string. unfold in_u64. lia.
Qed.

Lemma to_string_avoids n c : 0 <= n -> is_ascii_digit c = false -> c ∉ to_string n.
Proof.
  intros Hn Hc Hin.
  pose proof (to_string_digits n Hn) as H. rewrite forallb_forall in H.
  rewrite list_elem_of_In in Hin. specialize (H _ Hin). congruence.
Qed.

Lemma segment_avoids k c : is_ascii_lowercase c = false -> c ∉ segment k.
Proof.
  intros Hc Hin. assert (forallb is_ascii_lowercase (segment k) = true) as H by by destruct k.
  rewrite forallb_forall in H. rewrite list_elem_of_In in Hin.
  specialize (H _ Hin). congruence.
Qed.

Lemma digit_not_whitespace c : is_ascii_digit c = true -> is_whitespace c = false.
Proof. rewrite digit_bounds. unfold is_whitespace. lia. Qed.

(** A string ending in a printed number and starting with a non-blank. *)
Lemma trimmed_snoc_number c s n :
  0 <= n -> is_whitespace c = false -> trimmed (c :: s ++ to_string n).
Proof.
  intros Hn Hc. split; [by intros d s' [= <- _]|].
  intros d s' Hs. apply digit_not_whitespace.
  pose proof (to_string_digits n Hn) as Hd. rewrite forallb_forall in Hd. apply Hd.
  destruct (to_string n) as [|e t _] eqn:E using rev_ind; [by apply to_string_nonempty in E|].
  rewrite app_comm_cons, app_assoc in Hs. apply app_inj_tail in Hs as [_ ->].
  apply in_or_app. right. by left.
Qed.

Lemma urn_trimmed r : wf_ref r -> trimmed (urn r).
Proof.
  intros [H _]. unfold urn. rewrite app_assoc, app_assoc.
  destruct (_ ++ lit ":") as [|c s] eqn:E; [done|].
  apply trimmed_snoc_number; [lia|].
  assert (c = 115) as -> by (destruct (kind r); vm_compute in E; congruence). done.
Qed.

Lemma sc_id_trimmed r : wf_ref r -> trimmed (sc_id r).
Proof.
  intros [H _]. unfold sc_id. split.
  - intros c s Hs. apply digit_not_whitespace.
    pose proof (to_string_digits (id r)) as Hd. rewrite Hs in Hd. simpl in Hd.
    specialize (Hd ltac:(lia)). by apply andb_prop in Hd as [? _].
  - intros c s Hs. apply digit_not_whitespace.
    pose proof (to_string_digits (id r)) as Hd. rewrite Hs, forallb_app in Hd.
    specialize (Hd ltac:(lia)). simpl in Hd.
    apply andb_prop in Hd as [_ Hd]. by apply andb_prop in Hd as [? _].
Qed.

Lemma wf_ref_digits r : wf_ref r -> 0 < id r < 10 ^ 19.
Proof. unfold wf_ref. assert (i64_max < 10 ^ 19) by done. lia. Qed.

Lemma parse_urn_iff s r : parse_urn s = Some r <-> trim s = urn r /\ wf_ref r.
Proof.
  unfold parse_urn. split.
  - intros H. apply bind_Some in H as (rest & H1 & H).
    apply bind_Some in H as ([seg i] & H2 & H).
    apply bind_Some in H as (k & H3 & H). apply bind_Some in H as (n & H4 & H5).
    simpl in H3, H4. apply strip_prefix_Some in H1. apply split_once_Some in H2 as [H2 _].
    apply from_segment_Some in H3 as ->. apply parse_digits_Some in H4 as [-> _].
    apply new_Some in H5 as (<- & <- & Hwf). split; [|done].
    unfold urn. by rewrite H1, H2.
  - intros [Hs Hwf]. rewrite Hs. unfold urn. rewrite strip_prefix_app. cbn [mbind option_bind].
    assert (split_once colon (segment (kind r) ++ lit ":" ++ to_string (id r))
            = Some (segment (kind r), to_string (id r))) as ->.
    { apply split_once_Some. split; [done|]. by apply segment_avoids. }
    cbn [mbind option_bind fst snd]. rewrite from_segment_segment. cbn [mbind option_bind].
    assert (parse_digits (to_string (id r)) = Some (id r)) as ->.
    { apply parse_digits_Some. split; [done|by apply wf_ref_digits]. }
    cbn [mbind option_bind]. by apply new_Some.
Qed.

Lemma contains_colon_urn r : contains_char colon (urn r) = true.
Proof. apply contains_char_spec. unfold urn. set_solver. Qed.

Lemma urn_inj r1 r2 : wf_ref r1 -> wf_ref r2 -> urn r1 = urn r2 -> r1 = r2.
Proof.
  intros H1 H2 E. assert (Some r1 = Some r2) as [= ->]; [|done].
  rewrite <- (proj2 (parse_urn_iff (urn r1) r1)), <- (proj2 (parse_urn_iff (urn r2) r2)).
  - by rewrite E.
  - split; [by apply trim_trimmed, urn_trimmed|done].
  - split; [by apply trim_trimmed, urn_trimmed|done].
Qed.

Lemma urn_not_sc_id r r' : wf_ref r -> urn r' <> sc_id r.
Proof.
  intros [Hpos _] E. pose proof (contains_colon_urn r') as Hc. rewrite E in Hc.
  apply contains_char_spec, to_string_avoids in Hc; [done|lia|done].
Qed.

Lemma replace_char_inj a b s t :
  b ∉ s -> b ∉ t -> replace_char a b s = replace_char a b t -> s = t.
Proof.
  revert t. induction s as [|c s IH]; intros [|d t] Hs Ht; simpl; [done..|].
  intros [= Hc Hrest].
  rewrite elem_of_cons in Hs, Ht. f_equal; [|apply IH; tauto].
  destruct (Z.eqb_spec c a), (Z.eqb_spec d a); subst; naive_solver.
Qed.

Lemma underscore_not_urn r : wf_ref r -> underscore ∉ urn r.
Proof.
  intros [H _]. unfold urn. rewrite !not_elem_of_app. split_and!.
  - by vm_compute; set_solver.
  - by apply segment_avoids.
  - vm_compute. set_solver.
  - apply to_string_avoids; [lia|done].
Qed.

Lemma parse_iff k s r :
  parse k s = Some r <-> kind r = k /\ wf_ref r /\ (trim s = urn r \/ trim s = sc_id r).
Proof.
  unfold parse. destruct (parse_urn (trim s)) as [r'|] eqn:E.
  - apply parse_urn_iff in E as [E Hwf]. rewrite trim_idemp in E. rewrite E.
    assert (forall r, wf_ref r -> urn r' = urn r \/ urn r' = sc_id r -> r = r') as Hr.
    { intros r0 H0 [H|H]; [symmetry; by apply urn_inj|by apply urn_not_sc_id in H]. }
    case_bool_decide as Hk.
    + split; [intros [= <-]; auto|]. intros (_ & Hwf' & H). f_equal. symmetry. by apply Hr.
    + split; [done|]. intros (Hk' & Hwf' & H). apply Hr in H; [congruence|done].
  - assert (forall r, wf_ref r -> trim s <> urn r) as Hno.
    { intros r' Hwf H. assert (parse_urn (trim s) = Some r') as H'; [|congruence].
      apply parse_urn_iff. by rewrite trim_idemp. }
    destruct (contains_char colon (trim s)) eqn:Hc.
    + split; [done|]. intros (_ & Hwf & [H|H]); [by apply Hno in H|].
      apply contains_char_spec in Hc. rewrite H in Hc.
      apply to_string_avoids in Hc; [done|unfold wf_ref in *; lia|done].
    + rewrite bind_Some. split.
      * intros (n & H1 & H2). apply parse_digits_Some in H1 as [H1 _].
        apply new_Some in H2 as (<- & <- & Hwf). auto.
      * intros (<- & Hwf & [H|H]); [by apply Hno in H|].
        exists (id r). split; [|by apply new_Some].
        rewrite H. apply parse_digits_Some. split; [done|by apply wf_ref_digits].
Qed.

Lemma is_canonical_urn_iff k s :
  is_canonical_urn k s = true <-> exists r, wf_ref r /\ kind r = k /\ s = urn r.
Proof.
  unfold is_canonical_urn. destruct (parse_urn s) as [r|] eqn:E.
  - apply parse_urn_iff in E as [E Hwf]. rewrite andb_true_iff, !bool_decide_eq_true. split.
    + intros [<- <-]. eauto.
    + intros (r' & Hwf' & <- & ->). rewrite trim_trimmed in E by by apply urn_trimmed.
      assert (r' = r) as -> by by apply urn_inj. done.
  - split; [done|]. intros (r & Hwf & <- & ->).
    rewrite (proj2 (parse_urn_iff (urn r) r)) in E; [done|].
    split; [by apply trim_trimmed, urn_trimmed|done].
Qed.

(** ** Properties *)

(** [EntityRef::parse] accepts exactly two spellings of a reference of the
    requested kind, up to surrounding whitespace: the canonical URN and the bare
    decimal id.  It accepts every well-formed reference in both spellings and
    nothing else (no leading zeros, no foreign kinds, no extra segments, no id
    above [i64::MAX]).  [is_canonical_urn] accepts exactly the printed form: a
    padded or foreign spelling is not canonical although [parse_urn] may read it. *)
Theorem parse_exact k s :
  (forall r, parse k s = Some r <->
     kind r = k /\ wf_ref r /\ (trim s = urn r \/ trim s = sc_id r)) /\
  (is_canonical_urn k s = true <-> exists r, wf_ref r /\ kind r = k /\ s = urn r).
Proof. split; [intros r; apply parse_iff|apply is_canonical_urn_iff]. Qed.

(** URNs round-trip: printing a well-formed reference and reading it back,
    by [parse_urn] or by [parse] at its own kind, gives the reference; read at
    another kind the URN is refused, and the bare id is read at any kind. *)
Theorem urn_roundtrip r (Hwf : wf_ref r) :
  parse_urn (urn r) = Some r /\
  (forall k, parse k (urn r) = if bool_decide (kind r = k) then Some r else None) /\
  (forall k, parse k (sc_id r) = Some {| kind := k; id := id r |}).
Proof.
  assert (parse_urn (urn r) = Some r) as Hu.
  { apply parse_urn_iff. split; [by apply trim_trimmed, urn_trimmed|done]. }
  split_and!; [done| |].
  - intros k. unfold parse. rewrite (trim_trimmed (urn r)) by by apply urn_trimmed.
    by rewrite Hu.
  - intros k. apply parse_iff. split_and!; [done|done|right].
    by apply trim_trimmed, sc_id_trimmed.
Qed.

Lemma urn_roundtrip_witness :
  parse_urn (urn {| kind := Playlist; id := 42 |}) = Some {| kind := Playlist; id := 42 |} /\
  parse Track (urn {| kind := Playlist; id := 42 |}) = None.
Proof.
  destruct (urn_roundtrip {| kind := Playlist; id := 42 |}) as (H1 & H2 & _).
  - unfold wf_ref. simpl. unfold i64_max. lia.
  - split; [exact H1|]. rewrite H2. reflexivity.
Defined.

(** Object keys name one object each: two well-formed references share a
    storage key only when they are the same reference, and a key never holds a
    character that could leave the bucket's flat namespace. *)
Theorem object_key_sound :
  (forall r1 r2, wf_ref r1 -> wf_ref r2 -> object_key r1 = object_key r2 -> r1 = r2) /\
  (forall s key, track_object_key s = Some key ->
     Forall (fun c => is_ascii_lowercase c || is_ascii_digit c || (c =? underscore) || (c =? 46)
                      = true) key).
Proof.
  split.
  - intros r1 r2 H1 H2 H. unfold object_key, storage_name in H.
    apply app_inv_tail in H. apply urn_inj; [done..|].
    eapply replace_char_inj; [..|exact H]; by apply underscore_not_urn.
  - intros s key H. unfold track_object_key, track in H.
    apply fmap_Some in H as (r & H & ->). apply parse_iff in H as (_ & [Hpos _] & _).
    unfold object_key, storage_name, urn, replace_char. rewrite !List.map_app, !Forall_app.
    split_and!; [by repeat constructor|destruct (kind r); by repeat constructor
      |by repeat constructor| |by repeat constructor].
    apply Forall_forall. intros c Hc. rewrite list_elem_of_In in Hc.
    apply in_map_iff in Hc as (d & <- & Hd).
    pose proof (to_string_digits (id r)) as Hall. rewrite forallb_forall in Hall.
    specialize (Hall ltac:(lia) _ Hd). pose proof Hall as Hb. apply digit_bounds in Hb.
    destruct (Z.eqb_spec d colon); [unfold colon in *; lia|].
    rewrite Hall. by rewrite orb_true_r.
Qed.

(** * The spellings of a SoundCloud user

    Source: [utils/catalog-ingest/src/sc_ids.rs] and
    [api/src/common/sc_ids.rs].  A user is stored under a bare id or under a URN;
    queries look a user up under every spelling [user_id_variants] gives. *)

(** What follows the last colon ([rsplit_once(':')], [rsplit(':').next()]). *)
Fixpoint after_last_colon (s : str) : option str :=
  match s with
  | [] => None
  | c :: s' =>
      match after_last_colon s' with
      | Some r => Some r
      | None => if c =? colon then Some s' else None
      end
  end.

Definition extract_sc_id (urn : str) : str := default urn (after_last_colon urn).

Definition user_urn (sc_user_id : str) : str := lit "soundcloud:users:" ++ extract_sc_id sc_user_id.

(** [Vec::dedup]. *)
Fixpoint dedup (l : list str) : list str :=
  match l with
  | x :: ((y :: _) as l') => if bool_decide (x = y) then dedup l' else x :: dedup l'
  | _ => l
  end.

Definition user_id_variants (sc_user_id : str) : list str :=
  let trimmed := trim sc_user_id in
  if bool_decide (trimmed = []) then []
  else
    let bare := extract_sc_id trimmed in
    let out := [trimmed] in
    let out := if bool_decide (bare <> trimmed) then out ++ [bare] else out in
    let out :=
      if forallb is_ascii_digit bare && negb (bool_decide (bare = [])) then
        let urn := lit "soundcloud:users:" ++ bare in
        if bool_decide (urn <> trimmed) then out ++ [urn] else out
      else out in
    dedup out.

Definition normalize_sc_track_id (input : str) : option str := sc_track_id input.

Definition require_ref (k : EntityKind) (input : str) : AppResult EntityRef :=
  match parse k input with
  | Some r => Ok r
  | None =>
      Err (BadRequest match k with
        | Track => lit "invalid track identifier"
        | Playlist => lit "invalid playlist identifier"
        | User => lit "invalid user identifier"
        end)
  end.

(** ** Facts *)

Lemma after_last_colon_Some s r :
  after_last_colon s = Some r <-> exists p, s = p ++ colon :: r /\ colon ∉ r.
Proof.
  revert r. induction s as [|c s IH]; intros r; simpl.
  - split; [done|]. by intros ([|] & ? & _).
  - destruct (after_last_colon s) as [r'|] eqn:E.
    + pose proof (proj1 (IH r') eq_refl) as (p & -> & Hr'). split.
      * intros [= <-]. by exists (c :: p).
      * intros (q & Hq & Hr). destruct q as [|d q]; simpl in Hq.
        -- injection Hq as -> <-. set_solver.
        -- injection Hq as -> Hq. apply (proj2 (IH r)). by exists q.
    + destruct (Z.eqb_spec c colon) as [->|Hc].
      * split; [|intros (q & Hq & Hr)].
        -- intros [= <-]. exists []. split; [done|]. intros Hin. apply list_elem_of_split in Hin as (a & b & ->).
           clear IH. revert E. induction a as [|x a IHa]; simpl; [|by destruct (after_last_colon _)].
           by destruct (after_last_colon b).
        -- destruct q as [|d q]; simpl in Hq; [by injection Hq as ->|]. injection Hq as <- ->.
           exfalso. assert (None = Some r) as HN; [|done]. apply IH. by exists q.
      * split; [done|]. intros (q & Hq & Hr). destruct q as [|d q]; simpl in Hq; [by injection Hq as -> _|].
        injection Hq as -> ->. exfalso. assert (None = Some r) as HN; [|done]. apply IH. by exists q.
Qed.

Lemma extract_sc_id_app p r : colon ∉ r -> extract_sc_id (p ++ colon :: r) = r.
Proof. intros H. unfold extract_sc_id. by rewrite (proj2 (after_last_colon_Some _ r)) by eauto. Qed.

Lemma extract_sc_id_bare r : colon ∉ r -> extract_sc_id r = r.
Proof.
  intros H. unfold extract_sc_id. destruct (after_last_colon r) as [x|] eqn:E; [|done].
  apply after_last_colon_Some in E as (p & -> & _). exfalso. apply H. set_solver.
Qed.

Lemma dedup_NoDup l : NoDup l -> dedup l = l.
Proof.
  induction l as [|x [|y l] IH]; try done. intros Hnd. inversion Hnd as [|? ? Hx Hnd']; subst.
  cbn [dedup]. rewrite bool_decide_eq_false_2 by set_solver. f_equal. by apply IH.
Qed.

(** The two spellings of a user find the same rows. *)
Lemma user_id_variants_id n :
  0 < n <= i64_max -> let bare := to_string n in let urn := lit "soundcloud:users:" ++ bare in
  user_id_variants bare = [bare; urn] /\ user_id_variants urn = [urn; bare].
Proof.
  intros Hn bare urn. set (r := {| EntityRef.kind := User; EntityRef.id := n |}).
  assert (wf_ref r) as Hr by done.
  assert (colon ∉ bare) as Hc by (apply to_string_avoids; [lia|done]).
  assert (forallb is_ascii_digit bare = true) as Hd by (apply to_string_digits; lia).
  assert (bare <> []) as Hne by (apply to_string_nonempty; lia).
  assert (urn = EntityRef.urn r) as Hurn by reflexivity.
  assert (urn <> bare) as Hub by (rewrite Hurn; by apply (urn_not_sc_id r r)).
  assert (trim bare = bare) as Htb by (apply trim_trimmed, (sc_id_trimmed r Hr)).
  assert (trim urn = urn) as Htu by (rewrite Hurn; apply trim_trimmed, (urn_trimmed r Hr)).
  assert (extract_sc_id urn = bare) as Hx by (by apply (extract_sc_id_app (lit "soundcloud:users"))).
  assert (urn <> []) as Hune by (intros H; by vm_compute in H).
  unfold user_id_variants. rewrite Htb, Htu, Hx, (extract_sc_id_bare bare Hc).
  rewrite (bool_decide_eq_false_2 (bare = [])), (bool_decide_eq_false_2 (urn = [])) by done.
  rewrite (bool_decide_eq_false_2 (bare <> bare)) by tauto. rewrite Hd. fold urn.
  rewrite (bool_decide_eq_true_2 (urn <> bare)), (bool_decide_eq_true_2 (bare <> urn)) by done.
  rewrite (bool_decide_eq_false_2 (urn <> urn)) by tauto. cbn [andb negb app].
  split; apply dedup_NoDup; (apply NoDup_cons; split; [set_solver|apply NoDup_singleton]).
Qed.
