(* ===== verification/RoomModel.v ===== *)
(** * RoomModel: the listening room ([api/src/modules/rooms/model.rs] and [model/*.rs]).

    [Room] is the record the store keeps; its methods that take [&mut self] and
    return [AppResult] are computations of [RoomM], so what a method leaves
    behind when it fails is visible.  [serde_json] and [url] are parameters
    ([Externals]). *)

From Stdlib Require Import ZArith Lia String SpecFloat.
From stdpp Require Import base list numbers option tactics sets gmap.
From S2P Require Import Prelude Text AppError EntityRef.
Local Open Scope Z_scope.

Abbreviation Uuid := Z (only parsing).

Definition str_eqb (a b : str) : bool := bool_decide (a = b).

(** ** Third-party code the model calls *)

(** What the code reads of a parsed [url::Url]. *)
Record Url := { url_scheme : str; url_host_str : option str; url_to_string : str }.

Class Externals := {
  (** [serde_json::to_vec(v).map(|b| b.len()).ok()] *)
  json_len : value -> option Z;
  (** [url::Url::parse(raw).ok()] *)
  url_parse : str -> option Url
}.

(** ** Constants *)

Definition MAX_TRACK_BYTES : Z := 24 * 1024.
Definition MAX_START_LEAD_MS : Z := 3000.
Definition CODE_LEN : nat := 6.
Definition CODE_ALPHABET : str := lit "ABCDEFGHJKLMNPQRSTUVWXYZ23456789".
Definition MAX_NAME_CHARS : nat := 64.
Definition MAX_AVATAR_CHARS : Z := 512.
Definition MAX_BANNED : nat := 200.
Definition MAX_MUTE_SECS : Z := 24 * 3600.
Definition MAX_MUTED : nat := 200.
Definition MAX_USER_ID_CHARS : Z := 24.
Definition FREE_CAPACITY : nat := 10.
Definition FREE_MODS_MAX : nat := 3.
Definition STAR_CAPACITY : nat := 25.
Definition STAR_MODS_MAX : nat := 8.
Definition COVER_ACCENTS : Z := 8.
Definition MAX_CROSSFADE_SEC : Z := 12.
Definition MAX_SLOW_MODE_SECS : Z := 600.
Definition PUBLIC_SLOW_MODE_SECS : Z := 3.
Definition MAX_TITLE_CHARS : nat := 48.
Definition MAX_IMAGE_CHARS : Z := 512.
Definition IMAGE_HOST : str := lit "sndcdn.com".

Definition PRESETS : list str :=
  List.map lit ["aurora"; "vinyl"; "sunset-clouds"; "ocean-rays"; "dunes"; "misty-forest";
            "snow-lamp"; "satin"; "paper"; "peach-clouds"; "pastel-lake"; "watercolor";
            "candy-sky"]%string.

(** ** Data *)

Record Member := {
  m_user_id : str;
  m_name : str;
  m_avatar_url : option str;
  m_joined_at : Z;
  m_ready_urn : option str;
  m_chat_from_seq : Z }.

Inductive PlaybackStatus := Idle | Loading | Playing | Paused.

Global Instance PlaybackStatus_eq_dec : EqDecision PlaybackStatus.
Proof. solve_decision. Defined.

Record Playback := {
  pb_status : PlaybackStatus;
  pb_track : option value;
  pb_track_urn : option str;
  pb_next_track : option value;
  pb_position_ms : Z;
  pb_at : Z;
  pb_rate : spec_float;
  pb_crossfade_sec : Z }.

(** [f64] constants: [m * 2 ^ e] with a 53-bit [m]. *)
Definition f64_one : spec_float := S754_finite false 4503599627370496 (-52).
Definition MIN_RATE : spec_float := S754_finite false 4503599627370496 (-53).
Definition MAX_RATE : spec_float := S754_finite false 4503599627370496 (-51).

Definition Playback_default : Playback :=
  {| pb_status := Idle; pb_track := None; pb_track_urn := None; pb_next_track := None;
     pb_position_ms := 0; pb_at := 0; pb_rate := f64_one; pb_crossfade_sec := 0 |}.

Record Mute := { mu_user_id : str; mu_until_ms : Z }.

Record Perks := { star_host : bool; pk_capacity : nat; mods_max : nat }.

Global Instance Perks_eq_dec : EqDecision Perks.
Proof. solve_decision. Defined.

Record Cover := { cv_url : str; cv_accent : Z }.

Inductive RoomImages := Members | Mods | Off.

Global Instance RoomImages_eq_dec : EqDecision RoomImages.
Proof. solve_decision. Defined.

Inductive Backdrop :=
| Preset (preset_id : str)
| Image (media_id : Uuid).

Record Room := {
  code : str;
  host_id : str;
  version : Z;
  created_at : Z;
  members : list Member;
  playback : Playback;
  public : bool;
  title : option str;
  chat_id : option Uuid;
  moderators : list str;
  banned_ids : list str;
  muted : list Mute;
  slow_mode_s : option Z;
  chat_enabled : bool;
  links : bool;
  unlisted : bool;
  perks : Perks;
  cover : option Cover;
  room_images : option RoomImages;
  backdrop : option Backdrop;
  room_id : Uuid }.

Record Profile := { pf_name : str; pf_avatar_url : option str }.

Record PlaybackUpdate := {
  pu_status : PlaybackStatus;
  pu_track : option value;
  pu_track_urn : option str;
  pu_next_track : option value;
  pu_position_ms : Z;
  pu_lead_ms : Z;
  pu_rate : option spec_float;
  pu_crossfade_sec : option Z }.

(** A patch field absent from the request is [None]; [cover] and [backdrop] can
    also be present and null. *)
Record SettingsPatch := {
  sp_title : option str;
  sp_slow_mode_s : option Z;
  sp_chat_enabled : option bool;
  sp_links : option bool;
  sp_cover : option (option Cover);
  sp_room_images : option RoomImages;
  sp_backdrop : option (option Backdrop) }.

(** Field updates. *)
Definition set_code (v : str) (r : Room) : Room :=
  {| code := v; host_id := host_id r; version := version r; created_at := created_at r;
     members := members r; playback := playback r; public := public r; title := title r;
     chat_id := chat_id r; moderators := moderators r; banned_ids := banned_ids r; muted
     := muted r; slow_mode_s := slow_mode_s r; chat_enabled := chat_enabled r; links :=
     links r; unlisted := unlisted r; perks := perks r; cover := cover r; room_images :=
     room_images r; backdrop := backdrop r; room_id := room_id r |}.
Definition set_host_id (v : str) (r : Room) : Room :=
  {| code := code r; host_id := v; version := version r; created_at := created_at r;
     members := members r; playback := playback r; public := public r; title := title r;
     chat_id := chat_id r; moderators := moderators r; banned_ids := banned_ids r; muted
     := muted r; slow_mode_s := slow_mode_s r; chat_enabled := chat_enabled r; links :=
     links r; unlisted := unlisted r; perks := perks r; cover := cover r; room_images :=
     room_images r; backdrop := backdrop r; room_id := room_id r |}.
Definition set_version (v : Z) (r : Room) : Room :=
  {| code := code r; host_id := host_id r; version := v; created_at := created_at r;
     members := members r; playback := playback r; public := public r; title := title r;
     chat_id := chat_id r; moderators := moderators r; banned_ids := banned_ids r; muted
     := muted r; slow_mode_s := slow_mode_s r; chat_enabled := chat_enabled r; links :=
     links r; unlisted := unlisted r; perks := perks r; cover := cover r; room_images :=
     room_images r; backdrop := backdrop r; room_id := room_id r |}.
Definition set_members (v : list Member) (r : Room) : Room :=
  {| code := code r; host_id := host_id r; version := version r; created_at := created_at
     r; members := v; playback := playback r; public := public r; title := title r;
     chat_id := chat_id r; moderators := moderators r; banned_ids := banned_ids r; muted
     := muted r; slow_mode_s := slow_mode_s r; chat_enabled := chat_enabled r; links :=
     links r; unlisted := unlisted r; perks := perks r; cover := cover r; room_images :=
     room_images r; backdrop := backdrop r; room_id := room_id r |}.
Definition set_playback (v : Playback) (r : Room) : Room :=
  {| code := code r; host_id := host_id r; version := version r; created_at := created_at
     r; members := members r; playback := v; public := public r; title := title r;
     chat_id := chat_id r; moderators := moderators r; banned_ids := banned_ids r; muted
     := muted r; slow_mode_s := slow_mode_s r; chat_enabled := chat_enabled r; links :=
     links r; unlisted := unlisted r; perks := perks r; cover := cover r; room_images :=
     room_images r; backdrop := backdrop r; room_id := room_id r |}.
Definition set_public (v : bool) (r : Room) : Room :=
  {| code := code r; host_id := host_id r; version := version r; created_at := created_at
     r; members := members r; playback := playback r; public := v; title := title r;
     chat_id := chat_id r; moderators := moderators r; banned_ids := banned_ids r; muted
     := muted r; slow_mode_s := slow_mode_s r; chat_enabled := chat_enabled r; links :=
     links r; unlisted := unlisted r; perks := perks r; cover := cover r; room_images :=
     room_images r; backdrop := backdrop r; room_id := room_id r |}.
Definition set_title (v : option str) (r : Room) : Room :=
  {| code := code r; host_id := host_id r; version := version r; created_at := created_at
     r; members := members r; playback := playback r; public := public r; title := v;
     chat_id := chat_id r; moderators := moderators r; banned_ids := banned_ids r; muted
     := muted r; slow_mode_s := slow_mode_s r; chat_enabled := chat_enabled r; links :=
     links r; unlisted := unlisted r; perks := perks r; cover := cover r; room_images :=
     room_images r; backdrop := backdrop r; room_id := room_id r |}.
Definition set_chat_id (v : option Uuid) (r : Room) : Room :=
  {| code := code r; host_id := host_id r; version := version r; created_at := created_at
     r; members := members r; playback := playback r; public := public r; title := title
     r; chat_id := v; moderators := moderators r; banned_ids := banned_ids r; muted :=
     muted r; slow_mode_s := slow_mode_s r; chat_enabled := chat_enabled r; links :=
     links r; unlisted := unlisted r; perks := perks r; cover := cover r; room_images :=
     room_images r; backdrop := backdrop r; room_id := room_id r |}.
Definition set_moderators (v : list str) (r : Room) : Room :=
  {| code := code r; host_id := host_id r; version := version r; created_at := created_at
     r; members := members r; playback := playback r; public := public r; title := title
     r; chat_id := chat_id r; moderators := v; banned_ids := banned_ids r; muted := muted
     r; slow_mode_s := slow_mode_s r; chat_enabled := chat_enabled r; links := links r;
     unlisted := unlisted r; perks := perks r; cover := cover r; room_images :=
     room_images r; backdrop := backdrop r; room_id := room_id r |}.
Definition set_banned_ids (v : list str) (r : Room) : Room :=
  {| code := code r; host_id := host_id r; version := version r; created_at := created_at
     r; members := members r; playback := playback r; public := public r; title := title
     r; chat_id := chat_id r; moderators := moderators r; banned_ids := v; muted := muted
     r; slow_mode_s := slow_mode_s r; chat_enabled := chat_enabled r; links := links r;
     unlisted := unlisted r; perks := perks r; cover := cover r; room_images :=
     room_images r; backdrop := backdrop r; room_id := room_id r |}.
Definition set_muted (v : list Mute) (r : Room) : Room :=
  {| code := code r; host_id := host_id r; version := version r; created_at := created_at
     r; members := members r; playback := playback r; public := public r; title := title
     r; chat_id := chat_id r; moderators := moderators r; banned_ids := banned_ids r;
     muted := v; slow_mode_s := slow_mode_s r; chat_enabled := chat_enabled r; links :=
     links r; unlisted := unlisted r; perks := perks r; cover := cover r; room_images :=
     room_images r; backdrop := backdrop r; room_id := room_id r |}.
Definition set_slow_mode_s (v : option Z) (r : Room) : Room :=
  {| code := code r; host_id := host_id r; version := version r; created_at := created_at
     r; members := members r; playback := playback r; public := public r; title := title
     r; chat_id := chat_id r; moderators := moderators r; banned_ids := banned_ids r;
     muted := muted r; slow_mode_s := v; chat_enabled := chat_enabled r; links := links
     r; unlisted := unlisted r; perks := perks r; cover := cover r; room_images :=
     room_images r; backdrop := backdrop r; room_id := room_id r |}.
Definition set_chat_enabled (v : bool) (r : Room) : Room :=
  {| code := code r; host_id := host_id r; version := version r; created_at := created_at
     r; members := members r; playback := playback r; public := public r; title := title
     r; chat_id := chat_id r; moderators := moderators r; banned_ids := banned_ids r;
     muted := muted r; slow_mode_s := slow_mode_s r; chat_enabled := v; links := links r;
     unlisted := unlisted r; perks := perks r; cover := cover r; room_images :=
     room_images r; backdrop := backdrop r; room_id := room_id r |}.
Definition set_links (v : bool) (r : Room) : Room :=
  {| code := code r; host_id := host_id r; version := version r; created_at := created_at
     r; members := members r; playback := playback r; public := public r; title := title
     r; chat_id := chat_id r; moderators := moderators r; banned_ids := banned_ids r;
     muted := muted r; slow_mode_s := slow_mode_s r; chat_enabled := chat_enabled r;
     links := v; unlisted := unlisted r; perks := perks r; cover := cover r; room_images
     := room_images r; backdrop := backdrop r; room_id := room_id r |}.
Definition set_unlisted (v : bool) (r : Room) : Room :=
  {| code := code r; host_id := host_id r; version := version r; created_at := created_at
     r; members := members r; playback := playback r; public := public r; title := title
     r; chat_id := chat_id r; moderators := moderators r; banned_ids := banned_ids r;
     muted := muted r; slow_mode_s := slow_mode_s r; chat_enabled := chat_enabled r;
     links := links r; unlisted := v; perks := perks r; cover := cover r; room_images :=
     room_images r; backdrop := backdrop r; room_id := room_id r |}.
Definition set_perks (v : Perks) (r : Room) : Room :=
  {| code := code r; host_id := host_id r; version := version r; created_at := created_at
     r; members := members r; playback := playback r; public := public r; title := title
     r; chat_id := chat_id r; moderators := moderators r; banned_ids := banned_ids r;
     muted := muted r; slow_mode_s := slow_mode_s r; chat_enabled := chat_enabled r;
     links := links r; unlisted := unlisted r; perks := v; cover := cover r; room_images
     := room_images r; backdrop := backdrop r; room_id := room_id r |}.
Definition set_cover (v : option Cover) (r : Room) : Room :=
  {| code := code r; host_id := host_id r; version := version r; created_at := created_at
     r; members := members r; playback := playback r; public := public r; title := title
     r; chat_id := chat_id r; moderators := moderators r; banned_ids := banned_ids r;
     muted := muted r; slow_mode_s := slow_mode_s r; chat_enabled := chat_enabled r;
     links := links r; unlisted := unlisted r; perks := perks r; cover := v; room_images
     := room_images r; backdrop := backdrop r; room_id := room_id r |}.
Definition set_room_images (v : option RoomImages) (r : Room) : Room :=
  {| code := code r; host_id := host_id r; version := version r; created_at := created_at
     r; members := members r; playback := playback r; public := public r; title := title
     r; chat_id := chat_id r; moderators := moderators r; banned_ids := banned_ids r;
     muted := muted r; slow_mode_s := slow_mode_s r; chat_enabled := chat_enabled r;
     links := links r; unlisted := unlisted r; perks := perks r; cover := cover r;
     room_images := v; backdrop := backdrop r; room_id := room_id r |}.
Definition set_backdrop (v : option Backdrop) (r : Room) : Room :=
  {| code := code r; host_id := host_id r; version := version r; created_at := created_at
     r; members := members r; playback := playback r; public := public r; title := title
     r; chat_id := chat_id r; moderators := moderators r; banned_ids := banned_ids r;
     muted := muted r; slow_mode_s := slow_mode_s r; chat_enabled := chat_enabled r;
     links := links r; unlisted := unlisted r; perks := perks r; cover := cover r;
     room_images := room_images r; backdrop := v; room_id := room_id r |}.

Definition set_ready_urn (v : option str) (m : Member) : Member :=
  {| m_user_id := m_user_id m; m_name := m_name m; m_avatar_url := m_avatar_url m;
     m_joined_at := m_joined_at m; m_ready_urn := v; m_chat_from_seq := m_chat_from_seq m |}.

(** [existing.name = ..; existing.avatar_url = ..] of [Room::join]. *)
Definition set_profile (name : str) (avatar : option str) (m : Member) : Member :=
  {| m_user_id := m_user_id m; m_name := name; m_avatar_url := avatar;
     m_joined_at := m_joined_at m; m_ready_urn := m_ready_urn m;
     m_chat_from_seq := m_chat_from_seq m |}.

Definition RoomM (A : Type) : Type := ST Room AppError A.

(** ** Errors *)

Definition not_member : AppError :=
  coded 404 (lit "room_not_member") (lit "You are not in this room").
Definition banned : AppError :=
  coded 403 (lit "room_banned") (lit "You were banned from this room").
Definition room_full : AppError :=
  coded 409 (lit "room_full") (lit "This listening room is full").
Definition not_allowed : AppError :=
  coded 403 (lit "room_not_allowed") (lit "Only the host or a moderator can do this").
Definition host_only : AppError :=
  coded 403 (lit "room_host_only") (lit "Only the host can do this").
Definition missing : AppError :=
  coded 404 (lit "room_member_missing") (lit "This person is not in the room").
Definition moderators_full : AppError :=
  coded 409 (lit "room_moderators_full") (lit "This room has all the moderators it can have").
Definition star_required : AppError :=
  coded 403 (lit "room_star_required") (lit "Only a STAR host can do this").
Definition invalid : AppError :=
  coded 400 (lit "room_invalid") (lit "This room setting is not valid").
Definition cooling_down : AppError :=
  coded 403 (lit "room_backdrop_cooldown") (lit "The room image backdrop is paused for now").

(** ** Text rules *)

(** [new_code]: the generator's picks are an argument. *)
Definition new_code (picks : list nat) : str :=
  List.map (fun i => nth i CODE_ALPHABET 0) (take CODE_LEN picks).

Definition normalize_code (input : str) : option str :=
  let code := List.map to_ascii_uppercase
    (List.filter (fun c => negb (is_whitespace c) && negb (c =? 45)) input) in
  if (str_len code =? Z.of_nat CODE_LEN) && forallb (fun c => contains_char c CODE_ALPHABET) code
  then Some code else None.

Definition clean_name (name fallback : str) : str :=
  let name := take MAX_NAME_CHARS (List.filter (fun c => negb (is_control c)) (trim name)) in
  if bool_decide (name = []) then fallback else name.

Definition clean_avatar (url : option str) : option str :=
  url ← url;
  let url := trim url in
  if starts_with (lit "https://") url && (str_len url <=? MAX_AVATAR_CHARS) then Some url else None.

Definition invisible (c : char) : bool :=
  ((8203 <=? c) && (c <=? 8207)) || ((8234 <=? c) && (c <=? 8238))
  || ((8288 <=? c) && (c <=? 8297)) || (c =? 65279).

Definition clean_title (raw : str) : option str :=
  let visible := List.filter (fun c => negb (is_control c) && negb (invisible c))
    (List.map (fun c => if is_whitespace c then 32 else c) raw) in
  let title := take MAX_TITLE_CHARS (join [32] (split_whitespace visible)) in
  let title := trim_end title in
  if bool_decide (title = []) then None else Some title.

Definition plausible_user (id : str) : bool :=
  let digits := match strip_prefix (lit "lt:") id with Some d => d | None => id end in
  (str_len id <=? MAX_USER_ID_CHARS) && negb (bool_decide (digits = []))
  && forallb is_ascii_digit digits.

Definition artwork_url `{Externals} (raw : str) : option str :=
  if MAX_IMAGE_CHARS <? str_len raw then None else
  url ← url_parse raw;
  host ← url_host_str url;
  let trusted := str_eqb host IMAGE_HOST ||
    match strip_suffix IMAGE_HOST host with
    | Some rest => ends_with_char 46 rest
    | None => false
    end in
  if str_eqb (url_scheme url) (lit "https") && trusted then Some (url_to_string url) else None.

(** ** Members and perks *)

Definition Member_new (user_id : str) (profile : Profile) (now : Z) : Member :=
  {| m_user_id := user_id; m_name := clean_name (pf_name profile) user_id;
     m_avatar_url := clean_avatar (pf_avatar_url profile);
     m_joined_at := now; m_ready_urn := None; m_chat_from_seq := 0 |}.

Definition reading_from (seq : Z) (m : Member) : Member :=
  {| m_user_id := m_user_id m; m_name := m_name m; m_avatar_url := m_avatar_url m;
     m_joined_at := m_joined_at m; m_ready_urn := m_ready_urn m;
     m_chat_from_seq := Z.max seq 0 |}.

Definition Perks_free : Perks :=
  {| star_host := false; pk_capacity := FREE_CAPACITY; mods_max := FREE_MODS_MAX |}.
Definition Perks_star : Perks :=
  {| star_host := true; pk_capacity := STAR_CAPACITY; mods_max := STAR_MODS_MAX |}.
Definition Perks_of (star_host : bool) : Perks := if star_host then Perks_star else Perks_free.

Definition checked `{Externals} (c : Cover) : option Cover :=
  url ← artwork_url (cv_url c);
  if cv_accent c <? COVER_ACCENTS then Some {| cv_url := url; cv_accent := cv_accent c |} else None.

Definition RoomImages_resolve (stored : option RoomImages) (public : bool) : RoomImages :=
  match stored, public with
  | (None | Some Members), true => Mods
  | None, false => Members
  | Some policy, _ => policy
  end.

Definition known (b : Backdrop) : bool :=
  match b with
  | Preset id => existsb (str_eqb id) PRESETS
  | Image _ => true
  end.

Definition image (b : Backdrop) : option Uuid :=
  match b with Image media_id => Some media_id | Preset _ => None end.

(** ** The room: queries *)

Definition Room_new (code : str) (host : Member) (public : bool) (now : Z) (now_v7 : Uuid) : Room :=
  {| code := code; host_id := m_user_id host; version := 1; created_at := now;
     members := [host]; playback := Playback_default; public := public; title := None;
     chat_id := None; moderators := []; banned_ids := []; muted := []; slow_mode_s := None;
     chat_enabled := true; links := true; unlisted := false; perks := Perks_free;
     cover := None; room_images := None; backdrop := None; room_id := now_v7 |}.

Definition is_user (u : str) (m : Member) : bool := str_eqb (m_user_id m) u.
Definition is_member (r : Room) (u : str) : bool := any (is_user u) (members r).
Definition member (r : Room) (u : str) : option Member := find (is_user u) (members r).
Definition is_host (r : Room) (u : str) : bool := str_eqb (host_id r) u.
Definition is_banned (r : Room) (u : str) : bool := any (fun id => str_eqb id u) (banned_ids r).
Definition is_moderator (r : Room) (u : str) : bool := any (fun id => str_eqb id u) (moderators r).
Definition can_moderate (r : Room) (u : str) : bool := is_host r u || is_moderator r u.

Definition capacity (r : Room) : nat := pk_capacity (perks r).
Definition is_full (r : Room) : bool := (capacity r <=? length (members r))%nat.
Definition images_policy (r : Room) : RoomImages := RoomImages_resolve (room_images r) (public r).
Definition cover_shown (r : Room) : option Cover := if star_host (perks r) then cover r else None.

Definition backdrop_shown (r : Room) : option Backdrop :=
  if star_host (perks r) then backdrop r else None.
Definition backdrop_in_public (r : Room) : option Backdrop :=
  match backdrop_shown r with
  | Some b => match image b with None => Some b | Some _ => None end
  | None => None
  end.
Definition image_backdrop (r : Room) : option Uuid := b ← backdrop r; image b.
Definition image_shown (r : Room) : option Uuid := b ← backdrop_shown r; image b.

Definition muted_until (r : Room) (user_id : str) (now : Z) : option Z :=
  mu_until_ms <$> find (fun m => str_eqb (mu_user_id m) user_id && (now <? mu_until_ms m)) (muted r).

Definition slow_mode (r : Room) : Z :=
  let default := if public r then PUBLIC_SLOW_MODE_SECS else 0 in
  match slow_mode_s r with Some s => s | None => default end.

(** ** The room: changes *)

Definition member_ids (r : Room) : list str := List.map m_user_id (members r).

Definition keep_members_only (r : Room) : Room :=
  set_moderators (retain (fun id => existsb (str_eqb id) (member_ids r)) (moderators r)) r.

Definition remove (user_id : str) : RoomM bool :=
  before ← gets (fun r => length (members r));
  modify (fun r => set_members (retain (fun m => negb (is_user user_id m)) (members r)) r);;
  modify keep_members_only;;
  gets (fun r => negb (length (members r) =? before)%nat).

Definition set_public_op (user_id : str) (v : bool) : RoomM unit :=
  r ← gets (fun r => r);
  ensure (is_host r user_id) (Forbidden (lit "Only the host opens or closes the room"));;
  modify (set_public v).

Definition drop_absent (online : list str) (joined_after : Z) (r : Room) : Room :=
  let keep m := str_eqb (m_user_id m) (host_id r) || (joined_after <? m_joined_at m)
                || existsb (str_eqb (m_user_id m)) online in
  keep_members_only (set_members (retain keep (members r)) r).

Definition join_room (m : Member) : RoomM unit :=
  r ← gets (fun r => r);
  if is_member r (m_user_id m)
  then modify (fun r => set_members
         (update_first (is_user (m_user_id m)) (set_profile (m_name m) (m_avatar_url m))
            (members r)) r)
  else
    ensure (negb (is_banned r (m_user_id m))) banned;;
    ensure (negb (is_full r)) room_full;;
    modify (fun r => set_members (members r ++ [m]) r).

(** *** Backdrops *)

Definition drop_image_backdrop (r : Room) : Room :=
  match image_backdrop r with Some _ => set_backdrop None r | None => r end.

Definition clear_image_backdrop (media : Uuid) : RoomM bool :=
  r ← gets (fun r => r);
  if bool_decide (image_backdrop r = Some media)
  then modify (set_backdrop None);; mret true
  else mret false.

(** *** Handing the room over *)

Fixpoint str_cmp (a b : str) : comparison :=
  match a, b with
  | [], [] => Eq
  | [], _ :: _ => Lt
  | _ :: _, [] => Gt
  | x :: a', y :: b' => match x ?= y with Eq => str_cmp a' b' | c => c end
  end.

Definition join_order (a b : Member) : comparison :=
  match m_joined_at a ?= m_joined_at b with
  | Eq => str_cmp (m_user_id a) (m_user_id b)
  | c => c
  end.

(** [Iterator::min_by]: the first of the minimal elements. *)
Definition min_by {A} (cmp : A -> A -> comparison) (l : list A) : option A :=
  match l with
  | [] => None
  | x :: l' => Some (foldl (fun best y => match cmp best y with Gt => y | _ => best end) x l')
  end.

Definition next_host (r : Room) (leaving : str) (candidates : list str) : option str :=
  m_user_id <$> min_by join_order
    (List.filter (fun m => negb (is_user leaving m) && existsb (str_eqb (m_user_id m)) candidates)
            (members r)).

Definition hand_off (leaving : str) (candidates : list str) : RoomM (option str) :=
  r ← gets (fun r => r);
  match next_host r leaving candidates with
  | None => mret None
  | Some next =>
      remove leaving;;
      modify (set_host_id next);;
      modify (fun r => set_moderators (retain (fun id => negb (str_eqb id next)) (moderators r)) r);;
      modify (fun r => set_muted (retain (fun m => negb (str_eqb (mu_user_id m) next)) (muted r)) r);;
      modify drop_image_backdrop;;
      mret (Some next)
  end.

(** *** Moderation *)

Definition trim_front {A} (l : list A) (max : nat) : list A := drop (length l - max) l.

Definition may_act_on (actor target : str) : RoomM unit :=
  r ← gets (fun r => r);
  let outranked := is_host r target || (negb (is_host r actor) && is_moderator r target) in
  ensure (negb (negb (can_moderate r actor) || str_eqb actor target || outranked)) not_allowed.

Definition kick (actor target : str) : RoomM unit :=
  may_act_on actor target;;
  removed ← remove target;
  ensure removed missing.

Definition ban (actor target : str) : RoomM unit :=
  r ← gets (fun r => r);
  ensure (is_host r actor) host_only;;
  ensure (negb (str_eqb actor target)) not_allowed;;
  ensure (is_member r target || plausible_user target) missing;;
  remove target;;
  modify (fun r => if is_banned r target then r else set_banned_ids (banned_ids r ++ [target]) r);;
  modify (fun r => set_banned_ids (trim_front (banned_ids r) MAX_BANNED) r).

Definition mute (actor target : str) (seconds now : Z) : RoomM unit :=
  may_act_on actor target;;
  r ← gets (fun r => r);
  ensure (is_member r target) missing;;
  modify (fun r => set_muted
    (retain (fun m => (now <? mu_until_ms m) && negb (str_eqb (mu_user_id m) target)) (muted r)) r);;
  modify (fun r =>
    if 0 <? seconds
    then set_muted (muted r ++
           [{| mu_user_id := target;
               mu_until_ms := wrap_i64 (now + Z.min seconds MAX_MUTE_SECS * 1000) |}]) r
    else r);;
  modify (fun r => set_muted (trim_front (muted r) MAX_MUTED) r).

Definition set_moderator (actor target : str) (on : bool) : RoomM unit :=
  r ← gets (fun r => r);
  ensure (is_host r actor) host_only;;
  ensure (negb (is_host r target)) not_allowed;;
  if negb on
  then modify (fun r => set_moderators (retain (fun id => negb (str_eqb id target)) (moderators r)) r)
  else
    ensure (is_member r target) missing;;
    if is_moderator r target then mret tt
    else
      ensure (length (moderators r) <? mods_max (perks r))%nat moderators_full;;
      modify (fun r => set_moderators (moderators r ++ [target]) r).

(** *** Playback *)

Section with_externals.
Context `{Externals}.

Definition require_ref (k : EntityKind) (input : str) : AppResult EntityRef :=
  match EntityRef.parse k input with
  | Some r => Ok r
  | None => Err (BadRequest (match k with
                             | Track => lit "invalid track identifier"
                             | Playlist => lit "invalid playlist identifier"
                             | User => lit "invalid user identifier"
                             end))
  end.

Definition check_snapshot (track : value) : RoomM unit :=
  let size := match json_len track with Some n => n | None => u64_max end in
  ensure (negb ((MAX_TRACK_BYTES <? size) || negb (is_object track)))
    (BadRequest (lit "track snapshot is too large")).

Definition check_snapshot_opt (t : option value) : RoomM unit :=
  match t with Some v => check_snapshot v | None => mret tt end.

(** [f64::clamp]: a NaN stays a NaN. *)
Definition f64_clamp (lo hi x : spec_float) : spec_float :=
  let x := if SFltb x lo then lo else x in
  if SFltb hi x then hi else x.

Definition parse_track_urn (o : option str) : AppResult (option str) :=
  match o with
  | Some u => match require_ref Track u with Ok r => Ok (Some (urn r)) | Err e => Err e end
  | None => Ok None
  end.

Definition set_playback_op (user_id : str) (update : PlaybackUpdate) (now : Z) : RoomM unit :=
  r ← gets (fun r => r);
  ensure (is_host r user_id) (Forbidden (lit "Only the host controls playback"));;
  track_urn ← of_result (parse_track_urn (pu_track_urn update));
  ensure (negb (bool_decide (track_urn = None) && negb (bool_decide (pu_status update = Idle))))
    (BadRequest (lit "trackUrn is required"));;
  check_snapshot_opt (pu_track update);;
  check_snapshot_opt (pu_next_track update);;
  let same_track := bool_decide (track_urn = pb_track_urn (playback r)) in
  let keep (new old : option value) :=
    match new with Some t => Some t | None => if same_track then old else None end in
  modify (set_playback
    {| pb_status := pu_status update;
       pb_track := keep (pu_track update) (pb_track (playback r));
       pb_track_urn := track_urn;
       pb_next_track := keep (pu_next_track update) (pb_next_track (playback r));
       pb_position_ms := Z.max (pu_position_ms update) 0;
       pb_at := wrap_i64 (now + clampZ 0 MAX_START_LEAD_MS (pu_lead_ms update));
       pb_rate := f64_clamp MIN_RATE MAX_RATE
                    (match pu_rate update with Some x => x | None => f64_one end);
       pb_crossfade_sec := Z.min (match pu_crossfade_sec update with
                                  | Some s => s
                                  | None => pb_crossfade_sec (playback r)
                                  end) MAX_CROSSFADE_SEC |}).

Definition mark_ready (user_id track_urn : str) : RoomM bool :=
  parsed ← of_result (require_ref Track track_urn);
  let u := urn parsed in
  r ← gets (fun r => r);
  m ← of_option not_member (member r user_id);
  if bool_decide (m_ready_urn m = Some u) then mret false
  else
    modify (fun r => set_members
      (update_first (is_user user_id) (set_ready_urn (Some u)) (members r)) r);;
    mret true.

(** *** Settings *)

Definition wanted_image (p : SettingsPatch) : option Uuid :=
  b ← sp_backdrop p; b ← b; image b.

Definition sets_star_perk (p : SettingsPatch) : bool :=
  match sp_cover p with Some (Some _) => true | _ => false end
  || match sp_backdrop p with Some (Some _) => true | _ => false end.

Definition set_backdrop_op (b : option Backdrop) (cooldown : option Z) : RoomM unit :=
  match b with
  | None => modify (set_backdrop None)
  | Some b =>
      ensure (known b) invalid;;
      ensure (negb (bool_decide (is_Some (image b)) && bool_decide (is_Some cooldown))) cooling_down;;
      modify (set_backdrop (Some b))
  end.

Definition checked_cover (c : option Cover) : RoomM (option Cover) :=
  match c with
  | None => mret None
  | Some c => c ← of_option invalid (checked c); mret (Some c)
  end.

(** [if let Some(v) = field { .. }] *)
Definition when_some {A} (o : option A) (k : A -> RoomM unit) : RoomM unit :=
  match o with Some a => k a | None => mret tt end.

Definition apply_settings (actor : str) (p : SettingsPatch) (cooldown : option Z) : RoomM unit :=
  r ← gets (fun r => r);
  ensure (is_host r actor) host_only;;
  ensure (negb (sets_star_perk p && negb (star_host (perks r)))) star_required;;
  when_some (sp_cover p) (fun c => c ← checked_cover c; modify (set_cover c));;
  when_some (sp_room_images p) (fun policy =>
    ensure (negb (bool_decide (policy = Members) && public r)) invalid;;
    modify (set_room_images (Some policy)));;
  when_some (sp_backdrop p) (fun b => set_backdrop_op b cooldown);;
  when_some (sp_title p) (fun t => modify (set_title (clean_title t)));;
  when_some (sp_slow_mode_s p) (fun s => modify (set_slow_mode_s (Some (Z.min s MAX_SLOW_MODE_SECS))));;
  when_some (sp_chat_enabled p) (fun on => modify (set_chat_enabled on));;
  when_some (sp_links p) (fun on => modify (set_links on)).
End with_externals.
