(* ===== verification/RoomInvariant.v ===== *)
(** * RoomInvariant: what every listening room satisfies, and what its methods do.

    [wf_room] is the invariant of a stored room; each method of [RoomModel]
    preserves it on its success path and on its error path.  The second half
    states the functional behaviour of the methods: who may do what, and what
    changes. *)

From Stdlib Require Import ZArith Lia String SpecFloat.
From stdpp Require Import base list numbers option tactics sets gmap.
From S2P Require Import Prelude Text AppError EntityRef RoomModel.
Local Open Scope Z_scope.

Definition muted_ids (r : Room) : list str := List.map mu_user_id (muted r).

Record wf_room (r : Room) : Prop := {
  wf_members_nodup : NoDup (member_ids r);
  wf_members_len : (length (members r) <= STAR_CAPACITY)%nat;
  wf_host : host_id r ∈ member_ids r;
  wf_mods_members : forall id, id ∈ moderators r -> id ∈ member_ids r;
  wf_mods_nodup : NoDup (moderators r);
  wf_mods_len : (length (moderators r) <= STAR_MODS_MAX)%nat;
  wf_host_not_mod : host_id r ∉ moderators r;
  wf_banned_out : forall id, id ∈ banned_ids r -> id ∉ member_ids r;
  wf_banned_nodup : NoDup (banned_ids r);
  wf_banned_len : (length (banned_ids r) <= MAX_BANNED)%nat;
  wf_muted_nodup : NoDup (muted_ids r);
  wf_muted_len : (length (muted r) <= MAX_MUTED)%nat;
  wf_host_heard : host_id r ∉ muted_ids r;
  wf_perks : perks r = Perks_free \/ perks r = Perks_star }.

(** ** Reflection of the Boolean queries *)

Lemma str_eqb_eq a b : str_eqb a b = true <-> a = b.
Proof. apply bool_decide_eq_true. Qed.

Lemma str_eqb_neq a b : str_eqb a b = false <-> a <> b.
Proof. apply bool_decide_eq_false. Qed.

Lemma str_eqb_refl a : str_eqb a a = true.
Proof. by apply str_eqb_eq. Qed.

Lemma is_user_true u m : is_user u m = true <-> m_user_id m = u.
Proof. apply str_eqb_eq. Qed.

Lemma existsb_str_eqb id l : existsb (str_eqb id) l = true <-> id ∈ l.
Proof.
  rewrite existsb_exists. split.
  - intros [x [Hx E]]. apply str_eqb_eq in E as <-. by apply list_elem_of_In.
  - intros H. exists id. split; [by apply list_elem_of_In|apply str_eqb_refl].
Qed.

Lemma any_str_eqb id l : any (fun x => str_eqb x id) l = true <-> id ∈ l.
Proof.
  rewrite any_spec. split.
  - intros [x [Hx E]]. by apply str_eqb_eq in E as <-.
  - intros H. exists id. split; [done|apply str_eqb_refl].
Qed.

Lemma member_ids_In r u : u ∈ member_ids r <-> exists m, m ∈ members r /\ m_user_id m = u.
Proof.
  unfold member_ids. rewrite list_elem_of_In, in_map_iff.
  split; intros (m & H1 & H2); exists m; rewrite list_elem_of_In in *; auto.
Qed.

Lemma is_member_true r u : is_member r u = true <-> u ∈ member_ids r.
Proof.
  unfold is_member. rewrite any_spec, member_ids_In.
  by setoid_rewrite is_user_true.
Qed.

Lemma is_host_true r u : is_host r u = true <-> host_id r = u.
Proof. apply str_eqb_eq. Qed.

Lemma is_moderator_true r u : is_moderator r u = true <-> u ∈ moderators r.
Proof. apply any_str_eqb. Qed.

Lemma is_banned_true r u : is_banned r u = true <-> u ∈ banned_ids r.
Proof. apply any_str_eqb. Qed.

Lemma bool_false_iff (b : bool) (P : Prop) : (b = true <-> P) -> (b = false <-> ~ P).
Proof. destruct b; naive_solver. Qed.

Definition is_member_false r u := bool_false_iff _ _ (is_member_true r u).
Definition is_host_false r u := bool_false_iff _ _ (is_host_true r u).
Definition is_moderator_false r u := bool_false_iff _ _ (is_moderator_true r u).
Definition is_banned_false r u := bool_false_iff _ _ (is_banned_true r u).

(** Turn every query test in the context into the proposition it decides. *)
Ltac room_prop :=
  repeat (bprop; match goal with
  | H : is_member _ _ = true |- _ => apply is_member_true in H
  | H : is_member _ _ = false |- _ => apply is_member_false in H
  | H : is_host _ _ = true |- _ => apply is_host_true in H
  | H : is_host _ _ = false |- _ => apply is_host_false in H
  | H : is_moderator _ _ = true |- _ => apply is_moderator_true in H
  | H : is_moderator _ _ = false |- _ => apply is_moderator_false in H
  | H : is_banned _ _ = true |- _ => apply is_banned_true in H
  | H : is_banned _ _ = false |- _ => apply is_banned_false in H
  | H : str_eqb _ _ = true |- _ => apply str_eqb_eq in H
  | H : str_eqb _ _ = false |- _ => apply str_eqb_neq in H
  end); bprop.

(** ** Preservation: building blocks *)

Lemma wf_perks_capacity r : wf_room r -> (capacity r <= STAR_CAPACITY)%nat.
Proof.
  intros H. unfold capacity, STAR_CAPACITY.
  destruct (wf_perks r H) as [-> | ->]; simpl; unfold FREE_CAPACITY, STAR_CAPACITY; lia.
Qed.

Lemma wf_perks_mods r : wf_room r -> (mods_max (perks r) <= STAR_MODS_MAX)%nat.
Proof.
  intros H. destruct (wf_perks r H) as [-> | ->]; simpl;
    unfold FREE_MODS_MAX, STAR_MODS_MAX; lia.
Qed.

(** Dropping members other than the host, then [keep_members_only]. *)
Lemma wf_retain_members keep r :
  wf_room r -> (forall m, m ∈ members r -> m_user_id m = host_id r -> keep m = true) ->
  wf_room (keep_members_only (set_members (retain keep (members r)) r)).
Proof.
  intros H Hkeep.
  assert (forall id, id ∈ List.map m_user_id (retain keep (members r)) -> id ∈ member_ids r) as Hsub.
  { intros id Hid. eapply elem_of_sublist; [exact Hid|apply map_retain_sublist]. }
  destruct H. constructor; try done.
  - by apply NoDup_map_retain.
  - etrans; [apply retain_length|done].
  - apply member_ids_In in wf_host0 as (m & Hm & Hid). apply member_ids_In.
    exists m. split; [|done]. apply retain_In. auto.
  - intros id Hid. simpl in Hid. apply retain_In in Hid as [_ Hid].
    by apply existsb_str_eqb in Hid.
  - by apply retain_NoDup.
  - etrans; [apply retain_length|done].
  - simpl. rewrite retain_In. tauto.
  - intros id Hid Hm. apply (wf_banned_out0 id Hid). by apply Hsub.
Qed.

Lemma retain_not_user u r :
  u ∉ List.map m_user_id (retain (fun m => negb (is_user u m)) (members r)).
Proof.
  rewrite list_elem_of_In, in_map_iff. intros (m & Hm & Hin).
  apply list_elem_of_In, retain_In in Hin as [_ Hin].
  apply negb_true_iff in Hin. apply is_user_true in Hm. congruence.
Qed.

(** The room [remove] leaves. *)
Definition removed (u : str) (r : Room) : Room :=
  keep_members_only (set_members (retain (fun m => negb (is_user u m)) (members r)) r).

Lemma remove_run u r : remove u r = (Ok (is_member r u), removed u r).
Proof.
  cbv [remove mbind ST_bind gets modify]. unfold removed. f_equal. f_equal.
  assert (forall l, negb (length (retain (fun m => negb (is_user u m)) l) =? length l)%nat
          = any (is_user u) l) as Hl; [|apply Hl].
  intros l. induction l as [|m l IH]; [done|]. simpl.
  destruct (is_user u m); simpl; [|by rewrite <- IH].
  pose proof (retain_length (fun m => negb (is_user u m)) l).
  apply negb_true_iff, Nat.eqb_neq. unfold retain in *. lia.
Qed.

Lemma wp_remove u (Q : bool -> Room -> Prop) F r :
  wp (remove u) Q F r = Q (is_member r u) (removed u r).
Proof. apply wp_eq_run, remove_run. Qed.

#[export] Hint Rewrite wp_remove : wp.

Lemma wf_removed u r : wf_room r -> u <> host_id r -> wf_room (removed u r).
Proof.
  intros H Hne. apply wf_retain_members; [done|].
  intros m _ Hm. apply negb_true_iff. destruct (is_user u m) eqn:E; [|done].
  apply is_user_true in E. congruence.
Qed.

Lemma removed_gone u r : u ∉ member_ids (removed u r).
Proof. apply retain_not_user. Qed.

Lemma removed_members u r id : id ∈ member_ids (removed u r) <-> id ∈ member_ids r /\ id <> u.
Proof.
  rewrite !member_ids_In. unfold removed. simpl. split.
  - intros (m & Hm & <-). apply retain_In in Hm as [Hm Hn]. split; [eauto|].
    intros E. apply is_user_true in E. by rewrite E in Hn.
  - intros [(m & Hm & <-) Hne]. exists m. split; [|done]. apply retain_In. split; [done|].
    apply negb_true_iff. destruct (is_user u m) eqn:E; [|done]. by apply is_user_true in E.
Qed.

Lemma removed_not_member u r : wf_room r -> is_member r u = false -> removed u r = r.
Proof.
  intros H Hn. room_prop. unfold removed, keep_members_only.
  rewrite (retain_all _ (members r)).
  2: { intros m Hm. apply negb_true_iff. destruct (is_user u m) eqn:E; [|done].
       apply is_user_true in E. exfalso. apply Hn, member_ids_In. eauto. }
  destruct r; simpl in *. unfold set_moderators, set_members; simpl. f_equal.
  apply retain_all. intros id Hid. apply existsb_str_eqb.
  by apply (wf_mods_members _ H).
Qed.

(** Every method below only touches the fields its lemma names. *)
Ltac wf_frame H := destruct H; constructor; simpl in *; try done.

Lemma wf_drop_absent online after r : wf_room r -> wf_room (drop_absent online after r).
Proof.
  intros H. unfold drop_absent. apply wf_retain_members; [done|].
  intros m _ Hm. rewrite Hm, str_eqb_refl. done.
Qed.

Lemma wf_set_perks star r : wf_room r -> wf_room (set_perks (Perks_of star) r).
Proof. intros H. wf_frame H. destruct star; auto. Qed.

Lemma wf_drop_image_backdrop r : wf_room r -> wf_room (drop_image_backdrop r).
Proof. intros H. unfold drop_image_backdrop. destruct (image_backdrop r); [|done]. wf_frame H. Qed.

Lemma wf_update_first u f r :
  (forall m, m_user_id (f m) = m_user_id m) ->
  wf_room r -> wf_room (set_members (update_first (is_user u) f (members r)) r).
Proof.
  intros Hf H.
  assert (member_ids (set_members (update_first (is_user u) f (members r)) r) = member_ids r) as E.
  { by apply update_first_map. }
  destruct H. constructor; rewrite ?E; simpl; try done.
  by rewrite update_first_length.
Qed.

Lemma trim_front_In {A} (l : list A) n x : x ∈ trim_front l n -> x ∈ l.
Proof. apply drop_In. Qed.

Lemma wf_ban_push target r :
  wf_room r -> target ∉ member_ids r ->
  wf_room (set_banned_ids (trim_front
    (banned_ids (if is_banned r target then r else set_banned_ids (banned_ids r ++ [target]) r))
    MAX_BANNED) (if is_banned r target then r else set_banned_ids (banned_ids r ++ [target]) r)).
Proof.
  intros H Hn. destruct (is_banned r target) eqn:E; room_prop; wf_frame H.
  - intros id Hid. by apply wf_banned_out0, (trim_front_In _ MAX_BANNED).
  - by apply drop_NoDup.
  - apply drop_overflow_length.
  - intros id Hid. apply trim_front_In, elem_of_app in Hid as [Hid|Hid]; [by apply wf_banned_out0|].
    by apply list_elem_of_singleton in Hid as ->.
  - apply drop_NoDup. apply NoDup_app. split_and!; [done|set_solver|apply NoDup_singleton].
  - apply drop_overflow_length.
Qed.

(** ** Preservation: the methods *)

Ltac wf_method :=
  apply preserves_wp; let r := fresh "r" in let H := fresh "Hwf" in
  intros r H; wp_step; split_ifs; room_prop; auto.

Lemma member_in_room r m : m ∈ members r -> m_user_id m ∈ member_ids r.
Proof. intros H. apply member_ids_In. eauto. Qed.

Lemma join_room_wf m : preserves wf_room (join_room m).
Proof.
  unfold join_room. wf_method; [by apply wf_update_first|].
  pose proof (wf_perks_capacity _ Hwf). unfold is_full in *. bprop.
  assert (member_ids (set_members (members r ++ [m]) r) = member_ids r ++ [m_user_id m]) as E.
  { unfold member_ids. simpl. by rewrite List.map_app. }
  destruct Hwf. constructor; rewrite ?E; simpl; try done.
  - apply NoDup_app. split_and!; [done|set_solver|apply NoDup_singleton].
  - rewrite length_app. simpl. lia.
  - apply elem_of_app. by left.
  - intros id Hid. apply elem_of_app. left. auto.
  - intros id Hid. rewrite elem_of_app, list_elem_of_singleton.
    intros [Hm| ->]; [by eapply wf_banned_out0|done].
Qed.

Lemma may_act_on_wp actor target (Q : unit -> Room -> Prop) F r :
  wp (may_act_on actor target) Q F r =
  if can_moderate r actor && negb (str_eqb actor target) && negb (is_host r target)
     && (is_host r actor || negb (is_moderator r target))
  then Q tt r else F not_allowed r.
Proof.
  unfold may_act_on. wp_step.
  destruct (can_moderate r actor), (str_eqb actor target), (is_host r target),
    (is_host r actor), (is_moderator r target); reflexivity.
Qed.

#[export] Hint Rewrite may_act_on_wp : wp.

Lemma kick_wf actor target : preserves wf_room (kick actor target).
Proof.
  unfold kick. apply preserves_wp. intros r H. wp_step.
  destruct (_ && _) eqn:E; [|done]. room_prop. split_ifs; by apply wf_removed.
Qed.

Lemma ban_wf actor target : preserves wf_room (ban actor target).
Proof.
  unfold ban. apply preserves_wp. intros r H. wp_step.
  destruct (is_host r actor) eqn:E1; [|done].
  destruct (negb (str_eqb actor target)) eqn:E2; [|done].
  destruct (_ || _); [|done]. room_prop; subst.
  apply wf_ban_push; [by apply wf_removed|apply removed_gone].
Qed.

Lemma mute_wf actor target seconds now : preserves wf_room (mute actor target seconds now).
Proof.
  unfold mute. apply preserves_wp. intros r H. wp_step.
  destruct (_ && _) eqn:E; [|done]. room_prop.
  destruct (is_member r target) eqn:Em; [|done]. room_prop.
  set (kept := retain _ (muted r)).
  assert (NoDup (List.map mu_user_id kept)) as Hnd by apply NoDup_map_retain, H.
  assert (host_id r ∉ List.map mu_user_id kept) as Hh.
  { intros Hin. eapply elem_of_sublist in Hin; [|apply map_retain_sublist].
    by apply (wf_host_heard r H). }
  assert (target ∉ List.map mu_user_id kept) as Ht.
  { rewrite list_elem_of_In, in_map_iff. intros (m & Hm & Hin).
    apply list_elem_of_In, retain_In in Hin as [_ Hin].
    apply andb_prop in Hin as [_ Hin]. apply negb_true_iff, str_eqb_neq in Hin. congruence. }
  assert (forall l : list Mute, List.map mu_user_id (trim_front l MAX_MUTED)
          `sublist_of` List.map mu_user_id l) as Hsub.
  { intros l. apply map_sublist, sublist_drop. }
  destruct (0 <? seconds); wf_frame H.
  - eapply sublist_NoDup; [|apply Hsub]. simpl. rewrite List.map_app. simpl.
    apply NoDup_app. split_and!; [done|set_solver|apply NoDup_singleton].
  - apply drop_overflow_length.
  - intros Hin. eapply elem_of_sublist in Hin; [|apply Hsub].
    rewrite List.map_app in Hin. simpl in Hin. set_solver.
  - eapply sublist_NoDup; [|apply Hsub]. done.
  - apply drop_overflow_length.
  - intros Hin. eapply elem_of_sublist in Hin; [|apply Hsub]. done.
Qed.

Lemma set_moderator_wf actor target on : preserves wf_room (set_moderator actor target on).
Proof.
  unfold set_moderator. apply preserves_wp. intros r H. wp_step. cbv beta.
  split_ifs; wp_step; split_ifs; room_prop; auto; pose proof (wf_perks_mods r H);
    destruct H; constructor; simpl in *; try done.
  - intros id Hid. apply retain_In in Hid as [? _]. auto.
  - by apply retain_NoDup.
  - etrans; [apply retain_length|done].
  - rewrite retain_In. tauto.
  - set_solver.
  - apply NoDup_app. split_and!; [done|set_solver|apply NoDup_singleton].
  - rewrite length_app. simpl. lia.
  - set_solver.
Qed.

(** *** Join order *)

Lemma str_cmp_refl a : str_cmp a a = Eq.
Proof. induction a as [|x a IH]; simpl; [done|]. by rewrite Z.compare_refl. Qed.

Lemma str_cmp_eq a b : str_cmp a b = Eq <-> a = b.
Proof.
  split; [|intros ->; apply str_cmp_refl].
  revert b. induction a as [|x a IH]; intros [|y b]; simpl; try done.
  destruct (Z.compare_spec x y) as [->|?|?]; try done. intros H. f_equal. auto.
Qed.

Lemma str_cmp_opp a b : str_cmp b a = CompOpp (str_cmp a b).
Proof.
  revert b. induction a as [|x a IH]; intros [|y b]; simpl; try done.
  rewrite Z.compare_antisym. destruct (x ?= y); simpl; auto.
Qed.

Lemma str_cmp_trans a b c : str_cmp a b <> Gt -> str_cmp b c <> Gt -> str_cmp a c <> Gt.
Proof.
  revert b c. induction a as [|x a IH]; intros [|y b] [|z c]; simpl; try done.
  destruct (Z.compare_spec x y) as [->|Hxy|Hxy], (Z.compare_spec y z) as [->|Hyz|Hyz]; try done.
  - eauto.
  - intros _ _. by rewrite (proj2 (Z.compare_lt_iff _ _) Hxy).
  - intros _ _. by rewrite (proj2 (Z.compare_lt_iff x z)) by lia.
Qed.

(** [a] is not after [b] in the order hosts are chosen in. *)
Definition joined_before (a b : Member) : Prop := join_order a b <> Gt.

Lemma joined_before_total a b : join_order a b = Gt -> joined_before b a.
Proof.
  unfold joined_before, join_order.
  rewrite (Z.compare_antisym (m_joined_at a)), (str_cmp_opp (m_user_id a)).
  destruct (m_joined_at a ?= m_joined_at b); simpl; try done. by intros ->.
Qed.

Global Instance joined_before_trans : Transitive joined_before.
Proof.
  unfold joined_before, join_order. intros a b c.
  destruct (Z.compare_spec (m_joined_at a) (m_joined_at b)) as [E1|E1|E1],
    (Z.compare_spec (m_joined_at b) (m_joined_at c)) as [E2|E2|E2]; try done.
  - rewrite (proj2 (Z.compare_eq_iff (m_joined_at a) (m_joined_at c))) by lia. apply str_cmp_trans.
  - by rewrite (proj2 (Z.compare_lt_iff (m_joined_at a) (m_joined_at c))) by lia.
  - by rewrite (proj2 (Z.compare_lt_iff (m_joined_at a) (m_joined_at c))) by lia.
  - by rewrite (proj2 (Z.compare_lt_iff (m_joined_at a) (m_joined_at c))) by lia.
Qed.

Global Instance joined_before_refl : Reflexive joined_before.
Proof. intros a. unfold joined_before, join_order. by rewrite Z.compare_refl, str_cmp_refl. Qed.

Lemma min_by_join_order l m :
  min_by join_order l = Some m -> m ∈ l /\ forall x, x ∈ l -> joined_before m x.
Proof.
  destruct l as [|x l]; [done|]. simpl. intros [= <-].
  revert x. induction l as [|y l IH]; intros x; simpl.
  - split; [set_solver|]. intros z Hz. apply list_elem_of_singleton in Hz as ->. reflexivity.
  - destruct (join_order x y) eqn:E; destruct (IH x) as [Hx1 Hx2], (IH y) as [Hy1 Hy2].
    1, 2: split; [set_solver|]; intros z Hz;
      apply elem_of_cons in Hz as [->|Hz]; [apply Hx2; set_solver|];
      apply elem_of_cons in Hz as [->|Hz]; [|apply Hx2; set_solver];
      trans x; [apply Hx2; set_solver|unfold joined_before; by rewrite E].
    split; [set_solver|]. intros z Hz. apply elem_of_cons in Hz as [->|Hz]; [|by apply Hy2].
    trans y; [apply Hy2; set_solver|by apply joined_before_total].
Qed.

Lemma min_by_None {A} cmp (l : list A) : min_by cmp l = None <-> l = [].
Proof. by destruct l. Qed.

(** Who may take the room over from [leaving]. *)
Definition eligible (r : Room) (leaving : str) (candidates : list str) (m : Member) : Prop :=
  m ∈ members r /\ m_user_id m <> leaving /\ m_user_id m ∈ candidates.

Lemma eligible_filter r leaving candidates m :
  m ∈ List.filter (fun m => negb (is_user leaving m) && existsb (str_eqb (m_user_id m)) candidates)
    (members r) <-> eligible r leaving candidates m.
Proof.
  change (List.filter ?f ?l) with (retain f l).
  rewrite retain_In, andb_true_iff, negb_true_iff, existsb_str_eqb.
  unfold eligible, is_user. rewrite str_eqb_neq. tauto.
Qed.

Lemma next_host_Some r leaving candidates u :
  next_host r leaving candidates = Some u ->
  exists m, m_user_id m = u /\ eligible r leaving candidates m /\
    forall x, eligible r leaving candidates x -> joined_before m x.
Proof.
  unfold next_host. intros H. apply fmap_Some in H as (m & Hm & ->).
  apply min_by_join_order in Hm as [Hm Hmin]. rewrite eligible_filter in Hm.
  setoid_rewrite eligible_filter in Hmin. eauto.
Qed.

Lemma next_host_None r leaving candidates :
  next_host r leaving candidates = None <-> forall m, ~ eligible r leaving candidates m.
Proof.
  unfold next_host. rewrite fmap_None, min_by_None.
  setoid_rewrite <- eligible_filter.
  destruct (List.filter _ _) as [|x l]; [set_solver|]. split; [done|].
  intros H. exfalso. apply (H x). set_solver.
Qed.

(** The room a successful [hand_off] leaves. *)
Definition handed_off (leaving next : str) (r : Room) : Room :=
  let r := set_host_id next (removed leaving r) in
  let r := set_moderators (retain (fun id => negb (str_eqb id next)) (moderators r)) r in
  let r := set_muted (retain (fun m => negb (str_eqb (mu_user_id m) next)) (muted r)) r in
  drop_image_backdrop r.

Lemma hand_off_run leaving candidates r :
  hand_off leaving candidates r =
  match next_host r leaving candidates with
  | None => (Ok None, r)
  | Some next => (Ok (Some next), handed_off leaving next r)
  end.
Proof.
  cbv [hand_off mbind ST_bind gets modify].
  destruct (next_host r leaving candidates) as [next|]; [|done].
  by rewrite remove_run.
Qed.

Lemma wf_handed_off leaving candidates next r :
  wf_room r -> next_host r leaving candidates = Some next -> wf_room (handed_off leaving next r).
Proof.
  intros H Hn. apply next_host_Some in Hn as (m & Hid & (Hm & Hne & _) & _). subst next.
  apply wf_drop_image_backdrop.
  assert (forall id, id ∈ List.map m_user_id (retain (fun m => negb (is_user leaving m)) (members r))
     <-> id ∈ member_ids r /\ id <> leaving) as Hids by (intros id; apply removed_members).
  destruct H. constructor; simpl in *; try done.
  - by apply NoDup_map_retain.
  - etrans; [apply retain_length|done].
  - apply Hids. split; [|done]. by apply member_in_room.
  - intros id Hid. apply retain_In in Hid as [Hid _]. apply retain_In in Hid as [_ Hid].
    by apply existsb_str_eqb in Hid.
  - by apply retain_NoDup, retain_NoDup.
  - etrans; [apply retain_length|]. etrans; [apply retain_length|done].
  - rewrite retain_In, negb_true_iff. intros [_ Hb]. by rewrite str_eqb_refl in Hb.
  - intros id Hid Hin. apply Hids in Hin as [Hin _]. by eapply wf_banned_out0.
  - by apply NoDup_map_retain.
  - etrans; [apply retain_length|done].
  - unfold muted_ids. simpl. rewrite list_elem_of_In, in_map_iff. intros (x & Hx & Hin).
    apply list_elem_of_In, retain_In in Hin as [_ Hin].
    apply negb_true_iff, str_eqb_neq in Hin. done.
Qed.

Lemma hand_off_wf leaving candidates : preserves wf_room (hand_off leaving candidates).
Proof.
  intros r H. rewrite hand_off_run. destruct (next_host _ _ _) eqn:E; [|done].
  simpl. by eapply wf_handed_off.
Qed.

(** A body that only writes fields the invariant does not read. *)
Ltac preserves_frame :=
  repeat (intros; first
    [ apply preserves_bind | apply preserves_ret | apply preserves_throw | apply preserves_gets
    | apply preserves_ensure | apply preserves_of_option | apply preserves_of_result
    | apply preserves_modify; let r := fresh "r" in let H := fresh "Hwf" in
        intros r H; solve [wf_frame H | by apply wf_update_first]
    | match goal with |- preserves _ (match ?o with _ => _ end) => destruct o end
    | match goal with |- preserves _ (if ?b then _ else _) => destruct b end ]).

Lemma set_public_wf user v : preserves wf_room (set_public_op user v).
Proof. unfold set_public_op. preserves_frame. Qed.

Lemma clear_image_backdrop_wf media : preserves wf_room (clear_image_backdrop media).
Proof. unfold clear_image_backdrop. preserves_frame. Qed.

Section with_externals.
Context `{Externals}.

Lemma set_playback_wf user update now : preserves wf_room (set_playback_op user update now).
Proof.
  unfold set_playback_op, check_snapshot_opt, check_snapshot. preserves_frame.
Qed.

Lemma mark_ready_wf user track : preserves wf_room (mark_ready user track).
Proof. unfold mark_ready. preserves_frame. Qed.

Lemma apply_settings_wf actor patch cooldown : preserves wf_room (apply_settings actor patch cooldown).
Proof.
  unfold apply_settings, when_some, checked_cover, set_backdrop_op. preserves_frame.
Qed.
End with_externals.
