(* ===== verification/RoomBehaviour.v ===== *)
(** * RoomBehaviour: what the room's methods do, branch by branch.

    Authority (who may kick, ban, mute, appoint), admission, bans and mutes over
    time, the hand-over of the host's seat, playback bounds, STAR gating and the
    text rules of codes and titles. *)

From Stdlib Require Import ZArith Lia String SpecFloat.
From stdpp Require Import base list numbers option tactics sets gmap.
From S2P Require Import Prelude Text AppError EntityRef RoomModel RoomInvariant.
Local Open Scope Z_scope.

(** ** Moderation *)

(** The rank rule of [may_act_on]: the host acts on everybody else, a moderator
    on plain members. *)
Definition outranks (r : Room) (actor target : str) : Prop :=
  actor <> target /\ target <> host_id r /\
  (actor = host_id r \/ actor ∈ moderators r /\ target ∉ moderators r).

Global Instance outranks_dec r actor target : Decision (outranks r actor target).
Proof. unfold outranks. apply _. Defined.

Lemma may_act_on_run r actor target :
  wf_room r ->
  may_act_on actor target r =
  if decide (outranks r actor target) then (Ok tt, r) else (Err not_allowed, r).
Proof.
  intros Hwf. cbv [may_act_on mbind ST_bind gets]. unfold can_moderate.
  pose proof (wf_host_not_mod r Hwf).
  destruct (is_host r actor) eqn:E1, (is_moderator r actor) eqn:E2, (str_eqb actor target) eqn:E3,
    (is_host r target) eqn:E4, (is_moderator r target) eqn:E5; room_prop;
    case_decide as D; unfold outranks in D; try done; exfalso; subst; intuition congruence.
Qed.

Lemma kick_run r actor target :
  wf_room r ->
  kick actor target r =
  if decide (outranks r actor target)
  then (if is_member r target then Ok tt else Err missing, removed target r)
  else (Err not_allowed, r).
Proof.
  intros Hwf. cbv [kick mbind ST_bind]. rewrite may_act_on_run by done.
  case_decide; [|done]. rewrite remove_run. by destruct (is_member r target).
Qed.

(** [kick] by [actor] succeeds exactly when [actor] outranks a present [target];
    then the target is out of the member and moderator lists and nobody else is
    touched.  Otherwise it fails with the code of the first failed check and the
    room is unchanged. *)
Theorem kick_exact r actor target (Hwf : wf_room r) :
  let (res, r') := kick actor target r in
  if decide (outranks r actor target) then
    if is_member r target then
      res = Ok tt /\
      (forall id, id ∈ member_ids r' <-> id ∈ member_ids r /\ id <> target) /\
      (forall id, id ∈ moderators r' <-> id ∈ moderators r /\ id <> target) /\
      host_id r' = host_id r
    else res = Err missing /\ r' = r
  else res = Err not_allowed /\ r' = r.
Proof.
  rewrite kick_run by done. case_decide as Ho; [|done].
  destruct (is_member r target) eqn:E; [|by rewrite removed_not_member].
  split_and!; [done|apply removed_members| |done].
  intros id. simpl. rewrite retain_In, existsb_str_eqb.
  pose proof (removed_members target r id) as Hm. unfold removed in Hm. simpl in Hm.
  change (member_ids (set_members ?l r)) with (List.map m_user_id l).
  change (List.map m_user_id (retain (fun m => negb (is_user target m)) (members r)))
    with (member_ids (removed target r)).
  rewrite removed_members. pose proof (wf_mods_members r Hwf id). tauto.
Qed.

Lemma ban_run r actor target :
  wf_room r ->
  ban actor target r =
  if negb (is_host r actor) then (Err host_only, r)
  else if str_eqb actor target then (Err not_allowed, r)
  else if is_member r target || plausible_user target
  then (Ok tt, set_banned_ids
          (if is_banned r target then banned_ids r else trim_front (banned_ids r ++ [target]) MAX_BANNED)
          (removed target r))
  else (Err missing, r).
Proof.
  intros Hwf. cbv [ban mbind ST_bind gets modify ensure throw mret ST_ret].
  destruct (is_host r actor); [|done]. destruct (str_eqb actor target); [done|].
  cbn [negb]. destruct (_ || _); [|done]. rewrite remove_run.
  change (is_banned (removed target r) target) with (is_banned r target).
  destruct (is_banned r target); [|done]. f_equal.
  unfold trim_front. pose proof (wf_banned_len r Hwf) as Hl.
  change (banned_ids (removed target r)) with (banned_ids r).
  replace (length (banned_ids r) - MAX_BANNED)%nat with 0%nat by lia. done.
Qed.

Lemma join_banned r m :
  m_user_id m ∈ banned_ids r -> m_user_id m ∉ member_ids r ->
  join_room m r = (Err banned, r).
Proof.
  intros Hb Hm. cbv [join_room mbind ST_bind gets].
  rewrite (proj2 (is_member_false r _) Hm), (proj2 (is_banned_true r _) Hb). done.
Qed.

Lemma trim_front_snoc {A} (l : list A) n x : (1 <= n)%nat -> x ∈ trim_front (l ++ [x]) n.
Proof.
  intros Hn. unfold trim_front. rewrite length_app. simpl.
  rewrite drop_app_le by lia. apply elem_of_app. right. set_solver.
Qed.

(** Once the host has banned somebody, that person is out of the room and every
    attempt to join again is refused with [room_banned] and changes nothing;
    only the host can ban, and never themselves. *)
Theorem ban_bars_return r actor target r' (Hwf : wf_room r) (Hban : ban actor target r = (Ok tt, r')) :
  actor = host_id r /\ target <> host_id r /\ target ∉ member_ids r' /\ wf_room r' /\
  forall m, m_user_id m = target -> join_room m r' = (Err banned, r').
Proof.
  pose proof (ban_wf actor target r Hwf) as Hwf'. rewrite Hban in Hwf'. simpl in Hwf'.
  rewrite ban_run in Hban by done.
  destruct (is_host r actor) eqn:E1; [|done]. destruct (str_eqb actor target) eqn:E2; [done|].
  simpl in Hban. destruct (_ || _); [|done]. room_prop. injection Hban as <-.
  assert (target ∉ member_ids (removed target r)) as Hout by apply removed_gone.
  split_and!; [done|congruence|done|done|].
  intros m <-. apply join_banned; [|done]. simpl.
  destruct (is_banned r (m_user_id m)) eqn:E; room_prop; [done|].
  apply trim_front_snoc. unfold MAX_BANNED. lia.
Qed.

(** ** Mutes *)

Lemma find_app_None {A} (p : A -> bool) l1 l2 :
  find p l1 = None -> find p (l1 ++ l2) = find p l2.
Proof. induction l1 as [|x l1 IH]; simpl; [done|]. by destruct (p x). Qed.

Lemma find_app_Some {A} (p : A -> bool) l1 l2 x :
  find p l1 = Some x -> find p (l1 ++ l2) = Some x.
Proof. induction l1 as [|y l1 IH]; simpl; [done|]. by destruct (p y). Qed.

(** The test [muted_until] searches with. *)
Definition mute_live (u : str) (t : Z) (m : Mute) : bool :=
  str_eqb (mu_user_id m) u && (t <? mu_until_ms m).

(** The mutes [mute] keeps before it adds the new one. *)
Definition mutes_kept (target : str) (now : Z) (l : list Mute) : list Mute :=
  retain (fun m => (now <? mu_until_ms m) && negb (str_eqb (mu_user_id m) target)) l.

Definition mute_entry (target : str) (seconds now : Z) : list Mute :=
  if 0 <? seconds
  then [{| mu_user_id := target;
           mu_until_ms := wrap_i64 (now + Z.min seconds MAX_MUTE_SECS * 1000) |}]
  else [].

Lemma mute_run r actor target seconds now :
  wf_room r ->
  mute actor target seconds now r =
  if decide (outranks r actor target) then
    if is_member r target then
      (Ok tt, set_muted (trim_front (mutes_kept target now (muted r) ++ mute_entry target seconds now)
                           MAX_MUTED) r)
    else (Err missing, r)
  else (Err not_allowed, r).
Proof.
  intros Hwf. cbv [mute mbind ST_bind gets modify]. rewrite may_act_on_run by done.
  case_decide; [|done]. destruct (is_member r target); [|done].
  cbn. unfold mute_entry, mutes_kept. destruct (0 <? seconds); simpl; [done|]. by rewrite app_nil_r.
Qed.

Lemma mutes_kept_target target now t n l :
  find (mute_live target t) (drop n (mutes_kept target now l)) = None.
Proof.
  apply find_None. intros m Hm. apply drop_In, retain_In in Hm as [_ Hm].
  apply andb_prop in Hm as [_ Hm]. apply negb_true_iff in Hm.
  unfold mute_live. by rewrite Hm.
Qed.

Lemma mutes_kept_other target u now t l :
  u <> target -> now <= t ->
  find (mute_live u t) (mutes_kept target now l) = find (mute_live u t) l.
Proof.
  intros Hu Ht. unfold mutes_kept. induction l as [|m l IH]; [done|]. cbn [retain List.filter find].
  destruct (mute_live u t m) eqn:E.
  - unfold mute_live in E. apply andb_prop in E as [E1 E2]. apply str_eqb_eq in E1. bprop.
    rewrite (proj2 (Z.ltb_lt now (mu_until_ms m))) by lia.
    rewrite (proj2 (str_eqb_neq (mu_user_id m) target)) by congruence. simpl.
    unfold mute_live. rewrite (proj2 (str_eqb_eq _ _) E1), (proj2 (Z.ltb_lt _ _) E2). done.
  - destruct ((now <? mu_until_ms m) && _); [|done]. cbn [find]. by rewrite E.
Qed.

Lemma mutes_kept_length target now l : (length (mutes_kept target now l) <= length l)%nat.
Proof. apply retain_length. Qed.

(** A mute lasts exactly as long as asked, at most a day: from [now] on the
    target reads as muted until the stored instant and not after it, and a mute
    of zero seconds lifts the mute.  Everybody else's mutes are kept while the
    list has room. *)
Theorem mute_exact r actor target seconds now r'
  (Hwf : wf_room r) (Hsec : 0 <= seconds)
  (Hnow : in_i64 now) (Hday : in_i64 (now + MAX_MUTE_SECS * 1000))
  (Hmute : mute actor target seconds now r = (Ok tt, r')) :
  let until := now + Z.min seconds MAX_MUTE_SECS * 1000 in
  (forall t, now <= t -> muted_until r' target t = if t <? until then Some until else None) /\
  ((length (muted r) < MAX_MUTED)%nat -> forall u t, u <> target -> now <= t ->
     muted_until r' u t = muted_until r u t).
Proof.
  rewrite mute_run in Hmute by done. case_decide as Ho; [|done].
  destruct (is_member r target); [|done]. injection Hmute as <-.
  pose proof (mutes_kept_length target now (muted r)) as Hlen.
  pose proof (wf_muted_len r Hwf) as Hmax.
  assert (mute_entry target seconds now = if 0 <? seconds
    then [{| mu_user_id := target; mu_until_ms := now + Z.min seconds MAX_MUTE_SECS * 1000 |}]
    else []) as ->.
  { unfold mute_entry, MAX_MUTE_SECS in *. rewrite wrap_i64_small; [done|].
    unfold in_i64 in *. lia. }
  unfold muted_until. cbn [muted set_muted]. unfold trim_front. split.
  - intros t Ht. rewrite length_app.
    destruct (Z.ltb_spec 0 seconds) as [Hs|Hs]; cbn [length].
    + rewrite drop_app_le by (unfold MAX_MUTED in *; lia).
      rewrite find_app_None by apply mutes_kept_target.
      cbn [find mu_user_id mu_until_ms]. rewrite str_eqb_refl. simpl. by case_match.
    + rewrite app_nil_r. fold (mute_live target t). rewrite mutes_kept_target.
      destruct (Z.ltb_spec t (now + Z.min seconds MAX_MUTE_SECS * 1000)); [lia|done].
  - intros Hroom u t Hu Ht. fold (mute_live u t). f_equal.
    rewrite length_app. set (entry := if 0 <? seconds then _ else _).
    assert (find (mute_live u t) entry = None /\ (length entry <= 1)%nat) as [He Hl].
    { unfold entry, mute_live. destruct (0 <? seconds); [|auto]. simpl.
      rewrite (proj2 (str_eqb_neq _ _)) by congruence. auto. }
    replace (length (mutes_kept target now (muted r)) + length entry - MAX_MUTED)%nat
      with 0%nat by lia.
    rewrite drop_0, <- (mutes_kept_other target u now t (muted r)) by done.
    destruct (find _ (mutes_kept _ _ _)) eqn:E; [by apply find_app_Some|].
    by rewrite find_app_None.
Qed.

(** ** Handing the room over *)

Lemma drop_image_backdrop_None r : image_backdrop (drop_image_backdrop r) = None.
Proof. unfold drop_image_backdrop. by destruct (image_backdrop r) eqn:E. Qed.

(** The host's seat goes to the earliest member to have joined among the
    candidates still in the room (ties broken by user id), never to the one
    leaving.  The old host is out, nobody else is, the new host is no longer a
    moderator nor muted, and an image backdrop chosen by the old host is gone.
    Without a candidate nothing changes. *)
Theorem hand_off_exact r leaving candidates (Hwf : wf_room r) :
  let (res, r') := hand_off leaving candidates r in
  ((forall m, ~ eligible r leaving candidates m) /\ res = Ok None /\ r' = r) \/
  (exists m, eligible r leaving candidates m /\
    (forall x, eligible r leaving candidates x -> joined_before m x) /\
    res = Ok (Some (m_user_id m)) /\ host_id r' = m_user_id m /\
    (forall id, id ∈ member_ids r' <-> id ∈ member_ids r /\ id <> leaving) /\
    m_user_id m ∉ moderators r' /\ m_user_id m ∉ muted_ids r' /\
    image_backdrop r' = None /\ wf_room r').
Proof.
  rewrite hand_off_run. destruct (next_host r leaving candidates) as [next|] eqn:E.
  - right. pose proof (wf_handed_off _ _ _ _ Hwf E) as Hwf'.
    apply next_host_Some in E as (m & <- & He & Hmin). exists m.
    assert (host_id (handed_off leaving (m_user_id m) r) = m_user_id m) as Hh.
    { unfold handed_off, drop_image_backdrop. by case_match. }
    split_and!; [done|done|done|done| | | | |done].
    + intros id. rewrite <- removed_members. unfold handed_off, drop_image_backdrop.
      by destruct (image_backdrop _).
    + rewrite <- Hh at 1. apply Hwf'.
    + rewrite <- Hh at 1. apply Hwf'.
    + apply drop_image_backdrop_None.
  - left. split_and!; [by apply next_host_None|done..].
Qed.

(** ** Playback *)

Lemma f64_clamp_rate x :
  SFltb (f64_clamp MIN_RATE MAX_RATE x) MIN_RATE = false /\
  SFltb MAX_RATE (f64_clamp MIN_RATE MAX_RATE x) = false.
Proof.
  unfold f64_clamp. destruct (SFltb x MIN_RATE) eqn:E1.
  - by vm_compute.
  - destruct (SFltb MAX_RATE x) eqn:E2; [by vm_compute|done].
Qed.

Section with_externals.
Context `{Externals}.

Lemma parse_track_urn_Ok o u :
  parse_track_urn o = Ok u ->
  match o with
  | Some raw => exists t, EntityRef.parse Track raw = Some t /\ u = Some (urn t)
  | None => u = None
  end.
Proof.
  unfold parse_track_urn, require_ref. destruct o as [raw|]; [|congruence].
  destruct (EntityRef.parse Track raw) as [t|]; [|done]. intros [= <-]. eauto.
Qed.

Lemma check_snapshot_opt_run t (r : Room) :
  check_snapshot_opt t r = (Ok tt, r) \/
  check_snapshot_opt t r = (Err (BadRequest (lit "track snapshot is too large")), r).
Proof.
  destruct t as [v|]; [|by left]. unfold check_snapshot_opt, check_snapshot, ensure.
  destruct (negb _); [by left|by right].
Qed.

(** The playback a successful update installs. *)
Definition updated_playback (old : Playback) (update : PlaybackUpdate) (u : option str) (now : Z) : Playback :=
  let same := bool_decide (u = pb_track_urn old) in
  let keep (new prev : option value) :=
    match new with Some t => Some t | None => if same then prev else None end in
  {| pb_status := pu_status update;
     pb_track := keep (pu_track update) (pb_track old);
     pb_track_urn := u;
     pb_next_track := keep (pu_next_track update) (pb_next_track old);
     pb_position_ms := Z.max (pu_position_ms update) 0;
     pb_at := wrap_i64 (now + clampZ 0 MAX_START_LEAD_MS (pu_lead_ms update));
     pb_rate := f64_clamp MIN_RATE MAX_RATE (match pu_rate update with Some x => x | None => f64_one end);
     pb_crossfade_sec := Z.min (match pu_crossfade_sec update with
                                | Some s => s | None => pb_crossfade_sec old end) MAX_CROSSFADE_SEC |}.

Lemma set_playback_run user update now r :
  (exists e, set_playback_op user update now r = (Err e, r)) \/
  (exists u, set_playback_op user update now r
     = (Ok tt, set_playback (updated_playback (playback r) update u now) r) /\
     host_id r = user /\ parse_track_urn (pu_track_urn update) = Ok u /\
     (u = None -> pu_status update = Idle)).
Proof.
  cbv [set_playback_op mbind ST_bind gets ensure of_result throw mret ST_ret modify].
  destruct (is_host r user) eqn:Eh; [|eauto].
  destruct (parse_track_urn _) as [u|e]; [|eauto].
  destruct (negb _) eqn:Eu; [|eauto].
  destruct (check_snapshot_opt_run (pu_track update) r) as [-> | ->]; [|eauto].
  destruct (check_snapshot_opt_run (pu_next_track update) r) as [-> | ->]; [|eauto].
  right. exists u. room_prop. split_and!; [done|done|done|].
  intros ->. destruct Eu as [Eu|Eu]; bprop; [done|done].
Qed.

(** Only the host drives playback, an update that fails leaves the room as it
    was, and one that succeeds keeps playback in range: a non-negative position,
    a start at most [MAX_START_LEAD_MS] ahead of the server clock, a rate inside
    [0.5, 2] (or the NaN that was sent), a crossfade of at most twelve seconds
    and the canonical URN of a track whenever something is loaded. *)
Theorem playback_bounds user update now r res r'
  (Hset : set_playback_op user update now r = (res, r'))
  (Hnow : in_i64 now) (Hlead : in_i64 (now + MAX_START_LEAD_MS)) :
  match res with
  | Err _ => r' = r
  | Ok _ =>
      host_id r = user /\ 0 <= pb_position_ms (playback r') /\
      now <= pb_at (playback r') <= now + MAX_START_LEAD_MS /\
      SFltb (pb_rate (playback r')) MIN_RATE = false /\
      SFltb MAX_RATE (pb_rate (playback r')) = false /\
      pb_crossfade_sec (playback r') <= MAX_CROSSFADE_SEC /\
      (pb_status (playback r') <> Idle ->
         exists u, pb_track_urn (playback r') = Some u /\ is_canonical_urn Track u = true)
  end.
Proof.
  destruct (set_playback_run user update now r) as [[e He]|(u & He & Hh & Hu & Hidle)];
    rewrite He in Hset; injection Hset as <- <-; [done|].
  cbn [playback set_playback updated_playback pb_position_ms pb_at pb_rate pb_crossfade_sec
       pb_status pb_track_urn].
  pose proof (clampZ_range 0 MAX_START_LEAD_MS (pu_lead_ms update) ltac:(unfold MAX_START_LEAD_MS; lia)).
  rewrite wrap_i64_small by (unfold in_i64 in *; lia).
  destruct (f64_clamp_rate (match pu_rate update with Some x => x | None => f64_one end)) as [H1 H2].
  split_and!; [done|lia|lia|lia|done|done|lia|].
  intros Hst. apply parse_track_urn_Ok in Hu. destruct (pu_track_urn update) as [raw|]; [|naive_solver].
  destruct Hu as (t & Ht & ->). eexists. split; [done|].
  apply parse_iff in Ht as (Hk & Hw & _). apply is_canonical_urn_iff. eauto.
Qed.
End with_externals.

(** ** Codes and titles *)

(** Six characters of the alphabet. *)
Definition valid_code (c : str) : Prop :=
  length c = CODE_LEN /\ Forall (fun x => x ∈ CODE_ALPHABET) c.

Lemma alphabet_char c : c ∈ CODE_ALPHABET ->
  c < 128 /\ is_whitespace c = false /\ c <> 45 /\ to_ascii_uppercase c = c.
Proof.
  intros H. assert (Forall (fun c => c < 128 /\ is_whitespace c = false /\ c <> 45 /\
    to_ascii_uppercase c = c) CODE_ALPHABET) as Hall by (repeat constructor; done).
  rewrite Forall_forall in Hall. auto.
Qed.

Lemma valid_code_fixed c : valid_code c -> normalize_code c = Some c.
Proof.
  intros [Hlen Hall]. unfold normalize_code.
  change (List.filter ?f ?l) with (retain f l). rewrite retain_all.
  2: { intros x Hx. rewrite Forall_forall in Hall. apply Hall, alphabet_char in Hx as (_ & -> & Hd & _).
       by apply Z.eqb_neq in Hd as ->. }
  assert (List.map to_ascii_uppercase c = c) as ->.
  { clear Hlen. induction Hall as [|x c Hx _ IH]; simpl; [done|].
    f_equal; [by apply alphabet_char in Hx as (_ & _ & _ & ?)|done]. }
  rewrite str_len_ascii, Hlen.
  2: { eapply Forall_impl; [exact Hall|]. intros x Hx. by apply alphabet_char in Hx as [? _]. }
  rewrite Z.eqb_refl, andb_true_l.
  rewrite (proj2 (forallb_forall _ _)); [done|]. intros x Hx. apply contains_char_spec.
  rewrite Forall_forall in Hall. apply Hall. by apply list_elem_of_In.
Qed.

Lemma normalize_code_valid s c : normalize_code s = Some c -> valid_code c.
Proof.
  unfold normalize_code. set (l := List.map _ _). destruct (_ && _) eqn:E; [|done].
  intros [= <-]. bprop. rewrite forallb_forall in *.
  assert (Forall (fun x => x ∈ CODE_ALPHABET) l) as Hall.
  { apply Forall_forall. intros x Hx. apply contains_char_spec. rewrite list_elem_of_In in Hx. auto. }
  split; [|done]. rewrite str_len_ascii in H; [lia|].
  eapply Forall_impl; [exact Hall|]. intros x Hx. by apply alphabet_char in Hx as [? _].
Qed.

Lemma new_code_valid picks :
  (CODE_LEN <= length picks)%nat -> Forall (fun i => (i < length CODE_ALPHABET)%nat) picks ->
  valid_code (new_code picks).
Proof.
  intros Hlen Hall. unfold new_code. split.
  - rewrite List.length_map, length_take. lia.
  - apply Forall_forall. intros x Hx. rewrite list_elem_of_In, in_map_iff in Hx.
    destruct Hx as (i & <- & Hi). apply list_elem_of_In.
    apply nth_In. rewrite Forall_forall in Hall. apply Hall.
    rewrite <- (take_drop CODE_LEN picks), elem_of_app. left. by apply list_elem_of_In.
Qed.

(** A generated code is six characters of the alphabet and is what
    [normalize_code] makes of itself; whatever [normalize_code] accepts has that
    form, so normalising twice changes nothing, and dashes and blanks anywhere
    in the input do not matter. *)
Theorem code_rules :
  (forall picks, (CODE_LEN <= length picks)%nat ->
     Forall (fun i => (i < length CODE_ALPHABET)%nat) picks ->
     valid_code (new_code picks) /\ normalize_code (new_code picks) = Some (new_code picks)) /\
  (forall s c, normalize_code s = Some c -> valid_code c /\ normalize_code c = Some c) /\
  (forall a b, normalize_code (a ++ lit "-" ++ b) = normalize_code (a ++ b) /\
               normalize_code (a ++ lit " " ++ b) = normalize_code (a ++ b)).
Proof.
  split_and!.
  - intros picks H1 H2. pose proof (new_code_valid picks H1 H2). auto using valid_code_fixed.
  - intros s c H. apply normalize_code_valid in H. auto using valid_code_fixed.
  - intros a b. unfold normalize_code. by rewrite !List.filter_app.
Qed.

Definition title_char (c : char) : Prop := is_control c = false /\ invisible c = false.

Lemma trim_end_chars s c : c ∈ trim_end s -> c ∈ s.
Proof. intros H. destruct (trim_end_prefix s) as [post ->]. set_solver. Qed.

(** A title [clean_title] gives is non-empty, of at most 48 characters, one
    space between words and none at the ends, free of control and invisible
    formatting characters, and is its own cleaned form. *)
Theorem clean_title_canonical raw t (Hclean : clean_title raw = Some t) :
  t <> [] /\ (length t <= MAX_TITLE_CHARS)%nat /\ spaced_from true t /\ ends_in_word t /\
  Forall title_char t /\ clean_title t = Some t.
Proof.
  unfold clean_title in Hclean. set (visible := List.filter _ _) in Hclean.
  set (full := join [32] (split_whitespace visible)) in Hclean.
  case_bool_decide as Hne; [done|]. injection Hclean as Ht.
  assert (spaced_from true t /\ (length t <= MAX_TITLE_CHARS)%nat /\ (forall c, c ∈ t -> c ∈ full))
    as (Hs & Hlen & Hin).
  { destruct (trim_end_prefix (take MAX_TITLE_CHARS full)) as [post Hp]. rewrite Ht in Hp.
    split_and!.
    - apply (spaced_prefix t post). rewrite <- Hp. apply (spaced_prefix _ (drop MAX_TITLE_CHARS full)).
      rewrite take_drop. apply join_spaced, split_ws_words. constructor.
    - apply (f_equal length) in Hp. rewrite length_app, length_take in Hp. lia.
    - intros c Hc. rewrite <- (take_drop MAX_TITLE_CHARS full), Hp. set_solver. }
  assert (ends_in_word t) as He by (intros c s' Hc; subst t; by eapply trim_end_last).
  assert (Forall title_char t) as Hall.
  { apply Forall_forall. intros c Hc. apply Hin, join_chars in Hc as [->|Hc]; [done|].
    apply split_ws_chars in Hc as [Hc|Hc]; [set_solver|].
    unfold visible in Hc. change (List.filter ?f ?l) with (retain f l) in Hc.
    apply retain_In in Hc as [_ Hc]. by bprop. }
  split_and!; [congruence|done|done|done|done|].
  unfold clean_title.
  assert (forall prev s, spaced_from prev s ->
    List.map (fun c => if is_whitespace c then 32 else c) s = s) as Hmap.
  { intros prev s. revert prev. induction s as [|c s IH]; intros prev; simpl; [done|].
    destruct (is_whitespace c); [intros (-> & _ & H); f_equal; eauto|intros H; f_equal; eauto]. }
  rewrite (Hmap true) by done. change (List.filter ?f ?l) with (retain f l).
  rewrite retain_all.
  2: { intros c Hc. rewrite Forall_forall in Hall. destruct (Hall c Hc) as [-> ->]. done. }
  rewrite join_split_spaced, take_ge, trim_end_id by done.
  rewrite bool_decide_eq_false_2 by congruence. done.
Qed.

(** ** Admission *)

(** [join] seats a new member exactly when they are not banned and a seat is
    free, at the end of the list; somebody already in only has the name and
    avatar refreshed, even in a full room; a refusal changes nothing. *)
Theorem join_exact r m (Hwf : wf_room r) :
  let (res, r') := join_room m r in
  if is_member r (m_user_id m) then
    res = Ok tt /\ member_ids r' = member_ids r /\
    map m_joined_at (members r') = map m_joined_at (members r) /\
    map m_ready_urn (members r') = map m_ready_urn (members r)
  else if is_banned r (m_user_id m) then res = Err banned /\ r' = r
  else if (length (members r) <? capacity r)%nat then
    res = Ok tt /\ members r' = members r ++ [m] /\ wf_room r'
  else res = Err room_full /\ r' = r.
Proof.
  pose proof (join_room_wf m r Hwf) as Hwf'. revert Hwf'.
  cbv [join_room mbind ST_bind gets modify ensure throw mret ST_ret]. unfold is_full.
  destruct (is_member r (m_user_id m)) eqn:E1; intros Hwf'.
  - split_and!; [done|by apply update_first_map..].
  - destruct (is_banned r _); [done|]. rewrite Nat.ltb_antisym in *.
    by destruct (capacity r <=? length (members r))%nat.
Qed.

(** ** Settings *)

Section settings.
Context `{Externals}.

Lemma when_some_modify {A} (o : option A) (f : A -> Room -> Room) r :
  when_some o (fun a => modify (f a)) r = (Ok tt, match o with Some a => f a r | None => r end).
Proof. by destruct o. Qed.

(** The fields a patch never touches. *)
Definition same_people (r r' : Room) : Prop :=
  code r' = code r /\ host_id r' = host_id r /\ members r' = members r /\ public r' = public r /\
  moderators r' = moderators r /\ banned_ids r' = banned_ids r /\ muted r' = muted r /\
  perks r' = perks r /\ playback r' = playback r.

(** The three steps that can fail. *)
Lemma cover_step c rc r' :
  when_some c (fun c => c ← checked_cover c; modify (set_cover c)) rc = (Ok tt, r') ->
  (forall v, c = Some (Some v) -> is_Some (checked v)) /\
  r' = match c with Some c => set_cover (c ← c; checked c) rc | None => rc end.
Proof.
  destruct c as [[v|]|]; simpl; [|by intros [= <-]..].
  intros Hrun. step_inv Hrun. step_inv Hrun0. apply of_option_inv in Hrun1 as [Hc ->].
  injection Hrun0 as <- <-. injection Hrun as <-. rewrite Hc. split; [naive_solver|done].
Qed.

Lemma images_step i public rc r' :
  when_some i (fun policy =>
    ensure (negb (bool_decide (policy = Members) && public)) invalid;;
    modify (set_room_images (Some policy))) rc = (Ok tt, r') ->
  (public = true -> i <> Some Members) /\
  r' = match i with Some i => set_room_images (Some i) rc | None => rc end.
Proof.
  destruct i as [i|]; simpl; [|by intros [= <-]]. intros Hrun. step_inv Hrun.
  destruct a. apply ensure_inv in Hrun0 as [Hb ->]. injection Hrun as <-. split; [|done].
  intros -> [= ->]. done.
Qed.

Lemma backdrop_step b cooldown rc r' :
  when_some b (fun b => set_backdrop_op b cooldown) rc = (Ok tt, r') ->
  (forall v, b = Some (Some v) -> known v = true /\ (is_Some (image v) -> cooldown = None)) /\
  r' = match b with Some b => set_backdrop b rc | None => rc end.
Proof.
  destruct b as [[v|]|]; simpl; [|by intros [= <-]..]. intros Hrun. step_inv Hrun.
  destruct a, a0. apply ensure_inv in Hrun0 as [Hk ->]. apply ensure_inv in Hrun1 as [Hc ->].
  injection Hrun as <-. split; [|done]. intros ? [= <-]. split; [done|]. intros Hi.
  rewrite bool_decide_eq_true_2 in Hc by done. by destruct cooldown.
Qed.

(** Only the host changes the settings, and a cover or a backdrop only under a
    STAR host.  A patch that succeeds writes each field it names, in its checked
    and clamped form, and nothing else: who is in the room and their standing
    are untouched; a public room never gets the members-only-images policy of a
    private one; a cover is one [Cover::checked] accepts, a backdrop a known
    one, and an image backdrop is never installed during a cooldown. *)
Theorem apply_settings_sound actor p cooldown r r'
  (Hrun : apply_settings actor p cooldown r = (Ok tt, r')) :
  host_id r = actor /\ (sets_star_perk p = true -> star_host (perks r) = true) /\
  same_people r r' /\
  title r' = (match sp_title p with Some t => clean_title t | None => title r end) /\
  slow_mode_s r' = (match sp_slow_mode_s p with
                    | Some s => Some (Z.min s MAX_SLOW_MODE_SECS) | None => slow_mode_s r end) /\
  chat_enabled r' = (match sp_chat_enabled p with Some on => on | None => chat_enabled r end) /\
  links r' = (match sp_links p with Some on => on | None => links r end) /\
  cover r' = (match sp_cover p with Some c => (c ← c; checked c) | None => cover r end) /\
  room_images r' = (match sp_room_images p with Some i => Some i | None => room_images r end) /\
  backdrop r' = (match sp_backdrop p with Some b => b | None => backdrop r end) /\
  (public r = true -> sp_room_images p <> Some Members) /\
  (forall c, sp_cover p = Some (Some c) -> is_Some (checked c)) /\
  (forall b, sp_backdrop p = Some (Some b) ->
     known b = true /\ (is_Some (image b) -> cooldown = None)).
Proof.
  unfold apply_settings in Hrun. step_inv Hrun.
  injection Hrun0 as <- <-. destruct a0, a1, a2, a3, a4, a5, a6, a7.
  apply ensure_inv in Hrun1 as [Eh ->], Hrun2 as [Es ->]. apply is_host_true in Eh.
  apply cover_step in Hrun3 as [Hcover ->]. apply images_step in Hrun4 as [Himages ->].
  apply backdrop_step in Hrun5 as [Hbackdrop ->].
  rewrite when_some_modify in Hrun6. rewrite when_some_modify in Hrun7.
  rewrite when_some_modify in Hrun8. rewrite when_some_modify in Hrun.
  injection Hrun6 as <-. injection Hrun7 as <-. injection Hrun8 as <-. injection Hrun as <-.
  split_and!; [done| | | | | | | | | |done|done|done].
  { destruct (sets_star_perk p), (star_host (perks r)); done. }
  { unfold same_people. by repeat case_match. }
  all: by repeat case_match.
Qed.
End settings.

(** ** A concrete room

    Host ["1"], moderator ["2"], member ["3"], under STAR perks; the theorems
    above are applied to it. *)
Section samples.

Definition sample_member (id : string) (at_ms : Z) : Member :=
  Member_new (lit id) {| pf_name := lit "someone"; pf_avatar_url := None |} at_ms.

Definition sample_room : Room :=
  set_perks Perks_star (set_moderators [lit "2"]
    (set_members [sample_member "1" 10; sample_member "2" 20; sample_member "3" 30]
      (Room_new (lit "ABCDEF") (sample_member "1" 10) true 10 0))).

Lemma sample_wf : wf_room sample_room.
Proof.
  constructor; try (apply (bool_decide_unpack _); vm_compute; exact I).
  - intros id Hid. vm_compute in Hid. apply list_elem_of_singleton in Hid as ->.
    apply (bool_decide_unpack _). vm_compute. exact I.
  - intros id Hid. by apply elem_of_nil in Hid.
Qed.

Lemma kick_exact_witness :
  outranks sample_room (lit "2") (lit "3") /\
  (kick (lit "2") (lit "3") sample_room).1 = Ok tt /\
  lit "3" ∉ member_ids (kick (lit "2") (lit "3") sample_room).2.
Proof.
  pose proof (kick_exact sample_room (lit "2") (lit "3") sample_wf) as H.
  destruct (kick (lit "2") (lit "3") sample_room) as [res r'].
  destruct (decide _) as [Ho|Ho]; [|exfalso; apply Ho; apply (bool_decide_unpack _); vm_compute; exact I].
  change (is_member sample_room (lit "3")) with true in H. destruct H as (-> & Hm & _).
  split; [exact Ho|]. split; [reflexivity|]. simpl. rewrite Hm. tauto.
Defined.

Lemma ban_bars_return_witness :
  let r' := (ban (lit "1") (lit "3") sample_room).2 in
  join_room (sample_member "3" 99) r' = (Err banned, r').
Proof.
  apply (ban_bars_return sample_room (lit "1") (lit "3") _ sample_wf); reflexivity.
Defined.

Lemma mute_exact_witness :
  let r' := (mute (lit "1") (lit "3") 60 1000 sample_room).2 in
  muted_until r' (lit "3") 60999 = Some 61000 /\ muted_until r' (lit "3") 61000 = None.
Proof.
  destruct (mute_exact sample_room (lit "1") (lit "3") 60 1000
    (mute (lit "1") (lit "3") 60 1000 sample_room).2) as [H _];
    [exact sample_wf|lia|unfold in_i64, i64_min, i64_max; lia
    |unfold in_i64, i64_min, i64_max, MAX_MUTE_SECS; lia|reflexivity|].
  split; [apply (H 60999)|apply (H 61000)]; lia.
Defined.

Lemma hand_off_exact_witness :
  let r' := (hand_off (lit "1") [lit "3"; lit "2"] sample_room).2 in
  host_id r' = lit "2" /\ wf_room r'.
Proof.
  pose proof (hand_off_exact sample_room (lit "1") [lit "3"; lit "2"] sample_wf) as H.
  assert ((hand_off (lit "1") [lit "3"; lit "2"] sample_room).1 = Ok (Some (lit "2"))) as E
    by reflexivity.
  destruct (hand_off _ _ _) as [res r']. simpl in *. subst res.
  destruct H as [(_ & H & _)|(m & _ & _ & Hr & Hh & _ & _ & _ & _ & Hwf)]; [discriminate|].
  injection Hr as Hr. split; [rewrite Hh; exact (eq_sym Hr)|exact Hwf].
Defined.

Lemma join_exact_witness :
  members (join_room (sample_member "4" 40) sample_room).2
  = members sample_room ++ [sample_member "4" 40].
Proof.
  pose proof (join_exact sample_room (sample_member "4" 40) sample_wf) as H.
  destruct (join_room _ _) as [res r'].
  change (is_member sample_room (m_user_id (sample_member "4" 40))) with false in H.
  change (is_banned sample_room (m_user_id (sample_member "4" 40))) with false in H.
  change (length (members sample_room) <? capacity sample_room)%nat with true in H.
  apply H.
Defined.

Lemma clean_title_canonical_witness :
  clean_title (lit "  late   night ") = Some (lit "late night") /\
  spaced_from true (lit "late night").
Proof.
  split; [reflexivity|].
  apply (clean_title_canonical (lit "  late   night ") (lit "late night")). reflexivity.
Defined.

Definition sample_externals : Externals := {|
  json_len := fun _ => Some 2;
  url_parse := fun s => Some {| url_scheme := lit "https"; url_host_str := Some (lit "i1.sndcdn.com");
                                url_to_string := s |} |}.

Definition sample_update : PlaybackUpdate := {|
  pu_status := Playing; pu_track := None; pu_track_urn := Some (lit " 77 "); pu_next_track := None;
  pu_position_ms := -5; pu_lead_ms := 99999; pu_rate := None; pu_crossfade_sec := Some 40 |}.

Lemma playback_bounds_witness :
  let r' := (@set_playback_op sample_externals (lit "1") sample_update 1000 sample_room).2 in
  pb_at (playback r') = 4000 /\ 1000 <= pb_at (playback r') <= 1000 + MAX_START_LEAD_MS.
Proof.
  split; [reflexivity|].
  apply (@playback_bounds sample_externals (lit "1") sample_update 1000 sample_room (Ok tt)
    (@set_playback_op sample_externals (lit "1") sample_update 1000 sample_room).2);
    [reflexivity|unfold in_i64, i64_min, i64_max; lia
    |unfold in_i64, i64_min, i64_max, MAX_START_LEAD_MS; lia].
Defined.

Definition sample_patch : SettingsPatch := {|
  sp_title := Some (lit " tea "); sp_slow_mode_s := Some 9999; sp_chat_enabled := None;
  sp_links := Some false; sp_cover := Some None; sp_room_images := Some Mods;
  sp_backdrop := Some (Some (Preset (lit "dunes"))) |}.

Lemma apply_settings_sound_witness :
  let r' := (@apply_settings sample_externals (lit "1") sample_patch (Some 5) sample_room).2 in
  same_people sample_room r' /\ slow_mode_s r' = Some 600.
Proof.
  split; [|reflexivity].
  apply (@apply_settings_sound sample_externals (lit "1") sample_patch (Some 5) sample_room). reflexivity.
Defined.
End samples.
