(* ===== verification/RoomStore.v ===== *)
(** * RoomStore: the rooms in Redis ([api/src/modules/rooms/store.rs], [store/cas.rs]
    and [directory.rs]).

    A room is the hash [rooms:<code>] of a version and a serialized body; beside
    it live the presence set, the forwarding pointer of a moved room, the chat
    index, the host index and the public listing.  The Lua scripts run
    atomically; [update] and [relocate] are optimistic loops around them, and
    [env] is what other clients do to the database between the read and the
    script of an attempt. *)

From Stdlib Require Import ZArith Lia String SpecFloat.
From stdpp Require Import base list numbers option tactics sets gmap fin_maps countable.
From S2P Require Import Prelude Text EntityRef AppError RoomModel.
Local Open Scope Z_scope.

(** * What the code relies on of the Redis server.

    Redis is not part of the repository: a database is a parameter [db] with
    the commands the stores and their Lua scripts call.  Each law states the
    documented effect of a command on the keyspace, for a key that is absent or
    holds the command's type (on another type Redis answers [WRONGTYPE] and the
    laws say nothing).  Expiry is a change of the environment: a law about
    [EXPIRE] only says that the contents stay while the key lives.  [gmap_redis]
    shows the laws can hold. *)

Inductive rvalue :=
| RString (s : str)
| RHash (h : gmap str str)
| RZset (z : gmap str Z).

(** The hash or sorted set a key holds, empty when the key is absent. *)
Definition hash_at (ks : gmap str rvalue) (k : str) : option (gmap str str) :=
  match ks !! k with
  | None => Some ∅ | Some (RHash h) => Some h | Some _ => None
  end.
Definition zset_at (ks : gmap str rvalue) (k : str) : option (gmap str Z) :=
  match ks !! k with
  | None => Some ∅ | Some (RZset z) => Some z | Some _ => None
  end.
Definition string_at (ks : gmap str rvalue) (k : str) : option (option str) :=
  match ks !! k with
  | None => Some None | Some (RString s) => Some (Some s) | Some _ => None
  end.

(** A sorted set with no member does not exist. *)
Definition put_zset (k : str) (z : gmap str Z) (ks : gmap str rvalue) : gmap str rvalue :=
  if decide (z = ∅) then delete k ks else <[k := RZset z]> ks.

Class Redis (db : Type) := {
  keyspace : db -> gmap str rvalue;
  hget : str -> str -> db -> option str;
  hset : str -> list (str * str) -> db -> db;
  exists_key : str -> db -> bool;
  expire : str -> Z -> db -> db;
  get : str -> db -> option str;
  set_ex : str -> str -> Z -> db -> db;
  set_px : str -> str -> Z -> db -> db;
  del : str -> db -> db;
  rename : str -> str -> db -> db;
  zadd : str -> str -> Z -> db -> db;
  zrem : str -> str -> db -> db;
  zremrangebyscore_below : str -> Z -> db -> db;
  zrangebyscore_from : str -> Z -> db -> list str;
  zrevrangebyscore_from : str -> Z -> nat -> db -> list str;

  hget_law k f d h : hash_at (keyspace d) k = Some h -> hget k f d = h !! f;
  hset_law k fvs d h : hash_at (keyspace d) k = Some h -> fvs <> [] ->
    keyspace (hset k fvs d) = <[k := RHash (foldl (fun h fv => <[fv.1 := fv.2]> h) h fvs)]> (keyspace d);
  exists_law k d : exists_key k d = bool_decide (is_Some (keyspace d !! k));
  expire_law k ttl d : 0 < ttl -> keyspace (expire k ttl d) = keyspace d;
  get_law k d o : string_at (keyspace d) k = Some o -> get k d = o;
  set_ex_law k v ttl d : 0 < ttl -> keyspace (set_ex k v ttl d) = <[k := RString v]> (keyspace d);
  set_px_law k v ttl d : 0 < ttl -> keyspace (set_px k v ttl d) = <[k := RString v]> (keyspace d);
  del_law k d : keyspace (del k d) = delete k (keyspace d);
  rename_law k k' v d : keyspace d !! k = Some v ->
    keyspace (rename k k' d) = <[k' := v]> (delete k (keyspace d));
  zadd_law k m s d z : zset_at (keyspace d) k = Some z ->
    keyspace (zadd k m s d) = <[k := RZset (<[m := s]> z)]> (keyspace d);
  zrem_law k m d z : zset_at (keyspace d) k = Some z ->
    keyspace (zrem k m d) = put_zset k (delete m z) (keyspace d);
  zremrange_law k bound d z : zset_at (keyspace d) k = Some z ->
    keyspace (zremrangebyscore_below k bound d)
    = put_zset k (filter (fun ms => bound <= ms.2) z) (keyspace d);
  zrange_law k since d z : zset_at (keyspace d) k = Some z ->
    NoDup (zrangebyscore_from k since d) /\
    forall m, m ∈ zrangebyscore_from k since d <-> exists s, z !! m = Some s /\ since <= s;
  zrevrange_law k since limit d :
    zrevrangebyscore_from k since limit d = take limit (rev (zrangebyscore_from k since d))
}.

(** ** An instance

    The keyspace itself, scores ignored in the order of a range (the laws the
    code needs do not fix it). *)

Definition gmap_zrange (k : str) (since : Z) (d : gmap str rvalue) : list str :=
  match zset_at d k with
  | Some z => (map_to_list (filter (fun ms => since <= ms.2) z)).*1
  | None => []
  end.

Definition on_zset (f : gmap str Z -> gmap str Z) (k : str) (d : gmap str rvalue) : gmap str rvalue :=
  match zset_at d k with Some z => put_zset k (f z) d | None => d end.

#[export] Program Instance gmap_redis : Redis (gmap str rvalue) := {|
  keyspace d := d;
  hget k f d := match hash_at d k with Some h => h !! f | None => None end;
  hset k fvs d := match hash_at d k with
                  | Some h => <[k := RHash (foldl (fun h fv => <[fv.1 := fv.2]> h) h fvs)]> d
                  | None => d
                  end;
  exists_key k d := bool_decide (is_Some (d !! k));
  expire _ _ d := d;
  get k d := match string_at d k with Some o => o | None => None end;
  set_ex k v _ d := <[k := RString v]> d;
  set_px k v _ d := <[k := RString v]> d;
  del k d := delete k d;
  rename k k' d := match d !! k with Some v => <[k' := v]> (delete k d) | None => d end;
  zadd k m s d := match zset_at d k with
                  | Some z => <[k := RZset (<[m := s]> z)]> d
                  | None => d
                  end;
  zrem k m := on_zset (delete m) k;
  zremrangebyscore_below k bound := on_zset (filter (fun ms => bound <= ms.2)) k;
  zrangebyscore_from := gmap_zrange;
  zrevrangebyscore_from k since limit d := take limit (rev (gmap_zrange k since d))
|}.
Next Obligation. simpl. intros k f d h ->. done. Qed.
Next Obligation. simpl. intros k fvs d h -> _. done. Qed.
Next Obligation. done. Qed.
Next Obligation. done. Qed.
Next Obligation. simpl. intros k d o ->. done. Qed.
Next Obligation. done. Qed.
Next Obligation. done. Qed.
Next Obligation. done. Qed.
Next Obligation. simpl. intros k k' v d ->. done. Qed.
Next Obligation. simpl. intros k m s d z ->. done. Qed.
Next Obligation. simpl. unfold on_zset. intros k m d z ->. done. Qed.
Next Obligation. simpl. unfold on_zset. intros k m d z ->. done. Qed.
Next Obligation.
  simpl. unfold gmap_zrange. intros k since d z ->. split; [apply NoDup_fst_map_to_list|].
  intros m. rewrite list_elem_of_fmap. split.
  - intros ([x s] & -> & Hx). apply elem_of_map_to_list, map_lookup_filter_Some in Hx. eauto.
  - intros (s & Hs & Hle). exists (m, s). split; [done|].
    apply elem_of_map_to_list, map_lookup_filter_Some. done.
Qed.
Next Obligation. done. Qed.

Definition ROOM_TTL_SECS : Z := 6 * 60 * 60.
Definition MOVED_TTL_SECS : Z := 10 * 60.
Definition CAS_ATTEMPTS : nat := 8.
Definition PUBLIC_KEY : str := lit "rooms:public".
Definition ROOMS_ALIVE : str := lit "rooms:alive".

Definition room_key (code : str) : str := lit "rooms:" ++ code.
Definition seen_key (code : str) : str := lit "rooms:" ++ code ++ lit ":seen".
Definition moved_key (code : str) : str := lit "rooms:" ++ code ++ lit ":moved".
Definition chat_key (chat_id : Uuid) : str := lit "rooms:chat:" ++ uuid_to_string chat_id.
Definition cooldown_key (host : str) : str := lit "rooms:host:" ++ host ++ lit ":backdrop_cooldown".
Definition host_key (user_id : str) : str := lit "rooms:host:" ++ user_id.

Definition V : str := lit "v".
Definition BODY : str := lit "body".

(** ** Serialization

    [serde_json] is a parameter.  It reads back what it wrote as long as the
    snapshots a playback carries survive the trip ([readable]: no float its
    parser rounds, no null snapshot, no nesting past the parser's recursion
    limit of 127 containers); past the limit [from_str] fails. *)

Fixpoint value_depth (v : value) : nat :=
  match v with
  | Array l => S (list_max (List.map value_depth l))
  | Object fields => S (list_max (List.map (fun kv => value_depth kv.2) fields))
  | _ => 0
  end.

Definition snapshot_depth (o : option value) : nat :=
  match o with Some v => value_depth v | None => 0 end.

(** Containers around the deepest value of a serialized room: the room, its
    playback and the snapshot. *)
Definition room_depth (r : Room) : nat :=
  2 + Nat.max (snapshot_depth (pb_track (playback r))) (snapshot_depth (pb_next_track (playback r))).

Definition MAX_CONTAINERS : nat := 127.

Class RoomCodec := {
  encode_room : Room -> option str;
  decode_room : str -> option Room;
  readable : Playback -> Prop;
  readable_default : readable Playback_default;
  codec_law r : readable (playback r) ->
    exists b, encode_room r = Some b /\ decode_room b = Some r;
  codec_depth r b : encode_room r = Some b -> (MAX_CONTAINERS < room_depth r)%nat ->
    decode_room b = None
}.

Section store.
Context {db : Type} {redis : Redis db} {codec : RoomCodec}.

Abbreviation StoreM := (ST db AppError).

(** A Lua script or a command that answers. *)
Definition script {A} (f : db -> A * db) : StoreM A := fun d => (Ok (f d).1, (f d).2).

(** ** Scripts *)

Definition create_script (key version body : str) (ttl : Z) (d : db) : Z * db :=
  if exists_key key d then (0, d)
  else
    let d := hset key [(V, version); (BODY, body)] d in
    let d := expire key ttl d in
    (1, d).

Definition swap_script (key seen guard expected version body : str) (ttl : Z) (token : str) (d : db)
  : Z * db :=
  if negb (bool_decide (hget key V d = Some expected)) then (0, d)
  else if negb (str_eqb token []) && negb (bool_decide (get guard d = Some token)) then (-1, d)
  else
    let d := hset key [(V, version); (BODY, body)] d in
    let d := expire key ttl d in
    let d := expire seen ttl d in
    (1, d).

Definition move_script (key key' seen seen' moved expected version body : str) (ttl : Z)
  (code' : str) (moved_ttl : Z) (d : db) : Z * db :=
  if negb (bool_decide (hget key V d = Some expected)) then (0, d)
  else if exists_key key' d then (0, d)
  else
    let d := hset key' [(V, version); (BODY, body)] d in
    let d := expire key' ttl d in
    let d := if exists_key seen d then expire seen' ttl (rename seen seen' d) else d in
    let d := del key d in
    let d := set_ex moved code' moved_ttl d in
    (1, d).

Definition release_script (key code : str) (d : db) : Z * db :=
  if bool_decide (get key d = Some code)
  then (if exists_key key d then 1 else 0, del key d) else (0, d).

(** ** The store *)

Definition encode (room : Room) : AppResult str :=
  match encode_room room with Some b => Ok b | None => Err (Internal (lit "room encode")) end.

Definition insert (room : Room) : StoreM bool :=
  body ← of_result (encode room);
  created ← script (create_script (room_key (code room)) (to_string (version room)) body ROOM_TTL_SECS);
  mret (created =? 1).

Definition load (code : str) : StoreM (option Room) :=
  body ← gets (hget (room_key code) BODY);
  match body with
  | None => mret None
  | Some body =>
      match decode_room body with
      | Some room => mret (Some room)
      | None => throw (Internal (lit "room decode"))
      end
  end.

Definition load_many (codes : list str) : StoreM (list Room) :=
  gets (fun d => omap (fun code => body ← hget (room_key code) BODY d; decode_room body) codes).

Definition alive_since (since : Z) : StoreM (list str) :=
  gets (zrangebyscore_from ROOMS_ALIVE since).

Definition load_with_presence (codes : list str) (since : Z) : StoreM (list (Room * list str)) :=
  bodies ← gets (fun d => List.map (fun code => hget (room_key code) BODY d) codes);
  presence ← gets (fun d => List.map (fun code => zrangebyscore_from (seen_key code) since d) codes);
  mret (omap (fun '(body, online) => body ← body; room ← decode_room body; Some (room, online))
          (zip bodies presence)).

Definition version_of (code : str) : StoreM (option Z) :=
  v ← gets (hget (room_key code) V);
  match v with
  | None => mret None
  | Some v => n ← of_option (AppError.Redis (lit "not an integer")) (parse_u64 v); mret (Some n)
  end.

Definition moved_to (code : str) : StoreM (option str) := gets (get (moved_key code)).

Definition forget_room (room : Room) : StoreM unit :=
  modify (fun d => del (seen_key (code room)) (del (room_key (code room)) d));;
  modify (zrem ROOMS_ALIVE (code room));;
  match chat_id room with Some id => modify (del (chat_key id)) | None => mret tt end.

Definition store_keep_alive (room : Room) (now : Z) : StoreM unit :=
  modify (expire (room_key (code room)) ROOM_TTL_SECS);;
  modify (zadd ROOMS_ALIVE (code room) now);;
  modify (zremrangebyscore_below ROOMS_ALIVE (wrap_i64 (now - ROOM_TTL_SECS * 1000)));;
  modify (expire ROOMS_ALIVE ROOM_TTL_SECS);;
  match chat_id room with
  | Some id => modify (set_ex (chat_key id) (code room) ROOM_TTL_SECS)
  | None => mret tt
  end.

Definition forget_alive (code : str) : StoreM unit := modify (zrem ROOMS_ALIVE code).

Definition index_chat (id : Uuid) (code : str) : StoreM unit :=
  modify (set_ex (chat_key id) code ROOM_TTL_SECS).

Definition chat_code (id : Uuid) : StoreM (option str) := gets (get (chat_key id)).

Definition touch (code user_id : str) (now : Z) : StoreM unit :=
  modify (zadd (seen_key code) user_id now);;
  modify (expire (seen_key code) ROOM_TTL_SECS).

Definition forget (code user_id : str) : StoreM unit := modify (zrem (seen_key code) user_id).

Definition seen_since (code : str) (since : Z) : StoreM (list str) :=
  gets (zrangebyscore_from (seen_key code) since).

Definition cool_down (host : str) (until now : Z) : StoreM unit :=
  let remaining := Z.max (Z.max 0 (wrap_i64 (until - now))) 1 in
  modify (set_px (cooldown_key host) (i64_to_string until) remaining).

Definition cooling_until (host : str) (now : Z) : StoreM (option Z) :=
  v ← gets (get (cooldown_key host));
  match v with
  | None => mret None
  | Some v =>
      until ← of_option (AppError.Redis (lit "not an integer")) (parse_i64 v);
      mret (if now <? until then Some until else None)
  end.

(** ** Compare and swap *)

Record Guard := { g_key : str; g_token : str }.

Definition not_found : AppError := NotFound (lit "Room not found").
Definition too_quick : AppError := Conflict (lit "The room changed too quickly, try again").
Definition elsewhere : AppError := Conflict (lit "The room changed elsewhere, try again").

Fixpoint update_from {T} (attempts : nat) (code : str) (guard : option Guard) (change : RoomM T)
  (env : nat -> db -> db) : StoreM (Room * T) :=
  let key := room_key code in
  let guard_key := match guard with Some g => g_key g | None => key end in
  let token := match guard with Some g => g_token g | None => [] end in
  match attempts with
  | O => throw too_quick
  | S attempts =>
      found ← load code;
      room ← of_option not_found found;
      let expected := version room in
      match change room with
      | (Err e, _) => throw e
      | (Ok outcome, room) =>
          let room := set_version (wrap_u64 (expected + 1)) room in
          body ← of_result (encode room);
          modify (env attempts);;
          swapped ← script (swap_script key (seen_key code) guard_key (to_string expected)
                      (to_string (version room)) body ROOM_TTL_SECS token);
          if swapped =? 1 then mret (room, outcome)
          else if swapped =? -1 then throw elsewhere
          else update_from attempts code guard change env
      end
  end.

Definition update {T} (code : str) (guard : option Guard) (change : RoomM T) (env : nat -> db -> db)
  : StoreM (Room * T) := update_from CAS_ATTEMPTS code guard change env.

(** [change] returns what its closure captured, as for [update]. *)
Fixpoint relocate_from {T} (attempts : nat) (old : str) (change : RoomM T) (picks : nat -> list nat)
  (env : nat -> db -> db) : StoreM (Room * T) :=
  match attempts with
  | O => throw too_quick
  | S attempts =>
      found ← load old;
      room ← of_option not_found found;
      let expected := version room in
      match change room with
      | (Err e, _) => throw e
      | (Ok captured, room) =>
          let room := set_code (new_code (picks attempts)) room in
          let room := set_version (wrap_u64 (expected + 1)) room in
          body ← of_result (encode room);
          modify (env attempts);;
          moved ← script (move_script (room_key old) (room_key (code room)) (seen_key old)
                    (seen_key (code room)) (moved_key old) (to_string expected)
                    (to_string (version room)) body ROOM_TTL_SECS (code room) MOVED_TTL_SECS);
          if moved =? 1 then mret (room, captured) else relocate_from attempts old change picks env
      end
  end.

Definition store_relocate {T} (old : str) (change : RoomM T) (picks : nat -> list nat)
  (env : nat -> db -> db) : StoreM (Room * T) := relocate_from CAS_ATTEMPTS old change picks env.

(** ** The directory *)

Definition hosted_by (user_id : str) : StoreM (option str) := gets (get (host_key user_id)).

Definition host_seen (room : Room) (now : Z) : StoreM unit :=
  modify (set_ex (host_key (host_id room)) (code room) ROOM_TTL_SECS);;
  if public room && negb (unlisted room)
  then modify (zadd PUBLIC_KEY (code room) now);; modify (expire PUBLIC_KEY ROOM_TTL_SECS)
  else mret tt.

Definition directory_unlist (code : str) : StoreM unit := modify (zrem PUBLIC_KEY code).

Definition release_host (user_id code : str) : StoreM unit :=
  script (release_script (host_key user_id) code);; mret tt.

Definition directory_close (room : Room) : StoreM unit :=
  directory_unlist (code room);; release_host (host_id room) (code room).

Definition listed_since (since : Z) (limit : nat) : StoreM (list str) :=
  modify (zremrangebyscore_below PUBLIC_KEY since);;
  gets (zrevrangebyscore_from PUBLIC_KEY since limit).
End store.

(** * An instance of the serializer's laws.

    The laws of [RoomStore.RoomCodec] can hold: rooms are countable, so a
    concrete injective encoding exists; its decoder refuses what is nested past
    the recursion limit, like [serde_json]'s.  The theorems about the store are
    applied to it on concrete rooms. *)

Global Instance spec_float_eq_dec : EqDecision spec_float.
Proof. solve_decision. Defined.

Global Instance spec_float_countable : Countable spec_float.
Proof.
  apply (inj_countable' (fun x => match x with
    | S754_zero s => inl (inl s) | S754_infinity s => inl (inr s)
    | S754_nan => inr (inl tt) | S754_finite s m e => inr (inr (s, m, e)) end)
    (fun y => match y with
    | inl (inl s) => S754_zero s | inl (inr s) => S754_infinity s
    | inr (inl _) => S754_nan | inr (inr (s, m, e)) => S754_finite s m e end)).
  by intros [].
Defined.

Global Instance number_eq_dec : EqDecision number.
Proof. solve_decision. Defined.

Global Instance number_countable : Countable number.
Proof.
  apply (inj_countable' (fun x => match x with
    | PosInt n => inl (inl n) | NegInt n => inl (inr n) | Float x => inr x end)
    (fun y => match y with
    | inl (inl n) => PosInt n | inl (inr n) => NegInt n | inr x => Float x end)).
  by intros [].
Defined.

(** ** JSON values as trees *)

Abbreviation leaf := (option (bool + number + str)).

Fixpoint to_tree (v : value) : gen_tree leaf :=
  match v with
  | Null => GenLeaf None
  | Bool b => GenLeaf (Some (inl (inl b)))
  | Number n => GenLeaf (Some (inl (inr n)))
  | VString s => GenLeaf (Some (inr s))
  | Array l => GenNode 0 (List.map to_tree l)
  | Object fields =>
      GenNode 1 (List.map (fun kv => GenNode 2 [GenLeaf (Some (inr kv.1)); to_tree kv.2]) fields)
  end.

Fixpoint of_tree (t : gen_tree leaf) : value :=
  match t with
  | GenLeaf None => Null
  | GenLeaf (Some (inl (inl b))) => Bool b
  | GenLeaf (Some (inl (inr n))) => Number n
  | GenLeaf (Some (inr s)) => VString s
  | GenNode 0 l => Array (List.map of_tree l)
  | GenNode _ l =>
      Object (List.map (fun kv => match kv with
                             | GenNode _ [GenLeaf (Some (inr k)); v] => (k, of_tree v)
                             | _ => ([], Null)
                             end) l)
  end.

Fixpoint of_to_tree (v : value) : of_tree (to_tree v) = v.
Proof.
  destruct v as [| | | |l|fields]; try reflexivity; simpl; f_equal; rewrite List.map_map.
  - induction l as [|v l IH]; simpl; [reflexivity|].
    f_equal; [apply of_to_tree|apply IH].
  - induction fields as [|[k v] fields IH]; simpl; [reflexivity|].
    f_equal; [f_equal; apply of_to_tree|apply IH].
Qed.

Global Instance value_eq_dec : EqDecision value.
Proof.
  intros v w. destruct (decide (to_tree v = to_tree w)) as [E|E]; [left|right].
  - by rewrite <- (of_to_tree v), <- (of_to_tree w), E.
  - congruence.
Defined.

Global Instance value_countable : Countable value := inj_countable' to_tree of_tree of_to_tree.

(** ** The records of a room *)

Global Instance PlaybackStatus_countable : Countable PlaybackStatus.
Proof.
  apply (inj_countable' (fun x => match x with
    | Idle => 0 | Loading => 1 | Playing => 2 | Paused => 3 end)
    (fun y => match y with 0 => Idle | 1 => Loading | 2 => Playing | _ => Paused end)).
  by intros [].
Defined.

Global Instance RoomImages_countable : Countable RoomImages.
Proof.
  apply (inj_countable' (fun x => match x with Members => 0 | Mods => 1 | Off => 2 end)
    (fun y => match y with 0 => Members | 1 => Mods | _ => Off end)).
  by intros [].
Defined.

Global Instance Member_eq_dec : EqDecision Member.
Proof. solve_decision. Defined.
Global Instance Member_countable : Countable Member.
Proof.
  apply (inj_countable' (fun m => (m_user_id m, m_name m, m_avatar_url m, m_joined_at m,
    m_ready_urn m, m_chat_from_seq m))
    (fun '(a, b, c, d, e, f) => {| m_user_id := a; m_name := b; m_avatar_url := c;
       m_joined_at := d; m_ready_urn := e; m_chat_from_seq := f |})).
  by intros [].
Defined.

Global Instance Playback_eq_dec : EqDecision Playback.
Proof. solve_decision. Defined.
Global Instance Playback_countable : Countable Playback.
Proof.
  apply (inj_countable' (fun p => (pb_status p, pb_track p, pb_track_urn p, pb_next_track p,
    pb_position_ms p, pb_at p, pb_rate p, pb_crossfade_sec p))
    (fun '(a, b, c, d, e, f, g, h) => {| pb_status := a; pb_track := b; pb_track_urn := c;
       pb_next_track := d; pb_position_ms := e; pb_at := f; pb_rate := g; pb_crossfade_sec := h |})).
  by intros [].
Defined.

Global Instance Mute_eq_dec : EqDecision Mute.
Proof. solve_decision. Defined.
Global Instance Mute_countable : Countable Mute.
Proof.
  apply (inj_countable' (fun m => (mu_user_id m, mu_until_ms m))
    (fun '(a, b) => {| mu_user_id := a; mu_until_ms := b |})).
  by intros [].
Defined.

Global Instance Perks_countable : Countable Perks.
Proof.
  apply (inj_countable' (fun p => (star_host p, pk_capacity p, mods_max p))
    (fun '(a, b, c) => {| star_host := a; pk_capacity := b; mods_max := c |})).
  by intros [].
Defined.

Global Instance Cover_eq_dec : EqDecision Cover.
Proof. solve_decision. Defined.
Global Instance Cover_countable : Countable Cover.
Proof.
  apply (inj_countable' (fun c => (cv_url c, cv_accent c))
    (fun '(a, b) => {| cv_url := a; cv_accent := b |})).
  by intros [].
Defined.

Global Instance Backdrop_eq_dec : EqDecision Backdrop.
Proof. solve_decision. Defined.
Global Instance Backdrop_countable : Countable Backdrop.
Proof.
  apply (inj_countable' (fun b => match b with Preset s => inl s | Image u => inr u end)
    (fun y => match y with inl s => Preset s | inr u => Image u end)).
  by intros [].
Defined.

Global Instance Room_eq_dec : EqDecision Room.
Proof. solve_decision. Defined.
Global Instance Room_countable : Countable Room.
Proof.
  apply (inj_countable'
    (fun r => ((code r, host_id r, version r, created_at r, members r, playback r, public r),
               (title r, chat_id r, moderators r, banned_ids r, muted r, slow_mode_s r, chat_enabled r),
               (links r, unlisted r, perks r, cover r, room_images r, backdrop r, room_id r)))
    (fun '((a, b, c, d, e, f, g), (h, i, j, k, l, m, n), (o, p, q, r, s, t, u)) =>
      {| code := a; host_id := b; version := c; created_at := d; members := e; playback := f;
         public := g; title := h; chat_id := i; moderators := j; banned_ids := k; muted := l;
         slow_mode_s := m; chat_enabled := n; links := o; unlisted := p; perks := q; cover := r;
         room_images := s; backdrop := t; room_id := u |})).
  by intros [].
Defined.

(** ** The codec *)

Definition shallow (p : Playback) : bool :=
  (2 + Nat.max (snapshot_depth (pb_track p)) (snapshot_depth (pb_next_track p)) <=? MAX_CONTAINERS)%nat.

Definition decode_shallow (b : str) : option Room :=
  match b with
  | [Zpos p] => r ← countable.decode p; if shallow (playback r) then Some r else None
  | _ => None
  end.

#[export] Program Instance countable_codec : RoomCodec := {|
  encode_room r := Some [Zpos (countable.encode r)];
  decode_room := decode_shallow;
  readable p := shallow p = true
|}.
Next Obligation. done. Qed.
Next Obligation.
  simpl. intros r Hr. exists [Zpos (countable.encode r)]. split; [done|]. unfold decode_shallow. rewrite decode_encode. simpl. by rewrite Hr.
Qed.
Next Obligation.
  simpl. intros r b [= <-] Hd. unfold decode_shallow. rewrite decode_encode. simpl.
  destruct (shallow (playback r)) eqn:E; [|done]. unfold shallow in E. bprop.
  unfold room_depth in Hd. lia.
Qed.
