(* ===== verification/RoomStoreFacts.v ===== *)
(** * RoomStoreFacts: what the room store does, sequentially.

    The key layout keeps a room apart from everything else stored under
    [rooms:], a stored room is read back, and the compare-and-swap loops do
    what they promise when nobody interferes and refuse when the guard or the
    change does. *)

From Stdlib Require Import ZArith Lia String SpecFloat.
From stdpp Require Import base list numbers option tactics sets gmap fin_maps.
From S2P Require Import Prelude Text AppError EntityRef RoomModel RoomInvariant RoomBehaviour RoomStore.
Local Open Scope Z_scope.

(** ** Keys *)

Lemma valid_code_head c : valid_code c -> exists x c', c = x :: c' /\ is_ascii_lowercase x = false.
Proof.
  intros [Hlen Hall]. destruct c as [|x c]; [done|]. exists x, c. split; [done|].
  apply Forall_cons in Hall as [Hx _].
  assert (Forall (fun x => is_ascii_lowercase x = false) CODE_ALPHABET) as H by (repeat constructor).
  rewrite Forall_forall in H. auto.
Qed.

(** A key that follows [rooms:] with a lowercase letter is none of a code's. *)
Lemma code_key_lowercase c x s t :
  valid_code c -> is_ascii_lowercase x = true -> lit "rooms:" ++ c ++ s <> lit "rooms:" ++ x :: t.
Proof.
  intros Hc Hx E. apply app_inv_head in E.
  destruct (valid_code_head c Hc) as (y & c' & -> & Hy). simpl in E. congruence.
Qed.

(** Two keys of valid codes agree only on the same code and suffix. *)
Lemma code_key_inj c c' s s' :
  valid_code c -> valid_code c' -> lit "rooms:" ++ c ++ s = lit "rooms:" ++ c' ++ s' ->
  c = c' /\ s = s'.
Proof.
  intros [Hc _] [Hc' _] E. apply app_inv_head in E. apply app_inj_1 in E; [done|congruence].
Qed.

Lemma room_key_app c : room_key c = lit "rooms:" ++ c ++ [].
Proof. unfold room_key. by rewrite app_nil_r. Qed.

Lemma room_key_inj c c' : room_key c = room_key c' -> c = c'.
Proof. unfold room_key. apply app_inv_head. Qed.

(** The keys of the other records kept under [rooms:]. *)
Inductive other_key : str -> Prop :=
| other_seen c : valid_code c -> other_key (seen_key c)
| other_moved c : valid_code c -> other_key (moved_key c)
| other_chat id : other_key (chat_key id)
| other_cooldown h : other_key (cooldown_key h)
| other_host u : other_key (host_key u)
| other_public : other_key PUBLIC_KEY
| other_alive : other_key ROOMS_ALIVE.

Lemma room_key_other c k : valid_code c -> other_key k -> room_key c <> k.
Proof.
  intros Hc [c' Hc'|c' Hc'|id|h|u| |]; rewrite room_key_app.
  1, 2: intros E; apply code_key_inj in E as [_ E]; [by vm_compute in E|done|done].
  all: by apply (code_key_lowercase c).
Qed.

Lemma keys_apart c c' : valid_code c -> valid_code c' ->
  moved_key c <> room_key c /\ moved_key c <> room_key c' /\ moved_key c <> seen_key c' /\
  moved_key c <> seen_key c /\ room_key c <> seen_key c' /\ room_key c <> seen_key c /\
  room_key c' <> seen_key c' /\ room_key c' <> seen_key c.
Proof.
  intros Hc Hc'.
  assert (forall x y, valid_code x -> valid_code y -> moved_key x <> room_key y /\
    moved_key x <> seen_key y /\ room_key x <> seen_key y) as H.
  { intros x y Hx Hy. split_and!.
    - intros E. symmetry in E. by apply (room_key_other y (moved_key x)) in E; [|done|constructor].
    - intros E. apply code_key_inj in E as [_ E]; [by vm_compute in E|done|done].
    - by apply room_key_other; [|constructor]. }
  pose proof (H c c Hc Hc). pose proof (H c c' Hc Hc'). pose proof (H c' c Hc' Hc).
  pose proof (H c' c' Hc' Hc'). tauto.
Qed.

(** For valid codes the keys of the store never collide: a room's hash is no
    other record's key (the listing [rooms:public] and the live set
    [rooms:alive] included, although codes also have six characters), and the
    presence set and the forwarding pointer of a code are told apart from each
    other and from those of every other code. *)
Theorem keys_disjoint c c' (Hc : valid_code c) (Hc' : valid_code c') :
  (forall k, other_key k -> room_key c <> k) /\
  (room_key c = room_key c' -> c = c') /\
  (seen_key c = seen_key c' -> c = c') /\ (moved_key c = moved_key c' -> c = c') /\
  seen_key c <> moved_key c' /\
  (forall id, chat_key id <> seen_key c /\ chat_key id <> moved_key c) /\
  (forall u, host_key u <> seen_key c /\ host_key u <> moved_key c).
Proof.
  split_and!.
  - intros k. by apply room_key_other.
  - apply room_key_inj.
  - intros E. by apply code_key_inj in E as [? _].
  - intros E. by apply code_key_inj in E as [? _].
  - intros E. apply code_key_inj in E as [_ E]; [by vm_compute in E|done|done].
  - intros id. split; intros E; symmetry in E; by apply (code_key_lowercase c) in E.
  - intros u. split; intros E; symmetry in E; by apply (code_key_lowercase c) in E.
Qed.

Lemma valid_code_sample : valid_code (lit "ABCDEF").
Proof. by apply (normalize_code_valid (lit "abc-def")). Qed.

Lemma keys_disjoint_witness : room_key (lit "ABCDEF") <> PUBLIC_KEY.
Proof.
  apply (keys_disjoint (lit "ABCDEF") (lit "ABCDEF") valid_code_sample valid_code_sample).
  constructor.
Defined.

Section store.
Context {db : Type} {redis : Redis db} {codec : RoomCodec}.

Definition no_env (_ : nat) (d : db) : db := d.

(** [d] stores room [r] under code [c]. *)
Definition holds (d : db) (c : str) (r : Room) : Prop :=
  exists h b, keyspace d !! room_key c = Some (RHash h) /\
    h !! V = Some (to_string (version r)) /\ h !! BODY = Some b /\ decode_room b = Some r.

Definition absent (d : db) (c : str) : Prop := keyspace d !! room_key c = None.

(** The only key that differs is [k]. *)
Definition only (k : str) (d d' : db) : Prop :=
  forall k', k' <> k -> keyspace d' !! k' = keyspace d !! k'.

Lemma hash_at_Some (ks : gmap str rvalue) (k : str) (h : gmap str str) : ks !! k = Some (RHash h) -> hash_at ks k = Some h.
Proof. unfold hash_at. by intros ->. Qed.

Lemma hash_at_None (ks : gmap str rvalue) (k : str) : ks !! k = None -> hash_at ks k = Some ∅.
Proof. unfold hash_at. by intros ->. Qed.

Lemma load_holds d c r : holds d c r -> load c d = (Ok (Some r), d).
Proof.
  intros (h & b & Hk & _ & Hb & Hd). cbv [load mbind ST_bind gets].
  rewrite (hget_law _ _ _ h) by by apply hash_at_Some. by rewrite Hb, Hd.
Qed.

Lemma load_absent d c : absent d c -> load c d = (Ok None, d).
Proof.
  intros Hk. cbv [load mbind ST_bind gets]. by rewrite (hget_law _ _ _ ∅) by by apply hash_at_None.
Qed.

Lemma holds_functional d c r r' : holds d c r -> holds d c r' -> r = r'.
Proof.
  intros H1 H2. apply load_holds in H1, H2. congruence.
Qed.

(** The hash a script writes. *)
Definition body_hash (h : gmap str str) (v b : str) : gmap str str := <[BODY := b]> (<[V := v]> h).

Lemma holds_written d d' c h r b :
  keyspace d' = <[room_key c := RHash (body_hash h (to_string (version r)) b)]> (keyspace d) ->
  decode_room b = Some r -> holds d' c r.
Proof.
  intros Hk Hb. exists (body_hash h (to_string (version r)) b), b. rewrite Hk.
  split_and!; [apply lookup_insert_eq| |apply lookup_insert_eq|done].
  unfold body_hash. rewrite lookup_insert_ne by done. apply lookup_insert_eq.
Qed.

Lemma only_insert k v d d' : keyspace d' = <[k := v]> (keyspace d) -> only k d d'.
Proof. intros Hd k' Hk. rewrite Hd. by rewrite lookup_insert_ne. Qed.

Lemma only_refl k d : only k d d.
Proof. by intros k' _. Qed.

(** *** [SWAP_SCRIPT] *)
Lemma swap_run d c h seen gk expected v b token :
  keyspace d !! room_key c = Some (RHash h) ->
  exists d', keyspace d' = <[room_key c := RHash (body_hash h v b)]> (keyspace d) /\
  swap_script (room_key c) seen gk expected v b ROOM_TTL_SECS token d =
  if bool_decide (h !! V = Some expected) then
    if negb (str_eqb token []) && negb (bool_decide (get gk d = Some token)) then (-1, d)
    else (1, d')
  else (0, d).
Proof.
  intros Hk. eexists. split; cycle 1.
  - unfold swap_script. rewrite (hget_law _ _ _ h) by by apply hash_at_Some.
    destruct (bool_decide (h !! V = Some expected)); [|done]. simpl negb. cbv iota.
    destruct (_ && _); reflexivity.
  - rewrite !expire_law by done. by rewrite (hset_law _ _ _ h) by (try apply hash_at_Some; done).
Qed.

Lemma swap_absent d c seen gk expected v b token :
  absent d c ->
  swap_script (room_key c) seen gk expected v b ROOM_TTL_SECS token d = (0, d).
Proof.
  intros Hk. unfold swap_script. by rewrite (hget_law _ _ _ ∅) by by apply hash_at_None.
Qed.

(** *** [CREATE_SCRIPT] *)
Lemma create_run d c v b :
  exists d', (absent d c -> keyspace d' = <[room_key c := RHash (body_hash ∅ v b)]> (keyspace d)) /\
  create_script (room_key c) v b ROOM_TTL_SECS d
  = if bool_decide (absent d c) then (1, d') else (0, d).
Proof.
  eexists. split; cycle 1.
  - unfold create_script. rewrite exists_law. unfold absent.
    destruct (keyspace d !! room_key c) eqn:E; simpl; reflexivity.
  - intros Ha. rewrite expire_law by done.
    by rewrite (hset_law _ _ _ ∅) by (try apply hash_at_None; done).
Qed.

Lemma insert_run r d :
  readable (playback r) ->
  exists d', insert r d = (Ok (bool_decide (absent d (code r))), d') /\
  if bool_decide (absent d (code r)) then holds d' (code r) r /\ only (room_key (code r)) d d'
  else d' = d.
Proof.
  intros Hread. destruct (codec_law r Hread) as (b & Hb & Hdec).
  cbv [insert mbind ST_bind of_result encode script]. rewrite Hb.
  destruct (create_run d (code r) (to_string (version r)) b) as (d' & Hd & ->).
  case_bool_decide as Ha; [|by eexists]. specialize (Hd Ha). exists d'.
  split_and!; [done|by eapply holds_written|by eapply only_insert].
Qed.

Lemma version_of_holds d c r :
  holds d c r -> in_u64 (version r) -> version_of c d = (Ok (Some (version r)), d).
Proof.
  intros (h & b & Hk & Hv & _ & _) Hr. cbv [version_of mbind ST_bind gets].
  rewrite (hget_law _ _ _ h) by by apply hash_at_Some. rewrite Hv.
  by rewrite parse_u64_to_string.
Qed.

(** Creating a room stores it under its code, where [load] finds it and
    [version] its version, touching no other key; when the code is taken
    [insert] answers [false] and changes nothing. *)
Theorem insert_then_load r d (Hread : readable (playback r)) (Hv : in_u64 (version r)) :
  let (res, d') := insert r d in
  if bool_decide (absent d (code r)) then
    res = Ok true /\ load (code r) d' = (Ok (Some r), d') /\
    version_of (code r) d' = (Ok (Some (version r)), d') /\ only (room_key (code r)) d d'
  else res = Ok false /\ d' = d.
Proof.
  destruct (insert_run r d Hread) as (d' & -> & Hd).
  case_bool_decide; [|done]. destruct Hd as [Hh Honly].
  split_and!; [done|by apply load_holds|by apply version_of_holds|done].
Qed.

(** *** [update] *)

(** What the script checks of the guard. *)
Definition guard_passes (guard : option Guard) (d : db) : bool :=
  match guard with
  | Some g => str_eqb (g_token g) [] || bool_decide (get (g_key g) d = Some (g_token g))
  | None => true
  end.

Lemma guard_test guard c d :
  negb (str_eqb (match guard with Some g => g_token g | None => [] end) []) &&
  negb (bool_decide (get (match guard with Some g => g_key g | None => room_key c end) d
                     = Some (match guard with Some g => g_token g | None => [] end)))
  = negb (guard_passes guard d).
Proof. destruct guard as [g|]; simpl; [|done]. by rewrite negb_orb. Qed.

(** The room a successful change installs. *)
Definition bumped (before after : Room) : Room := set_version (wrap_u64 (version before + 1)) after.

(** One attempt whose read found [r]; [d1] is the database the script meets. *)
Lemma update_attempt {T} n c guard (change : RoomM T) env d r t r1 b :
  holds d c r -> change r = (Ok t, r1) ->
  encode_room (bumped r r1) = Some b ->
  update_from (S n) c guard change env d =
  let (swapped, d') := swap_script (room_key c) (seen_key c)
    (match guard with Some g => g_key g | None => room_key c end) (to_string (version r))
    (to_string (version (bumped r r1))) b ROOM_TTL_SECS
    (match guard with Some g => g_token g | None => [] end) (env n d) in
  if swapped =? 1 then (Ok (bumped r r1, t), d')
  else if swapped =? -1 then (Err elsewhere, d')
  else update_from n c guard change env d'.
Proof.
  intros Hh Hch Hb. cbn [update_from]. cbv [mbind ST_bind]. rewrite (load_holds _ _ _ Hh).
  cbv [of_option mret ST_ret]. rewrite Hch. cbv zeta. fold (bumped r r1).
  cbv [of_result encode modify script]. rewrite Hb.
  destruct (swap_script _ _ _ _ _ _ _ _ _) as [z d']. simpl.
  destruct (z =? 1); [done|]. by destruct (z =? -1).
Qed.

Lemma update_present {T} c guard (change : RoomM T) d r (Hold : holds d c r)
  (Hread : forall t r1, change r = (Ok t, r1) -> readable (playback r1)) :
  let (res, d') := update c guard change no_env d in
  match change r with
  | (Err e, _) => res = Err e /\ d' = d
  | (Ok t, r1) =>
      if guard_passes guard d then
        res = Ok (bumped r r1, t) /\ holds d' c (bumped r r1) /\ only (room_key c) d d'
      else res = Err elsewhere /\ d' = d
  end.
Proof.
  unfold update, CAS_ATTEMPTS. destruct (change r) as [[t|e] r1] eqn:Hch.
  - destruct (codec_law (bumped r r1)) as (b & Hb & Hdec); [exact (Hread t r1 eq_refl)|].
    erewrite update_attempt by done. unfold no_env. destruct Hold as (h & b0 & Hk & Hv & _ & _).
    edestruct swap_run as (d' & Hd & ->); [exact Hk|].
    rewrite bool_decide_eq_true_2 by done. rewrite guard_test.
    destruct (guard_passes guard d); [|done]. simpl.
    split_and!; [done|by eapply holds_written|by eapply only_insert].
  - cbn [update_from]. cbv [mbind ST_bind]. rewrite (load_holds _ _ _ Hold).
    cbv [of_option mret ST_ret]. by rewrite Hch.
Qed.

Lemma update_missing {T} c guard (change : RoomM T) env d :
  absent d c -> update c guard change env d = (Err not_found, d).
Proof.
  intros Ha. unfold update, CAS_ATTEMPTS. cbn [update_from]. cbv [mbind ST_bind].
  by rewrite (load_absent _ _ Ha).
Qed.

(** With nobody else writing, [update] is the change itself: the stored room
    is replaced by the changed one with the next version, nothing else in the
    database moves, and the new room is returned; when there is no room, when the
    change fails, or when the guard's token is not the stored one, the error is
    returned and the database is untouched. *)
Theorem update_alone {T} c guard (change : RoomM T) d :
  (absent d c -> update c guard change no_env d = (Err not_found, d)) /\
  forall r, holds d c r -> (forall t r1, change r = (Ok t, r1) -> readable (playback r1)) ->
  let (res, d') := update c guard change no_env d in
  match change r with
  | (Err e, _) => res = Err e /\ d' = d
  | (Ok t, r1) =>
      if guard_passes guard d then
        res = Ok (bumped r r1, t) /\ holds d' c (bumped r r1) /\ only (room_key c) d d'
      else res = Err elsewhere /\ d' = d
  end.
Proof. split; [apply update_missing|]. intros r Hold Hread. by apply update_present. Qed.

(** The runs in which only the other clients wrote: [env] applied for attempts
    [n - 1], [n - 2], ... *)
Inductive env_only (env : nat -> db -> db) : nat -> db -> db -> Prop :=
| env_none n d : env_only env n d d
| env_more n d d' : env_only env n (env n d) d' -> env_only env (S n) d d'.

(** The single write an [update] can make: a script that met the version the
    attempt had read. *)
Definition swapped_in {T} (change : RoomM T) (c : str) (guard : option Guard) (d1 d' : db)
  (r' : Room) (t : T) : Prop :=
  exists r r1, change r = (Ok t, r1) /\ r' = bumped r r1 /\
    hget (room_key c) V d1 = Some (to_string (version r)) /\ guard_passes guard d1 = true /\
    keyspace d' = keyspace (hset (room_key c) [(V, to_string (version r'));
      (BODY, default [] (encode_room r'))] d1).

Lemma load_pure c d : (load c d).2 = d.
Proof.
  cbv [load mbind ST_bind gets]. destruct (hget _ _ _) as [b|]; [|done].
  by destruct (decode_room b).
Qed.

(** Whatever other clients do between the attempts, [update] writes at most
    once: if it returns a room, its last script met the version that the change
    was computed from and a matching guard, and installed exactly that room; if
    it fails, for any reason (the room gone, the change refused, the guard
    lost, eight lost races), the database holds only what the others wrote. *)
Theorem update_contended {T} c guard (change : RoomM T) env d :
  let (res, d') := update c guard change env d in
  match res with
  | Err _ => env_only env CAS_ATTEMPTS d d'
  | Ok (r', t) => exists d1, env_only env CAS_ATTEMPTS d d1 /\ swapped_in change c guard d1 d' r' t
  end.
Proof.
  unfold update. generalize CAS_ATTEMPTS as n. intros n. revert d.
  induction n as [|n IH]; intros d; [constructor|].
  cbn [update_from]. cbv [mbind ST_bind].
  pose proof (load_pure c d) as Hp. destruct (load c d) as [[[r|]|e] d0]; simpl in Hp; subst d0;
    [|constructor|constructor].
  cbv [of_option mret ST_ret]. destruct (change r) as [[t|e] r1] eqn:Hch; [|constructor].
  cbv zeta. fold (bumped r r1). cbv [of_result encode modify script].
  destruct (encode_room (bumped r r1)) as [b|] eqn:Hb; [|constructor].
  unfold swap_script. rewrite guard_test.
  case_bool_decide as Hv; cbn [negb].
  - destruct (guard_passes guard (env n d)) eqn:Hg; cbn [negb fst snd].
    + exists (env n d). split; [do 2 constructor|]. exists r, r1.
      split_and!; [done..|]. rewrite Hb. by rewrite !expire_law by done.
    + do 2 constructor.
  - cbn [fst snd]. specialize (IH (env n d)).
    change (0 =? 1) with false. change (0 =? -1) with false. cbv iota.
    destruct (update_from n c guard change env (env n d)) as [[[r' t']|e] d'].
    + destruct IH as (d1 & H1 & H2). exists d1. split; [by constructor|done].
    + by constructor.
Qed.

(** *** [relocate] *)

(** The keyspace after a successful [MOVE_SCRIPT]. *)
Definition moved_keyspace (ks : gmap str rvalue) (old new v b : str) : gmap str rvalue :=
  let ks1 := <[room_key new := RHash (body_hash ∅ v b)]> ks in
  let ks2 := match ks !! seen_key old with
             | Some seen => <[seen_key new := seen]> (delete (seen_key old) ks1)
             | None => ks1
             end in
  <[moved_key old := RString new]> (delete (room_key old) ks2).

Lemma move_run d old new h v b :
  valid_code old -> valid_code new ->
  keyspace d !! room_key old = Some (RHash h) -> absent d new ->
  exists d', keyspace d' = moved_keyspace (keyspace d) old new v b /\
  forall expected,
  move_script (room_key old) (room_key new) (seen_key old) (seen_key new) (moved_key old)
    expected v b ROOM_TTL_SECS new MOVED_TTL_SECS d
  = if bool_decide (h !! V = Some expected) then (1, d') else (0, d).
Proof.
  intros Ho Hn Hk Ha. eexists. split; cycle 1.
  - intros expected. unfold move_script. rewrite (hget_law _ _ _ h) by by apply hash_at_Some.
    destruct (bool_decide (h !! V = Some expected)); [|done]. simpl negb. cbv iota.
    rewrite exists_law, Ha. rewrite bool_decide_eq_false_2 by by intros []. reflexivity.
  - rewrite set_ex_law, del_law by done. unfold moved_keyspace. f_equal. f_equal.
    set (d1 := expire _ _ (hset _ _ d)).
    assert (keyspace d1 = <[room_key new := RHash (body_hash ∅ v b)]> (keyspace d)) as Hd1.
    { unfold d1. rewrite expire_law by done.
      by rewrite (hset_law _ _ _ ∅) by (try apply hash_at_None; done). }
    assert (keyspace d1 !! seen_key old = keyspace d !! seen_key old) as Hs.
    { rewrite Hd1, lookup_insert_ne; [done|]. apply room_key_other; [done|by constructor]. }
    rewrite exists_law, Hs. destruct (keyspace d !! seen_key old) as [seen|] eqn:Es.
    + rewrite bool_decide_eq_true_2 by done. rewrite expire_law by done.
      erewrite rename_law by done. by rewrite Hd1.
    + by rewrite bool_decide_eq_false_2 by by intros [].
Qed.

(** With nobody else writing and a free new code, [relocate] moves the room:
    the changed room lives under the new code with the next version, the old
    code holds no room but forwards to the new one, the presence set moves
    along, and every other key is untouched.  A change that fails moves
    nothing. *)
Theorem relocate_alone {T} old (change : RoomM T) picks d r
  (Hold : holds d old r) (Hvalid : valid_code old)
  (Hnew : valid_code (new_code (picks 7%nat))) (Hfree : absent d (new_code (picks 7%nat)))
  (Hread : forall t r1, change r = (Ok t, r1) -> readable (playback r1)) :
  let new := new_code (picks 7%nat) in
  let (res, d') := store_relocate old change picks no_env d in
  match change r with
  | (Err e, _) => res = Err e /\ d' = d
  | (Ok t, r1) =>
      res = Ok (bumped r (set_code new r1), t) /\ holds d' new (bumped r (set_code new r1)) /\
      absent d' old /\ moved_to old d' = (Ok (Some new), d') /\
      (forall seen, keyspace d !! seen_key old = Some seen -> keyspace d' !! seen_key new = Some seen) /\
      forall k, k ∉ [room_key old; room_key new; seen_key old; seen_key new; moved_key old] ->
        keyspace d' !! k = keyspace d !! k
  end.
Proof.
  intros new. unfold store_relocate, CAS_ATTEMPTS. cbn [relocate_from]. cbv [mbind ST_bind].
  rewrite (load_holds _ _ _ Hold). cbv [of_option mret ST_ret].
  destruct (change r) as [[t|e] r1] eqn:Hch; [|done].
  cbv zeta. fold new. fold (bumped r (set_code new r1)). set (r2 := bumped r (set_code new r1)).
  destruct (codec_law r2 (Hread t r1 eq_refl)) as (b & Hb & Hdec).
  cbv [of_result encode modify script no_env]. rewrite Hb.
  destruct Hold as (h & b0 & Hk & Hv & _ & _).
  destruct (move_run d old new h (to_string (version r2)) b Hvalid Hnew Hk Hfree) as (d' & Hd & Hrun).
  change (code r2) with new. rewrite Hrun, bool_decide_eq_true_2 by done. simpl.
  assert (old <> new) as Hne. { intros E. unfold absent in Hfree. fold new in Hfree. congruence. }
  assert (room_key old <> room_key new) as Hkne by (intros E; by apply room_key_inj in E).
  destruct (keys_apart old new Hvalid Hnew) as (Hk1 & Hk2 & Hk3 & Hk4 & Hk5 & Hk6 & Hk7 & Hk8).
  split_and!.
  - done.
  - exists (body_hash ∅ (to_string (version r2)) b), b. rewrite Hd. unfold moved_keyspace.
    split_and!; [|unfold body_hash; by rewrite lookup_insert_ne, lookup_insert_eq by done
                 |apply lookup_insert_eq|done].
    rewrite lookup_insert_ne, lookup_delete_ne by done.
    destruct (keyspace d !! seen_key old); simplify_map_eq; done.
  - unfold absent. rewrite Hd. unfold moved_keyspace. by simplify_map_eq.
  - cbv [moved_to gets]. erewrite get_law; [done|]. unfold string_at. rewrite Hd.
    unfold moved_keyspace. by simplify_map_eq.
  - intros seen Hs. rewrite Hd. unfold moved_keyspace. rewrite Hs. by simplify_map_eq.
  - intros k Hkk. rewrite !not_elem_of_cons in Hkk. destruct Hkk as (? & ? & ? & ? & ? & _).
    rewrite Hd. unfold moved_keyspace. destruct (keyspace d !! seen_key old); by simplify_map_eq.
Qed.
End store.

(** ** On a concrete database *)
Section samples.

Definition sample_db : gmap str rvalue := (insert sample_room ∅).2.

Lemma sample_stored :
  holds sample_db (lit "ABCDEF") sample_room /\ only (room_key (lit "ABCDEF")) ∅ sample_db.
Proof.
  unfold sample_db. destruct (insert_run (db := gmap str rvalue) sample_room ∅) as (d' & -> & H).
  - reflexivity.
  - rewrite bool_decide_eq_true_2 in H by reflexivity. apply H.
Qed.

Lemma sample_holds : holds sample_db (lit "ABCDEF") sample_room.
Proof. apply sample_stored. Qed.

Lemma insert_then_load_witness :
  load (lit "ABCDEF") sample_db = (Ok (Some sample_room), sample_db) /\
  (insert sample_room sample_db).1 = Ok false.
Proof.
  split.
  - pose proof (insert_then_load (db := gmap str rvalue) sample_room ∅ eq_refl) as H.
    change (insert sample_room ∅) with ((insert sample_room (∅ : gmap str rvalue)).1, sample_db) in H.
    rewrite bool_decide_eq_true_2 in H by reflexivity. apply H. vm_compute. split; discriminate.
  - pose proof (insert_then_load (db := gmap str rvalue) sample_room sample_db eq_refl) as H.
    destruct (insert sample_room sample_db) as [res d'].
    rewrite bool_decide_eq_false_2 in H.
    + apply H. vm_compute. split; discriminate.
    + destruct sample_holds as (h & b & Hk & _). unfold absent.
      change (code sample_room) with (lit "ABCDEF"). rewrite Hk. discriminate.
Defined.

Lemma sample_kick : kick (lit "1") (lit "3") sample_room = (Ok tt, removed (lit "3") sample_room).
Proof. reflexivity. Qed.

Lemma update_alone_witness :
  exists d', update (lit "ABCDEF") None (kick (lit "1") (lit "3")) no_env sample_db
    = (Ok (bumped sample_room (removed (lit "3") sample_room), tt), d').
Proof.
  pose proof (proj2 (update_alone (lit "ABCDEF") None (kick (lit "1") (lit "3")) sample_db)
    sample_room sample_holds) as H.
  destruct (update _ _ _ _ _) as [res d']. exists d'. rewrite sample_kick in H. f_equal. apply H.
  intros t r1 [= _ <-]. reflexivity.
Defined.

Definition sample_picks (n : nat) : list nat := [n; 1; 2; 3; 4; 5]%nat.

Lemma relocate_alone_witness :
  exists d', (store_relocate (lit "ABCDEF") (set_public_op (lit "1") false) sample_picks no_env sample_db).2
    = d' /\ absent d' (lit "ABCDEF") /\ moved_to (lit "ABCDEF") d' = (Ok (Some (lit "HBCDEF")), d').
Proof.
  pose proof (relocate_alone (lit "ABCDEF") (set_public_op (lit "1") false) sample_picks sample_db
    sample_room sample_holds valid_code_sample) as H.
  change (new_code (sample_picks 7)) with (lit "HBCDEF") in H. cbv zeta in H.
  destruct (store_relocate _ _ _ _ _) as [res d']. exists d'. split; [reflexivity|].
  assert (set_public_op (lit "1") false sample_room = (Ok tt, set_public false sample_room)) as E
    by reflexivity.
  rewrite E in H. destruct H as (_ & _ & Hold & Hmoved & _).
  - apply (normalize_code_valid (lit "HBCDEF")). reflexivity.
  - unfold absent. rewrite (proj2 sample_stored); [reflexivity|]. intros E'. discriminate E'.
  - intros t r1 [= _ <-]. reflexivity.
  - exact (conj Hold Hmoved).
Defined.
End samples.
