(* ===== verification/RoomConcurrency.v ===== *)
(** * RoomConcurrency: the optimistic loops under interleaving.

    Any number of clients run the attempts of [update] and [relocate] (a read,
    later a script), create rooms, drop them and write the other keys, in any
    order; keys may expire at any time.  The transition system [sys_step] keeps
    the read and the script of an attempt as separate steps.  It refines
    [spec_step], where every change of a room is one atomic step on the map from
    codes to rooms. *)

From Stdlib Require Import ZArith Lia String.
From stdpp Require Import base list numbers option tactics sets gmap fin_maps.
From S2P Require Import Prelude Text AppError EntityRef RoomModel RoomInvariant RoomBehaviour RoomStore RoomStoreFacts.
Local Open Scope Z_scope.

(** What a closure does to a room when it succeeds. *)
Definition change : Type := Room -> option Room.

Definition change_of {T} (m : RoomM T) : change :=
  fun r => match m r with (Ok _, r') => Some r' | (Err _, _) => None end.

Inductive label :=
| LCreate (r : Room)
| LApply (c : str) (f : change)
| LDelete (c : str)
| LMove (c : str) (f : change) (c' : str).

(** ** The specification: atomic changes *)

Abbreviation spec := (gmap str Room).

Inductive spec_step : spec -> label -> spec -> Prop :=
| spec_create m r : m !! code r = None -> spec_step m (LCreate r) (<[code r := r]> m)
| spec_apply m c f r r' :
    m !! c = Some r -> f r = Some r' -> spec_step m (LApply c f) (<[c := bumped r r']> m)
| spec_delete m c : spec_step m (LDelete c) (delete c m)
| spec_move m c f c' r r' :
    m !! c = Some r -> f r = Some r' -> m !! c' = None ->
    spec_step m (LMove c f c') (<[c' := bumped r (set_code c' r')]> (delete c m)).

(** [spec_run tr m]: the labels [tr] (latest first) lead from no room to [m]. *)
Inductive spec_run : list label -> spec -> Prop :=
| spec_run_nil : spec_run [] ∅
| spec_run_step tr m l m' : spec_run tr m -> spec_step m l m' -> spec_run (l :: tr) m'.

(** ** The system: reads and scripts *)

Record client := { cl_code : str; cl_read : Room; cl_change : change }.

Section system.
Context {db : Type} {redis : Redis db} {codec : RoomCodec}.

Record sys := { sys_db : db; sys_clients : gmap nat client; sys_used : gset str }.

(** The script an attempt of [update] runs, and the one of [relocate]. *)
Definition swap_of (cl : client) (r' : Room) (b gk token : str) : db -> Z * db :=
  swap_script (room_key (cl_code cl)) (seen_key (cl_code cl)) gk (to_string (version (cl_read cl)))
    (to_string (version (bumped (cl_read cl) r'))) b ROOM_TTL_SECS token.

Definition move_of (cl : client) (r' : Room) (c' b : str) : db -> Z * db :=
  move_script (room_key (cl_code cl)) (room_key c') (seen_key (cl_code cl)) (seen_key c')
    (moved_key (cl_code cl)) (to_string (version (cl_read cl)))
    (to_string (version (bumped (cl_read cl) (set_code c' r')))) b ROOM_TTL_SECS c' MOVED_TTL_SECS.

Inductive sys_step : sys -> option label -> sys -> Prop :=
| step_create s r d :
    valid_code (code r) -> version r = 1 -> readable (playback r) -> code r ∉ sys_used s ->
    insert r (sys_db s) = (Ok true, d) ->
    sys_step s (Some (LCreate r))
      {| sys_db := d; sys_clients := sys_clients s; sys_used := {[code r]} ∪ sys_used s |}
| step_read s i c f r :
    valid_code c -> load c (sys_db s) = (Ok (Some r), sys_db s) ->
    sys_step s None
      {| sys_db := sys_db s; sys_used := sys_used s;
         sys_clients := <[i := {| cl_code := c; cl_read := r; cl_change := f |}]> (sys_clients s) |}
| step_swap s i cl r' b gk token d :
    sys_clients s !! i = Some cl -> cl_change cl (cl_read cl) = Some r' -> readable (playback r') ->
    encode_room (bumped (cl_read cl) r') = Some b ->
    swap_of cl r' b gk token (sys_db s) = (1, d) ->
    sys_step s (Some (LApply (cl_code cl) (cl_change cl)))
      {| sys_db := d; sys_clients := delete i (sys_clients s); sys_used := sys_used s |}
| step_swap_lost s i cl r' b gk token n d :
    sys_clients s !! i = Some cl -> cl_change cl (cl_read cl) = Some r' ->
    swap_of cl r' b gk token (sys_db s) = (n, d) -> n <> 1 ->
    sys_step s None
      {| sys_db := d; sys_clients := delete i (sys_clients s); sys_used := sys_used s |}
| step_move s i cl r' c' b d :
    sys_clients s !! i = Some cl -> cl_change cl (cl_read cl) = Some r' -> readable (playback r') ->
    valid_code c' -> c' ∉ sys_used s ->
    encode_room (bumped (cl_read cl) (set_code c' r')) = Some b ->
    move_of cl r' c' b (sys_db s) = (1, d) ->
    sys_step s (Some (LMove (cl_code cl) (cl_change cl) c'))
      {| sys_db := d; sys_clients := delete i (sys_clients s); sys_used := {[c']} ∪ sys_used s |}
| step_move_lost s i cl r' c' b n d :
    sys_clients s !! i = Some cl -> cl_change cl (cl_read cl) = Some r' ->
    move_of cl r' c' b (sys_db s) = (n, d) -> n <> 1 ->
    sys_step s None
      {| sys_db := d; sys_clients := delete i (sys_clients s); sys_used := sys_used s |}
| step_give_up s i :
    sys_step s None
      {| sys_db := sys_db s; sys_clients := delete i (sys_clients s); sys_used := sys_used s |}
| step_delete s c d :
    keyspace d = delete (room_key c) (keyspace (sys_db s)) ->
    sys_step s (Some (LDelete c))
      {| sys_db := d; sys_clients := sys_clients s; sys_used := sys_used s |}
| step_other s d :
    (forall c, valid_code c -> keyspace d !! room_key c = keyspace (sys_db s) !! room_key c) ->
    sys_step s None
      {| sys_db := d; sys_clients := sys_clients s; sys_used := sys_used s |}.

(** [sys_run n tr s]: [n] steps from an empty room space, with visible labels
    [tr] (latest first). *)
Inductive sys_run : nat -> list label -> sys -> Prop :=
| sys_run_nil d :
    (forall c, valid_code c -> absent d c) ->
    sys_run 0 [] {| sys_db := d; sys_clients := ∅; sys_used := ∅ |}
| sys_run_step n tr s l s' :
    sys_run n tr s -> sys_step s l s' ->
    sys_run (S n) (match l with Some l => l :: tr | None => tr end) s'.

(** ** The simulation relation *)

Definition stored (d : db) (c : str) (o : option Room) : Prop :=
  match o with Some r => holds d c r | None => absent d c end.

Record simulates (n : nat) (s : sys) (m : spec) : Prop := {
  sim_stored c : valid_code c -> stored (sys_db s) c (m !! c);
  sim_rooms c r : m !! c = Some r ->
    valid_code c /\ c ∈ sys_used s /\ 1 <= version r <= 1 + Z.of_nat n;
  sim_clients i cl : sys_clients s !! i = Some cl ->
    valid_code (cl_code cl) /\ cl_code cl ∈ sys_used s /\ 1 <= version (cl_read cl) /\
    forall r, m !! cl_code cl = Some r ->
      version (cl_read cl) <= version r /\ (version (cl_read cl) = version r -> r = cl_read cl) }.

Lemma stored_other d d' c o :
  keyspace d' !! room_key c = keyspace d !! room_key c -> stored d c o -> stored d' c o.
Proof.
  intros E. unfold stored. destruct o as [r|]; [|unfold absent; congruence].
  intros (h & b & Hk & Hrest). exists h, b. by rewrite E.
Qed.

Lemma only_stored d d' c c' o :
  only (room_key c) d d' -> c' <> c -> stored d c' o -> stored d' c' o.
Proof.
  intros Ho Hne. apply stored_other, Ho. intros E. by apply room_key_inj in E.
Qed.

Lemma bumped_version r r' : 0 <= version r < u64_max -> version (bumped r r') = version r + 1.
Proof. intros H. simpl. apply wrap_u64_small. unfold in_u64. lia. Qed.

(** Fewer clients, and a bound that grew, keep the relation. *)
Lemma simulates_weaken n s m d clients :
  simulates n s m -> clients ⊆ sys_clients s ->
  (forall c, valid_code c -> keyspace d !! room_key c = keyspace (sys_db s) !! room_key c) ->
  simulates (S n) {| sys_db := d; sys_clients := clients; sys_used := sys_used s |} m.
Proof.
  intros [H1 H2 H3] Hsub Hd. constructor; simpl.
  - intros c Hc. eapply stored_other; [by apply Hd|auto].
  - intros c r Hr. apply H2 in Hr as (? & ? & ?). split_and!; [done|done|lia|lia].
  - intros i cl Hi. eapply H3, lookup_weaken; done.
Qed.

(** A script that installed a newer room at [c]: the clients that read an older
    one keep their claim. *)
Lemma simulates_install n s m d clients used c r :
  simulates n s m -> clients ⊆ sys_clients s -> sys_used s ⊆ used ->
  valid_code c -> c ∈ used -> holds d c r -> 1 <= version r <= 1 + Z.of_nat (S n) ->
  (c ∈ sys_used s -> exists r0, m !! c = Some r0 /\ version r0 < version r) ->
  only (room_key c) (sys_db s) d ->
  simulates (S n) {| sys_db := d; sys_clients := clients; sys_used := used |} (<[c := r]> m).
Proof.
  intros [H1 H2 H3] Hcl Hused Hc Hin Hh Hv Hnew Ho. constructor; simpl.
  - intros c' Hc'. destruct (decide (c' = c)) as [->|Hne]; [by rewrite lookup_insert_eq|].
    rewrite lookup_insert_ne by done. eapply only_stored; eauto.
  - intros c' r' Hr. destruct (decide (c' = c)) as [->|Hne].
    + rewrite lookup_insert_eq in Hr. injection Hr as <-. done.
    + rewrite lookup_insert_ne in Hr by done. apply H2 in Hr as (? & ? & ?).
      split_and!; [done|set_solver|lia|lia].
  - intros i cl Hi. eapply lookup_weaken in Hi; [|done]. apply H3 in Hi as (Hv' & Hu & Hge & Hr).
    split_and!; [done|set_solver|done|]. intros r'. destruct (decide (cl_code cl = c)) as [Ec|Hne].
    + rewrite Ec, lookup_insert_eq. intros [= <-]. rewrite Ec in *.
      destruct (Hnew Hu) as (r0 & Hr0 & Hlt). apply Hr in Hr0 as [Hle _]. lia.
    + rewrite lookup_insert_ne by done. auto.
Qed.

Lemma simulates_delete n s m d clients c :
  simulates n s m -> clients ⊆ sys_clients s ->
  keyspace d !! room_key c = None -> (forall c', valid_code c' -> c' <> c ->
    keyspace d !! room_key c' = keyspace (sys_db s) !! room_key c') ->
  simulates (S n) {| sys_db := d; sys_clients := clients; sys_used := sys_used s |} (delete c m).
Proof.
  intros [H1 H2 H3] Hcl Hgone Ho. constructor; simpl.
  - intros c' Hc'. destruct (decide (c' = c)) as [->|Hne]; [by rewrite lookup_delete_eq|].
    rewrite lookup_delete_ne by done. eapply stored_other; [by apply Ho|auto].
  - intros c' r Hr. apply lookup_delete_Some in Hr as [_ Hr]. apply H2 in Hr as (? & ? & ?).
    split_and!; [done|done|lia|lia].
  - intros i cl Hi. eapply lookup_weaken in Hi; [|done]. apply H3 in Hi as (? & ? & ? & Hr).
    split_and!; [done..|]. intros r Hr'. apply lookup_delete_Some in Hr' as [_ Hr']. auto.
Qed.

(** The room stored under a client's code, when its version is the one read, is
    the room read. *)
Lemma version_matches n s m i cl h :
  simulates n s m -> sys_clients s !! i = Some cl ->
  keyspace (sys_db s) !! room_key (cl_code cl) = Some (RHash h) ->
  h !! V = Some (to_string (version (cl_read cl))) ->
  m !! cl_code cl = Some (cl_read cl).
Proof.
  intros [H1 H2 H3] Hi Hk Hv. destruct (H3 _ _ Hi) as (Hc & _ & Hge & Hr).
  specialize (H1 _ Hc). destruct (m !! cl_code cl) as [r|] eqn:Em; simpl in H1.
  - destruct H1 as (h' & b & Hk' & Hv' & _). rewrite Hk in Hk'. injection Hk' as <-.
    rewrite Hv in Hv'. injection Hv' as Hv'.
    destruct (H2 _ _ Em) as (_ & _ & Hpos & _). apply to_string_inj in Hv'; [|lia|lia].
    f_equal. by apply Hr.
  - unfold absent in H1. congruence.
Qed.

Lemma swap_success n s m i cl r' b gk token d :
  simulates n s m -> sys_clients s !! i = Some cl -> readable (playback r') ->
  encode_room (bumped (cl_read cl) r') = Some b -> swap_of cl r' b gk token (sys_db s) = (1, d) ->
  m !! cl_code cl = Some (cl_read cl) /\ holds d (cl_code cl) (bumped (cl_read cl) r') /\
  only (room_key (cl_code cl)) (sys_db s) d.
Proof.
  intros Hsim Hi Hread Hb Hswap. destruct (codec_law (bumped (cl_read cl) r') Hread) as (b' & Hb' & Hdec).
  rewrite Hb in Hb'. injection Hb' as <-.
  pose proof (sim_stored _ _ _ Hsim (cl_code cl)) as Hst.
  destruct (sim_clients _ _ _ Hsim _ _ Hi) as (Hc & _). specialize (Hst Hc). unfold swap_of in Hswap.
  destruct (m !! cl_code cl) as [r|] eqn:Em; simpl in Hst.
  - destruct Hst as (h & b0 & Hk & Hv & _).
    destruct (swap_run (sys_db s) (cl_code cl) h (seen_key (cl_code cl)) gk
      (to_string (version (cl_read cl))) (to_string (version (bumped (cl_read cl) r'))) b token Hk)
      as (d' & Hd & Hrun). rewrite Hrun in Hswap. case_bool_decide as Hver; [|done].
    destruct (_ && _); [done|]. injection Hswap as <-.
    rewrite <- Em, (version_matches n s m i cl h) by done.
    split_and!; [done|by eapply holds_written|by eapply only_insert].
  - by rewrite swap_absent in Hswap.
Qed.

Lemma move_lost_unchanged cl r' c' b d n d' :
  move_of cl r' c' b d = (n, d') -> n <> 1 -> d' = d.
Proof.
  unfold move_of, move_script. repeat (case_match; [by intros [= _ <-]|]).
  intros [= <- _]. done.
Qed.

Lemma swap_lost_unchanged cl r' b gk token d n d' :
  swap_of cl r' b gk token d = (n, d') -> n <> 1 -> d' = d.
Proof.
  unfold swap_of, swap_script. repeat (case_match; [by intros [= _ <-]|]).
  intros [= <- _]. done.
Qed.

(** Where a moved room, its old code and the other rooms are found. *)
Lemma moved_lookup (ks : gmap str rvalue) old new v b :
  valid_code old -> valid_code new -> old <> new ->
  moved_keyspace ks old new v b !! room_key new = Some (RHash (body_hash ∅ v b)) /\
  moved_keyspace ks old new v b !! room_key old = None /\
  forall c, valid_code c -> c <> old -> c <> new ->
    moved_keyspace ks old new v b !! room_key c = ks !! room_key c.
Proof.
  intros Ho Hn Hne.
  assert (forall c k, valid_code c -> other_key k -> room_key c <> k) as Hk by apply room_key_other.
  assert (forall c, valid_code c -> room_key c <> moved_key old /\ room_key c <> seen_key old /\
    room_key c <> seen_key new) as Hoth by (intros c Hc; split_and!; apply Hk; auto using other_moved, other_seen).
  assert (forall c c', c <> c' -> room_key c <> room_key c') as Hinj.
  { intros c c' Hc E. by apply room_key_inj in E. }
  pose proof (Hoth old Ho) as (? & ? & ?). pose proof (Hoth new Hn) as (? & ? & ?).
  pose proof (Hinj _ _ Hne).
  unfold moved_keyspace. split_and!.
  - destruct (ks !! seen_key old); by simplify_map_eq.
  - by simplify_map_eq.
  - intros c Hc Hco Hcn. pose proof (Hoth c Hc) as (? & ? & ?).
    pose proof (Hinj _ _ Hco). pose proof (Hinj _ _ Hcn).
    destruct (ks !! seen_key old); by simplify_map_eq.
Qed.

Lemma move_success n s m i cl r' c' b d :
  simulates n s m -> sys_clients s !! i = Some cl -> readable (playback r') ->
  valid_code c' -> c' ∉ sys_used s ->
  encode_room (bumped (cl_read cl) (set_code c' r')) = Some b ->
  move_of cl r' c' b (sys_db s) = (1, d) ->
  m !! cl_code cl = Some (cl_read cl) /\ m !! c' = None /\ cl_code cl <> c' /\
  holds d c' (bumped (cl_read cl) (set_code c' r')) /\
  absent d (cl_code cl) /\
  forall c, valid_code c -> c <> cl_code cl -> c <> c' ->
    keyspace d !! room_key c = keyspace (sys_db s) !! room_key c.
Proof.
  intros Hsim Hi Hread Hc' Hfresh Hb Hmove.
  destruct (codec_law (bumped (cl_read cl) (set_code c' r')) Hread) as (b' & Hb' & Hdec).
  rewrite Hb in Hb'. injection Hb' as <-.
  destruct (sim_clients _ _ _ Hsim _ _ Hi) as (Hc & Hu & _).
  assert (m !! c' = None) as Hnone.
  { destruct (m !! c') as [r|] eqn:E; [|done]. by apply (sim_rooms _ _ _ Hsim) in E as (_ & ? & _). }
  assert (absent (sys_db s) c') as Ha.
  { pose proof (sim_stored _ _ _ Hsim c' Hc') as H. by rewrite Hnone in H. }
  assert (cl_code cl <> c') as Hne by (intros E; by rewrite E in Hu).
  pose proof (sim_stored _ _ _ Hsim (cl_code cl) Hc) as Hst. unfold move_of in Hmove.
  destruct (m !! cl_code cl) as [r|] eqn:Em; simpl in Hst.
  - destruct Hst as (h & b0 & Hk & Hv & _).
    destruct (move_run (sys_db s) (cl_code cl) c' h
      (to_string (version (bumped (cl_read cl) (set_code c' r')))) b Hc Hc' Hk Ha) as (d' & Hd & Hrun).
    rewrite Hrun in Hmove. case_bool_decide as Hver; [|done]. injection Hmove as <-.
    rewrite <- Em, (version_matches n s m i cl h) by done.
    destruct (moved_lookup (keyspace (sys_db s)) (cl_code cl) c'
      (to_string (version (bumped (cl_read cl) (set_code c' r')))) b) as (L1 & L2 & L3); [done..|].
    rewrite <- Hd in *. split_and!; [done|done|done| |done|done].
    eexists _, b. split_and!; [exact L1| |apply lookup_insert_eq|done].
    unfold body_hash. by rewrite lookup_insert_ne, lookup_insert_eq by done.
  - unfold move_script in Hmove. by rewrite (hget_law _ _ _ ∅) in Hmove by by apply hash_at_None.
Qed.

Lemma simulates_moved n s m i cl r' c' d :
  simulates n s m -> Z.of_nat n + 1 < u64_max -> valid_code c' -> c' ∉ sys_used s ->
  m !! cl_code cl = Some (cl_read cl) -> cl_code cl <> c' ->
  version (bumped (cl_read cl) r') = version (cl_read cl) + 1 ->
  holds d c' (bumped (cl_read cl) r') -> absent d (cl_code cl) ->
  (forall c, valid_code c -> c <> cl_code cl -> c <> c' ->
    keyspace d !! room_key c = keyspace (sys_db s) !! room_key c) ->
  simulates (S n) {| sys_db := d; sys_clients := delete i (sys_clients s);
                     sys_used := {[c']} ∪ sys_used s |}
    (<[c' := bumped (cl_read cl) r']> (delete (cl_code cl) m)).
Proof.
  intros [H1 H2 H3] Hn Hc' Hfresh Em Hne Hver Hh Ha Ho.
  destruct (H2 _ _ Em) as (_ & _ & Hv). constructor; cbn [sys_db sys_clients sys_used].
  - intros c Hc. destruct (decide (c = c')) as [->|Hc1]; [by rewrite lookup_insert_eq|].
    rewrite lookup_insert_ne by done. destruct (decide (c = cl_code cl)) as [->|Hc2].
    { by rewrite lookup_delete_eq. }
    rewrite lookup_delete_ne by done. eapply stored_other; [by apply Ho|auto].
  - intros c r Hr. destruct (decide (c = c')) as [->|Hc1].
    + rewrite lookup_insert_eq in Hr. injection Hr as <-. rewrite Hver.
      split_and!; [done|set_solver|lia|lia].
    + rewrite lookup_insert_ne in Hr by done. apply lookup_delete_Some in Hr as [_ Hr].
      apply H2 in Hr as (? & ? & ?). split_and!; [done|set_solver|lia|lia].
  - intros j cl' Hj. apply lookup_delete_Some in Hj as [_ Hj].
    apply H3 in Hj as (? & Hu & ? & Hr). split_and!; [done|set_solver|done|].
    intros r. destruct (decide (cl_code cl' = c')) as [E|Hc1]; [by rewrite E in Hu|].
    rewrite lookup_insert_ne by done. intros Hr'. apply lookup_delete_Some in Hr' as [_ Hr']. auto.
Qed.

(** One step of the system is one step of the specification, or none. *)
Lemma step_simulated n s m l s' :
  Z.of_nat n + 1 < u64_max -> simulates n s m -> sys_step s l s' ->
  exists m', simulates (S n) s' m' /\
    match l with Some l => spec_step m l m' | None => m' = m end.
Proof.
  intros Hn Hsim Hstep. destruct Hstep.
  - destruct (insert_run r (sys_db s)) as (d' & E & Hd); [done|].
    rewrite E in *. case_bool_decide as Ha; [|done]. simplify_eq. destruct Hd as [Hh Ho].
    exists (<[code r := r]> m). split.
    + eapply simulates_install; try done; [set_solver|set_solver|lia].
    + constructor. pose proof (sim_stored _ _ _ Hsim (code r)) as Hst.
      destruct (m !! code r) as [r0|] eqn:Em; [|done].
      apply (sim_rooms _ _ _ Hsim) in Em as (_ & ? & _). done.
  - exists m. split; [|done]. pose proof Hsim as [H1 H2 H3]. constructor; simpl.
    + done.
    + intros c0 r0 Hr. apply H2 in Hr as (? & ? & ?). split_and!; [done|done|lia|lia].
    + intros j cl. destruct (decide (j = i)) as [->|Hne]; [|by rewrite lookup_insert_ne; [apply H3|]].
      rewrite lookup_insert_eq. intros [= <-]. simpl.
      assert (m !! c = Some r) as Em.
      { specialize (H1 c). destruct (m !! c) as [r0|]; simpl in H1.
        - pose proof (load_holds _ _ _ (H1 ltac:(done))). congruence.
        - pose proof (load_absent _ _ (H1 ltac:(done))). congruence. }
      destruct (H2 _ _ Em) as (? & ? & ?). split_and!; [done|done|lia|].
      rewrite Em. intros ? [= <-]. done.
  - destruct (swap_success n s m i cl r' b gk token d) as (Em & Hh & Ho); [done..|].
    destruct (sim_rooms _ _ _ Hsim _ _ Em) as (Hc & Hu & Hv).
    pose proof (bumped_version (cl_read cl) r' ltac:(lia)) as Hbv.
    exists (<[cl_code cl := bumped (cl_read cl) r']> m). split; [|by econstructor].
    eapply simulates_install; try done; [apply delete_subseteq|lia|].
    intros _. eexists. split; [done|lia].
  - exists m. split; [|done]. apply swap_lost_unchanged in H1 as ->; [|done].
    eapply simulates_weaken; [done|apply delete_subseteq|done].
  - destruct (move_success n s m i cl r' c' b d) as (Em & Hnone & Hne & Hh & Ha & Ho); [done..|].
    destruct (sim_rooms _ _ _ Hsim _ _ Em) as (Hc & Hu & Hv).
    pose proof (bumped_version (cl_read cl) (set_code c' r') ltac:(lia)) as Hbv.
    exists (<[c' := bumped (cl_read cl) (set_code c' r')]> (delete (cl_code cl) m)).
    split; [|by econstructor].
    by eapply simulates_moved.
  - exists m. split; [|done]. apply move_lost_unchanged in H1 as ->; [|done].
    eapply simulates_weaken; [done|apply delete_subseteq|done].
  - exists m. split; [|done]. eapply simulates_weaken; [done|apply delete_subseteq|done].
  - exists (delete c m). split; [|constructor]. eapply simulates_delete; try done.
    + rewrite H. apply lookup_delete_eq.
    + intros c' _ Hne. rewrite H. apply lookup_delete_ne. intros E. by apply room_key_inj in E.
  - exists m. split; [|done]. by eapply simulates_weaken.
Qed.

Lemma run_simulated n tr s :
  sys_run n tr s -> Z.of_nat n < u64_max -> exists m, spec_run tr m /\ simulates n s m.
Proof.
  induction 1 as [d Hd|n tr s l s' _ IH Hstep]; intros Hn.
  - exists ∅. split; [constructor|]. constructor; simpl.
    + intros c Hc. rewrite lookup_empty. by apply Hd.
    + done.
    + done.
  - destruct IH as (m & Hspec & Hsim); [lia|].
    destruct (step_simulated n s m l s') as (m' & Hsim' & Hl); [lia|done|done|].
    exists m'. split; [|done]. destruct l; [by econstructor|by subst].
Qed.

Lemma simulates_load n s m c :
  simulates n s m -> valid_code c -> load c (sys_db s) = (Ok (m !! c), sys_db s).
Proof.
  intros Hsim Hc. pose proof (sim_stored _ _ _ Hsim c Hc) as Hst.
  destruct (m !! c); [by apply load_holds|by apply load_absent].
Qed.

(** C1: optimistic updates are linearizable: in every interleaving of reads,
    scripts, creations, moves, deletions and expiries by any number of clients,
    each script that succeeds is one atomic application of its closure to the
    room then stored (never to a stale read, so no change is lost), each one that
    fails changes nothing, and [load] returns what the sequence of atomic
    changes leaves.  Codes are taken to be fresh when they are drawn, and the run
    shorter than the version counter. *)
Theorem cas_refines n tr s (Hrun : sys_run n tr s) (Hn : Z.of_nat n < u64_max) :
  exists m, spec_run tr m /\
    forall c, valid_code c -> load c (sys_db s) = (Ok (m !! c), sys_db s).
Proof.
  destruct (run_simulated n tr s Hrun Hn) as (m & Hspec & Hsim). exists m. split; [done|].
  intros c. by apply simulates_load with n.
Qed.

(** *** Invariants of stored rooms *)

(** What a label must do to keep [P] of every room and its code. *)
Definition keeps (P : str -> Room -> Prop) (l : label) : Prop :=
  match l with
  | LCreate r => P (code r) r
  | LApply c f => forall r r', P c r -> f r = Some r' -> P c (bumped r r')
  | LMove c f c' => forall r r', P c r -> f r = Some r' -> P c' (bumped r (set_code c' r'))
  | LDelete _ => True
  end.

Lemma spec_invariant (P : str -> Room -> Prop) tr m :
  spec_run tr m -> Forall (keeps P) tr -> forall c r, m !! c = Some r -> P c r.
Proof.
  intros Hrun. induction Hrun as [|tr m l m' _ IH Hstep]; intros Hall c r; [done|].
  apply Forall_cons in Hall as [Hl Hall]. specialize (IH Hall).
  destruct Hstep as [m r0|m c0 f r0 r1 H0 H1|m c0|m c0 f c' r0 r1 H0 H1]; simpl in Hl.
  - rewrite lookup_insert_Some. naive_solver.
  - rewrite lookup_insert_Some. naive_solver.
  - rewrite lookup_delete_Some. naive_solver.
  - rewrite lookup_insert_Some, lookup_delete_Some. naive_solver.
Qed.

Lemma reachable_rooms (P : str -> Room -> Prop) n tr s c r :
  sys_run n tr s -> Z.of_nat n < u64_max -> Forall (keeps P) tr -> valid_code c ->
  load c (sys_db s) = (Ok (Some r), sys_db s) -> P c r.
Proof.
  intros Hrun Hn Hall Hc Hload.
  destruct (run_simulated n tr s Hrun Hn) as (m & Hspec & Hsim).
  rewrite (simulates_load n s m c) in Hload by done. injection Hload as Hr.
  by eapply spec_invariant.
Qed.
End system.

(** ** A concrete interleaving

    Two clients read the same version; the first kicks ["3"], the second's
    script, computed from the stale read, is refused. *)
Section samples.

Definition sample_kicker : client :=
  {| cl_code := lit "ABCDEF"; cl_read := sample_room;
     cl_change := change_of (kick (lit "1") (lit "3")) |}.

Definition sample_kicked : Room := bumped sample_room (removed (lit "3") sample_room).

Lemma sample_inserted : insert sample_room (∅ : gmap str rvalue) = (Ok true, sample_db).
Proof.
  unfold sample_db. destruct (insert_run (db := gmap str rvalue) sample_room ∅) as (d & -> & _);
    [reflexivity|]. by rewrite bool_decide_eq_true_2 by reflexivity.
Qed.

Lemma sample_change :
  cl_change sample_kicker (cl_read sample_kicker) = Some (removed (lit "3") sample_room).
Proof. cbn [sample_kicker cl_change cl_read]. unfold change_of. by rewrite sample_kick. Qed.

Lemma sample_race : exists s, sys_run (db := gmap str rvalue) 5
  [LApply (lit "ABCDEF") (change_of (kick (lit "1") (lit "3"))); LCreate sample_room] s.
Proof.
  destruct (codec_law sample_kicked) as (b & Hb & Hdec); [reflexivity|].
  pose proof sample_inserted as Hins. pose proof sample_holds as Hheld.
  revert Hins Hheld. generalize sample_db as d0. intros d0 Hins Hheld.
  pose proof Hheld as (h & b0 & Hk & Hv & _).
  destruct (swap_run d0 (lit "ABCDEF") h (seen_key (lit "ABCDEF")) [] (to_string 1)
    (to_string 2) b [] Hk) as (d & Hd & Hswap).
  rewrite bool_decide_eq_true_2 in Hswap by exact Hv. simpl in Hswap.
  destruct (holds_written _ _ _ _ sample_kicked _ Hd Hdec) as (h' & b1 & Hk' & Hv' & _).
  destruct (swap_run d (lit "ABCDEF") h' (seen_key (lit "ABCDEF")) [] (to_string 1)
    (to_string 2) b [] Hk') as (d' & _ & Hlost).
  rewrite bool_decide_eq_false_2 in Hlost by (rewrite Hv'; vm_compute; discriminate).
  eexists. eapply (sys_run_step 4 _ _ None).
  - eapply (sys_run_step 3 _ _ (Some _)).
    + eapply (sys_run_step 2 _ _ None).
      * eapply (sys_run_step 1 _ _ None).
        -- eapply (sys_run_step 0 _ _ (Some _)).
           ++ apply (sys_run_nil ∅). intros c _. reflexivity.
           ++ apply (step_create _ sample_room d0);
                [apply valid_code_sample|reflexivity|reflexivity|apply not_elem_of_empty|].
              exact Hins.
        -- apply (step_read _ 0%nat (lit "ABCDEF") (change_of (kick (lit "1") (lit "3"))) sample_room);
             [apply valid_code_sample|apply load_holds, Hheld].
      * apply (step_read _ 1%nat (lit "ABCDEF") (change_of (kick (lit "1") (lit "3"))) sample_room);
          [apply valid_code_sample|apply load_holds, Hheld].
    + eapply (step_swap _ 0%nat sample_kicker (removed (lit "3") sample_room) b [] []);
        [reflexivity|exact sample_change|reflexivity|exact Hb|exact Hswap].
  - eapply (step_swap_lost _ 1%nat sample_kicker (removed (lit "3") sample_room) b [] [] 0 d);
      [reflexivity|exact sample_change|exact Hlost|discriminate].
Qed.

Lemma cas_refines_witness :
  exists s tr m, sys_run (db := gmap str rvalue) 5 tr s /\ length tr = 2%nat /\ spec_run tr m /\
    load (lit "ABCDEF") (sys_db s) = (Ok (m !! lit "ABCDEF"), sys_db s).
Proof.
  destruct sample_race as (s & Hrun).
  destruct (cas_refines _ _ _ Hrun) as (m & Hspec & Hload); [unfold u64_max; lia|].
  eexists s, _, m. split; [exact Hrun|]. split; [reflexivity|]. split; [exact Hspec|].
  apply Hload, valid_code_sample.
Defined.
End samples.
