(* ===== verification/RoomListing.v ===== *)
(** * RoomListing: what others see of a room ([rooms/listing.rs], [service/view.rs],
    [service/preview.rs], [chat/rooms/diff.rs]).

    The public card and its ranking, the preview of an invitation, the view a
    member gets, and the system rows a change posts to the room's chat. *)

From Stdlib Require Import ZArith Lia String SpecFloat.
From stdpp Require Import base list numbers option tactics sets gmap sorting.
From S2P Require Import Prelude Text AppError EntityRef RoomModel RoomInvariant RoomBehaviour.
Local Open Scope Z_scope.

Definition MAX_TEXT_CHARS : nat := 120.

(** ** The public card *)

Record PublicTrack := { pt_title : str; pt_artist : option str; pt_artwork_url : option str }.

Record PublicRoom := {
  pr_host_id : str;
  pr_title : option str;
  pr_host_name : str;
  pr_host_avatar_url : option str;
  pr_status : PlaybackStatus;
  pr_track : option PublicTrack;
  pr_listeners : nat;
  pr_capacity : nat;
  pr_full : bool;
  pr_star_host : bool;
  pr_cover : option Cover;
  pr_backdrop : option Backdrop;
  pr_created_at : Z;
  pr_banned : list str }.

Definition text (v : value) : option str :=
  s ← as_str v;
  let t := take MAX_TEXT_CHARS (List.filter (fun c => negb (is_control c)) (trim s)) in
  if bool_decide (t = []) then None else Some t.

Section with_externals.
Context {externals : Externals}.

Definition PublicTrack_of (track : value) : option PublicTrack :=
  let artwork := find_map (fun v => s ← as_str v; artwork_url s)
    [field (lit "artwork_url") track; field (lit "avatar_url") (field (lit "user") track)] in
  t ← text (field (lit "title") track);
  Some {| pt_title := t; pt_artist := text (field (lit "username") (field (lit "user") track));
          pt_artwork_url := artwork |}.

(** The host and the members seen recently. *)
Definition listeners_of (room : Room) (online : list str) : nat :=
  length (List.filter (fun m => str_eqb (m_user_id m) (host_id room)
                                || existsb (str_eqb (m_user_id m)) online) (members room)).

Definition PublicRoom_of (room : Room) (online : list str) : option PublicRoom :=
  if unlisted room then None else
  host ← find (is_user (host_id room)) (members room);
  let listeners := listeners_of room online in
  Some {| pr_host_id := m_user_id host;
          pr_title := title room;
          pr_host_name := m_name host;
          pr_host_avatar_url := (a ← m_avatar_url host; artwork_url a);
          pr_status := pb_status (playback room);
          pr_track := (t ← pb_track (playback room); PublicTrack_of t);
          pr_listeners := listeners;
          pr_capacity := capacity room;
          pr_full := (capacity room <=? listeners)%nat;
          pr_star_host := star_host (perks room);
          pr_cover := cover_shown room;
          pr_backdrop := backdrop_in_public room;
          pr_created_at := created_at room;
          pr_banned := banned_ids room |}.
End with_externals.

Definition ranked_listeners (r : PublicRoom) : nat := Nat.min (pr_listeners r) FREE_CAPACITY.

Definition rank_cmp (a b : PublicRoom) : comparison :=
  then_cmp (then_cmp (then_cmp (bool_cmp (pr_full a) (pr_full b))
    (ranked_listeners b ?= ranked_listeners a)%nat)
    (pr_created_at a ?= pr_created_at b))
    (str_cmp (pr_host_id a) (pr_host_id b)).

Definition rank (rooms : list PublicRoom) : list PublicRoom :=
  sort_by (fun a b => match rank_cmp a b with Gt => false | _ => true end) rooms.

(** ** The view of a member *)

Record MemberView := {
  mv_user_id : str; mv_name : str; mv_avatar_url : option str; mv_joined_at : Z;
  mv_ready_urn : option str }.

Record RoomView := {
  rv_code : str;
  rv_host_id : str;
  rv_version : Z;
  rv_created_at : Z;
  rv_members : list MemberView;
  rv_playback : Playback;
  rv_public : bool;
  rv_title : option str;
  rv_chat_id : option Uuid;
  rv_chat_enabled : bool;
  rv_moderators : list str;
  rv_muted : list Mute;
  rv_slow_mode_s : Z;
  rv_links : bool;
  rv_perks : Perks;
  rv_cover : option Cover;
  rv_room_images : RoomImages;
  rv_backdrop : option Backdrop;
  rv_backdrop_cooldown_until : option Z;
  rv_banned : option (list str);
  rv_online : list str;
  rv_server_now : Z }.

Definition MemberView_of (m : Member) : MemberView :=
  {| mv_user_id := m_user_id m; mv_name := m_name m; mv_avatar_url := m_avatar_url m;
     mv_joined_at := m_joined_at m; mv_ready_urn := m_ready_urn m |}.

Definition for_viewer (room : Room) (viewer : str) (online : list str) (now : Z) : RoomView :=
  {| rv_code := code room;
     rv_host_id := host_id room;
     rv_version := version room;
     rv_created_at := created_at room;
     rv_members := List.map MemberView_of (members room);
     rv_playback := playback room;
     rv_public := public room;
     rv_title := title room;
     rv_chat_id := chat_id room;
     rv_chat_enabled := chat_enabled room;
     rv_moderators := moderators room;
     rv_muted := List.filter (fun m => now <? mu_until_ms m) (muted room);
     rv_slow_mode_s := slow_mode room;
     rv_links := links room;
     rv_perks := perks room;
     rv_cover := cover_shown room;
     rv_room_images := images_policy room;
     rv_backdrop := backdrop_shown room;
     rv_backdrop_cooldown_until := None;
     rv_banned := if can_moderate room viewer then Some (banned_ids room) else None;
     rv_online := online;
     rv_server_now := now |}.

Definition with_cooldown (until : option Z) (v : RoomView) : RoomView :=
  {| rv_code := rv_code v; rv_host_id := rv_host_id v; rv_version := rv_version v;
     rv_created_at := rv_created_at v; rv_members := rv_members v; rv_playback := rv_playback v;
     rv_public := rv_public v; rv_title := rv_title v; rv_chat_id := rv_chat_id v;
     rv_chat_enabled := rv_chat_enabled v; rv_moderators := rv_moderators v; rv_muted := rv_muted v;
     rv_slow_mode_s := rv_slow_mode_s v; rv_links := rv_links v; rv_perks := rv_perks v;
     rv_cover := rv_cover v; rv_room_images := rv_room_images v; rv_backdrop := rv_backdrop v;
     rv_backdrop_cooldown_until := until; rv_banned := rv_banned v; rv_online := rv_online v;
     rv_server_now := rv_server_now v |}.

(** ** The preview of an invitation *)

Record PreviewHost := { ph_id : str; ph_name : str; ph_avatar_url : option str }.

Record PreviewTrack := {
  pvt_urn : str; pvt_title : str; pvt_artist : option str; pvt_artwork_url : option str;
  pvt_duration_ms : option Z }.

Record RoomPreview := {
  pv_code : str;
  pv_title : option str;
  pv_host : PreviewHost;
  pv_track : option PreviewTrack;
  pv_listeners : nat;
  pv_capacity : nat;
  pv_star_host : bool;
  pv_cover : option Cover;
  pv_backdrop : option Backdrop;
  pv_public : bool;
  pv_alive : bool }.

Definition duration (track : value) : option Z :=
  ms ← find_map (fun key => as_i64 (field key track))
    [lit "duration"; lit "full_duration"; lit "durationMs"];
  if 0 <? ms then Some ms else None.

Section preview.
Context {externals : Externals}.

Definition PreviewTrack_of (room : Room) : option PreviewTrack :=
  urn ← pb_track_urn (playback room);
  track ← pb_track (playback room);
  card ← PublicTrack_of track;
  Some {| pvt_urn := urn; pvt_title := pt_title card; pvt_artist := pt_artist card;
          pvt_artwork_url := pt_artwork_url card; pvt_duration_ms := duration track |}.

Definition RoomPreview_of (room : Room) (online : list str) : option RoomPreview :=
  host ← member room (host_id room);
  Some {| pv_code := code room;
          pv_title := title room;
          pv_host := {| ph_id := m_user_id host; ph_name := m_name host;
                        ph_avatar_url := (a ← m_avatar_url host; artwork_url a) |};
          pv_track := PreviewTrack_of room;
          pv_listeners := listeners_of room online;
          pv_capacity := capacity room;
          pv_star_host := star_host (perks room);
          pv_cover := cover_shown room;
          pv_backdrop := backdrop_in_public room;
          pv_public := public room;
          pv_alive := true |}.
End preview.

(** ** System rows of the room's chat *)

Inductive Cause :=
| CMember
| CModeration (by_user : str) (ban : bool)
| CQuiet.

Inductive SystemRow :=
| Join (user_id name : str)
| Leave (user_id name : str)
| Kick (user_id name by_user : str) (ban : bool)
| Host (user_id name : str)
| Moderator (user_id name by_user : str) (on : bool)
| MuteRow (user_id name by_user : str) (until_ms : option Z)
| Title (by_user : str) (title : option str)
| TrackRow (urn : str) (title artist artwork_url : option str).

Record Authored := { sender : str; row : SystemRow }.

Definition departed (before after : Room) : list str :=
  List.map m_user_id (List.filter (fun m => negb (is_member after (m_user_id m))) (members before)).

Definition actor (cause : Cause) (room : Room) : str :=
  match cause with CModeration by_user _ => by_user | CMember | CQuiet => host_id room end.

Definition name_of (before after : Room) (user_id : str) : str :=
  match member after user_id with
  | Some m => m_name m
  | None => match member before user_id with Some m => m_name m | None => user_id end
  end.

Definition departures (before after : Room) (cause : Cause) : list Authored :=
  List.map (fun m => match cause with
    | CModeration by_user ban =>
        {| sender := by_user; row := Kick (m_user_id m) (m_name m) by_user ban |}
    | CMember | CQuiet => {| sender := m_user_id m; row := Leave (m_user_id m) (m_name m) |}
    end)
    (List.filter (fun m => negb (is_member after (m_user_id m))) (members before)).

Definition arrivals (before after : Room) : list Authored :=
  List.map (fun m => {| sender := m_user_id m; row := Join (m_user_id m) (m_name m) |})
    (List.filter (fun m => negb (is_member before (m_user_id m))) (members after)).

Definition host_change (before after : Room) : list Authored :=
  if str_eqb (host_id before) (host_id after) then []
  else match member after (host_id after) with
       | Some host => [{| sender := m_user_id host; row := Host (m_user_id host) (m_name host) |}]
       | None => []
       end.

Definition moderator_changes (before after : Room) (cause : Cause) : list Authored :=
  let by_user := actor cause after in
  let named := List.map (fun id => (id, true))
    (List.filter (fun id => negb (is_moderator before id)) (moderators after)) in
  let dropped := List.map (fun id => (id, false))
    (List.filter (fun id => negb (is_moderator after id) && is_member after id
                            && negb (is_host after id)) (moderators before)) in
  List.map (fun '(id, on) =>
    {| sender := by_user; row := Moderator id (name_of before after id) by_user on |})
    (named ++ dropped).

Definition mute_changes (before after : Room) (cause : Cause) (now : Z) : list Authored :=
  let by_user := actor cause after in
  omap (fun m =>
    let was := muted_until before (m_user_id m) now in
    let muted_now := muted_until after (m_user_id m) now in
    if bool_decide (was = muted_now) || (bool_decide (muted_now = None) && negb (is_member before (m_user_id m)))
    then None
    else Some {| sender := by_user; row := MuteRow (m_user_id m) (m_name m) by_user muted_now |})
    (members after).

Definition title_change (before after : Room) (cause : Cause) : list Authored :=
  if bool_decide (title before = title after) then []
  else let by_user := actor cause after in
       [{| sender := by_user; row := Title by_user (title after) |}].

Section rows.
Context {externals : Externals}.

Definition track_change (before after : Room) : list Authored :=
  match pb_track_urn (playback after) with
  | Some urn =>
      if bool_decide (Some urn = pb_track_urn (playback before)) then []
      else
        let card := t ← pb_track (playback after); PublicTrack_of t in
        [{| sender := host_id after;
            row := TrackRow urn (pt_title <$> card) (c ← card; pt_artist c)
                     (c ← card; pt_artwork_url c) |}]
  | None => []
  end.

Definition rows (before after : Room) (cause : Cause) (now : Z) : list Authored :=
  departures before after cause ++ arrivals before after ++ host_change before after
  ++ moderator_changes before after cause ++ mute_changes before after cause now
  ++ title_change before after cause ++ track_change before after.
End rows.

(** ** The card *)

Lemma find_host r : wf_room r -> exists m, find (is_user (host_id r)) (members r) = Some m /\
  m ∈ members r /\ m_user_id m = host_id r.
Proof.
  intros Hwf. pose proof (wf_host r Hwf) as Hh. rewrite <- is_member_true in Hh.
  unfold is_member in Hh. destruct (find _ (members r)) as [m|] eqn:E.
  - exists m. apply find_Some in E as [Hm Hu]. apply is_user_true in Hu. done.
  - pose proof (proj1 (find_None _ _) E) as Hn. apply any_spec in Hh as (m & Hm & Hu).
    by rewrite Hn in Hu.
Qed.

Lemma listeners_of_pos r online :
  wf_room r -> (1 <= listeners_of r online <= length (members r))%nat.
Proof.
  intros Hwf. destruct (find_host r Hwf) as (m & _ & Hm & Hid). unfold listeners_of.
  change (List.filter ?f ?l) with (retain f l). set (f := fun _ => _).
  assert (m ∈ retain f (members r)) as Hin.
  { apply retain_In. split; [done|]. unfold f. by rewrite Hid, str_eqb_refl. }
  split; [|apply retain_length]. destruct (retain f (members r)); [by apply elem_of_nil in Hin|].
  simpl. lia.
Qed.

Section card.
Context {externals : Externals}.

(** Every well-formed room that is not unlisted has a public card, an
    unlisted one none; the card names the host, counts at least the host and at
    most the members, says full exactly when the listeners reach the capacity,
    shows a cover only under a STAR host and never an image backdrop. *)
Theorem public_card_sound r online (Hwf : wf_room r) :
  match PublicRoom_of r online with
  | None => unlisted r = true
  | Some card =>
      unlisted r = false /\ pr_host_id card = host_id r /\
      (1 <= pr_listeners card <= length (members r))%nat /\
      (pr_full card = true <-> (pr_capacity card <= pr_listeners card)%nat) /\
      (star_host (perks r) = false -> pr_cover card = None /\ pr_backdrop card = None) /\
      (forall media, pr_backdrop card <> Some (Image media))
  end.
Proof.
  unfold PublicRoom_of. destruct (unlisted r); [done|].
  destruct (find_host r Hwf) as (m & Hf & _ & Hid). rewrite Hf. cbn [mbind option_bind].
  cbn [pr_host_id pr_listeners pr_full pr_cover pr_backdrop pr_capacity].
  split_and!; [done|done|by apply listeners_of_pos|by apply listeners_of_pos
    |by rewrite Nat.leb_le| |].
  - unfold cover_shown, backdrop_in_public, backdrop_shown. by intros ->.
  - intros media. unfold backdrop_in_public. destruct (backdrop_shown r) as [[]|]; simpl; congruence.
Qed.

End card.

Lemma public_card_sound_witness :
  exists card, @PublicRoom_of sample_externals sample_room [lit "3"] = Some card /\
    pr_full card = false /\ (1 <= pr_listeners card <= length (members sample_room))%nat.
Proof.
  pose proof (@public_card_sound sample_externals sample_room [lit "3"] sample_wf) as H.
  destruct (@PublicRoom_of sample_externals sample_room [lit "3"]) as [card|] eqn:E;
    [|discriminate].
  exists card. split; [reflexivity|]. split; [|apply H]. injection E as <-. reflexivity.
Defined.

(** ** Ranking *)

Lemma then_cmp_Eq a b : then_cmp a b = Eq <-> a = Eq /\ b = Eq.
Proof. destruct a; naive_solver. Qed.

(** The key [rank] sorts by, smallest first. *)
Definition rank_le (a b : PublicRoom) : bool := match rank_cmp a b with Gt => false | _ => true end.

Lemma rank_le_spec a b :
  rank_le a b = true <->
  (pr_full a = false /\ pr_full b = true) \/
  pr_full a = pr_full b /\
  ((ranked_listeners b < ranked_listeners a)%nat \/ ranked_listeners b = ranked_listeners a /\
   (pr_created_at a < pr_created_at b \/ pr_created_at a = pr_created_at b /\
    str_cmp (pr_host_id a) (pr_host_id b) <> Gt)).
Proof.
  unfold rank_le, rank_cmp. destruct (pr_full a), (pr_full b); simpl;
    destruct (Nat.compare_spec (ranked_listeners b) (ranked_listeners a)); simpl;
    destruct (Z.compare_spec (pr_created_at a) (pr_created_at b)); simpl;
    destruct (str_cmp (pr_host_id a) (pr_host_id b)) eqn:E; simpl; naive_solver lia.
Qed.

(** [rank] reorders the cards and loses none; a room that still has a seat
    comes before every full one, busier rooms before quieter ones up to the
    capacity of a free room (a STAR room's extra seats do not lift it), older
    before newer, and equal cards keep their order. *)
Theorem rank_sorted rooms :
  rank rooms ≡ₚ rooms /\ StronglySorted (fun a b => rank_le a b = true) (rank rooms) /\
  (forall a b, rank_le a b = true ->
     (pr_full a = true -> pr_full b = true) /\
     (pr_full a = pr_full b -> (ranked_listeners b <= ranked_listeners a)%nat)).
Proof.
  split_and!.
  - apply sort_by_perm.
  - apply sort_by_sorted.
    + intros a b E. fold (rank_le a b) in E. fold (rank_le b a). apply rank_le_spec.
      assert (~ (rank_le a b = true)) as Hn by congruence. rewrite rank_le_spec in Hn.
      rewrite str_cmp_opp.
      destruct (Nat.lt_total (ranked_listeners a) (ranked_listeners b)) as [|[]],
        (Z.lt_total (pr_created_at a) (pr_created_at b)) as [|[]],
        (pr_full a), (pr_full b), (str_cmp (pr_host_id a) (pr_host_id b)); simpl; naive_solver lia.
    + intros a b c. fold (rank_le a b) (rank_le b c) (rank_le a c). rewrite !rank_le_spec.
      pose proof (str_cmp_trans (pr_host_id a) (pr_host_id b) (pr_host_id c)).
      destruct (pr_full a), (pr_full b), (pr_full c); naive_solver lia.
  - intros a b. rewrite rank_le_spec. destruct (pr_full a), (pr_full b); intuition (congruence || lia).
Qed.

(** ** The view *)

Lemma find_unique {A} (p : A -> bool) (l : list A) x :
  (forall y z, y ∈ l -> z ∈ l -> p y = true -> p z = true -> y = z) ->
  find p l = Some x <-> x ∈ l /\ p x = true.
Proof.
  intros Hu. split; [apply find_Some|]. intros [Hx Hp]. destruct (find p l) as [y|] eqn:E.
  - apply find_Some in E as [Hy Hpy]. f_equal. by apply Hu.
  - pose proof (proj1 (find_None _ _) E x Hx). congruence.
Qed.

Lemma NoDup_map_inj {A B} (f : A -> B) (l : list A) x y :
  NoDup (List.map f l) -> x ∈ l -> y ∈ l -> f x = f y -> x = y.
Proof.
  induction l as [|z l IH]; intros Hnd Hx Hy E; [by apply elem_of_nil in Hx|].
  simpl in Hnd. apply NoDup_cons in Hnd as [Hz Hnd].
  assert (forall w, w ∈ l -> f w <> f z) as Hw.
  { intros w Hw Hf. apply Hz. rewrite <- Hf, list_elem_of_In. apply in_map. by apply list_elem_of_In. }
  apply elem_of_cons in Hx as [->|Hx], Hy as [->|Hy]; [done| | |auto].
  - symmetry in E. by apply Hw in E.
  - by apply Hw in E.
Qed.

(** What a member is shown: the ban list only when they are the host or a
    moderator, exactly the mutes still running, the STAR decorations only under
    a STAR host, and never the members-only image policy in a public room. *)
Theorem view_discloses r viewer online now (Hwf : wf_room r) :
  let v := for_viewer r viewer online now in
  (rv_banned v = if decide (viewer = host_id r \/ viewer ∈ moderators r)
                 then Some (banned_ids r) else None) /\
  (forall u t, muted_until r u now = Some t <->
     exists m, m ∈ rv_muted v /\ mu_user_id m = u /\ mu_until_ms m = t) /\
  (star_host (rv_perks v) = false -> rv_cover v = None /\ rv_backdrop v = None) /\
  (rv_public v = true -> rv_room_images v <> Members).
Proof.
  cbn [for_viewer rv_banned rv_muted rv_perks rv_cover rv_backdrop rv_public rv_room_images].
  split_and!.
  - unfold can_moderate. destruct (is_host r viewer) eqn:E1, (is_moderator r viewer) eqn:E2;
      room_prop; case_decide as D; try done; naive_solver.
  - intros u t. unfold muted_until. rewrite fmap_Some. change (List.filter ?f ?l) with (retain f l).
    assert (forall x, find (fun m => str_eqb (mu_user_id m) u && (now <? mu_until_ms m)) (muted r) = Some x
      <-> x ∈ muted r /\ str_eqb (mu_user_id x) u && (now <? mu_until_ms x) = true) as Hf.
    { intros x.
      apply (find_unique (fun m => str_eqb (mu_user_id m) u && (now <? mu_until_ms m))). intros y z Hy Hz Hpy Hpz. bprop. room_prop.
      eapply NoDup_map_inj; [apply (wf_muted_nodup r Hwf)|done|done|congruence]. }
    setoid_rewrite Hf. setoid_rewrite retain_In. setoid_rewrite andb_true_iff.
    setoid_rewrite str_eqb_eq. naive_solver.
  - unfold cover_shown, backdrop_shown. by intros ->.
  - unfold images_policy, RoomImages_resolve. intros ->. destruct (room_images r) as [[]|]; done.
Qed.

Lemma view_discloses_witness :
  rv_banned (for_viewer sample_room (lit "3") [] 0) = None /\
  rv_room_images (for_viewer sample_room (lit "3") [] 0) <> Members.
Proof.
  destruct (view_discloses sample_room (lit "3") [] 0 sample_wf) as (H1 & _ & _ & H4).
  split; [rewrite H1; reflexivity|apply H4; reflexivity].
Defined.

(** ** The rows *)

(** The arrival and departure rows of a list. *)
Definition arrives (u : str) (a : Authored) : Prop := exists name, row a = Join u name.
Definition departs (u : str) (a : Authored) : Prop :=
  (exists name, row a = Leave u name) \/ (exists name by_user ban, row a = Kick u name by_user ban).

Lemma retain_nil {A} (p : A -> bool) l : (forall x, x ∈ l -> p x = false) -> retain p l = [].
Proof.
  induction l as [|x l IH]; intros H; simpl; [done|]. rewrite (H x) by set_solver.
  apply IH. set_solver.
Qed.

Lemma departed_spec before after u :
  u ∈ departed before after <-> u ∈ member_ids before /\ u ∉ member_ids after.
Proof.
  unfold departed. change (List.filter ?f ?l) with (retain f l).
  rewrite list_elem_of_In, in_map_iff, member_ids_In. split.
  - intros (m & <- & Hm). apply list_elem_of_In, retain_In in Hm as [Hm Hn]. room_prop. eauto.
  - intros [(m & Hm & <-) Hn]. exists m. split; [done|]. apply list_elem_of_In, retain_In.
    split; [done|]. by apply negb_true_iff, is_member_false.
Qed.

Section rows_facts.
Context {externals : Externals}.

Lemma rows_elem before after cause now a :
  a ∈ rows before after cause now <->
  a ∈ departures before after cause \/ a ∈ arrivals before after \/ a ∈ host_change before after \/
  a ∈ moderator_changes before after cause \/ a ∈ mute_changes before after cause now \/
  a ∈ title_change before after cause \/ a ∈ track_change before after.
Proof. unfold rows. rewrite !elem_of_app. tauto. Qed.

(** No other group of rows announces an arrival or a departure. *)
Lemma other_rows before after cause now a u :
  a ∈ host_change before after \/ a ∈ moderator_changes before after cause \/
  a ∈ mute_changes before after cause now \/ a ∈ title_change before after cause \/
  a ∈ track_change before after -> ~ arrives u a /\ ~ departs u a.
Proof.
  unfold arrives, departs.
  intros [H|[H|[H|[H|H]]]].
  - unfold host_change in H. repeat case_match; set_solver.
  - unfold moderator_changes in H. rewrite list_elem_of_In, in_map_iff in H.
    destruct H as ([id on] & <- & _). simpl. naive_solver.
  - unfold mute_changes in H. apply list_elem_of_omap in H as (m & _ & H).
    case_match; [done|]. injection H as <-. simpl. naive_solver.
  - unfold title_change in H. case_match; set_solver.
  - unfold track_change in H. repeat case_match; set_solver.
Qed.

Lemma arrivals_spec before after u :
  (exists a, a ∈ arrivals before after /\ arrives u a) <-> u ∈ member_ids after /\ u ∉ member_ids before.
Proof.
  unfold arrivals. change (List.filter ?f ?l) with (retain f l). split.
  - intros (a & Ha & name & Hname). rewrite list_elem_of_In, in_map_iff in Ha.
    destruct Ha as (m & <- & Hm). apply list_elem_of_In, retain_In in Hm as [Hm Hn].
    injection Hname as <- _. room_prop. split; [by apply member_in_room|done].
  - intros [Hin Hout]. apply member_ids_In in Hin as (m & Hm & <-).
    exists {| sender := m_user_id m; row := Join (m_user_id m) (m_name m) |}.
    split; [|by eexists]. rewrite list_elem_of_In, in_map_iff. exists m. split; [done|].
    apply list_elem_of_In, retain_In. split; [done|]. by apply negb_true_iff, is_member_false.
Qed.

Lemma departures_spec before after cause u :
  (exists a, a ∈ departures before after cause /\ departs u a) <-> u ∈ departed before after.
Proof.
  unfold departures, departed, departs. rewrite list_elem_of_In, in_map_iff. split.
  - intros (a & Ha & Hd). rewrite list_elem_of_In, in_map_iff in Ha. destruct Ha as (m & <- & Hm).
    exists m. split; [|done]. destruct cause; simpl in Hd; naive_solver.
  - intros (m & <- & Hm). eexists. rewrite list_elem_of_In, in_map_iff. split; [by exists m|].
    destruct cause; simpl; eauto 10.
Qed.

Lemma departures_never_arrive before after cause a u :
  a ∈ departures before after cause -> ~ arrives u a.
Proof.
  unfold departures. rewrite list_elem_of_In, in_map_iff. intros (m & <- & _) [name H].
  by destruct cause.
Qed.

Lemma arrivals_never_depart before after a u : a ∈ arrivals before after -> ~ departs u a.
Proof.
  unfold arrivals. rewrite list_elem_of_In, in_map_iff. intros (m & <- & _) H.
  destruct H as [[? [=]]|(? & ? & ? & [=])].
Qed.

Lemma omap_nil {A B} (f : A -> option B) l : (forall x, f x = None) -> omap f l = [].
Proof. intros H. induction l as [|x l IH]; simpl; [done|]. by rewrite H. Qed.

Lemma rows_unchanged r cause now : rows r r cause now = [].
Proof.
  unfold rows, departures, arrivals, host_change, moderator_changes, mute_changes, title_change,
    track_change. change (List.filter ?f ?l) with (retain f l).
  rewrite !(retain_nil _ (members r)).
  2: intros m Hm; by apply negb_false_iff, is_member_true, member_in_room.
  do 2 (rewrite (retain_nil _ (moderators r));
    [|intros id Hid; apply is_moderator_true in Hid; by rewrite Hid]).
  rewrite str_eqb_refl, bool_decide_eq_true_2 by done. rewrite omap_nil.
  2: intros m; by rewrite bool_decide_eq_true_2.
  destruct (pb_track_urn (playback r)); [|done]. by rewrite bool_decide_eq_true_2.
Qed.

(** The rows of a change account for the members: somebody has an arrival row
    exactly when they are in the room after and not before, a departure row (a
    kick under moderation, a leave otherwise) exactly when it is the other way
    round, and [departed], which decides whether the chat is re-keyed, names the
    same people; a room that did not change posts nothing. *)
Theorem rows_account before after cause now :
  (forall u, (exists a, a ∈ rows before after cause now /\ arrives u a) <->
     u ∈ member_ids after /\ u ∉ member_ids before) /\
  (forall u, (exists a, a ∈ rows before after cause now /\ departs u a) <->
     u ∈ departed before after) /\
  (forall u, u ∈ departed before after <-> u ∈ member_ids before /\ u ∉ member_ids after) /\
  rows before before cause now = [].
Proof.
  split_and!.
  - intros u. rewrite <- arrivals_spec. split; intros (a & Ha & Har); exists a.
    + apply rows_elem in Ha as [Ha|[Ha|Ha]]; [|done|].
      * by apply (departures_never_arrive _ _ _ _ u) in Ha.
      * by apply (other_rows _ _ _ _ _ u) in Ha as [Ha _].
    + split; [|done]. apply rows_elem. auto.
  - intros u. rewrite <- (departures_spec before after cause). split; intros (a & Ha & Hd); exists a.
    + apply rows_elem in Ha as [Ha|[Ha|Ha]]; [done| |].
      * by apply (arrivals_never_depart _ _ _ u) in Ha.
      * by apply (other_rows _ _ _ _ _ u) in Ha as [_ Ha].
    + split; [|done]. apply rows_elem. auto.
  - apply departed_spec.
  - apply rows_unchanged.
Qed.
End rows_facts.
