(* ===== verification/RoomService.v ===== *)
(** * RoomService: the operations of [RoomsService] ([api/src/modules/rooms/service.rs],
    [service/*.rs] and [public.rs]).

    [World] is what an operation can change: the database, the process-local
    caches and the log of what it announced.  Each closure an operation hands to
    the store is a definition of its own, so that it can be run alone or inside
    any interleaving of [RoomConcurrency].  The STAR directory, the chat's
    message numbering and the block list (other services, PostgreSQL) answer
    through [Surroundings]; the clock is read from the world. *)

From Stdlib Require Import ZArith Lia String SpecFloat.
From stdpp Require Import base list numbers option tactics sets gmap fin_maps.
From S2P Require Import Prelude Text AppError EntityRef RoomModel RoomInvariant RoomBehaviour RoomStore RoomListing.
Local Open Scope Z_scope.

Definition ONLINE_WINDOW_MS : Z := 45000.
Definition CODE_ATTEMPTS : nat := 6.
Definition LEAVE_ATTEMPTS : nat := 4.
Definition LIST_LIMIT : nat := 50.
Definition SCAN_LIMIT : nat := 300.
Definition LIST_FRESH_FOR_MS : Z := 5000.
Definition MAX_HOST_ID_LEN : Z := 20.

(** ** Errors *)

Definition RACED : str := lit "room_raced".
Definition raced : AppError := coded 409 RACED (lit "The room changed too quickly, try again").
Definition hidden : AppError := NotFound (lit "Room not found").
Definition chat_off : AppError :=
  coded 403 (lit "room_chat_disabled") (lit "The host turned the room chat off").

(** ** The closures *)

Definition refusal (room : Room) (user_id : str) (public_only : bool) : option AppError :=
  if public_only && (negb (public room) || unlisted room) then Some hidden
  else if is_banned room user_id then Some (if public_only then hidden else banned)
  else None.

Definition admit_change (user_id : str) (public_only : bool) (checked_host : str)
  (online : list str) (recent : Z) (m : Member) : RoomM unit :=
  room ← gets (fun r => r);
  (if is_member room user_id then mret tt
   else
     match refusal room user_id public_only with
     | Some error => throw error
     | None =>
         ensure (str_eqb (host_id room) checked_host) too_quick;;
         if (length (members room) =? capacity room)%nat
         then modify (drop_absent online recent) else mret tt
     end);;
  join_room m.

Definition leave_change (user_id : str) : RoomM bool :=
  room ← gets (fun r => r);
  ensure (negb (is_host room user_id)) raced;;
  remove user_id.

Definition hand_off_change (host : str) (candidates : list str) (expected : str) (p : Perks)
  : RoomM (option str) :=
  room ← gets (fun r => r);
  if negb (is_host room host)
  then remove host;; mret None
  else
    o ← hand_off host candidates;
    next ← of_option raced o;
    if str_eqb next expected
    then modify (set_perks p);; mret None
    else modify (set_perks Perks_free);; mret (Some next).

Definition settle_perks_change (host : str) (p : Perks) : RoomM unit :=
  modify (fun r => if str_eqb (host_id r) host then set_perks p r else r).

Definition kick_change (actor target : str) (with_ban : bool) : RoomM unit :=
  if with_ban then ban actor target else kick actor target.

Definition unlist_change : RoomM unit := modify (set_unlisted true).

Definition upgrade_change (host : str) : RoomM bool :=
  room ← gets (fun r => r);
  if negb (is_host room host) || star_host (perks room) then mret false
  else modify (set_perks Perks_star);; mret true.

Definition recheck_change (host : str) (p : Perks) : RoomM bool :=
  room ← gets (fun r => r);
  if negb (str_eqb (host_id room) host) || bool_decide (perks room = p) then mret false
  else modify (set_perks p);; mret true.

Definition claim_chat_change (user_id : str) (now_v7 : Uuid) : RoomM Uuid :=
  room ← gets (fun r => r);
  ensure (is_member room user_id) not_member;;
  match chat_id room with
  | Some id => mret id
  | None => modify (set_chat_id (Some now_v7));; mret now_v7
  end.

Section closures.
Context {externals : Externals}.

Definition reconfigure_change (actor : str) (patch : SettingsPatch) (cooldown : option Z)
  : RoomM (option Uuid) :=
  before ← gets image_backdrop;
  apply_settings actor patch cooldown;;
  now ← gets image_backdrop;
  mret (if bool_decide (now = before) then None else before).
End closures.

(** The room [create] inserts. *)
Definition created_room (code user_id : str) (profile : Profile) (public : bool)
  (title : option str) (p : Perks) (now : Z) (now_v7 : Uuid) : Room :=
  let host := Member_new user_id profile now in
  set_perks p (set_title (t ← title; clean_title t) (Room_new code host public now now_v7)).

(** ** The world *)

(** What bridge::after_change posts to the room's chat. *)
Record ChatUpdate := {
  cu_conversation : Uuid; cu_rows : list Authored; cu_rekey : bool; cu_users : list str }.

Inductive event :=
| Announced (code : str)
| Posted (u : ChatUpdate)
| ChatKeptAlive (conversation : Uuid)
| ChatEnded (room : Room).

Class Surroundings := {
  chat_installed : bool;
  is_star : str -> option bool;
  last_seq : Uuid -> option Z;
  host_blocks : str -> str -> AppResult bool
}.

Section service.
Context {db : Type} {redis : Redis db} {codec : RoomCodec} {externals : Externals}
  {around : Surroundings}.
(** What other clients do between the read and the script of an attempt. *)
Variable env : nat -> db -> db.

Record World := {
  w_db : db;
  w_now : Z;
  w_alive : gset str;
  w_previews : gmap str (option RoomPreview);
  w_listing : option (Z * list PublicRoom);
  w_events : list event }.

Abbreviation SvcM := (ST World AppError).

Definition on_db (d : db) (w : World) : World :=
  {| w_db := d; w_now := w_now w; w_alive := w_alive w; w_previews := w_previews w;
     w_listing := w_listing w; w_events := w_events w |}.
Definition set_alive (a : gset str) (w : World) : World :=
  {| w_db := w_db w; w_now := w_now w; w_alive := a; w_previews := w_previews w;
     w_listing := w_listing w; w_events := w_events w |}.
Definition set_previews (p : gmap str (option RoomPreview)) (w : World) : World :=
  {| w_db := w_db w; w_now := w_now w; w_alive := w_alive w; w_previews := p;
     w_listing := w_listing w; w_events := w_events w |}.
Definition set_listing (l : option (Z * list PublicRoom)) (w : World) : World :=
  {| w_db := w_db w; w_now := w_now w; w_alive := w_alive w; w_previews := w_previews w;
     w_listing := l; w_events := w_events w |}.
Definition emit (e : event) (w : World) : World :=
  {| w_db := w_db w; w_now := w_now w; w_alive := w_alive w; w_previews := w_previews w;
     w_listing := w_listing w; w_events := e :: w_events w |}.

Definition store {A} (m : ST db AppError A) : SvcM A :=
  fun w => let (res, d) := m (w_db w) in (res, on_db d w).

Definition now_ms : SvcM Z := gets w_now.

(** ** Applying a change *)

Definition after_change (before after : Room) (cause : Cause) (now : Z) : option ChatUpdate :=
  conversation ← (match chat_id after with Some id => Some id | None => chat_id before end);
  let posted := rows before after cause now in
  let gone := departed before after in
  if bool_decide (length posted = 0%nat) && bool_decide (gone = []) then None
  else Some {| cu_conversation := conversation; cu_rows := posted;
               cu_rekey := negb (bool_decide (gone = []));
               cu_users := member_ids after ++ gone |}.

Definition settle (before after : Room) (cause : Cause) : SvcM unit :=
  modify (emit (Announced (code before)));;
  now ← now_ms;
  if chat_installed
  then match after_change before after cause now with
       | Some u => modify (emit (Posted u))
       | None => mret tt
       end
  else mret tt.

(** The closure [apply] passes down: it keeps the room it started from. *)
Definition remember {T} (change : RoomM T) : RoomM (Room * T) :=
  before ← gets (fun r => r); t ← change; mret (before, t).

Definition apply_guarded {T} (code : str) (cause : Cause) (guard : option Guard) (change : RoomM T)
  : SvcM (Room * T) :=
  done ← store (update code guard (remember change) env);
  settle done.2.1 done.1 cause;;
  mret (done.1, done.2.2).

Definition apply {T} (code : str) (cause : Cause) (change : RoomM T) : SvcM (Room * T) :=
  apply_guarded code cause None change.

Definition relocate (old : str) (cause : Cause) (change : RoomM unit) (picks : nat -> list nat)
  : SvcM Room :=
  moved ← store (store_relocate old (remember change) picks env);
  let after := moved.1 in
  store (forget_alive old);;
  modify (fun w => set_alive (w_alive w ∖ {[old]}) w);;
  modify (fun w => set_previews (delete old (w_previews w)) w);;
  match chat_id after with Some id => store (index_chat id (code after)) | None => mret tt end;;
  settle moved.2.1 after cause;;
  mret after.

(** ** Reads *)

Definition star_perks (user_id : str) : Perks :=
  if chat_installed
  then match is_star user_id with Some star => Perks_of star | None => Perks_free end
  else Perks_free.

Definition room (code : str) : SvcM Room :=
  found ← store (load code); of_option not_found found.

Definition show (r : Room) (user_id : str) : SvcM RoomView :=
  ensure (is_member r user_id) not_member;;
  now ← now_ms;
  cooldown ← (if is_host r user_id
              then store (host_seen r now);; store (cooling_until user_id now)
              else mret None);
  online ← store (seen_since (code r) (wrap_i64 (now - ONLINE_WINDOW_MS)));
  mret (with_cooldown cooldown (for_viewer r user_id online now)).

Definition view (code user_id : str) : SvcM RoomView := r ← room code; show r user_id.

Definition room_by_chat (conversation : Uuid) : SvcM (option Room) :=
  code ← store (chat_code conversation);
  match code with
  | None => mret None
  | Some code =>
      found ← store (load code);
      mret (r ← found; if bool_decide (chat_id r = Some conversation) then Some r else None)
  end.

Definition chat_last_seq (r : Room) : SvcM Z :=
  match chat_installed, chat_id r with
  | true, Some conversation =>
      of_option (ServiceUnavailable (lit "The room chat is busy, try again")) (last_seq conversation)
  | _, _ => mret 0
  end.

Definition preview (code : str) : SvcM (option RoomPreview) :=
  w ← gets (fun w => w);
  match w_previews w !! code with
  | Some cached => mret cached
  | None =>
      now ← now_ms;
      found ← store (load_with_presence [code] (wrap_i64 (now - ONLINE_WINDOW_MS)));
      let p := '(r, online) ← head found; RoomPreview_of r online in
      modify (fun w => set_previews (<[code := p]> (w_previews w)) w);;
      mret p
  end.

(** ** Caches and liveness *)

Definition keep_alive (r : Room) (now : Z) : SvcM unit :=
  w ← gets (fun w => w);
  if bool_decide (code r ∈ w_alive w) then mret tt
  else
    modify (fun w => set_alive ({[code r]} ∪ w_alive w) w);;
    store (store_keep_alive r now);;
    match chat_installed, chat_id r with
    | true, Some conversation => modify (emit (ChatKeptAlive conversation))
    | _, _ => mret tt
    end.

Definition refresh_cards (r : Room) : SvcM unit :=
  modify (fun w => set_previews (delete (code r) (w_previews w)) w);;
  if public r then modify (set_listing None) else mret tt.

Definition end_room (c : str) : SvcM bool :=
  found ← store (load c);
  match found with
  | None => mret false
  | Some r =>
      store (forget_room r);;
      store (directory_close r);;
      modify (fun w => set_alive (w_alive w ∖ {[code r]}) w);;
      modify (fun w => set_previews (delete (code r) (w_previews w)) w);;
      (if public r then modify (set_listing None) else mret tt);;
      modify (emit (Announced c));;
      (if chat_installed then modify (emit (ChatEnded r)) else mret tt);;
      mret true
  end.

(** ** Leaving and handing over *)

Definition settle_perks (code host : str) : SvcM unit := fun w =>
  match apply code CQuiet (settle_perks_change host (star_perks host)) w with
  | (_, w') => (Ok tt, w')
  end.

(** [host_candidates]: the members seen recently who host no other live room. *)
Fixpoint free_hosts (r : Room) (host : str) (online : list str) : SvcM (list str) :=
  match online with
  | [] => mret []
  | user :: online =>
      if str_eqb user host || negb (is_member r user) then free_hosts r host online
      else
        other ← store (hosted_by user);
        busy ← (match other with
                | Some other =>
                    if str_eqb other (code r) then mret false
                    else v ← store (version_of other); mret (bool_decide (is_Some v))
                | None => mret false
                end);
        rest ← free_hosts r host online;
        mret (if (busy : bool) then rest else user :: rest)
  end.

Definition host_candidates (r : Room) (host : str) : SvcM (list str) :=
  now ← now_ms;
  online ← store (seen_since (code r) (wrap_i64 (now - ONLINE_WINDOW_MS)));
  free_hosts r host online.

Definition service_hand_off (r : Room) (host : str) : SvcM unit :=
  candidates ← host_candidates r host;
  match next_host r host candidates with
  | None => end_room (code r);; mret tt
  | Some expected =>
      '(after, surprise) ← apply (code r) CMember
        (hand_off_change host candidates expected (star_perks expected));
      match surprise with Some next => settle_perks (code after) next | None => mret tt end;;
      store (forget (code after) host);;
      store (release_host host (code after));;
      now ← now_ms;
      store (host_seen after now);;
      refresh_cards after
  end.

Definition leave_once (c user_id : str) : SvcM unit :=
  found ← store (load c);
  match found with
  | None => mret tt
  | Some r =>
      if negb (is_member r user_id) then mret tt
      else if (length (members r) =? 1)%nat then end_room c;; mret tt
      else if is_host r user_id then service_hand_off r user_id
      else
        '(_, gone) ← apply c CMember (leave_change user_id);
        if (gone : bool) then store (forget c user_id) else mret tt
  end.

Definition is_raced (e : AppError) : bool :=
  match e with Coded _ c _ _ => str_eqb c RACED | _ => false end.

Fixpoint leave_from (attempts : nat) (c user_id : str) : SvcM unit :=
  match attempts with
  | O => throw raced
  | S attempts => fun w =>
      match leave_once c user_id w with
      | (Err e, w') => if is_raced e then leave_from attempts c user_id w' else (Err e, w')
      | outcome => outcome
      end
  end.

Definition leave (c user_id : str) : SvcM unit :=
  found ← store (load c);
  moved ← (match found with Some _ => mret None | None => store (moved_to c) end);
  leave_from LEAVE_ATTEMPTS (default c moved) user_id.

(** ** Creating and joining *)

(** The attempts of [create]: picks of the code generator and UUIDs per attempt. *)
Fixpoint create_from (attempts : nat) (user_id : str) (profile : Profile) (public : bool)
  (title : option str) (p : Perks) (now : Z) (picks : nat -> list nat) (now_v7 : nat -> Uuid)
  : SvcM RoomView :=
  match attempts with
  | O => throw (ServiceUnavailable (lit "Could not allocate a room code"))
  | S attempts =>
      let r := created_room (new_code (picks attempts)) user_id profile public title p now
                 (now_v7 attempts) in
      inserted ← store (insert r);
      if inserted : bool then
        store (touch (code r) user_id now);;
        keep_alive r now;;
        (if public then modify (set_listing None) else mret tt);;
        view (code r) user_id
      else create_from attempts user_id profile public title p now picks now_v7
  end.

Definition create (user_id : str) (profile : Profile) (public : bool) (title : option str)
  (picks : nat -> list nat) (now_v7 : nat -> Uuid) : SvcM RoomView :=
  previous ← store (hosted_by user_id);
  match previous with Some previous => leave previous user_id | None => mret tt end;;
  now ← now_ms;
  create_from CODE_ATTEMPTS user_id profile public title (star_perks user_id) now picks now_v7.

Definition admit_to (c user_id : str) (profile : Profile) (public_only : bool) : SvcM RoomView :=
  r ← room c;
  let known := is_member r user_id in
  (if known then mret tt
   else
     match refusal r user_id public_only with
     | Some error => throw error
     | None =>
         blocks ← of_result (host_blocks (host_id r) user_id);
         if blocks : bool then throw hidden else mret tt
     end);;
  from_seq ← (if known then mret 0 else chat_last_seq r);
  now ← now_ms;
  let m := reading_from from_seq (Member_new user_id profile now) in
  let recent := wrap_i64 (now - ONLINE_WINDOW_MS) in
  online ← store (seen_since c recent);
  apply c CMember (admit_change user_id public_only (host_id r) online recent m);;
  now ← now_ms;
  store (touch c user_id now);;
  view c user_id.

Definition join (c user_id : str) (profile : Profile) : SvcM RoomView :=
  admit_to c user_id profile false.

Definition host_id_of (raw : str) : AppResult str :=
  if negb (bool_decide (raw = [])) && (str_len raw <=? MAX_HOST_ID_LEN)
     && forallb is_ascii_digit raw
  then Ok raw else Err hidden.

Definition join_public (host user_id : str) (profile : Profile) : SvcM RoomView :=
  checked ← of_result (host_id_of host);
  found ← store (hosted_by checked);
  c ← of_option hidden found;
  v ← admit_to c user_id profile true;
  ensure (str_eqb (rv_host_id v) host) hidden;;
  mret v.

(** ** Playback, moderation, settings *)

Definition service_set_playback (c user_id : str) (update : PlaybackUpdate) : SvcM RoomView :=
  now ← now_ms;
  apply c CMember (set_playback_op user_id update now);;
  view c user_id.

Definition service_mark_ready (c user_id track_urn : str) : SvcM RoomView :=
  r ← room c;
  fresh ← of_result ((mark_ready user_id track_urn r).1);
  (if fresh : bool then apply c CMember (mark_ready user_id track_urn);; mret tt else mret tt);;
  view c user_id.

Definition service_kick (c actor target : str) (with_ban : bool) : SvcM unit :=
  '(after, _) ← apply c (CModeration actor with_ban) (kick_change actor target with_ban);
  store (forget (code after) target).

Definition service_mute (c actor target : str) (seconds : Z) : SvcM unit :=
  now ← now_ms;
  apply c (CModeration actor false) (mute actor target seconds now);; mret tt.

Definition service_set_moderator (c actor target : str) (on : bool) : SvcM unit :=
  apply c (CModeration actor false) (set_moderator actor target on);; mret tt.

Definition reconfigure_guarded (c actor : str) (patch : SettingsPatch) (cooldown : option Z)
  (guard : option Guard) : SvcM (Room * option Uuid) :=
  '(after, replaced) ← apply_guarded c (CModeration actor false) guard
    (reconfigure_change actor patch cooldown);
  refresh_cards after;;
  mret (after, replaced).

Definition reconfigure (c actor : str) (patch : SettingsPatch) : SvcM Room :=
  '(after, _) ← reconfigure_guarded c actor patch None None; mret after.

Definition unlist (c : str) : SvcM bool :=
  found ← store (load c);
  match found with
  | None => mret false
  | Some _ =>
      apply c CQuiet unlist_change;;
      store (directory_unlist c);;
      modify (set_listing None);;
      mret true
  end.

Definition upgrade_to_star (c host : str) : SvcM Room :=
  '(after, upgraded) ← apply c CQuiet (upgrade_change host);
  (if upgraded : bool then refresh_cards after else mret tt);;
  mret after.

Definition recheck_room (r : Room) : SvcM bool :=
  if chat_installed then
    match is_star (host_id r) with
    | None => mret false
    | Some star =>
        let p := Perks_of star in
        if bool_decide (perks r = p) then mret false
        else
          '(after, changed) ← apply (code r) CQuiet (recheck_change (host_id r) p);
          (if changed : bool then refresh_cards after else mret tt);;
          mret changed
    end
  else mret false.

Definition service_clear_image_backdrop (c : str) (media : Uuid) (guard : Guard)
  : SvcM (option Room) :=
  found ← store (load c);
  match found with
  | None => mret None
  | Some r =>
      if negb (bool_decide (image_backdrop r = Some media)) then mret None
      else
        '(after, cleared) ← apply_guarded c CQuiet (Some guard) (clear_image_backdrop media);
        refresh_cards after;;
        mret (if cleared : bool then Some after else None)
  end.

(** ** The chat of a room *)

Record OpenedChat := { oc_room : Room; oc_conversation_id : Uuid; oc_from_seq : Z }.

Definition claim_chat (c user_id : str) (now_v7 : Uuid) : SvcM OpenedChat :=
  r ← room c;
  m ← of_option not_member (member r user_id);
  ensure (chat_enabled r) chat_off;;
  '(r, conversation) ← (match chat_id r with
            | Some id => mret (r, id)
            | None => apply c CQuiet (claim_chat_change user_id now_v7)
            end);
  store (index_chat conversation (code r));;
  mret {| oc_room := r; oc_conversation_id := conversation; oc_from_seq := m_chat_from_seq m |}.

(** ** Public rooms *)

Definition service_set_public (c user_id : str) (v : bool) (picks : nat -> list nat)
  : SvcM RoomView :=
  current ← room c;
  ensure (is_host current user_id) (Forbidden (lit "Only the host opens or closes the room"));;
  if bool_decide (public current = v) then view c user_id
  else
    r ← (if v then
           '(r, _) ← apply c CQuiet (set_public_op user_id true); mret r
         else
           r ← relocate c CQuiet (set_public_op user_id false) picks;
           store (directory_unlist c);; mret r);
    now ← now_ms;
    store (host_seen r now);;
    modify (set_listing None);;
    view (code r) user_id.

Definition public_rooms : SvcM (list PublicRoom) :=
  w ← gets (fun w => w);
  now ← now_ms;
  let fresh := match w_listing w with
               | Some (at_ms, rooms) => if now - at_ms <? LIST_FRESH_FOR_MS then Some rooms else None
               | None => None
               end in
  match fresh with
  | Some rooms => mret rooms
  | None =>
      let since := wrap_i64 (now - ONLINE_WINDOW_MS) in
      codes ← store (listed_since since SCAN_LIMIT);
      found ← store (load_with_presence codes since);
      let rooms := take LIST_LIMIT (rank (omap (fun '(r, online) => PublicRoom_of r online)
                     (List.filter (fun '(r, _) => public r) found))) in
      modify (set_listing (Some (now, rooms)));;
      mret rooms
  end.
End service.
