(* ===== verification/RoomServiceFacts.v ===== *)
(** * RoomServiceFacts: what the room service guarantees.

    Every closure of the service keeps the room invariant from any room it may
    meet, so whatever the interleaving every stored room is well formed; the
    operations that compose several store calls end in the state they promise. *)

From Stdlib Require Import ZArith Lia String SpecFloat.
From stdpp Require Import base list numbers option tactics sets gmap fin_maps.
From S2P Require Import Prelude Text AppError EntityRef RoomModel RoomInvariant RoomBehaviour RoomStore RoomStoreFacts RoomConcurrency RoomListing RoomService.
Local Open Scope Z_scope.

(** ** The closures keep the invariant *)

(** A stored room: well formed, under its own code. *)
Definition good (c : str) (r : Room) : Prop := wf_room r /\ code r = c.

Lemma wf_frame_set_version v r : wf_room r -> wf_room (set_version v r).
Proof. intros H. wf_frame H. Qed.
Lemma wf_frame_set_code c r : wf_room r -> wf_room (set_code c r).
Proof. intros H. wf_frame H. Qed.
Lemma wf_frame_set_unlisted v r : wf_room r -> wf_room (set_unlisted v r).
Proof. intros H. wf_frame H. Qed.
Lemma wf_frame_set_chat_id v r : wf_room r -> wf_room (set_chat_id v r).
Proof. intros H. wf_frame H. Qed.
Lemma wf_frame_perks p r : p = Perks_free \/ p = Perks_star -> wf_room r -> wf_room (set_perks p r).
Proof. intros Hp H. wf_frame H. Qed.

Lemma Perks_of_cases star : Perks_of star = Perks_free \/ Perks_of star = Perks_star.
Proof. destruct star; auto. Qed.

Lemma admit_change_wf user pub host online recent m :
  preserves wf_room (admit_change user pub host online recent m).
Proof.
  unfold admit_change. apply preserves_bind; [apply preserves_gets|]. intros r0.
  apply preserves_bind; [|intros _; apply join_room_wf].
  destruct (is_member r0 user); [apply preserves_ret|].
  destruct (refusal r0 user pub); [apply preserves_throw|].
  apply preserves_bind; [apply preserves_ensure|]. intros _.
  destruct (_ =? _)%nat; [|apply preserves_ret].
  apply preserves_modify. intros r. apply wf_drop_absent.
Qed.

Lemma leave_change_wf user : preserves wf_room (leave_change user).
Proof.
  unfold leave_change. apply preserves_wp. intros r H. wp_step. split_ifs; room_prop; auto.
  by apply wf_removed.
Qed.

Lemma wp_hand_off leaving candidates (Q : option str -> Room -> Prop) F r :
  wp (hand_off leaving candidates) Q F r =
  match next_host r leaving candidates with
  | Some next => Q (Some next) (handed_off leaving next r)
  | None => Q None r
  end.
Proof.
  pose proof (hand_off_run leaving candidates r) as E.
  destruct (next_host r leaving candidates); by rewrite (wp_eq_run _ _ _ _ _ _ E).
Qed.

Lemma hand_off_change_wf host candidates expected p :
  p = Perks_free \/ p = Perks_star -> preserves wf_room (hand_off_change host candidates expected p).
Proof.
  intros Hp. unfold hand_off_change. apply preserves_wp. intros r H. wp_step.
  destruct (is_host r host) eqn:Eh; cbn [negb].
  - autorewrite with wp. rewrite wp_hand_off.
    destruct (next_host r host candidates) as [next|] eqn:En; wp_step; [|done].
    pose proof (wf_handed_off _ _ _ _ H En) as Hwf.
    destruct (str_eqb next expected); apply wf_frame_perks; auto.
  - wp_step. apply wf_removed; [done|]. room_prop. congruence.
Qed.

Lemma settle_perks_change_wf host p :
  p = Perks_free \/ p = Perks_star -> preserves wf_room (settle_perks_change host p).
Proof.
  intros Hp. apply preserves_modify. intros r H.
  destruct (str_eqb _ _); [by apply wf_frame_perks|done].
Qed.

Lemma kick_change_wf actor target with_ban : preserves wf_room (kick_change actor target with_ban).
Proof. destruct with_ban; [apply ban_wf|apply kick_wf]. Qed.

Lemma unlist_change_wf : preserves wf_room unlist_change.
Proof. apply preserves_modify. apply wf_frame_set_unlisted. Qed.

Lemma upgrade_change_wf host : preserves wf_room (upgrade_change host).
Proof.
  unfold upgrade_change. apply preserves_wp. intros r H. wp_step. split_ifs; wp_step; [done|].
  apply wf_frame_perks; auto.
Qed.

Lemma recheck_change_wf host p :
  p = Perks_free \/ p = Perks_star -> preserves wf_room (recheck_change host p).
Proof.
  intros Hp. unfold recheck_change. apply preserves_wp. intros r H. wp_step. split_ifs; wp_step; [done|].
  by apply wf_frame_perks.
Qed.

Lemma claim_chat_change_wf user id : preserves wf_room (claim_chat_change user id).
Proof.
  unfold claim_chat_change. apply preserves_wp. intros r H. wp_step. split_ifs; wp_step; try done.
  by apply wf_frame_set_chat_id.
Qed.

Lemma created_room_wf c user profile pub t p now id :
  p = Perks_free \/ p = Perks_star -> wf_room (created_room c user profile pub t p now id).
Proof.
  intros Hp. constructor; simpl; try done.
  - apply NoDup_singleton.
  - unfold STAR_CAPACITY. lia.
  - apply list_elem_of_singleton. done.
  - intros id'. by rewrite elem_of_nil.
  - constructor.
  - unfold STAR_MODS_MAX. lia.
  - apply not_elem_of_nil.
  - intros id' Hid. by apply elem_of_nil in Hid.
  - constructor.
  - unfold MAX_BANNED. lia.
  - constructor.
  - unfold MAX_MUTED. lia.
  - apply not_elem_of_nil.
Qed.

(** ** The closures keep the code *)

Ltac keeps_code :=
  repeat (intros; first
    [ apply preserves_bind | apply preserves_ret | apply preserves_throw | apply preserves_gets
    | apply preserves_ensure | apply preserves_of_option | apply preserves_of_result
    | apply preserves_modify; let r := fresh "r" in intros r <-; by repeat case_match
    | match goal with |- preserves _ (match ?o with _ => _ end) => destruct o end
    | match goal with |- preserves _ (if ?b then _ else _) => destruct b end ]).

Abbreviation code_is c := (fun r : Room => code r = c).

Lemma remove_code c u : preserves (code_is c) (remove u).
Proof. unfold remove, keep_members_only. keeps_code. Qed.
Lemma join_room_code c m : preserves (code_is c) (join_room m).
Proof. unfold join_room. keeps_code. Qed.
Lemma hand_off_code c u l : preserves (code_is c) (hand_off u l).
Proof.
  intros r Hr. rewrite hand_off_run. destruct (next_host r u l); [|done]. simpl.
  unfold handed_off, drop_image_backdrop. by case_match.
Qed.
Lemma may_act_on_code c actor target : preserves (code_is c) (may_act_on actor target).
Proof. unfold may_act_on. keeps_code. Qed.

#[local] Hint Resolve remove_code join_room_code hand_off_code may_act_on_code : preserves.

Ltac keeps_code_with :=
  repeat (intros; first
    [ solve [auto with preserves nocore]
    | apply preserves_bind
    | apply preserves_modify; let r := fresh "r" in intros r <-; by repeat case_match
    | match goal with |- preserves _ (match ?o with _ => _ end) => destruct o end
    | match goal with |- preserves _ (if ?b then _ else _) => destruct b end ]).

Section closures.
Context {externals : Externals}.

(** Every closure the service hands to [update]. *)
Inductive service_change : change -> Prop :=
| sc_admit user pub host online recent m :
    service_change (change_of (admit_change user pub host online recent m))
| sc_leave user : service_change (change_of (leave_change user))
| sc_hand_off host candidates expected star :
    service_change (change_of (hand_off_change host candidates expected (Perks_of star)))
| sc_settle_perks host star : service_change (change_of (settle_perks_change host (Perks_of star)))
| sc_kick actor target with_ban : service_change (change_of (kick_change actor target with_ban))
| sc_mute actor target seconds now : service_change (change_of (mute actor target seconds now))
| sc_set_moderator actor target on : service_change (change_of (set_moderator actor target on))
| sc_reconfigure actor patch cooldown :
    service_change (change_of (reconfigure_change actor patch cooldown))
| sc_unlist : service_change (change_of unlist_change)
| sc_upgrade host : service_change (change_of (upgrade_change host))
| sc_recheck host star : service_change (change_of (recheck_change host (Perks_of star)))
| sc_clear_image media : service_change (change_of (clear_image_backdrop media))
| sc_claim_chat user id : service_change (change_of (claim_chat_change user id))
| sc_playback user update now : service_change (change_of (set_playback_op user update now))
| sc_ready user track : service_change (change_of (mark_ready user track))
| sc_public user v : service_change (change_of (set_public_op user v)).

Lemma reconfigure_change_wf actor patch cooldown :
  preserves wf_room (reconfigure_change actor patch cooldown).
Proof.
  unfold reconfigure_change. apply preserves_bind; [apply preserves_gets|]. intros b.
  apply preserves_bind; [apply apply_settings_wf|]. intros _.
  apply preserves_bind; [apply preserves_gets|]. intros n. apply preserves_ret.
Qed.

Lemma change_of_preserves {T} (I : Room -> Prop) (m : RoomM T) r r' :
  preserves I m -> I r -> change_of m r = Some r' -> I r'.
Proof.
  intros Hm Hr. specialize (Hm r Hr). unfold change_of. destruct (m r) as [[t|e] r0]; [|done].
  by intros [= <-].
Qed.

Lemma service_change_wf f r r' : service_change f -> wf_room r -> f r = Some r' -> wf_room r'.
Proof.
  intros Hf. destruct Hf; apply change_of_preserves;
    eauto using admit_change_wf, leave_change_wf, hand_off_change_wf, settle_perks_change_wf,
      kick_change_wf, mute_wf, set_moderator_wf, reconfigure_change_wf, unlist_change_wf,
      upgrade_change_wf, recheck_change_wf, clear_image_backdrop_wf, claim_chat_change_wf,
      set_playback_wf, mark_ready_wf, set_public_wf, Perks_of_cases.
Qed.

Lemma service_change_code f r r' : service_change f -> f r = Some r' -> code r' = code r.
Proof.
  intros Hf. destruct Hf; intros H; eapply (change_of_preserves (code_is (code r))); try exact H; try done;
    unfold admit_change, leave_change, hand_off_change, settle_perks_change, kick_change, kick, ban, mute,
      set_moderator, reconfigure_change, apply_settings, when_some, checked_cover, set_backdrop_op,
      unlist_change, upgrade_change, recheck_change, clear_image_backdrop, claim_chat_change,
      set_playback_op, check_snapshot_opt, check_snapshot, mark_ready, set_public_op;
    keeps_code_with.
Qed.

(** The labels of runs in which only the service writes rooms. *)
Definition service_label (l : label) : Prop :=
  match l with
  | LCreate r => exists c user profile pub t star now id,
      r = created_room c user profile pub t (Perks_of star) now id
  | LApply _ f | LMove _ f _ => service_change f
  | LDelete _ => True
  end.

Lemma service_label_keeps l : service_label l -> keeps good l.
Proof.
  destruct l as [r|c f|c|c f c']; simpl; [| |done|].
  - intros (c & user & profile & pub & t & star & now & id & ->). split; [|done].
    apply created_room_wf, Perks_of_cases.
  - intros Hf r r' [Hwf Hc] Hr. split.
    + by eapply wf_frame_set_version, service_change_wf.
    + simpl. erewrite service_change_code; done.
  - intros Hf r r' [Hwf Hc] Hr. split; [|done].
    by eapply wf_frame_set_version, wf_frame_set_code, service_change_wf.
Qed.

(** C5: whatever the clients do and however their reads and scripts interleave,
    every room the store can load is well formed and carries its own code: the
    host is a member and is neither a moderator nor muted, members, moderators
    and bans are duplicate-free and within their limits, moderators are members
    and nobody banned is in the room. *)
Theorem stored_rooms_wf {db} {redis : Redis db} {codec : RoomCodec} n tr (s : sys) c r
  (Hrun : sys_run n tr s) (Hn : Z.of_nat n < u64_max) (Hlabels : Forall service_label tr)
  (Hc : valid_code c) (Hload : load c (sys_db s) = (Ok (Some r), sys_db s)) :
  wf_room r /\ code r = c.
Proof.
  apply (reachable_rooms good n tr s c r); try done.
  eapply Forall_impl; [exact Hlabels|]. apply service_label_keeps.
Qed.
End closures.

(** ** Snapshots nested to the parser's limit *)

(** Containers around the deepest value of a playback request body. *)
Definition request_depth (u : PlaybackUpdate) : nat :=
  1 + Nat.max (snapshot_depth (pu_track u)) (snapshot_depth (pu_next_track u)).

Definition deep_update (track : value) : PlaybackUpdate := {|
  pu_status := Playing; pu_track := Some track; pu_track_urn := Some (lit "1"); pu_next_track := None;
  pu_position_ms := 0; pu_lead_ms := 0; pu_rate := None; pu_crossfade_sec := None |}.

Section deep.
Context {db : Type} {redis : Redis db} {codec : RoomCodec} {externals : Externals}.

(** An update that stores a room nested past the limit leaves nothing to load. *)
Lemma update_too_deep {T} c (change : RoomM T) d r t r1 r' d' :
  holds d c r -> change r = (Ok t, r1) -> (MAX_CONTAINERS < room_depth r1)%nat ->
  update c None change no_env d = (Ok (r', t), d') ->
  load c d' = (Err (Internal (lit "room decode")), d').
Proof.
  intros Hold Hch Hdeep Hu. unfold update, CAS_ATTEMPTS in Hu.
  destruct (encode_room (bumped r r1)) as [b|] eqn:Hb.
  - erewrite update_attempt in Hu by done. unfold no_env in Hu.
    destruct Hold as (h & b0 & Hk & Hv & _ & _).
    edestruct swap_run as (d1 & Hd & Hrun); [exact Hk|]. rewrite Hrun in Hu. clear Hrun.
    rewrite bool_decide_eq_true_2 in Hu by done. injection Hu as _ <-.
    cbv [load mbind ST_bind gets]. erewrite hget_law.
    2: { unfold hash_at. by rewrite Hd, lookup_insert_eq. }
    unfold body_hash. rewrite lookup_insert_eq. by rewrite (codec_depth (bumped r r1) b Hb Hdeep).
  - cbn [update_from] in Hu. cbv [mbind ST_bind] in Hu. rewrite (load_holds _ _ _ Hold) in Hu.
    cbv [of_option mret ST_ret] in Hu. rewrite Hch in Hu. cbv zeta in Hu. fold (bumped r r1) in Hu.
    cbv [of_result encode] in Hu. by rewrite Hb in Hu.
Qed.

(** C34: a playback request may carry a track snapshot nested as deep as the
    request parser allows, one container below the body; stored inside the room's
    playback it is one container deeper, so a snapshot at the limit is accepted
    by [set_playback] but the room it is stored in cannot be read again: every
    later [load] fails. *)
Theorem deep_snapshot_unreadable c host track now d r
  (Hold : holds d c r) (Hhost : host_id r = host) (Hobj : is_object track = true)
  (Hsize : exists n, json_len track = Some n /\ n <= MAX_TRACK_BYTES)
  (Hdepth : value_depth track = 126%nat) :
  (request_depth (deep_update track) <= MAX_CONTAINERS)%nat /\
  exists r1, set_playback_op host (deep_update track) now r = (Ok tt, r1) /\
  forall r' d', update c None (set_playback_op host (deep_update track) now) no_env d = (Ok (r', tt), d') ->
    load c d' = (Err (Internal (lit "room decode")), d').
Proof.
  split; [unfold request_depth, MAX_CONTAINERS; simpl; lia|].
  destruct Hsize as (n & Hn & Hle).
  assert (set_playback_op host (deep_update track) now r
    = (Ok tt, set_playback (updated_playback (playback r) (deep_update track)
         (Some (urn {| kind := Track; id := 1 |})) now) r)) as Hch.
  { cbv [set_playback_op mbind ST_bind gets ensure of_result throw mret ST_ret modify].
    rewrite (proj2 (is_host_true r host) Hhost).
    change (parse_track_urn (pu_track_urn (deep_update track)))
      with (@Ok (option str) AppError (Some (urn {| kind := Track; id := 1 |}))).
    cbv [check_snapshot_opt check_snapshot deep_update pu_track pu_next_track pu_status ensure
         mret ST_ret]. rewrite Hn, Hobj.
    destruct (Z.ltb_spec MAX_TRACK_BYTES n); [lia|]. done. }
  eexists. split; [exact Hch|]. intros r' d' Hu.
  eapply update_too_deep; [done|exact Hch| |exact Hu].
  unfold room_depth, MAX_CONTAINERS. cbn. lia.
Qed.
End deep.

(** ** A run of the service *)
Section samples.

Definition sample_created : Room :=
  created_room (lit "ABCDEF") (lit "1") {| pf_name := lit "someone"; pf_avatar_url := None |}
    true None (Perks_of false) 10 0.

Lemma sample_create_run : exists s, sys_run (db := gmap str rvalue) 1 [LCreate sample_created] s /\
  load (lit "ABCDEF") (sys_db s) = (Ok (Some sample_created), sys_db s).
Proof.
  destruct (insert_run (db := gmap str rvalue) sample_created ∅) as (d & Hins & Hd); [reflexivity|].
  rewrite bool_decide_eq_true_2 in * by reflexivity. destruct Hd as [Hh _].
  eexists. split.
  - eapply (sys_run_step 0 _ _ (Some _)).
    + apply (sys_run_nil ∅). intros c _. reflexivity.
    + apply (step_create _ sample_created d);
        [apply valid_code_sample|reflexivity|reflexivity|apply not_elem_of_empty|exact Hins].
  - apply load_holds. exact Hh.
Qed.

Lemma stored_rooms_wf_witness :
  exists s : @sys (gmap str rvalue), load (lit "ABCDEF") (sys_db s) = (Ok (Some sample_created), sys_db s)
    /\ wf_room sample_created.
Proof.
  destruct sample_create_run as (s & Hrun & Hload). exists s. split; [exact Hload|].
  apply (@stored_rooms_wf sample_externals _ _ _ _ _ s (lit "ABCDEF") sample_created Hrun);
    [unfold u64_max; lia| |apply valid_code_sample|exact Hload].
  constructor; [|constructor].
  exists (lit "ABCDEF"), (lit "1"), {| pf_name := lit "someone"; pf_avatar_url := None |},
    true, None, false, 10, 0. reflexivity.
Defined.

(** 126 nested objects. *)
Definition nested : value := Nat.iter 125 (fun v => Object [(lit "a", v)]) (Object []).

Lemma deep_snapshot_unreadable_witness :
  exists r1, @set_playback_op sample_externals (lit "1") (deep_update nested) 5 sample_room
    = (Ok tt, r1).
Proof.
  destruct (@deep_snapshot_unreadable _ _ _ sample_externals (lit "ABCDEF") (lit "1") nested 5
    sample_db sample_room sample_holds eq_refl eq_refl) as [_ (r1 & H & _)].
  - exists 2. split; [reflexivity|]. unfold MAX_TRACK_BYTES. lia.
  - reflexivity.
  - exists r1. exact H.
Defined.
End samples.
