(* ===== verification/RoomServiceFlows.v ===== *)
(** * RoomServiceFlows: the service's operations, end to end.

    What creating, joining, leaving and ending leave in the database when no
    other client interferes with the operation: every key the operation touches
    beside the room is of its own type and stays apart from the rooms. *)

From Stdlib Require Import ZArith Lia String SpecFloat.
From stdpp Require Import base list numbers option tactics sets gmap fin_maps.
From S2P Require Import Prelude Text AppError EntityRef RoomModel RoomInvariant RoomBehaviour RoomStore RoomStoreFacts RoomConcurrency RoomListing RoomService RoomServiceFacts.
Local Open Scope Z_scope.

(** ** The types of the other keys *)

Inductive zkey : str -> Prop :=
| zk_seen c : valid_code c -> zkey (seen_key c)
| zk_public : zkey PUBLIC_KEY
| zk_alive : zkey ROOMS_ALIVE.

Inductive skey : str -> Prop :=
| sk_host u : skey (host_key u)
| sk_chat id : skey (chat_key id)
| sk_moved c : valid_code c -> skey (moved_key c)
| sk_cooldown h : skey (cooldown_key h).

#[local] Hint Constructors zkey skey other_key : core.

Lemma zkey_other k : zkey k -> other_key k.
Proof. destruct 1; auto. Qed.
Lemma skey_other k : skey k -> other_key k.
Proof. destruct 1; auto. Qed.

Lemma zkey_not_skey k k' : zkey k -> skey k' -> k <> k'.
Proof.
  intros [c Hc| |] [u|id|c' Hc'|h]; try done.
  1, 2, 4: by apply (code_key_lowercase c).
  - intros E. by apply code_key_inj in E as [_ E].
  - intros E. symmetry in E. by apply (code_key_lowercase c') in E.
  - intros E. symmetry in E. by apply (code_key_lowercase c') in E.
Qed.

Section flows.
Context {db : Type} {redis : Redis db} {codec : RoomCodec}.

Record typed (d : db) : Prop := {
  typed_z k : zkey k -> exists z, zset_at (keyspace d) k = Some z;
  typed_s k : skey k -> exists o, string_at (keyspace d) k = Some o }.

Definition rooms_same (d d' : db) : Prop :=
  forall c, valid_code c -> keyspace d' !! room_key c = keyspace d !! room_key c.

(** A store call that succeeds and writes no room. *)
Definition quiet {A} (m : ST db AppError A) : Prop :=
  forall d, typed d -> exists a d', m d = (Ok a, d') /\ typed d' /\ rooms_same d d'.

Lemma rooms_same_refl d : rooms_same d d.
Proof. by intros c _. Qed.

Lemma rooms_same_trans d1 d2 d3 : rooms_same d1 d2 -> rooms_same d2 d3 -> rooms_same d1 d3.
Proof. intros H1 H2 c Hc. by rewrite H2, H1. Qed.

Lemma quiet_ret {A} (a : A) : quiet (mret a).
Proof. intros d Hd. eexists _, _. split; [done|]. auto using rooms_same_refl. Qed.
Lemma quiet_gets {A} (f : db -> A) : quiet (gets f).
Proof. intros d Hd. eexists _, _. split; [done|]. auto using rooms_same_refl. Qed.

Lemma quiet_bind {A B} (m : ST db AppError A) (k : A -> ST db AppError B) :
  quiet m -> (forall a, quiet (k a)) -> quiet (m ≫= k).
Proof.
  intros Hm Hk d Hd. unfold mbind, ST_bind. destruct (Hm d Hd) as (a & d1 & -> & H1 & H2).
  destruct (Hk a d1 H1) as (b & d2 & -> & H3 & H4).
  eexists _, _. split; [done|]. eauto using rooms_same_trans.
Qed.

(** Writing a sorted set or a string where one belongs. *)
Lemma quiet_write (f : db -> db) k :
  zkey k \/ skey k ->
  (forall d, typed d -> exists v, keyspace (f d) = <[k := v]> (keyspace d) /\
     (zkey k -> exists z, v = RZset z) /\ (skey k -> exists s, v = RString s)
   \/ keyspace (f d) = delete k (keyspace d) \/ keyspace (f d) = keyspace d) ->
  quiet (modify f).
Proof.
  intros Hk Hf d Hd. exists tt, (f d). split; [done|].
  assert (forall k', (zkey k' \/ skey k') -> k' <> k ->
    keyspace (f d) !! k' = keyspace d !! k') as Hother.
  { intros k' _ Hne. destruct (Hf d Hd) as (v & [[-> _]|[-> | ->]]);
      [by rewrite lookup_insert_ne|by rewrite lookup_delete_ne|done]. }
  split; [constructor|].
  - intros k' Hk'. destruct (decide (k' = k)) as [->|Hne].
    + destruct (Hf d Hd) as (v & [(-> & Hz & _)|[-> | ->]]).
      * destruct (Hz Hk') as [z ->]. exists z. unfold zset_at. by rewrite lookup_insert_eq.
      * exists ∅. unfold zset_at. by rewrite lookup_delete_eq.
      * by apply Hd.
    + unfold zset_at. rewrite Hother by auto. by apply Hd.
  - intros k' Hk'. destruct (decide (k' = k)) as [->|Hne].
    + destruct (Hf d Hd) as (v & [(-> & _ & Hs)|[-> | ->]]).
      * destruct (Hs Hk') as [z ->]. exists (Some z). unfold string_at. by rewrite lookup_insert_eq.
      * exists None. unfold string_at. by rewrite lookup_delete_eq.
      * by apply Hd.
    + unfold string_at. rewrite Hother by auto. by apply Hd.
  - intros c Hc. assert (room_key c <> k).
    { apply room_key_other; [done|]. destruct Hk; [by apply zkey_other|by apply skey_other]. }
    destruct (Hf d Hd) as (v & [[-> _]|[-> | ->]]);
      [by rewrite lookup_insert_ne|by rewrite lookup_delete_ne|done].
Qed.

Lemma zkey_skey_absurd k : zkey k -> skey k -> False.
Proof. intros Hz Hs. by apply (zkey_not_skey k k). Qed.

Lemma quiet_put_zset (f : db -> db) (k : str) (g : gmap str Z -> gmap str Z) :
  zkey k -> (forall d z, zset_at (keyspace d) k = Some z ->
    keyspace (f d) = put_zset k (g z) (keyspace d)) -> quiet (modify f).
Proof.
  intros Hk Hf. apply (quiet_write f k); [auto|]. intros d Hd.
  destruct (typed_z d Hd k Hk) as [z Hz]. rewrite (Hf d z Hz). unfold put_zset. case_decide.
  - exists (RZset ∅). auto.
  - exists (RZset (g z)). left. split_and!; [done|eauto|].
    intros Hs. exfalso. by eapply zkey_skey_absurd.
Qed.

Lemma quiet_zadd k m s : zkey k -> quiet (modify (zadd k m s)).
Proof.
  intros Hk. apply (quiet_write _ k); [auto|]. intros d Hd.
  destruct (typed_z d Hd k Hk) as [z Hz]. exists (RZset (<[m := s]> z)). left.
  split_and!; [by apply zadd_law|eauto|]. intros Hs. exfalso. by eapply zkey_skey_absurd.
Qed.

Lemma quiet_zrem k m : zkey k -> quiet (modify (zrem k m)).
Proof. intros Hk. apply (quiet_put_zset _ k (delete m)); [done|]. intros d z. apply zrem_law. Qed.

Lemma quiet_zremrange k b : zkey k -> quiet (modify (zremrangebyscore_below k b)).
Proof.
  intros Hk. apply (quiet_put_zset _ k (filter (fun ms => b <= ms.2))); [done|].
  intros d z. apply zremrange_law.
Qed.

Lemma quiet_set_ex k v ttl : skey k -> 0 < ttl -> quiet (modify (set_ex k v ttl)).
Proof.
  intros Hk Ht. apply (quiet_write _ k); [auto|]. intros d _. exists (RString v). left.
  split_and!; [by apply set_ex_law| |eauto]. intros Hz. exfalso. by eapply zkey_skey_absurd.
Qed.

Lemma quiet_del k : zkey k \/ skey k -> quiet (modify (del k)).
Proof.
  intros Hk. apply (quiet_write _ k); [done|]. intros d _. exists (RZset ∅).
  right. left. apply del_law.
Qed.

Lemma quiet_expire k ttl : 0 < ttl -> quiet (modify (expire k ttl)).
Proof.
  intros Ht d Hd. exists tt, (expire k ttl d). split; [done|].
  pose proof (expire_law k ttl d Ht) as E. split; [constructor|].
  - intros k' Hk'. rewrite E. by apply Hd.
  - intros k' Hk'. rewrite E. by apply Hd.
  - intros c _. by rewrite E.
Qed.
End flows.

Create HintDb quiet discriminated.
#[export] Hint Resolve quiet_ret quiet_gets quiet_zadd quiet_zrem quiet_zremrange quiet_set_ex
  quiet_del quiet_expire : quiet.
#[export] Hint Constructors zkey skey : quiet.
#[export] Hint Resolve or_introl or_intror : quiet.
#[export] Hint Extern 2 (0 < _) => reflexivity : quiet.

Ltac quiet_steps :=
  repeat (intros; first
    [ solve [auto with quiet nocore] | apply quiet_bind
    | match goal with |- quiet (match ?o with _ => _ end) => destruct o end
    | match goal with |- quiet (if ?b then _ else _) => destruct b end ]).

Section operations.
Context {db : Type} {redis : Redis db} {codec : RoomCodec}.

Lemma quiet_touch c u now : valid_code c -> quiet (touch (db := db) c u now).
Proof. intros Hc. unfold touch. quiet_steps. Qed.

Lemma quiet_forget c u : valid_code c -> quiet (forget (db := db) c u).
Proof. intros Hc. unfold forget. quiet_steps. Qed.

Lemma quiet_host_seen r now : quiet (host_seen (db := db) r now).
Proof. unfold host_seen. quiet_steps. Qed.

Lemma quiet_directory_unlist c : quiet (directory_unlist (db := db) c).
Proof. unfold directory_unlist. quiet_steps. Qed.

Lemma quiet_release_host u c : quiet (release_host (db := db) u c).
Proof.
  unfold release_host. apply quiet_bind; [|intros; apply quiet_ret]. intros d Hd.
  unfold script, release_script. destruct (bool_decide _).
  - destruct (quiet_del (host_key u) (or_intror (sk_host u)) d Hd) as (a & d' & E & H).
    injection E as _ <-. eexists _, _. split; [done|done].
  - eexists _, _. split; [done|]. auto using rooms_same_refl.
Qed.

Lemma quiet_directory_close r : quiet (directory_close (db := db) r).
Proof.
  unfold directory_close. apply quiet_bind; [apply quiet_directory_unlist|].
  intros _. apply quiet_release_host.
Qed.

Lemma quiet_keep_alive r now : quiet (store_keep_alive (db := db) r now).
Proof. unfold store_keep_alive. quiet_steps. Qed.

Lemma quiet_seen_since c since : quiet (seen_since (db := db) c since).
Proof. apply quiet_gets. Qed.

(** [forget_room] deletes the room and only that room. *)
Lemma forget_room_run r d :
  valid_code (code r) -> typed d -> exists d', forget_room r d = (Ok tt, d') /\ typed d' /\
    absent d' (code r) /\ forall c, valid_code c -> c <> code r ->
      keyspace d' !! room_key c = keyspace d !! room_key c.
Proof.
  intros Hc Hd. unfold forget_room.
  set (d1 := del (seen_key (code r)) (del (room_key (code r)) d)).
  assert (keyspace d1 = delete (seen_key (code r)) (delete (room_key (code r)) (keyspace d))) as E1.
  { unfold d1. by rewrite !del_law. }
  assert (typed d1) as Hd1.
  { constructor; intros k Hk; unfold zset_at, string_at; rewrite E1;
      (destruct (decide (k = seen_key (code r))) as [->|Hne];
        [rewrite lookup_delete_eq; eauto|rewrite lookup_delete_ne by done]);
      (rewrite lookup_delete_ne by (apply room_key_other; auto using zkey_other, skey_other));
      by apply Hd. }
  assert (quiet (db := db) (modify (zrem ROOMS_ALIVE (code r));;
    match chat_id r with Some id => modify (del (chat_key id)) | None => mret tt end)) as Hq
    by quiet_steps.
  destruct (Hq d1 Hd1) as ([] & d' & E & Hd' & Hs).
  exists d'. cbv [mbind ST_bind] in E |- *. cbn [modify]. fold d1. split; [exact E|].
  split_and!; [done| |].
  - unfold absent. rewrite Hs, E1 by done. rewrite lookup_delete_ne; [apply lookup_delete_eq|].
    apply not_eq_sym, room_key_other; auto.
  - intros c Hc' Hne. rewrite Hs, E1 by done. rewrite !lookup_delete_ne; [done| |].
    + intros E'. by apply room_key_inj in E'.
    + apply not_eq_sym, room_key_other; auto.
Qed.

Lemma typed_only d d' c : valid_code c -> only (room_key c) d d' -> typed d -> typed d'.
Proof.
  intros Hc Ho Hd. constructor; intros k Hk; unfold zset_at, string_at;
    (rewrite Ho by (apply not_eq_sym, room_key_other; auto using zkey_other, skey_other));
    by apply Hd.
Qed.

Lemma holds_same d d' c r : rooms_same d d' -> valid_code c -> holds d c r -> holds d' c r.
Proof.
  intros Hs Hc (h & b & Hk & H). exists h, b. by rewrite Hs.
Qed.
End operations.

(** ** The service *)
Section service.
Context {db : Type} {redis : Redis db} {codec : RoomCodec} {externals : Externals}
  {around : Surroundings}.

Abbreviation W := (@World db).

Lemma on_db_id (w : W) : on_db (w_db w) w = w.
Proof. by destruct w. Qed.

Lemma store_run {A} (m : ST db AppError A) (w : W) res d :
  m (w_db w) = (res, d) -> store m w = (res, on_db d w).
Proof. unfold store. by intros ->. Qed.

(** A service step that succeeds and writes no room. *)
Definition calm {A} (m : ST W AppError A) : Prop :=
  forall w, typed (w_db w) -> exists a w', m w = (Ok a, w') /\ typed (w_db w') /\
    rooms_same (w_db w) (w_db w').

Lemma calm_store {A} (m : ST db AppError A) : quiet m -> calm (store m).
Proof.
  intros Hm w Hw. destruct (Hm _ Hw) as (a & d & E & H1 & H2).
  exists a, (on_db d w). split; [by apply store_run|done].
Qed.

Lemma calm_bind {A B} (m : ST W AppError A) (k : A -> ST W AppError B) :
  calm m -> (forall a, calm (k a)) -> calm (m ≫= k).
Proof.
  intros Hm Hk w Hw. unfold mbind, ST_bind. destruct (Hm w Hw) as (a & w1 & -> & H1 & H2).
  destruct (Hk a w1 H1) as (b & w2 & -> & H3 & H4).
  eexists _, _. split; [done|]. eauto using rooms_same_trans.
Qed.

Lemma calm_ret {A} (a : A) : calm (mret a).
Proof. intros w Hw. eexists _, _. split; [done|]. auto using rooms_same_refl. Qed.

Lemma calm_gets {A} (f : W -> A) : calm (gets f).
Proof. intros w Hw. eexists _, _. split; [done|]. auto using rooms_same_refl. Qed.

Lemma calm_modify (f : W -> W) : (forall w, w_db (f w) = w_db w) -> calm (modify f).
Proof.
  intros Hf w Hw. exists tt, (f w). split; [done|]. rewrite Hf. auto using rooms_same_refl.
Qed.

Ltac calm_steps :=
  repeat (intros; first
    [ apply calm_ret | apply calm_gets | apply calm_modify; by intros []
    | apply calm_store; solve [auto using quiet_touch, quiet_forget, quiet_host_seen,
        quiet_directory_unlist, quiet_release_host, quiet_directory_close, quiet_keep_alive,
        quiet_seen_since]
    | apply calm_bind
    | match goal with |- calm (match ?o with _ => _ end) => destruct o end
    | match goal with |- calm (if ?b then _ else _) => destruct b end ]).

(** A calm step whose answer is known. *)
Definition calm_with {A} (v : A) (m : ST W AppError A) : Prop :=
  forall w, typed (w_db w) -> exists w', m w = (Ok v, w') /\ typed (w_db w') /\
    rooms_same (w_db w) (w_db w').

Lemma calm_with_ret {A} (v : A) : calm_with v (mret v).
Proof. intros w Hw. eexists. split; [done|]. auto using rooms_same_refl. Qed.

Lemma calm_with_bind {A B} (v : B) (m : ST W AppError A) (k : A -> ST W AppError B) :
  calm m -> (forall a, calm_with v (k a)) -> calm_with v (m ≫= k).
Proof.
  intros Hm Hk w Hw. unfold mbind, ST_bind. destruct (Hm w Hw) as (a & w1 & -> & H1 & H2).
  destruct (Hk a w1 H1) as (w2 & -> & H3 & H4).
  eexists. split; [done|]. eauto using rooms_same_trans.
Qed.

Ltac calm_with_steps :=
  repeat (intros; first [ apply calm_with_ret | apply calm_with_bind; [solve [calm_steps]|] ]).

Lemma calm_settle before after cause : calm (settle before after cause).
Proof. unfold settle, now_ms. calm_steps. Qed.

Lemma calm_refresh_cards r : calm (refresh_cards r).
Proof. unfold refresh_cards. calm_steps. Qed.

Lemma calm_keep_alive r now : calm (keep_alive r now).
Proof. unfold keep_alive. calm_steps. Qed.

(** [apply] without interference. *)
Lemma apply_run {T} c cause (change : RoomM T) (w : W) r t r1 :
  valid_code c -> typed (w_db w) -> holds (w_db w) c r -> change r = (Ok t, r1) ->
  readable (playback r1) ->
  exists w', apply no_env c cause change w = (Ok (bumped r r1, t), w') /\ typed (w_db w') /\
    holds (w_db w') c (bumped r r1) /\
    forall c', valid_code c' -> c' <> c ->
      keyspace (w_db w') !! room_key c' = keyspace (w_db w) !! room_key c'.
Proof.
  intros Hc Hw Hold Hch Hread.
  assert (remember change r = (Ok (r, t), r1)) as Hrem.
  { unfold remember. cbv [mbind ST_bind gets]. by rewrite Hch. }
  pose proof (update_present c None (remember change) (w_db w) r Hold) as H.
  rewrite Hrem in H. simpl guard_passes in H. cbv iota in H.
  destruct (update c None (remember change) no_env (w_db w)) as [res d] eqn:Hu.
  destruct H as (-> & Hh & Ho); [by intros ? ? [= _ <-]|].
  destruct (calm_settle r (bumped r r1) cause (on_db d w)) as ([] & w' & Es & Ht & Hs).
  { by eapply typed_only. }
  exists w'. unfold apply, apply_guarded. cbv [mbind ST_bind].
  rewrite (store_run _ _ _ _ Hu). cbn [fst snd]. rewrite Es.
  split_and!; [done|done|by eapply holds_same|].
  intros c' Hc' Hne. rewrite Hs by done. apply Ho. intros E. by apply room_key_inj in E.
Qed.

Lemma apply_fails {T} c cause (change : RoomM T) (w : W) r e :
  holds (w_db w) c r -> (change r).1 = Err e ->
  exists w', apply no_env c cause change w = (Err e, w') /\ rooms_same (w_db w) (w_db w').
Proof.
  intros Hold Hch. destruct (change r) as [res r1] eqn:E. simpl in Hch. subst res.
  assert (remember change r = (Err e, r1)) as Hrem.
  { unfold remember. cbv [mbind ST_bind gets]. by rewrite E. }
  pose proof (update_present c None (remember change) (w_db w) r Hold) as H. rewrite Hrem in H.
  destruct (update c None (remember change) no_env (w_db w)) as [res d] eqn:Hu.
  destruct H as [-> ->]; [done|].
  exists w. unfold apply, apply_guarded. cbv [mbind ST_bind].
  rewrite (store_run _ _ _ _ Hu), on_db_id. split; [done|apply rooms_same_refl].
Qed.

Lemma store_load_holds c r (w : W) : holds (w_db w) c r -> store (load c) w = (Ok (Some r), w).
Proof. intros H. rewrite (store_run _ _ _ _ (load_holds _ _ _ H)). by rewrite on_db_id. Qed.

(** *** Ending a room *)
Lemma end_room_run c r (w : W) :
  valid_code c -> typed (w_db w) -> holds (w_db w) c r -> code r = c ->
  exists w', end_room c w = (Ok true, w') /\ typed (w_db w') /\ absent (w_db w') c /\
    forall c', valid_code c' -> c' <> c ->
      keyspace (w_db w') !! room_key c' = keyspace (w_db w) !! room_key c'.
Proof.
  intros Hc Hw Hold Hcode. unfold end_room. cbv [mbind ST_bind].
  rewrite (store_load_holds c r) by done.
  destruct (forget_room_run r (w_db w)) as (d1 & E1 & Ht1 & Ha1 & Ho1); [by rewrite Hcode|done|].
  rewrite (store_run _ _ _ _ E1).
  assert (calm_with true (store (directory_close r);;
    modify (fun w => set_alive (w_alive w ∖ {[code r]}) w);;
    modify (fun w => set_previews (delete (code r) (w_previews w)) w);;
    (if public r then modify (set_listing None) else mret tt);;
    modify (emit (Announced c));;
    (if chat_installed then modify (emit (ChatEnded r)) else mret tt);; mret true)) as Hq
    by calm_with_steps.
  destruct (Hq (on_db d1 w) Ht1) as (w' & E & Ht & Hs).
  exists w'. split_and!; [exact E|done| |].
  - unfold absent. rewrite Hs by done. simpl. rewrite <- Hcode. exact Ha1.
  - intros c' Hc' Hne. rewrite Hs by done. simpl. apply Ho1; congruence.
Qed.

(** *** Choosing the next host *)

(** A database as the service leaves it between operations: typed keys, rooms
    that can be loaded, host pointers that are codes. *)
Record sane (d : db) : Prop := {
  sane_typed : typed d;
  sane_rooms c : valid_code c -> absent d c \/ exists r, holds d c r /\ in_u64 (version r);
  sane_hosts u c : get (host_key u) d = Some c -> valid_code c }.

Lemma version_of_sane d c :
  sane d -> valid_code c -> exists v, version_of c d = (Ok v, d).
Proof.
  intros Hd Hc. destruct (sane_rooms d Hd c Hc) as [Ha|(r & Hh & Hv)].
  - exists None. cbv [version_of mbind ST_bind gets].
    by rewrite (hget_law _ _ _ ∅) by by apply hash_at_None.
  - exists (Some (version r)). by apply version_of_holds.
Qed.

Lemma free_hosts_run r host online (w : W) :
  sane (w_db w) -> exists l, free_hosts r host online w = (Ok l, w).
Proof.
  intros Hw. induction online as [|u online [l IH]]; [by exists []|]. cbn [free_hosts].
  destruct (_ || _); [by exists l|]. cbv [mbind ST_bind].
  rewrite (store_run (hosted_by u) w (Ok (get (host_key u) (w_db w))) (w_db w)) by done.
  rewrite on_db_id. destruct (get (host_key u) (w_db w)) as [other|] eqn:Eg.
  - destruct (str_eqb other (code r)); cbv [mret ST_ret].
    + rewrite IH. by eexists.
    + destruct (version_of_sane (w_db w) other) as [v Hv]; [done|by eapply sane_hosts|].
      rewrite (store_run _ _ _ _ Hv), on_db_id, IH. by eexists.
  - cbv [mret ST_ret]. rewrite IH. by eexists.
Qed.

Lemma host_candidates_run r host (w : W) :
  sane (w_db w) -> exists l, host_candidates r host w = (Ok l, w).
Proof.
  intros Hw. unfold host_candidates, now_ms. cbv [mbind ST_bind gets].
  rewrite (store_run (seen_since _ _) w _ (w_db w) eq_refl), on_db_id. by apply free_hosts_run.
Qed.

(** *** Leaving *)

(** The user is out of room [c] in [d]: the room is gone, or goes on well formed
    without them. *)
Definition out_of (d : db) (c user : str) : Prop :=
  absent d c \/ exists r, holds d c r /\ user ∉ member_ids r /\ good c r.

Lemma hand_off_change_run r host candidates next p :
  host_id r = host -> next_host r host candidates = Some next ->
  hand_off_change host candidates next p r = (Ok None, set_perks p (handed_off host next r)).
Proof.
  intros Hh Hn. unfold hand_off_change. cbv [mbind ST_bind gets].
  rewrite (proj2 (is_host_true r host) Hh). cbn [negb].
  rewrite hand_off_run, Hn. cbv [of_option mret ST_ret]. by rewrite str_eqb_refl.
Qed.

Lemma handed_off_playback leaving next r : playback (handed_off leaving next r) = playback r.
Proof. unfold handed_off, drop_image_backdrop. by case_match. Qed.

Lemma handed_off_gone leaving next r : leaving ∉ member_ids (handed_off leaving next r).
Proof.
  unfold handed_off, drop_image_backdrop. case_match; apply (removed_gone leaving r).
Qed.

Lemma handed_off_code leaving next r : code (handed_off leaving next r) = code r.
Proof. unfold handed_off, drop_image_backdrop. by case_match. Qed.

Lemma member_ids_perks r p x : member_ids (bumped r (set_perks p x)) = member_ids x.
Proof. done. Qed.

Lemma code_perks r p x : code (bumped r (set_perks p x)) = code x.
Proof. done. Qed.

Lemma star_perks_cases u : star_perks u = Perks_free \/ star_perks u = Perks_star.
Proof.
  unfold star_perks. destruct chat_installed; [|auto].
  destruct (is_star u); [apply Perks_of_cases|auto].
Qed.

Lemma service_hand_off_run r c (w : W) :
  valid_code c -> sane (w_db w) -> holds (w_db w) c r -> good c r -> readable (playback r) ->
  exists w', service_hand_off no_env r (host_id r) w = (Ok tt, w') /\
    out_of (w_db w') c (host_id r).
Proof.
  intros Hc Hw Hold [Hwf Hcode] Hread. pose proof (sane_typed _ Hw) as Ht.
  unfold service_hand_off.
  destruct (host_candidates_run r (host_id r) w Hw) as [l Hl]. rewrite (bind_Ok _ _ _ _ _ Hl).
  destruct (next_host r (host_id r) l) as [next|] eqn:En; rewrite ?Hcode.
  - pose proof (hand_off_change_run r (host_id r) l next (star_perks next) eq_refl En) as Hch.
    set (r1 := set_perks (star_perks next) (handed_off (host_id r) next r)) in *.
    destruct (apply_run c CMember _ w r None r1 Hc Ht Hold Hch) as (w1 & E1 & Ht1 & Hh1 & _).
    { unfold r1. simpl. by rewrite handed_off_playback. }
    rewrite (bind_Ok _ _ _ _ _ E1).
    assert (code (bumped r r1) = c) as Hcode1
      by (unfold r1; by rewrite code_perks, handed_off_code).
    assert (calm (mret tt;; store (forget (code (bumped r r1)) (host_id r));;
      store (release_host (host_id r) (code (bumped r r1)));;
      now ← now_ms; store (host_seen (bumped r r1) now);; refresh_cards (bumped r r1))) as Hq.
    { unfold now_ms, refresh_cards. rewrite Hcode1. calm_steps. }
    destruct (Hq w1 Ht1) as ([] & w2 & E2 & Ht2 & Hs2). exists w2. split; [exact E2|].
    right. exists (bumped r r1). split_and!.
    + by eapply holds_same.
    + unfold r1. rewrite member_ids_perks. apply handed_off_gone.
    + split; [|exact Hcode1]. apply wf_frame_set_version, wf_frame_perks; [apply star_perks_cases|].
      by eapply wf_handed_off.
  - destruct (end_room_run c r w Hc Ht Hold Hcode) as (w' & E & _ & Ha & _).
    rewrite (bind_Ok _ _ _ _ _ E). exists w'. split; [done|by left].
Qed.

Lemma leave_once_run r c user (w : W) :
  valid_code c -> sane (w_db w) -> holds (w_db w) c r -> good c r -> readable (playback r) ->
  exists w', leave_once no_env c user w = (Ok tt, w') /\ out_of (w_db w') c user.
Proof.
  intros Hc Hw Hold [Hwf Hcode] Hread. pose proof (sane_typed _ Hw) as Ht.
  unfold leave_once. cbv [mbind ST_bind]. rewrite (store_load_holds c r) by done.
  destruct (is_member r user) eqn:Em; cbn [negb]; room_prop.
  2: { exists w. split; [done|]. right. by exists r. }
  destruct (Nat.eqb_spec (length (members r)) 1) as [H1|H1].
  { destruct (end_room_run c r w Hc Ht Hold Hcode) as (w' & -> & _ & Ha & _).
    exists w'. split; [done|by left]. }
  destruct (is_host r user) eqn:Eh; room_prop.
  { subst user. by apply service_hand_off_run. }
  assert (leave_change user r = (Ok true, removed user r)) as Hch.
  { unfold leave_change. cbv [mbind ST_bind gets]. rewrite (proj2 (is_host_false r user) Eh).
    cbn [negb]. cbv [ensure mret ST_ret]. by rewrite remove_run, (proj2 (is_member_true r user) Em). }
  destruct (apply_run c CMember _ w r true _ Hc Ht Hold Hch Hread) as (w1 & -> & Ht1 & Hh1 & _).
  destruct (calm_store _ (quiet_forget c user Hc) w1 Ht1) as ([] & w2 & E2 & Ht2 & Hs2).
  exists w2. split; [exact E2|]. right. exists (bumped r (removed user r)). split_and!.
  - by eapply holds_same.
  - apply (removed_gone user r).
  - split; [|done]. apply wf_frame_set_version, wf_removed; [done|congruence].
Qed.

(** Leaving works: for a room of the store, [leave] by anybody returns
    success, and afterwards the person is out: either the room goes on, well
    formed, without them (with a new host when they were the host and somebody
    online could take over), or, when nobody was left to take it, the room is
    gone. *)
Theorem leave_leaves c user r (w : W) (Hc : valid_code c) (Hw : sane (w_db w))
  (Hold : holds (w_db w) c r) (Hgood : good c r) (Hread : readable (playback r)) :
  exists w', leave no_env c user w = (Ok tt, w') /\ out_of (w_db w') c user.
Proof.
  unfold leave, LEAVE_ATTEMPTS. cbv [mbind ST_bind]. rewrite (store_load_holds c r) by done.
  cbv [mret ST_ret]. simpl default. cbn [leave_from].
  destruct (leave_once_run r c user w) as (w' & -> & Hout); [done..|]. eauto.
Qed.

(** *** Joining *)

Lemma room_run c r (w : W) : holds (w_db w) c r -> room c w = (Ok r, w).
Proof. intros H. unfold room. by rewrite (bind_Ok _ _ _ _ _ (store_load_holds c r w H)). Qed.

(** A member who is not the host is shown the room. *)
Lemma view_run c user r (w : W) :
  holds (w_db w) c r -> user ∈ member_ids r -> host_id r <> user ->
  exists online, view c user w =
    (Ok (with_cooldown None (for_viewer r user online (w_now w))), w).
Proof.
  intros Hh Hm Hhost. unfold view. rewrite (bind_Ok _ _ _ _ _ (room_run c r w Hh)).
  unfold show, now_ms. cbv [mbind ST_bind gets].
  rewrite (proj2 (is_member_true r user) Hm), (proj2 (is_host_false r user) Hhost).
  cbv [ensure mret ST_ret]. rewrite (store_run (seen_since _ _) w _ (w_db w) eq_refl), on_db_id.
  by eexists.
Qed.

(** The room a newcomer's closure starts from: members gone for a while make
    room in a full one. *)
Definition seated (r : Room) (online : list str) (recent : Z) : Room :=
  if (length (members r) =? capacity r)%nat then drop_absent online recent r else r.

Lemma admit_change_newcomer r user online recent m :
  is_member r user = false -> is_banned r user = false ->
  admit_change user false (host_id r) online recent m r = join_room m (seated r online recent).
Proof.
  intros Hm Hb. unfold admit_change, refusal. cbv [mbind ST_bind gets]. rewrite Hm, Hb.
  rewrite str_eqb_refl. cbv [ensure mret ST_ret]. unfold seated. by destruct (_ =? _)%nat.
Qed.

Lemma join_room_new m r0 r1 :
  join_room m r0 = (Ok tt, r1) -> m_user_id m ∈ member_ids r1 /\ host_id r1 = host_id r0 /\
    playback r1 = playback r0.
Proof.
  cbv [join_room mbind ST_bind gets modify]. destruct (is_member r0 (m_user_id m)) eqn:Em.
  - intros [= <-]. room_prop. split_and!; [|done|done].
    unfold member_ids. simpl. by rewrite update_first_map.
  - cbv [ensure throw mret ST_ret]. destruct (is_banned r0 _); [done|]. destruct (is_full r0); [done|].
    intros [= <-]. split_and!; [|done|done]. unfold member_ids. simpl. rewrite List.map_app. set_solver.
Qed.

Lemma seated_frame r online recent :
  host_id (seated r online recent) = host_id r /\ playback (seated r online recent) = playback r.
Proof. unfold seated, drop_absent, keep_members_only. by destruct (_ =? _)%nat. Qed.

(** A stranger asking to join: somebody banned is told so and somebody the
    host blocked is told there is no such room, and nothing is stored; otherwise
    the outcome is exactly that of taking a seat in the room, after the members
    gone for more than the online window have been dropped when it was full.  A
    newcomer who gets the seat is a member of the stored room, whose version
    advanced, and is shown it; one who does not gets the room's refusal and the
    room is as it was. *)
Theorem join_admits c user profile r (w : W) (Hc : valid_code c) (Hw : sane (w_db w))
  (Hold : holds (w_db w) c r) (Hgood : good c r) (Hread : readable (playback r))
  (Hnew : user ∉ member_ids r) (blocks : bool) (Hblocks : host_blocks (host_id r) user = Ok blocks)
  (seq : Z) (Hseq : chat_last_seq r w = (Ok seq, w)) :
  let recent := wrap_i64 (w_now w - ONLINE_WINDOW_MS) in
  let online := zrangebyscore_from (seen_key c) recent (w_db w) in
  let m := reading_from seq (Member_new user profile (w_now w)) in
  let (res, w') := join no_env c user profile w in
  if is_banned r user then res = Err banned /\ w' = w
  else if blocks then res = Err hidden /\ w' = w
  else match join_room m (seated r online recent) with
       | (Err e, _) => res = Err e /\ rooms_same (w_db w) (w_db w')
       | (Ok _, r1) =>
           user ∈ member_ids r1 /\ holds (w_db w') c (bumped r r1) /\
           exists seen, res = Ok (with_cooldown None (for_viewer (bumped r r1) user seen (w_now w')))
       end.
Proof.
  intros recent online m. unfold join, admit_to.
  rewrite (bind_Ok _ _ _ _ _ (room_run c r w Hold)).
  pose proof (proj2 (is_member_false r user) Hnew) as Em. cbv zeta. rewrite Em. unfold refusal.
  cbn [andb]. destruct (is_banned r user) eqn:Eb; [done|]. rewrite Hblocks.
  destruct blocks; [done|]. cbv [mbind ST_bind of_result mret ST_ret]. rewrite Hseq.
  unfold now_ms. cbv [gets]. fold recent m.
  rewrite (store_run (seen_since c recent) w (Ok online) (w_db w) eq_refl), on_db_id.
  pose proof (admit_change_newcomer r user online recent m Em Eb) as Hch.
  destruct (seated_frame r online recent) as [Hsh Hsp].
  destruct (join_room m (seated r online recent)) as [[[]|e] r1] eqn:Hj.
  - apply join_room_new in Hj as (Hin & Hhost & Hpb).
    destruct (apply_run c CMember _ w r tt r1 Hc (sane_typed _ Hw) Hold Hch) as (w1 & -> & Ht1 & Hh1 & _).
    { by rewrite Hpb, Hsp. }
    destruct (calm_store _ (quiet_touch c user (w_now w1) Hc) w1 Ht1) as ([] & w2 & -> & Ht2 & Hs2).
    destruct (view_run c user (bumped r r1) w2) as [seen ->].
    + by eapply holds_same.
    + exact Hin.
    + simpl. rewrite Hhost, Hsh. intros E. apply Hnew. rewrite <- E. apply Hgood.
    + split_and!; [done|by eapply holds_same|]. by exists seen.
  - destruct (apply_fails c CMember (admit_change user false (host_id r) online recent m) w r e)
      as [w1 [-> Hs1]]; [done|by rewrite Hch|]. done.
Qed.
End service.

(** ** On a concrete world *)
Section samples.

Definition sample_around : Surroundings := {|
  chat_installed := false; is_star := fun _ => None; last_seq := fun _ => None;
  host_blocks := fun _ _ => Ok false |}.

Definition sample_world : @World (gmap str rvalue) := {|
  w_db := sample_db; w_now := 100000; w_alive := ∅; w_previews := ∅; w_listing := None;
  w_events := [] |}.

Lemma sample_other_key k : other_key k -> sample_db !! k = None.
Proof.
  intros Hk. pose proof (proj2 sample_stored k) as Ho. simpl in Ho.
  rewrite Ho; [reflexivity|]. intros E. by apply (room_key_other _ k valid_code_sample).
Qed.

Lemma sample_sane : sane sample_db.
Proof.
  constructor.
  - constructor; intros k Hk; unfold zset_at, string_at; simpl;
      (rewrite sample_other_key by first [by apply zkey_other | by apply skey_other]); by eexists.
  - intros c Hc. destruct (decide (c = lit "ABCDEF")) as [->|Hne].
    + right. exists sample_room. split; [apply sample_holds|]. unfold in_u64, u64_max. simpl. lia.
    + left. unfold absent. rewrite (proj2 sample_stored); [reflexivity|].
      intros E. by apply room_key_inj in E.
  - intros u c Hg. erewrite get_law in Hg.
    2: { unfold string_at. simpl. rewrite sample_other_key by constructor. done. }
    done.
Qed.

Lemma sample_good : good (lit "ABCDEF") sample_room.
Proof. split; [apply sample_wf|reflexivity]. Qed.

Lemma leave_leaves_witness :
  exists w', @leave _ _ _ sample_externals sample_around no_env (lit "ABCDEF") (lit "1") sample_world
    = (Ok tt, w') /\ out_of (w_db w') (lit "ABCDEF") (lit "1").
Proof.
  apply (@leave_leaves _ _ _ sample_externals sample_around (lit "ABCDEF") (lit "1") sample_room
    sample_world valid_code_sample sample_sane sample_holds sample_good eq_refl).
Defined.

Lemma join_admits_witness :
  exists r1 w', (@join _ _ _ sample_externals sample_around no_env (lit "ABCDEF") (lit "9")
    {| pf_name := lit "nine"; pf_avatar_url := None |} sample_world).2 = w' /\
    lit "9" ∈ member_ids r1 /\ holds (w_db w') (lit "ABCDEF") (bumped sample_room r1).
Proof.
  pose proof (@join_admits _ _ _ sample_externals sample_around (lit "ABCDEF") (lit "9")
    {| pf_name := lit "nine"; pf_avatar_url := None |} sample_room sample_world valid_code_sample
    sample_sane sample_holds sample_good eq_refl
    ltac:(apply (bool_decide_unpack _); vm_compute; exact I) false eq_refl 0 eq_refl) as H.
  cbv zeta in H. destruct (join _ _ _ _ _) as [res w'].
  change (is_banned sample_room (lit "9")) with false in H. cbv iota in H.
  assert (forall online recent, seated sample_room online recent = sample_room) as E by reflexivity.
  rewrite E in H.
  destruct (join_room _ sample_room) as [[[]|e] r1] eqn:Ej; [|discriminate Ej].
  exists r1, w'. split; [reflexivity|]. split; apply H.
Defined.
End samples.
