(* ===== verification/ByteRange.v ===== *)
(** * ByteRange: HTTP byte ranges of the object store ([storage/src/byte_range.rs]). *)

From Stdlib Require Import ZArith Lia String.
From stdpp Require Import base list numbers option tactics sets gmap.
From S2P Require Import Prelude Text EntityRef.
Local Open Scope Z_scope.

Inductive ByteRange :=
| From (start : Z) (fin : option Z)
| Suffix (length : Z).

Record Slice := { sl_start : Z; sl_end : Z; sl_total : Z }.

Definition parse_number (text : str) : option Z :=
  if bool_decide (text = []) || negb (forallb is_ascii_digit text) then None else parse_u64 text.

(** [value.get(..unit.len())] compared with [eq_ignore_ascii_case]: the units are
    ASCII, so a prefix that matches is cut at a character boundary. *)
Fixpoint strip_unit (value unit : str) {struct unit} : option str :=
  match unit, value with
  | [], _ => Some value
  | u :: unit', c :: value' =>
      if to_ascii_lowercase c =? to_ascii_lowercase u then strip_unit value' unit' else None
  | _ :: _, [] => None
  end.

Definition slash : char := 47.
Definition dash : char := 45.
Definition comma : char := 44.

Definition Slice_len (s : Slice) : Z := wrap_u64 (wrap_u64 (sl_end s - sl_start s) + 1).

Definition content_range (s : Slice) : str :=
  lit "bytes " ++ to_string (sl_start s) ++ lit "-" ++ to_string (sl_end s) ++ lit "/"
  ++ to_string (sl_total s).

Definition Slice_parse (value : str) : option Slice :=
  spec ← strip_unit (trim value) (lit "bytes ");
  '(span, total) ← split_once slash (trim spec);
  '(start, fin) ← split_once dash span;
  start ← parse_number (trim start);
  fin ← parse_number (trim fin);
  total ← parse_number (trim total);
  if (start <=? fin) && (fin <? total)
  then Some {| sl_start := start; sl_end := fin; sl_total := total |} else None.

Definition unsatisfied (total : Z) : str := lit "bytes */" ++ to_string total.

Definition parse (value : str) : option ByteRange :=
  spec ← strip_unit (trim value) (lit "bytes=");
  if contains_char comma spec then None else
  '(first, last) ← split_once dash (trim spec);
  let first := trim first in
  let last := trim last in
  if bool_decide (first = []) then n ← parse_number last; Some (Suffix n)
  else
    start ← parse_number first;
    if bool_decide (last = []) then Some (From start None)
    else
      fin ← parse_number last;
      if fin <? start then None else Some (From start (Some fin)).

Definition header (r : ByteRange) : str :=
  match r with
  | From start (Some fin) => lit "bytes=" ++ to_string start ++ lit "-" ++ to_string fin
  | From start None => lit "bytes=" ++ to_string start ++ lit "-"
  | Suffix length => lit "bytes=-" ++ to_string length
  end.

Definition never_satisfiable (r : ByteRange) : bool :=
  match r with Suffix n => n =? 0 | From _ _ => false end.

Definition resolve (r : ByteRange) (size : Z) : option (Z * Z) :=
  if size =? 0 then None else
  match r with
  | From start fin =>
      if start <? size
      then Some (start, match fin with Some fin => Z.min fin (size - 1) | None => size - 1 end)
      else None
  | Suffix n => if n =? 0 then None else Some (sat_sub_u64 size n, size - 1)
  end.

Definition slice (r : ByteRange) (total : Z) : option Slice :=
  '(start, fin) ← resolve r total; Some {| sl_start := start; sl_end := fin; sl_total := total |}.

(** ** Lemmas *)

(** What the parser accepts. *)
Definition wf_range (r : ByteRange) : Prop :=
  match r with
  | From start (Some fin) => in_u64 start /\ in_u64 fin /\ start <= fin
  | From start None => in_u64 start
  | Suffix n => in_u64 n
  end.

Definition wf_slice (s : Slice) : Prop :=
  0 <= sl_start s <= sl_end s /\ sl_end s < sl_total s /\ sl_total s <= u64_max.

(** The bytes of an object of [size] bytes a range asks for. *)
Definition selects (r : ByteRange) (size i : Z) : Prop :=
  0 <= i < size /\
  match r with
  | From start (Some fin) => start <= i <= fin
  | From start None => start <= i
  | Suffix n => size - n <= i
  end.

Lemma parse_number_Some t n : parse_number t = Some n -> in_u64 n.
Proof.
  unfold parse_number. destruct (_ || _) eqn:E; [done|]. bprop. intros Hp.
  rewrite parse_u64_digits in Hp by done. destruct (Z.leb_spec (digits_value t) u64_max); [|done].
  injection Hp as <-. split; [by apply digits_value_nonneg|done].
Qed.

Lemma parse_number_to_string n : in_u64 n -> parse_number (to_string n) = Some n.
Proof.
  intros Hn. unfold parse_number. unfold in_u64 in Hn.
  rewrite bool_decide_eq_false_2 by (apply to_string_nonempty; lia).
  rewrite to_string_digits by lia. by apply parse_u64_to_string.
Qed.

Lemma strip_unit_app u s : strip_unit (u ++ s) u = Some s.
Proof. induction u as [|c u IH]; cbn [strip_unit app]; [done|]. rewrite Z.eqb_refl. exact IH. Qed.

Lemma number_trimmed n : 0 <= n -> trimmed (to_string n).
Proof.
  intros Hn. pose proof (to_string_digits n Hn) as Hd. rewrite forallb_forall in Hd. split.
  - intros c s E. apply digit_not_whitespace, Hd. rewrite E. by left.
  - intros c s E. apply digit_not_whitespace, Hd. rewrite E. apply in_or_app. right. by left.
Qed.

Lemma trim_number n : 0 <= n -> trim (to_string n) = to_string n.
Proof. intros. by apply trim_trimmed, number_trimmed. Qed.

Lemma trim_nonblank c s d :
  is_whitespace c = false -> is_whitespace d = false -> trim (c :: s ++ [d]) = c :: s ++ [d].
Proof.
  intros Hc Hd. apply trim_trimmed. split; [by intros ? ? [= <- _]|].
  intros e t E. change (c :: s ++ [d]) with ((c :: s) ++ [d]) in E.
  apply app_inj_tail in E as [_ <-]. done.
Qed.

(** A text that starts with a non-blank and ends in a number has no blank ends. *)
Lemma trim_number_tail c s n :
  0 <= n -> is_whitespace c = false -> trim (c :: s ++ to_string n) = c :: s ++ to_string n.
Proof. intros. by apply trim_trimmed, trimmed_snoc_number. Qed.

Lemma number_head n s : 0 <= n -> exists c t, to_string n ++ s = c :: t /\ is_whitespace c = false.
Proof.
  intros Hn. pose proof (to_string_digits n Hn) as Hd. pose proof (to_string_nonempty n Hn) as Hne.
  destruct (to_string n) as [|c t]; [done|]. simpl in Hd. apply andb_prop in Hd as [Hc _].
  exists c, (t ++ s). split; [done|]. by apply digit_not_whitespace.
Qed.

Lemma split_number_dash c n s :
  0 <= n -> is_ascii_digit c = false -> split_once c (to_string n ++ c :: s) = Some (to_string n, s).
Proof. intros Hn Hc. apply split_once_Some. split; [done|]. by apply to_string_avoids. Qed.

Lemma contains_char_app c s t : contains_char c (s ++ t) = contains_char c s || contains_char c t.
Proof. apply existsb_app. Qed.

Lemma contains_number c n : 0 <= n -> is_ascii_digit c = false -> contains_char c (to_string n) = false.
Proof.
  intros Hn Hc. destruct (contains_char c (to_string n)) eqn:E; [|done].
  apply contains_char_spec in E. by apply to_string_avoids in E.
Qed.

(** ** Properties *)

(** A range resolves against an object exactly when it selects some byte of
    it, and then to the first and last byte it selects: the interval returned is
    inside the object and contains the selected bytes and no other. *)
Theorem resolve_exact r size (Hwf : wf_range r) (Hsize : in_u64 size) :
  match resolve r size with
  | Some (a, b) => 0 <= a <= b /\ b < size /\ forall i, selects r size i <-> a <= i <= b
  | None => forall i, ~ selects r size i
  end.
Proof.
  unfold resolve, selects, sat_sub_u64. unfold in_u64 in *.
  destruct (Z.eqb_spec size 0) as [|Hnz]; [intros i; lia|].
  destruct r as [start [fin|]|n]; simpl in Hwf; unfold in_u64 in *.
  - destruct (Z.ltb_spec start size); [split_and!; [lia|lia|lia|intros i; lia]|intros i; lia].
  - destruct (Z.ltb_spec start size); [split_and!; [lia|lia|lia|intros i; lia]|intros i; lia].
  - destruct (Z.eqb_spec n 0); [intros i; lia|]. split_and!; [lia|lia|lia|intros i; lia].
Qed.

Lemma resolve_exact_witness :
  resolve (Suffix 100) 1000 = Some (900, 999) /\ (forall i, selects (Suffix 100) 1000 i <-> 900 <= i <= 999).
Proof.
  split; [reflexivity|].
  apply (resolve_exact (Suffix 100) 1000); simpl; unfold in_u64, u64_max; lia.
Defined.

Lemma parse_wf v r : parse v = Some r -> wf_range r.
Proof.
  unfold parse. destruct (strip_unit _ _) as [spec|]; [|done]. cbn [mbind option_bind].
  destruct (contains_char comma spec); [done|].
  destruct (split_once dash (trim spec)) as [[first last]|]; [|done]. cbn [mbind option_bind].
  case_bool_decide.
  - intros Hr. apply bind_Some in Hr as (n & Hn & [= <-]). by apply parse_number_Some in Hn.
  - intros Hr. apply bind_Some in Hr as (start & Hs & Hr). apply parse_number_Some in Hs.
    case_bool_decide; [by injection Hr as <-|].
    apply bind_Some in Hr as (fin & Hf & Hr). apply parse_number_Some in Hf.
    destruct (Z.ltb_spec fin start); [done|]. injection Hr as <-. done.
Qed.

(** The body of a header and what the parser makes of it. *)
Lemma parse_body body r :
  trim body = body -> body <> [] -> contains_char comma body = false ->
  (forall c s, body = s ++ [c] -> is_whitespace c = false) ->
  ('(first, last) ← split_once dash body;
   let first := trim first in
   let last := trim last in
   if bool_decide (first = []) then n ← parse_number last; Some (Suffix n)
   else
     start ← parse_number first;
     if bool_decide (last = []) then Some (From start None)
     else
       fin ← parse_number last;
       if fin <? start then None else Some (From start (Some fin))) = Some r ->
  parse (lit "bytes=" ++ body) = Some r.
Proof.
  intros Htrim Hne Hcomma Hlast Hr. unfold parse.
  assert (trim (lit "bytes=" ++ body) = lit "bytes=" ++ body) as ->.
  { destruct body as [|c body _] using rev_ind; [done|]. rewrite app_assoc.
    apply (trim_nonblank 98 (lit "ytes=" ++ body) c); [done|]. by eapply Hlast. }
  rewrite strip_unit_app. cbn [mbind option_bind]. by rewrite Hcomma, Htrim.
Qed.

Lemma number_last n s c : 0 <= n -> to_string n = s ++ [c] -> is_whitespace c = false.
Proof. intros Hn E. destruct (number_trimmed n Hn) as [_ H]. by apply (H c s). Qed.

Lemma ends_in_number s n c t :
  0 <= n -> s ++ to_string n = t ++ [c] -> is_whitespace c = false.
Proof.
  intros Hn E. destruct (to_string n) as [|e v _] eqn:Ef using rev_ind;
    [by apply to_string_nonempty in Ef|].
  rewrite app_assoc in E. apply app_inj_tail in E as [_ <-]. by eapply number_last.
Qed.

Lemma header_interval start fin :
  in_u64 start -> in_u64 fin -> start <= fin ->
  parse (header (From start (Some fin))) = Some (From start (Some fin)).
Proof.
  intros Hs Hf Hle. pose proof Hs as [Hs0 _]. pose proof Hf as [Hf0 _].
  destruct (number_head start (lit "-" ++ to_string fin) Hs0) as (c & t & E & Hc).
  apply parse_body.
  - rewrite app_assoc. destruct (to_string start ++ lit "-") as [|d u] eqn:E';
      [by destruct (to_string start)|].
    apply trim_number_tail; [done|]. rewrite app_assoc, E' in E. by injection E as -> _.
  - by rewrite E.
  - rewrite !contains_char_app, !contains_number by done. done.
  - intros d u Eu. rewrite app_assoc in Eu. by eapply ends_in_number.
  - change (lit "-" ++ to_string fin) with (dash :: to_string fin).
    rewrite split_number_dash by done. cbn [mbind option_bind].
    rewrite !trim_number, !bool_decide_eq_false_2 by (try apply to_string_nonempty; lia).
    rewrite !parse_number_to_string by done. cbn [mbind option_bind].
    destruct (Z.ltb_spec fin start); [lia|done].
Qed.

Lemma header_open start :
  in_u64 start -> parse (header (From start None)) = Some (From start None).
Proof.
  intros Hs. pose proof Hs as [Hs0 _].
  destruct (number_head start (lit "-") Hs0) as (c & t & E & Hc).
  apply parse_body.
  - destruct (to_string start) as [|d u] eqn:E'; [by apply to_string_nonempty in E'|].
    simpl in E. injection E as -> _. by apply (trim_nonblank c u 45).
  - by rewrite E.
  - rewrite !contains_char_app, !contains_number by done. done.
  - intros d u Eu. apply app_inj_tail in Eu as [_ <-]. done.
  - change (lit "-") with (dash :: []). rewrite split_number_dash by done. cbn [mbind option_bind].
    rewrite trim_number, bool_decide_eq_false_2 by (try apply to_string_nonempty; lia).
    rewrite parse_number_to_string by done. done.
Qed.

Lemma header_suffix n : in_u64 n -> parse (header (Suffix n)) = Some (Suffix n).
Proof.
  intros Hn. pose proof Hn as [Hn0 _].
  change (header (Suffix n)) with (lit "bytes=" ++ (45 :: to_string n)).
  apply parse_body.
  - by apply (trim_number_tail 45 [] n).
  - done.
  - change (45 :: to_string n) with (lit "-" ++ to_string n).
    rewrite contains_char_app, contains_number by done. done.
  - intros d u Eu. by apply (ends_in_number [45] n d u).
  - assert (split_once dash (45 :: to_string n) = Some ([], to_string n)) as -> by done.
    cbn [mbind option_bind]. rewrite trim_number by done. simpl.
    by rewrite parse_number_to_string.
Qed.

(** A range is sent on in the form it came: printing a well-formed range and
    reading the header back gives the range, and whatever the parser accepts is
    well formed (its bounds fit 64 bits and are in order). *)
Theorem range_roundtrip :
  (forall r, wf_range r -> parse (header r) = Some r) /\ (forall v r, parse v = Some r -> wf_range r).
Proof.
  split; [|apply parse_wf]. intros [start [fin|]|n] Hwf; simpl in Hwf.
  - destruct Hwf as (? & ? & ?). by apply header_interval.
  - by apply header_open.
  - by apply header_suffix.
Qed.

(** The [Content-Range] of a slice reads back as the slice; a slice a range
    resolves to is well formed, its length is the number of bytes it covers (no
    wrap-around) and at most the object's size. *)
Theorem slice_roundtrip s (Hwf : wf_slice s) :
  Slice_parse (content_range s) = Some s /\
  Slice_len s = sl_end s - sl_start s + 1 /\ 1 <= Slice_len s <= sl_total s.
Proof.
  destruct s as [a b n]. destruct Hwf as (Ha & Hb & Hn). simpl in *.
  assert (in_u64 a /\ in_u64 b /\ in_u64 n) as (Ua & Ub & Un) by (unfold in_u64; lia).
  assert (Slice_len {| sl_start := a; sl_end := b; sl_total := n |} = b - a + 1) as Hlen.
  { unfold Slice_len. simpl. rewrite !wrap_u64_small by (unfold in_u64; rewrite ?wrap_u64_small;
      unfold in_u64 in *; lia). done. }
  split; [|rewrite Hlen; split_and!; [done|lia|lia]].
  unfold Slice_parse, content_range. cbn [sl_start sl_end sl_total].
  set (body := to_string a ++ lit "-" ++ to_string b ++ lit "/" ++ to_string n).
  assert (exists c t, body = c :: t /\ is_whitespace c = false) as (c & t & E & Hc)
    by (apply number_head; lia).
  assert (trim body = body) as Htrim.
  { apply trim_trimmed. split.
    - intros d u Eu. rewrite E in Eu. by injection Eu as -> _.
    - intros d u Eu. unfold body in Eu. rewrite !app_assoc in Eu.
      eapply ends_in_number; [|exact Eu]; lia. }
  assert (trim (lit "bytes " ++ body) = lit "bytes " ++ body) as ->.
  { unfold body. rewrite !app_assoc. apply (trim_number_tail 98); [lia|done]. }
  rewrite strip_unit_app. cbn [mbind option_bind]. rewrite Htrim.
  assert (split_once slash body = Some (to_string a ++ lit "-" ++ to_string b, to_string n)) as ->.
  { apply split_once_Some. unfold body. split; [by rewrite <- !app_assoc|].
    rewrite !not_elem_of_app. split_and!; [apply to_string_avoids; [lia|done]| |apply to_string_avoids; [lia|done]].
    vm_compute. set_solver. }
  cbn [mbind option_bind]. change (lit "-" ++ to_string b) with (dash :: to_string b).
  rewrite split_number_dash by (done || lia). cbn [mbind option_bind].
  rewrite !trim_number, !parse_number_to_string by (done || lia). cbn [mbind option_bind].
  destruct (Z.leb_spec a b); [|lia]. destruct (Z.ltb_spec b n); [done|lia].
Qed.

Lemma slice_roundtrip_witness :
  Slice_parse (lit "bytes 100-199/1000") = Some {| sl_start := 100; sl_end := 199; sl_total := 1000 |}.
Proof.
  apply (slice_roundtrip {| sl_start := 100; sl_end := 199; sl_total := 1000 |}).
  unfold wf_slice, u64_max. simpl. lia.
Defined.
