(* ===== verification/Breaker.v ===== *)
(** * Breaker: the egress circuit breakers ([utils/sc-transport/src/channel_health.rs]
    and [egress_health.rs]).

    [ChannelHealth] is the breaker of one process: four refusals in a row, or
    six stalls inside a window, open it for a minute; an answer closes it.
    [EgressHealth] adds the state shared between processes through a store, of
    which only the documented interface ([EgressHealthStore]) is used.  Atomics
    are read in program order; every method takes the clock reading it makes. *)

From Stdlib Require Import ZArith Lia String.
From stdpp Require Import base list numbers option tactics sets gmap.
From S2P Require Import Prelude.
Local Open Scope Z_scope.

Definition BAN_THRESHOLD : Z := 4.
Definition STALL_THRESHOLD : Z := 6.
Definition STALL_WINDOW_MS : Z := 30000.
Definition COOLDOWN_MS : Z := 60000.
Definition SHARED_REFRESH_MS : Z := 1000.

Inductive Trip := Steady | Opened | Closed.

Inductive RelayRead (T : Type) := Found (t : T) | Missing | Unavailable.
Arguments Found {T} t.
Arguments Missing {T}.
Arguments Unavailable {T}.

Definition is_unavailable {T} (r : RelayRead T) : bool :=
  match r with Unavailable => true | _ => false end.

(** ** One process *)

Record ChannelHealth := {
  consecutive_bans : Z;
  open_until_ms : Z;
  stalls : Z;
  stall_window_start_ms : Z }.

Definition ChannelHealth_default : ChannelHealth :=
  {| consecutive_bans := 0; open_until_ms := 0; stalls := 0; stall_window_start_ms := 0 |}.

Definition left_until (until now : Z) : option Z :=
  let remaining := wrap_i64 (until - now) in
  if 0 <? remaining then Some remaining else None.

Definition is_open (h : ChannelHealth) (now : Z) : bool := now <? open_until_ms h.

Definition open_for (h : ChannelHealth) (now : Z) : option Z := left_until (open_until_ms h) now.

Definition open (h : ChannelHealth) (now : Z) : Trip * ChannelHealth :=
  let h' := {| consecutive_bans := consecutive_bans h; open_until_ms := wrap_i64 (now + COOLDOWN_MS);
               stalls := stalls h; stall_window_start_ms := stall_window_start_ms h |} in
  (if now <? open_until_ms h then Steady else Opened, h').

Definition record_ok (h : ChannelHealth) (now : Z) : Trip * ChannelHealth :=
  let h' := {| consecutive_bans := 0; open_until_ms := 0; stalls := stalls h;
               stall_window_start_ms := stall_window_start_ms h |} in
  (if now <? open_until_ms h then Closed else Steady, h').

Definition record_ban (h : ChannelHealth) (now : Z) : Trip * ChannelHealth :=
  let seen := wrap_u32 (consecutive_bans h + 1) in
  let h := {| consecutive_bans := seen; open_until_ms := open_until_ms h; stalls := stalls h;
              stall_window_start_ms := stall_window_start_ms h |} in
  if seen <? BAN_THRESHOLD then (Steady, h) else open h now.

Definition record_stall_at (h : ChannelHealth) (now : Z) : Trip * ChannelHealth :=
  let h := if STALL_WINDOW_MS <? wrap_i64 (now - stall_window_start_ms h)
           then {| consecutive_bans := consecutive_bans h; open_until_ms := open_until_ms h;
                   stalls := 0; stall_window_start_ms := now |}
           else h in
  let seen := wrap_u32 (stalls h + 1) in
  let with_stalls n := {| consecutive_bans := consecutive_bans h; open_until_ms := open_until_ms h;
                          stalls := n; stall_window_start_ms := stall_window_start_ms h |} in
  if seen <? STALL_THRESHOLD then (Steady, with_stalls seen) else open (with_stalls 0) now.

Definition observe {T} (h : ChannelHealth) (read : RelayRead T) (now : Z) : Trip * ChannelHealth :=
  if is_unavailable read then record_ban h now else record_ok h now.

(** ** Shared between processes *)

Inductive EgressState := EClosed | EOpen (left_ms : Z) | EUnknown.

Inductive Published := PublishedOpen (cooldown_ms : Z) | PublishedClosed.

(** [store] tells whether a shared store is installed; [reads] counts the calls
    to [remaining]. *)
Record EgressHealth := {
  local : ChannelHealth;
  store : bool;
  shared_open_until_ms : Z;
  refreshed_at_ms : Z;
  reads : nat;
  published : list Published }.

Definition shared_is_open (e : EgressHealth) (now : Z) : bool := now <? shared_open_until_ms e.

Definition fresh_enough (e : EgressHealth) (now : Z) : bool :=
  wrap_i64 (now - refreshed_at_ms e) <? SHARED_REFRESH_MS.

(** [remote] is what the store answers; a call that outlives its budget counts
    as [EUnknown].  The mutex is free: concurrent callers return at once. *)
Definition refresh_shared (e : EgressHealth) (remote : EgressState) (now : Z) : EgressHealth :=
  if negb (store e) then e
  else if fresh_enough e now then e
  else
    {| local := local e; store := store e;
       shared_open_until_ms := match remote with
                               | EOpen left_ms => wrap_i64 (now + left_ms)
                               | EClosed => 0
                               | EUnknown => shared_open_until_ms e
                               end;
       refreshed_at_ms := now; reads := S (reads e); published := published e |}.

Definition egress_is_open (e : EgressHealth) (remote : EgressState) (now : Z) : bool * EgressHealth :=
  if is_open (local e) now then (true, e)
  else let e := refresh_shared e remote now in (shared_is_open e now, e).

Definition option_max (a b : option Z) : option Z :=
  match a, b with Some x, Some y => Some (Z.max x y) | Some x, None => Some x | None, b => b end.

Definition egress_open_for (e : EgressHealth) (remote : EgressState) (now : Z)
  : option Z * EgressHealth :=
  let e := refresh_shared e remote now in
  (option_max (open_for (local e) now) (left_until (shared_open_until_ms e) now), e).

Definition settle (e : EgressHealth) (t : Trip) (now : Z) : bool * EgressHealth :=
  let e :=
    if store e then
      match t with
      | Steady => e
      | Opened => {| local := local e; store := store e;
                     shared_open_until_ms := shared_open_until_ms e;
                     refreshed_at_ms := refreshed_at_ms e; reads := reads e;
                     published := PublishedOpen COOLDOWN_MS :: published e |}
      | Closed => {| local := local e; store := store e; shared_open_until_ms := 0;
                     refreshed_at_ms := now; reads := reads e;
                     published := PublishedClosed :: published e |}
      end
    else e in
  (is_open (local e) now || shared_is_open e now, e).

Definition with_local (e : EgressHealth) (h : ChannelHealth) : EgressHealth :=
  {| local := h; store := store e; shared_open_until_ms := shared_open_until_ms e;
     refreshed_at_ms := refreshed_at_ms e; reads := reads e; published := published e |}.

(** [observe], [record_ok], [record_ban] and [record_stall] of [EgressHealth]. *)
Definition egress_record (record : ChannelHealth -> Z -> Trip * ChannelHealth) (e : EgressHealth)
  (now : Z) : bool * EgressHealth :=
  let (t, h) := record (local e) now in settle (with_local e h) t now.

Definition record_answer (e : EgressHealth) (answered : bool) (now : Z) : bool * EgressHealth :=
  if answered then egress_record record_ok e now else egress_record record_ban e now.

(** ** The breaker as a state machine *)

Inductive event := EvOk | EvBan | EvStall.

Global Instance event_eq_dec : EqDecision event.
Proof. solve_decision. Defined.

Definition record (ev : event) : ChannelHealth -> Z -> Trip * ChannelHealth :=
  match ev with EvOk => record_ok | EvBan => record_ban | EvStall => record_stall_at end.

(** Clock readings that do not overflow with a cooldown added. *)
Definition clock (now : Z) : Prop := 0 <= now /\ now + COOLDOWN_MS <= i64_max.

(** [reach h s]: [s] is the breaker after the events [h] (latest first), with
    clock readings that never go back. *)
Inductive reach : list (Z * event) -> ChannelHealth -> Prop :=
| reach_nil : reach [] ChannelHealth_default
| reach_step h s now ev :
    reach h s -> clock now -> (forall t e, (t, e) ∈ h -> t <= now) ->
    reach ((now, ev) :: h) (record ev s now).2.

(** Refusals since the last answer, and the stalls no older than [since]. *)
Fixpoint bans_in_a_row (h : list (Z * event)) : nat :=
  match h with
  | [] => 0
  | (_, EvOk) :: _ => 0
  | (_, EvBan) :: h => S (bans_in_a_row h)
  | (_, EvStall) :: h => bans_in_a_row h
  end.

Definition stalls_since (since : Z) (h : list (Z * event)) : nat :=
  length (List.filter (fun te => bool_decide (te.2 = EvStall) && (since <=? te.1)) h).

(** ** Lemmas *)

Lemma wrap_open now : clock now -> wrap_i64 (now + COOLDOWN_MS) = now + COOLDOWN_MS.
Proof. intros [H1 H2]. apply wrap_i64_small. unfold in_i64, i64_min, i64_max, COOLDOWN_MS in *. lia. Qed.

Lemma open_opens h now : clock now -> is_open (open h now).2 now = true.
Proof.
  intros Hc. unfold is_open, open. simpl. rewrite wrap_open by done.
  apply Z.ltb_lt. unfold COOLDOWN_MS. lia.
Qed.

(** The report the openness before and after calls for. *)
Definition trip_of (before after : bool) : Trip :=
  match before, after with
  | false, true => Opened
  | true, false => Closed
  | _, _ => Steady
  end.

Lemma open_trip h now : clock now -> (open h now).1 = trip_of (is_open h now) true.
Proof. intros Hc. unfold open, is_open. simpl. by destruct (now <? open_until_ms h). Qed.

(** A report is the crossing, and an answer leaves the breaker closed. *)
Lemma record_trip ev h now (Hnow : clock now) :
  let (t, h') := record ev h now in
  t = trip_of (is_open h now) (is_open h' now) /\ (ev = EvOk -> is_open h' now = false).
Proof.
  destruct ev; unfold record.
  - unfold record_ok, is_open. simpl. destruct Hnow as [H0 _].
    destruct (Z.ltb_spec now 0); [lia|]. by destruct (now <? open_until_ms h).
  - unfold record_ban. destruct (_ <? BAN_THRESHOLD).
    + unfold is_open. simpl. by destruct (now <? open_until_ms h).
    + set (h1 := {| consecutive_bans := _ |}). pose proof (open_opens h1 now Hnow) as Ho.
      pose proof (open_trip h1 now Hnow) as Ht. destruct (open h1 now) as [t h']. simpl in *.
      rewrite Ho. split; [exact Ht|done].
  - unfold record_stall_at. set (h1 := if STALL_WINDOW_MS <? _ then _ else h).
    assert (open_until_ms h1 = open_until_ms h) as E1 by (unfold h1; by destruct (_ <? _)).
    destruct (_ <? STALL_THRESHOLD).
    + unfold is_open. simpl. rewrite E1. by destruct (now <? open_until_ms h).
    + set (h2 := {| consecutive_bans := _; stalls := 0 |}).
      pose proof (open_opens h2 now Hnow) as Ho. pose proof (open_trip h2 now Hnow) as Ht.
      destruct (open h2 now) as [t h']. simpl in *. rewrite Ho. split; [|done].
      rewrite Ht. unfold is_open. simpl. by rewrite E1.
Qed.

(** Every report is exactly the crossing: an event says [Opened] when the
    breaker was closed at that instant and is open after it, [Closed] the other
    way round and [Steady] otherwise, so an outage is announced to the shared
    store once and a recovery once, and nothing else is; an answer always leaves
    the process's breaker closed; what the caller is told is whether the local or
    the shared breaker is open. *)
Theorem egress_announces ev e now (Hnow : clock now) :
  let (told, e') := egress_record (record ev) e now in
  let trip := trip_of (is_open (local e) now) (is_open (local e') now) in
  trip = (record ev (local e) now).1 /\
  published e' = (match store e, trip with
                  | true, Opened => [PublishedOpen COOLDOWN_MS]
                  | true, Closed => [PublishedClosed]
                  | _, _ => []
                  end) ++ published e /\
  told = is_open (local e') now || shared_is_open e' now /\
  (ev = EvOk -> is_open (local e') now = false).
Proof.
  pose proof (record_trip ev (local e) now Hnow) as H. unfold egress_record.
  destruct (record ev (local e) now) as [t h']. destruct H as [Ht Hok]. unfold settle.
  destruct (store (with_local e h')) eqn:Es; simpl in Es; rewrite Es.
  - destruct t; simpl; rewrite <- Ht; auto.
  - simpl. rewrite <- Ht. by destruct t.
Qed.

Definition sample_egress : EgressHealth := {|
  local := {| consecutive_bans := 3; open_until_ms := 0; stalls := 0; stall_window_start_ms := 0 |};
  store := true; shared_open_until_ms := 0; refreshed_at_ms := 0; reads := 0; published := [] |}.

Lemma egress_announces_witness :
  published (egress_record (record EvBan) sample_egress 50).2 = [PublishedOpen COOLDOWN_MS].
Proof.
  pose proof (egress_announces EvBan sample_egress 50) as H.
  destruct (egress_record _ _ _) as [told e'] eqn:E. injection E as <- <-.
  apply H. unfold clock, COOLDOWN_MS, i64_max. lia.
Defined.

(** ** Thresholds *)

Record breaker_inv (h : list (Z * event)) (s : ChannelHealth) : Prop := {
  inv_bans : consecutive_bans s = Z.of_nat (bans_in_a_row h);
  inv_stalls : 0 <= stalls s < STALL_THRESHOLD;
  inv_window : (Z.to_nat (stalls s) <= stalls_since (stall_window_start_ms s) h)%nat;
  inv_start : stall_window_start_ms s = 0 \/ exists e, (stall_window_start_ms s, e) ∈ h }.

Lemma bans_in_a_row_length h : (bans_in_a_row h <= length h)%nat.
Proof. induction h as [|[t []] h IH]; simpl; lia. Qed.

Lemma stalls_since_mono a b h : a <= b -> (stalls_since b h <= stalls_since a h)%nat.
Proof.
  intros Hab. unfold stalls_since. induction h as [|[t e] h IH]; simpl; [lia|].
  destruct (bool_decide (e = EvStall)); simpl; [|lia].
  destruct (Z.leb_spec b t), (Z.leb_spec a t); simpl; lia.
Qed.

Lemma stalls_since_cons since t e h :
  stalls_since since ((t, e) :: h)
  = ((if bool_decide (e = EvStall) && (since <=? t)%Z then 1 else 0) + stalls_since since h)%nat.
Proof. unfold stalls_since. simpl. by destruct (_ && _). Qed.

Lemma wrap_u32_small z : 0 <= z < 4294967296 -> wrap_u32 z = z.
Proof. intros. by apply Z.mod_small. Qed.

(** The state a stall starts from. *)
Definition windowed (s : ChannelHealth) (now : Z) : ChannelHealth :=
  if STALL_WINDOW_MS <? wrap_i64 (now - stall_window_start_ms s)
  then {| consecutive_bans := consecutive_bans s; open_until_ms := open_until_ms s;
          stalls := 0; stall_window_start_ms := now |}
  else s.

Lemma start_past h s now :
  breaker_inv h s -> clock now -> (forall t e, (t, e) ∈ h -> t <= now) ->
  stall_window_start_ms s <= now.
Proof. intros Hi [Hc _] Hpast. destruct (inv_start h s Hi) as [->|[e He]]; [done|by eapply Hpast]. Qed.

Lemma windowed_inv h s now :
  breaker_inv h s -> clock now -> (forall t e, (t, e) ∈ h -> t <= now) ->
  let w := windowed s now in
  0 <= stalls w < STALL_THRESHOLD /\ stall_window_start_ms w <= now /\
  (stall_window_start_ms w = now \/ stall_window_start_ms w = 0 \/ exists e, (stall_window_start_ms w, e) ∈ h) /\
  (Z.to_nat (stalls w) <= stalls_since (stall_window_start_ms w) h)%nat /\
  (0 < stalls w -> in_i64 (now - stall_window_start_ms s) -> now - STALL_WINDOW_MS <= stall_window_start_ms w).
Proof.
  intros Hi Hc Hpast. pose proof (start_past h s now Hi Hc Hpast) as Hs. unfold windowed. cbv zeta.
  destruct (Z.ltb_spec STALL_WINDOW_MS (wrap_i64 (now - stall_window_start_ms s))) as [Hw|Hw].
  - cbn [stalls stall_window_start_ms]. split_and!; [lia|done|lia|auto|lia|lia].
  - destruct Hi as [_ H1 H2 H3]. split_and!; [lia|lia|done|tauto|done|].
    intros _ Hin. rewrite wrap_i64_small in Hw by done. unfold STALL_WINDOW_MS in *. lia.
Qed.

Lemma reach_times h s t e : reach h s -> (t, e) ∈ h -> 0 <= t.
Proof.
  induction 1 as [|h s now ev Hr IH Hc _]; intros Hin; [by apply elem_of_nil in Hin|].
  apply elem_of_cons in Hin as [[= -> ->]|Hin]; [apply Hc|auto].
Qed.

Lemma reach_inv h s :
  reach h s -> Z.of_nat (length h) < 4294967296 -> breaker_inv h s.
Proof.
  induction 1 as [|h s now ev Hr IH Hc Hpast]; intros Hlen.
  { constructor; simpl; [done|unfold STALL_THRESHOLD; lia|lia|by left]. }
  simpl in Hlen. specialize (IH ltac:(lia)). pose proof (bans_in_a_row_length h) as Hb.
  destruct ev; unfold record.
  - destruct IH as [I1 I2 I3 I4]. constructor; simpl; [done|done| |set_solver].
    by rewrite stalls_since_cons.
  - destruct IH as [I1 I2 I3 I4]. unfold record_ban.
    assert (wrap_u32 (consecutive_bans s + 1) = Z.of_nat (S (bans_in_a_row h))) as E.
    { rewrite wrap_u32_small; lia. }
    destruct (_ <? _); constructor; simpl; rewrite ?stalls_since_cons; try done; set_solver.
  - pose proof (windowed_inv h s now IH Hc Hpast) as (W1 & W2 & W3 & W4 & _).
    destruct IH as [I1 I2 I3 I4]. unfold record_stall_at. fold (windowed s now).
    assert (consecutive_bans (windowed s now) = consecutive_bans s) as E
      by (unfold windowed; by destruct (_ <? _)).
    assert (wrap_u32 (stalls (windowed s now) + 1) = stalls (windowed s now) + 1) as E2.
    { apply wrap_u32_small. unfold STALL_THRESHOLD in *. lia. }
    rewrite E2. destruct (Z.ltb_spec (stalls (windowed s now) + 1) STALL_THRESHOLD);
      constructor; simpl; rewrite ?stalls_since_cons, ?E; try done; try (unfold STALL_THRESHOLD; lia).
    1, 2: destruct (Z.leb_spec (stall_window_start_ms (windowed s now)) now); simpl; lia.
    all: destruct W3 as [->|[->|[e He]]]; [right; eexists; by left|by left|right; eexists; by right].
Qed.

(** What it takes to open the breaker: after any history of events, a refusal
    opens it only as at least the fourth refusal in a row with no answer in
    between, and a stall only when at least six stalls, it included, fall within
    the last thirty seconds; answers never open it.  Stalls spread wider and
    single refusals among answers never trip it. *)
Theorem breaker_opens_late h s now ev (Hreach : reach h s) (Hclock : clock now)
  (Hpast : forall t e, (t, e) ∈ h -> t <= now) (Hlen : Z.of_nat (length h) < 4294967295)
  (Hopened : (record ev s now).1 = Opened) :
  match ev with
  | EvOk => False
  | EvBan => (4 <= bans_in_a_row ((now, ev) :: h))%nat
  | EvStall => (6 <= stalls_since (now - STALL_WINDOW_MS) ((now, ev) :: h))%nat
  end.
Proof.
  pose proof (reach_inv h s Hreach ltac:(lia)) as Hi. pose proof (bans_in_a_row_length h).
  destruct ev; unfold record in Hopened.
  - unfold record_ok in Hopened. simpl in Hopened. by destruct (_ <? _).
  - unfold record_ban in Hopened. rewrite wrap_u32_small in Hopened by (rewrite (inv_bans h s Hi); lia).
    rewrite (inv_bans h s Hi) in Hopened. simpl.
    destruct (Z.ltb_spec (Z.of_nat (bans_in_a_row h) + 1) BAN_THRESHOLD); [done|].
    unfold BAN_THRESHOLD in *. lia.
  - pose proof (windowed_inv h s now Hi Hclock Hpast) as (W1 & W2 & _ & W4 & W5).
    pose proof (start_past h s now Hi Hclock Hpast) as Hs.
    unfold record_stall_at in Hopened. fold (windowed s now) in Hopened.
    rewrite wrap_u32_small in Hopened by (unfold STALL_THRESHOLD in *; lia).
    destruct (Z.ltb_spec (stalls (windowed s now) + 1) STALL_THRESHOLD) as [|Hge]; [done|].
    assert (now - STALL_WINDOW_MS <= stall_window_start_ms (windowed s now)) as Hwin.
    { apply W5; [unfold STALL_THRESHOLD in *; lia|].
      assert (0 <= stall_window_start_ms s \/ stall_window_start_ms s < 0) as [|] by lia.
      - destruct Hclock. unfold in_i64, i64_min, i64_max, COOLDOWN_MS in *. lia.
      - exfalso. destruct (inv_start h s Hi) as [|[e He]]; [lia|]. by eapply reach_times in He; [lia|]. }
    pose proof (stalls_since_mono _ _ h Hwin). rewrite stalls_since_cons.
    destruct (Z.leb_spec (now - STALL_WINDOW_MS) now); [|unfold STALL_WINDOW_MS in *; lia].
    simpl. unfold STALL_THRESHOLD in *. lia.
Qed.

Lemma breaker_opens_late_witness :
  (record EvBan {| consecutive_bans := 3; open_until_ms := 0; stalls := 0; stall_window_start_ms := 0 |} 40).1
    = Opened /\ (4 <= bans_in_a_row [(40%Z, EvBan); (30%Z, EvBan); (20%Z, EvBan); (10%Z, EvBan)])%nat.
Proof.
  split; [reflexivity|].
  assert (reach [(30, EvBan); (20, EvBan); (10, EvBan)]
    {| consecutive_bans := 3; open_until_ms := 0; stalls := 0; stall_window_start_ms := 0 |}) as Hr.
  { apply (reach_step [(20, EvBan); (10, EvBan)] {| consecutive_bans := 2; open_until_ms := 0;
      stalls := 0; stall_window_start_ms := 0 |} 30 EvBan).
    1: apply (reach_step [(10, EvBan)] {| consecutive_bans := 1; open_until_ms := 0;
      stalls := 0; stall_window_start_ms := 0 |} 20 EvBan).
    1: apply (reach_step [] ChannelHealth_default 10 EvBan); [constructor| |].
    all: try (unfold clock, COOLDOWN_MS, i64_max; lia).
    all: intros t e Hin; repeat (apply elem_of_cons in Hin as [[= -> _]|Hin]; [lia|]);
      by apply elem_of_nil in Hin. }
  apply (breaker_opens_late _ _ 40 EvBan Hr).
  - unfold clock, COOLDOWN_MS, i64_max. lia.
  - intros t e Hin. repeat (apply elem_of_cons in Hin as [[= -> _]|Hin]; [lia|]).
    by apply elem_of_nil in Hin.
  - simpl. lia.
  - reflexivity.
Defined.

(** ** The shared state *)

(** The shared breaker fails safe and is read at most once a second: a store
    that does not answer leaves the last known state; a caller within a second
    of a read sees the same state without another read; without a store the
    answer is the local breaker's and nothing is read. *)
Theorem shared_refresh e r1 r2 now1 now2
  (Htimes : 0 <= now1 <= now2) (Hsoon : now2 < now1 + SHARED_REFRESH_MS) (Hmax : now2 <= i64_max) :
  shared_open_until_ms (refresh_shared e EUnknown now1) = shared_open_until_ms e /\
  (reads (refresh_shared e r1 now1) = S (reads e) ->
     refresh_shared (refresh_shared e r1 now1) r2 now2 = refresh_shared e r1 now1) /\
  (store e = false -> refresh_shared e r1 now1 = e) /\
  (forall left_ms, store e = true -> fresh_enough e now1 = false -> clock now1 -> 0 < left_ms <= COOLDOWN_MS ->
     egress_is_open e (EOpen left_ms) now1 = (true, if is_open (local e) now1 then e
                                              else refresh_shared e (EOpen left_ms) now1)).
Proof.
  split_and!.
  - unfold refresh_shared. by destruct (store e), (fresh_enough e now1).
  - unfold refresh_shared at 1 3 4. destruct (store e) eqn:Es; simpl; [|lia].
    destruct (fresh_enough e now1) eqn:Ef; simpl; [lia|]. intros _.
    unfold refresh_shared at 1. simpl. unfold fresh_enough. simpl.
    rewrite wrap_i64_small by (unfold in_i64, i64_min, i64_max, SHARED_REFRESH_MS in *; lia).
    rewrite (proj2 (Z.ltb_lt _ _)) by lia. done.
  - unfold refresh_shared. by intros ->.
  - intros left_ms Hs Hf Hc Hl. unfold egress_is_open. destruct (is_open (local e) now1); [done|].
    f_equal. unfold shared_is_open, refresh_shared. rewrite Hs, Hf. simpl.
    destruct Hc. rewrite wrap_i64_small by (unfold in_i64, i64_min, i64_max, COOLDOWN_MS in *; lia).
    apply Z.ltb_lt. lia.
Qed.

Lemma shared_refresh_witness :
  refresh_shared (refresh_shared sample_egress (EOpen 500) 5000) EClosed 5999
  = refresh_shared sample_egress (EOpen 500) 5000.
Proof.
  destruct (shared_refresh sample_egress (EOpen 500) EClosed 5000 5999) as (_ & H & _);
    [lia|unfold SHARED_REFRESH_MS; lia|unfold i64_max; lia|].
  apply H. reflexivity.
Defined.
