(* ===== verification/StreamTicket.v ===== *)
(** * StreamTicket: sealed stream tickets ([utils/stream-ticket/src/lib.rs]).

    A ticket is the AEAD-sealed header (version, flags, expiry, session, secret
    length) and secret, bound to a track by the associated data.  Bytes are [Z]
    in [0, 255]; the track urn and the secret are their UTF-8 bytes, which is all
    the code reads of them; base64 text is a [str].  The cipher ([ring]) and the
    base64 codecs are parameters with the laws the code relies on. *)

From Stdlib Require Import ZArith Lia String.
From stdpp Require Import base list numbers option tactics sets gmap.
From S2P Require Import Prelude Text.
Local Open Scope Z_scope.

Definition VERSION : Z := 1.
Definition KEY_LEN : nat := 32.
Definition NONCE_LEN : nat := 12.
Definition TAG_LEN : nat := 16.
Definition HEADER_LEN : nat := 1 + 1 + 8 + 16 + 2.
Definition MAX_SECRET_LEN : nat := 1024.
Definition MAX_TICKET_LEN : Z := 2048.
Definition MAX_KEYS : nat := 4.
Definition MAX_LIFETIME : Z := 300.
Definition AAD_PREFIX : bytes := lit "scd-stream-ticket-v1" ++ [0].
Definition HIGH_QUALITY_FLAG : Z := 1.

Record StreamTicket := { session_id : bytes; secret_token : option bytes; high_quality : bool }.

Inductive StreamTicketError :=
| InvalidKey
| InvalidKeyRing
| SecretTooLong
| InvalidClock
| RandomUnavailable
| InvalidTicket
| Expired.

Abbreviation TicketResult A := (result A StreamTicketError).

(** ** Library code *)

Class Sealing := {
  Key : Type;
  (** [seal_in_place_append_tag], [open_in_place] of ChaCha20-Poly1305 *)
  seal : Key -> bytes -> bytes -> bytes -> option bytes;
  unseal : Key -> bytes -> bytes -> bytes -> option bytes;
  (** [UnboundKey::new] on 32 bytes *)
  key_of : bytes -> option Key;
  (** [URL_SAFE_NO_PAD], [STANDARD] *)
  b64url_encode : bytes -> str;
  b64url_decode : str -> option bytes;
  b64_decode : str -> option bytes;

  unseal_seal k n a p c : seal k n a p = Some c -> unseal k n a c = Some p;
  seal_unseal k n a p c : unseal k n a c = Some p -> seal k n a p = Some c;
  seal_length k n a p c : seal k n a p = Some c -> length c = (length p + TAG_LEN)%nat;
  b64url_roundtrip b : b64url_decode (b64url_encode b) = Some b;
  b64url_length b : 3 * str_len (b64url_encode b) <= 4 * Z.of_nat (length b) + 2
}.

(** ** Bytes *)

(** [std::str::from_utf8]: the table of well-formed sequences. *)
Definition between (lo hi x : Z) : bool := (lo <=? x) && (x <=? hi).

Definition utf8_step (b : bytes) : option bytes :=
  match b with
  | a :: r1 =>
      if between 0 127 a then Some r1 else
      match r1 with
      | x :: r2 =>
          if between 194 223 a then if between 128 191 x then Some r2 else None else
          match r2 with
          | y :: r3 =>
              if between 224 239 a then
                let lo := if a =? 224 then 160 else 128 in
                let hi := if a =? 237 then 159 else 191 in
                if between lo hi x && between 128 191 y then Some r3 else None
              else
                match r3 with
                | z :: r4 =>
                    if between 240 244 a then
                      let lo := if a =? 240 then 144 else 128 in
                      let hi := if a =? 244 then 143 else 191 in
                      if between lo hi x && between 128 191 y && between 128 191 z
                      then Some r4 else None
                    else None
                | [] => None
                end
          | [] => None
          end
      | [] => None
      end
  | [] => Some []
  end.

Fixpoint utf8_from (fuel : nat) (b : bytes) : bool :=
  match b, fuel with
  | [], _ => true
  | _, O => false
  | _, S fuel => match utf8_step b with Some rest => utf8_from fuel rest | None => false end
  end.

(** Each step consumes a byte, so the length is enough fuel. *)
Definition from_utf8 (b : bytes) : option bytes := if utf8_from (length b) b then Some b else None.

(** ** Tickets *)

(** [time.duration_since(UNIX_EPOCH)]: [None] before the epoch. *)
Definition unix_seconds (time : option Z) : TicketResult Z :=
  match time with Some s => Ok s | None => Err InvalidClock end.

Definition aad (track_urn : bytes) : bytes := AAD_PREFIX ++ track_urn.

Definition plaintext (session secret : bytes) (hq : bool) (expires_at : Z) : bytes :=
  let flags := (if hq then 1 else 0) * HIGH_QUALITY_FLAG in
  [VERSION; flags] ++ to_be_bytes 8 expires_at ++ session
  ++ to_be_bytes 2 (Z.of_nat (length secret)) ++ secret.

Definition parse_ticket (plain : bytes) (now : Z) : TicketResult StreamTicket :=
  if (length plain <? HEADER_LEN)%nat || negb (nth 0 plain 0 =? VERSION) then Err InvalidTicket else
  let flags := nth 1 plain 0 in
  if negb (Z.land flags (Z.lxor HIGH_QUALITY_FLAG 255) =? 0) then Err InvalidTicket else
  let expires_at := from_be_bytes (take 8 (drop 2 plain)) in
  if (expires_at <=? now) || (MAX_LIFETIME <? sat_sub_u64 expires_at now) then Err Expired else
  let session := take 16 (drop 10 plain) in
  let secret_len := Z.to_nat (from_be_bytes (take 2 (drop 26 plain))) in
  let secret := drop HEADER_LEN plain in
  if negb ((length secret =? secret_len)%nat && (length secret <=? MAX_SECRET_LEN)%nat)
  then Err InvalidTicket else
  let hq := negb (Z.land flags HIGH_QUALITY_FLAG =? 0) in
  match secret with
  | [] => Ok {| session_id := session; secret_token := None; high_quality := hq |}
  | _ =>
      match from_utf8 secret with
      | None => Err InvalidTicket
      | Some token => Ok {| session_id := session; secret_token := Some token; high_quality := hq |}
      end
  end.

Section tickets.
Context {sealing : Sealing}.

Definition from_base64 (encoded : str) : TicketResult Key :=
  let encoded := trim encoded in
  let decoded := match b64_decode encoded with
                 | Some b => Some b
                 | None => b64url_decode encoded
                 end in
  match decoded with
  | None => Err InvalidKey
  | Some b =>
      if negb (length b =? KEY_LEN)%nat then Err InvalidKey
      else match key_of b with Some k => Ok k | None => Err InvalidKey end
  end.

(** [nonce] is what the random generator filled in, [None] when it failed. *)
Definition issue_at (key : Key) (session track_urn : bytes) (secret_token : option bytes)
  (hq : bool) (ttl_secs : Z) (now : option Z) (nonce : option bytes) : TicketResult str :=
  let ttl := Z.min ttl_secs MAX_LIFETIME in
  match unix_seconds now with
  | Err e => Err e
  | Ok now =>
      let expires_at := now + ttl in
      if u64_max <? expires_at then Err InvalidClock else
      let secret := default [] secret_token in
      if u16_max <? Z.of_nat (length secret) then Err SecretTooLong else
      if (MAX_SECRET_LEN <? length secret)%nat then Err SecretTooLong else
      match nonce with
      | None => Err RandomUnavailable
      | Some nonce =>
          match seal key nonce (aad track_urn) (plaintext session secret hq expires_at) with
          | None => Err InvalidTicket
          | Some sealed => Ok (b64url_encode (nonce ++ sealed))
          end
      end
  end.

Definition verify_at (key : Key) (encoded : str) (track_urn : bytes) (now : option Z)
  : TicketResult StreamTicket :=
  if MAX_TICKET_LEN <? str_len encoded then Err InvalidTicket else
  match b64url_decode encoded with
  | None => Err InvalidTicket
  | Some ticket =>
      if (length ticket <? NONCE_LEN + HEADER_LEN + TAG_LEN)%nat then Err InvalidTicket else
      let nonce := take NONCE_LEN ticket in
      let encrypted := drop NONCE_LEN ticket in
      match unseal key nonce (aad track_urn) encrypted with
      | None => Err InvalidTicket
      | Some plain =>
          match unix_seconds now with
          | Err e => Err e
          | Ok now => parse_ticket plain now
          end
      end
  end.

Definition StreamTicketKeys_new (keys : list Key) : TicketResult (list Key) :=
  if bool_decide (length keys = 0%nat) || (MAX_KEYS <? length keys)%nat then Err InvalidKeyRing
  else Ok keys.

(** The keys in turn, each with the clock as it stands when that key is tried. *)
Fixpoint verify_from (keys : list Key) (last : StreamTicketError) (encoded : str)
  (track_urn : bytes) (clock : nat -> option Z) : TicketResult StreamTicket :=
  match keys with
  | [] => Err last
  | key :: keys =>
      match verify_at key encoded track_urn (clock O) with
      | Ok ticket => Ok ticket
      | Err Expired => Err Expired
      | Err InvalidClock => Err InvalidClock
      | Err error => verify_from keys error encoded track_urn (fun i => clock (S i))
      end
  end.

Definition keys_verify (keys : list Key) := verify_from keys InvalidTicket.
End tickets.

(** ** Lemmas *)

(** The fields of a plaintext, cut out as the parser does. *)
Section layout.
Variables (session secret : bytes) (hq : bool) (expires_at : Z).
Hypothesis Hsession : length session = 16%nat.

Let plain := plaintext session secret hq expires_at.

Lemma plain_length : length plain = (HEADER_LEN + length secret)%nat.
Proof.
  unfold plain, plaintext. rewrite !length_app, !to_be_bytes_length, Hsession. unfold HEADER_LEN. simpl. lia.
Qed.

Lemma plain_tail : drop 2 plain = to_be_bytes 8 expires_at ++ session
  ++ to_be_bytes 2 (Z.of_nat (length secret)) ++ secret.
Proof. reflexivity. Qed.

Lemma plain_expiry : take 8 (drop 2 plain) = to_be_bytes 8 expires_at.
Proof. rewrite plain_tail. apply take_app_length'. by rewrite to_be_bytes_length. Qed.

(** What follows the expiry. *)
Lemma plain_after k : drop (2 + (8 + k)) plain
  = drop k (session ++ to_be_bytes 2 (Z.of_nat (length secret)) ++ secret).
Proof.
  rewrite <- drop_drop, plain_tail, <- drop_drop.
  by rewrite (drop_app_length' (to_be_bytes 8 expires_at)) by by rewrite to_be_bytes_length.
Qed.

Lemma plain_session : take 16 (drop 10 plain) = session.
Proof. change (drop 10 plain) with (drop (2 + (8 + 0)) plain). rewrite plain_after. by apply take_app_length'. Qed.

Lemma plain_secret_len :
  take 2 (drop 26 plain) = to_be_bytes 2 (Z.of_nat (length secret)).
Proof.
  change (drop 26 plain) with (drop (2 + (8 + 16)) plain). rewrite plain_after, drop_app_length' by done. apply take_app_length'.
  by rewrite to_be_bytes_length.
Qed.

Lemma plain_secret : drop HEADER_LEN plain = secret.
Proof.
  change (drop HEADER_LEN plain) with (drop (2 + (8 + (16 + 2))) plain).
  rewrite plain_after, <- drop_drop, drop_app_length' by done.
  apply drop_app_length'. by rewrite to_be_bytes_length.
Qed.
End layout.

(** The ticket that a plaintext stands for. *)
Definition ticket_of (session secret : bytes) (hq : bool) : StreamTicket :=
  {| session_id := session; secret_token := match secret with [] => None | _ => Some secret end;
     high_quality := hq |}.

Lemma parse_plaintext session secret hq expires_at now :
  length session = 16%nat -> (length secret <= MAX_SECRET_LEN)%nat -> in_u64 expires_at ->
  from_utf8 secret = Some secret ->
  parse_ticket (plaintext session secret hq expires_at) now =
  if (expires_at <=? now) || (MAX_LIFETIME <? sat_sub_u64 expires_at now) then Err Expired
  else Ok (ticket_of session secret hq).
Proof.
  intros Hs Hl He Hu. unfold parse_ticket.
  rewrite plain_length, plain_expiry, plain_session, plain_secret_len, plain_secret by done.
  rewrite (proj2 (Nat.ltb_ge _ _)) by lia.
  assert (from_be_bytes (to_be_bytes 8 expires_at) = expires_at) as ->.
  { apply from_to_be_small. unfold in_u64, u64_max in He. simpl Z.of_nat. lia. }
  assert (from_be_bytes (to_be_bytes 2 (Z.of_nat (length secret))) = Z.of_nat (length secret)) as ->.
  { apply from_to_be_small. unfold MAX_SECRET_LEN in Hl. simpl Z.of_nat. lia. }
  cbn [plaintext app nth]. rewrite Z.eqb_refl. cbn [orb negb].
  assert (Z.land ((if hq then 1 else 0) * HIGH_QUALITY_FLAG) (Z.lxor HIGH_QUALITY_FLAG 255) =? 0 = true)
    as -> by by destruct hq.
  cbn [negb]. destruct (_ || _); [done|]. rewrite Nat2Z.id, Nat.eqb_refl, (proj2 (Nat.leb_le _ _) Hl).
  cbn [andb negb]. rewrite Hu. unfold ticket_of.
  destruct secret; by destruct hq.
Qed.

Section facts.
Context {sealing : Sealing}.

(** What a successful [issue_at] produced. *)
Lemma issue_Ok key session urn secret hq ttl now nonce encoded :
  issue_at key session urn secret hq ttl now nonce = Ok encoded ->
  exists t n c, now = Some t /\ nonce = Some n /\ t + Z.min ttl MAX_LIFETIME <= u64_max /\
    (length (default [] secret) <= MAX_SECRET_LEN)%nat /\
    seal key n (aad urn) (plaintext session (default [] secret) hq (t + Z.min ttl MAX_LIFETIME)) = Some c /\
    encoded = b64url_encode (n ++ c).
Proof.
  unfold issue_at. destruct now as [t|]; [|done]. simpl unix_seconds. cbv iota.
  destruct (Z.ltb_spec u64_max (t + Z.min ttl MAX_LIFETIME)); [done|].
  destruct (u16_max <? _); [done|].
  destruct (Nat.ltb_spec MAX_SECRET_LEN (length (default [] secret))); [done|].
  destruct nonce as [n|]; [|done]. destruct (seal _ _ _ _) as [c|] eqn:E; [|done].
  intros [= <-]. exists t, n, c. auto 10.
Qed.

(** Verification of a ticket sealed under the same key, nonce and data. *)
Lemma verify_sealed key n urn plain c now :
  length n = NONCE_LEN -> (HEADER_LEN <= length plain <= HEADER_LEN + MAX_SECRET_LEN)%nat ->
  seal key n (aad urn) plain = Some c ->
  verify_at key (b64url_encode (n ++ c)) urn now =
  match unix_seconds now with Err e => Err e | Ok now => parse_ticket plain now end.
Proof.
  intros Hn Hp Hc. pose proof (seal_length _ _ _ _ _ Hc) as Hlen.
  pose proof (b64url_length (n ++ c)) as Hb. rewrite length_app in Hb. unfold verify_at.
  unfold NONCE_LEN, HEADER_LEN, MAX_SECRET_LEN, TAG_LEN in *.
  destruct (Z.ltb_spec MAX_TICKET_LEN (str_len (b64url_encode (n ++ c)))) as [Hx|_].
  { unfold MAX_TICKET_LEN in Hx. lia. }
  rewrite b64url_roundtrip, length_app.
  destruct (Nat.ltb_spec (length n + length c) (12 + (1 + 1 + 8 + 16 + 2) + 16)); [lia|].
  rewrite take_app_length', drop_app_length' by done.
  by rewrite (unseal_seal _ _ _ _ _ Hc).
Qed.

(** A ticket that was issued is never [InvalidTicket] to its own key. *)
Lemma issued_verifies key session urn secret hq ttl t n encoded now :
  issue_at key session urn secret hq ttl (Some t) (Some n) = Ok encoded ->
  length session = 16%nat -> length n = NONCE_LEN ->
  from_utf8 (default [] secret) = Some (default [] secret) -> 0 <= ttl -> 0 <= t ->
  exists c,
    b64url_decode encoded = Some (n ++ c) /\ verify_at key encoded urn (Some now) =
    (let expires_at := t + Z.min ttl MAX_LIFETIME in
     if (now <? expires_at) && (expires_at - MAX_LIFETIME <=? now)
     then Ok (ticket_of session (default [] secret) hq) else Err Expired).
Proof.
  intros Hissue Hsession Hnonce Hutf8 Httl Ht.
  apply issue_Ok in Hissue as (t' & n' & c & [= <-] & [= <-] & Hmax & Hlen & Hc & ->).
  exists c. split; [apply b64url_roundtrip|].
  set (expires_at := t + Z.min ttl MAX_LIFETIME) in *. cbv zeta.
  rewrite (verify_sealed _ _ _ (plaintext session (default [] secret) hq expires_at));
    [|done|rewrite plain_length by done; unfold HEADER_LEN in *; lia|done].
  simpl. assert (in_u64 expires_at). { unfold in_u64, expires_at, MAX_LIFETIME in *. lia. }
  rewrite parse_plaintext by done. unfold sat_sub_u64.
  destruct (Z.leb_spec expires_at now), (Z.ltb_spec now expires_at); try lia; [done|]. simpl.
  destruct (Z.ltb_spec MAX_LIFETIME (Z.max 0 (expires_at - now))),
    (Z.leb_spec (expires_at - MAX_LIFETIME) now); try lia; done.
Qed.

(** C33: a ticket says what was issued, and expires.  Checked with the key and the track it was
    issued for, at any clock from its issue until its lifetime ends (the lifetime asked for, five
    minutes at most), it gives back the session, the quality and the secret, an empty secret as
    none.  After that it is [Expired].  A clock behind the issuer's accepts it too, but not more
    than five minutes before it expires: earlier than that it is [Expired] as well. *)
Theorem ticket_lifetime key session urn secret hq ttl t n encoded now
  (Hissue : issue_at key session urn secret hq ttl (Some t) (Some n) = Ok encoded)
  (Hsession : length session = 16%nat) (Hnonce : length n = NONCE_LEN)
  (Hutf8 : from_utf8 (default [] secret) = Some (default [] secret))
  (Httl : 0 <= ttl) (Ht : 0 <= t) :
  let expires_at := t + Z.min ttl 300 in
  let issued := {| session_id := session; high_quality := hq;
                   secret_token := match secret with Some [] | None => None | Some s => Some s end |} in
  (t <= now < expires_at -> verify_at key encoded urn (Some now) = Ok issued)
  /\ verify_at key encoded urn (Some now) =
     if (expires_at - 300 <=? now) && (now <? expires_at) then Ok issued else Err Expired.
Proof.
  destruct (issued_verifies _ _ _ _ _ _ _ _ _ now Hissue Hsession Hnonce Hutf8 Httl Ht)
    as (c & _ & Hv). cbv zeta in *. rewrite Hv, (andb_comm (_ <=? now)). unfold MAX_LIFETIME.
  assert (ticket_of session (default [] secret) hq = {| session_id := session; high_quality := hq;
            secret_token := match secret with Some [] | None => None | Some s => Some s end |}) as ->
    by (unfold ticket_of; by destruct secret as [[]|]).
  split; [|done]. intros Hnow. rewrite (proj2 (Z.ltb_lt _ _)), (proj2 (Z.leb_le _ _)) by lia. done.
Qed.

(** A ticket that verifies was sealed by this key for this track: what was
    decoded is a nonce and the sealing, under the track's associated data, of a
    version-1 plaintext that expires within the next five minutes; the
    associated data of two tracks differ, so a ticket for another track would
    have to be a forgery of the cipher. *)
Theorem verify_sound key encoded urn now ticket
  (Hverify : verify_at key encoded urn (Some now) = Ok ticket) :
  (exists n c plain, b64url_decode encoded = Some (n ++ c) /\ length n = NONCE_LEN /\
     seal key n (aad urn) plain = Some c /\ parse_ticket plain now = Ok ticket /\
     nth 0 plain 0 = VERSION /\
     now < from_be_bytes (take 8 (drop 2 plain)) <= now + MAX_LIFETIME) /\
  length (session_id ticket) = 16%nat /\
  (forall urn', aad urn' = aad urn -> urn' = urn).
Proof.
  unfold verify_at in Hverify. destruct (MAX_TICKET_LEN <? _); [done|].
  destruct (b64url_decode encoded) as [b|]; [|done].
  destruct (Nat.ltb_spec (length b) (NONCE_LEN + HEADER_LEN + TAG_LEN)) as [|Hlen]; [done|].
  destruct (unseal _ _ _ _) as [plain|] eqn:Hu; [|done]. simpl in Hverify.
  pose proof Hverify as Hp. unfold parse_ticket in Hp.
  destruct ((length plain <? HEADER_LEN)%nat || negb (nth 0 plain 0 =? VERSION)) eqn:E1; [done|]. bprop.
  destruct (negb _); [done|].
  destruct (_ || (MAX_LIFETIME <? _)) eqn:E2; [done|]. bprop.
  destruct (negb _); [done|]. split_and!.
  - exists (take NONCE_LEN b), (drop NONCE_LEN b), plain.
    rewrite take_drop, length_take. unfold NONCE_LEN, sat_sub_u64, MAX_LIFETIME in *.
    split_and!; [done|lia|by apply seal_unseal|done|done|lia|lia].
  - assert (session_id ticket = take 16 (drop 10 plain)) as ->.
    { destruct (drop HEADER_LEN plain); [by injection Hp as <-|].
      destruct (from_utf8 _); [by injection Hp as <-|done]. }
    rewrite length_take, length_drop. unfold HEADER_LEN in *. lia.
  - intros urn' E. unfold aad in E. by apply app_inv_head in E.
Qed.
(** A ticket that another key fails to open is [InvalidTicket] under that key. *)
Lemma verify_foreign k encoded urn now n c :
  b64url_decode encoded = Some (n ++ c) -> length n = NONCE_LEN ->
  unseal k n (aad urn) c = None -> verify_at k encoded urn now = Err InvalidTicket.
Proof.
  intros Hd Hn Hu. unfold verify_at. destruct (MAX_TICKET_LEN <? _); [done|]. rewrite Hd.
  destruct (_ <? _)%nat; [done|]. by rewrite take_app_length', drop_app_length', Hu by done.
Qed.

Lemma verify_from_skip before keys last encoded urn clock :
  (forall k now, k ∈ before -> verify_at k encoded urn now = Err InvalidTicket) ->
  verify_from (before ++ keys) last encoded urn clock =
  verify_from keys (if bool_decide (before = []) then last else InvalidTicket) encoded urn
    (fun i => clock (length before + i)%nat).
Proof.
  revert last clock. induction before as [|k before IH]; intros last clock Hb; [done|].
  cbn [app verify_from]. rewrite Hb by set_solver. rewrite IH by set_solver.
  rewrite (bool_decide_eq_false_2 (k :: before = [])) by done. by case_bool_decide.
Qed.

(** Rotation: a ring of one to four keys keeps honouring the tickets of any
    key in it, at any position, for exactly their lifetime, provided the keys
    before it do not open another key's sealing; the ring's answer is that of
    the issuing key. *)
Theorem ring_rotation before key after ring session urn secret hq ttl t n encoded clock now
  (Hring : StreamTicketKeys_new (before ++ key :: after) = Ok ring)
  (Hissue : issue_at key session urn secret hq ttl (Some t) (Some n) = Ok encoded)
  (Hauthentic : forall k m a p c, k ∈ before -> seal key m a p = Some c -> unseal k m a c = None)
  (Hsession : length session = 16%nat) (Hnonce : length n = NONCE_LEN)
  (Hutf8 : from_utf8 (default [] secret) = Some (default [] secret))
  (Httl : 0 <= ttl) (Ht : 0 <= t) (Hclock : clock (length before) = Some now) :
  (1 <= length ring <= MAX_KEYS)%nat /\ keys_verify ring encoded urn clock =
  (let expires_at := t + Z.min ttl MAX_LIFETIME in
   if (now <? expires_at) && (expires_at - MAX_LIFETIME <=? now)
   then Ok (ticket_of session (default [] secret) hq) else Err Expired).
Proof.
  destruct (issued_verifies _ _ _ _ _ _ _ _ _ now Hissue Hsession Hnonce Hutf8 Httl Ht)
    as (c & Hd & Hv).
  apply issue_Ok in Hissue as (t' & n' & c' & [= <-] & [= <-] & _ & _ & Hc & ->).
  rewrite b64url_roundtrip in Hd. injection Hd as Hcc. apply app_inv_head in Hcc as ->.
  unfold StreamTicketKeys_new in Hring. destruct (_ || _) eqn:E in Hring; [done|]. injection Hring as <-.
  split. { apply orb_false_iff in E as [_ E]. apply Nat.ltb_ge in E. rewrite length_app in *. simpl in *. lia. }
  unfold keys_verify. rewrite verify_from_skip.
  - cbn [verify_from]. rewrite Nat.add_0_r, Hclock, Hv. cbv zeta. by destruct (_ && _).
  - intros k now' Hk. eapply verify_foreign; [apply b64url_roundtrip|done|by eapply Hauthentic].
Qed.
End facts.

(** ** An instance *)

(** A cipher of the right shape: the tag is the key and a checksum of the nonce
    and the data; base64 is the identity on text. *)
Definition toy_tag (k : Z) (n a : bytes) : bytes :=
  [k; foldl Z.add 0 n; foldl (fun h x => h * 31 + x) 7 a] ++ replicate 13 0.

Definition toy_seal (k : Z) (n a p : bytes) : option bytes := Some (p ++ toy_tag k n a).

Definition toy_unseal (k : Z) (n a c : bytes) : option bytes :=
  let l := (length c - TAG_LEN)%nat in
  if bool_decide (drop l c = toy_tag k n a) then Some (take l c) else None.

Lemma toy_unseal_seal k n a p c : toy_seal k n a p = Some c -> toy_unseal k n a c = Some p.
Proof.
  intros [= <-]. unfold toy_unseal. rewrite length_app. change (length (toy_tag k n a)) with TAG_LEN.
  rewrite Nat.add_sub, drop_app_length, take_app_length. by rewrite bool_decide_eq_true_2.
Qed.

Lemma toy_seal_unseal k n a p c : toy_unseal k n a c = Some p -> toy_seal k n a p = Some c.
Proof.
  unfold toy_unseal, toy_seal. case_bool_decide as E; [|done]. intros [= <-].
  by rewrite <- E, take_drop.
Qed.

Lemma toy_seal_length k n a p c : toy_seal k n a p = Some c -> length c = (length p + TAG_LEN)%nat.
Proof. intros [= <-]. by rewrite length_app. Qed.

(** One one-byte character per byte. *)
Definition toy_char (x : Z) : Z := if 0 <=? x then - (2 * x) else 2 * x + 1.
Definition toy_byte (c : Z) : Z := if Z.even c then - (c / 2) else c / 2.

Lemma toy_byte_char x : toy_byte (toy_char x) = x.
Proof.
  unfold toy_byte, toy_char. destruct (Z.leb_spec 0 x).
  - rewrite Z.even_opp, Z.even_mul. simpl. replace (- (2 * x)) with ((- x) * 2) by lia.
    rewrite Z.div_mul by lia. lia.
  - rewrite Z.even_add, Z.even_mul. simpl. replace (2 * x + 1) with (1 + x * 2) by lia.
    rewrite Z.div_add by lia. change (1 / 2) with 0. lia.
Qed.

Lemma toy_decode_encode b : Some (map toy_byte (map toy_char b)) = Some b.
Proof. f_equal. rewrite map_map. induction b; simpl; [done|]. by rewrite toy_byte_char; f_equal. Qed.

Lemma toy_encode_length b : 3 * str_len (map toy_char b) <= 4 * Z.of_nat (length b) + 2.
Proof.
  induction b as [|x b IH]; [simpl; lia|]. cbn [map str_len length].
  assert (len_utf8 (toy_char x) = 1) as ->; [|lia]. unfold len_utf8, toy_char.
  destruct (Z.leb_spec 0 x); case_match eqn:E; bprop; lia.
Qed.

Definition toy_sealing : Sealing := {|
  Key := Z; seal := toy_seal; unseal := toy_unseal; key_of b := head b;
  b64url_encode := map toy_char; b64url_decode c := Some (map toy_byte c);
  b64_decode c := Some (map toy_byte c);
  unseal_seal := toy_unseal_seal; seal_unseal := toy_seal_unseal; seal_length := toy_seal_length;
  b64url_roundtrip := toy_decode_encode; b64url_length := toy_encode_length |}.

Definition toy_session : bytes := replicate 15 0 ++ [42].
Definition toy_nonce : bytes := replicate 12 9.
Definition toy_track : bytes := lit "soundcloud:tracks:7".
Definition toy_secret : option bytes := Some (lit "private").
Definition toy_ticket : str :=
  map toy_char (toy_nonce ++ plaintext toy_session (lit "private") true 1120
                ++ toy_tag 5 toy_nonce (aad toy_track)).

Lemma toy_issue :
  issue_at (sealing := toy_sealing) 5 toy_session toy_track toy_secret true 120 (Some 1000)
    (Some toy_nonce) = Ok toy_ticket.
Proof. vm_compute. reflexivity. Qed.

Lemma ticket_lifetime_witness :
  verify_at (sealing := toy_sealing) 5 toy_ticket toy_track (Some 1030)
  = Ok (ticket_of toy_session (lit "private") true).
Proof.
  exact (proj1 (ticket_lifetime (sealing := toy_sealing) 5 toy_session toy_track toy_secret true 120 1000
           toy_nonce toy_ticket 1030 toy_issue eq_refl eq_refl eq_refl ltac:(lia) ltac:(lia)) ltac:(lia)).
Defined.

Lemma verify_sound_witness :
  length (session_id (ticket_of toy_session (lit "private") true)) = 16%nat.
Proof.
  refine (proj1 (proj2 (verify_sound (sealing := toy_sealing) 5 toy_ticket toy_track 1030 _ _))).
  vm_compute. reflexivity.
Defined.

Lemma toy_authentic k m a p c :
  k ∈ [4] -> toy_seal 5 m a p = Some c -> toy_unseal k m a c = None.
Proof.
  intros Hk [= <-]. unfold toy_unseal. rewrite length_app. change (length (toy_tag 5 m a)) with TAG_LEN.
  rewrite Nat.add_sub, drop_app_length. case_bool_decide as E; [|done].
  apply list_elem_of_singleton in Hk as ->. discriminate E.
Qed.

Lemma ring_rotation_witness :
  keys_verify (sealing := toy_sealing) [4; 5] toy_ticket toy_track (fun i => Some (1119 + Z.of_nat i))
  = Err Expired.
Proof.
  exact (proj2 (ring_rotation (sealing := toy_sealing) [4] 5 [] [4; 5] toy_session toy_track toy_secret
    true 120 1000 toy_nonce toy_ticket (fun i => Some (1119 + Z.of_nat i)) 1120 eq_refl toy_issue
    toy_authentic eq_refl eq_refl eq_refl ltac:(lia) ltac:(lia) eq_refl)).
Defined.
