(* ===== verification/JobKind.v ===== *)
(** * JobKind: background job kinds and the lanes that run them
    ([backend-contracts/src/job.rs], [jobs/src/handlers/mod.rs]). *)

From Stdlib Require Import ZArith Lia String.
From stdpp Require Import base list numbers option tactics sets gmap.
From S2P Require Import Prelude Text.

Inductive JobLane := CoreFast | CoreBulk | Lookup | Maintenance | Ops.

#[export] Instance JobLane_eq_dec : EqDecision JobLane.
Proof. solve_decision. Defined.

Definition lane_as_str (l : JobLane) : str :=
  match l with
  | CoreFast => lit "core_fast"
  | CoreBulk => lit "core_bulk"
  | Lookup => lit "lookup"
  | Maintenance => lit "maintenance"
  | Ops => lit "ops"
  end.

Inductive JobKind :=
| AdminCatalogRenormalize
| AdminLyricsLookupQueue
| AdminMusicBrainzNames
| AdminWantedAliases
| ArtistAttributionRevalidate
| AuthCleanupLinkRequests
| AuthCleanupLoginRequests
| AuthCleanupRemoteLinks
| CollabBootstrap
| CollabTrain
| CatalogCreditReview
| CatalogRefresh
| CatalogCollection
| CatalogWorkReconcile
| CleanupJobReceipts
| DiagCleanup
| CrawlArtist
| DiscoverAccounts
| DiscoverAggregates
| DiscoverAlbumAggregates
| DiscoverArtistPopularity
| DiscoverArtistTags
| DiscoverCatalogGenius
| DiscoverCatalogMusicBrainz
| DiscoverInterest
| DispatchAudioIndex
| DispatchTranscription
| EnrichTracks
| IndexTrack
| IndexingReap
| IndexingRequeueStuck
| LyricsEmbed
| LyricsLookup
| LyricsLookupSweep
| LyricsReapEmbeddings
| LyricsReapTranscriptions
| OAuthAppsRefresh
| PlaylistLegacyDrain
| PlaylistObserveShadow
| PlaylistReconcileSweep
| RecommendationColike
| RecommendationQualityBackfill
| RecommendationQualityTrain
| RecommendationWavePriority
| RecordHardNegative
| ReplReplayDead
| ReplRetention
| ResolveDurations
| ResolveWantedTracks
| SearchTermsRefresh
| StarTrackTiers
| SubscriptionsSnapshot
| SweepHardNegatives
| SyncQueueFlush
| SyncQueueHeal.

Definition JobKind_ALL : list JobKind :=
  [AdminCatalogRenormalize; AdminLyricsLookupQueue; AdminMusicBrainzNames; AdminWantedAliases;
   ArtistAttributionRevalidate; AuthCleanupLinkRequests; AuthCleanupLoginRequests;
   AuthCleanupRemoteLinks; CollabBootstrap; CollabTrain; CatalogCreditReview; CatalogRefresh;
   CatalogCollection; CatalogWorkReconcile; CleanupJobReceipts; DiagCleanup; CrawlArtist;
   DiscoverAccounts; DiscoverAggregates; DiscoverAlbumAggregates; DiscoverArtistPopularity;
   DiscoverArtistTags; DiscoverCatalogGenius; DiscoverCatalogMusicBrainz; DiscoverInterest;
   DispatchAudioIndex; DispatchTranscription; EnrichTracks; IndexTrack; IndexingReap;
   IndexingRequeueStuck; LyricsEmbed; LyricsLookup; LyricsLookupSweep; LyricsReapEmbeddings;
   LyricsReapTranscriptions; OAuthAppsRefresh; PlaylistLegacyDrain; PlaylistObserveShadow;
   PlaylistReconcileSweep; RecommendationColike; RecommendationQualityBackfill;
   RecommendationQualityTrain; RecommendationWavePriority; RecordHardNegative; ReplReplayDead;
   ReplRetention; ResolveDurations; ResolveWantedTracks; SearchTermsRefresh; StarTrackTiers;
   SubscriptionsSnapshot; SweepHardNegatives; SyncQueueFlush; SyncQueueHeal].

Definition as_str (k : JobKind) : str :=
  match k with
  | AdminCatalogRenormalize => lit "admin.renormalize_catalog"
  | AdminLyricsLookupQueue => lit "admin.lyrics_lookup_queue"
  | AdminMusicBrainzNames => lit "admin.reconcile_musicbrainz_names"
  | AdminWantedAliases => lit "admin.wanted_aliases"
  | ArtistAttributionRevalidate => lit "enrich.revalidate_attribution"
  | AuthCleanupLinkRequests => lit "auth.cleanup_link_requests"
  | AuthCleanupLoginRequests => lit "auth.cleanup_login_requests"
  | AuthCleanupRemoteLinks => lit "auth.cleanup_remote_links"
  | CollabBootstrap => lit "collab.bootstrap"
  | CollabTrain => lit "collab.train"
  | CatalogCreditReview => lit "catalog.review_credits"
  | CatalogRefresh => lit "catalog.refresh"
  | CatalogCollection => lit "catalog.collection"
  | CatalogWorkReconcile => lit "catalog.reconcile_works"
  | DiagCleanup => lit "diag.cleanup"
  | CleanupJobReceipts => lit "jobs.cleanup_receipts"
  | CrawlArtist => lit "crawl.artist"
  | DiscoverAccounts => lit "discover.accounts"
  | DiscoverAggregates => lit "discover.aggregates"
  | DiscoverAlbumAggregates => lit "discover.album_aggregates"
  | DiscoverArtistPopularity => lit "discover.artist_popularity"
  | DiscoverArtistTags => lit "discover.artist_tags"
  | DiscoverCatalogGenius => lit "discover.catalog_genius"
  | DiscoverCatalogMusicBrainz => lit "discover.catalog_musicbrainz"
  | DiscoverInterest => lit "discover.interest"
  | DispatchAudioIndex => lit "indexing.dispatch_audio"
  | DispatchTranscription => lit "lyrics.dispatch_transcription"
  | EnrichTracks => lit "enrich.tracks"
  | IndexTrack => lit "indexing.track"
  | IndexingReap => lit "indexing.reap"
  | IndexingRequeueStuck => lit "indexing.requeue_stuck"
  | LyricsEmbed => lit "lyrics.embed"
  | LyricsLookup => lit "lyrics.lookup"
  | LyricsLookupSweep => lit "lyrics.lookup_sweep"
  | LyricsReapEmbeddings => lit "lyrics.reap_embeddings"
  | LyricsReapTranscriptions => lit "lyrics.reap_transcriptions"
  | OAuthAppsRefresh => lit "oauth_apps.refresh"
  | PlaylistLegacyDrain => lit "playlists.legacy_drain"
  | PlaylistObserveShadow => lit "playlists.observe_shadow"
  | PlaylistReconcileSweep => lit "playlists.reconcile_sweep"
  | RecommendationColike => lit "recommendations.colike"
  | RecommendationQualityBackfill => lit "recommendations.quality_backfill"
  | RecommendationQualityTrain => lit "recommendations.quality_train"
  | RecommendationWavePriority => lit "recommendations.wave_priority"
  | RecordHardNegative => lit "telemetry.hard_negative"
  | ReplReplayDead => lit "repl.replay_dead"
  | ReplRetention => lit "repl.retention"
  | ResolveDurations => lit "indexing.resolve_durations"
  | ResolveWantedTracks => lit "enrich.resolve_wanted"
  | SearchTermsRefresh => lit "search.refresh_terms"
  | StarTrackTiers => lit "star.refresh_track_tiers"
  | SubscriptionsSnapshot => lit "subscriptions.snapshot"
  | SweepHardNegatives => lit "telemetry.sweep_hard_negatives"
  | SyncQueueFlush => lit "sync_queue.flush"
  | SyncQueueHeal => lit "sync_queue.heal"
  end.

Definition lane (k : JobKind) : JobLane :=
  match k with
  | AuthCleanupLinkRequests | AuthCleanupLoginRequests | AuthCleanupRemoteLinks
  | CleanupJobReceipts | DiagCleanup | DispatchAudioIndex | DispatchTranscription | LyricsEmbed
  | OAuthAppsRefresh | ReplReplayDead | SyncQueueFlush | SyncQueueHeal => CoreFast
  | RecordHardNegative | SearchTermsRefresh | SweepHardNegatives => Ops
  | ArtistAttributionRevalidate | CatalogCreditReview | CatalogWorkReconcile | CollabBootstrap
  | CollabTrain | DiscoverAccounts | DiscoverAggregates | DiscoverAlbumAggregates
  | DiscoverArtistPopularity | DiscoverArtistTags | DiscoverCatalogGenius
  | DiscoverCatalogMusicBrainz | DiscoverInterest | EnrichTracks | IndexingReap
  | IndexingRequeueStuck | LyricsReapEmbeddings | LyricsReapTranscriptions
  | PlaylistLegacyDrain | PlaylistReconcileSweep | RecommendationColike
  | RecommendationQualityBackfill | RecommendationQualityTrain | RecommendationWavePriority
  | ReplRetention | ResolveDurations | ResolveWantedTracks | StarTrackTiers
  | SubscriptionsSnapshot => Maintenance
  | AdminCatalogRenormalize | AdminLyricsLookupQueue | AdminMusicBrainzNames
  | AdminWantedAliases | CatalogRefresh | CatalogCollection | CrawlArtist | IndexTrack
  | PlaylistObserveShadow => CoreBulk
  | LyricsLookup | LyricsLookupSweep => Lookup
  end.

(** The arms of [from_str], tried in order. *)
Definition from_str_arms : list (str * JobKind) :=
  [(lit "admin.renormalize_catalog", AdminCatalogRenormalize);
   (lit "admin.lyrics_lookup_queue", AdminLyricsLookupQueue);
   (lit "admin.reconcile_musicbrainz_names", AdminMusicBrainzNames);
   (lit "admin.wanted_aliases", AdminWantedAliases);
   (lit "enrich.revalidate_attribution", ArtistAttributionRevalidate);
   (lit "auth.cleanup_link_requests", AuthCleanupLinkRequests);
   (lit "auth.cleanup_login_requests", AuthCleanupLoginRequests);
   (lit "auth.cleanup_remote_links", AuthCleanupRemoteLinks);
   (lit "collab.bootstrap", CollabBootstrap);
   (lit "collab.train", CollabTrain);
   (lit "catalog.review_credits", CatalogCreditReview);
   (lit "catalog.refresh", CatalogRefresh);
   (lit "catalog.collection", CatalogCollection);
   (lit "catalog.reconcile_works", CatalogWorkReconcile);
   (lit "jobs.cleanup_receipts", CleanupJobReceipts);
   (lit "diag.cleanup", DiagCleanup);
   (lit "crawl.artist", CrawlArtist);
   (lit "discover.accounts", DiscoverAccounts);
   (lit "discover.aggregates", DiscoverAggregates);
   (lit "discover.album_aggregates", DiscoverAlbumAggregates);
   (lit "discover.artist_popularity", DiscoverArtistPopularity);
   (lit "discover.artist_tags", DiscoverArtistTags);
   (lit "discover.catalog_genius", DiscoverCatalogGenius);
   (lit "discover.catalog_musicbrainz", DiscoverCatalogMusicBrainz);
   (lit "discover.interest", DiscoverInterest);
   (lit "indexing.dispatch_audio", DispatchAudioIndex);
   (lit "lyrics.dispatch_transcription", DispatchTranscription);
   (lit "enrich.tracks", EnrichTracks);
   (lit "indexing.track", IndexTrack);
   (lit "indexing.reap", IndexingReap);
   (lit "indexing.requeue_stuck", IndexingRequeueStuck);
   (lit "lyrics.embed", LyricsEmbed);
   (lit "lyrics.lookup", LyricsLookup);
   (lit "lyrics.lookup_sweep", LyricsLookupSweep);
   (lit "lyrics.reap_embeddings", LyricsReapEmbeddings);
   (lit "lyrics.reap_transcriptions", LyricsReapTranscriptions);
   (lit "oauth_apps.refresh", OAuthAppsRefresh);
   (lit "playlists.legacy_drain", PlaylistLegacyDrain);
   (lit "playlists.observe_shadow", PlaylistObserveShadow);
   (lit "playlists.reconcile_sweep", PlaylistReconcileSweep);
   (lit "recommendations.colike", RecommendationColike);
   (lit "recommendations.quality_backfill", RecommendationQualityBackfill);
   (lit "recommendations.quality_train", RecommendationQualityTrain);
   (lit "recommendations.wave_priority", RecommendationWavePriority);
   (lit "telemetry.hard_negative", RecordHardNegative);
   (lit "repl.replay_dead", ReplReplayDead);
   (lit "repl.retention", ReplRetention);
   (lit "indexing.resolve_durations", ResolveDurations);
   (lit "enrich.resolve_wanted", ResolveWantedTracks);
   (lit "search.refresh_terms", SearchTermsRefresh);
   (lit "star.refresh_track_tiers", StarTrackTiers);
   (lit "subscriptions.snapshot", SubscriptionsSnapshot);
   (lit "telemetry.sweep_hard_negatives", SweepHardNegatives);
   (lit "sync_queue.flush", SyncQueueFlush);
   (lit "sync_queue.heal", SyncQueueHeal)].

Fixpoint first_arm (arms : list (str * JobKind)) (value : str) : option JobKind :=
  match arms with
  | [] => None
  | (s, k) :: arms => if decide (value = s) then Some k else first_arm arms value
  end.

(** [FromStr]: [None] is [UnknownJobKind]. *)
Definition from_str (value : str) : option JobKind := first_arm from_str_arms value.

(** The kinds each lane's worker executes. *)
Definition CORE_FAST_KINDS : list JobKind :=
  [AuthCleanupLinkRequests; AuthCleanupLoginRequests; AuthCleanupRemoteLinks;
   CleanupJobReceipts; DiagCleanup; DispatchAudioIndex; DispatchTranscription; LyricsEmbed;
   OAuthAppsRefresh; ReplReplayDead; SyncQueueFlush; SyncQueueHeal].

Definition CORE_BULK_KINDS : list JobKind :=
  [AdminCatalogRenormalize; AdminLyricsLookupQueue; AdminMusicBrainzNames; AdminWantedAliases;
   CatalogRefresh; CatalogCollection; CrawlArtist; IndexTrack; PlaylistObserveShadow].

Definition LOOKUP_KINDS : list JobKind :=
  [LyricsLookup; LyricsLookupSweep].

Definition MAINTENANCE_KINDS : list JobKind :=
  [ArtistAttributionRevalidate; CatalogCreditReview; CatalogWorkReconcile; CollabBootstrap;
   CollabTrain; DiscoverAccounts; DiscoverAggregates; DiscoverAlbumAggregates;
   DiscoverArtistPopularity; DiscoverArtistTags; DiscoverCatalogGenius;
   DiscoverCatalogMusicBrainz; DiscoverInterest; EnrichTracks; IndexingReap;
   IndexingRequeueStuck; LyricsReapEmbeddings; LyricsReapTranscriptions; PlaylistLegacyDrain;
   PlaylistReconcileSweep; RecommendationColike; RecommendationQualityBackfill;
   RecommendationQualityTrain; RecommendationWavePriority; ReplRetention; ResolveDurations;
   ResolveWantedTracks; StarTrackTiers; SubscriptionsSnapshot].

Definition OPS_KINDS : list JobKind :=
  [RecordHardNegative; SearchTermsRefresh; SweepHardNegatives].

Definition lane_kinds (l : JobLane) : list JobKind :=
  match l with
  | CoreFast => CORE_FAST_KINDS
  | CoreBulk => CORE_BULK_KINDS
  | Lookup => LOOKUP_KINDS
  | Maintenance => MAINTENANCE_KINDS
  | Ops => OPS_KINDS
  end.

(** ** Lemmas *)

Lemma from_str_as_str k : from_str (as_str k) = Some k.
Proof. destruct k; vm_compute; reflexivity. Qed.

Lemma first_arm_elem arms value k : first_arm arms value = Some k -> (value, k) ∈ arms.
Proof.
  induction arms as [|[s k'] arms IH]; [done|]. simpl. case_decide as E; intros H; simplify_eq; set_solver.
Qed.

Lemma arms_as_str : Forall (fun a : str * JobKind => as_str a.2 = a.1) from_str_arms.
Proof. vm_compute. repeat constructor. Qed.

Lemma from_str_sound value k : from_str value = Some k -> as_str k = value.
Proof.
  intros H%first_arm_elem. pose proof arms_as_str as F. rewrite Forall_forall in F. exact (F _ H).
Qed.

#[export] Instance as_str_inj : Inj (=) (=) as_str.
Proof.
  intros a b E. assert (Some a = Some b) as [=]; [|done]. by rewrite <- !from_str_as_str, E.
Qed.

#[export] Instance JobKind_eq_dec : EqDecision JobKind.
Proof.
  intros a b. destruct (decide (as_str a = as_str b)) as [E|E].
  - left. by apply (inj as_str).
  - right. intros ->. done.
Defined.

Lemma lane_kinds_lane l : Forall (fun k => lane k = l) (lane_kinds l).
Proof. destruct l; apply (bool_decide_unpack _); vm_compute; exact I. Qed.

(** The wire name of a job kind parses back to that kind and no other text
    parses at all: [from_str] is exactly the inverse of [as_str], so two kinds
    never share a name; [ALL] lists every kind once. *)
Theorem kind_names_exact :
  (forall value k, from_str value = Some k <-> as_str k = value) /\
  (forall k, k ∈ JobKind_ALL) /\ NoDup JobKind_ALL.
Proof.
  split_and!.
  - intros value k. split; [apply from_str_sound|]. intros <-. apply from_str_as_str.
  - intros k. destruct k; apply (bool_decide_unpack _); vm_compute; exact I.
  - apply (bool_decide_unpack _). vm_compute. exact I.
Qed.

(** Each kind is executed by exactly one lane's worker, the lane it is
    enqueued under, and a worker's kind list is never of mixed lanes. *)
Theorem kind_runs_in_its_lane k l :
  k ∈ lane_kinds l <-> lane k = l.
Proof.
  split.
  - intros H. pose proof lane_kinds_lane as F. destruct l;
      exact (proj1 (Forall_forall _ _) (F _) _ H).
  - intros <-. destruct k; apply (bool_decide_unpack _); vm_compute; exact I.
Qed.
