(* ===== verification/JobQueue.v ===== *)
(** * JobQueue: the leased background job queue
    ([jobs/src/queue/repository.rs] and [repository/], with the SQL of
    [jobs/queries/queue/], the statements of other handlers on its tables, and the
    constraints of migration 0057).

    The three tables are finite maps; a statement is one atomic step on them that
    the database rolls back when a constraint fails.  Timestamps are unbounded
    microseconds, [now] is the statement's clock, a duration is its whole
    milliseconds.  [updated_at] is written everywhere and read nowhere and is
    left out.  [SKIP LOCKED] and the random lease ids are arguments. *)

From Stdlib Require Import ZArith Lia String.
From stdpp Require Import base list numbers option tactics sets gmap.
From S2P Require Import Prelude Text JobKind.
Local Open Scope Z_scope.

(** A [jsonb] payload, and whether the size constraint admits it. *)
Class Payloads := { Value : Type; payload_fits : Value -> bool }.

Inductive QueueError := Database | UnknownKind | BatchTooLarge | MixedLanes | InvalidDedupKey.

Inductive ClaimOrder := Priority | Oldest | Kind (kind : JobKind).

Inductive Completion := Completed | Superseded | LostLease.

Definition MAX_DEDUP_KEY_LENGTH : Z := 1024.
Definition MAX_ERROR_LENGTH : nat := 2000.

Section tables.
Context {payloads : Payloads}.

Record JobRow := {
  row_kind : str;
  row_lane : str;
  row_dedup_key : option str;
  row_payload : Value;
  row_priority : Z;
  row_generation : Z;
  row_attempts : Z;
  row_max_attempts : Z;
  row_available_at : Z;
  row_lease_id : option Z;
  row_lease_generation : option Z;
  row_leased_by : option str;
  row_lease_expires_at : option Z;
  row_last_error : option str;
  row_created_at : Z
}.

Record Failure := {
  failed_kind : str;
  failed_lane : str;
  failed_dedup_key : option str;
  failed_payload : Value;
  failed_priority : Z;
  failed_attempts : Z;
  failed_max_attempts : Z;
  failed_error : str;
  failed_created_at : Z;
  failed_at : Z
}.

(** [background_jobs], [background_job_enqueues], [background_job_failures]. *)
Record Queue := {
  jobs : gmap Z JobRow;
  enqueues : gset Z;
  failures : gmap (Z * Z) Failure
}.

Definition with_jobs (f : gmap Z JobRow -> gmap Z JobRow) (q : Queue) : Queue :=
  {| jobs := f (jobs q); enqueues := enqueues q; failures := failures q |}.

(** ** Constraints *)

Definition dedup_ok (d : option str) : bool :=
  match d with Some s => (1 <=? str_len s) && (str_len s <=? 1024) | None => true end.

Definition lane_ok (l : str) : bool := bool_decide (l ∈ map lane_as_str [CoreFast; CoreBulk; Lookup; Maintenance; Ops]).

Definition lease_complete (r : JobRow) : bool :=
  match row_lease_id r, row_lease_generation r, row_leased_by r, row_lease_expires_at r with
  | None, None, None, None => true
  | Some _, Some g, Some _, Some _ => (1 <=? g) && (g <=? row_generation r)
  | _, _, _, _ => false
  end.

Definition row_ok (r : JobRow) : bool :=
  (0 <? row_generation r) && (row_generation r <=? i64_max) && lane_ok (row_lane r)
  && (0 <? row_max_attempts r) && (0 <=? row_attempts r) && (row_attempts r <=? row_max_attempts r)
  && dedup_ok (row_dedup_key r) && payload_fits (row_payload r) && lease_complete r.

Definition failure_ok (f : Failure) : bool :=
  lane_ok (failed_lane f) && (0 <? failed_max_attempts f)
  && (1 <=? failed_attempts f) && (failed_attempts f <=? failed_max_attempts f)
  && dedup_ok (failed_dedup_key f) && payload_fits (failed_payload f).

(** Two rows a unique index keeps apart. *)
Definition same_key (r r' : JobRow) : bool :=
  bool_decide (row_kind r = row_kind r') && bool_decide (row_dedup_key r = row_dedup_key r')
  && bool_decide (row_dedup_key r <> None).

Definition same_lease (r r' : JobRow) : bool :=
  bool_decide (row_lease_id r = row_lease_id r') && bool_decide (row_lease_id r <> None).

Definition rows_apart (t : gmap Z JobRow) : Prop :=
  map_Forall (fun i r => map_Forall (fun j r' =>
    i = j \/ same_key r r' = false /\ same_lease r r' = false) t) t.

Definition queue_ok (q : Queue) : bool :=
  bool_decide (map_Forall (fun _ r => row_ok r = true) (jobs q)) && bool_decide (rows_apart (jobs q))
  && bool_decide (map_Forall (fun _ f => failure_ok f = true) (failures q)).

(** ** Statements *)

(** One statement: what it would leave and report, kept if the constraints hold. *)
Definition statement {A} (f : Queue -> Queue * A) : ST Queue QueueError A := fun q =>
  let '(q', a) := f q in if queue_ok q' then (Ok a, q') else (Err Database, q).

Definition update_where (p : Z -> JobRow -> bool) (f : Z -> JobRow -> JobRow) (t : gmap Z JobRow) :=
  map_imap (fun i r => Some (if p i r then f i r else r)) t.

Definition delete_where (p : Z -> JobRow -> bool) (t : gmap Z JobRow) :=
  map_imap (fun i r => if p i r then None else Some r) t.

Definition select_where (p : Z -> JobRow -> bool) (t : gmap Z JobRow) : list (Z * JobRow) :=
  List.filter (fun e => p e.1 e.2) (map_to_list t).

Definition rows_affected (p : Z -> JobRow -> bool) (t : gmap Z JobRow) : nat := length (select_where p t).

Definition update_statement p f : ST Queue QueueError nat :=
  statement (fun q => (with_jobs (update_where p f) q, rows_affected p (jobs q))).

(** [ORDER BY] on columns that compare as integers. *)
Fixpoint lex_le (a b : list Z) : bool :=
  match a, b with
  | x :: a, y :: b => (x <? y) || ((x =? y) && lex_le a b)
  | [], _ => true
  | _ :: _, [] => false
  end.

Definition order_by (key : Z * JobRow -> list Z) (l : list (Z * JobRow)) : list (Z * JobRow) :=
  sort_by (fun a b => lex_le (key a) (key b)) l.

Definition set_lease (id gen : option Z) (by' : option str) (expires : option Z) (r : JobRow) : JobRow :=
  {| row_kind := row_kind r; row_lane := row_lane r; row_dedup_key := row_dedup_key r;
     row_payload := row_payload r; row_priority := row_priority r;
     row_generation := row_generation r; row_attempts := row_attempts r;
     row_max_attempts := row_max_attempts r; row_available_at := row_available_at r;
     row_lease_id := id; row_lease_generation := gen; row_leased_by := by';
     row_lease_expires_at := expires; row_last_error := row_last_error r;
     row_created_at := row_created_at r |}.

Definition set_lane (l : str) (r : JobRow) : JobRow :=
  {| row_kind := row_kind r; row_lane := l; row_dedup_key := row_dedup_key r;
     row_payload := row_payload r; row_priority := row_priority r;
     row_generation := row_generation r; row_attempts := row_attempts r;
     row_max_attempts := row_max_attempts r; row_available_at := row_available_at r;
     row_lease_id := row_lease_id r; row_lease_generation := row_lease_generation r;
     row_leased_by := row_leased_by r; row_lease_expires_at := row_lease_expires_at r;
     row_last_error := row_last_error r; row_created_at := row_created_at r |}.

(** [attempts], [available_at] and [last_error]. *)
Definition set_turn (attempts available_at : Z) (error : option str) (r : JobRow) : JobRow :=
  {| row_kind := row_kind r; row_lane := row_lane r; row_dedup_key := row_dedup_key r;
     row_payload := row_payload r; row_priority := row_priority r;
     row_generation := row_generation r; row_attempts := attempts;
     row_max_attempts := row_max_attempts r; row_available_at := available_at;
     row_lease_id := row_lease_id r; row_lease_generation := row_lease_generation r;
     row_leased_by := row_leased_by r; row_lease_expires_at := row_lease_expires_at r;
     row_last_error := error; row_created_at := row_created_at r |}.

Definition unlease : JobRow -> JobRow := set_lease None None None None.

Definition milliseconds (n : Z) : Z := n * 1000.

(** [lease_id = $2 AND lease_generation = $3 AND generation = $3] *)
Definition holds (lease gen : Z) (r : JobRow) : bool :=
  bool_decide (row_lease_id r = Some lease) && bool_decide (row_lease_generation r = Some gen)
  && (row_generation r =? gen).

(** [lease_id = $2 AND lease_generation = $3 AND generation <> $3] *)
Definition outrun (lease gen : Z) (r : JobRow) : bool :=
  bool_decide (row_lease_id r = Some lease) && bool_decide (row_lease_generation r = Some gen)
  && negb (row_generation r =? gen).

Definition held_row (id lease gen : Z) (i : Z) (r : JobRow) : bool := (i =? id) && holds lease gen r.

(** *** [complete.sql], [heartbeat.sql], [retry.sql], [postpone.sql], [release_superseded.sql] *)

Definition complete_sql (id lease gen : Z) : ST Queue QueueError nat :=
  statement (fun q => (with_jobs (delete_where (held_row id lease gen)) q,
                       rows_affected (held_row id lease gen) (jobs q))).

Definition heartbeat_sql (now id lease gen ms : Z) : ST Queue QueueError nat :=
  update_statement (held_row id lease gen) (fun _ r =>
    set_lease (row_lease_id r) (row_lease_generation r) (row_leased_by r)
      (Some (now + milliseconds ms)) r).

Definition retry_sql (now id lease gen ms : Z) (error : str) : ST Queue QueueError nat :=
  update_statement (held_row id lease gen) (fun _ r =>
    set_turn (row_attempts r) (now + milliseconds ms) (Some error) (unlease r)).

Definition postpone_sql (now id lease gen ms : Z) (error : str) : ST Queue QueueError nat :=
  update_statement
    (fun i r => held_row id lease gen i r &&
       match row_lease_expires_at r with Some e => now <? e | None => false end)
    (fun _ r => set_turn (Z.max (row_attempts r - 1) 0) (now + milliseconds ms) (Some error) (unlease r)).

Definition release_superseded_sql (id lease gen : Z) : ST Queue QueueError nat :=
  update_statement (fun i r => (i =? id) && outrun lease gen r) (fun _ => unlease).

(** *** [reset_attempts.sql] and [drop_index_trigger.sql] of the handlers *)

(** A page of a collection was written: the attempts start over, under a live lease. *)
Definition reset_attempts_sql (now id lease gen : Z) : ST Queue QueueError nat :=
  update_statement
    (fun i r => held_row id lease gen i r &&
       match row_lease_expires_at r with Some e => now <? e | None => false end)
    (fun _ r => set_turn 0 (row_available_at r) (row_last_error r) r).

(** The audio of the track is stored: nobody has to fetch it any more. *)
Definition index_trigger (track : str) (r : JobRow) : bool :=
  bool_decide (row_kind r = lit "indexing.track") && bool_decide (row_dedup_key r = Some track)
  && bool_decide (row_lease_id r = None).

Definition drop_index_trigger_sql (track : str) : ST Queue QueueError nat :=
  statement (fun q => (with_jobs (delete_where (fun _ => index_trigger track)) q,
                       rows_affected (fun _ => index_trigger track) (jobs q))).

(** *** [dead_letter.sql], [recover_exhausted.sql] *)

Definition archive (now : Z) (error : JobRow -> str) (r : JobRow) : Failure :=
  {| failed_kind := row_kind r; failed_lane := row_lane r; failed_dedup_key := row_dedup_key r;
     failed_payload := row_payload r; failed_priority := row_priority r;
     failed_attempts := row_attempts r; failed_max_attempts := row_max_attempts r;
     failed_error := error r; failed_created_at := row_created_at r; failed_at := now |}.

(** The rows deleted go to the failures, over a failure of the same id and generation. *)
Definition bury (now : Z) (error : JobRow -> str) (p : Z -> JobRow -> bool) (q : Queue) : Queue * nat :=
  ({| jobs := delete_where p (jobs q); enqueues := enqueues q;
      failures := list_to_map (map (fun e => ((e.1, row_generation e.2), archive now error e.2))
                                 (select_where p (jobs q))) ∪ failures q |},
   rows_affected p (jobs q)).

Definition dead_letter_sql (now id lease gen : Z) (error : str) : ST Queue QueueError nat :=
  statement (bury now (fun _ => error) (held_row id lease gen)).

Definition exhausted (now : Z) (r : JobRow) : bool :=
  (row_max_attempts r <=? row_attempts r) &&
  match row_lease_id r with
  | None => true
  | Some _ => match row_lease_expires_at r with Some e => e <=? now | None => false end
  end.

Definition exhausted_error (r : JobRow) : str :=
  match row_lease_id r with
  | Some _ => lit "lease expired after final attempt"
  | None => default (lit "attempts exhausted") (row_last_error r)
  end.

(** [NULLS FIRST] *)
Definition nulls_first (o : option Z) : list Z := match o with None => [0; 0] | Some z => [1; z] end.

Definition batch (locked : gset Z) (p : Z -> JobRow -> bool) (key : Z * JobRow -> list Z)
  (limit : Z) (t : gmap Z JobRow) : list (Z * JobRow) :=
  take (Z.to_nat limit)
    (order_by key (select_where (fun i r => negb (bool_decide (i ∈ locked)) && p i r) t)).

Definition in_batch (l : list (Z * JobRow)) (i : Z) : bool := bool_decide (i ∈ map fst l).

Definition recover_exhausted_sql (locked : gset Z) (now limit : Z) : ST Queue QueueError nat :=
  statement (fun q =>
    let chosen := batch locked (fun _ r => exhausted now r)
                    (fun e => nulls_first (row_lease_expires_at e.2) ++ [row_created_at e.2])
                    limit (jobs q) in
    bury now exhausted_error (fun i _ => in_batch chosen i) q).

(** *** [claim_priority.sql], [claim_oldest.sql], [claim_kind.sql], [release_expired.sql] *)

Definition claimable (now : Z) (r : JobRow) : bool :=
  (row_available_at r <=? now) && (row_attempts r <? row_max_attempts r)
  && bool_decide (row_lease_id r = None).

Definition priority_key (e : Z * JobRow) : list Z :=
  [- row_priority e.2; row_available_at e.2; row_created_at e.2; e.1].

Definition oldest_key (e : Z * JobRow) : list Z :=
  [row_available_at e.2; row_created_at e.2; - row_priority e.2; e.1].

(** The lease a claimed row gets; [fresh] is what [gen_random_uuid()] draws for each row. *)
Definition lease_row (now : Z) (fresh : Z -> Z) (worker : str) (ms : Z) (i : Z) (r : JobRow) : JobRow :=
  set_lease (Some (fresh i)) (Some (row_generation r)) (Some worker) (Some (now + milliseconds ms))
    (set_turn (row_attempts r + 1) (row_available_at r) (row_last_error r) r).

(** [move] is the lane that [claim_kind.sql] also writes. *)
Definition claim_sql (locked : gset Z) (now : Z) (fresh : Z -> Z) (worker : str)
  (p : JobRow -> bool) (key : Z * JobRow -> list Z) (limit ms : Z) (move : option str)
  : ST Queue QueueError (list (Z * JobRow)) :=
  statement (fun q =>
    let chosen := batch locked (fun _ r => claimable now r && p r) key limit (jobs q) in
    let f := fun i r => lease_row now fresh worker ms i
                          (match move with Some l => set_lane l r | None => r end) in
    (with_jobs (update_where (fun i _ => in_batch chosen i) f) q,
     map (fun e => (e.1, f e.1 e.2)) chosen)).

Definition expired (now : Z) (r : JobRow) : bool :=
  (row_attempts r <? row_max_attempts r) && bool_decide (row_lease_id r <> None)
  && match row_lease_expires_at r with Some e => e <=? now | None => false end.

Definition expires_key (e : Z * JobRow) : list Z :=
  [default 0 (row_lease_expires_at e.2); row_created_at e.2; e.1].

Definition release_expired_sql (locked : gset Z) (now limit : Z) (kinds : list str) (lane : str)
  : ST Queue QueueError nat :=
  statement (fun q =>
    let chosen := batch locked (fun _ r => expired now r && bool_decide (row_kind r ∈ kinds))
                    expires_key limit (jobs q) in
    (with_jobs (update_where (fun i _ => in_batch chosen i)
       (fun _ r => set_turn (row_attempts r) (Z.min (row_available_at r) now) (row_last_error r)
                     (unlease (set_lane lane r)))) q,
     length chosen)).

(** *** [enqueue.sql], [enqueue_if_absent.sql] *)

Record NewJob := {
  new_id : Z;
  new_kind : JobKind;
  new_dedup_key : option str;
  new_payload : Value;
  new_priority : Z;
  new_max_attempts : Z;
  new_available_at : Z
}.

Definition inserted (now : Z) (job : NewJob) : JobRow :=
  {| row_kind := as_str (new_kind job); row_lane := lane_as_str (lane (new_kind job));
     row_dedup_key := new_dedup_key job; row_payload := new_payload job;
     row_priority := new_priority job; row_generation := 1; row_attempts := 0;
     row_max_attempts := new_max_attempts job; row_available_at := new_available_at job;
     row_lease_id := None; row_lease_generation := None; row_leased_by := None;
     row_lease_expires_at := None; row_last_error := None; row_created_at := now |}.

(** The row that the unique index on [(kind, dedup_key)] would conflict with. *)
Definition in_conflict (job : NewJob) (r : JobRow) : bool :=
  bool_decide (row_kind r = as_str (new_kind job)) && bool_decide (row_dedup_key r = new_dedup_key job)
  && bool_decide (new_dedup_key job <> None).

Definition renewed (job : NewJob) (r : JobRow) : JobRow :=
  {| row_kind := row_kind r; row_lane := lane_as_str (lane (new_kind job));
     row_dedup_key := row_dedup_key r; row_payload := new_payload job;
     row_priority := Z.max (row_priority r) (new_priority job);
     row_generation := row_generation r + 1; row_attempts := 0;
     row_max_attempts := new_max_attempts job;
     row_available_at :=
       if bool_decide (row_lease_id r <> None)
          && bool_decide (row_lease_generation r = Some (row_generation r))
       then new_available_at job else Z.min (row_available_at r) (new_available_at job);
     row_lease_id := row_lease_id r; row_lease_generation := row_lease_generation r;
     row_leased_by := row_leased_by r; row_lease_expires_at := row_lease_expires_at r;
     row_last_error := None; row_created_at := row_created_at r |}.

Definition raised (job : NewJob) (r : JobRow) : JobRow :=
  {| row_kind := row_kind r; row_lane := lane_as_str (lane (new_kind job));
     row_dedup_key := row_dedup_key r; row_payload := row_payload r;
     row_priority := Z.max (row_priority r) (new_priority job);
     row_generation := row_generation r; row_attempts := row_attempts r;
     row_max_attempts := row_max_attempts r; row_available_at := row_available_at r;
     row_lease_id := row_lease_id r; row_lease_generation := row_lease_generation r;
     row_leased_by := row_leased_by r; row_lease_expires_at := row_lease_expires_at r;
     row_last_error := row_last_error r; row_created_at := row_created_at r |}.

(** [INSERT ... ON CONFLICT (kind, dedup_key) DO UPDATE ... WHERE], for a command
    that is accepted once per id; a taken primary key fails the statement. *)
Definition upsert_sql (now : Z) (job : NewJob) (guard : JobRow -> bool) (f : JobRow -> JobRow)
  : ST Queue QueueError unit := fun q =>
  if bool_decide (new_id job ∈ enqueues q) then (Ok tt, q) else
  let accepted := {| jobs := jobs q; enqueues := {[new_id job]} ∪ enqueues q; failures := failures q |} in
  match select_where (fun _ => in_conflict job) (jobs q) with
  | [] =>
      if bool_decide (is_Some (jobs q !! new_id job)) then (Err Database, q)
      else statement (fun _ => (with_jobs (<[new_id job := inserted now job]>) accepted, tt)) q
  | _ =>
      statement (fun _ =>
        (with_jobs (update_where (fun _ r => in_conflict job r && guard r) (fun _ => f)) accepted, tt)) q
  end.

Definition enqueue_sql (now : Z) (job : NewJob) : ST Queue QueueError unit :=
  upsert_sql now job (fun _ => true) (renewed job).

Definition enqueue_if_absent_sql (now : Z) (job : NewJob) : ST Queue QueueError unit :=
  upsert_sql now job
    (fun r => (row_priority r <? new_priority job)
              || negb (bool_decide (row_lane r = lane_as_str (lane (new_kind job)))))
    (raised job).

(** *** Other inserts

    [enqueue_followed_uploads.sql], [enqueue_missing_tracks.sql], [enqueue_due.sql] of the
    scheduler, [lookup_deliver_wakes.sql] and the command [job_enqueue] of the API
    ([0246_job_enqueue_status_kinds.sql]) insert rows they select from other tables, which
    are arguments here, and differ in what they do to a row of the same kind and key. *)

Record PlainJob := {
  pj_id : Z;
  pj_kind : str;
  pj_lane : str;
  pj_dedup_key : option str;
  pj_payload : Value;
  pj_priority : Z;
  pj_max_attempts : Z;
  pj_available_at : Z
}.

Inductive OnConflict := DoNothing | RaisePriority | RaiseOrMove | MoveIdle.

Definition planted (now : Z) (j : PlainJob) : JobRow :=
  {| row_kind := pj_kind j; row_lane := pj_lane j; row_dedup_key := pj_dedup_key j; row_payload := pj_payload j;
     row_priority := pj_priority j; row_generation := 1; row_attempts := 0; row_max_attempts := pj_max_attempts j;
     row_available_at := pj_available_at j; row_lease_id := None; row_lease_generation := None; row_leased_by := None;
     row_lease_expires_at := None; row_last_error := None; row_created_at := now |}.

Definition clashes (j : PlainJob) (r : JobRow) : bool :=
  bool_decide (row_kind r = pj_kind j) && bool_decide (row_dedup_key r = pj_dedup_key j)
  && bool_decide (pj_dedup_key j <> None).

Definition set_priority (p : Z) (r : JobRow) : JobRow :=
  {| row_kind := row_kind r; row_lane := row_lane r; row_dedup_key := row_dedup_key r;
     row_payload := row_payload r; row_priority := p;
     row_generation := row_generation r; row_attempts := row_attempts r;
     row_max_attempts := row_max_attempts r; row_available_at := row_available_at r;
     row_lease_id := row_lease_id r; row_lease_generation := row_lease_generation r;
     row_leased_by := row_leased_by r; row_lease_expires_at := row_lease_expires_at r;
     row_last_error := row_last_error r; row_created_at := row_created_at r |}.

Definition on_conflict (c : OnConflict) (j : PlainJob) (r : JobRow) : JobRow :=
  let moves := negb (bool_decide (row_lane r = pj_lane j)) in
  match c with
  | DoNothing => r
  | RaisePriority => if row_priority r <? pj_priority j then set_priority (pj_priority j) r else r
  | RaiseOrMove =>
      if (row_priority r <? pj_priority j) || moves
      then set_lane (pj_lane j) (set_priority (Z.max (row_priority r) (pj_priority j)) r) else r
  | MoveIdle => if moves && bool_decide (row_lease_id r = None) then set_lane (pj_lane j) r else r
  end.

(** One row of the [INSERT]; a taken primary key fails the statement. *)
Definition plant (now : Z) (e : PlainJob * OnConflict) (t : gmap Z JobRow) : option (gmap Z JobRow) :=
  let '(j, c) := e in
  match select_where (fun _ => clashes j) t with
  | [] => if bool_decide (is_Some (t !! pj_id j)) then None else Some (<[pj_id j := planted now j]> t)
  | _ => Some (update_where (fun _ => clashes j) (fun _ => on_conflict c j) t)
  end.

Definition plant_all (now : Z) (l : list (PlainJob * OnConflict)) (t : gmap Z JobRow) : option (gmap Z JobRow) :=
  foldl (fun t e => t ≫= plant now e) (Some t) l.

(** [accepts]: the command is also recorded by its id, once. *)
Definition insert_sql (now : Z) (accepts : bool) (l : list (PlainJob * OnConflict)) : ST Queue QueueError unit := fun q =>
  let l := if accepts then List.filter (fun e => negb (bool_decide (pj_id e.1 ∈ enqueues q))) l else l in
  match plant_all now l (jobs q) with
  | None => (Err Database, q)
  | Some t =>
      statement (fun _ =>
        ({| jobs := t; failures := failures q;
            enqueues := if accepts then list_to_set (map (fun e => pj_id e.1) l) ∪ enqueues q else enqueues q |}, tt)) q
  end.

(** The ids drawn, the subjects and the payloads built from them. *)
Definition enqueue_followed_uploads_sql (now : Z) (subjects : list (Z * str * Value)) : ST Queue QueueError unit :=
  insert_sql now false (map (fun '(id, subject, payload) =>
    ({| pj_id := id; pj_kind := lit "catalog.collection"; pj_lane := lit "core_bulk";
        pj_dedup_key := Some (lit "owned-tracks:" ++ subject ++ lit ":public"); pj_payload := payload;
        pj_priority := 5; pj_max_attempts := 8; pj_available_at := now |}, DoNothing)) subjects).

Definition enqueue_missing_tracks_sql (now : Z) (lane : str) (missing : list (Z * str * Value)) : ST Queue QueueError unit :=
  insert_sql now false (map (fun '(id, track, payload) =>
    ({| pj_id := id; pj_kind := lit "catalog.refresh"; pj_lane := lane;
        pj_dedup_key := Some (lit "track:" ++ track ++ lit ":public"); pj_payload := payload;
        pj_priority := 15; pj_max_attempts := 8; pj_available_at := now |}, RaisePriority)) missing).

(** A due row of [background_schedules]. *)
Record Schedule := { sch_kind : str; sch_lane : str; sch_priority : Z; sch_max_attempts : Z }.

Definition enqueue_due_sql (now : Z) (payload : Value) (due : list (Z * Schedule)) : ST Queue QueueError unit :=
  insert_sql now true (map (fun '(id, s) =>
    ({| pj_id := id; pj_kind := sch_kind s; pj_lane := sch_lane s; pj_dedup_key := Some (lit "schedule");
        pj_payload := payload; pj_priority := sch_priority s; pj_max_attempts := sch_max_attempts s;
        pj_available_at := now |}, MoveIdle)) due).

Definition lookup_deliver_wakes_sql (now : Z) (kind lane : str) (priority max_attempts available_at : Z)
  (due : list (Z * str * Value)) : ST Queue QueueError unit :=
  insert_sql now true (map (fun '(message, track, payload) =>
    ({| pj_id := message; pj_kind := kind; pj_lane := lane; pj_dedup_key := Some track; pj_payload := payload;
        pj_priority := priority; pj_max_attempts := max_attempts; pj_available_at := available_at |}, RaiseOrMove)) due).

(** The rows wanted, one per kind and key, and whether each raises the priority. *)
Definition job_enqueue_sql (now : Z) (wanted : list (PlainJob * bool)) : ST Queue QueueError unit :=
  insert_sql now false (map (fun '(j, raise) => (j, if (raise : bool) then RaisePriority else DoNothing)) wanted).

(** *** [cleanup_job_failures.sql] *)

Definition DAY_US : Z := 24 * 60 * 60 * 1000000.

Definition outdated (now : Z) (f : Failure) : bool := failed_at f <? now - 30 * DAY_US.

Definition cleanup_job_failures_sql (locked : gset (Z * Z)) (now : Z) : ST Queue QueueError unit :=
  statement (fun q =>
    let old := List.filter (fun e => negb (bool_decide (e.1 ∈ locked)) && outdated now e.2) (map_to_list (failures q)) in
    let expired := take (Z.to_nat 10000) (sort_by (fun a b => failed_at a.2 <=? failed_at b.2) old) in
    ({| jobs := jobs q; enqueues := enqueues q;
        failures := filter (fun e : (Z * Z) * Failure => e.1 ∉ map fst expired) (failures q) |}, tt)).

(** *** [realign_lanes.sql] *)

(** The kinds paired with their lanes; the first pairing of a kind is used (a kind appears once). *)
Definition expected_lane (kinds : list (str * str)) (k : str) : option str :=
  snd <$> find (fun e => bool_decide (e.1 = k)) kinds.

Definition stale (kinds : list (str * str)) (r : JobRow) : bool :=
  match expected_lane kinds (row_kind r) with
  | Some l => negb (bool_decide (row_lane r = l)) && bool_decide (row_lease_id r = None)
  | None => false
  end.

Definition realign_sql (locked : gset Z) (kinds : list (str * str)) (after step : Z)
  : ST Queue QueueError (option Z * nat) :=
  statement (fun q =>
    let scanned := take (Z.to_nat step) (order_by (fun e => [e.1]) (select_where (fun i _ => after <? i) (jobs q))) in
    let p := fun i r => in_batch scanned i && stale kinds r && negb (bool_decide (i ∈ locked)) in
    (with_jobs (update_where p (fun _ r => default r ((fun l => set_lane l r) <$> expected_lane kinds (row_kind r)))) q,
     (fst <$> last scanned, rows_affected p (jobs q)))).

End tables.
