(* ===== verification/JobRepository.v ===== *)
(** * JobRepository: the operations of the job queue
    ([jobs/src/queue/repository/], [jobs/src/queue/execution.rs],
    [jobs/src/queue/worker.rs]) on top of its statements ([JobQueue]).

    An operation is the sequence of statements the source issues; other workers
    may run between them, which the step relation of [JobQueueFacts] allows. *)

From Stdlib Require Import ZArith Lia String.
From stdpp Require Import base list numbers option tactics sets gmap.
From S2P Require Import Prelude Text JobKind JobQueue.
Local Open Scope Z_scope.

(** * Waits of the job workers ([jobs/src/queue/backoff.rs]).

    A [Duration] is its nanoseconds; [retry_delay] counts whole seconds, as the
    source does. *)

Definition BASE_SECONDS : Z := 2.
Definition MAX_SECONDS : Z := 15 * 60.
Definition FNV_OFFSET : Z := 0xcbf29ce484222325.
Definition FNV_PRIME : Z := 0x100000001b3.

Definition seconds (n : Z) : Z := n * 1000000000.
Definition IDLE_MAX : Z := seconds 2.

(** [Duration::MAX] *)
Definition duration_max : Z := seconds u64_max + 999999999.

Definition sat_mul_duration (d k : Z) : Z := Z.min duration_max (d * k).
Definition sat_pow_u32 (b e : Z) : Z := Z.min u32_max (b ^ e).
Definition sat_pow_u64 (b e : Z) : Z := Z.min u64_max (b ^ e).
Definition sat_mul_u64 (a b : Z) : Z := Z.min u64_max (a * b).

Definition idle_wait (empty_polls poll_interval : Z) : Z :=
  let doublings := Z.min (Z.max 0 (empty_polls - 1)) 16 in
  Z.max (Z.min (sat_mul_duration poll_interval (sat_pow_u32 2 doublings)) IDLE_MAX) poll_interval.

Definition i32_min : Z := -2147483648.
Definition i32_max : Z := 2147483647.

(** [attempt.to_le_bytes()] of an [i32]. *)
Definition le_bytes_i32 (n : Z) : list Z :=
  let u := n mod 4294967296 in
  [u mod 256; (u / 256) mod 256; (u / 65536) mod 256; (u / 16777216) mod 256].

(** [Uuid::as_bytes]: sixteen bytes, the most significant first. *)
Definition uuid_bytes (u : Z) : list Z :=
  map (fun k => Z.land (Z.shiftr u (8 * (15 - Z.of_nat k))) 255) (seq 0 16).

Definition retry_hash (job_id attempt : Z) : Z :=
  foldl (fun hash byte => wrap_u64 (Z.lxor hash byte * FNV_PRIME)) FNV_OFFSET
    (uuid_bytes job_id ++ le_bytes_i32 attempt).

(** [attempt.saturating_sub(1).max(0)], which always fits [u32]. *)
Definition exponent (attempt : Z) : Z := Z.min (Z.max (Z.max i32_min (attempt - 1)) 0) 8.

Definition retry_base (attempt : Z) : Z := sat_mul_u64 BASE_SECONDS (sat_pow_u64 2 (exponent attempt)).

Definition retry_delay (job_id attempt : Z) : Z :=
  let base := retry_base attempt in
  let jitter := retry_hash job_id attempt mod (base / 4 + 1) in
  Z.min (sat_add_u64 base jitter) MAX_SECONDS.

(** [pause_after] of [jobs/src/queue/realign.rs]. *)
Definition pause_after (row_pause moved : Z) : Z :=
  sat_mul_duration row_pause (let m := Z.max moved 0 in if m <=? u32_max then m else u32_max).

(** ** Lemmas *)

Lemma exponent_range attempt : 0 <= exponent attempt <= 8.
Proof. unfold exponent, i32_min. lia. Qed.

Lemma retry_base_eq attempt : retry_base attempt = 2 ^ (exponent attempt + 1).
Proof.
  unfold retry_base, sat_mul_u64, sat_pow_u64, BASE_SECONDS, u64_max.
  pose proof (exponent_range attempt) as H. rewrite Z.pow_add_r by lia.
  pose proof (Z.pow_le_mono_r 2 (exponent attempt) 8). pose proof (Z.pow_pos_nonneg 2 (exponent attempt)). lia.
Qed.

Lemma retry_base_range attempt : 2 <= retry_base attempt <= 512.
Proof.
  rewrite retry_base_eq. pose proof (exponent_range attempt).
  pose proof (Z.pow_le_mono_r 2 1 (exponent attempt + 1)).
  pose proof (Z.pow_le_mono_r 2 (exponent attempt + 1) 9). lia.
Qed.

(** The ceiling of fifteen minutes is never reached: 512 s and a quarter is the most. *)
Lemma retry_delay_eq job_id attempt :
  retry_delay job_id attempt
  = retry_base attempt + retry_hash job_id attempt mod (retry_base attempt / 4 + 1).
Proof.
  unfold retry_delay, sat_add_u64, MAX_SECONDS, u64_max. pose proof (retry_base_range attempt) as Hb.
  pose proof (Z.mod_pos_bound (retry_hash job_id attempt) (retry_base attempt / 4 + 1)) as Hm.
  pose proof (Z.div_pos (retry_base attempt) 4). pose proof (Z.div_le_mono (retry_base attempt) 512 4).
  change (512 / 4) with 128 in *. lia.
Qed.

Lemma retry_delay_range job_id attempt :
  retry_base attempt <= retry_delay job_id attempt <= retry_base attempt + retry_base attempt / 4.
Proof.
  rewrite retry_delay_eq. pose proof (retry_base_range attempt).
  pose proof (Z.mod_pos_bound (retry_hash job_id attempt) (retry_base attempt / 4 + 1)).
  pose proof (Z.div_pos (retry_base attempt) 4). lia.
Qed.

(** Retries back off: the delay before attempt [n + 1] is [2 * 2^(n-1)]
    seconds, doubling up to 512 s, plus at most a quarter of it as jitter, for
    every job and every [i32] attempt number; so it is always between 2 and 640
    seconds (the fifteen-minute ceiling never cuts it), and for the first nine
    attempts it strictly grows whatever the jitter. *)
Theorem retry_delay_backs_off job_id attempt :
  (let base := 2 ^ (exponent attempt + 1) in
   base <= retry_delay job_id attempt <= base + base / 4) /\
  2 <= retry_delay job_id attempt <= 640 /\ 640 < MAX_SECONDS /\
  (1 <= attempt < 9 -> exponent attempt = attempt - 1 /\
     retry_delay job_id attempt < retry_delay job_id (attempt + 1)).
Proof.
  pose proof (retry_delay_range job_id attempt) as H. pose proof (retry_base_range attempt) as Hb.
  pose proof (Z.div_le_mono (retry_base attempt) 512 4) as Hq. change (512 / 4) with 128 in Hq.
  split; [cbv zeta; by rewrite <- retry_base_eq|]. split; [lia|]. split; [done|].
  intros Ha. split; [unfold exponent, i32_min; lia|].
  pose proof (retry_delay_range job_id (attempt + 1)) as H'. rewrite !retry_base_eq in *.
  assert (exponent (attempt + 1) = exponent attempt + 1) as E by (unfold exponent, i32_min; lia).
  rewrite E, (Z.pow_add_r 2 (exponent attempt + 1) 1) in H' by (pose proof (exponent_range attempt); lia).
  set (b := 2 ^ (exponent attempt + 1)) in *.
  pose proof (Z.div_lt_upper_bound b 4 b). lia.
Qed.

(** An idle worker never waits less than the poll interval nor more than two
    seconds (or the interval, if that is longer), one empty poll waits exactly
    the interval, more empty polls never shorten the wait, and from the
    seventeenth on it is the two-second ceiling for any interval of at least
    31 microseconds. *)
Theorem idle_wait_bounds empty_polls poll
  (Hpoll : 0 <= poll <= duration_max) (Hpolls : 0 <= empty_polls) :
  poll <= idle_wait empty_polls poll <= Z.max poll IDLE_MAX /\
  (empty_polls <= 1 -> idle_wait empty_polls poll = poll) /\
  (forall more, empty_polls <= more -> idle_wait empty_polls poll <= idle_wait more poll) /\
  (17 <= empty_polls -> 31000 <= poll -> idle_wait empty_polls poll = Z.max poll IDLE_MAX).
Proof.
  assert (forall n, sat_pow_u32 2 (Z.min (Z.max 0 (n - 1)) 16) = 2 ^ Z.min (Z.max 0 (n - 1)) 16) as Hp.
  { intros n. unfold sat_pow_u32, u32_max.
    pose proof (Z.pow_le_mono_r 2 (Z.min (Z.max 0 (n - 1)) 16) 16). lia. }
  assert (forall n, 1 <= 2 ^ Z.min (Z.max 0 (n - 1)) 16) as H1.
  { intros n. pose proof (Z.pow_le_mono_r 2 0 (Z.min (Z.max 0 (n - 1)) 16)). lia. }
  unfold idle_wait, sat_mul_duration. split_and!.
  - lia.
  - lia.
  - intros Hle. rewrite Hp. replace (Z.min (Z.max 0 (empty_polls - 1)) 16) with 0 by lia. lia.
  - intros more Hm. rewrite !Hp.
    assert (2 ^ Z.min (Z.max 0 (empty_polls - 1)) 16 <= 2 ^ Z.min (Z.max 0 (more - 1)) 16) as Hle
      by (apply Z.pow_le_mono_r; lia).
    assert (poll * 2 ^ Z.min (Z.max 0 (empty_polls - 1)) 16
            <= poll * 2 ^ Z.min (Z.max 0 (more - 1)) 16) by nia. lia.
  - intros Hn Hlo. rewrite Hp. replace (Z.min (Z.max 0 (empty_polls - 1)) 16) with 16 by lia.
    unfold IDLE_MAX, duration_max, seconds, u64_max in *. lia.
Qed.

Lemma idle_wait_bounds_witness : idle_wait 40 250000000 = IDLE_MAX.
Proof. apply (idle_wait_bounds 40 250000000); vm_compute; by split || done. Defined.

(** [CollectionFailure] of [backend-contracts/src/catalog_collection.rs]. *)
Inductive CollectionFailure := AuthRequired | NotFound | Forbidden.

Definition failure_as_str (f : CollectionFailure) : str :=
  match f with
  | AuthRequired => lit "auth_required"
  | NotFound => lit "not_found"
  | Forbidden => lit "forbidden"
  end.

Definition failure_message (f : CollectionFailure) (detail : str) : str :=
  failure_as_str f ++ lit ": " ++ detail.

Definition from_last_error (last_error : str) : option CollectionFailure :=
  let code := match split_once 58 last_error with Some (a, _) => a | None => last_error end in
  find (fun f => bool_decide (failure_as_str f = code)) [AuthRequired; NotFound; Forbidden].

(** [JobError]; [timeout] is whether the error chain holds the SQL state 57014. *)
Inductive JobError :=
| Retryable (error : str) (timeout : bool)
| Permanent (error : str) (timeout : bool)
| Postponed (delay : Z) (error : str) (timeout : bool)
| Settled (failure : CollectionFailure) (error : str) (timeout : bool).

(** [JobError::postponed]: between a second and a day, in milliseconds. *)
Definition postponed (delay : Z) (error : str) (timeout : bool) : JobError :=
  Postponed (clampZ 1000 86400000 delay) error timeout.

Definition is_retryable (e : JobError) : bool := match e with Retryable _ _ => true | _ => false end.

Definition error_text (e : JobError) : str :=
  match e with
  | Retryable t _ | Permanent t _ | Postponed _ t _ => t
  | Settled f t _ => failure_message f t
  end.

Definition cancelled_by_timeout (e : JobError) : bool :=
  match e with
  | Retryable _ b | Permanent _ b | Postponed _ _ b | Settled _ _ b => b
  end.

Inductive Outcome :=
| OutcomeOk
| OutcomePostponed
| OutcomeRetryable
| OutcomeTerminal
| OutcomeTimeout
| OutcomeSettled (f : CollectionFailure).

Definition outcome (r : result unit JobError) : Outcome :=
  match r with
  | Ok _ => OutcomeOk
  | Err e =>
      if cancelled_by_timeout e then OutcomeTimeout else
      match e with
      | Postponed _ _ _ => OutcomePostponed
      | Settled f _ _ => OutcomeSettled f
      | _ => if is_retryable e then OutcomeRetryable else OutcomeTerminal
      end
  end.

Definition GRAPH_REBUILD_LIMIT : Z := seconds (2 * 60 * 60).

Definition execution_limit (kind : JobKind) (default : Z) : Z :=
  match kind with RecommendationColike => Z.max default GRAPH_REBUILD_LIMIT | _ => default end.

Definition truncate (value : str) (maximum : nat) : str := take maximum value.

Definition claim_limit (concurrency running batch : Z) : Z :=
  Z.min (Z.max 0 (concurrency - running)) batch.

Definition kind_turn (realigning shares_between_kinds : bool) (successful_claims : Z) : option Z :=
  if realigning then Some successful_claims
  else if shares_between_kinds && (successful_claims mod 2 =? 0) then Some (successful_claims / 2)
  else None.

Definition next_claim_order (successful_claims : Z) : ClaimOrder :=
  if wrap_u64 (successful_claims + 1) mod 32 =? 0 then Oldest else Priority.

(** The [offset]-th kind of a turn: [kinds[turn.wrapping_add(offset) % kinds.len()]]. *)
Definition kind_at (kinds : list JobKind) (turn : Z) (offset : nat) : option JobKind :=
  kinds !! Z.to_nat (wrap_u64 (turn + Z.of_nat offset) mod Z.of_nat (length kinds)).

(** What the database does outside the statement's text: its clock, the rows
    other transactions have locked, and the lease ids it draws. *)
Record Moment := { now : Z; locked : gset Z; fresh : Z -> Z }.

Section repository.
Context {payloads : Payloads} (worker_id : str).

Record LeasedJob := {
  leased_id : Z;
  leased_kind : JobKind;
  leased_dedup_key : option str;
  leased_payload : Value;
  leased_generation : Z;
  leased_attempts : Z;
  leased_max_attempts : Z;
  lease_id : Z
}.

(** [LeasedJobRow] to [LeasedJob]; the query declares the two lease columns non-null. *)
Definition try_from (e : Z * JobRow) : result LeasedJob QueueError :=
  match from_str (row_kind e.2) with
  | None => Err UnknownKind
  | Some kind =>
      Ok {| leased_id := e.1; leased_kind := kind; leased_dedup_key := row_dedup_key e.2;
            leased_payload := row_payload e.2;
            leased_generation := default 0 (row_lease_generation e.2);
            leased_attempts := row_attempts e.2; leased_max_attempts := row_max_attempts e.2;
            lease_id := default 0 (row_lease_id e.2) |}
  end.

Fixpoint collect (l : list (Z * JobRow)) : result (list LeasedJob) QueueError :=
  match l with
  | [] => Ok []
  | e :: l =>
      match try_from e with
      | Err x => Err x
      | Ok job => match collect l with Ok jobs => Ok (job :: jobs) | Err x => Err x end
      end
  end.

Abbreviation M := (ST Queue QueueError).

Definition duration_milliseconds (d : Z) : M Z := if i64_max <? d then throw BatchTooLarge else mret d.

Definition as_limit (limit : Z) : M Z := if i64_max <? limit then throw BatchTooLarge else mret limit.

Definition validate_dedup_key (dedup_key : option str) : M unit :=
  match dedup_key with
  | Some value =>
      if bool_decide (value = []) || (MAX_DEDUP_KEY_LENGTH <? str_len value)
      then throw InvalidDedupKey else mret tt
  | None => mret tt
  end.

Definition single_lane (supported_kinds : list JobKind) : M JobLane :=
  match supported_kinds with
  | [] => throw MixedLanes
  | k :: _ =>
      if any (fun k' => negb (bool_decide (lane k' = lane k))) supported_kinds
      then throw MixedLanes else mret (lane k)
  end.

(** ** Claims *)

Definition of_kinds (l : JobLane) (kinds : list JobKind) (r : JobRow) : bool :=
  bool_decide (row_kind r ∈ map as_str kinds) && bool_decide (row_lane r = lane_as_str l).

Definition claim (m : Moment) (supported_kinds : list JobKind) (order : ClaimOrder)
  (limit lease_duration : Z) : M (list LeasedJob) :=
  if bool_decide (supported_kinds = []) || (limit =? 0) then mret [] else
  lane' ← single_lane supported_kinds;
  limit ← as_limit limit;
  ms ← duration_milliseconds lease_duration;
  let run := claim_sql (locked m) (now m) (fresh m) worker_id in
  rows ← match order with
         | Priority => run (of_kinds lane' supported_kinds) priority_key limit ms None
         | Kind kind =>
             run (fun r => bool_decide (row_kind r = as_str kind)) priority_key limit ms
               (Some (lane_as_str (lane kind)))
         | Oldest => run (of_kinds lane' supported_kinds) oldest_key limit ms None
         end;
  of_result (collect rows).

Definition release_expired (m : Moment) (supported_kinds : list JobKind) (limit : Z) : M nat :=
  if bool_decide (supported_kinds = []) || (limit =? 0) then mret 0%nat else
  lane' ← single_lane supported_kinds;
  limit ← as_limit limit;
  release_expired_sql (locked m) (now m) limit (map as_str supported_kinds) (lane_as_str lane').

Definition recover_exhausted (m : Moment) (limit : Z) : M nat :=
  if limit =? 0 then mret 0%nat else
  limit ← as_limit limit;
  recover_exhausted_sql (locked m) (now m) limit.

(** ** Enqueueing *)

Definition enqueue (now : Z) (job : NewJob) : M unit :=
  _ ← validate_dedup_key (new_dedup_key job); enqueue_sql now job.

Definition enqueue_if_absent (now : Z) (job : NewJob) : M unit :=
  _ ← validate_dedup_key (new_dedup_key job); enqueue_if_absent_sql now job.

(** ** Completion *)

Definition has_released_newer_generation (job : LeasedJob) : M bool :=
  released ← release_superseded_sql (leased_id job) (lease_id job) (leased_generation job);
  mret (bool_decide (released = 1%nat)).

Definition release_superseded (job : LeasedJob) : M Completion :=
  released ← has_released_newer_generation job;
  mret (if released : bool then Superseded else LostLease).

(** A statement that must touch exactly the leased row, or report why it did not. *)
Definition settle (stmt : M nat) (job : LeasedJob) : M Completion :=
  n ← stmt; if bool_decide (n = 1%nat) then mret Completed else release_superseded job.

Definition complete (job : LeasedJob) : M Completion :=
  settle (complete_sql (leased_id job) (lease_id job) (leased_generation job)) job.

Definition postpone (now : Z) (job : LeasedJob) (error : str) (delay : Z) : M Completion :=
  let error := truncate error MAX_ERROR_LENGTH in
  ms ← duration_milliseconds (clampZ 1000 86400000 delay);
  settle (postpone_sql now (leased_id job) (lease_id job) (leased_generation job) ms error) job.

Definition dead_letter (now : Z) (job : LeasedJob) (error : str) : M Completion :=
  settle (dead_letter_sql now (leased_id job) (lease_id job) (leased_generation job) error) job.

Definition fail (now : Z) (job : LeasedJob) (error : str) (retryable : bool) : M Completion :=
  superseded ← has_released_newer_generation job;
  if superseded : bool then mret Superseded else
  let error := truncate error MAX_ERROR_LENGTH in
  if negb retryable || (leased_max_attempts job <=? leased_attempts job)
  then dead_letter now job error
  else
    ms ← duration_milliseconds (1000 * retry_delay (leased_id job) (leased_attempts job));
    settle (retry_sql now (leased_id job) (lease_id job) (leased_generation job) ms error) job.

Definition heartbeat (now : Z) (job : LeasedJob) (lease_duration : Z) : M bool :=
  ms ← duration_milliseconds lease_duration;
  n ← heartbeat_sql now (leased_id job) (lease_id job) (leased_generation job) ms;
  mret (bool_decide (n = 1%nat)).

(** ** Execution *)

(** The end of [process_job]: what is recorded for the handler's result. *)
Definition record_result (now : Z) (job : LeasedJob) (r : result unit JobError) : M Completion :=
  match r with
  | Ok _ => complete job
  | Err (Postponed delay error _) => postpone now job error delay
  | Err (Settled failure error _) => fail now job (failure_message failure error) false
  | Err error => fail now job (error_text error) (is_retryable error)
  end.

(** [QueueWorker::claim]: the kinds in turn, or the order that is due. *)
Fixpoint claim_in_turn (ms : nat -> Moment) (kinds : list JobKind) (turn : Z) (offset todo : nat)
  (limit lease : Z) : M (list LeasedJob) :=
  match todo with
  | O => mret []
  | S todo =>
      match kind_at kinds turn offset with
      | None => mret []
      | Some kind =>
          jobs ← claim (ms offset) kinds (Kind kind) limit lease;
          match jobs with
          | [] => claim_in_turn ms kinds turn (S offset) todo limit lease
          | _ => mret jobs
          end
      end
  end.

Definition worker_claim (ms : nat -> Moment) (kinds : list JobKind)
  (realigning shares_between_kinds : bool) (successful_claims limit lease : Z) : M (list LeasedJob) :=
  match kind_turn realigning shares_between_kinds successful_claims with
  | None => claim (ms 0%nat) kinds (next_claim_order successful_claims) limit lease
  | Some turn => claim_in_turn ms kinds turn 0 (length kinds) limit lease
  end.

End repository.
