(* ===== verification/JobQueueFacts.v ===== *)
(** * JobQueueFacts: what the job queue guarantees under any interleaving.

    [Stmt] is the statements of all operations, with any arguments, and those of other
    handlers on the queue's tables; [exec] runs one; [reachable] is every table any
    sequence of them, by any workers, leads to. *)

From Stdlib Require Import ZArith Lia String.
From stdpp Require Import base list numbers option tactics sets gmap.
From S2P Require Import Prelude Text JobKind JobRepository JobQueue.
Local Open Scope Z_scope.

Section facts.
Context {payloads : Payloads}.

(** ** The statements as one type *)

Inductive Stmt :=
| SComplete (id lease gen : Z)
| SHeartbeat (now id lease gen ms : Z)
| SRetry (now id lease gen ms : Z) (error : str)
| SPostpone (now id lease gen ms : Z) (error : str)
| SReleaseSuperseded (id lease gen : Z)
| SDeadLetter (now id lease gen : Z) (error : str)
| SRecover (locked : gset Z) (now limit : Z)
| SClaim (locked : gset Z) (now : Z) (fresh : Z -> Z) (worker : str) (p : JobRow -> bool)
    (key : Z * JobRow -> list Z) (limit ms : Z) (to : option JobLane)
| SReleaseExpired (locked : gset Z) (now limit : Z) (kinds : list str) (to : JobLane)
| SEnqueue (now : Z) (job : NewJob)
| SEnqueueIfAbsent (now : Z) (job : NewJob)
| SRealign (locked : gset Z) (after step : Z)
| SForgetReceipts (ids : gset Z)
| SResetAttempts (now id lease gen : Z)
| SDropIndexTrigger (track : str)
| SInsert (now : Z) (accepts : bool) (l : list (PlainJob * OnConflict))
| SCleanupFailures (locked : gset (Z * Z)) (now : Z).

(** The pairs that [LaneRealign::pass] sends. *)
Definition kind_lanes : list (str * str) := map (fun k => (as_str k, lane_as_str (lane k))) JobKind_ALL.

Definition ran {A} (m : result A QueueError * Queue) : bool * Queue := (is_ok m.1, m.2).

(** Whether the statement went through, and what it left. *)
Definition exec (s : Stmt) (q : Queue) : bool * Queue :=
  match s with
  | SComplete id lease gen => ran (complete_sql id lease gen q)
  | SHeartbeat now id lease gen ms => ran (heartbeat_sql now id lease gen ms q)
  | SRetry now id lease gen ms error => ran (retry_sql now id lease gen ms error q)
  | SPostpone now id lease gen ms error => ran (postpone_sql now id lease gen ms error q)
  | SReleaseSuperseded id lease gen => ran (release_superseded_sql id lease gen q)
  | SDeadLetter now id lease gen error => ran (dead_letter_sql now id lease gen error q)
  | SRecover locked now limit => ran (recover_exhausted_sql locked now limit q)
  | SClaim locked now fresh worker p key limit ms to =>
      ran (claim_sql locked now fresh worker p key limit ms (lane_as_str <$> to) q)
  | SReleaseExpired locked now limit kinds to =>
      ran (release_expired_sql locked now limit kinds (lane_as_str to) q)
  | SEnqueue now job => ran (enqueue_sql now job q)
  | SEnqueueIfAbsent now job => ran (enqueue_if_absent_sql now job q)
  | SRealign locked after step => ran (realign_sql locked kind_lanes after step q)
  | SForgetReceipts ids =>
      (true, {| jobs := jobs q; enqueues := enqueues q ∖ ids; failures := failures q |})
  | SResetAttempts now id lease gen => ran (reset_attempts_sql now id lease gen q)
  | SDropIndexTrigger track => ran (drop_index_trigger_sql track q)
  | SInsert now accepts l => ran (insert_sql now accepts l q)
  | SCleanupFailures locked now => ran (cleanup_job_failures_sql locked now q)
  end.

Definition empty_queue : Queue := {| jobs := ∅; enqueues := ∅; failures := ∅ |}.

(** Who issues the statement: only the handler of a collection resets attempts, its own. *)
Definition issued (s : Stmt) (q : Queue) : Prop :=
  match s with
  | SResetAttempts _ id lease gen =>
      forall r, jobs q !! id = Some r -> holds lease gen r = true -> row_kind r = as_str CatalogCollection
  | _ => True
  end.

Inductive reachable : Queue -> Prop :=
| reach_empty : reachable empty_queue
| reach_step q s : reachable q -> issued s q -> reachable (exec s q).2.

(** ** The SQL layer *)

Lemma lookup_update_where p f (t : gmap Z JobRow) (i : Z) :
  update_where p f t !! i = (fun r => if p i r then f i r else r) <$> t !! i.
Proof. unfold update_where. rewrite map_lookup_imap. by destruct (t !! i). Qed.

Lemma lookup_delete_where p (t : gmap Z JobRow) (i : Z) :
  delete_where p t !! i = t !! i ≫= fun r => if p i r then None else Some r.
Proof. unfold delete_where. by rewrite map_lookup_imap. Qed.

Lemma elem_select p (t : gmap Z JobRow) i r :
  (i, r) ∈ select_where p t <-> t !! i = Some r /\ p i r = true.
Proof. unfold select_where. rewrite list_elem_of_In, filter_In, <- list_elem_of_In, elem_of_map_to_list. done. Qed.

Lemma select_NoDup p (t : gmap Z JobRow) : NoDup (map fst (select_where p t)).
Proof. apply NoDup_map_retain. apply NoDup_fst_map_to_list. Qed.

Lemma NoDup_singleton_eq {A} (a : A) l : NoDup l -> a ∈ l -> (forall x, x ∈ l -> x = a) -> l = [a].
Proof.
  intros Hn Ha Hall. destruct l as [|x l]; [by apply not_elem_of_nil in Ha|].
  rewrite (Hall x) in * by set_solver. destruct l as [|y l]; [done|].
  apply NoDup_cons in Hn as [Hn _]. rewrite (Hall y) in Hn by set_solver. set_solver.
Qed.

(** A condition that fixes the id selects at most that row. *)
Lemma select_id p (t : gmap Z JobRow) id :
  (forall i r, p i r = true -> i = id) ->
  select_where p t = match t !! id with Some r => if p id r then [(id, r)] else [] | None => [] end.
Proof.
  intros Hp. assert (Hx : forall i r, (i, r) ∈ select_where p t -> i = id /\ t !! id = Some r /\ p id r = true).
  { intros i r [Hi Hr]%elem_select. pose proof (Hp _ _ Hr) as ->. done. }
  assert (Hnil : (forall r, t !! id = Some r -> p id r = false) -> select_where p t = []).
  { intros Hn. destruct (select_where p t) as [|[i r] l]; [done|].
    destruct (Hx i r) as (_ & Hr & Ht); [set_solver|]. by rewrite (Hn r) in Ht. }
  destruct (t !! id) as [r|] eqn:E; [|by apply Hnil].
  destruct (p id r) eqn:Ep; [|apply Hnil; by intros ? [= <-]].
  apply NoDup_singleton_eq.
  - eapply NoDup_fmap_1, select_NoDup.
  - by apply elem_select.
  - intros [i r'] (-> & [= <-] & _)%Hx. done.
Qed.

(** ** The constraints *)

Lemma queue_ok_spec q :
  queue_ok q = true <->
  map_Forall (fun _ r => row_ok r = true) (jobs q) /\ rows_apart (jobs q) /\
  map_Forall (fun _ f => failure_ok f = true) (failures q).
Proof. unfold queue_ok. rewrite !andb_true_iff, !bool_decide_eq_true. tauto. Qed.

Lemma row_ok_spec r : row_ok r = true <->
  (0 < row_generation r <= i64_max /\ 0 <= row_attempts r <= row_max_attempts r /\ 0 < row_max_attempts r) /\
  lane_ok (row_lane r) = true /\ dedup_ok (row_dedup_key r) = true /\
  payload_fits (row_payload r) = true /\ lease_complete r = true.
Proof. unfold row_ok. rewrite !andb_true_iff, !Z.ltb_lt, !Z.leb_le. intuition lia. Qed.

Lemma same_lease_false r r' :
  same_lease r r' = false <-> row_lease_id r = None \/ row_lease_id r <> row_lease_id r'.
Proof.
  unfold same_lease. rewrite andb_false_iff, !bool_decide_eq_false.
  destruct (row_lease_id r); [|tauto]. naive_solver.
Qed.

Lemma lane_as_str_ok l : lane_ok (lane_as_str l) = true.
Proof. destruct l; vm_compute; reflexivity. Qed.

(** What the dedup index reads is kept. *)
Definition keeps_key (r r' : JobRow) : Prop :=
  row_kind r' = row_kind r /\ row_dedup_key r' = row_dedup_key r.

Lemma apart_update p f (t : gmap Z JobRow) :
  rows_apart t ->
  (forall i r, t !! i = Some r -> p i r = true -> keeps_key r (f i r)) ->
  (forall i r j r', i <> j -> t !! i = Some r -> t !! j = Some r' ->
     same_lease (if p i r then f i r else r) (if p j r' then f j r' else r') = false) ->
  rows_apart (update_where p f t).
Proof.
  intros Ha Hk Hl i x Hx j y Hy. rewrite lookup_update_where in Hx, Hy.
  apply fmap_Some in Hx as (r & Hr & ->). apply fmap_Some in Hy as (r' & Hr' & ->).
  destruct (decide (i = j)) as [|Hij]; [by left|right]. split; [|by apply Hl].
  assert (forall i r, t !! i = Some r -> let x := if p i r then f i r else r in
            row_kind x = row_kind r /\ row_dedup_key x = row_dedup_key r) as Hg.
  { intros i' r0 H. simpl. destruct (p i' r0) eqn:E; [by apply Hk|done]. }
  destruct (Hg _ _ Hr) as [K1 D1], (Hg _ _ Hr') as [K2 D2]. unfold same_key. rewrite K1, K2, D1, D2.
  destruct (Ha _ _ Hr _ _ Hr') as [|[H _]]; [done|exact H].
Qed.

(** An update that keeps the rows' keys and at most clears leases. *)
Definition retouch (r r' : JobRow) : Prop :=
  keeps_key r r' /\ row_ok r' = true /\ (row_lease_id r' = None \/ row_lease_id r' = row_lease_id r).

Lemma retouch_ok p f q :
  queue_ok q = true ->
  (forall i r, jobs q !! i = Some r -> row_ok r = true -> p i r = true -> retouch r (f i r)) ->
  queue_ok (with_jobs (update_where p f) q) = true.
Proof.
  rewrite !queue_ok_spec. intros (Hr & Ha & Hf) Hp. simpl. split_and!; [| |done].
  - intros i x Hx. rewrite lookup_update_where in Hx. apply fmap_Some in Hx as (r & E & ->).
    destruct (p i r) eqn:Ep; [|by eapply Hr]. by apply Hp; [|eapply Hr|].
  - apply apart_update; [done|intros i r E Ep; by apply Hp; [|eapply Hr|]|].
    intros i r j r' Hij E E'. destruct (Ha _ _ E _ _ E') as [|[_ H]]; [done|].
    apply same_lease_false in H. apply same_lease_false.
    assert (forall k x, jobs q !! k = Some x -> let y := if p k x then f k x else x in
              row_lease_id y = None \/ row_lease_id y = row_lease_id x) as Hg.
    { intros k x Ek. simpl. destruct (p k x) eqn:Ep; [|by right]. by apply Hp; [|eapply Hr|]. }
    destruct (Hg _ _ E) as [E1|E1]; [by left|]. destruct (Hg _ _ E') as [E2|E2]; rewrite E1, E2; [|done].
    destruct (row_lease_id r); [by right|by left].
Qed.

Lemma delete_ok p q : queue_ok q = true -> queue_ok (with_jobs (delete_where p) q) = true.
Proof.
  rewrite !queue_ok_spec. intros (Hr & Ha & Hf). simpl.
  assert (forall i r, delete_where p (jobs q) !! i = Some r -> jobs q !! i = Some r) as Hs.
  { intros i r. rewrite lookup_delete_where. destruct (jobs q !! i) as [x|]; [|done]. simpl.
    destruct (p i x); [done|]. by intros [= ->]. }
  split_and!; [|intros i r H j r' H'|done].
  - intros i r H. by eapply Hr, Hs.
  - by apply (Ha _ _ (Hs _ _ H) _ _ (Hs _ _ H')).
Qed.

(** ** The invariant *)

(** A row leased at its current generation has been tried, or is a collection whose
    attempts started over. *)
Definition tried (r : JobRow) : Prop :=
  row_lease_generation r = Some (row_generation r) ->
  1 <= row_attempts r \/ row_kind r = as_str CatalogCollection.

Definition wf (q : Queue) : Prop :=
  queue_ok q = true /\ map_Forall (fun _ r => tried r) (jobs q).

Lemma statement_cases {A} (f : Queue -> Queue * A) q :
  (queue_ok (f q).1 = true /\ statement f q = (Ok (f q).2, (f q).1)) \/
  (queue_ok (f q).1 = false /\ statement f q = (Err Database, q)).
Proof. unfold statement. destruct (f q) as [q' a]. simpl. destruct (queue_ok q'); auto. Qed.

Lemma statement_ok {A} (f : Queue -> Queue * A) q :
  queue_ok (f q).1 = true -> statement f q = (Ok (f q).2, (f q).1).
Proof. destruct (statement_cases f q) as [[_ ->]|[-> _]]; done. Qed.

Lemma statement_wf {A} (f : Queue -> Queue * A) q :
  wf q -> map_Forall (fun _ r => tried r) (jobs (f q).1) -> wf (statement f q).2.
Proof. intros Hq Ht. by destruct (statement_cases f q) as [[H ->]|[H ->]]. Qed.

Lemma tried_update p f q :
  map_Forall (fun _ r => tried r) (jobs q) ->
  (forall i r, jobs q !! i = Some r -> p i r = true -> tried r -> tried (f i r)) ->
  map_Forall (fun _ r => tried r) (update_where p f (jobs q)).
Proof.
  intros H Hp i x Hx. rewrite lookup_update_where in Hx. apply fmap_Some in Hx as (r & E & ->).
  pose proof (H _ _ E) as T. destruct (p i r) eqn:Ep; [by apply Hp|exact T].
Qed.

Lemma tried_delete p q :
  map_Forall (fun _ r => tried r) (jobs q) ->
  map_Forall (fun _ r => tried r) (delete_where p (jobs q)).
Proof.
  intros H i x. rewrite lookup_delete_where. destruct (jobs q !! i) as [r|] eqn:E; [|done]. simpl.
  destruct (p i r); [done|]. intros [= <-]. by eapply H.
Qed.

(** Rows after each update. *)
Lemma lease_complete_unlease r : lease_complete (unlease r) = true.
Proof. done. Qed.

Lemma heartbeat_retouch e r : row_ok r = true -> row_lease_id r <> None ->
  retouch r (set_lease (row_lease_id r) (row_lease_generation r) (row_leased_by r) (Some e) r).
Proof.
  intros H Hl. split_and!; [done| |by right]. apply row_ok_spec in H as (H1 & H2 & H3 & H4 & H5).
  apply row_ok_spec. split_and!; try done; try apply H1. unfold lease_complete in *. simpl in *.
  destruct (row_lease_id r), (row_lease_generation r), (row_leased_by r), (row_lease_expires_at r); done.
Qed.

Lemma turn_retouch a t e r : row_ok r = true -> 0 <= a <= row_max_attempts r ->
  retouch r (set_turn a t e (unlease r)).
Proof.
  intros H Ha. split_and!; [done| |by left]. apply row_ok_spec in H as (H1 & H2 & H3 & H4 & H5).
  apply row_ok_spec. split_and!; simpl; try done; lia.
Qed.

Lemma lane_retouch l r : row_ok r = true -> retouch r (set_lane (lane_as_str l) r).
Proof.
  intros H. split_and!; [done| |by right]. apply row_ok_spec in H as (H1 & H2 & H3 & H4 & H5).
  apply row_ok_spec. split_and!; simpl; try done; try lia. apply lane_as_str_ok.
Qed.

Lemma raised_retouch job r : row_ok r = true -> retouch r (raised job r).
Proof.
  intros H. split_and!; [done| |by right]. apply row_ok_spec in H as (H1 & H2 & H3 & H4 & H5).
  apply row_ok_spec. split_and!; simpl; try done; try lia. apply lane_as_str_ok.
Qed.

(** What a new command must satisfy to be stored. *)
Definition storable (job : NewJob) : Prop :=
  0 < new_max_attempts job /\ dedup_ok (new_dedup_key job) = true /\ payload_fits (new_payload job) = true.

Lemma renewed_retouch job r : row_ok r = true -> storable job -> row_generation r < i64_max ->
  retouch r (renewed job r).
Proof.
  intros H (J1 & J2 & J3) Hg. split_and!; [done| |by right].
  apply row_ok_spec in H as (H1 & H2 & H3 & H4 & H5).
  apply row_ok_spec. split_and!; simpl; try done; try lia; [apply lane_as_str_ok|].
  unfold lease_complete in *. simpl.
  destruct (row_lease_id r), (row_lease_generation r), (row_leased_by r), (row_lease_expires_at r); try done.
  rewrite andb_true_iff, !Z.leb_le in *. lia.
Qed.

Lemma unlease_tried r : tried (unlease r).
Proof. by intros [=]. Qed.

Lemma renewed_tried job r : row_ok r = true -> tried (renewed job r).
Proof.
  intros H E. simpl in *. apply row_ok_spec in H as (_ & _ & _ & _ & H).
  unfold lease_complete in H. rewrite E in H.
  destruct (row_lease_id r), (row_leased_by r), (row_lease_expires_at r); try done.
  rewrite andb_true_iff, !Z.leb_le in H. lia.
Qed.

Lemma reset_retouch e r : row_ok r = true -> retouch r (set_turn 0 (row_available_at r) e r).
Proof.
  intros H. split_and!; [done| |by right]. apply row_ok_spec in H as (H1 & H2 & H3 & H4 & H5).
  apply row_ok_spec. split_and!; simpl; try done; lia.
Qed.

(** *** Batches *)

Lemma batch_elem locked p key limit (t : gmap Z JobRow) i r :
  (i, r) ∈ batch locked p key limit t -> t !! i = Some r /\ i ∉ locked /\ p i r = true.
Proof.
  intros H. assert ((i, r) ∈ select_where (fun i r => negb (bool_decide (i ∈ locked)) && p i r) t) as Hs.
  { rewrite <- (sort_by_perm (fun a b => lex_le (key a) (key b))).
    eapply elem_of_subseteq; [|exact H]. intros x. apply subseteq_take. }
  apply elem_select in Hs as [Ht Hp]. by bprop.
Qed.

Lemma in_batch_spec locked p key limit (t : gmap Z JobRow) i r :
  t !! i = Some r -> in_batch (batch locked p key limit t) i = true -> i ∉ locked /\ p i r = true.
Proof.
  intros Ht Hb. unfold in_batch in Hb. bprop. apply list_elem_of_fmap in Hb as ([j x] & -> & Hx).
  apply batch_elem in Hx as (Hx & ? & ?). simpl in *. by simplify_eq.
Qed.

(** *** Statements that need nothing *)

Lemma archive_ok now error r : row_ok r = true -> 1 <= row_attempts r -> failure_ok (archive now error r) = true.
Proof.
  intros H Ha. apply row_ok_spec in H as (H1 & H2 & H3 & H4 & H5). unfold failure_ok. simpl.
  rewrite !andb_true_iff, !Z.ltb_lt, !Z.leb_le. split_and!; try done; lia.
Qed.

Lemma bury_ok now error p q :
  queue_ok q = true ->
  (forall i r, jobs q !! i = Some r -> p i r = true -> 1 <= row_attempts r) ->
  queue_ok (bury now error p q).1 = true.
Proof.
  intros Hq Ha. pose proof (delete_ok p _ Hq) as Hd. apply queue_ok_spec in Hq as (Hr & _ & Hf).
  apply queue_ok_spec in Hd as (D1 & D2 & _). apply queue_ok_spec. simpl in *. split_and!; [done|done|].
  intros k f Hk. apply lookup_union_Some_raw in Hk as [Hk|[_ Hk]]; [|by eapply Hf].
  apply elem_of_list_to_map_2, list_elem_of_fmap in Hk as ([i r] & [= -> ->] & Hi).
  apply elem_select in Hi as [Hi Hp]. apply archive_ok; [by eapply Hr|by eapply Ha].
Qed.

Lemma held_tried q id lease gen i r :
  wf q -> jobs q !! i = Some r -> held_row id lease gen i r = true ->
  i = id /\ row_lease_id r = Some lease /\ row_generation r = gen /\
  row_lease_generation r = Some (row_generation r) /\
  (1 <= row_attempts r \/ row_kind r = as_str CatalogCollection).
Proof.
  intros [_ Ht] Hi H. unfold held_row, holds in H. bprop. subst.
  split_and!; try done. apply (Ht _ _ Hi). congruence.
Qed.

Lemma expired_retouch now l r : row_ok r = true ->
  retouch r (set_turn (row_attempts r) (Z.min (row_available_at r) now) (row_last_error r)
               (unlease (set_lane (lane_as_str l) r))).
Proof.
  intros H. split_and!; [done| |by left]. apply row_ok_spec in H as (H1 & H2 & H3 & H4 & H5).
  apply row_ok_spec. split_and!; simpl; try done; try lia. apply lane_as_str_ok.
Qed.

Lemma expected_lane_ok k l : expected_lane kind_lanes k = Some l -> exists l', l = lane_as_str l'.
Proof.
  unfold expected_lane. destruct (find _ _) as [[k' l']|] eqn:E; [|done]. intros [= <-].
  apply find_Some in E as [E _]. apply list_elem_of_fmap in E as (x & [= -> ->] & _). eauto.
Qed.

Lemma realign_retouch r : row_ok r = true ->
  retouch r (default r ((fun l => set_lane l r) <$> expected_lane kind_lanes (row_kind r))).
Proof.
  intros H. destruct (expected_lane _ _) as [l|] eqn:E; simpl; [|by split_and!; try right].
  apply expected_lane_ok in E as [l' ->]. by apply lane_retouch.
Qed.

(** *** Claims *)

(** The database's random ids: none is drawn twice, none is in use. *)
Definition fresh_leases (fresh : Z -> Z) (t : gmap Z JobRow) : Prop :=
  (forall i j, i <> j -> fresh i <> fresh j) /\
  (forall i r, t !! i = Some r -> forall j, row_lease_id r <> Some (fresh j)).

Definition leased_row (now : Z) (fresh : Z -> Z) (worker : str) (ms : Z) (move : option JobLane) (i : Z) (r : JobRow) :=
  lease_row now fresh worker ms i (match lane_as_str <$> move with Some l => set_lane l r | None => r end).

Lemma leased_row_ok now fresh worker ms move i r :
  row_ok r = true -> claimable now r = true -> row_ok (leased_row now fresh worker ms move i r) = true.
Proof.
  intros H Hc. apply row_ok_spec in H as (R1 & R2 & R3 & R4 & R5). unfold claimable in Hc. bprop.
  unfold leased_row. apply row_ok_spec.
  destruct move as [l|]; simpl; (split_and!; try done; try lia; try apply lane_as_str_ok);
    unfold lease_complete; simpl; rewrite andb_true_iff, !Z.leb_le; lia.
Qed.

Lemma claim_ok locked now fresh worker p key limit ms move q :
  queue_ok q = true -> fresh_leases fresh (jobs q) ->
  let chosen := batch locked (fun _ r => claimable now r && p r) key limit (jobs q) in
  queue_ok (with_jobs (update_where (fun i _ => in_batch chosen i)
                         (leased_row now fresh worker ms move)) q) = true.
Proof.
  intros Hq [Hinj Hnew] chosen. apply queue_ok_spec in Hq as (Hr & Ha & Hf). apply queue_ok_spec.
  simpl. split_and!; [| |done].
  - intros i x Hx. rewrite lookup_update_where in Hx. apply fmap_Some in Hx as (r & E & ->).
    destruct (in_batch chosen i) eqn:Eb; [|by eapply Hr].
    apply (in_batch_spec _ _ _ _ _ _ _ E) in Eb as [_ Hp]. bprop.
    apply leased_row_ok; [by eapply Hr|done].
  - apply apart_update; [done| |].
    + intros i r _ _. unfold leased_row. by destruct move.
    + intros i r j r' Hij E E'. apply same_lease_false.
      assert (forall k x, row_lease_id (leased_row now fresh worker ms move k x) = Some (fresh k)) as Hl
        by (by destruct move).
      destruct (in_batch chosen i), (in_batch chosen j); rewrite ?Hl.
      * right. intros [= H]. by apply (Hinj i j).
      * right. intros H. by apply (Hnew _ _ E' i).
      * right. by apply (Hnew _ _ E).
      * apply same_lease_false. by destruct (Ha _ _ E _ _ E') as [|[_ H]].
Qed.

(** *** Enqueueing *)

Definition acceptable (job : NewJob) (q : Queue) : Prop :=
  storable job /\ jobs q !! new_id job = None /\
  map_Forall (fun _ r => in_conflict job r = true -> row_generation r < i64_max) (jobs q).

Lemma inserted_ok now job : storable job -> row_ok (inserted now job) = true.
Proof.
  intros (J1 & J2 & J3). apply row_ok_spec. unfold i64_max.
  split_and!; simpl; try done; try lia. apply lane_as_str_ok.
Qed.

(** Rows that satisfy their own constraints and the unique indexes. *)
Definition rows_ok (t : gmap Z JobRow) : Prop := map_Forall (fun _ r => row_ok r = true) t /\ rows_apart t.

Lemma queue_rows_ok q :
  queue_ok q = true <-> rows_ok (jobs q) /\ map_Forall (fun _ f => failure_ok f = true) (failures q).
Proof. rewrite queue_ok_spec. unfold rows_ok. tauto. Qed.

Lemma same_key_sym r r' : same_key r r' = same_key r' r.
Proof.
  apply eq_true_iff_eq. unfold same_key. rewrite !andb_true_iff, !bool_decide_eq_true.
  split; intros [[H1 H2] H3]; split_and!; congruence.
Qed.

(** A new row that no row has the key of. *)
Lemma insert_row_ok (t : gmap Z JobRow) id r0 :
  rows_ok t -> row_ok r0 = true -> row_lease_id r0 = None ->
  (forall i r, t !! i = Some r -> same_key r0 r = false) -> rows_ok (<[id := r0]> t).
Proof.
  intros [Hr Ha] H0 Hl Hk. split; [by apply map_Forall_insert_2|].
  intros i r Hi j r' Hj.
  apply lookup_insert_Some in Hi as [[<- <-]|[Hi E]]; apply lookup_insert_Some in Hj as [[<- <-]|[Hj E']].
  - by left.
  - right. split; [by eapply Hk|apply same_lease_false; by left].
  - right. split; [rewrite same_key_sym; by eapply Hk|apply same_lease_false]. rewrite Hl.
    destruct (row_lease_id r); [by right|by left].
  - by eapply Ha.
Qed.

Lemma nothing_selected (p : JobRow -> bool) (t : gmap Z JobRow) i r :
  select_where (fun _ => p) t = [] -> t !! i = Some r -> p r = false.
Proof.
  intros Hn Hi. destruct (p r) eqn:C; [|done].
  assert ((i, r) ∈ select_where (fun _ => p) t) as H by by apply elem_select.
  rewrite Hn in H. by apply not_elem_of_nil in H.
Qed.

Lemma insert_ok now job q ids :
  queue_ok q = true -> storable job -> select_where (fun _ => in_conflict job) (jobs q) = [] ->
  queue_ok {| jobs := <[new_id job := inserted now job]> (jobs q); enqueues := ids;
              failures := failures q |} = true.
Proof.
  rewrite !queue_rows_ok. intros [Hr Hf] Hs Hn. split; [|done].
  apply insert_row_ok; [done|by apply inserted_ok|done|]. intros i r Hi.
  apply (nothing_selected _ _ _ _ Hn) in Hi. apply not_true_is_false. intros K.
  apply not_true_iff_false in Hi. apply Hi. unfold same_key in K. simpl in K. bprop.
  unfold in_conflict. rewrite !andb_true_iff, !bool_decide_eq_true. split_and!; congruence.
Qed.

(** *** Inserts of other handlers *)

Definition plantable (j : PlainJob) : Prop :=
  lane_ok (pj_lane j) = true /\ 0 < pj_max_attempts j /\ dedup_ok (pj_dedup_key j) = true
  /\ payload_fits (pj_payload j) = true.

Lemma planted_ok now j : plantable j -> row_ok (planted now j) = true.
Proof. intros (H1 & H2 & H3 & H4). apply row_ok_spec. unfold i64_max. split_and!; simpl; try done; lia. Qed.

Lemma on_conflict_retouch c j r : plantable j -> row_ok r = true -> retouch r (on_conflict c j r).
Proof.
  intros (H1 & _) Hr. assert (retouch r r) as Hsame by (by split_and!; try right).
  assert (forall p, retouch r (set_lane (pj_lane j) (set_priority p r))) as Hmove.
  { intros p. split_and!; [done| |by right]. apply row_ok_spec in Hr as (R1 & R2 & R3 & R4 & R5).
    apply row_ok_spec. split_and!; simpl; try done; lia. }
  destruct c; cbn; [done|split_ifs; [|done]|split_ifs; [apply Hmove|done]|split_ifs; [|done]].
  - split_and!; [done| |by right]. by apply row_ok_spec in Hr; apply row_ok_spec.
  - destruct (Hmove (row_priority r)) as (K & O & L). split_and!; [done| |by right].
    apply row_ok_spec in O. by apply row_ok_spec.
Qed.

Lemma plant_ok now j c (t : gmap Z JobRow) :
  rows_ok t -> plantable j -> t !! pj_id j = None ->
  exists t', plant now (j, c) t = Some t' /\ rows_ok t' /\
    forall i, i <> pj_id j -> t !! i = None -> t' !! i = None.
Proof.
  intros Ht Hj Hid. unfold plant. destruct (select_where _ t) as [|e l] eqn:E.
  - rewrite bool_decide_eq_false_2 by (rewrite Hid; by intros [? ?]). eexists. split; [done|]. split.
    + apply insert_row_ok; [done|by apply planted_ok|done|]. intros i r Hi.
      apply (nothing_selected _ _ _ _ E) in Hi. apply not_true_is_false. intros K.
      apply not_true_iff_false in Hi. apply Hi. unfold same_key in K. simpl in K. bprop.
      unfold clashes. rewrite !andb_true_iff, !bool_decide_eq_true. split_and!; congruence.
    + intros i Hi Hn. by rewrite lookup_insert_ne.
  - eexists. split; [done|]. split.
    + assert (queue_ok {| jobs := t; enqueues := ∅; failures := ∅ |} = true) as Hq by by apply queue_rows_ok.
      apply (retouch_ok (fun _ => clashes j) (fun _ => on_conflict c j)) in Hq.
      * by apply queue_rows_ok in Hq as [? _].
      * intros i r _ Hr _. by apply on_conflict_retouch.
    + intros i _ Hn. by rewrite lookup_update_where, Hn.
Qed.

Lemma plant_all_None now l : foldl (fun t e => t ≫= plant now e) None l = None.
Proof. by induction l. Qed.

Lemma plant_all_cons now e l t :
  plant_all now (e :: l) t = match plant now e t with Some t' => plant_all now l t' | None => None end.
Proof. unfold plant_all. cbn. destruct (plant now e t); [done|apply plant_all_None]. Qed.

Lemma plant_all_ok now l (t : gmap Z JobRow) :
  rows_ok t -> Forall (fun e => plantable e.1) l -> NoDup (map (fun e => pj_id e.1) l) ->
  Forall (fun e => t !! pj_id e.1 = None) l -> exists t', plant_all now l t = Some t' /\ rows_ok t'.
Proof.
  revert t. induction l as [|[j c] l IH]; intros t Ht Hl Hn Hf; [by exists t|]. rewrite plant_all_cons.
  destruct (plant_ok now j c t) as (t1 & -> & Ht1 & Hk); [done|by inversion Hl|by inversion Hf|].
  apply NoDup_cons in Hn as [Hj Hn]. apply IH; [done|by inversion Hl|done|].
  inversion Hf as [|? ? _ Hf']. subst. apply Forall_forall. intros e He. rewrite Forall_forall in Hf'.
  apply Hk; [|by apply Hf']. intros E. apply Hj. simpl. rewrite <- E. by apply (list_elem_of_fmap_2 (fun e => pj_id e.1)).
Qed.

(** What every row of the table keeps. *)
Lemma plant_rows (P : JobRow -> Prop) now e (t t' : gmap Z JobRow) :
  plant now e t = Some t' -> map_Forall (fun _ r => P r) t -> P (planted now e.1) ->
  (forall r, P r -> P (on_conflict e.2 e.1 r)) -> map_Forall (fun _ r => P r) t'.
Proof.
  destruct e as [j c]. unfold plant. intros Hp Ht H0 Hc. destruct (select_where _ t) as [|x l].
  - case_bool_decide; [done|]. injection Hp as <-. by apply map_Forall_insert_2.
  - injection Hp as <-. intros i x' Hx. rewrite lookup_update_where in Hx. apply fmap_Some in Hx as (r & E & ->).
    destruct (clashes j r); [apply Hc|]; by eapply Ht.
Qed.

Lemma plant_all_rows (P : JobRow -> Prop) now l (t t' : gmap Z JobRow) :
  plant_all now l t = Some t' -> map_Forall (fun _ r => P r) t -> (forall j, P (planted now j)) ->
  (forall c j r, P r -> P (on_conflict c j r)) -> map_Forall (fun _ r => P r) t'.
Proof.
  intros Hp Ht H0 Hc. revert t Hp Ht. induction l as [|e l IH]; intros t Hp Ht; [by injection Hp as <-|].
  rewrite plant_all_cons in Hp. destruct (plant now e t) as [t1|] eqn:E; [|done].
  eapply IH; [done|]. eapply plant_rows; eauto.
Qed.

Lemma on_conflict_tried c j r : tried r -> tried (on_conflict c j r).
Proof. intros H. destruct c; cbn; [done|split_ifs; exact H..]. Qed.

(** ** Every statement *)

(** What a statement needs of its caller's data; most need nothing. *)
Definition sane (s : Stmt) (q : Queue) : Prop :=
  match s with
  | SClaim _ _ fresh _ _ _ _ _ _ => fresh_leases fresh (jobs q)
  | SEnqueue _ job | SEnqueueIfAbsent _ job => acceptable job q
  | SInsert _ _ l =>
      Forall (fun e => plantable e.1) l /\ NoDup (map (fun e => pj_id e.1) l)
      /\ Forall (fun e => jobs q !! pj_id e.1 = None) l
  | SDeadLetter _ id lease gen _ =>
      forall r, jobs q !! id = Some r -> holds lease gen r = true -> 1 <= row_attempts r
  | _ => True
  end.

Lemma ran_statement {A} (f : Queue -> Queue * A) q :
  queue_ok (f q).1 = true -> (ran (statement f q)).1 = true.
Proof. intros H. by rewrite statement_ok. Qed.

Lemma ran_statement_wf {A} (f : Queue -> Queue * A) q :
  wf q -> map_Forall (fun _ r => tried r) (jobs (f q).1) -> wf (ran (statement f q)).2.
Proof. apply statement_wf. Qed.

Lemma claim_statement locked now fresh worker p key limit ms move q :
  claim_sql locked now fresh worker p key limit ms (lane_as_str <$> move) q =
  statement (fun q =>
    let chosen := batch locked (fun _ r => claimable now r && p r) key limit (jobs q) in
    (with_jobs (update_where (fun i _ => in_batch chosen i) (leased_row now fresh worker ms move)) q,
     map (fun e => (e.1, leased_row now fresh worker ms move e.1 e.2)) chosen)) q.
Proof. done. Qed.

Lemma upsert_ok now job guard f q :
  wf q -> acceptable job q ->
  (forall r, row_ok r = true -> in_conflict job r = true -> row_generation r < i64_max ->
     retouch r (f r)) ->
  is_ok (upsert_sql now job guard f q).1 = true.
Proof.
  intros [Hq _] (Hs & Hid & Hg) Hf. unfold upsert_sql. case_bool_decide; [done|].
  destruct (select_where _ _) as [|e l] eqn:E.
  - rewrite bool_decide_eq_false_2 by (rewrite Hid; by intros [? ?]).
    rewrite statement_ok; [done|]. by apply insert_ok.
  - rewrite statement_ok; [done|]. apply retouch_ok; [exact Hq|].
    intros i r Hi Hr Hp. simpl in Hi. bprop. by apply Hf; [..|eapply Hg].
Qed.

Lemma upsert_wf now job guard f q :
  wf q -> (forall r, row_ok r = true -> tried r -> tried (f r)) ->
  wf (upsert_sql now job guard f q).2.
Proof.
  intros Hq Hf. unfold upsert_sql. case_bool_decide; [done|].
  assert (forall i r, jobs q !! i = Some r -> row_ok r = true) as Hr.
  { destruct Hq as [Hq _]. by apply queue_ok_spec in Hq as (Hr & _). }
  destruct (select_where _ _) as [|e l].
  - case_bool_decide; [done|]. apply statement_wf; [done|]. apply map_Forall_insert_2; [by intros [=]|apply Hq].
  - apply statement_wf; [done|].
    refine (tried_update _ (fun _ => f) {| jobs := jobs q; enqueues := _; failures := failures q |} _ _);
      [apply Hq|]. intros i r Hi _ Ht. apply Hf; [by eapply Hr|done].
Qed.

Lemma insert_sql_ok now accepts l q :
  queue_ok q = true -> Forall (fun e => plantable e.1) l -> NoDup (map (fun e => pj_id e.1) l) ->
  Forall (fun e => jobs q !! pj_id e.1 = None) l -> (ran (insert_sql now accepts l q)).1 = true.
Proof.
  intros [Hq Hf]%queue_rows_ok H1 H2 H3. unfold insert_sql. set (l' := if accepts then _ else l).
  assert (sublist l' l) as Hsub.
  { unfold l'. destruct accepts; [|done]. clear. induction l as [|e l IH]; cbn; [done|]. case_match; by constructor. }
  assert (forall P : _ -> Prop, Forall P l -> Forall P l') as Hall.
  { intros P. rewrite !Forall_forall. intros H e He. apply H. by eapply sublist_subseteq. }
  destruct (plant_all_ok now l' (jobs q)) as (t' & -> & Ht'); [done|by apply Hall| |by apply Hall|].
  { eapply sublist_NoDup; [done|by apply map_sublist]. }
  apply ran_statement. by apply queue_rows_ok.
Qed.

Lemma insert_sql_wf now accepts l q : wf q -> wf (insert_sql now accepts l q).2.
Proof.
  intros Hq. unfold insert_sql. destruct (plant_all _ _ _) as [t'|] eqn:E; [|done]. apply statement_wf; [done|].
  eapply plant_all_rows; [done|apply Hq|by intros j [=]|apply on_conflict_tried].
Qed.

Lemma cleanup_ok q (p : (Z * Z) * Failure -> Prop) `{forall e, Decision (p e)} :
  queue_ok q = true -> queue_ok {| jobs := jobs q; enqueues := enqueues q; failures := filter p (failures q) |} = true.
Proof. rewrite !queue_rows_ok. intros [Hr Hf]. split; [done|]. intros k f [Hk _]%map_lookup_filter_Some. by eapply Hf. Qed.

(** A failure with no attempt is not one the table takes. *)
Lemma lookup_buried now error p (t : gmap Z JobRow) id r :
  t !! id = Some r -> p id r = true ->
  (list_to_map (map (fun e => ((e.1, row_generation e.2), archive now error e.2)) (select_where p t))
     : gmap (Z * Z) Failure) !! (id, row_generation r) = Some (archive now error r).
Proof.
  intros Ht Hp. apply elem_of_list_to_map_1.
  - rewrite <- list_fmap_compose.
    apply (NoDup_fmap_1 fst). rewrite <- list_fmap_compose. exact (select_NoDup p t).
  - apply list_elem_of_fmap. exists (id, r). split; [done|]. by apply elem_select.
Qed.

Lemma reset_not_buried now id lease gen error q r :
  jobs q !! id = Some r -> holds lease gen r = true -> row_attempts r = 0 ->
  exec (SDeadLetter now id lease gen error) q = (false, q).
Proof.
  intros Hr Hh H0. unfold exec, ran, dead_letter_sql.
  match goal with |- context [statement ?g q] => destruct (statement_cases g q) as [[E _]|[_ ->]] end; [|done].
  exfalso. apply queue_ok_spec in E as (_ & _ & Hf).
  assert (failure_ok (archive now (fun _ => error) r) = true) as F.
  { apply (Hf (id, row_generation r)). apply lookup_union_Some_l, lookup_buried; [done|].
    unfold held_row. by rewrite Z.eqb_refl, Hh. }
  unfold failure_ok in F. bprop. simpl in *. lia.
Qed.

Lemma exec_ok s q : wf q -> sane s q -> (exec s q).1 = true.
Proof.
  intros Hq Hs. pose proof Hq as [Hok _]. destruct s; simpl.
  - apply ran_statement. by apply delete_ok.
  - apply ran_statement, retouch_ok; [done|]. intros i r Hi Hr (_ & Hl & _)%(held_tried q); try done.
    apply heartbeat_retouch; [done|by rewrite Hl].
  - apply ran_statement, retouch_ok; [done|]. intros i r Hi Hr _. apply turn_retouch; [done|].
    apply row_ok_spec in Hr. lia.
  - apply ran_statement, retouch_ok; [done|]. intros i r Hi Hr _. apply turn_retouch; [done|].
    apply row_ok_spec in Hr. lia.
  - apply ran_statement, retouch_ok; [done|]. intros i r Hi Hr _. split_and!; [done| |by left].
    apply row_ok_spec in Hr as (? & ? & ? & ? & ?). by apply row_ok_spec.
  - apply ran_statement, bury_ok; [done|]. intros i r Hi Hh. unfold held_row in Hh. bprop. subst. by apply Hs.
  - apply ran_statement, bury_ok; [done|]. intros i r Hi Hb.
    apply (in_batch_spec _ _ _ _ _ _ _ Hi) in Hb as [_ He]. unfold exhausted in He. bprop.
    apply queue_ok_spec in Hok as (Hr & _). apply Hr, row_ok_spec in Hi. lia.
  - rewrite claim_statement. apply ran_statement. by apply claim_ok.
  - apply ran_statement, retouch_ok; [done|]. intros i r Hi Hr _. by apply expired_retouch.
  - unfold ran. simpl. apply upsert_ok; [done|done|]. intros r Hr _ Hg. by apply renewed_retouch; [|apply Hs|].
  - unfold ran. simpl. apply upsert_ok; [done|done|]. intros r Hr _ _. by apply raised_retouch.
  - apply ran_statement, retouch_ok; [done|]. intros i r Hi Hr _. by apply realign_retouch.
  - done.
  - apply ran_statement, retouch_ok; [done|]. intros i r Hi Hr _. by apply reset_retouch.
  - apply ran_statement. by apply delete_ok.
  - apply insert_sql_ok; [done|apply Hs..].
  - apply ran_statement. by apply cleanup_ok.
Qed.

Lemma realign_tried r : tried r ->
  tried (default r ((fun l => set_lane l r) <$> expected_lane kind_lanes (row_kind r))).
Proof. by destruct (expected_lane kind_lanes (row_kind r)). Qed.

Lemma exec_wf s q : wf q -> issued s q -> wf (exec s q).2.
Proof.
  intros Hq Hi0. pose proof Hq as [Hok Ht].
  assert (forall i r, jobs q !! i = Some r -> row_ok r = true) as Hr.
  { by apply queue_ok_spec in Hok as (Hr & _). }
  destruct s; simpl; try (apply statement_wf; [done|]); try by apply tried_delete.
  - apply tried_update; [done|]. intros i r Hi _ H. exact H.
  - apply tried_update; [done|]. intros i r Hi _ _ [=].
  - apply tried_update; [done|]. intros i r Hi _ _ [=].
  - apply tried_update; [done|]. intros i r Hi _ _ [=].
  - apply tried_update; [done|]. intros i r Hi Hb _ _.
    apply (in_batch_spec _ _ _ _ _ _ _ Hi) in Hb as [_ Hc]. apply Hr, row_ok_spec in Hi. left.
    destruct to; simpl; lia.
  - apply tried_update; [done|]. intros i r Hi _ _ [=].
  - apply upsert_wf; [done|]. intros r H _. by apply renewed_tried.
  - apply upsert_wf; [done|]. intros r _ H. exact H.
  - apply tried_update; [done|]. intros i r _ _. apply realign_tried.
  - split; [|done]. apply queue_ok_spec. by apply queue_ok_spec in Hok.
  - apply tried_update; [done|]. intros i r Hi Hh _ _. right. simpl. bprop. unfold held_row in *. bprop. subst.
    by apply Hi0.
  - by apply insert_sql_wf.
  - done.
Qed.

Lemma reachable_wf q : reachable q -> wf q.
Proof.
  induction 1 as [|q s _ IH Hi]; [|by apply exec_wf].
  split; [|by intros ? ? ?]. vm_compute. reflexivity.
Qed.

(** C2: after any sequence of statements by any workers, the queue's tables keep every
    constraint: attempts within the budget, leases all-or-nothing and of a generation that
    exists, no two rows with one dedup key or one lease; and a row leased at its current
    generation has an attempt counted, unless it is a collection, whose handler may start
    its attempts over after a page.  No statement of the queue (complete, heartbeat, retry,
    postpone, release, recover, realign, claim with fresh lease ids, the clean-ups) is ever
    refused by a constraint, and an insert only for a row that breaks the constraints
    itself; but a dead letter is refused, and the tables stay as they were, exactly when the
    attempts of the job it holds were started over. *)
Theorem queue_invariant q (Hq : reachable q) :
  map_Forall (fun _ r =>
    0 <= row_attempts r <= row_max_attempts r /\
    (row_lease_id r = None <-> row_lease_generation r = None) /\
    (forall g, row_lease_generation r = Some g ->
       1 <= g <= row_generation r /\
       (g = row_generation r -> 1 <= row_attempts r \/ row_kind r = lit "catalog.collection"))) (jobs q) /\
  (forall i r j r', jobs q !! i = Some r -> jobs q !! j = Some r' -> i <> j ->
     (row_lease_id r <> None -> row_lease_id r <> row_lease_id r') /\
     (row_dedup_key r <> None -> row_kind r = row_kind r' -> row_dedup_key r <> row_dedup_key r')) /\
  (forall s, sane s q -> (exec s q).1 = true) /\
  (forall now id lease gen error r, jobs q !! id = Some r -> holds lease gen r = true -> row_attempts r = 0 ->
     exec (SDeadLetter now id lease gen error) q = (false, q)).
Proof.
  apply reachable_wf in Hq. pose proof Hq as [Hok Ht]. apply queue_ok_spec in Hok as (Hr & Ha & _).
  split_and!; [| |intros s Hs; by apply exec_ok|by intros *; apply reset_not_buried].
  - intros i r Hi. pose proof (Ht _ _ Hi) as T. apply Hr, row_ok_spec in Hi as (R1 & _ & _ & _ & R5).
    unfold lease_complete in R5. unfold tried in T.
    destruct (row_lease_id r), (row_lease_generation r) as [g|], (row_leased_by r), (row_lease_expires_at r);
      try done; split_and!; try lia; try done; intros g' [= <-]; bprop.
    split; [lia|]. intros ->. by apply T.
  - intros i r j r' Hi Hj Hij. destruct (Ha _ _ Hi _ _ Hj) as [|[K L]]; [done|]. split.
    + apply same_lease_false in L. naive_solver.
    + intros Hd Hk He. unfold same_key in K. by rewrite !bool_decide_eq_true_2 in K.
Qed.

End facts.
