(* ===== verification/JobLifecycle.v ===== *)
(** * JobLifecycle: what becomes of a job: it is never lost, never stuck, and
    only the worker that holds its lease decides. *)

From Stdlib Require Import ZArith Lia String.
From stdpp Require Import base list numbers option tactics sets gmap.
From S2P Require Import Prelude Text JobKind JobRepository JobQueue JobQueueFacts.
Local Open Scope Z_scope.

Section lifecycle.
Context {payloads : Payloads}.

(** ** Fate of a row *)

(** A row only moves to later generations; within one its work stays the same. *)
Definition evolves (r r' : JobRow) : Prop :=
  row_kind r' = row_kind r /\ row_dedup_key r' = row_dedup_key r /\
  row_created_at r' = row_created_at r /\ row_generation r <= row_generation r' /\
  (row_generation r' = row_generation r ->
     row_payload r' = row_payload r /\ row_max_attempts r' = row_max_attempts r).

Lemma evolves_refl r : evolves r r.
Proof. unfold evolves. by split_and!. Qed.

Definition fate (q' : Queue) (id : Z) (r : JobRow) (completed : Prop) : Prop :=
  (exists r', jobs q' !! id = Some r' /\ evolves r r') \/
  (jobs q' !! id = None /\
   (completed \/
    exists f, failures q' !! (id, row_generation r) = Some f /\
      failed_kind f = row_kind r /\ failed_dedup_key f = row_dedup_key r /\
      failed_payload f = row_payload r /\ failed_attempts f = row_attempts r)).

Definition remembers (q q' : Queue) : Prop :=
  forall k, is_Some (failures q !! k) -> is_Some (failures q' !! k).

(** A failure is forgotten by the clean-up alone, after thirty days. *)
Definition forgets (s : Stmt) (q q' : Queue) : Prop :=
  forall k f, failures q !! k = Some f -> failures q' !! k = None ->
    exists locked now, s = SCleanupFailures locked now /\ failed_at f < now - 30 * DAY_US.

Lemma remembers_forgets s q q' : remembers q q' -> forgets s q q'.
Proof. intros H k f Hf Hn. destruct (H k) as [x Hx]; [by eexists|]. congruence. Qed.

Lemma fate_same q id r c : jobs q !! id = Some r -> fate q id r c.
Proof. intros H. left. exists r. split; [done|apply evolves_refl]. Qed.

Lemma fate_update p f (q : Queue) id r c :
  jobs q !! id = Some r -> evolves r (f id r) -> fate (with_jobs (update_where p f) q) id r c.
Proof.
  intros H He. left. simpl. rewrite lookup_update_where, H. eexists. split; [done|].
  destruct (p id r); [done|apply evolves_refl].
Qed.

Lemma fate_bury now error p (q : Queue) id r c :
  jobs q !! id = Some r -> fate (bury now error p q).1 id r c.
Proof.
  intros H. destruct (p id r) eqn:Ep.
  - right. simpl. rewrite lookup_delete_where, H. simpl. rewrite Ep. split; [done|right].
    exists (archive now error r). split_and!; try done.
    apply lookup_union_Some_l. by apply lookup_buried.
  - left. simpl. rewrite lookup_delete_where, H. simpl. rewrite Ep. exists r. split; [done|apply evolves_refl].
Qed.

Lemma remembers_bury now error p (q : Queue) : remembers q (bury now error p q).1.
Proof.
  intros k Hk. simpl. apply lookup_union_is_Some. by right.
Qed.

Lemma statement_fate {A} (f : Queue -> Queue * A) q id r c :
  jobs q !! id = Some r -> fate (f q).1 id r c -> remembers q (f q).1 ->
  fate (statement f q).2 id r c /\ remembers q (statement f q).2.
Proof.
  intros H Hf Hm. destruct (statement_cases f q) as [[_ ->]|[_ ->]]; [done|].
  split; [by apply fate_same|by intros k].
Qed.

Lemma upsert_fate now job guard f q id r c :
  jobs q !! id = Some r -> (in_conflict job r = true -> evolves r (f r)) ->
  fate (upsert_sql now job guard f q).2 id r c /\ remembers q (upsert_sql now job guard f q).2.
Proof.
  intros H He. unfold upsert_sql. case_bool_decide; [split; [by apply fate_same|by intros k]|].
  destruct (select_where _ _) as [|e l].
  - case_bool_decide as Hi; [split; [by apply fate_same|by intros k]|].
    apply statement_fate; [done| |by intros k]. apply fate_same. simpl.
    rewrite lookup_insert_ne; [done|]. intros <-. apply Hi. by eexists.
  - apply statement_fate; [done| |by intros k]. left. simpl. rewrite lookup_update_where, H.
    eexists. split; [done|]. destruct (in_conflict job r); [|apply evolves_refl].
    destruct (guard r); [by apply He|apply evolves_refl].
Qed.

Lemma renewed_evolves job r : evolves r (renewed job r).
Proof. unfold evolves. simpl. split_and!; try done; lia. Qed.

Lemma raised_evolves job r : evolves r (raised job r).
Proof. unfold evolves. by split_and!. Qed.

Lemma on_conflict_evolves c j r : evolves r (on_conflict c j r).
Proof. unfold evolves. destruct c; cbn; split_ifs; by split_and!. Qed.

Lemma evolves_trans r1 r2 r3 : evolves r1 r2 -> evolves r2 r3 -> evolves r1 r3.
Proof.
  intros (K1 & D1 & C1 & G1 & S1) (K2 & D2 & C2 & G2 & S2). unfold evolves. split_and!; [congruence..|lia|].
  intros E. destruct S2 as [P2 M2]; [lia|]. destruct S1 as [P1 M1]; [lia|]. split; congruence.
Qed.

Lemma plant_evolves now e (t t' : gmap Z JobRow) id r :
  plant now e t = Some t' -> t !! id = Some r -> exists r', t' !! id = Some r' /\ evolves r r'.
Proof.
  destruct e as [j c]. unfold plant. intros Hp Hr. destruct (select_where _ t) as [|x l].
  - case_bool_decide as Hn; [done|]. injection Hp as <-. exists r. split; [|apply evolves_refl].
    rewrite lookup_insert_ne; [done|]. intros <-. apply Hn. by eexists.
  - injection Hp as <-. rewrite lookup_update_where, Hr. eexists. split; [done|].
    destruct (clashes j r); [apply on_conflict_evolves|apply evolves_refl].
Qed.

Lemma plant_all_evolves now l (t t' : gmap Z JobRow) id r :
  plant_all now l t = Some t' -> t !! id = Some r -> exists r', t' !! id = Some r' /\ evolves r r'.
Proof.
  revert t r. induction l as [|e l IH]; intros t r Hp Hr.
  - injection Hp as <-. exists r. split; [done|apply evolves_refl].
  - rewrite plant_all_cons in Hp. destruct (plant now e t) as [t1|] eqn:E; [|done].
    destruct (plant_evolves _ _ _ _ _ _ E Hr) as (r1 & Hr1 & E1). destruct (IH _ _ Hp Hr1) as (r2 & Hr2 & E2).
    exists r2. split; [done|by eapply evolves_trans].
Qed.

(** How a row leaves the table without a failure. *)
Definition finished (s : Stmt) (id : Z) (r : JobRow) : Prop :=
  (exists lease, s = SComplete id lease (row_generation r) /\ holds lease (row_generation r) r = true)
  \/ (exists track, s = SDropIndexTrigger track /\ index_trigger track r = true).

Lemma insert_fate now accepts l q id r c :
  jobs q !! id = Some r ->
  fate (insert_sql now accepts l q).2 id r c /\ remembers q (insert_sql now accepts l q).2.
Proof.
  intros H. unfold insert_sql. destruct (plant_all _ _ _) as [t'|] eqn:E; [|split; [by apply fate_same|by intros k]].
  apply statement_fate; [done| |by intros k]. left. simpl. by eapply plant_all_evolves.
Qed.

Lemma cleanup_fate locked now q id r c :
  jobs q !! id = Some r -> fate (cleanup_job_failures_sql locked now q).2 id r c.
Proof.
  intros H. unfold cleanup_job_failures_sql.
  match goal with |- context [statement ?g q] => destruct (statement_cases g q) as [[_ ->]|[_ ->]] end; by apply fate_same.
Qed.

Lemma exec_fate s q id r :
  jobs q !! id = Some r -> fate (exec s q).2 id r (finished s id r) /\ (remembers q (exec s q).2 \/ exists l n, s = SCleanupFailures l n).
Proof.
  intros H.
  assert (forall q', fate q' id r (finished s id r) /\ remembers q q' ->
    fate q' id r (finished s id r) /\ (remembers q q' \/ exists l n, s = SCleanupFailures l n)) as Hw by naive_solver.
  destruct s as [| | | | | | | | | | | | | | | |locked now]; simpl;
    [..|split; [by apply cleanup_fate|right; by eexists _, _]]; apply Hw;
    try (apply statement_fate; [done| |by intros k]);
    try by apply fate_update; [done|unfold evolves; by split_and!].
  - destruct (held_row id0 lease gen id r) eqn:E.
    + right. simpl. rewrite lookup_delete_where, H. simpl. rewrite E. split; [done|left; left]. exists lease.
      unfold held_row in E. bprop. subst. unfold holds in *. bprop. subst.
      split; [done|]. by rewrite !bool_decide_eq_true_2, Z.eqb_refl.
    + apply fate_same. simpl. rewrite lookup_delete_where, H. simpl. by rewrite E.
  - apply statement_fate; [done|by apply fate_bury|apply remembers_bury].
  - apply statement_fate; [done|by apply fate_bury|apply remembers_bury].
  - apply fate_update; [done|]. unfold evolves. by destruct to.
  - apply upsert_fate; [done|]. intros _. apply renewed_evolves.
  - apply upsert_fate; [done|]. intros _. apply raised_evolves.
  - apply fate_update; [done|]. unfold evolves.
    by destruct (expected_lane kind_lanes (row_kind r)).
  - split; [by apply fate_same|by intros k].
  - destruct (index_trigger track r) eqn:E.
    + right. simpl. rewrite lookup_delete_where, H. simpl. rewrite E. split; [done|left; right]. by exists track.
    + apply fate_same. simpl. rewrite lookup_delete_where, H. simpl. by rewrite E.
  - by apply insert_fate.
Qed.

Lemma cleanup_forgets locked now q :
  forgets (SCleanupFailures locked now) q (exec (SCleanupFailures locked now) q).2.
Proof.
  intros k f Hf. unfold exec, ran, cleanup_job_failures_sql. cbn [snd].
  match goal with |- context [statement ?g q] => destruct (statement_cases g q) as [[_ ->]|[_ ->]] end; [|cbn; congruence].
  cbn [failures fst]. intros Hn. exists locked, now. split; [done|].
  set (expired := take _ _) in Hn. assert (k ∈ map fst expired) as Hk.
  { apply map_lookup_filter_None in Hn as [Hn|Hn]; [congruence|].
    destruct (decide (k ∈ map fst expired)) as [|Hk]; [done|]. by destruct (Hn f Hf). }
  apply list_elem_of_fmap in Hk as ([k' f'] & -> & He). simpl in *.
  assert ((k', f') ∈ List.filter (fun e => negb (bool_decide (e.1 ∈ locked)) && outdated now e.2) (map_to_list (failures q))) as Hin.
  { unfold expired in He. rewrite <- (sort_by_perm (fun a b => failed_at a.2 <=? failed_at b.2)).
    eapply elem_of_subseteq; [|exact He]. intros x. apply subseteq_take. }
  apply list_elem_of_In, filter_In in Hin as [Hin Ho]. apply list_elem_of_In, elem_of_map_to_list in Hin.
  rewrite Hf in Hin. injection Hin as <-. unfold outdated in Ho. simpl in Ho. bprop. lia.
Qed.

(** C16: a job is never lost: whatever statement any worker or handler runs, a queued row
    stays (with its kind, key and age; the same payload unless a newer command raised its
    generation), or is deleted by the completion of the worker that holds its lease at its
    current generation, or is archived with its payload in the failures under its id and
    generation, or is the unleased request to index a track whose audio was just stored;
    and an archived failure disappears only thirty days later. *)
Theorem job_never_lost q s id r (Hr : jobs q !! id = Some r) :
  ((exists r', jobs (exec s q).2 !! id = Some r' /\
      row_kind r' = row_kind r /\ row_dedup_key r' = row_dedup_key r /\
      row_created_at r' = row_created_at r /\ row_generation r <= row_generation r' /\
      (row_generation r' = row_generation r -> row_payload r' = row_payload r)) \/
   (jobs (exec s q).2 !! id = None /\
    ((exists lease, s = SComplete id lease (row_generation r) /\
        row_lease_id r = Some lease /\ row_lease_generation r = Some (row_generation r)) \/
     (exists track, s = SDropIndexTrigger track /\ row_kind r = lit "indexing.track" /\
        row_dedup_key r = Some track /\ row_lease_id r = None) \/
     exists f, failures (exec s q).2 !! (id, row_generation r) = Some f /\
       failed_kind f = row_kind r /\ failed_dedup_key f = row_dedup_key r /\
       failed_payload f = row_payload r /\ failed_attempts f = row_attempts r))) /\
  (forall k f, failures q !! k = Some f -> failures (exec s q).2 !! k = None ->
     exists locked now, s = SCleanupFailures locked now /\ failed_at f < now - 30 * DAY_US).
Proof.
  destruct (exec_fate s q id r Hr) as [Hf Hm]. split.
  - destruct Hf as [(r' & H & E)|[H [[(lease & -> & L)|(track & -> & L)]|F]]].
    + left. exists r'. unfold evolves in E. naive_solver.
    + right. split; [done|left]. exists lease. unfold holds in L. by bprop.
    + right. split; [done|right; left]. exists track. unfold index_trigger in L. by bprop.
    + right. auto.
  - destruct Hm as [Hm|(locked & now & ->)]; [by apply remembers_forgets|apply cleanup_forgets].
Qed.

(** ** Statements on one row *)

Definition only (id : Z) (p : Z -> JobRow -> bool) : Prop := forall i r, p i r = true -> i = id.

Lemma held_only id lease gen : only id (held_row id lease gen).
Proof. intros i r H. unfold held_row in H. by bprop. Qed.

Lemma outrun_only id lease gen : only id (fun i r => (i =? id) && outrun lease gen r).
Proof. intros i r H. by bprop. Qed.

Lemma update_id p f (t : gmap Z JobRow) id r :
  only id p -> t !! id = Some r -> p id r = true -> update_where p f t = <[id := f id r]> t.
Proof.
  intros Ho Ht Hp. apply map_eq. intros i. rewrite lookup_update_where.
  destruct (decide (i = id)) as [->|Hi]; [by rewrite lookup_insert_eq, Ht; simpl; rewrite Hp|].
  rewrite lookup_insert_ne by done. destruct (t !! i) as [x|]; [|done]. simpl.
  destruct (p i x) eqn:E; [|done]. by apply Ho in E.
Qed.

Lemma delete_id p (t : gmap Z JobRow) id r :
  only id p -> t !! id = Some r -> p id r = true -> delete_where p t = delete id t.
Proof.
  intros Ho Ht Hp. apply map_eq. intros i. rewrite lookup_delete_where.
  destruct (decide (i = id)) as [->|Hi]; [by rewrite lookup_delete_eq, Ht; simpl; rewrite Hp|].
  rewrite lookup_delete_ne by done. destruct (t !! i) as [x|]; [|done]. simpl.
  destruct (p i x) eqn:E; [|done]. by apply Ho in E.
Qed.

(** The row with this id, if any, is not one the statement matches. *)
Definition misses (id : Z) (p : Z -> JobRow -> bool) (q : Queue) : Prop :=
  forall r, jobs q !! id = Some r -> p id r = false.

Lemma affected_id p q id : only id p ->
  rows_affected p (jobs q) =
  match jobs q !! id with Some r => if p id r then 1%nat else 0%nat | None => 0%nat end.
Proof.
  intros Ho. unfold rows_affected. rewrite (select_id p (jobs q) id Ho).
  destruct (jobs q !! id); [|done]. by destruct (p id _).
Qed.

Lemma affected_hit p q id r : only id p -> jobs q !! id = Some r -> p id r = true ->
  rows_affected p (jobs q) = 1%nat.
Proof. intros Ho Hr Hp. by rewrite (affected_id p q id), Hr, Hp. Qed.

Lemma affected_miss p q id : only id p -> misses id p q -> rows_affected p (jobs q) = 0%nat.
Proof.
  intros Ho Hm. rewrite (affected_id p q id) by done. destruct (jobs q !! id) as [r|] eqn:E; [|done].
  by rewrite Hm.
Qed.

Lemma update_miss p f q id : only id p -> misses id p q -> with_jobs (update_where p f) q = q.
Proof.
  intros Ho Hm. destruct q as [t e fl]. unfold with_jobs. simpl. f_equal. apply map_eq. intros i.
  rewrite lookup_update_where. destruct (t !! i) as [r|] eqn:E; [|done]. simpl.
  destruct (p i r) eqn:Ep; [|done]. pose proof (Ho _ _ Ep) as ->. by rewrite (Hm r E) in Ep.
Qed.

Lemma delete_miss p q id : only id p -> misses id p q -> with_jobs (delete_where p) q = q.
Proof.
  intros Ho Hm. destruct q as [t e fl]. unfold with_jobs. simpl. f_equal. apply map_eq. intros i.
  rewrite lookup_delete_where. destruct (t !! i) as [r|] eqn:E; [|done]. simpl.
  destruct (p i r) eqn:Ep; [|done]. pose proof (Ho _ _ Ep) as ->. by rewrite (Hm r E) in Ep.
Qed.

Lemma bury_miss now error p q id : only id p -> misses id p q -> bury now error p q = (q, 0%nat).
Proof.
  intros Ho Hm. unfold bury. rewrite (affected_miss p q id) by done.
  assert (select_where p (jobs q) = []) as ->.
  { apply nil_length_inv. exact (affected_miss p q id Ho Hm). }
  simpl. pose proof (delete_miss p q id Ho Hm) as D. destruct q as [t e fl]. unfold with_jobs in D.
  simpl in *. injection D as ->. by rewrite map_empty_union.
Qed.

Lemma update_statement_miss p f q id :
  wf q -> only id p -> misses id p q -> update_statement p f q = (Ok 0%nat, q).
Proof.
  intros [Hq _] Ho Hm. unfold update_statement. rewrite statement_ok; simpl.
  - by rewrite (affected_miss p q id), (update_miss p f q id).
  - by rewrite (update_miss p f q id).
Qed.

(** A statement [sql] that the checks let through. *)
Lemma update_statement_hit p f q id r :
  is_ok (update_statement p f q).1 = true -> only id p -> jobs q !! id = Some r -> p id r = true ->
  update_statement p f q = (Ok 1%nat, with_jobs (<[id := f id r]>) q).
Proof.
  intros Hok Ho Hr Hp. unfold update_statement in *.
  match goal with |- statement ?g q = _ => destruct (statement_cases g q) as [[_ E]|[_ E]]; rewrite E in * end;
    [|done]. simpl. rewrite (affected_hit p q id r) by done. unfold with_jobs. by rewrite (update_id p f _ id r).
Qed.

(** ** The worker that holds the lease *)

Definition current (job : LeasedJob) (q : Queue) (r : JobRow) : Prop :=
  jobs q !! leased_id job = Some r /\ holds (lease_id job) (leased_generation job) r = true.

Section holder.
Context (q : Queue) (job : LeasedJob) (r : JobRow) (Hq : wf q) (Hcur : current job q r).

Abbreviation id := (leased_id job).
Abbreviation held := (held_row (leased_id job) (lease_id job) (leased_generation job)).

Lemma holder_row : held id r = true.
Proof. unfold held_row. rewrite Z.eqb_refl. apply Hcur. Qed.

Lemma holder_not_outrun :
  misses id (fun i r => (i =? id) && outrun (lease_id job) (leased_generation job) r) q.
Proof.
  intros x Hx. destruct Hcur as [Hr H]. rewrite Hr in Hx. injection Hx as <-.
  unfold holds in H. unfold outrun. bprop. rewrite (proj2 (Z.eqb_eq _ _) H0). simpl negb. by rewrite !andb_false_r.
Qed.

Lemma holder_release : has_released_newer_generation job q = (Ok false, q).
Proof.
  unfold has_released_newer_generation, release_superseded_sql.
  by rewrite (bind_Ok _ _ _ _ _ (update_statement_miss _ _ q id Hq (outrun_only _ _ _) holder_not_outrun)).
Qed.

Lemma settle_one (stmt : ST Queue QueueError nat) q' :
  stmt q = (Ok 1%nat, q') -> settle stmt job q = (Ok Completed, q').
Proof. intros H. unfold settle. by rewrite (bind_Ok _ _ _ _ _ H). Qed.

Lemma holder_completes : complete job q = (Ok Completed, with_jobs (delete id) q).
Proof.
  apply settle_one. pose proof (exec_ok (SComplete id (lease_id job) (leased_generation job)) q Hq I) as H.
  unfold exec, ran, complete_sql in *.
  match goal with |- statement ?g q = _ => destruct (statement_cases g q) as [[_ E]|[_ E]]; rewrite E in * end; [|done].
  simpl. rewrite (affected_hit held q id r (held_only _ _ _)) by apply Hcur || apply holder_row.
  unfold with_jobs. rewrite (delete_id held _ id r (held_only _ _ _)); [done|apply Hcur|apply holder_row].
Qed.

Lemma holder_buries now error : 1 <= row_attempts r ->
  dead_letter now job error q =
  (Ok Completed, {| jobs := delete id (jobs q); enqueues := enqueues q;
                    failures := <[(id, row_generation r) := archive now (fun _ => error) r]> (failures q) |}).
Proof.
  intros Ha. apply settle_one.
  assert (sane (SDeadLetter now id (lease_id job) (leased_generation job) error) q) as Hs.
  { intros x Hx _. destruct Hcur as [Hr _]. rewrite Hr in Hx. by injection Hx as <-. }
  pose proof (exec_ok (SDeadLetter now id (lease_id job) (leased_generation job) error) q Hq Hs) as H.
  unfold exec, ran, dead_letter_sql in *.
  match goal with |- statement ?g q = _ => destruct (statement_cases g q) as [[_ E]|[_ E]]; rewrite E in * end; [|done].
  unfold bury. simpl. rewrite (affected_hit held q id r (held_only _ _ _)) by apply Hcur || apply holder_row.
  rewrite (delete_id held _ id r (held_only _ _ _)) by apply Hcur || apply holder_row.
  rewrite (select_id held (jobs q) id (held_only _ _ _)), (proj1 Hcur), holder_row. simpl.
  by rewrite <- insert_union_l, map_empty_union.
Qed.

Lemma holder_retries now ms error :
  settle (retry_sql now id (lease_id job) (leased_generation job) ms error) job q =
  (Ok Completed, with_jobs (<[id := set_turn (row_attempts r) (now + milliseconds ms) (Some error) (unlease r)]>) q).
Proof.
  apply settle_one, (update_statement_hit held (fun _ r => _)).
  - exact (exec_ok (SRetry now id (lease_id job) (leased_generation job) ms error) q Hq I).
  - apply held_only.
  - apply Hcur.
  - apply holder_row.
Qed.

Lemma holder_postpones now ms error e :
  row_lease_expires_at r = Some e -> now < e ->
  settle (postpone_sql now id (lease_id job) (leased_generation job) ms error) job q =
  (Ok Completed, with_jobs (<[id := set_turn (Z.max (row_attempts r - 1) 0) (now + milliseconds ms) (Some error) (unlease r)]>) q).
Proof.
  intros He Hlt. apply settle_one, (update_statement_hit _ (fun _ r => _) q id r).
  - exact (exec_ok (SPostpone now id (lease_id job) (leased_generation job) ms error) q Hq I).
  - intros i x H. bprop. by eapply held_only.
  - apply Hcur.
  - rewrite holder_row, He. by apply Z.ltb_lt.
Qed.
End holder.

(** A retry delay is far from the [i64] bound. *)
Lemma retry_ms_ok (q : Queue) job :
  duration_milliseconds (1000 * retry_delay (leased_id job) (leased_attempts job)) q
  = (Ok (1000 * retry_delay (leased_id job) (leased_attempts job)), q).
Proof.
  unfold duration_milliseconds, i64_max. pose proof (retry_delay_range (leased_id job) (leased_attempts job)).
  pose proof (retry_base_range (leased_attempts job)).
  pose proof (Z.div_le_mono (retry_base (leased_attempts job)) 512 4) as Hd. change (512 / 4) with 128 in Hd.
  by destruct (Z.ltb_spec 9223372036854775807 (1000 * retry_delay (leased_id job) (leased_attempts job))); [lia|].
Qed.

Lemma postpone_ms_ok (q : Queue) delay :
  duration_milliseconds (clampZ 1000 86400000 delay) q = (Ok (clampZ 1000 86400000 delay), q).
Proof.
  unfold duration_milliseconds, i64_max, clampZ.
  by destruct (Z.ltb_spec 9223372036854775807 (Z.min 86400000 (Z.max 1000 delay))); [lia|].
Qed.

(** What is left of a held row when its handler returns. *)
Definition buried (now : Z) (id : Z) (r : JobRow) (error : str) (q : Queue) : Queue :=
  {| jobs := delete id (jobs q); enqueues := enqueues q;
     failures := <[(id, row_generation r) := archive now (fun _ => error) r]> (failures q) |}.

Lemma holder_fails q job r now error retryable : wf q -> current job q r -> 1 <= row_attempts r ->
  fail now job error retryable q =
  (Ok Completed,
   if retryable && (leased_attempts job <? leased_max_attempts job)
   then with_jobs (<[leased_id job :=
          set_turn (row_attempts r)
            (now + milliseconds (1000 * retry_delay (leased_id job) (leased_attempts job)))
            (Some (take MAX_ERROR_LENGTH error)) (unlease r)]>) q
   else buried now (leased_id job) r (take MAX_ERROR_LENGTH error) q).
Proof.
  intros Hq Hc Ha. unfold fail. rewrite (bind_Ok _ _ _ _ _ (holder_release q job r Hq Hc)).
  unfold truncate. rewrite Z.leb_antisym.
  destruct retryable, (leased_attempts job <? leased_max_attempts job); simpl;
    try (by apply holder_buries).
  rewrite (bind_Ok _ _ _ _ _ (retry_ms_ok q job)). by apply holder_retries.
Qed.

(** The holder of a lease decides the job exactly: success deletes the row;
    a postponement gives the attempt back, clears the lease and makes the job
    due after the delay (clamped to a second and a day); a retryable error with
    budget left clears the lease and makes it due after the backoff of its
    attempt; any other error (permanent, settled, or the budget spent) moves it
    to the failures under its id and generation with the error cut to 2000
    characters.  Nothing else in the tables changes.  (The attempts of a collection may
    have been started over; see [reset_not_buried] for its errors.) *)
Theorem result_recorded q job r now res expires
  (Hq : reachable q) (Hcur : current job q r) (Htried : 1 <= row_attempts r)
  (Hlease : row_lease_expires_at r = Some expires) (Hlive : now < expires) :
  record_result now job res q =
  (Ok Completed,
   match res with
   | Ok _ => with_jobs (delete (leased_id job)) q
   | Err (Postponed delay error _) =>
       with_jobs (<[leased_id job :=
         set_turn (row_attempts r - 1) (now + 1000 * clampZ 1000 86400000 delay)
           (Some (take 2000 error)) (unlease r)]>) q
   | Err (Retryable error _) =>
       if leased_attempts job <? leased_max_attempts job
       then with_jobs (<[leased_id job :=
              set_turn (row_attempts r)
                (now + 1000 * (1000 * retry_delay (leased_id job) (leased_attempts job)))
                (Some (take 2000 error)) (unlease r)]>) q
       else buried now (leased_id job) r (take 2000 error) q
   | Err (Permanent error _) => buried now (leased_id job) r (take 2000 error) q
   | Err (Settled failure error _) =>
       buried now (leased_id job) r (take 2000 (failure_message failure error)) q
   end).
Proof.
  apply reachable_wf in Hq. destruct res as [u|[error b|error b|delay error b|failure error b]]; simpl.
  - by apply (holder_completes q job r).
  - rewrite (holder_fails q job r) by done. unfold milliseconds. simpl.
    destruct (leased_attempts job <? leased_max_attempts job); [|done]. by rewrite (Z.mul_comm _ 1000).
  - by rewrite (holder_fails q job r) by done.
  - unfold postpone. rewrite (bind_Ok _ _ _ _ _ (postpone_ms_ok q delay)).
    rewrite (holder_postpones q job r Hq Hcur now _ _ expires) by done.
    unfold milliseconds. rewrite Z.max_l by lia. by rewrite (Z.mul_comm _ 1000).
  - by rewrite (holder_fails q job r) by done.
Qed.

(** ** A worker that lost the lease *)

Section stale.
Context (q : Queue) (job : LeasedJob) (Hq : wf q).
Context (Hstale : misses (leased_id job)
                    (held_row (leased_id job) (lease_id job) (leased_generation job)) q).

Definition superseded_row (r : JobRow) : bool := outrun (lease_id job) (leased_generation job) r.

(** The lease is let go if a newer command overtook it; nothing else happens. *)
Definition let_go : bool * Queue :=
  match jobs q !! leased_id job with
  | Some r => if superseded_row r
              then (true, with_jobs (<[leased_id job := unlease r]>) q) else (false, q)
  | None => (false, q)
  end.

Lemma stale_release : has_released_newer_generation job q = (Ok let_go.1, let_go.2).
Proof.
  unfold has_released_newer_generation, let_go, superseded_row.
  destruct (jobs q !! leased_id job) as [r|] eqn:E; [destruct (outrun _ _ r) eqn:Eo|].
  - unfold release_superseded_sql.
    rewrite (bind_Ok _ _ q 1%nat (with_jobs (<[leased_id job := unlease r]>) q)); [done|].
    apply (update_statement_hit _ (fun _ => unlease) q (leased_id job) r).
    + exact (exec_ok (SReleaseSuperseded (leased_id job) (lease_id job) (leased_generation job)) q Hq I).
    + apply outrun_only.
    + done.
    + by rewrite Z.eqb_refl, Eo.
  - unfold release_superseded_sql. rewrite (bind_Ok _ _ q 0%nat q); [done|].
    apply (update_statement_miss _ _ q (leased_id job)); [done|apply outrun_only|].
    intros x Hx. rewrite E in Hx. injection Hx as <-. by rewrite Eo, andb_false_r.
  - unfold release_superseded_sql. rewrite (bind_Ok _ _ q 0%nat q); [done|].
    apply (update_statement_miss _ _ q (leased_id job)); [done|apply outrun_only|].
    intros x Hx. by rewrite E in Hx.
Qed.

Lemma stale_settle (stmt : ST Queue QueueError nat) :
  stmt q = (Ok 0%nat, q) ->
  settle stmt job q = (Ok (if let_go.1 then Superseded else LostLease), let_go.2).
Proof.
  intros H. unfold settle. rewrite (bind_Ok _ _ _ _ _ H). simpl. unfold release_superseded.
  by rewrite (bind_Ok _ _ _ _ _ stale_release).
Qed.

Lemma stale_update p f : (forall i r, p i r = true ->
    held_row (leased_id job) (lease_id job) (leased_generation job) i r = true) ->
  update_statement p f q = (Ok 0%nat, q).
Proof.
  intros Hp. apply (update_statement_miss p f q (leased_id job)); [done| |].
  - intros i r H. by eapply held_only, Hp.
  - intros r Hr. apply not_true_is_false. intros H. apply Hp in H. by rewrite (Hstale r Hr) in H.
Qed.

Lemma stale_delete : complete_sql (leased_id job) (lease_id job) (leased_generation job) q = (Ok 0%nat, q).
Proof.
  unfold complete_sql. rewrite statement_ok; simpl; rewrite (delete_miss _ q (leased_id job) (held_only _ _ _) Hstale).
  - by rewrite (affected_miss _ q (leased_id job) (held_only _ _ _) Hstale).
  - apply Hq.
Qed.

Lemma stale_bury now error :
  dead_letter_sql now (leased_id job) (lease_id job) (leased_generation job) error q = (Ok 0%nat, q).
Proof.
  unfold dead_letter_sql. pose proof (bury_miss now (fun _ => error) _ q (leased_id job) (held_only _ _ _) Hstale) as E.
  rewrite statement_ok; rewrite E; [done|apply Hq].
Qed.

Lemma stale_fails now error retryable :
  fail now job error retryable q = (Ok (if let_go.1 then Superseded else LostLease), let_go.2).
Proof.
  unfold fail. rewrite (bind_Ok _ _ _ _ _ stale_release). destruct let_go as [[|] q'] eqn:E; [done|].
  simpl. assert (q' = q) as ->.
  { unfold let_go in E. destruct (jobs q !! _); [|by injection E]. destruct (superseded_row _); by injection E. }
  destruct (negb retryable || _).
  - unfold dead_letter. rewrite stale_settle by apply stale_bury. by rewrite E.
  - rewrite (bind_Ok _ _ _ _ _ (retry_ms_ok q job)). rewrite stale_settle by by apply stale_update.
    by rewrite E.
Qed.
End stale.

(** A worker that lost its lease (it expired and was released or reclaimed, or
    a newer command for the same key was enqueued) cannot touch the job: its
    heartbeat reports the loss, and whatever its handler returned leaves every
    table as it was, except that a lease a newer command overtook is let go, so
    the new generation can be claimed; the answer is [LostLease] or
    [Superseded], never [Completed]. *)
Theorem stale_worker_harmless q job now res ms
  (Hq : reachable q)
  (Hstale : forall r, jobs q !! leased_id job = Some r ->
              ~ (row_lease_id r = Some (lease_id job) /\
                 row_lease_generation r = Some (leased_generation job) /\
                 row_generation r = leased_generation job)) :
  (ms <= i64_max -> heartbeat now job ms q = (Ok false, q)) /\
  record_result now job res q =
  match jobs q !! leased_id job with
  | Some r => if outrun (lease_id job) (leased_generation job) r
              then (Ok Superseded, with_jobs (<[leased_id job := unlease r]>) q) else (Ok LostLease, q)
  | None => (Ok LostLease, q)
  end.
Proof.
  apply reachable_wf in Hq.
  assert (misses (leased_id job) (held_row (leased_id job) (lease_id job) (leased_generation job)) q) as Hm.
  { intros r Hr. apply not_true_is_false. intros H. unfold held_row, holds in H. bprop.
    by apply (Hstale r Hr). }
  split.
  - intros Hms. unfold heartbeat, duration_milliseconds.
    destruct (Z.ltb_spec i64_max ms); [lia|]. rewrite (bind_Ok _ _ q ms q) by done.
    rewrite (bind_Ok _ _ q 0%nat q); [done|]. by apply (stale_update q job).
  - assert (forall m, m = (Ok (if (let_go q job).1 then Superseded else LostLease), (let_go q job).2) ->
              m = match jobs q !! leased_id job with
                  | Some r => if outrun (lease_id job) (leased_generation job) r
                      then (Ok Superseded, with_jobs (<[leased_id job := unlease r]>) q) else (Ok LostLease, q)
                  | None => (Ok LostLease : result Completion QueueError, q)
                  end) as Hgoal.
    { intros m ->. unfold let_go, superseded_row. destruct (jobs q !! _) as [r|]; [|done]. by destruct (outrun _ _ _). }
    apply Hgoal. destruct res as [u|[error b|error b|delay error b|failure error b]]; simpl;
      try by apply stale_fails.
    + apply stale_settle; [done|]. by apply stale_delete.
    + unfold postpone. rewrite (bind_Ok _ _ _ _ _ (postpone_ms_ok q delay)).
      apply stale_settle; [done|]. apply (stale_update q job); [done|done|]. intros i r H. by bprop.
Qed.

End lifecycle.
