(* ===== verification/JobClaims.v ===== *)
(** * JobClaims: which jobs a worker takes, and what an enqueued command becomes. *)

From Stdlib Require Import ZArith Lia String Sorting.Sorted.
From stdpp Require Import base list numbers option tactics sets gmap sorting.
From S2P Require Import Prelude Text JobKind JobRepository JobQueue JobQueueFacts JobLifecycle.
Local Open Scope Z_scope.

(** ** The order of a batch *)

Lemma lex_le_total a b : lex_le a b = false -> lex_le b a = true.
Proof.
  revert b. induction a as [|x a IH]; intros [|y b]; simpl; try done. intros H. bprop.
  destruct (Z.ltb_spec y x); [done|]. simpl. assert (x = y) as -> by lia.
  rewrite Z.eqb_refl in *. destruct H0 as [|]; [done|]. simpl. by apply IH.
Qed.

Lemma lex_le_trans a b c : lex_le a b = true -> lex_le b c = true -> lex_le a c = true.
Proof.
  revert b c. induction a as [|x a IH]; intros [|y b] [|z c]; simpl; try done.
  rewrite !orb_true_iff, !andb_true_iff, !Z.ltb_lt, !Z.eqb_eq. intros H1 H2.
  destruct H1 as [|[-> H1]], H2 as [|[-> H2]]; try (left; lia). right. eauto.
Qed.

Lemma take_best {A} (R : A -> A -> Prop) l n x y :
  StronglySorted R l -> x ∈ take n l -> y ∈ l -> y ∉ take n l -> R x y /\ length (take n l) = n.
Proof.
  intros Hs Hx Hy Hn. rewrite <- (take_drop n l) in Hs, Hy. apply elem_of_app in Hy as [|Hy]; [done|].
  split; [by eapply StronglySorted_app_1_elem_of|].
  rewrite length_take. destruct (decide (length l <= n)%nat) as [Hl|]; [|lia].
  rewrite drop_ge in Hy by done. by apply not_elem_of_nil in Hy.
Qed.

Lemma Forall2_in_r {A B} (P : A -> B -> Prop) l k y :
  Forall2 P l k -> y ∈ k -> exists x, x ∈ l /\ P x y.
Proof.
  induction 1 as [|a b l k Hab _ IH]; intros Hy; [by apply not_elem_of_nil in Hy|].
  apply elem_of_cons in Hy as [->|Hy]; [exists a; split; [set_solver|done]|].
  destruct (IH Hy) as (x & Hx & Hp). exists x. split; [set_solver|done].
Qed.

Section claims.
Context {payloads : Payloads} (worker_id : str).

Lemma batch_complete locked p key limit (t : gmap Z JobRow) i r :
  t !! i = Some r -> i ∉ locked -> p i r = true -> in_batch (batch locked p key limit t) i = false ->
  (length (batch locked p key limit t) = Z.to_nat limit) /\
  forall j x, (j, x) ∈ batch locked p key limit t -> lex_le (key (j, x)) (key (i, r)) = true.
Proof.
  intros Hi Hl Hp Hb.
  set (sel := select_where (fun i r => negb (bool_decide (i ∈ locked)) && p i r) t).
  assert ((i, r) ∈ order_by key sel) as Hin.
  { unfold order_by. rewrite sort_by_perm. apply elem_select. split; [done|].
    by rewrite bool_decide_eq_false_2, Hp. }
  assert ((i, r) ∉ batch locked p key limit t) as Hn.
  { intros H. unfold in_batch in Hb. bprop. apply Hb. apply list_elem_of_fmap. by exists (i, r). }
  pose proof (sort_by_sorted (fun a b => lex_le (key a) (key b)) sel
    (fun x y => lex_le_total _ _) (fun x y z => lex_le_trans _ _ _)) as Hs.
  split.
  - unfold batch in *. fold sel in Hn |- *. rewrite length_take.
    destruct (decide (length (order_by key sel) <= Z.to_nat limit)%nat) as [Hle|]; [|lia].
    by rewrite take_ge in Hn.
  - intros j x Hj. by apply (take_best _ _ _ _ _ Hs Hj Hin Hn).
Qed.

Lemma batch_NoDup locked p key limit (t : gmap Z JobRow) : NoDup (map fst (batch locked p key limit t)).
Proof.
  unfold batch. eapply sublist_NoDup; [|apply map_sublist, sublist_take].
  unfold order_by. rewrite sort_by_perm. apply select_NoDup.
Qed.

(** ** Claiming *)

Definition wanted (l : JobLane) (kinds : list JobKind) (order : ClaimOrder) (r : JobRow) : bool :=
  match order with
  | Kind k => bool_decide (row_kind r = as_str k)
  | _ => of_kinds l kinds r
  end.

Definition order_key (order : ClaimOrder) : Z * JobRow -> list Z :=
  match order with Oldest => oldest_key | _ => priority_key end.

Definition order_move (order : ClaimOrder) : option JobLane :=
  match order with Kind k => Some (lane k) | _ => None end.

(** The rows a claim takes, best first. *)
Definition taken (m : Moment) (l : JobLane) kinds order limit (q : Queue) : list (Z * JobRow) :=
  batch (locked m) (fun _ r => claimable (now m) r && wanted l kinds order r) (order_key order) limit (jobs q).

Definition job_of (e : Z * JobRow) (kind : JobKind) : LeasedJob :=
  {| leased_id := e.1; leased_kind := kind; leased_dedup_key := row_dedup_key e.2;
     leased_payload := row_payload e.2; leased_generation := default 0 (row_lease_generation e.2);
     leased_attempts := row_attempts e.2; leased_max_attempts := row_max_attempts e.2;
     lease_id := default 0 (row_lease_id e.2) |}.

Lemma collect_ok rows :
  (forall e, e ∈ rows -> exists k, row_kind e.2 = as_str k) ->
  exists jobs, collect rows = Ok jobs /\
    Forall2 (fun e job => exists k, row_kind e.2 = as_str k /\ job = job_of e k) rows jobs.
Proof.
  induction rows as [|e rows IH]; intros H; simpl; [by exists []|].
  destruct (H e) as [k Hk]; [set_solver|]. unfold try_from. rewrite Hk, from_str_as_str.
  destruct IH as (jobs & -> & HF); [set_solver|]. eexists. split; [done|]. constructor; [by exists k|done].
Qed.

Definition single (l : JobLane) (kinds : list JobKind) : Prop :=
  kinds <> [] /\ Forall (fun k => lane k = l) kinds.

Lemma single_lane_ok l kinds (q : Queue) : single l kinds -> single_lane kinds q = (Ok l, q).
Proof.
  intros [Hn Hl]. destruct kinds as [|k kinds]; [done|]. unfold single_lane.
  assert (lane k = l) as Hk by by inversion Hl. rewrite Hk.
  assert (any (fun k' => negb (bool_decide (lane k' = l))) (k :: kinds) = false) as ->; [|done].
  apply any_false. intros x Hx. rewrite Forall_forall in Hl. by rewrite bool_decide_eq_true_2 by by apply Hl.
Qed.

Lemma wanted_kind l kinds order r : wanted l kinds order r = true -> exists k, row_kind r = as_str k.
Proof.
  unfold wanted, of_kinds. intros H.
  destruct order; bprop; eauto;
    match goal with H : _ ∈ _ |- _ => apply list_elem_of_fmap in H as (k & -> & _); eauto end.
Qed.

Lemma claim_sql_runs m p key limit lease move q :
  wf q -> fresh_leases (fresh m) (jobs q) ->
  let chosen := batch (locked m) (fun _ r => claimable (now m) r && p r) key limit (jobs q) in
  let lead := leased_row (now m) (fresh m) worker_id lease move in
  claim_sql (locked m) (now m) (fresh m) worker_id p key limit lease (lane_as_str <$> move) q =
  (Ok (map (fun e => (e.1, lead e.1 e.2)) chosen),
   with_jobs (update_where (fun i _ => in_batch chosen i) lead) q).
Proof.
  intros Hq Hf chosen lead. rewrite claim_statement, statement_ok; [done|]. by apply claim_ok; [apply Hq|].
Qed.

(** A claim goes through, and takes [taken]. *)
Lemma claim_runs m l kinds order limit lease q :
  wf q -> fresh_leases (fresh m) (jobs q) -> single l kinds ->
  0 < limit <= i64_max -> lease <= i64_max ->
  let lead := leased_row (now m) (fresh m) worker_id lease (order_move order) in
  exists js,
    claim worker_id m kinds order limit lease q =
      (Ok js, with_jobs (update_where (fun i _ => in_batch (taken m l kinds order limit q) i) lead) q) /\
    Forall2 (fun e job => exists k, row_kind e.2 = as_str k /\ job = job_of (e.1, lead e.1 e.2) k)
      (taken m l kinds order limit q) js.
Proof.
  intros Hq Hf Hl Hlim Hlease lead. unfold claim.
  rewrite bool_decide_eq_false_2 by apply Hl. destruct (Z.eqb_spec limit 0); [lia|]. cbn [orb].
  rewrite (bind_Ok _ _ q l q) by by apply single_lane_ok.
  rewrite (bind_Ok _ _ q limit q). 2: { unfold as_limit. by destruct (Z.ltb_spec i64_max limit); [lia|]. }
  rewrite (bind_Ok _ _ q lease q). 2: { unfold duration_milliseconds. by destruct (Z.ltb_spec i64_max lease); [lia|]. }
  set (rows := map (fun e => (e.1, lead e.1 e.2)) (taken m l kinds order limit q)).
  destruct (collect_ok rows) as (js & Hjs & HF).
  { intros e He. apply list_elem_of_fmap in He as ([i r] & -> & Hi). apply batch_elem in Hi as (_ & _ & Hw).
    bprop. destruct (wanted_kind _ _ _ _ H0) as [k Hk]. exists k. simpl. unfold lead, leased_row.
    by destruct (order_move order). }
  exists js. split.
  - rewrite (bind_Ok _ _ q rows
      (with_jobs (update_where (fun i _ => in_batch (taken m l kinds order limit q) i) lead) q)).
    { unfold of_result. by rewrite Hjs. }
    pose proof (claim_sql_runs m (wanted l kinds order) (order_key order) limit lease (order_move order) q Hq Hf) as E.
    destruct order; exact E.
  - unfold rows in HF. apply Forall2_fmap_l in HF. eapply Forall2_impl; [exact HF|].
    intros e job (k & Hk & ->). exists k. split; [|done]. simpl in Hk. rewrite <- Hk. simpl.
    unfold lead, leased_row. by destruct (order_move order).
Qed.

(** C19: a claim takes exactly the best jobs that are due: for a worker of one
    lane it always goes through; every job returned was unleased, due, within
    its budget and of a wanted kind, and is now held by this claim's lease with
    one more attempt counted; no row is returned twice, every other row is as it
    was; and a wanted row that was left (and not locked by another transaction)
    comes after all that were taken in the claim's order, which then are as many
    as asked. *)
Theorem claim_exact m l kinds order limit lease q
  (Hq : reachable q) (Hfresh : fresh_leases (fresh m) (jobs q)) (Hlane : single l kinds)
  (Hlimit : 0 < limit <= i64_max) (Hlease : lease <= i64_max) :
  exists js q', claim worker_id m kinds order limit lease q = (Ok js, q') /\
    NoDup (map leased_id js) /\ Z.of_nat (length js) <= limit /\
    (forall job, job ∈ js -> exists r, jobs q !! leased_id job = Some r /\
       row_lease_id r = None /\ row_available_at r <= now m /\
       wanted l kinds order r = true /\ row_kind r = as_str (leased_kind job) /\
       leased_payload job = row_payload r /\
       leased_attempts job = row_attempts r + 1 /\ leased_attempts job <= leased_max_attempts job /\
       exists r', current job q' r' /\ row_lease_expires_at r' = Some (now m + 1000 * lease)) /\
    (forall i, i ∉ map leased_id js -> jobs q' !! i = jobs q !! i) /\
    (forall i r, jobs q !! i = Some r -> i ∉ map leased_id js -> i ∉ locked m ->
       claimable (now m) r = true -> wanted l kinds order r = true ->
       Z.of_nat (length js) = limit /\
       forall job r', job ∈ js -> jobs q !! leased_id job = Some r' ->
         lex_le (order_key order (leased_id job, r')) (order_key order (i, r)) = true).
Proof.
  apply reachable_wf in Hq.
  destruct (claim_runs m l kinds order limit lease q Hq Hfresh Hlane Hlimit Hlease) as (js & Hrun & HF).
  set (lead := leased_row (now m) (fresh m) worker_id lease (order_move order)) in *.
  set (chosen := taken m l kinds order limit q) in *.
  assert (map leased_id js = map fst chosen) as Hids.
  { clear Hrun. induction HF as [|e job chosen' js' (k & _ & ->) _ IH]; simpl; [done|]. by rewrite IH. }
  assert (length js = length chosen) as Hlen by (symmetry; by eapply Forall2_length).
  assert (Hjob : forall job, job ∈ js -> exists i r k, (i, r) ∈ chosen /\ row_kind r = as_str k /\
             job = job_of (i, lead i r) k).
  { intros job Hj. destruct (Forall2_in_r _ _ _ _ HF Hj) as ([i r] & Hi & k & Hk & ->). eauto 8. }
  assert (forall i, in_batch chosen i = true <-> i ∈ map leased_id js) as Hin.
  { intros i. rewrite Hids. apply bool_decide_eq_true. }
  assert (forall i r, lead i r = set_lease (Some (fresh m i)) (Some (row_generation r)) (Some worker_id)
            (Some (now m + milliseconds lease)) (lead i r) /\ row_generation (lead i r) = row_generation r
            /\ row_attempts (lead i r) = row_attempts r + 1 /\ row_max_attempts (lead i r) = row_max_attempts r
            /\ row_payload (lead i r) = row_payload r) as Hlead.
  { intros i r. unfold lead, leased_row. by destruct (order_move order). }
  clearbody lead. eexists js, _. split; [exact Hrun|]. split_and!.
  - rewrite Hids. apply batch_NoDup.
  - rewrite Hlen. unfold chosen, taken, batch. rewrite length_take. lia.
  - intros job Hj. destruct (Hjob job Hj) as (i & r & k & Hi & Hk & ->).
    destruct (Hlead i r) as (HL & HG & HA & HM & HP).
    pose proof (batch_elem _ _ _ _ _ _ _ Hi) as (Hr & _ & Hw). unfold claimable in Hw. bprop.
    exists r. simpl. rewrite HA, HM, HP. split_and!; try done; try lia.
    exists (lead i r). rewrite HL. simpl. unfold current, milliseconds. split; [|f_equal; lia]. simpl.
    rewrite lookup_update_where, Hr. simpl. split.
    + rewrite (proj2 (Hin i)); [by rewrite HL at 1|]. by apply (list_elem_of_fmap_2 leased_id) in Hj.
    + unfold holds. rewrite HL. simpl. rewrite HG, !bool_decide_eq_true_2 by done. by rewrite Z.eqb_refl.
  - intros i Hi. simpl. rewrite lookup_update_where. destruct (jobs q !! i) as [r|]; [|done]. simpl.
    destruct (in_batch chosen i) eqn:E; [|done]. by apply Hin in E.
  - intros i r Hr Hi Hl Hc Hw.
    assert (in_batch chosen i = false) as Hn by (apply not_true_is_false; by rewrite Hin).
    destruct (batch_complete (locked m) (fun _ r => claimable (now m) r && wanted l kinds order r)
      (order_key order) limit (jobs q) i r Hr Hl ltac:(simpl; by rewrite Hc, Hw) Hn) as [Hfull Hbest].
    split. { rewrite Hlen. unfold chosen, taken. rewrite Hfull. lia. }
    intros job r' Hj Hr'. destruct (Hjob job Hj) as (j & x & k & Hx & _ & ->). simpl in *.
    pose proof (batch_elem _ _ _ _ _ _ _ Hx) as (Hx' & _). simplify_eq. by apply Hbest.
Qed.

(** ** Enqueueing *)

Lemma valid_key job (q : Queue) : storable job -> validate_dedup_key (new_dedup_key job) q = (Ok tt, q).
Proof.
  intros (_ & Hd & _). unfold validate_dedup_key, dedup_ok, MAX_DEDUP_KEY_LENGTH in *.
  destruct (new_dedup_key job) as [k|]; [|done]. bprop.
  destruct (Z.ltb_spec 1024 (str_len k)); [lia|]. rewrite orb_false_r.
  rewrite bool_decide_eq_false_2; [done|]. intros ->. simpl in *. lia.
Qed.

Lemma conflict_same_key job r r' :
  in_conflict job r = true -> in_conflict job r' = true -> same_key r r' = true.
Proof.
  unfold in_conflict, same_key. intros. bprop.
  rewrite !andb_true_iff, !bool_decide_eq_true. split_and!; congruence.
Qed.

(** The row that carries the command after it was accepted. *)
Definition carries (now : Z) (job : NewJob) (q q' : Queue) (id : Z) (r' : JobRow) : Prop :=
  jobs q' !! id = Some r' /\
  match jobs q !! id with
  | Some r => in_conflict job r = true /\ r' = renewed job r
  | None => id = new_id job /\ r' = inserted now job
  end /\
  forall j, j <> id -> jobs q' !! j = jobs q !! j.

Lemma enqueue_carried now job q :
  wf q -> acceptable job q -> new_id job ∉ enqueues q ->
  exists q' id r', enqueue now job q = (Ok tt, q') /\ enqueues q' = {[new_id job]} ∪ enqueues q /\
    carries now job q q' id r'.
Proof.
  intros Hq Ha Hn. pose proof (exec_ok (SEnqueue now job) q Hq Ha) as Hx. destruct Ha as (Hs & Hid & Hg).
  unfold enqueue. rewrite (bind_Ok _ _ q tt q) by by apply valid_key.
  unfold exec, ran, enqueue_sql, upsert_sql in *. rewrite bool_decide_eq_false_2 in * by done.
  destruct (select_where _ _) as [|[id r] l] eqn:E.
  - rewrite bool_decide_eq_false_2 in * by (rewrite Hid; by intros [? ?]).
    match goal with |- context [statement ?g q] => destruct (statement_cases g q) as [[_ X]|[_ X]]; rewrite X in * end; [|done].
    eexists _, (new_id job), _. split; [done|]. split; [done|]. unfold carries. simpl. rewrite Hid. split_and!.
    + apply lookup_insert_eq.
    + done.
    + done.
    + intros j Hj. by apply lookup_insert_ne.
  - match goal with |- context [statement ?g q] => destruct (statement_cases g q) as [[_ X]|[_ X]]; rewrite X in * end; [|done].
    assert ((id, r) ∈ select_where (fun _ => in_conflict job) (jobs q)) as [Hr Hc]%elem_select
      by (rewrite E; set_solver).
    eexists _, id, (renewed job r). split; [done|]. split; [done|]. unfold carries. simpl. rewrite Hr. split_and!.
    + rewrite lookup_update_where, Hr. simpl. by rewrite Hc.
    + done.
    + done.
    + intros j Hj. rewrite lookup_update_where. destruct (jobs q !! j) as [x|] eqn:Ex; [|done]. simpl.
      destruct (in_conflict job x) eqn:Ec; [|done]. exfalso. apply proj1, queue_ok_spec in Hq as (_ & Hap & _).
      destruct (Hap _ _ Hr _ _ Ex) as [|[K _]]; [done|]. by rewrite (conflict_same_key job) in K.
Qed.

(** An accepted command is always carried by a row that no earlier work can
    consume: a new row, or the one row with its kind and key, raised to the next
    generation, with the command's payload and budget, no attempt counted, and
    a lease (if one is still out) only of an older generation, so completing
    the old work cannot delete it; no other row changes, and delivering the
    command again, with anything in it, changes nothing. *)
Theorem enqueue_accepted now job q
  (Hq : reachable q) (Hjob : acceptable job q) (Hnew : new_id job ∉ enqueues q) :
  exists q' id r, enqueue now job q = (Ok tt, q') /\ jobs q' !! id = Some r /\
    row_kind r = as_str (new_kind job) /\ row_dedup_key r = new_dedup_key job /\
    row_payload r = new_payload job /\ row_max_attempts r = new_max_attempts job /\
    row_attempts r = 0 /\ new_priority job <= row_priority r /\
    (forall g, row_lease_generation r = Some g -> g < row_generation r) /\
    (forall j, j <> id -> jobs q' !! j = jobs q !! j) /\
    (forall now' job', new_id job' = new_id job -> storable job' -> enqueue now' job' q' = (Ok tt, q')).
Proof.
  apply reachable_wf in Hq. destruct (enqueue_carried now job q Hq Hjob Hnew) as (q' & id & r & Hrun & He & Hc & Hm & Ho).
  exists q', id, r. split; [exact Hrun|]. split; [exact Hc|].
  assert (forall now' job', new_id job' = new_id job -> storable job' -> enqueue now' job' q' = (Ok tt, q')) as Hagain.
  { intros now' job' Hid Hs. unfold enqueue. rewrite (bind_Ok _ _ q' tt q') by by apply valid_key.
    unfold enqueue_sql, upsert_sql. by rewrite bool_decide_eq_true_2 by (rewrite He, Hid; set_solver). }
  destruct (jobs q !! id) as [x|] eqn:Ex; destruct Hm as [Hm ->].
  - unfold in_conflict in Hm. bprop. simpl. split_and!; try done; [lia|].
    intros g Hg. apply proj1, queue_ok_spec in Hq as (Hrows & _).
    apply Hrows, row_ok_spec in Ex as (_ & _ & _ & _ & L). unfold lease_complete in L. rewrite Hg in L.
    destruct (row_lease_id x), (row_leased_by x), (row_lease_expires_at x); try done. bprop. lia.
  - simpl. by split_and!.
Qed.

(** The reason a job settled for is never garbled: read back from the stored
    error, cut as it may be, [from_last_error] gives the failure it was settled
    with, whatever the detail text. *)
Theorem settled_reason_roundtrip failure detail :
  from_last_error (truncate (failure_message failure detail) MAX_ERROR_LENGTH) = Some failure.
Proof.
  assert (exists tail, truncate (failure_message failure detail) MAX_ERROR_LENGTH
                       = failure_as_str failure ++ 58 :: tail) as [tail ->].
  { unfold truncate, failure_message. rewrite firstn_app.
    assert (exists n, (MAX_ERROR_LENGTH - length (failure_as_str failure))%nat = S n) as [n ->]
      by (unfold MAX_ERROR_LENGTH; destruct failure; vm_compute; eauto).
    rewrite firstn_all2; [|unfold MAX_ERROR_LENGTH; destruct failure; vm_compute; lia].
    eexists. simpl. reflexivity. }
  unfold from_last_error.
  assert (split_once 58 (failure_as_str failure ++ 58 :: tail) = Some (failure_as_str failure, tail)) as ->.
  { apply split_once_Some. split; [done|]. apply (bool_decide_unpack _). by destruct failure; vm_compute. }
  by destruct failure; vm_compute.
Qed.

(** Of any [2 n] consecutive claims of a lane that shares between its [n] kinds,
    each kind has one turn at the head. *)
Theorem turns_are_fair kinds i c
  (Hi : (i < length kinds)%nat) (Hc : 0 <= c) (Hmax : c + 2 * Z.of_nat (length kinds) < u64_max) :
  exists c' t, c <= c' < c + 2 * Z.of_nat (length kinds) /\
    kind_turn false true c' = Some t /\ kind_at kinds t 0 = kinds !! i.
Proof.
  set (n := Z.of_nat (length kinds)) in *. set (c0 := (c + 1) / 2).
  assert (0 < n) by lia. pose proof (Z.mod_pos_bound (Z.of_nat i - c0) n ltac:(lia)) as Hmod.
  set (t := c0 + (Z.of_nat i - c0) mod n).
  pose proof (Z.div_mod (c + 1) 2 ltac:(lia)). pose proof (Z.mod_pos_bound (c + 1) 2 ltac:(lia)).
  exists (2 * t), t. split_and!.
  - unfold t, c0 in *. lia.
  - unfold t, c0 in *. lia.
  - unfold kind_turn. cbn [andb]. rewrite Z.mul_comm, Z.mod_mul, Z.div_mul by lia. done.
  - unfold kind_at. rewrite Z.add_0_r, wrap_u64_small by (unfold in_u64, t, c0, u64_max in *; lia).
    fold n. unfold t. rewrite Zplus_mod_idemp_r. replace (c0 + (Z.of_nat i - c0)) with (Z.of_nat i) by lia.
    rewrite Z.mod_small by lia. by rewrite Nat2Z.id.
Qed.

End claims.

(** * The job queue theorems at a concrete queue.

    One command is enqueued, claimed by one worker, and then completed,
    overtaken or left to expire. *)

(** Payloads as their JSON text, of at most 64 characters. *)
#[local] Instance text_payloads : Payloads :=
  {| Value := str; payload_fits := fun v => (length v <=? 64)%nat |}.

Definition sample_job : NewJob :=
  {| new_id := 100; new_kind := CrawlArtist; new_dedup_key := Some (lit "artist:7");
     new_payload := lit "{}"; new_priority := 5; new_max_attempts := 3; new_available_at := 1000 |}.

Definition sample_moment : Moment := {| now := 2000; locked := ∅; fresh := fun i => i + 7 |}.

Definition sample_claim : Stmt :=
  SClaim ∅ 2000 (fun i => i + 7) (lit "w") (fun _ => true) priority_key 1 60000 None.

Definition queued : Queue := (exec (SEnqueue 500 sample_job) empty_queue).2.
Definition leased : Queue := (exec sample_claim queued).2.

(** The same key enqueued again while the lease is out. *)
Definition newer_job : NewJob :=
  {| new_id := 101; new_kind := CrawlArtist; new_dedup_key := Some (lit "artist:7");
     new_payload := lit "{1}"; new_priority := 1; new_max_attempts := 3; new_available_at := 3000 |}.

Definition overtaken : Queue := (exec (SEnqueue 2500 newer_job) leased).2.

Lemma queued_reachable : reachable queued.
Proof. apply reach_step; [apply reach_empty|done]. Qed.

Lemma leased_reachable : reachable leased.
Proof. apply reach_step; [apply queued_reachable|done]. Qed.

Lemma overtaken_reachable : reachable overtaken.
Proof. apply reach_step; [apply leased_reachable|done]. Qed.

Definition queued_row : JobRow := inserted 500 sample_job.

Definition leased_sample_row : JobRow :=
  leased_row 2000 (fun i => i + 7) (lit "w") 60000 None 100 queued_row.

Definition sample_lease : LeasedJob := job_of (100, leased_sample_row) CrawlArtist.

Lemma one_row (t : gmap Z JobRow) i r : map_to_list t = [(i, r)] -> t = {[i := r]}.
Proof. intros H. by rewrite <- (list_to_map_to_list t), H. Qed.

Lemma queued_jobs : jobs queued = {[100 := queued_row]}.
Proof. apply one_row. vm_compute. reflexivity. Qed.

Lemma leased_jobs : jobs leased = {[100 := leased_sample_row]}.
Proof. apply one_row. vm_compute. reflexivity. Qed.

Lemma overtaken_jobs : jobs overtaken = {[100 := renewed newer_job leased_sample_row]}.
Proof. apply one_row. vm_compute. reflexivity. Qed.

Lemma queued_lookup : jobs queued !! 100 = Some queued_row.
Proof. by rewrite queued_jobs. Qed.

Lemma leased_lookup : jobs leased !! 100 = Some leased_sample_row.
Proof. by rewrite leased_jobs. Qed.

Lemma sample_fresh : fresh_leases (fun i => i + 7) (jobs queued).
Proof.
  split; [intros i j Hij; lia|]. intros i r Hr j. rewrite queued_jobs in Hr.
  apply lookup_singleton_Some in Hr as [_ <-]. done.
Qed.

Lemma queue_invariant_witness : (exec (SHeartbeat 3000 100 107 1 60000) leased).1 = true.
Proof. apply (queue_invariant leased leased_reachable). exact I. Defined.

Lemma job_never_lost_witness :
  (exists r', jobs (exec (SRetry 3000 100 107 1 2000 (lit "x")) leased).2 !! 100 = Some r') \/
  jobs (exec (SRetry 3000 100 107 1 2000 (lit "x")) leased).2 !! 100 = None.
Proof.
  destruct (job_never_lost leased (SRetry 3000 100 107 1 2000 (lit "x")) 100 leased_sample_row
              leased_lookup) as [[(r' & H & _)|[H _]] _]; [left; by exists r'|by right].
Defined.

Lemma sample_current : current sample_lease leased leased_sample_row.
Proof. split; [exact leased_lookup|vm_compute; reflexivity]. Qed.

Lemma result_recorded_witness :
  record_result 3000 sample_lease (Ok tt) leased = (Ok Completed, with_jobs (delete 100) leased).
Proof.
  exact (result_recorded leased sample_lease leased_sample_row 3000 (Ok tt) 60002000
           leased_reachable sample_current ltac:(done) eq_refl eq_refl).
Defined.

Lemma stale_worker_harmless_witness :
  (record_result 3000 sample_lease (Ok tt) overtaken).1 = Ok Superseded.
Proof.
  destruct (stale_worker_harmless overtaken sample_lease 3000 (Ok tt) 60000 overtaken_reachable) as [_ ->].
  - intros r Hr. rewrite overtaken_jobs in Hr. apply lookup_singleton_Some in Hr as [_ <-].
    intros (_ & _ & H). vm_compute in H. discriminate H.
  - change (leased_id sample_lease) with 100. rewrite overtaken_jobs, lookup_singleton_eq. vm_compute. reflexivity.
Defined.

Lemma claim_exact_witness :
  exists js q', claim (lit "w") sample_moment [CrawlArtist] Priority 1 60000 queued = (Ok js, q').
Proof.
  destruct (claim_exact (lit "w") sample_moment CoreBulk [CrawlArtist] Priority 1 60000 queued
    queued_reachable sample_fresh ltac:(split; [done|by repeat constructor])
    ltac:(unfold i64_max; lia) ltac:(unfold i64_max; lia)) as (js & q' & H & _).
  by exists js, q'.
Defined.

Lemma enqueue_accepted_witness :
  exists q' id r, enqueue 2500 newer_job leased = (Ok tt, q') /\ jobs q' !! id = Some r /\
    row_payload r = lit "{1}".
Proof.
  destruct (enqueue_accepted 2500 newer_job leased leased_reachable) as (q' & id & r & H1 & H2 & _ & _ & H3 & _).
  - split; [by vm_compute|]. rewrite leased_jobs. split; [done|].
    intros i r Hr _. apply lookup_singleton_Some in Hr as [_ <-]. vm_compute. reflexivity.
  - vm_compute. intros H. by inversion H.
  - exists q', id, r. split; [exact H1|]. split; [exact H2|exact H3].
Defined.

Lemma turns_are_fair_witness : exists c' t, 3 <= c' < 7 /\ kind_turn false true c' = Some t /\
  kind_at LOOKUP_KINDS t 0 = Some LyricsLookupSweep.
Proof.
  destruct (turns_are_fair LOOKUP_KINDS 1 3) as (c' & t & H); [simpl; lia|lia|unfold u64_max; simpl; lia|].
  by exists c', t.
Defined.
