(* ===== verification/JobLiveness.v ===== *)
(** * JobLiveness: no job waits forever

    A job whose lease ran out is put back by the passes of [release_expired], which take a
    bounded batch and skip rows that others hold.  What makes them reach it is an order: the
    rows ahead of it ([ahead]) are leased until earlier, and leases given later end later, so
    no statement adds to them while every pass that skips the job takes a batch of them. *)

From Stdlib Require Import ZArith Lia String.
From stdpp Require Import base list numbers option tactics sets gmap fin_map_dom.
From S2P Require Import Prelude Text JobKind JobRepository JobQueue JobQueueFacts JobLifecycle JobClaims.
Local Open Scope Z_scope.

(** What a statement left, kept or rolled back. *)
Ltac after_statement :=
  unfold ran;
  match goal with
  | |- context [statement ?f ?q] => let E := fresh in destruct (statement_cases f q) as [[_ E]|[_ E]]; rewrite E; clear E
  end; simpl.

Section liveness.
Context {payloads : Payloads}.

(** ** Runs of statements *)

Definition after (run : list Stmt) (q : Queue) : Queue := foldl (fun q s => (exec s q).2) q run.

Fixpoint issued_run (run : list Stmt) (q : Queue) : Prop :=
  match run with [] => True | s :: run => issued s q /\ issued_run run (exec s q).2 end.

(** Leases are given from [t] on, and not for nothing. *)
Definition timely (t : Z) (s : Stmt) : Prop :=
  match s with
  | SHeartbeat now _ _ _ ms | SClaim _ now _ _ _ _ _ ms _ => t <= now /\ 0 < ms
  | _ => True
  end.

(** A statement of the worker that has the lease. *)
Definition by_holder (id lease : Z) (s : Stmt) : Prop :=
  match s with
  | SComplete i l _ | SHeartbeat _ i l _ _ | SRetry _ i l _ _ _ | SPostpone _ i l _ _ _
  | SReleaseSuperseded i l _ | SDeadLetter _ i l _ _ => i = id /\ l = lease
  | _ => False
  end.

(** The batch of a release pass that can see a job of the kind leased until [e]. *)
Definition serves (id : Z) (kind : str) (e : Z) (s : Stmt) : Z :=
  match s with
  | SReleaseExpired locked now limit kinds _ =>
      if bool_decide (kind ∈ kinds) && negb (bool_decide (id ∈ locked)) && (e <=? now) then Z.max limit 0 else 0
  | _ => 0
  end.

Definition served (id : Z) (kind : str) (e : Z) (run : list Stmt) : Z :=
  foldr (fun s n => serves id kind e s + n) 0 run.

(** ** The rows ahead *)

(** Leased until before [e], or the same time and older. *)
Definition is_ahead (e created id : Z) (x : Z * JobRow) : bool :=
  negb (x.1 =? id)
  && match row_lease_expires_at x.2 with
     | Some u => lex_le [u; row_created_at x.2; x.1] [e; created; id]
     | None => false
     end.

Definition ahead (e created id : Z) (q : Queue) : gset Z :=
  dom (filter (fun x => is_ahead e created id x = true) (jobs q)).

Lemma elem_ahead e created id q i :
  i ∈ ahead e created id q <-> exists r, jobs q !! i = Some r /\ is_ahead e created id (i, r) = true.
Proof.
  unfold ahead. rewrite elem_of_dom. split.
  - intros [r [H1 H2]%map_lookup_filter_Some]. eauto.
  - intros (r & H1 & H2). exists r. by apply map_lookup_filter_Some.
Qed.

(** An old lease was there before. *)
Definition old_leases (e : Z) (q q' : Queue) : Prop :=
  forall i r' u, jobs q' !! i = Some r' -> row_lease_expires_at r' = Some u -> u <= e ->
    exists r, jobs q !! i = Some r /\ row_lease_expires_at r = Some u /\ row_created_at r' = row_created_at r.

Lemma old_refl e q q' : jobs q' = jobs q -> old_leases e q q'.
Proof. intros E i r u Hr Hu _. rewrite E in Hr. eauto. Qed.

Lemma old_statement {A} e (f : Queue -> Queue * A) q : old_leases e q (f q).1 -> old_leases e q (statement f q).2.
Proof. intros H. destruct (statement_cases f q) as [[_ ->]|[_ ->]]; [exact H|by apply old_refl]. Qed.

Lemma old_update e p f q :
  (forall i r u, jobs q !! i = Some r -> p i r = true -> row_lease_expires_at (f i r) = Some u -> u <= e ->
     row_lease_expires_at r = Some u /\ row_created_at (f i r) = row_created_at r) ->
  old_leases e q (with_jobs (update_where p f) q).
Proof.
  intros Hf i r' u Hr' Hu Hle. simpl in Hr'. rewrite lookup_update_where in Hr'.
  apply fmap_Some in Hr' as (r & Hr & ->). exists r. split; [done|]. destruct (p i r) eqn:Ep; [|done].
  destruct (Hf i r u); auto.
Qed.

Lemma old_delete e p q : old_leases e q (with_jobs (delete_where p) q).
Proof.
  intros i r' u Hr' Hu _. simpl in Hr'. rewrite lookup_delete_where in Hr'.
  destruct (jobs q !! i) as [r|]; [|done]. simpl in Hr'. destruct (p i r); [done|]. injection Hr' as <-. eauto.
Qed.

Lemma old_upsert e now job guard f q :
  (forall r, row_lease_expires_at (f r) = row_lease_expires_at r /\ row_created_at (f r) = row_created_at r) ->
  old_leases e q (upsert_sql now job guard f q).2.
Proof.
  intros Hf. unfold upsert_sql. case_bool_decide; [by apply old_refl|]. destruct (select_where _ _).
  - case_bool_decide; [by apply old_refl|]. apply old_statement. intros i r' u Hr' Hu _. simpl in Hr'.
    apply lookup_insert_Some in Hr' as [[<- <-]|[_ Hr']]; [done|eauto].
  - apply old_statement. intros i r' u Hr' Hu Hle. simpl in Hr'. rewrite lookup_update_where in Hr'.
    apply fmap_Some in Hr' as (r & Hr & ->). exists r. split; [done|]. destruct (_ && _); [|done].
    destruct (Hf r) as [E1 E2]. split; congruence.
Qed.

Lemma on_conflict_lease c j r :
  row_lease_expires_at (on_conflict c j r) = row_lease_expires_at r
  /\ row_created_at (on_conflict c j r) = row_created_at r
  /\ row_lease_id (on_conflict c j r) = row_lease_id r /\ row_attempts (on_conflict c j r) = row_attempts r
  /\ row_max_attempts (on_conflict c j r) = row_max_attempts r.
Proof. destruct c; cbn; split_ifs; done. Qed.

Lemma old_plant now x (t t' : gmap Z JobRow) :
  plant now x t = Some t' ->
  forall i r' u, t' !! i = Some r' -> row_lease_expires_at r' = Some u ->
    exists r, t !! i = Some r /\ row_lease_expires_at r = Some u /\ row_created_at r' = row_created_at r.
Proof.
  destruct x as [j c]. unfold plant. intros Hp i r' u Hr' Hu. destruct (select_where _ t).
  - case_bool_decide; [done|]. injection Hp as <-. apply lookup_insert_Some in Hr' as [[<- <-]|[_ Hr']]; [done|eauto].
  - injection Hp as <-. rewrite lookup_update_where in Hr'. apply fmap_Some in Hr' as (r & Hr & ->).
    exists r. split; [done|]. destruct (clashes j r); [|done]. destruct (on_conflict_lease c j r) as (E1 & E2 & _). split; congruence.
Qed.

Lemma old_plant_all now l (t t' : gmap Z JobRow) :
  plant_all now l t = Some t' ->
  forall i r' u, t' !! i = Some r' -> row_lease_expires_at r' = Some u ->
    exists r, t !! i = Some r /\ row_lease_expires_at r = Some u /\ row_created_at r' = row_created_at r.
Proof.
  revert t. induction l as [|x l IH]; intros t E i r' u Hr' Hu; [injection E as <-; eauto|].
  rewrite plant_all_cons in E. destruct (plant now x t) as [t1|] eqn:E1; [|done].
  destruct (IH _ E i r' u Hr' Hu) as (r1 & Hr1 & Hu1 & C1).
  destruct (old_plant now x _ _ E1 i r1 u Hr1 Hu1) as (r & Hr & Hu0 & C). exists r. split_and!; congruence.
Qed.

Lemma old_insert e now accepts l q : old_leases e q (insert_sql now accepts l q).2.
Proof.
  unfold insert_sql. destruct (plant_all _ _ _) as [t'|] eqn:E; [|by apply old_refl]. apply old_statement.
  intros i r' u Hr' Hu _. by eapply old_plant_all.
Qed.

Lemma exec_old e s q : timely e s -> old_leases e q (exec s q).2.
Proof.
  intros Ht. destruct s; simpl in *; try (apply old_statement; simpl); try apply old_delete;
    try (by apply old_refl); try (apply old_update; intros i r u Hr Hp; simpl; done || by intros ? _).
  - apply old_update. intros i r u Hr Hp [= <-]. unfold milliseconds. lia.
  - apply old_update. intros i r u Hr Hp. destruct to; simpl; intros [= <-]; unfold milliseconds; lia.
  - apply old_upsert. done.
  - apply old_upsert. done.
  - apply old_update. intros i r u Hr Hp. by destruct (expected_lane kind_lanes (row_kind r)).
  - apply old_insert.
Qed.

Lemma ahead_shrinks e created id s q : timely e s -> ahead e created id (exec s q).2 ⊆ ahead e created id q.
Proof.
  intros Ht i. rewrite !elem_ahead. intros (r' & Hr' & Ha). unfold is_ahead in *. cbn [fst snd] in *. bprop.
  destruct (row_lease_expires_at r') as [u|] eqn:Hu; [|done].
  destruct (exec_old e s q Ht i r' u Hr' Hu) as (r & Hr & Hu' & Hc).
  { cbn in *. bprop. lia. }
  exists r. split; [done|]. rewrite Hu', <- Hc. rewrite andb_true_iff. split; [|done]. by rewrite negb_true_iff, Z.eqb_neq.
Qed.

(** ** The job *)

(** Still leased as it was, with budget left. *)
Definition waiting (lease e created : Z) (kind : str) (r : JobRow) : Prop :=
  row_lease_id r = Some lease /\ row_lease_expires_at r = Some e /\ row_created_at r = created
  /\ row_kind r = kind /\ row_attempts r < row_max_attempts r.

(** Put back by a release pass. *)
Definition put_back (r : JobRow) (s : Stmt) (r' : JobRow) : Prop :=
  exists locked now limit kinds l, s = SReleaseExpired locked now limit kinds l
    /\ r' = set_turn (row_attempts r) (Z.min (row_available_at r) now) (row_last_error r) (unlease (set_lane (lane_as_str l) r)).

Section job.
Context (id lease e created : Z) (kind : str).
Abbreviation waits := (waiting lease e created kind).

Definition next_row (s : Stmt) (q : Queue) (r : JobRow) : Prop :=
  by_holder id lease s \/ exists r', jobs (exec s q).2 !! id = Some r' /\ (waits r' \/ put_back r s r').

Lemma next_same s q r : waits r -> jobs (exec s q).2 !! id = Some r -> next_row s q r.
Proof. intros Hw H. right. exists r. auto. Qed.

Lemma update_row p f q r :
  jobs q !! id = Some r ->
  jobs (ran (update_statement p f q)).2 !! id = Some r
  \/ p id r = true /\ jobs (ran (update_statement p f q)).2 !! id = Some (f id r).
Proof.
  intros Hr. unfold ran, update_statement.
  match goal with |- context [statement ?g q] => destruct (statement_cases g q) as [[_ ->]|[_ ->]] end; simpl; [|by left].
  rewrite lookup_update_where, Hr. simpl. destruct (p id r); auto.
Qed.

Lemma holder_next s q r i l g :
  waits r -> jobs q !! id = Some r ->
  (jobs (exec s q).2 !! id = Some r \/ held_row i l g id r = true \/ ((id =? i) && outrun l g r) = true) ->
  (i = id -> l = lease -> by_holder id lease s) -> next_row s q r.
Proof.
  intros Hw Hr H Hh. destruct H as [H|H]; [by apply next_same|]. left. destruct Hw as (Hl & _).
  destruct H as [H|H]; unfold held_row, holds, outrun in H; bprop; apply Hh; congruence.
Qed.

Lemma bury_row now error p q r :
  jobs q !! id = Some r ->
  jobs (ran (statement (bury now error p) q)).2 !! id = Some r \/ p id r = true.
Proof.
  intros Hr. unfold ran.
  match goal with |- context [statement ?g q] => destruct (statement_cases g q) as [[_ ->]|[_ ->]] end; simpl; [|by left].
  rewrite lookup_delete_where, Hr. simpl. destruct (p id r); auto.
Qed.

Lemma delete_row p q r :
  jobs q !! id = Some r ->
  jobs (ran (statement (fun q => (with_jobs (delete_where p) q, rows_affected p (jobs q))) q)).2 !! id = Some r \/ p id r = true.
Proof.
  intros Hr. unfold ran.
  match goal with |- context [statement ?g q] => destruct (statement_cases g q) as [[_ ->]|[_ ->]] end; simpl; [|by left].
  rewrite lookup_delete_where, Hr. simpl. destruct (p id r); auto.
Qed.

Lemma upsert_row now job guard f q r :
  jobs q !! id = Some r ->
  jobs (upsert_sql now job guard f q).2 !! id = Some r \/ jobs (upsert_sql now job guard f q).2 !! id = Some (f r).
Proof.
  intros Hr. unfold upsert_sql. case_bool_decide; [by left|]. destruct (select_where _ _).
  - case_bool_decide as Hn; [by left|].
    match goal with |- context [statement ?g q] => destruct (statement_cases g q) as [[_ ->]|[_ ->]] end; simpl; [|by left].
    left. rewrite lookup_insert_ne; [done|]. intros <-. apply Hn. by eexists.
  - match goal with |- context [statement ?g q] => destruct (statement_cases g q) as [[_ ->]|[_ ->]] end; simpl; [|by left].
    rewrite lookup_update_where, Hr. simpl. destruct (_ && _); auto.
Qed.

Lemma plant_all_waits now l (t t' : gmap Z JobRow) r :
  plant_all now l t = Some t' -> t !! id = Some r -> waits r -> exists r', t' !! id = Some r' /\ waits r'.
Proof.
  revert t r. induction l as [|x l IH]; intros t r E Hr Hw; [injection E as <-; eauto|].
  rewrite plant_all_cons in E. destruct (plant now x t) as [t1|] eqn:E1; [|done].
  assert (exists r1, t1 !! id = Some r1 /\ waits r1) as (r1 & Hr1 & Hw1); [|by eapply IH].
  destruct x as [j c]. unfold plant in E1. destruct (select_where _ t).
  - case_bool_decide as Hn; [done|]. injection E1 as <-. exists r. split; [|done].
    rewrite lookup_insert_ne; [done|]. intros <-. apply Hn. by eexists.
  - injection E1 as <-. rewrite lookup_update_where, Hr. eexists. split; [done|]. destruct (clashes j r); [|done].
    destruct (on_conflict_lease c j r) as (L1 & L2 & L3 & L4 & L5). destruct (on_conflict_evolves c j r) as (K & _).
    destruct Hw as (W1 & W2 & W3 & W4 & W5). unfold waiting. rewrite L1, L2, L3, L4, L5, K. by split_and!.
Qed.

Section steps.
Context (q : Queue) (r : JobRow) (Hq : wf q) (Hr : jobs q !! id = Some r) (Hw : waits r).

Lemma next_kept s : jobs (exec s q).2 !! id = Some r -> next_row s q r.
Proof. by apply next_same. Qed.

(** Statements of one worker: on this row they are the holder's. *)
Lemma next_update s p f i l g :
  exec s q = ran (update_statement p f q) ->
  (p id r = true -> held_row i l g id r = true \/ ((id =? i) && outrun l g r) = true) ->
  (i = id -> l = lease -> by_holder id lease s) -> next_row s q r.
Proof.
  intros E Hp Hb. apply (holder_next s q r i l g Hw Hr); [|done]. rewrite E.
  destruct (update_row p f q r Hr) as [|[? _]]; auto.
Qed.

Lemma next_complete i l g : next_row (SComplete i l g) q r.
Proof. apply (holder_next _ _ _ i l g Hw Hr); [|done]. destruct (delete_row (held_row i l g) q r Hr); auto. Qed.

Lemma next_dead_letter now i l g er : next_row (SDeadLetter now i l g er) q r.
Proof. apply (holder_next _ _ _ i l g Hw Hr); [|done]. destruct (bury_row now (fun _ => er) (held_row i l g) q r Hr); auto. Qed.

(** Statements for rows that are exhausted or not leased. *)
Lemma next_recover locked now lim : next_row (SRecover locked now lim) q r.
Proof.
  apply next_kept. unfold exec, recover_exhausted_sql.
  destruct (bury_row now exhausted_error (fun i _ => in_batch (batch locked (fun _ r => exhausted now r)
    (fun e => nulls_first (row_lease_expires_at e.2) ++ [row_created_at e.2]) lim (jobs q)) i) q r Hr) as [H|H]; [exact H|].
  exfalso. apply (in_batch_spec _ _ _ _ _ _ _ Hr) in H as [_ H]. unfold exhausted in H. bprop.
  destruct Hw as (_ & _ & _ & _ & Ha). lia.
Qed.

Lemma next_claim locked now fresh w p key lim ms to : next_row (SClaim locked now fresh w p key lim ms to) q r.
Proof.
  apply next_kept. unfold exec. rewrite claim_statement. after_statement; [|done].
  rewrite lookup_update_where, Hr. simpl. destruct (in_batch _ id) eqn:Eb; [|done]. exfalso.
  apply (in_batch_spec _ _ _ _ _ _ _ Hr) in Eb as [_ H]. unfold claimable in H. bprop. destruct Hw as (Hl & _). congruence.
Qed.

Lemma next_realign locked aft step : next_row (SRealign locked aft step) q r.
Proof.
  apply next_kept. unfold exec, realign_sql. after_statement; [|done].
  rewrite lookup_update_where, Hr. simpl. destruct (_ && _ && _) eqn:Ep; [|done]. exfalso. bprop.
  unfold stale in *. destruct (expected_lane _ _); [|done]. bprop. destruct Hw as (Hl & _). congruence.
Qed.

Lemma next_drop track : next_row (SDropIndexTrigger track) q r.
Proof.
  apply next_kept. destruct (delete_row (fun _ => index_trigger track) q r Hr) as [H|H]; [exact H|].
  exfalso. unfold index_trigger in H. bprop. destruct Hw as (Hl & _). congruence.
Qed.

Lemma next_release locked now lim kinds to : next_row (SReleaseExpired locked now lim kinds to) q r.
Proof.
  unfold next_row, exec, release_expired_sql. right. after_statement; [|exists r; auto].
  rewrite lookup_update_where, Hr. simpl. eexists. split; [done|]. destruct (in_batch _ id); [|by left].
  right. by exists locked, now, lim, kinds, to.
Qed.

(** Statements of commands, which leave a lease where it is. *)
Lemma next_enqueue now job : next_row (SEnqueue now job) q r.
Proof.
  right. destruct (upsert_row now job (fun _ => true) (renewed job) q r Hr) as [H|H]; [exists r; auto|].
  exists (renewed job r). split; [exact H|left]. destruct Hw as (Hl & He & Hc & Hk & _). unfold waiting. simpl. split_and!; try done.
  destruct (upsert_wf now job (fun _ => true) (renewed job) q) as [Hq' _]; [done|by intros x Hx _; apply renewed_tried|].
  apply queue_ok_spec in Hq' as (Hrows & _). apply Hrows, row_ok_spec in H. simpl in H. lia.
Qed.

Lemma next_enqueue_if_absent now job : next_row (SEnqueueIfAbsent now job) q r.
Proof.
  right. unfold exec, enqueue_if_absent_sql, ran.
  match goal with |- context [upsert_sql now job ?g ?f q] => destruct (upsert_row now job g f q r Hr) as [H|H] end;
    [exists r; auto|]. exists (raised job r). split; [exact H|left; exact Hw].
Qed.

Lemma next_reset now i l g : next_row (SResetAttempts now i l g) q r.
Proof.
  right. unfold exec, reset_attempts_sql.
  match goal with |- context [update_statement ?p ?f q] => destruct (update_row p f q r Hr) as [H|[_ H]] end; [exists r; auto|].
  eexists. split; [exact H|left]. destruct Hw as (Hl & He & Hc & Hk & _). unfold waiting. simpl. split_and!; try done.
  destruct Hq as [Hok _]. apply queue_ok_spec in Hok as (Hrows & _). apply Hrows, row_ok_spec in Hr. lia.
Qed.

Lemma next_insert now acc l : next_row (SInsert now acc l) q r.
Proof.
  right. unfold exec, insert_sql. destruct (plant_all _ _ _) as [t'|] eqn:E; [|exists r; auto].
  after_statement; [|exists r; auto]. destruct (plant_all_waits _ _ _ _ _ E Hr Hw) as (r' & Hr' & Hw'). eauto.
Qed.

Lemma exec_next s : next_row s q r.
Proof.
  destruct s as [i l g|now i l g ms|now i l g ms er|now i l g ms er|i l g| | | | | | | |ids| | | |locked now].
  - apply next_complete.
  - by eapply (next_update _ _ _ i l g); [reflexivity|auto|].
  - by eapply (next_update _ _ _ i l g); [reflexivity|auto|].
  - eapply (next_update _ _ _ i l g); [reflexivity|intros [H _]%andb_prop; auto|done].
  - by eapply (next_update _ _ _ i l g); [reflexivity|auto|].
  - apply next_dead_letter.
  - apply next_recover.
  - apply next_claim.
  - apply next_release.
  - apply next_enqueue.
  - apply next_enqueue_if_absent.
  - apply next_realign.
  - by apply next_kept.
  - apply next_reset.
  - apply next_drop.
  - apply next_insert.
  - apply next_kept. unfold exec, cleanup_job_failures_sql. by after_statement.
Qed.

(** A pass that can see the job puts it back, or takes a whole batch of those ahead. *)
Lemma pass_progress locked now lim kinds to :
  let s := SReleaseExpired locked now lim kinds to in
  0 <= lim -> timely e s -> kind ∈ kinds -> id ∉ locked -> e <= now ->
  (exists r', jobs (exec s q).2 !! id = Some r' /\ put_back r s r')
  \/ jobs (exec s q).2 !! id = Some r /\ Z.of_nat (size (ahead e created id (exec s q).2)) + lim <= Z.of_nat (size (ahead e created id q)).
Proof.
  intros s Hlim Ht Hk Hlock Hnow. pose proof Hw as (Hl & He & Hc & Hkd & Ha).
  pose proof (exec_ok s q Hq I) as Hran. pose proof (ahead_shrinks e created id s q Ht) as Hsub.
  set (p := fun (_ : Z) r => expired now r && bool_decide (row_kind r ∈ kinds)).
  set (b := batch locked p expires_key lim (jobs q)).
  set (back := fun (_ : Z) r => set_turn (row_attempts r) (Z.min (row_available_at r) now) (row_last_error r)
                                  (unlease (set_lane (lane_as_str to) r))).
  assert (forall i, jobs (exec s q).2 !! i = (fun r => if in_batch b i then back i r else r) <$> jobs q !! i) as Hnext.
  { intros i. revert Hran. unfold s, exec, release_expired_sql. after_statement; [|done]. intros _. apply lookup_update_where. }
  generalize dependent (exec s q).2. intros q' Hsub Hnext. rewrite Hnext, Hr. simpl.
  destruct (in_batch b id) eqn:Eb; [left; eexists; split; [done|]; by exists locked, now, lim, kinds, to|].
  right. split; [done|].
  assert (p id r = true) as Hp.
  { unfold p, expired. rewrite Hl, He, Hkd, !andb_true_iff, Z.ltb_lt, Z.leb_le. split_and!; try done; by apply bool_decide_eq_true_2. }
  destruct (batch_complete locked p expires_key lim (jobs q) id r Hr Hlock Hp Eb) as [Hlen Hbest]. fold b in Hlen, Hbest.
  set (ids := list_to_set (map fst b) : gset Z).
  assert (ids ⊆ ahead e created id q) as Hin.
  { intros j Hj. apply elem_of_list_to_set, list_elem_of_fmap in Hj as ([j' x] & -> & Hx). apply elem_ahead. exists x.
    pose proof (batch_elem _ _ _ _ _ _ _ Hx) as (Hx' & _ & Hpx). split; [done|]. unfold is_ahead. cbn [fst snd].
    rewrite andb_true_iff. split.
    - rewrite negb_true_iff, Z.eqb_neq. intros ->. unfold in_batch in Eb. bprop. apply Eb. by apply (list_elem_of_fmap_2 fst) in Hx.
    - pose proof (Hbest j' x Hx) as Hle. unfold expires_key in Hle. cbn [fst snd] in Hle. rewrite He, Hc in Hle.
      unfold p, expired in Hpx. bprop. by destruct (row_lease_expires_at x). }
  assert (ids ## ahead e created id q') as Hdis.
  { intros j Hj (x & Hx & Hax)%elem_ahead. rewrite Hnext in Hx. apply fmap_Some in Hx as (y & Hy & ->).
    apply elem_of_list_to_set in Hj. unfold in_batch in Hax. rewrite bool_decide_eq_true_2 in Hax by done.
    unfold is_ahead in Hax. simpl in Hax. by rewrite andb_false_r in Hax. }
  assert (size ids = Z.to_nat lim) as Hsize.
  { unfold ids. rewrite size_list_to_set by apply batch_NoDup. by rewrite length_map. }
  assert (size (ids ∪ ahead e created id q') <= size (ahead e created id q))%nat as Hle by (apply subseteq_size; set_solver).
  rewrite size_union in Hle by done. lia.
Qed.
End steps.

(** Passes that together can take more rows than are ahead reach the job. *)
Lemma run_reaches run : forall q r,
  wf q -> jobs q !! id = Some r -> waits r -> issued_run run q -> Forall (timely e) run ->
  Z.of_nat (size (ahead e created id q)) < served id kind e run ->
  exists run1 s run2 r1, run = run1 ++ s :: run2 /\ jobs (after run1 q) !! id = Some r1 /\ waits r1
    /\ (by_holder id lease s \/ exists r2, jobs (after (run1 ++ [s]) q) !! id = Some r2 /\ put_back r1 s r2).
Proof.
  induction run as [|s run IH]; intros q r Hq Hr Hw Hi Ht Hn; [simpl in Hn; lia|].
  destruct Hi as [Hi Hi']. apply Forall_cons in Ht as [Ht Ht'].
  assert (forall r', jobs (exec s q).2 !! id = Some r' -> waits r' ->
            Z.of_nat (size (ahead e created id (exec s q).2)) < served id kind e run ->
            exists run1 s' run2 r1, s :: run = run1 ++ s' :: run2 /\ jobs (after run1 q) !! id = Some r1 /\ waits r1
              /\ (by_holder id lease s' \/ exists r2, jobs (after (run1 ++ [s']) q) !! id = Some r2 /\ put_back r1 s' r2)) as Hlater.
  { intros r' Hr' Hw' Hn'. destruct (IH _ r' (exec_wf s q Hq Hi) Hr' Hw' Hi' Ht' Hn') as (run1 & s' & run2 & r1 & -> & H).
    by exists (s :: run1), s', run2, r1. }
  pose proof (subseteq_size _ _ (ahead_shrinks e created id s q Ht)) as Hsub.
  destruct (decide (0 < serves id kind e s)) as [Hs|Hs].
  - destruct s as [| | | | | | | |locked now lim kinds to| | | | | | | |]; try (simpl in Hs; lia). simpl in Hs, Hn.
    destruct (bool_decide _ && _ && _) eqn:Ev; [|lia]. bprop.
    destruct (pass_progress q r Hq Hr Hw locked now lim kinds to ltac:(lia) Ht) as [(r' & Hr' & Hb)|[Hr' Hle]]; try done.
    + exists [], (SReleaseExpired locked now lim kinds to), run, r. split_and!; try done. right. eauto.
    + apply (Hlater r Hr' Hw). cbn [foldr served] in *. fold (served id kind e run) in *. lia.
  - destruct (exec_next q r Hq Hr Hw s) as [Hb|(r' & Hr' & [Hw'|Hb])].
    + exists [], s, run, r. auto.
    + apply (Hlater r' Hr' Hw'). cbn [foldr served] in Hn. fold (served id kind e run) in Hn. lia.
    + exists [], s, run, r. split_and!; try done. right. eauto.
Qed.
End job.

Lemma put_back_claimable r s r' lease e created kind :
  waiting lease e created kind r -> put_back r s r' ->
  exists locked now limit kinds l, s = SReleaseExpired locked now limit kinds l /\ claimable now r' = true
    /\ row_payload r' = row_payload r /\ row_generation r' = row_generation r /\ row_attempts r' = row_attempts r.
Proof.
  intros (_ & _ & _ & _ & Ha) (locked & now & lim & kinds & l & -> & ->). exists locked, now, lim, kinds, l. split; [done|].
  unfold claimable. simpl. rewrite !andb_true_iff, Z.leb_le, Z.ltb_lt. split_and!; try done; lia.
Qed.

(** A recovery pass archives an exhausted job, or a whole batch of those before it. *)
Definition recovery_key (x : Z * JobRow) : list Z := nulls_first (row_lease_expires_at x.2) ++ [row_created_at x.2].

Lemma recovery_progress q id r locked now lim :
  let s := SRecover locked now lim in
  wf q -> jobs q !! id = Some r -> exhausted now r = true -> 0 < lim -> id ∉ locked ->
  exists ids : gset Z,
    Z.of_nat (size ids) <= lim
    /\ (forall i x, jobs q !! i = Some x -> i ∈ ids ->
          exhausted now x = true /\ jobs (exec s q).2 !! i = None
          /\ failures (exec s q).2 !! (i, row_generation x) = Some (archive now exhausted_error x))
    /\ (id ∈ ids
        \/ jobs (exec s q).2 !! id = Some r /\ Z.of_nat (size ids) = lim
           /\ forall i, i ∈ ids -> exists x, jobs q !! i = Some x /\ lex_le (recovery_key (i, x)) (recovery_key (id, r)) = true).
Proof.
  intros s Hq Hr Hx Hlim Hlock. pose proof (exec_ok s q Hq I) as Hran.
  set (b := batch locked (fun _ r => exhausted now r) recovery_key lim (jobs q)).
  assert (exec s q = (true, (bury now exhausted_error (fun i _ => in_batch b i) q).1)) as ->.
  { revert Hran. unfold s, exec, recover_exhausted_sql. fold recovery_key. fold b. by after_statement. }
  exists (list_to_set (map fst b)). rewrite size_list_to_set, length_map by apply batch_NoDup. simpl.
  assert (forall i x, jobs q !! i = Some x -> in_batch b i = true ->
            exhausted now x = true /\ delete_where (fun i _ => in_batch b i) (jobs q) !! i = None) as Hin.
  { intros i x Hi Hb. pose proof (in_batch_spec _ _ _ _ _ _ _ Hi Hb) as [_ H]. split; [exact H|].
    rewrite lookup_delete_where, Hi. simpl. by rewrite Hb. }
  split_and!.
  - unfold b, batch. rewrite length_take. lia.
  - intros i x Hi Hb%elem_of_list_to_set. assert (in_batch b i = true) as Hb' by by apply bool_decide_eq_true_2.
    destruct (Hin i x Hi Hb'). split_and!; try done. apply lookup_union_Some_l.
    by apply (lookup_buried now exhausted_error (fun i _ => in_batch b i)).
  - destruct (in_batch b id) eqn:Eb; [left; apply elem_of_list_to_set; unfold in_batch in Eb; by bprop|right].
    destruct (batch_complete locked _ recovery_key lim (jobs q) id r Hr Hlock Hx Eb) as [Hlen Hbest]. fold b in Hlen, Hbest.
    split_and!; [rewrite lookup_delete_where, Hr; simpl; by rewrite Eb|lia|].
    intros i ([j x] & -> & Hj)%elem_of_list_to_set%list_elem_of_fmap. exists x. split; [by apply batch_elem in Hj as [? _]|by apply Hbest].
Qed.

(** C20: no job waits forever for a batch that never reaches it.  A job nobody holds, or whose
    lease is over, is in one of three places.  Unleased with attempts left, it can be claimed as
    soon as it is due.  Leased with attempts left, let statements of any kind and workers follow
    after the end of its lease (those that give leases give them for a positive time), among them
    release passes of its kind that do not find its row locked and whose batches, bounded as they
    are, add up to more than the rows leased until before it: then, before the run is over, the
    worker that had it has reported or renewed its lease, or a pass has put it back, unleased, due
    and claimable, with the payload, generation and attempts it had.  With its attempts spent, each
    recovery pass that does not find it locked archives it with its payload, or else removes and
    archives as many rows as its limit allows, all exhausted and before it in the order. *)
Theorem job_never_stuck q id r now
  (Hq : reachable q) (Hr : jobs q !! id = Some r)
  (Hover : forall e, row_lease_expires_at r = Some e -> e <= now) :
  claimable (Z.max now (row_available_at r)) r = true
  \/ (exists lease e, row_lease_id r = Some lease /\ row_lease_expires_at r = Some e /\ expired now r = true /\
       forall run, issued_run run q -> Forall (timely e) run ->
         Z.of_nat (size (ahead e (row_created_at r) id q)) < served id (row_kind r) e run ->
         exists run1 s run2 r1, run = run1 ++ s :: run2 /\ jobs (after run1 q) !! id = Some r1
           /\ row_lease_id r1 = Some lease /\ row_kind r1 = row_kind r
           /\ (by_holder id lease s
               \/ exists locked now' limit kinds l r2,
                    s = SReleaseExpired locked now' limit kinds l /\ jobs (after (run1 ++ [s]) q) !! id = Some r2
                    /\ claimable now' r2 = true /\ row_payload r2 = row_payload r1
                    /\ row_generation r2 = row_generation r1 /\ row_attempts r2 = row_attempts r1))
  \/ (exhausted now r = true /\
      forall locked now' limit, now <= now' -> 0 < limit -> id ∉ locked ->
        let q' := (exec (SRecover locked now' limit) q).2 in
        exists ids : gset Z,
          Z.of_nat (size ids) <= limit
          /\ (forall i x, jobs q !! i = Some x -> i ∈ ids ->
                exhausted now' x = true /\ jobs q' !! i = None
                /\ failures q' !! (i, row_generation x) = Some (archive now' exhausted_error x))
          /\ (id ∈ ids
              \/ jobs q' !! id = Some r /\ Z.of_nat (size ids) = limit
                 /\ forall i, i ∈ ids -> exists x, jobs q !! i = Some x
                      /\ lex_le (recovery_key (i, x)) (recovery_key (id, r)) = true)).
Proof.
  apply reachable_wf in Hq. pose proof Hq as [(Hrows & _)%queue_ok_spec _].
  pose proof (Hrows _ _ Hr) as (Hatt & _ & _ & _ & Hl)%row_ok_spec. unfold lease_complete in Hl.
  destruct (decide (row_attempts r < row_max_attempts r)) as [Ha|Ha].
  - destruct (row_lease_id r) as [lease|] eqn:El.
    + destruct (row_lease_expires_at r) as [e|] eqn:Ee; [|by destruct (row_lease_generation r), (row_leased_by r)].
      right; left. exists lease, e. split_and!; try done.
      { unfold expired. rewrite El, Ee, !andb_true_iff, Z.ltb_lt, Z.leb_le. split_and!; [done|by apply bool_decide_eq_true_2|auto]. }
      intros run Hi Ht Hn.
      assert (waiting lease e (row_created_at r) (row_kind r) r) as Hw by by split_and!.
      destruct (run_reaches id lease e _ _ run q r Hq Hr Hw Hi Ht Hn) as (run1 & s & run2 & r1 & -> & H1 & Hw1 & H).
      exists run1, s, run2, r1. pose proof Hw1 as (? & _ & _ & ? & _). split_and!; try done. destruct H as [|(r2 & Hr2 & Hb)]; [by left|right].
      destruct (put_back_claimable r1 s r2 _ _ _ _ Hw1 Hb) as (lk & n & lim & ks & l & -> & H). by exists lk, n, lim, ks, l, r2.
    + left. unfold claimable. rewrite !andb_true_iff, Z.leb_le, Z.ltb_lt. split_and!; [lia|done|by apply bool_decide_eq_true_2].
  - assert (forall t, now <= t -> exhausted t r = true) as Hx.
    { intros t Ht. unfold exhausted. rewrite andb_true_iff, Z.leb_le. split; [lia|]. destruct (row_lease_id r); [|done].
      destruct (row_lease_expires_at r) as [e|]; [apply Z.leb_le; specialize (Hover e eq_refl); lia|].
      by destruct (row_lease_generation r), (row_leased_by r). }
    right; right. split; [apply Hx; lia|]. intros lk t lim Ht Hlim Hlk. apply recovery_progress; auto.
Qed.
End liveness.

(** Two artists leased, one until earlier: the first pass, for one row, takes it; the second takes the other. *)
Module LivenessSample.
#[local] Instance text_payloads : Payloads := {| Value := str; payload_fits := fun v => (length v <=? 64)%nat |}.

Definition artist (id : Z) (key : string) : NewJob :=
  {| new_id := id; new_kind := CrawlArtist; new_dedup_key := Some (lit key);
     new_payload := lit "{}"; new_priority := 5; new_max_attempts := 3; new_available_at := 1000 |}.
Definition claim_at (now : Z) : Stmt := SClaim ∅ now (fun i => i + 7) (lit "w") (fun _ => true) priority_key 1 60000 None.
Definition pass (now : Z) : Stmt := SReleaseExpired ∅ now 1 [as_str CrawlArtist] CoreBulk.

Definition two_leased : Queue :=
  after [SEnqueue 500 (artist 200 "artist:8"); claim_at 2000; SEnqueue 2500 (artist 100 "artist:7"); claim_at 3000] empty_queue.
Definition row_100 : JobRow := leased_row 3000 (fun i => i + 7) (lit "w") 60000 None 100 (inserted 2500 (artist 100 "artist:7")).

Lemma two_leased_reachable : reachable two_leased.
Proof. unfold two_leased, after. cbn [foldl]. do 4 (apply reach_step; [|exact I]). apply reach_empty. Qed.

Lemma split_two {A} (a b : A) l x k : [a; b] = l ++ x :: k -> l = [] /\ x = a \/ l = [a] /\ x = b.
Proof. destruct l as [|y [|z [|]]]; intros [=]; subst; auto. Qed.

Lemma job_never_stuck_witness :
  exists run1 s run2 r1, [pass 60003000; pass 60004000] = run1 ++ s :: run2 /\ jobs (after run1 two_leased) !! 100 = Some r1
    /\ exists r2, jobs (after (run1 ++ [s]) two_leased) !! 100 = Some r2 /\ claimable 60004000 r2 = true.
Proof.
  assert (jobs two_leased !! 100 = Some row_100) as Hr by (vm_compute; reflexivity).
  destruct (job_never_stuck two_leased 100 row_100 60003000 two_leased_reachable Hr)
    as [H|[(lease & e & [= <-] & [= <-] & _ & H)|[H _]]].
  - intros e [= <-]. vm_compute. discriminate.
  - vm_compute in H. discriminate.
  - destruct (H [pass 60003000; pass 60004000]) as (run1 & s & run2 & r1 & E & H1 & _ & _ & [Hb|(lk & n & lim & ks & l & r2 & -> & Hp & Hc & _)]).
    + exact (conj I (conj I I)).
    + repeat constructor.
    + vm_compute. reflexivity.
    + exfalso. destruct (split_two _ _ _ _ _ E) as [[_ ->]|[_ ->]]; exact Hb.
    + eexists run1, _, run2, r1. split; [exact E|]. split; [exact H1|]. exists r2. split; [exact Hp|].
      assert (n <= 60004000) as Hn by (clear - E; destruct (split_two _ _ _ _ _ E) as [[_ [= _ -> _ _ _]]|[_ [= _ -> _ _ _]]]; lia).
      clear - Hc Hn. unfold claimable in *. bprop. rewrite !andb_true_iff, Z.leb_le, Z.ltb_lt. split_and!; try done; [lia|].
      by apply bool_decide_eq_true_2.
  - vm_compute in H. discriminate.
Defined.
End LivenessSample.
