(* ===== verification/LookupLane.v ===== *)
(** * LookupLane: slots for bulk work under database pressure
    ([jobs/src/queue/governor.rs], [jobs/src/queue/lookup_lane.rs]).

    [usize] is [Z] with its wrap-around; [f64] is the IEEE double of the Standard
    Library's [SpecFloat]; a [Duration] or [Instant] is its nanoseconds. *)

From Stdlib Require Import ZArith Lia SpecFloat.
From stdpp Require Import base list numbers option tactics.
From S2P Require Import Prelude.
Local Open Scope Z_scope.
Local Open Scope rust_scope.

(** ** The write governor *)

Abbreviation f64 := spec_float.
Definition f64_of_Z (n : Z) : f64 := binary_normalize 53 1024 n 0 false.
Definition f64_add (a b : f64) : f64 := SFadd 53 1024 a b.
Definition f64_sub (a b : f64) : f64 := SFsub 53 1024 a b.
Definition f64_mul (a b : f64) : f64 := SFmul 53 1024 a b.
Definition f64_div (a b : f64) : f64 := SFdiv 53 1024 a b.
Definition f64_lt (a b : f64) : bool := SFltb a b.

(** [Duration::as_secs_f64] *)
Definition as_secs_f64 (d : Z) : f64 :=
  f64_add (f64_of_Z (d / 1000000000)) (f64_div (f64_of_Z (d mod 1000000000)) (f64_of_Z 1000000000)).

Definition FLOOR : Z := 2.
Definition secs (n : Z) : Z := n * 1000000000.
Definition CHECK_EVERY : Z := secs 5.
Definition RAISE_EVERY : Z := secs 20.
Definition LOWER_EVERY : Z := secs 30.
Definition MEGABYTE : Z := 1024 * 1024.
Definition CALM_BACKLOG_BYTES : Z := 128 * MEGABYTE.
Definition HEAVY_BACKLOG_BYTES : Z := 512 * MEGABYTE.
Definition CALM_ACTIVE_BACKENDS : Z := 16.
Definition HEAVY_ACTIVE_BACKENDS : Z := 32.
Definition CALM_WRITE_BYTES_PER_SECOND : f64 := f64_mul (f64_of_Z 3) (f64_of_Z MEGABYTE).
Definition HEAVY_WRITE_BYTES_PER_SECOND : f64 := f64_mul (f64_of_Z 6) (f64_of_Z MEGABYTE).
(** 0.3 *)
Definition WRITE_RATE_SMOOTHING : f64 := f64_div (f64_of_Z 3) (f64_of_Z 10).

Record WriteGovernor := { limit : Z; ceiling : Z }.

Record Reading := { r_backlog_bytes : Z; r_active_backends : Z; wal_position : Z }.

Record Pressure := {
  replication_backlog_bytes : Z;
  active_backends : Z;
  write_bytes_per_second : f64
}.

Record WriteRate := { last_reading : option (Z * Z); smoothed : f64 }.

Definition rate_default : WriteRate := {| last_reading := None; smoothed := S754_zero false |}.

Definition observe (w : WriteRate) (position now : Z) : f64 * WriteRate :=
  let smoothed' :=
    match last_reading w with
    | Some (previous, at') =>
        let seconds := as_secs_f64 (Z.max 0 (now - at')) in
        if f64_lt (S754_zero false) seconds && (previous <=? position) then
          let rate := f64_div (f64_of_Z (position -i64 previous)) seconds in
          f64_add (smoothed w) (f64_mul WRITE_RATE_SMOOTHING (f64_sub rate (smoothed w)))
        else smoothed w
    | None => smoothed w
    end in
  (smoothed', {| last_reading := Some (position, now); smoothed := smoothed' |}).

Definition governor_new (ceiling : Z) : WriteGovernor :=
  {| limit := Z.min FLOOR ceiling; ceiling := ceiling |}.

Definition heavy (p : Pressure) : bool :=
  (HEAVY_BACKLOG_BYTES <? replication_backlog_bytes p)
  || (HEAVY_ACTIVE_BACKENDS <? active_backends p)
  || f64_lt HEAVY_WRITE_BYTES_PER_SECOND (write_bytes_per_second p).

Definition calm (p : Pressure) : bool :=
  (replication_backlog_bytes p <? CALM_BACKLOG_BYTES)
  && (active_backends p <? CALM_ACTIVE_BACKENDS)
  && f64_lt (write_bytes_per_second p) CALM_WRITE_BYTES_PER_SECOND.

Definition next_limit (current ceiling : Z) (p : Pressure) (since_change : Z) : Z :=
  let floor := Z.min FLOOR ceiling in
  if heavy p && (LOWER_EVERY <=? since_change) then Z.max (current / 2) floor
  else if calm p && (RAISE_EVERY <=? since_change) then Z.min (current +u64 1) ceiling
  else current.

Definition adjust (g : WriteGovernor) (p : Pressure) (since_change : Z) : bool * WriteGovernor :=
  let current := limit g in
  let next := next_limit current (ceiling g) p since_change in
  if next =? current then (false, g) else (true, {| limit := next; ceiling := ceiling g |}).

(** One tick of [run]: [None] when the query failed; the clock is read three times. *)
Record Governing := { governor : WriteGovernor; rate : WriteRate; changed_at : Z }.

Definition tick (s : Governing) (reading : option Reading) (t1 t2 t3 : Z) : Governing :=
  match reading with
  | None => s
  | Some reading =>
      let '(bps, rate') := observe (rate s) (wal_position reading) t1 in
      let p := {| replication_backlog_bytes := r_backlog_bytes reading;
                  active_backends := r_active_backends reading; write_bytes_per_second := bps |} in
      let '(changed, g) := adjust (governor s) p (Z.max 0 (t2 - changed_at s)) in
      {| governor := g; rate := rate'; changed_at := if changed then t3 else changed_at s |}
  end.

(** ** The lookup lane *)

Inductive LookupPath := Targeted | Sweep.

#[export] Instance LookupPath_eq_dec : EqDecision LookupPath.
Proof. solve_decision. Defined.

Record LookupSlot := { path : LookupPath; slot_reserved : bool }.

Record Held := {
  targeted : Z;
  reserved : Z;
  sweep : Z;
  sweep_wants : Z;
  targeted_waiting : bool
}.

Definition held_default : Held :=
  {| targeted := 0; reserved := 0; sweep := 0; sweep_wants := 0; targeted_waiting := false |}.

Definition targeted_in_flight (h : Held) : Z := sat_sub_u64 (targeted h) (reserved h).

Definition div_ceil (a b : Z) : Z := a / b + (if 0 <? a mod b then 1 else 0).

Definition cap (base : Z) (g : WriteGovernor) : Z :=
  clampZ 1 base (div_ceil (Z.min u64_max (base * limit g)) (Z.max (ceiling g) 1)).

Definition sweep_share (cap : Z) : Z := div_ceil cap 4.

Definition sweep_limit (cap : Z) (targeted_waiting : bool) : Z :=
  if targeted_waiting then sweep_share cap else Z.max (sat_sub_u64 cap 1) (sweep_share cap).

Definition wants (lookups : Z) (h : Held) : Held :=
  {| targeted := targeted h; reserved := reserved h; sweep := sweep h; sweep_wants := lookups;
     targeted_waiting := targeted_waiting h |}.

(** The critical section of [targeted_slots], and how many slots it hands out. *)
Definition targeted_slots (cap : Z) (h : Held) : Z * Held :=
  let reserve := sat_sub_u64 (Z.min (sweep_wants h) (sweep_share cap)) (sweep h) in
  let room := sat_sub_u64 cap (targeted h +u64 sweep h +u64 reserve) in
  (room,
   {| targeted := targeted h +u64 room; reserved := reserved h +u64 room; sweep := sweep h;
      sweep_wants := sweep_wants h; targeted_waiting := targeted_waiting h |}).

Definition release (s : LookupSlot) (h : Held) : Held :=
  {| targeted := match path s with Targeted => sat_sub_u64 (targeted h) 1 | Sweep => targeted h end;
     reserved := if slot_reserved s then sat_sub_u64 (reserved h) 1 else reserved h;
     sweep := match path s with Targeted => sweep h | Sweep => sat_sub_u64 (sweep h) 1 end;
     sweep_wants := sweep_wants h; targeted_waiting := targeted_waiting h |}.

(** The critical section of [claim_targeted]: [kept] slots of [requested] go on
    with [jobs] jobs; the flag says whether the sweep is to be woken. *)
Definition settle_claim (requested jobs kept : Z) (h : Held) : bool * Held :=
  let waiting := (0 <? requested) && (jobs =? requested) in
  (targeted_waiting h && negb waiting,
   {| targeted := targeted h; reserved := sat_sub_u64 (reserved h) kept; sweep := sweep h;
      sweep_wants := sweep_wants h; targeted_waiting := waiting |}).

(** [claim_targeted] on [n] reserved slots: [None] is a failed query, which drops
    them all; otherwise those beyond the jobs found are dropped first. *)
Definition claim_targeted (n : nat) (found : option nat) (h : Held) : Held :=
  let drop_slots (k : nat) := Nat.iter k (release {| path := Targeted; slot_reserved := true |}) in
  match found with
  | None => drop_slots n h
  | Some jobs =>
      let kept := Nat.min n jobs in
      (settle_claim (Z.of_nat n) (Z.of_nat jobs) (Z.of_nat kept) (drop_slots (n - kept)%nat h)).2
  end.

Definition sweep_slot (cap : Z) (h : Held) : option Held :=
  if (sweep_limit cap (targeted_waiting h) <=? sweep h) || (cap <=? targeted h +u64 sweep h) then None
  else Some {| targeted := targeted h; reserved := reserved h; sweep := sweep h +u64 1;
               sweep_wants := sweep_wants h; targeted_waiting := targeted_waiting h |}.

Definition sweep_slots (cap : Z) (h : Held) : Z := sweep_limit cap (targeted_waiting h).

(** ** The governor's behaviour *)

Lemma calm_rate : CALM_WRITE_BYTES_PER_SECOND = S754_finite false 6755399441055744 (-31).
Proof. vm_compute. reflexivity. Qed.

Lemma heavy_rate : HEAVY_WRITE_BYTES_PER_SECOND = S754_finite false 6755399441055744 (-30).
Proof. vm_compute. reflexivity. Qed.

(** No rate, not even NaN or an infinity, is above the heavy and below the calm bound. *)
Lemma rates_apart x :
  f64_lt HEAVY_WRITE_BYTES_PER_SECOND x = true -> f64_lt x CALM_WRITE_BYTES_PER_SECOND = true -> False.
Proof.
  rewrite calm_rate, heavy_rate. generalize 6755399441055744%positive. intros mantissa.
  unfold f64_lt, SFltb. destruct x as [[]|[]| |[] m e]; cbn [SFcompare]; try done.
  destruct (-30 ?= e) eqn:E1; try done; destruct (e ?= -31) eqn:E2; try done;
    rewrite ?Z.compare_eq_iff, ?Z.compare_lt_iff in *; intros; lia.
Qed.

Lemma heavy_not_calm p : heavy p = true -> calm p = false.
Proof.
  unfold heavy, calm, HEAVY_BACKLOG_BYTES, CALM_BACKLOG_BYTES, HEAVY_ACTIVE_BACKENDS, CALM_ACTIVE_BACKENDS, MEGABYTE.
  intros H. apply not_true_is_false. intros C. bprop. destruct H as [H|H]; [destruct (orb_prop _ _ H); bprop; lia|].
  by eapply rates_apart.
Qed.

Definition in_range (g : WriteGovernor) : Prop :=
  Z.min FLOOR (ceiling g) <= limit g <= ceiling g.

(** The governor moves the bulk limit the way the pressure asks and no faster:
    within its range it halves (never under the floor) only under heavy
    pressure 30 s after the last change, grows by exactly one (never over the
    ceiling) only in calm 20 s after it, and otherwise stays; pressure is never
    both heavy and calm, whatever the float write rate is. *)
Theorem next_limit_exact g p since
  (Hrange : in_range g) (Hceiling : 0 <= ceiling g < u64_max) :
  let next := next_limit (limit g) (ceiling g) p since in
  Z.min FLOOR (ceiling g) <= next <= ceiling g /\
  (next < limit g <-> heavy p = true /\ LOWER_EVERY <= since /\ Z.min FLOOR (ceiling g) < limit g) /\
  (limit g < next <-> calm p = true /\ RAISE_EVERY <= since /\ limit g < ceiling g) /\
  (limit g < next -> next = limit g + 1) /\ limit g / 2 <= next /\
  ~ (heavy p = true /\ calm p = true).
Proof.
  unfold in_range, next_limit, FLOOR in *. cbv zeta.
  assert (Hw : limit g +u64 1 = limit g + 1) by (apply wrap_u64_small; unfold in_u64, u64_max in *; lia).
  rewrite Hw.
  pose proof (Z.div_lt_upper_bound (limit g) 2 (limit g)).
  pose proof (Z.div_le_upper_bound (limit g) 2 (limit g)). pose proof (Z.div_pos (limit g) 2).
  pose proof (heavy_not_calm p) as Hx.
  assert (~ (heavy p = true /\ calm p = true)) as Hno by (intros [H1' H2']; rewrite Hx in H2'; done).
  destruct (heavy p) eqn:Eh, (calm p) eqn:Ec; try (by exfalso; auto);
    destruct (Z.leb_spec LOWER_EVERY since), (Z.leb_spec RAISE_EVERY since);
    cbn [andb]; split_and!; try done; try lia; intuition (try done; try lia).
Qed.

Definition governing_new (ceiling start : Z) : Governing :=
  {| governor := governor_new ceiling; rate := rate_default; changed_at := start |}.

Lemma next_limit_range current ceiling p since :
  Z.min FLOOR ceiling <= current <= ceiling -> 0 <= ceiling < u64_max ->
  Z.min FLOOR ceiling <= next_limit current ceiling p since <= ceiling.
Proof.
  intros Hr Hc. unfold next_limit. rewrite wrap_u64_small by (unfold in_u64, FLOOR, u64_max in *; lia).
  pose proof (Z.div_le_upper_bound current 2 current). unfold FLOOR in *.
  destruct (_ && _); [lia|]. destruct (_ && _); lia.
Qed.

Lemma tick_range s reading t1 t2 t3 :
  in_range (governor s) -> 0 <= ceiling (governor s) < u64_max ->
  in_range (governor (tick s reading t1 t2 t3)) /\
  ceiling (governor (tick s reading t1 t2 t3)) = ceiling (governor s).
Proof.
  intros Hr Hc. destruct reading as [r|]; [|done]. unfold tick. destruct (observe _ _ _) as [bps w].
  unfold adjust. destruct (_ =? _); [done|]. simpl. split; [|done]. by apply next_limit_range.
Qed.

(** ** The lane's behaviour *)

(** The lane with the slots that are out, which the workers hold. *)
Record Lane := { base : Z; held : Held; out : list LookupSlot }.

Definition with_held (h : Held) (o : list LookupSlot) (l : Lane) : Lane :=
  {| base := base l; held := h; out := o |}.

Definition is_path (p : LookupPath) (s : LookupSlot) : bool := bool_decide (path s = p).

Definition count (f : LookupSlot -> bool) (l : list LookupSlot) : Z := Z.of_nat (length (List.filter f l)).

Abbreviation reserved_slot := {| path := Targeted; slot_reserved := true |}.
Abbreviation taken_slot := {| path := Targeted; slot_reserved := false |}.

(** Each critical section, by any thread, at any governor setting. *)
Inductive lane_step (l : Lane) : Lane -> Prop :=
| step_wants n : 0 <= n -> lane_step l (with_held (wants n (held l)) (out l) l)
| step_targeted g : 0 <= limit g ->
    lane_step l (with_held (targeted_slots (cap (base l) g) (held l)).2
      (replicate (Z.to_nat (targeted_slots (cap (base l) g) (held l)).1) reserved_slot ++ out l) l)
| step_settle requested jobs kept rest :
    out l ≡ₚ replicate kept reserved_slot ++ rest ->
    lane_step l (with_held (settle_claim requested jobs (Z.of_nat kept) (held l)).2
                   (replicate kept taken_slot ++ rest) l)
| step_sweep g h : 0 <= limit g -> sweep_slot (cap (base l) g) (held l) = Some h ->
    lane_step l (with_held h ({| path := Sweep; slot_reserved := false |} :: out l) l)
| step_release s rest : out l ≡ₚ s :: rest ->
    lane_step l (with_held (release s (held l)) rest l).

Definition lane_new (base : Z) : Lane :=
  {| base := Z.max base 1; held := held_default; out := [] |}.

Inductive lane_reachable (b : Z) : Lane -> Prop :=
| lane_start : lane_reachable b (lane_new b)
| lane_next l l' : lane_reachable b l -> lane_step l l' -> lane_reachable b l'.

(** The counters are the slots that are out. *)
Record lane_inv (l : Lane) : Prop := {
  inv_base : 1 <= base l;
  inv_targeted : targeted (held l) = count (is_path Targeted) (out l);
  inv_sweep : sweep (held l) = count (is_path Sweep) (out l);
  inv_reserved : reserved (held l) = count slot_reserved (out l);
  inv_paths : Forall (fun s => slot_reserved s = true -> path s = Targeted) (out l);
  inv_wants : 0 <= sweep_wants (held l);
  inv_total : targeted (held l) + sweep (held l) <= base l
}.

Lemma count_app f a b : count f (a ++ b) = count f a + count f b.
Proof. unfold count. rewrite List.filter_app, length_app. lia. Qed.

Lemma count_nonneg f l : 0 <= count f l.
Proof. unfold count. lia. Qed.

Lemma count_cons f s l : count f (s :: l) = (if f s then 1 else 0) + count f l.
Proof. unfold count. simpl. destruct (f s); simpl; lia. Qed.

Lemma count_replicate f n s : count f (replicate n s) = if f s then Z.of_nat n else 0.
Proof. induction n as [|n IH]; [by destruct (f s)|]. simpl replicate. rewrite count_cons, IH. destruct (f s); lia. Qed.

Lemma count_perm f a b : a ≡ₚ b -> count f a = count f b.
Proof.
  induction 1 as [|x a b _ IH|x y a|a b c _ IH1 _ IH2]; [done|by rewrite !count_cons, IH| |congruence].
  rewrite !count_cons. lia.
Qed.

(** Every slot out is on one of the two paths; the reserved ones are targeted. *)
Lemma reserved_le_targeted o :
  Forall (fun s => slot_reserved s = true -> path s = Targeted) o ->
  count slot_reserved o <= count (is_path Targeted) o.
Proof.
  induction 1 as [|s o Hs _ IH]; [done|]. rewrite !count_cons. unfold is_path at 1.
  destruct (slot_reserved s); [rewrite bool_decide_eq_true_2 by auto; lia|].
  destruct (bool_decide _); lia.
Qed.

Lemma div_ceil_bounds a b : 0 <= a -> 0 < b -> 0 <= div_ceil a b /\ b * div_ceil a b < a + b /\ a <= b * div_ceil a b.
Proof.
  intros Ha Hb. unfold div_ceil. pose proof (Z.div_mod a b). pose proof (Z.mod_pos_bound a b).
  pose proof (Z.div_pos a b). destruct (Z.ltb_spec 0 (a mod b)); nia.
Qed.

Lemma share_bounds c : 1 <= c -> 1 <= sweep_share c <= c /\ (2 <= c -> sweep_share c <= c - 1).
Proof. intros Hc. unfold sweep_share. pose proof (div_ceil_bounds c 4). lia. Qed.

Lemma cap_bounds b g : 1 <= b -> 1 <= cap b g <= b.
Proof. intros Hb. unfold cap. apply clampZ_range. lia. Qed.

(** What [targeted_slots] does while the counters fit the machine word. *)
Lemma targeted_slots_eq c h :
  1 <= c -> 0 <= targeted h -> 0 <= sweep h -> 0 <= reserved h <= targeted h -> 0 <= sweep_wants h ->
  targeted h + sweep h < 2 ^ 62 -> c < 2 ^ 62 ->
  let reserve := Z.max 0 (Z.min (sweep_wants h) (sweep_share c) - sweep h) in
  let room := Z.max 0 (c - (targeted h + sweep h + reserve)) in
  targeted_slots c h =
  (room, {| targeted := targeted h + room; reserved := reserved h + room; sweep := sweep h;
            sweep_wants := sweep_wants h; targeted_waiting := targeted_waiting h |}).
Proof.
  intros Hc Ht Hs Hr Hw Hb Hcb reserve room. pose proof (share_bounds c Hc) as [Hsh _].
  unfold targeted_slots, sat_sub_u64. fold reserve.
  rewrite (wrap_u64_small (targeted h + sweep h)) by (unfold in_u64, u64_max; lia).
  rewrite (wrap_u64_small (targeted h + sweep h + reserve)) by (unfold in_u64, u64_max, reserve; lia).
  fold room. rewrite (wrap_u64_small (targeted h + room)) by (unfold in_u64, u64_max, room; lia).
  by rewrite (wrap_u64_small (reserved h + room)) by (unfold in_u64, u64_max, room; lia).
Qed.

Lemma lane_step_inv l l' : base l < 2 ^ 62 -> lane_inv l -> lane_step l l' -> lane_inv l'.
Proof.
  intros Hb [Hbase HT HS HR HP HW Htot] Hstep.
  pose proof (count_nonneg (is_path Targeted) (out l)). pose proof (count_nonneg (is_path Sweep) (out l)).
  pose proof (count_nonneg slot_reserved (out l)). pose proof (reserved_le_targeted _ HP).
  destruct Hstep as [n Hn|g Hg|requested jobs kept rest Hout|g h Hg Hs|s rest Hout].
  - by constructor.
  - pose proof (cap_bounds (base l) g Hbase) as Hcap. pose proof (share_bounds (cap (base l) g)).
    rewrite targeted_slots_eq by lia. cbn [fst snd].
    set (room := Z.max 0 _). assert (0 <= room) by lia.
    constructor; simpl; try done; rewrite ?count_app, ?count_replicate, ?Z2Nat.id; simpl; try lia.
    apply Forall_app. split; [by apply Forall_replicate|done].
  - pose proof (count_perm (is_path Targeted) _ _ Hout) as CT. pose proof (count_perm (is_path Sweep) _ _ Hout) as CS.
    pose proof (count_perm slot_reserved _ _ Hout) as CR.
    rewrite !count_app, !count_replicate in CT, CS, CR. simpl in CT, CS, CR.
    pose proof (count_nonneg slot_reserved rest). rewrite Hout in HP. apply Forall_app in HP as [_ HP].
    constructor; simpl; try done; rewrite ?count_app, ?count_replicate; simpl; try (unfold sat_sub_u64; lia).
    apply Forall_app. split; [by apply Forall_replicate|done].
  - unfold sweep_slot in Hs. pose proof (cap_bounds (base l) g Hbase) as Hcap.
    rewrite (wrap_u64_small (targeted (held l) + sweep (held l))) in Hs by (unfold in_u64, u64_max; lia).
    destruct (_ || _) eqn:E; [done|]. injection Hs as <-. bprop.
    rewrite wrap_u64_small by (unfold in_u64, u64_max; lia).
    constructor; simpl; try done; rewrite ?count_cons; simpl; try lia. by constructor.
  - pose proof (count_perm (is_path Targeted) _ _ Hout) as CT. pose proof (count_perm (is_path Sweep) _ _ Hout) as CS.
    pose proof (count_perm slot_reserved _ _ Hout) as CR. rewrite !count_cons in CT, CS, CR.
    rewrite Hout in HP. apply Forall_cons_1 in HP as [Hs HP].
    pose proof (count_nonneg (is_path Targeted) rest). pose proof (count_nonneg (is_path Sweep) rest).
    pose proof (count_nonneg slot_reserved rest).
    destruct s as [[] []]; simpl in *; (constructor; simpl; try done; unfold sat_sub_u64; lia).
Qed.

Lemma lane_reachable_inv b l : b < 2 ^ 62 -> lane_reachable b l -> lane_inv l /\ base l = Z.max b 1.
Proof.
  intros Hb. induction 1 as [|l l' _ [IH HB] Hstep].
  - split; [|done]. constructor; simpl; try done; lia.
  - split; [apply (lane_step_inv l); [lia|done|done]|]. rewrite <- HB.
    by destruct Hstep.
Qed.

(** [claim_targeted] is the drops and then the settlement. *)
Lemma drops_reachable b l k rest :
  lane_reachable b l -> out l ≡ₚ replicate k reserved_slot ++ rest ->
  exists o, o ≡ₚ rest /\ lane_reachable b (with_held (Nat.iter k (release reserved_slot) (held l)) o l).
Proof.
  revert l. induction k as [|k IH]; intros l Hl Hout.
  - exists (out l). split; [done|]. by destruct l.
  - set (l1 := with_held (release reserved_slot (held l)) (replicate k reserved_slot ++ rest) l).
    assert (lane_reachable b l1) as H1 by (eapply lane_next; [exact Hl|by apply step_release]).
    destruct (IH l1 H1) as (o & Ho & H); [done|]. exists o. split; [done|]. by rewrite Nat.iter_succ_r.
Qed.

Lemma claim_targeted_reachable b l n found rest :
  lane_reachable b l -> out l ≡ₚ replicate n reserved_slot ++ rest ->
  exists o, o ≡ₚ match found with Some jobs => replicate (Nat.min n jobs) taken_slot | None => [] end ++ rest /\
    lane_reachable b (with_held (claim_targeted n found (held l)) o l).
Proof.
  intros Hl Hout. destruct found as [jobs|]; unfold claim_targeted; [|by apply drops_reachable].
  set (kept := Nat.min n jobs). exists (replicate kept taken_slot ++ rest). split; [done|].
  assert (out l ≡ₚ replicate (n - kept) reserved_slot ++ replicate kept reserved_slot ++ rest) as Ho.
  { rewrite Hout, app_assoc, <- replicate_add. by replace (n - kept + kept)%nat with n by lia. }
  destruct (drops_reachable b l (n - kept) _ Hl Ho) as (o & Hperm & H).
  eapply lane_next; [exact H|]. exact (step_settle (with_held _ o l) _ _ kept rest Hperm).
Qed.

(** The lane's counters are always exactly the slots that are out, on each path
    and among the reserved, whatever threads take, claim with, give back or drop
    slots in whatever order and however the governor moves meanwhile: nothing is
    leaked or given back twice (so the saturating subtractions never saturate),
    and at most [base] lookups are ever out.  A claim that fails or finds fewer
    jobs than slots gives the others back. *)
Theorem lane_accounts b l (Hb : b < 2 ^ 62) (Hl : lane_reachable b l) :
  targeted (held l) = count (is_path Targeted) (out l) /\
  sweep (held l) = count (is_path Sweep) (out l) /\
  reserved (held l) = count slot_reserved (out l) /\
  Z.of_nat (length (out l)) <= Z.max b 1 /\
  targeted_in_flight (held l) = count (fun s => is_path Targeted s && negb (slot_reserved s)) (out l) /\
  (forall n found rest, out l ≡ₚ replicate n reserved_slot ++ rest ->
     let h := claim_targeted n found (held l) in
     let kept := match found with Some jobs => Nat.min n jobs | None => 0%nat end in
     targeted h = targeted (held l) - Z.of_nat (n - kept) /\
     reserved h = reserved (held l) - Z.of_nat n /\ sweep h = sweep (held l)).
Proof.
  pose proof (lane_reachable_inv b l Hb Hl) as [[Hbase HT HS HR HP HW Htot] HB].
  assert (forall o, Z.of_nat (length o) = count (is_path Targeted) o + count (is_path Sweep) o) as Hlen.
  { induction o as [|[[] r] o IH]; [done|..]; rewrite !count_cons; simpl length; simpl; lia. }
  assert (forall o, Forall (fun s => slot_reserved s = true -> path s = Targeted) o ->
            count (is_path Targeted) o
            = count slot_reserved o + count (fun s => is_path Targeted s && negb (slot_reserved s)) o) as Hsplit.
  { induction 1 as [|[[] []] o Hs _ IH]; [done|..]; rewrite !count_cons; simpl; try lia.
    simpl in Hs. by discriminate (Hs eq_refl). }
  split_and!; try done.
  - rewrite Hlen. lia.
  - unfold targeted_in_flight, sat_sub_u64. rewrite HT, HR, (Hsplit _ HP).
    pose proof (count_nonneg (fun s => is_path Targeted s && negb (slot_reserved s)) (out l)). lia.
  - intros n found rest Hout h kept.
    destruct (claim_targeted_reachable b l n found rest Hl Hout) as (o & Ho & Hr).
    pose proof (lane_reachable_inv b _ Hb Hr) as [[_ HT' HS' HR' _ _ _] _]. simpl in HT', HS', HR'. fold h in HT', HS', HR'.
    rewrite HT', HS', HR', HT, HS, HR, !(count_perm _ _ _ Ho), !(count_perm _ _ _ Hout), !count_app.
    assert (forall f, count f [] = 0) as Hnil by done.
    rewrite !count_replicate. unfold kept. destruct found; rewrite ?count_replicate, ?Hnil; simpl; lia.
Qed.

(** Targeted lookups and the sweep share the lane without starving each other:
    when [targeted_slots] hands out anything, the sweep can still get a slot as
    long as it has fewer than it wants and than its quarter; a sweep slot is
    granted only within the cap, within the quarter while targeted work is
    waiting, and (if the cap allows two) it always leaves one slot to targeted
    lookups. *)
Theorem lane_shares b l g (Hb : b < 2 ^ 62) (Hl : lane_reachable b l) (Hg : 0 <= limit g) :
  let c := cap (base l) g in
  let '(room, h) := targeted_slots c (held l) in
  (0 < room -> targeted h + sweep h <= c /\
     (sweep h < Z.min (sweep_wants h) (sweep_share c) -> is_Some (sweep_slot c h))) /\
  (forall h', sweep_slot c (held l) = Some h' ->
     targeted h' + sweep h' <= c /\ sweep h' = sweep (held l) + 1 /\
     (targeted_waiting (held l) = true -> sweep h' <= sweep_share c) /\
     (2 <= c -> sweep h' <= c - 1)).
Proof.
  cbv zeta. pose proof (lane_reachable_inv b l Hb Hl) as [[Hbase HT HS HR HP HW Htot] HB].
  pose proof (count_nonneg (is_path Targeted) (out l)). pose proof (count_nonneg (is_path Sweep) (out l)).
  pose proof (count_nonneg slot_reserved (out l)). pose proof (reserved_le_targeted _ HP).
  pose proof (cap_bounds (base l) g Hbase) as Hcap. set (c := cap (base l) g) in *.
  pose proof (share_bounds c ltac:(lia)) as [Hsh Hsh2].
  rewrite targeted_slots_eq by lia. set (room := Z.max 0 _). split.
  - intros Hroom. simpl. split; [lia|]. intros Hs. unfold sweep_slot. cbn [targeted sweep targeted_waiting].
    rewrite wrap_u64_small by (unfold in_u64, u64_max; lia).
    assert (sweep_share c <= sweep_limit c (targeted_waiting (held l))) by (unfold sweep_limit; case_match; lia).
    destruct (Z.leb_spec (sweep_limit c (targeted_waiting (held l))) (sweep (held l))); [lia|].
    destruct (Z.leb_spec c (targeted (held l) + room + sweep (held l))); [lia|]. simpl. by eexists.
  - intros h' Hs. unfold sweep_slot in Hs.
    rewrite (wrap_u64_small (targeted (held l) + sweep (held l))) in Hs by (unfold in_u64, u64_max; lia).
    destruct (_ || _) eqn:E; [done|]. injection Hs as <-. bprop. simpl.
    rewrite wrap_u64_small by (unfold in_u64, u64_max; lia). unfold sweep_limit, sat_sub_u64 in *.
    destruct (targeted_waiting (held l)); split_and!; intros; try done; lia.
Qed.

Lemma next_limit_exact_witness :
  next_limit 16 32 {| replication_backlog_bytes := 2000 * MEGABYTE; active_backends := 3;
                      write_bytes_per_second := S754_nan |} (secs 60) < 16.
Proof.
  destruct (next_limit_exact {| limit := 16; ceiling := 32 |}
    {| replication_backlog_bytes := 2000 * MEGABYTE; active_backends := 3; write_bytes_per_second := S754_nan |}
    (secs 60)) as (_ & H & _); [unfold in_range, FLOOR; simpl; lia|unfold u64_max; simpl; lia|].
  apply H. split; [vm_compute; reflexivity|]. split; [vm_compute; discriminate|vm_compute; reflexivity].
Defined.

(** A lane of eight whose slots a targeted worker has just reserved. *)
Definition busy_lane : Lane :=
  let g := {| limit := 4; ceiling := 4 |} in
  with_held (targeted_slots (cap 8 g) held_default).2
    (replicate (Z.to_nat (targeted_slots (cap 8 g) held_default).1) reserved_slot ++ []) (lane_new 8).

Lemma busy_reachable : lane_reachable 8 busy_lane.
Proof. eapply lane_next; [apply lane_start|]. apply (step_targeted (lane_new 8) {| limit := 4; ceiling := 4 |}). simpl. lia. Qed.

Lemma lane_accounts_witness : targeted (claim_targeted 8 (Some 3%nat) (held busy_lane)) = 3.
Proof.
  destruct (lane_accounts 8 busy_lane eq_refl busy_reachable) as (_ & _ & _ & _ & _ & H).
  destruct (H 8%nat (Some 3%nat) []) as [-> _]; [reflexivity|vm_compute; reflexivity].
Defined.

Lemma lane_shares_witness :
  exists h', sweep_slot 8 held_default = Some h' /\ sweep h' <= 7.
Proof.
  destruct (lane_shares 8 (lane_new 8) {| limit := 4; ceiling := 4 |} eq_refl (lane_start 8) ltac:(simpl; lia))
    as [_ Hs].
  eexists. split; [reflexivity|]. apply (Hs _ eq_refl). vm_compute. discriminate.
Defined.
