(* ===== verification/Sequences.v ===== *)
(** * Sequences: positions, insertion, removal and slot writes on a [Vec]

    What the playlist and like-order code does to its lists by index:
    [iter().position], [Vec::insert], [Vec::remove], and the writes
    [list[slot] = value] of a reordering.  [Vec::insert] panics past the length
    and [Vec::remove] from it on; the lemmas below give the positions' bounds, and
    the users of these definitions show that they respect them. *)

From Stdlib Require Import ZArith Lia.
From stdpp Require Import base list numbers tactics sets gmap.
From S2P Require Import Prelude.

(** [iter().position(p)]. *)
Fixpoint position {A} (p : A -> bool) (l : list A) : option nat :=
  match l with
  | [] => None
  | x :: l' => if p x then Some 0 else S <$> position p l'
  end.

(** [Vec::insert], for an index at most the length. *)
Definition vec_insert {A} (i : nat) (x : A) (l : list A) : list A := take i l ++ x :: drop i l.

(** [enumerate().filter(..).map(|(i, _)| i)]. *)
Definition slots {A} (p : A -> bool) (l : list A) : list nat :=
  map fst (List.filter (fun e => p e.2) (zip (seq 0 (length l)) l)).

(** [for (slot, x) in slots.into_iter().zip(new) { list[slot] = x; }]. *)
Definition write_slots {A} (sl : list nat) (new l : list A) : list A :=
  foldl (fun l e => <[e.1 := e.2]> l) l (zip sl new).

(** [iter().filter(|x| seen.insert(x))]: the first occurrence of each. *)
Fixpoint dedup_seen {A} `{EqDecision A} (seen : list A) (l : list A) : list A :=
  match l with
  | [] => []
  | x :: l' => if bool_decide (x ∈ seen) then dedup_seen seen l'
               else x :: dedup_seen (x :: seen) l'
  end.

(** The list [l] with the elements that satisfy [p] overwritten by [new], in
    order, as long as [new] lasts: what the slot writes amount to. *)
Fixpoint refill {A} (p : A -> bool) (new l : list A) : list A :=
  match l, new with
  | [], _ => []
  | _, [] => l
  | x :: l', y :: new' => if p x then y :: refill p new' l' else x :: refill p new l'
  end.

Section positions.
Context {A : Type}.
Implicit Types (p : A -> bool) (l : list A).

Lemma position_Some p l i :
  position p l = Some i <->
  exists x, l !! i = Some x /\ p x = true /\ forall y, y ∈ take i l -> p y = false.
Proof.
  revert i. induction l as [|x l IH]; intros i; simpl; [naive_solver|].
  destruct (p x) eqn:E.
  - split; [intros [= <-]; exists x; simpl; set_solver|].
    intros (y & Hy & Hp & Hall). destruct i; [done|].
    specialize (Hall x). rewrite Hall in E; [done|simpl; set_solver].
  - destruct i as [|i].
    + split; [by destruct (position p l)|]. intros (y & [= <-] & Hp & _). congruence.
    + rewrite fmap_Some. split.
      * intros (j & Hj & [= <-]). apply IH in Hj as (y & ? & ? & Hall).
        exists y. repeat split; [done|done|]. intros z. simpl. intros [->|Hz]%elem_of_cons; auto.
      * intros (y & ? & ? & Hall). exists i. split; [|done]. apply IH. exists y.
        repeat split; [done|done|]. intros z Hz. apply Hall. simpl. set_solver.
Qed.

Lemma position_None p l : position p l = None <-> forall x, x ∈ l -> p x = false.
Proof.
  induction l as [|x l IH]; simpl; [set_solver|].
  destruct (p x) eqn:E.
  - split; [done|]. intros H. rewrite H in E; [done|set_solver].
  - rewrite fmap_None, IH. split; [|set_solver].
    intros H y [->|Hy]%elem_of_cons; auto.
Qed.

Lemma position_lt p l i : position p l = Some i -> i < length l.
Proof. intros (x & H & _)%position_Some. by apply lookup_lt_Some in H. Qed.

Lemma vec_insert_perm i x l : vec_insert i x l ≡ₚ x :: l.
Proof. unfold vec_insert. rewrite <- Permutation_middle. by rewrite take_drop. Qed.

Lemma vec_insert_length i x l : length (vec_insert i x l) = S (length l).
Proof. by rewrite vec_insert_perm. Qed.

Lemma vec_insert_lookup i x l : i <= length l -> vec_insert i x l !! i = Some x.
Proof.
  intros H. unfold vec_insert. rewrite lookup_app_r; rewrite length_take; [|lia].
  by replace (i - i `min` length l) with 0 by lia.
Qed.

Lemma vec_insert_lookup_lt i j x l : j < i -> i <= length l -> vec_insert i x l !! j = l !! j.
Proof.
  intros Hj Hi. unfold vec_insert. rewrite lookup_app_l by (rewrite length_take; lia).
  by apply lookup_take_lt.
Qed.

Lemma vec_insert_lookup_ge i j x l : i <= j -> i <= length l -> vec_insert i x l !! S j = l !! j.
Proof.
  intros Hj Hi. unfold vec_insert. rewrite lookup_app_r by (rewrite length_take; lia).
  rewrite length_take. replace (S j - i `min` length l) with (S (j - i)) by lia. simpl.
  rewrite lookup_drop. f_equal. lia.
Qed.

Lemma delete_vec_insert i x l : i <= length l -> delete i (vec_insert i x l) = l.
Proof.
  intros H. unfold vec_insert. rewrite delete_take_drop.
  rewrite take_app_le by (rewrite length_take; lia).
  rewrite take_take, Nat.min_id.
  rewrite drop_app_ge by (rewrite length_take; lia).
  rewrite length_take. replace (S i - i `min` length l) with 1 by lia.
  cbn [drop]. rewrite ?drop_0. apply take_drop.
Qed.

Lemma vec_insert_delete i x l : l !! i = Some x -> vec_insert i x (delete i l) = l.
Proof.
  intros H. pose proof (lookup_lt_Some _ _ _ H). unfold vec_insert. rewrite delete_take_drop.
  assert (length (take i l) = i) as Hlen by (rewrite length_take; lia).
  rewrite take_app_length' by done. rewrite drop_app_length' by done.
  by apply take_drop_middle.
Qed.

Lemma retain_app p l1 l2 : retain p (l1 ++ l2) = retain p l1 ++ retain p l2.
Proof. apply List.filter_app. Qed.

Lemma retain_insert_out p i x l : p x = false -> retain p (vec_insert i x l) = retain p l.
Proof.
  intros H. unfold vec_insert. rewrite retain_app. unfold retain at 2. cbn [List.filter].
  rewrite H. fold (retain p (drop i l)). by rewrite <- retain_app, take_drop.
Qed.

Lemma retain_delete_out p i x l : l !! i = Some x -> p x = false -> retain p (delete i l) = retain p l.
Proof.
  intros Hx H. rewrite <- (vec_insert_delete i x l Hx) at 2. by rewrite retain_insert_out.
Qed.

Lemma retain_perm_split p l : retain p l ++ retain (fun x => negb (p x)) l ≡ₚ l.
Proof.
  induction l as [|x l IH]; simpl; [done|]. unfold retain in *. cbn [List.filter].
  destruct (p x); simpl; [by rewrite IH|]. rewrite <- Permutation_middle. by rewrite IH.
Qed.

Lemma retain_ext p q l : (forall x, x ∈ l -> p x = q x) -> retain p l = retain q l.
Proof.
  induction l as [|x l IH]; intros H; [done|]. unfold retain in *. cbn [List.filter].
  rewrite (H x) by set_solver. rewrite IH by set_solver. done.
Qed.

Lemma retain_none p l : (forall x, x ∈ l -> p x = false) -> retain p l = [].
Proof.
  induction l as [|x l IH]; intros H; [done|]. unfold retain in *. cbn [List.filter].
  rewrite (H x) by set_solver. apply IH. set_solver.
Qed.

Lemma NoDup_retain_length_perm p l1 l2 :
  NoDup l1 -> NoDup l2 -> (forall x, x ∈ l1 <-> x ∈ l2 /\ p x = true) ->
  length l1 = length (retain p l2).
Proof.
  intros H1 H2 H. apply Permutation_length, NoDup_Permutation; [done|by apply retain_NoDup|].
  intros x. by rewrite retain_In.
Qed.
End positions.

Section refills.
Context {A : Type}.
Implicit Types (p : A -> bool) (l new : list A).

Lemma refill_nil p l : refill p [] l = l.
Proof. by destruct l. Qed.

Lemma foldl_write_nil l (sl : list nat) : write_slots sl [] l = l.
Proof. unfold write_slots. by destruct sl. Qed.

Lemma insert_middle (pre : list A) x y l : <[length pre := y]> (pre ++ x :: l) = pre ++ y :: l.
Proof. induction pre as [|z pre IH]; simpl; [done|]. by f_equal. Qed.

Lemma write_slots_from p pre l new :
  write_slots (map fst (List.filter (fun e => p e.2) (zip (seq (length pre) (length l)) l))) new
    (pre ++ l) = pre ++ refill p new l.
Proof.
  revert pre new. induction l as [|x l IH]; intros pre new.
  { unfold write_slots. simpl. by destruct new. }
  destruct new as [|y new]; [by rewrite foldl_write_nil|].
  cbn [length seq zip zip_with List.filter snd]. destruct (p x) eqn:E; cbn [map fst refill];
    rewrite ?E.
  - unfold write_slots. cbn [zip zip_with foldl fst snd]. rewrite insert_middle.
    specialize (IH (pre ++ [y]) new). rewrite length_app, Nat.add_comm in IH. simpl in IH.
    rewrite <- !(assoc_L (++)) in IH. exact IH.
  - specialize (IH (pre ++ [x]) (y :: new)). rewrite length_app, Nat.add_comm in IH. simpl in IH.
    rewrite <- !(assoc_L (++)) in IH. exact IH.
Qed.

(** The slot writes are the refill. *)
Lemma write_slots_refill p l new : write_slots (slots p l) new l = refill p new l.
Proof. apply (write_slots_from p []). Qed.

Lemma refill_length p new l : length (refill p new l) = length l.
Proof.
  revert new. induction l as [|x l IH]; intros [|y new]; simpl; try done.
  destruct (p x); simpl; by rewrite IH.
Qed.

Lemma refill_in p new l :
  length new = length (retain p l) -> Forall (fun y => p y = true) new ->
  retain p (refill p new l) = new.
Proof.
  revert new. induction l as [|x l IH]; intros new Hlen Hall.
  { by destruct new. }
  unfold retain in *. cbn [List.filter] in *. destruct new as [|y new]; cbn [refill].
  { cbn [List.filter]. destruct (p x); [done|]. rewrite <- (refill_nil p l). by apply IH. }
  inversion Hall as [|? ? Hy Hall']; subst.
  destruct (p x) eqn:E; cbn [List.filter]; rewrite ?E, ?Hy.
  - f_equal. apply IH; [|done]. simpl in Hlen. lia.
  - by apply IH.
Qed.

Lemma refill_untouched p q new l :
  Forall (fun y => p y = true) new -> (forall z, q z = true -> p z = false) ->
  retain q (refill p new l) = retain q l.
Proof.
  intros Hall Hq. revert new Hall. induction l as [|x l IH]; intros [|y new] Hall; try done.
  inversion Hall as [|? ? Hy Hall']; subst.
  assert (forall z, p z = true -> q z = false) as Hq'.
  { intros z Hz. destruct (q z) eqn:E; [|done]. apply Hq in E. congruence. }
  unfold retain in *. cbn [refill List.filter].
  destruct (p x) eqn:E; cbn [List.filter].
  - rewrite (Hq' x), (Hq' y) by done. by apply IH.
  - destruct (q x); [f_equal|]; by apply IH.
Qed.

Lemma refill_out p new l :
  Forall (fun y => p y = true) new ->
  retain (fun x => negb (p x)) (refill p new l) = retain (fun x => negb (p x)) l.
Proof. intros H. apply refill_untouched; [done|]. intros z. by rewrite negb_true_iff. Qed.

Lemma refill_perm p new l :
  new ≡ₚ retain p l -> refill p new l ≡ₚ l.
Proof.
  intros H. assert (Forall (fun y => p y = true) new) as Hall.
  { rewrite H. apply Forall_forall. intros x Hx. by apply retain_In in Hx as [_ Hx]. }
  rewrite <- (retain_perm_split p (refill p new l)).
  rewrite refill_in; [|by rewrite H|done]. rewrite refill_out by done.
  rewrite H. apply retain_perm_split.
Qed.

(** A list is determined by what it keeps in and out of [p] at equal slots. *)
Lemma refill_id p l : refill p (retain p l) l = l.
Proof.
  induction l as [|x l IH]; [done|]. unfold retain in *. cbn [List.filter].
  destruct (p x) eqn:E.
  - cbn [refill]. rewrite E. by f_equal.
  - destruct (List.filter p l) as [|y new] eqn:F; cbn [refill]; [done|]. rewrite E. f_equal. exact IH.
Qed.
End refills.

Section dedup.
Context {A : Type} `{EqDecision A}.
Implicit Types (l seen : list A).

Lemma dedup_seen_In seen l x : x ∈ dedup_seen seen l <-> x ∈ l /\ x ∉ seen.
Proof.
  revert seen. induction l as [|y l IH]; intros seen; simpl; [set_solver|].
  case_bool_decide; rewrite ?elem_of_cons, IH; [|destruct (decide (x = y)); set_solver].
  destruct (decide (x = y)); set_solver.
Qed.

Lemma dedup_seen_NoDup seen l : NoDup (dedup_seen seen l).
Proof.
  revert seen. induction l as [|y l IH]; intros seen; simpl; [constructor|].
  case_bool_decide; [done|]. constructor; [|done]. rewrite dedup_seen_In. set_solver.
Qed.

Lemma dedup_seen_id seen l : NoDup l -> (forall x, x ∈ l -> x ∉ seen) -> dedup_seen seen l = l.
Proof.
  revert seen. induction l as [|y l IH]; intros seen Hnd H; simpl; [done|].
  apply NoDup_cons in Hnd as [Hy Hnd].
  rewrite bool_decide_eq_false_2 by set_solver. f_equal. apply IH; [done|set_solver].
Qed.

Lemma dedup_seen_length seen l : length (dedup_seen seen l) <= length l.
Proof.
  revert seen. induction l as [|y l IH]; intros seen; simpl; [done|].
  case_bool_decide; simpl; [specialize (IH seen)|specialize (IH (y :: seen))]; lia.
Qed.

Lemma dedup_seen_sublist seen l : dedup_seen seen l `sublist_of` l.
Proof.
  revert seen. induction l as [|y l IH]; intros seen; simpl; [constructor|].
  case_bool_decide; by constructor.
Qed.
End dedup.

#[export] Hint Resolve dedup_seen_NoDup : rust.
