(* ===== verification/PlaylistEdit.v ===== *)
(** * PlaylistEdit: what an edit of a playlist's tracks becomes in the journal

    Source: [api/src/modules/playlists/edit.rs] (the operations, their
    derivation from an edit and their effect on a projection) and the row that
    [journal.rs] writes for each operation.  Track ids are the canonical ids of
    [EntityRef].  [HashSet]s that are only asked for membership are the lists
    they were collected from. *)

From Stdlib Require Import ZArith Lia String.
From stdpp Require Import base list numbers tactics sets gmap.
From S2P Require Import Prelude Text EntityRef AppError Sequences.
Local Open Scope Z_scope.

Definition MAX_DERIVED_OPERATIONS : nat := Z.to_nat 4096.
Definition MAX_SUBMITTED_TRACKS : nat := Z.to_nat 20000.

Record MoveBody := { mb_track : str; mb_to : Z }.

Record EditBody := {
  eb_add : option str;
  eb_remove : option str;
  eb_move_op : option MoveBody;
  eb_order : option (list str);
  eb_expected_projection_revision : option Z }.

Inductive TrackEdit :=
| EditAdd (track_id : str)
| EditRemove (track_id : str)
| EditMove (track_id : str) (to_index : Z)
| EditOrder (track_ids : list str)
| EditReplace (track_ids : list str).

Inductive Boundary := Front | Back.

Inductive Placement :=
| AtBoundary (b : Boundary)
| Anchored (left right : option str).

Inductive Operation :=
| Add (track_id : str) (placement : Placement)
| Remove (track_id : str)
| Move (track_id : str) (placement : Placement)
| Reorder (ordered_track_ids : list str).

Record MembershipRequest := {
  edit : TrackEdit;
  expected_projection_revision : option Z }.

Global Instance Boundary_eq_dec : EqDecision Boundary.
Proof. solve_decision. Defined.
Global Instance Placement_eq_dec : EqDecision Placement.
Proof. solve_decision. Defined.
Global Instance Operation_eq_dec : EqDecision Operation.
Proof. solve_decision. Defined.

Definition submitted_track_ids (e : TrackEdit) : list str :=
  match e with
  | EditAdd t => [t]
  | EditOrder ts | EditReplace ts => ts
  | EditRemove _ | EditMove _ _ => []
  end.

(** ** The fields of an operation *)

Definition boundary_as_str (b : Boundary) : str :=
  match b with Front => lit "front" | Back => lit "back" end.

Definition op_kind (o : Operation) : str :=
  match o with
  | Add _ _ => lit "add"
  | Remove _ => lit "remove"
  | Move _ _ => lit "move"
  | Reorder _ => lit "reorder"
  end.

Definition op_track_id (o : Operation) : option str :=
  match o with
  | Add t _ | Remove t | Move t _ => Some t
  | Reorder _ => None
  end.

Definition op_placement (o : Operation) : option Placement :=
  match o with
  | Add _ p | Move _ p => Some p
  | Remove _ | Reorder _ => None
  end.

Definition left_anchor (o : Operation) : option str :=
  match op_placement o with Some (Anchored l _) => l | _ => None end.

Definition right_anchor (o : Operation) : option str :=
  match op_placement o with Some (Anchored _ r) => r | _ => None end.

Definition op_boundary (o : Operation) : option str :=
  match op_placement o with Some (AtBoundary b) => Some (boundary_as_str b) | _ => None end.

Definition op_ordered_track_ids (o : Operation) : option (list str) :=
  match o with Reorder ids => Some ids | _ => None end.

Definition added_track (o : Operation) : option str :=
  match o with Add t _ => Some t | _ => None end.

(** ** The effect of an operation on a projection *)

Definition position_of (projection : list str) (t : str) : option nat :=
  position (fun member => bool_decide (member = t)) projection.

Definition contains (projection : list str) (t : str) : bool :=
  any (fun member => bool_decide (member = t)) projection.

Definition mem (l : list str) (t : str) : bool := bool_decide (t ∈ l).

Definition insert_position (projection : list str) (p : Placement) : nat :=
  match p with
  | AtBoundary Front => 0%nat
  | AtBoundary Back => length projection
  | Anchored l r =>
      match S <$> (l ≫= position_of projection) with
      | Some i => i
      | None => default (length projection) (r ≫= position_of projection)
      end
  end.

(** [Operation::apply]. *)
Definition apply_op (o : Operation) (projection : list str) : list str :=
  match o with
  | Add t p =>
      match position_of projection t with
      | None => vec_insert (insert_position projection p) t projection
      | Some _ => projection
      end
  | Remove t =>
      match position_of projection t with
      | Some from => delete from projection
      | None => projection
      end
  | Move t p =>
      match position_of projection t with
      | Some from =>
          let projection := delete from projection in
          vec_insert (insert_position projection p) t projection
      | None => projection
      end
  | Reorder ordered =>
      let named := List.filter (mem projection) ordered in
      write_slots (slots (mem named) projection) named projection
  end.

Definition apply_all (ops : list Operation) (projection : list str) : list str :=
  foldl (fun projection o => apply_op o projection) projection ops.

(** ** Deriving the operations of an edit *)

Definition derive_move (t : str) (to_index : Z) (projection : list str) : list Operation :=
  match position_of projection t with
  | None => []
  | Some from =>
      let without := delete from projection in
      let target := Z.to_nat (Z.min (Z.max to_index 0) (Z.of_nat (length without))) in
      if (target =? from)%nat then []
      else
        let placement :=
          if (target =? 0)%nat then AtBoundary Front
          else if (target =? length without)%nat then AtBoundary Back
          else Anchored (without !! (target - 1)%nat) (without !! target) in
        [Move t placement]
  end.

(** The first loop of [derive_order]: an addition for each submitted track that
    is not a member, placed after the track submitted before it. *)
Fixpoint derive_adds (members : list str) (previous : option str) (submitted : list str)
  : list Operation :=
  match submitted with
  | [] => []
  | t :: submitted' =>
      (if mem members t then []
       else [Add t (match previous with
                    | Some before => Anchored (Some before) None
                    | None => AtBoundary Front
                    end)])
      ++ derive_adds members (Some t) submitted'
  end.

Definition derive_removes (named projection : list str) : list Operation :=
  map Remove (List.filter (fun t => negb (mem named t)) projection).

Definition derive_order (submitted projection : list str) (replace : bool) : list Operation :=
  let operations :=
    derive_adds projection None submitted
    ++ (if replace then derive_removes submitted projection else []) in
  let projected := apply_all operations projection in
  let reorder := Reorder submitted in
  let reordered := apply_op reorder projected in
  if bool_decide (reordered <> projected) then operations ++ [reorder] else operations.

Definition too_many_operations : AppError :=
  BadRequest (lit "playlist edit derives too many operations").

Definition derive (e : TrackEdit) (projection : list str) : AppResult (list Operation) :=
  let operations :=
    match e with
    | EditAdd t => if contains projection t then [] else [Add t (AtBoundary Back)]
    | EditRemove t => if contains projection t then [Remove t] else []
    | EditMove t to_index => derive_move t to_index projection
    | EditOrder ts => derive_order ts projection false
    | EditReplace ts => derive_order ts projection true
    end in
  if (MAX_DERIVED_OPERATIONS <? length operations)%nat then Err too_many_operations
  else Ok operations.

(** ** Reading a request *)

Definition track_id_of (value : str) : AppResult str :=
  match sc_track_id value with
  | Some t => Ok t
  | None => Err (BadRequest (lit "track identifier is not a SoundCloud track"))
  end.

(** The loop of [track_ids_of]; [seen] holds what [track_ids] does. *)
Fixpoint track_ids_from (seen : list str) (values : list str) : AppResult (list str) :=
  match values with
  | [] => Ok []
  | value :: values' =>
      match track_id_of value with
      | Err e => Err e
      | Ok t =>
          if mem seen t then track_ids_from seen values'
          else match track_ids_from (t :: seen) values' with
               | Ok ts => Ok (t :: ts)
               | Err e => Err e
               end
      end
  end.

Definition track_ids_of (values : list str) : AppResult (list str) :=
  if (MAX_SUBMITTED_TRACKS <? length values)%nat
  then Err (BadRequest (lit "playlist edit carries too many tracks"))
  else track_ids_from [] values.

Definition result_map {A B E} (f : A -> B) (r : result A E) : result B E :=
  match r with Ok a => Ok (f a) | Err e => Err e end.

Definition into_request (b : EditBody) : AppResult MembershipRequest :=
  let request e := {| edit := e; expected_projection_revision := eb_expected_projection_revision b |} in
  match eb_add b, eb_remove b, eb_move_op b, eb_order b with
  | Some t, None, None, None => result_map (fun t => request (EditAdd t)) (track_id_of t)
  | None, Some t, None, None => result_map (fun t => request (EditRemove t)) (track_id_of t)
  | None, None, Some m, None =>
      result_map (fun t => request (EditMove t (mb_to m))) (track_id_of (mb_track m))
  | None, None, None, Some order =>
      result_map (fun ts => request (EditOrder ts)) (track_ids_of order)
  | _, _, _, _ => Err (BadRequest (lit "provide exactly one of add|remove|move|order"))
  end.

(** * What the fingerprints of operations and memberships hash

    Source: [Operation::fingerprint], [absorb] and [absorb_optional] of
    [api/src/modules/playlists/edit.rs] and [membership_fingerprint] of
    [jobs/src/handlers/playlist_observe/fingerprint.rs].  The hash (the [sha2]
    crate) is a parameter; what is shown is that the bytes fed to it determine
    the operation or the membership, so two values share a fingerprint only by a
    collision of SHA-256. *)

(** [digest.update((len as u64).to_be_bytes()); digest.update(value)]. *)
Definition absorb (value : bytes) : bytes := to_be_bytes 8 (Z.of_nat (length value)) ++ value.

Definition absorb_optional (value : option str) : bytes :=
  match value with Some v => [1] ++ absorb (as_bytes v) | None => [0] end.

Definition absorb_all (ids : list str) : bytes :=
  to_be_bytes 8 (Z.of_nat (length ids)) ++ concat (map (fun t => absorb (as_bytes t)) ids).

Definition operation_digest_input (o : Operation) : bytes :=
  absorb (as_bytes (op_kind o))
  ++ absorb_optional (op_track_id o)
  ++ absorb_optional (left_anchor o)
  ++ absorb_optional (right_anchor o)
  ++ absorb_optional (op_boundary o)
  ++ absorb_all (default [] (op_ordered_track_ids o)).

Definition membership_digest_input (track_ids : list str) : bytes := absorb_all track_ids.

Section hashing.
Context (sha256 : bytes -> bytes).

Definition fingerprint (o : Operation) : bytes := sha256 (operation_digest_input o).
Definition membership_fingerprint (track_ids : list str) : bytes :=
  sha256 (membership_digest_input track_ids).
End hashing.

(** ** Values that fit: valid [String]s and [Vec]s, whose lengths are [u64]s *)

Definition fits (s : str) : Prop := scalars s /\ str_len s <= u64_max.
Definition fits_all (l : list str) : Prop := Forall fits l /\ Z.of_nat (length l) <= u64_max.
Definition fits_opt (o : option str) : Prop := match o with Some s => fits s | None => True end.

Definition op_fits (o : Operation) : Prop :=
  fits_opt (op_track_id o) /\ fits_opt (left_anchor o) /\ fits_opt (right_anchor o)
  /\ fits_all (default [] (op_ordered_track_ids o)).

Lemma be8_inj n m : 0 <= n <= u64_max -> 0 <= m <= u64_max -> to_be_bytes 8 n = to_be_bytes 8 m -> n = m.
Proof. unfold u64_max. intros. apply (to_be_inj 8); try done; change (256 ^ Z.of_nat 8) with 18446744073709551616; lia. Qed.

(** A length-prefixed value is cut out of what follows it. *)
Lemma absorb_inj s t rest rest' :
  fits s -> fits t -> absorb (as_bytes s) ++ rest = absorb (as_bytes t) ++ rest' -> s = t /\ rest = rest'.
Proof.
  intros [Hs Hls] [Ht Hlt] H. unfold absorb in H. rewrite <- !(assoc_L (++)) in H.
  apply app_inj_length in H as [Hn H]; [|by rewrite !to_be_bytes_length].
  rewrite !as_bytes_length in Hn.
  apply be8_inj in Hn; [|pose proof (str_len_nonneg s); lia|pose proof (str_len_nonneg t); lia].
  apply app_inj_length in H as [Hb ->].
  - split; [|done]. by apply as_bytes_inj.
  - rewrite <- !as_bytes_length in Hn. lia.
Qed.

Lemma absorb_optional_inj a b rest rest' :
  fits_opt a -> fits_opt b -> absorb_optional a ++ rest = absorb_optional b ++ rest' -> a = b /\ rest = rest'.
Proof.
  destruct a as [s|], b as [t|]; cbn [absorb_optional fits_opt app]; intros Ha Hb H; try done.
  - apply (f_equal (drop 1)) in H. cbn [drop] in H. rewrite ?drop_0 in H.
    apply absorb_inj in H as [-> ->]; done.
  - by injection H as ->.
Qed.

Lemma concat_absorb_inj l l' rest rest' :
  Forall fits l -> Forall fits l' -> length l = length l' ->
  concat (map (fun t => absorb (as_bytes t)) l) ++ rest
  = concat (map (fun t => absorb (as_bytes t)) l') ++ rest' -> l = l' /\ rest = rest'.
Proof.
  revert l'. induction l as [|x l IH]; intros [|y l'] Hl Hl' Hlen; try done. cbn [map concat].
  inversion Hl; inversion Hl'; subst. rewrite <- !(assoc_L (++)). intros H.
  apply absorb_inj in H as [-> H]; [|done|done]. apply IH in H as [-> ->]; [done..|simpl in Hlen; lia].
Qed.

Lemma absorb_all_inj l l' rest rest' :
  fits_all l -> fits_all l' -> absorb_all l ++ rest = absorb_all l' ++ rest' -> l = l' /\ rest = rest'.
Proof.
  intros [Hl Hn] [Hl' Hn'] H. unfold absorb_all in H. rewrite <- !(assoc_L (++)) in H.
  apply app_inj_length in H as [Hlen H]; [|by rewrite !to_be_bytes_length].
  apply be8_inj in Hlen; [|lia|lia]. apply concat_absorb_inj in H; [done|done|done|lia].
Qed.

Lemma lit_fits s : fits (lit s) <-> str_len (lit s) <= u64_max.
Proof.
  unfold fits. split; [tauto|]. intros H. split; [|done]. unfold lit, scalars.
  apply Forall_forall. intros c Hc. apply list_elem_of_In, in_map_iff in Hc as (a & <- & _).
  unfold scalar. assert (Z.of_N (Ascii.N_of_ascii a) < 256); [|lia].
  by destruct a as [[] [] [] [] [] [] [] []].
Qed.

(** The fields determine the operation. *)
Lemma op_fields_inj o1 o2 :
  op_kind o1 = op_kind o2 -> op_track_id o1 = op_track_id o2 -> left_anchor o1 = left_anchor o2 ->
  right_anchor o1 = right_anchor o2 -> op_boundary o1 = op_boundary o2 ->
  default [] (op_ordered_track_ids o1) = default [] (op_ordered_track_ids o2) -> o1 = o2.
Proof.
  assert (forall p p', left_anchor (Add [] p) = left_anchor (Add [] p') ->
    right_anchor (Add [] p) = right_anchor (Add [] p') ->
    op_boundary (Add [] p) = op_boundary (Add [] p') -> p = p') as Hp.
  { intros [[]|b a] [[]|b' a']; simpl; unfold left_anchor, right_anchor, op_boundary; simpl;
      intros; simplify_eq; done. }
  destruct o1 as [t p|t|t p|ids], o2 as [t' p'|t'|t' p'|ids']; try (intros H; by vm_compute in H);
    intros _ Ht Hl Hr Hb Ho; simpl in Ht, Ho; simplify_eq; try done; f_equal; by apply Hp.
Qed.

Lemma op_kind_fits o : fits (op_kind o).
Proof. destruct o; apply lit_fits; vm_compute; discriminate. Qed.

Lemma op_boundary_fits o : fits_opt (op_boundary o).
Proof.
  unfold op_boundary. destruct (op_placement o) as [[[]|]|]; simpl; try done;
    apply lit_fits; vm_compute; discriminate.
Qed.

(** ** Properties *)

(** What an operation's fingerprint hashes determines the operation, and what
    a membership's fingerprint hashes determines the track ids and their order:
    the length prefixes and presence bytes leave no two values with the same
    bytes, so equal fingerprints of different values would be a collision of the
    hash. *)
Theorem fingerprints_injective :
  (forall o1 o2, op_fits o1 -> op_fits o2 ->
     operation_digest_input o1 = operation_digest_input o2 -> o1 = o2)
  /\ (forall l1 l2, fits_all l1 -> fits_all l2 ->
     membership_digest_input l1 = membership_digest_input l2 -> l1 = l2).
Proof.
  split.
  - intros o1 o2 (T1 & L1 & R1 & O1) (T2 & L2 & R2 & O2) H. unfold operation_digest_input in H.
    apply absorb_inj in H as [Hk H]; [|apply op_kind_fits..].
    apply absorb_optional_inj in H as [Ht H]; [|done..].
    apply absorb_optional_inj in H as [Hl H]; [|done..].
    apply absorb_optional_inj in H as [Hr H]; [|done..].
    apply absorb_optional_inj in H as [Hb H]; [|apply op_boundary_fits..].
    rewrite <- (app_nil_r (absorb_all _)), <- (app_nil_r (absorb_all (default [] (op_ordered_track_ids o2)))) in H.
    apply absorb_all_inj in H as [Ho _]; [|done..]. by apply op_fields_inj.
  - intros l1 l2 H1 H2 H. unfold membership_digest_input in H.
    rewrite <- (app_nil_r (absorb_all l1)), <- (app_nil_r (absorb_all l2)) in H.
    by apply absorb_all_inj in H as [H _].
Qed.

Lemma fingerprints_injective_witness :
  operation_digest_input (Add (lit "12") (AtBoundary Front))
  <> operation_digest_input (Add (lit "1") (AtBoundary Front)).
Proof.
  intros H. assert (op_fits (Add (lit "12") (AtBoundary Front))) as H1.
  { split; [apply lit_fits; vm_compute; discriminate|]. repeat split; try constructor; vm_compute; discriminate. }
  assert (op_fits (Add (lit "1") (AtBoundary Front))) as H2.
  { split; [apply lit_fits; vm_compute; discriminate|]. repeat split; try constructor; vm_compute; discriminate. }
  pose proof (proj1 fingerprints_injective _ _ H1 H2 H) as E. by vm_compute in E.
Defined.
