(* ===== verification/PlaylistEditFacts.v ===== *)
(** * PlaylistEditFacts: what the operations of an edit do to a projection

    An edit of a playlist is journalled as the operations [derive] computes from
    the current projection; these theorems say that applying them gives what the
    edit asked for, and that asking again changes nothing. *)

From Stdlib Require Import ZArith Lia String.
From stdpp Require Import base list numbers tactics sets gmap.
From S2P Require Import Prelude Text EntityRef AppError Sequences PlaylistEdit.

(** ** Positions and membership *)

Lemma mem_true l t : mem l t = true <-> t ∈ l.
Proof. apply bool_decide_eq_true. Qed.

Lemma mem_false l t : mem l t = false <-> t ∉ l.
Proof. apply bool_decide_eq_false. Qed.

Lemma mem_ext l1 l2 t : (t ∈ l1 <-> t ∈ l2) -> mem l1 t = mem l2 t.
Proof. intros H. unfold mem. by apply bool_decide_ext. Qed.

Lemma position_of_None l t : position_of l t = None <-> t ∉ l.
Proof.
  unfold position_of. rewrite position_None. split.
  - intros H Ht. specialize (H t Ht). by rewrite bool_decide_eq_true_2 in H.
  - intros H x Hx. apply bool_decide_eq_false. by intros ->.
Qed.

Lemma position_of_lookup l t i : position_of l t = Some i -> l !! i = Some t.
Proof. intros (x & H & Hx & _)%position_Some. by apply bool_decide_eq_true in Hx as ->. Qed.

Lemma position_of_is_Some l t : t ∈ l -> is_Some (position_of l t).
Proof.
  intros H. destruct (position_of l t) eqn:E; [done|]. by apply position_of_None in E.
Qed.

Lemma position_of_elem l t i : position_of l t = Some i -> t ∈ l.
Proof. intros H%position_of_lookup. by eapply list_elem_of_lookup_2. Qed.

Lemma position_of_NoDup l t i : NoDup l -> l !! i = Some t -> position_of l t = Some i.
Proof.
  intros Hnd H. destruct (position_of_is_Some l t) as [j Hj]; [by eapply list_elem_of_lookup_2|].
  rewrite Hj. f_equal. eapply NoDup_lookup; [done| |done]. by apply position_of_lookup.
Qed.

Lemma position_of_lt l t i : position_of l t = Some i -> i < length l.
Proof. apply position_lt. Qed.

Lemma contains_mem l t : contains l t = mem l t.
Proof.
  destruct (mem l t) eqn:E.
  - apply any_spec. exists t. apply mem_true in E. split; [done|]. by apply bool_decide_eq_true.
  - apply any_false. intros x Hx. apply mem_false in E. apply bool_decide_eq_false. by intros ->.
Qed.

Lemma insert_position_le l p : insert_position l p <= length l.
Proof.
  destruct p as [[]|left0 right0]; simpl; [lia|lia|].
  destruct (left0 ≫= position_of l) as [i|] eqn:E; simpl.
  - apply bind_Some in E as (a & _ & E). apply position_of_lt in E. lia.
  - destruct (right0 ≫= position_of l) as [i|] eqn:E'; simpl; [|lia].
    apply bind_Some in E' as (a & _ & E'). apply position_of_lt in E'. lia.
Qed.

Lemma delete_position_perm l t i : position_of l t = Some i -> l ≡ₚ t :: delete i l.
Proof. intros H. by apply delete_Permutation, position_of_lookup. Qed.

Lemma elem_of_delete_position l t i x :
  NoDup l -> position_of l t = Some i -> (x ∈ delete i l <-> x ∈ l /\ x <> t).
Proof.
  intros Hnd H%delete_position_perm. revert H. generalize (delete i l) as l'. intros l' H.
  rewrite H. rewrite H in Hnd.
  apply NoDup_cons in Hnd as [Hn _]. rewrite elem_of_cons. split; [|naive_solver].
  intros Hx. split; [by right|]. by intros ->.
Qed.

Lemma NoDup_delete_position l t i : NoDup l -> position_of l t = Some i -> NoDup (delete i l).
Proof.
  intros Hnd H%delete_position_perm. revert H. generalize (delete i l) as l'. intros l' H.
  rewrite H in Hnd. by apply NoDup_cons in Hnd as [_ ?].
Qed.

Lemma retain_delete_position p l t i :
  position_of l t = Some i -> p t = false -> retain p (delete i l) = retain p l.
Proof. intros H%position_of_lookup Hp. by eapply retain_delete_out. Qed.

(** ** One operation *)

Lemma apply_add_In l t p x : x ∈ apply_op (Add t p) l <-> x = t \/ x ∈ l.
Proof.
  simpl. destruct (position_of l t) as [i|] eqn:E.
  - apply position_of_elem in E. naive_solver.
  - by rewrite vec_insert_perm, elem_of_cons.
Qed.

Lemma apply_add_NoDup l t p : NoDup l -> NoDup (apply_op (Add t p) l).
Proof.
  intros H. simpl. destruct (position_of l t) as [i|] eqn:E; [done|].
  rewrite vec_insert_perm. constructor; [by apply position_of_None|done].
Qed.

Lemma apply_add_retain q l t p : q t = false -> retain q (apply_op (Add t p) l) = retain q l.
Proof. intros H. simpl. destruct (position_of l t); [done|]. by apply retain_insert_out. Qed.

Lemma apply_remove_In l t x : NoDup l -> (x ∈ apply_op (Remove t) l <-> x ∈ l /\ x <> t).
Proof.
  intros H. simpl. destruct (position_of l t) as [i|] eqn:E.
  - by apply elem_of_delete_position.
  - apply position_of_None in E. naive_solver.
Qed.

Lemma apply_remove_NoDup l t : NoDup l -> NoDup (apply_op (Remove t) l).
Proof.
  intros H. simpl. destruct (position_of l t) as [i|] eqn:E; [|done].
  by eapply NoDup_delete_position.
Qed.

Lemma apply_remove_retain q l t : q t = false -> retain q (apply_op (Remove t) l) = retain q l.
Proof.
  intros H. simpl. destruct (position_of l t) as [i|] eqn:E; [|done].
  by eapply retain_delete_position.
Qed.

Lemma apply_move_perm l t p : apply_op (Move t p) l ≡ₚ l.
Proof.
  simpl. destruct (position_of l t) as [i|] eqn:E; [|done].
  rewrite vec_insert_perm. symmetry. by apply delete_position_perm.
Qed.

Lemma apply_move_retain q l t p : q t = false -> retain q (apply_op (Move t p) l) = retain q l.
Proof.
  intros H. simpl. destruct (position_of l t) as [i|] eqn:E; [|done].
  rewrite retain_insert_out by done. by eapply retain_delete_position.
Qed.

(** The members of [l] that [ids] names, in the order of [ids], are as many as
    the slots they take. *)
Lemma named_perm (l ids : list str) :
  NoDup l -> NoDup ids ->
  List.filter (mem l) ids ≡ₚ retain (mem (List.filter (mem l) ids)) l.
Proof.
  intros Hl Hids. apply NoDup_Permutation.
  - by apply (retain_NoDup (mem l)).
  - by apply retain_NoDup.
  - intros x. rewrite retain_In, mem_true. fold (retain (mem l) ids).
    rewrite retain_In, mem_true. naive_solver.
Qed.

Lemma mem_named (l ids : list str) x : x ∈ l -> mem (List.filter (mem l) ids) x = mem ids x.
Proof.
  intros Hx. apply mem_ext. fold (retain (mem l) ids). rewrite retain_In, mem_true. naive_solver.
Qed.

Section reorder.
Context (l ids : list str) (Hl : NoDup l) (Hids : NoDup ids).

Lemma apply_reorder_refill :
  apply_op (Reorder ids) l = refill (mem (List.filter (mem l) ids)) (List.filter (mem l) ids) l.
Proof. simpl. apply write_slots_refill. Qed.

Lemma apply_reorder_perm : apply_op (Reorder ids) l ≡ₚ l.
Proof. rewrite apply_reorder_refill. apply refill_perm. by apply named_perm. Qed.

Lemma apply_reorder_in : retain (mem ids) (apply_op (Reorder ids) l) = List.filter (mem l) ids.
Proof.
  rewrite (retain_ext _ (mem (List.filter (mem l) ids))).
  - rewrite apply_reorder_refill. apply refill_in; [by rewrite <- named_perm|].
    apply Forall_forall. intros x. by rewrite mem_true.
  - intros x. rewrite apply_reorder_perm. intros Hx. by rewrite mem_named.
Qed.

Lemma apply_reorder_out :
  retain (fun x => negb (mem ids x)) (apply_op (Reorder ids) l)
  = retain (fun x => negb (mem ids x)) l.
Proof.
  transitivity (retain (fun x => negb (mem (List.filter (mem l) ids) x)) l).
  2:{ apply retain_ext. intros x Hx. by rewrite mem_named. }
  rewrite <- (refill_out (mem (List.filter (mem l) ids)) (List.filter (mem l) ids) l).
  2:{ apply Forall_forall. intros x. by rewrite mem_true. }
  rewrite <- apply_reorder_refill. apply retain_ext. intros x.
  rewrite apply_reorder_perm. intros Hx. by rewrite mem_named.
Qed.

Lemma apply_reorder_id : retain (mem ids) l = ids -> apply_op (Reorder ids) l = l.
Proof.
  intros H. rewrite apply_reorder_refill.
  assert (List.filter (mem l) ids = ids) as Hf.
  { apply (retain_all (mem l)). intros x. rewrite mem_true, <- H, retain_In. naive_solver. }
  rewrite Hf. rewrite <- H at 2. apply refill_id.
Qed.
End reorder.

(** ** Sequences of operations *)

Lemma apply_all_app ops1 ops2 l : apply_all (ops1 ++ ops2) l = apply_all ops2 (apply_all ops1 l).
Proof. apply foldl_app. Qed.

Lemma apply_all_cons o ops l : apply_all (o :: ops) l = apply_all ops (apply_op o l).
Proof. reflexivity. Qed.

(** The additions of [derive_order], whatever list they are applied to so far:
    they bring in the submitted tracks and move nobody else. *)
Lemma derive_adds_spec members prev sub l :
  NoDup sub -> NoDup l -> (forall x, x ∈ sub -> (x ∈ l <-> x ∈ members)) ->
  let l' := apply_all (derive_adds members prev sub) l in
  NoDup l' /\ (forall x, x ∈ l' <-> x ∈ l \/ x ∈ sub)
  /\ (forall q, (forall x, x ∈ sub -> x ∉ members -> q x = false) -> retain q l' = retain q l).
Proof.
  revert prev l. induction sub as [|t sub IH]; intros prev l Hsub Hl Hm.
  { simpl. split_and!; [done|set_solver|done]. }
  apply NoDup_cons in Hsub as [Ht Hsub]. cbn [derive_adds]. destruct (mem members t) eqn:E.
  - apply mem_true in E. cbn [app]. destruct (IH (Some t) l) as (H1 & H2 & H3); [done|done|set_solver|].
    assert (t ∈ l) by (apply Hm; set_solver).
    split_and!; [done| |].
    + intros x. rewrite H2, elem_of_cons. naive_solver.
    + intros q Hq. apply H3. set_solver.
  - apply mem_false in E. cbn [app]. rewrite apply_all_cons.
    set (p := match prev with Some b => _ | None => _ end). clearbody p.
    destruct (IH (Some t) (apply_op (Add t p) l)) as (H1 & H2 & H3); [done|by apply apply_add_NoDup| |].
    { intros x Hx. rewrite apply_add_In. split; [|set_solver]. intros [->|Hxl]; [done|]. apply Hm; set_solver. }
    split_and!; [done| |].
    + intros x. rewrite H2, apply_add_In, elem_of_cons. naive_solver.
    + intros q Hq. rewrite H3 by set_solver. apply apply_add_retain. apply Hq; [set_solver|done].
Qed.

Lemma removes_spec ts l :
  NoDup l ->
  let l' := apply_all (map Remove ts) l in
  NoDup l' /\ (forall x, x ∈ l' <-> x ∈ l /\ x ∉ ts)
  /\ (forall q, (forall x, x ∈ ts -> q x = false) -> retain q l' = retain q l).
Proof.
  revert l. induction ts as [|t ts IH]; intros l Hl.
  { simpl. split_and!; [done|set_solver|done]. }
  cbn [map]. rewrite apply_all_cons.
  destruct (IH (apply_op (Remove t) l)) as (H1 & H2 & H3); [by apply apply_remove_NoDup|].
  split_and!; [done| |].
  - intros x. rewrite H2, apply_remove_In by done. set_solver.
  - intros q Hq. rewrite H3 by set_solver. apply apply_remove_retain. apply Hq. set_solver.
Qed.

(** Before its reordering step, [derive_order] has the submitted tracks in the
    list and, when it replaces, no others. *)
Lemma derive_order_projected sub l (replace : bool) :
  NoDup sub -> NoDup l ->
  let l' := apply_all (derive_adds l None sub ++ (if replace then derive_removes sub l else [])) l in
  NoDup l' /\ (forall x, x ∈ l' <-> x ∈ sub \/ (x ∈ l /\ replace = false))
  /\ retain (fun x => negb (mem sub x)) l' = if replace then [] else retain (fun x => negb (mem sub x)) l.
Proof.
  intros Hsub Hl l'. unfold l'. rewrite apply_all_app.
  destruct (derive_adds_spec l None sub l) as (H1 & H2 & H3); [done|done|done|].
  assert (forall x, x ∈ sub -> x ∉ l -> negb (mem sub x) = false) as Hq.
  { intros x Hx _. by rewrite (proj2 (mem_true sub x) Hx). }
  destruct replace.
  - destruct (removes_spec (List.filter (fun t => negb (mem sub t)) l)
                (apply_all (derive_adds l None sub) l) H1) as (R1 & R2 & R3).
    unfold derive_removes. split_and!; [done| |].
    + intros x. rewrite R2, H2. fold (retain (fun t => negb (mem sub t)) l).
      rewrite retain_In, negb_true_iff, mem_false. destruct (decide (x ∈ sub)); naive_solver.
    + apply retain_none. intros x. rewrite R2, H2. fold (retain (fun t => negb (mem sub t)) l).
      rewrite retain_In, negb_true_iff, mem_false, negb_false_iff, mem_true.
      destruct (decide (x ∈ sub)); naive_solver.
  - simpl. split_and!; [done| |by apply H3]. intros x. rewrite H2. naive_solver.
Qed.

Lemma derive_order_applied sub l (replace : bool) :
  NoDup sub -> NoDup l ->
  let l' := apply_all (derive_order sub l replace) l in
  NoDup l' /\ retain (mem sub) l' = sub
  /\ retain (fun x => negb (mem sub x)) l' = if replace then [] else retain (fun x => negb (mem sub x)) l.
Proof.
  intros Hsub Hl l'. unfold l', derive_order.
  destruct (derive_order_projected sub l replace Hsub Hl) as (H1 & H2 & H3).
  set (ops := derive_adds _ _ _ ++ _) in *. set (pr := apply_all ops l) in *.
  replace (apply_all (if bool_decide _ then _ else _) l) with (apply_op (Reorder sub) pr).
  2:{ case_bool_decide as Hc; [by rewrite apply_all_app|]. by rewrite Hc. }
  split_and!.
  - by rewrite apply_reorder_perm.
  - rewrite apply_reorder_in by done. apply (retain_all (mem pr)). intros x Hx.
    rewrite mem_true, H2. by left.
  - by rewrite apply_reorder_out.
Qed.

Lemma retain_split_all p (l : list str) : retain (fun x => negb (p x)) l = [] -> retain p l = l.
Proof.
  intros H. apply retain_all. intros x Hx. destruct (p x) eqn:E; [done|].
  assert (x ∈ retain (fun x => negb (p x)) l) as Hin by (apply retain_In; by rewrite E).
  rewrite H in Hin. by apply not_elem_of_nil in Hin.
Qed.

(** Nothing is derived for a list that already is as submitted. *)
Lemma derive_order_settled sub l (replace : bool) :
  NoDup sub -> NoDup l -> retain (mem sub) l = sub ->
  (replace = true -> retain (fun x => negb (mem sub x)) l = []) ->
  derive_order sub l replace = [].
Proof.
  intros Hsub Hl Hin Hout. unfold derive_order.
  assert (forall prev s, (forall x, x ∈ s -> x ∈ l) -> derive_adds l prev s = []) as Hadds.
  { intros prev s. revert prev. induction s as [|t s IH]; intros prev Hs; simpl; [done|].
    rewrite (proj2 (mem_true l t)) by set_solver. apply IH. set_solver. }
  rewrite Hadds.
  2:{ intros x. rewrite <- Hin, retain_In. naive_solver. }
  assert ((if replace then derive_removes sub l else []) = []) as ->.
  { destruct replace; [|done]. unfold derive_removes.
    change (List.filter _ l) with (retain (fun t => negb (mem sub t)) l). by rewrite Hout. }
  cbn [app]. rewrite bool_decide_eq_false_2; [done|]. intros Hne. apply Hne. simpl (apply_all [] l).
  by apply apply_reorder_id.
Qed.

(** ** Moving a track *)

Definition others (t : str) (l : list str) : list str := retain (fun x => negb (bool_decide (x = t))) l.

(** Where a move to index [to_index] puts a track of a list of [n]. *)
Definition move_target (to_index : Z) (n : nat) : nat :=
  Z.to_nat (Z.min (Z.max to_index 0) (Z.of_nat (n - 1))).

Lemma others_delete l t i : NoDup l -> position_of l t = Some i -> delete i l = others t l.
Proof.
  intros Hnd H. unfold others. rewrite <- (retain_delete_position _ l t i H).
  - symmetry. apply retain_all. intros x Hx. apply elem_of_delete_position with (t := t) in Hx; [|done|done].
    rewrite bool_decide_eq_false_2; naive_solver.
  - by rewrite bool_decide_eq_true_2.
Qed.

Lemma length_delete_position (l : list str) t i :
  position_of l t = Some i -> length (delete i l) = (length l - 1)%nat.
Proof. intros H. rewrite length_delete; [done|]. exists t. by apply position_of_lookup. Qed.

Lemma insert_position_between l i :
  NoDup l -> i <> 0%nat -> i < length l ->
  insert_position l (Anchored (l !! (i - 1)%nat) (l !! i)) = i.
Proof.
  intros Hnd Hi Hlt. simpl. destruct (lookup_lt_is_Some_2 l (i - 1)) as [a Ha]; [lia|].
  rewrite Ha. cbn [mbind option_bind]. rewrite (position_of_NoDup l a (i - 1)) by done. simpl. lia.
Qed.

Lemma derive_move_applied t to l i :
  NoDup l -> position_of l t = Some i ->
  apply_all (derive_move t to l) l = vec_insert (move_target to (length l)) t (delete i l).
Proof.
  intros Hnd Hpos. unfold derive_move. rewrite Hpos. rewrite (length_delete_position _ t) by done.
  fold (move_target to (length l)). set (tg := move_target to (length l)).
  assert (tg <= length (delete i l)) as Htg.
  { rewrite (length_delete_position _ t) by done. unfold tg, move_target. lia. }
  assert (NoDup (delete i l)) as Hnd' by (by eapply NoDup_delete_position).
  destruct (tg =? i)%nat eqn:E; bprop.
  { simpl. rewrite E. symmetry. apply vec_insert_delete. by apply position_of_lookup. }
  cbn [apply_all foldl apply_op]. rewrite Hpos. f_equal.
  destruct (tg =? 0)%nat eqn:E0; bprop; [by rewrite E0|].
  rewrite <- (length_delete_position l t i Hpos).
  destruct (tg =? length (delete i l))%nat eqn:E1; bprop; [by rewrite E1|].
  apply insert_position_between; [done|done|lia].
Qed.

(** ** What an edit asks for *)

Definition edit_meets (e : TrackEdit) (l l' : list str) : Prop :=
  match e with
  | EditAdd t => l' = if mem l t then l else l ++ [t]
  | EditRemove t => l' = others t l
  | EditMove t to =>
      (t ∈ l -> l' !! move_target to (length l) = Some t) /\ (t ∉ l -> l' = l)
      /\ others t l' = others t l
  | EditOrder ts =>
      retain (mem ts) l' = ts
      /\ retain (fun x => negb (mem ts x)) l' = retain (fun x => negb (mem ts x)) l
  | EditReplace ts => l' = ts
  end.

Definition derived (e : TrackEdit) (l : list str) : list Operation :=
  match e with
  | EditAdd t => if contains l t then [] else [Add t (AtBoundary Back)]
  | EditRemove t => if contains l t then [Remove t] else []
  | EditMove t to => derive_move t to l
  | EditOrder ts => derive_order ts l false
  | EditReplace ts => derive_order ts l true
  end.

Lemma derive_Ok e l ops :
  derive e l = Ok ops <-> ops = derived e l /\ length ops <= MAX_DERIVED_OPERATIONS.
Proof.
  unfold derive. fold (derived e l). destruct (Nat.ltb_spec MAX_DERIVED_OPERATIONS (length (derived e l))).
  - split; [done|]. intros [-> ?]. lia.
  - split; [intros [= <-]; split; [done|lia]|]. by intros [-> _].
Qed.

Lemma others_id t l : t ∉ l -> others t l = l.
Proof. intros H. apply retain_all. intros x Hx. rewrite bool_decide_eq_false_2; [done|]. by intros ->. Qed.

Lemma derived_meets e l :
  NoDup l -> NoDup (submitted_track_ids e) ->
  edit_meets e l (apply_all (derived e l) l) /\ NoDup (apply_all (derived e l) l).
Proof.
  intros Hl He. destruct e as [t|t|t to|ts|ts]; cbn [derived edit_meets submitted_track_ids] in *.
  - rewrite contains_mem. destruct (mem l t) eqn:E; [done|]. split; [|by apply (apply_add_NoDup l t)].
    apply mem_false, position_of_None in E. cbn. rewrite E. unfold vec_insert.
    by rewrite firstn_all, drop_all.
  - rewrite contains_mem. destruct (mem l t) eqn:E.
    + split; [|by apply (apply_remove_NoDup l t)]. apply mem_true in E. cbn.
      destruct (position_of_is_Some l t E) as [i Hi]. rewrite Hi. by apply others_delete.
    + apply mem_false in E. by rewrite others_id.
  - destruct (position_of l t) as [i|] eqn:E.
    + rewrite (derive_move_applied t to l i) by done.
      assert (move_target to (length l) <= length (delete i l)) as Htg.
      { rewrite (length_delete_position _ t) by done. unfold move_target. lia. }
      split_and!.
      * intros _. by apply vec_insert_lookup.
      * intros H. by apply position_of_elem in E.
      * unfold others. rewrite retain_insert_out by (by rewrite bool_decide_eq_true_2).
        apply (retain_delete_position _ l t); [done|]. by rewrite bool_decide_eq_true_2.
      * rewrite vec_insert_perm. by rewrite <- delete_position_perm.
    + unfold derive_move. rewrite E. apply position_of_None in E. done.
  - by destruct (derive_order_applied ts l false He Hl) as (? & ? & ?).
  - destruct (derive_order_applied ts l true He Hl) as (H1 & H2 & H3).
    split; [|done]. by rewrite retain_split_all in H2.
Qed.

Lemma derived_settles e l l' :
  NoDup l -> NoDup l' -> NoDup (submitted_track_ids e) -> edit_meets e l l' -> derived e l' = [].
Proof.
  intros Hl Hl' He Hm.
  destruct e as [t|t|t to|ts|ts]; cbn [derived edit_meets submitted_track_ids] in *.
  - rewrite contains_mem, (proj2 (mem_true l' t)); [done|]. subst l'.
    destruct (mem l t) eqn:E; [by apply mem_true|set_solver].
  - rewrite contains_mem, (proj2 (mem_false l' t)); [done|]. subst l'. unfold others.
    rewrite retain_In, bool_decide_eq_true_2; naive_solver.
  - destruct Hm as (H1 & H2 & H3). unfold derive_move. destruct (decide (t ∈ l)) as [Ht|Ht].
    + assert (length l' = length l) as Hlen.
      { destruct (position_of_is_Some l t Ht) as [i Hi]. pose proof (H1 Ht) as Hat.
        assert (position_of l' t = Some (move_target to (length l))) as Hi' by by apply position_of_NoDup.
        rewrite <- (others_delete l t i Hl Hi), <- (others_delete l' t _ Hl' Hi') in H3.
        apply (f_equal length) in H3.
        rewrite (length_delete_position l' t), (length_delete_position l t) in H3 by done.
        apply position_of_lt in Hi, Hi'. lia. }
      rewrite (position_of_NoDup l' t (move_target to (length l))) by auto.
      rewrite (length_delete_position l' t) by (apply position_of_NoDup; auto).
      rewrite Hlen. fold (move_target to (length l)). by rewrite Nat.eqb_refl.
    + rewrite (H2 Ht). by rewrite (proj2 (position_of_None l t) Ht).
  - destruct Hm as [H1 H2]. by apply derive_order_settled.
  - subst l'. apply derive_order_settled; [done|done| |].
    + apply retain_all. intros x. by rewrite mem_true.
    + intros _. apply retain_none. intros x Hx. by rewrite (proj2 (mem_true ts x) Hx).
Qed.

(** ** Sizes *)

Lemma derive_adds_length members prev sub : length (derive_adds members prev sub) <= length sub.
Proof.
  revert prev. induction sub as [|t sub IH]; intros prev; simpl; [done|].
  rewrite length_app. specialize (IH (Some t)). destruct (mem members t); simpl; lia.
Qed.

Lemma derived_length e l : length (derived e l) <= S (length (submitted_track_ids e) + length l).
Proof.
  assert (forall ts r, length (derive_order ts l r) <= S (length ts + length l)) as Horder.
  { intros ts r. unfold derive_order. set (ops := derive_adds _ _ _ ++ _).
    assert (length ops <= length ts + length l) as Hops.
    { unfold ops. rewrite length_app. pose proof (derive_adds_length l None ts).
      assert (length (if r then derive_removes ts l else []) <= length l); [|lia].
      destruct r; simpl; [|lia]. unfold derive_removes. rewrite length_map. apply filter_length_le. }
    case_bool_decide; [rewrite length_app; simpl|]; lia. }
  destruct e as [t|t|t to|ts|ts]; cbn [derived submitted_track_ids]; [..|apply Horder|apply Horder].
  - destruct (contains l t); simpl; lia.
  - destruct (contains l t); simpl; lia.
  - unfold derive_move. destruct (position_of l t) as [i|]; [|simpl; lia].
    destruct (_ =? _)%nat; simpl; lia.
Qed.

(** ** Requests *)

Definition canonical_track_id (t : str) : Prop := exists n, (0 < n <= i64_max)%Z /\ t = to_string n.

Lemma track_id_of_canonical v t : track_id_of v = Ok t -> canonical_track_id t.
Proof.
  unfold track_id_of. destruct (sc_track_id v) as [t'|] eqn:E; [|done]. intros [= ->].
  unfold sc_track_id in E. apply fmap_Some in E as (r & Hr & ->). unfold track in Hr.
  apply parse_iff in Hr as (_ & Hwf & _). by exists (EntityRef.id r).
Qed.

Lemma track_ids_from_spec seen vs ts :
  track_ids_from seen vs = Ok ts ->
  NoDup ts /\ (forall t, t ∈ ts -> t ∉ seen) /\ Forall canonical_track_id ts
  /\ length ts <= length vs.
Proof.
  revert seen ts. induction vs as [|v vs IH]; intros seen ts; simpl.
  { intros [= <-]. split_and!; [constructor|set_solver|constructor|done]. }
  destruct (track_id_of v) as [t|e] eqn:Et; [|done]. destruct (mem seen t) eqn:Em.
  - intros H. apply IH in H as (? & ? & ? & ?). split_and!; try done. lia.
  - destruct (track_ids_from (t :: seen) vs) as [ts'|e] eqn:E; [|done]. intros [= <-].
    apply IH in E as (H1 & H2 & H3 & H4). apply mem_false in Em. split_and!.
    + constructor; [|done]. intros Hin. specialize (H2 t Hin). set_solver.
    + intros x [->|Hx]%elem_of_cons; [done|]. specialize (H2 x Hx). set_solver.
    + constructor; [by eapply track_id_of_canonical|done].
    + simpl. lia.
Qed.

(** The track ids an edit names. *)
Definition named_track_ids (e : TrackEdit) : list str :=
  match e with
  | EditAdd t | EditRemove t | EditMove t _ => [t]
  | EditOrder ts | EditReplace ts => ts
  end.

Lemma submitted_named e : NoDup (named_track_ids e) -> NoDup (submitted_track_ids e).
Proof. destruct e; simpl; try done; intros; apply NoDup_nil_2. Qed.

Lemma track_id_of_typed v :
  match track_id_of v with Ok t => canonical_track_id t | Err err => status err = 400%Z end.
Proof.
  destruct (track_id_of v) as [t|err] eqn:E; [by eapply track_id_of_canonical|].
  unfold track_id_of in E. destruct (sc_track_id v); [done|]. by injection E as <-.
Qed.

Lemma track_ids_from_error vs seen err : track_ids_from seen vs = Err err -> status err = 400%Z.
Proof.
  revert seen. induction vs as [|v vs IH]; intros seen; simpl; [done|].
  pose proof (track_id_of_typed v) as Hone. destruct (track_id_of v) as [t|e]; [|by intros [= ->]].
  destruct (mem seen t); [apply IH|].
  destruct (track_ids_from (t :: seen) vs) eqn:E; [done|]. intros [= ->]. by eapply IH.
Qed.

Lemma single_track_typed e t :
  named_track_ids e = [t] -> canonical_track_id t ->
  NoDup (named_track_ids e) /\ NoDup (submitted_track_ids e)
  /\ Forall canonical_track_id (named_track_ids e)
  /\ length (named_track_ids e) <= MAX_SUBMITTED_TRACKS.
Proof.
  intros He Ht. assert (NoDup (named_track_ids e)) by (rewrite He; apply NoDup_singleton).
  split_and!; [done|by apply submitted_named|rewrite He; by repeat constructor|]. rewrite He.
  unfold MAX_SUBMITTED_TRACKS. simpl. lia.
Qed.

(** ** Properties *)

(** The operations the API derives for an edit do to the projection exactly
    what the edit asks: the added track at the end, the removed one gone and the
    others in order, the moved one at the clamped index, a submitted order
    followed by the named tracks while the rest keep theirs, a replacement
    equal to what was submitted.  The projection stays free of duplicates, the
    journal gets at most 4,096 operations, and submitting the edit again derives
    nothing.  An edit is only refused when the lists are that long. *)
Theorem derive_exact (e : TrackEdit) (l : list str)
    (Hl : NoDup l) (He : NoDup (submitted_track_ids e)) :
  match derive e l with
  | Ok ops =>
      edit_meets e l (apply_all ops l) /\ NoDup (apply_all ops l)
      /\ length ops <= MAX_DERIVED_OPERATIONS
      /\ derive e (apply_all ops l) = Ok []
  | Err err =>
      err = too_many_operations
      /\ MAX_DERIVED_OPERATIONS <= length (submitted_track_ids e) + length l
  end.
Proof.
  destruct (derive e l) as [ops|err] eqn:E.
  - apply derive_Ok in E as [-> Hlen]. destruct (derived_meets e l Hl He) as [Hm Hnd].
    split_and!; [done..|]. apply derive_Ok. split; [|simpl; lia].
    symmetry. by apply (derived_settles e l).
  - unfold derive in E. fold (derived e l) in E. pose proof (derived_length e l).
    destruct (Nat.ltb_spec MAX_DERIVED_OPERATIONS (length (derived e l))); [|done].
    injection E as <-. split; [done|lia].
Qed.

Lemma derive_exact_witness :
  let l := [lit "1"; lit "2"; lit "3"] in
  let e := EditReplace [lit "3"; lit "4"; lit "1"] in
  match derive e l with
  | Ok ops => apply_all ops l = [lit "3"; lit "4"; lit "1"] /\ derive e (apply_all ops l) = Ok []
  | Err _ => False
  end.
Proof.
  intros l e. assert (NoDup l) as Hl by (apply (bool_decide_unpack _); vm_compute; exact I).
  assert (NoDup (submitted_track_ids e)) as He
    by (apply (bool_decide_unpack _); vm_compute; exact I).
  pose proof (derive_exact e l Hl He) as H.
  destruct (derive e l) as [ops|err] eqn:E; [by destruct H as (H1 & _ & _ & H2)|].
  exfalso. revert E. unfold e, l. vm_compute. discriminate.
Defined.

(** C32: every request the edit endpoint accepts is well formed: it carries one
    edit, whose tracks are canonical SoundCloud ids, none of them twice, and no
    more than 20,000 of them; a body with none or several edits is refused. *)
Theorem into_request_typed (b : EditBody) :
  match into_request b with
  | Ok r =>
      NoDup (named_track_ids (edit r)) /\ NoDup (submitted_track_ids (edit r))
      /\ Forall canonical_track_id (named_track_ids (edit r))
      /\ length (named_track_ids (edit r)) <= MAX_SUBMITTED_TRACKS
      /\ length (option_list (eb_add b)) + length (option_list (eb_remove b))
         + length (option_list (eb_move_op b)) + length (option_list (eb_order b)) = 1
      /\ expected_projection_revision r = eb_expected_projection_revision b
  | Err err => status err = 400%Z
  end.
Proof.
  unfold into_request.
  destruct (eb_add b) as [a|], (eb_remove b) as [r|], (eb_move_op b) as [m|], (eb_order b) as [o|];
    cbn [option_list length]; try reflexivity.
  - pose proof (track_id_of_typed a) as Hone. destruct (track_id_of a) as [t|]; cbn [result_map edit]; [|done].
    destruct (single_track_typed (EditAdd t) t) as (? & ? & ? & ?); [done|done|by split_and!].
  - pose proof (track_id_of_typed r) as Hone. destruct (track_id_of r) as [t|]; cbn [result_map edit]; [|done].
    destruct (single_track_typed (EditRemove t) t) as (? & ? & ? & ?); [done|done|by split_and!].
  - pose proof (track_id_of_typed (mb_track m)) as Hone. destruct (track_id_of (mb_track m)) as [t|]; cbn [result_map edit]; [|done].
    destruct (single_track_typed (EditMove t (mb_to m)) t) as (? & ? & ? & ?); [done|done|by split_and!].
  - unfold track_ids_of. destruct (Nat.ltb_spec MAX_SUBMITTED_TRACKS (length o)); cbn [result_map]; [done|].
    destruct (track_ids_from [] o) as [ts|err] eqn:E; cbn [result_map edit named_track_ids submitted_track_ids];
      [|by eapply track_ids_from_error]. apply track_ids_from_spec in E as (? & _ & ? & ?). split_and!; try done. lia.
Qed.
