(* ===== verification/PlaylistReduce.v ===== *)
(** * PlaylistReduce: replaying local operations onto the remote playlist

    Source: [jobs/src/handlers/playlist_observe]: [reduce.rs] (the reducer),
    [classification.rs], [urn.rs], and of [repository.rs] the reading of journal
    rows.  The [Boundary] and [Placement] enums of [reduce.rs] are declared like
    those of the API's [edit.rs] and are shared with [PlaylistEdit].
    [playlist_membership_apply] of [api/migrations/0252_kinds_user_mutations.sql]
    is the third implementation of an operation: the one the database runs when it
    appends to the journal. *)

From Stdlib Require Import ZArith Lia String.
From stdpp Require Import base list numbers tactics sets gmap.
From S2P Require Import Prelude Text EntityRef AppError Sequences PlaylistEdit.
Local Open Scope Z_scope.

Definition MOVE_TARGET_MISSING : str := lit "move_target_missing".
Definition MOVE_ANCHOR_MISSING : str := lit "move_anchor_missing".
Definition MOVE_ANCHOR_INVERTED : str := lit "move_anchor_inverted".
Definition REORDER_TARGETS_MISSING : str := lit "reorder_targets_missing".

Inductive Intent :=
| IntentAdd (track_id : str) (placement : Placement)
| IntentRemove (track_id : str)
| IntentMove (track_id : str) (placement : Placement)
| IntentReorder (ordered_track_ids : list str).

Record JournalOperation := { operation_id : Z; sequence : Z; intent : Intent }.

Inductive Resolution := Pending | Committed | Conflicting (code : str).

Global Instance Intent_eq_dec : EqDecision Intent.
Proof. solve_decision. Defined.
Global Instance Resolution_eq_dec : EqDecision Resolution.
Proof. solve_decision. Defined.

Definition is_terminal (r : Resolution) : bool :=
  match r with Pending => false | _ => true end.

Definition resolution_outcome (r : Resolution) : str :=
  match r with
  | Pending => lit "pending"
  | Committed => lit "committed"
  | Conflicting _ => lit "conflict"
  end.

Definition resolution_conflict_code (r : Resolution) : option str :=
  match r with Conflicting code => Some code | _ => None end.

Record ResolvedOperation := {
  resolved_id : Z;
  resolved_sequence : Z;
  resolution : Resolution }.

Inductive ReductionOutcome := Converged | Rebased | Conflicted (code : str).

Record Reduction := {
  candidate : list str;
  operations : list ResolvedOperation;
  outcome : ReductionOutcome;
  committed_through_sequence : Z;
  anchors_lost : bool }.

(** ** Placing a track *)

Definition resolve_placement (l : list str) (p : Placement) : option nat :=
  match p with
  | AtBoundary Front => Some 0%nat
  | AtBoundary Back => Some (length l)
  | Anchored before after =>
      match S <$> (before ≫= position_of l) with
      | Some i => Some i
      | None => after ≫= position_of l
      end
  end.

Definition fallback_position (l : list str) (p : Placement) : nat :=
  match p with
  | Anchored (Some _) _ => length l
  | Anchored None _ => 0%nat
  | AtBoundary Front => 0%nat
  | AtBoundary Back => length l
  end.

Definition anchors_are_inverted (l : list str) (p : Placement) : bool :=
  match p with
  | Anchored (Some before) (Some after) =>
      match position_of l before, position_of l after with
      | Some i, Some j => (j <? i)%nat
      | _, _ => false
      end
  | _ => false
  end.

(** [present_in_order]: the named tracks that are members, each once. *)
Definition present_in_order (l ordered : list str) : list str :=
  dedup_seen [] (List.filter (mem l) ordered).

(** [apply]: the list is mutated also on the paths that return an error. *)
Definition apply_intent (i : Intent) : ST (list str) str bool := fun l =>
  match i with
  | IntentAdd t p =>
      if contains l t then (Ok false, l)
      else match resolve_placement l p with
           | Some at_ => (Ok false, vec_insert at_ t l)
           | None => (Ok true, vec_insert (fallback_position l p) t l)
           end
  | IntentRemove t =>
      match position_of l t with
      | Some from => (Ok false, delete from l)
      | None => (Ok false, l)
      end
  | IntentMove t p =>
      match position_of l t with
      | None => (Err MOVE_TARGET_MISSING, l)
      | Some from =>
          if anchors_are_inverted l p then (Err MOVE_ANCHOR_INVERTED, l)
          else match resolve_placement l p with
               | None => (Err MOVE_ANCHOR_MISSING, l)
               | Some _ =>
                   let l := delete from l in
                   match resolve_placement l p with
                   | None => (Err MOVE_ANCHOR_MISSING, l)
                   | Some at_ => (Ok false, vec_insert at_ t l)
                   end
               end
      end
  | IntentReorder ordered =>
      let named := present_in_order l ordered in
      match named with
      | [] => if (length ordered =? 0)%nat then (Ok false, l) else (Err REORDER_TARGETS_MISSING, l)
      | _ => (Ok false, write_slots (slots (mem named) l) named l)
      end
  end.

(** The first loop of [reduce]: the list after every operation, one resolution
    per operation, whether an anchor was lost. *)
Fixpoint replay (l : list str) (ops : list JournalOperation) : list str * list Resolution * bool :=
  match ops with
  | [] => (l, [], false)
  | o :: ops' =>
      match apply_intent (intent o) l with
      | (Ok lost, l') =>
          let '(l'', rs, lost') := replay l' ops' in (l'', Pending :: rs, lost || lost')
      | (Err code, l') =>
          let '(l'', rs, lost') := replay l' ops' in (l'', Conflicting code :: rs, lost')
      end
  end.

Fixpoint committed_prefix (ops : list ResolvedOperation) (watermark : Z) : Z :=
  match ops with
  | [] => watermark
  | o :: ops' =>
      if is_terminal (resolution o)
      then committed_prefix ops' (Z.max watermark (resolved_sequence o))
      else watermark
  end.

Definition reduce (remote : list str) (ops : list JournalOperation) (committed_through : Z)
  : Reduction :=
  let '(cand, resolutions, lost) := replay remote ops in
  let converged := bool_decide (cand = remote) in
  let resolutions :=
    if converged
    then map (fun r => if bool_decide (r = Pending) then Committed else r) resolutions
    else resolutions in
  let conflict := find_map resolution_conflict_code resolutions in
  let out :=
    match conflict with
    | Some code => Conflicted code
    | None => if converged then Converged else Rebased
    end in
  let resolved :=
    zip_with (fun o r => {| resolved_id := operation_id o; resolved_sequence := sequence o; resolution := r |})
      ops resolutions in
  {| candidate := cand;
     operations := resolved;
     outcome := out;
     committed_through_sequence := committed_prefix resolved committed_through;
     anchors_lost := lost |}.

(** ** Journal rows *)

Record PendingOperationRow := {
  row_operation_id : Z;
  row_sequence : Z;
  row_kind : str;
  row_track_id : option str;
  row_left_anchor : option str;
  row_right_anchor : option str;
  row_boundary : option str;
  row_ordered_track_ids : option (list str) }.

Definition row_placement (r : PendingOperationRow) : option Placement :=
  match row_boundary r with
  | Some b =>
      if bool_decide (b = lit "front") then Some (AtBoundary Front)
      else if bool_decide (b = lit "back") then Some (AtBoundary Back)
      else None
  | None =>
      match row_left_anchor r, row_right_anchor r with
      | None, None => None
      | before, after => Some (Anchored before after)
      end
  end.

Definition row_intent (r : PendingOperationRow) : option Intent :=
  if bool_decide (row_kind r = lit "add") then
    t ← row_track_id r; p ← row_placement r; Some (IntentAdd t p)
  else if bool_decide (row_kind r = lit "remove") then
    t ← row_track_id r; Some (IntentRemove t)
  else if bool_decide (row_kind r = lit "move") then
    t ← row_track_id r; p ← row_placement r; Some (IntentMove t p)
  else if bool_decide (row_kind r = lit "reorder") then
    ids ← row_ordered_track_ids r;
    if (length ids =? 0)%nat then None else Some (IntentReorder ids)
  else None.

(** ** The database's own application of an operation *)

Definition array_position (l : list str) (t : option str) : option nat :=
  t ≫= fun t => S <$> position_of l t.

Definition sql_slot (l : list str) (r : PendingOperationRow) : nat :=
  let anchored :=
    match array_position l (row_left_anchor r), array_position l (row_right_anchor r) with
    | Some i, _ => i
    | None, Some j => (j - 1)%nat
    | None, None => length l
    end in
  match row_boundary r with
  | Some b =>
      if bool_decide (b = lit "front") then 0%nat
      else if bool_decide (b = lit "back") then length l
      else anchored
  | None => anchored
  end.

Definition array_remove (l : list str) (t : str) : list str :=
  retain (fun x => negb (bool_decide (x = t))) l.

(** The reordering query: members the operation names, ranked by position, are
    joined by rank with the names that are members. *)
Definition sql_reorder (l ordered : list str) : list str :=
  let named := List.filter (mem l) ordered in
  let slot_positions := slots (mem ordered) l in
  imap (fun i member =>
    match position (Nat.eqb i) slot_positions with
    | Some rank => default member (named !! rank)
    | None => member
    end) l.

(** [playlist_membership_apply].  The table's shape constraint gives every [add],
    [move] and [remove] row a track, so the rows without one, which leave the list
    alone here, are not reached. *)
Definition playlist_membership_apply (l : list str) (r : PendingOperationRow) : list str :=
  let place t l := vec_insert (sql_slot l r) t l in
  if bool_decide (row_kind r = lit "remove") then
    match row_track_id r with Some t => array_remove l t | None => l end
  else if bool_decide (row_kind r = lit "reorder") then
    sql_reorder l (default [] (row_ordered_track_ids r))
  else match row_track_id r with
       | None => l
       | Some t =>
           if bool_decide (row_kind r = lit "move") then
             match position_of l t with
             | None => l
             | Some _ => let l := array_remove l t in place t l
             end
           else match position_of l t with
                | Some _ => l
                | None => place t l
                end
       end.

(** ** How two memberships relate *)

Inductive MembershipRelation := Equal | RemoteSuperset | LocalSuperset | OrderOnly | Diverged.

Definition relation_as_str (r : MembershipRelation) : str :=
  match r with
  | Equal => lit "equal"
  | RemoteSuperset => lit "remote_superset"
  | LocalSuperset => lit "local_superset"
  | OrderOnly => lit "order_only"
  | Diverged => lit "membership_diverged"
  end.

(** [right.by_ref().any(|candidate| candidate == expected)]: what is left of the
    iterator after the first match. *)
Fixpoint skip_past (expected : str) (l : list str) : option (list str) :=
  match l with
  | [] => None
  | x :: l' => if bool_decide (x = expected) then Some l' else skip_past expected l'
  end.

Fixpoint is_subsequence (l r : list str) : bool :=
  match l with
  | [] => true
  | x :: l' => match skip_past x r with Some r' => is_subsequence l' r' | None => false end
  end.

(** Equality of the two [HashSet]s. *)
Definition same_members (l r : list str) : bool := forallb (mem r) l && forallb (mem l) r.

Definition membership_relation (local remote : list str) : MembershipRelation :=
  if bool_decide (local = remote) then Equal
  else if same_members local remote then OrderOnly
  else if (length local <? length remote)%nat && is_subsequence local remote then RemoteSuperset
  else if (length remote <? length local)%nat && is_subsequence remote local then LocalSuperset
  else Diverged.

(** ** Playlist URNs *)

Record PlaylistUrn := { urn_value : str; urn_id : str }.

Definition PLAYLIST_PREFIX : str := lit "soundcloud:playlists:".

Definition parse_playlist_urn (value : str) : option PlaylistUrn :=
  id ← strip_prefix PLAYLIST_PREFIX value;
  number ← parse_u64 id;
  if (number =? 0) || negb (bool_decide (to_string number = id)) then None
  else Some {| urn_value := value; urn_id := id |}.
