(* ===== verification/PlaylistReduceFacts.v ===== *)
(** * PlaylistReduceFacts: the reducer against the API's and the database's edits

    What a replay of the journal does to the remote playlist whatever the remote
    looks like, and that the three implementations of an operation (the API's, the
    database's and the reducer's) agree on the operations the API derives. *)

From Stdlib Require Import ZArith Lia String.
From stdpp Require Import base list numbers tactics sets gmap sorting.
From S2P Require Import Prelude Text EntityRef AppError Sequences PlaylistEdit PlaylistEditFacts PlaylistReduce.

(** ** One intent *)

(** An operation is not anchored to the track it places: the constraint
    [playlist_membership_operations_anchor_target_distinct] of the journal. *)
Definition anchors_distinct (i : Intent) : Prop :=
  match i with
  | IntentAdd t (Anchored b a) | IntentMove t (Anchored b a) => b <> Some t /\ a <> Some t
  | _ => True
  end.

(** Whether [t] is a member after [i], when it [was] one before. *)
Definition member_after (t : str) (i : Intent) (was : bool) : bool :=
  match i with
  | IntentAdd t' _ => bool_decide (t' = t) || was
  | IntentRemove t' => negb (bool_decide (t' = t)) && was
  | IntentMove _ _ | IntentReorder _ => was
  end.

(** The tracks an intent may move. *)
Definition touches (i : Intent) : list str :=
  match i with
  | IntentAdd t _ | IntentRemove t | IntentMove t _ => [t]
  | IntentReorder ids => ids
  end.

Lemma resolve_placement_le l p i : resolve_placement l p = Some i -> i <= length l.
Proof.
  destruct p as [[]|b a]; simpl; [intros [= <-]; lia..|].
  destruct (b ≫= position_of l) as [j|] eqn:E; simpl.
  - intros [= <-]. apply bind_Some in E as (x & _ & E). apply position_of_lt in E. lia.
  - intros (x & _ & E')%bind_Some. apply position_of_lt in E'. lia.
Qed.

Lemma fallback_position_le l p : fallback_position l p <= length l.
Proof. destruct p as [[]|[] ?]; simpl; lia. Qed.

Lemma resolve_insert_position l p i : resolve_placement l p = Some i -> insert_position l p = i.
Proof.
  destruct p as [[]|b a]; simpl; [by intros [= <-]..|].
  destruct (b ≫= position_of l) as [j|]; simpl; [by intros [= <-]|]. by intros ->.
Qed.

Lemma resolve_placement_delete l t i p :
  NoDup l -> position_of l t = Some i ->
  match p with Anchored b a => b <> Some t /\ a <> Some t | _ => True end ->
  is_Some (resolve_placement l p) -> is_Some (resolve_placement (delete i l) p).
Proof.
  intros Hnd Hi Hd. destruct p as [[]|b a]; simpl; [done|done|]. destruct Hd as [Hb Ha].
  assert (forall o, o <> Some t -> is_Some (o ≫= position_of l) -> is_Some (o ≫= position_of (delete i l))) as Hkeep.
  { intros [x|] Hx [j Hj]; simpl in *; [|done]. apply position_of_is_Some.
    apply position_of_elem in Hj. apply (elem_of_delete_position l t); [done|done|]. split; [done|]. by intros ->. }
  destruct (b ≫= position_of l) as [j|] eqn:E; simpl.
  - destruct (Hkeep b Hb) as [k Hk]; [by rewrite E|]. by rewrite Hk.
  - intros [k Hk]. destruct (Hkeep a Ha) as [k' Hk']; [by eauto|]. rewrite Hk'.
    by destruct (b ≫= position_of (delete i l)).
Qed.

Lemma present_in_order_In l ids x : x ∈ present_in_order l ids <-> x ∈ ids /\ x ∈ l.
Proof.
  unfold present_in_order. rewrite dedup_seen_In. fold (retain (mem l) ids).
  rewrite retain_In, mem_true. set_solver.
Qed.

Lemma present_in_order_perm l ids :
  NoDup l -> present_in_order l ids ≡ₚ retain (mem (present_in_order l ids)) l.
Proof.
  intros Hl. apply NoDup_Permutation; [apply dedup_seen_NoDup|by apply retain_NoDup|].
  intros x. rewrite retain_In, mem_true, present_in_order_In. naive_solver.
Qed.

(** What an intent leaves, whether it applies or conflicts: no duplicates, the
    members it should, and everybody it does not touch where they were. *)
Definition effect_ok (i : Intent) (l l' : list str) : Prop :=
  NoDup l' /\ (forall t, mem l' t = member_after t i (mem l t))
  /\ (forall q, (forall t, t ∈ touches i -> q t = false) -> retain q l' = retain q l).

Lemma perm_members (l l' : list str) :
  NoDup l -> l' ≡ₚ l -> NoDup l' /\ (forall t, mem l' t = mem l t).
Proof. intros Hl H. rewrite H. split; [done|]. intros t. apply mem_ext. by rewrite H. Qed.

Lemma insert_effect t p k l : NoDup l -> t ∉ l -> effect_ok (IntentAdd t p) l (vec_insert k t l).
Proof.
  intros Hl Ht. unfold effect_ok. cbn [member_after touches]. split_and!.
  - rewrite vec_insert_perm. by constructor.
  - intros x. unfold mem. rewrite <- bool_decide_or. apply bool_decide_ext.
    rewrite vec_insert_perm, elem_of_cons. naive_solver.
  - intros q Hq. apply retain_insert_out. apply Hq. set_solver.
Qed.

Lemma add_effect t p l : NoDup l -> effect_ok (IntentAdd t p) l (apply_intent (IntentAdd t p) l).2.
Proof.
  intros Hl. cbn [apply_intent]. rewrite contains_mem. destruct (mem l t) eqn:E.
  - unfold effect_ok. split_and!; try done. intros x. cbn [member_after].
    case_bool_decide; [by subst; rewrite E|done].
  - apply mem_false in E. destruct (resolve_placement l p); by apply insert_effect.
Qed.

Lemma remove_effect t l : NoDup l -> effect_ok (IntentRemove t) l (apply_intent (IntentRemove t) l).2.
Proof.
  intros Hl. unfold effect_ok. cbn [apply_intent member_after touches].
  destruct (position_of l t) as [i|] eqn:E; simpl.
  - split_and!; [by eapply NoDup_delete_position| |].
    + intros x. unfold mem. rewrite <- bool_decide_not, <- bool_decide_and. apply bool_decide_ext.
      rewrite (elem_of_delete_position l t) by done. naive_solver.
    + intros q Hq. eapply retain_delete_position; [done|]. apply Hq. set_solver.
  - apply position_of_None in E. split_and!; try done. intros x.
    case_bool_decide; [subst; by rewrite (proj2 (mem_false l x) E)|done].
Qed.

Lemma move_effect t p l :
  NoDup l -> anchors_distinct (IntentMove t p) ->
  effect_ok (IntentMove t p) l (apply_intent (IntentMove t p) l).2.
Proof.
  intros Hl Hd. unfold effect_ok. cbn [apply_intent member_after touches anchors_distinct] in *.
  destruct (position_of l t) as [i|] eqn:E; [|done].
  destruct (anchors_are_inverted l p); [done|].
  destruct (resolve_placement l p) as [k|] eqn:Ep; [|done].
  destruct (resolve_placement_delete l t i p Hl E Hd) as [k' Hk']; [by rewrite Ep|].
  rewrite Hk'. simpl. destruct (perm_members l (vec_insert k' t (delete i l)) Hl) as [H1 H2].
  { rewrite vec_insert_perm. symmetry. by apply delete_position_perm. }
  split_and!; [done|done|]. intros q Hq. rewrite retain_insert_out by (apply Hq; set_solver).
  eapply retain_delete_position; [done|]. apply Hq. set_solver.
Qed.

Lemma reorder_effect ids l :
  NoDup l -> effect_ok (IntentReorder ids) l (apply_intent (IntentReorder ids) l).2.
Proof.
  intros Hl. unfold effect_ok. cbn [apply_intent member_after touches].
  destruct (present_in_order l ids) as [|x named] eqn:E.
  { destruct (length ids =? 0)%nat; done. }
  rewrite <- E. cbn [snd]. rewrite write_slots_refill.
  destruct (perm_members l _ Hl (refill_perm _ _ _ (present_in_order_perm l ids Hl))) as [H1 H2].
  split_and!; [done|done|]. intros q Hq. apply refill_untouched.
  - apply Forall_forall. intros z. by rewrite mem_true.
  - intros z Hz. apply mem_false. rewrite present_in_order_In. intros [Hz' _].
    by rewrite Hq in Hz.
Qed.

Lemma apply_intent_effect i l :
  NoDup l -> anchors_distinct i -> effect_ok i l (apply_intent i l).2.
Proof.
  intros Hl Hd. destruct i; [by apply add_effect|by apply remove_effect|by apply move_effect|
    by apply reorder_effect].
Qed.

(** ** A whole replay *)

Definition member_after_all (t : str) (ops : list JournalOperation) (was : bool) : bool :=
  foldl (fun was o => member_after t (intent o) was) was ops.

Lemma replay_effect ops l :
  NoDup l -> Forall (fun o => anchors_distinct (intent o)) ops ->
  let l' := (replay l ops).1.1 in
  NoDup l' /\ (forall t, mem l' t = member_after_all t ops (mem l t))
  /\ (forall q, (forall o t, o ∈ ops -> t ∈ touches (intent o) -> q t = false) ->
       retain q l' = retain q l).
Proof.
  revert l. induction ops as [|o ops IH]; intros l Hl Hd; [done|].
  inversion Hd as [|? ? Ho Hd']; subst.
  destruct (apply_intent_effect (intent o) l Hl Ho) as (E1 & E2 & E3).
  cbn [replay]. destruct (apply_intent (intent o) l) as [r l1]. cbn [snd] in *.
  destruct (IH l1 E1 Hd') as (F1 & F2 & F3).
  assert (forall q : str -> bool, (forall o' t, o' ∈ o :: ops -> t ∈ touches (intent o') -> q t = false) ->
    retain q (replay l1 ops).1.1 = retain q l) as Hq.
  { intros q Hq. rewrite F3, E3; [done| |]; intros; eapply Hq; set_solver. }
  unfold member_after_all. cbn [foldl].
  destruct r, (replay l1 ops) as [[l2 rs] lost]; cbn [fst snd] in *;
    (split_and!; [done| |done]; intros t; rewrite F2; unfold member_after_all; by rewrite E2).
Qed.

Lemma replay_length ops l : length (replay l ops).1.2 = length ops.
Proof.
  revert l. induction ops as [|o ops IH]; intros l; [done|]. cbn [replay].
  destruct (apply_intent (intent o) l) as [r l1]. specialize (IH l1).
  destruct r, (replay l1 ops) as [[l2 rs] lost]; simpl in *; lia.
Qed.

(** ** The three implementations of an operation *)

Definition intent_of (o : Operation) : Intent :=
  match o with
  | Add t p => IntentAdd t p
  | Remove t => IntentRemove t
  | Move t p => IntentMove t p
  | Reorder ids => IntentReorder ids
  end.

(** The row of the journal that holds [o]: [journal_entry] fills the columns
    and [load_pending_operations.sql] reads them back. *)
Definition stored_row (id seq : Z) (o : Operation) : PendingOperationRow :=
  {| row_operation_id := id; row_sequence := seq; row_kind := op_kind o;
     row_track_id := op_track_id o; row_left_anchor := left_anchor o;
     row_right_anchor := right_anchor o; row_boundary := op_boundary o;
     row_ordered_track_ids := op_ordered_track_ids o |}.

Definition slots_from {A} (k : nat) (p : A -> bool) (l : list A) : list nat :=
  map fst (List.filter (fun e => p e.2) (zip (seq k (length l)) l)).

Lemma position_eqb_lt k i n : i < k -> forall p (l : list str), length l = n ->
  position (Nat.eqb i) (slots_from k p l) = None.
Proof.
  intros Hi p l _. apply position_None. intros x Hx. apply Nat.eqb_neq. intros <-.
  unfold slots_from in Hx. apply list_elem_of_In, in_map_iff in Hx as ([j y] & <- & Hj).
  apply filter_In in Hj as [Hj _]. apply in_combine_l, in_seq in Hj. simpl in *. lia.
Qed.

Lemma sql_reorder_from k p (named l : list str) :
  imap (fun i member => match position (Nat.eqb (k + i)) (slots_from k p l) with
                        | Some rank => default member (named !! rank) | None => member end) l
  = refill p named l.
Proof.
  revert k named. induction l as [|x l IH]; intros k named; [by destruct named|].
  unfold slots_from. cbn [length seq zip zip_with List.filter snd]. cbn [imap].
  rewrite Nat.add_0_r. destruct (p x) eqn:E; cbn [map fst].
  - fold (slots_from (S k) p l). cbn [position]. rewrite Nat.eqb_refl.
    transitivity (default x (head named) :: refill p (tail named) l).
    + f_equal; [by destruct named|]. rewrite <- (IH (S k)). apply imap_ext. intros i m _.
      cbn [compose]. rewrite (proj2 (Nat.eqb_neq (k + S i) k)) by lia.
      replace (S k + i)%nat with (k + S i)%nat by lia.
      destruct (position _ _); simpl; [|done]. by destruct named.
    + destruct named as [|y named]; simpl; [by rewrite refill_nil|]. by rewrite E.
  - fold (slots_from (S k) p l). rewrite (position_eqb_lt (S k) k (length l)) by lia.
    transitivity (x :: refill p named l).
    + f_equal. rewrite <- (IH (S k)). apply imap_ext. intros i m _. cbn [compose].
      by replace (S k + i)%nat with (k + S i)%nat by lia.
    + destruct named as [|y named]; simpl; [by rewrite refill_nil|]. by rewrite E.
Qed.

Lemma refill_ext p q (new l : list str) :
  (forall x, x ∈ l -> p x = q x) -> refill p new l = refill q new l.
Proof.
  revert new. induction l as [|x l IH]; intros [|y new] H; try done. cbn [refill].
  rewrite (H x) by set_solver. destruct (q x); f_equal; apply IH; set_solver.
Qed.

Lemma sql_reorder_agrees l ids : sql_reorder l ids = apply_op (Reorder ids) l.
Proof.
  rewrite apply_reorder_refill. unfold sql_reorder. rewrite <- (sql_reorder_from 0).
  rewrite (sql_reorder_from 0), <- (refill_ext (mem ids)).
  2:{ intros x Hx. by rewrite mem_named. }
  by rewrite <- (sql_reorder_from 0).
Qed.

Lemma sql_slot_agrees id seq l o p :
  op_placement o = Some p -> sql_slot l (stored_row id seq o) = insert_position l p.
Proof.
  intros Hp. unfold sql_slot, stored_row, left_anchor, right_anchor, op_boundary. cbn.
  rewrite Hp. destruct p as [[]|b a]; cbn; [done|done|]. unfold array_position.
  destruct b as [b|]; cbn; [destruct (position_of l b); cbn; [done|]|];
    (destruct a as [a|]; cbn; [|done]); (destruct (position_of l a); cbn; [lia|done]).
Qed.

(** The database applies an operation as the API does. *)
Lemma database_agrees id seq o l :
  NoDup l -> playlist_membership_apply l (stored_row id seq o) = apply_op o l.
Proof.
  intros Hl. unfold playlist_membership_apply. destruct o as [t p|t|t p|ids].
  - rewrite !bool_decide_eq_false_2 by (intros H; by vm_compute in H).
    cbn [stored_row row_track_id op_track_id apply_op]. destruct (position_of l t); [done|].
    by rewrite (sql_slot_agrees id seq l (Add t p) p).
  - rewrite bool_decide_eq_true_2 by done. cbn [stored_row row_track_id op_track_id apply_op].
    fold (others t l). destruct (position_of l t) as [i|] eqn:E.
    + symmetry. by apply others_delete.
    + apply others_id. by apply position_of_None.
  - rewrite !bool_decide_eq_false_2 by (intros H; by vm_compute in H).
    rewrite bool_decide_eq_true_2 by done.
    cbn [stored_row row_track_id op_track_id apply_op]. destruct (position_of l t) as [i|] eqn:E; [|done].
    unfold array_remove. fold (others t l). rewrite <- (others_delete l t i) by done.
    by rewrite (sql_slot_agrees id seq _ (Move t p) p).
  - rewrite bool_decide_eq_false_2 by (intros H; by vm_compute in H).
    rewrite bool_decide_eq_true_2 by done. apply sql_reorder_agrees.
Qed.

(** The reducer reads back the operation the API wrote. *)
Definition readable (o : Operation) : Prop :=
  match o with
  | Add _ (Anchored None None) | Move _ (Anchored None None) => False
  | Reorder [] => False
  | _ => True
  end.

Lemma row_roundtrip id seq o : readable o -> row_intent (stored_row id seq o) = Some (intent_of o).
Proof.
  destruct o as [t p|t|t p|[|i ids]]; [destruct p as [[]|[] []]|..|]; try done.
  destruct p as [[]|[] []]; done.
Qed.

(** When the reducer applies an operation and loses no anchor, it does what the
    API did. *)
Lemma reducer_agrees o l l' :
  NoDup (default [] (op_ordered_track_ids o)) ->
  apply_intent (intent_of o) l = (Ok false, l') -> l' = apply_op o l.
Proof.
  intros Hids. destruct o as [t p|t|t p|ids]; cbn [intent_of apply_intent apply_op].
  - rewrite contains_mem. destruct (position_of l t) as [i|] eqn:E.
    + apply position_of_elem, mem_true in E. rewrite E. by intros [= <-].
    + apply position_of_None, mem_false in E. rewrite E.
      destruct (resolve_placement l p) as [k|] eqn:Ep; [|done].
      rewrite (resolve_insert_position l p k Ep). by intros [= <-].
  - destruct (position_of l t); by intros [= <-].
  - destruct (position_of l t) as [i|]; [|done]. destruct (anchors_are_inverted l p); [done|].
    destruct (resolve_placement l p); [|done].
    destruct (resolve_placement (delete i l) p) as [k|] eqn:Ep; [|done].
    rewrite (resolve_insert_position _ p k Ep). by intros [= <-].
  - cbn [op_ordered_track_ids default] in Hids.
    assert (present_in_order l ids = List.filter (mem l) ids) as Hn.
    { apply dedup_seen_id; [|set_solver]. by apply (retain_NoDup (mem l)). }
    rewrite <- Hn. destruct (present_in_order l ids) eqn:E; [|by intros [= <-]].
    destruct (length ids =? 0)%nat; [|done]. intros [= <-]. unfold write_slots. by destruct (slots _ _).
Qed.

(** ** Runs of the reducer without conflict *)

(** Each operation, in turn, applies and keeps its anchors. *)
Fixpoint clean_run (ops : list Operation) (l : list str) : Prop :=
  match ops with
  | [] => True
  | o :: ops' =>
      (exists l', apply_intent (intent_of o) l = (Ok false, l'))
      /\ NoDup (default [] (op_ordered_track_ids o)) /\ clean_run ops' (apply_op o l)
  end.

Lemma clean_run_app ops1 ops2 l :
  clean_run (ops1 ++ ops2) l <-> clean_run ops1 l /\ clean_run ops2 (apply_all ops1 l).
Proof.
  revert l. induction ops1 as [|o ops1 IH]; intros l; [simpl; tauto|].
  cbn [app clean_run]. rewrite IH, apply_all_cons. tauto.
Qed.

Lemma replay_clean js ops l :
  map intent js = map intent_of ops -> clean_run ops l ->
  replay l js = (apply_all ops l, replicate (length ops) Pending, false).
Proof.
  revert ops l. induction js as [|j js IH]; intros [|o ops] l Hjs; try done.
  intros ([l' Hl'] & Hids & Hrun). injection Hjs as Hj Hjs. cbn [replay]. rewrite Hj, Hl'.
  rewrite (reducer_agrees o l l' Hids Hl'). by rewrite (IH ops).
Qed.

Lemma add_clean l t p : t ∈ l \/ is_Some (resolve_placement l p) -> clean_run [Add t p] l.
Proof.
  intros H. cbn [clean_run intent_of apply_intent op_ordered_track_ids default].
  split_and!; [|apply NoDup_nil_2|done]. rewrite contains_mem. destruct (mem l t) eqn:E; [by eauto|].
  destruct H as [H|[k ->]]; [|by eauto]. apply mem_true in H. congruence.
Qed.

Lemma remove_clean l ts : clean_run (map Remove ts) l.
Proof.
  revert l. induction ts as [|t ts IH]; intros l; [done|]. cbn [map clean_run intent_of apply_intent].
  split_and!; [destruct (position_of l t); by eauto|apply NoDup_nil_2|apply IH].
Qed.

Lemma derive_adds_clean members prev sub l :
  match prev with Some b => b ∈ l | None => True end ->
  (forall x, x ∈ sub -> x ∈ members -> x ∈ l) ->
  clean_run (derive_adds members prev sub) l.
Proof.
  revert prev l. induction sub as [|t sub IH]; intros prev l Hprev Hm; [done|]. cbn [derive_adds].
  destruct (mem members t) eqn:E.
  - apply mem_true in E. cbn [app]. apply IH; [apply Hm; set_solver|set_solver].
  - apply clean_run_app. split.
    + apply add_clean. right. destruct prev as [b|]; [|by eexists]. simpl.
      destruct (position_of_is_Some l b Hprev) as [i Hi]. rewrite Hi. by eexists.
    + apply IH.
      * rewrite apply_all_cons. cbn [apply_all foldl]. apply apply_add_In. by left.
      * intros x Hx Hxm. rewrite apply_all_cons. cbn [apply_all foldl]. apply apply_add_In. right.
        apply Hm; set_solver.
Qed.

Lemma reorder_clean l ids x : NoDup ids -> x ∈ ids -> x ∈ l -> clean_run [Reorder ids] l.
Proof.
  intros Hids Hx Hxl. cbn [clean_run intent_of apply_intent]. split_and!; [|done|done].
  destruct (present_in_order l ids) eqn:E; [|by eauto].
  assert (x ∈ present_in_order l ids) as H by by apply present_in_order_In.
  rewrite E in H. by apply not_elem_of_nil in H.
Qed.

(** A move between neighbours of the list without the moved track. *)
Lemma neighbours_not_inverted l t i k :
  NoDup l -> position_of l t = Some i -> k <> 0 -> k < length (delete i l) ->
  anchors_are_inverted l (Anchored (delete i l !! (k - 1)) (delete i l !! k)) = false.
Proof.
  intros Hl Hi Hk Hlt. simpl. set (w := delete i l) in *.
  destruct (lookup_lt_is_Some_2 w (k - 1)) as [x Hx]; [lia|].
  destruct (lookup_lt_is_Some_2 w k) as [y Hy]; [lia|]. rewrite Hx, Hy.
  pose proof (position_of_lookup _ _ _ Hi) as Hli. pose proof (position_of_lt _ _ _ Hi) as Hil.
  pose proof (length_delete_position l t i Hi) as Hlen. fold w in Hlen.
  assert (forall j z, w !! j = Some z -> exists j', l !! j' = Some z /\ j <= j' /\ j' <= S j /\ (j' = S j <-> i <= j)) as Hshift.
  { intros j z Hj. rewrite <- (vec_insert_delete i t l Hli). fold w. destruct (decide (i <= j)).
    - exists (S j). rewrite vec_insert_lookup_ge by lia. split_and!; [done|lia..].
    - exists j. rewrite vec_insert_lookup_lt by lia. split_and!; [done|lia..]. }
  destruct (Hshift _ _ Hx) as (jx & Hjx & ? & ? & ?). destruct (Hshift _ _ Hy) as (jy & Hjy & ? & ? & ?).
  rewrite (position_of_NoDup l x jx), (position_of_NoDup l y jy) by done. apply Nat.ltb_ge. lia.
Qed.

Lemma derive_move_clean t to l l1 i1 :
  NoDup l -> NoDup l1 -> position_of l1 t = Some i1 -> others t l1 = others t l ->
  clean_run (derive_move t to l) l1.
Proof.
  intros Hl Hl1 Hi1 Ho. unfold derive_move. destruct (position_of l t) as [i|] eqn:Hi; [|done].
  assert (delete i l = delete i1 l1) as Hw by by rewrite (others_delete l t), (others_delete l1 t).
  rewrite Hw. set (tg := Z.to_nat _). destruct (tg =? i)%nat; [done|].
  assert (tg <= length (delete i1 l1)) as Htg by (unfold tg; lia).
  cbn [clean_run intent_of apply_intent op_ordered_track_ids default].
  split_and!; [|apply NoDup_nil_2|done]. rewrite Hi1.
  destruct (tg =? 0)%nat eqn:E0; [by eauto|]. destruct (tg =? length (delete i1 l1))%nat eqn:E1; [by eauto|].
  bprop. rewrite (neighbours_not_inverted l1 t) by (done || lia).
  destruct (lookup_lt_is_Some_2 (delete i1 l1) (tg - 1)) as [x Hx]; [lia|]. rewrite Hx. simpl.
  rewrite (position_of_NoDup (delete i1 l1) x (tg - 1)) by (try done; by eapply NoDup_delete_position).
  destruct (position_of_is_Some l1 x) as [jx Hjx].
  { apply (elem_of_delete_position l1 t i1 x); [done|done|]. by eapply list_elem_of_lookup_2. }
  rewrite Hjx. simpl. by eauto.
Qed.

(** ** The derived operations, replayed before and after their effect *)

Lemma derive_adds_fixed members prev sub l :
  (forall x, x ∈ sub -> x ∈ l) -> apply_all (derive_adds members prev sub) l = l.
Proof.
  revert prev. induction sub as [|t sub IH]; intros prev H; [done|]. cbn [derive_adds].
  rewrite apply_all_app. replace (apply_all _ l) with l; [by apply IH; set_solver|].
  destruct (mem members t); [done|]. cbn.
  destruct (position_of_is_Some l t) as [i ->]; [set_solver|done].
Qed.

Lemma removes_fixed ts l : (forall x, x ∈ ts -> x ∉ l) -> apply_all (map Remove ts) l = l.
Proof.
  induction ts as [|t ts IH]; intros H; [done|]. cbn [map]. rewrite apply_all_cons. cbn [apply_op].
  rewrite (proj2 (position_of_None l t)) by set_solver. apply IH. set_solver.
Qed.

Lemma derive_order_shape sub l r :
  NoDup sub -> NoDup l ->
  exists ops tail_, derive_order sub l r = ops ++ tail_
  /\ ops = derive_adds l None sub ++ (if r then derive_removes sub l else [])
  /\ (tail_ = [] \/ (tail_ = [Reorder sub] /\ sub <> [])).
Proof.
  intros Hsub Hl. unfold derive_order. set (ops := derive_adds _ _ _ ++ _).
  case_bool_decide as Hne; [|exists ops, []; rewrite app_nil_r; auto].
  exists ops, [Reorder sub]. split_and!; [done|done|]. right. split; [done|].
  intros ->. apply Hne. apply foldl_write_nil.
Qed.

(** The order a list already has: replaying the operations that asked for it
    applies each of them and changes nothing. *)
Lemma derive_order_replayed sub l r l1 :
  NoDup sub -> NoDup l -> NoDup l1 ->
  retain (mem sub) l1 = sub -> (r = true -> forall x, x ∈ l1 -> x ∈ sub) ->
  clean_run (derive_order sub l r) l1 /\ apply_all (derive_order sub l r) l1 = l1.
Proof.
  intros Hsub Hl Hl1 Hin Hout. destruct (derive_order_shape sub l r Hsub Hl) as (ops & tl & -> & -> & Htl).
  assert (forall x, x ∈ sub -> x ∈ l1) as Hsl1.
  { intros x. rewrite <- Hin, retain_In. tauto. }
  assert (apply_all (derive_adds l None sub ++ (if r then derive_removes sub l else [])) l1 = l1) as Hfix.
  { rewrite apply_all_app, derive_adds_fixed by done. destruct r; [|done]. apply removes_fixed.
    intros x Hx Hx1. fold (retain (fun t => negb (mem sub t)) l) in Hx.
    apply retain_In in Hx as [_ Hx]. rewrite negb_true_iff, mem_false in Hx. by apply Hx, Hout. }
  split.
  - apply clean_run_app. rewrite Hfix. split.
    + apply clean_run_app. split; [apply derive_adds_clean; [done|set_solver]|].
      destruct r; [apply remove_clean|done].
    + destruct Htl as [->|[-> Hne]]; [done|]. destruct sub as [|x sub]; [done|].
      apply (reorder_clean l1 (x :: sub) x); [done|set_solver|apply Hsl1; set_solver].
  - rewrite apply_all_app, Hfix. destruct Htl as [->|[-> _]]; [done|].
    cbn [apply_all foldl]. by apply apply_reorder_id.
Qed.

Lemma derive_order_clean sub l r :
  NoDup sub -> NoDup l -> clean_run (derive_order sub l r) l.
Proof.
  intros Hsub Hl. destruct (derive_order_projected sub l r Hsub Hl) as (_ & Hm & _).
  destruct (derive_order_shape sub l r Hsub Hl) as (ops & tl & -> & -> & Htl).
  apply clean_run_app. split.
  - apply clean_run_app. split; [apply derive_adds_clean; [done|set_solver]|].
    destruct r; [apply remove_clean|done].
  - destruct Htl as [->|[-> Hne]]; [done|]. destruct sub as [|x sub]; [done|].
    apply (reorder_clean _ (x :: sub) x); [done|set_solver|]. apply Hm. left. set_solver.
Qed.

Lemma derived_clean e l :
  NoDup l -> NoDup (submitted_track_ids e) -> clean_run (derived e l) l.
Proof.
  intros Hl He. destruct e as [t|t|t to|ts|ts]; cbn [derived submitted_track_ids] in *.
  - destruct (contains l t); [done|]. apply add_clean. right. by eexists.
  - destruct (contains l t); [|done]. apply (remove_clean l [t]).
  - destruct (position_of l t) as [i|] eqn:E; [by eapply derive_move_clean|].
    unfold derive_move. by rewrite E.
  - by apply derive_order_clean.
  - by apply derive_order_clean.
Qed.

Lemma derive_move_fixed t to l l1 :
  NoDup l -> NoDup l1 -> t ∈ l -> l1 !! move_target to (length l) = Some t ->
  others t l1 = others t l -> apply_all (derive_move t to l) l1 = l1.
Proof.
  intros Hl Hl1 Ht Hat Ho. destruct (position_of_is_Some l t Ht) as [i Hi].
  assert (position_of l1 t = Some (move_target to (length l))) as Hi1 by by apply position_of_NoDup.
  assert (delete i l = delete (move_target to (length l)) l1) as Hw
    by by rewrite (others_delete l t), (others_delete l1 t).
  pose proof (derive_move_applied t to l i Hl Hi) as Happ. unfold derive_move in *. rewrite Hi in *.
  destruct (_ =? i)%nat; [done|]. cbn [apply_all foldl apply_op] in *. rewrite Hi in Happ. rewrite Hi1.
  rewrite <- Hw. rewrite Happ. rewrite Hw. by apply vec_insert_delete.
Qed.

Lemma derived_replayed e l :
  NoDup l -> NoDup (submitted_track_ids e) ->
  let l1 := apply_all (derived e l) l in
  clean_run (derived e l) l1 /\ apply_all (derived e l) l1 = l1.
Proof.
  intros Hl He l1. destruct (derived_meets e l Hl He) as [Hm Hnd]. fold l1 in Hm, Hnd. clearbody l1.
  destruct e as [t|t|t to|ts|ts]; cbn [derived edit_meets submitted_track_ids] in *.
  - rewrite contains_mem in *. destruct (mem l t) eqn:E; [done|].
    assert (t ∈ l1) as Ht by (rewrite Hm; set_solver). split; [apply add_clean; by left|].
    cbn. by destruct (position_of_is_Some l1 t Ht) as [i ->].
  - destruct (contains l t); [|done]. split; [apply (remove_clean l1 [t])|]. cbn.
    rewrite (proj2 (position_of_None l1 t)); [done|]. rewrite Hm. unfold others.
    rewrite retain_In, bool_decide_eq_true_2; naive_solver.
  - destruct Hm as (H1 & H2 & H3). destruct (decide (t ∈ l)) as [Ht|Ht].
    + split; [|by apply derive_move_fixed; auto].
      eapply derive_move_clean; [done|done| |done]. by apply position_of_NoDup, H1.
    + unfold derive_move. by rewrite (proj2 (position_of_None l t) Ht).
  - destruct Hm as [H1 H2]. by apply derive_order_replayed.
  - apply derive_order_replayed; [done|done|done| |by rewrite Hm].
    rewrite Hm. apply retain_all. intros x. by rewrite mem_true.
Qed.

(** ** The rows of the derived operations *)

Lemma derive_adds_wf members prev sub :
  NoDup sub -> match prev with Some b => b ∉ sub | None => True end ->
  Forall (fun o => readable o /\ anchors_distinct (intent_of o)) (derive_adds members prev sub).
Proof.
  revert prev. induction sub as [|t sub IH]; intros prev Hsub Hp; [constructor|].
  apply NoDup_cons in Hsub as [Ht Hsub]. cbn [derive_adds]. apply Forall_app. split; [|by apply IH].
  destruct (mem members t); [constructor|]. repeat constructor; destruct prev; simpl; try done.
  split; [|done]. intros [= ->]. apply Hp. set_solver.
Qed.

Lemma derived_wf e l :
  NoDup l -> NoDup (submitted_track_ids e) ->
  Forall (fun o => readable o /\ anchors_distinct (intent_of o)) (derived e l).
Proof.
  intros Hl He.
  assert (forall ts r, NoDup ts ->
    Forall (fun o => readable o /\ anchors_distinct (intent_of o)) (derive_order ts l r)) as Horder.
  { intros ts r Hts. destruct (derive_order_shape ts l r Hts Hl) as (ops & tl & -> & -> & Htl).
    apply Forall_app. split; [apply Forall_app; split; [by apply derive_adds_wf|]|].
    - destruct r; [|constructor]. apply Forall_forall. intros o Ho. unfold derive_removes in Ho.
      by apply list_elem_of_In, in_map_iff in Ho as (t & <- & _).
    - destruct Htl as [->|[-> Hne]]; [constructor|]. repeat constructor. by destruct ts. }
  destruct e as [t|t|t to|ts|ts]; cbn [derived submitted_track_ids] in *; [..|by apply Horder|by apply Horder].
  - destruct (contains l t); by repeat constructor.
  - destruct (contains l t); by repeat constructor.
  - unfold derive_move. destruct (position_of l t) as [i|] eqn:E; [|constructor].
    set (tg := Z.to_nat _). destruct (tg =? i)%nat; [constructor|].
    destruct (tg =? 0)%nat; [by repeat constructor|].
    destruct (tg =? length (delete i l))%nat eqn:E1; [by repeat constructor|].
    assert (forall k, delete i l !! k <> Some t) as Hne.
    { intros k Hk. apply list_elem_of_lookup_2 in Hk.
      apply (elem_of_delete_position l t) in Hk; naive_solver. }
    assert (tg <= length (delete i l)) as Htg by (unfold tg; lia). bprop.
    destruct (lookup_lt_is_Some_2 (delete i l) tg) as [y Hy]; [lia|].
    constructor; [|constructor]. split; [|split; apply Hne]. rewrite Hy. simpl.
    by destruct (delete i l !! (tg - 1)).
Qed.

(** ** Watermarks *)

Lemma committed_prefix_ge ops w : (w <= committed_prefix ops w)%Z.
Proof.
  revert w. induction ops as [|o ops IH]; intros w; simpl; [lia|].
  destruct (is_terminal (resolution o)); [|lia]. specialize (IH (Z.max w (resolved_sequence o))). lia.
Qed.

(** Nothing at or below the watermark is pending. *)
Lemma committed_prefix_terminal ops w o :
  StronglySorted (fun a b => resolved_sequence a < resolved_sequence b)%Z ops ->
  Forall (fun a => w < resolved_sequence a)%Z ops ->
  o ∈ ops -> (resolved_sequence o <= committed_prefix ops w)%Z -> is_terminal (resolution o) = true.
Proof.
  intros Hs. revert w. induction Hs as [|a ops Hs IH Ha]; intros w Hw Ho Hle; [by apply not_elem_of_nil in Ho|].
  inversion Hw as [|? ? Hwa Hw']; subst. cbn [committed_prefix] in Hle.
  destruct (is_terminal (resolution a)) eqn:E.
  - rewrite Z.max_r in Hle by lia. apply elem_of_cons in Ho as [->|Ho]; [done|]. by apply (IH (resolved_sequence a)).
  - exfalso. rewrite Forall_forall in Hw. specialize (Hw o Ho). simpl in *. lia.
Qed.

(** The watermark stops at the first pending operation, and only there. *)
Lemma committed_prefix_stops ops w :
  Forall (fun a => is_terminal (resolution a) = true) ops ->
  committed_prefix ops w = foldl (fun w a => Z.max w (resolved_sequence a)) w ops.
Proof.
  intros H. revert w. induction H as [|a ops Ha H IH]; intros w; simpl; [done|]. by rewrite Ha.
Qed.

(** ** Subsequences *)

Lemma sublist_skip_past x l r :
  (x :: l) `sublist_of` r <-> exists r', skip_past x r = Some r' /\ l `sublist_of` r'.
Proof.
  induction r as [|y r IH]; simpl.
  - split; [intros H; inversion H|by intros (? & ? & _)].
  - case_bool_decide as Hy.
    + subst. split.
      * intros H. exists r. split; [done|]. inversion H; subst; [done|].
        etrans; [|by apply H2]. apply sublist_cons. done.
      * intros (r' & [= <-] & H). by constructor.
    + rewrite <- IH. split; [|by constructor]. intros H. by inversion H; subst.
Qed.

Lemma is_subsequence_spec l r : is_subsequence l r = true <-> l `sublist_of` r.
Proof.
  revert r. induction l as [|x l IH]; intros r; simpl.
  - split; [intros; apply sublist_nil_l|done].
  - rewrite sublist_skip_past. destruct (skip_past x r) as [r'|]; [|naive_solver].
    rewrite IH. naive_solver.
Qed.

Lemma sublist_same_length (l r : list str) : l `sublist_of` r -> length r <= length l -> l = r.
Proof.
  induction 1 as [|x l r H IH|x l r H IH]; intros Hlen; simpl in *; [done|f_equal; apply IH; lia|].
  apply sublist_length in H. lia.
Qed.

Lemma same_members_spec l r : same_members l r = true <-> forall x, x ∈ l <-> x ∈ r.
Proof.
  unfold same_members. rewrite andb_true_iff, !forallb_forall.
  setoid_rewrite <- list_elem_of_In. setoid_rewrite mem_true. naive_solver.
Qed.

Lemma Forall_map_iff {A B} (f : A -> B) (P : B -> Prop) l : Forall P (map f l) <-> Forall (fun x => P (f x)) l.
Proof. apply Forall_fmap. Qed.

Lemma StronglySorted_map {A B} (f : A -> B) (R : B -> B -> Prop) l :
  StronglySorted R (map f l) -> StronglySorted (fun a b => R (f a) (f b)) l.
Proof.
  induction l as [|a l IH]; intros H; [constructor|]. simpl in H. inversion H as [|? ? Hs Ha]; subst.
  constructor; [by apply IH|]. exact (proj1 (Forall_map_iff f (R (f a)) l) Ha).
Qed.

(** The running maximum is an upper bound. *)
Lemma foldl_max_ge {A} (f : A -> Z) l w : (w <= foldl (fun w a => Z.max w (f a)) w l)%Z.
Proof. revert w. induction l as [|a l IH]; intros w; simpl; [lia|]. specialize (IH (Z.max w (f a))). lia. Qed.

Lemma foldl_max_In {A} (f : A -> Z) l w x :
  x ∈ map f l -> (x <= foldl (fun w a => Z.max w (f a)) w l)%Z.
Proof.
  revert w. induction l as [|a l IH]; intros w; simpl; [set_solver|].
  intros [->|Hx]%elem_of_cons; [|by apply IH]. pose proof (foldl_max_ge f l (Z.max w (f a))). lia.
Qed.

(** ** The reduction *)

Definition settle (converged : bool) (r : Resolution) : Resolution :=
  if converged then (if bool_decide (r = Pending) then Committed else r) else r.

Lemma reduce_operations remote ops c :
  operations (reduce remote ops c)
  = zip_with (fun o r => {| resolved_id := operation_id o; resolved_sequence := sequence o; resolution := r |})
      ops (map (settle (bool_decide ((replay remote ops).1.1 = remote))) (replay remote ops).1.2).
Proof.
  unfold reduce. destruct (replay remote ops) as [[cand rs] lost]. cbn [fst snd operations].
  case_bool_decide; [done|]. f_equal. unfold settle. by rewrite map_id.
Qed.

Lemma reduce_candidate remote ops c : candidate (reduce remote ops c) = (replay remote ops).1.1.
Proof. unfold reduce. by destruct (replay remote ops) as [[cand rs] lost]. Qed.

Lemma settle_pending b r : settle b r = Pending -> b = false /\ r = Pending.
Proof. unfold settle. destruct b; [|done]. by case_bool_decide. Qed.

Lemma replay_not_committed l ops r : r ∈ (replay l ops).1.2 -> r <> Committed.
Proof.
  revert l. induction ops as [|o ops IH]; intros l; simpl; [set_solver|].
  destruct (apply_intent (intent o) l) as [x l1]. specialize (IH l1).
  destruct x, (replay l1 ops) as [[l2 rs] lost]; simpl in *;
    intros [->|Hr]%elem_of_cons; (done || by apply IH).
Qed.

Lemma resolved_from remote ops c o :
  o ∈ operations (reduce remote ops c) ->
  exists r, r ∈ (replay remote ops).1.2
  /\ resolution o = settle (bool_decide ((replay remote ops).1.1 = remote)) r.
Proof.
  rewrite reduce_operations. intros (i & Hi)%list_elem_of_lookup.
  apply lookup_zip_with_Some in Hi as (j & r & -> & _ & Hr).
  apply list_lookup_fmap_Some in Hr as (r' & -> & Hr'). exists r'. split; [|done].
  by eapply list_elem_of_lookup_2.
Qed.

Lemma resolved_sequences remote ops c :
  map resolved_sequence (operations (reduce remote ops c)) = map sequence ops
  /\ map resolved_id (operations (reduce remote ops c)) = map operation_id ops.
Proof.
  rewrite reduce_operations. set (rs := map (settle _) _).
  assert (length rs = length ops) as Hlen by (unfold rs; by rewrite length_map, replay_length).
  clearbody rs. revert rs Hlen. induction ops as [|o ops IH]; intros [|r rs] Hlen; try done.
  simpl in *. destruct (IH rs) as [H1 H2]; [lia|]. by rewrite H1, H2.
Qed.

(** C28: replaying a journal onto the playlist SoundCloud has gives a list without
    duplicates whose members are the remote ones changed by the last addition or
    removal of each track, wherever conflicts fall; tracks no operation names
    keep the remote's order.  Every operation gets one resolution, in order, and
    operations are retired as committed exactly when the remote already shows the
    result; while it does not, those that did not conflict stay pending. *)
Theorem reduce_sound (remote : list str) (ops : list JournalOperation) (c : Z)
    (Hr : NoDup remote) (Hd : Forall (fun o => anchors_distinct (intent o)) ops) :
  let r := reduce remote ops c in
  NoDup (candidate r)
  /\ (forall t, t ∈ candidate r <-> member_after_all t ops (mem remote t) = true)
  /\ (forall q, (forall o t, o ∈ ops -> t ∈ touches (intent o) -> q t = false) ->
       retain q (candidate r) = retain q remote)
  /\ map resolved_id (operations r) = map operation_id ops
  /\ (forall o, o ∈ operations r ->
        (resolution o = Committed -> candidate r = remote)
        /\ (resolution o = Pending -> candidate r <> remote)).
Proof.
  intros r. unfold r. rewrite reduce_candidate. destruct (replay_effect ops remote Hr Hd) as (H1 & H2 & H3).
  split_and!; [done| |done|by apply resolved_sequences|].
  - intros t. rewrite <- H2. by rewrite mem_true.
  - intros o Ho. apply resolved_from in Ho as (x & Hx & ->). apply replay_not_committed in Hx. split.
    + unfold settle. case_bool_decide; [done|]. intros ->. done.
    + intros [H _]%settle_pending. by apply bool_decide_eq_false in H.
Qed.

Lemma reduce_sound_witness :
  let remote := [lit "a"; lit "b"; lit "c"] in
  let ops := [{| operation_id := 1; sequence := 5; intent := IntentMove (lit "c") (AtBoundary Front) |};
              {| operation_id := 2; sequence := 6; intent := IntentRemove (lit "b") |}] in
  NoDup (candidate (reduce remote ops 4)) /\ lit "b" ∉ candidate (reduce remote ops 4).
Proof.
  intros remote ops. assert (NoDup remote) as Hr by (apply (bool_decide_unpack _); vm_compute; exact I).
  assert (Forall (fun o => anchors_distinct (intent o)) ops) as Hd by (repeat constructor).
  destruct (reduce_sound remote ops 4 Hr Hd) as (H1 & H2 & _). split; [exact H1|].
  intros Hb. apply H2 in Hb. by vm_compute in Hb.
Defined.

(** The committed watermark of a reduction never passes a pending operation:
    with the journal's sequences increasing and above the old watermark, every
    operation at or below the new one is committed or in conflict, the watermark
    does not go back, and when nothing is pending it reaches the last operation. *)
Theorem watermark_safe (remote : list str) (ops : list JournalOperation) (c : Z)
    (Hs : StronglySorted Z.lt (map sequence ops)) (Hc : Forall (fun o => c < sequence o)%Z ops) :
  let r := reduce remote ops c in
  (c <= committed_through_sequence r)%Z
  /\ (forall o, o ∈ operations r -> (resolved_sequence o <= committed_through_sequence r)%Z ->
        resolution o <> Pending)
  /\ ((forall o, o ∈ operations r -> resolution o <> Pending) ->
        forall o, o ∈ ops -> (sequence o <= committed_through_sequence r)%Z).
Proof.
  intros r. assert (committed_through_sequence r = committed_prefix (operations r) c) as ->.
  { unfold r, reduce. by destruct (replay remote ops) as [[cand rs] lost]. }
  destruct (resolved_sequences remote ops c) as [Hseq _]. fold r in Hseq.
  split_and!; [apply committed_prefix_ge| |].
  - intros o Ho Hle Hp. assert (is_terminal (resolution o) = true) as Ht; [|by rewrite Hp in Ht].
    apply (committed_prefix_terminal (operations r) c); [| |done|done].
    + rewrite <- Hseq in Hs. by apply StronglySorted_map.
    + apply (Forall_map_iff resolved_sequence (fun s => c < s)%Z). rewrite Hseq. by apply Forall_map_iff.
  - intros Hall o Ho. rewrite committed_prefix_stops.
    2:{ apply Forall_forall. intros a Ha. specialize (Hall a Ha). by destruct (resolution a). }
    apply foldl_max_In. rewrite Hseq. apply list_elem_of_In, in_map. by apply list_elem_of_In.
Qed.

Lemma watermark_safe_witness :
  let ops := [{| operation_id := 1; sequence := 5; intent := IntentRemove (lit "b") |};
              {| operation_id := 2; sequence := 6; intent := IntentRemove (lit "d") |}] in
  (6 <= committed_through_sequence (reduce [lit "a"] ops 4))%Z.
Proof.
  intros ops. assert (StronglySorted Z.lt (map sequence ops)) as Hs by (repeat constructor).
  assert (Forall (fun o => 4 < sequence o)%Z ops) as Hc by (repeat constructor).
  destruct (watermark_safe [lit "a"] ops 4 Hs Hc) as (_ & _ & H).
  apply (H ltac:(intros o Ho; unfold ops in Ho; vm_compute in Ho; intros E;
    repeat (apply elem_of_cons in Ho as [->|Ho]; [discriminate E|]); by apply not_elem_of_nil in Ho)
    {| operation_id := 2; sequence := 6; intent := IntentRemove (lit "d") |}).
  unfold ops. set_solver.
Defined.

(** The journal operations [js] hold the derived operations [ops], in order. *)
Definition journals (js : list JournalOperation) (ops : list Operation) : Prop :=
  map intent js = map intent_of ops.

Lemma replicate_no_conflict n b :
  find_map resolution_conflict_code (map (settle b) (replicate n Pending)) = None.
Proof. induction n as [|n IH]; [done|]. by destruct b. Qed.

Lemma reduce_clean remote js ops c :
  journals js ops -> clean_run ops remote ->
  let r := reduce remote js c in
  candidate r = apply_all ops remote
  /\ outcome r = (if bool_decide (apply_all ops remote = remote) then Converged else Rebased)
  /\ anchors_lost r = false
  /\ Forall (fun o => resolution o = if bool_decide (apply_all ops remote = remote) then Committed else Pending)
       (operations r).
Proof.
  intros Hj Hrun r. pose proof (replay_clean js ops remote Hj Hrun) as Hrep.
  pose proof (reduce_operations remote js c) as Hops. fold r in Hops. rewrite Hrep in Hops. cbn [fst snd] in Hops.
  unfold r, reduce in *. rewrite Hrep in *. cbn [candidate outcome anchors_lost] in *. split_and!; try done.
  - pose proof (replicate_no_conflict (length ops) (bool_decide (apply_all ops remote = remote))) as Hn.
    unfold settle in Hn. case_bool_decide; [by rewrite Hn|]. rewrite map_id in Hn. by rewrite Hn.
  - rewrite Hops. apply Forall_forall. intros o (i & Hi)%list_elem_of_lookup.
    apply lookup_zip_with_Some in Hi as (j & x & -> & _ & Hx).
    apply list_lookup_fmap_Some in Hx as (y & -> & Hy). apply lookup_replicate in Hy as [-> _].
    simpl. unfold settle. by case_bool_decide.
Qed.

(** The database's replay of the rows of a clean run is the API's. *)
Lemma database_replays ops rows m :
  clean_run ops m -> NoDup m ->
  Forall (fun o => readable o /\ anchors_distinct (intent_of o)) ops ->
  Forall2 (fun row o => exists id seq, row = stored_row id seq o) rows ops ->
  foldl playlist_membership_apply m rows = apply_all ops m.
Proof.
  intros Hm Hnd Hwf Hrows. revert m Hm Hnd.
  induction Hrows as [|row o rows ops (id & seq & ->) Hrows IH]; intros m Hm Hnd; [done|].
  inversion Hwf as [|? ? [Ho Hd] Hwf']; subst. cbn [foldl]. rewrite database_agrees by done.
  destruct Hm as ([m' Hm'] & Hids & Hm). rewrite IH; [done|done|done|].
  rewrite <- (reducer_agrees o m m' Hids Hm').
  pose proof (apply_intent_effect (intent_of o) m Hnd Hd) as (E & _). by rewrite Hm' in E.
Qed.

(** C17: the API's, the database's and the reducer's implementations of an
    operation agree on every edit: the database's replay of the journal rows is
    the API's result, each row is read back as the operation that was written, and
    the reducer, replaying them onto the same list, reaches the same list with no
    conflict and no lost anchor. *)
Theorem implementations_agree (e : TrackEdit) (l : list str) (ops : list Operation)
    (js : list JournalOperation) (c id seq : Z)
    (Hl : NoDup l) (He : NoDup (submitted_track_ids e)) (Hops : derive e l = Ok ops)
    (Hjs : journals js ops) :
  foldl playlist_membership_apply l (map (stored_row id seq) ops) = apply_all ops l
  /\ Forall (fun o => row_intent (stored_row id seq o) = Some (intent_of o)) ops
  /\ candidate (reduce l js c) = apply_all ops l
  /\ anchors_lost (reduce l js c) = false
  /\ Forall (fun o => resolution_conflict_code (resolution o) = None) (operations (reduce l js c)).
Proof.
  apply derive_Ok in Hops as [-> _]. pose proof (derived_clean e l Hl He) as Hrun.
  destruct (reduce_clean l js (derived e l) c Hjs Hrun) as (H1 & _ & H3 & H4).
  split_and!; [| |done|done|].
  - apply database_replays; [done|done|by apply derived_wf|].
    generalize (derived e l). induction l0 as [|o ops IH]; constructor; eauto.
  - eapply Forall_impl; [by apply derived_wf|]. intros o [Ho _]. by apply row_roundtrip.
  - eapply Forall_impl; [exact H4|]. intros o ->. by case_bool_decide.
Qed.

Lemma implementations_agree_witness :
  let l := [lit "1"; lit "2"; lit "3"] in
  let j := {| operation_id := 7; sequence := 1;
              intent := IntentMove (lit "3") (AtBoundary Front) |} in
  candidate (reduce l [j] 0) = [lit "3"; lit "1"; lit "2"].
Proof.
  intros l j. assert (NoDup l) as Hl by (apply (bool_decide_unpack _); vm_compute; exact I).
  assert (NoDup (submitted_track_ids (EditMove (lit "3") (-4)))) as He by apply NoDup_nil_2.
  destruct (implementations_agree (EditMove (lit "3") (-4)) l [Move (lit "3") (AtBoundary Front)] [j] 0 7 1
              Hl He eq_refl eq_refl) as (_ & _ & H & _).
  etransitivity; [exact H|reflexivity].
Defined.

(** Once SoundCloud shows an edit, the journal lets go of it: replaying the
    edit's operations onto its own result changes nothing, commits every one of
    them and moves the watermark past the last; until then they stay pending and
    the watermark stays where it was. *)
Theorem edit_converges (e : TrackEdit) (l : list str) (ops : list Operation)
    (js : list JournalOperation) (c : Z)
    (Hl : NoDup l) (He : NoDup (submitted_track_ids e)) (Hops : derive e l = Ok ops)
    (Hjs : journals js ops) (Hne : ops <> []) :
  let after := apply_all ops l in
  candidate (reduce after js c) = after
  /\ outcome (reduce after js c) = Converged
  /\ Forall (fun o => resolution o = Committed) (operations (reduce after js c))
  /\ (forall j, j ∈ js -> (sequence j <= committed_through_sequence (reduce after js c))%Z)
  /\ (after <> l -> outcome (reduce l js c) = Rebased /\ committed_through_sequence (reduce l js c) = c).
Proof.
  apply derive_Ok in Hops as [-> _]. intros after.
  pose proof (derived_clean e l Hl He) as Hrun0. destruct (derived_replayed e l Hl He) as [Hrun Hfix].
  fold after in Hrun, Hfix. destruct (reduce_clean after js (derived e l) c Hjs Hrun) as (H1 & H2 & H3 & H4).
  rewrite Hfix, bool_decide_eq_true_2 in * by done. split_and!; [done|done|done| |].
  - intros j Hj. destruct (resolved_sequences after js c) as [Hseq _].
    replace (committed_through_sequence _) with (committed_prefix (operations (reduce after js c)) c)
      by (unfold reduce; by destruct (replay after js) as [[]]).
    rewrite committed_prefix_stops by (eapply Forall_impl; [exact H4|]; by intros ? ->).
    apply foldl_max_In. rewrite Hseq. apply list_elem_of_In, in_map. by apply list_elem_of_In.
  - intros Hd. destruct (reduce_clean l js (derived e l) c Hjs Hrun0) as (_ & H2' & _ & H4').
    rewrite bool_decide_eq_false_2 in * by done. split; [done|].
    replace (committed_through_sequence _) with (committed_prefix (operations (reduce l js c)) c)
      by (unfold reduce; by destruct (replay l js) as [[]]).
    destruct (operations (reduce l js c)) as [|o os] eqn:E; [done|]. inversion H4' as [|? ? Ho _]; subst.
    cbn [committed_prefix]. by rewrite Ho.
Qed.

Lemma edit_converges_witness :
  let j := {| operation_id := 7; sequence := 9; intent := IntentAdd (lit "3") (AtBoundary Back) |} in
  outcome (reduce [lit "1"; lit "3"] [j] 0) = Converged
  /\ outcome (reduce [lit "1"] [j] 0) = Rebased.
Proof.
  intros j. assert (NoDup [lit "1"]) as Hl by apply NoDup_singleton.
  assert (NoDup (submitted_track_ids (EditAdd (lit "3")))) as He by apply NoDup_singleton.
  destruct (edit_converges (EditAdd (lit "3")) [lit "1"] [Add (lit "3") (AtBoundary Back)] [j] 0
              Hl He eq_refl eq_refl ltac:(discriminate)) as (_ & H & _ & _ & H').
  split; [exact H|]. apply H'. vm_compute. discriminate.
Defined.

(** The classification of two memberships is the order-theoretic one: equal
    lists, the same set in another order, one a proper subsequence of the other,
    or none of these; the greedy scan over the iterators decides subsequences. *)
Theorem membership_relation_exact (local remote : list str) :
  match membership_relation local remote with
  | Equal => local = remote
  | OrderOnly => local <> remote /\ (forall t, t ∈ local <-> t ∈ remote)
  | RemoteSuperset =>
      local `sublist_of` remote /\ length local < length remote
      /\ ~ (forall t, t ∈ local <-> t ∈ remote)
  | LocalSuperset =>
      remote `sublist_of` local /\ length remote < length local
      /\ ~ (forall t, t ∈ local <-> t ∈ remote)
  | Diverged =>
      ~ local `sublist_of` remote /\ ~ remote `sublist_of` local
      /\ ~ (forall t, t ∈ local <-> t ∈ remote)
  end.
Proof.
  unfold membership_relation. case_bool_decide as Heq; [done|].
  destruct (same_members local remote) eqn:Es; [split; [done|by apply same_members_spec]|].
  assert (~ (forall t, t ∈ local <-> t ∈ remote)) as Hne by (rewrite <- same_members_spec; congruence).
  assert (forall a b : list str, a <> b -> (length a <? length b) && is_subsequence a b = false ->
    ~ a `sublist_of` b) as Hno.
  { intros a b Hab Hf Hs. pose proof (sublist_length _ _ Hs) as Hlen. apply is_subsequence_spec in Hs as Hs'.
    rewrite Hs', andb_true_r in Hf. apply Nat.ltb_ge in Hf. apply Hab.
    apply sublist_same_length; [done|lia]. }
  destruct ((length local <? length remote)%nat && is_subsequence local remote) eqn:E1.
  { apply andb_true_iff in E1 as [E1 E2]. apply Nat.ltb_lt in E1. apply is_subsequence_spec in E2. done. }
  destruct ((length remote <? length local)%nat && is_subsequence remote local) eqn:E2.
  { apply andb_true_iff in E2 as [E2 E3]. apply Nat.ltb_lt in E2. apply is_subsequence_spec in E3. done. }
  split_and!; [by apply Hno| |done]. apply Hno; [by intros ->|done].
Qed.
