(* ===== verification/PlaylistJournal.v ===== *)
(** * PlaylistJournal: the tables of a playlist and appending an edit to its journal

    Source: [api/src/modules/playlists/journal.rs] and the database function
    [scd_cmd_playlist_membership_op] it calls
    ([api/migrations/0252_kinds_user_mutations.sql]), with the constraints of
    [0077_playlist_membership_shadow.sql].  [Tables] holds the rows of one
    playlist; a transaction works on a copy and its changes are dropped when it
    fails.  A [uuid] is its number, a timestamp a number of seconds.  Not kept:
    [updated_at] and the columns nothing here reads. *)

From Stdlib Require Import ZArith Lia String.
From stdpp Require Import base list numbers tactics sets gmap.
From S2P Require Import Prelude Text EntityRef AppError Sequences PlaylistEdit PlaylistReduce.
Local Open Scope Z_scope.

(** ** Rows *)

Record PlaylistRow := {
  pl_deleted : bool;
  pl_owner : option str;
  (** [user_owned_playlists.user_id], best claim first *)
  pl_owned_by : list str }.

Record MembershipState := {
  baseline_generation : Z;
  baseline_observation_id : option Z;
  latest_observation_id : option Z;
  projection_revision : Z;
  projection_track_count : Z;
  last_operation_sequence : Z;
  committed_operation_sequence : Z;
  reconcile_generation : Z;
  sync_status : str;
  conflict_code : option str;
  candidate_fingerprint : option bytes;
  reconcile_failure_streak : Z;
  next_reconcile_at : option Z;
  last_error : option str;
  remote_apply_fingerprint : option bytes;
  remote_apply_generation : option Z;
  remote_applied_at : option Z }.

Record OperationRow := {
  op_row : PendingOperationRow;
  op_key : Z;
  op_outcome : str;
  op_conflict_code : option str;
  op_resolved : bool }.

Record RunRow := {
  run_id : Z;
  run_job_id : Z;
  run_job_generation : Z;
  run_reconcile_generation : Z;
  captured_baseline_generation : Z;
  captured_through_operation_sequence : Z;
  run_observation_id : option Z;
  run_candidate_fingerprint : option bytes;
  run_decision : str;
  run_reason : option str }.

Record ObservationRow := {
  obs_id : Z;
  obs_snapshot : option bytes;
  obs_authority : str;
  obs_outcome : str;
  obs_error_kind : option str }.

Record TrackRow := {
  tr_id : str;
  tr_deleted : bool;
  tr_public : bool;
  tr_uploader : option str }.

(** The [sync_queue] row of the playlist's owner for this playlist. *)
Record ApplyRow := {
  ap_user : str;
  ap_tracks : list str;
  ap_fingerprint : bytes;
  ap_reconcile_generation : Z;
  ap_generation : Z;
  ap_dead : bool }.

Record EventRow := { ev_id : Z; ev_user : str; ev_track : str }.

Record Tables := {
  playlist : option PlaylistRow;
  membership : option MembershipState;
  journal : list OperationRow;
  projection : list str;
  runs : list RunRow;
  observations : list ObservationRow;
  (** snapshot tracks by content fingerprint, unique for a playlist *)
  snapshots : list (bytes * list str);
  legacy_intents : bool;
  tracks : list TrackRow;
  apply_queue : list ApplyRow;
  user_events : list EventRow;
  disliked : list (str * str);
  (** tracks with a [catalog.refresh] job *)
  refresh_jobs : list str }.

Definition with_membership (x : option MembershipState) (t : Tables) : Tables :=
  {| playlist := playlist t; membership := x; journal := journal t;
     projection := projection t; runs := runs t; observations := observations t;
     snapshots := snapshots t; legacy_intents := legacy_intents t; tracks := tracks t;
     apply_queue := apply_queue t; user_events := user_events t; disliked := disliked t;
     refresh_jobs := refresh_jobs t |}.

Definition with_journal (x : list OperationRow) (t : Tables) : Tables :=
  {| playlist := playlist t; membership := membership t; journal := x;
     projection := projection t; runs := runs t; observations := observations t;
     snapshots := snapshots t; legacy_intents := legacy_intents t; tracks := tracks t;
     apply_queue := apply_queue t; user_events := user_events t; disliked := disliked t;
     refresh_jobs := refresh_jobs t |}.

Definition with_projection (x : list str) (t : Tables) : Tables :=
  {| playlist := playlist t; membership := membership t; journal := journal t;
     projection := x; runs := runs t; observations := observations t;
     snapshots := snapshots t; legacy_intents := legacy_intents t; tracks := tracks t;
     apply_queue := apply_queue t; user_events := user_events t; disliked := disliked t;
     refresh_jobs := refresh_jobs t |}.

Definition with_runs (x : list RunRow) (t : Tables) : Tables :=
  {| playlist := playlist t; membership := membership t; journal := journal t;
     projection := projection t; runs := x; observations := observations t;
     snapshots := snapshots t; legacy_intents := legacy_intents t; tracks := tracks t;
     apply_queue := apply_queue t; user_events := user_events t; disliked := disliked t;
     refresh_jobs := refresh_jobs t |}.

Definition with_observations (x : list ObservationRow) (t : Tables) : Tables :=
  {| playlist := playlist t; membership := membership t; journal := journal t;
     projection := projection t; runs := runs t; observations := x; snapshots := snapshots t;
     legacy_intents := legacy_intents t; tracks := tracks t; apply_queue := apply_queue t;
     user_events := user_events t; disliked := disliked t; refresh_jobs := refresh_jobs t |}.

Definition with_snapshots (x : list (bytes * list str)) (t : Tables) : Tables :=
  {| playlist := playlist t; membership := membership t; journal := journal t;
     projection := projection t; runs := runs t; observations := observations t;
     snapshots := x; legacy_intents := legacy_intents t; tracks := tracks t;
     apply_queue := apply_queue t; user_events := user_events t; disliked := disliked t;
     refresh_jobs := refresh_jobs t |}.

Definition with_legacy_intents (x : bool) (t : Tables) : Tables :=
  {| playlist := playlist t; membership := membership t; journal := journal t;
     projection := projection t; runs := runs t; observations := observations t;
     snapshots := snapshots t; legacy_intents := x; tracks := tracks t;
     apply_queue := apply_queue t; user_events := user_events t; disliked := disliked t;
     refresh_jobs := refresh_jobs t |}.

Definition with_tracks (x : list TrackRow) (t : Tables) : Tables :=
  {| playlist := playlist t; membership := membership t; journal := journal t;
     projection := projection t; runs := runs t; observations := observations t;
     snapshots := snapshots t; legacy_intents := legacy_intents t; tracks := x;
     apply_queue := apply_queue t; user_events := user_events t; disliked := disliked t;
     refresh_jobs := refresh_jobs t |}.

Definition with_apply_queue (x : list ApplyRow) (t : Tables) : Tables :=
  {| playlist := playlist t; membership := membership t; journal := journal t;
     projection := projection t; runs := runs t; observations := observations t;
     snapshots := snapshots t; legacy_intents := legacy_intents t; tracks := tracks t;
     apply_queue := x; user_events := user_events t; disliked := disliked t;
     refresh_jobs := refresh_jobs t |}.

Definition with_user_events (x : list EventRow) (t : Tables) : Tables :=
  {| playlist := playlist t; membership := membership t; journal := journal t;
     projection := projection t; runs := runs t; observations := observations t;
     snapshots := snapshots t; legacy_intents := legacy_intents t; tracks := tracks t;
     apply_queue := apply_queue t; user_events := x; disliked := disliked t;
     refresh_jobs := refresh_jobs t |}.

Definition with_refresh_jobs (x : list str) (t : Tables) : Tables :=
  {| playlist := playlist t; membership := membership t; journal := journal t;
     projection := projection t; runs := runs t; observations := observations t;
     snapshots := snapshots t; legacy_intents := legacy_intents t; tracks := tracks t;
     apply_queue := apply_queue t; user_events := user_events t; disliked := disliked t;
     refresh_jobs := x |}.

(** ** The command *)

Record MembershipOperation := {
  mo_operation_id : Z;
  mo_idempotency_key : Z;
  mo_fingerprint : str;
  mo_kind : str;
  mo_track_id : option str;
  mo_left_anchor : option str;
  mo_right_anchor : option str;
  mo_boundary : option str;
  mo_ordered_track_ids : option (list str) }.

Record MembershipOp := {
  cmd_actor : str;
  cmd_variants : list str;
  cmd_expected_projection_revision : option Z;
  cmd_operations : list MembershipOperation;
  cmd_at : Z }.

Record MembershipOutcome := {
  out_status : str;
  out_code : option str;
  out_appended : Z;
  out_projection_revision : Z;
  out_added : list str }.

Definition REVISION_CONFLICT : str := lit "playlist_revision_conflict".
Definition UNKNOWN_TRACK : str := lit "playlist_track_not_in_catalog".
Definition NOT_FOUND_CODE : str := lit "playlist_not_found".

(** The row of an operation, as the [INSERT] fills it. *)
Definition row_of_operation (sequence : Z) (o : MembershipOperation) : PendingOperationRow :=
  {| row_operation_id := mo_operation_id o; row_sequence := sequence; row_kind := mo_kind o;
     row_track_id := mo_track_id o; row_left_anchor := mo_left_anchor o;
     row_right_anchor := mo_right_anchor o; row_boundary := mo_boundary o;
     row_ordered_track_ids := mo_ordered_track_ids o |}.

Definition insert_operations (base : Z) (refusal : option str) (ops : list MembershipOperation)
  : list OperationRow :=
  imap (fun i o =>
    {| op_row := row_of_operation (base + Z.of_nat (S i)) o;
       op_key := mo_idempotency_key o;
       op_outcome := match refusal with None => lit "pending" | Some _ => lit "conflict" end;
       op_conflict_code := refusal;
       op_resolved := match refusal with None => false | Some _ => true end |}) ops.

(** [playlist.deleted_at IS NULL] and owned by the actor under some spelling
    ([assert_owner.sql], repeated in the function). *)
Definition owned_by (actor : str) (variants : list str) (t : Tables) : bool :=
  match playlist t with
  | None => false
  | Some p =>
      negb (pl_deleted p)
      && (bool_decide (pl_owner p = Some actor) || any (fun u => bool_decide (u ∈ variants)) (pl_owned_by p))
  end.

Definition live_track (t : Tables) (id : str) : bool :=
  any (fun r => bool_decide (tr_id r = id) && negb (tr_deleted r)) (tracks t).

Definition fresh_membership (t : Tables) (at_ : Z) : MembershipState :=
  {| baseline_generation := 0; baseline_observation_id := None; latest_observation_id := None;
     projection_revision := 0; projection_track_count := Z.of_nat (length (projection t));
     last_operation_sequence := 0; committed_operation_sequence := 0; reconcile_generation := 0;
     sync_status := lit "unhydrated"; conflict_code := None; candidate_fingerprint := None;
     reconcile_failure_streak := 0; next_reconcile_at := Some at_; last_error := None;
     remote_apply_fingerprint := None; remote_apply_generation := None; remote_applied_at := None |}.

(** [INSERT .. SELECT .. ON CONFLICT DO NOTHING]: a state row for a playlist
    that exists and has none. *)
Definition ensure_membership (t : Tables) (at_ : Z) : Tables :=
  match membership t, playlist t with
  | None, Some p =>
      if pl_deleted p then t else with_membership (Some (fresh_membership t at_)) t
  | _, _ => t
  end.

Definition refusal_of (c : MembershipOp) (s : MembershipState) (t : Tables) : option str :=
  if negb (owned_by (cmd_actor c) (cmd_variants c) t) then Some NOT_FOUND_CODE
  else if match cmd_expected_projection_revision c with
          | Some e => negb (e =? projection_revision s)
          | None => false
          end then Some REVISION_CONFLICT
  else if any (fun o => bool_decide (mo_kind o = lit "add")
                        && negb (match mo_track_id o with Some id => live_track t id | None => false end))
              (cmd_operations c) then Some UNKNOWN_TRACK
  else None.

(** The three ways the function writes the new projection: append what was
    added at the end, delete what was dropped, or rewrite it. *)
Definition write_projection (old new : list str) : list str :=
  if bool_decide (new = old) then old
  else if (length old <? length new)%nat && bool_decide (take (length old) new = old)
  then old ++ drop (length old) new
  else
    let dropped := List.filter (fun m => negb (mem new m)) old in
    if (length new <? length old)%nat && bool_decide (List.filter (mem new) old = new)
    then List.filter (fun m => negb (mem dropped m)) old
    else new.

(** [playlist_membership_operations_pkey] and [.._idempotency_uq]. *)
Definition keys_free (ops : list MembershipOperation) (j : list OperationRow) : bool :=
  bool_decide (NoDup (map mo_idempotency_key ops ++ map op_key j))
  && bool_decide (NoDup (map mo_operation_id ops ++ map (fun r => row_operation_id (op_row r)) j)).

(** [playlist_track_projection_member_uq]. *)
Definition members_unique (l : list str) : bool := bool_decide (NoDup l).

Definition accepted_state (s : MembershipState) (base total : Z) (refusal : option str)
    (new_tracks : list str) (at_ : Z) : MembershipState :=
  let ok := match refusal with None => true | Some _ => false end in
  {| baseline_generation := baseline_generation s;
     baseline_observation_id := baseline_observation_id s;
     latest_observation_id := latest_observation_id s;
     projection_revision := if ok then projection_revision s + total else projection_revision s;
     projection_track_count :=
       if ok then Z.of_nat (length new_tracks) else projection_track_count s;
     last_operation_sequence := base + total;
     committed_operation_sequence :=
       if negb ok && (committed_operation_sequence s =? last_operation_sequence s)
       then base + total else committed_operation_sequence s;
     reconcile_generation := reconcile_generation s;
     sync_status := if ok then lit "pending" else sync_status s;
     conflict_code := if ok then None else conflict_code s;
     candidate_fingerprint := if ok then None else candidate_fingerprint s;
     reconcile_failure_streak := reconcile_failure_streak s;
     next_reconcile_at := if ok then Some (at_ + 30) else next_reconcile_at s;
     last_error := last_error s;
     remote_apply_fingerprint := remote_apply_fingerprint s;
     remote_apply_generation := remote_apply_generation s;
     remote_applied_at := remote_applied_at s |}.

Definition outcome_of (status : str) (code : option str) (appended revision : Z) (added : list str)
  : MembershipOutcome :=
  {| out_status := status; out_code := code; out_appended := appended;
     out_projection_revision := revision; out_added := added |}.

(** [scd_cmd_playlist_membership_op]. *)
Definition membership_op (c : MembershipOp) : ST Tables AppError MembershipOutcome := fun t =>
  let t := ensure_membership t (cmd_at c) in
  match membership t with
  | None => (Ok (outcome_of (lit "refused") (Some NOT_FOUND_CODE) 0 0 []), t)
  | Some s =>
      match cmd_operations c with
      | [] => (Ok (outcome_of (lit "tracked") None 0 (projection_revision s) []), t)
      | first :: _ =>
          match find (fun r => bool_decide (op_key r = mo_idempotency_key first)) (journal t) with
          | Some replayed =>
              let conflicted := bool_decide (op_outcome replayed = lit "conflict") in
              (Ok (outcome_of (if conflicted then lit "refused" else lit "replayed")
                     (if conflicted then op_conflict_code replayed else None)
                     0 (projection_revision s) []), t)
          | None =>
              let ops := cmd_operations c in
              let total := Z.of_nat (length ops) in
              let refusal := refusal_of c s t in
              let base :=
                foldl (fun b r => Z.max b (row_sequence (op_row r))) (Z.max (last_operation_sequence s) 0)
                  (journal t) in
              let old_tracks := projection t in
              let new_tracks :=
                foldl (fun l o => playlist_membership_apply l (row_of_operation 0 o)) old_tracks ops in
              let s' := accepted_state s base total refusal new_tracks (cmd_at c) in
              if negb (keys_free ops (journal t)) then (Err (Db DbOther), t)
              else
                let t := with_membership (Some s') t in
                let t := with_journal (journal t ++ insert_operations base refusal ops) t in
                match refusal with
                | Some code => (Ok (outcome_of (lit "refused") (Some code) 0 (projection_revision s) []), t)
                | None =>
                    let written := write_projection old_tracks new_tracks in
                    if negb (members_unique written) then (Err (Db DbOther), t)
                    else
                      (Ok (outcome_of (lit "applied") None total (projection_revision s + total)
                             (List.filter (fun m => negb (mem old_tracks m)) new_tracks)),
                       with_projection written t)
                end
          end
      end
  end.

(** ** Appending an edit *)

Record JournalOutcome := { appended : Z; jo_projection_revision : Z }.

Definition revision_conflict : AppError :=
  coded 409 REVISION_CONFLICT (lit "playlist membership changed since the submitted revision").
Definition unknown_track : AppError :=
  coded 404 UNKNOWN_TRACK (lit "a submitted track is not in the catalog yet").
Definition playlist_not_found : AppError := NotFound (lit "Playlist not found").

Definition refused (code : str) : option AppError :=
  if bool_decide (code = REVISION_CONFLICT) then Some revision_conflict
  else if bool_decide (code = UNKNOWN_TRACK) then Some unknown_track
  else if bool_decide (code = NOT_FOUND_CODE) then Some playlist_not_found
  else None.

Section append.
(** [sha2], [hex] and [Uuid::new_v5]; [fresh] are the [Uuid::now_v7] drawn. *)
Context (sha256 : bytes -> bytes) (hex_encode : bytes -> str) (new_v5 : Z -> bytes -> Z).

Definition operation_key (idempotency_key : Z) (index : nat) : Z :=
  new_v5 idempotency_key (to_be_bytes 8 (Z.of_nat index)).

Definition journal_entry (fresh : nat -> Z) (idempotency_key : Z) (index : nat) (o : Operation)
  : MembershipOperation :=
  {| mo_operation_id := fresh index;
     mo_idempotency_key := operation_key idempotency_key index;
     mo_fingerprint := hex_encode (fingerprint sha256 o);
     mo_kind := op_kind o;
     mo_track_id := op_track_id o;
     mo_left_anchor := left_anchor o;
     mo_right_anchor := right_anchor o;
     mo_boundary := op_boundary o;
     mo_ordered_track_ids := op_ordered_track_ids o |}.

(** [count_catalog_tracks.sql] against the number of added tracks. *)
Definition assert_added_tracks_exist (ops : list Operation) (t : Tables) : bool :=
  let added := omap added_track ops in
  let known := List.filter (fun r => bool_decide (tr_id r ∈ added) && negb (tr_deleted r)) (tracks t) in
  (length added =? 0)%nat || (length known =? length added)%nat.

(** [record_playlist_adds.sql]. *)
Definition record_playlist_adds (actor : str) (idempotency_key : Z) (added : list str) (t : Tables)
  : Tables :=
  let rows := map (fun id => {| ev_id := new_v5 idempotency_key (as_bytes id); ev_user := actor; ev_track := id |})
                (List.filter (fun id =>
                   negb (any (fun d => bool_decide (d.1 ∈ user_id_variants actor) && bool_decide (d.2 = id))
                           (disliked t))) added) in
  with_user_events
    (foldl (fun es e => if any (fun e' => ev_id e' =? ev_id e) es then es else es ++ [e])
       (user_events t) rows) t.

Definition append_in (actor : str) (r : MembershipRequest) (idempotency_key : Z) (fresh : nat -> Z)
    (at_ : Z) : ST Tables AppError JournalOutcome := fun t =>
  let revision := match membership t with Some s => projection_revision s | None => 0 end in
  if negb (owned_by actor (user_id_variants actor) t) then (Err playlist_not_found, t)
  else
    match find (fun row => bool_decide (op_key row = operation_key idempotency_key 0)) (journal t) with
    | Some replayed =>
        match (if bool_decide (op_outcome replayed = lit "conflict")
               then op_conflict_code replayed ≫= refused else None) with
        | Some refusal => (Err refusal, t)
        | None => (Ok {| appended := 0; jo_projection_revision := revision |}, t)
        end
    | None =>
        if match expected_projection_revision r with
           | Some e => negb (e =? revision) | None => false end
        then (Err revision_conflict, t)
        else
          let edit' :=
            match edit r with
            | EditReplace ids =>
                match expected_projection_revision r with
                | None => EditOrder ids
                | Some _ => EditReplace ids
                end
            | e => e
            end in
          match derive edit' (projection t) with
          | Err e => (Err e, t)
          | Ok [] => (Ok {| appended := 0; jo_projection_revision := revision |}, t)
          | Ok ops =>
              if negb (assert_added_tracks_exist ops t) then (Err unknown_track, t)
              else
                let command :=
                  {| cmd_actor := actor;
                     cmd_variants := user_id_variants actor;
                     cmd_expected_projection_revision := expected_projection_revision r;
                     cmd_operations := imap (journal_entry fresh idempotency_key) ops;
                     cmd_at := at_ |} in
                match membership_op command t with
                | (Err e, t') => (Err e, t')
                | (Ok out, t') =>
                    if bool_decide (out_status out = lit "applied") then
                      let t' := match out_added out with
                                | [] => t'
                                | added => record_playlist_adds actor idempotency_key added t'
                                end in
                      if out_appended out <? 0
                      then (Err (Internal (lit "playlist journal appended a negative count")), t')
                      else (Ok {| appended := out_appended out;
                                  jo_projection_revision := out_projection_revision out |}, t')
                    else if bool_decide (out_status out = lit "replayed") then
                      (Ok {| appended := 0; jo_projection_revision := out_projection_revision out |}, t')
                    else
                      (Err (default (Internal (lit "playlist journal refused the edit"))
                              (out_code out ≫= refused)), t')
                end
          end
    end.

(** [begin], [append_in], [commit]: an error rolls the transaction back. *)
Definition append (actor : str) (r : MembershipRequest) (idempotency_key : Z) (fresh : nat -> Z)
    (at_ : Z) : ST Tables AppError JournalOutcome := fun t =>
  match append_in actor r idempotency_key fresh at_ t with
  | (Ok out, t') => (Ok out, t')
  | (Err e, _) => (Err e, t)
  end.
End append.
