(* ===== verification/PlaylistReconcile.v ===== *)
(** * PlaylistReconcile: recording what SoundCloud shows of a playlist

    Source: [jobs/src/handlers/playlist_observe/repository.rs] with its queries
    under [jobs/queries/playlist_observe].  An observation is a run: [capture]
    notes the state it starts from, SoundCloud is read outside any transaction,
    and [persist_success] or [persist_failure] records the outcome if the state is
    still the captured one.  The tables are those of [PlaylistJournal]. *)

From Stdlib Require Import ZArith Lia String.
From stdpp Require Import base list numbers tactics sets gmap.
From S2P Require Import Prelude Text EntityRef AppError Sequences PlaylistEdit PlaylistReduce PlaylistJournal.
Local Open Scope Z_scope.

Definition OPERATION_MALFORMED : str := lit "operation_malformed".
Definition PARTIAL_OBSERVATION : str := lit "soundcloud_playlist_partial".
Definition i32_max : Z := 2147483647.

Record HydratedTrack := {
  ht_sc_track_id : str;
  ht_urn : str;
  ht_title : str;
  ht_sharing : str;
  ht_uploader : option str }.

Record PlaylistSnapshot := {
  snap_owner_id : str;
  snap_track_ids : list str;
  snap_hydrated : list HydratedTrack;
  snap_track_count : Z }.

Definition is_partial (s : PlaylistSnapshot) : bool :=
  (0 <=? snap_track_count s) && (Z.of_nat (length (snap_track_ids s)) <? snap_track_count s).

Inductive Authority := Owner | Public.

Definition authority_as_str (a : Authority) : str :=
  match a with Owner => lit "owner" | Public => lit "public" end.

Record ObservationCapture := {
  cap_run_id : Z;
  cap_job_id : Z;
  cap_job_generation : Z;
  cap_owner_id : str;
  cap_reconcile_generation : Z;
  cap_baseline_generation : Z;
  cap_through_operation_sequence : Z }.

Inductive PersistResult := Applied | Superseded | Finished | EmptyRead.

Record FailureObservation := {
  fail_outcome : str;
  fail_run_decision : str;
  fail_state_status : str;
  fail_conflict_code : option str;
  fail_retry_at : option Z;
  fail_error_kind : str }.

Inductive RepositoryError := MissingState | MissingOwner | InconsistentSnapshot | DatabaseError.

(** ** Decisions *)

Record ReconciliationDecision := {
  dec_run_decision : str;
  dec_state_status : str;
  dec_conflict_code : option str;
  dec_reason : option str;
  dec_replace_projection : bool }.

Record Reconciliation := {
  rec_run_decision : str;
  rec_state_status : str;
  rec_conflict_code : option str;
  rec_reason : option str;
  rec_projection : option (list str);
  rec_candidate_fingerprint : option bytes;
  rec_committed_through : Z;
  rec_operations : list ResolvedOperation }.

Definition decision (run status : str) (code reason : option str) (replace : bool) :=
  {| dec_run_decision := run; dec_state_status := status; dec_conflict_code := code;
     dec_reason := reason; dec_replace_projection := replace |}.

Definition reconciliation_decision (is_legacy pending_operations catalog_complete : bool)
    (relation : MembershipRelation) : ReconciliationDecision :=
  if negb catalog_complete then
    decision (lit "incomplete") (lit "conflict") (Some (lit "catalog_incomplete"))
      (Some (lit "not every observed track has a durable catalog row"))
      (negb is_legacy && negb pending_operations)
  else if pending_operations then
    decision (lit "shadow_ready") (lit "shadow_ready") None
      (Some (lit "local operations require a later reducer")) false
  else if negb is_legacy then decision (lit "clean") (lit "clean") None None true
  else match relation with
  | Equal => decision (lit "legacy_equal") (lit "clean") None None false
  | RemoteSuperset =>
      decision (lit "remote_superset") (lit "conflict") (Some (lit "legacy_remote_superset"))
        (Some (lit "the remote playlist safely extends the local legacy projection")) true
  | LocalSuperset =>
      decision (lit "local_superset") (lit "conflict") (Some (lit "legacy_local_superset"))
        (Some (lit "the local legacy projection contains tracks missing remotely")) false
  | OrderOnly =>
      decision (lit "order_only") (lit "conflict") (Some (lit "legacy_order_only"))
        (Some (lit "the local and remote playlist orders differ")) false
  | Diverged =>
      decision (lit "membership_diverged") (lit "conflict") (Some (lit "legacy_membership_diverged"))
        (Some (lit "the local and remote playlist memberships diverged")) false
  end.

Definition plain_reconciliation (d : ReconciliationDecision) (s : PlaylistSnapshot)
    (fingerprint : bytes) (committed_through : Z) : Reconciliation :=
  {| rec_run_decision := dec_run_decision d;
     rec_state_status := dec_state_status d;
     rec_conflict_code := dec_conflict_code d;
     rec_reason := dec_reason d;
     rec_projection := if dec_replace_projection d then Some (snap_track_ids s) else None;
     rec_candidate_fingerprint :=
       if bool_decide (dec_state_status d = lit "clean") then None else Some fingerprint;
     rec_committed_through := committed_through;
     rec_operations := [] |}.

Definition reduction_reason (state_status : str) (pending : Z) (remote_moved : MembershipRelation)
    (lost : bool) : option str :=
  if bool_decide (state_status = lit "clean") then None
  else
    let reason :=
      if bool_decide (state_status = lit "conflict") then
        lit "a local operation could not be replayed onto the fresh remote playlist; remote membership is "
        ++ relation_as_str remote_moved
      else
        to_string pending
        ++ lit " local operations rebased onto the fresh remote playlist; remote membership is "
        ++ relation_as_str remote_moved in
    Some (if lost then reason ++ lit "; an operation anchor was lost and its track kept a boundary position"
          else reason).

Section reconcile.
(** [sha2]; [ORDER BY] on text; whether a catalog row takes what was observed
    (the freshness test of [upsert_tracks.sql]). *)
Context (sha256 : bytes -> bytes) (collate : list str -> list str)
  (takes_observed : TrackRow -> HydratedTrack -> bool).

Definition reduced_reconciliation (r : Reduction) (malformed : list ResolvedOperation)
    (remote_moved : MembershipRelation) (candidate_complete : bool) (committed_through : Z)
  : Reconciliation :=
  let ops := sort_by (fun a b => resolved_sequence a <=? resolved_sequence b) (operations r ++ malformed) in
  let fp := membership_fingerprint sha256 (candidate r) in
  if negb candidate_complete then
    {| rec_run_decision := lit "incomplete"; rec_state_status := lit "conflict";
       rec_conflict_code := Some (lit "catalog_incomplete");
       rec_reason := Some (lit "the rebased playlist still contains a track without a durable catalog row");
       rec_projection := None; rec_candidate_fingerprint := Some fp;
       rec_committed_through := committed_through; rec_operations := [] |}
  else
    let '(run, status, code) :=
      match find_map (fun o => resolution_conflict_code (resolution o)) ops, outcome r with
      | Some code, _ => (lit "conflict", lit "conflict", Some code)
      | None, Converged => (lit "clean", lit "clean", None)
      | None, _ => (lit "shadow_ready", lit "shadow_ready", None)
      end in
    let pending := Z.of_nat (length (List.filter (fun o => bool_decide (resolution o = Pending)) ops)) in
    {| rec_run_decision := run; rec_state_status := status; rec_conflict_code := code;
       rec_reason := reduction_reason status pending remote_moved (anchors_lost r);
       rec_projection := Some (candidate r);
       rec_candidate_fingerprint := if bool_decide (status = lit "clean") then None else Some fp;
       rec_committed_through := committed_prefix ops committed_through;
       rec_operations := ops |}.

(** ** Reading and writing rows *)

Definition normalize_owner (value : str) : option str :=
  let value := default value (strip_prefix (lit "soundcloud:users:") value) in
  match parse_u64 value with
  | Some id => if (0 <? id) && bool_decide (to_string id = value) then Some value else None
  | None => None
  end.

Definition owner_of (p : PlaylistRow) : option str :=
  match pl_owner p with Some o => Some o | None => head (pl_owned_by p) end.

Definition pending_rows (through : Z) (j : list OperationRow) : list PendingOperationRow :=
  sort_by (fun a b => row_sequence a <=? row_sequence b)
    (map op_row (List.filter (fun r => negb (op_resolved r) && (row_sequence (op_row r) <=? through)) j)).

(** [resolve_operations.sql]: an operation already resolved keeps its outcome. *)
Definition resolve_row (resolved : list ResolvedOperation) (r : OperationRow) : OperationRow :=
  if op_resolved r then r
  else
    match find (fun o => is_terminal (resolution o) && (resolved_id o =? row_operation_id (op_row r))) resolved with
    | None => r
    | Some o =>
        {| op_row := op_row r; op_key := op_key r;
           op_outcome := resolution_outcome (resolution o);
           op_conflict_code := resolution_conflict_code (resolution o);
           op_resolved := true |}
    end.

Definition resolve_operations (resolved : list ResolvedOperation) (t : Tables) : Tables :=
  with_journal (map (resolve_row resolved) (journal t)) t.

Definition opt_min (o : option Z) (z : Z) : option Z :=
  match o with Some m => Some (Z.min m z) | None => Some z end.

(** [min(sequence)] of the operations without a resolution. *)
Definition first_pending (j : list OperationRow) : option Z :=
  foldl (fun m r => if op_resolved r then m else opt_min m (row_sequence (op_row r))) None j.

Definition is_some_b {A} (o : option A) : bool := match o with Some _ => true | None => false end.

(** [remote_apply_fingerprint IS DISTINCT FROM $11 AND remote_applied_at >= now - 1 hour]. *)
Definition apply_still_recent (s : MembershipState) (fp : bytes) (now : Z) : bool :=
  negb (bool_decide (remote_apply_fingerprint s = Some fp))
  && match remote_applied_at s with Some at_ => now - 3600 <=? at_ | None => false end.

Definition next_check_delay (s : MembershipState) (r : Reconciliation) (a : Authority) : Z :=
  if bool_decide (rec_state_status r = lit "clean") then
    match a with Public => 3600 | Owner => 300 end
  else if bool_decide (rec_conflict_code r = Some (lit "catalog_incomplete")) then
    Z.min (120 * 2 ^ Z.min (reconcile_failure_streak s) 7) 21600
  else if bool_decide (candidate_fingerprint s = rec_candidate_fingerprint r) then 21600
  else if bool_decide (rec_state_status r = lit "shadow_ready") then 3600
  else if bool_decide (rec_state_status r = lit "conflict") then 900
  else 60.

(** [complete_state.sql], for the row of the captured generation. *)
Definition complete_state (s : MembershipState) (j : list OperationRow) (r : Reconciliation)
    (observation : Z) (changed : bool) (count : Z) (fp : bytes) (a : Authority) (now : Z)
  : MembershipState :=
  let recent := apply_still_recent s fp now in
  {| baseline_generation := baseline_generation s + 1;
     baseline_observation_id := Some observation;
     latest_observation_id := Some observation;
     projection_revision := projection_revision s + (if changed then 1 else 0);
     projection_track_count := count;
     last_operation_sequence := last_operation_sequence s;
     committed_operation_sequence :=
       Z.max (Z.max (committed_operation_sequence s) (rec_committed_through r))
         (match first_pending j with Some m => m - 1 | None => last_operation_sequence s end);
     reconcile_generation := reconcile_generation s;
     sync_status := rec_state_status r;
     conflict_code := rec_conflict_code r;
     candidate_fingerprint := rec_candidate_fingerprint r;
     reconcile_failure_streak :=
       if bool_decide (rec_conflict_code r = Some (lit "catalog_incomplete"))
       then Z.min (reconcile_failure_streak s + 1) 12 else 0;
     next_reconcile_at := Some (now + next_check_delay s r a);
     last_error := rec_reason r;
     remote_apply_fingerprint := if recent then remote_apply_fingerprint s else None;
     remote_apply_generation := if recent then remote_apply_generation s else None;
     remote_applied_at := if recent then remote_applied_at s else None |}.

(** [complete_failure_state.sql]. *)
Definition complete_failure_state (s : MembershipState) (f : FailureObservation) (observation now : Z)
  : MembershipState :=
  {| baseline_generation := baseline_generation s;
     baseline_observation_id := baseline_observation_id s;
     latest_observation_id := Some observation;
     projection_revision := projection_revision s;
     projection_track_count := projection_track_count s;
     last_operation_sequence := last_operation_sequence s;
     committed_operation_sequence := committed_operation_sequence s;
     reconcile_generation := reconcile_generation s;
     sync_status := fail_state_status f;
     conflict_code := fail_conflict_code f;
     candidate_fingerprint := candidate_fingerprint s;
     reconcile_failure_streak := Z.min (reconcile_failure_streak s + 1) 12;
     next_reconcile_at :=
       let backoff := now + Z.min (120 * 2 ^ Z.min (reconcile_failure_streak s) 9) 86400 in
       Some (match fail_retry_at f with Some at_ => Z.max at_ backoff | None => backoff end);
     last_error := Some (fail_error_kind f);
     remote_apply_fingerprint := remote_apply_fingerprint s;
     remote_apply_generation := remote_apply_generation s;
     remote_applied_at := remote_applied_at s |}.

Definition set_run (f : RunRow -> RunRow) (id : Z) (t : Tables) : Tables :=
  with_runs (map (fun r => if run_id r =? id then f r else r) (runs t)) t.

Definition finish_run (decision : str) (observation : option Z) (fp : option bytes)
    (reason : option str) (r : RunRow) : RunRow :=
  {| run_id := run_id r; run_job_id := run_job_id r; run_job_generation := run_job_generation r;
     run_reconcile_generation := run_reconcile_generation r;
     captured_baseline_generation := captured_baseline_generation r;
     captured_through_operation_sequence := captured_through_operation_sequence r;
     run_observation_id := observation; run_candidate_fingerprint := fp;
     run_decision := decision; run_reason := reason |}.

(** [mark_run_superseded.sql]. *)
Definition mark_superseded (id : Z) (observation : option Z) (reason : str) (t : Tables) : Tables :=
  set_run (fun r =>
    if bool_decide (run_decision r = lit "started")
    then finish_run (lit "superseded")
           (match observation with Some o => Some o | None => run_observation_id r end)
           (run_candidate_fingerprint r) (Some reason) r
    else r) id t.

Definition started (id : Z) (t : Tables) : nat :=
  length (List.filter (fun r => (run_id r =? id) && bool_decide (run_decision r = lit "started")) (runs t)).

(** [complete_run.sql]. *)
Definition complete_run (id : Z) (observation : Z) (fp : option bytes) (decision : str)
    (reason : option str) (t : Tables) : Tables :=
  set_run (fun r =>
    if bool_decide (run_decision r = lit "started")
    then finish_run decision (Some observation) fp reason r else r) id t.

Definition insert_observation (o : ObservationRow) (t : Tables) : Tables :=
  with_observations (observations t ++ [o]) t.

Definition find_snapshot (fp : bytes) (t : Tables) : option (list str) :=
  snd <$> find (fun e => bool_decide (e.1 = fp)) (snapshots t).

(** [store_snapshot]: the tracks of a known fingerprint must be the same ones. *)
Definition store_snapshot (ids : list str) (fp : bytes) : ST Tables RepositoryError unit := fun t =>
  if i32_max <? Z.of_nat (length ids) then (Err InconsistentSnapshot, t)
  else
    let known := find_snapshot fp t in
    let stored := default [] known in
    let stored' := stored ++ drop (length stored) ids in
    if negb (members_unique stored') then (Err DatabaseError, t)
    else
      let t' := match known with
                | None => with_snapshots (snapshots t ++ [(fp, stored')]) t
                | Some _ =>
                    with_snapshots
                      (map (fun e => if bool_decide (e.1 = fp) then (fp, stored') else e) (snapshots t)) t
                end in
      if bool_decide (stored' = ids) then (Ok tt, t') else (Err InconsistentSnapshot, t').

(** [load_baseline_tracks.sql]. *)
Definition baseline_tracks (s : MembershipState) (t : Tables) : list str :=
  default [] (o ← baseline_observation_id s;
              row ← find (fun r => obs_id r =? o) (observations t);
              fp ← obs_snapshot row;
              find_snapshot fp t).

Definition known_track (t : Tables) (id : str) : bool :=
  any (fun r => bool_decide (tr_id r = id)) (tracks t).

(** [schedule_missing_tracks]: whether every track has a catalog row; a refresh
    is queued for the first 200 that have none (in id order). *)
Definition schedule_missing_tracks (ids : list str) : ST Tables RepositoryError bool :=
  fun t =>
    let missing := take 200 (collate (List.filter (fun id => negb (known_track t id)) ids)) in
    match ids, missing with
    | [], _ | _, [] => (Ok true, t)
    | _, _ => (Ok false, with_refresh_jobs (refresh_jobs t ++ dedup_seen (refresh_jobs t) missing) t)
    end.

Definition hydration_matches_snapshot (s : PlaylistSnapshot) : bool :=
  let hydrated := map ht_sc_track_id (snap_hydrated s) in
  bool_decide (NoDup hydrated)
  && forallb (mem (snap_track_ids s)) hydrated
  && forallb (fun h => bool_decide (ht_urn h = lit "soundcloud:tracks:" ++ ht_sc_track_id h)
                       && negb (bool_decide (trim (ht_title h) = []))) (snap_hydrated s).

(** [upsert_tracks.sql]: a row for every hydrated track. *)
Definition upsert_track (rows : list TrackRow) (h : HydratedTrack) : list TrackRow :=
  let row := {| tr_id := ht_sc_track_id h; tr_deleted := false;
                tr_public := bool_decide (ht_sharing h = lit "public"); tr_uploader := ht_uploader h |} in
  if any (fun r => bool_decide (tr_id r = ht_sc_track_id h)) rows then
    map (fun r => if bool_decide (tr_id r = ht_sc_track_id h) && negb (tr_deleted r) && takes_observed r h
                  then {| tr_id := tr_id r; tr_deleted := false; tr_public := tr_public row;
                          tr_uploader := match ht_uploader h with Some u => Some u | None => tr_uploader r end |}
                  else r) rows
  else rows ++ [row].

Definition hydrate_catalog (s : PlaylistSnapshot) : ST Tables RepositoryError bool := fun t =>
  let t := with_tracks (foldl upsert_track (tracks t) (snap_hydrated s)) t in
  schedule_missing_tracks (snap_track_ids s) t.

(** [remote_lacks_local_tracks.sql]. *)
Definition remote_lacks_local_tracks (local remote : list str) (owner : str) (t : Tables) : bool :=
  any (fun id =>
    any (fun r => bool_decide (tr_id r = id) && negb (mem remote id) && negb (tr_deleted r)
                  && (tr_public r || bool_decide (tr_uploader r = Some owner))) (tracks t)) local.

(** ** Starting a run *)

Definition required_owner (o : option str) : result str RepositoryError :=
  match o ≫= normalize_owner with Some owner => Ok owner | None => Err MissingOwner end.

Definition restart_run (baseline through : Z) (r : RunRow) : RunRow :=
  {| run_id := run_id r; run_job_id := run_job_id r; run_job_generation := run_job_generation r;
     run_reconcile_generation := run_reconcile_generation r;
     captured_baseline_generation := baseline; captured_through_operation_sequence := through;
     run_observation_id := None; run_candidate_fingerprint := None;
     run_decision := lit "started"; run_reason := None |}.

Definition restartable (decision : str) : bool :=
  bool_decide (decision ∈ [lit "started"; lit "auth_required"; lit "retry_wait"; lit "incomplete"]).

Definition advance_generation (s : MembershipState) (rs : list RunRow) : Z :=
  foldl (fun g r => Z.max g (run_reconcile_generation r)) (Z.max (reconcile_generation s) 0) rs + 1.

Definition with_generation (g : Z) (s : MembershipState) : MembershipState :=
  {| baseline_generation := baseline_generation s;
     baseline_observation_id := baseline_observation_id s;
     latest_observation_id := latest_observation_id s;
     projection_revision := projection_revision s;
     projection_track_count := projection_track_count s;
     last_operation_sequence := last_operation_sequence s;
     committed_operation_sequence := committed_operation_sequence s;
     reconcile_generation := g;
     sync_status := sync_status s; conflict_code := conflict_code s;
     candidate_fingerprint := candidate_fingerprint s;
     reconcile_failure_streak := reconcile_failure_streak s;
     next_reconcile_at := next_reconcile_at s; last_error := last_error s;
     remote_apply_fingerprint := remote_apply_fingerprint s;
     remote_apply_generation := remote_apply_generation s;
     remote_applied_at := remote_applied_at s |}.

Definition capture_of (run job job_generation : Z) (owner : str) (g : Z) (s : MembershipState)
  : ObservationCapture :=
  {| cap_run_id := run; cap_job_id := job; cap_job_generation := job_generation;
     cap_owner_id := owner; cap_reconcile_generation := g;
     cap_baseline_generation := baseline_generation s;
     cap_through_operation_sequence := last_operation_sequence s |}.

Definition new_run (id job job_generation : Z) (g : Z) (s : MembershipState) : RunRow :=
  {| run_id := id; run_job_id := job; run_job_generation := job_generation;
     run_reconcile_generation := g; captured_baseline_generation := baseline_generation s;
     captured_through_operation_sequence := last_operation_sequence s;
     run_observation_id := None; run_candidate_fingerprint := None;
     run_decision := lit "started"; run_reason := None |}.

(** [capture]; [None] is [CaptureResult::Finished]. *)
Definition capture_in (fresh_run job job_generation : Z)
  : ST Tables RepositoryError (option ObservationCapture) := fun t =>
  match playlist t with
  | Some p =>
      if pl_deleted p then (Ok None, t)
      else
        match membership t,
              find (fun r => (run_job_id r =? job) && (run_job_generation r =? job_generation)) (runs t) with
        | None, _ => (Err MissingState, t)
        | Some s, Some run =>
            if negb (reconcile_generation s =? run_reconcile_generation run) then
              (Ok None, mark_superseded (run_id run) None
                          (lit "a newer playlist observation replaced this run") t)
            else if negb (restartable (run_decision run)) then (Ok None, t)
            else
              let t' := set_run (restart_run (baseline_generation s) (last_operation_sequence s)) (run_id run) t in
              match required_owner (owner_of p) with
              | Err e => (Err e, t')
              | Ok owner =>
                  (Ok (Some (capture_of (run_id run) job job_generation owner
                               (run_reconcile_generation run) s)), t')
              end
        | Some s, None =>
            let g := advance_generation s (runs t) in
            let s' := with_generation g s in
            let t' := with_runs (runs t ++ [new_run fresh_run job job_generation g s'])
                        (with_membership (Some s') t) in
            match required_owner (owner_of p) with
            | Err e => (Err e, t')
            | Ok owner => (Ok (Some (capture_of fresh_run job job_generation owner g s')), t')
            end
        end
  | None => (Err MissingState, t)
  end.

Definition transaction {A} (m : ST Tables RepositoryError A) : ST Tables RepositoryError A := fun t =>
  match m t with (Ok a, t') => (Ok a, t') | (Err e, _) => (Err e, t) end.

Definition capture fresh_run job job_generation := transaction (capture_in fresh_run job job_generation).

(** ** Finishing a run *)

Record LockedRun := {
  lk_decision : str;
  lk_run : RunRow;
  lk_state : MembershipState;
  lk_owner : option str }.

(** [lock_run_for_persist.sql]. *)
Definition lock_run (c : ObservationCapture) (t : Tables) : result LockedRun RepositoryError :=
  match playlist t, membership t,
        find (fun r => (run_id r =? cap_run_id c) && (run_job_id r =? cap_job_id c)
                       && (run_job_generation r =? cap_job_generation c)) (runs t) with
  | Some p, Some s, Some r =>
      Ok {| lk_decision := if pl_deleted p then lit "deleted" else run_decision r;
            lk_run := r; lk_state := s; lk_owner := owner_of p |}
  | _, _, _ => Err MissingState
  end.

Definition fence_matches (l : LockedRun) (c : ObservationCapture) : bool :=
  (run_reconcile_generation (lk_run l) =? cap_reconcile_generation c)
  && (reconcile_generation (lk_state l) =? cap_reconcile_generation c)
  && (captured_baseline_generation (lk_run l) =? cap_baseline_generation c)
  && (baseline_generation (lk_state l) =? cap_baseline_generation c)
  && (captured_through_operation_sequence (lk_run l) =? cap_through_operation_sequence c)
  && (last_operation_sequence (lk_state l) =? cap_through_operation_sequence c)
  && bool_decide ((lk_owner l ≫= normalize_owner) = Some (cap_owner_id c)).

Definition resolved_malformed (r : PendingOperationRow) : ResolvedOperation :=
  {| resolved_id := row_operation_id r; resolved_sequence := row_sequence r;
     resolution := Conflicting OPERATION_MALFORMED |}.

(** The rows that can be replayed, and those that cannot. *)
Definition readable_operations (rows : list PendingOperationRow) : list JournalOperation :=
  omap (fun r => (fun i => {| operation_id := row_operation_id r; sequence := row_sequence r; intent := i |})
                 <$> row_intent r) rows.

Definition malformed_operations (rows : list PendingOperationRow) : list ResolvedOperation :=
  omap (fun r => match row_intent r with Some _ => None | None => Some (resolved_malformed r) end) rows.

Definition reduce_pending_operations (c : ObservationCapture) (l : LockedRun) (s : PlaylistSnapshot)
  : ST Tables RepositoryError Reconciliation := fun t =>
  let rows := pending_rows (cap_through_operation_sequence c) (journal t) in
  let committed := committed_operation_sequence (lk_state l) in
  let reduction := reduce (snap_track_ids s) (readable_operations rows) committed in
  let remote_moved := membership_relation (baseline_tracks (lk_state l) t) (snap_track_ids s) in
  let finish complete t :=
    (Ok (reduced_reconciliation reduction (malformed_operations rows) remote_moved complete committed), t) in
  if bool_decide (candidate reduction = snap_track_ids s) then finish true t
  else match schedule_missing_tracks (candidate reduction) t with
       | (Ok complete, t') => finish complete t'
       | (Err e, t') => (Err e, t')
       end.

Definition adopt_local_over_legacy (c : ObservationCapture) (l : LockedRun) (local : list str)
    (s : PlaylistSnapshot) : ST Tables RepositoryError Reconciliation := fun t =>
  let pending := pending_rows (cap_through_operation_sequence c) (journal t) in
  let removed := omap row_track_id (List.filter (fun r => bool_decide (row_kind r = lit "remove")) pending) in
  let settled := local ++ removed in
  let cand := local ++ List.filter (fun id => negb (mem settled id)) (snap_track_ids s) in
  let fp := membership_fingerprint sha256 cand in
  let committed := committed_operation_sequence (lk_state l) in
  match schedule_missing_tracks cand t with
  | (Err e, t') => (Err e, t')
  | (Ok false, t') =>
      (Ok {| rec_run_decision := lit "incomplete"; rec_state_status := lit "conflict";
             rec_conflict_code := Some (lit "catalog_incomplete");
             rec_reason := Some (lit "the local playlist still contains a track without a durable catalog row");
             rec_projection := None; rec_candidate_fingerprint := Some fp;
             rec_committed_through := committed; rec_operations := [] |}, t')
  | (Ok true, t') =>
      let lacks := remote_lacks_local_tracks local (snap_track_ids s) (cap_owner_id c) t' in
      let reason :=
        if lacks
        then lit "the edited local playlist is kept over its legacy intents until SoundCloud has its tracks"
        else lit "the edited local playlist replaced its unresolved legacy intents" in
      (Ok {| rec_run_decision := lit "shadow_ready"; rec_state_status := lit "shadow_ready";
             rec_conflict_code := None; rec_reason := Some reason;
             rec_projection := Some cand; rec_candidate_fingerprint := Some fp;
             rec_committed_through := committed; rec_operations := [] |},
       if lacks then t' else with_legacy_intents false t')
  end.

(** [enqueue_membership_apply.sql] and its local variant share the upsert. *)
Definition upsert_apply (owner : str) (tracks : list str) (fp : bytes) (g : Z)
    (replace : ApplyRow -> bool) (q : list ApplyRow) : list ApplyRow :=
  let row gen := {| ap_user := owner; ap_tracks := tracks; ap_fingerprint := fp;
                    ap_reconcile_generation := g; ap_generation := gen; ap_dead := false |} in
  if any (fun a => bool_decide (ap_user a = owner)) q then
    map (fun a => if bool_decide (ap_user a = owner) && replace a then row (ap_generation a + 1) else a) q
  else q ++ [row 1].

Context (membership_remote_apply : bool).

Definition enqueue_membership_apply (c : ObservationCapture) (r : Reconciliation) (t : Tables) : Tables :=
  if negb membership_remote_apply || negb (bool_decide (rec_state_status r = lit "shadow_ready")) then t
  else match rec_projection r, rec_candidate_fingerprint r, membership t with
       | Some cand, Some fp, Some s =>
           if bool_decide (sync_status s = lit "shadow_ready")
              && (reconcile_generation s =? cap_reconcile_generation c)
              && negb (bool_decide (remote_apply_fingerprint s = Some fp))
           then with_apply_queue
                  (upsert_apply (cap_owner_id c) cand fp (cap_reconcile_generation c) (fun _ => true)
                     (apply_queue t)) t
           else t
       | _, _, _ => t
       end.

Definition enqueue_local_membership_apply (c : ObservationCapture) (t : Tables) : Tables :=
  if negb membership_remote_apply then t
  else match membership t with
       | None => t
       | Some s =>
           let local := projection t in
           let fp := membership_fingerprint sha256 local in
           if (reconcile_generation s =? cap_reconcile_generation c)
              && (0 <? baseline_generation s)
              && (committed_operation_sequence s <? last_operation_sequence s)
              && negb (bool_decide (remote_apply_fingerprint s = Some fp))
              && negb (legacy_intents t)
           then with_apply_queue
                  (upsert_apply (cap_owner_id c) local fp (cap_reconcile_generation c)
                     (fun a => ap_dead a || negb (bool_decide (ap_fingerprint a = fp)))
                     (apply_queue t)) t
           else t
       end.

(** What a successful observation makes of the state: the middle of
    [persist_success], once the fence has held. *)
Definition reconcile (c : ObservationCapture) (l : LockedRun) (s : PlaylistSnapshot) (fp : bytes)
    (local : list str) : ST Tables RepositoryError Reconciliation := fun t =>
  match hydrate_catalog s t with
  | (Err e, t') => (Err e, t')
  | (Ok catalog_complete, t') =>
      let legacy := legacy_intents t' in
      let relation := membership_relation local (snap_track_ids s) in
      let pending := committed_operation_sequence (lk_state l) <? last_operation_sequence (lk_state l) in
      match (if legacy then store_snapshot local (membership_fingerprint sha256 local) t' else (Ok tt, t')) with
      | (Err e, t') => (Err e, t')
      | (Ok _, t') =>
          if pending && catalog_complete && legacy then adopt_local_over_legacy c l local s t'
          else if pending && catalog_complete then reduce_pending_operations c l s t'
          else (Ok (plain_reconciliation
                      (reconciliation_decision legacy pending catalog_complete relation) s fp
                      (committed_operation_sequence (lk_state l))), t')
      end
  end.

(** The end of [persist_success]: the projection, the operations, the state, the
    queue and the run. *)
Definition record_reconciliation (c : ObservationCapture) (l : LockedRun) (s : PlaylistSnapshot)
    (a : Authority) (fp : bytes) (observation now : Z) (local : list str) (r : Reconciliation)
  : ST Tables RepositoryError PersistResult := fun t =>
  let target := default local (rec_projection r) in
  let changed := match rec_projection r with Some p => negb (bool_decide (p = local)) | None => false end in
  if changed && negb (members_unique target) then (Err DatabaseError, t)
  else if i32_max <? Z.of_nat (length target) then (Err InconsistentSnapshot, t)
  else
    let t := if changed then with_projection target t else t in
    let t := resolve_operations (rec_operations r) t in
    match membership t with
    | Some st =>
        if negb (reconcile_generation st =? cap_reconcile_generation c) then (Err InconsistentSnapshot, t)
        else
          let t := with_membership (Some (complete_state st (journal t) r observation changed
                                            (Z.of_nat (length target)) fp a now)) t in
          let t := match a with
                   | Owner => if is_partial s then t else enqueue_membership_apply c r t
                   | Public => t
                   end in
          if negb (started (cap_run_id c) t =? 1)%nat then (Err InconsistentSnapshot, t)
          else (Ok Applied, complete_run (cap_run_id c) observation (Some fp) (rec_run_decision r)
                              (rec_reason r) t)
    | None => (Err InconsistentSnapshot, t)
    end.

Definition persist_success_in (c : ObservationCapture) (s : PlaylistSnapshot) (a : Authority)
    (fresh_observation now : Z) : ST Tables RepositoryError PersistResult := fun t =>
  if negb (bool_decide (snap_owner_id s = cap_owner_id c))
     || negb ((0 <=? snap_track_count s) && (Z.of_nat (length (snap_track_ids s)) <=? snap_track_count s))
     || negb (hydration_matches_snapshot s)
     || (i32_max <? Z.of_nat (length (snap_track_ids s)))
  then (Err InconsistentSnapshot, t)
  else
    match lock_run c t with
    | Err e => (Err e, t)
    | Ok l =>
        if negb (bool_decide (lk_decision l = lit "started")) then (Ok Finished, t)
        else
          let local := projection t in
          if bool_decide (snap_track_ids s = []) && is_partial s && negb (bool_decide (local = []))
          then (Ok EmptyRead, t)
          else
            let fp := membership_fingerprint sha256 (snap_track_ids s) in
            match store_snapshot (snap_track_ids s) fp t with
            | (Err e, t') => (Err e, t')
            | (Ok _, t') =>
                let t' := insert_observation
                  {| obs_id := fresh_observation; obs_snapshot := Some fp;
                     obs_authority := authority_as_str a;
                     obs_outcome := if is_partial s then lit "incomplete" else lit "complete";
                     obs_error_kind := if is_partial s then Some PARTIAL_OBSERVATION else None |} t' in
                if negb (fence_matches l c) then
                  (Ok Superseded,
                   mark_superseded (cap_run_id c) (Some fresh_observation)
                     (lit "playlist state changed while SoundCloud was being observed") t')
                else
                  match reconcile c l s fp local t' with
                  | (Err e, t') => (Err e, t')
                  | (Ok r, t') => record_reconciliation c l s a fp fresh_observation now local r t'
                  end
            end
    end.

Definition persist_success c s a fresh_observation now :=
  transaction (persist_success_in c s a fresh_observation now).

Definition persist_failure_in (c : ObservationCapture) (f : FailureObservation)
    (fresh_observation now : Z) : ST Tables RepositoryError PersistResult := fun t =>
  match lock_run c t with
  | Err e => (Err e, t)
  | Ok l =>
      if negb (bool_decide (lk_decision l = lit "started")) then (Ok Finished, t)
      else
        let t := insert_observation
          {| obs_id := fresh_observation; obs_snapshot := None; obs_authority := lit "owner";
             obs_outcome := fail_outcome f; obs_error_kind := Some (fail_error_kind f) |} t in
        if negb (fence_matches l c) then
          (Ok Superseded, mark_superseded (cap_run_id c) (Some fresh_observation)
             (lit "playlist state changed while SoundCloud was being observed") t)
        else
          match membership t with
          | Some s =>
              if negb (reconcile_generation s =? cap_reconcile_generation c) then (Err InconsistentSnapshot, t)
              else
                let t := with_membership (Some (complete_failure_state s f fresh_observation now)) t in
                let t := if bool_decide (fail_state_status f = lit "retry_wait")
                         then enqueue_local_membership_apply c t else t in
                if negb (started (cap_run_id c) t =? 1)%nat then (Err InconsistentSnapshot, t)
                else (Ok Applied, complete_run (cap_run_id c) fresh_observation None (fail_run_decision f)
                                    (Some (fail_error_kind f)) t)
          | None => (Err InconsistentSnapshot, t)
          end
  end.

Definition persist_failure c f fresh_observation now :=
  transaction (persist_failure_in c f fresh_observation now).
End reconcile.
