(* ===== verification/PlaylistJournalFacts.v ===== *)
(** * PlaylistJournalFacts: appending edits, and the invariant of a playlist's tables *)

From Stdlib Require Import ZArith Lia String.
From stdpp Require Import base list numbers tactics sets gmap sorting.
From S2P Require Import Prelude Text EntityRef AppError Sequences PlaylistEdit PlaylistEditFacts PlaylistReduce PlaylistReduceFacts PlaylistJournal PlaylistReconcile.
Local Open Scope Z_scope.

(** ** The invariant *)

Definition seq_of (r : OperationRow) : Z := row_sequence (op_row r).
Definition id_of (r : OperationRow) : Z := row_operation_id (op_row r).

(** The constraints [.._resolution_complete], [.._conflict_complete], and that
    the operation can be replayed. *)
Definition row_ok (r : OperationRow) : Prop :=
  (exists i, row_intent (op_row r) = Some i /\ anchors_distinct i)
  /\ (op_resolved r = false <-> op_outcome r = lit "pending")
  /\ (op_outcome r = lit "conflict" <-> is_Some (op_conflict_code r)).

(** [playlist_membership_state_status_valid]. *)
Definition STATUSES : list str :=
  map lit ["unhydrated"; "legacy_review"; "clean"; "pending"; "shadow_ready"; "conflict";
           "auth_required"; "retry_wait"]%string.

(** [.._status_valid] and [.._conflict_complete]. *)
Definition status_ok (status : str) (code : option str) : Prop :=
  status ∈ STATUSES /\ (status = lit "conflict" <-> is_Some code).

Record journal_ok (j : list OperationRow) (last committed : Z) : Prop := {
  jo_sorted : StronglySorted Z.lt (map seq_of j);
  jo_ids : NoDup (map id_of j);
  jo_keys : NoDup (map op_key j);
  jo_rows : Forall row_ok j;
  jo_range : Forall (fun r => 1 <= seq_of r <= last) j;
  jo_pending : Forall (fun r => op_resolved r = false -> committed < seq_of r) j }.

Record state_ok (s : MembershipState) (t : Tables) : Prop := {
  so_watermark : 0 <= committed_operation_sequence s <= last_operation_sequence s;
  so_status : status_ok (sync_status s) (conflict_code s);
  so_count : projection_track_count s = Z.of_nat (length (projection t));
  so_journal : journal_ok (journal t) (last_operation_sequence s) (committed_operation_sequence s) }.

Record tables_ok (t : Tables) : Prop := {
  to_projection : NoDup (projection t);
  to_state : match membership t with Some s => state_ok s t | None => journal t = [] end }.

(** ** Writing the projection *)

Lemma write_projection_new old new : write_projection old new = new.
Proof.
  unfold write_projection. case_bool_decide; [done|].
  destruct ((length old <? length new)%nat && bool_decide (take (length old) new = old)) eqn:E.
  - apply andb_true_iff in E as [_ E]. apply bool_decide_eq_true in E.
    rewrite <- E at 1. apply take_drop.
  - destruct ((length new <? length old)%nat && _) eqn:E'; [|done].
    apply andb_true_iff in E' as [_ E']. apply bool_decide_eq_true in E'.
    transitivity (List.filter (mem new) old); [|done]. apply (retain_ext _ (mem new)). intros x Hx.
    set (d := List.filter (fun m => negb (mem new m)) old).
    destruct (mem new x) eqn:Em.
    + apply negb_true_iff, mem_false. unfold d. fold (retain (fun m => negb (mem new m)) old).
      rewrite retain_In, Em. naive_solver.
    + apply negb_false_iff, mem_true. unfold d. fold (retain (fun m => negb (mem new m)) old).
      rewrite retain_In, Em. done.
Qed.

(** ** The rows of an edit *)

Lemma foldl_max_bound {A} (f : A -> Z) l w b :
  w <= b -> Forall (fun a => f a <= b) l -> foldl (fun w a => Z.max w (f a)) w l <= b.
Proof. intros Hw Hl. revert w Hw. induction Hl; intros w Hw; simpl; [done|]. apply IHHl. lia. Qed.

Lemma base_is_last s j :
  0 <= last_operation_sequence s -> Forall (fun r => 1 <= seq_of r <= last_operation_sequence s) j ->
  foldl (fun b r => Z.max b (row_sequence (op_row r))) (Z.max (last_operation_sequence s) 0) j
  = last_operation_sequence s.
Proof.
  intros Hl Hj. apply Z.le_antisymm.
  - apply (foldl_max_bound (fun r => row_sequence (op_row r))); [lia|]. eapply Forall_impl; [exact Hj|].
    unfold seq_of. simpl. lia.
  - etransitivity; [|apply (foldl_max_ge (fun r => row_sequence (op_row r)))]. lia.
Qed.

Section entries.
Context (sha256 : bytes -> bytes) (hex_encode : bytes -> str) (new_v5 : Z -> bytes -> Z).
Context (fresh : nat -> Z) (key : Z).

Abbreviation entry := (journal_entry sha256 hex_encode new_v5 fresh key).

Lemma entry_row seq i o : row_of_operation seq (entry i o) = stored_row (fresh i) seq o.
Proof. reflexivity. Qed.

Lemma entries_seqs base refusal ops :
  map seq_of (insert_operations base refusal (imap entry ops)) = map (fun i => base + Z.of_nat (S i)) (seq 0 (length ops)).
Proof.
  unfold insert_operations. apply list_eq. intros i.
  rewrite !list_lookup_fmap, !list_lookup_imap.
  destruct (decide (i < length ops)%nat) as [H|H].
  - destruct (lookup_lt_is_Some_2 ops i H) as [o Ho]. rewrite Ho. simpl.
    rewrite lookup_seq_lt by done. done.
  - rewrite lookup_ge_None_2 by lia. simpl. rewrite lookup_seq_ge by lia. done.
Qed.

Lemma entries_rows base ops :
  Forall (fun o => readable o /\ anchors_distinct (intent_of o)) ops ->
  Forall row_ok (insert_operations base None (imap entry ops)).
Proof.
  intros H. apply Forall_forall. intros r (i & Hi)%list_elem_of_lookup. unfold insert_operations in Hi.
  rewrite list_lookup_imap_Some in Hi. destruct Hi as (m & Hm & ->).
  rewrite list_lookup_imap_Some in Hm. destruct Hm as (o & Ho & ->).
  rewrite Forall_lookup in H. destruct (H i o Ho) as [Hr Hd]. unfold row_ok. cbn.
  split; [|split; [done|split; [intros E; by vm_compute in E|by intros [? ?]]]].
  exists (intent_of o). split; [|done]. rewrite entry_row. by apply row_roundtrip.
Qed.

Lemma entries_unresolved base ops r :
  r ∈ insert_operations base None (imap entry ops) -> op_resolved r = false.
Proof.
  intros (i & Hi)%list_elem_of_lookup. unfold insert_operations in Hi.
  rewrite list_lookup_imap_Some in Hi. by destruct Hi as (m & Hm & ->).
Qed.
End entries.

Lemma StronglySorted_app_lt (l1 l2 : list Z) :
  StronglySorted Z.lt l1 -> StronglySorted Z.lt l2 ->
  (forall x y, x ∈ l1 -> y ∈ l2 -> x < y) -> StronglySorted Z.lt (l1 ++ l2).
Proof.
  intros H1 H2 H. induction H1 as [|x l Hs IH Hx]; simpl; [done|]. constructor.
  - apply IH. intros. apply H; [set_solver|done].
  - apply Forall_app. split; [done|]. apply Forall_forall. intros y Hy. apply H; [set_solver|done].
Qed.

Lemma seq_sorted base n k : StronglySorted Z.lt (map (fun i => base + Z.of_nat (S i)) (seq k n)).
Proof.
  revert k. induction n as [|n IH]; intros k; simpl; constructor; [apply IH|].
  apply Forall_forall. intros y Hy. apply list_elem_of_In, in_map_iff in Hy as (j & <- & Hj).
  apply in_seq in Hj. lia.
Qed.

Lemma insert_operations_ids base refusal ops :
  map id_of (insert_operations base refusal ops) = map mo_operation_id ops.
Proof.
  apply list_eq. intros i. unfold insert_operations.
  rewrite !list_lookup_fmap, list_lookup_imap. by destruct (ops !! i).
Qed.

Lemma insert_operations_keys base refusal ops :
  map op_key (insert_operations base refusal ops) = map mo_idempotency_key ops.
Proof.
  apply list_eq. intros i. unfold insert_operations.
  rewrite !list_lookup_fmap, list_lookup_imap. by destruct (ops !! i).
Qed.

(** ** Appending *)

Definition state_for (t : Tables) (at_ : Z) : MembershipState :=
  match membership t with Some s => s | None => fresh_membership t at_ end.

(** A replacement without a revision only reorders and adds. *)
Definition effective_edit (r : MembershipRequest) : TrackEdit :=
  match edit r with
  | EditReplace ids =>
      match expected_projection_revision r with None => EditOrder ids | Some _ => EditReplace ids end
  | e => e
  end.

Lemma effective_edit_submitted r : submitted_track_ids (effective_edit r) = submitted_track_ids (edit r).
Proof. unfold effective_edit. destruct (edit r); try done. by destruct (expected_projection_revision r). Qed.

Lemma ensure_membership_some t at_ actor vs :
  owned_by actor vs t = true -> ensure_membership t at_ = with_membership (Some (state_for t at_)) t.
Proof.
  unfold owned_by, ensure_membership, state_for. destruct (playlist t) as [p|] eqn:Ep; [|done].
  intros H. apply andb_prop in H as [H _]. apply negb_true_iff in H.
  destruct (membership t) as [s|] eqn:Em; [by destruct t; simpl in *; subst|]. by rewrite H.
Qed.

Section appending.
Context (sha256 : bytes -> bytes) (hex_encode : bytes -> str) (new_v5 : Z -> bytes -> Z).

Abbreviation append' := (append sha256 hex_encode new_v5).
Abbreviation entry fresh key := (journal_entry sha256 hex_encode new_v5 fresh key).

(** What an append that wrote anything wrote. *)
Record appended_edit (r : MembershipRequest) (key : Z) (fresh : nat -> Z) (at_ : Z)
    (t t' : Tables) (ops : list Operation) (out : JournalOutcome) : Prop := {
  ae_ops : derive (effective_edit r) (projection t) = Ok ops;
  ae_some : ops <> [];
  ae_revision : match expected_projection_revision r with
                | Some e => match membership t with Some s => e = projection_revision s | None => e = 0 end
                | None => True end;
  ae_new : Forall (fun row => op_key row <> operation_key new_v5 key 0) (journal t);
  ae_projection : projection t' = apply_all ops (projection t);
  ae_keys : keys_free (imap (entry fresh key) ops) (journal t) = true;
  ae_journal : journal t' = journal t ++
    insert_operations (last_operation_sequence (state_for t at_)) None (imap (entry fresh key) ops);
  ae_state : membership t' = Some (accepted_state (state_for t at_)
    (last_operation_sequence (state_for t at_)) (Z.of_nat (length ops)) None (projection t') at_);
  ae_runs : runs t' = runs t;
  ae_playlist : playlist t' = playlist t;
  ae_out : out = {| appended := Z.of_nat (length ops);
                    jo_projection_revision := projection_revision (state_for t at_) + Z.of_nat (length ops) |} }.

Lemma state_for_ok t at_ :
  tables_ok t -> let s := state_for t at_ in
  0 <= committed_operation_sequence s <= last_operation_sequence s
  /\ status_ok (sync_status s) (conflict_code s)
  /\ journal_ok (journal t) (last_operation_sequence s) (committed_operation_sequence s).
Proof.
  intros [_ Hs]. unfold state_for. destruct (membership t) as [s|].
  - by destruct Hs as [? ? ? ?].
  - simpl. rewrite Hs. split_and!; try lia.
    + split; [apply (bool_decide_unpack _); vm_compute; exact I|]. split; [intros E; by vm_compute in E|by intros [? ?]].
    + constructor; simpl; constructor.
Qed.

(** The database function, called with the rows of a derived edit. *)
Lemma membership_op_applies (c : MembershipOp) (t : Tables) ops fresh key :
  tables_ok t -> owned_by (cmd_actor c) (cmd_variants c) t = true ->
  cmd_operations c = imap (entry fresh key) ops -> ops <> [] ->
  Forall (fun row => op_key row <> operation_key new_v5 key 0) (journal t) ->
  clean_run ops (projection t) ->
  Forall (fun o => readable o /\ anchors_distinct (intent_of o)) ops ->
  match membership_op c t with
  | (Ok out, t') =>
      (out_status out = lit "refused")
      \/ (out_status out = lit "applied" /\ out_appended out = Z.of_nat (length ops)
          /\ out_projection_revision out = projection_revision (state_for t (cmd_at c)) + Z.of_nat (length ops)
          /\ refusal_of c (state_for t (cmd_at c)) (ensure_membership t (cmd_at c)) = None
          /\ keys_free (cmd_operations c) (journal t) = true
          /\ t' = with_projection (apply_all ops (projection t))
                    (with_journal (journal t ++ insert_operations (last_operation_sequence (state_for t (cmd_at c)))
                                      None (cmd_operations c))
                       (with_membership (Some (accepted_state (state_for t (cmd_at c))
                          (last_operation_sequence (state_for t (cmd_at c))) (Z.of_nat (length ops)) None
                          (apply_all ops (projection t)) (cmd_at c))) t)))
  | (Err _, _) => True
  end.
Proof.
  intros Ht Hown Hops Hne Hnew Hrun Hwf. destruct (state_for_ok t (cmd_at c) Ht) as ([Hc Hl] & _ & Hj).
  unfold membership_op. rewrite (ensure_membership_some _ _ _ _ Hown).
  set (s := state_for t (cmd_at c)) in *. cbn [with_membership membership journal projection].
  destruct (cmd_operations c) as [|first rest] eqn:Ec.
  { destruct ops; [done|]. cbn in Hops. discriminate. }
  assert (mo_idempotency_key first = operation_key new_v5 key 0) as Hkey.
  { destruct ops as [|o ops]; [done|]. cbn in Hops. injection Hops as -> _. done. }
  rewrite Hkey. destruct (find _ (journal t)) as [row|] eqn:Ef.
  { apply find_Some in Ef as [Hin E]. apply bool_decide_eq_true in E. rewrite Forall_forall in Hnew. by apply Hnew in Hin. }
  rewrite base_is_last by (lia || apply (jo_range _ _ _ Hj)). rewrite Hops.
  destruct (keys_free _ _) eqn:Ek; [|done]. cbn [negb].
  assert (length (imap (entry fresh key) ops) = length ops) as -> by apply length_imap.
  set (t0 := with_membership (Some s) t). destruct (refusal_of c s t0) as [code|] eqn:Er; [by left|].
  assert (foldl (fun l o => playlist_membership_apply l (row_of_operation 0 o)) (projection t)
            (imap (entry fresh key) ops) = apply_all ops (projection t)) as ->.
  { rewrite <- (database_replays ops (map (row_of_operation 0) (imap (entry fresh key) ops)));
      [|done|apply Ht|done|].
    - symmetry. apply foldl_fmap.
    - apply Forall2_lookup. intros i. rewrite list_lookup_fmap, list_lookup_imap.
      destruct (ops !! i) as [o|]; simpl; constructor. exists (fresh i), 0. reflexivity. }
  rewrite write_projection_new. destruct (members_unique _); [|done]. right. cbn. done.
Qed.

Lemma find_key_None t k :
  find (fun row => bool_decide (op_key row = k)) (journal t) = None ->
  Forall (fun row => op_key row <> k) (journal t).
Proof.
  intros H. apply Forall_forall. intros row Hr. apply (proj1 (find_None _ _) H) in Hr.
  by apply bool_decide_eq_false in Hr.
Qed.

Lemma append_in_inv actor r key fresh at_ t out t' :
  tables_ok t -> NoDup (submitted_track_ids (edit r)) ->
  append_in sha256 hex_encode new_v5 actor r key fresh at_ t = (Ok out, t') ->
  (t' = t /\ appended out = 0
   /\ forall fresh' at', append_in sha256 hex_encode new_v5 actor r key fresh' at' t = (Ok out, t))
  \/ exists ops, appended_edit r key fresh at_ t t' ops out.
Proof.
  intros Ht Hsub. unfold append_in. destruct (owned_by _ _ t) eqn:Hown; [|done]. cbn [negb].
  destruct (find _ (journal t)) as [row|] eqn:Ef.
  { destruct (if bool_decide _ then _ else _) eqn:Eb; [done|]. intros [= <- <-]. by left. }
  apply find_key_None in Ef. destruct (match expected_projection_revision r with Some e => _ | None => _ end) eqn:Erev;
    [done|]. fold (effective_edit r).
  destruct (derive (effective_edit r) (projection t)) as [[|o ops]|e] eqn:Ed; [|..|done].
  { intros [= <- <-]. by left. }
  set (os := o :: ops) in *. destruct (assert_added_tracks_exist os t); [|done]. cbn [negb].
  pose proof Ed as Hd. apply derive_Ok in Hd as [Hd _]. pose proof (to_projection t Ht) as Hnd.
  rewrite <- effective_edit_submitted in Hsub.
  match goal with |- context [membership_op ?c t] => set (cmd := c) end.
  pose proof (membership_op_applies cmd t os fresh key Ht Hown eq_refl ltac:(done) Ef
    ltac:(rewrite Hd; by apply derived_clean) ltac:(rewrite Hd; by apply derived_wf)) as Hop.
  destruct (membership_op cmd t) as [[mo|e] tm]; [|done]. destruct Hop as [Href|(Happ & Hn & Hrev & _ & Hk & Htm)].
  { rewrite Href. rewrite !bool_decide_eq_false_2 by (intros E; by vm_compute in E). done. }
  rewrite Happ, bool_decide_eq_true_2 by done. rewrite Hn, Hrev.
  destruct (Z.ltb_spec (Z.of_nat (length os)) 0); [lia|]. intros [= <- <-]. right. exists os.
  assert (match expected_projection_revision r with
          | Some e => match membership t with Some s => e = projection_revision s | None => e = 0 end
          | None => True end) as Hrevision.
  { clear -Erev. destruct (expected_projection_revision r); [|done].
    destruct (membership t); apply negb_false_iff, Z.eqb_eq in Erev; done. }
  rewrite Htm. destruct (out_added mo); by constructor.
Qed.

Lemma append_inv actor r key fresh at_ t res t' :
  tables_ok t -> NoDup (submitted_track_ids (edit r)) ->
  append' actor r key fresh at_ t = (res, t') ->
  t' = t \/ exists ops out, res = Ok out /\ appended_edit r key fresh at_ t t' ops out.
Proof.
  intros Ht Hsub. unfold append. destruct (append_in _ _ _ _ _ _ _ _ t) as [[out|e] t1] eqn:E.
  - intros [= <- <-]. apply append_in_inv in E as [(-> & _)|[ops Hops]]; [by left|eauto|done|done].
  - intros [= <- <-]. by left.
Qed.

Lemma append_appended actor r key fresh at_ t out t' :
  tables_ok t -> NoDup (submitted_track_ids (edit r)) ->
  append' actor r key fresh at_ t = (Ok out, t') -> 0 < appended out ->
  exists ops, appended_edit r key fresh at_ t t' ops out.
Proof.
  intros Ht Hsub. unfold append. destruct (append_in _ _ _ _ _ _ _ _ t) as [[o|e] t1] eqn:E; [|done].
  intros [= -> ->] Hpos. apply append_in_inv in E as [(_ & H0 & _)|?]; [lia|done|done|done].
Qed.

Lemma append_preserves actor r key fresh at_ t :
  tables_ok t -> NoDup (submitted_track_ids (edit r)) ->
  tables_ok (append' actor r key fresh at_ t).2.
Proof.
  intros Ht Hsub. destruct (append' actor r key fresh at_ t) as [res t'] eqn:E. cbn [snd].
  apply append_inv in E as [->|(ops & out & _ & [Hops Hne _ _ Hp Hk Hj Hs _ _ _])]; [done| |done|done].
  pose proof Hops as Hd. apply derive_Ok in Hd as [Hd _]. rewrite <- effective_edit_submitted in Hsub.
  pose proof (to_projection t Ht) as Hnd.
  destruct (derived_meets _ _ Hnd Hsub) as [_ Hnd']. rewrite <- Hd in Hnd'.
  destruct (state_for_ok t at_ Ht) as (Hw & _ & [J1 J2 J3 J4 J5 J6]).
  set (s := state_for t at_) in *. set (es := imap (entry fresh key) ops) in *.
  assert (length es = length ops) as Hlen by apply length_imap.
  unfold keys_free in Hk. apply andb_true_iff in Hk as [Hk1 Hk2].
  apply bool_decide_eq_true in Hk1, Hk2.
  pose proof (entries_seqs sha256 hex_encode new_v5 fresh key (last_operation_sequence s) None ops) as Hseqs.
  fold es in Hseqs.
  assert (forall x, x ∈ map seq_of (insert_operations (last_operation_sequence s) None es) ->
    last_operation_sequence s < x <= last_operation_sequence s + Z.of_nat (length ops)) as Hnew.
  { intros x. rewrite Hseqs. intros Hx. apply list_elem_of_In, in_map_iff in Hx as (i & <- & Hi).
    apply in_seq in Hi. lia. }
  constructor; [by rewrite Hp|]. rewrite Hs. constructor; cbn.
  - lia.
  - split; [apply (bool_decide_unpack _); vm_compute; exact I|].
    split; [intros E; by vm_compute in E|by intros [? ?]].
  - done.
  - rewrite Hj. constructor.
    + rewrite map_app, Hseqs. apply StronglySorted_app_lt; [done|apply seq_sorted|].
      intros x y Hx Hy. rewrite <- Hseqs in Hy. apply Hnew in Hy.
      apply list_elem_of_In, in_map_iff in Hx as (row & <- & Hrow). rewrite Forall_forall in J5.
      apply list_elem_of_In, J5 in Hrow. lia.
    + rewrite map_app, insert_operations_ids, Permutation_app_comm. exact Hk2.
    + rewrite map_app, insert_operations_keys, Permutation_app_comm. exact Hk1.
    + apply Forall_app. split; [done|]. apply entries_rows. rewrite Hd. by apply derived_wf.
    + apply Forall_app. split.
      * eapply Forall_impl; [exact J5|]. simpl. lia.
      * apply Forall_forall. intros row Hrow. assert (last_operation_sequence s < seq_of row
          <= last_operation_sequence s + Z.of_nat (length ops)); [|lia].
        apply Hnew. apply list_elem_of_In, in_map. by apply list_elem_of_In.
    + apply Forall_app. split; [done|]. apply Forall_forall. intros row Hrow _.
      assert (last_operation_sequence s < seq_of row); [|lia].
      apply Hnew. apply list_elem_of_In, in_map. by apply list_elem_of_In.
Qed.
End appending.

(** A row of the journal under the edit's key answers every later submission. *)
Lemma append_replayed sha256 hex_encode new_v5 actor r key fresh at_ t row :
  owned_by actor (user_id_variants actor) t = true ->
  find (fun row => bool_decide (op_key row = operation_key new_v5 key 0)) (journal t) = Some row ->
  op_outcome row = lit "pending" ->
  append sha256 hex_encode new_v5 actor r key fresh at_ t
  = (Ok {| appended := 0;
           jo_projection_revision := match membership t with Some s => projection_revision s | None => 0 end |}, t).
Proof.
  intros Hown Hf Ho. unfold append, append_in. rewrite Hown, Hf, Ho. cbn [negb].
  by rewrite bool_decide_eq_false_2 by (intros E; by vm_compute in E).
Qed.

Lemma find_none_app {A} (p : A -> bool) l1 l2 : find p l1 = None -> find p (l1 ++ l2) = find p l2.
Proof.
  induction l1 as [|x l1 IH]; simpl; [done|]. by destruct (p x).
Qed.

Lemma appended_find sha256 hex_encode new_v5 r key fresh at_ t t' ops out :
  appended_edit sha256 hex_encode new_v5 r key fresh at_ t t' ops out ->
  exists row, find (fun row => bool_decide (op_key row = operation_key new_v5 key 0)) (journal t') = Some row
  /\ op_outcome row = lit "pending".
Proof.
  intros [_ Hne _ Hnew _ _ Hj _ _ _ _]. rewrite Hj. destruct ops as [|o ops]; [done|].
  rewrite find_none_app.
  - cbn [imap insert_operations find]. cbn. rewrite bool_decide_eq_true_2 by done. by eexists.
  - apply find_None. intros row Hrow. rewrite Forall_forall in Hnew. apply bool_decide_eq_false. by apply Hnew.
Qed.

Lemma append_in_owned sha256 hex_encode new_v5 actor r key fresh at_ t out t' :
  append_in sha256 hex_encode new_v5 actor r key fresh at_ t = (Ok out, t') ->
  owned_by actor (user_id_variants actor) t = true.
Proof. unfold append_in. by destruct (owned_by actor (user_id_variants actor) t). Qed.

(** Submitting an edit is a transaction with one effect.  On an error the
    tables are untouched.  Otherwise either nothing had to change, or the
    projection meets the edit, its revision and the journal grow by the number of
    operations, and the new rows are pending, numbered on from the last one.  The
    client may submit again under the same key, at any time and with any fresh ids:
    it is told so and nothing is written twice. *)
Theorem append_exact (sha256 : bytes -> bytes) (hex_encode : bytes -> str) (new_v5 : Z -> bytes -> Z)
    (actor : str) (r : MembershipRequest) (key : Z) (fresh : nat -> Z) (at_ : Z) (t : Tables)
    (Ht : tables_ok t) (Hsub : NoDup (submitted_track_ids (edit r))) :
  let append := append sha256 hex_encode new_v5 in
  match append actor r key fresh at_ t with
  | (Err _, t') => t' = t
  | (Ok out, t') =>
      ((t' = t /\ appended out = 0)
       \/ (0 < appended out
           /\ edit_meets (effective_edit r) (projection t) (projection t')
           /\ (exists rows, journal t' = journal t ++ rows /\ Forall (fun row => op_resolved row = false) rows
                /\ map seq_of rows = map (fun i => last_operation_sequence (state_for t at_) + Z.of_nat (S i))
                                       (seq 0 (Z.to_nat (appended out))))
           /\ projection_revision (state_for t' at_) = projection_revision (state_for t at_) + appended out
           /\ sync_status (state_for t' at_) = lit "pending"))
      /\ (forall fresh' at',
            exists out', append actor r key fresh' at' t' = (Ok out', t') /\ appended out' = 0)
  end.
Proof.
  intros append0. unfold append0.
  destruct (append sha256 hex_encode new_v5 actor r key fresh at_ t) as [[out|e] t'] eqn:E.
  2:{ unfold append in E. destruct (append_in _ _ _ _ _ _ _ _ t) as [[|] ?]; congruence. }
  unfold append in E. destruct (append_in sha256 hex_encode new_v5 actor r key fresh at_ t) as [[o|] t1] eqn:Ein;
    [|done]. injection E as -> ->. pose proof (append_in_owned _ _ _ _ _ _ _ _ _ _ _ Ein) as Hown.
  apply append_in_inv in Ein as [(-> & H0 & Hagain)|[ops Hae]]; [| |done|done].
  { split; [by left|]. intros fresh' at'. exists out. unfold append. by rewrite Hagain. }
  pose proof Hae as [Hops Hne _ Hnew Hp Hk Hj Hs Hruns Hpl Hout].
  pose proof Hops as Hd. apply derive_Ok in Hd as [Hd _].
  destruct (derived_meets (effective_edit r) (projection t)) as [Hm _];
    [apply Ht|by rewrite effective_edit_submitted|]. rewrite <- Hd, <- Hp in Hm.
  assert (0 < Z.of_nat (length ops)) as Hpos by (destruct ops; [done|simpl; lia]).
  assert (forall at', state_for t' at' = accepted_state (state_for t at_) (last_operation_sequence (state_for t at_))
    (Z.of_nat (length ops)) None (projection t') at_) as Hst by (intros; unfold state_for at 1; by rewrite Hs).
  split.
  - right. subst out. cbn [appended]. rewrite !Hst. split_and!; [done|done| |done|done].
    eexists. split; [exact Hj|]. split.
    + apply Forall_forall. intros row Hrow. by eapply entries_unresolved.
    + rewrite entries_seqs, Nat2Z.id. done.
  - intros fresh' at'.
    destruct (appended_find _ _ _ _ _ _ _ _ _ _ _ Hae) as (row & Hrow & Ho).
    eexists. split; [eapply append_replayed; [by unfold owned_by in *; rewrite (ae_playlist _ _ _ _ _ _ _ _ _ _ _ Hae)|done|done]|done].
Qed.
