(* ===== verification/PlaylistReconcileFacts.v ===== *)
(** * PlaylistReconcileFacts: observations never lose an edit

    The invariant of a playlist's tables under appends, captures and persisted
    observations in any order; an observation that raced with an edit changes
    nothing; an operation leaves the pending state only by a conflict or when
    SoundCloud shows its result. *)

From Stdlib Require Import ZArith Lia String.
From stdpp Require Import base list numbers tactics sets gmap sorting relations.
From S2P Require Import Prelude Text EntityRef AppError Sequences PlaylistEdit PlaylistEditFacts PlaylistReduce PlaylistReduceFacts PlaylistJournal PlaylistReconcile PlaylistJournalFacts.
Local Open Scope Z_scope.

(** ** Sorting by sequence *)

Lemma sort_by_key_strict {A} (f : A -> Z) (l : list A) :
  NoDup (map f l) -> StronglySorted Z.lt (map f (sort_by (fun a b => f a <=? f b) l)).
Proof.
  intros Hnd. assert (StronglySorted (fun a b => (f a <=? f b) = true) (sort_by (fun a b => f a <=? f b) l)) as Hs.
  { apply sort_by_sorted; intros; rewrite ?Z.leb_le, ?Z.leb_gt in *; lia. }
  rewrite <- (sort_by_perm (fun a b => f a <=? f b) l) in Hnd.
  induction Hs as [|a l' Hs IH Ha]; simpl in *; [constructor|]. apply NoDup_cons in Hnd as [Hn Hnd].
  constructor; [by apply IH|]. apply Forall_forall. intros x Hx.
  apply list_elem_of_In, in_map_iff in Hx as (b & <- & Hb). rewrite Forall_forall in Ha.
  apply list_elem_of_In in Hb. specialize (Ha b Hb). apply Z.leb_le in Ha.
  assert (f a <> f b); [|lia]. intros E. apply Hn. rewrite E. apply list_elem_of_In, in_map. by apply list_elem_of_In.
Qed.

Lemma sort_by_key_id {A} (f : A -> Z) (l : list A) :
  StronglySorted Z.lt (map f l) -> sort_by (fun a b => f a <=? f b) l = l.
Proof.
  induction l as [|a l IH]; intros Hs; simpl in *; [done|]. inversion Hs as [|? ? Hs' Ha]; subst.
  unfold sort_by in *. simpl. rewrite (IH Hs'). destruct l as [|b l]; [done|]. simpl in *.
  inversion Ha; subst. by rewrite (proj2 (Z.leb_le _ _)) by lia.
Qed.

Lemma StronglySorted_NoDup_lt (l : list Z) : StronglySorted Z.lt l -> NoDup l.
Proof.
  induction 1 as [|x l Hs IH Hx]; constructor; [|done]. intros Hin. rewrite Forall_forall in Hx.
  specialize (Hx x Hin). lia.
Qed.

Lemma committed_prefix_le ops w b :
  w <= b -> Forall (fun o => resolved_sequence o <= b) ops -> committed_prefix ops w <= b.
Proof.
  intros Hw H. revert w Hw. induction H as [|o ops Ho H IH]; intros w Hw; simpl; [done|].
  destruct (is_terminal (resolution o)); [|done]. apply IH. lia.
Qed.

(** ** The pending rows *)

Lemma pending_rows_In through j row :
  row ∈ pending_rows through j <->
  exists r, r ∈ j /\ op_row r = row /\ op_resolved r = false /\ seq_of r <= through.
Proof.
  unfold pending_rows. rewrite sort_by_perm. rewrite list_elem_of_In, in_map_iff. split.
  - intros (r & <- & Hr). apply filter_In in Hr as [Hr Hc]. apply andb_true_iff in Hc as [Hc1 Hc2].
    apply negb_true_iff in Hc1. apply Z.leb_le in Hc2. exists r. split; [by apply list_elem_of_In|done].
  - intros (r & Hr & <- & Hres & Hle). exists r. split; [done|]. apply filter_In.
    split; [by apply list_elem_of_In|]. rewrite Hres. simpl. by apply Z.leb_le.
Qed.

Lemma NoDup_map_filter {A B} (f : A -> B) (p : A -> bool) l : NoDup (map f l) -> NoDup (map f (List.filter p l)).
Proof. apply NoDup_map_retain. Qed.

Lemma pending_rows_sorted through j :
  NoDup (map seq_of j) -> StronglySorted Z.lt (map row_sequence (pending_rows through j)).
Proof.
  intros H. unfold pending_rows. apply (sort_by_key_strict row_sequence).
  rewrite map_map. change (fun x => row_sequence (op_row x)) with seq_of. by apply NoDup_map_filter.
Qed.

Lemma pending_rows_ids through j :
  NoDup (map id_of j) -> NoDup (map row_operation_id (pending_rows through j)).
Proof.
  intros H. unfold pending_rows. rewrite sort_by_perm, map_map.
  change (fun x => row_operation_id (op_row x)) with id_of. by apply NoDup_map_filter.
Qed.

(** When everything before an edit is resolved, the pending rows are the edit's. *)
Lemma pending_rows_new through old new :
  Forall (fun r => op_resolved r = true) old -> Forall (fun r => op_resolved r = false) new ->
  Forall (fun r => seq_of r <= through) new -> StronglySorted Z.lt (map seq_of new) ->
  pending_rows through (old ++ new) = map op_row new.
Proof.
  intros Ho Hn Hle Hs. unfold pending_rows. rewrite List.filter_app.
  fold (retain (fun r => negb (op_resolved r) && (row_sequence (op_row r) <=? through)) old).
  rewrite retain_none.
  2:{ intros r Hr. rewrite Forall_forall in Ho. by rewrite (Ho r Hr). }
  fold (retain (fun r => negb (op_resolved r) && (row_sequence (op_row r) <=? through)) new).
  rewrite retain_all.
  2:{ intros r Hr. rewrite Forall_forall in Hn, Hle. rewrite (Hn r Hr). simpl. apply Z.leb_le. by apply Hle. }
  simpl. apply (sort_by_key_id row_sequence). by rewrite map_map.
Qed.

Lemma readable_all rows :
  Forall (fun r => exists i, row_intent r = Some i /\ anchors_distinct i) rows ->
  malformed_operations rows = []
  /\ map sequence (readable_operations rows) = map row_sequence rows
  /\ map operation_id (readable_operations rows) = map row_operation_id rows
  /\ Forall (fun o => anchors_distinct (intent o)) (readable_operations rows).
Proof.
  induction 1 as [|r rows (i & Hi & Hd) H (IH1 & IH2 & IH3 & IH4)].
  { split_and!; done. }
  unfold malformed_operations, readable_operations. cbn [omap list_omap]. rewrite Hi. cbn.
  split_and!; [done|by f_equal|by f_equal|by constructor].
Qed.

Lemma find_only {A} (f : A -> Z) (p : A -> bool) l x :
  NoDup (map f l) -> x ∈ l ->
  find (fun y => p y && (f y =? f x)) l = if p x then Some x else None.
Proof.
  induction l as [|y l IH]; intros Hnd Hx; [by apply not_elem_of_nil in Hx|]. simpl in *.
  apply NoDup_cons in Hnd as [Hn Hnd]. apply elem_of_cons in Hx as [->|Hx].
  - rewrite Z.eqb_refl, andb_true_r. destruct (p y); [done|]. apply find_None. intros z Hz.
    apply andb_false_iff. right. apply Z.eqb_neq. intros E. apply Hn. rewrite <- E.
    apply list_elem_of_In, in_map. by apply list_elem_of_In.
  - assert (f y <> f x) as Hne.
    { intros E. apply Hn. rewrite E. apply list_elem_of_In, in_map. by apply list_elem_of_In. }
    rewrite (proj2 (Z.eqb_neq _ _) Hne), andb_false_r. by apply IH.
Qed.

(** ** The first pending operation *)

Lemma first_pending_spec j :
  match first_pending j with
  | Some m => (forall r, r ∈ j -> op_resolved r = false -> m <= seq_of r)
              /\ exists r, r ∈ j /\ op_resolved r = false /\ m = seq_of r
  | None => forall r, r ∈ j -> op_resolved r = true
  end.
Proof.
  unfold first_pending.
  assert (forall acc, let res := foldl (fun m r => if op_resolved r then m else opt_min m (row_sequence (op_row r))) acc j in
    match res with
    | Some m => (forall r, r ∈ j -> op_resolved r = false -> m <= seq_of r)
                /\ (forall a, acc = Some a -> m <= a)
                /\ (acc = Some m \/ exists r, r ∈ j /\ op_resolved r = false /\ m = seq_of r)
    | None => acc = None /\ forall r, r ∈ j -> op_resolved r = true
    end) as H.
  { induction j as [|r j IH]; intros acc; simpl.
    - destruct acc; [|split; [done|set_solver]]. split_and!; [set_solver| |by left]. intros a [= ->]. lia.
    - specialize (IH (if op_resolved r then acc else opt_min acc (row_sequence (op_row r)))).
      simpl in IH. destruct (foldl _ _ j) as [m|].
      + destruct IH as (H1 & H2 & H3). destruct (op_resolved r) eqn:Er.
        * split_and!; [intros x [->|Hx]%elem_of_cons Hres; [congruence|auto]|done|].
          destruct H3 as [?|(x & ? & ? & ?)]; [by left|right; exists x; set_solver].
        * unfold opt_min in H2, H3. split_and!.
          -- intros x [->|Hx]%elem_of_cons Hres; [|auto]. unfold seq_of.
             destruct acc as [a|]; specialize (H2 _ eq_refl); lia.
          -- intros a ->. specialize (H2 _ eq_refl). lia.
          -- destruct H3 as [H3|(x & ? & ? & ?)]; [|right; exists x; set_solver].
             destruct acc as [a|]; injection H3 as H3.
             ++ destruct (Z.min_spec a (row_sequence (op_row r))) as [[? ?]|[? ?]].
                ** left. f_equal. lia.
                ** right. exists r. split_and!; [set_solver|done|]. unfold seq_of. lia.
             ++ right. exists r. split_and!; [set_solver|done|done].
      + destruct IH as [H1 H2]. destruct (op_resolved r) eqn:Er; [|by destruct acc].
        split; [done|]. intros x [->|Hx]%elem_of_cons; auto. }
  specialize (H None). simpl in H. destruct (foldl _ _ _) as [m|]; [|by destruct H].
  destruct H as (H1 & _ & [H|H]); [done|]. done.
Qed.

(** ** Decisions *)

Record rec_ok (j : list OperationRow) (last committed : Z) (remote : list str) (r : Reconciliation) : Prop := {
  ro_status : status_ok (rec_state_status r) (rec_conflict_code r);
  ro_through : committed <= rec_committed_through r <= last;
  ro_pending : forall row, row ∈ j -> op_resolved (resolve_row (rec_operations r) row) = false ->
    rec_committed_through r < seq_of row;
  ro_committed : forall o, o ∈ rec_operations r -> resolution o = Committed -> rec_projection r = Some remote }.

Ltac status_lit :=
  split; [apply (bool_decide_unpack _); vm_compute; exact I|];
  split; [intros E; (by vm_compute in E) || by eexists|intros [? ?]; done].

(** A decision that resolves nothing leaves the watermark. *)
Lemma rec_ok_nothing j last committed remote r :
  journal_ok j last committed -> committed <= last -> status_ok (rec_state_status r) (rec_conflict_code r) ->
  rec_committed_through r = committed -> rec_operations r = [] -> rec_ok j last committed remote r.
Proof.
  intros Hj Hle Hs Hc Ho. constructor; [done|lia| |].
  - intros row Hrow. rewrite Ho, Hc. unfold resolve_row. simpl. intros Hres.
    assert (op_resolved row = false) as Hr by (destruct (op_resolved row) eqn:E; [congruence|done]).
    pose proof (jo_pending _ _ _ Hj) as Hp. rewrite Forall_forall in Hp. by apply Hp.
  - rewrite Ho. intros o Hin. by apply not_elem_of_nil in Hin.
Qed.

Lemma decision_status legacy pending complete rel :
  let d := reconciliation_decision legacy pending complete rel in
  status_ok (dec_state_status d) (dec_conflict_code d).
Proof. destruct complete, pending, legacy, rel; simpl; status_lit. Qed.

Section facts.
Context (sha256 : bytes -> bytes) (collate : list str -> list str)
  (takes_observed : TrackRow -> HydratedTrack -> bool) (membership_remote_apply : bool).

Section reduced.
Context (j : list OperationRow) (last committed : Z) (remote : list str).
Context (Hj : journal_ok j last committed) (Hle : committed <= last).

Abbreviation rows := (pending_rows last j).
Abbreviation red := (reduce remote (readable_operations rows) committed).

Lemma rows_readable :
  malformed_operations rows = []
  /\ map resolved_sequence (operations red) = map row_sequence rows
  /\ map resolved_id (operations red) = map row_operation_id rows.
Proof.
  destruct (readable_all rows) as (H1 & H2 & H3 & _).
  { apply Forall_forall. intros row (r & Hr & <- & _)%pending_rows_In.
    pose proof (jo_rows _ _ _ Hj) as Hrows. rewrite Forall_forall in Hrows. by destruct (Hrows r Hr). }
  destruct (resolved_sequences remote (readable_operations rows) committed) as [H4 H5].
  by rewrite H4, H5.
Qed.

Abbreviation sorted_ops := (sort_by (fun a b => resolved_sequence a <=? resolved_sequence b) (operations red)).

Lemma sorted_ops_strict : StronglySorted Z.lt (map resolved_sequence sorted_ops).
Proof.
  apply sort_by_key_strict. destruct rows_readable as (_ & -> & _).
  apply StronglySorted_NoDup_lt, pending_rows_sorted, StronglySorted_NoDup_lt, (jo_sorted _ _ _ Hj).
Qed.

Lemma sorted_ops_above : Forall (fun o => committed < resolved_sequence o <= last) sorted_ops.
Proof.
  rewrite sort_by_perm. apply (Forall_map_iff resolved_sequence (fun s => committed < s <= last)).
  destruct rows_readable as (_ & -> & _). apply Forall_map_iff, Forall_forall.
  intros row (r & Hr & <- & Hres & Hlast)%pending_rows_In. fold (seq_of r).
  pose proof (jo_pending _ _ _ Hj) as Hp. rewrite Forall_forall in Hp. specialize (Hp r Hr Hres). lia.
Qed.

(** A pending row has its own resolution. *)
Lemma row_resolution r :
  r ∈ j -> op_resolved r = false ->
  exists o, o ∈ sorted_ops /\ resolved_id o = id_of r /\ resolved_sequence o = seq_of r
  /\ op_resolved (resolve_row sorted_ops r) = is_terminal (resolution o).
Proof.
  intros Hr Hres. destruct rows_readable as (_ & Hseq & Hid).
  assert (op_row r ∈ rows) as Hin.
  { apply pending_rows_In. exists r. split_and!; try done. pose proof (jo_range _ _ _ Hj) as Hrange.
    rewrite Forall_forall in Hrange. specialize (Hrange r Hr). lia. }
  apply list_elem_of_lookup in Hin as (i & Hi).
  assert (map resolved_id (operations red) !! i = Some (id_of r)) as Ho1
    by (rewrite Hid, list_lookup_fmap, Hi; done).
  assert (map resolved_sequence (operations red) !! i = Some (seq_of r)) as Ho2
    by (rewrite Hseq, list_lookup_fmap, Hi; done).
  apply list_lookup_fmap_Some in Ho1 as (o & Hoid & Ho). rewrite list_lookup_fmap, Ho in Ho2. injection Ho2 as Hos.
  assert (o ∈ sorted_ops) as Hino by (rewrite sort_by_perm; by eapply list_elem_of_lookup_2).
  exists o. split_and!; try done. unfold resolve_row. rewrite Hres.
  change (row_operation_id (op_row r)) with (id_of r). rewrite Hoid.
  rewrite (find_only resolved_id (fun o => is_terminal (resolution o)) sorted_ops o);
    [by destruct (is_terminal (resolution o))| |done].
  rewrite sort_by_perm, Hid. apply pending_rows_ids, (jo_ids _ _ _ Hj).
Qed.

Lemma reduced_ok rel complete :
  rec_ok j last committed remote
    (reduced_reconciliation sha256 red (malformed_operations rows) rel complete committed).
Proof.
  destruct rows_readable as (Hmal & _). unfold reduced_reconciliation. rewrite Hmal, app_nil_r.
  destruct complete; cbn [negb].
  2:{ apply rec_ok_nothing; try done. status_lit. }
  set (code := find_map _ sorted_ops). destruct (match code with Some c => _ | None => _ end) as [[run status] cd] eqn:E.
  assert (status_ok status cd) as Hs.
  { destruct code as [c|]; [|destruct (outcome red)]; injection E as <- <- <-; status_lit. }
  constructor; cbn; [done| | |].
  - split; [apply committed_prefix_ge|]. apply committed_prefix_le; [done|].
    eapply Forall_impl; [apply sorted_ops_above|]. simpl. lia.
  - intros r Hr Hun. assert (op_resolved r = false) as Hres.
    { unfold resolve_row in Hun. destruct (op_resolved r) eqn:Er; [congruence|done]. }
    destruct (row_resolution r Hr Hres) as (o & Ho & _ & Hseq & Ht). rewrite Hun in Ht. rewrite <- Hseq.
    apply Z.nle_gt. intros Hlt.
    rewrite (committed_prefix_terminal sorted_ops committed o) in Ht; [done| | |done|done].
    + apply (StronglySorted_map resolved_sequence), sorted_ops_strict.
    + eapply Forall_impl; [apply sorted_ops_above|]. simpl. lia.
  - intros o Ho Hcom. f_equal. rewrite sort_by_perm in Ho.
    apply resolved_from in Ho as (x & Hx & Hres). rewrite Hcom in Hres. rewrite reduce_candidate.
    apply replay_not_committed in Hx. unfold settle in Hres.
    case_bool_decide; [done|]. congruence.
Qed.
End reduced.

(** ** What reading and cataloguing leave alone *)

Record same_core (t t' : Tables) : Prop := {
  sc_journal : journal t' = journal t;
  sc_membership : membership t' = membership t;
  sc_projection : projection t' = projection t;
  sc_runs : runs t' = runs t;
  sc_playlist : playlist t' = playlist t;
  sc_queue : apply_queue t' = apply_queue t }.

Lemma same_core_refl t : same_core t t.
Proof. by constructor. Qed.

Lemma same_core_trans t1 t2 t3 : same_core t1 t2 -> same_core t2 t3 -> same_core t1 t3.
Proof. intros [] []. constructor; congruence. Qed.

Lemma schedule_same ids t : same_core t (schedule_missing_tracks collate ids t).2.
Proof. unfold schedule_missing_tracks. destruct ids; [done|]. by destruct (take _ _). Qed.

Lemma hydrate_same s t : same_core t (hydrate_catalog collate takes_observed s t).2.
Proof.
  unfold hydrate_catalog. eapply same_core_trans; [|apply schedule_same]. done.
Qed.

Lemma store_same ids fp t : same_core t (store_snapshot ids fp t).2.
Proof.
  unfold store_snapshot. destruct (_ <? _); [done|]. destruct (negb _); [done|].
  destruct (find_snapshot fp t), (bool_decide _); done.
Qed.

Lemma store_legacy ids fp t : legacy_intents (store_snapshot ids fp t).2 = legacy_intents t.
Proof.
  unfold store_snapshot. destruct (_ <? _); [done|]. destruct (negb _); [done|].
  destruct (find_snapshot fp t), (bool_decide _); done.
Qed.

Lemma hydrate_legacy s t : legacy_intents (hydrate_catalog collate takes_observed s t).2 = legacy_intents t.
Proof.
  unfold hydrate_catalog, schedule_missing_tracks. destruct (snap_track_ids s); [done|]. by destruct (take _ _).
Qed.

Lemma reduce_pending_spec c l s t r t' :
  reduce_pending_operations sha256 collate c l s t = (Ok r, t') ->
  same_core t t' /\ exists complete rel,
    let rows := pending_rows (cap_through_operation_sequence c) (journal t) in
    let committed := committed_operation_sequence (lk_state l) in
    r = reduced_reconciliation sha256 (reduce (snap_track_ids s) (readable_operations rows) committed)
          (malformed_operations rows) rel complete committed.
Proof.
  unfold reduce_pending_operations. case_bool_decide.
  - intros [= <- <-]. split; [done|]. by eexists _, _.
  - pose proof (schedule_same (candidate (reduce (snap_track_ids s)
      (readable_operations (pending_rows (cap_through_operation_sequence c) (journal t)))
      (committed_operation_sequence (lk_state l)))) t) as Hs.
    destruct (schedule_missing_tracks _ _ t) as [[complete|] t1]; [|done].
    intros [= <- <-]. split; [done|]. by eexists _, _.
Qed.

Lemma adopt_spec c l local s t r t' :
  adopt_local_over_legacy sha256 collate c l local s t = (Ok r, t') ->
  same_core t t' /\ status_ok (rec_state_status r) (rec_conflict_code r)
  /\ rec_committed_through r = committed_operation_sequence (lk_state l) /\ rec_operations r = [].
Proof.
  unfold adopt_local_over_legacy. set (cand := local ++ _). pose proof (schedule_same cand t) as Hs.
  destruct (schedule_missing_tracks collate cand t) as [[[]|] t1]; [..|done]; cbn [snd] in Hs.
  - destruct (remote_lacks_local_tracks _ _ _ t1); intros [= <- <-];
      (split_and!; [eapply same_core_trans; [done|]; done|status_lit|done|done]).
  - intros [= <- <-]. split_and!; [done|status_lit|done|done].
Qed.

(** Whatever the observation decides is consistent with the journal. *)
Lemma reconcile_ok c l s fp local t r t' :
  reconcile sha256 collate takes_observed c l s fp local t = (Ok r, t') ->
  let st := lk_state l in
  cap_through_operation_sequence c = last_operation_sequence st ->
  committed_operation_sequence st <= last_operation_sequence st ->
  journal_ok (journal t) (last_operation_sequence st) (committed_operation_sequence st) ->
  same_core t t'
  /\ rec_ok (journal t) (last_operation_sequence st) (committed_operation_sequence st) (snap_track_ids s) r.
Proof.
  intros Hrec st Hthrough Hle Hj. unfold reconcile in Hrec. pose proof (hydrate_same s t) as Hh.
  destruct (hydrate_catalog collate takes_observed s t) as [[complete|] t1]; [|done]. cbn [snd] in Hh.
  destruct (if legacy_intents t1 then _ else _) as [[[]|] t2] eqn:Est; [|done].
  assert (same_core t t2) as H2.
  { destruct (legacy_intents t1); [|by injection Est as <-].
    pose proof (store_same local (membership_fingerprint sha256 local) t1) as Hs. rewrite Est in Hs.
    by eapply same_core_trans. }
  clear Est Hh. fold st in Hrec. destruct (_ && complete && _).
  - apply adopt_spec in Hrec as (Hs & Hst & Hc & Ho). split; [by eapply same_core_trans|].
    by apply rec_ok_nothing.
  - destruct (_ && complete).
    + apply reduce_pending_spec in Hrec as (Hs & comp & rel & ->). split; [by eapply same_core_trans|].
      rewrite (sc_journal _ _ H2), Hthrough. by apply reduced_ok.
    + injection Hrec as <- <-. split; [done|]. apply rec_ok_nothing; try done. apply decision_status.
Qed.

(** ** Recording a decision *)

Lemma resolve_row_row ops r : op_row (resolve_row ops r) = op_row r /\ op_key (resolve_row ops r) = op_key r.
Proof. unfold resolve_row. destruct (op_resolved r); [done|]. by destruct (find _ ops). Qed.

Lemma resolve_row_ok ops r : row_ok r -> row_ok (resolve_row ops r).
Proof.
  intros H. pose proof H as (Hi & _ & _). unfold resolve_row. destruct (op_resolved r); [done|].
  destruct (find _ ops) as [o|] eqn:E; [|done]. apply find_Some in E as [_ E].
  apply andb_true_iff in E as [E _]. split; [done|]. cbn. destruct (resolution o); [done|..]; cbn.
  - split; split; try done; intros X; first [by vm_compute in X|by destruct X].
  - split; split; try done; intros X; first [by vm_compute in X|by eexists].
Qed.

Lemma resolve_row_kept ops r : op_resolved r = true -> resolve_row ops r = r.
Proof. unfold resolve_row. by intros ->. Qed.

Lemma map_resolve {A} (f : OperationRow -> A) ops j :
  (forall r, f (resolve_row ops r) = f r) -> map f (map (resolve_row ops) j) = map f j.
Proof. intros H. rewrite map_map. by apply map_ext. Qed.

Lemma seq_resolve ops r : seq_of (resolve_row ops r) = seq_of r.
Proof. unfold seq_of. by rewrite (proj1 (resolve_row_row ops r)). Qed.

Lemma resolved_journal_ok j last committed committed' ops :
  journal_ok j last committed ->
  (forall row, row ∈ j -> op_resolved (resolve_row ops row) = false -> committed' < seq_of row) ->
  journal_ok (map (resolve_row ops) j) last committed'.
Proof.
  intros [J1 J2 J3 J4 J5 J6] Hp. constructor.
  - rewrite map_resolve; [done|apply seq_resolve].
  - rewrite map_resolve; [done|]. intros r. unfold id_of. by rewrite (proj1 (resolve_row_row ops r)).
  - rewrite map_resolve; [done|]. intros r. apply resolve_row_row.
  - apply Forall_map_iff. eapply Forall_impl; [exact J4|]. apply resolve_row_ok.
  - apply Forall_map_iff. eapply Forall_impl; [exact J5|]. intros r. simpl. by rewrite seq_resolve.
  - apply Forall_map_iff, Forall_forall. intros r Hr Hres. rewrite seq_resolve. by apply Hp.
Qed.

(** The watermark [complete_state] writes is sound for the resolved journal. *)
Lemma complete_state_watermark s j r obs changed count fp a now :
  0 <= committed_operation_sequence s <= last_operation_sequence s ->
  Forall (fun row => 1 <= seq_of row <= last_operation_sequence s) j ->
  committed_operation_sequence s <= rec_committed_through r <= last_operation_sequence s ->
  (forall row, row ∈ j -> op_resolved row = false -> rec_committed_through r < seq_of row) ->
  let s' := complete_state s j r obs changed count fp a now in
  0 <= committed_operation_sequence s' <= last_operation_sequence s'
  /\ forall row, row ∈ j -> op_resolved row = false -> committed_operation_sequence s' < seq_of row.
Proof.
  intros Hs Hrange Hr Hp. simpl. pose proof (first_pending_spec j) as Hf.
  destruct (first_pending j) as [m|].
  - destruct Hf as [Hmin (w & Hw & Hwr & ->)]. rewrite Forall_forall in Hrange.
    specialize (Hrange w Hw). split; [lia|]. intros row Hrow Hres. specialize (Hmin row Hrow Hres).
    specialize (Hp row Hrow Hres). lia.
  - split; [lia|]. intros row Hrow Hres. rewrite (Hf row Hrow) in Hres. done.
Qed.

(** The queue of remote applications is its own table. *)
Lemma enqueue_same c r t :
  let t' := enqueue_membership_apply membership_remote_apply c r t in
  journal t' = journal t /\ membership t' = membership t /\ projection t' = projection t /\ playlist t' = playlist t.
Proof. unfold enqueue_membership_apply. repeat case_match; done. Qed.

Lemma enqueue_local_same c t :
  let t' := enqueue_local_membership_apply sha256 membership_remote_apply c t in
  journal t' = journal t /\ membership t' = membership t /\ projection t' = projection t /\ playlist t' = playlist t.
Proof. unfold enqueue_local_membership_apply. repeat case_match; done. Qed.

Lemma recorded c l s a fp obs now local r t res t' st :
  record_reconciliation membership_remote_apply c l s a fp obs now local r t = (Ok res, t') ->
  membership t = Some st ->
  let target := default local (rec_projection r) in
  let changed := match rec_projection r with Some p => negb (bool_decide (p = local)) | None => false end in
  res = Applied
  /\ projection t' = (if changed then target else projection t)
  /\ (changed = true -> NoDup target)
  /\ journal t' = map (resolve_row (rec_operations r)) (journal t)
  /\ membership t' = Some (complete_state st (journal t') r obs changed (Z.of_nat (length target)) fp a now)
  /\ playlist t' = playlist t.
Proof.
  intros H Hm target changed. unfold record_reconciliation in H. fold target changed in H.
  destruct (changed && negb (members_unique target)) eqn:Eu; [done|]. destruct (_ <? _); [done|].
  set (t1 := if changed then with_projection target t else t) in *.
  assert (membership t1 = Some st /\ journal t1 = journal t /\ projection t1 = (if changed then target else projection t)
    /\ playlist t1 = playlist t) as (H1 & H2 & H3 & H4) by (unfold t1; by destruct changed).
  set (t2 := resolve_operations (rec_operations r) t1) in *.
  assert (membership t2 = Some st) as Hm2 by done. rewrite Hm2 in H. destruct (negb (_ =? _)); [done|].
  set (t3 := with_membership _ t2) in *.
  set (t4 := match a with Owner => _ | Public => _ end) in *.
  assert (journal t4 = journal t3 /\ membership t4 = membership t3 /\ projection t4 = projection t3
    /\ playlist t4 = playlist t3) as (K1 & K2 & K3 & K4).
  { unfold t4. destruct a; [|done]. destruct (is_partial s); [done|]. apply enqueue_same. }
  destruct (negb (_ =? 1)%nat); [done|]. injection H as <- <-.
  cbn [complete_run set_run with_runs journal membership projection playlist].
  rewrite K1, K2, K3, K4. unfold t3. cbn. rewrite H2, H3, H4. split_and!; try done.
  intros Hc. rewrite Hc in Eu. cbn in Eu. apply negb_false_iff in Eu. by apply bool_decide_eq_true in Eu.
Qed.

(** A persisted observation, and what the tables are after it. *)
Lemma recorded_ok c l s a fp obs now r t res t' st :
  tables_ok t -> membership t = Some st ->
  rec_ok (journal t) (last_operation_sequence st) (committed_operation_sequence st) (snap_track_ids s) r ->
  record_reconciliation membership_remote_apply c l s a fp obs now (projection t) r t = (Ok res, t') ->
  tables_ok t'.
Proof.
  intros [Hnd Hs] Hm [R1 R2 R3 R4] H. rewrite Hm in Hs. destruct Hs as [S1 S2 S3 S4].
  destruct (recorded _ _ _ _ _ _ _ _ _ _ _ _ _ H Hm) as (_ & Hp & Hu & Hj & Hst & _).
  set (changed := match rec_projection r with Some p => _ | None => _ end) in *.
  set (target := default (projection t) (rec_projection r)) in *.
  assert (projection t' = target) as Hpt.
  { rewrite Hp. destruct changed eqn:Ec; [done|]. unfold target, changed in *.
    destruct (rec_projection r); [|done]. apply negb_false_iff, bool_decide_eq_true in Ec. by subst. }
  assert (forall row, row ∈ journal t' -> op_resolved row = false -> rec_committed_through r < seq_of row) as Hpend.
  { intros row. rewrite Hj. intros Hrow Hres. apply list_elem_of_In, in_map_iff in Hrow as (r0 & <- & Hr0).
    rewrite seq_resolve. apply R3; [by apply list_elem_of_In|done]. }
  assert (Forall (fun row => 1 <= seq_of row <= last_operation_sequence st) (journal t')) as Hrange.
  { rewrite Hj. apply Forall_map_iff. eapply Forall_impl; [apply (jo_range _ _ _ S4)|].
    intros row. simpl. by rewrite seq_resolve. }
  destruct (complete_state_watermark st (journal t') r obs changed (Z.of_nat (length target)) fp a now S1 Hrange R2 Hpend)
    as [W1 W2].
  constructor.
  - rewrite Hp. destruct changed; [by apply Hu|done].
  - rewrite Hst. constructor; [exact W1|done|by rewrite Hpt|].
    cbn [last_operation_sequence complete_state]. rewrite Hj at 1. eapply resolved_journal_ok; [exact S4|].
    intros row Hrow Hres. rewrite <- (seq_resolve (rec_operations r) row). apply W2; [|done].
    rewrite Hj. apply list_elem_of_In, in_map. by apply list_elem_of_In.
Qed.

(** ** Persisting an observation *)

(** The rows a client can see are as they were. *)
Definition undisturbed (t t' : Tables) : Prop :=
  journal t' = journal t /\ membership t' = membership t /\ projection t' = projection t
  /\ playlist t' = playlist t.

Lemma undisturbed_ok t t' : undisturbed t t' -> tables_ok t -> tables_ok t'.
Proof.
  intros (Hj & Hm & Hp & _) [H1 H2]. constructor; [by rewrite Hp|]. rewrite Hm. destruct (membership t) as [s|].
  - destruct H2 as [? ? ? ?]. constructor; rewrite ?Hp, ?Hj; done.
  - by rewrite Hj.
Qed.

Lemma same_core_undisturbed t t' : same_core t t' -> undisturbed t t'.
Proof. by intros [? ? ? ? ? ?]. Qed.

Lemma mark_superseded_undisturbed id o reason t : undisturbed t (mark_superseded id o reason t).
Proof. done. Qed.

(** The fence, read back. *)
Lemma fence_spec c l :
  fence_matches l c = true ->
  reconcile_generation (lk_state l) = cap_reconcile_generation c
  /\ baseline_generation (lk_state l) = cap_baseline_generation c
  /\ last_operation_sequence (lk_state l) = cap_through_operation_sequence c
  /\ (lk_owner l ≫= normalize_owner) = Some (cap_owner_id c).
Proof.
  unfold fence_matches. intros H. repeat (apply andb_true_iff in H as [H ?]). bprop. done.
Qed.

Lemma lock_run_spec c t l :
  lock_run c t = Ok l -> membership t = Some (lk_state l).
Proof. unfold lock_run. by repeat case_match; intros; simplify_eq. Qed.

(** The watermarks never go back. *)
Definition marks_forward (t t' : Tables) : Prop :=
  match membership t with
  | Some s => exists s', membership t' = Some s'
      /\ last_operation_sequence s <= last_operation_sequence s'
      /\ committed_operation_sequence s <= committed_operation_sequence s'
  | None => True
  end.

Lemma marks_same t t' : membership t' = membership t -> marks_forward t t'.
Proof. intros E. unfold marks_forward. rewrite E. destruct (membership t) as [s|]; [|done]. eauto with lia. Qed.

Lemma marks_to t t' s s' :
  membership t = Some s -> membership t' = Some s' ->
  last_operation_sequence s <= last_operation_sequence s' ->
  committed_operation_sequence s <= committed_operation_sequence s' -> marks_forward t t'.
Proof. intros E E' H1 H2. unfold marks_forward. rewrite E. by exists s'. Qed.

Lemma marks_trans t1 t2 t3 : marks_forward t1 t2 -> marks_forward t2 t3 -> marks_forward t1 t3.
Proof.
  unfold marks_forward. destruct (membership t1) as [s1|]; [|done]. intros (s2 & -> & H1 & H2) (s3 & -> & H3 & H4).
  exists s3. split_and!; [done|lia|lia].
Qed.

(** How an observation ends: it left the visible rows alone, or it was reconciled
    with exactly the state it had captured. *)
Lemma persist_success_cases c s a obs now t res t' :
  persist_success sha256 collate takes_observed membership_remote_apply c s a obs now t = (res, t') ->
  (undisturbed t t' /\ res <> Ok Applied)
  \/ (res = Ok Applied
      /\ let fp := membership_fingerprint sha256 (snap_track_ids s) in
         exists l t1 r t2, lock_run c t = Ok l /\ fence_matches l c = true
         /\ same_core t t1 /\ legacy_intents t1 = legacy_intents t
         /\ reconcile sha256 collate takes_observed c l s fp (projection t) t1 = (Ok r, t2)
         /\ record_reconciliation membership_remote_apply c l s a fp obs now (projection t) r t2 = (Ok Applied, t')).
Proof.
  unfold persist_success, transaction.
  destruct (persist_success_in _ _ _ _ c s a obs now t) as [[res'|e] t0] eqn:E; intros [= <- <-]; [|by left].
  unfold persist_success_in in E. destruct (_ || _); [done|].
  destruct (lock_run c t) as [l|] eqn:El; [|done].
  destruct (negb (bool_decide (lk_decision l = _))); [injection E as <- <-; by left|].
  destruct (bool_decide (snap_track_ids s = []) && _ && _); [injection E as <- <-; by left|].
  set (fp := membership_fingerprint sha256 (snap_track_ids s)) in *.
  pose proof (store_same (snap_track_ids s) fp t) as Hs. pose proof (store_legacy (snap_track_ids s) fp t) as Hl.
  destruct (store_snapshot (snap_track_ids s) fp t) as [[[]|] t2]; [|done]. cbn [snd] in Hs, Hl.
  set (t3 := insert_observation _ t2) in *. assert (same_core t t3) as H3 by (eapply same_core_trans; [exact Hs|done]).
  destruct (fence_matches l c) eqn:Ef; cbn [negb] in E.
  2:{ injection E as <- <-. left. split; [|done]. by apply same_core_undisturbed in H3. }
  destruct (reconcile _ _ _ c l s fp (projection t) t3) as [[r|] t4] eqn:Er; [|done].
  right. assert (res' = Applied) as ->.
  { unfold record_reconciliation in E. repeat case_match; by simplify_eq. }
  split; [done|]. by exists l, t3, r, t4.
Qed.

(** The tables after an applied observation. *)
Lemma applied_tables c s a obs now l t t1 r t2 t' :
  tables_ok t -> lock_run c t = Ok l -> fence_matches l c = true -> same_core t t1 ->
  let fp := membership_fingerprint sha256 (snap_track_ids s) in
  reconcile sha256 collate takes_observed c l s fp (projection t) t1 = (Ok r, t2) ->
  record_reconciliation membership_remote_apply c l s a fp obs now (projection t) r t2 = (Ok Applied, t') ->
  rec_ok (journal t) (last_operation_sequence (lk_state l)) (committed_operation_sequence (lk_state l)) (snap_track_ids s) r
  /\ projection t' = default (projection t) (rec_projection r)
  /\ journal t' = map (resolve_row (rec_operations r)) (journal t)
  /\ (exists changed count, membership t' = Some (complete_state (lk_state l) (journal t') r obs changed count fp a now))
  /\ tables_ok t'.
Proof.
  intros Ht El Ef H3 fp Er E. apply lock_run_spec in El. apply fence_spec in Ef as (_ & _ & F3 & _).
  pose proof (to_state t Ht) as Hst. rewrite El in Hst. destruct Hst as [W _ _ J].
  apply reconcile_ok in Er as [H4 Hr]; [|done|lia|by rewrite (sc_journal _ _ H3)].
  pose proof (same_core_trans _ _ _ H3 H4) as Hc. rewrite (sc_journal _ _ H3) in Hr.
  assert (tables_ok t2) as Ht4 by (eapply undisturbed_ok; [by apply same_core_undisturbed|done]).
  assert (membership t2 = Some (lk_state l)) as Hm4 by (by rewrite (sc_membership _ _ Hc)).
  rewrite <- (sc_projection _ _ Hc) in E. pose proof E as E'.
  eapply recorded_ok in E'; [|done|done|by rewrite (sc_journal _ _ Hc)].
  destruct (recorded _ _ _ _ _ _ _ _ _ _ _ _ _ E Hm4) as (_ & Hp & _ & Hj & Hm & _).
  split_and!; [done| |by rewrite Hj, (sc_journal _ _ Hc)|by eauto|done].
  rewrite Hp. rewrite (sc_projection _ _ Hc). destruct (rec_projection r) as [p|]; [|done]. simpl.
  clear. by case_bool_decide.
Qed.

Definition observation_outcome (c : ObservationCapture) (s : PlaylistSnapshot)
    (res : result PersistResult RepositoryError) (t t' : Tables) : Prop :=
  (undisturbed t t' /\ res <> Ok Applied)
  \/ (res = Ok Applied
      /\ exists st r,
          membership t = Some st
          /\ reconcile_generation st = cap_reconcile_generation c
          /\ baseline_generation st = cap_baseline_generation c
          /\ last_operation_sequence st = cap_through_operation_sequence c
          /\ rec_ok (journal t) (last_operation_sequence st) (committed_operation_sequence st) (snap_track_ids s) r
          /\ projection t' = default (projection t) (rec_projection r)
          /\ journal t' = map (resolve_row (rec_operations r)) (journal t)
          /\ marks_forward t t'
          /\ tables_ok t').

Lemma persist_success_outcome c s a obs now t res t' :
  tables_ok t ->
  persist_success sha256 collate takes_observed membership_remote_apply c s a obs now t = (res, t') ->
  observation_outcome c s res t t'.
Proof.
  intros Ht [H|(-> & l & t1 & r & t2 & El & Ef & H1 & _ & Er & E)]%persist_success_cases; [by left|].
  right. split; [done|]. destruct (applied_tables _ _ _ _ _ _ _ _ _ _ _ Ht El Ef H1 Er E)
    as (Hr & Hp & Hj & (ch & n & Hm) & Hok).
  apply fence_spec in Ef as (F1 & F2 & F3 & _). apply lock_run_spec in El. exists (lk_state l), r.
  split_and!; try done. eapply marks_to; [done|done|done|]. cbn. lia.
Qed.

Definition failure_ok (f : FailureObservation) : Prop := status_ok (fail_state_status f) (fail_conflict_code f).

Lemma persist_failure_outcome c f obs now t :
  tables_ok t -> failure_ok f ->
  let '(res, t') := persist_failure sha256 membership_remote_apply c f obs now t in
  journal t' = journal t /\ projection t' = projection t /\ marks_forward t t' /\ tables_ok t'.
Proof.
  intros Ht Hf. unfold persist_failure, transaction. pose proof (marks_same t t eq_refl) as Hself.
  destruct (persist_failure_in _ _ c f obs now t) as [[res|e] t1] eqn:E; [|done].
  unfold persist_failure_in in E. destruct (lock_run c t) as [l|] eqn:El; [|done]. apply lock_run_spec in El.
  destruct (negb (bool_decide (lk_decision l = _))); [injection E as <- <-; done|].
  set (t2 := insert_observation _ t) in *. destruct (negb (fence_matches l c)).
  { injection E as <- <-. split_and!; [done|done|by apply marks_same|]. by apply (undisturbed_ok t). }
  replace (membership t2) with (Some (lk_state l)) in E by done. destruct (negb (_ =? _)); [done|].
  set (t3 := with_membership _ t2) in *.
  assert (tables_ok t3) as H3.
  { destruct Ht as [Hnd Hst]. rewrite El in Hst. destruct Hst as [S1 S2 S3 S4]. by constructor. }
  set (t4 := if bool_decide (fail_state_status f = _) then _ else t3) in *.
  assert (undisturbed t3 t4) as (U1 & U2 & U3 & U4) by (unfold t4; destruct (bool_decide _); [apply enqueue_local_same|done]).
  destruct (negb (_ =? 1)%nat); [done|]. injection E as <- <-.
  cbn [complete_run set_run with_runs journal projection]. rewrite U1, U3. split_and!; [done|done| |].
  - eapply marks_to; [done|exact U2|done|done].
  - apply (undisturbed_ok t3); [|done]. done.
Qed.

Lemma capture_undisturbed fresh job gen t :
  tables_ok t ->
  let '(_, t') := capture fresh job gen t in
  journal t' = journal t /\ projection t' = projection t /\ marks_forward t t' /\ tables_ok t'.
Proof.
  intros Ht. unfold capture, transaction. pose proof (marks_same t t eq_refl) as Hself.
  destruct (capture_in fresh job gen t) as [[res|e] t1] eqn:E; [|done].
  unfold capture_in in E. destruct (playlist t) as [p|]; [|done].
  destruct (pl_deleted p); [injection E as <- <-; done|]. destruct (membership t) as [s|] eqn:Em; [|done].
  destruct (find _ (runs t)) as [run|].
  - destruct (negb (_ =? _)); [injection E as <- <-; split_and!; [done|done|by apply marks_same|by apply (undisturbed_ok t)]|].
    destruct (negb (restartable _)); [injection E as <- <-; done|].
    destruct (required_owner _); [|done]. injection E as <- <-.
    split_and!; [done|done|by apply marks_same|by apply (undisturbed_ok t)].
  - destruct (required_owner _); [|done]. injection E as <- <-. split_and!; [done|done|by eapply marks_to|].
    destruct Ht as [Hnd Hst]. rewrite Em in Hst. destruct Hst as [S1 S2 S3 S4]. by constructor.
Qed.

(** A run captures the state it starts from. *)
Lemma capture_through fresh job gen t c t' :
  capture fresh job gen t = (Ok (Some c), t') ->
  exists s, membership t' = Some s /\ cap_through_operation_sequence c = last_operation_sequence s
  /\ cap_baseline_generation c = baseline_generation s.
Proof.
  unfold capture, transaction. destruct (capture_in fresh job gen t) as [[res|e] t1] eqn:E; [|done].
  intros [= -> <-]. unfold capture_in in E. destruct (playlist t) as [p|]; [|done].
  destruct (pl_deleted p); [done|]. destruct (membership t) as [s|] eqn:Em; [|done].
  destruct (find _ (runs t)) as [run|].
  - destruct (negb (_ =? _)); [done|]. destruct (negb (restartable _)); [done|].
    destruct (required_owner _); [|done]. injection E as <- <-. by exists s.
  - destruct (required_owner _); [|done]. injection E as <- <-. by eexists.
Qed.
End facts.
