(* ===== verification/PlaylistObserve.v ===== *)
(** * PlaylistObserve: reading a playlist page by page, and what a failed read records

    Source: [load_membership] and [BodyBudget] of
    [jobs/src/handlers/playlist_observe/remote.rs], and the failures of [mod.rs]
    there.  SoundCloud is a parameter: what a page request answers, with the body's
    size and what [TrackPage::parse] makes of it. *)

From Stdlib Require Import ZArith Lia String.
From stdpp Require Import base list numbers tactics sets gmap.
From S2P Require Import Prelude Text AppError Sequences PlaylistEdit PlaylistEditFacts PlaylistReduce PlaylistJournal PlaylistReconcile PlaylistJournalFacts PlaylistReconcileFacts.
Local Open Scope Z_scope.

Definition REAUTHORIZATION_RETRY : Z := 15 * 60.
Definition RATE_LIMIT_RETRY : Z := 5 * 60.
Definition TRANSPORT_RETRY : Z := 2 * 60.
Definition MALFORMED_RETRY : Z := 5 * 60.
Definition FORBIDDEN_RETRY : Z := 30 * 60.
Definition MAX_REMOTE_RETRY : Z := 24 * 60 * 60.

Definition PAGE_SIZE : Z := 200.
Definition MAX_PAGES : nat := 100.
Definition MAX_TRACKS : Z := PAGE_SIZE * Z.of_nat MAX_PAGES.
Definition MAX_OBSERVATION_BYTES : Z := 16 * 1024 * 1024.

Inductive PlaylistReadError :=
| Transport
| Api (status : Z) (retry_after_seconds : option Z)
| ResponseTooLarge
| InvalidTarget
| InvalidJson
| Paced (retry_after_seconds : Z).

Inductive PlaylistObserveError :=
| ReadFailed (e : PlaylistReadError)
| Deadline
| Invalid (message : str).

(** ** Failures *)

(** [failure], at the time [now]; [Duration]s are seconds. *)
Definition failure (out run status : str) (code : option str) (retry : option Z) (kind : str) (now : Z)
  : FailureObservation :=
  {| fail_outcome := out; fail_run_decision := run; fail_state_status := status;
     fail_conflict_code := code; fail_retry_at := (fun r => now + Z.min r i64_max) <$> retry;
     fail_error_kind := kind |}.

Definition seconds (value fallback : Z) : Z :=
  Z.min (if 0 <? value then value else fallback) MAX_REMOTE_RETRY.

Definition unauthorized_failure : Z -> FailureObservation :=
  failure (lit "unauthorized") (lit "auth_required") (lit "auth_required") None
    (Some REAUTHORIZATION_RETRY) (lit "soundcloud_reauthorization_required").
Definition cooling_down_failure (retry : Z) : Z -> FailureObservation :=
  failure (lit "rate_limited") (lit "retry_wait") (lit "retry_wait") None (Some retry)
    (lit "soundcloud_app_cooling_down").
Definition rate_limited_failure (retry : Z) : Z -> FailureObservation :=
  failure (lit "rate_limited") (lit "retry_wait") (lit "retry_wait") None (Some retry)
    (lit "soundcloud_rate_limited").
Definition transport_failure (kind : str) (retry : Z) : Z -> FailureObservation :=
  failure (lit "transport") (lit "retry_wait") (lit "retry_wait") None (Some retry) kind.
Definition malformed_failure (kind : str) : Z -> FailureObservation :=
  failure (lit "malformed") (lit "incomplete") (lit "retry_wait") None (Some MALFORMED_RETRY) kind.
Definition not_found_failure : Z -> FailureObservation :=
  failure (lit "not_found") (lit "conflict") (lit "conflict") (Some (lit "remote_not_found"))
    (Some FORBIDDEN_RETRY) (lit "soundcloud_playlist_not_found").

Definition is_server_error (status : Z) : bool := (500 <=? status) && (status <=? 599).

Definition read_failure (e : PlaylistObserveError) : Z -> FailureObservation :=
  match e with
  | ReadFailed (Api status retry) =>
      if status =? 404 then not_found_failure
      else if status =? 429 then rate_limited_failure (seconds (default RATE_LIMIT_RETRY retry) RATE_LIMIT_RETRY)
      else if status =? 401 then unauthorized_failure
      else if status =? 403 then transport_failure (lit "soundcloud_forbidden") FORBIDDEN_RETRY
      else if is_server_error status
           then transport_failure (lit "soundcloud_playlist_server_error") TRANSPORT_RETRY
      else transport_failure (lit "soundcloud_playlist_unavailable") TRANSPORT_RETRY
  | ReadFailed (InvalidTarget | InvalidJson | ResponseTooLarge) | Invalid _ =>
      malformed_failure (lit "soundcloud_playlist_malformed")
  | Deadline => transport_failure (lit "soundcloud_playlist_deadline") TRANSPORT_RETRY
  | ReadFailed (Paced retry) => cooling_down_failure (seconds retry TRANSPORT_RETRY)
  | ReadFailed Transport => transport_failure (lit "soundcloud_playlist_unavailable") TRANSPORT_RETRY
  end.

Definition app_wide_cooldown (f : FailureObservation) : option Z :=
  if bool_decide (fail_error_kind f = lit "soundcloud_rate_limited") then Some RATE_LIMIT_RETRY
  else if bool_decide (fail_error_kind f = lit "soundcloud_forbidden")
          || bool_decide (fail_error_kind f = lit "soundcloud_playlist_server_error")
  then Some TRANSPORT_RETRY
  else None.

(** ** Reading the pages *)

Record TrackPage := {
  page_track_ids : list str;
  page_hydrated : list HydratedTrack;
  page_next_href : option str }.

Record PageResponse := { body_bytes : Z; page : result TrackPage str }.

Record ObservedMembership := { ob_track_ids : list str; ob_hydrated : list HydratedTrack }.

(** [BodyBudget::charge]; [used] saturates at [usize::MAX]. *)
Definition charge (used bytes : Z) : result Z PlaylistObserveError :=
  let used := sat_add_u64 used bytes in
  if MAX_OBSERVATION_BYTES <? used
  then Err (Invalid (lit "playlist observation exceeded the aggregate body limit"))
  else Ok used.

Section pages.
Context (fetch : str -> result PageResponse PlaylistReadError).
Context (validate_next_target : str -> result unit PlaylistObserveError).
Context (expected_count : Z).

(** The requests made so far, newest first, and what they gave. *)
Record Reading := {
  rd_next : option str;
  rd_visited : list str;
  rd_track_ids : list str;
  rd_hydrated : list HydratedTrack;
  rd_used : Z }.

Definition hydrated_once (seen : list HydratedTrack) (new : list HydratedTrack) : list HydratedTrack :=
  foldl (fun acc h => if any (fun h' => bool_decide (ht_sc_track_id h' = ht_sc_track_id h)) acc
                      then acc else acc ++ [h]) seen new.

(** One turn of the loop, for a target. *)
Definition read_page (r : Reading) (target : str) : result Reading PlaylistObserveError :=
  if mem (rd_visited r) target then Err (Invalid (lit "playlist pagination repeated a page"))
  else
    match (if starts_with (lit "/") target then Ok tt else validate_next_target target) with
    | Err e => Err e
    | Ok _ =>
        match fetch target with
        | Err e => Err (ReadFailed e)
        | Ok resp =>
            match charge (rd_used r) (body_bytes resp) with
            | Err e => Err e
            | Ok used =>
                match page resp with
                | Err m => Err (Invalid m)
                | Ok p =>
                    let has_next := is_some_b (page_next_href p) in
                    let ids := rd_track_ids r ++ dedup_seen (rd_track_ids r) (page_track_ids p) in
                    let n := Z.of_nat (length ids) in
                    if bool_decide (page_track_ids p = []) && has_next then
                      Err (Invalid (lit "playlist pagination did not advance"))
                    else if (expected_count <? n) || (MAX_TRACKS <? n) then
                      Err (Invalid (lit "playlist returned more tracks than declared"))
                    else if has_next && (n =? expected_count) then
                      Err (Invalid (lit "playlist pagination continues past the declared track count"))
                    else
                      Ok {| rd_next := page_next_href p; rd_visited := target :: rd_visited r;
                            rd_track_ids := ids;
                            rd_hydrated := hydrated_once (rd_hydrated r) (page_hydrated p);
                            rd_used := used |}
                end
            end
        end
    end.

(** [for _ in 0..MAX_PAGES]. *)
Fixpoint read_pages (pages : nat) (r : Reading) : result Reading PlaylistObserveError :=
  match pages, rd_next r with
  | O, _ | _, None => Ok r
  | S pages, Some target =>
      match read_page r target with
      | Err e => Err e
      | Ok r' => read_pages pages r'
      end
  end.

Definition load_membership (first : str) (used : Z) : result (ObservedMembership * Reading) PlaylistObserveError :=
  match read_pages MAX_PAGES {| rd_next := Some first; rd_visited := []; rd_track_ids := [];
                                rd_hydrated := []; rd_used := used |} with
  | Err e => Err e
  | Ok r =>
      match rd_next r with
      | Some _ => Err (Invalid (lit "playlist pagination exceeded the page limit"))
      | None => Ok ({| ob_track_ids := rd_track_ids r; ob_hydrated := rd_hydrated r |}, r)
      end
  end.
End pages.

(** ** Facts *)

Lemma dedup_seen_ext {A} `{EqDecision A} (s1 s2 l : list A) :
  (forall x, x ∈ s1 <-> x ∈ s2) -> dedup_seen s1 l = dedup_seen s2 l.
Proof.
  revert s1 s2. induction l as [|y l IH]; intros s1 s2 H; simpl; [done|].
  rewrite (bool_decide_ext _ _ (H y)). case_bool_decide; [by apply IH|].
  f_equal. apply IH. set_solver.
Qed.

Lemma dedup_seen_app {A} `{EqDecision A} (seen l1 l2 : list A) :
  dedup_seen seen (l1 ++ l2) = dedup_seen seen l1 ++ dedup_seen (seen ++ l1) l2.
Proof.
  revert seen. induction l1 as [|y l1 IH]; intros seen; simpl.
  { by rewrite app_nil_r. }
  case_bool_decide; simpl; rewrite IH; f_equal; [|f_equal]; apply dedup_seen_ext; set_solver.
Qed.

Lemma hydrated_once_NoDup seen new :
  NoDup (map ht_sc_track_id seen) -> NoDup (map ht_sc_track_id (hydrated_once seen new)).
Proof.
  revert seen. induction new as [|h new IH]; intros seen H; simpl; [done|]. apply IH.
  destruct (any _ seen) eqn:E; [done|]. rewrite map_app. apply NoDup_app. split_and!; [done| |by apply NoDup_singleton].
  intros x Hx ->%list_elem_of_singleton. apply not_true_iff_false in E. apply E.
  apply list_elem_of_In, in_map_iff in Hx as (h' & Hh & Hin). apply existsb_exists.
  exists h'. split; [done|]. by apply bool_decide_eq_true.
Qed.

Section page_facts.
Context (fetch : str -> result PageResponse PlaylistReadError).
Context (validate_next_target : str -> result unit PlaylistObserveError).
Context (expected_count : Z).

(** [targets] were asked for in this order, each named by the page before it, and
    the pages answered; [next] is where the last one points. *)
Inductive walk (first : str) : list str -> list TrackPage -> option str -> Prop :=
| walk_start : walk first [] [] (Some first)
| walk_page targets pages target resp p :
    walk first targets pages (Some target) ->
    target ∉ targets ->
    fetch target = Ok resp -> PlaylistObserve.page resp = Ok p ->
    walk first (targets ++ [target]) (pages ++ [p]) (page_next_href p).

Record reading_ok (first : str) (n : nat) (r : Reading) : Prop := {
  ro_walk : exists pages, walk first (reverse (rd_visited r)) pages (rd_next r)
      /\ rd_track_ids r = dedup_seen [] (concat (map page_track_ids pages))
      /\ Forall (fun p => is_Some (page_next_href p) -> page_track_ids p <> []) pages;
  ro_pages : length (rd_visited r) = n;
  ro_distinct : NoDup (rd_visited r);
  ro_hydrated : NoDup (map ht_sc_track_id (rd_hydrated r));
  ro_count : n <> O -> Z.of_nat (length (rd_track_ids r)) <= expected_count `min` MAX_TRACKS;
  ro_used : n <> O -> rd_used r <= MAX_OBSERVATION_BYTES }.

Lemma charge_ok used bytes used' : charge used bytes = Ok used' -> used' <= MAX_OBSERVATION_BYTES.
Proof. unfold charge. destruct (_ <? _) eqn:E; [done|]. intros [= <-]. by apply Z.ltb_ge in E. Qed.

Lemma read_page_ok first n r target r' :
  reading_ok first n r -> rd_next r = Some target ->
  read_page fetch validate_next_target expected_count r target = Ok r' -> reading_ok first (S n) r'.
Proof.
  intros [(pages & Hw & Hids & Hall) Hn Hd Hh _ _] Hnext. unfold read_page.
  destruct (mem (rd_visited r) target) eqn:Em; [done|]. apply mem_false in Em.
  destruct (if starts_with _ target then _ else _); [|done].
  destruct (fetch target) as [resp|] eqn:Ef; [|done].
  destruct (charge _ _) as [used|] eqn:Ec; [|done]. apply charge_ok in Ec.
  destruct (PlaylistObserve.page resp) as [p|] eqn:Ep; [|done].
  destruct (bool_decide _ && _) eqn:E1; [done|]. destruct (_ || _) eqn:E2; [done|].
  destruct (is_some_b _ && _) eqn:E3; [done|]. intros [= <-].
  apply orb_false_iff in E2 as [E2 E2']. apply Z.ltb_ge in E2, E2'.
  constructor; cbn [rd_visited rd_next rd_track_ids rd_hydrated rd_used].
  - exists (pages ++ [p]). rewrite reverse_cons. rewrite Hnext in Hw. split_and!.
    + econstructor; [exact Hw|by rewrite elem_of_reverse|done|done].
    + rewrite map_app, concat_app. cbn. rewrite app_nil_r, dedup_seen_app, <- Hids. f_equal.
      apply dedup_seen_ext. intros x. rewrite Hids, dedup_seen_In. set_solver.
    + apply Forall_app. split; [done|]. constructor; [|done]. intros [x Hx] E.
      rewrite bool_decide_eq_true_2, Hx in E1 by done. done.
  - simpl. by rewrite Hn.
  - by constructor.
  - by apply hydrated_once_NoDup.
  - lia.
  - done.
Qed.

Lemma read_pages_ok first k n r r' :
  reading_ok first n r -> read_pages fetch validate_next_target expected_count k r = Ok r' ->
  exists m, (n <= m <= n + k)%nat /\ reading_ok first m r' /\ (k <> O -> is_Some (rd_next r) -> m <> O).
Proof.
  revert n r. induction k as [|k IH]; intros n r Hr; simpl.
  { intros [= <-]. exists n. split_and!; [lia|lia|done|done]. }
  destruct (rd_next r) as [target|] eqn:Et.
  - destruct (read_page _ _ _ r target) as [r1|] eqn:E; [|done]. intros H.
    eapply read_page_ok in E; [|done|done]. eapply IH in E as (m & Hm & Hok & _); [|done].
    exists m. split_and!; [lia|lia|done|lia].
  - intros [= <-]. exists n. split_and!; [lia|lia|done|]. by intros _ [? ?].
Qed.
End page_facts.

(** A successful read of a playlist's pages is exactly the walk of the [next_href] links
    from the first page to a page without one: every target asked for once and at most
    [MAX_PAGES] of them, the track ids being the first occurrence of each id over the pages
    in order, no more of them than SoundCloud declared or [MAX_TRACKS], each hydrated track
    once, and the bodies within the byte budget. *)
Theorem load_membership_exact (fetch : str -> result PageResponse PlaylistReadError)
    (validate_next_target : str -> result unit PlaylistObserveError)
    (expected_count : Z) (first : str) (used : Z) (m : ObservedMembership) (r : Reading)
    (H : load_membership fetch validate_next_target expected_count first used = Ok (m, r)) :
  (exists pages, walk fetch first (reverse (rd_visited r)) pages None
     /\ ob_track_ids m = dedup_seen [] (concat (map page_track_ids pages)))
  /\ NoDup (rd_visited r) /\ (1 <= length (rd_visited r) <= MAX_PAGES)%nat
  /\ NoDup (ob_track_ids m) /\ Z.of_nat (length (ob_track_ids m)) <= expected_count `min` MAX_TRACKS
  /\ NoDup (map ht_sc_track_id (ob_hydrated m))
  /\ rd_used r <= MAX_OBSERVATION_BYTES.
Proof.
  unfold load_membership in H. destruct (read_pages _ _ _ MAX_PAGES _) as [r1|] eqn:E; [|done].
  destruct (rd_next r1) eqn:En; [done|]. injection H as <- <-.
  apply (read_pages_ok fetch validate_next_target expected_count first MAX_PAGES 0) in E as (n & Hn & [(pages & Hw & Hids & _) Hp Hd Hh Hc Hu] & H0).
  - assert (n <> O) as Hn0 by (apply H0; [done|by eexists]). rewrite En in Hw. cbn.
    split_and!; [by exists pages|done|lia|lia|rewrite Hids; apply dedup_seen_NoDup|by apply Hc|done|by apply Hu].
  - constructor; cbn; try done; [|constructor|constructor].
    exists []. split_and!; [constructor|done|constructor].
Qed.

(** Every way of failing to read a playlist is recorded with a status the database accepts
    and a retry between one second and a day away, and the whole application backs off
    exactly when SoundCloud answered 429, 403 or a server error. *)
Theorem read_failure_sound (e : PlaylistObserveError) (now : Z) :
  let f := read_failure e now in
  status_ok (fail_state_status f) (fail_conflict_code f)
  /\ (exists wait, fail_retry_at f = Some (now + wait) /\ 1 <= wait <= MAX_REMOTE_RETRY)
  /\ (is_Some (app_wide_cooldown f) <->
      exists status retry, e = ReadFailed (Api status retry)
        /\ (status = 429 \/ status = 403 \/ 500 <= status <= 599)).
Proof.
  intros f. unfold f, read_failure. clear f.
  assert (forall value fallback, 1 <= fallback -> 1 <= seconds value fallback <= MAX_REMOTE_RETRY) as Hsec.
  { intros v d Hd. unfold seconds, MAX_REMOTE_RETRY. destruct (Z.ltb_spec 0 v); lia. }
  assert (forall o r s c w k, 1 <= w <= MAX_REMOTE_RETRY ->
    exists wait, fail_retry_at (failure o r s c (Some w) k now) = Some (now + wait) /\ 1 <= wait <= MAX_REMOTE_RETRY) as Hw.
  { intros. exists w. split; [|done]. cbn. f_equal. unfold MAX_REMOTE_RETRY in *. unfold i64_max. lia. }
  assert (forall f', is_Some (app_wide_cooldown f') <-> fail_error_kind f' = lit "soundcloud_rate_limited"
    \/ fail_error_kind f' = lit "soundcloud_forbidden" \/ fail_error_kind f' = lit "soundcloud_playlist_server_error") as Hc.
  { intros f. unfold app_wide_cooldown. repeat case_bool_decide; simpl; split; try done; try (by intros [? ?]); tauto. }
  unfold read_failure, is_server_error. rewrite Hc. clear Hc.
  destruct e as [[|status retry| | | |retry]| |m].
  2: destruct (Z.eqb_spec status 404); [|destruct (Z.eqb_spec status 429); [|destruct (Z.eqb_spec status 401);
       [|destruct (Z.eqb_spec status 403); [|destruct (Z.leb_spec 500 status), (Z.leb_spec status 599)]]]]; cbn [andb].
  all: refine (conj _ (conj _ _)); [status_lit|apply Hw; first [by apply Hsec|by vm_compute]|].
  all: split; [intros [K|[K|K]]; first [discriminate K|by eauto 6 with lia]
              |intros (? & ? & He & Hr); first [discriminate He|injection He as <- <-]; first [tauto|lia]].
Qed.

(** An instance: two pages with a track in common. *)
Definition page_target (n : nat) : str := lit "/playlists/1/tracks?page=" ++ [Z.of_nat n].
Definition two_pages (t : str) : result PageResponse PlaylistReadError :=
  Ok {| body_bytes := 4096;
        page := Ok {| page_track_ids := map lit (if bool_decide (t = page_target 0) then ["7"; "8"] else ["8"; "9"])%string;
                      page_hydrated := [];
                      page_next_href := if bool_decide (t = page_target 0) then Some (page_target 1) else None |} |}.

Lemma load_membership_exact_witness :
  exists m r, load_membership two_pages (fun _ => Ok tt) 4 (page_target 0) 1000 = Ok (m, r)
    /\ ob_track_ids m = map lit ["7"; "8"; "9"]%string
    /\ NoDup (rd_visited r) /\ rd_used r = 9192.
Proof.
  eexists _, _. split; [vm_compute; reflexivity|]. split; [reflexivity|]. split; [|reflexivity].
  eapply (load_membership_exact two_pages (fun _ => Ok tt) 4 (page_target 0) 1000). vm_compute. reflexivity.
Defined.
