(* ===== verification/PlaylistWriters.v ===== *)
(** * PlaylistWriters: the other commands that write a playlist's tables

    Besides edits and observations five commands write the projection or the state of a
    playlist: the job that confirms a playlist it created on SoundCloud
    ([jobs/src/handlers/sync_queue/actions/playlist.rs]), the user's delete
    ([scd_cmd_playlist_delete]), the observer that found it deleted there
    ([retire_remotely_deleted]), a listing that shows it ([scd_cmd_observe_playlists]) and a
    reader of it ([playlist_read_wake]).  Each keeps the invariant and the journal. *)

From Stdlib Require Import ZArith Lia String.
From stdpp Require Import base list numbers tactics sets gmap.
From S2P Require Import Prelude Text EntityRef AppError Sequences PlaylistEdit PlaylistReduce PlaylistJournal PlaylistReconcile PlaylistJournalFacts PlaylistReconcileFacts.
Local Open Scope Z_scope.

Definition with_playlist (x : option PlaylistRow) (t : Tables) : Tables :=
  {| playlist := x; membership := membership t; journal := journal t;
     projection := projection t; runs := runs t; observations := observations t;
     snapshots := snapshots t; legacy_intents := legacy_intents t; tracks := tracks t;
     apply_queue := apply_queue t; user_events := user_events t; disliked := disliked t;
     refresh_jobs := refresh_jobs t |}.

(** The columns these commands set, the others as they were. *)
Definition rescheduled (count generation : Z) (status : str) (streak : Z) (due : option Z) (s : MembershipState)
  : MembershipState :=
  {| baseline_generation := baseline_generation s; baseline_observation_id := baseline_observation_id s;
     latest_observation_id := latest_observation_id s; projection_revision := projection_revision s;
     projection_track_count := count;
     last_operation_sequence := last_operation_sequence s;
     committed_operation_sequence := committed_operation_sequence s;
     reconcile_generation := generation; sync_status := status; conflict_code := conflict_code s;
     candidate_fingerprint := candidate_fingerprint s; reconcile_failure_streak := streak;
     next_reconcile_at := due; last_error := last_error s;
     remote_apply_fingerprint := remote_apply_fingerprint s;
     remote_apply_generation := remote_apply_generation s; remote_applied_at := remote_applied_at s |}.

(** [playlist_membership_state_conflict_complete]. *)
Definition conflict_complete (s : MembershipState) : bool :=
  Bool.eqb (bool_decide (sync_status s = lit "conflict")) (bool_decide (is_Some (conflict_code s))).

(** ** A created playlist is confirmed *)

(** What is kept of [CreatedPlaylist]; a missing owner is the empty string. *)
Record CreatedPlaylist := { cr_owner_sc_user_id : str; cr_tracks : option (list str) }.

Definition nullif_empty (s : str) : option str := if bool_decide (s = []) then None else Some s.

(** [upsert_created_playlist.sql]: [ON CONFLICT DO NOTHING]. *)
Definition upsert_created_playlist (p : CreatedPlaylist) (t : Tables) : Tables :=
  match playlist t with
  | Some _ => t
  | None => with_playlist (Some {| pl_deleted := false; pl_owner := nullif_empty (cr_owner_sc_user_id p); pl_owned_by := [] |}) t
  end.

Definition delete_created_playlist_tracks : Tables -> Tables := with_projection [].

(** The first place of each track, in order. *)
Definition insert_created_playlist_tracks (track_ids : list str) (t : Tables) : Tables :=
  with_projection (projection t ++ dedup_seen [] track_ids) t.

(** [ensure_created_playlist_state.sql]; [None] when a constraint refuses the row. *)
Definition ensure_created_playlist_state (now : Z) (t : Tables) : option Tables :=
  let s' := match membership t with
            | None => fresh_membership t now
            | Some s =>
                rescheduled (Z.of_nat (length (projection t))) (reconcile_generation s)
                  (if baseline_generation s =? 0 then lit "unhydrated" else sync_status s)
                  (reconcile_failure_streak s) (Some (default now (next_reconcile_at s))) s
            end in
  if conflict_complete s' then Some (with_membership (Some s') t) else None.

(** [upsert_owned_playlist.sql]; [place] is where the user's row ranks now. *)
Definition upsert_owned_playlist (user_id : str) (place : nat) (t : Tables) : Tables :=
  with_playlist
    (option_map (fun p =>
       let others := List.filter (fun u => negb (bool_decide (u = user_id))) (pl_owned_by p) in
       {| pl_deleted := pl_deleted p; pl_owner := pl_owner p;
          pl_owned_by := take place others ++ user_id :: drop place others |}) (playlist t)) t.

Section writers.
Context (new_v5 : Z -> bytes -> Z).

Definition playlist_add_events (mutation_id : Z) (track_ids : list str) : list Z * list str :=
  let tracks := dedup_seen [] track_ids in
  (map (fun id => new_v5 mutation_id (as_bytes id)) tracks, tracks).

(** [^[0-9]{1,18}$]. *)
Definition numeric_id (id : str) : bool :=
  forallb is_ascii_digit id && (1 <=? length id)%nat && (length id <=? 18)%nat.

(** [record_playlist_adds] and [record_created_playlist_adds.sql], while the mutation is queued. *)
Definition record_created_playlist_adds (mutation_id : Z) (user_id : str) (track_ids : list str) (t : Tables) : Tables :=
  let '(event_ids, tracks) := playlist_add_events mutation_id track_ids in
  let rows := map (fun e => {| ev_id := e.1; ev_user := user_id; ev_track := e.2 |})
                (List.filter (fun e : Z * str =>
                   numeric_id e.2
                   && negb (any (fun d => bool_decide (d.1 ∈ user_id_variants user_id) && bool_decide (d.2 = e.2)) (disliked t)))
                   (zip event_ids tracks)) in
  with_user_events
    (foldl (fun es e => if any (fun e' => ev_id e' =? ev_id e) es then es else es ++ [e]) (user_events t) rows) t.

(** [finalize_create]: the whole transaction, rolled back when a statement is refused. *)
Definition finalize_create (mutation_id : Z) (user_id : str) (p : CreatedPlaylist) (place : nat) (now : Z) (t : Tables) : Tables :=
  let t1 := upsert_created_playlist p t in
  let t2 := match cr_tracks p with
            | None => t1
            | Some track_ids =>
                let emptied := delete_created_playlist_tracks t1 in
                let filled := if bool_decide (track_ids = []) then emptied
                              else insert_created_playlist_tracks track_ids emptied in
                record_created_playlist_adds mutation_id user_id track_ids filled
            end in
  match ensure_created_playlist_state now t2 with
  | Some t3 => upsert_owned_playlist user_id place t3
  | None => t
  end.
End writers.

(** ** Deleted, here or on SoundCloud *)

Definition marked_deleted (p : PlaylistRow) : PlaylistRow :=
  {| pl_deleted := true; pl_owner := pl_owner p; pl_owned_by := pl_owned_by p |}.

(** No observation of an earlier generation will be applied, and none is due. *)
Definition retired (s : MembershipState) : MembershipState :=
  rescheduled (projection_track_count s) (reconcile_generation s + 1) (sync_status s) (reconcile_failure_streak s) None s.

(** [scd_cmd_playlist_delete]. *)
Definition playlist_delete (owner : str) (t : Tables) : Tables :=
  match playlist t with
  | Some p =>
      if bool_decide (pl_owner p = Some owner)
      then with_playlist (Some (marked_deleted p)) (with_membership (option_map retired (membership t)) t)
      else t
  | None => t
  end.

(** [retire_remotely_deleted.sql]: it also drops the owner's queued writes and claims. *)
Definition retire_remotely_deleted (c : ObservationCapture) (t : Tables) : Tables :=
  match playlist t with
  | Some p =>
      if bool_decide (pl_owner p = Some (cap_owner_id c))
      then
        let p' := {| pl_deleted := true; pl_owner := pl_owner p;
                     pl_owned_by := List.filter (fun u => negb (bool_decide (u ∈ user_id_variants (cap_owner_id c)))) (pl_owned_by p) |} in
        with_playlist (Some p')
          (with_apply_queue (List.filter (fun r => negb (bool_decide (ap_user r = cap_owner_id c))) (apply_queue t))
             (with_membership (option_map retired (membership t)) t))
      else t
  | None => t
  end.

(** ** Seen in a listing *)

(** One row of the command: the owner it names, whether the observation is current
    ([catalog_observation_is_current]), and whether the track count then stored differs from the
    baseline's.  The last two depend on columns not kept. *)
Record ListedPlaylist := { li_owner : option str; li_current : bool; li_differs : bool }.

Definition upsert_listed (r : ListedPlaylist) (t : Tables) : Tables :=
  with_playlist
    (Some match playlist t with
          | None => {| pl_deleted := false; pl_owner := li_owner r; pl_owned_by := [] |}
          | Some p =>
              if negb (pl_deleted p) && li_current r
              then {| pl_deleted := false; pl_owner := match li_owner r with Some o => Some o | None => pl_owner p end;
                      pl_owned_by := pl_owned_by p |}
              else p
          end) t.

(** The second [INSERT .. ON CONFLICT]: a state when there is none, else due again. *)
Definition wake_listed (stamp : Z) (r : ListedPlaylist) (t : Tables) : Tables :=
  match playlist t, membership t with
  | Some p, Some s =>
      if negb (pl_deleted p) && (last_operation_sequence s <=? committed_operation_sequence s) && li_differs r
      then with_membership (Some (rescheduled (projection_track_count s) (reconcile_generation s) (sync_status s)
                                    (reconcile_failure_streak s) (Some stamp) s)) t
      else t
  | _, _ => ensure_membership t stamp
  end.

(** [scd_cmd_observe_playlists] for the playlist; in the mode [absent] only a new row is stored. *)
Definition observe_playlists (absent : bool) (stamp : Z) (r : ListedPlaylist) (t : Tables) : Tables :=
  if absent
  then match playlist t with
       | Some _ => t
       | None => with_playlist (Some {| pl_deleted := false; pl_owner := li_owner r; pl_owned_by := [] |}) t
       end
  else wake_listed stamp r (upsert_listed r (ensure_membership t stamp)).

(** ** Read by someone *)

(** [playlist_read_wake]; [stale]: the playlist is public and was not read for six hours. *)
Definition playlist_read_wake (now : Z) (stale : bool) (t : Tables) : Tables :=
  match membership t with
  | Some s =>
      if stale && bool_decide (is_Some (playlist t)) && bool_decide (sync_status s = lit "auth_required")
      then with_membership (Some (rescheduled (projection_track_count s) (reconcile_generation s) (lit "retry_wait") 0 (Some now) s)) t
      else t
  | None => t
  end.

(** ** They keep the invariant *)

(** The journal is untouched and the state's watermarks stay. *)
Record aside (t t' : Tables) : Prop := {
  as_ok : tables_ok t';
  as_journal : journal t' = journal t;
  as_marks : marks_forward t t' }.

Lemma aside_refl t : tables_ok t -> aside t t.
Proof. intros H. constructor; [done|done|by apply marks_same]. Qed.

(** A state rewritten within the constraints, with whatever projection it counts. *)
Lemma aside_state t t' s s' :
  tables_ok t -> membership t = Some s -> journal t' = journal t -> NoDup (projection t') -> membership t' = Some s' ->
  last_operation_sequence s' = last_operation_sequence s ->
  committed_operation_sequence s' = committed_operation_sequence s ->
  status_ok (sync_status s') (conflict_code s') ->
  projection_track_count s' = Z.of_nat (length (projection t')) -> aside t t'.
Proof.
  intros [_ Hs] Em Hj Hp Em' El Ec Hst Hcount. rewrite Em in Hs. destruct Hs as [W _ _ J].
  constructor; [|done|by eapply marks_to; [done..|lia|lia]].
  constructor; [done|]. rewrite Em'. constructor; [by rewrite El, Ec|done|done|by rewrite Hj, El, Ec].
Qed.

(** A state row made for a playlist that had none. *)
Lemma aside_new t t' now :
  tables_ok t -> membership t = None -> journal t' = journal t -> NoDup (projection t') ->
  (membership t' = None \/ exists u, projection u = projection t' /\ membership t' = Some (fresh_membership u now)) -> aside t t'.
Proof.
  intros [_ Hs] Em Hj Hp H. rewrite Em in Hs. constructor; [|done|unfold marks_forward; by rewrite Em].
  constructor; [done|]. destruct H as [->|(u & Hu & ->)]; [congruence|]. rewrite <- Hj in Hs.
  constructor; cbn; [lia| |by rewrite Hu|rewrite Hs; constructor; cbn; constructor].
  split; [apply (bool_decide_unpack _); vm_compute; exact I|]. split; [intros E; by vm_compute in E|by intros [? ?]].
Qed.

(** Only the playlist's own row, or tables the invariant does not mention. *)
Lemma aside_rest t t' :
  tables_ok t -> journal t' = journal t -> projection t' = projection t -> membership t' = membership t -> aside t t'.
Proof.
  intros [H1 H2] Hj Hp Hm. constructor; [|done|by apply marks_same]. constructor; [by rewrite Hp|].
  rewrite Hm. destruct (membership t); [|by rewrite Hj]. destruct H2. constructor; rewrite ?Hj, ?Hp; done.
Qed.

Lemma aside_trans t1 t2 t3 : aside t1 t2 -> (tables_ok t2 -> aside t2 t3) -> aside t1 t3.
Proof.
  intros [O1 J1 M1] H. destruct (H O1) as [O2 J2 M2]. constructor; [done|congruence|by eapply marks_trans].
Qed.

Lemma ensure_aside t stamp : tables_ok t -> aside t (ensure_membership t stamp).
Proof.
  intros Ht. unfold ensure_membership. destruct (membership t) as [s|] eqn:Em; [by apply aside_refl|].
  destruct (playlist t) as [p|]; [|by apply aside_refl]. destruct (pl_deleted p); [by apply aside_refl|].
  apply (aside_new _ _ stamp); try done; [apply Ht|]. right. by exists t.
Qed.

(** A rescheduled state, with a status the code allows. *)
Lemma reschedule_aside t t' s generation status streak due :
  tables_ok t -> membership t = Some s -> journal t' = journal t -> projection t' = projection t ->
  membership t' = Some (rescheduled (projection_track_count s) generation status streak due s) ->
  status_ok status (conflict_code s) -> aside t t'.
Proof.
  intros Ht Em Hj Hp Em' Hst. pose proof Ht as [Hnd Hs]. rewrite Em in Hs. destruct Hs as [_ _ C _].
  eapply aside_state; try done; by rewrite Hp.
Qed.

Lemma state_status t s : tables_ok t -> membership t = Some s -> status_ok (sync_status s) (conflict_code s).
Proof. intros [_ H] E. rewrite E in H. by destruct H. Qed.

Lemma retired_aside t t' :
  tables_ok t -> journal t' = journal t -> projection t' = projection t ->
  membership t' = option_map retired (membership t) -> aside t t'.
Proof.
  intros Ht Hj Hp Hm. destruct (membership t) as [s|] eqn:Em; [|by apply aside_rest; rewrite ?Em].
  eapply reschedule_aside; try done. by eapply state_status.
Qed.

Lemma playlist_delete_aside owner t : tables_ok t -> aside t (playlist_delete owner t).
Proof.
  intros Ht. unfold playlist_delete. destruct (playlist t) as [p|]; [|by apply aside_refl].
  case_bool_decide; [by apply retired_aside|by apply aside_refl].
Qed.

Lemma retire_aside c t : tables_ok t -> aside t (retire_remotely_deleted c t).
Proof.
  intros Ht. unfold retire_remotely_deleted. destruct (playlist t) as [p|]; [|by apply aside_refl].
  case_bool_decide; [by apply retired_aside|by apply aside_refl].
Qed.

Lemma wake_listed_aside stamp r t : tables_ok t -> aside t (wake_listed stamp r t).
Proof.
  intros Ht. unfold wake_listed. destruct (playlist t) as [p|] eqn:Ep; [|by apply ensure_aside].
  destruct (membership t) as [s|] eqn:Em; [|by apply ensure_aside].
  destruct (_ && li_differs r); [|by apply aside_refl]. eapply reschedule_aside; try done. by eapply state_status.
Qed.

Lemma observe_playlists_aside absent stamp r t : tables_ok t -> aside t (observe_playlists absent stamp r t).
Proof.
  intros Ht. unfold observe_playlists. destruct absent.
  - destruct (playlist t); [by apply aside_refl|by apply aside_rest].
  - eapply aside_trans; [by apply (ensure_aside t stamp)|]. intros H1.
    eapply aside_trans; [by apply (aside_rest _ (upsert_listed r (ensure_membership t stamp)))|]. by apply wake_listed_aside.
Qed.

Lemma read_wake_aside now stale t : tables_ok t -> aside t (playlist_read_wake now stale t).
Proof.
  intros Ht. unfold playlist_read_wake. destruct (membership t) as [s|] eqn:Em; [|by apply aside_refl].
  destruct (_ && bool_decide (sync_status s = _)) eqn:E; [|by apply aside_refl]. apply andb_true_iff in E as [_ E%bool_decide_eq_true].
  eapply reschedule_aside; try done. destruct (state_status t s Ht Em) as [_ Hc].
  split; [apply (bool_decide_unpack _); vm_compute; exact I|]. split; [intros H; by vm_compute in H|].
  intros H%Hc. rewrite E in H. by vm_compute in H.
Qed.

Lemma conflict_complete_iff s : conflict_complete s = true <-> (sync_status s = lit "conflict" <-> is_Some (conflict_code s)).
Proof. unfold conflict_complete. rewrite eqb_true_iff. do 2 case_bool_decide; intuition congruence. Qed.

(** The confirmed state counts the projection it found. *)
Lemma ensure_created_aside now t0 t t' :
  tables_ok t0 -> journal t = journal t0 -> membership t = membership t0 -> NoDup (projection t) ->
  ensure_created_playlist_state now t = Some t' -> aside t0 t'.
Proof.
  intros Ht Hj Hm Hp. unfold ensure_created_playlist_state. rewrite Hm. destruct (conflict_complete _) eqn:Ec; [|done].
  intros [= <-]. destruct (membership t0) as [s|] eqn:Em.
  - apply conflict_complete_iff in Ec. destruct (state_status t0 s Ht Em) as [Hst _].
    eapply aside_state; try done. split; [|done]. cbn. destruct (_ =? 0); [|done].
    apply (bool_decide_unpack _). vm_compute. exact I.
  - apply (aside_new _ _ now); try done. right. by exists t.
Qed.

Lemma finalize_create_aside new_v5 mutation_id user_id p place now t :
  tables_ok t -> aside t (finalize_create new_v5 mutation_id user_id p place now t).
Proof.
  intros Ht. unfold finalize_create.
  set (t1 := upsert_created_playlist p t).
  assert (journal t1 = journal t /\ membership t1 = membership t /\ projection t1 = projection t) as (Hj & Hm & Hp).
  { unfold t1, upsert_created_playlist. by destruct (playlist t). }
  set (t2 := match cr_tracks p with None => t1 | Some ids => _ end).
  assert (journal t2 = journal t /\ membership t2 = membership t /\ NoDup (projection t2)) as (Hj2 & Hm2 & Hp2).
  { unfold t2. destruct (cr_tracks p) as [ids|]; [|split_and!; [done|done|rewrite Hp; apply Ht]].
    case_bool_decide; cbn; split_and!; try done; [constructor|apply dedup_seen_NoDup]. }
  destruct (ensure_created_playlist_state now t2) as [t3|] eqn:E; [|by apply aside_refl].
  eapply aside_trans; [by eapply ensure_created_aside|]. intros H3. by apply aside_rest.
Qed.
