(* ===== verification/PlaylistSync.v ===== *)
(** * PlaylistSync: edits and observations of a playlist in any order

    The steps of [PlaylistJournal] and [PlaylistReconcile] as one transition system:
    users append edits, observers capture, read SoundCloud and persist what they
    saw, the commands of [PlaylistWriters] create, delete, list and wake the playlist,
    and the rest of the system changes the other tables, all interleaved.  The
    theorems are about every such history. *)

From Stdlib Require Import ZArith Lia String.
From stdpp Require Import base list numbers tactics sets gmap sorting relations.
From S2P Require Import Prelude Text EntityRef AppError Sequences PlaylistEdit PlaylistEditFacts PlaylistReduce PlaylistReduceFacts PlaylistJournal PlaylistReconcile PlaylistJournalFacts PlaylistReconcileFacts PlaylistWriters.
Local Open Scope Z_scope.

(** The columns of the state that only the steps below write. *)
Definition state_core (s : MembershipState) :=
  (baseline_generation s, projection_revision s, projection_track_count s,
   (last_operation_sequence s, committed_operation_sequence s, reconcile_generation s),
   sync_status s, conflict_code s).

Section sync.
Context (sha256 : bytes -> bytes) (hex_encode : bytes -> str) (new_v5 : Z -> bytes -> Z).
Context (collate : list str -> list str) (takes_observed : TrackRow -> HydratedTrack -> bool)
  (membership_remote_apply : bool).

Abbreviation append' := (append sha256 hex_encode new_v5).
Abbreviation persist_success' := (persist_success sha256 collate takes_observed membership_remote_apply).
Abbreviation persist_failure' := (persist_failure sha256 membership_remote_apply).

(** One transaction on the playlist's tables. *)
Inductive sync_step (t : Tables) : Tables -> Prop :=
| step_append actor r key fresh at_ :
    NoDup (submitted_track_ids (edit r)) -> sync_step t (append' actor r key fresh at_ t).2
| step_capture run job job_generation : sync_step t (capture run job job_generation t).2
| step_observed c s a observation now : sync_step t (persist_success' c s a observation now t).2
| step_failed c f observation now :
    failure_ok f -> sync_step t (persist_failure' c f observation now t).2
| step_created mutation_id user_id p place now : sync_step t (finalize_create new_v5 mutation_id user_id p place now t)
| step_deleted owner : sync_step t (playlist_delete owner t)
| step_retired c : sync_step t (retire_remotely_deleted c t)
| step_listed absent stamp r : sync_step t (observe_playlists absent stamp r t)
| step_read now stale : sync_step t (playlist_read_wake now stale t)
| step_other t' :
    (** Statements on other tables and columns: the claims and wakes that set
        [next_reconcile_at], [confirm_membership_apply.sql], the catalog. *)
    journal t' = journal t -> projection t' = projection t ->
    state_core <$> membership t' = state_core <$> membership t -> sync_step t t'.

Lemma state_core_ok t t' :
  journal t' = journal t -> projection t' = projection t ->
  state_core <$> membership t' = state_core <$> membership t -> tables_ok t -> tables_ok t'.
Proof.
  intros Hj Hp Hm [H1 H2]. constructor; [by rewrite Hp|].
  destruct (membership t) as [s|], (membership t') as [s'|]; try done; [|by rewrite Hj].
  injection Hm as ? ? E1 E2 E3 ? E4 E5. destruct H2 as [W S C J].
  constructor; rewrite ?E1, ?E2, ?E3, ?E4, ?E5, ?Hj, ?Hp; done.
Qed.

(** How a row may change: not at all once it is resolved; otherwise it is kept
    pending, refused with a code, or committed. *)
Definition row_step (committable : Prop) (r r' : OperationRow) : Prop :=
  r' = r
  \/ (op_resolved r = false /\ op_row r' = op_row r /\ op_key r' = op_key r /\ op_resolved r' = true
      /\ ((op_outcome r' = lit "conflict" /\ is_Some (op_conflict_code r'))
          \/ (op_outcome r' = lit "committed" /\ committable))).

Lemma resolve_row_step ops r (P : Prop) :
  (forall o, o ∈ ops -> resolution o = Committed -> P) -> row_step P r (resolve_row ops r).
Proof.
  intros HP. unfold resolve_row. destruct (op_resolved r) eqn:Er; [by left|].
  destruct (find _ ops) as [o|] eqn:E; [|by left]. apply find_Some in E as [Ho E].
  apply andb_true_iff in E as [E _]. right.
  split_and!; try done. cbn [op_outcome op_conflict_code].
  destruct (resolution o) eqn:Eo; [done|..]; cbn [resolution_outcome resolution_conflict_code].
  - right. split; [done|]. by apply (HP o).
  - left. split; [done|by eexists].
Qed.

(** The tables [t'] are those of an applied observation that showed the projection. *)
Definition shown (t t' : Tables) : Prop :=
  exists c s a observation now,
    persist_success' c s a observation now t = (Ok Applied, t') /\ projection t' = snap_track_ids s.

(** A step keeps the invariant, the rows in place and the watermarks' direction. *)
Record forward (t t' : Tables) : Prop := {
  fw_ok : tables_ok t';
  fw_rows : forall i r, journal t !! i = Some r ->
    exists r', journal t' !! i = Some r' /\ row_step (shown t t') r r';
  fw_marks : marks_forward t t' }.

Lemma forward_same t t' :
  tables_ok t' -> journal t' = journal t -> marks_forward t t' -> forward t t'.
Proof.
  intros Hok Hj Hm. constructor; [done| |done].
  rewrite Hj. intros i r Hr. exists r. split; [done|by left].
Qed.

Lemma append_forward actor r key fresh at_ t :
  tables_ok t -> NoDup (submitted_track_ids (edit r)) -> forward t (append' actor r key fresh at_ t).2.
Proof.
  intros Ht Hsub. pose proof (append_preserves sha256 hex_encode new_v5 actor r key fresh at_ t Ht Hsub) as Hok.
  destruct (append' actor r key fresh at_ t) as [res t'] eqn:E. cbn [snd] in *.
  apply append_inv in E as [->|(ops & out & _ & Hae)]; [by apply forward_same, marks_same| |done|done].
  constructor; [done| |].
  - intros i row Hrow. exists row. rewrite (ae_journal _ _ _ _ _ _ _ _ _ _ _ Hae).
    split; [by apply lookup_app_l_Some|by left].
  - unfold marks_forward. destruct (membership t) as [s|] eqn:Em; [|done].
    rewrite (ae_state _ _ _ _ _ _ _ _ _ _ _ Hae). eexists. split; [done|].
    unfold state_for. rewrite Em. cbn. lia.
Qed.

Lemma observed_forward c s a observation now t :
  tables_ok t -> forward t (persist_success' c s a observation now t).2.
Proof.
  intros Ht. destruct (persist_success' c s a observation now t) as [res t'] eqn:E. cbn [snd].
  pose proof E as Ho. apply persist_success_outcome in Ho as [[Hu _]|(-> & st & r & Hm & _ & _ & _ & Hr & Hp & Hj & Hmk & Hok)]; [| |done].
  - pose proof Hu as (Hj & Hm & _ & _). apply forward_same; [by eapply undisturbed_ok|done|by apply marks_same].
  - constructor; [done| |done]. intros i row Hrow. exists (resolve_row (rec_operations r) row).
    split; [by rewrite Hj, list_lookup_fmap, Hrow|]. apply resolve_row_step. intros o Hin Hcom.
    exists c, s, a, observation, now. split; [done|]. rewrite Hp. by rewrite (ro_committed _ _ _ _ _ Hr o Hin Hcom).
Qed.

Lemma aside_forward t t' : aside t t' -> forward t t'.
Proof. intros [? ? ?]. by apply forward_same. Qed.

Lemma step_forward t t' : tables_ok t -> sync_step t t' -> forward t t'.
Proof.
  intros Ht [actor r key fresh at_ Hsub|run job g|c s a o now|c f o now Hf|m u p place now|owner|c|absent stamp r|now stale|t1 Hj Hp Hm].
  - by apply append_forward.
  - pose proof (capture_undisturbed run job g t Ht) as H. destruct (capture run job g t) as [res t1].
    destruct H as (Hj & _ & Hm & Hok). by apply forward_same.
  - by apply observed_forward.
  - pose proof (persist_failure_outcome sha256 membership_remote_apply c f o now t Ht Hf) as H.
    destruct (persist_failure' c f o now t) as [res t1]. destruct H as (Hj & _ & Hm & Hok). by apply forward_same.
  - by apply aside_forward, finalize_create_aside.
  - by apply aside_forward, playlist_delete_aside.
  - by apply aside_forward, retire_aside.
  - by apply aside_forward, observe_playlists_aside.
  - by apply aside_forward, read_wake_aside.
  - apply forward_same; [by eapply state_core_ok|done|]. unfold marks_forward.
    destruct (membership t) as [s|], (membership t1) as [s'|]; try done.
    injection Hm as ? ? ? E1 E2 ? ? ?. exists s'. by rewrite E1, E2.
Qed.

(** A playlist nobody has edited or observed yet. *)
Definition untracked (t : Tables) : Prop := membership t = None /\ journal t = [] /\ NoDup (projection t).

Lemma untracked_ok t : untracked t -> tables_ok t.
Proof. intros (Hm & Hj & Hnd). constructor; [done|]. by rewrite Hm. Qed.

Lemma history_forward t t' :
  tables_ok t -> rtc sync_step t t' -> tables_ok t' /\ marks_forward t t'.
Proof.
  intros Ht H. induction H as [t|t1 t2 t3 H1 _ IH]; [split; [done|by apply marks_same]|].
  destruct (step_forward _ _ Ht H1) as [Hok _ Hm]. destruct (IH Hok) as [Hok' Hm'].
  split; [done|by eapply marks_trans].
Qed.

(** What a history may do to a row. *)
Definition row_history (t t' : Tables) (r r' : OperationRow) : Prop :=
  r' = r
  \/ (op_resolved r = false /\ op_row r' = op_row r /\ op_key r' = op_key r /\ op_resolved r' = true
      /\ ((op_outcome r' = lit "conflict" /\ is_Some (op_conflict_code r'))
          \/ (op_outcome r' = lit "committed"
              /\ exists t1 t2, rtc sync_step t t1 /\ shown t1 t2 /\ rtc sync_step t2 t'))).
End sync.

(** C18: whatever users and observers do to a playlist, in any order and from a playlist nobody
    has touched, among edits, observations, the confirmation of its creation, its deletion here
    or on SoundCloud, listings that show it, readers that wake it, and statements on other
    tables and columns, its tables stay consistent: no track twice in the
    projection, the recorded count its length, the status one the database knows with a
    conflict code exactly for a conflict, the journal numbered upwards without repetition
    below the last sequence, every row replayable with the outcome its resolution says, and
    no pending row at or below the committed watermark, which never exceeds the last sequence. *)
Theorem playlist_tables_invariant sha256 hex_encode new_v5 collate takes_observed membership_remote_apply
    (t t' : Tables) (H0 : untracked t)
    (H : rtc (sync_step sha256 hex_encode new_v5 collate takes_observed membership_remote_apply) t t') :
  tables_ok t'.
Proof. eapply history_forward; [by apply untracked_ok|done]. Qed.

(** C4: no edit is lost: along every history of a playlist a row of the journal keeps its place, its
    operation and its key; once resolved it never changes again; and it is resolved only by
    a conflict, which carries a code, or committed by an observation in that history that
    found on SoundCloud exactly the projection it left. *)
Theorem edits_never_lost sha256 hex_encode new_v5 collate takes_observed membership_remote_apply
    (t t' : Tables) (Ht : tables_ok t)
    (H : rtc (sync_step sha256 hex_encode new_v5 collate takes_observed membership_remote_apply) t t')
    (i : nat) (r : OperationRow) (Hr : journal t !! i = Some r) :
  exists r', journal t' !! i = Some r'
    /\ row_history sha256 hex_encode new_v5 collate takes_observed membership_remote_apply t t' r r'.
Proof.
  revert i r Hr. induction H as [t|t1 t2 t3 H1 H2 IH]; intros i r Hr; [exists r; split; [done|by left]|].
  destruct (step_forward _ _ _ _ _ _ _ _ Ht H1) as [Hok Hrows _].
  destruct (Hrows i r Hr) as (r1 & Hr1 & Hs1). destruct (IH Hok i r1 Hr1) as (r2 & Hr2 & Hs2).
  exists r2. split; [done|].
  destruct Hs1 as [->|(Hres & E1 & E2 & E3 & Hout)].
  - destruct Hs2 as [->|(? & ? & ? & ? & Hout)]; [by left|right]. split_and!; try done.
    destruct Hout as [?|(? & ta & tb & Ha & Hb & Hc)]; [by left|right]. split; [done|].
    exists ta, tb. split_and!; [by eapply rtc_l|done|done].
  - destruct Hs2 as [->|(? & _)]; [|congruence]. right. split_and!; try done.
    destruct Hout as [?|(? & Hsh)]; [by left|right]. split; [done|]. exists t1, t2. split_and!; [reflexivity|done|done].
Qed.

(** An observation that raced with an edit is thrown away: if anything was appended to the
    journal after the run captured its state, at whatever point of whatever history, then
    persisting what was read changes no row a client can see and is not applied. *)
Theorem raced_observation_discarded sha256 hex_encode new_v5 collate takes_observed membership_remote_apply
    (t0 t1 t2 t3 t4 : Tables) (Ht : tables_ok t0) run job job_generation c
    (Hcap : capture run job job_generation t0 = (Ok (Some c), t1))
    (H12 : rtc (sync_step sha256 hex_encode new_v5 collate takes_observed membership_remote_apply) t1 t2)
    actor r key fresh at_ out (Hsub : NoDup (submitted_track_ids (edit r)))
    (Happ : append sha256 hex_encode new_v5 actor r key fresh at_ t2 = (Ok out, t3)) (Hout : 0 < appended out)
    (H34 : rtc (sync_step sha256 hex_encode new_v5 collate takes_observed membership_remote_apply) t3 t4)
    s a observation now :
  let '(res, t5) := persist_success sha256 collate takes_observed membership_remote_apply c s a observation now t4 in
  undisturbed t4 t5 /\ res <> Ok Applied.
Proof.
  destruct (persist_success _ _ _ _ c s a observation now t4) as [res t5] eqn:E.
  destruct (capture_through _ _ _ _ _ _ Hcap) as (s1 & Hs1 & Hthrough & _).
  pose proof (capture_undisturbed run job job_generation t0 Ht) as Hok1. rewrite Hcap in Hok1.
  destruct Hok1 as (_ & _ & _ & Hok1).
  destruct (history_forward _ _ _ _ _ _ _ _ Hok1 H12) as [Hok2 M12]. unfold marks_forward in M12. rewrite Hs1 in M12.
  destruct M12 as (s2 & Hs2 & Hlast & _).
  pose proof (append_preserves sha256 hex_encode new_v5 actor r key fresh at_ t2 Hok2 Hsub) as Hok3.
  rewrite Happ in Hok3. cbn [snd] in Hok3.
  destruct (append_appended _ _ _ _ _ _ _ _ _ _ _ Hok2 Hsub Happ Hout) as (ops & Hae).
  assert (exists s3, membership t3 = Some s3 /\ last_operation_sequence s2 < last_operation_sequence s3) as (s3 & Hs3 & Hlt).
  { rewrite (ae_state _ _ _ _ _ _ _ _ _ _ _ Hae). eexists. split; [done|]. unfold state_for. rewrite Hs2.
    cbn. pose proof (ae_out _ _ _ _ _ _ _ _ _ _ _ Hae) as Ho. rewrite Ho in Hout. cbn in Hout. lia. }
  destruct (history_forward _ _ _ _ _ _ _ _ Hok3 H34) as [Hok4 M34]. unfold marks_forward in M34. rewrite Hs3 in M34.
  destruct M34 as (s4 & Hs4 & Hlast4 & _).
  apply persist_success_outcome in E as [?|(_ & st & r' & Hst & _ & _ & Hl & _)]; [done| |done].
  rewrite Hs4 in Hst. injection Hst as <-. lia.
Qed.

(** ** One edit and the observation after it *)

Lemma entries_journal sha256 hex_encode new_v5 fresh key base ops :
  Forall (fun o => readable o /\ anchors_distinct (intent_of o)) ops ->
  let rows := map op_row (insert_operations base None (imap (journal_entry sha256 hex_encode new_v5 fresh key) ops)) in
  journals (readable_operations rows) ops /\ malformed_operations rows = [].
Proof.
  intros H rows.
  assert (Forall2 (fun row o => row_intent row = Some (intent_of o)) rows ops) as Hrows.
  { apply Forall2_lookup. intros i. unfold rows, insert_operations. rewrite list_lookup_fmap, !list_lookup_imap.
    destruct (ops !! i) as [o|] eqn:E; simpl; constructor. rewrite entry_row.
    rewrite Forall_lookup in H. apply row_roundtrip. by destruct (H i o E). }
  clearbody rows. clear H. unfold journals, readable_operations, malformed_operations.
  induction Hrows as [|row o rows ops Hro Hrows [IH1 IH2]]; [done|].
  cbn [omap list_omap]. rewrite Hro. cbn. by rewrite IH1.
Qed.

(** Decisions that leave the journal and the projection alone. *)
Definition left_waiting (r : Reconciliation) : Prop :=
  rec_projection r = None /\ rec_operations r = [] /\ rec_conflict_code r = Some (lit "catalog_incomplete").

Lemma reconcile_pending sha256 collate takes_observed c l s fp local t r t' :
  reconcile sha256 collate takes_observed c l s fp local t = (Ok r, t') ->
  legacy_intents t = false ->
  committed_operation_sequence (lk_state l) < last_operation_sequence (lk_state l) ->
  left_waiting r
  \/ let rows := pending_rows (cap_through_operation_sequence c) (journal t) in
     let committed := committed_operation_sequence (lk_state l) in
     exists rel, r = reduced_reconciliation sha256 (reduce (snap_track_ids s) (readable_operations rows) committed)
                       (malformed_operations rows) rel true committed.
Proof.
  unfold reconcile. intros H Hleg Hlt. pose proof (hydrate_same collate takes_observed s t) as Hh.
  pose proof (hydrate_legacy collate takes_observed s t) as Hl.
  destruct (hydrate_catalog collate takes_observed s t) as [[complete|] t1]; [|done]. cbn [snd] in *.
  rewrite Hl, Hleg, (proj2 (Z.ltb_lt _ _) Hlt) in H. destruct complete; cbn [andb] in H.
  - apply reduce_pending_spec in H as (_ & [] & rel & ->); rewrite (sc_journal _ _ Hh); [right; by exists rel|by left].
  - injection H as <- _. left. by split_and!.
Qed.

Lemma find_map_none {A B} (f : A -> option B) l : Forall (fun a => f a = None) l -> find_map f l = None.
Proof. induction 1 as [|a l Ha _ IH]; [done|]. simpl. by rewrite Ha. Qed.

(** Reducing the rows of a clean edit. *)
Lemma reduced_edit sha256 j last committed remote ops rel :
  journal_ok j last committed -> committed <= last ->
  let rows := pending_rows last j in
  journals (readable_operations rows) ops -> malformed_operations rows = [] -> clean_run ops remote ->
  let r := reduced_reconciliation sha256 (reduce remote (readable_operations rows) committed)
             (malformed_operations rows) rel true committed in
  rec_projection r = Some (apply_all ops remote)
  /\ if bool_decide (apply_all ops remote = remote)
     then rec_state_status r = lit "clean"
          /\ Forall (fun row => op_resolved row = true) (map (resolve_row (rec_operations r)) j)
     else rec_state_status r = lit "shadow_ready" /\ map (resolve_row (rec_operations r)) j = j.
Proof.
  intros Hj Hle rows Hjs Hmal Hrun r.
  destruct (reduce_clean remote (readable_operations rows) ops committed Hjs Hrun) as (Hc & Ho & _ & Hall).
  unfold r, reduced_reconciliation. rewrite Hmal, app_nil_r. cbn [negb].
  set (red := reduce remote (readable_operations rows) committed) in *.
  set (sorted := sort_by _ (operations red)).
  assert (Forall (fun o => resolution o = if bool_decide (apply_all ops remote = remote) then Committed else Pending)
    sorted) as Hsorted by (unfold sorted; by rewrite sort_by_perm).
  rewrite find_map_none.
  2:{ eapply Forall_impl; [exact Hsorted|]. intros o ->. by case_bool_decide. }
  rewrite Ho. case_bool_decide as Hd; cbn [rec_projection rec_state_status rec_operations].
  - split; [by rewrite Hc|]. split; [done|]. apply Forall_map_iff, Forall_forall. intros row Hrow.
    destruct (op_resolved row) eqn:Er; [by rewrite resolve_row_kept|].
    destruct (row_resolution j last committed remote Hj row Hrow Er) as (o & Hin & _ & _ & Eo).
    etransitivity; [exact Eo|]. rewrite Forall_forall in Hsorted. by rewrite (Hsorted o Hin).
  - split; [by rewrite Hc|]. split; [done|]. rewrite <- (map_id j) at 2. apply map_ext. intros row.
    unfold resolve_row. destruct (op_resolved row); [done|].
    destruct (find _ sorted) as [o|] eqn:Ef; [|done]. apply find_Some in Ef as [Hin Ht].
    rewrite Forall_forall in Hsorted. by rewrite (Hsorted o Hin) in Ht.
Qed.

(** The pending rows right after an edit are its operations. *)
Lemma pending_edit sha256 hex_encode new_v5 r key fresh at_ t t1 ops out last committed :
  appended_edit sha256 hex_encode new_v5 r key fresh at_ t t1 ops out ->
  NoDup (projection t) -> NoDup (submitted_track_ids (edit r)) ->
  Forall (fun row => op_resolved row = true) (journal t) -> journal_ok (journal t1) last committed ->
  let rows := pending_rows last (journal t1) in
  journals (readable_operations rows) ops /\ malformed_operations rows = [] /\ committed < last.
Proof.
  intros [Hops Hne _ _ _ _ Hjour _ _ _ _] Hnd Hsub Hnone HJ rows.
  apply derive_Ok in Hops as [Hd _]. rewrite <- effective_edit_submitted in Hsub.
  set (new := insert_operations _ None _) in Hjour.
  pose proof (jo_range _ _ _ HJ) as Hr. pose proof (jo_sorted _ _ _ HJ) as Hs.
  pose proof (jo_pending _ _ _ HJ) as Hq. rewrite Hjour in Hr, Hs, Hq. rewrite map_app in Hs.
  apply Forall_app in Hr as [_ Hr]. apply Forall_app in Hq as [_ Hq].
  assert (Forall (fun row => op_resolved row = false) new) as Hpend.
  { apply Forall_forall. intros row Hrow. by eapply entries_unresolved. }
  assert (rows = map op_row new) as ->.
  { unfold rows. rewrite Hjour. apply pending_rows_new; try done.
    - eapply Forall_impl; [exact Hr|]. simpl. lia.
    - by eapply StronglySorted_app_1_r. }
  destruct (entries_journal sha256 hex_encode new_v5 fresh key (last_operation_sequence (state_for t at_)) ops)
    as [Hjs Hmal]; [rewrite Hd; by apply derived_wf|]. split_and!; [done|done|].
  destruct new as [|row new'] eqn:En; [destruct ops; [done|discriminate En]|].
  pose proof (Forall_inv Hr). pose proof (Forall_inv Hq (Forall_inv Hpend)). simpl in *. lia.
Qed.

(** An edit survives the observations that follow it.  Take a playlist with nothing pending,
    append an edit, and apply an observation that shows the playlist either as it was before
    the edit or as the edit left it.  The projection stays the edited one.  If SoundCloud shows
    the edit, every row is resolved, the playlist is clean and the watermark is the last
    sequence; if it still shows the list before, the rows stay pending; and if a track has no
    catalog row yet, nothing is resolved and the playlist says so. *)
Theorem edit_survives_observation sha256 hex_encode new_v5 collate takes_observed membership_remote_apply
    (t t1 t2 t3 : Tables) (Ht : tables_ok t) (Hnone : Forall (fun r => op_resolved r = true) (journal t))
    actor r key fresh at_ out (Hsub : NoDup (submitted_track_ids (edit r)))
    (Happ : append sha256 hex_encode new_v5 actor r key fresh at_ t = (Ok out, t1)) (Hout : 0 < appended out)
    (Ht2 : tables_ok t2) (Hj : journal t2 = journal t1) (Hp : projection t2 = projection t1)
    (Hleg : legacy_intents t2 = false) c s a observation now
    (Hobs : persist_success sha256 collate takes_observed membership_remote_apply c s a observation now t2
            = (Ok Applied, t3))
    (Hshows : snap_track_ids s = projection t \/ snap_track_ids s = projection t1) :
  exists st, membership t3 = Some st
  /\ projection t3 = projection t1
  /\ ((conflict_code st = Some (lit "catalog_incomplete") /\ journal t3 = journal t1)
      \/ (snap_track_ids s = projection t1 /\ sync_status st = lit "clean"
          /\ Forall (fun row => op_resolved row = true) (journal t3)
          /\ committed_operation_sequence st = last_operation_sequence st)
      \/ (snap_track_ids s = projection t /\ sync_status st = lit "shadow_ready"
          /\ journal t3 = journal t1)).
Proof.
  destruct (append_appended _ _ _ _ _ _ _ _ _ _ _ Ht Hsub Happ Hout)
    as (ops & Hae).
  apply persist_success_cases in Hobs as [[_ ?]|(_ & l & ta & rc & tb & El & Ef & Hsame & Hlegs & Hrec & Hrecord)]; [done|].
  destruct (applied_tables _ _ _ _ _ _ _ _ _ _ _ _ _ _ _ Ht2 El Ef Hsame Hrec Hrecord)
    as ([_ Hthr _ _] & Hp3 & Hj3 & (ch & n & Hm3) & _).
  apply fence_spec in Ef as (_ & _ & Hthrough & _). apply lock_run_spec in El.
  pose proof (to_state t2 Ht2) as Hst. rewrite El in Hst. destruct Hst as [Hw _ _ HJ].
  pose proof (to_projection t Ht) as Hnd. rewrite Hj in HJ.
  destruct (pending_edit _ _ _ _ _ _ _ _ _ _ _ _ _ Hae Hnd Hsub Hnone HJ) as (Hjs & Hmal & Hlt).
  destruct Hae as [Hops _ _ _ Hproj _ _ _ _ _ _]. apply derive_Ok in Hops as [Hd _].
  rewrite <- effective_edit_submitted in Hsub.
  eexists. split; [exact Hm3|]. cbn [conflict_code sync_status committed_operation_sequence last_operation_sequence complete_state].
  rewrite Hp, Hj in *. apply reconcile_pending in Hrec as [(Hn & Hno & Hcode)|(rel & ->)]; [| |congruence|done].
  - rewrite Hn in Hp3. split; [done|]. left. split; [done|]. rewrite Hj3, Hno.
    rewrite <- (map_id (journal t1)) at 2. apply map_ext. intros row. unfold resolve_row. by destruct (op_resolved row).
  - rewrite (sc_journal _ _ Hsame), Hj, <- Hthrough in *.
    assert (clean_run ops (snap_track_ids s) /\ apply_all ops (snap_track_ids s) = projection t1) as [Hrun Hap].
    { rewrite Hproj. destruct Hshows as [->| ->]; [split; [rewrite Hd; by apply derived_clean|done]|].
      rewrite Hproj, Hd. by apply derived_replayed. }
    destruct (reduced_edit sha256 (journal t1) (last_operation_sequence (lk_state l))
      (committed_operation_sequence (lk_state l)) (snap_track_ids s) ops rel HJ ltac:(lia) Hjs Hmal Hrun) as [Hpr Hcase].
    rewrite Hpr, Hap in Hp3. split; [done|]. right. rewrite Hap in Hcase. case_bool_decide as Hb.
    + left. destruct Hcase as [Hclean Hres]. rewrite <- Hj3 in Hres. split_and!; [done|done|done|].
      pose proof (first_pending_spec (journal t3)) as Hf. destruct (first_pending (journal t3)) as [m|].
      * destruct Hf as (_ & row & Hrow & Hr & _). rewrite Forall_forall in Hres. by rewrite (Hres row Hrow) in Hr.
      * clear -Hthr Hlt. lia.
    + right. destruct Hcase as [Hst Hsamej]. destruct Hshows as [?|?]; [|congruence]. split_and!; [done|done|].
      by rewrite Hj3.
Qed.

(** ** An instance

    The playlist of user 7 holds track 1; track 2 is added, and SoundCloud is
    observed before and after. *)
Module Sample.
Definition track (id : str) : TrackRow :=
  {| tr_id := id; tr_deleted := false; tr_public := true; tr_uploader := None |}.

Definition start : Tables :=
  {| playlist := Some {| pl_deleted := false; pl_owner := Some (lit "7"); pl_owned_by := [] |};
     membership := None; journal := []; projection := [lit "1"]; runs := []; observations := [];
     snapshots := []; legacy_intents := false; tracks := [track (lit "1"); track (lit "2")];
     apply_queue := []; user_events := []; disliked := []; refresh_jobs := [] |}.

Definition sha : bytes -> bytes := fun b => b.
Definition hex : bytes -> str := fun b => b.
Definition v5 (k : Z) (b : bytes) : Z := k + from_be_bytes b.
Definition sort_ids : list str -> list str := fun l => l.
Definition takes (_ : TrackRow) (_ : HydratedTrack) : bool := true.

Definition add_two : MembershipRequest :=
  {| edit := EditAdd (lit "2"); expected_projection_revision := Some 0 |}.
Definition ids (i : nat) : Z := 100 + Z.of_nat i.

Definition edited : result JournalOutcome AppError * Tables := append sha hex v5 (lit "7") add_two 5000 ids 10 start.
Definition captured := capture 1 2 3 edited.2.
Definition the_capture : ObservationCapture :=
  {| cap_run_id := 1; cap_job_id := 2; cap_job_generation := 3; cap_owner_id := lit "7";
     cap_reconcile_generation := 1; cap_baseline_generation := 0; cap_through_operation_sequence := 1 |}.
Definition shows (tracks : list str) : PlaylistSnapshot :=
  {| snap_owner_id := lit "7"; snap_track_ids := tracks; snap_hydrated := [];
     snap_track_count := Z.of_nat (length tracks) |}.
Definition persist := persist_success sha sort_ids takes true the_capture (shows [lit "1"; lit "2"]) Owner 60 20.
Definition observed := persist captured.2.

Lemma start_untracked : untracked start.
Proof. split_and!; [done|done|]. apply NoDup_singleton. Qed.

Lemma submits_once : NoDup (submitted_track_ids (edit add_two)).
Proof. apply NoDup_singleton. Qed.

Lemma edited_out : edited.1 = Ok {| appended := 1; jo_projection_revision := 1 |}.
Proof. vm_compute. reflexivity. Qed.

Lemma captured_out : captured.1 = Ok (Some the_capture).
Proof. vm_compute. reflexivity. Qed.

Lemma observed_out : observed.1 = Ok Applied.
Proof. vm_compute. reflexivity. Qed.

Abbreviation step := (sync_step sha hex v5 sort_ids takes true).

Lemma edited_step : step start edited.2.
Proof. apply step_append, submits_once. Qed.

Lemma captured_step : step edited.2 captured.2.
Proof. apply step_capture. Qed.

Lemma observed_step : step captured.2 observed.2.
Proof. apply step_observed. Qed.

Lemma edited_ok : tables_ok edited.2.
Proof. apply append_preserves; [apply untracked_ok, start_untracked|apply submits_once]. Qed.

Lemma append_exact_witness :
  projection edited.2 = [lit "1"; lit "2"]
  /\ exists out, append sha hex v5 (lit "7") add_two 5000 (fun _ => 9) 99 edited.2 = (Ok out, edited.2)
       /\ appended out = 0.
Proof.
  split; [vm_compute; reflexivity|].
  pose proof (append_exact sha hex v5 (lit "7") add_two 5000 ids 10 start
                (untracked_ok _ start_untracked) submits_once) as H. cbv zeta in H.
  fold edited in H. destruct edited as [[out|] t'] eqn:E.
  - destruct H as [_ H]. exact (H (fun _ => 9) 99).
  - pose proof edited_out as E'. rewrite E in E'. discriminate E'.
Defined.

(** The same playlist as the answer of its creation would show it, and deleted then. *)
Definition confirmed : Tables :=
  finalize_create v5 900 (lit "7") {| cr_owner_sc_user_id := lit "7"; cr_tracks := Some [lit "2"; lit "1"; lit "2"] |} 0 30 observed.2.
Definition deleted : Tables := playlist_delete (lit "7") confirmed.

Lemma deleted_history : rtc step start deleted.
Proof.
  eapply rtc_l; [apply edited_step|]. eapply rtc_l; [apply captured_step|]. eapply rtc_l; [apply observed_step|].
  apply (rtc_l _ _ confirmed); [apply step_created|]. apply rtc_once, step_deleted.
Qed.

Lemma deleted_rows : projection deleted = [lit "2"; lit "1"] /\ (projection_track_count <$> membership deleted) = Some 2.
Proof. split; vm_compute; reflexivity. Qed.

Lemma playlist_tables_invariant_witness :
  rtc step start deleted /\ tables_ok deleted
  /\ projection deleted = [lit "2"; lit "1"] /\ (projection_track_count <$> membership deleted) = Some 2.
Proof.
  split; [exact deleted_history|]. split; [|exact deleted_rows].
  exact (playlist_tables_invariant sha hex v5 sort_ids takes true start deleted start_untracked deleted_history).
Defined.

Lemma edits_never_lost_witness :
  exists r r', journal edited.2 !! 0%nat = Some r /\ journal observed.2 !! 0%nat = Some r'
    /\ op_outcome r' = lit "committed" /\ row_history sha hex v5 sort_ids takes true edited.2 observed.2 r r'.
Proof.
  assert (rtc step edited.2 observed.2) as H.
  { eapply rtc_l; [apply captured_step|]. eapply rtc_once, observed_step. }
  destruct (journal edited.2 !! 0%nat) as [r|] eqn:E; [|by vm_compute in E].
  destruct (edits_never_lost sha hex v5 sort_ids takes true edited.2 observed.2 edited_ok H 0 r E) as (r' & Hr' & Hh).
  exists r, r'. split_and!; [done|done| |exact Hh].
  clear -Hr'. vm_compute in Hr'. injection Hr' as <-. reflexivity.
Defined.

(** The run captures the tracked but unedited playlist, and the edit comes after. *)
Definition removal : MembershipRequest := {| edit := EditRemove (lit "2"); expected_projection_revision := None |}.
Definition raced := append sha hex v5 (lit "7") removal 6000 (fun i => 200 + Z.of_nat i) 15 captured.2.

Lemma raced_observation_discarded_witness :
  projection raced.2 = [lit "1"] /\ undisturbed raced.2 (persist raced.2).2 /\ (persist raced.2).1 <> Ok Applied.
Proof.
  split; [vm_compute; reflexivity|].
  assert (capture 1 2 3 edited.2 = (Ok (Some the_capture), captured.2)) as Hcap.
  { pose proof captured_out as E. unfold captured in *. destruct (capture 1 2 3 edited.2). cbn in *. by subst. }
  assert (append sha hex v5 (lit "7") removal 6000 (fun i => 200 + Z.of_nat i) 15 captured.2
          = (Ok {| appended := 1; jo_projection_revision := 2 |}, raced.2)) as Happ by (vm_compute; reflexivity).
  pose proof (raced_observation_discarded sha hex v5 sort_ids takes true edited.2 captured.2 captured.2 raced.2 raced.2
    edited_ok 1 2 3 the_capture Hcap (rtc_refl _ _) (lit "7") removal 6000 _ 15 _ ltac:(apply NoDup_nil_2) Happ
    ltac:(done) (rtc_refl _ _) (shows [lit "1"; lit "2"]) Owner 60 20) as H.
  unfold persist. destruct (persist_success _ _ _ _ _ _ _ _ _ raced.2) as [res t5]. exact H.
Defined.

Lemma edit_survives_observation_witness :
  projection observed.2 = [lit "1"; lit "2"] /\ Forall (fun row => op_resolved row = true) (journal observed.2).
Proof.
  assert (append sha hex v5 (lit "7") add_two 5000 ids 10 start
          = (Ok {| appended := 1; jo_projection_revision := 1 |}, edited.2)) as Happ by (vm_compute; reflexivity).
  assert (tables_ok captured.2) as Hok.
  { pose proof (capture_undisturbed 1 2 3 edited.2 edited_ok) as H. unfold captured.
    destruct (capture 1 2 3 edited.2). apply H. }
  assert (persist_success sha sort_ids takes true the_capture (shows [lit "1"; lit "2"]) Owner 60 20 captured.2
          = (Ok Applied, observed.2)) as Hobs by (vm_compute; reflexivity).
  destruct (edit_survives_observation sha hex v5 sort_ids takes true start edited.2 captured.2 observed.2
    (untracked_ok _ start_untracked) ltac:(constructor) (lit "7") add_two 5000 ids 10 _ submits_once Happ ltac:(done)
    Hok ltac:(vm_compute; reflexivity) ltac:(vm_compute; reflexivity) ltac:(vm_compute; reflexivity)
    the_capture (shows [lit "1"; lit "2"]) Owner 60 20 Hobs ltac:(by right; vm_compute))
    as (st & Hm & Hp & Hcases).
  split; [by rewrite Hp; vm_compute|].
  destruct Hcases as [[Hc _]|[(_ & _ & H & _)|(Hs & _)]]; [|exact H|by vm_compute in Hs].
  clear -Hm Hc. vm_compute in Hm. injection Hm as <-. by vm_compute in Hc.
Defined.
End Sample.
