(* ===== verification/WritePauses.v ===== *)
(** * WritePauses: holding back writes SoundCloud refuses

    Source: [jobs/src/handlers/sync_queue/write_pause.rs] and the report counter
    of [pause_group.rs].  A [Mutex<HashMap<K, Pause>>] is a map passed along: each
    method locks it for its whole body.  [Instant::now()] is the argument [now], in
    nanoseconds, and so are [Duration]s; an [Instant] far enough to overflow the
    addition is out of reach of the callers. *)

From Stdlib Require Import ZArith Lia String.
From stdpp Require Import base list numbers tactics sets gmap relations.
From S2P Require Import Prelude Text.
Local Open Scope Z_scope.

(** [Duration::from_secs]. *)
Definition secs (n : Z) : Z := n * 1000000000.

Definition MAX_PAUSE : Z := secs (2 * 60 * 60).
Definition PROBE_HOLD : Z := secs 120.

Record Pause := { until : Z; strikes : Z; probing : bool }.

Inductive Admission := Open | Probe | Paused (seconds : Z).

(** [whole_seconds]: at least one. *)
Definition whole_seconds (d : Z) : Z := Z.max (Z.min (d / 1000000000) i64_max) 1.

Section pauses.
Context {K : Type} `{EqDecision K} `{Countable K}.

Abbreviation WritePauses := (gmap K Pause).
Implicit Types (m : WritePauses) (k : K).

(** [entry(key).or_insert(..)]. *)
Definition entry (now : Z) (k : K) (m : WritePauses) : Pause :=
  default {| until := now; strikes := 0; probing := false |} (m !! k).

(** [base.checked_mul(1_u32.checked_shl(strikes).unwrap_or(MAX)).unwrap_or(MAX_PAUSE).min(MAX_PAUSE)]. *)
Definition longer (base strikes : Z) : Z :=
  let factor := if strikes <? 32 then 2 ^ strikes else u32_max in
  let product := base * factor in
  Z.min (if product / 1000000000 <=? u64_max then product else MAX_PAUSE) MAX_PAUSE.

(** [Duration::from_secs(u64::try_from(seconds).unwrap_or(0).max(1))]. *)
Definition at_least_a_second (seconds : Z) : Z := secs (Z.max (Z.max seconds 0) 1).

Definition hold (now : Z) (k : K) (seconds : Z) (escalate : bool) (m : WritePauses)
  : Z * WritePauses :=
  let p := entry now k m in
  let base := at_least_a_second seconds in
  if escalate && (probing p || (strikes p =? 0) || (until p <=? now)) then
    let l := longer base (strikes p) in
    (whole_seconds l,
     <[k := {| until := now + l; strikes := Z.min (strikes p + 1) u32_max; probing := false |}]> m)
  else
    (whole_seconds base,
     <[k := {| until := Z.max (until p) (now + base); strikes := strikes p; probing := probing p |}]> m).

Definition pause (now : Z) (k : K) (seconds : Z) (m : WritePauses) : WritePauses :=
  (hold now k seconds false m).2.

Definition strikes_of (k : K) (m : WritePauses) : Z := from_option strikes 0 (m !! k).

Definition pause_longer_each_time (now : Z) (k : K) (seconds : Z) (m : WritePauses)
  : (Z * Z) * WritePauses :=
  let '(s, m') := hold now k seconds true m in ((s, strikes_of k m'), m').

Definition pause_refused (now : Z) (k : K) (seconds : Z) (m : WritePauses)
  : (Z * Z) * WritePauses :=
  let p := entry now k m in
  let h := Z.min (at_least_a_second seconds) MAX_PAUSE in
  let p' := {| until := Z.max (until p) (now + h); strikes := Z.max (strikes p) 1; probing := false |} in
  ((whole_seconds (Z.max 0 (until p' - now)), strikes p'), <[k := p']> m).

Definition restore (now : Z) (k : K) (remaining strikes : Z) (m : WritePauses) : WritePauses :=
  <[k := {| until := now + Z.min remaining MAX_PAUSE; strikes := Z.max strikes 1; probing := false |}]> m.

Definition admit_write (now : Z) (k : K) (m : WritePauses) : Admission * WritePauses :=
  match m !! k with
  | None => (Open, m)
  | Some p =>
      let remaining := Z.max 0 (until p - now) in
      if negb (remaining =? 0) then (Paused (whole_seconds remaining), m)
      else if strikes p =? 0 then (Open, delete k m)
      else (Probe, <[k := {| until := now + PROBE_HOLD; strikes := strikes p; probing := true |}]> m)
  end.

Definition succeeded (now : Z) (k : K) (spacing : option Z) (m : WritePauses) : WritePauses :=
  match spacing with
  | Some s => <[k := {| until := now + s; strikes := 0; probing := false |}]> m
  | None => delete k m
  end.

Definition blocked (now : Z) (k : K) (own_probe : bool) (m : WritePauses) : option Z :=
  match m !! k with
  | None => None
  | Some p =>
      let remaining := Z.max 0 (until p - now) in
      if (remaining =? 0) || (own_probe && probing p) then None
      else Some (whole_seconds remaining)
  end.

Definition remaining_seconds (now : Z) (k : K) (m : WritePauses) : option Z * WritePauses :=
  match admit_write now k m with
  | (Paused s, m') => (Some s, m')
  | (_, m') => (None, m')
  end.

Definition held (now : Z) (m : WritePauses) : list K :=
  map fst (List.filter (fun e => now <? until e.2) (map_to_list m)).

Definition opt_minZ (o : option Z) (z : Z) : option Z :=
  match o with Some x => Some (Z.min x z) | None => Some z end.

Definition next_spacing_end (now : Z) (m : WritePauses) : option Z :=
  foldl (fun acc e => if (strikes e.2 =? 0) && (now <? until e.2)
                      then opt_minZ acc (until e.2 - now) else acc) None (map_to_list m).
End pauses.

Arguments held {K _ _} now m.

(** ** Groups of actions *)

Definition LEGACY_GROUPS : list (str * list str) :=
  [(lit "likes", map lit ["like_track"; "unlike_track"; "like_playlist"; "unlike_playlist"]%string);
   (lit "follows", map lit ["follow_user"; "unfollow_user"]%string);
   (lit "playlists", map lit ["playlist_create"; "playlist_delete"; "playlist_membership"; "playlist_update"]%string);
   (lit "comments", [lit "comment"])].

Definition actions_of (saved : str) : list str :=
  match find (fun g => bool_decide (g.1 = saved)) LEGACY_GROUPS with
  | Some g => g.2
  | None => [saved]
  end.

Definition legacy_group (action : str) : option str :=
  fst <$> find (fun g => bool_decide (action ∈ g.2)) LEGACY_GROUPS.

(** ** Reports of a refused application *)

Definition ESCALATION_USERS : nat := 3.
Definition ESCALATION_WINDOW : Z := secs (10 * 60).

Section reports.
Context {K : Type} `{EqDecision K} `{Countable K}.

(** The users who reported a key, with the time of their last report. *)
Abbreviation AppReports := (gmap K (gmap str Z)).

Definition record_at (k : K) (user : str) (now : Z) (r : AppReports) : nat * AppReports :=
  let users := filter (fun e : str * Z => Z.max 0 (now - e.2) < ESCALATION_WINDOW) (default ∅ (r !! k)) in
  let users := <[user := now]> users in
  (size users, <[k := users]> r).

Definition reports_succeeded (k : K) (r : AppReports) : AppReports := delete k r.
End reports.

(** ** Facts *)

Lemma whole_seconds_pos d : 1 <= whole_seconds d.
Proof. unfold whole_seconds. lia. Qed.

Lemma at_least_a_second_pos s : secs 1 <= at_least_a_second s.
Proof. unfold at_least_a_second, secs. lia. Qed.

Lemma longer_exact base n :
  0 <= base -> 0 <= n -> longer base n = Z.min (base * (if n <? 32 then 2 ^ n else u32_max)) MAX_PAUSE.
Proof.
  intros Hb Hn. unfold longer. set (f := if n <? 32 then _ else _).
  assert (0 <= f) by (unfold f, u32_max; destruct (n <? 32); [apply Z.pow_nonneg|]; lia).
  destruct (Z.leb_spec (base * f / 1000000000) u64_max) as [|Hbig]; [done|].
  assert (MAX_PAUSE < base * f); [|lia].
  pose proof (Z.mul_div_le (base * f) 1000000000 ltac:(lia)).
  unfold MAX_PAUSE, secs, u64_max in *. nia.
Qed.

Lemma longer_bounds base n : 0 < base -> 0 <= n -> 0 < longer base n <= MAX_PAUSE.
Proof.
  intros Hb Hn. rewrite longer_exact by lia.
  assert (0 < if n <? 32 then 2 ^ n else u32_max).
  { unfold u32_max. destruct (n <? 32); [apply Z.pow_pos_nonneg|]; lia. }
  split; [|lia]. apply Z.min_glb_lt; [nia|]. unfold MAX_PAUSE, secs. lia.
Qed.

Section facts.
Context {K : Type} `{EqDecision K} `{Countable K}.
Implicit Types (m : gmap K Pause) (k : K).

(** The methods that change the pauses. *)
Inductive pause_op :=
| OpPause (k : K) (seconds : Z)
| OpLonger (k : K) (seconds : Z)
| OpRefused (k : K) (seconds : Z)
| OpRestore (k : K) (remaining strikes : Z)
| OpAdmit (k : K)
| OpSucceeded (k : K) (spacing : option Z).

Definition run_op (now : Z) (o : pause_op) (m : gmap K Pause) : gmap K Pause :=
  match o with
  | OpPause k s => pause now k s m
  | OpLonger k s => (pause_longer_each_time now k s m).2
  | OpRefused k s => (pause_refused now k s m).2
  | OpRestore k r n => restore now k r n m
  | OpAdmit k => (admit_write now k m).2
  | OpSucceeded k sp => succeeded now k sp m
  end.

Definition run_ops (h : list (Z * pause_op)) (m : gmap K Pause) : gmap K Pause :=
  foldl (fun m e => run_op e.1 e.2 m) m h.

(** The key's answers: a success, a restart or a refused probe. *)
Definition settles (k : K) (o : pause_op) : Prop :=
  match o with
  | OpLonger k' _ | OpRestore k' _ _ | OpSucceeded k' _ => k' = k
  | _ => False
  end.

(** [k] is held until [T] at least. *)
Definition held_until (k : K) (T : Z) (m : gmap K Pause) : Prop :=
  exists p, m !! k = Some p /\ T <= until p.

Lemma held_until_insert k k' T p m :
  (k' = k -> T <= until p) -> (k' <> k -> held_until k T m) -> held_until k T (<[k' := p]> m).
Proof.
  intros H1 H2. destruct (decide (k' = k)) as [->|Hne].
  - exists p. rewrite lookup_insert_eq. auto.
  - destruct (H2 Hne) as (q & Hq & HT). exists q. by rewrite lookup_insert_ne.
Qed.

Lemma held_until_op k T now o m :
  held_until k T m -> now < T -> ~ settles k o -> held_until k T (run_op now o m).
Proof.
  intros Hh Hnow Hs. pose proof Hh as (p & Hp & HT). destruct o as [k' s|k' s|k' s|k' r n|k'|k' sp]; simpl in *.
  - unfold pause, hold. simpl. apply held_until_insert; [|done]. intros ->. unfold entry. rewrite Hp. simpl. lia.
  - unfold pause_longer_each_time, hold. destruct (true && _); simpl; apply held_until_insert; done.
  - apply held_until_insert; [|done]. intros ->. unfold entry. rewrite Hp. simpl. lia.
  - by apply held_until_insert.
  - unfold admit_write. destruct (m !! k') as [q|] eqn:Eq; [|done].
    destruct (negb _) eqn:E1; [done|]. destruct (strikes q =? 0); simpl.
    + exists p. rewrite lookup_delete_ne; [done|]. intros ->. rewrite Hp in Eq. injection Eq as <-.
      apply negb_false_iff, Z.eqb_eq in E1. lia.
    + apply held_until_insert; [|done]. intros ->. rewrite Hp in Eq. injection Eq as <-.
      apply negb_false_iff, Z.eqb_eq in E1. lia.
  - destruct sp as [sp|]; simpl; [by apply held_until_insert|]. exists p. rewrite lookup_delete_ne; done.
Qed.

Lemma held_until_ops k T h m :
  held_until k T m -> Forall (fun e => e.1 < T /\ ~ settles k e.2) h -> held_until k T (run_ops h m).
Proof.
  intros Hh Hall. revert m Hh. induction Hall as [|[now o] h [Hnow Hs] Hall IH]; intros m Hh; [done|].
  apply IH. by apply held_until_op.
Qed.

(** Entries that a handler's operations leave. *)
Definition pauses_ok (now : Z) (m : gmap K Pause) : Prop :=
  forall k p, m !! k = Some p -> until p <= now + MAX_PAUSE /\ 1 <= strikes p.

(** The operations the write pauses see: every pause starts with a refusal, and
    the wait a backoff starts from is below the cap. *)
Definition refusal_op (o : pause_op) : Prop :=
  match o with
  | OpPause _ _ | OpSucceeded _ (Some _) => False
  | OpLonger _ s => at_least_a_second s <= MAX_PAUSE
  | _ => True
  end.

Lemma pauses_ok_insert now k p m :
  until p <= now + MAX_PAUSE -> 1 <= strikes p -> pauses_ok now m -> pauses_ok now (<[k := p]> m).
Proof. intros H1 H2 Hm k' p' [(<- & <-)|(? & ?)]%lookup_insert_Some; [done|by eapply Hm]. Qed.

Lemma pauses_ok_delete now k m : pauses_ok now m -> pauses_ok now (delete k m).
Proof. intros Hm k' p' [? ?]%lookup_delete_Some. by eapply Hm. Qed.

Lemma pauses_ok_later now now' m : now <= now' -> pauses_ok now m -> pauses_ok now' m.
Proof. intros Hle Hm k p Hp. destruct (Hm k p Hp). lia. Qed.

Lemma entry_ok now k m : pauses_ok now m -> until (entry now k m) <= now + MAX_PAUSE /\ 0 <= strikes (entry now k m).
Proof.
  intros Hm. unfold entry. destruct (m !! k) as [p|] eqn:E; simpl; [destruct (Hm k p E); lia|].
  unfold MAX_PAUSE, secs. lia.
Qed.

Lemma pauses_ok_op now o m : pauses_ok now m -> refusal_op o -> pauses_ok now (run_op now o m).
Proof.
  intros Hm Ho. destruct o as [k s|k s|k s|k r n|k|k [sp|]]; simpl in *; try done.
  - unfold pause_longer_each_time, hold. destruct (entry_ok now k m Hm) as [H1 H2].
    pose proof (at_least_a_second_pos s) as Hb. unfold secs in Hb.
    destruct (true && _) eqn:E; simpl.
    + pose proof (longer_bounds (at_least_a_second s) (strikes (entry now k m)) ltac:(lia) H2).
      apply pauses_ok_insert; simpl; [lia|unfold u32_max; lia|done].
    + simpl in E. apply orb_false_iff in E as [E Eu]. apply orb_false_iff in E as [Ep Es].
      apply Z.eqb_neq in Es. apply Z.leb_gt in Eu.
      apply pauses_ok_insert; simpl; [lia|lia|done].
  - destruct (entry_ok now k m Hm). apply pauses_ok_insert; simpl; [lia|lia|done].
  - apply pauses_ok_insert; simpl; [lia|lia|done].
  - unfold admit_write. destruct (m !! k) as [p|] eqn:E; [|done]. destruct (negb _); [done|].
    destruct (strikes p =? 0); simpl; [by apply pauses_ok_delete|]. destruct (Hm k p E).
    apply pauses_ok_insert; simpl; [unfold MAX_PAUSE, PROBE_HOLD, secs; lia|done|done].
  - by apply pauses_ok_delete.
Qed.

(** The times of a history do not go back and end by [last]. *)
Fixpoint timed (from last : Z) (h : list (Z * pause_op)) : Prop :=
  match h with
  | [] => from <= last
  | e :: h' => from <= e.1 /\ timed e.1 last h'
  end.

Lemma pauses_ok_ops h from last m :
  pauses_ok from m -> timed from last h -> Forall (fun e => refusal_op e.2) h -> pauses_ok last (run_ops h m).
Proof.
  intros Hm Ht Hall. revert from m Hm Ht. induction Hall as [|[now o] h Ho Hall IH]; intros from m Hm Ht; simpl in *.
  - by eapply pauses_ok_later.
  - destruct Ht as [Hle Ht]. apply (IH now); [|done]. apply pauses_ok_op; [|done]. by eapply pauses_ok_later.
Qed.
End facts.

(** After a refusal one write at a time tests the action: once a probe was let through, no
    other write of that key is admitted for the next two minutes, whatever happens to the
    other keys and however often it is paused again or asked for, until the probe is answered. *)
Theorem probe_is_alone {K : Type} `{EqDecision K} `{Countable K} (k : K) (t0 t : Z)
    (m m1 : gmap K Pause) (h : list (Z * pause_op))
    (Hprobe : admit_write t0 k m = (Probe, m1)) (Ht : t < t0 + PROBE_HOLD)
    (Hh : Forall (fun e => e.1 < t0 + PROBE_HOLD /\ ~ settles k e.2) h) :
  let '(a, m2) := admit_write t k (run_ops h m1) in
  (exists s, a = Paused s /\ 1 <= s) /\ m2 = run_ops h m1 /\ is_Some (blocked t k false (run_ops h m1)).
Proof.
  assert (held_until k (t0 + PROBE_HOLD) m1) as H1.
  { unfold admit_write in Hprobe. destruct (m !! k) as [p|]; [|done]. destruct (negb _); [done|].
    destruct (strikes p =? 0); [done|]. injection Hprobe as <-. eexists. by rewrite lookup_insert_eq. }
  destruct (held_until_ops k _ h m1 H1 Hh) as (p & Hp & HT).
  unfold admit_write, blocked. rewrite Hp. destruct (Z.eqb_spec (Z.max 0 (until p - t)) 0) as [E|E]; [lia|].
  cbn. split_and!; [|done|by eexists]. eexists. split; [done|apply whole_seconds_pos].
Qed.

(** A refused action is never shut for good: whatever refusals, restarts, probes and successes
    its history holds, two hours after the last of them the next write is let through, and
    while it is shut the wait reported is at most two hours. *)
Theorem pauses_end {K : Type} `{EqDecision K} `{Countable K} (h : list (Z * @pause_op K)) (start last t : Z) (k : K)
    (Ht : timed start last h) (Hops : Forall (fun e => refusal_op e.2) h) (Hlast : last <= t) :
  match (admit_write t k (run_ops h ∅)).1 with
  | Paused s => t < last + MAX_PAUSE /\ 1 <= s <= 2 * 60 * 60
  | Open | Probe => True
  end.
Proof.
  pose proof (pauses_ok_ops h start last ∅ ltac:(intros ? ? ?; by simplify_map_eq) Ht Hops) as Hok.
  unfold admit_write. destruct (run_ops h ∅ !! k) as [p|] eqn:E; [|done]. destruct (Hok k p E) as [Hu Hs].
  destruct (Z.eqb_spec (Z.max 0 (until p - t)) 0) as [E0|E0]; cbn.
  - destruct (Z.eqb_spec (strikes p) 0); [lia|]. done.
  - assert (until p - t <= MAX_PAUSE) as Hd by lia. split; [lia|]. unfold whole_seconds.
    split; [lia|]. apply Z.max_lub; [|lia]. etransitivity; [apply Z.le_min_l|].
    apply Z.div_le_upper_bound; [lia|]. unfold MAX_PAUSE, secs in *. lia.
Qed.

(** [n] refusals in a row, each reported when the probe after the wait came back. *)
Fixpoint refused_probes {K : Type} `{EqDecision K} `{Countable K} (n : nat) (k : K) (seconds now : Z)
    (m : gmap K Pause) : list Z * gmap K Pause :=
  match n with
  | O => ([], m)
  | S n' =>
      let '(_, m1) := admit_write now k m in
      let '((wait, _), m2) := pause_longer_each_time now k seconds m1 in
      let '(waits, m3) := refused_probes n' k seconds (now + secs wait) m2 in
      (wait :: waits, m3)
  end.

Definition backoff (seconds : Z) (n : nat) : Z := Z.min (seconds * 2 ^ Z.of_nat n) (2 * 60 * 60).

Lemma longer_backoff seconds n :
  1 <= seconds -> longer (at_least_a_second seconds) (Z.min (Z.of_nat n) u32_max) = secs (backoff seconds n).
Proof.
  intros Hs. rewrite longer_exact by (unfold u32_max; unfold at_least_a_second, secs; lia).
  unfold at_least_a_second, backoff. replace (Z.max (Z.max seconds 0) 1) with seconds by lia.
  destruct (Z.ltb_spec (Z.min (Z.of_nat n) u32_max) 32) as [Hn|Hn]; unfold u32_max in *.
  - rewrite (Z.min_l (Z.of_nat n)) by lia. unfold MAX_PAUSE, secs. lia.
  - assert (2 ^ 32 <= 2 ^ Z.of_nat n) by (apply Z.pow_le_mono_r; lia). unfold MAX_PAUSE, secs.
    change (2 ^ 32) with 4294967296 in *. generalize dependent (2 ^ Z.of_nat n). intros x Hx.
    assert (4294967296 <= seconds * x) by nia. lia.
Qed.

Lemma whole_seconds_secs n : 1 <= n <= 2 * 60 * 60 -> whole_seconds (secs n) = n.
Proof. intros Hn. unfold whole_seconds, secs. rewrite Z.div_mul by lia. unfold i64_max. lia. Qed.

Lemma refused_probes_from {K : Type} `{EqDecision K} `{Countable K} (k : K) seconds n j now (m : gmap K Pause) :
  1 <= seconds ->
  match m !! k with
  | None => j = O
  | Some p => (1 <= j)%nat /\ until p <= now /\ strikes p = Z.min (Z.of_nat j) u32_max
  end ->
  (refused_probes n k seconds now m).1 = map (backoff seconds) (seq j n).
Proof.
  intros Hs. revert j now m. induction n as [|n IH]; intros j now m Hm; [done|]. cbn [refused_probes seq map].
  assert (1 <= backoff seconds j <= 2 * 60 * 60) as Hb.
  { unfold backoff. assert (0 < 2 ^ Z.of_nat j) by (apply Z.pow_pos_nonneg; lia). nia. }
  assert (exists m1, (admit_write now k m).2 = m1 /\ strikes (entry now k m1) = Z.min (Z.of_nat j) u32_max
    /\ (probing (entry now k m1) || (strikes (entry now k m1) =? 0) || (until (entry now k m1) <=? now)) = true)
    as (m1 & E1 & Hst & Hesc).
  { unfold admit_write. destruct (m !! k) as [p|] eqn:Ep.
    - destruct Hm as (Hj & Hu & Hp). replace (Z.max 0 (until p - now)) with 0 by lia. cbn [Z.eqb negb].
      destruct (Z.eqb_spec (strikes p) 0); [unfold u32_max in *; lia|]. eexists. split; [reflexivity|].
      unfold entry. cbn [snd]. rewrite lookup_insert_eq. by cbn.
    - eexists. split; [reflexivity|]. unfold entry. cbn [snd]. rewrite Ep. cbn. by subst j. }
  destruct (admit_write now k m) as [a m1'] eqn:Ea. cbn [snd] in E1. subst m1'.
  unfold pause_longer_each_time, hold. rewrite Hesc. cbn [andb].
  rewrite Hst, longer_backoff, whole_seconds_secs by done.
  specialize (IH (S j) (now + secs (backoff seconds j))
    (<[k := {| until := now + secs (backoff seconds j);
               strikes := Z.min (Z.min (Z.of_nat j) u32_max + 1) u32_max; probing := false |}]> m1)).
  destruct (refused_probes n k seconds _ _) as [waits m3]. cbn [fst] in *. f_equal. apply IH.
  rewrite lookup_insert_eq. cbn [until strikes]. unfold u32_max. split_and!; lia.
Qed.

(** The wait doubles with every refused probe: the waits of a run of refusals are the base,
    twice it, four times it and so on, and two hours from the first that would be longer. *)
Theorem backoff_doubles {K : Type} `{EqDecision K} `{Countable K} (k : K) (seconds now : Z) (n : nat)
    (Hs : 1 <= seconds) :
  (refused_probes n k seconds now ∅).1
  = map (fun i => Z.min (seconds * 2 ^ Z.of_nat i) (2 * 60 * 60)) (seq 0 n).
Proof. apply (refused_probes_from k seconds n 0 now ∅); [done|]. by rewrite lookup_empty. Qed.

(** ** Who reported the application *)

Section report_facts.
Context {K : Type} `{EqDecision K} `{Countable K} (k : K).

(** The reports of a key since its last success, oldest first. *)
Definition reported (hist : list (Z * str)) : gmap K (gmap str Z) :=
  foldl (fun r e => (record_at k e.2 e.1 r).2) ∅ hist.

Fixpoint chronological (from : Z) (hist : list (Z * str)) (last : Z) : Prop :=
  match hist with
  | [] => from <= last
  | e :: hist' => from <= e.1 /\ chronological e.1 hist' last
  end.

(** The users kept are the latest reports, and every recent one is kept. *)
Record users_ok (hist : list (Z * str)) (last : Z) (users : gmap str Z) : Prop := {
  uo_latest : forall u t, users !! u = Some t -> (t, u) ∈ hist /\ forall t', (t', u) ∈ hist -> t' <= t;
  uo_kept : forall u t, (t, u) ∈ hist -> last - t < ESCALATION_WINDOW -> is_Some (users !! u);
  uo_past : forall u t, (t, u) ∈ hist -> t <= last }.

Lemma users_ok_recent hist last users now u :
  users_ok hist last users -> last <= now ->
  is_Some (filter (fun e : str * Z => Z.max 0 (now - e.2) < ESCALATION_WINDOW) users !! u)
  <-> exists t, (t, u) ∈ hist /\ now - t < ESCALATION_WINDOW.
Proof.
  intros [H1 H2 H3] Hle. unfold is_Some. setoid_rewrite map_lookup_filter_Some. cbn. split.
  - intros (t & Ht & Hw). destruct (H1 u t Ht) as [Hin _]. exists t. split; [done|lia].
  - intros (t & Hin & Hw). destruct (H2 u t Hin) as [t0 Ht0]; [lia|]. destruct (H1 u t0 Ht0) as [Hin0 Hmax].
    specialize (Hmax t Hin). specialize (H3 u t0 Hin0). exists t0. split; [done|].
    unfold ESCALATION_WINDOW, secs in *. lia.
Qed.

Lemma users_ok_record hist last users user now :
  users_ok hist last users -> last <= now ->
  users_ok (hist ++ [(now, user)]) now
    (<[user := now]> (filter (fun e : str * Z => Z.max 0 (now - e.2) < ESCALATION_WINDOW) users)).
Proof.
  intros Hok Hle. pose proof Hok as [H1 H2 H3].
  assert (forall u t, (t, u) ∈ hist ++ [(now, user)] -> t <= now) as Hpast.
  { intros u t [Hin|[= -> ->]%list_elem_of_singleton]%elem_of_app; [|done]. specialize (H3 u t Hin). lia. }
  constructor; [| |done].
  - intros u t [(<- & <-)|(Hne & Ht)]%lookup_insert_Some.
    + split; [set_solver|]. intros t'. apply Hpast.
    + apply map_lookup_filter_Some in Ht as [Ht _]. destruct (H1 u t Ht) as [Hin Hmax]. split; [set_solver|].
      intros t' [Hin'|[= -> ->]%list_elem_of_singleton]%elem_of_app; [by apply Hmax|done].
  - intros u t Hin Hw. destruct (decide (u = user)) as [->|Hne]; [rewrite lookup_insert_eq; by eexists|].
    rewrite lookup_insert_ne by done. apply (users_ok_recent hist last); [done|done|]. exists t. split; [|done].
    apply elem_of_app in Hin as [?|[= -> ->]%list_elem_of_singleton]; done.
Qed.

Lemma users_ok_reported hist from last :
  chronological from hist last -> users_ok hist last (default ∅ (reported hist !! k)).
Proof.
  assert (forall pre hist from last r, chronological from hist last ->
    users_ok pre from (default ∅ (r !! k)) ->
    users_ok (pre ++ hist) last (default ∅ (foldl (fun r e => (record_at k e.2 e.1 r).2) r hist !! k))) as Hgen.
  { intros pre hist'. revert pre. induction hist' as [|[t u] hist' IH]; intros pre from' last' r Ht Hok; simpl in *.
    - rewrite app_nil_r. destruct Hok as [H1 H2 H3]. constructor; [done| |].
      + intros u t Hin Hw. apply (H2 u t Hin). lia.
      + intros u t Hin. specialize (H3 u t Hin). lia.
    - destruct Ht as [Hle Ht]. replace (pre ++ (t, u) :: hist') with ((pre ++ [(t, u)]) ++ hist')
        by (by rewrite <- (assoc_L (++))).
      apply (IH _ t); [done|]. unfold record_at. cbn [fst snd]. rewrite lookup_insert_eq. cbn.
      by eapply users_ok_record. }
  intros Ht. eapply (Hgen [] hist from last ∅ Ht). rewrite lookup_empty. constructor; set_solver.
Qed.
End report_facts.

(** The count that escalates a refusal to the whole application is exact: reporting it
    counts the distinct users who reported that key within the last ten minutes since its
    last success, the present one included, however the earlier reports were spread. *)
Theorem reports_exact {K : Type} `{EqDecision K} `{Countable K} (k : K) (hist : list (Z * str)) (from now : Z)
    (user : str) (Ht : chronological from hist now) :
  (record_at k user now (reported k hist)).1
  = size (list_to_set (user :: map snd (List.filter (fun e => now - e.1 <? ESCALATION_WINDOW) hist)) : gset str).
Proof.
  pose proof (users_ok_reported k hist from now Ht) as Hok. unfold record_at. cbn [fst].
  set (users := default ∅ _) in *. rewrite <- size_dom. f_equal. apply set_eq. intros u.
  rewrite dom_insert, list_to_set_cons, !elem_of_union, elem_of_dom.
  rewrite (users_ok_recent hist now users now u Hok ltac:(done)), elem_of_list_to_set.
  apply or_iff_compat_l. rewrite list_elem_of_In, in_map_iff. split.
  - intros (t & Hin & Hw). exists (t, u). split; [done|]. apply filter_In. split; [by apply list_elem_of_In|].
    by apply Z.ltb_lt.
  - intros ([t u'] & <- & [Hin Hw]%filter_In). exists t. split; [by apply list_elem_of_In|]. by apply Z.ltb_lt in Hw.
Qed.

(** ** Instances *)

(** Key 7 was refused once, its minute is over, and key 8 is paused meanwhile. *)
Definition refused_once : gmap Z Pause := (pause_longer_each_time 0 7 60 ∅).2.

Lemma probe_is_alone_witness :
  exists m1, admit_write (secs 60) 7 refused_once = (Probe, m1)
    /\ exists s, (admit_write (secs 170) 7 (run_ops [(secs 65, OpAdmit 7); (secs 70, OpLonger 8 60)] m1)).1 = Paused s.
Proof.
  eexists. split; [vm_compute; reflexivity|].
  assert (Forall (fun e : Z * pause_op => e.1 < secs 60 + PROBE_HOLD /\ ~ settles 7 e.2)
    [(secs 65, OpAdmit 7); (secs 70, OpLonger 8 60)]) as Hh.
  { apply Forall_cons; split; [split; [vm_compute; reflexivity|tauto]|].
    apply Forall_cons; split; [split; [vm_compute; reflexivity|by cbn]|]. constructor. }
  pose proof (probe_is_alone 7 (secs 60) (secs 170) refused_once _ _ eq_refl ltac:(vm_compute; reflexivity) Hh) as H.
  destruct (admit_write (secs 170) 7 _) as [a m2]. destruct H as ((s & -> & _) & _). by exists s.
Defined.

Lemma pauses_end_witness :
  (admit_write (secs 7300) 7 (run_ops [(0, OpRefused 7 100000); (secs 90, OpAdmit 7)] ∅)).1 = Probe.
Proof.
  pose proof (pauses_end [(0, OpRefused 7 100000); (secs 90, OpAdmit 7)] 0 (secs 90) (secs 7300) 7
    ltac:(cbn; unfold secs; lia) ltac:(by repeat constructor) ltac:(unfold secs; lia)) as H.
  destruct (admit_write (secs 7300) 7 _) as [[| |s] m2] eqn:E; cbn in *; [|reflexivity|];
    vm_compute in E; discriminate E.
Defined.

Lemma backoff_doubles_witness :
  (refused_probes 9 (lit "likes") 60 0 ∅).1 = [60; 120; 240; 480; 960; 1920; 3840; 7200; 7200].
Proof. rewrite (backoff_doubles (lit "likes") 60 0 9 ltac:(lia)). vm_compute. reflexivity. Defined.

Lemma reports_exact_witness :
  (record_at 7 (lit "4") (secs 660) (reported 7 [(0, lit "1"); (secs 120, lit "2"); (secs 540, lit "3")])).1 = 3%nat.
Proof.
  rewrite (reports_exact 7 [(0, lit "1"); (secs 120, lit "2"); (secs 540, lit "3")] 0 (secs 660) (lit "4") ltac:(vm_compute; repeat split; discriminate)). vm_compute. reflexivity.
Defined.
