(* ===== verification/SyncRows.v ===== *)
(** * SyncRows: the queue of writes to SoundCloud

    Source: the queries of [jobs/queries/sync_queue], [model.rs] and the methods of
    [repository.rs] that issue them; the queue's own columns and constraints are
    those of [0068_sync_queue_leases.sql] and [0190_scd_versions_sync_queue.sql].  A
    row's intent (what the user wants) is written by the API, its progress by the
    workers.  A statement is a function on the row it names: [None] when its
    [WHERE] does not hold, so that it touches nothing. *)

From Stdlib Require Import ZArith Lia String.
From stdpp Require Import base list numbers tactics sets gmap.
From S2P Require Import Prelude Text.
Local Open Scope Z_scope.

(** ** JSON *)

(** [serde_json::Value]; a number is what [as_i64] makes of it, an object its
    fields in order. *)
Inductive Value :=
| VNull
| VBool (b : bool)
| VNumber (as_i64 : option Z)
| VString (s : str)
| VArray (l : list Value)
| VObject (fields : list (str * Value)).

Definition field (key : str) (v : Value) : option Value :=
  match v with
  | VObject fields => snd <$> find (fun f => bool_decide (f.1 = key)) fields
  | _ => None
  end.

Definition as_str (v : Value) : option str := match v with VString s => Some s | _ => None end.

(** ** Rows *)

Record Intent := {
  user_id : str;
  action_type : str;
  target_urn : str;
  payload : option Value;
  created_at : Z;
  generation : Z;
  cancelled : bool;
  intent_v : Z }.

Record Progress := {
  exec_generation : option Z;
  lease_id : option Z;
  lease_generation : option Z;
  locked_at : option Z;
  retry_count : Z;
  last_error : option str;
  (** [None] is ['infinity'] *)
  next_run_at : option Z;
  dead : bool;
  failed_at : option Z;
  remote_attempted_generation : option Z;
  remote_completed_generation : option Z;
  remote_result : option Value }.

Record SyncRow := { intent : Intent; progress : Progress }.

Abbreviation SyncTable := (gmap Z SyncRow).

Definition fresh_progress (now : Z) : Progress :=
  {| exec_generation := None; lease_id := None; lease_generation := None; locked_at := None;
     retry_count := 0; last_error := None; next_run_at := Some now; dead := false; failed_at := None;
     remote_attempted_generation := None; remote_completed_generation := None; remote_result := None |}.

Record ClaimedMutation := {
  m_id : Z;
  m_user_id : str;
  m_action_type : str;
  m_target_urn : str;
  m_payload : option Value;
  m_retry_count : Z;
  m_generation : Z;
  m_lease_id : Z;
  m_lease_generation : Z;
  m_remote_attempted_generation : option Z;
  m_remote_completed_generation : option Z;
  m_remote_result : option Value;
  m_created_at : Z;
  m_desired : option Value }.

Definition has_remote_result (m : ClaimedMutation) : bool :=
  bool_decide (m_remote_completed_generation m = Some (m_generation m)) && is_some (m_remote_result m).

Definition has_ambiguous_remote_attempt (m : ClaimedMutation) : bool :=
  bool_decide (m_remote_attempted_generation m = Some (m_generation m)) && negb (has_remote_result m).

(** ** Progress updates *)

(** [lease_id = NULL, lease_generation = NULL, locked_at = NULL]. *)
Definition unleased (p : Progress) : Progress :=
  {| exec_generation := exec_generation p; lease_id := None; lease_generation := None; locked_at := None;
     retry_count := retry_count p; last_error := last_error p; next_run_at := next_run_at p;
     dead := dead p; failed_at := failed_at p;
     remote_attempted_generation := remote_attempted_generation p;
     remote_completed_generation := remote_completed_generation p; remote_result := remote_result p |}.

Definition waiting (message : str) (until : Z) (p : Progress) : Progress :=
  {| exec_generation := exec_generation p; lease_id := lease_id p; lease_generation := lease_generation p;
     locked_at := locked_at p; retry_count := retry_count p; last_error := Some message;
     next_run_at := Some until; dead := dead p; failed_at := failed_at p;
     remote_attempted_generation := remote_attempted_generation p;
     remote_completed_generation := remote_completed_generation p; remote_result := remote_result p |}.

Definition with_retry_count (n : Z) (p : Progress) : Progress :=
  {| exec_generation := exec_generation p; lease_id := lease_id p; lease_generation := lease_generation p;
     locked_at := locked_at p; retry_count := n; last_error := last_error p;
     next_run_at := next_run_at p; dead := dead p; failed_at := failed_at p;
     remote_attempted_generation := remote_attempted_generation p;
     remote_completed_generation := remote_completed_generation p; remote_result := remote_result p |}.

Definition with_attempted (g : option Z) (p : Progress) : Progress :=
  {| exec_generation := exec_generation p; lease_id := lease_id p; lease_generation := lease_generation p;
     locked_at := locked_at p; retry_count := retry_count p; last_error := last_error p;
     next_run_at := next_run_at p; dead := dead p; failed_at := failed_at p;
     remote_attempted_generation := g;
     remote_completed_generation := remote_completed_generation p; remote_result := remote_result p |}.

Definition with_completed (g : option Z) (v : option Value) (p : Progress) : Progress :=
  {| exec_generation := exec_generation p; lease_id := lease_id p; lease_generation := lease_generation p;
     locked_at := locked_at p; retry_count := retry_count p; last_error := last_error p;
     next_run_at := next_run_at p; dead := dead p; failed_at := failed_at p;
     remote_attempted_generation := remote_attempted_generation p;
     remote_completed_generation := g; remote_result := v |}.

Definition parked (now n : Z) (message : str) (p : Progress) : Progress :=
  {| exec_generation := exec_generation p; lease_id := None; lease_generation := None; locked_at := None;
     retry_count := n; last_error := Some message; next_run_at := None; dead := true; failed_at := Some now;
     remote_attempted_generation := remote_attempted_generation p;
     remote_completed_generation := remote_completed_generation p; remote_result := remote_result p |}.

Definition leased (lease now g : Z) (p : Progress) : Progress :=
  {| exec_generation := Some g; lease_id := Some lease; lease_generation := Some g; locked_at := Some now;
     retry_count := retry_count p; last_error := last_error p; next_run_at := next_run_at p;
     dead := dead p; failed_at := failed_at p;
     remote_attempted_generation := remote_attempted_generation p;
     remote_completed_generation := remote_completed_generation p; remote_result := remote_result p |}.

Definition on_progress (f : Progress -> Progress) (r : SyncRow) : SyncRow :=
  {| intent := intent r; progress := f (progress r) |}.

(** ** Statements of a worker *)

(** [lease_id = $2 AND lease_generation = $3]. *)
Definition owns (m : ClaimedMutation) (r : SyncRow) : bool :=
  bool_decide (lease_id (progress r) = Some (m_lease_id m))
  && bool_decide (lease_generation (progress r) = Some (m_lease_generation m)).

(** The same, and the generation is still the leased one. *)
Definition owns_current (m : ClaimedMutation) (r : SyncRow) : bool :=
  owns m r && (generation (intent r) =? m_lease_generation m).

Definition MIRRORED : list str :=
  map lit ["like_track"; "unlike_track"; "like_playlist"; "unlike_playlist"; "follow_user"; "unfollow_user"]%string.

Inductive Statement :=
| RecordRemoteAttempt
| RecordRemoteSuccess (result : Value)
| ReleaseLease
| Retry (message : str) (seconds : Z)
| Postpone (message : str) (seconds : Z)
| PostponeUnattempted (message : str) (seconds : Z)
| Park (retry_count : Z) (message : str).

(** [record_remote_attempt.sql] and the like, for the row with the mutation's id. *)
Definition run_statement (now : Z) (m : ClaimedMutation) (s : Statement) (r : SyncRow) : option SyncRow :=
  let p := progress r in
  match s with
  | RecordRemoteAttempt =>
      if owns m r && (generation (intent r) =? m_generation m)
         && bool_decide (remote_completed_generation p = None)
      then Some (on_progress (with_attempted (Some (m_generation m))) r) else None
  | RecordRemoteSuccess v =>
      if owns m r && (generation (intent r) =? m_generation m)
         && bool_decide (remote_attempted_generation p = Some (m_generation m))
         && bool_decide (remote_completed_generation p = None)
      then Some (on_progress (with_completed (Some (m_generation m)) (Some v)) r) else None
  | ReleaseLease => if owns m r then Some (on_progress unleased r) else None
  | Retry message seconds =>
      if owns_current m r
      then Some (on_progress (fun p => with_retry_count (retry_count p + 1)
                                         (waiting message (now + seconds) (unleased p))) r) else None
  | Postpone message seconds =>
      if owns_current m r
      then Some (on_progress (fun p => waiting message (now + seconds) (unleased p)) r) else None
  | PostponeUnattempted message seconds =>
      if owns_current m r && bool_decide (remote_completed_generation p = None)
      then Some (on_progress (fun p =>
                   with_attempted (if bool_decide (action_type (intent r) ∈ MIRRORED)
                                   then remote_attempted_generation p else None)
                     (waiting message (now + seconds) (unleased p))) r) else None
  | Park n message =>
      if owns_current m r then Some (on_progress (parked now n message) r) else None
  end.

(** The rows affected, and the table after. *)
Definition execute_statement (now : Z) (m : ClaimedMutation) (s : Statement) (t : SyncTable)
  : Z * SyncTable :=
  match t !! m_id m ≫= run_statement now m s with
  | Some r => (1, <[m_id m := r]> t)
  | None => (0, t)
  end.

(** [drop_superseded.sql]: [superseded] is what the mirror tables say. *)
Definition drop_superseded_sql (m : ClaimedMutation) (superseded : bool) (t : SyncTable) : bool * SyncTable :=
  match t !! m_id m with
  | Some r =>
      if owns m r && (generation (intent r) =? m_generation m)
         && negb (bool_decide (remote_attempted_generation (progress r) = Some (generation (intent r))))
         && bool_decide (remote_completed_generation (progress r) = None) && superseded
      then (true, delete (m_id m) t) else (false, t)
  | None => (false, t)
  end.

(** [LockedMutation::is_ready_to_finalize]. *)
Definition is_ready_to_finalize (m : ClaimedMutation) (r : SyncRow) : bool :=
  owns m r && (generation (intent r) =? m_lease_generation m)
  && bool_decide (remote_completed_generation (progress r) = Some (m_lease_generation m))
  && is_some (remote_result (progress r)).

(** [SyncQueueRepository::finalize]: [local] is how confirming the write in the
    other tables went; an error rolls the transaction back. *)
Definition finalize_sql {E} (m : ClaimedMutation) (local : result unit E) (t : SyncTable)
  : result unit E * SyncTable :=
  match t !! m_id m with
  | None => (Ok tt, t)
  | Some r =>
      if negb (is_ready_to_finalize m r)
      then (Ok tt, if owns m r then <[m_id m := on_progress unleased r]> t else t)
      else match local with
           | Err e => (Err e, t)
           | Ok _ => (Ok tt, delete (m_id m) t)
           end
  end.

(** ** Statements on the queue as a whole *)

(** No lease and nothing sent: a cancelled row in this state is settled, not run. *)
Definition idle (p : Progress) : bool :=
  negb (is_some (lease_id p)) && negb (is_some (remote_attempted_generation p))
  && negb (is_some (remote_completed_generation p)).

(** An intent the worker has not taken over yet. *)
Definition unadopted (r : SyncRow) : bool :=
  negb (bool_decide (exec_generation (progress r) = Some (generation (intent r))))
  && (is_some (exec_generation (progress r)) || (0 <? intent_v (intent r))).

(** [adopt.sql], for one row. *)
Definition adopt_row (now : Z) (r : SyncRow) : SyncRow :=
  let p := progress r in
  {| intent := intent r;
     progress := {| exec_generation := Some (generation (intent r));
                    lease_id := lease_id p; lease_generation := lease_generation p; locked_at := locked_at p;
                    retry_count := 0; last_error := None; next_run_at := Some now; dead := false;
                    failed_at := None; remote_attempted_generation := remote_attempted_generation p;
                    remote_completed_generation := None; remote_result := None |} |}.

(** [lease_id IS NULL OR locked_at < now() - lease]. *)
Definition lease_over (now lease_ms : Z) (p : Progress) : bool :=
  negb (is_some (lease_id p))
  || match locked_at p with Some at_ => at_ <? now - lease_ms | None => false end.

(** [force_due.sql], for one row. *)
Definition force_due_row (now lease_ms : Z) (r : SyncRow) : SyncRow :=
  let p := progress r in
  if negb (dead p) && lease_over now lease_ms p
     && negb (negb (is_some (lease_id p)) && negb (is_some (lease_generation p)) && negb (is_some (locked_at p))
              && match next_run_at p with Some at_ => at_ <=? now | None => false end)
  then on_progress (fun p => let p := unleased p in
         {| exec_generation := exec_generation p; lease_id := lease_id p;
            lease_generation := lease_generation p; locked_at := locked_at p;
            retry_count := retry_count p; last_error := last_error p; next_run_at := Some now;
            dead := dead p; failed_at := failed_at p;
            remote_attempted_generation := remote_attempted_generation p;
            remote_completed_generation := remote_completed_generation p;
            remote_result := remote_result p |}) r
  else r.

(** [claim.sql]: the conditions on the row itself, which [candidates] checks again
    under the row lock. *)
Definition claimable (now lease_ms : Z) (r : SyncRow) : bool :=
  let p := progress r in
  negb (dead p)
  && match next_run_at p with Some at_ => at_ <=? now | None => false end
  && lease_over now lease_ms p
  && negb (cancelled (intent r) && idle p)
  && negb (unadopted r).

Definition LIKES_AND_UNLIKES : list str :=
  map lit ["like_track"; "unlike_track"; "like_playlist"; "unlike_playlist"]%string.

(** A live row of the same user and target that was queued before. *)
Definition waits_behind (id : Z) (r : SyncRow) (t : SyncTable) : bool :=
  any (fun e : Z * SyncRow =>
    let '(id', r') := e in
    negb (dead (progress r'))
    && bool_decide (user_id (intent r') = user_id (intent r))
    && bool_decide (target_urn (intent r') = target_urn (intent r))
    && ((created_at (intent r') <? created_at (intent r))
        || ((created_at (intent r') =? created_at (intent r)) && (id' <? id)))
    && (negb (bool_decide (action_type (intent r') ∈ LIKES_AND_UNLIKES))
        || bool_decide (action_type (intent r) ∈ LIKES_AND_UNLIKES)))
  (map_to_list t).

Definition claim_row (lease now : Z) (r : SyncRow) : SyncRow :=
  on_progress (leased lease now (generation (intent r))) r.

(** [RETURNING ..]: what the worker is told about the row it leased. *)
Definition claimed (id lease : Z) (desired : option Value) (r : SyncRow) : ClaimedMutation :=
  {| m_id := id; m_user_id := user_id (intent r); m_action_type := action_type (intent r);
     m_target_urn := target_urn (intent r); m_payload := payload (intent r);
     m_retry_count := retry_count (progress r); m_generation := generation (intent r);
     m_lease_id := lease; m_lease_generation := generation (intent r);
     m_remote_attempted_generation := remote_attempted_generation (progress r);
     m_remote_completed_generation := remote_completed_generation (progress r);
     m_remote_result := remote_result (progress r); m_created_at := created_at (intent r);
     m_desired := desired |}.

(** [settle]: a cancelled idle row is revived when the mirror wants it after all,
    and purged otherwise. *)
Definition settle_sql (id : Z) (wanted : option bool) (t : SyncTable) : bool * SyncTable :=
  match t !! id with
  | Some r =>
      if cancelled (intent r) && idle (progress r) then
        (true,
         if bool_decide (wanted = Some true)
         then let i := intent r in
              <[id := {| intent := {| user_id := user_id i; action_type := action_type i;
                                      target_urn := target_urn i; payload := payload i;
                                      created_at := created_at i; generation := generation i;
                                      cancelled := false; intent_v := intent_v i |};
                         progress := progress r |}]> t
         else delete id t)
      else (false, t)
  | None => (false, t)
  end.
