(* ===== verification/SyncProgram.v ===== *)
(** * SyncProgram: executing one queued write

    Source: [jobs/src/handlers/sync_queue/mod.rs] ([execute] and what it calls),
    [client.rs], [actions/mod.rs], [actions/membership.rs], [write_gate.rs] and
    [create_check.rs].  The handler is a program over its effects: each statement,
    each transaction, each request and each use of the shared pauses is an event
    with an answer, and between two events anything else may run.  What the pauses
    answer is [WritePauses]'; what the connections, SoundCloud and the track storage
    answer is unknown.  Waiting for the pace of API reads and writes has no answer
    and is left out.  The error texts of [wreq] and [http] are parameters, and so
    are URL parsing and the bodies [catalog_ingest] builds from desired fields. *)

From Stdlib Require Import ZArith Lia String.
From stdpp Require Import base list numbers tactics sets gmap.
From S2P Require Import Prelude Text EntityRef WritePauses SyncRows.
Local Open Scope Z_scope.

(** ** Errors *)

Inductive WriteHold := HoldApp (seconds : Z) | HoldAccount (seconds : Z).

Definition hold_seconds (h : WriteHold) : Z :=
  match h with HoldApp s | HoldAccount s => s end.

Definition hold_message (h : WriteHold) : str :=
  match h with
  | HoldApp _ => lit "SoundCloud paused this action for the application"
  | HoldAccount _ => lit "SoundCloud limits this action for the account"
  end.

Inductive SoundCloudError :=
| Transport (is_timeout : bool)
| Api (status : Z) (body : Value) (retry_after_seconds : option Z)
| PausedWrite (hold : WriteHold)
| ResponseTooLarge
| InvalidTokenResponse.

Inductive ActionError :=
| ActionDatabase
| SoundCloud (e : SoundCloudError)
| InvalidPayload (message : str)
| InvalidRemoteResult (message : str)
| UnknownAction (action : str).

Inductive FinalizeError := FinalizeDatabase | FinalizeAction (e : ActionError) | FinalizeQueue.

Inductive ConnectionError :=
| ReauthorizationRequired
| RefreshInProgress (retry_after_seconds : Z)
| RateLimited (retry_after_seconds : Z)
| TemporarilyUnavailable (retry_after_seconds : Z)
| ConnectionDatabase.

Record AccessToken := { token_value : str; oauth_app_id : option Z }.

Inductive Remote := Written (v : Value) | TargetMissing.

Inductive Method := GET | POST | PUT | DELETE.

Global Instance Method_eq_dec : EqDecision Method.
Proof. solve_decision. Defined.

(** [str::contains]. *)
Fixpoint contains_str (needle s : str) : bool :=
  starts_with needle s || match s with [] => false | _ :: s' => contains_str needle s' end.

Section errors.
(** [str::to_lowercase]. *)
Context (to_lowercase : str -> str).

Definition is_unauthorized (e : SoundCloudError) : bool :=
  match e with Api status _ _ => status =? 401 | _ => false end.

Definition is_rate_limited (e : SoundCloudError) : bool :=
  match e with Api status _ _ => status =? 429 | _ => false end.

Definition is_account_rate_limited (e : SoundCloudError) : bool :=
  match e with
  | Api status body _ =>
      (status =? 429)
      && match field (lit "link") body ≫= as_str with
         | Some link => contains_str (lit "rate-limits") link
         | None => false
         end
  | _ => false
  end.

Definition is_app_rate_limited (e : SoundCloudError) : bool :=
  is_rate_limited e && negb (is_account_rate_limited e).

Definition is_subscription_required (e : SoundCloudError) : bool :=
  match e with
  | Api status body _ =>
      (status =? 403)
      && match field (lit "message") body ≫= as_str with
         | Some message => contains_str (lit "subscription is required") message
         | None => false
         end
  | _ => false
  end.

Definition is_banned (e : SoundCloudError) : bool :=
  match e with
  | Api status (VString message) _ =>
      (status =? 403)
      && (contains_str (lit "request blocked") (to_lowercase message)
          || contains_str (lit "cloudfront") (to_lowercase message))
  | _ => false
  end.

Definition error_retry_after (e : SoundCloudError) : option Z :=
  match e with Api _ _ r => r | _ => None end.

Definition is_server_error (status : Z) : bool := (500 <=? status) && (status <=? 599).
Definition is_client_error (status : Z) : bool := (400 <=? status) && (status <=? 499).

(** [retries_direct]: what a proxied write does next. *)
Definition retries_direct (method : Method) (e : SoundCloudError) : bool :=
  if is_app_rate_limited e then true
  else if bool_decide (method = POST) then false
  else match e with
       | Transport _ => true
       | Api status _ _ => is_server_error status
       | _ => false
       end.
End errors.

(** ** Constants *)

Definition SYNC_QUEUE_MAX_RETRIES : Z := 5.
Definition REAUTHORIZATION_RETRY_SECONDS : Z := 15 * 60.
Definition BAN_RETRY_SECONDS : Z := 30 * 60.
Definition RATE_LIMIT_RETRY_SECONDS : Z := 5 * 60.
Definition WRITE_PAUSE_SECONDS : Z := 60.
Definition ACCOUNT_LIMIT_SECONDS : Z := 30 * 60.
Definition SUBSCRIPTION_RETRY_SECONDS : Z := 2 * 60 * 60.
Definition PAUSED_ACTION_RECHECK_SECONDS : Z := 15 * 60.
Definition UNCLEAR_CREATE_RETRY_SECONDS : Z := 2 * 60.
Definition INFRASTRUCTURE_RETRY_SECONDS : Z := 60.
Definition RETRY_CAP_SECONDS : Z := 60 * 60.
Definition PACED_ACTIONS : list str := [lit "like_track"; lit "like_playlist"].
Definition i32_max : Z := 2147483647.

Definition AMBIGUOUS : str := lit "Remote outcome is ambiguous; automatic retry is disabled".

Definition retry_delay_seconds (n : Z) : Z :=
  Z.min (Z.min (60 * 2 ^ Z.min (Z.max n 0) 10) i64_max) RETRY_CAP_SECONDS.

Definition is_non_idempotent (action : str) : bool :=
  bool_decide (action = lit "comment") || bool_decide (action = lit "playlist_create").

(** [retry_count.saturating_add(1)]. *)
Definition next_retry (m : ClaimedMutation) : Z := Z.min (m_retry_count m + 1) i32_max.

(** ** Effects *)

Definition AppAction : Type := Z * str.
Definition AccountAction : Type := str * str.

Inductive Eff : Type -> Type :=
| EvictPrivate : Eff (result unit str)
| Run (s : Statement) : Eff (result Z unit)
| DropSuperseded : Eff (result bool unit)
| Finalize : Eff (result unit FinalizeError)
| OwnedPlaylists : Eff (result (list str) unit)
| AskToken : Eff (result AccessToken ConnectionError)
| RefreshRejected (value : str) : Eff (result AccessToken ConnectionError)
| RejectForLater (value : str) : Eff (result unit unit)
| Get (path token : str) : Eff (result Value SoundCloudError)
| SendTo (method : Method) (path : str) (body : option Value) (proxied : bool) (token : str)
    : Eff (result Value SoundCloudError)
| AccountRemaining (k : AccountAction) : Eff (option Z)
| AccountBlocked (k : AccountAction) : Eff (option Z)
| AccountPause (k : AccountAction) (seconds : Z) : Eff unit
| SpacingAdmit (k : AppAction) : Eff Admission
| SpacingPause (k : AppAction) (seconds : Z) : Eff unit
| SpacingSucceeded (k : AppAction) (spacing : option Z) : Eff unit
| WriteAdmit (k : AppAction) : Eff Admission
| WriteBlocked (k : AppAction) (own_probe : bool) : Eff (option Z)
| WriteSucceeded (k : AppAction) : Eff unit
| WriteRefused (k : AppAction) (seconds : Z) : Eff (Z * Z)
| WritePauseLonger (k : AppAction) (seconds : Z) : Eff (Z * Z)
| ReportsRecord (k : AppAction) (user : str) : Eff nat
| ReportsSucceeded (k : AppAction) : Eff unit
| SavePause (app : Z) (action : str) (seconds strikes : Z) (reason : str) : Eff (result unit unit)
| ClearPauses (app : Z) (names : list str) : Eff (result (list str) unit).

Abbreviation prog := (program Eff).

Definition done : prog (result unit unit) := mret (Ok tt).

(** [let _ = p.await?; done]. *)
Definition then_done {A} (p : prog (result A unit)) : prog (result unit unit) := _x ←? p; done.

(** ** Repository methods *)

Definition bounded_message (message : str) : str := take 500 message.

(** [if result.rows_affected() == 0 { self.release(mutation).await?; return Ok(false) }]. *)
Definition or_release (s : Statement) : prog (result bool unit) :=
  n ←? trigger (Run s);
  if n =? 0 then (_x ←? trigger (Run ReleaseLease); mret (Ok false)) else mret (Ok true).

Definition retry (message : str) (seconds : Z) := or_release (Retry (bounded_message message) (Z.max seconds 1)).
Definition postpone (message : str) (seconds : Z) :=
  or_release (Postpone (bounded_message message) (Z.max seconds 1)).
Definition postpone_unattempted (message : str) (seconds : Z) :=
  or_release (PostponeUnattempted (bounded_message message) (Z.max seconds 1)).
Definition park (n : Z) (message : str) := or_release (Park n (bounded_message message)).
Definition release : prog (result unit unit) := then_done (trigger (Run ReleaseLease)).
Definition record_remote_attempt : prog (result bool unit) :=
  n ←? trigger (Run RecordRemoteAttempt); mret (Ok (n =? 1)).
Definition record_remote_success (v : Value) : prog (result bool unit) :=
  n ←? trigger (Run (RecordRemoteSuccess v)); mret (Ok (n =? 1)).

(** ** The membership payload *)

Record MembershipApply := {
  ma_tracks : list str;
  ma_fingerprint : str;
  ma_reconcile_generation : Z }.

Definition MEMBERSHIP_ACTION : str := lit "playlist_membership".
Definition MAX_APPLY_TRACKS : Z := 5000.

Fixpoint parse_track_ids (seen : list str) (tracks : list Value) : result (list str) str :=
  match tracks with
  | [] => Ok []
  | t :: tracks' =>
      match as_str t with
      | None => Err (lit "track ids must be strings")
      | Some id =>
          if bool_decide (id = []) || negb (forallb is_ascii_digit id) then Err (lit "track ids must be digits")
          else if bool_decide (id ∈ seen) then Err (lit "membership payload repeats a track")
          else match parse_track_ids (id :: seen) tracks' with
               | Ok ids => Ok (id :: ids)
               | Err e => Err e
               end
      end
  end.

Definition as_array (v : Value) : option (list Value) := match v with VArray l => Some l | _ => None end.
Definition as_i64 (v : Value) : option Z := match v with VNumber n => n | _ => None end.

Definition parse_membership (payload : Value) : result MembershipApply str :=
  match payload with
  | VObject _ =>
      match field (lit "tracks") payload ≫= as_array with
      | None => Err (lit "membership payload has no track list")
      | Some tracks =>
          if MAX_APPLY_TRACKS <? Z.of_nat (length tracks) then Err (lit "membership payload exceeds the track cap")
          else match parse_track_ids [] tracks with
               | Err e => Err e
               | Ok ids =>
                   match field (lit "fingerprint") payload ≫= as_str with
                   | Some ((_ :: _) as fp) =>
                       match field (lit "reconcile_generation") payload ≫= as_i64 with
                       | Some g =>
                           if 0 <? g
                           then Ok {| ma_tracks := ids; ma_fingerprint := fp; ma_reconcile_generation := g |}
                           else Err (lit "membership payload has no reconcile generation")
                       | None => Err (lit "membership payload has no reconcile generation")
                       end
                   | _ => Err (lit "membership payload has no fingerprint")
                   end
               end
      end
  | _ => Err (lit "expected a membership object")
  end.

Definition membership_body (a : MembershipApply) : Value :=
  VObject [(lit "playlist", VObject [(lit "tracks",
    VArray (map (fun id => VObject [(lit "urn", VString (lit "soundcloud:tracks:" ++ id))]) (ma_tracks a)))])].

(** ** Requests *)

(** A request and what its answer is taken for, or an answer without one. *)
Inductive Request :=
| Send (method : Method) (path : str) (body : option Value) (answer : Value -> Value)
| Answered (v : Value).

Definition required_payload (m : ClaimedMutation) : result Value ActionError :=
  match m_payload m with Some v => Ok v | None => Err (InvalidPayload (lit "payload is missing")) end.

(** [unconfirmed]: a non-empty object. *)
Definition unconfirmed (desired : option Value) : option Value :=
  match desired with Some (VObject (_ :: _)) => desired | _ => None end.

Definition CLOSED_WHEN_TARGET_IS_MISSING : list str :=
  map lit ["like_track"; "unlike_track"; "like_playlist"; "unlike_playlist"; "follow_user"; "unfollow_user";
           "playlist_delete"; "track_delete"]%string.

Section handler.
(** [to_lowercase]; [TrackUpdate::from_desired(..).body()] and the playlists'; the
    errors' texts; whether a path joins the API's URL; the proxy; [like_interval]
    in seconds; URL parsing and timestamps of the playlist listing. *)
Context (to_lowercase : str -> str).
Context (track_update_body playlist_update_body : Value -> result Value str).
Context (sc_error_text : SoundCloudError -> str) (action_error_text : ActionError -> str)
  (connection_error_text : ConnectionError -> str) (finalize_error_text : FinalizeError -> str).
Context (joins : str -> bool) (has_proxy : bool) (like_interval : Z).
Context (listing_page : str -> option str) (parse_dt : option Value -> option Z).

Definition remote_request (m : ClaimedMutation) : result Request ActionError :=
  let target := m_target_urn m in
  let action := m_action_type m in
  let act a := bool_decide (action = lit a) in
  let with_payload method path :=
    match required_payload m with Ok v => Ok (Send method path (Some v) Datatypes.id) | Err e => Err e end in
  let update path body :=
    match unconfirmed (m_desired m) with
    | None => Ok (Answered (VObject [(lit "desired", VObject [])]))
    | Some desired =>
        match body desired with
        | Ok b => Ok (Send PUT path (Some b) (fun _ => VObject [(lit "desired", desired)]))
        | Err e => Err (InvalidPayload e)
        end
    end in
  if act "like_track"%string then Ok (Send POST (lit "/likes/tracks/" ++ target) None Datatypes.id)
  else if act "unlike_track"%string then Ok (Send DELETE (lit "/likes/tracks/" ++ target) None Datatypes.id)
  else if act "like_playlist"%string then Ok (Send POST (lit "/likes/playlists/" ++ target) None Datatypes.id)
  else if act "unlike_playlist"%string then Ok (Send DELETE (lit "/likes/playlists/" ++ target) None Datatypes.id)
  else if act "follow_user"%string then Ok (Send PUT (lit "/me/followings/" ++ target) None Datatypes.id)
  else if act "unfollow_user"%string then Ok (Send DELETE (lit "/me/followings/" ++ target) None Datatypes.id)
  else if act "playlist_create"%string then with_payload POST (lit "/playlists")
  else if act "playlist_delete"%string then Ok (Send DELETE (lit "/playlists/" ++ target) None Datatypes.id)
  else if act "track_update"%string then update (lit "/tracks/" ++ target) track_update_body
  else if act "track_delete"%string then Ok (Send DELETE (lit "/tracks/" ++ target) None Datatypes.id)
  else if act "playlist_update"%string then update (lit "/playlists/" ++ target) playlist_update_body
  else if bool_decide (action = MEMBERSHIP_ACTION) then
    match required_payload m with
    | Err e => Err e
    | Ok v => match parse_membership v with
              | Ok a => Ok (Send PUT (lit "/playlists/" ++ target) (Some (membership_body a)) Datatypes.id)
              | Err e => Err (InvalidPayload e)
              end
    end
  else if act "comment"%string then with_payload POST (lit "/tracks/" ++ target ++ lit "/comments")
  else Err (UnknownAction action).

Definition account_action (m : ClaimedMutation) : AccountAction := (m_user_id m, m_action_type m).

Definition hold_before_write (m : ClaimedMutation) (app : option Z) (probing : bool) : prog (option WriteHold) :=
  b ← trigger (AccountBlocked (account_action m));
  match b, app with
  | Some s, _ => mret (Some (HoldAccount s))
  | None, None => mret None
  | None, Some app => w ← trigger (WriteBlocked (app, m_action_type m) probing); mret (option_map HoldApp w)
  end.

(** [send_routed]: through the proxy, and directly when that is safe to repeat. *)
Definition send_routed (method : Method) (path : str) (body : option Value) (token : str)
  : prog (result Value SoundCloudError) :=
  if has_proxy then
    r ← trigger (SendTo method path body true token);
    match r with
    | Err e => if retries_direct method e then trigger (SendTo method path body false token) else mret r
    | Ok _ => mret r
    end
  else trigger (SendTo method path body false token).

(** [send_api], with the gate before the first write. *)
Definition send_gated (m : ClaimedMutation) (app : option Z) (probing : bool)
    (method : Method) (path : str) (body : option Value) (token : str) : prog (result Value SoundCloudError) :=
  if negb (joins path) then mret (Err InvalidTokenResponse)
  else
    h ← hold_before_write m app probing;
    match h with
    | Some hold => mret (Err (PausedWrite hold))
    | None => send_routed method path body token
    end.

(** [write_remote] and [execute_remote]. *)
Definition write_remote (m : ClaimedMutation) (token : str) (app : option Z) (probing : bool)
  : prog (result Remote ActionError) :=
  match remote_request m with
  | Err e => mret (Err e)
  | Ok (Answered v) => mret (Ok (Written v))
  | Ok (Send method path body answer) =>
      r ← send_gated m app probing method path body token;
      match r with
      | Ok v => mret (Ok (Written (answer v)))
      | Err (Api status b ra) =>
          if ((status =? 404) || (status =? 410))
             && bool_decide (m_action_type m ∈ CLOSED_WHEN_TARGET_IS_MISSING)
          then mret (Ok TargetMissing)
          else mret (Err (SoundCloud (Api status b ra)))
      | Err e => mret (Err (SoundCloud e))
      end
  end.

(** ** Recording an outcome *)

Definition postpone_before_post (m : ClaimedMutation) (message : str) (seconds : Z) : prog (result bool unit) :=
  if has_ambiguous_remote_attempt m then postpone message seconds else postpone_unattempted message seconds.

Definition postpone_unsent (m : ClaimedMutation) (hold : WriteHold) (app : option Z) : prog (result unit unit) :=
  _x ← match app with
       | Some app => trigger (SpacingSucceeded (app, m_action_type m) None)
       | None => mret tt
       end;
  then_done (postpone_before_post m (hold_message hold) (Z.min (hold_seconds hold) PAUSED_ACTION_RECHECK_SECONDS)).

Definition postpone_after_failure (message : str) : prog (result unit unit) :=
  then_done (postpone message INFRASTRUCTURE_RETRY_SECONDS).

Definition finalize : prog (result unit unit) :=
  r ← trigger Finalize;
  match r with
  | Ok _ => done
  | Err (FinalizeAction ((InvalidPayload _ | InvalidRemoteResult _ | UnknownAction _) as e)) =>
      then_done (park SYNC_QUEUE_MAX_RETRIES (action_error_text e))
  | Err e => postpone_after_failure (finalize_error_text e)
  end.

Definition record_connection_failure (m : ClaimedMutation) (e : ConnectionError) : prog (result unit unit) :=
  let record seconds :=
    if is_non_idempotent (m_action_type m)
    then then_done (postpone_before_post m (connection_error_text e) seconds)
    else then_done (postpone (connection_error_text e) seconds) in
  match e with
  | ReauthorizationRequired => record REAUTHORIZATION_RETRY_SECONDS
  | RefreshInProgress s | RateLimited s | TemporarilyUnavailable s => record s
  | ConnectionDatabase => mret (Err tt)
  end.

Definition retry_unclear_create (m : ClaimedMutation) (message : str) : prog (result unit unit) :=
  if SYNC_QUEUE_MAX_RETRIES <=? next_retry m then then_done (park (next_retry m) message)
  else then_done (retry message UNCLEAR_CREATE_RETRY_SECONDS).

Definition record_non_idempotent_failure (m : ClaimedMutation) (e : ActionError) : prog (result unit unit) :=
  let unattempted e seconds := then_done (postpone_unattempted (sc_error_text e) seconds) in
  let parked := then_done (park SYNC_QUEUE_MAX_RETRIES (action_error_text e)) in
  match e with
  | SoundCloud se =>
      if is_banned to_lowercase se then unattempted se BAN_RETRY_SECONDS
      else if is_subscription_required se then unattempted se PAUSED_ACTION_RECHECK_SECONDS
      else if is_account_rate_limited se then unattempted se PAUSED_ACTION_RECHECK_SECONDS
      else if is_rate_limited se then
        unattempted se (default RATE_LIMIT_RETRY_SECONDS (error_retry_after se))
      else if match se with Api status _ _ => is_client_error status | _ => false end then parked
      else if bool_decide (m_action_type m = lit "playlist_create")
      then retry_unclear_create m (sc_error_text se)
      else then_done (park SYNC_QUEUE_MAX_RETRIES AMBIGUOUS)
  | ActionDatabase => mret (Err tt)
  | InvalidPayload _ | InvalidRemoteResult _ | UnknownAction _ => parked
  end.

Definition record_action_failure (m : ClaimedMutation) (e : ActionError) : prog (result unit unit) :=
  if is_non_idempotent (m_action_type m) then record_non_idempotent_failure m e
  else match e with
  | SoundCloud se =>
      if is_banned to_lowercase se then then_done (postpone (sc_error_text se) BAN_RETRY_SECONDS)
      else if is_subscription_required se || is_account_rate_limited se then
        then_done (postpone_unattempted (sc_error_text se) PAUSED_ACTION_RECHECK_SECONDS)
      else if is_rate_limited se then
        then_done (postpone (sc_error_text se) (default RATE_LIMIT_RETRY_SECONDS (error_retry_after se)))
      else if SYNC_QUEUE_MAX_RETRIES <=? next_retry m then then_done (park (next_retry m) (sc_error_text se))
      else then_done (retry (sc_error_text se) (retry_delay_seconds (next_retry m)))
  | InvalidPayload _ | InvalidRemoteResult _ | UnknownAction _ =>
      then_done (park SYNC_QUEUE_MAX_RETRIES (action_error_text e))
  | ActionDatabase => mret (Err tt)
  end.

(** ** Pauses *)

Definition spacing (action : str) : option Z :=
  if bool_decide (action ∈ PACED_ACTIONS) then Some like_interval else None.

Fixpoint lift_all (app : Z) (actions : list str) : prog unit :=
  match actions with
  | [] => mret tt
  | a :: actions' => _x ← trigger (WriteSucceeded (app, a)); lift_all app actions'
  end.

Definition forget_pauses (app : Z) (action : str) : prog unit :=
  cleared ← trigger (ClearPauses app (action :: match legacy_group action with Some g => [g] | None => [] end));
  match cleared with
  | Ok lifted => lift_all app (List.filter (fun a => negb (bool_decide (a = action))) (concat (map actions_of lifted)))
  | Err _ => mret tt
  end.

Definition pause_writes_when_refused (m : ClaimedMutation) (e : ActionError) (app : option Z) : prog unit :=
  match e with
  | SoundCloud se =>
      _x ← (if is_rate_limited se then trigger (AccountPause (account_action m) ACCOUNT_LIMIT_SECONDS) else mret tt);
      match app with
      | None => mret tt
      | Some app =>
          let action := (app, m_action_type m) in
          let save p reason :=
            _x ← trigger (SavePause app (m_action_type m) p.1 p.2 reason); mret tt in
          if is_subscription_required se then
            p ← trigger (WriteRefused action SUBSCRIPTION_RETRY_SECONDS); save p (lit "subscription_required")
          else if is_app_rate_limited se then
            users ← trigger (ReportsRecord action (m_user_id m));
            if (users <? ESCALATION_USERS)%nat then mret tt
            else
              p ← match error_retry_after se with
                  | Some s => trigger (WriteRefused action s)
                  | None => trigger (WritePauseLonger action WRITE_PAUSE_SECONDS)
                  end;
              save p (lit "rate_limited")
          else mret tt
      end
  | _ => mret tt
  end.

(** ** A create whose outcome is unknown *)

Definition CREATE_MAX_PAGES : nat := 4.
Definition CLOCK_SLACK_MINUTES : Z := 5.
Definition FIRST_PAGE : str := lit "/me/playlists?show_tracks=false&linked_partitioning=true&limit=50".

(** [min_by_key]: the first of the smallest. *)
Fixpoint min_by_key {A} (f : A -> Z) (l : list A) : option A :=
  match l with
  | [] => None
  | x :: l' => match min_by_key f l' with
               | Some y => Some (if f y <? f x then y else x)
               | None => Some x
               end
  end.

Definition find_created (listing : list Value) (title : str) (not_before : Z) (owned : list str) : option Value :=
  let candidates := omap (fun p =>
    if match field (lit "title") p ≫= as_str with
       | Some listed => bool_decide (trim listed = trim title) | None => false end
       && match field (lit "urn") p ≫= as_str with
          | Some urn => negb (bool_decide (urn ∈ owned)) | None => false end
    then (fun at_ => (at_, p)) <$> parse_dt (field (lit "created_at") p)
    else None) listing in
  snd <$> min_by_key fst (List.filter (fun c => not_before <=? c.1) candidates).

Fixpoint listing_pages (pages : nat) (next : option str) (token : str) (acc : list Value)
  : prog (result (list Value) ActionError) :=
  match pages, next with
  | S pages', Some path =>
      r ← trigger (Get path token);
      match r with
      | Err e => mret (Err (SoundCloud e))
      | Ok page =>
          match field (lit "collection") page ≫= as_array with
          | None => mret (Err (InvalidRemoteResult (lit "playlist listing has no collection")))
          | Some playlists =>
              listing_pages pages' ((field (lit "next_href") page ≫= as_str) ≫= listing_page) token (acc ++ playlists)
          end
      end
  | _, _ => mret (Ok acc)
  end.

Definition without_tracks (v : Value) : Value :=
  match v with
  | VObject fields => VObject (List.filter (fun f => negb (bool_decide (f.1 = lit "tracks"))) fields)
  | _ => v
  end.

(** [create_check::confirm]. *)
Definition confirm (m : ClaimedMutation) (token : str) (owned : list str)
  : prog (result (option Value) ActionError) :=
  match ((m_payload m ≫= field (lit "playlist")) ≫= field (lit "title")) ≫= as_str with
  | None => mret (Err (InvalidPayload
              (lit "playlist title is missing, the created playlist cannot be looked up")))
  | Some title =>
      r ← listing_pages CREATE_MAX_PAGES (Some FIRST_PAGE) token [];
      match r with
      | Err e => mret (Err e)
      | Ok listing =>
          mret (Ok (without_tracks <$>
                    find_created listing title (m_created_at m - CLOCK_SLACK_MINUTES * 60) owned))
      end
  end.

(** [confirm_unclear_create]: the token to send again with, if nothing was found. *)
Definition confirm_unclear_create (m : ClaimedMutation) (token : AccessToken)
  : prog (result (option AccessToken) unit) :=
  let answer (token : AccessToken) (checked : result (option Value) ActionError) :=
    match checked with
    | Ok None => mret (Ok (Some token))
    | Ok (Some playlist) =>
        ok ←? record_remote_success playlist;
        _x ←? (if (ok : bool) then finalize else release);
        mret (Ok None)
    | Err ((InvalidPayload _) as e) =>
        _x ←? park SYNC_QUEUE_MAX_RETRIES (action_error_text e); mret (Ok None)
    | Err e =>
        _x ←? retry_unclear_create m
                (lit "checking SoundCloud for the created playlist: " ++ action_error_text e);
        mret (Ok None)
    end in
  owned ←? trigger OwnedPlaylists;
  checked ← confirm m (token_value token) owned;
  match checked with
  | Err (SoundCloud se) =>
      if is_unauthorized se then
        r ← trigger (RefreshRejected (token_value token));
        match r with
        | Ok token' => checked ← confirm m (token_value token') owned; answer token' checked
        | Err e => _x ←? record_connection_failure m e; mret (Ok None)
        end
      else answer token checked
  | _ => answer token checked
  end.

(** ** Executing a mutation *)

(** The pauses that may hold the write back before it is attempted: [Ok None] when
    it was postponed, else whether it is the probe of a paused action. *)
Definition admit_action (m : ClaimedMutation) (token : AccessToken) : prog (result (option bool) unit) :=
  let paused s :=
    _x ←? postpone_before_post m (lit "SoundCloud paused this action for the application")
            (Z.min s PAUSED_ACTION_RECHECK_SECONDS);
    mret (Ok None) in
  match oauth_app_id token with
  | None => mret (Ok (Some false))
  | Some app =>
      let action := (app, m_action_type m) in
      spaced ← trigger (SpacingAdmit action);
      match spaced with
      | Paused s => paused s
      | _ =>
          a ← trigger (WriteAdmit action);
          match a with
          | Paused s => paused s
          | Open =>
              _x ← match spacing (m_action_type m) with
                   | Some s => trigger (SpacingPause action s)
                   | None => mret tt
                   end;
              mret (Ok (Some false))
          | Probe => mret (Ok (Some true))
          end
      end
  end.

(** The write was accepted: the pauses are lifted, the result is recorded. *)
Definition complete_remote (m : ClaimedMutation) (remote : Remote) (app : option Z) : prog (result unit unit) :=
  result ← match remote with
           | Written v =>
               match app with
               | Some app =>
                   let action := (app, m_action_type m) in
                   _x ← trigger (ReportsSucceeded action);
                   _x ← match spacing (m_action_type m) with
                        | Some s => trigger (SpacingSucceeded action (Some s))
                        | None => mret tt
                        end;
                   _x ← trigger (WriteSucceeded action);
                   _x ← forget_pauses app (m_action_type m);
                   mret v
               | None => mret v
               end
           | TargetMissing => mret VNull
           end;
  ok ←? record_remote_success result;
  if (ok : bool) then finalize else release.

(** The write failed. *)
Definition fail_remote (m : ClaimedMutation) (e : ActionError) (app : option Z) : prog (result unit unit) :=
  _x ← pause_writes_when_refused m e app;
  record_action_failure m e.

(** The write itself, once the attempt is recorded; a refused token is refreshed
    and the write sent again, once. *)
Definition attempt_remote (m : ClaimedMutation) (token : AccessToken) (probing : bool) : prog (result unit unit) :=
  let app := oauth_app_id token in
  r ← write_remote m (token_value token) app probing;
  match r with
  | Ok remote => complete_remote m remote app
  | Err (SoundCloud (PausedWrite hold)) => postpone_unsent m hold app
  | Err ((SoundCloud se) as e) =>
      if is_unauthorized se then
        refreshed ← trigger (RefreshRejected (token_value token));
        match refreshed with
        | Err e => record_connection_failure m e
        | Ok token' =>
            let app := oauth_app_id token' in
            r ← write_remote m (token_value token') app probing;
            match r with
            | Ok remote => complete_remote m remote app
            | Err (SoundCloud (PausedWrite hold)) => postpone_unsent m hold app
            | Err ((SoundCloud se) as e) =>
                if is_unauthorized se then
                  _x ←? trigger (RejectForLater (token_value token'));
                  then_done (postpone_before_post m (lit "SoundCloud rejected the refreshed access token")
                               RATE_LIMIT_RETRY_SECONDS)
                else fail_remote m e app
            | Err e => fail_remote m e app
            end
        end
      else fail_remote m e app
  | Err e => fail_remote m e app
  end.

Definition execute (m : ClaimedMutation) : prog (result unit unit) :=
  evicted ← trigger EvictPrivate;
  match evicted with
  | Err message => postpone_after_failure message
  | Ok _ =>
      if has_remote_result m then finalize
      else
        dropped ←? trigger DropSuperseded;
        if (dropped : bool) then done
        else if bool_decide (m_action_type m = lit "comment") && has_ambiguous_remote_attempt m
        then then_done (park SYNC_QUEUE_MAX_RETRIES AMBIGUOUS)
        else
          asked ← trigger AskToken;
          match asked with
          | Err e => record_connection_failure m e
          | Ok token =>
              confirmed ←? (if bool_decide (m_action_type m = lit "playlist_create")
                               && has_ambiguous_remote_attempt m
                            then confirm_unclear_create m token else mret (Ok (Some token)));
              match confirmed with
              | None => done
              | Some token =>
                  account ← trigger (AccountRemaining (account_action m));
                  match account with
                  | Some s =>
                      then_done (postpone_before_post m (lit "SoundCloud limits this action for the account")
                                   (Z.min s PAUSED_ACTION_RECHECK_SECONDS))
                  | None =>
                      admitted ←? admit_action m token;
                      match admitted with
                      | None => done
                      | Some probing =>
                          recorded ←? record_remote_attempt;
                          if (recorded : bool) then attempt_remote m token probing else release
                      end
                  end
              end
          end
  end.
End handler.
