(* ===== verification/SyncSystem.v ===== *)
(** * SyncSystem: the sync queue's workers at work

    Workers, the API and the maintenance statements of the sync queue, interleaved
    in any order: a worker runs the program of [SyncProgram] one effect at a time,
    its lease may run out while it is busy, it may stop anywhere, and a statement
    may fail after it took effect. *)

From Stdlib Require Import ZArith Lia String.
From stdpp Require Import base list numbers tactics sets gmap relations functions.
From S2P Require Import Prelude Text EntityRef WritePauses SyncRows SyncProgram.
Local Open Scope Z_scope.

(** ** Answers *)

(** A request that left for SoundCloud, with its answer. *)
Record Sent := {
  s_id : Z;
  s_generation : Z;
  s_action : str;
  s_method : Method;
  s_answer : result Value SoundCloudError }.

(** What the effect may answer, the table after, and what was sent.  A failed
    statement may or may not have taken effect. *)
Definition answers (now : Z) (m : ClaimedMutation) (t : SyncTable) {A} (e : Eff A)
  : A -> SyncTable -> list Sent -> Prop :=
  match e in Eff A return A -> SyncTable -> list Sent -> Prop with
  | Run s => fun a t' l => l = [] /\
      let '(n, t1) := execute_statement now m s t in
      (a = Ok n /\ t' = t1) \/ (a = Err tt /\ (t' = t \/ t' = t1))
  | DropSuperseded => fun a t' l => l = [] /\ exists superseded,
      let '(b, t1) := drop_superseded_sql m superseded t in
      (a = Ok b /\ t' = t1) \/ (a = Err tt /\ (t' = t \/ t' = t1))
  | Finalize => fun a t' l => l = [] /\ exists local : result unit FinalizeError,
      let '(r, t1) := finalize_sql m local t in
      (a = r /\ t' = t1) \/ (a = Err FinalizeDatabase /\ (t' = t \/ t' = t1))
  | SendTo method _ _ _ _ => fun a t' l => t' = t
      /\ (forall h, a <> Err (PausedWrite h))
      /\ l = [{| s_id := m_id m; s_generation := m_generation m; s_action := m_action_type m;
                 s_method := method; s_answer := a |}]
  | _ => fun _ t' l => t' = t /\ l = []
  end.

(** ** Steps *)

Record Sys := {
  table : SyncTable;
  (** the workers' programs, by lease *)
  procs : gmap Z (ClaimedMutation * prog (result unit unit));
  log : list Sent;
  (** lease ids drawn so far *)
  leases : gset Z;
  (** the action of every generation ever given to an id *)
  issued : gmap (Z * Z) str }.

Definition set_cancelled (b : bool) (i : Intent) : Intent :=
  {| user_id := user_id i; action_type := action_type i; target_urn := target_urn i; payload := payload i;
     created_at := created_at i; generation := generation i; cancelled := b; intent_v := intent_v i |}.

(** [enqueue_membership_apply.sql], on conflict. *)
Definition renewed_progress (now : Z) (p : Progress) : Progress :=
  {| exec_generation := exec_generation p; lease_id := lease_id p; lease_generation := lease_generation p;
     locked_at := locked_at p; retry_count := 0; last_error := None; next_run_at := Some now; dead := false;
     failed_at := None; remote_attempted_generation := None; remote_completed_generation := None;
     remote_result := None |}.

(** What the API and the maintenance statements do to a row without a new generation. *)
Definition row_changes (lease_ms now : Z) (r r' : SyncRow) : Prop :=
  (exists b, r' = {| intent := set_cancelled b (intent r); progress := progress r |})
  \/ (unadopted r = true /\ r' = adopt_row now r) \/ r' = force_due_row now lease_ms r.

Section system.
Context (execute : ClaimedMutation -> prog (result unit unit)) (lease_ms : Z).

Inductive sync_queue_step (s : Sys) : Sys -> Prop :=
| step_claim now id r lease desired :
    table s !! id = Some r -> claimable now lease_ms r = true -> waits_behind id r (table s) = false ->
    lease ∉ leases s ->
    sync_queue_step s
      {| table := <[id := claim_row lease now r]> (table s);
         procs := <[lease := (claimed id lease desired r, execute (claimed id lease desired r))]> (procs s);
         log := log s; leases := {[lease]} ∪ leases s; issued := issued s |}
| step_run now lease m A (e : Eff A) k a t' sent :
    procs s !! lease = Some (m, Vis e k) -> answers now m (table s) e a t' sent ->
    sync_queue_step s
      {| table := t'; procs := <[lease := (m, k a)]> (procs s); log := log s ++ sent;
         leases := leases s; issued := issued s |}
| step_stop lease :
    sync_queue_step s
      {| table := table s; procs := delete lease (procs s); log := log s;
         leases := leases s; issued := issued s |}
| step_insert now id i :
    table s !! id = None -> issued s !! (id, generation i) = None ->
    sync_queue_step s
      {| table := <[id := {| intent := i; progress := fresh_progress now |}]> (table s); procs := procs s;
         log := log s; leases := leases s; issued := <[(id, generation i) := action_type i]> (issued s) |}
| step_renew now id r i reset :
    table s !! id = Some r -> issued s !! (id, generation i) = None ->
    sync_queue_step s
      {| table := <[id := {| intent := i;
                             progress := if (reset : bool) then renewed_progress now (progress r) else progress r |}]>
                    (table s);
         procs := procs s; log := log s; leases := leases s;
         issued := <[(id, generation i) := action_type i]> (issued s) |}
| step_row now id r r' :
    table s !! id = Some r -> row_changes lease_ms now r r' ->
    sync_queue_step s
      {| table := <[id := r']> (table s); procs := procs s; log := log s; leases := leases s; issued := issued s |}
| step_settle id wanted :
    sync_queue_step s
      {| table := (settle_sql id wanted (table s)).2; procs := procs s; log := log s;
         leases := leases s; issued := issued s |}
| step_remove id :
    sync_queue_step s
      {| table := delete id (table s); procs := procs s; log := log s; leases := leases s; issued := issued s |}.
End system.

Definition idle_system : Sys :=
  {| table := ∅; procs := ∅; log := []; leases := ∅; issued := ∅ |}.
(** A request that was sent is not reported as held back. *)
Global Instance Eff_answers : Answers Eff := fun A e =>
  match e in Eff A return A -> Prop with
  | SendTo _ _ _ _ _ => fun a => forall h, a <> Err (PausedWrite h)
  | _ => fun _ => True
  end.
Create HintDb sync.

(** ** Rows keep their generation and action *)

Definition same_intents (t' t : SyncTable) : Prop :=
  forall id r', t' !! id = Some r' ->
    exists r, t !! id = Some r /\ generation (intent r') = generation (intent r)
              /\ action_type (intent r') = action_type (intent r).

Lemma same_intents_refl t : same_intents t t.
Proof. intros id r Hr. by exists r. Qed.

Lemma same_intents_delete t id : same_intents (delete id t) t.
Proof. intros x r Hr. apply lookup_delete_Some in Hr as [_ Hr]. by exists r. Qed.

Lemma same_intents_insert t id r r' :
  t !! id = Some r -> generation (intent r') = generation (intent r) ->
  action_type (intent r') = action_type (intent r) -> same_intents (<[id := r']> t) t.
Proof.
  intros Hr Hg Ha x r0 H. apply lookup_insert_Some in H as [[<- <-]|[_ H]]; eauto.
Qed.
#[export] Hint Resolve same_intents_refl same_intents_delete same_intents_insert : sync.

Lemma run_statement_intent now m s r r' : run_statement now m s r = Some r' -> intent r' = intent r.
Proof. unfold run_statement. intros H. by destruct s; case_match; simplify_eq. Qed.

Lemma same_intents_statement now m s t : same_intents (execute_statement now m s t).2 t.
Proof.
  unfold execute_statement. destruct (t !! m_id m) as [r|] eqn:Hr; [|apply same_intents_refl].
  cbn [mbind option_bind]. destruct (run_statement now m s r) as [r'|] eqn:Hs; [|apply same_intents_refl].
  apply run_statement_intent in Hs. eapply same_intents_insert; [done|by rewrite Hs..].
Qed.

Lemma drop_superseded_table m b t :
  (drop_superseded_sql m b t).2 = t \/ (drop_superseded_sql m b t).2 = delete (m_id m) t.
Proof. unfold drop_superseded_sql. repeat case_match; auto. Qed.

Lemma finalize_table {E} m (local : result unit E) t :
  (finalize_sql m local t).2 = t \/ (finalize_sql m local t).2 = delete (m_id m) t
  \/ exists r, t !! m_id m = Some r /\ (finalize_sql m local t).2 = <[m_id m := on_progress unleased r]> t.
Proof. unfold finalize_sql. repeat case_match; eauto. Qed.

Lemma settle_table id wanted t :
  (settle_sql id wanted t).2 = t \/ (settle_sql id wanted t).2 = delete id t
  \/ exists r i, t !! id = Some r /\ generation i = generation (intent r) /\ action_type i = action_type (intent r)
                /\ (settle_sql id wanted t).2 = <[id := {| intent := i; progress := progress r |}]> t.
Proof.
  unfold settle_sql. repeat case_match; eauto. right. right.
  by exists s, (set_cancelled false (intent s)).
Qed.

Lemma answers_intents now m t {A} (e : Eff A) a t' sent : answers now m t e a t' sent -> same_intents t' t.
Proof.
  assert (forall t1, same_intents t1 t -> t' = t \/ t' = t1 -> same_intents t' t) as Hsame.
  { intros t1 Hs [->| ->]; auto with sync. }
  destruct e; cbn; intros H; try (apply (Hsame t); [by auto with sync|left; apply H]).
  - destruct H as [_ H]. pose proof (same_intents_statement now m s t) as Hi.
    destruct (execute_statement now m s t) as [n t1]. apply (Hsame t1); [done|naive_solver].
  - destruct H as [_ [b H]]. pose proof (drop_superseded_table m b t) as Ht.
    destruct (drop_superseded_sql m b t) as [x t1]. cbn in Ht.
    apply (Hsame t1); [destruct Ht as [->| ->]; auto with sync|naive_solver].
  - destruct H as [_ [b H]]. pose proof (finalize_table m b t) as Ht.
    destruct (finalize_sql m b t) as [x t1]. cbn in Ht.
    apply (Hsame t1); [destruct Ht as [->|[->|(r & Hr & ->)]]; eauto with sync|naive_solver].
Qed.

Lemma answers_log now m t {A} (e : Eff A) a t' sent x :
  answers now m t e a t' sent -> x ∈ sent ->
  s_id x = m_id m /\ s_generation x = m_generation m /\ s_action x = m_action_type m.
Proof.
  intros Ha Hx. destruct e; cbn in Ha; [..|];
    try (assert (sent = []) as -> by (by destruct Ha); by apply elem_of_nil in Hx).
  destruct Ha as (_ & _ & ->). by apply list_elem_of_singleton in Hx as ->.
Qed.

Lemma insert_rule {K V : Type} `{Countable K} (P : K -> V -> Prop) (t : gmap K V) k v :
  (forall k v, t !! k = Some v -> P k v) -> P k v -> forall k' v', <[k := v]> t !! k' = Some v' -> P k' v'.
Proof. intros Ht Hv k' v'. rewrite lookup_insert_Some. intros [[<- <-]|[_ Hk]]; auto. Qed.

(** ** Ids, generations and leases *)

Section queue.
Context (execute : ClaimedMutation -> prog (result unit unit)) (lease_ms : Z).
Abbreviation step := (sync_queue_step execute lease_ms).

(** Ids and generations name one action, leases one worker. *)
Record coherent (s : Sys) : Prop := {
  rows_issued : forall id r, table s !! id = Some r ->
    issued s !! (id, generation (intent r)) = Some (action_type (intent r));
  procs_issued : forall l m p, procs s !! l = Some (m, p) ->
    issued s !! (m_id m, m_generation m) = Some (m_action_type m);
  procs_leases : forall l m p, procs s !! l = Some (m, p) ->
    l ∈ leases s /\ m_lease_id m = l /\ m_lease_generation m = m_generation m;
  log_issued : forall x, x ∈ log s -> issued s !! (s_id x, s_generation x) = Some (s_action x) }.

Lemma coherent_frame s s' :
  coherent s -> same_intents (table s') (table s) -> procs s' = procs s -> leases s' = leases s ->
  issued s' = issued s -> log s' = log s -> coherent s'.
Proof.
  intros [R P L G] Ht Hp Hl Hi Hg. split; rewrite ?Hp, ?Hl, ?Hi, ?Hg; [|done..].
  intros id r' H. destruct (Ht id r' H) as (r & Hr & -> & ->). by apply R.
Qed.

(** A new generation of a row. *)
Lemma coherent_issue s id i p :
  coherent s -> issued s !! (id, generation i) = None ->
  coherent {| table := <[id := {| intent := i; progress := p |}]> (table s); procs := procs s; log := log s;
              leases := leases s; issued := <[(id, generation i) := action_type i]> (issued s) |}.
Proof.
  intros [R P L G] Hi.
  assert (forall k a, issued s !! k = Some a -> <[(id, generation i) := action_type i]> (issued s) !! k = Some a) as Hm.
  { intros k a Hk. rewrite lookup_insert_ne; [done|]. by intros <-; rewrite Hi in Hk. }
  split; cbn; [|eauto..].
  intros id' r'. rewrite lookup_insert_Some. intros [[<- <-]|[_ Hr]]; [|eauto]. apply lookup_insert_eq.
Qed.

Lemma row_step_intent now r r' :
  row_changes lease_ms now r r' ->
  generation (intent r') = generation (intent r) /\ action_type (intent r') = action_type (intent r)
  /\ remote_attempted_generation (progress r') = remote_attempted_generation (progress r)
  /\ (lease_id (progress r') = lease_id (progress r) \/ lease_id (progress r') = None).
Proof.
  intros [[b ->]|[[_ ->]| ->]]; [by auto..|]. unfold force_due_row. case_match; cbn; auto.
Qed.

Lemma coherent_claim s now id r lease desired :
  coherent s -> table s !! id = Some r ->
  coherent {| table := <[id := claim_row lease now r]> (table s);
              procs := <[lease := (claimed id lease desired r, execute (claimed id lease desired r))]> (procs s);
              log := log s; leases := {[lease]} ∪ leases s; issued := issued s |}.
Proof.
  intros [R P L G] Hr. split; cbn; [| | |exact G].
  - apply insert_rule; [exact R|]. by apply (R id r).
  - intros l m p. rewrite lookup_insert_Some. intros [[<- ?]|[_ Hl]]; [simplify_eq; by apply (R id r)|eauto].
  - intros l m p. rewrite lookup_insert_Some. intros [[<- ?]|[_ Hl]]; [simplify_eq; set_solver|].
    destruct (L _ _ _ Hl) as (? & ? & ?). set_solver.
Qed.

Lemma coherent_run s now lease m A (e : Eff A) k a t' sent :
  coherent s -> procs s !! lease = Some (m, Vis e k) -> answers now m (table s) e a t' sent ->
  coherent {| table := t'; procs := <[lease := (m, k a)]> (procs s); log := log s ++ sent;
              leases := leases s; issued := issued s |}.
Proof.
  intros [R P L G] Hp Ha. pose proof (answers_intents _ _ _ _ _ _ _ Ha) as Ht. split; cbn.
  - intros id r' H. destruct (Ht id r' H) as (r & Hr & -> & ->). by apply R.
  - intros l m' p'. rewrite lookup_insert_Some. intros [[<- ?]|[_ Hl]]; [simplify_eq|]; eauto.
  - intros l m' p'. rewrite lookup_insert_Some. intros [[<- ?]|[_ Hl]]; [simplify_eq|]; eauto.
  - intros x [Hx|Hx]%elem_of_app; [by apply G|].
    destruct (answers_log _ _ _ _ _ _ _ _ Ha Hx) as (-> & -> & ->). eauto.
Qed.

Lemma coherent_step s s' : coherent s -> step s s' -> coherent s'.
Proof.
  intros Hc Hst. destruct Hst as
    [now id r lease desired Hr Hcl Hw Hnew|now lease m A e k a t' sent Hp Ha|lease|now id i Hr Hi
    |now id r i reset Hr Hi|now id r r' Hr Hs|id wanted|id].
  - by apply coherent_claim.
  - by eapply coherent_run.
  - destruct Hc as [R P L G]. split; cbn; [done| | |done]; intros l m p [_ Hl]%lookup_delete_Some; eauto.
  - by apply coherent_issue.
  - by apply coherent_issue.
  - eapply coherent_frame; [done| |done..]. cbn.
    destruct (row_step_intent now r r' Hs) as (Hg & Ha & _). eauto with sync.
  - eapply coherent_frame; [done| |done..]. cbn.
    destruct (settle_table id wanted (table s)) as [->|[->|(r & i & Hr & Hg & Ha & ->)]]; eauto with sync.
  - eapply coherent_frame; [done| |done..]. cbn. auto with sync.
Qed.


Lemma coherent_idle : coherent idle_system.
Proof. split; cbn; set_solver. Qed.
End queue.

(** A worker's run between two points, alone. *)
Inductive alone (now : Z) (m : ClaimedMutation) (t : SyncTable) (p : prog (result unit unit)) (l : list Sent)
  : SyncTable -> prog (result unit unit) -> list Sent -> Prop :=
| alone_here : alone now m t p l t p l
| alone_effect A (e : Eff A) k a t1 sent t' p' l' :
    p = Vis e k -> answers now m t e a t1 sent -> alone now m t1 (k a) (l ++ sent) t' p' l' ->
    alone now m t p l t' p' l'.

Lemma alone_steps execute lease_ms now m t p l t' p' l' s lease :
  alone now m t p l t' p' l' -> table s = t -> log s = l -> procs s !! lease = Some (m, p) ->
  exists s', rtc (sync_queue_step execute lease_ms) s s' /\ table s' = t' /\ log s' = l'
             /\ procs s' !! lease = Some (m, p').
Proof.
  intros H. revert s. induction H as [|t p l A e k a t1 sent t' p' l' -> Ha _ IH]; intros s Ht Hl Hp.
  - exists s. by split_and!.
  - subst t l. destruct (IH {| table := t1; procs := <[lease := (m, k a)]> (procs s); log := log s ++ sent;
      leases := leases s; issued := issued s |}) as (s' & Hs & Hrest); [done|done|apply lookup_insert_eq|].
    exists s'. split; [|done]. eapply rtc_l; [|exact Hs]. by eapply step_run.
Qed.

(** A queue with one comment, for the examples. *)
Module Sample.
Definition no_body (v : Value) : result Value str := Err [].
Definition worker : ClaimedMutation -> prog (result unit unit) :=
  execute Datatypes.id no_body no_body (fun _ => []) (fun _ => []) (fun _ => []) (fun _ => []) (fun _ => true) false 1
    (fun _ => None) (fun _ => None).
Definition comment : Intent :=
  {| user_id := lit "u"; action_type := lit "comment"; target_urn := lit "soundcloud:tracks:1";
     payload := Some VNull; created_at := 0; generation := 7; cancelled := false; intent_v := 0 |}.
Definition token (v : str) : AccessToken := {| token_value := v; oauth_app_id := None |}.
Definition row : SyncRow := {| intent := comment; progress := fresh_progress 0 |}.
Definition m : ClaimedMutation := claimed 1 10 None row.
Definition sent (a : result Value SoundCloudError) : Sent :=
  {| s_id := 1; s_generation := 7; s_action := lit "comment"; s_method := POST; s_answer := a |}.

Lemma alone_reachable t p l :
  alone 0 m {[1 := claim_row 10 0 row]} (worker m) [] t p l ->
  exists s, rtc (sync_queue_step worker 1000) idle_system s /\ table s = t /\ log s = l
            /\ procs s !! 10 = Some (m, p).
Proof.
  intros H. destruct (alone_steps worker 1000 0 m _ _ _ _ _ _
    {| table := {[1 := claim_row 10 0 row]}; procs := {[10 := (m, worker m)]}; log := []; leases := {[10]};
       issued := {[(1, 7) := lit "comment"]} |} 10 H) as (s & Hs & Hrest); [done|done|done|].
  exists s. split; [|exact Hrest].
  eapply rtc_l; [apply (step_insert _ _ _ 0 1 comment); reflexivity|].
  eapply rtc_l; [apply (step_claim _ _ _ 0 1 row 10 None); [reflexivity|reflexivity|reflexivity|set_solver]|].
  exact Hs.
Qed.
End Sample.
