(* ===== verification/SyncProtocol.v ===== *)
(** * SyncProtocol: a comment is attempted once

    How far [execute] may go with a write that must not be repeated.  A worker that
    was told of an earlier attempt sends nothing; any other records its attempt
    before it sends, sends again only after a refusal, and takes the attempt back
    only while nothing can have been written. *)

From Stdlib Require Import ZArith Lia String.
From stdpp Require Import base list numbers tactics sets gmap relations functions.
From S2P Require Import Prelude Text EntityRef WritePauses SyncRows SyncProgram SyncSystem.
Local Open Scope Z_scope.

(** ** The protocol of a worker

    Where a worker stands with a write that must not be repeated: it has not
    recorded an attempt, it has and nothing got through, or it must not write. *)
Inductive phase := Fresh | Attempted | Closed.

(** Answers that say that nothing was written. *)
Definition refused (a : result Value SoundCloudError) : bool :=
  match a with
  | Err (Api status _ _) => (status =? 401) || (status =? 403) || (status =? 429)
  | _ => false
  end.

Global Instance attempts : Protocol Eff phase := {
  permits ph A e :=
    match e with
    | Run RecordRemoteAttempt => ph = Fresh
    | Run (PostponeUnattempted _ _) => ph <> Closed
    | SendTo _ _ _ _ _ => ph = Attempted
    | _ => True
    end;
  after ph A e :=
    match e in Eff A return A -> phase with
    | Run RecordRemoteAttempt => fun a => match a with Ok 1 => Attempted | _ => Closed end
    | Run (PostponeUnattempted _ _) => fun _ => Closed
    | SendTo _ _ _ _ _ => fun a => if refused a then ph else Closed
    | _ => fun _ => ph
    end }.

(** Quiet programs neither attempt, send nor take an attempt back. *)
Definition quiet {R} (p : prog R) : Prop := forall ph : phase, keeps ph p (fun ph' _ => ph' = ph).

Lemma quiet_return {R} (r : R) : quiet (mret r).
Proof. by intros ph. Qed.

Lemma quiet_seq {R S} (p : prog R) (f : R -> prog S) : quiet p -> (forall r, quiet (f r)) -> quiet (p ≫= f).
Proof.
  intros Hp Hf ph. apply keeps_bind. eapply keeps_impl; [|apply Hp]. intros ph' r ->. apply Hf.
Qed.

Lemma quiet_try {A B} (p : prog (result A unit)) (f : A -> prog (result B unit)) :
  quiet p -> (forall a, quiet (f a)) -> quiet (try p f).
Proof. intros Hp Hf. apply quiet_seq; [done|]. intros [a|e]; [apply Hf|apply quiet_return]. Qed.

Lemma quiet_then_done {A} (p : prog (result A unit)) : quiet p -> quiet (then_done p).
Proof. intros Hp. apply quiet_try; [done|]. intros _. apply quiet_return. Qed.

Definition quiet_effect {A} (e : Eff A) : bool :=
  match e with
  | Run RecordRemoteAttempt | Run (PostponeUnattempted _ _) | SendTo _ _ _ _ _ => false
  | _ => true
  end.

Lemma quiet_trigger {A} (e : Eff A) : quiet_effect e = true -> quiet (trigger e).
Proof. intros He ph. destruct e; try done; destruct s; done. Qed.

Lemma quiet_or_release s : quiet_effect (Run s) = true -> quiet (or_release s).
Proof.
  intros Hs. apply quiet_try; [by apply quiet_trigger|]. intros n. destruct (n =? 0); [|apply quiet_return].
  apply quiet_try; [by apply quiet_trigger|]. intros _. apply quiet_return.
Qed.

#[export] Hint Resolve quiet_return quiet_seq quiet_try quiet_then_done quiet_trigger quiet_or_release : sync.

(** Steps through a quiet program. *)
Ltac quiet_step :=
  match goal with
  | |- quiet (mret _) => apply quiet_return
  | |- quiet (Ret _) => apply quiet_return
  | |- quiet (trigger _) => by apply quiet_trigger
  | |- quiet (or_release _) => by apply quiet_or_release
  | |- quiet (then_done _) => apply quiet_then_done
  | |- quiet (try _ _) => apply quiet_try; [|intros ?]
  | |- quiet (_ ≫= _) => apply quiet_seq; [|intros ?]
  | |- quiet (match ?x with _ => _ end) => destruct x
  | |- quiet done => apply quiet_return
  end.
Ltac solve_quiet := repeat first [assumption | quiet_step].

Lemma quiet_keeps {R} ph (p : prog R) : quiet p -> keeps ph p anyhow.
Proof. intros Hp. by eapply keeps_impl; [|apply Hp]. Qed.

Section worker.
Context (to_lowercase : str -> str).
Context (track_update_body playlist_update_body : Value -> result Value str).
Context (sc_error_text : SoundCloudError -> str) (action_error_text : ActionError -> str)
  (connection_error_text : ConnectionError -> str) (finalize_error_text : FinalizeError -> str).
Context (joins : str -> bool) (has_proxy : bool) (like_interval : Z).
Context (listing_page : str -> option str) (parse_dt : option Value -> option Z).

Abbreviation finalize' := (finalize action_error_text finalize_error_text).
Abbreviation write_remote' := (write_remote track_update_body playlist_update_body joins has_proxy).
Abbreviation complete_remote' := (complete_remote action_error_text finalize_error_text like_interval).
Abbreviation fail_remote' := (fail_remote to_lowercase sc_error_text action_error_text).
Abbreviation attempt_remote' := (attempt_remote to_lowercase track_update_body playlist_update_body sc_error_text
  action_error_text connection_error_text finalize_error_text joins has_proxy like_interval).
Abbreviation execute' := (execute to_lowercase track_update_body playlist_update_body sc_error_text
  action_error_text connection_error_text finalize_error_text joins has_proxy like_interval listing_page parse_dt).

Lemma quiet_finalize : quiet finalize'.
Proof. unfold finalize, postpone_after_failure, park, postpone. solve_quiet. Qed.

Lemma quiet_release : quiet release.
Proof. unfold release. solve_quiet. Qed.

Lemma quiet_lift_all app actions : quiet (lift_all app actions).
Proof. induction actions as [|a actions IH]; cbn [lift_all]; solve_quiet. Qed.

Lemma quiet_forget_pauses app action : quiet (forget_pauses app action).
Proof. unfold forget_pauses. repeat first [apply quiet_lift_all|quiet_step]. Qed.

Lemma quiet_complete_remote m remote app : quiet (complete_remote' m remote app).
Proof.
  unfold complete_remote, record_remote_success.
  repeat first [apply quiet_forget_pauses|apply quiet_finalize|apply quiet_release|quiet_step].
Qed.

Lemma quiet_pause_writes m e app : quiet (pause_writes_when_refused m e app).
Proof. unfold pause_writes_when_refused. solve_quiet. Qed.

Lemma keeps_or_release ph s : permits ph (Run s) -> keeps ph (or_release s) anyhow.
Proof.
  intros Hp. apply keeps_try. split; [exact Hp|]. intros a _. cbn [keeps]. destruct a as [n|]; [|exact I].
  destruct (n =? 0); [|exact I]. apply quiet_keeps. solve_quiet.
Qed.

Lemma keeps_then_done {A} ph (p : prog (result A unit)) : keeps ph p anyhow -> keeps ph (then_done p) anyhow.
Proof. intros Hp. apply keeps_try. eapply keeps_impl; [|exact Hp]. by intros ph' [a|e]. Qed.

(** A worker that was not told of an earlier attempt may take its own back. *)
Lemma keeps_postpone_before ph m message seconds :
  (has_ambiguous_remote_attempt m = false -> ph <> Closed) -> keeps ph (postpone_before_post m message seconds) anyhow.
Proof.
  intros H. unfold postpone_before_post. destruct (has_ambiguous_remote_attempt m).
  - apply quiet_keeps. unfold postpone. solve_quiet.
  - apply keeps_or_release. by apply H.
Qed.

(** Comparisons of literal names. *)
Ltac eval_names :=
  repeat match goal with
         | |- context [bool_decide (lit ?a = lit ?b)] =>
             let x := eval vm_compute in (bool_decide (lit a = lit b)) in
             change (bool_decide (lit a = lit b)) with x; cbn [orb andb]
         end.

Lemma comment_request m :
  m_action_type m = lit "comment" ->
  match remote_request track_update_body playlist_update_body m with
  | Ok (Send method _ _ _) => method = POST
  | Ok (Answered _) => False
  | Err e => exists message, e = InvalidPayload message
  end.
Proof.
  intros Ha. unfold remote_request, MEMBERSHIP_ACTION. rewrite Ha. eval_names.
  unfold required_payload. destruct (m_payload m); [done|by eexists].
Qed.

Lemma app_limited_refused e : is_app_rate_limited e = true -> refused (Err e) = true.
Proof.
  unfold is_app_rate_limited, is_rate_limited. destruct e; try done. simpl. intros H.
  apply andb_true_iff in H as [-> _]. by rewrite orb_true_r.
Qed.

Lemma keeps_send_routed path body token :
  keeps Attempted (send_routed has_proxy POST path body token)
    (fun ph r => (forall h, r <> Err (PausedWrite h)) /\ (refused r = true -> ph = Attempted)).
Proof.
  assert (forall proxied, keeps Attempted (trigger (SendTo POST path body proxied token))
    (fun ph r => (forall h, r <> Err (PausedWrite h)) /\ (refused r = true -> ph = Attempted)
                 /\ (ph = Attempted -> refused r = true))) as Hsend.
  { intros proxied. split; [done|]. intros a Ha. cbn in *. split_and!; [done|by intros ->|by destruct (refused a)]. }
  unfold send_routed. destruct has_proxy.
  - apply keeps_bind. eapply keeps_impl; [|apply Hsend]. intros ph [v|e] (H1 & H2 & H3); [done|].
    unfold retries_direct. destruct (is_app_rate_limited e) eqn:El.
    + rewrite H2 by (by apply app_limited_refused). eapply keeps_impl; [|apply Hsend]. by intros ph' r (? & ? & _).
    + rewrite bool_decide_eq_true_2 by done. done.
  - eapply keeps_impl; [|apply Hsend]. by intros ph' r (? & ? & _).
Qed.

(** What a write of a comment leaves behind. *)
Definition write_outcome (ph : phase) (r : result Remote ActionError) : Prop :=
  match r with
  | Err (SoundCloud (PausedWrite _)) => ph = Attempted
  | Err (SoundCloud e) => refused (Err e) = true -> ph = Attempted
  | _ => True
  end.

Lemma keeps_write_remote m token app probing :
  m_action_type m = lit "comment" ->
  keeps Attempted (write_remote' m token app probing) write_outcome.
Proof.
  intros Ha. unfold write_remote. pose proof (comment_request m Ha) as Hr.
  destruct (remote_request _ _ m) as [[method path body answer|v]|e]; [subst method|done|by destruct Hr as [? ->]].
  apply keeps_bind. unfold send_gated. destruct (joins path); [|done]. cbn [negb].
  apply keeps_bind. apply keeps_impl with (Q := fun ph _ => ph = Attempted).
  2:{ assert (quiet (hold_before_write m app probing)) as Hq by (unfold hold_before_write; solve_quiet). apply Hq. }
  intros ph [h|] ->; [done|]. eapply keeps_impl; [|apply keeps_send_routed].
  intros ph r [H1 H2]. destruct r as [v|[|status b ra|h| |]]; try done.
  - destruct (_ && _); [done|]. exact H2.
  - by destruct (H1 h).
Qed.

Lemma keeps_park ph n message : keeps ph (then_done (park n message)) anyhow.
Proof. apply quiet_keeps. unfold park. solve_quiet. Qed.

Lemma keeps_connection_failure ph m e :
  (has_ambiguous_remote_attempt m = false -> ph <> Closed) ->
  keeps ph (record_connection_failure connection_error_text m e) anyhow.
Proof.
  intros H. unfold record_connection_failure.
  assert (forall s, keeps ph (if is_non_idempotent (m_action_type m)
    then then_done (postpone_before_post m (connection_error_text e) s)
    else then_done (postpone (connection_error_text e) s)) anyhow) as Hk.
  { intros s. destruct (is_non_idempotent _).
    - by apply keeps_then_done, keeps_postpone_before.
    - apply quiet_keeps. unfold postpone. solve_quiet. }
  destruct e; [apply Hk..|done].
Qed.

(** Refusals that are known from the body of the answer. *)
Lemma banned_refused se : is_banned to_lowercase se = true -> refused (Err se) = true.
Proof.
  destruct se as [|st [| | |m| |] ra| | |]; try done. cbn. intros H. apply andb_true_iff in H as [-> _].
  by rewrite orb_true_r.
Qed.

Lemma subscription_refused se : is_subscription_required se = true -> refused (Err se) = true.
Proof. destruct se; try done. cbn. intros H. apply andb_true_iff in H as [-> _]. by rewrite orb_true_r. Qed.

Lemma account_limited_refused se : is_account_rate_limited se = true -> refused (Err se) = true.
Proof. destruct se; try done. cbn. intros H. apply andb_true_iff in H as [-> _]. by rewrite orb_true_r. Qed.

Lemma limited_refused se : is_rate_limited se = true -> refused (Err se) = true.
Proof. destruct se; try done. cbn. intros ->. by rewrite orb_true_r. Qed.

Lemma keeps_unattempted se ph s :
  write_outcome ph (Err (SoundCloud se)) -> refused (Err se) = true ->
  keeps ph (then_done (postpone_unattempted (sc_error_text se) s)) anyhow.
Proof.
  intros Hw Hr. apply keeps_then_done, keeps_or_release. destruct se; try done. cbn in Hw, Hr.
  rewrite (Hw Hr). done.
Qed.

Lemma keeps_action_failure ph m e :
  m_action_type m = lit "comment" -> write_outcome ph (Err e) ->
  keeps ph (record_action_failure to_lowercase sc_error_text action_error_text m e) anyhow.
Proof.
  intros Ha Hw. unfold record_action_failure. rewrite Ha. change (is_non_idempotent (lit "comment")) with true.
  unfold record_non_idempotent_failure. rewrite Ha. eval_names.
  destruct e as [|se|p|p|a]; [exact I| |apply keeps_park..].
  destruct (is_banned to_lowercase se) eqn:E1; [by eapply keeps_unattempted, banned_refused|].
  destruct (is_subscription_required se) eqn:E2; [by eapply keeps_unattempted, subscription_refused|].
  destruct (is_account_rate_limited se) eqn:E3; [by eapply keeps_unattempted, account_limited_refused|].
  destruct (is_rate_limited se) eqn:E4; [by eapply keeps_unattempted, limited_refused|].
  destruct (match se with Api _ _ _ => _ | _ => _ end); apply keeps_park.
Qed.

Lemma keeps_fail_remote ph m e app :
  m_action_type m = lit "comment" -> write_outcome ph (Err e) -> keeps ph (fail_remote' m e app) anyhow.
Proof.
  intros Ha Hw. unfold fail_remote. apply keeps_bind. eapply keeps_impl; [|apply quiet_pause_writes].
  intros ph' [] ->. by apply keeps_action_failure.
Qed.

Lemma keeps_postpone_unsent ph m hold app :
  ph <> Closed -> keeps ph (postpone_unsent m hold app) anyhow.
Proof.
  intros H. unfold postpone_unsent. apply keeps_bind. apply keeps_impl with (Q := fun ph' _ => ph' = ph).
  - intros ph' [] ->. by apply keeps_then_done, keeps_postpone_before.
  - assert (quiet (match app with Some app => trigger (SpacingSucceeded (app, m_action_type m) None) | None => mret tt end))
      as Hq by solve_quiet. apply Hq.
Qed.

(** The second write, with the refreshed token. *)
Definition second_write (m : ClaimedMutation) (token : AccessToken) (probing : bool) : prog (result unit unit) :=
  let app := oauth_app_id token in
  r ← write_remote' m (token_value token) app probing;
  match r with
  | Ok remote => complete_remote' m remote app
  | Err (SoundCloud (PausedWrite hold)) => postpone_unsent m hold app
  | Err ((SoundCloud se) as e) =>
      if is_unauthorized se then
        _x ←? trigger (RejectForLater (token_value token));
        then_done (postpone_before_post m (lit "SoundCloud rejected the refreshed access token")
                     RATE_LIMIT_RETRY_SECONDS)
      else fail_remote' m e app
  | Err e => fail_remote' m e app
  end.

Lemma unauthorized_refused se : is_unauthorized se = true -> refused (Err se) = true.
Proof. destruct se; try done. cbn. by intros ->. Qed.

Lemma unauthorized_attempted ph se :
  write_outcome ph (Err (SoundCloud se)) -> is_unauthorized se = true -> ph = Attempted.
Proof. intros Hw Hu. pose proof (unauthorized_refused se Hu) as Hr. destruct se; try done. exact (Hw Hr). Qed.

(** What follows a write, whatever an unauthorized answer leads to. *)
Lemma keeps_after_write ph m r app (unauthorized : SoundCloudError -> prog (result unit unit)) :
  m_action_type m = lit "comment" -> write_outcome ph r ->
  (forall se, is_unauthorized se = true -> keeps Attempted (unauthorized se) anyhow) ->
  keeps ph match r with
           | Ok remote => complete_remote' m remote app
           | Err (SoundCloud (PausedWrite hold)) => postpone_unsent m hold app
           | Err ((SoundCloud se) as e) => if is_unauthorized se then unauthorized se else fail_remote' m e app
           | Err e => fail_remote' m e app
           end anyhow.
Proof.
  intros Ha Hw Hu.
  assert (forall se, r = Err (SoundCloud se) ->
    keeps ph (if is_unauthorized se then unauthorized se else fail_remote' m (SoundCloud se) app) anyhow) as Hse.
  { intros se ->. destruct (is_unauthorized se) eqn:E; [|by apply keeps_fail_remote].
    rewrite (unauthorized_attempted _ _ Hw E). by apply Hu. }
  destruct r as [remote|[|[|st b ra|hold| |]|p|p|a]]; try by apply keeps_fail_remote.
  - apply quiet_keeps, quiet_complete_remote.
  - by apply (Hse (Api st b ra)).
  - apply keeps_postpone_unsent. cbn in Hw. by rewrite Hw.
Qed.

Lemma keeps_second_write m token probing :
  m_action_type m = lit "comment" -> keeps Attempted (second_write m token probing) anyhow.
Proof.
  intros Ha. apply keeps_bind. eapply keeps_impl; [|by apply keeps_write_remote].
  intros ph r Hw. apply (keeps_after_write ph m r (oauth_app_id token)
    (fun se => _x ←? trigger (RejectForLater (token_value token));
       then_done (postpone_before_post m (lit "SoundCloud rejected the refreshed access token")
                    RATE_LIMIT_RETRY_SECONDS))); [done|done|].
  intros se _. apply keeps_try. split; [exact I|]. intros [[]|[]] _; [|exact I].
  by apply keeps_then_done, keeps_postpone_before.
Qed.

Lemma keeps_attempt_remote m token probing :
  m_action_type m = lit "comment" -> keeps Attempted (attempt_remote' m token probing) anyhow.
Proof.
  intros Ha. apply keeps_bind. eapply keeps_impl; [|by apply keeps_write_remote].
  intros ph r Hw. apply (keeps_after_write ph m r (oauth_app_id token)
    (fun _ => refreshed ← trigger (RefreshRejected (token_value token));
       match refreshed with
       | Err e => record_connection_failure connection_error_text m e
       | Ok token' => second_write m token' probing
       end)); [done|done|].
  intros se _. apply keeps_bind. split; [exact I|]. intros [token'|e] _.
  - by apply keeps_second_write.
  - by apply keeps_connection_failure.
Qed.

(** ** The whole handler *)

Lemma keeps_admit_action m token Q ph :
  has_ambiguous_remote_attempt m = false -> ph = Fresh ->
  (forall ph', Q ph' (Ok None)) -> (forall ph' e, Q ph' (Err e)) -> (forall b, Q Fresh (Ok (Some b))) ->
  keeps ph (admit_action like_interval m token) Q.
Proof.
  intros Hm -> Hn He Hs. unfold admit_action. destruct (oauth_app_id token) as [app|]; [|by apply Hs].
  assert (forall message s, keeps Fresh (_x ←? postpone_before_post m message s; mret (Ok None)) Q) as Hp.
  { intros message s. apply keeps_try.
    apply keeps_impl with (Q := anyhow); [|by apply keeps_postpone_before].
    intros ph' [b|e] _; [apply Hn|apply He]. }
  apply keeps_bind. split; [exact I|]. intros [| |s] _; [| |apply Hp].
  all: apply keeps_bind; split; [exact I|]; intros [| |s'] _; [|apply Hs|apply Hp].
  all: apply keeps_bind; unfold spacing; destruct (bool_decide _); [split; [exact I|]; intros [] _|]; apply Hs.
Qed.

(** A worker told of no attempt sends at most once. *)
Lemma execute_fresh m :
  m_action_type m = lit "comment" -> m_remote_attempted_generation m <> Some (m_generation m) ->
  keeps Fresh (execute' m) anyhow.
Proof.
  intros Ha Hm.
  assert (has_ambiguous_remote_attempt m = false) as Hamb.
  { unfold has_ambiguous_remote_attempt. by rewrite bool_decide_eq_false_2 by done. }
  unfold execute. apply keeps_bind. split; [exact I|]. intros [[]|message] _.
  2:{ apply quiet_keeps. unfold postpone_after_failure, postpone. solve_quiet. }
  destruct (has_remote_result m); [apply quiet_keeps, quiet_finalize|].
  apply keeps_try. split; [exact I|]. intros [[]|[]] _; [exact I| |exact I].
  rewrite Hamb, !andb_false_r. apply keeps_bind. split; [exact I|]. intros [token|e] _.
  2:{ by apply keeps_connection_failure. }
  apply keeps_bind. split; [exact I|]. intros [s|] _; [by apply keeps_then_done, keeps_postpone_before|].
  apply keeps_try. apply keeps_admit_action; [done|done|by intros ?|by intros ? []|].
  intros probing. apply keeps_try, keeps_try. split; [reflexivity|]. intros [n|[]] _; [|exact I].
  cbn [keeps mret]. destruct (n =? 1) eqn:En.
  - apply Z.eqb_eq in En as ->. by apply keeps_attempt_remote.
  - apply quiet_keeps, quiet_release.
Qed.

(** A worker told of an attempt sends nothing. *)
Lemma execute_closed m :
  m_action_type m = lit "comment" -> m_remote_attempted_generation m = Some (m_generation m) ->
  keeps Closed (execute' m) anyhow.
Proof.
  intros Ha Hm. unfold execute. apply keeps_bind. split; [exact I|]. intros [[]|message] _.
  2:{ apply quiet_keeps. unfold postpone_after_failure, postpone. solve_quiet. }
  destruct (has_remote_result m) eqn:Hr; [apply quiet_keeps, quiet_finalize|].
  apply keeps_try. split; [exact I|]. intros [[]|[]] _; [exact I| |exact I].
  unfold has_ambiguous_remote_attempt. rewrite Hr, (bool_decide_eq_true_2 _ Hm), (bool_decide_eq_true_2 _ Ha).
  apply keeps_park.
Qed.
End worker.
