(* ===== verification/SyncSafety.v ===== *)
(** * SyncSafety: a comment gets through at most once

    The workers of one generation of a comment follow [SyncProtocol]; here the rows,
    the leases and the requests are followed along every interleaving. *)

From Stdlib Require Import ZArith Lia String.
From stdpp Require Import base list numbers tactics sets gmap relations functions.
From S2P Require Import Prelude Text EntityRef WritePauses SyncRows SyncProgram SyncSystem SyncProtocol.
Local Open Scope Z_scope.

(** ** One generation of a comment *)

(** What matters of the row while it has the generation: who holds it and whether an
    attempt is recorded. *)
Definition view (id g : Z) (t : SyncTable) : option (option Z * bool) :=
  match t !! id with
  | Some r => if generation (intent r) =? g
              then Some (lease_id (progress r), bool_decide (remote_attempted_generation (progress r) = Some g))
              else None
  | None => None
  end.

(** A change that lets a lease go at most. *)
Definition calmer (v' v : option (option Z * bool)) : Prop :=
  match v' with
  | None => True
  | Some (l', b) => exists l, v = Some (l, b) /\ (l' = l \/ l' = None)
  end.

Lemma calmer_refl v : calmer v v.
Proof. destruct v as [[l b]|]; [exists l; auto|exact I]. Qed.
#[export] Hint Resolve calmer_refl : sync.

Lemma view_delete id g t x : calmer (view id g (delete x t)) (view id g t).
Proof.
  unfold view. destruct (decide (x = id)) as [->|].
  - by rewrite lookup_delete_eq.
  - rewrite lookup_delete_ne by done. apply calmer_refl.
Qed.

(** Writing another row, or the same without touching intent and attempt. *)
Lemma view_update id g t x r r' :
  t !! x = Some r ->
  generation (intent r') = generation (intent r) ->
  remote_attempted_generation (progress r') = remote_attempted_generation (progress r) ->
  lease_id (progress r') = lease_id (progress r) \/ lease_id (progress r') = None ->
  calmer (view id g (<[x := r']> t)) (view id g t).
Proof.
  intros Hr Hg Ha Hl. unfold view. destruct (decide (x = id)) as [->|].
  - rewrite lookup_insert_eq, Hr, Hg, Ha. destruct (_ =? g); [|exact I]. eexists. split; [done|].
    destruct Hl as [->| ->]; auto.
  - rewrite lookup_insert_ne by done. apply calmer_refl.
Qed.
#[export] Hint Resolve view_delete view_update : sync.

(** What a worker's statement does to the row of a generation. *)
Definition marked (s : Statement) (l : Z) (v' v : option (option Z * bool)) : Prop :=
  exists b, v = Some (Some l, b)
  /\ match s with
     | RecordRemoteAttempt => v' = Some (Some l, true)
     | PostponeUnattempted _ _ => exists b', v' = Some (None, b')
     | _ => False
     end.

Lemma owns_true m r :
  owns m r = true ->
  lease_id (progress r) = Some (m_lease_id m) /\ lease_generation (progress r) = Some (m_lease_generation m).
Proof. unfold owns. rewrite andb_true_iff, !bool_decide_eq_true. done. Qed.

Lemma owns_current_true m r :
  owns_current m r = true ->
  lease_id (progress r) = Some (m_lease_id m) /\ generation (intent r) = m_lease_generation m.
Proof. unfold owns_current. rewrite andb_true_iff, Z.eqb_eq. by intros [[? _]%owns_true ?]. Qed.

Lemma run_statement_view now m s r r' id g :
  run_statement now m s r = Some r' -> m_lease_generation m = m_generation m ->
  generation (intent r') = generation (intent r)
  /\ (remote_attempted_generation (progress r') = remote_attempted_generation (progress r)
      /\ (lease_id (progress r') = lease_id (progress r) \/ lease_id (progress r') = None)
      \/ generation (intent r) = m_generation m
         /\ (forall t, t !! id = Some r -> generation (intent r) = g ->
             marked s (m_lease_id m) (view id g (<[id := r']> t)) (view id g t))).
Proof.
  intros Hr Hm. unfold run_statement in Hr.
  destruct s; case_match eqn:Hc; simplify_eq; cbn; (split; [done|]); eauto.
  - right. rewrite !andb_true_iff, Z.eqb_eq in Hc. destruct Hc as [[[Hl _]%owns_true Hg] _].
    split; [done|]. intros t Ht <-. unfold marked, view. rewrite lookup_insert_eq, Ht, Z.eqb_refl. cbn.
    rewrite Z.eqb_refl, Hl, Hg. eexists. split; [done|]. by rewrite bool_decide_eq_true_2.
  - right. apply andb_true_iff in Hc as [[Hl Hg]%owns_current_true _]. rewrite Hm in Hg.
    split; [done|]. intros t Ht <-. unfold marked, view. rewrite lookup_insert_eq, Ht, Z.eqb_refl. cbn.
    rewrite Z.eqb_refl, Hl. eauto.
Qed.

Lemma view_statement now m s t id g :
  m_lease_generation m = m_generation m ->
  let t1 := (execute_statement now m s t).2 in
  calmer (view id g t1) (view id g t)
  \/ m_id m = id /\ m_generation m = g /\ marked s (m_lease_id m) (view id g t1) (view id g t).
Proof.
  intros Hm. unfold execute_statement. destruct (t !! m_id m) as [r|] eqn:Hr; [|left; apply calmer_refl].
  cbn [mbind option_bind]. destruct (run_statement now m s r) as [r'|] eqn:Hs; [|left; apply calmer_refl].
  destruct (run_statement_view now m s r r' id g Hs Hm) as [Hg [[Ha Hl]|[Hgm Hv]]]; [left; eauto with sync|].
  cbn [snd]. destruct (decide (m_id m = id)) as [<-|Hne].
  - destruct (decide (generation (intent r) = g)) as [Hrg|Hrg].
    + right. split; [done|]. split; [congruence|]. by apply Hv.
    + left. unfold view. rewrite lookup_insert_eq, Hg. by rewrite (proj2 (Z.eqb_neq _ _) Hrg).
  - left. unfold view. rewrite lookup_insert_ne by done. apply calmer_refl.
Qed.

(** An attempt that touched a row was recorded for the current holder. *)
Lemma recorded_attempt now m t :
  (execute_statement now m RecordRemoteAttempt t).1 = 1 ->
  marked RecordRemoteAttempt (m_lease_id m)
    (view (m_id m) (m_generation m) (execute_statement now m RecordRemoteAttempt t).2)
    (view (m_id m) (m_generation m) t).
Proof.
  unfold execute_statement. destruct (t !! m_id m) as [r|] eqn:Hr; [|done].
  cbn [mbind option_bind]. destruct (run_statement _ _ _ r) as [r'|] eqn:Hs; [|done]. intros _. cbn [snd].
  cbn in Hs. case_match eqn:Hc; [|done]. rewrite !andb_true_iff, Z.eqb_eq in Hc. destruct Hc as [[[Hl _]%owns_true Hg] _].
  simplify_eq. unfold marked, view. rewrite lookup_insert_eq, Hr. cbn. rewrite Hg, Z.eqb_refl, Hl.
  eexists. split; [done|]. by rewrite bool_decide_eq_true_2.
Qed.

Section protocol.
Context {R : Type}.
Implicit Types (v : option (option Z * bool)) (runs : Z -> prog R -> Prop) (ph : Z -> phase) (sent : list Sent).

Abbreviation refusals := (Forall (fun x => refused (s_answer x) = true)).

(** Only the last request may have got through. *)
Definition once sent : Prop := exists before x, sent = before ++ [x] /\ refusals before.

(** The generation of a comment: [runs] are its workers, [ph] where each stands and
    [sent] what they sent. *)
Record held v runs ph sent : Prop := {
  held_protocol : forall l p, runs l p -> keeps (ph l) p anyhow;
  held_fresh : forall l p b, runs l p -> ph l = Fresh -> v = Some (Some l, b) -> b = false;
  held_attempt : forall l p, runs l p -> ph l = Attempted -> forall o b, v = Some (o, b) -> b = true;
  held_alone : forall l l' p p', runs l p -> runs l' p' -> ph l = Attempted -> ph l' = Attempted -> l = l';
  held_sent : refusals sent
    \/ once sent /\ (forall o b, v = Some (o, b) -> b = true) /\ (forall l p, runs l p -> ph l <> Attempted) }.

(** The program of worker [l] is now [p]. *)
Definition turn runs l p : Z -> prog R -> Prop :=
  fun l' p' => if decide (l' = l) then p' = p else runs l' p'.

Lemma held_calmer v v' runs runs' ph sent :
  held v runs ph sent -> calmer v' v ->
  (forall l p, runs' l p -> exists p0, runs l p0) ->
  (forall l p, runs' l p -> keeps (ph l) p anyhow) ->
  held v' runs' ph sent.
Proof.
  intros [K F A U S] Hc Hr Hk.
  assert (forall o b, v' = Some (o, b) -> exists o', v = Some (o', b)) as Hb.
  { intros o b ->. destruct Hc as (l & -> & _). by exists l. }
  split.
  - exact Hk.
  - intros l p b [p0 H0]%Hr Hf ->. destruct Hc as (l0 & -> & [<-|?]); [by eapply F|done].
  - intros l p [p0 H0]%Hr Ha o b [o' Hv]%Hb. by eapply A.
  - intros l l' p p' [p0 H0]%Hr [p1 H1]%Hr. by eapply U.
  - destruct S as [S|(S1 & S2 & S3)]; [by left|right]. split; [done|]. split.
    + intros o b [o' Hv]%Hb. by eapply S2.
    + intros l p [p0 H0]%Hr. by eapply S3.
Qed.

Lemma turn_keeps runs ph l p x :
  (forall l p, runs l p -> keeps (ph l) p anyhow) -> keeps x p anyhow ->
  forall l' p', turn runs l p l' p' -> keeps ((<[l := x]> ph) l') p' anyhow.
Proof.
  intros K Hk l' p'. unfold turn. destruct (decide (l' = l)) as [->|Hne].
  - intros ->. by rewrite fn_lookup_insert.
  - rewrite fn_lookup_insert_ne by done. apply K.
Qed.

Lemma turn_other runs ph l p x l' p' y :
  turn runs l p l' p' -> (<[l := x]> ph) l' = y -> y <> x -> l' <> l /\ runs l' p' /\ ph l' = y.
Proof.
  unfold turn. destruct (decide (l' = l)) as [->|Hne].
  - rewrite fn_lookup_insert. by intros _ ->.
  - by rewrite fn_lookup_insert_ne.
Qed.

Ltac other_worker :=
  repeat match goal with
         | H : turn _ _ _ ?l _, H' : (<[_ := Closed]> _) ?l = _ |- _ =>
             destruct (turn_other _ _ _ _ _ _ _ _ H H' ltac:(discriminate)) as (? & ? & ?); clear H H'
         end.

(** A worker that may do no more. *)
Lemma held_close v v' runs ph sent l p :
  held v runs ph sent -> keeps Closed p anyhow -> calmer v' v ->
  held v' (turn runs l p) (<[l := Closed]> ph) sent.
Proof.
  intros [K F A U S] Hk Hc.
  assert (forall o b, v' = Some (o, b) -> exists o', v = Some (o', b)) as Hb.
  { intros o b ->. destruct Hc as (l0 & -> & _). by exists l0. }
  split.
  - by apply turn_keeps.
  - intros l' p' b Ht Hp ->. other_worker. destruct Hc as (o & -> & [<-|?]); [by eapply F|done].
  - intros l' p' Ht Hp o b [o' Hv]%Hb. other_worker. by eapply A.
  - intros l1 l2 p1 p2 Ht1 Ht2 Hp1 Hp2. other_worker. by eapply U.
  - destruct S as [S|(S1 & S2 & S3)]; [by left|right]. split; [done|]. split.
    + intros o b [o' Hv]%Hb. by eapply S2.
    + intros l' p' Ht Hp. other_worker. by eapply S3.
Qed.

(** Nothing got through and nothing is under way while the holder is not closed. *)
Lemma held_holder v runs ph sent l p b :
  held v runs ph sent -> runs l p -> ph l <> Closed -> v = Some (Some l, b) ->
  refusals sent /\ forall l' p', runs l' p' -> ph l' = Attempted -> l' = l.
Proof.
  intros [K F A U S] Hl Hp Hv. destruct (ph l) eqn:E; [| |done].
  - pose proof (F l p b Hl E Hv) as ->. split.
    + destruct S as [S|(_ & S2 & _)]; [done|]. discriminate (S2 _ _ Hv).
    + intros l' p' Hl' Ha. discriminate (A _ _ Hl' Ha _ _ Hv).
  - split.
    + destruct S as [S|(_ & _ & S3)]; [done|]. by destruct (S3 _ _ Hl).
    + intros l' p' Hl' Ha. by eapply U.
Qed.

(** The holder took its attempt back. *)
Lemma held_postponed runs ph sent l p0 p b b' :
  held (Some (Some l, b)) runs ph sent -> runs l p0 -> ph l <> Closed -> keeps Closed p anyhow ->
  held (Some (None, b')) (turn runs l p) (<[l := Closed]> ph) sent.
Proof.
  intros Hh Hl Hp Hk. destruct (held_holder _ _ _ _ l p0 b Hh Hl Hp eq_refl) as [Hs Ha].
  split.
  - apply turn_keeps; [apply Hh|done].
  - intros; simplify_eq.
  - intros l' p' Ht E. other_worker. by destruct (Ha l' p').
  - intros l1 l2 p1 p2 Ht1 Ht2 Hp1 Hp2. other_worker. by eapply (held_alone _ _ _ _ Hh).
  - by left.
Qed.

(** The attempt was recorded, though the worker may not know. *)
Lemma held_recorded runs ph sent l p0 p b x :
  held (Some (Some l, b)) runs ph sent -> runs l p0 -> ph l = Fresh -> keeps x p anyhow -> x <> Fresh ->
  held (Some (Some l, true)) (turn runs l p) (<[l := x]> ph) sent.
Proof.
  intros Hh Hl Hp Hk Hx. destruct (held_holder _ _ _ _ l p0 b Hh Hl ltac:(by rewrite Hp) eq_refl) as [Hs Ha].
  assert (forall l' p', turn runs l p l' p' -> (<[l := x]> ph) l' = Attempted -> l' = l) as Hl'.
  { intros l' p' Ht E. destruct (decide (l' = l)) as [|Hne]; [done|].
    unfold turn in Ht. rewrite decide_False in Ht by done. rewrite fn_lookup_insert_ne in E by done. by eapply Ha. }
  split.
  - apply turn_keeps; [apply Hh|done].
  - intros l' p' b' Ht E Hv. simplify_eq. by rewrite fn_lookup_insert in E.
  - by intros; simplify_eq.
  - intros l1 l2 p1 p2 Ht1 Ht2 E1 E2. by rewrite (Hl' _ _ Ht1 E1), (Hl' _ _ Ht2 E2).
  - by left.
Qed.

(** A request left. *)
Lemma held_sends v runs ph sent l p0 p x :
  held v runs ph sent -> runs l p0 -> ph l = Attempted ->
  keeps (if refused (s_answer x) then Attempted else Closed) p anyhow ->
  held v (turn runs l p) (<[l := if refused (s_answer x) then Attempted else Closed]> ph) (sent ++ [x]).
Proof.
  intros [K F A U S] Hl Hp Hk.
  assert (refusals sent) as Hs by (destruct S as [S|(_ & _ & S3)]; [done|by destruct (S3 _ _ Hl)]).
  assert (forall l' p', turn runs l p l' p' -> exists p1, runs l' p1) as Hr.
  { intros l' p'. unfold turn. destruct (decide (l' = l)) as [->|]; eauto. }
  destruct (refused (s_answer x)) eqn:Er.
  - assert (forall l', (<[l := Attempted]> ph) l' = ph l') as Hph.
    { intros l'. destruct (decide (l' = l)) as [->|Hne].
      - by rewrite fn_lookup_insert.
      - by rewrite fn_lookup_insert_ne. }
    split.
    + by apply turn_keeps.
    + intros l' p' b [p1 H1]%Hr. rewrite Hph. by eapply F.
    + intros l' p' [p1 H1]%Hr. rewrite Hph. by eapply A.
    + intros l1 l2 p1 p2 [p3 H3]%Hr [p4 H4]%Hr. rewrite !Hph. by eapply U.
    + left. apply Forall_app. split; [done|]. by constructor.
  - split.
    + by apply turn_keeps.
    + intros l' p' b Ht E. other_worker. by eapply F.
    + intros l' p' Ht E. other_worker. by eapply A.
    + intros l1 l2 p1 p2 Ht1 Ht2 E1 E2. other_worker. by eapply U.
    + right. split; [by exists sent, x|]. split; [by eapply A|].
      intros l' p' Ht E. other_worker. by assert (l' = l) by (by eapply U).
Qed.

(** The row was leased to a new worker. *)
Lemma held_claimed o b runs ph sent l p :
  held (Some (o, b)) runs ph sent -> (forall p, ~ runs l p) ->
  keeps (if b then Closed else Fresh) p anyhow ->
  held (Some (Some l, b)) (turn runs l p) (<[l := if b then Closed else Fresh]> ph) sent.
Proof.
  intros [K F A U S] Hl Hk.
  assert (forall l' p', turn runs l p l' p' -> (<[l := if b then Closed else Fresh]> ph) l' = Attempted ->
    l' <> l /\ runs l' p' /\ ph l' = Attempted) as Ht by (intros l' p' H1 H2; apply (turn_other _ _ _ _ _ _ _ _ H1 H2); by destruct b).
  split.
  - by apply turn_keeps.
  - intros l' p' b' _ E Hv. simplify_eq. rewrite fn_lookup_insert in E. by destruct b'.
  - intros l' p' H1 H2 o' b' Hv. simplify_eq. destruct (Ht _ _ H1 H2) as (_ & Hr & Hp). by eapply A.
  - intros l1 l2 p1 p2 H1 H2 E1 E2. destruct (Ht _ _ H1 E1) as (_ & ? & ?), (Ht _ _ H2 E2) as (_ & ? & ?). by eapply U.
  - destruct S as [S|(S1 & S2 & S3)]; [by left|right]. split; [done|]. split.
    + intros o' b' Hv. simplify_eq. by eapply S2.
    + intros l' p' H1 H2. destruct (Ht _ _ H1 H2) as (_ & ? & ?). by eapply S3.
Qed.
End protocol.

(** ** The queue *)

Lemma filter_none {A} (f : A -> bool) l : (forall x, x ∈ l -> f x = false) -> List.filter f l = [].
Proof.
  induction l as [|x l IH]; intros H; [done|]. cbn. rewrite H by set_solver. apply IH. set_solver.
Qed.

Lemma filter_all {A} (f : A -> bool) l : (forall x, x ∈ l -> f x = true) -> List.filter f l = l.
Proof.
  induction l as [|x l IH]; intros H; [done|]. cbn. rewrite H by set_solver. f_equal. apply IH. set_solver.
Qed.

(** What an effect leaves of the table. *)
Lemma answers_table now m t {A} (e : Eff A) a t' sent :
  answers now m t e a t' sent -> m_lease_generation m = m_generation m -> forall id g,
  calmer (view id g t') (view id g t)
  \/ m_id m = id /\ m_generation m = g
     /\ match e with Run s => marked s (m_lease_id m) (view id g t') (view id g t) | _ => False end.
Proof.
  intros H Hm id g.
  assert (forall t1, calmer (view id g t1) (view id g t) -> t' = t \/ t' = t1 ->
    calmer (view id g t') (view id g t)) as Hsame.
  { intros t1 Hc [->| ->]; auto with sync. }
  destruct e; cbn in H; try (left; apply (Hsame t); [by auto with sync|left; apply H]).
  - destruct H as [_ H]. pose proof (view_statement now m s t id g Hm) as Hv.
    destruct (execute_statement now m s t) as [n t1]. cbn in Hv.
    assert (t' = t \/ t' = t1) as [->| ->] by naive_solver; auto with sync.
  - destruct H as [_ [b H]]. pose proof (drop_superseded_table m b t) as Ht.
    destruct (drop_superseded_sql m b t) as [x t1]. cbn in Ht.
    left. apply (Hsame t1); [destruct Ht as [->| ->]; auto with sync|naive_solver].
  - destruct H as [_ [b H]]. pose proof (finalize_table m b t) as Ht.
    destruct (finalize_sql m b t) as [x t1]. cbn in Ht.
    left. apply (Hsame t1); [destruct Ht as [->|[->|(r & Hr & ->)]]; eauto with sync|naive_solver].
Qed.

Section queue.
Context (execute : ClaimedMutation -> prog (result unit unit)) (lease_ms : Z).
(** What the handler promises about comments. *)
Context (fresh_ok : forall m, m_action_type m = lit "comment" ->
           m_remote_attempted_generation m <> Some (m_generation m) -> keeps Fresh (execute m) anyhow)
        (closed_ok : forall m, m_action_type m = lit "comment" ->
           m_remote_attempted_generation m = Some (m_generation m) -> keeps Closed (execute m) anyhow).

Abbreviation step := (sync_queue_step execute lease_ms).

Definition runs (s : Sys) (id g : Z) (l : Z) (p : prog (result unit unit)) : Prop :=
  exists m, procs s !! l = Some (m, p) /\ m_id m = id /\ m_generation m = g.

Definition of_key (id g : Z) (x : Sent) : bool := (s_id x =? id) && (s_generation x =? g).

Definition guarded (s : Sys) (id g : Z) : Prop :=
  exists ph, held (view id g (table s)) (runs s id g) ph (List.filter (of_key id g) (log s)).

Definition comments_guarded (s : Sys) : Prop :=
  forall id g, issued s !! (id, g) = Some (lit "comment") -> guarded s id g.

Lemma guarded_calmer s s' id g :
  guarded s id g -> calmer (view id g (table s')) (view id g (table s)) ->
  (forall l p, runs s' id g l p -> runs s id g l p) ->
  List.filter (of_key id g) (log s') = List.filter (of_key id g) (log s) -> guarded s' id g.
Proof.
  intros [ph Hh] Hc Hr Hl. exists ph. rewrite Hl. eapply held_calmer; [done|done|..].
  - intros l p H. exists p. by apply Hr.
  - intros l p H%Hr. by apply Hh.
Qed.

(** A generation that was never issued leaves no trace. *)
Lemma guarded_fresh s id g :
  coherent s -> issued s !! (id, g) = None ->
  (forall p l, ~ runs s id g l p) /\ List.filter (of_key id g) (log s) = [] /\ view id g (table s) = None.
Proof.
  intros Hc Hi. split_and!.
  - intros p l (m & Hm & <- & <-). by rewrite (procs_issued _ Hc _ _ _ Hm) in Hi.
  - apply filter_none. intros x Hx. apply Bool.not_true_is_false. unfold of_key.
    rewrite andb_true_iff, !Z.eqb_eq. intros [<- <-]. by rewrite (log_issued _ Hc _ Hx) in Hi.
  - unfold view. destruct (table s !! id) as [r|] eqn:Hr; [|done]. destruct (Z.eqb_spec (generation (intent r)) g) as [<-|]; [|done].
    by rewrite (rows_issued _ Hc _ _ Hr) in Hi.
Qed.

(** ** Every step keeps the comments guarded *)

Lemma guarded_turn s s' id g l m p v :
  procs s' = <[l := (m, p)]> (procs s) -> m_id m = id -> m_generation m = g ->
  view id g (table s') = v ->
  (exists ph, held v (turn (runs s id g) l p) ph (List.filter (of_key id g) (log s'))) -> guarded s' id g.
Proof.
  intros Hp Hi Hg <- [ph Hh]. exists ph. eapply held_calmer; [exact Hh|apply calmer_refl|..].
  all: intros l' p' (m' & Hl & Hm); rewrite Hp, lookup_insert_Some in Hl;
    destruct Hl as [[<- ?]|[Hne Hl]]; simplify_eq.
  - exists p'. unfold turn. by rewrite decide_True.
  - exists p'. unfold turn. rewrite decide_False by done. by exists m'.
  - apply (held_protocol _ _ _ _ Hh). unfold turn. by rewrite decide_True.
  - apply (held_protocol _ _ _ _ Hh). unfold turn. rewrite decide_False by done. by exists m'.
Qed.

(** Recording the attempt. *)
Lemma held_recording now m t (k : result Z unit -> prog (result unit unit)) a t' rs ph before :
  let id := m_id m in let g := m_generation m in let l := m_lease_id m in
  held (view id g t) rs ph before -> rs l (Vis (Run RecordRemoteAttempt) k) -> ph l = Fresh ->
  (let '(n, t1) := execute_statement now m RecordRemoteAttempt t in
   (a = Ok n /\ t' = t1) \/ (a = Err tt /\ (t' = t \/ t' = t1))) ->
  calmer (view id g t') (view id g t)
  \/ m_id m = id /\ m_generation m = g /\ marked RecordRemoteAttempt l (view id g t') (view id g t) ->
  keeps (match a with Ok 1 => Attempted | _ => Closed end) (k a) anyhow ->
  exists ph', held (view id g t') (turn rs l (k a)) ph' before.
Proof.
  intros id g l Hh Hl Hp Ha Ht Hk.
  assert (a = Ok 1 \/ keeps Closed (k a) anyhow) as [->|Hc] by (destruct a as [[|[]|]|]; auto).
  - assert (marked RecordRemoteAttempt l (view id g t') (view id g t)) as (b & Hv & Hv').
    { pose proof (recorded_attempt now m t) as Hrec. destruct (execute_statement _ _ _ _) as [n t1].
      destruct Ha as [[Hn ->]|[? _]]; [|done]. apply Hrec. by simplify_eq. }
    rewrite Hv'. rewrite Hv in Hh. exists (<[l := Attempted]> ph). by eapply held_recorded.
  - destruct Ht as [Ht|(_ & _ & b & Hv & Hv')]; [by eexists; eapply held_close|].
    rewrite Hv'. rewrite Hv in Hh. exists (<[l := Closed]> ph). by eapply held_recorded.
Qed.

(** The effect of a worker on its own generation. *)
Lemma held_effect now m t {A} (e : Eff A) (k : A -> prog (result unit unit)) a t' sent rs ph before :
  let id := m_id m in let g := m_generation m in let l := m_lease_id m in
  held (view id g t) rs ph before -> rs l (Vis e k) -> m_lease_generation m = m_generation m ->
  answers now m t e a t' sent ->
  exists ph', held (view id g t') (turn rs l (k a)) ph' (before ++ sent).
Proof.
  intros id g l Hh Hl Hm Ha. destruct (held_protocol _ _ _ _ Hh _ _ Hl) as [Hp Hk].
  assert (forall x, x = ph l -> keeps x (k a) anyhow -> calmer (view id g t') (view id g t) ->
    exists ph', held (view id g t') (turn rs l (k a)) ph' before) as Hquiet.
  { intros x -> Hx Hc. exists ph. eapply held_calmer; [exact Hh|exact Hc|..]; intros l' p'; unfold turn;
      destruct (decide (l' = l)) as [->|]; [eauto..|by intros ->|]. apply Hh. }
  pose proof (answers_table _ _ _ _ _ _ _ Ha Hm id g) as Ht.
  assert (quiet_effect e = true -> sent = [] -> exists ph', held (view id g t') (turn rs l (k a)) ph' (before ++ sent))
    as Hquiet'.
  { intros Hq ->. rewrite app_nil_r. apply (Hquiet (ph l)); [done|..].
    - replace (ph l) with (after (ph l) e a) by (destruct e; try done; by destruct s).
      apply Hk. by destruct e.
    - destruct Ht as [Ht|(_ & _ & Ht)]; [done|]. destruct e; try done. destruct Ht as (b & _ & Ht). by destruct s. }
  destruct (quiet_effect e) eqn:Hq.
  { apply Hquiet'; [done|]. destruct e; try done; apply Ha. }
  destruct e as [|s| | | | | | | |method path body proxied token| | | | | | | | | | | | | | |]; try done.
  - destruct Ha as [-> Ha]. rewrite app_nil_r. destruct s; try done; cbn in Hp, Hk.
    + by eapply held_recording; [..|exact (Hk a I)].
    + specialize (Hk a I). destruct Ht as [Ht|(_ & _ & b & Hv & b' & Hv')]; [by eexists; eapply held_close|].
      rewrite Hv'. rewrite Hv in Hh. eexists. by eapply held_postponed.
  - destruct Ha as (-> & Hpw & ->). cbn in Hp, Hk. specialize (Hk a Hpw). eexists.
    eapply held_sends; [done|done|done|]. cbn. by rewrite Hp in Hk.
Qed.

Lemma guarded_run s now lease m A (e : Eff A) k a t' sent id g :
  coherent s -> guarded s id g -> procs s !! lease = Some (m, Vis e k) -> answers now m (table s) e a t' sent ->
  guarded {| table := t'; procs := <[lease := (m, k a)]> (procs s); log := log s ++ sent;
             leases := leases s; issued := issued s |} id g.
Proof.
  intros Hc Hg Hp Ha. destruct (procs_leases _ Hc _ _ _ Hp) as (_ & Hl & Hm). subst lease.
  destruct (decide (m_id m = id /\ m_generation m = g)) as [[<- <-]|Hne].
  - eapply guarded_turn; [done..|]. cbn. rewrite List.filter_app.
    rewrite (filter_all _ sent).
    2:{ intros x Hx. destruct (answers_log _ _ _ _ _ _ _ _ Ha Hx) as (H1 & H2 & _). unfold of_key.
        by rewrite H1, H2, !Z.eqb_refl. }
    destruct Hg as [ph Hh]. eapply held_effect; [exact Hh| |done|exact Ha]. by exists m.
  - eapply guarded_calmer; [exact Hg|..]; cbn.
    + destruct (answers_table _ _ _ _ _ _ _ Ha Hm id g) as [?|(? & ? & _)]; [done|by destruct Hne].
    + intros l p (m' & Hl & Hi & Hmg). cbn in Hl. rewrite lookup_insert_Some in Hl.
      destruct Hl as [[<- ?]|[_ Hl]]; [simplify_eq; by destruct Hne|by exists m'].
    + rewrite List.filter_app, (filter_none _ sent), app_nil_r; [done|]. intros x Hx.
      destruct (answers_log _ _ _ _ _ _ _ _ Ha Hx) as (H1 & H2 & _). apply Bool.not_true_is_false. unfold of_key.
      rewrite andb_true_iff, !Z.eqb_eq, H1, H2. intros [? ?]. by destruct Hne.
Qed.

Lemma guarded_claim s now id r lease desired id' g :
  coherent s -> guarded s id' g -> issued s !! (id', g) = Some (lit "comment") ->
  table s !! id = Some r -> lease ∉ leases s ->
  guarded {| table := <[id := claim_row lease now r]> (table s);
             procs := <[lease := (claimed id lease desired r, execute (claimed id lease desired r))]> (procs s);
             log := log s; leases := {[lease]} ∪ leases s; issued := issued s |} id' g.
Proof.
  intros Hc Hg Hi Hr Hnew.
  assert (forall p, ~ runs s id' g lease p) as Hno.
  { intros p (m & Hm & _). destruct (procs_leases _ Hc _ _ _ Hm) as [? _]. done. }
  destruct (decide (id = id' /\ generation (intent r) = g)) as [[-> <-]|Hne].
  - rewrite (rows_issued _ Hc _ _ Hr) in Hi. simplify_eq.
    eapply guarded_turn; [done..|]. cbn. destruct Hg as [ph Hh]. unfold view in Hh |- *.
    rewrite lookup_insert_eq. rewrite Hr in Hh. cbn. rewrite Z.eqb_refl in Hh |- *.
    eexists. eapply held_claimed; [exact Hh|exact Hno|].
    case_bool_decide as Ha; [by apply closed_ok|by apply fresh_ok].
  - eapply guarded_calmer; [exact Hg|..]; cbn; [| |done].
    + unfold view. destruct (decide (id = id')) as [->|Hid].
      * rewrite lookup_insert_eq. cbn. destruct (Z.eqb_spec (generation (intent r)) g); [by destruct Hne|done].
      * rewrite lookup_insert_ne by done. apply calmer_refl.
    + intros l p (m' & Hl & Hmi & Hmg). cbn in Hl. rewrite lookup_insert_Some in Hl.
      destruct Hl as [[<- ?]|[_ Hl]]; [simplify_eq; by destruct Hne|by exists m'].
Qed.

Lemma guarded_issue s id i p id' g :
  coherent s -> issued s !! (id, generation i) = None ->
  (issued s !! (id', g) = Some (lit "comment") -> guarded s id' g) ->
  <[(id, generation i) := action_type i]> (issued s) !! (id', g) = Some (lit "comment") ->
  guarded {| table := <[id := {| intent := i; progress := p |}]> (table s); procs := procs s; log := log s;
             leases := leases s; issued := <[(id, generation i) := action_type i]> (issued s) |} id' g.
Proof.
  intros Hc Hi Hg Hk. destruct (decide ((id, generation i) = (id', g))) as [E|Hne].
  - simplify_eq. destruct (guarded_fresh s _ _ Hc Hi) as (Hr & Hl & _).
    exists (fun _ => Closed). unfold runs in *. cbn. rewrite Hl. split; [..|by left]; naive_solver.
  - rewrite lookup_insert_ne in Hk by done. eapply guarded_calmer; [by apply Hg|..]; cbn; [|done..].
    unfold view. destruct (decide (id = id')) as [->|Hid].
    + rewrite lookup_insert_eq. cbn. destruct (Z.eqb_spec (generation i) g); [congruence|done].
    + rewrite lookup_insert_ne by done. apply calmer_refl.
Qed.

Lemma guarded_step s s' : coherent s -> comments_guarded s -> step s s' -> comments_guarded s'.
Proof.
  intros Hc Hg Hst id' g Hi. destruct Hst as
    [now id r lease desired Hr Hcl Hw Hnew|now lease m A e k a t' sent Hp Ha|lease|now id i Hr Hi'
    |now id r i reset Hr Hi'|now id r r' Hr Hs|id wanted|id]; cbn in Hi.
  - apply guarded_claim; auto.
  - eapply guarded_run; eauto.
  - eapply guarded_calmer; [by apply Hg|apply calmer_refl| |done].
    intros l p (m & Hl & H). cbn in Hl. apply lookup_delete_Some in Hl as [_ Hl]. by exists m.
  - apply guarded_issue; auto.
  - apply guarded_issue; auto.
  - eapply guarded_calmer; [by apply Hg| |done..]. cbn.
    destruct (row_step_intent lease_ms now r r' Hs) as (? & ? & ? & ?). eauto with sync.
  - eapply guarded_calmer; [by apply Hg| |done..]. cbn.
    destruct (settle_table id wanted (table s)) as [->|[->|(r & i & Hr & Hgi & Ha & ->)]]; eauto with sync.
  - eapply guarded_calmer; [by apply Hg| |done..]. cbn. auto with sync.
Qed.

Lemma guarded_reachable s : rtc step idle_system s -> coherent s /\ comments_guarded s.
Proof.
  apply (rtc_ind_r (fun s => coherent s /\ comments_guarded s)).
  - split; [apply coherent_idle|]. by intros id g.
  - intros s1 s2 _ Hst [Hc Hg]. split; [by eapply coherent_step|by eapply guarded_step].
Qed.
End queue.

Lemma once_refused sent before a between b after' :
  (Forall (fun x => refused (s_answer x) = true) sent \/ once sent) -> sent = before ++ a :: between ++ b :: after' ->
  refused (s_answer a) = true.
Proof.
  intros [H|(l & x & -> & H)] E.
  - rewrite E in H. apply Forall_app in H as [_ H]. by inversion H.
  - rewrite app_comm_cons, app_assoc in E.
    assert (exists l', l = (before ++ a :: between) ++ l') as [l' ->].
    { destruct (decide (after' = [])) as [->|Hne].
      - apply app_inj_tail in E as [-> _]. exists []. by rewrite app_nil_r.
      - destruct (exists_last Hne) as (after'' & y & ->).
        rewrite app_comm_cons, app_assoc in E. apply app_inj_tail in E as [-> _]. by eexists. }
    apply Forall_app in H as [[_ H]%Forall_app _]. by inversion H.
Qed.

(** C3: A queued comment gets through at most once.  Whatever workers, retries, lost
    leases, failed statements, maintenance and new edits of the row are interleaved,
    if two requests for the same generation of a comment were sent then the first
    was refused with 401, 403 or 429, so that nothing was written by it. *)
Theorem comment_sent_at_most_once to_lowercase track_update_body playlist_update_body sc_error_text
    action_error_text connection_error_text finalize_error_text joins has_proxy like_interval listing_page parse_dt
    lease_ms s before a between b after' :
  rtc (sync_queue_step (execute to_lowercase track_update_body playlist_update_body sc_error_text
         action_error_text connection_error_text finalize_error_text joins has_proxy like_interval listing_page
         parse_dt) lease_ms) idle_system s ->
  log s = before ++ a :: between ++ b :: after' ->
  s_action a = lit "comment" -> s_id a = s_id b -> s_generation a = s_generation b ->
  refused (s_answer a) = true.
Proof.
  intros Hr Hl Ha Hi Hg.
  destruct (guarded_reachable _ lease_ms (execute_fresh _ _ _ _ _ _ _ _ _ _ _ _) (execute_closed _ _ _ _ _ _ _ _ _ _ _ _) s Hr)
    as [Hc Hk].
  destruct (Hk (s_id a) (s_generation a)) as [ph Hh].
  { rewrite (log_issued _ Hc a), Ha; [done|]. rewrite Hl. set_solver. }
  eapply (once_refused _ (List.filter (of_key (s_id a) (s_generation a)) before) a
            (List.filter (of_key (s_id a) (s_generation a)) between) b
            (List.filter (of_key (s_id a) (s_generation a)) after')).
  - destruct (held_sent _ _ _ _ Hh) as [?|[? _]]; [by left|by right].
  - rewrite Hl, List.filter_app. cbn [List.filter]. unfold of_key at 2. rewrite !Z.eqb_refl, List.filter_app.
    cbn [List.filter andb]. unfold of_key at 3. by rewrite <- Hi, <- Hg, !Z.eqb_refl.
Qed.

Import Sample.

(** The first token is refused, the second request gets through. *)
Lemma refused_then_accepted :
  exists s, rtc (sync_queue_step worker 1000) idle_system s
            /\ log s = [] ++ sent (Err (Api 401 VNull None)) :: [] ++ sent (Ok VNull) :: [].
Proof.
  assert (exists t p, alone 0 m {[1 := claim_row 10 0 row]} (worker m) []
    t p ([] ++ sent (Err (Api 401 VNull None)) :: [] ++ sent (Ok VNull) :: [])) as (t & p & H).
  { do 2 eexists.
    eapply (alone_effect _ _ _ _ _ _ EvictPrivate _ (Ok tt)); [reflexivity|by split|].
    eapply (alone_effect _ _ _ _ _ _ DropSuperseded _ (Ok false)); [reflexivity|by split; [|exists false; left]|].
    eapply (alone_effect _ _ _ _ _ _ AskToken _ (Ok (token []))); [reflexivity|by split|].
    eapply (alone_effect _ _ _ _ _ _ (AccountRemaining _) _ None); [reflexivity|by split|].
    eapply (alone_effect _ _ _ _ _ _ (Run RecordRemoteAttempt) _ (Ok 1)); [reflexivity|by split; [|left]|].
    eapply (alone_effect _ _ _ _ _ _ (AccountBlocked _) _ None); [reflexivity|by split|].
    eapply (alone_effect _ _ _ _ _ _ (SendTo _ _ _ _ _) _ (Err (Api 401 VNull None))); [reflexivity|by split_and!|].
    eapply (alone_effect _ _ _ _ _ _ (RefreshRejected _) _ (Ok (token (lit "x")))); [reflexivity|by split|].
    eapply (alone_effect _ _ _ _ _ _ (AccountBlocked _) _ None); [reflexivity|by split|].
    eapply (alone_effect _ _ _ _ _ _ (SendTo _ _ _ _ _) _ (Ok VNull)); [reflexivity|by split_and!|].
    apply alone_here. }
  destruct (alone_reachable t p _ H) as (s & Hs & _ & Hl & _). by exists s.
Qed.

Lemma comment_sent_at_most_once_witness :
  exists s, rtc (sync_queue_step worker 1000) idle_system s
            /\ log s = [] ++ sent (Err (Api 401 VNull None)) :: [] ++ sent (Ok VNull) :: []
            /\ refused (s_answer (sent (Err (Api 401 VNull None)))) = true.
Proof.
  destruct refused_then_accepted as (s & Hs & Hl). exists s. split; [exact Hs|]. split; [exact Hl|].
  exact (comment_sent_at_most_once _ _ _ _ _ _ _ _ _ _ _ _ 1000 s _ _ _ _ _ Hs Hl eq_refl eq_refl eq_refl).
Defined.
