(* ===== verification/SyncLeases.v ===== *)
(** * SyncLeases: a worker that is done holds nothing

    [execute] returns [Ok] only after a statement let the lease go, whatever the
    action, the answers of SoundCloud and the other workers; what it leaves leased
    it reports as a database error, and the lease then runs out. *)

From Stdlib Require Import ZArith Lia String.
From stdpp Require Import base list numbers tactics sets gmap relations functions.
From S2P Require Import Prelude Text EntityRef WritePauses SyncRows SyncProgram SyncSystem.
Local Open Scope Z_scope.

Inductive tenure := Holding | Released.

(** Answers after which the lease is gone. *)
Definition lets_go {A} (e : Eff A) : A -> bool :=
  match e in Eff A return A -> bool with
  | Run (RecordRemoteAttempt | RecordRemoteSuccess _) => fun _ => false
  | Run ReleaseLease => fun a => match a with Ok _ => true | Err _ => false end
  | Run _ => fun a => match a with Ok n => negb (n =? 0) | Err _ => false end
  | DropSuperseded => fun a => match a with Ok b => b | Err _ => false end
  | Finalize => fun a => match a with Ok _ => true | Err _ => false end
  | _ => fun _ => false
  end.

Global Instance tenancy : Protocol Eff tenure := {
  permits _ _ _ := True;
  after x A e a := if lets_go e a then Released else x }.

(** [Ok] is returned without a lease. *)
Definition gone {A} (x : tenure) (r : result A unit) : Prop :=
  match r with Ok _ => x = Released | Err _ => True end.

(** Ends anywhere, but lets the lease go before [Ok]. *)
Definition frees {A} (p : prog (result A unit)) : Prop := forall x, keeps x p gone.

(** Does nothing about the lease that matters. *)
Definition plain {R} (p : prog R) : Prop := forall x, keeps x p anyhow.

Lemma any_plain {R} (p : prog R) : plain p.
Proof. induction p as [r|A e k IH]; intros x; [exact I|]. split; [exact I|]. intros a _. apply IH. Qed.

Lemma frees_bind {R A} (p : prog R) (f : R -> prog (result A unit)) : (forall r, frees (f r)) -> frees (p ≫= f).
Proof.
  intros Hf x. apply keeps_bind. eapply keeps_impl; [|apply (any_plain p)]. intros x' r _. apply Hf.
Qed.

Lemma frees_err {A} : frees (mret (Err tt) : prog (result A unit)).
Proof. by intros x. Qed.

(** [?] in the middle. *)
Lemma frees_try {A B} (p : prog (result A unit)) (f : A -> prog (result B unit)) :
  (forall a, frees (f a)) -> frees (try p f).
Proof. intros Hf. apply frees_bind. intros [a|[]]; [apply Hf|apply frees_err]. Qed.

(** [?] at the end. *)
Lemma frees_then {A B} (p : prog (result A unit)) (b : B) :
  frees p -> frees (try p (fun _ => mret (Ok b))).
Proof.
  intros Hp x. apply keeps_try. eapply keeps_impl; [|apply Hp]. by intros x' [a|[]].
Qed.

Lemma frees_then_done {A} (p : prog (result A unit)) : frees p -> frees (then_done p).
Proof. apply frees_then. Qed.

Lemma frees_release : frees release.
Proof. apply frees_then_done. intros x. split; [exact I|]. by intros [n|[]]. Qed.

Lemma frees_or_release s :
  match s with RecordRemoteAttempt | RecordRemoteSuccess _ => False | _ => True end -> frees (or_release s).
Proof.
  intros Hs x. apply keeps_try. split; [exact I|]. intros [n|[]] _; cbn [keeps]; [|exact I].
  destruct (n =? 0) eqn:En.
  - apply keeps_try. split; [exact I|]. by intros [n'|[]] _.
  - cbn. destruct s; try done; by rewrite ?En.
Qed.

#[export] Hint Resolve frees_bind frees_err frees_then_done frees_release frees_or_release : sync.

(** Steps through a program that ends in a statement. *)
Ltac frees_step :=
  match goal with
  | |- frees (mret (Err _)) => by intros x
  | |- frees (or_release _) => by apply frees_or_release
  | |- frees (then_done _) => apply frees_then_done
  | |- frees (try _ (fun _ => mret (Ok _))) => apply frees_then
  | |- frees (try _ _) => apply frees_try; intros ?
  | |- frees (_ ≫= _) => apply frees_bind; intros ?
  | |- frees (match ?x with _ => _ end) => destruct x
  | |- frees release => apply frees_release
  end.
Ltac solve_frees := repeat first [assumption | frees_step].

Section worker.
Context (to_lowercase : str -> str).
Context (track_update_body playlist_update_body : Value -> result Value str).
Context (sc_error_text : SoundCloudError -> str) (action_error_text : ActionError -> str)
  (connection_error_text : ConnectionError -> str) (finalize_error_text : FinalizeError -> str).
Context (joins : str -> bool) (has_proxy : bool) (like_interval : Z).
Context (listing_page : str -> option str) (parse_dt : option Value -> option Z).

Abbreviation finalize' := (finalize action_error_text finalize_error_text).
Abbreviation execute' := (execute to_lowercase track_update_body playlist_update_body sc_error_text
  action_error_text connection_error_text finalize_error_text joins has_proxy like_interval listing_page parse_dt).

Lemma frees_postpone message s : frees (postpone message s).
Proof. unfold postpone. solve_frees. Qed.

Lemma frees_postpone_before m message s : frees (postpone_before_post m message s).
Proof. unfold postpone_before_post, postpone, postpone_unattempted. solve_frees. Qed.

Lemma frees_finalize : frees finalize'.
Proof.
  intros x. apply keeps_bind. split; [exact I|]. intros [[]|e] _; [exact eq_refl|]. cbn [after tenancy lets_go].
  cut (frees (match e with
              | FinalizeAction ((InvalidPayload _ | InvalidRemoteResult _ | UnknownAction _) as e) =>
                  then_done (park SYNC_QUEUE_MAX_RETRIES (action_error_text e))
              | _ => postpone_after_failure (finalize_error_text e)
              end)).
  - intros Hf. specialize (Hf x). by destruct e as [|[]|].
  - unfold postpone_after_failure, postpone, park. solve_frees.
Qed.

Lemma frees_record_success v : frees (ok ←? record_remote_success v; if (ok : bool) then finalize' else release).
Proof. apply frees_try. intros []; [apply frees_finalize|apply frees_release]. Qed.

Lemma frees_complete_remote m remote app :
  frees (complete_remote action_error_text finalize_error_text like_interval m remote app).
Proof. unfold complete_remote. apply frees_bind. intros v. apply frees_record_success. Qed.

Lemma frees_unclear m message : frees (retry_unclear_create m message).
Proof. unfold retry_unclear_create, park, retry. solve_frees. Qed.

Lemma frees_fail_remote m e app : frees (fail_remote to_lowercase sc_error_text action_error_text m e app).
Proof.
  unfold fail_remote, record_action_failure, record_non_idempotent_failure, park, retry, postpone, postpone_unattempted.
  repeat first [apply frees_unclear|frees_step].
Qed.

Lemma frees_connection_failure m e : frees (record_connection_failure connection_error_text m e).
Proof.
  unfold record_connection_failure. repeat first [apply frees_postpone|apply frees_postpone_before|frees_step].
Qed.

Lemma frees_unsent m hold app : frees (postpone_unsent m hold app).
Proof. unfold postpone_unsent. repeat first [apply frees_postpone_before|frees_step]. Qed.

Lemma frees_attempt_remote m token probing :
  frees (attempt_remote to_lowercase track_update_body playlist_update_body sc_error_text action_error_text
           connection_error_text finalize_error_text joins has_proxy like_interval m token probing).
Proof.
  unfold attempt_remote.
  repeat first [apply frees_complete_remote|apply frees_unsent|apply frees_fail_remote|apply frees_connection_failure
               |apply frees_postpone_before|frees_step].
Qed.

(** The two parts that may go on: with [Some _] the lease is kept for what follows. *)
Definition gone_on_none {A} (x : tenure) (r : result (option A) unit) : Prop :=
  match r with Ok None => x = Released | _ => True end.

Lemma frees_on_none {A B} (p : prog (result (option A) unit)) (f : A -> prog (result B unit)) (b : B) :
  (forall x, keeps x p gone_on_none) -> (forall a, frees (f a)) ->
  frees (o ←? p; match o with None => mret (Ok b) | Some a => f a end).
Proof.
  intros Hp Hf x. apply keeps_try. eapply keeps_impl; [|apply Hp]. intros x' [[a|]|[]]; [|done|done].
  intros _. apply Hf.
Qed.

Lemma on_none {A B} (p : prog (result B unit)) x :
  frees p -> keeps x (_x ←? p; mret (Ok None : result (option A) unit)) gone_on_none.
Proof. intros Hp. apply keeps_try. eapply keeps_impl; [|apply Hp]. by intros x' [a|[]]. Qed.

Lemma none_admit_action m token x : keeps x (admit_action like_interval m token) gone_on_none.
Proof.
  unfold admit_action. destruct (oauth_app_id token) as [app|]; [|exact I].
  apply keeps_bind. split; [exact I|]. intros [| |s] _; cbn [after tenancy lets_go keeps];
    [..|apply on_none, frees_postpone_before].
  all: apply keeps_bind; split; [exact I|]; intros [| |s] _; cbn [after tenancy lets_go keeps];
    [|exact I|apply on_none, frees_postpone_before].
  all: apply keeps_bind; eapply keeps_impl; [|apply any_plain]; by intros.
Qed.

(** What follows the check of an unclear create. *)
Lemma none_checked m token checked x :
  keeps x (match checked with
           | Ok None => mret (Ok (Some token))
           | Ok (Some playlist) =>
               ok ←? record_remote_success playlist;
               _x ←? (if (ok : bool) then finalize' else release);
               mret (Ok None)
           | Err ((InvalidPayload _) as e) =>
               _x ←? park SYNC_QUEUE_MAX_RETRIES (action_error_text e); mret (Ok None)
           | Err e =>
               _x ←? retry_unclear_create m
                       (lit "checking SoundCloud for the created playlist: " ++ action_error_text e);
               mret (Ok None)
           end : prog (result (option AccessToken) unit)) gone_on_none.
Proof.
  assert (forall e, keeps x (_x ←? retry_unclear_create m
    (lit "checking SoundCloud for the created playlist: " ++ action_error_text e);
     mret (Ok None : result (option AccessToken) unit)) gone_on_none) as Hr by (intros e; apply on_none, frees_unclear).
  destruct checked as [[playlist|]|[]]; [|exact I|apply Hr..| | | ].
  - apply keeps_try. eapply keeps_impl; [|apply any_plain]. intros x' [[]|[]] _; [..|exact I].
    + apply on_none, frees_finalize.
    + apply on_none, frees_release.
  - apply on_none. unfold park. solve_frees.
  - apply Hr.
  - apply Hr.
Qed.

Lemma none_confirm m token x :
  keeps x (confirm_unclear_create action_error_text connection_error_text
             finalize_error_text listing_page parse_dt m token) gone_on_none.
Proof.
  unfold confirm_unclear_create. apply keeps_try. split; [exact I|]. intros [owned|[]] _; [|exact I].
  cbn [keeps]. apply keeps_bind. eapply keeps_impl; [|apply any_plain]. intros x' checked _.
  destruct checked as [o|[|se|msg|msg|act]].
  1: apply (none_checked m token (Ok o)).
  1: apply (none_checked m token (Err ActionDatabase)).
  2: apply (none_checked m token (Err (InvalidPayload msg))).
  2: apply (none_checked m token (Err (InvalidRemoteResult msg))).
  2: apply (none_checked m token (Err (UnknownAction act))).
  destruct (is_unauthorized se); [|apply (none_checked m token (Err (SoundCloud se)))].
  apply keeps_bind. split; [exact I|]. intros [token'|e] _; cbn [keeps].
  - apply keeps_bind. eapply keeps_impl; [|apply any_plain]. intros x2 checked' _. apply none_checked.
  - apply on_none, frees_connection_failure.
Qed.

Lemma frees_execute m : frees (execute' m).
Proof.
  unfold execute. apply frees_bind. intros [[]|message].
  2:{ unfold postpone_after_failure. apply frees_then_done, frees_postpone. }
  destruct (has_remote_result m); [apply frees_finalize|].
  intros x. apply keeps_try. split; [exact I|]. intros [[]|[]] _; [exact eq_refl| |exact I].
  cbn [after tenancy lets_go keeps]. revert x. destruct (_ && _).
  { apply frees_then_done. unfold park. solve_frees. }
  apply frees_bind. intros [token|e]; [|apply frees_connection_failure].
  apply (frees_on_none _ (fun token => _) tt).
  - intros x. destruct (_ && _); [apply none_confirm|exact I].
  - clear token. intros token. apply frees_bind. intros [s|]; [apply frees_then_done, frees_postpone_before|].
    apply (frees_on_none _ (fun probing => _) tt); [apply none_admit_action|].
    intros probing. apply frees_try. intros []; [apply frees_attempt_remote|apply frees_release].
Qed.
End worker.

(** ** Leases in the table *)

(** Leases only end. *)
Definition leases_end (t' t : SyncTable) : Prop :=
  forall id r' l, t' !! id = Some r' -> lease_id (progress r') = Some l ->
    exists r, t !! id = Some r /\ lease_id (progress r) = Some l
              /\ lease_generation (progress r) = lease_generation (progress r').

Lemma leases_end_refl t : leases_end t t.
Proof. intros id r l Hr Hl. by exists r. Qed.

Lemma leases_end_delete t id : leases_end (delete id t) t.
Proof. intros x r l Hr Hl. apply lookup_delete_Some in Hr as [_ Hr]. by exists r. Qed.

Lemma leases_end_insert t id r r' :
  t !! id = Some r ->
  lease_id (progress r') = None
  \/ lease_id (progress r') = lease_id (progress r) /\ lease_generation (progress r') = lease_generation (progress r) ->
  leases_end (<[id := r']> t) t.
Proof.
  intros Hr Hl x r0 l Hx H0. rewrite lookup_insert_Some in Hx. destruct Hx as [[<- <-]|[_ Hx]]; [|by exists r0].
  destruct Hl as [Hn|[H1 H2]]; [by rewrite Hn in H0|]. exists r. by rewrite <- H1, <- H2.
Qed.

(** Writing a row that has no lease to lose. *)
Lemma leases_end_free t id r' : lease_id (progress r') = None -> leases_end (<[id := r']> t) t.
Proof.
  intros Hn x r0 l Hx H0. rewrite lookup_insert_Some in Hx. destruct Hx as [[<- <-]|[_ Hx]]; [congruence|by exists r0].
Qed.
#[export] Hint Resolve leases_end_refl leases_end_delete leases_end_insert leases_end_free : sync.

Lemma run_statement_lease now m s r r' :
  run_statement now m s r = Some r' ->
  match s with
  | RecordRemoteAttempt | RecordRemoteSuccess _ =>
      lease_id (progress r') = lease_id (progress r) /\ lease_generation (progress r') = lease_generation (progress r)
  | _ => lease_id (progress r') = None
  end.
Proof. unfold run_statement. intros H. by destruct s; case_match; simplify_eq. Qed.

Lemma leases_end_statement now m s t : leases_end (execute_statement now m s t).2 t.
Proof.
  unfold execute_statement. destruct (t !! m_id m) as [r|] eqn:Hr; [|apply leases_end_refl].
  cbn [mbind option_bind]. destruct (run_statement now m s r) as [r'|] eqn:Hs; [|apply leases_end_refl].
  apply run_statement_lease in Hs. eapply leases_end_insert; [done|]. destruct s; auto.
Qed.

Lemma answers_leases now m t {A} (e : Eff A) a t' sent : answers now m t e a t' sent -> leases_end t' t.
Proof.
  assert (forall t1, leases_end t1 t -> t' = t \/ t' = t1 -> leases_end t' t) as Hsame.
  { intros t1 Hs [->| ->]; auto with sync. }
  destruct e; cbn; intros H; try (apply (Hsame t); [by auto with sync|left; apply H]).
  - destruct H as [_ H]. pose proof (leases_end_statement now m s t) as Hi.
    destruct (execute_statement now m s t) as [n t1]. apply (Hsame t1); [done|naive_solver].
  - destruct H as [_ [b H]]. pose proof (drop_superseded_table m b t) as Ht.
    destruct (drop_superseded_sql m b t) as [x t1]. cbn in Ht.
    apply (Hsame t1); [destruct Ht as [->| ->]; auto with sync|naive_solver].
  - destruct H as [_ [b H]]. pose proof (finalize_table m b t) as Ht.
    destruct (finalize_sql m b t) as [x t1]. cbn in Ht.
    apply (Hsame t1); [destruct Ht as [->|[->|(r & Hr & ->)]]; eauto with sync|naive_solver].
Qed.

(** A lease that was let go is not in the table. *)
Lemma lets_go_gone now m t {A} (e : Eff A) a t' sent r :
  answers now m t e a t' sent -> lets_go e a = true ->
  (forall r, t !! m_id m = Some r -> lease_id (progress r) = Some (m_lease_id m) ->
    lease_generation (progress r) = Some (m_lease_generation m)) ->
  t' !! m_id m = Some r -> lease_id (progress r) <> Some (m_lease_id m).
Proof.
  intros Ha Hg Hm Hr Hl.
  assert (forall r, t !! m_id m = Some r -> owns m r = false -> lease_id (progress r) <> Some (m_lease_id m)) as Hown.
  { intros r0 H0 Ho H1. unfold owns in Ho. rewrite (bool_decide_eq_true_2 _ H1) in Ho.
    by rewrite (bool_decide_eq_true_2 _ (Hm _ H0 H1)) in Ho. }
  destruct e; cbn in Ha, Hg; try done.
  - destruct Ha as [_ Ha]. unfold execute_statement in Ha.
    destruct (t !! m_id m) as [r0|] eqn:E0; cbn [mbind option_bind] in Ha.
    + destruct (run_statement now m s r0) as [r1|] eqn:E1.
      * assert (t' = <[m_id m := r1]> t) as -> by (destruct s; naive_solver).
        rewrite lookup_insert_eq in Hr. simplify_eq. apply run_statement_lease in E1. by destruct s; simplify_eq.
      * assert (s = ReleaseLease) as -> by (destruct s; naive_solver).
        assert (t' = t) as -> by naive_solver. assert (r0 = r) as -> by congruence.
        cbn in E1. destruct (owns m r) eqn:Ho; [done|]. by apply (Hown r).
    + assert (t' = t) as -> by naive_solver. congruence.
  - destruct Ha as [_ [b Ha]]. destruct a as [[]|]; try done. unfold drop_superseded_sql in Ha.
    destruct (t !! m_id m); [|naive_solver].
    match type of Ha with context [if ?c then _ else _] => destruct c end; [|naive_solver].
    assert (t' = delete (m_id m) t) as -> by naive_solver. by rewrite lookup_delete_eq in Hr.
  - destruct Ha as [_ [local Ha]]. destruct a as [[]|]; [|done]. unfold finalize_sql in Ha.
    destruct (t !! m_id m) as [r0|] eqn:E0; [|naive_solver].
    destruct (negb (is_ready_to_finalize m r0)).
    + destruct (owns m r0) eqn:Ho.
      * assert (t' = <[m_id m := on_progress unleased r0]> t) as -> by naive_solver.
        rewrite lookup_insert_eq in Hr. by simplify_eq.
      * assert (t' = t) as -> by naive_solver. assert (r0 = r) as -> by congruence. by apply (Hown r).
    + destruct local; [|naive_solver]. assert (t' = delete (m_id m) t) as -> by naive_solver.
      by rewrite lookup_delete_eq in Hr.
Qed.

(** ** Workers and leases *)

Section queue.
Context (execute : ClaimedMutation -> prog (result unit unit)) (lease_ms : Z).
Context (execute_frees : forall m, frees (execute m)).

Abbreviation step := (sync_queue_step execute lease_ms).

(** A worker knows whether it still holds its lease. *)
Definition tenant (t : SyncTable) (l : Z) (m : ClaimedMutation) (p : prog (result unit unit)) : Prop :=
  exists x, keeps x p gone
  /\ forall r, t !! m_id m = Some r -> lease_id (progress r) = Some l ->
       x = Holding /\ lease_generation (progress r) = Some (m_lease_generation m).

Definition tenants (s : Sys) : Prop := forall l m p, procs s !! l = Some (m, p) -> tenant (table s) l m p.

Lemma tenant_end t t' l m p : tenant t l m p -> leases_end t' t -> tenant t' l m p.
Proof.
  intros (x & Hk & Hr) Hl. exists x. split; [done|]. intros r' H1 H2.
  destruct (Hl _ _ _ H1 H2) as (r & H3 & H4 & <-). by apply Hr.
Qed.

Lemma tenants_frame s s' :
  tenants s -> leases_end (table s') (table s) -> procs s' = procs s -> tenants s'.
Proof. intros Ht Hl Hp l m p H. rewrite Hp in H. eapply tenant_end; eauto. Qed.

Lemma tenant_run now m t l {A} (e : Eff A) k a t' sent :
  tenant t l m (Vis e k) -> m_lease_id m = l -> answers now m t e a t' sent -> tenant t' l m (k a).
Proof.
  intros (x & [_ Hk] & Hr) <- Ha. exists (if lets_go e a then Released else x).
  assert (possible e a) as Hpo by (destruct e; try done; cbn in Ha; by destruct Ha as (_ & ? & _)).
  split; [exact (Hk a Hpo)|]. intros r' H1 H2. destruct (answers_leases _ _ _ _ _ _ _ Ha _ _ _ H1 H2) as (r & H3 & H4 & <-).
  destruct (Hr r H3 H4) as [-> Hg]. destruct (lets_go e a) eqn:Hgo; [|done].
  destruct (lets_go_gone _ _ _ _ _ _ _ r' Ha Hgo) as []; [|done..]. intros r0 H5 H6. by apply Hr.
Qed.

Lemma row_change_lease now r r' :
  row_changes lease_ms now r r' ->
  lease_id (progress r') = None
  \/ lease_id (progress r') = lease_id (progress r) /\ lease_generation (progress r') = lease_generation (progress r).
Proof. intros [[b ->]|[[_ ->]| ->]]; [by auto..|]. unfold force_due_row. case_match; cbn; auto. Qed.

Lemma tenants_step s s' : coherent s -> tenants s -> step s s' -> tenants s'.
Proof.
  intros Hc Ht Hst. destruct Hst as
    [now id r lease desired Hr Hcl Hw Hnew|now lease m A e k a t' sent Hp Ha|lease|now id i Hr Hi
    |now id r i reset Hr Hi|now id r r' Hr Hs|id wanted|id].
  - intros l m p Hl. cbn in *. rewrite lookup_insert_Some in Hl. destruct Hl as [[<- ?]|[_ Hl]].
    + simplify_eq. exists Holding. split; [apply execute_frees|]. cbn. intros r'. rewrite lookup_insert_eq.
      by intros [= <-] _.
    + destruct (procs_leases _ Hc _ _ _ Hl) as (Hin & _). destruct (Ht _ _ _ Hl) as (x & Hk & Hx).
      exists x. split; [done|]. intros r' H1 H2. rewrite lookup_insert_Some in H1. destruct H1 as [[_ <-]|[_ H1]].
      * cbn in H2. by simplify_eq.
      * by apply Hx.
  - intros l m' p' Hl. cbn in *. rewrite lookup_insert_Some in Hl. destruct Hl as [[<- ?]|[_ Hl]].
    + simplify_eq. destruct (procs_leases _ Hc _ _ _ Hp) as (_ & Hid & _). by eapply tenant_run; eauto.
    + eapply tenant_end; [by apply Ht|by eapply answers_leases].
  - intros l m p Hl. cbn in *. apply lookup_delete_Some in Hl as [_ Hl]. by apply Ht.
  - eapply tenants_frame; [done|by apply leases_end_free|done].
  - eapply tenants_frame; [done|eapply leases_end_insert; [done|]; destruct reset; auto|done].
  - eapply tenants_frame; [done|eapply leases_end_insert; [done|by eapply row_change_lease]|done].
  - eapply tenants_frame; [done| |done]. cbn.
    destruct (settle_table id wanted (table s)) as [->|[->|(r & i & Hr & _ & _ & ->)]]; eauto with sync.
  - eapply tenants_frame; [done| |done]. cbn. auto with sync.
Qed.

Lemma tenants_reachable s : rtc step idle_system s -> coherent s /\ tenants s.
Proof.
  apply (rtc_ind_r (fun s => coherent s /\ tenants s)).
  - split; [apply coherent_idle|]. by intros l m p.
  - intros s1 s2 _ Hst [Hc Ht]. split; [by eapply coherent_step|by eapply tenants_step].
Qed.
End queue.

(** No lease is leaked.  A worker that returned [Ok] no longer holds the lease of
    its row, whatever the action, the answers it got and the steps of the others. *)
Theorem finished_workers_hold_nothing to_lowercase track_update_body playlist_update_body sc_error_text
    action_error_text connection_error_text finalize_error_text joins has_proxy like_interval listing_page parse_dt
    lease_ms s l m r :
  rtc (sync_queue_step (execute to_lowercase track_update_body playlist_update_body sc_error_text
         action_error_text connection_error_text finalize_error_text joins has_proxy like_interval listing_page
         parse_dt) lease_ms) idle_system s ->
  procs s !! l = Some (m, Ret (Ok tt)) -> table s !! m_id m = Some r ->
  lease_id (progress r) <> Some l.
Proof.
  intros Hs Hp Hr Hl.
  destruct (tenants_reachable _ lease_ms (frees_execute _ _ _ _ _ _ _ _ _ _ _ _) s Hs) as [_ Ht].
  destruct (Ht _ _ _ Hp) as (x & Hk & Hx). destruct (Hx r Hr Hl) as [-> _]. discriminate Hk.
Qed.

(** A worker that finds its action paused postpones it and is done. *)
Lemma finished_workers_hold_nothing_witness :
  exists s r, rtc (sync_queue_step Sample.worker 1000) idle_system s
    /\ procs s !! 10 = Some (Sample.m, Ret (Ok tt)) /\ table s !! m_id Sample.m = Some r
    /\ lease_id (progress r) <> Some 10.
Proof.
  assert (exists t l, alone 0 Sample.m {[1 := claim_row 10 0 Sample.row]} (Sample.worker Sample.m) []
    t (Ret (Ok tt)) l /\ is_Some (t !! 1)) as (t & l & H & [r Hr]).
  { do 2 eexists. split.
    - eapply (alone_effect _ _ _ _ _ _ EvictPrivate _ (Ok tt)); [reflexivity|by split|].
      eapply (alone_effect _ _ _ _ _ _ DropSuperseded _ (Ok false)); [reflexivity|by split; [|exists false; left]|].
      eapply (alone_effect _ _ _ _ _ _ AskToken _ (Ok (Sample.token []))); [reflexivity|by split|].
      eapply (alone_effect _ _ _ _ _ _ (AccountRemaining _) _ (Some 60)); [reflexivity|by split|].
      eapply (alone_effect _ _ _ _ _ _ (Run (PostponeUnattempted _ _)) _ (Ok 1)); [reflexivity|by split; [|left]|].
      apply alone_here.
    - vm_compute. by eexists. }
  destruct (Sample.alone_reachable t _ l H) as (s & Hs & Ht & _ & Hp). exists s, r.
  assert (table s !! m_id Sample.m = Some r) as Hr' by by rewrite Ht.
  split; [exact Hs|]. split; [exact Hp|]. split; [exact Hr'|].
  exact (finished_workers_hold_nothing _ _ _ _ _ _ _ _ _ _ _ _ 1000 s 10 Sample.m r Hs Hp Hr').
Defined.
