(* ===== verification/Connections.v ===== *)
(** * Connections: access tokens and their refresh

    Source: [jobs/src/handlers/sync_queue/connection.rs], the refresh half of
    [client.rs], [Connection] of [model.rs], [jobs/src/handlers/oauth_cooldowns.rs]
    and the queries of [jobs/queries/sync_queue/connection]; a login is
    [scd_cmd_connection_login] of migration 0250.  Any worker may find an access
    token stale: it leases the connection's refresh, asks SoundCloud with the refresh
    token it loaded and records the answer under its lease.  The manager's methods
    are programs over their statements, as in [SyncProgram].  Times are microseconds;
    each reading of the clock is an effect.  [token_subject] (base64 and JSON) and
    the text of an error are parameters.  The application tokens and the limits on
    reads that share the struct are not part of the refresh and are left out. *)

From Stdlib Require Import ZArith Lia String.
From stdpp Require Import base list numbers tactics sets gmap.
From S2P Require Import Prelude Text EntityRef WritePauses SyncRows SyncProgram.
Local Open Scope Z_scope.

Definition second : Z := 1000000.
Definition minute : Z := 60 * second.

Definition REFRESH_LEASE_SECONDS : Z := 60.
Definition REJECTED_TOKEN_RETRY_SECONDS : Z := 5 * 60.
Definition TRANSIENT_RETRY_MIN_SECONDS : Z := 30.
Definition TRANSIENT_RETRY_MAX_SECONDS : Z := 15 * 60.
Definition RATE_LIMITED_RETRY_SECONDS : Z := 5 * 60.
Definition APP_CREDENTIALS_RETRY_SECONDS : Z := 30 * 60.
Definition APP_BAN_RETRY_SECONDS : Z := 30 * 60.

(** ** Rows *)

Record ConnRow := {
  r_soundcloud_user_id : str;
  r_access_token : str;
  r_refresh_token : str;
  r_expires_at : Z;
  r_scope : str;
  r_refresh_generation : Z;
  r_refresh_failure_count : Z;
  r_refresh_rejection_count : Z;
  r_first_refresh_rejection_at : option Z;
  r_refresh_lease : option (Z * Z);  (** [refresh_lease_id], [refresh_lease_expires_at] *)
  r_last_refresh_success_at : option Z;
  r_last_refresh_error_kind : option str;
  r_last_refresh_error : option str;
  r_retry_at : option Z;
  r_oauth_app_id : option Z;
  r_created_at : Z;
  r_updated_at : Z;
  r_login_v : Z }.

Record OAuthApp := { client_id : str; client_secret : str; active : bool }.

(** [oauth_app_request_cooldowns]. *)
Record Cooldown := { cd_retry_at : Z; cd_failure_count : Z }.

Record World := {
  conns : gmap Z ConnRow;
  apps : gmap Z OAuthApp;
  cooldowns : gmap Z Cooldown;
  (** applications with a [subscription_required] pause *)
  unsubscribed : gset Z }.

Definition with_conns (f : gmap Z ConnRow -> gmap Z ConnRow) (w : World) : World :=
  {| conns := f (conns w); apps := apps w; cooldowns := cooldowns w; unsubscribed := unsubscribed w |}.

(** ** A loaded connection *)

Record Connection := {
  c_id : Z;
  c_soundcloud_user_id : str;
  c_access_token : str;
  c_refresh_token : str;
  c_expires_at : Z;
  c_scope : str;
  c_refresh_generation : Z;
  c_refresh_failure_count : Z;
  c_refresh_lease : option (Z * Z);
  c_last_refresh_error_kind : option str;
  c_retry_at : option Z;
  c_oauth_app_id : option Z;
  c_client_id : option str;
  c_client_secret : option str;
  c_app_active : option bool }.

Definition kind_is (c : option str) (s : string) : bool := bool_decide (c = Some (lit s)).

Definition token_is_usable (now : Z) (c : Connection) : bool :=
  (now <? c_expires_at c)
  && negb (kind_is (c_last_refresh_error_kind c) "token_rejected"
           || kind_is (c_last_refresh_error_kind c) "reauthorization_required").

Definition seconds_until (now deadline : Z) : option Z :=
  let milliseconds := Z.quot (deadline - now) 1000 in
  if 0 <? milliseconds then Some (Z.min (milliseconds + 999) i64_max / 1000) else None.

Definition active_refresh_lease_seconds (now : Z) (c : Connection) : option Z :=
  c_refresh_lease c ≫= (fun l => seconds_until now l.2).

Definition retry_seconds (now : Z) (c : Connection) : option Z := c_retry_at c ≫= seconds_until now.

Definition refresh_credentials (c : Connection) : option (str * str) :=
  if bool_decide (c_oauth_app_id c = None) || negb (bool_decide (c_app_active c = Some true)) then None
  else match c_client_id c, c_client_secret c with
       | Some i, Some s => Some (i, s)
       | _, _ => None
       end.

Definition connection_token (c : Connection) : AccessToken :=
  {| token_value := c_access_token c; oauth_app_id := c_oauth_app_id c |}.

(** ** Queries *)

(** [load_by_id.sql]. *)
Definition loaded (w : World) (id : Z) (r : ConnRow) : Connection :=
  let app := r_oauth_app_id r ≫= (fun a => apps w !! a) in
  {| c_id := id; c_soundcloud_user_id := r_soundcloud_user_id r; c_access_token := r_access_token r;
     c_refresh_token := r_refresh_token r; c_expires_at := r_expires_at r; c_scope := r_scope r;
     c_refresh_generation := r_refresh_generation r; c_refresh_failure_count := r_refresh_failure_count r;
     c_refresh_lease := r_refresh_lease r; c_last_refresh_error_kind := r_last_refresh_error_kind r;
     c_retry_at := r_retry_at r; c_oauth_app_id := r_oauth_app_id r;
     c_client_id := client_id <$> app; c_client_secret := client_secret <$> app; c_app_active := active <$> app |}.

Definition load_by_id_sql (w : World) (id : Z) : option Connection := loaded w id <$> conns w !! id.

Definition reauthorization_required (r : ConnRow) : bool :=
  kind_is (r_last_refresh_error_kind r) "reauthorization_required".

(** [ORDER BY]: false sorts before true, so that each [DESC] condition is negated. *)
Definition load_order (now : Z) (w : World) (e : Z * ConnRow) : list Z :=
  let '(id, r) := e in
  let app_active := bool_decide ((r_oauth_app_id r ≫= (fun a => active <$> apps w !! a)) = Some true) in
  let subscribed := match r_oauth_app_id r with Some a => negb (bool_decide (a ∈ unsubscribed w)) | None => true end in
  let last (b : bool) : Z := if b then 0 else 1 in
  [last (app_active && negb (reauthorization_required r) && subscribed);
   last ((now <? r_expires_at r) && negb (kind_is (r_last_refresh_error_kind r) "token_rejected")
         && negb (reauthorization_required r));
   last app_active;
   last (negb (reauthorization_required r));
   last (match r_retry_at r with Some at_ => at_ <=? now | None => true end);
   - r_updated_at r; id].

Fixpoint lex_lt (a b : list Z) : bool :=
  match a, b with
  | x :: a', y :: b' => if x =? y then lex_lt a' b' else x <? y
  | _, _ => false
  end.

(** [ORDER BY .. LIMIT 1]. *)
Fixpoint first_by {A} (key : A -> list Z) (l : list A) : option A :=
  match l with
  | [] => None
  | x :: l' => match first_by key l' with
               | Some y => Some (if lex_lt (key y) (key x) then y else x)
               | None => Some x
               end
  end.

(** [load_for_user.sql]. *)
Definition load_for_user_sql (now : Z) (w : World) (user : str) : option Connection :=
  (fun e => loaded w e.1 e.2) <$>
    first_by (load_order now w)
      (List.filter (fun e => bool_decide (r_soundcloud_user_id e.2 = user)) (map_to_list (conns w))).

(** ** Statements *)

Definition set_refresh (gen : Z) (lease : option (Z * Z)) (now : Z) (r : ConnRow) : ConnRow :=
  {| r_soundcloud_user_id := r_soundcloud_user_id r; r_access_token := r_access_token r;
     r_refresh_token := r_refresh_token r; r_expires_at := r_expires_at r; r_scope := r_scope r;
     r_refresh_generation := gen; r_refresh_failure_count := r_refresh_failure_count r;
     r_refresh_rejection_count := r_refresh_rejection_count r;
     r_first_refresh_rejection_at := r_first_refresh_rejection_at r; r_refresh_lease := lease;
     r_last_refresh_success_at := r_last_refresh_success_at r;
     r_last_refresh_error_kind := r_last_refresh_error_kind r; r_last_refresh_error := r_last_refresh_error r;
     r_retry_at := r_retry_at r; r_oauth_app_id := r_oauth_app_id r; r_created_at := r_created_at r;
     r_updated_at := now; r_login_v := r_login_v r |}.

Definition set_outcome (failures rejections : Z) (first : option Z) (kind message : option str) (retry_at : option Z)
    (r : ConnRow) : ConnRow :=
  {| r_soundcloud_user_id := r_soundcloud_user_id r; r_access_token := r_access_token r;
     r_refresh_token := r_refresh_token r; r_expires_at := r_expires_at r; r_scope := r_scope r;
     r_refresh_generation := r_refresh_generation r; r_refresh_failure_count := failures;
     r_refresh_rejection_count := rejections; r_first_refresh_rejection_at := first;
     r_refresh_lease := r_refresh_lease r; r_last_refresh_success_at := r_last_refresh_success_at r;
     r_last_refresh_error_kind := kind; r_last_refresh_error := message; r_retry_at := retry_at;
     r_oauth_app_id := r_oauth_app_id r; r_created_at := r_created_at r; r_updated_at := r_updated_at r;
     r_login_v := r_login_v r |}.

Definition set_tokens (access refresh : str) (expires_at : Z) (scope : str) (now : Z) (r : ConnRow) : ConnRow :=
  {| r_soundcloud_user_id := r_soundcloud_user_id r; r_access_token := access; r_refresh_token := refresh;
     r_expires_at := expires_at; r_scope := scope; r_refresh_generation := r_refresh_generation r;
     r_refresh_failure_count := r_refresh_failure_count r; r_refresh_rejection_count := r_refresh_rejection_count r;
     r_first_refresh_rejection_at := r_first_refresh_rejection_at r; r_refresh_lease := r_refresh_lease r;
     r_last_refresh_success_at := Some now; r_last_refresh_error_kind := r_last_refresh_error_kind r;
     r_last_refresh_error := r_last_refresh_error r; r_retry_at := r_retry_at r; r_oauth_app_id := r_oauth_app_id r;
     r_created_at := r_created_at r; r_updated_at := r_updated_at r; r_login_v := r_login_v r |}.

(** [refresh_lease_id IS NULL OR refresh_lease_expires_at <= now()]. *)
Definition unleased_at (now : Z) (r : ConnRow) : bool :=
  match r_refresh_lease r with Some (_, until) => until <=? now | None => true end.

(** [refresh_lease_id = $2 AND refresh_generation = $3]. *)
Definition holds (lease gen : Z) (r : ConnRow) : bool :=
  bool_decide (fst <$> r_refresh_lease r = Some lease) && (r_refresh_generation r =? gen).

(** An [UPDATE .. WHERE id = $1 AND ..] and the row it wrote. *)
Definition update_conn (id : Z) (p : ConnRow -> bool) (f : ConnRow -> ConnRow) (w : World) : option ConnRow * World :=
  match conns w !! id with
  | Some r => if p r then (Some (f r), with_conns (insert id (f r)) w) else (None, w)
  | None => (None, w)
  end.

Definition claim_refresh_sql (now id gen : Z) (token : str) (lease : Z) : World -> option ConnRow * World :=
  update_conn id
    (fun r => (r_refresh_generation r =? gen) && bool_decide (r_access_token r = token) && unleased_at now r
              && negb (reauthorization_required r)
              && match r_retry_at r with Some at_ => at_ <=? now | None => true end)
    (fun r => set_refresh (r_refresh_generation r + 1) (Some (lease, now + REFRESH_LEASE_SECONDS * second)) now r).

Definition complete_refresh_sql (now id lease gen : Z) (access refresh : str) (expires_at : Z) (scope : str)
  : World -> option ConnRow * World :=
  update_conn id (holds lease gen)
    (fun r => set_outcome 0 0 None None None None
                (set_tokens access refresh expires_at scope now (set_refresh (r_refresh_generation r + 1) None now r))).

Definition fail_retryable_sql (now id lease gen : Z) (kind message : str) (seconds : Z)
  : World -> option ConnRow * World :=
  update_conn id (holds lease gen)
    (fun r => set_outcome (r_refresh_failure_count r + 1) 0 None (Some kind) (Some message)
                (Some (now + seconds * second)) (set_refresh (r_refresh_generation r) None now r)).

(** The evidence that a refresh token is dead. *)
Definition confirmed (now : Z) (r : ConnRow) : bool :=
  (2 <=? r_refresh_rejection_count r)
  && match r_first_refresh_rejection_at r with Some at_ => at_ <=? now - 15 * minute | None => false end
  && (default (r_created_at r) (r_last_refresh_success_at r) <=? now - 30 * minute)
  && (r_expires_at r <=? now).

Definition fail_reauthorization_sql (now id lease gen : Z) (message : str) : World -> option ConnRow * World :=
  update_conn id (fun r => holds lease gen r && negb (unleased_at now r))
    (fun r => set_outcome (Z.min (r_refresh_failure_count r) 2147483646 + 1)
                (Z.min (r_refresh_rejection_count r) 2147483646 + 1)
                (Some (default now (r_first_refresh_rejection_at r)))
                (Some (if confirmed now r then lit "reauthorization_required" else lit "temporarily_unavailable"))
                (Some message)
                (if confirmed now r then None else Some (now + 10 * minute))
                (set_refresh (r_refresh_generation r) None now r)).

(** [GREATEST] ignores [NULL]. *)
Definition mark_rejected_sql (now id : Z) (token : str) (seconds : Z) : World -> option ConnRow * World :=
  update_conn id
    (fun r => bool_decide (r_access_token r = token) && negb (kind_is (r_last_refresh_error_kind r) "token_rejected")
              && negb (reauthorization_required r) && unleased_at now r)
    (fun r => set_outcome (r_refresh_failure_count r + 1) (r_refresh_rejection_count r) (r_first_refresh_rejection_at r)
                (Some (lit "token_rejected")) (Some (lit "SoundCloud rejected the refreshed access token"))
                (Some (match r_retry_at r with Some at_ => Z.max at_ (now + seconds * second) | None => now + seconds * second end))
                (set_refresh (r_refresh_generation r) (r_refresh_lease r) now r)).

(** [scd_cmd_connection_login]. *)
Definition connection_login (stamp v : Z) (user : str) (app : option Z) (access refresh : str) (expires_at : Z)
    (scope : str) (r : ConnRow) : ConnRow :=
  if r_login_v r <? v
  then {| r_soundcloud_user_id := user; r_access_token := access; r_refresh_token := refresh;
          r_expires_at := expires_at; r_scope := scope; r_refresh_generation := r_refresh_generation r + 1;
          r_refresh_failure_count := 0; r_refresh_rejection_count := 0; r_first_refresh_rejection_at := None;
          r_refresh_lease := None; r_last_refresh_success_at := Some stamp; r_last_refresh_error_kind := None;
          r_last_refresh_error := None; r_retry_at := None; r_oauth_app_id := app; r_created_at := r_created_at r;
          r_updated_at := stamp; r_login_v := v |}
  else set_refresh (r_refresh_generation r) (r_refresh_lease r) (Z.max (r_updated_at r) stamp) r.

(** *** Cooldowns of an application *)

(** [GREATEST(1, ceil(EXTRACT(EPOCH FROM (retry_at - now()))))]. *)
Definition wait_seconds (now at_ : Z) : Z := Z.max 1 (- ((- (at_ - now)) / second)).

(** [retry_after.sql]. *)
Definition retry_after_sql (now app : Z) (w : World) : option Z :=
  match cooldowns w !! app with
  | Some c => if now <? cd_retry_at c then Some (wait_seconds now (cd_retry_at c)) else None
  | None => None
  end.

(** [penalize.sql]. *)
Definition penalize_sql (now app minimum : Z) (w : World) : Z * World :=
  let wanted := now + Z.max 1 minimum * second in
  let c := match cooldowns w !! app with
           | Some c => {| cd_retry_at := Z.max (cd_retry_at c) wanted;
                          cd_failure_count := if now <? cd_retry_at c then Z.min (cd_failure_count c + 1) 31 else 1 |}
           | None => {| cd_retry_at := wanted; cd_failure_count := 1 |}
           end in
  (wait_seconds now (cd_retry_at c),
   {| conns := conns w; apps := apps w; cooldowns := <[app := c]> (cooldowns w); unsubscribed := unsubscribed w |}).

(** ** Errors of a refresh *)

Definition oauth_error (body : Value) (expected : str) : bool :=
  match field (lit "error") body ≫= as_str with
  | Some e => eq_ignore_ascii_case e expected
  | None => false
  end.

Definition bad_or_unauthorized (status : Z) : bool := (status =? 400) || (status =? 401).

Definition is_invalid_grant (e : SoundCloudError) : bool :=
  match e with
  | Api status body _ => bad_or_unauthorized status && oauth_error body (lit "invalid_grant")
  | _ => false
  end.

Definition is_app_credentials_error (e : SoundCloudError) : bool :=
  match e with
  | Api status body _ =>
      bad_or_unauthorized status
      && (oauth_error body (lit "invalid_client") || oauth_error body (lit "unauthorized_client"))
  | _ => false
  end.

(** The fields of a token response and what the client makes of them. *)
Record TokenResponse := {
  tr_access_token : option str;
  tr_refresh_token : option str;
  tr_expires_in : option Z;
  tr_scope : option str }.

Record RefreshedToken := {
  new_access_token : str;
  new_refresh_token : str;
  new_expires_at : Z;
  new_scope : option str }.

Definition non_empty (s : option str) : option str :=
  s ≫= (fun s => if bool_decide (trim s = []) then None else Some s).

(** The end of [TokenRefreshClient::refresh]; [None] is a body that does not parse. *)
Definition refreshed_token (now : Z) (r : option TokenResponse) : result RefreshedToken SoundCloudError :=
  match r with
  | None => Err InvalidTokenResponse
  | Some r =>
      match non_empty (tr_access_token r), non_empty (tr_refresh_token r), tr_expires_in r with
      | Some access, Some refresh, Some expires_in =>
          if 0 <? expires_in
          then Ok {| new_access_token := access; new_refresh_token := refresh;
                     new_expires_at := now + expires_in * second; new_scope := non_empty (tr_scope r) |}
          else Err InvalidTokenResponse
      | _, _, _ => Err InvalidTokenResponse
      end
  end.

Definition refresh_backoff (failure_count : Z) : Z :=
  Z.min (TRANSIENT_RETRY_MIN_SECONDS * 2 ^ Z.min (Z.max failure_count 0) 5) TRANSIENT_RETRY_MAX_SECONDS.

Definition clamp_i32 (n : Z) : Z := Z.max 1 (Z.min n i32_max).

(** ** Effects *)

Inductive CEff : Type -> Type :=
| Clock : CEff Z
| NewLease : CEff Z
| LoadForUser (user : str) : CEff (result (option Connection) unit)
| LoadById (id : Z) : CEff (result (option Connection) unit)
| CooldownOf (app : Z) : CEff (result (option Z) unit)
| Penalize (app minimum : Z) : CEff (result Z unit)
| ClaimRefresh (id gen : Z) (token : str) (lease : Z) : CEff (result (option Z) unit)
| AskRefresh (refresh_token client_id client_secret : str) : CEff (result (option TokenResponse) SoundCloudError)
| CompleteRefresh (id lease gen : Z) (access refresh : str) (expires_at : Z) (scope : str)
    : CEff (result (option str) unit)
| FailRetryable (id lease gen : Z) (kind message : str) (seconds : Z) : CEff (result Z unit)
| FailReauthorization (id lease gen : Z) (message : str) : CEff (result unit unit)
| MarkRejected (id : Z) (token : str) (seconds : Z) : CEff (result unit unit).

Abbreviation cprog := (program CEff).
Abbreviation Token := (result AccessToken ConnectionError).

(** [?] on an [sqlx] error. *)
Definition db {A B} (e : CEff (result A unit)) (f : A -> cprog (result B ConnectionError))
  : cprog (result B ConnectionError) :=
  r ← trigger e; match r with Ok a => f a | Err _ => mret (Err ConnectionDatabase) end.

Section manager.
Context (to_lowercase : str -> str) (sc_error_text : SoundCloudError -> str) (token_subject : str -> option str).

Definition app_wide_retry_seconds (e : SoundCloudError) (transient_seconds : Z) : option Z :=
  if is_rate_limited e then Some (default RATE_LIMITED_RETRY_SECONDS (error_retry_after e))
  else if is_app_credentials_error e then Some APP_CREDENTIALS_RETRY_SECONDS
  else if is_banned to_lowercase e then Some APP_BAN_RETRY_SECONDS
  else match e with
       | Api status _ _ => if is_server_error status then Some transient_seconds else None
       | Transport _ | ResponseTooLarge => Some transient_seconds
       | InvalidTokenResponse | PausedWrite _ => None
       end.

Definition load {B} (user_id : str) (f : Connection -> cprog (result B ConnectionError))
  : cprog (result B ConnectionError) :=
  db (LoadForUser (extract_sc_id user_id)) (fun o =>
    match o with Some c => f c | None => mret (Err ReauthorizationRequired) end).

Definition reload {B} (id : Z) (f : Connection -> cprog (result B ConnectionError))
  : cprog (result B ConnectionError) :=
  db (LoadById id) (fun o => match o with Some c => f c | None => mret (Err ReauthorizationRequired) end).

(** The connection is waiting: for its lease or for [retry_at]. *)
Definition waiting_error (c : Connection) (otherwise : cprog Token) : cprog Token :=
  now ← trigger Clock;
  match active_refresh_lease_seconds now c with
  | Some s => mret (Err (RefreshInProgress s))
  | None =>
      now ← trigger Clock;
      match retry_seconds now c with
      | Some s => mret (Err (if kind_is (c_last_refresh_error_kind c) "rate_limited" then RateLimited s
                             else TemporarilyUnavailable s))
      | None => otherwise
      end
  end.

Definition reconcile_refresh_race (previous : Connection) : cprog Token :=
  reload (c_id previous) (fun current =>
    now ← trigger Clock;
    if token_is_usable now current
       && (negb (c_refresh_generation current =? c_refresh_generation previous)
           || negb (bool_decide (c_access_token current = c_access_token previous)))
    then mret (Ok (connection_token current))
    else if kind_is (c_last_refresh_error_kind current) "reauthorization_required"
    then mret (Err ReauthorizationRequired)
    else waiting_error current (mret (Err (TemporarilyUnavailable 1)))).

Definition complete_refresh (c : Connection) (lease gen : Z) (token : RefreshedToken) : cprog Token :=
  db (CompleteRefresh (c_id c) lease gen (new_access_token token) (new_refresh_token token) (new_expires_at token)
        (default (c_scope c) (new_scope token))) (fun refreshed =>
    match refreshed with
    | None => reconcile_refresh_race c
    | Some value => mret (Ok {| token_value := value; oauth_app_id := c_oauth_app_id c |})
    end).

(** How long to wait after a failure other than [invalid_grant], and its kind. *)
Definition failure_wait (c : Connection) (e : SoundCloudError) : Z :=
  if is_rate_limited e then clamp_i32 (default RATE_LIMITED_RETRY_SECONDS (error_retry_after e))
  else refresh_backoff (c_refresh_failure_count c).

Definition failure_kind (e : SoundCloudError) : str :=
  if is_rate_limited e then lit "rate_limited"
  else match e with Transport true => lit "timed_out" | _ => lit "temporarily_unavailable" end.

Definition record_retryable (c : Connection) (lease gen app : Z) (e : SoundCloudError) : cprog Token :=
  let record seconds :=
    db (FailRetryable (c_id c) lease gen (failure_kind e) (bounded_message (sc_error_text e)) seconds) (fun n =>
      if n =? 0 then reconcile_refresh_race c
      else mret (Err (if is_rate_limited e then RateLimited seconds else TemporarilyUnavailable seconds))) in
  match app_wide_retry_seconds e (failure_wait c e) with
  | Some minimum => db (Penalize app minimum) (fun s => record (clamp_i32 s))
  | None => record (failure_wait c e)
  end.

Definition record_refresh_failure (c : Connection) (lease gen app : Z) (e : SoundCloudError) : cprog Token :=
  if is_invalid_grant e then
    db (FailReauthorization (c_id c) lease gen (bounded_message (lit "SoundCloud rejected the refresh token")))
      (fun _ => reconcile_refresh_race c)
  else record_retryable c lease gen app e.

(** The lease is held: ask SoundCloud and record its answer. *)
Definition refresh_leased (c : Connection) (cid secret : str) (lease gen app : Z) : cprog Token :=
  answer ← trigger (AskRefresh (c_refresh_token c) cid secret);
  now ← trigger Clock;
  match answer with
  | Err e => record_refresh_failure c lease gen app e
  | Ok response =>
      match refreshed_token now response with
      | Err e => record_refresh_failure c lease gen app e
      | Ok token =>
          if match token_subject (new_access_token token) with
             | Some subject => negb (bool_decide (extract_sc_id subject = c_soundcloud_user_id c))
             | None => false
             end
          then record_refresh_failure c lease gen app InvalidTokenResponse
          else complete_refresh c lease gen token
      end
  end.

Definition claim_and_refresh (c : Connection) (cid secret : str) (app : Z) : cprog Token :=
  lease ← trigger NewLease;
  db (ClaimRefresh (c_id c) (c_refresh_generation c) (c_access_token c) lease) (fun claimed =>
    match claimed with
    | Some gen => refresh_leased c cid secret lease gen app
    | None =>
        reload (c_id c) (fun current =>
          now ← trigger Clock;
          if token_is_usable now current && negb (bool_decide (c_access_token current = c_access_token c))
          then mret (Ok (connection_token current))
          else now ← trigger Clock;
               mret (Err (RefreshInProgress (default 1 (active_refresh_lease_seconds now current)))))
    end).

Definition refresh (c : Connection) : cprog Token :=
  if kind_is (c_last_refresh_error_kind c) "reauthorization_required" then mret (Err ReauthorizationRequired)
  else waiting_error c
    match refresh_credentials c, c_oauth_app_id c with
    | Some (cid, secret), Some app =>
        db (CooldownOf app) (fun o =>
          match o with
          | Some s => mret (Err (RateLimited s))
          | None => claim_and_refresh c cid secret app
          end)
    | _, _ => mret (Err ReauthorizationRequired)
    end.

Definition access_token (user_id : str) : cprog Token :=
  load user_id (fun c =>
    now ← trigger Clock;
    if token_is_usable now c then mret (Ok (connection_token c)) else refresh c).

Definition refresh_rejected_token (user_id rejected : str) : cprog Token :=
  load user_id (fun c =>
    now ← trigger Clock;
    if negb (bool_decide (c_access_token c = rejected)) && token_is_usable now c then mret (Ok (connection_token c))
    else db (MarkRejected (c_id c) rejected 0) (fun _ => load user_id refresh)).

Definition reject_for_later (user_id rejected : str) : cprog (result unit ConnectionError) :=
  load user_id (fun c =>
    db (MarkRejected (c_id c) rejected REJECTED_TOKEN_RETRY_SECONDS) (fun _ => mret (Ok tt))).
End manager.

Arguments load_for_user_sql : simpl never.
Arguments load_by_id_sql : simpl never.
Arguments retry_after_sql : simpl never.
Arguments penalize_sql : simpl never.
Arguments claim_refresh_sql : simpl never.
Arguments complete_refresh_sql : simpl never.
Arguments fail_retryable_sql : simpl never.
Arguments fail_reauthorization_sql : simpl never.
Arguments mark_rejected_sql : simpl never.
