(* ===== verification/ConnectionFacts.v ===== *)
(** * ConnectionFacts: refresh tokens are never forked

    SoundCloud's refresh tokens rotate: a refresh token works once and its answer
    carries the next.  Workers that refresh, logins, new and deleted connections are
    interleaved at every statement; statements may fail after they took effect and
    workers may stop anywhere.  The first theorems say that no generation is
    refreshed twice and that a stored pair always replaces the very token it was
    obtained with.  The last ones run a worker alone to its end. *)

From Stdlib Require Import ZArith Lia String.
From stdpp Require Import base list numbers tactics sets gmap relations.
From S2P Require Import Prelude Text EntityRef WritePauses SyncRows SyncProgram Connections.
Local Open Scope Z_scope.

(** ** The system *)

Inductive Event :=
| Claimed (pid id gen lease : Z)
| Asked (pid : Z) (token : str) (answer : result (option TokenResponse) SoundCloudError)
| Stored (pid id : Z) (replaced access refresh : str).

(** What a statement may answer: its result, or an error whether or not it took effect. *)
Definition db_answers {A} (a : A) (w1 : World) (l : list Event) (w : World) (got : result A unit) (w' : World)
    (l' : list Event) : Prop :=
  (got = Ok a /\ w' = w1 /\ l' = l) \/ (got = Err tt /\ ((w' = w /\ l' = []) \/ (w' = w1 /\ l' = l))).

(** The refresh token a row had. *)
Definition refresh_of (w : World) (id : Z) : str := default [] (r_refresh_token <$> conns w !! id).

Definition canswers (now pid : Z) (w : World) {A} (e : CEff A) : A -> World -> list Event -> Prop :=
  match e in CEff A return A -> World -> list Event -> Prop with
  | Clock => fun a w' l => a = now /\ w' = w /\ l = []
  | NewLease => fun _ w' l => w' = w /\ l = []
  | LoadForUser user => db_answers (load_for_user_sql now w user) w [] w
  | LoadById id => db_answers (load_by_id_sql w id) w [] w
  | CooldownOf app => db_answers (retry_after_sql now app w) w [] w
  | Penalize app minimum => let '(s, w1) := penalize_sql now app minimum w in db_answers s w1 [] w
  | ClaimRefresh id gen token lease =>
      let '(o, w1) := claim_refresh_sql now id gen token lease w in
      db_answers (r_refresh_generation <$> o) w1 (match o with Some _ => [Claimed pid id gen lease] | None => [] end) w
  | AskRefresh token _ _ => fun a w' l => w' = w /\ l = [Asked pid token a]
  | CompleteRefresh id lease gen access refresh expires_at scope =>
      let '(o, w1) := complete_refresh_sql now id lease gen access refresh expires_at scope w in
      db_answers (r_access_token <$> o) w1
        (match o with Some _ => [Stored pid id (refresh_of w id) access refresh] | None => [] end) w
  | FailRetryable id lease gen kind message seconds =>
      let '(o, w1) := fail_retryable_sql now id lease gen kind message seconds w in
      db_answers (match o with Some _ => 1 | None => 0 end) w1 [] w
  | FailReauthorization id lease gen message =>
      let '(_, w1) := fail_reauthorization_sql now id lease gen message w in db_answers tt w1 [] w
  | MarkRejected id token seconds =>
      let '(_, w1) := mark_rejected_sql now id token seconds w in db_answers tt w1 [] w
  end.

Record CSys := {
  world : World;
  cprocs : gmap Z (cprog Token);
  pids : gset Z;
  trace : list Event;
  (** the refresh token of every generation a connection went through *)
  history : gmap (Z * Z) str }.

(** The token of the row's current generation is noted. *)
Definition noted (id : Z) (w : World) (h : gmap (Z * Z) str) : gmap (Z * Z) str :=
  match conns w !! id with Some r => <[(id, r_refresh_generation r) := r_refresh_token r]> h | None => h end.

(** The connection a statement may write. *)
Definition target {A} (e : CEff A) : option Z :=
  match e with
  | ClaimRefresh id _ _ _ | CompleteRefresh id _ _ _ _ _ _ | FailRetryable id _ _ _ _ _
  | FailReauthorization id _ _ _ | MarkRejected id _ _ => Some id
  | _ => None
  end.

Section system.
(** What a worker may be started with. *)
Context (starts : cprog Token -> Prop).

Inductive connection_step (s : CSys) : CSys -> Prop :=
| conn_start pid p :
    pid ∉ pids s -> starts p ->
    connection_step s
      {| world := world s; cprocs := <[pid := p]> (cprocs s); pids := {[pid]} ∪ pids s; trace := trace s;
         history := history s |}
| conn_run now pid A (e : CEff A) k a w' l :
    cprocs s !! pid = Some (Vis e k) -> canswers now pid (world s) e a w' l ->
    connection_step s
      {| world := w'; cprocs := <[pid := k a]> (cprocs s); pids := pids s; trace := trace s ++ l;
         history := match target e with Some id => noted id w' (history s) | None => history s end |}
| conn_stop pid :
    connection_step s
      {| world := world s; cprocs := delete pid (cprocs s); pids := pids s; trace := trace s; history := history s |}
| conn_login id r stamp v user app access refresh expires_at scope :
    conns (world s) !! id = Some r ->
    connection_step s
      (let w' := with_conns (insert id (connection_login stamp v user app access refresh expires_at scope r)) (world s) in
       {| world := w'; cprocs := cprocs s; pids := pids s; trace := trace s; history := noted id w' (history s) |})
| conn_insert id r :
    (forall g, history s !! (id, g) = None) ->
    connection_step s
      (let w' := with_conns (insert id r) (world s) in
       {| world := w'; cprocs := cprocs s; pids := pids s; trace := trace s; history := noted id w' (history s) |})
| conn_delete id :
    connection_step s
      {| world := with_conns (delete id) (world s); cprocs := cprocs s; pids := pids s; trace := trace s;
         history := history s |}
| conn_apps w' :
    conns w' = conns (world s) ->
    connection_step s
      {| world := w'; cprocs := cprocs s; pids := pids s; trace := trace s; history := history s |}.
End system.

Definition no_connections : CSys :=
  {| world := {| conns := ∅; apps := ∅; cooldowns := ∅; unsubscribed := ∅ |};
     cprocs := ∅; pids := ∅; trace := []; history := ∅ |}.

(** ** The protocol of a refresh *)

Record cstage := {
  seen : list Connection;
  tried : bool;
  claim : option (Z * Z);  (** connection and generation *)
  asked : bool;
  granted : option TokenResponse }.

Definition outside : cstage := {| seen := []; tried := false; claim := None; asked := false; granted := None |}.

Definition see (c : option Connection) (x : cstage) : cstage :=
  {| seen := option_list c ++ seen x; tried := tried x; claim := claim x; asked := asked x; granted := granted x |}.

(** A claim's answer is the next generation. *)
Global Instance CEff_answers : Answers CEff := fun A e =>
  match e in CEff A return A -> Prop with
  | ClaimRefresh _ gen _ _ => fun a => match a with Ok (Some n) => n = gen + 1 | _ => True end
  | _ => fun _ => True
  end.

Global Instance refreshing : Protocol CEff cstage := {
  permits x A e :=
    match e with
    | ClaimRefresh id gen _ _ => tried x = false /\ exists c, c ∈ seen x /\ c_id c = id /\ c_refresh_generation c = gen
    | AskRefresh token _ _ =>
        asked x = false /\ exists c, c ∈ seen x /\ claim x = Some (c_id c, c_refresh_generation c)
                                    /\ token = c_refresh_token c
    | CompleteRefresh id _ gen access refresh _ _ =>
        exists r g, claim x = Some (id, g) /\ gen = g + 1 /\ granted x = Some r
                    /\ tr_access_token r = Some access /\ tr_refresh_token r = Some refresh
    | _ => True
    end;
  after x A e :=
    match e in CEff A return A -> cstage with
    | LoadForUser _ => fun a => see (match a with Ok o => o | Err _ => None end) x
    | LoadById _ => fun a => see (match a with Ok o => o | Err _ => None end) x
    | ClaimRefresh id gen _ _ => fun a =>
        {| seen := seen x; tried := true; claim := match a with Ok (Some _) => Some (id, gen) | _ => None end;
           asked := asked x; granted := None |}
    | AskRefresh _ _ _ => fun a =>
        {| seen := seen x; tried := tried x; claim := claim x; asked := true;
           granted := match a with Ok o => o | Err _ => None end |}
    | _ => fun _ => x
    end }.

(** Programs that neither claim, ask nor store. *)
Definition harmless {R} (p : cprog R) : Prop := forall x : cstage, keeps x p anyhow.

Lemma harmless_ret {R} (r : R) : harmless (mret r).
Proof. by intros x. Qed.

Lemma harmless_bind {R T} (p : cprog R) (f : R -> cprog T) : harmless p -> (forall r, harmless (f r)) -> harmless (p ≫= f).
Proof. intros Hp Hf x. apply keeps_bind. eapply keeps_impl; [|apply Hp]. intros x' r _. apply Hf. Qed.

Lemma harmless_db {A B} (e : CEff (result A unit)) (f : A -> cprog (result B ConnectionError)) :
  harmless (trigger e) -> (forall a, harmless (f a)) -> harmless (db e f).
Proof. intros He Hf. apply harmless_bind; [done|]. intros [a|[]]; [apply Hf|apply harmless_ret]. Qed.

Ltac harmless_step :=
  match goal with
  | |- harmless (mret _) => apply harmless_ret
  | |- harmless (trigger _) => by intros ?
  | |- harmless (db _ _) => apply harmless_db; [|intros ?]
  | |- harmless (_ ≫= _) => apply harmless_bind; [|intros ?]
  | |- harmless (match ?x with _ => _ end) => destruct x
  end.
Ltac solve_harmless := repeat harmless_step.

Section manager.
Context (to_lowercase : str -> str) (sc_error_text : SoundCloudError -> str) (token_subject : str -> option str).

Abbreviation record_failure := (record_refresh_failure to_lowercase sc_error_text).
Abbreviation refresh_leased' := (refresh_leased to_lowercase sc_error_text token_subject).
Abbreviation refresh' := (refresh to_lowercase sc_error_text token_subject).
Abbreviation access_token' := (access_token to_lowercase sc_error_text token_subject).
Abbreviation refresh_rejected' := (refresh_rejected_token to_lowercase sc_error_text token_subject).

Lemma harmless_waiting c p : harmless p -> harmless (waiting_error c p).
Proof. intros Hp. unfold waiting_error. repeat first [assumption|harmless_step]. Qed.

Lemma harmless_reconcile c : harmless (reconcile_refresh_race c).
Proof. unfold reconcile_refresh_race, reload. repeat first [apply harmless_waiting|harmless_step]. Qed.

Lemma harmless_failure c lease gen app e : harmless (record_failure c lease gen app e).
Proof.
  unfold record_refresh_failure, record_retryable. repeat first [apply harmless_reconcile|harmless_step].
Qed.

Lemma refreshed_token_from now r t :
  refreshed_token now (Some r) = Ok t ->
  tr_access_token r = Some (new_access_token t) /\ tr_refresh_token r = Some (new_refresh_token t)
  /\ now < new_expires_at t.
Proof.
  assert (forall o s, non_empty o = Some s -> o = Some s) as Hne.
  { intros [s0|] s; [|done]. unfold non_empty. cbn. case_bool_decide; [done|]. by intros [= ->]. }
  unfold refreshed_token. destruct (non_empty (tr_access_token r)) as [a|] eqn:Ea; [|done].
  destruct (non_empty (tr_refresh_token r)) as [f|] eqn:Ef; [|done]. destruct (tr_expires_in r) as [n|]; [|done].
  destruct (Z.ltb_spec 0 n); [|done]. intros [= <-]. cbn. split_and!; [by apply Hne|by apply Hne|].
  unfold second. lia.
Qed.

(** A loaded connection that has not been refreshed yet. *)
Definition ready (x : cstage) (c : Connection) : Prop := c ∈ seen x /\ tried x = false /\ asked x = false.

Lemma keeps_refresh_leased c cid secret lease gen app x :
  c ∈ seen x -> asked x = false -> claim x = Some (c_id c, c_refresh_generation c) ->
  gen = c_refresh_generation c + 1 ->
  keeps x (refresh_leased' c cid secret lease gen app) anyhow.
Proof.
  intros Hc Ha Hl ->. apply keeps_bind. split; [cbn; eauto 6|]. intros answer _. cbn [keeps].
  apply keeps_bind. split; [exact I|]. intros now _. cbn [keeps].
  destruct answer as [response|e]; [|apply harmless_failure].
  destruct (refreshed_token now response) as [t|e] eqn:Ht; [|apply harmless_failure].
  destruct (match token_subject _ with Some _ => _ | None => _ end); [apply harmless_failure|].
  destruct response as [r|]; [|done]. apply refreshed_token_from in Ht as (H1 & H2 & _).
  apply keeps_bind. split; [cbn; eauto 8|]. intros [[v|]|[]] _; [exact I| |exact I]. apply harmless_reconcile.
Qed.

Lemma keeps_refresh c x : ready x c -> keeps x (refresh' c) anyhow.
Proof.
  intros (Hc & Ht & Ha). unfold refresh. destruct (kind_is _ _); [exact I|].
  unfold waiting_error. apply keeps_bind. split; [exact I|]. intros now _. cbn [keeps].
  destruct (active_refresh_lease_seconds now c); [exact I|].
  apply keeps_bind. split; [exact I|]. intros now' _. cbn [keeps]. destruct (retry_seconds now' c); [exact I|].
  destruct (refresh_credentials c) as [[cid secret]|]; [|exact I]. destruct (c_oauth_app_id c) as [app|]; [|exact I].
  apply keeps_bind. split; [exact I|]. intros [[s|]|[]] _; [exact I| |exact I].
  apply keeps_bind. split; [exact I|]. intros lease _. cbn [keeps].
  apply keeps_bind. split; [cbn; eauto|]. intros [[gen|]|[]] Hg; [| |exact I]; cbn [keeps].
  - apply keeps_refresh_leased; [done..|exact Hg].
  - revert x Hc Ht Ha. intros x _ _ _.
    assert (harmless (reload (c_id c) (fun current =>
      now ← trigger Clock;
      if token_is_usable now current && negb (bool_decide (c_access_token current = c_access_token c))
      then mret (Ok (connection_token current))
      else now ← trigger Clock;
           mret (Err (RefreshInProgress (default 1 (active_refresh_lease_seconds now current))) : Token)))) as Hh
      by (unfold reload; solve_harmless).
    apply Hh.
Qed.

Lemma keeps_load user_id (f : Connection -> cprog Token) x :
  (forall c, ready (see (Some c) x) c -> keeps (see (Some c) x) (f c) anyhow) ->
  tried x = false -> asked x = false -> keeps x (load user_id f) anyhow.
Proof.
  intros Hf Ht Ha. apply keeps_bind. split; [exact I|]. intros [[c|]|[]] _; [|exact I|exact I].
  apply Hf. split; [cbn; set_solver|done].
Qed.

Lemma keeps_access_token user_id : keeps outside (access_token' user_id) anyhow.
Proof.
  apply keeps_load; [|done..]. intros c Hc. apply keeps_bind. split; [exact I|]. intros now _. cbn [keeps].
  destruct (token_is_usable now c); [exact I|]. by apply keeps_refresh.
Qed.

Lemma keeps_refresh_rejected user_id rejected : keeps outside (refresh_rejected' user_id rejected) anyhow.
Proof.
  apply keeps_load; [|done..]. intros c Hc. apply keeps_bind. split; [exact I|]. intros now _. cbn [keeps].
  destruct (_ && _); [exact I|]. apply keeps_bind. split; [exact I|]. intros [[]|[]] _; [|exact I].
  apply keeps_load; [|done..]. intros c' Hc'. by apply keeps_refresh.
Qed.

(** Rejecting a token gives no token. *)
Definition rejecting (user_id rejected : str) : cprog Token :=
  r ← reject_for_later user_id rejected;
  mret (match r with Ok _ => Err ReauthorizationRequired | Err e => Err e end).

Lemma harmless_rejecting user_id rejected : harmless (rejecting user_id rejected).
Proof. unfold rejecting, reject_for_later, load. solve_harmless. Qed.

(** What the workers run. *)
Definition worker_starts (p : cprog Token) : Prop :=
  (exists user, p = access_token' user) \/ (exists user rejected, p = refresh_rejected' user rejected)
  \/ (exists user rejected, p = rejecting user rejected).

Lemma starts_keep p : worker_starts p -> keeps outside p anyhow.
Proof.
  intros [[u ->]|[(u & r & ->)|(u & r & ->)]];
    [apply keeps_access_token|apply keeps_refresh_rejected|apply harmless_rejecting].
Qed.
End manager.

(** ** How rows change *)

(** A new generation, or the same with its refresh token. *)
Definition evolves (r r' : ConnRow) : Prop :=
  r_refresh_generation r' = r_refresh_generation r + 1
  \/ r_refresh_generation r' = r_refresh_generation r /\ r_refresh_token r' = r_refresh_token r.

Definition changes_only (o : option Z) (w w' : World) : Prop :=
  forall id r', conns w' !! id = Some r' ->
    exists r, conns w !! id = Some r /\ (r' = r \/ o = Some id /\ evolves r r').

Lemma changes_refl o w : changes_only o w w.
Proof. intros id r Hr. exists r. auto. Qed.

Lemma update_conn_changes id p f w o w' :
  update_conn id p f w = (o, w') -> (forall r, evolves r (f r)) -> changes_only (Some id) w w'.
Proof.
  unfold update_conn. intros H Hf. destruct (conns w !! id) as [r|] eqn:Hr; [|simplify_eq; apply changes_refl].
  destruct (p r); simplify_eq; [|apply changes_refl].
  intros id' r'. cbn. rewrite lookup_insert_Some. intros [[<- <-]|[_ H']]; [eauto|]. exists r'. auto.
Qed.

Lemma db_answers_world {A} (a : A) w1 l w got w' l' :
  db_answers a w1 l w got w' l' -> (w' = w \/ w' = w1) /\ (l' = [] \/ l' = l).
Proof. unfold db_answers. naive_solver. Qed.

Lemma canswers_changes now pid w {A} (e : CEff A) a w' l :
  canswers now pid w e a w' l -> changes_only (target e) w w'.
Proof.
  assert (forall w1, changes_only (target e) w w1 -> w' = w \/ w' = w1 -> changes_only (target e) w w') as Hw.
  { intros w1 H [->| ->]; [apply changes_refl|done]. }
  destruct e; cbn [canswers target] in *; intros Ha.
  1: destruct Ha as (_ & -> & _); apply changes_refl.
  1: destruct Ha as (-> & _); apply changes_refl.
  1-3: apply db_answers_world in Ha as [Ha _]; apply (Hw w); [apply changes_refl|done].
  2: destruct (claim_refresh_sql _ _ _ _ _ _) as [o w1] eqn:E.
  3: destruct Ha as [-> _]; apply changes_refl.
  3: destruct (complete_refresh_sql _ _ _ _ _ _ _ _ _) as [o w1] eqn:E.
  4: destruct (fail_retryable_sql _ _ _ _ _ _ _ _) as [o w1] eqn:E.
  5: destruct (fail_reauthorization_sql _ _ _ _ _ _) as [o w1] eqn:E.
  6: destruct (mark_rejected_sql _ _ _ _ _) as [o w1] eqn:E.
  2-6: apply db_answers_world in Ha as [Ha _]; eapply Hw; [|exact Ha];
    eapply update_conn_changes; [exact E|]; intros r; cbn; unfold evolves; cbn; auto.
  destruct (penalize_sql now app minimum w) as [s w1] eqn:E. apply db_answers_world in Ha as [Ha _].
  eapply Hw; [|exact Ha]. unfold penalize_sql in E. simplify_eq. intros id r Hr. exists r. auto.
Qed.

Lemma connection_login_evolves stamp v user app access refresh expires_at scope r :
  evolves r (connection_login stamp v user app access refresh expires_at scope r).
Proof. unfold connection_login, evolves. destruct (_ <? _); cbn; auto. Qed.

(** ** Claims, requests and stored pairs *)

Definition asker (e : Event) : option Z := match e with Asked pid _ _ => Some pid | _ => None end.

(** Where the worker stands, in terms of the trace and the history. *)
Record stage_ok (tr : list Event) (h : gmap (Z * Z) str) (pid : Z) (x : cstage) : Prop := {
  ok_seen : forall c, c ∈ seen x -> h !! (c_id c, c_refresh_generation c) = Some (c_refresh_token c);
  ok_tried : tried x = false -> forall id g l, Claimed pid id g l ∉ tr;
  ok_claim : forall id g, claim x = Some (id, g) ->
    (exists l, Claimed pid id g l ∈ tr) /\ exists t, h !! (id, g) = Some t /\ h !! (id, g + 1) = Some t;
  ok_asked : asked x = false -> forall t a, Asked pid t a ∉ tr;
  ok_granted : forall r id g, granted x = Some r -> claim x = Some (id, g) ->
    exists t, h !! (id, g) = Some t /\ Asked pid t (Ok (Some r)) ∈ tr }.

Record rows_ok (w : World) (h : gmap (Z * Z) str) : Prop := {
  row_noted : forall id r, conns w !! id = Some r -> h !! (id, r_refresh_generation r) = Some (r_refresh_token r);
  row_newest : forall id r g, conns w !! id = Some r -> r_refresh_generation r < g -> h !! (id, g) = None }.

Record trace_ok (s : CSys) : Prop := {
  claims_noted : forall pid id g l, Claimed pid id g l ∈ trace s -> is_Some (history s !! (id, g + 1));
  claims_apart : forall pid pid' id g l l', Claimed pid id g l ∈ trace s -> Claimed pid' id g l' ∈ trace s ->
    pid = pid' /\ l = l';
  asks_claimed : forall pid t a, Asked pid t a ∈ trace s ->
    exists id g l, Claimed pid id g l ∈ trace s /\ history s !! (id, g) = Some t;
  asks_once : NoDup (omap asker (trace s));
  stores_asked : forall pid id t access refresh, Stored pid id t access refresh ∈ trace s ->
    exists r, Asked pid t (Ok (Some r)) ∈ trace s /\ tr_access_token r = Some access /\ tr_refresh_token r = Some refresh;
  events_started : forall e, e ∈ trace s ->
    match e with Claimed pid _ _ _ | Asked pid _ _ | Stored pid _ _ _ _ => pid ∈ pids s end }.

Record conn_inv (s : CSys) : Prop := {
  inv_rows : rows_ok (world s) (history s);
  inv_trace : trace_ok s;
  inv_procs : forall pid p, cprocs s !! pid = Some p ->
    pid ∈ pids s /\ exists x, keeps x p anyhow /\ stage_ok (trace s) (history s) pid x }.

Definition extends (h h' : gmap (Z * Z) str) : Prop := forall k v, h !! k = Some v -> h' !! k = Some v.

Lemma extends_refl h : extends h h.
Proof. by intros k v. Qed.

Lemma rows_ok_noted id w w' h :
  rows_ok w h -> changes_only (Some id) w w' -> extends h (noted id w' h) /\ rows_ok w' (noted id w' h).
Proof.
  intros [Hn Hm] Hc.
  assert (extends h (noted id w' h)) as Hx.
  { intros k v Hk. unfold noted. destruct (conns w' !! id) as [r'|] eqn:Hr'; [|done].
    destruct (Hc _ _ Hr') as (r & Hr & He). rewrite lookup_insert_Some. destruct (decide ((id, r_refresh_generation r') = k)) as [<-|]; [|auto].
    left. split; [done|]. destruct He as [->|[_ [Hg|[Hg Ht]]]].
    - rewrite (Hn _ _ Hr) in Hk. congruence.
    - rewrite Hg in Hk. rewrite (Hm id r (r_refresh_generation r + 1) Hr ltac:(lia)) in Hk. done.
    - rewrite Hg, (Hn _ _ Hr) in Hk. congruence. }
  split; [exact Hx|]. split.
  - intros id' r' Hr'. destruct (decide (id' = id)) as [->|Hne].
    + unfold noted. rewrite Hr'. apply lookup_insert_eq.
    + destruct (Hc _ _ Hr') as (r & Hr & [->|[? _]]); [|congruence]. by apply Hx, Hn.
  - intros id' r' g Hr' Hg. destruct (Hc _ _ Hr') as (r & Hr & He).
    assert (h !! (id', g) = None) as Hnone.
    { apply (Hm id' r); [done|]. destruct He as [->|[_ [Hg'|[Hg' _]]]]; lia. }
    unfold noted. destruct (conns w' !! id) as [r0|] eqn:Hr0; [|done]. rewrite lookup_insert_ne; [done|].
    intros [= <- Heq]. rewrite Hr' in Hr0. simplify_eq. lia.
Qed.

Lemma rows_ok_same w w' h : rows_ok w h -> changes_only None w w' -> rows_ok w' h.
Proof.
  intros [Hn Hm] Hc. split; intros id r.
  - intros Hr. destruct (Hc _ _ Hr) as (r0 & H0 & [->|[? _]]); [by apply Hn|done].
  - intros g Hr. destruct (Hc _ _ Hr) as (r0 & H0 & [->|[? _]]); [by apply Hm|done].
Qed.

Definition by_pid (pid : Z) (e : Event) : Prop :=
  match e with Claimed p _ _ _ | Asked p _ _ | Stored p _ _ _ _ => p = pid end.

Lemma stage_ok_mono tr l h h' pid x :
  stage_ok tr h pid x -> extends h h' -> (forall e, e ∈ l -> ~ by_pid pid e) -> stage_ok (tr ++ l) h' pid x.
Proof.
  intros [S T C A G] Hx Hl. split.
  - intros c Hc. by apply Hx, S.
  - intros Ht id g l0 [H|H]%elem_of_app; [by apply (T Ht id g l0)|by apply (Hl _ H)].
  - intros id g Hc. destruct (C _ _ Hc) as [[l0 H1] (t & H2 & H3)]. split; [exists l0; set_solver|eauto].
  - intros Ha t a [H|H]%elem_of_app; [by apply (A Ha t a)|by apply (Hl _ H)].
  - intros r id g Hr Hc. destruct (G _ _ _ Hr Hc) as (t & H1 & H2). exists t. split; [auto|set_solver].
Qed.

Lemma trace_ok_mono s s' :
  trace_ok s -> trace s' = trace s -> extends (history s) (history s') -> pids s ⊆ pids s' -> trace_ok s'.
Proof.
  intros [N C A O S E] Ht Hx Hp. split; rewrite ?Ht; try done.
  - intros pid id g l H. destruct (N _ _ _ _ H) as [t Hk]. exists t. by apply Hx.
  - intros pid t a H. destruct (A _ _ _ H) as (id & g & l & H1 & H2). eauto 6.
  - intros e He. specialize (E e He). destruct e; set_solver.
Qed.

(** A step that leaves the trace and the workers alone. *)
Lemma conn_inv_frame s s' :
  conn_inv s -> trace s' = trace s -> cprocs s' = cprocs s -> pids s' = pids s ->
  rows_ok (world s') (history s') -> extends (history s) (history s') -> conn_inv s'.
Proof.
  intros [R T P] Ht Hp Hi Hr Hx. split; [done|apply (trace_ok_mono s); [done..|by rewrite Hi]|].
  rewrite Hp, Hi, Ht. intros pid p H. destruct (P pid p H) as (Hin & x & Hk & Hs). split; [done|].
  exists x. split; [done|]. rewrite <- (app_nil_r (trace s)). apply stage_ok_mono with (h := history s); [done|done|].
  intros e He. by apply elem_of_nil in He.
Qed.

(** ** One effect of a worker *)

(** What the effect adds to the worker's knowledge and to the trace. *)
Record effect_ok (s : CSys) (pid : Z) (x' : cstage) (w' : World) (h' : gmap (Z * Z) str) (l : list Event) : Prop := {
  eff_rows : rows_ok w' h';
  eff_extends : extends (history s) h';
  eff_stage : stage_ok (trace s ++ l) h' pid x';
  eff_trace : trace_ok {| world := w'; cprocs := ∅; pids := pids s; trace := trace s ++ l; history := h' |};
  eff_by : forall e, e ∈ l -> by_pid pid e }.

(** Nothing new is seen or recorded. *)
Lemma effect_ok_silent s pid x w' h' :
  conn_inv s -> stage_ok (trace s) (history s) pid x -> rows_ok w' h' -> extends (history s) h' ->
  effect_ok s pid x w' h' [].
Proof.
  intros Hi Hx Hr He. split; [done|done| | |].
  - apply (stage_ok_mono _ [] (history s)); [done|done|]. intros e H. by apply elem_of_nil in H.
  - eapply (trace_ok_mono s); [apply Hi|apply app_nil_r|done|done].
  - intros e H. by apply elem_of_nil in H.
Qed.

Lemma effect_ok_seen s pid x o :
  conn_inv s -> stage_ok (trace s) (history s) pid x ->
  (forall c, o = Some c -> history s !! (c_id c, c_refresh_generation c) = Some (c_refresh_token c)) ->
  effect_ok s pid (see o x) (world s) (history s) [].
Proof.
  intros Hi [S T C A G] Ho. apply effect_ok_silent; [done| |apply Hi|apply extends_refl].
  split; try done. intros c. cbn. rewrite elem_of_app. intros [Hc|Hc]; [|by apply S].
  destruct o as [c'|]; cbn in Hc; [|by apply elem_of_nil in Hc]. apply list_elem_of_singleton in Hc as ->. by apply Ho.
Qed.

Lemma first_by_in {A} (key : A -> list Z) l x : first_by key l = Some x -> x ∈ l.
Proof.
  revert x. induction l as [|y l IH]; intros x; [done|]. cbn. destruct (first_by key l) as [z|] eqn:E.
  - intros [= <-]. destruct (lex_lt _ _); [right; by apply IH|left].
  - intros [= <-]. left.
Qed.

Lemma loaded_noted w h id r :
  rows_ok w h -> conns w !! id = Some r ->
  h !! (c_id (loaded w id r), c_refresh_generation (loaded w id r)) = Some (c_refresh_token (loaded w id r)).
Proof. intros Hr H. by apply (row_noted _ _ Hr). Qed.

Lemma load_by_id_noted w h id c :
  rows_ok w h -> load_by_id_sql w id = Some c ->
  h !! (c_id c, c_refresh_generation c) = Some (c_refresh_token c).
Proof.
  unfold load_by_id_sql. intros Hr H. destruct (conns w !! id) as [r|] eqn:E; [|done]. cbn in H. simplify_eq.
  by apply loaded_noted.
Qed.

Lemma load_for_user_noted now w h user c :
  rows_ok w h -> load_for_user_sql now w user = Some c ->
  h !! (c_id c, c_refresh_generation c) = Some (c_refresh_token c).
Proof.
  unfold load_for_user_sql. intros Hr H. destruct (first_by _ _) as [[id r]|] eqn:E; [|done]. cbn in H. simplify_eq.
  apply loaded_noted; [done|]. apply first_by_in in E.
  rewrite list_elem_of_In, filter_In, <- list_elem_of_In, elem_of_map_to_list in E. apply E.
Qed.

Lemma loaded_effect s pid x (o : option Connection) got w' l :
  conn_inv s -> stage_ok (trace s) (history s) pid x ->
  (forall c, o = Some c -> history s !! (c_id c, c_refresh_generation c) = Some (c_refresh_token c)) ->
  db_answers o (world s) [] (world s) got w' l ->
  effect_ok s pid (see (match got with Ok o => o | Err _ => None end) x) w' (history s) l.
Proof.
  intros Hi Hx Ho [(-> & -> & ->)|(-> & [[-> ->]|[-> ->]])]; apply effect_ok_seen; done.
Qed.

(** A statement that wrote its row, or did not. *)
Lemma update_conn_cases id p f w o w' :
  update_conn id p f w = (o, w') ->
  (o = None /\ w' = w) \/ exists r, conns w !! id = Some r /\ p r = true /\ o = Some (f r)
                                    /\ w' = with_conns (insert id (f r)) w.
Proof.
  unfold update_conn. intros H. destruct (conns w !! id) as [r|]; [destruct (p r) eqn:Hp|]; simplify_eq; eauto 6.
Qed.

(** What an event must have behind it. *)
Definition justified (s : CSys) (h' : gmap (Z * Z) str) (e : Event) : Prop :=
  match e with
  | Claimed pid id g l => pid ∈ pids s /\ history s !! (id, g + 1) = None /\ is_Some (h' !! (id, g + 1))
  | Asked pid t a => pid ∈ pids s /\ (forall t a, Asked pid t a ∉ trace s)
      /\ exists id g l, Claimed pid id g l ∈ trace s /\ h' !! (id, g) = Some t
  | Stored pid id t access refresh => pid ∈ pids s
      /\ exists r, Asked pid t (Ok (Some r)) ∈ trace s /\ tr_access_token r = Some access
                  /\ tr_refresh_token r = Some refresh
  end.

Lemma trace_ok_add s w' h' e0 :
  trace_ok s -> extends (history s) h' -> justified s h' e0 ->
  trace_ok {| world := w'; cprocs := ∅; pids := pids s; trace := trace s ++ [e0]; history := h' |}.
Proof.
  intros [N Cl As O St Ev] Hx Hj.
  assert (forall e, e ∈ trace s ++ [e0] -> e ∈ trace s \/ e = e0) as Hin by set_solver.
  assert (forall e, e ∈ trace s -> e ∈ trace s ++ [e0]) as Hold by set_solver.
  split; cbn.
  - intros pid id g l [H| <-]%Hin; [destruct (N _ _ _ _ H) as [t Hk]; eexists; by apply Hx|apply Hj].
  - intros p1 p2 id g l1 l2 [H1|H1]%Hin [H2|H2]%Hin; [by eapply Cl| | |by simplify_eq];
      subst e0; destruct Hj as (_ & Hnone & _); [destruct (N _ _ _ _ H1)|destruct (N _ _ _ _ H2)]; congruence.
  - intros pid t a [H| <-]%Hin.
    + destruct (As _ _ _ H) as (id & g & l & H1 & H2). exists id, g, l. split; [by apply Hold|by apply Hx].
    + destruct Hj as (_ & _ & id & g & l & H1 & H2). eauto 6.
  - rewrite omap_app. apply NoDup_app. split_and!; [done| |].
    + intros pid H1 H2. apply list_elem_of_omap in H1 as (e & He & Hp). destruct e0; cbn in H2; try by apply elem_of_nil in H2.
      apply list_elem_of_singleton in H2. subst. destruct e; cbn in Hp; simplify_eq.
      destruct Hj as (_ & Hno & _). by eapply Hno.
    + destruct e0; cbn; [apply NoDup_nil_2|apply NoDup_singleton|apply NoDup_nil_2].
  - intros pid id t access refresh [H| <-]%Hin.
    + destruct (St _ _ _ _ _ H) as (r & H1 & H2). eauto.
    + destruct Hj as (_ & r & H1 & H2). eauto.
  - intros e [H| ->]%Hin; [by apply Ev|]. destruct e0; apply Hj.
Qed.

Lemma claimed_effect s pid x id gen lease now token w' :
  conn_inv s -> stage_ok (trace s) (history s) pid x -> tried x = false -> pid ∈ pids s ->
  claim_refresh_sql now id gen token lease (world s) <> (None, world s) ->
  (claim_refresh_sql now id gen token lease (world s)).2 = w' ->
  forall c, c = None \/ c = Some (id, gen) ->
  effect_ok s pid {| seen := seen x; tried := true; claim := c; asked := asked x; granted := None |}
    w' (noted id w' (history s)) [Claimed pid id gen lease].
Proof.
  intros Hi [S T C A G] Ht Hpid Hne <- c Hc. pose proof (inv_rows _ Hi) as Hrows.
  destruct (claim_refresh_sql now id gen token lease (world s)) as [o w'] eqn:E. cbn [snd].
  assert (changes_only (Some id) (world s) w') as Hch
    by (eapply update_conn_changes; [exact E|]; intros r; left; done).
  destruct (rows_ok_noted _ _ _ _ Hrows Hch) as [Hx Hr'].
  destruct (update_conn_cases _ _ _ _ _ _ E) as [[-> ->]|(r & Hr & Hp & -> & Hw')]; [done|].
  rewrite !andb_true_iff, Z.eqb_eq in Hp. destruct Hp as ((((Hg & _) & _) & _) & _).
  assert (history s !! (id, gen) = Some (r_refresh_token r)) as Hold by (rewrite <- Hg; by apply Hrows).
  assert (noted id w' (history s) !! (id, gen + 1) = Some (r_refresh_token r)) as Hnew.
  { unfold noted. rewrite Hw'. cbn. rewrite lookup_insert_eq. cbn. rewrite Hg. apply lookup_insert_eq. }
  assert (history s !! (id, gen + 1) = None) as Hnone by (eapply row_newest; [done|done|lia]).
  split; [done|done| | |by intros e ->%list_elem_of_singleton].
  - split; cbn.
    + intros c0 H0. by apply Hx, S.
    + done.
    + intros id' g' ->. destruct Hc as [?|Hc]; [done|]. injection Hc as -> ->.
      split; [exists lease; set_solver|]. exists (r_refresh_token r). split; [by apply Hx|done].
    + intros Ha t a [H|H]%elem_of_app; [by apply (A Ha t a)|]. by apply list_elem_of_singleton in H.
    + done.
  - apply trace_ok_add; [apply Hi|done|]. by eauto.
Qed.

Lemma asked_effect s pid x token a c :
  conn_inv s -> stage_ok (trace s) (history s) pid x -> pid ∈ pids s ->
  asked x = false -> c ∈ seen x -> claim x = Some (c_id c, c_refresh_generation c) -> token = c_refresh_token c ->
  effect_ok s pid {| seen := seen x; tried := tried x; claim := claim x; asked := true;
                     granted := match a with Ok o => o | Err _ => None end |}
    (world s) (history s) [Asked pid token a].
Proof.
  intros Hi [S T C A G] Hpid Ha Hc Hl ->. pose proof (S c Hc) as Hseen.
  split; [apply Hi|apply extends_refl| | |by intros e ->%list_elem_of_singleton].
  - split; cbn.
    + done.
    + intros Ht id g l [H|H]%elem_of_app; [by apply (T Ht id g l)|]. by apply list_elem_of_singleton in H.
    + intros id g H. destruct (C _ _ H) as [[l H1] H2]. split; [exists l; set_solver|done].
    + done.
    + intros r id g Hr H. rewrite Hl in H. simplify_eq. exists (c_refresh_token c). split; [done|].
      apply elem_of_app. right. destruct a; [|done]. subst. by apply list_elem_of_singleton.
  - apply trace_ok_add; [apply Hi|apply extends_refl|]. split; [done|]. split; [by apply A|].
    destruct (C _ _ Hl) as [[l H1] _]. eauto 6.
Qed.

Lemma stored_effect s pid x id lease gen now access refresh expires_at scope w' r g :
  conn_inv s -> stage_ok (trace s) (history s) pid x -> pid ∈ pids s ->
  claim x = Some (id, g) -> gen = g + 1 -> granted x = Some r ->
  tr_access_token r = Some access -> tr_refresh_token r = Some refresh ->
  complete_refresh_sql now id lease gen access refresh expires_at scope (world s) <> (None, world s) ->
  (complete_refresh_sql now id lease gen access refresh expires_at scope (world s)).2 = w' ->
  effect_ok s pid x w' (noted id w' (history s)) [Stored pid id (refresh_of (world s) id) access refresh].
Proof.
  intros Hi Hst Hpid Hc -> Hg Ha Hf Hne <-. pose proof (inv_rows _ Hi) as Hrows.
  destruct (complete_refresh_sql now id lease _ access refresh expires_at scope (world s)) as [o w'] eqn:E. cbn [snd].
  assert (changes_only (Some id) (world s) w') as Hch
    by (eapply update_conn_changes; [exact E|]; intros r0; left; done).
  destruct (rows_ok_noted _ _ _ _ Hrows Hch) as [Hx Hr'].
  destruct (update_conn_cases _ _ _ _ _ _ E) as [[-> ->]|(r0 & Hr & Hp & -> & Hw')]; [done|].
  apply andb_true_iff in Hp as [_ Hp%Z.eqb_eq].
  destruct (ok_claim _ _ _ _ Hst _ _ Hc) as [_ (t & H1 & H2)].
  destruct (ok_granted _ _ _ _ Hst _ _ _ Hg Hc) as (t' & H3 & H4). simplify_eq.
  assert (refresh_of (world s) id = t) as ->.
  { unfold refresh_of. rewrite Hr. cbn. pose proof (row_noted _ _ Hrows _ _ Hr) as Hn. rewrite Hp in Hn. congruence. }
  split; [done|done| | |by intros e ->%list_elem_of_singleton].
  - destruct Hst as [S T C A G]. split.
    + intros c0 H0. by apply Hx, S.
    + intros Ht id' g' l [H|H]%elem_of_app; [by apply (T Ht id' g' l)|]. by apply list_elem_of_singleton in H.
    + intros id' g' H. destruct (C _ _ H) as [[l H5] (t0 & H6 & H7)]. split; [exists l; set_solver|eauto].
    + intros Hno t0 a [H|H]%elem_of_app; [by apply (A Hno t0 a)|]. by apply list_elem_of_singleton in H.
    + intros r1 id' g' H5 H6. destruct (G _ _ _ H5 H6) as (t0 & H7 & H8). exists t0. split; [auto|set_solver].
  - apply trace_ok_add; [apply Hi|done|]. split; [done|]. by exists r.
Qed.

(** The history after an effect. *)
Definition noted_by {A} (e : CEff A) (w' : World) (h : gmap (Z * Z) str) : gmap (Z * Z) str :=
  match target e with Some id => noted id w' h | None => h end.

Lemma effect_ok_written s pid x id w' :
  conn_inv s -> stage_ok (trace s) (history s) pid x -> changes_only (Some id) (world s) w' ->
  effect_ok s pid x w' (noted id w' (history s)) [].
Proof.
  intros Hi Hx Hc. destruct (rows_ok_noted _ _ _ _ (inv_rows _ Hi) Hc) as [He Hr]. by apply effect_ok_silent.
Qed.

(** The worker's stage does not matter to the rest once its claim is void. *)
Lemma stage_ok_void tr h pid x :
  stage_ok tr h pid x ->
  stage_ok tr h pid {| seen := seen x; tried := true; claim := None; asked := asked x; granted := None |}.
Proof. intros [S T C A G]. by split. Qed.

Lemma run_claim s now pid x id gen token lease a w' l :
  conn_inv s -> stage_ok (trace s) (history s) pid x -> pid ∈ pids s -> tried x = false ->
  canswers now pid (world s) (ClaimRefresh id gen token lease) a w' l ->
  possible (ClaimRefresh id gen token lease) a
  /\ effect_ok s pid (after x (ClaimRefresh id gen token lease) a) w' (noted id w' (history s)) l.
Proof.
  intros Hi Hx Hpid Ht Ha. pose proof (claimed_effect s pid x id gen lease now token) as Hclaim.
  cbn [canswers] in Ha. destruct (claim_refresh_sql now id gen token lease (world s)) as [o w1] eqn:E.
  cbn [snd] in Hclaim.
  assert (effect_ok s pid {| seen := seen x; tried := true; claim := None; asked := asked x; granted := None |}
    (world s) (noted id (world s) (history s)) []) as Hvoid
    by (apply effect_ok_written; [done|by apply stage_ok_void|apply changes_refl]).
  destruct (update_conn_cases _ _ _ _ _ _ E) as [[-> ->]|(r & Hr & Hpr & -> & Hw1)].
  - by destruct Ha as [(-> & -> & ->)|(-> & [[-> ->]|[-> ->]])].
  - rewrite !andb_true_iff, Z.eqb_eq in Hpr. destruct Hpr as ((((Hg & _) & _) & _) & _).
    destruct Ha as [(-> & -> & ->)|(-> & [[-> ->]|[-> ->]])]; cbn.
    + split; [by rewrite Hg|]. apply Hclaim; auto.
    + by split.
    + split; [exact I|]. apply Hclaim; auto.
Qed.

Lemma run_complete s now pid x id lease gen access refresh expires_at scope a w' l :
  conn_inv s -> stage_ok (trace s) (history s) pid x -> pid ∈ pids s ->
  permits x (CompleteRefresh id lease gen access refresh expires_at scope) ->
  canswers now pid (world s) (CompleteRefresh id lease gen access refresh expires_at scope) a w' l ->
  effect_ok s pid x w' (noted id w' (history s)) l.
Proof.
  intros Hi Hx Hpid (r & g & Hc & Hg & Hgr & H1 & H2) Ha.
  pose proof (canswers_changes _ _ _ _ _ _ _ Ha) as Hch. cbn [canswers target] in Ha, Hch.
  pose proof (stored_effect s pid x id lease gen now access refresh expires_at scope) as Hst.
  assert (l = [] -> effect_ok s pid x w' (noted id w' (history s)) l) as Hnone by (intros ->; by apply effect_ok_written).
  destruct (complete_refresh_sql _ _ _ _ _ _ _ _ _) as [o w1] eqn:E. cbn [snd] in Hst.
  destruct (update_conn_cases _ _ _ _ _ _ E) as [[-> ->]|(r0 & Hr & Hpr & -> & Hw1)].
  - apply db_answers_world in Ha as [_ Ha]. apply Hnone. naive_solver.
  - destruct Ha as [(_ & -> & ->)|(_ & [[-> ->]|[-> ->]])]; [|by apply Hnone|]; by eapply Hst.
Qed.

Lemma run_effect s now pid x {A} (e : CEff A) a w' l :
  conn_inv s -> stage_ok (trace s) (history s) pid x -> pid ∈ pids s -> permits x e ->
  canswers now pid (world s) e a w' l ->
  possible e a /\ effect_ok s pid (after x e a) w' (noted_by e w' (history s)) l.
Proof.
  intros Hi Hx Hpid Hp Ha. pose proof (canswers_changes _ _ _ _ _ _ _ Ha) as Hch.
  pose proof (inv_rows _ Hi) as Hrows.
  assert (target e = None -> after x e a = x -> l = [] -> effect_ok s pid (after x e a) w' (noted_by e w' (history s)) l)
    as Hquiet.
  { unfold noted_by. intros Ht -> ->. rewrite Ht in Hch |- *. apply effect_ok_silent; [done|done| |apply extends_refl].
    by eapply rows_ok_same. }
  assert (forall id, target e = Some id -> after x e a = x -> l = [] ->
    effect_ok s pid (after x e a) w' (noted_by e w' (history s)) l) as Hwrite.
  { unfold noted_by. intros id Ht -> ->. rewrite Ht in Hch |- *. by apply effect_ok_written. }
  destruct e; cbn [canswers] in Ha.
  - split; [exact I|]. apply Hquiet; [done|done|apply Ha].
  - split; [exact I|]. apply Hquiet; [done|done|apply Ha].
  - split; [exact I|]. eapply loaded_effect; [done|done| |exact Ha]. intros c. by apply load_for_user_noted.
  - split; [exact I|]. eapply loaded_effect; [done|done| |exact Ha]. intros c. by apply load_by_id_noted.
  - split; [exact I|]. apply db_answers_world in Ha as [_ Ha]. apply Hquiet; [done|done|naive_solver].
  - split; [exact I|]. destruct (penalize_sql _ _ _ _) as [n w1]. apply db_answers_world in Ha as [_ Ha].
    apply Hquiet; [done|done|naive_solver].
  - destruct Hp as [Ht _]. by eapply run_claim.
  - destruct Ha as [-> ->]. destruct Hp as (Hn & c & Hc & Hl & Ht). split; [exact I|]. by eapply asked_effect.
  - split; [exact I|]. by eapply run_complete.
  - split; [exact I|]. destruct (fail_retryable_sql _ _ _ _ _ _ _ _) as [o w1].
    apply db_answers_world in Ha as [_ Ha]. apply (Hwrite id); [done|done|naive_solver].
  - split; [exact I|]. destruct (fail_reauthorization_sql _ _ _ _ _ _) as [o w1].
    apply db_answers_world in Ha as [_ Ha]. apply (Hwrite id); [done|done|naive_solver].
  - split; [exact I|]. destruct (mark_rejected_sql _ _ _ _ _) as [o w1].
    apply db_answers_world in Ha as [_ Ha]. apply (Hwrite id); [done|done|naive_solver].
Qed.

(** ** Every step keeps the invariant *)

Lemma conn_inv_run s now pid A (e : CEff A) k a w' l :
  conn_inv s -> cprocs s !! pid = Some (Vis e k) -> canswers now pid (world s) e a w' l ->
  conn_inv {| world := w'; cprocs := <[pid := k a]> (cprocs s); pids := pids s; trace := trace s ++ l;
              history := noted_by e w' (history s) |}.
Proof.
  intros Hi Hp Ha. destruct (inv_procs _ Hi _ _ Hp) as (Hpid & x & [Hpe Hk] & Hx).
  destruct (run_effect _ _ _ _ _ _ _ _ Hi Hx Hpid Hpe Ha) as (Hpos & [R X S T B]).
  split; [exact R| |].
  - destruct T. by split.
  - cbn. intros pid' p'. rewrite lookup_insert_Some. intros [[<- <-]|[Hne Hp']].
    + split; [done|]. exists (after x e a). split; [by apply Hk|exact S].
    + destruct (inv_procs _ Hi _ _ Hp') as (Hpid' & x' & Hk' & Hx'). split; [done|]. exists x'. split; [done|].
      eapply stage_ok_mono; [done|done|]. intros e0 He0 Hby. apply B in He0. destruct e0; cbn in *; congruence.
Qed.

Lemma conn_inv_start s pid p :
  conn_inv s -> pid ∉ pids s -> keeps outside p anyhow ->
  conn_inv {| world := world s; cprocs := <[pid := p]> (cprocs s); pids := {[pid]} ∪ pids s; trace := trace s;
              history := history s |}.
Proof.
  intros [R T P] Hpid Hk. split; cbn; [done|apply (trace_ok_mono s); [done|done|apply extends_refl|set_solver]|].
  intros pid' p'. rewrite lookup_insert_Some. intros [[<- <-]|[Hne Hp']].
  - split; [set_solver|]. exists outside. split; [done|].
    assert (forall e, by_pid pid e -> e ∉ trace s) as Hno.
    { intros e He Hin. pose proof (events_started _ T e Hin) as H. destruct e; cbn in *; congruence. }
    split; cbn; try done; [set_solver|intros _ id g l|intros _ t a]; by apply Hno.
  - destruct (P _ _ Hp') as (Hin & x & H). split; [set_solver|eauto].
Qed.

Lemma changes_insert id r r' w : conns w !! id = Some r -> evolves r r' -> changes_only (Some id) w (with_conns (insert id r') w).
Proof.
  intros Hr He id' r0. cbn. rewrite lookup_insert_Some. intros [[<- <-]|[_ H]]; [eauto|]. exists r0. auto.
Qed.

(** A connection with a new id. *)
Lemma rows_ok_new id r w h :
  rows_ok w h -> (forall g, h !! (id, g) = None) ->
  let w' := with_conns (insert id r) w in extends h (noted id w' h) /\ rows_ok w' (noted id w' h).
Proof.
  intros [N M] Hnew w'. unfold noted. cbn. rewrite lookup_insert_eq. split.
  - intros k v Hk. rewrite lookup_insert_ne; [done|]. intros <-. by rewrite Hnew in Hk.
  - split; cbn.
    + intros id' r'. rewrite lookup_insert_Some. intros [[<- <-]|[Hne H]]; [apply lookup_insert_eq|].
      rewrite lookup_insert_ne by congruence. by apply N.
    + intros id' r' g. rewrite lookup_insert_Some. intros [[<- <-]|[Hne H]] Hg.
      * rewrite lookup_insert_ne by (intros [= ?]; lia). apply Hnew.
      * rewrite lookup_insert_ne by congruence. by eapply M.
Qed.

Lemma conn_inv_step starts s s' :
  (forall p, starts p -> keeps outside p anyhow) -> conn_inv s -> connection_step starts s s' -> conn_inv s'.
Proof.
  intros Hstart Hi Hst. pose proof (inv_rows _ Hi) as Hr. destruct Hst as
    [pid p Hpid Hp|now pid A e k a w' l Hp Ha|pid|id r stamp v user app access refresh expires_at scope Hid|id r Hnew|id|w' Hw].
  - apply conn_inv_start; auto.
  - by eapply (conn_inv_run s).
  - destruct Hi as [R T P]. split; cbn; [done|by destruct T|].
    intros pid' p' [_ H]%lookup_delete_Some. by apply P.
  - destruct (rows_ok_noted _ _ _ _ Hr (changes_insert _ _ _ _ Hid
      (connection_login_evolves stamp v user app access refresh expires_at scope r))) as [Hx Hr'].
    by eapply (conn_inv_frame s).
  - destruct (rows_ok_new id r _ _ Hr Hnew) as [Hx Hr']. by eapply (conn_inv_frame s).
  - eapply (conn_inv_frame s); [done..| |apply extends_refl]. eapply rows_ok_same; [done|].
    intros id' r'. cbn. intros [_ H]%lookup_delete_Some. eauto.
  - eapply (conn_inv_frame s); [done..| |apply extends_refl]. eapply rows_ok_same; [done|].
    intros id' r'. cbn. rewrite Hw. eauto.
Qed.

Lemma conn_inv_reachable starts s :
  (forall p, starts p -> keeps outside p anyhow) -> rtc (connection_step starts) no_connections s -> conn_inv s.
Proof.
  intros Hstart. apply (rtc_ind_r conn_inv).
  - split; [split; cbn; set_solver| |by intros pid p]. split; cbn; try set_solver. apply NoDup_nil_2.
  - intros s1 s2 _ Hst Hi. by eapply conn_inv_step.
Qed.

(** Refreshes are serialized.  In every interleaving of workers, logins and
    changes of connections: a worker asks SoundCloud at most once, only after it
    claimed a generation of a connection and with the refresh token of that
    generation, and two workers never claim the same generation. *)
Theorem refreshes_serialized to_lowercase sc_error_text token_subject s :
  rtc (connection_step (worker_starts to_lowercase sc_error_text token_subject)) no_connections s ->
  NoDup (omap asker (trace s))
  /\ (forall pid t a, Asked pid t a ∈ trace s ->
       exists id g l, Claimed pid id g l ∈ trace s /\ history s !! (id, g) = Some t)
  /\ (forall pid pid' id g l l', Claimed pid id g l ∈ trace s -> Claimed pid' id g l' ∈ trace s -> pid = pid' /\ l = l').
Proof.
  intros Hs. destruct (conn_inv_reachable _ s (starts_keep _ _ _) Hs) as [_ T _].
  split; [apply T|]. split; [apply T|apply T].
Qed.

(** C15: A rotated refresh token is never overwritten by a stale one.  Whenever a pair
    of tokens is stored, the worker that stored it had asked with exactly the refresh
    token the connection held until then, and SoundCloud answered with that pair. *)
Theorem stored_pair_replaces_its_token to_lowercase sc_error_text token_subject s pid id replaced access refresh :
  rtc (connection_step (worker_starts to_lowercase sc_error_text token_subject)) no_connections s ->
  Stored pid id replaced access refresh ∈ trace s ->
  exists r, Asked pid replaced (Ok (Some r)) ∈ trace s
            /\ tr_access_token r = Some access /\ tr_refresh_token r = Some refresh.
Proof.
  intros Hs. destruct (conn_inv_reachable _ s (starts_keep _ _ _) Hs) as [_ T _]. apply T.
Qed.
