(* ===== verification/ConnectionRuns.v ===== *)
(** * ConnectionRuns: a refresh from beginning to end

    One worker alone, with a clock that stands still, statements that succeed and a
    given answer of SoundCloud: what a refresh does to the connection on every
    branch, and what it answers.  The examples at the end run the same programs in
    the interleaved system of [ConnectionFacts]. *)

From Stdlib Require Import ZArith Lia String.
From stdpp Require Import base list numbers tactics sets gmap relations.
From S2P Require Import Prelude Text EntityRef WritePauses SyncRows SyncProgram Connections ConnectionFacts.
Local Open Scope Z_scope.

Section alone.
Context (now lease pid : Z) (ask : str -> result (option TokenResponse) SoundCloudError).

(** The answer of an effect, the world after and what it adds to the trace. *)
Definition respond {A} (w : World) (e : CEff A) : A * World * list Event :=
  match e in CEff A return A * World * list Event with
  | Clock => (now, w, [])
  | NewLease => (lease, w, [])
  | LoadForUser user => (Ok (load_for_user_sql now w user), w, [])
  | LoadById id => (Ok (load_by_id_sql w id), w, [])
  | CooldownOf app => (Ok (retry_after_sql now app w), w, [])
  | Penalize app minimum => let '(s, w1) := penalize_sql now app minimum w in (Ok s, w1, [])
  | ClaimRefresh id gen token l =>
      let '(o, w1) := claim_refresh_sql now id gen token l w in
      (Ok (r_refresh_generation <$> o), w1, match o with Some _ => [Claimed pid id gen l] | None => [] end)
  | AskRefresh token _ _ => (ask token, w, [Asked pid token (ask token)])
  | CompleteRefresh id l gen access refresh expires_at scope =>
      let '(o, w1) := complete_refresh_sql now id l gen access refresh expires_at scope w in
      (Ok (r_access_token <$> o), w1,
       match o with Some _ => [Stored pid id (refresh_of w id) access refresh] | None => [] end)
  | FailRetryable id l gen kind message seconds =>
      let '(o, w1) := fail_retryable_sql now id l gen kind message seconds w in
      (Ok (match o with Some _ => 1 | None => 0 end), w1, [])
  | FailReauthorization id l gen message =>
      let '(_, w1) := fail_reauthorization_sql now id l gen message w in (Ok tt, w1, [])
  | MarkRejected id token seconds =>
      let '(_, w1) := mark_rejected_sql now id token seconds w in (Ok tt, w1, [])
  end.

Lemma respond_answers {A} w (e : CEff A) a w' l : respond w e = (a, w', l) -> canswers now pid w e a w' l.
Proof.
  destruct e; cbn [respond canswers]; intros H;
    repeat match type of H with context [let '(_, _) := ?x in _] => destruct x as [??] end;
    simplify_eq; unfold db_answers; auto.
Qed.

Fixpoint crun {R} (p : cprog R) (w : World) : R * World :=
  match p with
  | Ret r => (r, w)
  | Vis e k => let '(a, w', _) := respond w e in crun (k a) w'
  end.

Lemma crun_bind {R T} (p : cprog R) (f : R -> cprog T) w :
  crun (p ≫= f) w = let '(r, w') := crun p w in crun (f r) w'.
Proof.
  revert w. induction p as [r|A e k IH]; intros w; [done|]. cbn. destruct (respond w e) as [[a w'] l]. apply IH.
Qed.

(** The events of the run, and the run as steps of the system. *)
Fixpoint ctrace {R} (p : cprog R) (w : World) : list Event :=
  match p with
  | Ret r => []
  | Vis e k => let '(a, w', l) := respond w e in l ++ ctrace (k a) w'
  end.

Lemma crun_steps starts (p : cprog Token) s :
  cprocs s !! pid = Some p ->
  exists s', rtc (connection_step starts) s s' /\ trace s' = trace s ++ ctrace p (world s)
             /\ cprocs s' !! pid = Some (Ret (crun p (world s)).1).
Proof.
  revert s. induction p as [r|A e k IH]; intros s Hp.
  - exists s. cbn. by rewrite app_nil_r.
  - cbn. destruct (respond (world s) e) as [[a w'] l] eqn:E. apply respond_answers in E.
    destruct (IH a {| world := w'; cprocs := <[pid := k a]> (cprocs s); pids := pids s; trace := trace s ++ l;
       history := match target e with Some id => noted id w' (history s) | None => history s end |})
      as (s' & Hs & Ht & Hp'); [apply lookup_insert_eq|].
    exists s'. split; [|split; [|exact Hp']].
    + eapply rtc_l; [|exact Hs]. by eapply conn_run.
    + rewrite Ht. cbn. by rewrite app_assoc.
Qed.

(** ** One refresh *)

Context (to_lowercase : str -> str) (sc_error_text : SoundCloudError -> str) (token_subject : str -> option str).

(** The tokens the answer grants this user. *)
Definition grant (user : str) (answer : result (option TokenResponse) SoundCloudError)
  : result RefreshedToken SoundCloudError :=
  match answer with
  | Err e => Err e
  | Ok response =>
      match refreshed_token now response with
      | Err e => Err e
      | Ok t =>
          if match token_subject (new_access_token t) with
             | Some subject => negb (bool_decide (extract_sc_id subject = user))
             | None => false
             end
          then Err InvalidTokenResponse else Ok t
      end
  end.

(** Nothing keeps the connection from being refreshed now. *)
Record refreshable (w : World) (r : ConnRow) (app : Z) (a : OAuthApp) : Prop := {
  not_dead : reauthorization_required r = false;
  not_leased : r_refresh_lease r = None;
  not_waiting : match r_retry_at r with Some at_ => at_ <= now | None => True end;
  has_app : r_oauth_app_id r = Some app;
  app_known : apps w !! app = Some a;
  app_on : active a = true;
  not_cooling : retry_after_sql now app w = None }.

(** The row a refresh that holds the lease leaves. *)
Definition granted_row (t : RefreshedToken) (r : ConnRow) : ConnRow :=
  set_outcome 0 0 None None None None
    (set_tokens (new_access_token t) (new_refresh_token t) (new_expires_at t) (default (r_scope r) (new_scope t)) now
       (set_refresh (r_refresh_generation r + 2) None now r)).

Definition leased_row (r : ConnRow) : ConnRow :=
  set_refresh (r_refresh_generation r + 1) (Some (lease, now + REFRESH_LEASE_SECONDS * second)) now r.

Lemma seconds_until_past deadline : deadline <= now -> seconds_until now deadline = None.
Proof.
  intros H. unfold seconds_until. destruct (Z.ltb_spec 0 (Z.quot (deadline - now) 1000)) as [Hq|]; [|done].
  assert (Z.quot (deadline - now) 1000 <= 0); [|lia].
  rewrite <- (Z.opp_involutive (deadline - now)), Z.quot_opp_l by lia.
  pose proof (Z.quot_pos (- (deadline - now)) 1000 ltac:(lia) ltac:(lia)). lia.
Qed.

Lemma crun_db {A B} (e : CEff (result A unit)) (f : A -> cprog (result B ConnectionError)) w a w' l :
  respond w e = (Ok a, w', l) -> crun (db e f) w = crun (f a) w'.
Proof. intros H. cbn. by rewrite H. Qed.

Lemma crun_refresh w id r app a :
  conns w !! id = Some r -> refreshable w r app a ->
  crun (refresh to_lowercase sc_error_text token_subject (loaded w id r)) w =
  crun (refresh_leased to_lowercase sc_error_text token_subject (loaded w id r) (client_id a) (client_secret a)
          lease (r_refresh_generation r + 1) app)
    (with_conns (insert id (leased_row r)) w).
Proof.
  intros Hr [D L W A K O C]. unfold refresh. cbn [c_last_refresh_error_kind loaded].
  unfold reauthorization_required in D. rewrite D. unfold waiting_error. rewrite crun_bind. cbn [crun trigger respond].
  unfold active_refresh_lease_seconds, retry_seconds. cbn [c_refresh_lease c_retry_at loaded]. rewrite L. cbn [mbind option_bind].
  rewrite crun_bind. cbn [crun trigger respond].
  assert ((r_retry_at r ≫= seconds_until now) = None) as ->.
  { destruct (r_retry_at r); [|done]. by apply seconds_until_past. }
  assert (refresh_credentials (loaded w id r) = Some (client_id a, client_secret a)) as ->.
  { unfold refresh_credentials. cbn [c_oauth_app_id c_app_active c_client_id c_client_secret loaded].
    rewrite A. cbn [mbind option_bind]. rewrite K. cbn. by rewrite O. }
  cbn [c_oauth_app_id loaded]. rewrite A.
  rewrite (crun_db _ _ w None w []) by (cbn [respond]; by rewrite C).
  unfold claim_and_refresh. rewrite crun_bind. cbn [crun trigger respond].
  rewrite (crun_db _ _ w (Some (r_refresh_generation r + 1)) (with_conns (insert id (leased_row r)) w)
             [Claimed pid id (r_refresh_generation r) lease]); [done|].
  cbn [respond c_id c_refresh_generation c_access_token loaded].
  unfold claim_refresh_sql, update_conn. rewrite Hr, Z.eqb_refl, bool_decide_eq_true_2 by done.
  unfold unleased_at, reauthorization_required. rewrite L, D.
  assert (match r_retry_at r with Some at_ => at_ <=? now | None => true end = true) as ->; [|done].
  destruct (r_retry_at r); [|done]. by apply Z.leb_le.
Qed.

(** *** The statements under the lease *)

Lemma holds_leased r : holds lease (r_refresh_generation r + 1) (leased_row r) = true.
Proof. unfold holds, leased_row. cbn. by rewrite bool_decide_eq_true_2, Z.eqb_refl. Qed.

Lemma update_leased w id r p f :
  p (leased_row r) = true ->
  update_conn id p f (with_conns (insert id (leased_row r)) w)
  = (Some (f (leased_row r)), with_conns (insert id (f (leased_row r))) w).
Proof.
  intros Hp. unfold update_conn, with_conns. cbn. rewrite lookup_insert_eq, Hp. cbn. by rewrite insert_insert_eq.
Qed.

Abbreviation after_claim w id r := (with_conns (insert id (leased_row r)) w).

Lemma complete_leased w id r t :
  crun (complete_refresh (loaded w id r) lease (r_refresh_generation r + 1) t) (after_claim w id r)
  = (Ok {| token_value := new_access_token t; oauth_app_id := r_oauth_app_id r |},
     with_conns (insert id (granted_row t r)) w).
Proof.
  unfold complete_refresh. erewrite crun_db.
  2:{ cbn [respond c_id c_scope loaded]. unfold complete_refresh_sql. rewrite update_leased by apply holds_leased.
      reflexivity. }
  cbn. f_equal. unfold granted_row, leased_row, set_outcome, set_tokens, set_refresh, with_conns. cbn.
  by rewrite <- Z.add_assoc.
Qed.

(** The rows a failed refresh leaves. *)
Definition failed_row (e : SoundCloudError) (seconds : Z) (r : ConnRow) : ConnRow :=
  set_outcome (r_refresh_failure_count r + 1) 0 None (Some (failure_kind e)) (Some (bounded_message (sc_error_text e)))
    (Some (now + seconds * second)) (set_refresh (r_refresh_generation r + 1) None now r).

Definition rejected_row (r : ConnRow) : ConnRow :=
  set_outcome (Z.min (r_refresh_failure_count r) 2147483646 + 1) (Z.min (r_refresh_rejection_count r) 2147483646 + 1)
    (Some (default now (r_first_refresh_rejection_at r)))
    (Some (if confirmed now r then lit "reauthorization_required" else lit "temporarily_unavailable"))
    (Some (bounded_message (lit "SoundCloud rejected the refresh token")))
    (if confirmed now r then None else Some (now + 10 * minute))
    (set_refresh (r_refresh_generation r + 1) None now r).

(** What the worker is told after SoundCloud rejected the refresh token. *)
Definition rejected_answer (r : ConnRow) : Token :=
  if now <? r_expires_at r then Ok {| token_value := r_access_token r; oauth_app_id := r_oauth_app_id r |}
  else if confirmed now r then Err ReauthorizationRequired else Err (TemporarilyUnavailable 600).

(** The wait after any other failure: the user's or the application's. *)
Definition wanted_wait (w : World) (id : Z) (r : ConnRow) (e : SoundCloudError) : Z :=
  clamp_i32 (default (failure_wait (loaded w id r) e)
               (app_wide_retry_seconds to_lowercase e (failure_wait (loaded w id r) e))).

Lemma refresh_backoff_bounds n : 30 <= refresh_backoff n <= 900.
Proof.
  unfold refresh_backoff, TRANSIENT_RETRY_MIN_SECONDS, TRANSIENT_RETRY_MAX_SECONDS.
  pose proof (Z.pow_pos_nonneg 2 (Z.min (Z.max n 0) 5) ltac:(lia) ltac:(lia)). lia.
Qed.

Lemma clamp_bounds n : 1 <= clamp_i32 n <= i32_max.
Proof. unfold clamp_i32, i32_max. lia. Qed.

Lemma failure_wait_bounds c e : 1 <= failure_wait c e <= i32_max.
Proof.
  unfold failure_wait. destruct (is_rate_limited e); [apply clamp_bounds|].
  pose proof (refresh_backoff_bounds (c_refresh_failure_count c)). unfold i32_max. lia.
Qed.

Lemma wait_seconds_least m at_ : 1 <= m -> now + m * second <= at_ -> m <= wait_seconds now at_.
Proof.
  intros Hm H. unfold wait_seconds, second in *.
  pose proof (Z.div_le_mono (- (at_ - now)) (- m * 1000000) 1000000 ltac:(lia) ltac:(lia)) as Hd.
  rewrite Z.div_mul in Hd by lia. lia.
Qed.

Lemma fail_leased w id r e s (cool : World -> World) :
  (forall f w, cool (with_conns f w) = with_conns f (cool w)) ->
  crun (db (FailRetryable id lease (r_refresh_generation r + 1) (failure_kind e) (bounded_message (sc_error_text e)) s)
          (fun n => if n =? 0 then reconcile_refresh_race (loaded w id r)
                    else mret (Err (if is_rate_limited e then RateLimited s else TemporarilyUnavailable s) : Token)))
    (cool (after_claim w id r))
  = (Err (if is_rate_limited e then RateLimited s else TemporarilyUnavailable s),
     with_conns (insert id (failed_row e s r)) (cool w)).
Proof.
  intros Hc. rewrite Hc. erewrite crun_db.
  2:{ cbn [respond]. unfold fail_retryable_sql. rewrite update_leased by apply holds_leased. reflexivity. }
  done.
Qed.

Lemma retryable_leased w id r app e :
  exists s w1, crun (record_retryable to_lowercase sc_error_text (loaded w id r) lease (r_refresh_generation r + 1) app e)
                 (after_claim w id r)
               = (Err (if is_rate_limited e then RateLimited s else TemporarilyUnavailable s),
                  with_conns (insert id (failed_row e s r)) w1)
    /\ conns w1 = conns w /\ wanted_wait w id r e <= s <= i32_max.
Proof.
  unfold record_retryable, wanted_wait. pose proof (failure_wait_bounds (loaded w id r) e) as Hw.
  destruct (app_wide_retry_seconds _ _ _) as [minimum|].
  - erewrite crun_db by (cbn [respond]; unfold penalize_sql; reflexivity). cbn [c_id loaded].
    set (cool := fun w0 => (penalize_sql now app minimum w0).2).
    eexists _, (cool w). split; [exact (fail_leased w id r e _ cool ltac:(done))|]. split; [done|].
    split; [|apply clamp_bounds]. change (default _ (Some minimum)) with minimum.
    assert (Z.max 1 minimum <= wait_seconds now (cd_retry_at
      match cooldowns (after_claim w id r) !! app with
      | Some c => {| cd_retry_at := Z.max (cd_retry_at c) (now + Z.max 1 minimum * second);
                     cd_failure_count := if now <? cd_retry_at c then Z.min (cd_failure_count c + 1) 31 else 1 |}
      | None => {| cd_retry_at := now + Z.max 1 minimum * second; cd_failure_count := 1 |}
      end)) as Hm.
    { apply wait_seconds_least; [lia|]. destruct (cooldowns _ !! app); cbn; lia. }
    unfold clamp_i32, Datatypes.id in *. lia.
  - exists (failure_wait (loaded w id r) e), w. split; [exact (fail_leased w id r e _ (fun w0 => w0) ltac:(done))|].
    split; [done|]. cbn. unfold clamp_i32. lia.
Qed.

Lemma seconds_until_ahead n : 0 < n -> n * 1000 + 999 <= i64_max -> seconds_until now (now + n * second) = Some n.
Proof.
  intros Hn Hmax. unfold seconds_until, second. replace (now + n * 1000000 - now) with (n * 1000 * 1000) by lia.
  rewrite Z.quot_mul by lia. rewrite (proj2 (Z.ltb_lt _ _)) by lia. f_equal. rewrite Z.min_l by done.
  rewrite Z.div_add_l by lia. change (999 / 1000) with 0. lia.
Qed.

Lemma rejected_leased w id r app e :
  is_invalid_grant e = true -> reauthorization_required r = false ->
  crun (record_refresh_failure to_lowercase sc_error_text (loaded w id r) lease (r_refresh_generation r + 1) app e)
    (after_claim w id r)
  = (rejected_answer r, with_conns (insert id (rejected_row r)) w).
Proof.
  intros He Hd. unfold record_refresh_failure. rewrite He. erewrite crun_db.
  2:{ cbn [respond c_id loaded]. unfold fail_reauthorization_sql. rewrite update_leased; [reflexivity|].
      rewrite holds_leased. unfold unleased_at, leased_row, REFRESH_LEASE_SECONDS, second. cbn.
      rewrite (proj2 (Z.leb_gt _ _)) by lia. done. }
  change (set_outcome _ _ _ _ _ _ _) with (rejected_row r).
  unfold reconcile_refresh_race, reload. erewrite crun_db.
  2:{ cbn [respond c_id loaded]. unfold load_by_id_sql. cbn [conns with_conns]. rewrite lookup_insert_eq. reflexivity. }
  cbn [fmap option_fmap option_map]. rewrite crun_bind. cbn [crun trigger respond].
  assert (confirmed now r = true -> r_expires_at r <= now) as Hconf
    by (unfold confirmed; rewrite !andb_true_iff, !Z.leb_le; tauto).
  unfold token_is_usable, rejected_answer. cbn [c_refresh_generation c_expires_at c_last_refresh_error_kind loaded].
  cbn [rejected_row set_outcome set_refresh r_refresh_generation r_expires_at r_last_refresh_error_kind].
  rewrite (proj2 (Z.eqb_neq (r_refresh_generation r + 1) (r_refresh_generation r))) by lia. cbn [negb orb].
  destruct (Z.ltb_spec now (r_expires_at r)) as [Hexp|Hexp].
  - destruct (confirmed now r) eqn:Ec; [specialize (Hconf eq_refl); lia|]. done.
  - cbn [andb]. destruct (confirmed now r) eqn:Ec; [done|].
    change (kind_is (Some (lit "temporarily_unavailable")) "reauthorization_required") with false. cbn [negb].
    unfold waiting_error. rewrite crun_bind. cbn [crun trigger respond].
    change (active_refresh_lease_seconds now _) with (@None Z). cbv iota. rewrite crun_bind. cbn [crun trigger respond].
    unfold retry_seconds. cbn [c_retry_at loaded rejected_row set_outcome r_retry_at]. rewrite Ec. cbn [mbind option_bind].
    change (10 * minute) with (600 * second). rewrite seconds_until_ahead by (unfold i64_max; lia).
    unfold kind_is. cbn [c_last_refresh_error_kind loaded rejected_row set_outcome r_last_refresh_error_kind]. by rewrite Ec.
Qed.

(** What a refresh does, on every branch.  A connection that may be refreshed is
    leased and released again: granted tokens are stored with everything reset; a
    rejected refresh token is counted, and declared dead only on the confirmed
    evidence; any other failure keeps the tokens and postpones the next try by the
    user's or the application's wait.  Other connections are not touched. *)
Theorem refresh_alone w id r app a :
  conns w !! id = Some r -> refreshable w r app a ->
  let '(res, w') := crun (refresh to_lowercase sc_error_text token_subject (loaded w id r)) w in
  (forall id', id' <> id -> conns w' !! id' = conns w !! id')
  /\ match grant (r_soundcloud_user_id r) (ask (r_refresh_token r)) with
     | Ok t => conns w' !! id = Some (granted_row t r)
               /\ res = Ok {| token_value := new_access_token t; oauth_app_id := Some app |}
     | Err e =>
         if is_invalid_grant e then conns w' !! id = Some (rejected_row r) /\ res = rejected_answer r
         else exists s, wanted_wait w id r e <= s <= i32_max /\ conns w' !! id = Some (failed_row e s r)
              /\ res = Err (if is_rate_limited e then RateLimited s else TemporarilyUnavailable s)
     end.
Proof.
  intros Hr Hok. pose proof Hok as [D L W A K O C]. rewrite (crun_refresh w id r app a Hr Hok).
  unfold refresh_leased. rewrite crun_bind. cbn [crun trigger respond c_refresh_token loaded].
  rewrite crun_bind. cbn [crun trigger respond].
  assert (forall e, grant (r_soundcloud_user_id r) (ask (r_refresh_token r)) = Err e ->
    let '(res, w') := crun (record_refresh_failure to_lowercase sc_error_text (loaded w id r) lease
                              (r_refresh_generation r + 1) app e) (after_claim w id r) in
    (forall id', id' <> id -> conns w' !! id' = conns w !! id')
    /\ if is_invalid_grant e then conns w' !! id = Some (rejected_row r) /\ res = rejected_answer r
       else exists s, wanted_wait w id r e <= s <= i32_max /\ conns w' !! id = Some (failed_row e s r)
            /\ res = Err (if is_rate_limited e then RateLimited s else TemporarilyUnavailable s)) as Hfail.
  { intros e _. destruct (is_invalid_grant e) eqn:Ei.
    - rewrite rejected_leased by done. cbn. split; [intros id' Hne; by rewrite lookup_insert_ne|].
      by rewrite lookup_insert_eq.
    - unfold record_refresh_failure. rewrite Ei.
      destruct (retryable_leased w id r app e) as (s & w1 & -> & Hw1 & Hs). cbn. rewrite Hw1.
      split; [intros id' Hne; by rewrite lookup_insert_ne|]. exists s. by rewrite lookup_insert_eq. }
  unfold grant in *. destruct (ask (r_refresh_token r)) as [response|e]; [|by apply Hfail].
  destruct (refreshed_token now response) as [t|e]; [|by apply Hfail].
  cbn [c_soundcloud_user_id loaded]. destruct (match token_subject _ with Some _ => _ | None => _ end); [by apply Hfail|].
  rewrite complete_leased. cbn. rewrite A. split; [intros id' Hne; by rewrite lookup_insert_ne|].
  by rewrite lookup_insert_eq.
Qed.
End alone.

(** ** Examples *)

Module Sample.
Definition text (e : SoundCloudError) : str := [].
Definition subject (token : str) : option str := None.
Definition app : OAuthApp := {| client_id := lit "id"; client_secret := lit "secret"; active := true |}.

Definition row (expires_at : Z) : ConnRow :=
  {| r_soundcloud_user_id := lit "7"; r_access_token := lit "old"; r_refresh_token := lit "r1";
     r_expires_at := expires_at; r_scope := []; r_refresh_generation := 1; r_refresh_failure_count := 0;
     r_refresh_rejection_count := 0; r_first_refresh_rejection_at := None; r_refresh_lease := None;
     r_last_refresh_success_at := None; r_last_refresh_error_kind := None; r_last_refresh_error := None;
     r_retry_at := None; r_oauth_app_id := Some 5; r_created_at := 0; r_updated_at := 0; r_login_v := 0 |}.

Definition w (expires_at : Z) : World :=
  {| conns := {[1 := row expires_at]}; apps := {[5 := app]}; cooldowns := ∅; unsubscribed := ∅ |}.

Definition response : TokenResponse :=
  {| tr_access_token := Some (lit "new"); tr_refresh_token := Some (lit "r2"); tr_expires_in := Some 3600;
     tr_scope := None |}.
Definition granting (token : str) : result (option TokenResponse) SoundCloudError := Ok (Some response).
Definition rejecting_grant (token : str) : result (option TokenResponse) SoundCloudError :=
  Err (Api 400 (VObject [(lit "error", VString (lit "invalid_grant"))]) None).

Definition token_worker : cprog Token := access_token Datatypes.id text subject (lit "soundcloud:users:7").

(** An expired token is refreshed and stored. *)
Lemma refreshed_once :
  exists s, rtc (connection_step (worker_starts Datatypes.id text subject)) no_connections s
            /\ trace s = [Claimed 3 1 1 9; Asked 3 (lit "r1") (Ok (Some response)); Stored 3 1 (lit "r1") (lit "new") (lit "r2")].
Proof.
  destruct (crun_steps 0 9 3 granting (worker_starts Datatypes.id text subject) token_worker
    {| world := w 0; cprocs := {[3 := token_worker]}; pids := {[3]}; trace := []; history := {[(1, 1) := lit "r1"]} |})
    as (s & Hs & Ht & _); [done|].
  exists s. split; [|rewrite Ht; vm_compute; reflexivity].
  eapply rtc_l; [apply (conn_apps _ _ {| conns := ∅; apps := {[5 := app]}; cooldowns := ∅; unsubscribed := ∅ |}); done|].
  eapply rtc_l; [apply (conn_insert _ _ 1 (row 0)); done|].
  eapply rtc_l; [apply (conn_start _ _ 3 token_worker); [set_solver|left; by eexists]|].
  exact Hs.
Qed.

Lemma refreshes_serialized_witness :
  exists s, rtc (connection_step (worker_starts Datatypes.id text subject)) no_connections s
    /\ Asked 3 (lit "r1") (Ok (Some response)) ∈ trace s
    /\ exists i g l, Claimed 3 i g l ∈ trace s /\ history s !! (i, g) = Some (lit "r1").
Proof.
  destruct refreshed_once as (s & Hs & Ht). exists s.
  assert (Asked 3 (lit "r1") (Ok (Some response)) ∈ trace s) as Hin by (rewrite Ht; right; left).
  split; [exact Hs|]. split; [exact Hin|].
  exact (proj1 (proj2 (refreshes_serialized Datatypes.id text subject s Hs)) 3 (lit "r1") (Ok (Some response)) Hin).
Defined.

Lemma stored_pair_replaces_its_token_witness :
  exists s, rtc (connection_step (worker_starts Datatypes.id text subject)) no_connections s
    /\ Stored 3 1 (lit "r1") (lit "new") (lit "r2") ∈ trace s
    /\ exists r, Asked 3 (lit "r1") (Ok (Some r)) ∈ trace s
                /\ tr_access_token r = Some (lit "new") /\ tr_refresh_token r = Some (lit "r2").
Proof.
  destruct refreshed_once as (s & Hs & Ht). exists s.
  assert (Stored 3 1 (lit "r1") (lit "new") (lit "r2") ∈ trace s) as Hin by (rewrite Ht; right; right; left).
  split; [exact Hs|]. split; [exact Hin|].
  exact (stored_pair_replaces_its_token Datatypes.id text subject s 3 1 (lit "r1") (lit "new") (lit "r2") Hs Hin).
Defined.

Lemma sample_refreshable : refreshable 0 (w 0) (row 0) 5 app.
Proof. split; done. Qed.

Lemma refresh_alone_witness :
  conns (w 0) !! 1 = Some (row 0) /\ refreshable 0 (w 0) (row 0) 5 app
  /\ let '(res, w') := crun 0 9 3 granting (refresh Datatypes.id text subject (loaded (w 0) 1 (row 0))) (w 0) in
     (forall id', id' <> 1 -> conns w' !! id' = conns (w 0) !! id')
     /\ match grant 0 subject (r_soundcloud_user_id (row 0)) (granting (r_refresh_token (row 0))) with
        | Ok t => conns w' !! 1 = Some (granted_row 0 t (row 0))
                  /\ res = Ok {| token_value := new_access_token t; oauth_app_id := Some 5 |}
        | Err e =>
            if is_invalid_grant e then conns w' !! 1 = Some (rejected_row 0 (row 0)) /\ res = rejected_answer 0 (row 0)
            else exists s, wanted_wait Datatypes.id (w 0) 1 (row 0) e <= s <= i32_max
                 /\ conns w' !! 1 = Some (failed_row 0 text e s (row 0))
                 /\ res = Err (if is_rate_limited e then RateLimited s else TemporarilyUnavailable s)
        end.
Proof.
  split; [reflexivity|]. split; [apply sample_refreshable|].
  exact (refresh_alone 0 9 3 granting Datatypes.id text subject (w 0) 1 (row 0) 5 app eq_refl sample_refreshable).
Defined.

(** C37: A rejected access token can come back as the refreshed one.  SoundCloud rejects
    the access token before it expires and then the refresh token too: the worker
    counts the rejection, which replaces the [token_rejected] mark, and takes its own
    claim of the refresh for somebody else's, so that [refresh_rejected_token] answers
    with the very token that was rejected. *)
Theorem rejected_token_returned :
  (crun 0 9 3 rejecting_grant (refresh_rejected_token Datatypes.id text subject (lit "7") (lit "old")) (w 1000)).1
  = Ok {| token_value := lit "old"; oauth_app_id := Some 5 |}.
Proof. vm_compute. reflexivity. Qed.
End Sample.
