(* ===== verification/RedisClock.v ===== *)
(** * RedisClock: keys that expire, on the Redis server

    The counters of the rate limits and the one-time claims live in Redis keys with
    a time to live.  Redis is not part of the repository: a database is a parameter
    with the commands those scripts call, each at the server's time in milliseconds
    (a script sees one time throughout).  The laws state the documented effect of a
    command on what a key holds, an integer and the time it expires at.  Whether a
    key is still there in the very millisecond it expires at is left open.
    [gmap_clock] shows that the laws can hold. *)

From Stdlib Require Import ZArith Lia.
From stdpp Require Import base list numbers option tactics gmap fin_maps sets.
From S2P Require Import Prelude Text.
Local Open Scope Z_scope.

(** The integer a key holds, and when it expires. *)
Definition rentry : Type := Z * option Z.

Class RedisClock (db : Type) := {
  peek : db -> Z -> str -> option rentry;
  get_int : str -> Z -> db -> option Z;
  pttl : str -> Z -> db -> Z;
  pexpire : str -> Z -> Z -> db -> db;
  incrby : str -> Z -> Z -> db -> Z * db;
  set_nx_px : str -> Z -> Z -> Z -> db -> bool * db;

  peek_live d now k n e : peek d now k = Some (n, Some e) -> now <= e;
  peek_later d now now' k : now <= now' ->
    peek d now' k = peek d now k
    \/ exists n e, peek d now k = Some (n, Some e) /\ e <= now' /\ peek d now' k = None;
  peek_stays d now now' k n e : now <= now' -> peek d now k = Some (n, e) ->
    (forall t, e = Some t -> now' < t) -> peek d now' k = Some (n, e);
  peek_gone d now now' k n e : now <= now' -> peek d now k = Some (n, Some e) -> e < now' -> peek d now' k = None;

  get_int_law k now d : get_int k now d = option_map fst (peek d now k);
  pttl_law k now d :
    pttl k now d = match peek d now k with
                   | None => -2
                   | Some (_, None) => -1
                   | Some (_, Some e) => e - now
                   end;
  pexpire_law k w now d k' : 0 < w -> now + w <= i64_max ->
    peek (pexpire k w now d) now k'
    = if decide (k' = k) then option_map (fun x => (x.1, Some (now + w))) (peek d now k) else peek d now k';
  incrby_result k c now d : (incrby k c now d).1 = from_option fst 0 (peek d now k) + c;
  incrby_law k c now d k' :
    peek (incrby k c now d).2 now k'
    = if decide (k' = k) then Some (from_option fst 0 (peek d now k) + c, peek d now k ≫= snd)
      else peek d now k';
  set_nx_result k v ttl now d : (set_nx_px k v ttl now d).1 = bool_decide (peek d now k = None);
  set_nx_law k v ttl now d k' : 0 < ttl ->
    peek (set_nx_px k v ttl now d).2 now k'
    = if decide (k' = k /\ peek d now k = None) then Some (v, Some (now + ttl)) else peek d now k'
}.

(** ** What follows for any server *)

Section clock.
Context `{RedisClock db}.
Implicit Types (d : db) (now : Z).

Lemma peek_none_later d now now' k : now <= now' -> peek d now k = None -> peek d now' k = None.
Proof. intros Hn Hk. destruct (peek_later d now now' k Hn) as [->|(? & ? & ? & _)]; congruence. Qed.

Lemma peek_some_earlier d now now' k x : now <= now' -> peek d now' k = Some x -> peek d now k = Some x.
Proof. intros Hn Hk. destruct (peek_later d now now' k Hn) as [<-|(? & ? & _ & _ & ?)]; congruence. Qed.
End clock.

(** ** An instance: a table of entries, a key being there up to its expiry *)

Definition clock_peek (d : gmap str rentry) (now : Z) (k : str) : option rentry :=
  match d !! k with
  | Some (n, Some e) => if now <=? e then Some (n, Some e) else None
  | o => o
  end.

Lemma clock_peek_insert d now k x k' :
  (forall e, x.2 = Some e -> now <= e) ->
  clock_peek (<[k := x]> d) now k' = if decide (k' = k) then Some x else clock_peek d now k'.
Proof.
  intros Hx. unfold clock_peek. case_decide as E; [subst; rewrite lookup_insert_eq|by rewrite lookup_insert_ne].
  destruct x as [n [e|]]; [|done]. cbn in Hx. destruct (Z.leb_spec now e); [done|]. specialize (Hx e eq_refl). lia.
Qed.

#[export] Program Instance gmap_clock : RedisClock (gmap str rentry) := {|
  peek := clock_peek;
  get_int k now d := option_map fst (clock_peek d now k);
  pttl k now d := match clock_peek d now k with
                  | None => -2 | Some (_, None) => -1 | Some (_, Some e) => e - now
                  end;
  pexpire k w now d := match clock_peek d now k with
                       | Some (n, _) => <[k := (n, Some (now + w))]> d
                       | None => d
                       end;
  incrby k c now d :=
    let n := from_option fst 0 (clock_peek d now k) + c in (n, <[k := (n, clock_peek d now k ≫= snd)]> d);
  set_nx_px k v ttl now d :=
    match clock_peek d now k with Some _ => (false, d) | None => (true, <[k := (v, Some (now + ttl))]> d) end
|}.
Next Obligation.
  unfold clock_peek. intros d now k n e H. destruct (d !! k) as [[n' [e'|]]|]; simplify_eq.
  destruct (Z.leb_spec now e'); by simplify_eq.
Qed.
Next Obligation.
  unfold clock_peek. intros d now now' k Hn. destruct (d !! k) as [[n' [e'|]]|]; [|by left..].
  destruct (Z.leb_spec now' e'), (Z.leb_spec now e'); try (by left); try lia. right. exists n', e'. split_and!; [done|lia|done].
Qed.
Next Obligation.
  unfold clock_peek. intros d now now' k n e Hn H Ht. destruct (d !! k) as [[n' [e'|]]|]; [|done..].
  destruct (Z.leb_spec now e'); simplify_eq. specialize (Ht e' eq_refl). by destruct (Z.leb_spec now' e'); [|lia].
Qed.
Next Obligation.
  unfold clock_peek. intros d now now' k n e Hn H Ht. destruct (d !! k) as [[n' [e'|]]|]; [|done..].
  destruct (Z.leb_spec now e'); simplify_eq. by destruct (Z.leb_spec now' e); [lia|].
Qed.
Next Obligation. done. Qed.
Next Obligation. cbn. intros. by repeat case_match. Qed.
Next Obligation.
  cbn. intros k w now d k' Hw _. destruct (clock_peek d now k) as [[n e]|] eqn:E.
  - rewrite clock_peek_insert; [done|]. intros e' [= <-]. lia.
  - case_decide; by subst.
Qed.
Next Obligation. done. Qed.
Next Obligation.
  cbn. intros k c now d k'. rewrite clock_peek_insert; [done|]. cbn. intros e.
  unfold clock_peek. destruct (d !! k) as [[n' [e'|]]|]; try done. destruct (Z.leb_spec now e'); [|done]. by intros [= <-].
Qed.
Next Obligation. cbn. intros k v ttl now d. by destruct (clock_peek d now k). Qed.
Next Obligation.
  cbn. intros k v ttl now d k' Ht. destruct (clock_peek d now k) eqn:E; cbn.
  - by rewrite decide_False by naive_solver.
  - rewrite clock_peek_insert by (cbn; intros ? [= <-]; lia). repeat case_decide; naive_solver.
Qed.

(** * A counter that lives for a window

    The limits of the API count requests in fixed windows: a counter starts with the
    first request, is dropped a window later and refuses what would take it over its
    limit.  [counter_inv] relates such a counter to the history of what was admitted
    on it, whatever it is kept in (a Redis key, a field under a mutex); two of its
    lives can fall into one stretch of a window's length and no more, so such a stretch
    admits at most twice the limit ([counter_inv_bound]). *)

(** ** One counter *)

(** What was admitted, newest first: the time and the cost. *)
Definition history : Type := list (Z * Z).

Fixpoint total (p : Z -> bool) (h : history) : Z :=
  match h with [] => 0 | (t, cost) :: h' => (if p t then cost else 0) + total p h' end.

Definition costs_ok (h : history) : Prop := Forall (fun x => 0 <= x.2) h.

Lemma total_app p h h' : total p (h ++ h') = total p h + total p h'.
Proof. induction h as [|[t c] h IH]; cbn; lia. Qed.

Lemma total_mono (p q : Z -> bool) h :
  costs_ok h -> (forall t, t ∈ h.*1 -> p t = true -> q t = true) -> total p h <= total q h.
Proof.
  induction 1 as [|[t c] h Hc _ IH]; intros Hpq; cbn; [lia|]. cbn in Hc.
  assert (total p h <= total q h) by (apply IH; set_solver). specialize (Hpq t).
  destruct (p t), (q t); try lia. discriminate Hpq; set_solver.
Qed.

Lemma total_none p h : (forall t, t ∈ h.*1 -> p t = false) -> total p h = 0.
Proof.
  induction h as [|[t c] h IH]; intros Hp; cbn; [done|]. rewrite (Hp t) by set_solver. rewrite IH by set_solver. lia.
Qed.

Definition everything : Z -> bool := fun _ => true.
Definition after (a : Z) : Z -> bool := fun t => a <? t.
Definition within (a w : Z) : Z -> bool := fun t => (a <=? t) && (t <? a + w).

Section counter.
Context (W L : Z).

(** What a counter holds at [now] against what was admitted on it: the admissions of
    its present life [cur] add up to its value, all earlier ones [old] lie before that
    life began, and those of them in the window before it fit the limit. *)
Definition counter_inv (h : history) (o : option rentry) (now : Z) : Prop :=
  costs_ok h
  /\ (forall t, t ∈ h.*1 -> t <= now)
  /\ (forall a, total (within a W) h <= 2 * L)
  /\ match o with
     | Some (n, Some e) =>
         exists cur old, h = cur ++ old /\ total everything cur = n /\ 0 <= n <= L
           /\ e - W <= now /\ (forall t, t ∈ old.*1 -> t <= e - W) /\ total (after (e - 2 * W)) old <= L
     | Some (_, None) => False
     | None => total (after (now - W)) h <= L
     end.

Lemma counter_inv_start now : 0 <= L -> counter_inv [] None now.
Proof.
  intros HL. split; [constructor|]. split_and!; [cbn; set_solver|cbn; lia|cbn; lia].
Qed.

Lemma counter_inv_bound h o now a : counter_inv h o now -> total (within a W) h <= 2 * L.
Proof. intros (_ & _ & H & _). apply H. Qed.

(** What is left of a counter later: the same, or nothing once it expired. *)
Definition faded (o o' : option rentry) (now' : Z) : Prop :=
  o' = o \/ exists n e, o = Some (n, Some e) /\ e <= now' /\ o' = None.

Lemma counter_inv_later h o o' now now' :
  now <= now' -> faded o o' now' -> counter_inv h o now -> counter_inv h o' now'.
Proof.
  intros Hn Hf (Hc & Ht & Hw & Ho). split_and!; [done|intros t Hin; specialize (Ht t Hin); lia|done|].
  destruct Hf as [->|(n & e & -> & He & ->)].
  - destruct o as [[n [e|]]|]; [|done|].
    + destruct Ho as (cur & old & Ho). exists cur, old. naive_solver lia.
    + transitivity (total (after (now - W)) h); [|done]. apply total_mono; [done|]. unfold after. intros. lia.
  - destruct Ho as (cur & old & -> & Hs & HL & _ & Hold & _). apply Forall_app in Hc as [Hc _].
    rewrite total_app, (total_none _ old); [|unfold after; intros t Hin; specialize (Hold t Hin); lia].
    assert (total (after (now' - W)) cur <= total everything cur) by (apply total_mono; [done|done]). lia.
Qed.

(** The value a counter has, [0] when it is not there. *)
Definition held (o : option rentry) : Z := from_option fst 0 o.

Definition spent (o : option rentry) (cost now : Z) : option rentry :=
  Some (held o + cost, Some (if held o =? 0 then now + W else default (now + W) (o ≫= snd))).

(** The admissions of the window before [now] fit the limit together with the value. *)
Lemma recent_fits h o now a :
  0 < W -> counter_inv h o now -> now - W < a -> total (within a W) h <= L + held o.
Proof.
  intros HW (Hc & Ht & _ & Ho) Ha. destruct o as [[n [e|]]|]; [|done|]; cbn [held from_option fst].
  - destruct Ho as (cur & old & -> & Hs & HL & He & Hold & Hb). apply Forall_app in Hc as [Hc1 Hc2].
    rewrite total_app.
    assert (total (within a W) cur <= total everything cur) by (apply total_mono; done).
    assert (total (within a W) old <= total (after (e - 2 * W)) old).
    { apply total_mono; [done|]. unfold within, after. intros. lia. }
    lia.
  - assert (total (within a W) h <= total (after (now - W)) h).
    { apply total_mono; [done|]. unfold within, after. intros. lia. }
    lia.
Qed.

(** A life that begins now, after [h]. *)
Lemma fresh_life h o now cost :
  0 < W -> counter_inv h o now -> held o = 0 -> 0 <= cost <= L ->
  exists cur old, (now, cost) :: h = cur ++ old /\ total everything cur = cost /\ 0 <= cost <= L
    /\ now + W - W <= now /\ (forall t, t ∈ old.*1 -> t <= now + W - W) /\ total (after (now + W - 2 * W)) old <= L.
Proof.
  intros HW Hi H0 Hcost. pose proof Hi as (Hc & Ht & _ & Ho). exists [(now, cost)], h.
  split_and!; cbn; try lia; [done|intros t Hin; specialize (Ht t Hin); lia|].
  destruct o as [[n [e|]]|]; [|done|].
  - cbn in H0. subst n. destruct Ho as (cur & old & -> & Hs & _ & He & Hold & Hb).
    apply Forall_app in Hc as [Hc1 Hc2]. rewrite total_app.
    assert (total (after (now + W - 2 * W)) cur <= total everything cur) by (apply total_mono; done).
    assert (total (after (now + W - 2 * W)) old <= total (after (e - 2 * W)) old).
    { apply total_mono; [done|]. unfold after. intros. lia. }
    lia.
  - by replace (now + W - 2 * W) with (now - W) by lia.
Qed.

Lemma spend_history h o now cost :
  0 < W -> counter_inv h o now -> 0 <= cost -> held o + cost <= L ->
  costs_ok ((now, cost) :: h) /\ (forall t, t ∈ ((now, cost) :: h).*1 -> t <= now)
  /\ (forall a, total (within a W) ((now, cost) :: h) <= 2 * L).
Proof.
  intros HW Hi Hcost HL. pose proof Hi as (Hc & Ht & Hw & _). split_and!.
  - by constructor.
  - intros t [->|Hin]%elem_of_cons; [done|]. by apply Ht.
  - intros a. cbn. specialize (Hw a). destruct (within a W now) eqn:E; [|lia].
    unfold within in E. pose proof (recent_fits h o now a HW Hi). lia.
Qed.

(** Spending from a counter that is there, whose life goes on. *)
Lemma counter_inv_spend_live h n e now cost :
  0 < W -> counter_inv h (Some (n, Some e)) now -> 0 <= cost -> n + cost <= L ->
  counter_inv ((now, cost) :: h) (Some (n + cost, Some e)) now.
Proof.
  intros HW Hi Hcost HL. destruct (spend_history _ _ _ _ HW Hi Hcost HL) as (H1 & H2 & H3). split_and!; [done..|].
  destruct Hi as (_ & _ & _ & cur & old & -> & Hs & HnL & He & Hold & Hb).
  exists ((now, cost) :: cur), old. split_and!; try done; cbn; lia.
Qed.

Lemma counter_inv_spend h o now cost :
  0 < W -> counter_inv h o now -> 0 <= cost -> held o + cost <= L ->
  counter_inv ((now, cost) :: h) (spent o cost now) now.
Proof.
  intros HW Hi Hcost HL. unfold spent. destruct (Z.eqb_spec (held o) 0) as [Hz|Hz].
  - destruct (spend_history _ _ _ _ HW Hi Hcost HL) as (H1 & H2 & H3). split_and!; [done..|].
    rewrite Hz in HL |- *. apply (fresh_life h o); [done..|lia].
  - destruct o as [[n [e|]]|]; [by apply counter_inv_spend_live|by destruct Hi as (_ & _ & _ & ?)|done].
Qed.

(** An empty counter put in place of one that is gone. *)
Lemma counter_inv_reopen h now :
  0 < W -> counter_inv h None now -> 0 <= L -> counter_inv h (Some (0, Some (now + W))) now.
Proof.
  intros HW (Hc & Ht & Hw & Ho) HL. split_and!; [done..|]. exists [], h.
  split_and!; try done; cbn; try lia.
  - intros t Hin. specialize (Ht t Hin). lia.
  - by replace (now + W - 2 * W) with (now - W) by lia.
Qed.
End counter.
