(* ===== verification/NetAddress.v ===== *)
(** * NetAddress: who a request comes from

    Source: [client_address], [client_identity], [network_identity] and
    [subnet_identity] of [api/src/common/admission.rs], over the standard library's
    [IpAddr] and its parser.  A header line is what [to_str] makes of it, [None]
    for one that is not ASCII; whether a network of [ipnet] contains an address and
    the digest (sha256 in hex) are parameters. *)

From Stdlib Require Import ZArith Lia String.
From stdpp Require Import base list numbers tactics.
From S2P Require Import Prelude Text.
Local Open Scope Z_scope.

(** An IPv4 address as its 32 bits, an IPv6 address as its eight groups. *)
Inductive IpAddr := V4 (a : Z) | V6 (groups : list Z).

Global Instance IpAddr_eq_dec : EqDecision IpAddr.
Proof. solve_decision. Defined.

Definition v4_octets (a : Z) : bytes := to_be_bytes 4 a.
Definition v6_octets (groups : list Z) : bytes := concat (map (to_be_bytes 2) groups).

(** [to_ipv4_mapped]: [::ffff:a.b.c.d]. *)
Definition to_ipv4_mapped (groups : list Z) : option Z :=
  match groups with
  | [a; b; c; d; e; f; h; l] =>
      if bool_decide ([a; b; c; d; e; f] = [0; 0; 0; 0; 0; 65535]) then Some (h * 65536 + l) else None
  | _ => None
  end.

Definition to_canonical (ip : IpAddr) : IpAddr :=
  match ip with
  | V4 _ => ip
  | V6 g => match to_ipv4_mapped g with Some a => V4 a | None => ip end
  end.

(** ** Parsing ([core::net::parser]) *)

Definition parser (A : Type) : Type := str -> option (A * str).

Definition digit_of (radix : Z) (c : char) : option Z :=
  if is_ascii_digit c then Some (c - 48)
  else if radix =? 16 then
    if (97 <=? c) && (c <=? 102) then Some (c - 87)
    else if (65 <=? c) && (c <=? 70) then Some (c - 55) else None
  else None.

(** The digits read so far and how many; more than [max_digits] or a value above
    [limit] fails. *)
Fixpoint read_digits (radix limit : Z) (max_digits : nat) (acc : Z) (count : nat) (s : str)
  : option (Z * nat * str) :=
  match s with
  | c :: s' =>
      match digit_of radix c with
      | Some d =>
          if limit <? acc * radix + d then None
          else if (max_digits <? S count)%nat then None
          else read_digits radix limit max_digits (acc * radix + d) (S count) s'
      | None => Some (acc, count, s)
      end
  | [] => Some (acc, count, s)
  end.

Definition read_number (radix limit : Z) (max_digits : nat) (allow_zero_prefix : bool) : parser Z := fun s =>
  let has_leading_zero := match s with c :: _ => c =? 48 | [] => false end in
  match read_digits radix limit max_digits 0 0 s with
  | Some (n, count, s') =>
      if (count =? 0)%nat then None
      else if negb allow_zero_prefix && has_leading_zero && (1 <? count)%nat then None
      else Some (n, s')
  | None => None
  end.

Definition read_given_char (c : char) : parser unit := fun s =>
  match s with x :: s' => if x =? c then Some (tt, s') else None | [] => None end.

Definition read_separator {A} (sep : char) (index : nat) (inner : parser A) : parser A := fun s =>
  match index with
  | O => inner s
  | S _ => match read_given_char sep s with Some (_, s') => inner s' | None => None end
  end.

Definition dot : char := 46.
Definition colon_char : char := 58.

Fixpoint read_octets (n index : nat) (acc : Z) : parser Z := fun s =>
  match n with
  | O => Some (acc, s)
  | S n' =>
      match read_separator dot index (read_number 10 255 3 false) s with
      | Some (d, s') => read_octets n' (S index) (acc * 256 + d) s'
      | None => None
      end
  end.

Definition read_ipv4_addr : parser Z := read_octets 4 0 0.

(** Up to [n] groups, the last two of which may be an IPv4 address: the groups read,
    whether they end in one, and the rest. *)
Fixpoint read_groups (n index : nat) (s : str) : list Z * bool * str :=
  match n with
  | O => ([], false, s)
  | S n' =>
      match (if (1 <? n)%nat then read_separator colon_char index read_ipv4_addr s else None) with
      | Some (a, s') => ([a / 65536; a mod 65536], true, s')
      | None =>
          match read_separator colon_char index (read_number 16 65535 4 true) s with
          | Some (g, s') => let '(gs, v4, rest) := read_groups n' (S index) s' in (g :: gs, v4, rest)
          | None => ([], false, s)
          end
      end
  end.

Definition read_ipv6_addr : parser (list Z) := fun s =>
  let '(head, v4, s1) := read_groups 8 0 s in
  if (length head =? 8)%nat then Some (head, s1)
  else if (v4 : bool) then None
  else match read_given_char colon_char s1 with
       | Some (_, s2) =>
           match read_given_char colon_char s2 with
           | Some (_, s3) =>
               let '(tail, _, s4) := read_groups (8 - (length head + 1)) 0 s3 in
               Some (head ++ replicate (8 - length head - length tail) 0 ++ tail, s4)
           | None => None
           end
       | None => None
       end.

(** [str::parse::<IpAddr>]. *)
Definition parse_ip (s : str) : option IpAddr :=
  match match read_ipv4_addr s with
        | Some (a, rest) => Some (V4 a, rest)
        | None => match read_ipv6_addr s with Some (g, rest) => Some (V6 g, rest) | None => None end
        end with
  | Some (ip, []) => Some ip
  | _ => None
  end.

(** [str::split(c)]. *)
Fixpoint split_char (c : char) (s : str) : list str :=
  match s with
  | [] => [[]]
  | x :: s' =>
      match split_char c s' with
      | w :: ws => if x =? c then [] :: w :: ws else (x :: w) :: ws
      | [] => [[x]]
      end
  end.

Definition comma : char := 44.

Section client.
Context {IpNet : Type} (contains : IpNet -> IpAddr -> bool).

Definition is_trusted (trusted : list IpNet) (ip : IpAddr) : bool := any (fun net => contains net ip) trusted.

(** The entries of [x-forwarded-for], from the nearest proxy on. *)
Definition forwarded_entries (headers : list (option str)) : list str :=
  concat (map (fun value => rev (split_char comma value)) (omap id (rev headers))).

Fixpoint walk_chain (peer : IpAddr) (trusted : list IpNet) (entries : list str) : IpAddr :=
  match entries with
  | [] => peer
  | entry :: entries' =>
      match parse_ip (trim entry) with
      | None => peer
      | Some ip =>
          let ip := to_canonical ip in
          if is_trusted trusted ip then walk_chain peer trusted entries' else ip
      end
  end.

Definition client_address (peer : IpAddr) (headers : list (option str)) (trusted : list IpNet) : IpAddr :=
  let peer := to_canonical peer in
  if negb (is_trusted trusted peer) then peer else walk_chain peer trusted (forwarded_entries headers).
End client.

(** ** Identities *)

(** What [client_identity] hashes: an IPv4 address, or the /64 of an IPv6 one. *)
Definition client_identity_input (ip : IpAddr) : bytes :=
  match ip with
  | V4 a => 4 :: v4_octets a
  | V6 g => match to_ipv4_mapped g with
            | Some a => 4 :: v4_octets a
            | None => 6 :: take 8 (v6_octets g)
            end
  end.

Definition network_identity_input (ip : IpAddr) : bytes :=
  match ip with
  | V6 g => match to_ipv4_mapped g with
            | None => 48 :: take 6 (v6_octets g)
            | Some _ => client_identity_input ip
            end
  | V4 _ => client_identity_input ip
  end.

Definition subnet_identity_input (ip : IpAddr) : bytes :=
  match to_canonical ip with
  | V4 a => 24 :: take 3 (v4_octets a)
  | other => network_identity_input other
  end.

Section identity.
(** [hex::encode(Sha256::digest(..))]. *)
Context (hex_digest : bytes -> str).
Definition client_identity (ip : IpAddr) : str := hex_digest (client_identity_input ip).
Definition network_identity (ip : IpAddr) : str := hex_digest (network_identity_input ip).
Definition subnet_identity (ip : IpAddr) : str := hex_digest (subnet_identity_input ip).
Definition key_identity (key : str) : str := hex_digest (as_bytes key).
End identity.

(** ** The proxy chain *)

Section chain.
Context {IpNet : Type} (contains : IpNet -> IpAddr -> bool) (trusted : list IpNet).

(** An entry a trusted proxy left for another one. *)
Definition trusted_hop (entry : str) : Prop :=
  exists ip, parse_ip (trim entry) = Some ip /\ is_trusted contains trusted (to_canonical ip) = true.

Lemma walk_hops peer hops entries :
  Forall trusted_hop hops ->
  walk_chain contains peer trusted (hops ++ entries) = walk_chain contains peer trusted entries.
Proof.
  induction 1 as [|e hops (ip & Hp & Ht) _ IH]; [done|]. cbn. by rewrite Hp, Ht.
Qed.

Lemma walk_trusted_peer peer entries :
  is_trusted contains trusted (walk_chain contains peer trusted entries) = true ->
  walk_chain contains peer trusted entries = peer.
Proof.
  induction entries as [|e entries IH]; [done|]. cbn. destruct (parse_ip (trim e)) as [ip|]; [|done].
  destruct (is_trusted _ _ (to_canonical ip)) eqn:E; [done|]. by rewrite E.
Qed.

Lemma forwarded_appended headers line :
  forwarded_entries (headers ++ [Some line]) = rev (split_char comma line) ++ forwarded_entries headers.
Proof. unfold forwarded_entries. rewrite rev_unit. done. Qed.
End chain.

(** A client cannot choose the address it is counted under.  An untrusted peer is
    itself whatever it claims; behind trusted proxies it is the first address, from
    the nearest entry on, that no trusted proxy has, and nothing further from it
    matters; a trusted address is only ever answered for the peer's own.  A line that
    a proxy appends is read before all that it received. *)
Theorem client_address_exact {IpNet} (contains : IpNet -> IpAddr -> bool) (trusted : list IpNet) peer headers :
  let client := client_address contains peer headers trusted in
  (is_trusted contains trusted (to_canonical peer) = false -> client = to_canonical peer)
  /\ (forall hops entry rest ip,
       is_trusted contains trusted (to_canonical peer) = true ->
       forwarded_entries headers = hops ++ entry :: rest -> Forall (trusted_hop contains trusted) hops ->
       parse_ip (trim entry) = Some ip -> is_trusted contains trusted (to_canonical ip) = false ->
       client = to_canonical ip)
  /\ (is_trusted contains trusted client = true -> client = to_canonical peer)
  /\ (forall line, forwarded_entries (headers ++ [Some line]) = rev (split_char comma line) ++ forwarded_entries headers).
Proof.
  intros client. unfold client, client_address. split_and!.
  - by intros ->.
  - intros hops entry rest ip -> -> Hh Hp Hu. cbn. rewrite walk_hops by done. cbn. by rewrite Hp, Hu.
  - destruct (is_trusted _ _ (to_canonical peer)) eqn:E; cbn; [apply walk_trusted_peer|]. by rewrite E.
  - apply forwarded_appended.
Qed.

(** ** What the identities tell apart *)

Definition ip_ok (ip : IpAddr) : Prop :=
  match ip with
  | V4 a => 0 <= a < 4294967296
  | V6 g => length g = 8%nat /\ Forall (fun x => 0 <= x < 65536) g
  end.

(** One IPv4 address, or one /64. *)
Definition same_client (x y : IpAddr) : Prop :=
  match to_canonical x, to_canonical y with
  | V4 a, V4 b => a = b
  | V6 g, V6 h => take 4 g = take 4 h
  | _, _ => False
  end.

Lemma mapped_ok g a : ip_ok (V6 g) -> to_ipv4_mapped g = Some a -> 0 <= a < 4294967296.
Proof.
  intros [_ Hg] H. unfold to_ipv4_mapped in H. repeat (destruct g as [|? g]; try done).
  case_bool_decide; [|done]. decompose_Forall_hyps. lia.
Qed.

Lemma cons_tail {A} (x y : A) l l' : x :: l = y :: l' -> l = l'.
Proof. by intros [= _ H]. Qed.

Lemma v4_octets_inj a b : 0 <= a < 4294967296 -> 0 <= b < 4294967296 -> v4_octets a = v4_octets b -> a = b.
Proof. intros Ha Hb. apply (to_be_inj 4); done. Qed.

Lemma groups_bytes g h :
  Forall (fun x => 0 <= x < 65536) g -> Forall (fun x => 0 <= x < 65536) h -> length g = length h ->
  concat (map (to_be_bytes 2) g) = concat (map (to_be_bytes 2) h) -> g = h.
Proof.
  intros Hg. revert h. induction Hg as [|x g Hx _ IH]; intros h Hh Hl H.
  - by destruct h.
  - destruct Hh as [|y h Hy Hh]; [done|]. cbn [map concat] in H. apply app_inj_1 in H as [H1 H2]; [|by rewrite !to_be_bytes_length].
    f_equal; [by apply (to_be_inj 2)|]. apply IH; [done|by injection Hl|done].
Qed.

Lemma take_groups g : length g = 8%nat -> take 8 (v6_octets g) = concat (map (to_be_bytes 2) (take 4 g)).
Proof. intros H. do 8 (destruct g as [|? g]; [done|]). by destruct g. Qed.

(** Requests share an identity exactly when they come from the same IPv4 address,
    plain or mapped into IPv6, or from the same IPv6 /64. *)
Theorem identity_groups x y :
  ip_ok x -> ip_ok y -> client_identity_input x = client_identity_input y <-> same_client x y.
Proof.
  assert (forall ip, client_identity_input ip = client_identity_input (to_canonical ip)) as Hcan.
  { intros [a|g]; [done|]. cbn. by destruct (to_ipv4_mapped g) eqn:E; cbn; rewrite ?E. }
  assert (forall ip, ip_ok ip -> ip_ok (to_canonical ip)) as Hok.
  { intros [a|g] H; [done|]. cbn. destruct (to_ipv4_mapped g) eqn:E; [|done]. by eapply mapped_ok. }
  assert (forall ip g, to_canonical ip = V6 g -> to_ipv4_mapped g = None) as Hv6.
  { intros [a|g'] g; [done|]. cbn. destruct (to_ipv4_mapped g') eqn:E; [done|]. by intros [= <-]. }
  intros Hx Hy. apply Hok in Hx, Hy. rewrite (Hcan x), (Hcan y). unfold same_client.
  destruct (to_canonical x) as [a|g] eqn:Ex, (to_canonical y) as [b|h] eqn:Ey.
  - cbn [client_identity_input]. split; [|by intros ->]. intros H%cons_tail. by apply v4_octets_inj.
  - cbn [client_identity_input]. rewrite (Hv6 _ _ Ey). split; [|done]. intros H. discriminate H.
  - cbn [client_identity_input]. rewrite (Hv6 _ _ Ex). split; [|done]. intros H. discriminate H.
  - cbn [client_identity_input]. rewrite (Hv6 _ _ Ex), (Hv6 _ _ Ey). destruct Hx as [Lx Gx], Hy as [Ly Gy].
    rewrite !take_groups by done. split; [|by intros ->].
    intros H%cons_tail. apply groups_bytes; [apply Forall_take, Gx|apply Forall_take, Gy|rewrite !length_take; lia|done].
Qed.

Lemma identity_groups_witness :
  ip_ok (V4 3325256724) /\ ip_ok (V6 [0; 0; 0; 0; 0; 65535; 50739; 25620])
  /\ (client_identity_input (V4 3325256724) = client_identity_input (V6 [0; 0; 0; 0; 0; 65535; 50739; 25620])
      <-> same_client (V4 3325256724) (V6 [0; 0; 0; 0; 0; 65535; 50739; 25620])).
Proof.
  assert (ip_ok (V4 3325256724)) as H1 by (cbn; lia).
  assert (ip_ok (V6 [0; 0; 0; 0; 0; 65535; 50739; 25620])) as H2 by (split; [done|repeat constructor; lia]).
  split; [exact H1|]. split; [exact H2|]. exact (identity_groups _ _ H1 H2).
Defined.

(** ** Examples *)

Example parse_v4 : parse_ip (lit "198.51.100.20") = Some (V4 (((198 * 256 + 51) * 256 + 100) * 256 + 20)).
Proof. reflexivity. Qed.

Example parse_v4_leading_zero : parse_ip (lit "10.0.0.01") = None.
Proof. reflexivity. Qed.

Example parse_v6_mapped :
  to_canonical <$> parse_ip (lit "::ffff:198.51.100.24") = parse_ip (lit "198.51.100.24").
Proof. reflexivity. Qed.

Example parse_v6_gap : parse_ip (lit "2001:db8::1") = Some (V6 [8193; 3512; 0; 0; 0; 0; 0; 1]).
Proof. reflexivity. Qed.

Example parse_nonsense : parse_ip (lit "nonsense") = None.
Proof. reflexivity. Qed.
