(* ===== verification/Admission.v ===== *)
(** * Admission: the request limits of the public endpoints

    Source: [PublicAdmission], [Endpoint] and the Lua script of
    [api/src/common/admission.rs], and their configuration in [api/src/config.rs].

    A limit is a pair of Redis counters per endpoint, one for everybody and one per
    client, that live for one window from their first use.  The script is modelled
    command by command over [RedisClock]; [check] composes it with the concurrency
    permits and with answers that are lost (a pool or command error, the timeout), in
    which case the script may or may not have run.  A [Duration] is its milliseconds.
    The environment, the parser of [ipnet] and the file of proxies are parameters. *)

From Stdlib Require Import ZArith Lia String Sorted.
From stdpp Require Import base list numbers option tactics gmap.
From S2P Require Import Prelude Text AppError RedisClock NetAddress.
Local Open Scope Z_scope.

(** ** Configuration *)

Record AdmissionLimitCfg := { per_client : Z; global : Z }.

Inductive Endpoint :=
| Login | LinkCreate | Resolve | SoundCloudSearch | CatalogMiss | RoomList | RoomCreate | RoomJoin
| VoiceLinkCode | VoiceRemote | VoiceRemoteWait | VoicePageIp | VoicePageClient | VoiceSalutSub
| VoiceUtterance | VoiceResolve | VoiceAliceIp | VoiceSalutIp | DiagBundle | DiagEvents | DiagBytes.

Global Instance Endpoint_eq_dec : EqDecision Endpoint.
Proof. solve_decision. Defined.

(** [std::env::var]. *)
Inductive EnvVar := Present (s : str) | NotPresent | NotUnicode.

(** [None] is a panic: the server does not start. *)
Definition admission_value (env : str -> EnvVar) (key : str) (default_ : Z) : option Z :=
  match env key with
  | Present value => match parse_u64 value with Some n => if 0 <? n then Some n else None | None => None end
  | NotPresent => Some default_
  | NotUnicode => None
  end.

Definition admission_u32 (env : str -> EnvVar) (key : str) (default_ : Z) : option Z :=
  match admission_value env key default_ with
  | Some n => if n <=? u32_max then Some n else None
  | None => None
  end.

Definition admission_limit (env : str -> EnvVar) (prefix : str) (default_client default_global : Z)
  : option AdmissionLimitCfg :=
  global ← admission_u32 env (prefix ++ lit "_GLOBAL") default_global;
  per_client ← admission_u32 env (prefix ++ lit "_PER_CLIENT") (Z.min default_client global);
  if per_client <=? global then Some {| per_client := per_client; global := global |} else None.

Definition env_opt (env : str -> EnvVar) (key : str) : option str :=
  match env key with Present s => if bool_decide (s = []) then None else Some s | _ => None end.

Record AdmissionCfg (IpNet : Type) := {
  window_ms : Z;
  timeout_ms : Z;
  max_in_flight : Z;
  login : AdmissionLimitCfg;
  link_create : AdmissionLimitCfg;
  resolve : AdmissionLimitCfg;
  sc_search : AdmissionLimitCfg;
  catalog_miss : AdmissionLimitCfg;
  room_list : AdmissionLimitCfg;
  room_create : AdmissionLimitCfg;
  room_join : AdmissionLimitCfg;
  voice_link_code : AdmissionLimitCfg;
  voice_remote : AdmissionLimitCfg;
  voice_remote_wait : AdmissionLimitCfg;
  voice_page_ip : AdmissionLimitCfg;
  voice_page_client : AdmissionLimitCfg;
  voice_salut_sub : AdmissionLimitCfg;
  voice_utterance : AdmissionLimitCfg;
  voice_resolve : AdmissionLimitCfg;
  voice_alice_ip : AdmissionLimitCfg;
  voice_salut_ip : AdmissionLimitCfg;
  diag_bundle : AdmissionLimitCfg;
  diag_events : AdmissionLimitCfg;
  diag_bytes : AdmissionLimitCfg;
  trusted_proxies : list IpNet
}.
Arguments window_ms {_}. Arguments timeout_ms {_}. Arguments max_in_flight {_}. Arguments login {_}.
Arguments link_create {_}. Arguments resolve {_}. Arguments sc_search {_}. Arguments catalog_miss {_}.
Arguments room_list {_}. Arguments room_create {_}. Arguments room_join {_}. Arguments voice_link_code {_}.
Arguments voice_remote {_}. Arguments voice_remote_wait {_}. Arguments voice_page_ip {_}.
Arguments voice_page_client {_}. Arguments voice_salut_sub {_}. Arguments voice_utterance {_}.
Arguments voice_resolve {_}. Arguments voice_alice_ip {_}. Arguments voice_salut_ip {_}.
Arguments diag_bundle {_}. Arguments diag_events {_}. Arguments diag_bytes {_}. Arguments trusted_proxies {_}.

Section config.
Context {IpNet : Type} (parse_net : str -> option IpNet) (from_ip : IpAddr -> IpNet).
(** [read_to_string], in lines. *)
Context (read_lines : str -> option (list str)).

Definition hash_sign : char := 35.

Definition trusted_proxy (entry : str) : option IpNet :=
  match parse_net entry with
  | Some net => Some net
  | None => option_map from_ip (parse_ip entry)
  end.

Definition proxies_of (env : str -> EnvVar) : option (list IpNet) :=
  let entries := map trim (split_char comma (default [] (env_opt env (lit "TRUSTED_PROXIES")))) in
  listed ← match env_opt env (lit "TRUSTED_PROXIES_FILE") with
           | Some path => read_lines path
           | None => Some []
           end;
  let entry_of line := trim (match split_once hash_sign line with Some (entry, _) => entry | None => line end) in
  mapM trusted_proxy (retain (fun e => negb (bool_decide (e = []))) (entries ++ map entry_of listed)).

Definition admission_from_env (env : str -> EnvVar) : option (AdmissionCfg IpNet) :=
  let limit := admission_limit env in
  login ← limit (lit "AUTH_LOGIN") 15 300;
  link_create ← limit (lit "AUTH_LINK_CREATE") 30 600;
  resolve ← limit (lit "RESOLVE") 60 1200;
  sc_search ← limit (lit "SC_SEARCH") 600 6000;
  catalog_miss ← limit (lit "CATALOG_MISS") 120 2400;
  room_list ← limit (lit "ROOMS_LIST") 30 3000;
  room_create ← limit (lit "ROOMS_CREATE") 10 600;
  room_join ← limit (lit "ROOMS_JOIN") 20 2400;
  voice_link_code ← limit (lit "VOICE_LINK_CODE") 10 600;
  voice_remote ← limit (lit "VOICE_REMOTE") 120 12000;
  voice_remote_wait ← limit (lit "VOICE_REMOTE_WAIT") 30 120000;
  voice_page_ip ← limit (lit "VOICE_PAGE_IP") 10 30000;
  voice_page_client ← limit (lit "VOICE_PAGE_CLIENT") 30000 30000;
  voice_salut_sub ← limit (lit "VOICE_SALUT_SUB") 10 1000;
  voice_utterance ← limit (lit "VOICE_UTTERANCE") 30 6000;
  voice_resolve ← limit (lit "VOICE_RESOLVE") 120 6000;
  voice_alice_ip ← limit (lit "VOICE_ALICE_IP") 600 12000;
  voice_salut_ip ← limit (lit "VOICE_SALUT_IP") 600 12000;
  diag_bundle ← limit (lit "DIAG_BUNDLE") 10 20000;
  diag_events ← limit (lit "DIAG_EVENTS") 120 60000;
  diag_bytes ← limit (lit "DIAG_BYTES") (2 * 1024 * 1024) (200 * 1024 * 1024);
  trusted_proxies ← proxies_of env;
  if (length trusted_proxies =? 0)%nat && bool_decide (is_Some (env_opt env (lit "SCD_HOST"))) then None else
  window ← admission_value env (lit "ADMISSION_WINDOW_SECONDS") 60;
  timeout ← admission_value env (lit "ADMISSION_TIMEOUT_MS") 100;
  max_in_flight ← admission_value env (lit "ADMISSION_MAX_IN_FLIGHT") 16;
  Some {| window_ms := window * 1000; timeout_ms := timeout; max_in_flight := max_in_flight;
          login := login; link_create := link_create; resolve := resolve; sc_search := sc_search;
          catalog_miss := catalog_miss; room_list := room_list; room_create := room_create;
          room_join := room_join; voice_link_code := voice_link_code; voice_remote := voice_remote;
          voice_remote_wait := voice_remote_wait; voice_page_ip := voice_page_ip;
          voice_page_client := voice_page_client; voice_salut_sub := voice_salut_sub;
          voice_utterance := voice_utterance; voice_resolve := voice_resolve;
          voice_alice_ip := voice_alice_ip; voice_salut_ip := voice_salut_ip; diag_bundle := diag_bundle;
          diag_events := diag_events; diag_bytes := diag_bytes; trusted_proxies := trusted_proxies |}.
End config.

(** ** The limiter *)

Definition WARNING_INTERVAL_MILLISECONDS : Z := 30000.
Definition DIAG_WINDOW : Z := 3600 * 1000.

Inductive AdmissionRejection := RejectLimited (retry_after_seconds : Z) | RejectUnavailable.
Inductive Decision := Allowed | Limited (retry_after_seconds : Z) | Unavailable.

Definition key (e : Endpoint) : str :=
  match e with
  | Login => lit "login" | LinkCreate => lit "link-create" | Resolve => lit "resolve"
  | SoundCloudSearch => lit "sc-search" | CatalogMiss => lit "catalog-miss" | RoomList => lit "rooms-list"
  | RoomCreate => lit "rooms-create" | RoomJoin => lit "rooms-join" | VoiceLinkCode => lit "voice-link-code"
  | VoiceRemote => lit "voice-remote" | VoiceRemoteWait => lit "voice-remote-wait"
  | VoicePageIp => lit "voice-page-ip" | VoicePageClient => lit "voice-page-client"
  | VoiceSalutSub => lit "voice-salut-sub" | VoiceUtterance => lit "voice-utterance"
  | VoiceResolve => lit "voice-resolve" | VoiceAliceIp => lit "voice-alice-ip"
  | VoiceSalutIp => lit "voice-salut-ip" | DiagBundle => lit "diag-bundle" | DiagEvents => lit "diag-events"
  | DiagBytes => lit "diag-bytes"
  end.

(** Which semaphore a check holds a permit of. *)
Inductive Gate := InFlight | SessionInFlight.

Definition gate (e : Endpoint) : Gate :=
  match e with
  | Login | LinkCreate | Resolve | VoicePageIp | VoicePageClient | VoiceSalutSub | VoiceUtterance
  | VoiceAliceIp | VoiceSalutIp | DiagBundle | DiagEvents | DiagBytes => InFlight
  | SoundCloudSearch | CatalogMiss | RoomList | RoomCreate | RoomJoin | VoiceLinkCode | VoiceRemote
  | VoiceRemoteWait | VoiceResolve => SessionInFlight
  end.

Definition milliseconds_to_seconds (milliseconds : Z) : Z :=
  sat_add_u64 (Z.max milliseconds 1) 999 / 1000.

(** *** The script *)

Section script.
Context `{RedisClock db}.

Definition remaining (k : str) (window now : Z) (d : db) : Z * db :=
  let ttl := pttl k now d in
  if ttl =? -1 then (window, pexpire k window now d) else (Z.max ttl 1, d).

(** [INCRBY], and [PEXPIRE] for the first of a window. *)
Definition bump (k : str) (cost window now : Z) (d : db) : db :=
  let '(count, d) := incrby k cost now d in
  if count =? cost then pexpire k window now d else d.

Definition admission_script (global_key client_key : str) (limits : AdmissionLimitCfg) (window cost now : Z) (d : db)
  : (Z * Z) * db :=
  if global limits <? default 0 (get_int global_key now d) + cost then
    let '(ms, d) := remaining global_key window now d in ((0, ms), d)
  else if per_client limits <? default 0 (get_int client_key now d) + cost then
    let '(ms, d) := remaining client_key window now d in ((0, ms), d)
  else
    ((1, 0), bump client_key cost window now (bump global_key cost window now d)).
End script.

(** *** Checks *)

Section checks.
Context {IpNet : Type} (cfg : AdmissionCfg IpNet) (namespace : str) `{RedisClock db}.

Definition window (e : Endpoint) : Z :=
  match e with DiagBundle | DiagEvents | DiagBytes => DIAG_WINDOW | _ => window_ms cfg end.

Definition limits (e : Endpoint) : AdmissionLimitCfg :=
  match e with
  | Login => login cfg | LinkCreate => link_create cfg | Resolve => resolve cfg
  | SoundCloudSearch => sc_search cfg | CatalogMiss => catalog_miss cfg | RoomList => room_list cfg
  | RoomCreate => room_create cfg | RoomJoin => room_join cfg | VoiceLinkCode => voice_link_code cfg
  | VoiceRemote => voice_remote cfg | VoiceRemoteWait => voice_remote_wait cfg
  | VoicePageIp => voice_page_ip cfg | VoicePageClient => voice_page_client cfg
  | VoiceSalutSub => voice_salut_sub cfg | VoiceUtterance => voice_utterance cfg
  | VoiceResolve => voice_resolve cfg | VoiceAliceIp => voice_alice_ip cfg
  | VoiceSalutIp => voice_salut_ip cfg | DiagBundle => diag_bundle cfg | DiagEvents => diag_events cfg
  | DiagBytes => diag_bytes cfg
  end.

Definition global_key (e : Endpoint) : str := namespace ++ lit ":{" ++ key e ++ lit "}:global".
Definition client_key (e : Endpoint) (identity : str) : str :=
  namespace ++ lit ":{" ++ key e ++ lit "}:client:" ++ identity.

Definition check_redis (e : Endpoint) (identity : str) (cost now : Z) (d : db) : Decision * db :=
  let window_milliseconds := Z.min (window e) i64_max in
  let '((allowed, retry_after_milliseconds), d) :=
    admission_script (global_key e) (client_key e identity) (limits e) window_milliseconds cost now d in
  if allowed =? 1 then (Allowed, d) else (Limited (milliseconds_to_seconds retry_after_milliseconds), d).

(** What becomes of a check that got its permit: answered in time, or an error or the
    timeout, after the script ran or without. *)
Inductive Delivery := Answered | Lost (ran : bool).

Definition check (permits : Gate -> Z) (how : Delivery) (e : Endpoint) (identity : str) (cost now : Z) (d : db)
  : Decision * db :=
  if permits (gate e) <=? 0 then (Unavailable, d) else
  match how with
  | Answered => check_redis e identity cost now d
  | Lost ran => (Unavailable, if ran then (check_redis e identity cost now d).2 else d)
  end.

(** [check_session], [check_key]: the caller's view of a decision. *)
Definition into_result (decision : Decision) : result unit AdmissionRejection :=
  match decision with
  | Allowed => Ok tt
  | Limited s => Err (RejectLimited s)
  | Unavailable => Err RejectUnavailable
  end.

Definition admit_diag_result (decision : Decision) : AppResult unit :=
  match decision with
  | Allowed => Ok tt
  | Limited s =>
      Err (with_retry_after (coded 429 (lit "diag_admission_limited")
             (lit "Too many reports from this address, try later")) (Z.min s i64_max))
  | Unavailable =>
      Err (coded 503 (lit "auth_admission_unavailable") (lit "Reports are temporarily unavailable"))
  end.

(** The cost of a report, a [usize], in the script's [u32]. *)
Definition diag_cost (cost : Z) : Z := Z.min cost u32_max.
Definition admit_diag (permits : Gate -> Z) (how : Delivery) (e : Endpoint) (client : str) (cost now : Z) (d : db)
  : AppResult unit * db :=
  let '(decision, d) := check permits how e client (diag_cost cost) now d in (admit_diag_result decision, d).
End checks.

(** [warning_due]: [failures] are the values the compare-and-exchanges that failed
    found; [None] while it still retries. *)
Definition warning_held (previous now : Z) : bool :=
  negb (previous =? 0) && (previous <=? now) && (now - previous <? WARNING_INTERVAL_MILLISECONDS).

Fixpoint warning_due (now previous : Z) (failures : list Z) : bool :=
  if warning_held previous now then false else
  match failures with
  | [] => true
  | current :: failures' => warning_due now current failures'
  end.

(** ** Answers *)

Record Response := {
  response_status : Z;
  response_code : str;
  response_message : str;
  retry_after : option Z;
  cache_control : option str
}.

Definition resolve_busy (retry_after_seconds : Z) : AppError :=
  with_retry_after (coded 503 (lit "resolve_busy") (lit "Opening links is busy, try again shortly"))
    (Z.min retry_after_seconds i64_max).

(** [resolve_busy(..).into_response()]. *)
Definition resolve_busy_response (retry_after_seconds : Z) : Response :=
  let e := resolve_busy retry_after_seconds in
  {| response_status := status e; response_code := lit "resolve_busy";
     response_message := lit "Opening links is busy, try again shortly";
     retry_after := retry_after_sec e; cache_control := None |}.

Definition no_store (r : Response) : Response :=
  {| response_status := response_status r; response_code := response_code r;
     response_message := response_message r; retry_after := retry_after r;
     cache_control := Some (lit "no-store, private") |}.

Definition rejection (e : Endpoint) (kind : AdmissionRejection) : Response :=
  let retry_after_seconds := match kind with RejectLimited s => s | RejectUnavailable => 1 end in
  match e with
  | Resolve => no_store (resolve_busy_response retry_after_seconds)
  | _ =>
      let '(status, code, message) :=
        match kind with
        | RejectLimited _ => (429, lit "auth_admission_limited", lit "Too many authentication requests")
        | RejectUnavailable => (503, lit "auth_admission_unavailable", lit "Authentication is temporarily unavailable")
        end in
      no_store {| response_status := status; response_code := code; response_message := message;
                  retry_after := Some (Z.max retry_after_seconds 1); cache_control := None |}
  end.

Section requests.
Context {IpNet : Type} (cfg : AdmissionCfg IpNet) (namespace : str) `{RedisClock db}.
Context (contains : IpNet -> IpAddr -> bool) (hex_digest : bytes -> str).

Definition request_client (peer : option IpAddr) (headers : list (option str)) : option IpAddr :=
  option_map (fun ip => client_address contains ip headers (trusted_proxies cfg)) peer.

Definition network_key (peer : IpAddr) (headers : list (option str)) : str :=
  network_identity hex_digest (client_address contains peer headers (trusted_proxies cfg)).

(** [admit_login], [admit_link_create], [admit_resolve]: [Ok] runs the handler. *)
Definition admit_request (permits : Gate -> Z) (how : Delivery) (e : Endpoint) (peer : option IpAddr)
    (headers : list (option str)) (now : Z) (d : db) : result unit Response * db :=
  match request_client peer headers with
  | None => (Err (rejection e RejectUnavailable), d)
  | Some client =>
      let '(decision, d) := check cfg namespace permits how e (client_identity hex_digest client) 1 now d in
      (match decision with
       | Allowed => Ok tt
       | Limited s => Err (rejection e (RejectLimited s))
       | Unavailable => Err (rejection e RejectUnavailable)
       end, d)
  end.

(** [diag_gate]: the identity it attaches to the request. *)
Inductive DiagAnswer := Refuse (e : AppError) | Reject (r : Response) | Pass (client : str).

Definition semicolon : char := 59.
Definition is_json (content_type : option str) : bool :=
  match content_type with
  | Some value =>
      let essence := match split_once semicolon value with Some (x, _) => x | None => value end in
      bool_decide (map to_ascii_lowercase (trim essence) = lit "application/json")
  | None => false
  end.

Definition diag_gate (has_origin : bool) (content_type : option str) (peer : option IpAddr)
    (headers : list (option str)) : DiagAnswer :=
  if has_origin then Refuse (Forbidden (lit "Diagnostics are not accepted from web pages"))
  else if negb (is_json content_type) then
    Refuse (coded 415 (lit "diag_content_type") (lit "Diagnostics must be sent as application/json"))
  else match request_client peer headers with
       | None => Reject (rejection DiagBundle RejectUnavailable)
       | Some client => Pass (client_identity hex_digest client)
       end.
End requests.

(** * What the request limits guarantee

    [rates_hold] says that every counter in Redis accounts for what was admitted on it
    (see [RedisClock]); [admission_rate] is the bound that follows for any sequence of
    checks, from any number of servers, that share the Redis. *)

(** ** Keys *)

Definition closing_brace : char := 125.

Lemma app_separated {A} (x : A) l1 l2 r1 r2 :
  x ∉ l1 -> x ∉ l2 -> l1 ++ x :: r1 = l2 ++ x :: r2 -> l1 = l2 /\ r1 = r2.
Proof.
  revert l2. induction l1 as [|y l1 IH]; intros [|z l2] H1 H2 H; simplify_eq/=; try set_solver.
  destruct (IH l2) as [-> ->]; set_solver.
Qed.

Lemma key_no_brace e : closing_brace ∉ key e.
Proof. destruct e; by apply (bool_decide_unpack _). Qed.

Lemma key_inj e e' : key e = key e' -> e = e'.
Proof. destruct e, e'; (reflexivity || discriminate). Qed.

Section keys.
Context (ns : str).

Lemma key_split e e' r r' :
  ns ++ lit ":{" ++ key e ++ closing_brace :: r = ns ++ lit ":{" ++ key e' ++ closing_brace :: r' -> e = e' /\ r = r'.
Proof.
  intros H%app_inv_head%app_inv_head. apply app_separated in H as [H ->]; [|apply key_no_brace..].
  split; [by apply key_inj|done].
Qed.

Lemma global_key_inj e e' : global_key ns e = global_key ns e' -> e = e'.
Proof. intros H. by apply (key_split e e' (lit ":global") (lit ":global")). Qed.

Lemma client_key_inj e e' i i' : client_key ns e i = client_key ns e' i' -> e = e' /\ i = i'.
Proof.
  intros H. apply (key_split e e' (lit ":client:" ++ i) (lit ":client:" ++ i')) in H as [-> H].
  split; [done|]. by apply app_inv_head in H.
Qed.

Lemma keys_differ e e' i : global_key ns e <> client_key ns e' i.
Proof. intros H. by apply (key_split e e' (lit ":global") (lit ":client:" ++ i)) in H as [_ ?]. Qed.
End keys.

(** ** The script *)

Section script_facts.
Context `{RedisClock db}.
Implicit Types d : db.

(** Every counter has an expiry. *)
Definition expires (o : option rentry) : Prop := forall n, o <> Some (n, None).

Lemma counter_inv_expires W L h o now : counter_inv W L h o now -> expires o.
Proof. intros (_ & _ & _ & Ho) n ->. done. Qed.

Lemma peek_bump k cost w now d k' :
  0 < w -> now + w <= i64_max -> expires (peek d now k) ->
  peek (bump k cost w now d) now k' = if decide (k' = k) then spent w (peek d now k) cost now else peek d now k'.
Proof.
  intros Hw Hn He. unfold bump, spent, held.
  pose proof (incrby_result k cost now d) as Hr. pose proof (incrby_law k cost now d) as Hl.
  destruct (incrby k cost now d) as [count d1]. cbn in Hr, Hl. subst count.
  destruct (Z.eqb_spec (from_option fst 0 (peek d now k) + cost) cost) as [Hz|Hz].
  - rewrite pexpire_law by done. case_decide as Hk; [subst k'|by rewrite Hl, decide_False].
    rewrite Hl, decide_True by done. cbn. by destruct (Z.eqb_spec (from_option fst 0 (peek d now k)) 0); [|lia].
  - rewrite Hl. case_decide as Hk; [|done]. destruct (Z.eqb_spec (from_option fst 0 (peek d now k)) 0); [lia|].
    destruct (peek d now k) as [[m [e|]]|]; [done|by destruct (He m)|done].
Qed.

Lemma remaining_live k w now d :
  expires (peek d now k) ->
  remaining k w now d = (match peek d now k with Some (_, Some e) => Z.max (e - now) 1 | _ => 1 end, d).
Proof.
  intros He. unfold remaining. rewrite pttl_law. destruct (peek d now k) as [[n [e|]]|] eqn:E; [|by destruct (He n)|done].
  apply peek_live in E. destruct (Z.eqb_spec (e - now) (-1)); [lia|done].
Qed.

(** The counter a check is refused by. *)
Definition refused_by (gk ck : str) (l : AdmissionLimitCfg) (cost now : Z) (d : db) : option str :=
  if global l <? held (peek d now gk) + cost then Some gk
  else if per_client l <? held (peek d now ck) + cost then Some ck else None.

Lemma default_get k now d : default 0 (get_int k now d) = held (peek d now k).
Proof. rewrite get_int_law. by destruct (peek d now k). Qed.

Lemma script_spec gk ck l w cost now d :
  expires (peek d now gk) -> expires (peek d now ck) ->
  admission_script gk ck l w cost now d
  = match refused_by gk ck l cost now d with
    | Some k => ((0, match peek d now k with Some (_, Some e) => Z.max (e - now) 1 | _ => 1 end), d)
    | None => ((1, 0), bump ck cost w now (bump gk cost w now d))
    end.
Proof.
  intros Hg Hc. unfold admission_script, refused_by. rewrite !default_get.
  destruct (_ <? _); [by rewrite remaining_live|]. destruct (_ <? _); [by rewrite remaining_live|done].
Qed.
End script_facts.

(** ** Sequences of checks *)

Record Call := { call_at : Z; call_endpoint : Endpoint; call_identity : str; call_cost : Z }.

Section rates.
Context {IpNet : Type} (cfg : AdmissionCfg IpNet) (ns : str) `{RedisClock db}.

(** The checks that reached Redis, in the order their scripts ran there, newest first,
    and whether each was allowed. *)
Definition run_call (s : list (Call * bool) * db) (c : Call) : list (Call * bool) * db :=
  let '(log, d) := s in
  let '(decision, d) := check_redis cfg ns (call_endpoint c) (call_identity c) (call_cost c) (call_at c) d in
  ((c, match decision with Allowed => true | _ => false end) :: log, d).

Definition run_calls (calls : list Call) (d : db) : list (Call * bool) * db := foldl run_call ([], d) calls.

(** What was admitted of the calls that satisfy [sel]. *)
Fixpoint admitted (sel : Call -> bool) (log : list (Call * bool)) : history :=
  match log with
  | [] => []
  | (c, allowed) :: log' =>
      if (allowed : bool) && sel c then (call_at c, call_cost c) :: admitted sel log' else admitted sel log'
  end.

Definition of_endpoint (e : Endpoint) (c : Call) : bool := bool_decide (call_endpoint c = e).
Definition of_client (e : Endpoint) (i : str) (c : Call) : bool :=
  bool_decide (call_endpoint c = e) && bool_decide (call_identity c = i).

(** Windows are positive and no time is near the end of the server's 64 bits; the
    limits are not negative. *)
Definition cfg_ok : Prop :=
  0 < window_ms cfg <= 2 ^ 53 /\ forall e, 0 <= per_client (limits cfg e) /\ 0 <= global (limits cfg e).
Definition call_ok (c : Call) : Prop := 0 <= call_cost c /\ call_at c <= 2 ^ 53.

Lemma window_bounds e : cfg_ok -> 0 < window cfg e <= 2 ^ 53.
Proof. intros [Hw _]. unfold window, DIAG_WINDOW. destruct e; lia. Qed.

Definition rates_hold (s : list (Call * bool) * db) (now : Z) : Prop :=
  (forall e, counter_inv (window cfg e) (global (limits cfg e)) (admitted (of_endpoint e) s.1)
               (peek s.2 now (global_key ns e)) now)
  /\ (forall e i, counter_inv (window cfg e) (per_client (limits cfg e)) (admitted (of_client e i) s.1)
                    (peek s.2 now (client_key ns e i)) now).

Lemma rates_hold_later s now now' : now <= now' -> rates_hold s now -> rates_hold s now'.
Proof.
  intros Hn [Hg Hc]. split; [intros e|intros e i]; (eapply counter_inv_later; [exact Hn| |done]);
    apply peek_later, Hn.
Qed.

Lemma rates_hold_call s c :
  cfg_ok -> call_ok c -> rates_hold s (call_at c) -> rates_hold (run_call s c) (call_at c).
Proof.
  intros Hcfg [Hcost Htime] [Hg Hc]. destruct s as [log d]. destruct c as [now e i cost]. cbn in *.
  pose proof (window_bounds e Hcfg) as [Hw Hw'].
  assert (Z.min (window cfg e) i64_max = window cfg e) as Hmin by (unfold i64_max; lia).
  assert (now + window cfg e <= i64_max) as Hend by (unfold i64_max; lia).
  pose proof (counter_inv_expires _ _ _ _ _ (Hg e)) as Eg. pose proof (counter_inv_expires _ _ _ _ _ (Hc e i)) as Ec.
  unfold check_redis. rewrite Hmin, (script_spec _ _ _ _ _ _ _ Eg Ec).
  destruct (refused_by _ _ _ _ _ _) as [k|] eqn:Er; [by split|].
  unfold refused_by in Er. destruct (_ <? _) eqn:E1 in Er; [done|]. destruct (_ <? _) eqn:E2 in Er; [done|].
  apply Z.ltb_ge in E1, E2.
  assert (forall k', peek (bump (client_key ns e i) cost (window cfg e) now
                       (bump (global_key ns e) cost (window cfg e) now d)) now k'
    = if decide (k' = client_key ns e i) then spent (window cfg e) (peek d now (client_key ns e i)) cost now
      else if decide (k' = global_key ns e) then spent (window cfg e) (peek d now (global_key ns e)) cost now
      else peek d now k') as Hpeek.
  { intros k'. pose proof (keys_differ ns e e i) as Hne.
    rewrite peek_bump, !(peek_bump (global_key ns e)) by
      (rewrite ?peek_bump, ?decide_False by done; done). by rewrite (decide_False (P := client_key ns e i = _)) by done. }
  split; cbn.
  - intros e'. rewrite Hpeek, decide_False by apply keys_differ.
    unfold of_endpoint at 1. cbn. case_bool_decide as He.
    + subst e'. rewrite decide_True by done. by apply counter_inv_spend.
    + rewrite decide_False by (intros Hk%global_key_inj; congruence). apply Hg.
  - intros e' i'. rewrite Hpeek. unfold of_client at 1. cbn. case_decide as Hk.
    + apply client_key_inj in Hk as [-> ->]. rewrite !bool_decide_true by done. by apply counter_inv_spend.
    + rewrite decide_False by (apply not_eq_sym, keys_differ).
      replace (bool_decide _ && bool_decide _) with false; [apply Hc|].
      symmetry. apply andb_false_iff. destruct (decide (e = e')) as [->|]; [|by left; apply bool_decide_false].
      destruct (decide (i = i')) as [->|]; [done|by right; apply bool_decide_false].
Qed.

(** Nothing of the namespace is there yet. *)
Definition fresh (d : db) (now : Z) : Prop :=
  forall e, peek d now (global_key ns e) = None /\ forall i, peek d now (client_key ns e i) = None.

Lemma rates_hold_run calls d start now :
  cfg_ok -> fresh d start -> Forall call_ok calls -> StronglySorted (fun x y => call_at x <= call_at y) calls ->
  Forall (fun c => start <= call_at c <= now) calls -> start <= now -> rates_hold (run_calls calls d) now.
Proof.
  intros Hcfg Hd. unfold run_calls.
  assert (rates_hold ([], d) start) as Hstart.
  { destruct Hcfg as [_ HL]. split; [intros e|intros e i]; cbn; destruct (Hd e) as [Hg Hc];
      [rewrite Hg|rewrite Hc]; apply counter_inv_start, HL. }
  clear Hd. revert start Hstart. generalize (@nil (Call * bool), d). 
  induction calls as [|c calls IH]; intros s start Hs Hok Hsort Hnow Hle; [by eapply rates_hold_later|].
  inversion Hok; subst. inversion Hsort as [|? ? Hs' Hall]; subst. inversion Hnow as [|? ? [Hc1 Hc2] Hn']; subst. cbn.
  apply (IH _ (call_at c)); [|done..| |done].
  - apply rates_hold_call; [done..|]. by eapply rates_hold_later.
  - rewrite Forall_forall in Hall, Hn' |- *. intros x Hx. specialize (Hall x Hx). specialize (Hn' x Hx). lia.
Qed.
End rates.

(** C29: The request limits hold over any stretch of time: whatever calls arrive, at
    whatever servers, in any stretch of one window an endpoint admits at most twice its
    global limit in total and at most twice its per-client limit from one client. *)
Theorem admission_rate {IpNet} (cfg : AdmissionCfg IpNet) (ns : str) `{RedisClock db} calls (d : db) start e a :
  cfg_ok cfg -> fresh ns d start -> Forall call_ok calls ->
  StronglySorted (fun x y => call_at x <= call_at y) calls -> Forall (fun c => start <= call_at c) calls ->
  let log := (run_calls cfg ns calls d).1 in
  total (within a (window cfg e)) (admitted (of_endpoint e) log) <= 2 * global (limits cfg e)
  /\ forall i, total (within a (window cfg e)) (admitted (of_client e i) log) <= 2 * per_client (limits cfg e).
Proof.
  intros Hcfg Hd Hok Hsort Hstart log.
  set (now := foldr (fun c t => Z.max (call_at c) t) start calls).
  assert (start <= now /\ Forall (fun c => start <= call_at c <= now) calls) as [Hn Hall].
  { unfold now. clear - Hstart. induction Hstart as [|c calls Hc _ [IH1 IH2]]; cbn; [split; [lia|constructor]|].
    split; [lia|]. constructor; [lia|]. eapply Forall_impl; [exact IH2|]. cbn. lia. }
  destruct (rates_hold_run cfg ns calls d start now Hcfg Hd Hok Hsort Hall Hn) as [Hg Hc].
  split; [eapply counter_inv_bound, Hg|]. intros i. eapply counter_inv_bound, Hc.
Qed.

(** A check is decided exactly by its counters, and a refusal is honest: it changes
    nothing, and the wait it names is the rest of the refusing counter's life, rounded
    up to seconds and at least one, so when it is over that counter starts afresh. *)
Theorem refusal_honest {IpNet} (cfg : AdmissionCfg IpNet) (ns : str) `{RedisClock db} calls (d0 : db) start e i cost now :
  cfg_ok cfg -> fresh ns d0 start -> Forall call_ok calls ->
  StronglySorted (fun x y => call_at x <= call_at y) calls -> Forall (fun c => start <= call_at c <= now) calls ->
  start <= now -> now <= 2 ^ 53 ->
  let d := (run_calls cfg ns calls d0).2 in
  let refusing := refused_by (global_key ns e) (client_key ns e i) (limits cfg e) cost now d in
  match check_redis cfg ns e i cost now d with
  | (Allowed, _) => refusing = None
  | (Limited seconds, d') => exists k, refusing = Some k /\ d' = d
      /\ (forall later, now + 1000 * seconds < later -> peek d later k = None)
      /\ 1 <= seconds
      /\ (forall n expiry, peek d now k = Some (n, Some expiry) -> now < expiry -> now + 1000 * (seconds - 1) < expiry)
  | (Unavailable, _) => False
  end.
Proof.
  intros Hcfg Hd Hok Hsort Hall Hn Hmax d refusing.
  destruct (rates_hold_run cfg ns calls d0 start now Hcfg Hd Hok Hsort Hall Hn) as [Hg Hc]. fold d in Hg, Hc.
  pose proof (counter_inv_expires _ _ _ _ _ (Hg e)) as Eg. pose proof (counter_inv_expires _ _ _ _ _ (Hc e i)) as Ec.
  assert (forall k n x, refusing = Some k -> peek d now k = Some (n, Some x) -> x <= now + window cfg e) as Hx.
  { intros k n x. unfold refusing, refused_by. destruct (_ <? _); [|destruct (_ <? _); [|done]]; intros [= <-] Hk.
    - destruct (Hg e) as (_ & _ & _ & Hi). rewrite Hk in Hi. destruct Hi as (? & ? & _ & _ & _ & ? & _). lia.
    - destruct (Hc e i) as (_ & _ & _ & Hi). rewrite Hk in Hi. destruct Hi as (? & ? & _ & _ & _ & ? & _). lia. }
  pose proof (window_bounds cfg e Hcfg) as Hw.
  unfold check_redis. rewrite (script_spec _ _ _ _ _ _ _ Eg Ec). fold refusing.
  destruct refusing as [k|] eqn:Er; cbn; [|done]. exists k. split; [done|]. split; [done|].
  unfold milliseconds_to_seconds, sat_add_u64, u64_max.
  destruct (peek d now k) as [[n [x|]]|] eqn:Ek.
  - pose proof (peek_live _ _ _ _ _ Ek). specialize (Hx k n x eq_refl Ek).
    rewrite Z.min_r by lia. split_and!.
    + intros later Hl. eapply (peek_gone d now later k n x); [|done|]; Z.to_euclidean_division_equations; lia.
    + apply Z.div_le_lower_bound; lia.
    + intros n' x' [= <- <-] Hlt. Z.to_euclidean_division_equations. lia.
  - exfalso. unfold refusing, refused_by in Er. destruct (_ <? _); [|destruct (_ <? _); [|done]]; injection Er as <-;
      [by destruct (Eg n)|by destruct (Ec n)].
  - split_and!; [|done..]. intros later Hl. change (_ / 1000) with 1 in Hl. apply (peek_none_later d now); [lia|done].
Qed.

(** ** The configuration *)

Definition limit_ok (l : AdmissionLimitCfg) : Prop := 1 <= per_client l <= global l /\ global l <= u32_max.

Lemma admission_value_ok env k def n : 1 <= def -> admission_value env k def = Some n -> 1 <= n.
Proof.
  unfold admission_value. intros Hd H. destruct (env k) as [s| |]; [|by simplify_eq|done].
  destruct (parse_u64 s) as [m|]; [|done]. destruct (Z.ltb_spec 0 m); simplify_eq. lia.
Qed.

Lemma admission_u32_ok env k def n : 1 <= def -> admission_u32 env k def = Some n -> 1 <= n <= u32_max.
Proof.
  unfold admission_u32. intros Hd H. destruct (admission_value env k def) as [m|] eqn:E; [|done].
  apply admission_value_ok in E; [|done]. destruct (Z.leb_spec m u32_max); simplify_eq. lia.
Qed.

Lemma admission_limit_ok env prefix dc dg l :
  1 <= dc -> 1 <= dg -> admission_limit env prefix dc dg = Some l -> limit_ok l.
Proof.
  intros Hc Hg H. unfold admission_limit in H. apply bind_Some in H as (g & Eg & H). apply bind_Some in H as (p & Ep & H).
  apply admission_u32_ok in Eg; [|done]. apply admission_u32_ok in Ep; [|lia].
  destruct (Z.leb_spec p g); [|done]. injection H as <-. unfold limit_ok. cbn. lia.
Qed.

(** A server only starts with limits that make sense: every endpoint admits at least
    one request per client and no client more than everybody together, all in 32 bits;
    the window is at least a second, a permit exists, and a host that has a name has
    the proxies in front of it listed. *)
Theorem admission_cfg_typed {IpNet} (parse_net : str -> option IpNet) from_ip read_lines env cfg :
  admission_from_env parse_net from_ip read_lines env = Some cfg ->
  (forall e, limit_ok (limits cfg e)) /\ 1000 <= window_ms cfg /\ 1 <= timeout_ms cfg /\ 1 <= max_in_flight cfg
  /\ (is_Some (env_opt env (lit "SCD_HOST")) -> trusted_proxies cfg <> []).
Proof.
  unfold admission_from_env. intros H.
  do 22 (apply bind_Some in H as (? & ? & H)).
  destruct (_ && _) eqn:Ehost; [done|].
  do 3 (apply bind_Some in H as (? & ?%admission_value_ok & H); [|done]).
  injection H as <-. cbn. split_and!; try lia.
  - intros e. destruct e; cbn; (eapply admission_limit_ok; [| |eassumption]); lia.
  - intros Hh Hp. rewrite bool_decide_true in Ehost by done. by rewrite Hp in Ehost.
Qed.

(** ** Witnesses *)

Module Sample.
Definition five : AdmissionLimitCfg := {| per_client := 2; global := 5 |}.
Definition cfg : AdmissionCfg Z := {|
  window_ms := 60000; timeout_ms := 100; max_in_flight := 16; login := five; link_create := five; resolve := five;
  sc_search := five; catalog_miss := five; room_list := five; room_create := five; room_join := five;
  voice_link_code := five; voice_remote := five; voice_remote_wait := five; voice_page_ip := five;
  voice_page_client := five; voice_salut_sub := five; voice_utterance := five; voice_resolve := five;
  voice_alice_ip := five; voice_salut_ip := five; diag_bundle := five; diag_events := five; diag_bytes := five;
  trusted_proxies := [] |}.

Definition ns : str := lit "public:admission".
Definition call (t : Z) (i : string) : Call :=
  {| call_at := t; call_endpoint := Login; call_identity := lit i; call_cost := 1 |}.

(** Two requests at the end of a window and two at the start of the next: the bound
    is reached. *)
Definition calls : list Call :=
  [call 1000 "a"; call 60500 "a"; call 60600 "a"; call 61001 "a"; call 61002 "a"; call 61003 "a"].

Definition empty : gmap str rentry := ∅.

Lemma cfg_ok_sample : cfg_ok cfg.
Proof. split; [cbn; lia|]. intros []; cbn; lia. Qed.

Lemma fresh_sample : fresh ns empty 0.
Proof. intros e. split; [|intros i]; reflexivity. Qed.

Lemma calls_ok : Forall call_ok calls.
Proof. unfold calls, call_ok. repeat constructor; cbn; lia. Qed.

Lemma calls_sorted : StronglySorted (fun x y => call_at x <= call_at y) calls.
Proof. unfold calls. repeat constructor; cbn; lia. Qed.

Lemma admission_rate_witness :
  total (within 60500 60000) (admitted (of_client Login (lit "a")) (run_calls cfg ns calls empty).1) = 3
  /\ total (within 60500 60000) (admitted (of_client Login (lit "a")) (run_calls cfg ns calls empty).1)
     <= 2 * per_client (limits cfg Login).
Proof.
  split; [vm_compute; reflexivity|].
  exact (proj2 (admission_rate cfg ns calls empty 0 Login 60500 cfg_ok_sample fresh_sample calls_ok calls_sorted
                 ltac:(unfold calls; repeat constructor; cbn; lia)) (lit "a")).
Defined.

Lemma refusal_honest_witness :
  (check_redis cfg ns Login (lit "a") 1 61003 (run_calls cfg ns calls empty).2).1 = Limited 60
  /\ match check_redis cfg ns Login (lit "a") 1 61003 (run_calls cfg ns calls empty).2 with
     | (Limited seconds, d') => 1 <= seconds /\ d' = (run_calls cfg ns calls empty).2
     | _ => False
     end.
Proof.
  assert ((check_redis cfg ns Login (lit "a") 1 61003 (run_calls cfg ns calls empty).2).1 = Limited 60) as Hc
    by (vm_compute; reflexivity).
  split; [exact Hc|].
  pose proof (refusal_honest cfg ns calls empty 0 Login (lit "a") 1 61003 cfg_ok_sample fresh_sample calls_ok
    calls_sorted ltac:(unfold calls; repeat constructor; cbn; lia) ltac:(lia) ltac:(lia)) as Hh.
  cbn zeta in Hh. destruct (check_redis _ _ _ _ _ _ _) as [[|s|] d']; try discriminate Hc.
  destruct Hh as (k & _ & Hd & _ & Hs & _). exact (conj Hs Hd).
Defined.

Lemma admission_cfg_typed_witness :
  exists c, admission_from_env (fun _ => None) (fun _ => 0) (fun _ => None) (fun _ => NotPresent) = Some c
    /\ limit_ok (limits c Resolve).
Proof.
  eexists. split; [vm_compute; reflexivity|].
  apply (admission_cfg_typed (fun _ => None) (fun _ => 0) (fun _ => None) (fun _ => NotPresent)). vm_compute. reflexivity.
Defined.
End Sample.
