(* ===== verification/Windows.v ===== *)
(** * Windows: counting requests in memory

    Source: [api/src/common/windows.rs].  A [Window] counts everybody, [Clients] counts
    each client and remembers at most [CLIENTS_TRACKED] of them.  An [Instant] is
    nanoseconds; the [HashMap] is a finite map, whose iteration order [compact] sorts
    away.  Each operation runs under its mutex, so it is one step. *)

From Stdlib Require Import ZArith Lia.
From stdpp Require Import base list numbers option tactics gmap fin_maps sets sorting fin_map_dom.
From S2P Require Import Prelude Text RoomModel RoomInvariant RedisClock.
Local Open Scope Z_scope.

Definition second : Z := 1000000000.
Definition millisecond : Z := 1000000.
Definition AUTH_WINDOW : Z := 60 * second.
Definition CLIENTS_TRACKED : Z := 10000.

(** [saturating_duration_since]. *)
Definition since (now started : Z) : Z := Z.max 0 (now - started).

Definition retry_ms (window started now : Z) : Z :=
  let left := Z.max 0 (window - since now started) in
  Z.max (Z.min (left / millisecond) u64_max) 1.

(** ** Everybody together *)

Record Window := { w_limit : Z; w_started : Z; w_used : Z }.

Definition window_new (limit now : Z) : Window := {| w_limit := limit; w_started := now; w_used := 0 |}.

Definition window_admit (w : Window) (now : Z) : result unit Z * Window :=
  let '(started, used) :=
    if AUTH_WINDOW <=? since now (w_started w) then (now, 0) else (w_started w, w_used w) in
  let opened used := {| w_limit := w_limit w; w_started := started; w_used := used |} in
  if w_limit w <=? used then (Err (retry_ms AUTH_WINDOW started now), opened used)
  else (Ok tt, opened (used + 1)).

Definition full (w : Window) (now : Z) : bool :=
  (since now (w_started w) <? AUTH_WINDOW) && (w_limit w <=? w_used w).

(** ** Client by client *)

Record Tracked := { windows : gmap str (Z * Z); opened : list (Z * str) }.

Definition tracked_default : Tracked := {| windows := ∅; opened := [] |}.

Record Clients := { c_limit : Z; c_window : Z; tracked : Tracked }.

Definition clients_new (limit window : Z) : Clients :=
  {| c_limit := limit; c_window := window; tracked := tracked_default |}.

(** The loop of [evict_oldest]: what is left of the queue and of the windows. *)
Fixpoint evict_from (windows : gmap str (Z * Z)) (opened : list (Z * str)) : Tracked :=
  match opened with
  | [] => {| windows := windows; opened := [] |}
  | (started, client) :: opened' =>
      match windows !! client with
      | Some (current, _) =>
          if current =? started then {| windows := delete client windows; opened := opened' |}
          else evict_from windows opened'
      | None => evict_from windows opened'
      end
  end.

Definition evict_oldest (t : Tracked) : Tracked := evict_from (windows t) (opened t).

(** The order of [(Instant, String)]. *)
Definition opened_le (x y : Z * str) : bool :=
  match then_cmp (Z.compare x.1 y.1) (str_cmp x.2 y.2) with Gt => false | _ => true end.

Definition live_list (windows : gmap str (Z * Z)) : list (Z * str) :=
  map (fun '(client, (started, _)) => (started, client)) (map_to_list windows).

Definition compact (t : Tracked) : Tracked :=
  if Z.of_nat (length (opened t)) <=? 2 * CLIENTS_TRACKED then t
  else {| windows := windows t; opened := sort_by opened_le (live_list (windows t)) |}.

(** A window opened now, with its first request. *)
Definition open_window (client : str) (now : Z) (t : Tracked) : Tracked :=
  compact {| windows := <[client := (now, 1)]> (windows t); opened := opened t ++ [(now, client)] |}.

Definition tracked_admit (limit window : Z) (client : str) (now : Z) (t : Tracked) : result unit Z * Tracked :=
  match windows t !! client with
  | Some (started, used) =>
      if since now started <? window then
        if limit <=? used then (Err (retry_ms window started now), t)
        else (Ok tt, {| windows := <[client := (started, used + 1)]> (windows t); opened := opened t |})
      else (Ok tt, open_window client now t)
  | None =>
      let t := if CLIENTS_TRACKED <=? Z.of_nat (size (windows t)) then evict_oldest t else t in
      (Ok tt, open_window client now t)
  end.

Definition clients_admit (c : Clients) (client : str) (now : Z) : result unit Z * Clients :=
  let '(r, t) := tracked_admit (c_limit c) (c_window c) client now (tracked c) in
  (r, {| c_limit := c_limit c; c_window := c_window c; tracked := t |}).

(** * What the counters in memory guarantee

    [tracked_ok] is the invariant of [Clients]: every window is queued, so an eviction
    always finds one, and neither the windows nor the queue grow beyond their bounds.
    As long as not more clients come than are tracked, [Clients] is a counter per client
    ([clients_as_reference]), and such counters obey their limits ([RedisClock]). *)

Arguments compact : simpl never.

Lemma retry_ms_bounds window started now : 1 <= retry_ms window started now <= Z.max 1 (window / millisecond).
Proof.
  unfold retry_ms, since. set (left := Z.max 0 (window - _)).
  assert (left / millisecond <= Z.max 0 window / millisecond) as H by (apply Z.div_le_mono; unfold millisecond; lia).
  assert (Z.max 0 window / millisecond <= Z.max 1 (window / millisecond)) by
    (destruct (Z.max_spec 0 window) as [[? ->]|[? ->]]; [lia|change (0 / millisecond) with 0; lia]).
  lia.
Qed.

(** ** The queue of windows *)

(** Every window is queued under the time it was opened at. *)
Definition queued (ws : gmap str (Z * Z)) (q : list (Z * str)) : Prop :=
  forall c s u, ws !! c = Some (s, u) -> (s, c) ∈ q.

Lemma evict_spec ws q :
  queued ws q -> ws <> ∅ ->
  exists pre s0 c0 u0 q', q = pre ++ (s0, c0) :: q' /\ ws !! c0 = Some (s0, u0)
    /\ evict_from ws q = {| windows := delete c0 ws; opened := q' |}
    /\ forall s c u, (s, c) ∈ pre -> ws !! c <> Some (s, u).
Proof.
  intros Hq Hne. revert Hq. induction q as [|[s c] q IH]; intros Hq.
  - destruct (map_choose ws Hne) as (c & [s u] & Hc). apply Hq in Hc. set_solver.
  - cbn [evict_from]. destruct (ws !! c) as [[cur u]|] eqn:E; [destruct (Z.eqb_spec cur s) as [->|Hs]|].
    + exists [], s, c, u, q. split_and!; [done..|]. set_solver.
    + destruct IH as (pre & s0 & c0 & u0 & q' & -> & H1 & H2 & H3).
      { intros c' s' u' Hc. specialize (Hq _ _ _ Hc). apply elem_of_cons in Hq as [[= -> ->]|]; [|done].
        rewrite Hc in E. by simplify_eq. }
      exists ((s, c) :: pre), s0, c0, u0, q'. split_and!; [done..|].
      intros s' c' u' [[= -> ->]|Hin]%elem_of_cons Hc; [|by eapply H3]. rewrite Hc in E. by simplify_eq.
    + destruct IH as (pre & s0 & c0 & u0 & q' & -> & H1 & H2 & H3).
      { intros c' s' u' Hc. specialize (Hq _ _ _ Hc). apply elem_of_cons in Hq as [[= -> ->]|]; [|done]. congruence. }
      exists ((s, c) :: pre), s0, c0, u0, q'. split_and!; [done..|].
      intros s' c' u' [[= -> ->]|Hin]%elem_of_cons Hc; [congruence|by eapply H3].
Qed.

Lemma live_list_elem ws s c : (s, c) ∈ live_list ws <-> exists u, ws !! c = Some (s, u).
Proof.
  unfold live_list. rewrite list_elem_of_fmap. split.
  - intros ([c' [s' u']] & [= -> ->] & H). apply elem_of_map_to_list in H. by exists u'.
  - intros [u H]. exists (c, (s, u)). by rewrite elem_of_map_to_list.
Qed.

Lemma live_list_length ws : length (live_list ws) = size ws.
Proof. unfold live_list. rewrite length_map. apply length_map_to_list. Qed.

Lemma compact_queued t : queued (windows t) (opened t) -> queued (windows (compact t)) (opened (compact t)).
Proof.
  intros H. unfold compact. destruct (_ <=? _); [done|]. cbn. intros c s u Hc.
  rewrite sort_by_perm. apply live_list_elem. by exists u.
Qed.

Lemma compact_windows t : windows (compact t) = windows t.
Proof. unfold compact. by destruct (_ <=? _). Qed.

Lemma compact_length t :
  Z.of_nat (size (windows t)) <= CLIENTS_TRACKED ->
  Z.of_nat (length (opened (compact t))) <= 2 * CLIENTS_TRACKED.
Proof.
  intros H. unfold compact. destruct (Z.leb_spec (Z.of_nat (length (opened t))) (2 * CLIENTS_TRACKED)); [done|].
  cbn. rewrite (Permutation_length (sort_by_perm _ _)), live_list_length. unfold CLIENTS_TRACKED in *. lia.
Qed.

(** ** The invariant *)

Definition tracked_ok (limit : Z) (t : Tracked) : Prop :=
  queued (windows t) (opened t)
  /\ (forall c s u, windows t !! c = Some (s, u) -> 1 <= u <= Z.max 1 limit)
  /\ Z.of_nat (size (windows t)) <= CLIENTS_TRACKED
  /\ Z.of_nat (length (opened t)) <= 2 * CLIENTS_TRACKED.

Lemma open_window_ok limit client now t :
  queued (windows t) (opened t) -> (forall c s u, windows t !! c = Some (s, u) -> 1 <= u <= Z.max 1 limit) ->
  Z.of_nat (size (<[client := (now, 1)]> (windows t))) <= CLIENTS_TRACKED ->
  tracked_ok limit (open_window client now t).
Proof.
  intros Hq Hu Hs. unfold open_window. split_and!.
  - apply compact_queued. cbn. intros c s u. rewrite lookup_insert_Some. intros [[<- [= <- <-]]|[_ H]]; [set_solver|].
    apply Hq in H. set_solver.
  - rewrite compact_windows. cbn. intros c s u. rewrite lookup_insert_Some. intros [[<- [= <- <-]]|[_ H]]; [lia|by eapply Hu].
  - by rewrite compact_windows.
  - by apply compact_length.
Qed.

(** Room for one more: the windows that stay, and that they are still queued. *)
Definition make_room (t : Tracked) : Tracked :=
  if CLIENTS_TRACKED <=? Z.of_nat (size (windows t)) then evict_oldest t else t.

Lemma make_room_spec limit t :
  tracked_ok limit t ->
  Z.of_nat (size (windows (make_room t))) + 1 <= CLIENTS_TRACKED
  /\ queued (windows (make_room t)) (opened (make_room t)) /\ windows (make_room t) ⊆ windows t.
Proof.
  intros (Hq & _ & Hs & _). unfold make_room. destruct (Z.leb_spec CLIENTS_TRACKED (Z.of_nat (size (windows t)))) as [H|H].
  - unfold evict_oldest. destruct (evict_spec (windows t) (opened t)) as (pre & s0 & c0 & u0 & q' & Eq & H0 & -> & Hpre); [done| |].
    { intros E. rewrite E, map_size_empty in H. unfold CLIENTS_TRACKED in H. lia. }
    cbn. split_and!.
    + rewrite map_size_delete, H0. unfold CLIENTS_TRACKED in *. lia.
    + intros c s u [Hne Hc]%lookup_delete_Some. pose proof (Hq _ _ _ Hc) as Hin. rewrite Eq in Hin.
      apply elem_of_app in Hin as [Hin|[[= -> ->]|Hin]%elem_of_cons]; [by destruct (Hpre _ _ u Hin)|done|done].
    + apply delete_subseteq.
  - split_and!; [lia|done|done].
Qed.

Lemma tracked_admit_ok limit window client now t :
  tracked_ok limit t -> tracked_ok limit (tracked_admit limit window client now t).2.
Proof.
  intros Hok. pose proof Hok as (Hq & Hu & Hs & Hl). unfold tracked_admit.
  destruct (windows t !! client) as [[started used]|] eqn:E.
  - pose proof (Hu _ _ _ E). destruct (since now started <? window).
    + destruct (Z.leb_spec limit used); [done|]. cbn. split_and!; cbn; [| |rewrite map_size_insert, E|]; [| |done..].
      * intros c s u. rewrite lookup_insert_Some. intros [[<- [= <- <-]]|[_ Hc]]; [by eapply Hq|by eapply Hq].
      * intros c s u. rewrite lookup_insert_Some. intros [[<- [= <- <-]]|[_ Hc]]; [lia|by eapply Hu].
    + cbn. apply open_window_ok; [done..|]. by rewrite map_size_insert, E.
  - cbn. fold (make_room t). destruct (make_room_spec limit t Hok) as (H1 & H2 & H3).
    apply open_window_ok; [done| |].
    + intros c s u Hc. eapply Hu, lookup_weaken; eassumption.
    + rewrite map_size_insert. destruct (windows (make_room t) !! client); cbn [id]; unfold id; lia.
Qed.

(** ** Sequences of requests *)

Section runs.
Context (limit window : Z).

Definition arrival : Type := str * Z.

(** Who asked when, and whether it was admitted, newest first. *)
Definition step_tracked (s : list (arrival * bool) * Tracked) (a : arrival) : list (arrival * bool) * Tracked :=
  let '(log, t) := s in
  let '(r, t) := tracked_admit limit window a.1 a.2 t in ((a, is_ok r) :: log, t).

Definition run_tracked (calls : list arrival) : list (arrival * bool) * Tracked :=
  foldl step_tracked ([], tracked_default) calls.

Lemma run_tracked_snoc calls a : run_tracked (calls ++ [a]) = step_tracked (run_tracked calls) a.
Proof. unfold run_tracked. by rewrite foldl_app. Qed.

Lemma tracked_default_ok : tracked_ok limit tracked_default.
Proof. split_and!; cbn; [intros c s u; rewrite lookup_empty; done..|unfold CLIENTS_TRACKED; rewrite ?map_size_empty; lia|done]. Qed.

Lemma run_tracked_ok calls : tracked_ok limit (run_tracked calls).2.
Proof.
  induction calls as [|a calls IH] using rev_ind; [apply tracked_default_ok|]. rewrite run_tracked_snoc.
  unfold step_tracked. destruct (run_tracked calls) as [log t]. cbn in IH.
  pose proof (tracked_admit_ok limit window a.1 a.2 t IH) as H. by destruct (tracked_admit _ _ _ _ _).
Qed.

(** *** In the order of time the oldest window goes first *)

Definition in_order : list (Z * str) -> Prop := StronglySorted (fun x y => x.1 <= y.1).

Lemma opened_le_order x y : opened_le x y = true -> x.1 <= y.1.
Proof. unfold opened_le. destruct (Z.compare_spec x.1 y.1); cbn; intros; lia || done. Qed.

Lemma opened_le_total x y : opened_le x y = false -> opened_le y x = true.
Proof.
  unfold opened_le. rewrite (Z.compare_antisym x.1 y.1), (str_cmp_opp x.2 y.2).
  destruct (x.1 ?= y.1), (str_cmp x.2 y.2); done.
Qed.

Lemma opened_le_trans x y z : opened_le x y = true -> opened_le y z = true -> opened_le x z = true.
Proof.
  unfold opened_le. pose proof (str_cmp_trans x.2 y.2 z.2).
  destruct (Z.compare_spec x.1 y.1), (Z.compare_spec y.1 z.1), (Z.compare_spec x.1 z.1); cbn; try done; try lia.
  destruct (str_cmp x.2 y.2), (str_cmp y.2 z.2), (str_cmp x.2 z.2); try done; intros; by destruct H.
Qed.

Lemma open_window_order client now t :
  in_order (opened t) -> Forall (fun x => x.1 <= now) (opened t) ->
  (forall c s u, windows t !! c = Some (s, u) -> s <= now) ->
  in_order (opened (open_window client now t)) /\ Forall (fun x => x.1 <= now) (opened (open_window client now t)).
Proof.
  intros Ho Hn Hw. unfold open_window, compact. destruct (_ <=? _); cbn.
  - split.
    + apply StronglySorted_app_2; [|done|repeat constructor]. intros x y Hx ->%list_elem_of_singleton.
      rewrite Forall_forall in Hn. by apply Hn.
    + apply Forall_app. split; [done|]. repeat constructor. cbn. lia.
  - split.
    + eapply StronglySorted_weaken; [|apply sort_by_sorted; [apply opened_le_total|apply opened_le_trans]].
      apply opened_le_order.
    + rewrite sort_by_perm. apply Forall_forall. intros [s c] [u Hu]%live_list_elem. cbn in *.
      apply lookup_insert_Some in Hu as [[_ [= <- _]]|[_ Hu]]; [lia|by eapply Hw].
Qed.

Definition ordered_upto (now : Z) (t : Tracked) : Prop :=
  in_order (opened t) /\ Forall (fun x => x.1 <= now) (opened t).

Lemma windows_upto now t c s u :
  queued (windows t) (opened t) -> ordered_upto now t -> windows t !! c = Some (s, u) -> s <= now.
Proof. intros Hq [_ Hn] Hc. apply Hq in Hc. rewrite Forall_forall in Hn. apply (Hn _ Hc). Qed.

Lemma make_room_ordered now t : tracked_ok limit t -> ordered_upto now t -> ordered_upto now (make_room t).
Proof.
  intros (Hq & _) Ho. unfold make_room. destruct (_ <=? _) eqn:E; [|done].
  unfold evict_oldest. destruct (evict_spec (windows t) (opened t)) as (pre & s0 & c0 & u0 & q' & Eq & _ & -> & _); [done| |].
  { intros Hw. rewrite Hw, map_size_empty in E. done. }
  unfold ordered_upto in *. cbn. rewrite Eq in Ho. destruct Ho as [H1 H2]. split.
  - by eapply StronglySorted_app_1_r, StronglySorted_app_1_r with (l1 := [_]) in H1.
  - rewrite Forall_app, Forall_cons_iff in H2. tauto.
Qed.

Lemma tracked_admit_ordered client now t :
  tracked_ok limit t -> ordered_upto now t -> ordered_upto now (tracked_admit limit window client now t).2.
Proof.
  intros Hok Ho. pose proof Hok as (Hq & _). unfold tracked_admit.
  destruct (windows t !! client) as [[started used]|] eqn:E.
  - destruct (_ <? _); [by destruct (_ <=? _)|]. destruct Ho as [H1 H2]. apply open_window_order; [done..|].
    intros c s u. by eapply windows_upto.
  - cbn. fold (make_room t). destruct (make_room_spec limit t Hok) as (_ & Hq' & _).
    pose proof (make_room_ordered now t Hok Ho) as Ho'. destruct Ho' as [H1 H2]. apply open_window_order; [done..|].
    intros c s u. by eapply windows_upto.
Qed.

Lemma ordered_later now now' t : now <= now' -> ordered_upto now t -> ordered_upto now' t.
Proof. intros Hn [H1 H2]. split; [done|]. eapply Forall_impl; [exact H2|]. cbn. lia. Qed.

Definition arrivals_sorted : list arrival -> Prop := StronglySorted (fun x y => x.2 <= y.2).

Lemma run_tracked_ordered calls now :
  arrivals_sorted calls -> Forall (fun a => a.2 <= now) calls -> ordered_upto now (run_tracked calls).2.
Proof.
  revert now. induction calls as [|a calls IH] using rev_ind; intros now Hs Hn; [by split; constructor|].
  apply StronglySorted_app in Hs as (Hle & Hs & _). rewrite Forall_app, Forall_singleton in Hn. destruct Hn as [_ Hn].
  rewrite run_tracked_snoc. unfold step_tracked. pose proof (run_tracked_ok calls) as Hok.
  assert (ordered_upto a.2 (run_tracked calls).2) as Ho.
  { apply IH; [done|]. apply Forall_forall. intros x Hx. apply Hle; set_solver. }
  destruct (run_tracked calls) as [log t]. pose proof (tracked_admit_ordered a.1 a.2 t Hok Ho) as H.
  destruct (tracked_admit _ _ _ _ _). by eapply ordered_later.
Qed.

(** The oldest window makes room for a new client. *)
Lemma evicts_oldest now client t :
  tracked_ok limit t -> ordered_upto now t -> windows t !! client = None ->
  CLIENTS_TRACKED <= Z.of_nat (size (windows t)) ->
  exists gone s u, windows t !! gone = Some (s, u)
    /\ windows (tracked_admit limit window client now t).2 = <[client := (now, 1)]> (delete gone (windows t))
    /\ forall c s' u', windows t !! c = Some (s', u') -> s <= s'.
Proof.
  intros (Hq & _) [Ho _] Hc Hfull. unfold tracked_admit. rewrite Hc. destruct (Z.leb_spec CLIENTS_TRACKED (Z.of_nat (size (windows t)))); [|lia].
  unfold evict_oldest. destruct (evict_spec (windows t) (opened t)) as (pre & s0 & c0 & u0 & q' & Eq & H0 & -> & Hpre); [done| |].
  { intros Hw. rewrite Hw, map_size_empty in Hfull. done. }
  exists c0, s0, u0. split; [done|]. split; [cbn; unfold open_window; by rewrite compact_windows|].
  intros c s' u' Hc'. pose proof (Hq _ _ _ Hc') as Hin. rewrite Eq in Hin, Ho.
  apply StronglySorted_app_1_r, StronglySorted_cons in Ho as [Ho _].
  apply elem_of_app in Hin as [Hin|[[= -> ->]|Hin]%elem_of_cons]; [by destruct (Hpre _ _ u' Hin)|lia|].
  rewrite Forall_forall in Ho. apply (Ho _ Hin).
Qed.
End runs.

(** The memory of [Clients] is bounded and forgets the right thing: after any
    requests it tracks at most [CLIENTS_TRACKED] clients and queues at most twice as
    many windows, and when it is full a new client displaces exactly one, whose window
    was opened no later than any other's. *)
Theorem clients_bounded limit window calls :
  arrivals_sorted calls ->
  let t := (run_tracked limit window calls).2 in
  Z.of_nat (size (windows t)) <= CLIENTS_TRACKED /\ Z.of_nat (length (opened t)) <= 2 * CLIENTS_TRACKED
  /\ (forall client now, Forall (fun a => a.2 <= now) calls -> windows t !! client = None ->
        CLIENTS_TRACKED <= Z.of_nat (size (windows t)) ->
        exists gone s u, windows t !! gone = Some (s, u)
          /\ windows (tracked_admit limit window client now t).2 = <[client := (now, 1)]> (delete gone (windows t))
          /\ forall c s' u', windows t !! c = Some (s', u') -> s <= s').
Proof.
  intros Hs t. pose proof (run_tracked_ok limit window calls) as Hok. pose proof Hok as (_ & _ & H1 & H2).
  split_and!; [done..|]. intros client now Hn. apply (evicts_oldest limit window now client t); [done|].
  by apply run_tracked_ordered.
Qed.

(** ** A counter per client *)

Section reference.
Context (limit window : Z).

(** What [Clients] means: one window per client, none forgotten. *)
Definition ref_admit (client : str) (now : Z) (ws : gmap str (Z * Z)) : result unit Z * gmap str (Z * Z) :=
  match ws !! client with
  | Some (started, used) =>
      if since now started <? window then
        if limit <=? used then (Err (retry_ms window started now), ws)
        else (Ok tt, <[client := (started, used + 1)]> ws)
      else (Ok tt, <[client := (now, 1)]> ws)
  | None => (Ok tt, <[client := (now, 1)]> ws)
  end.

Definition step_ref (s : list (arrival * bool) * gmap str (Z * Z)) (a : arrival) :=
  let '(log, ws) := s in
  let '(r, ws) := ref_admit a.1 a.2 ws in ((a, is_ok r) :: log, ws).

Definition run_ref (calls : list arrival) : list (arrival * bool) * gmap str (Z * Z) :=
  foldl step_ref ([], ∅) calls.

Lemma run_ref_snoc calls a : run_ref (calls ++ [a]) = step_ref (run_ref calls) a.
Proof. unfold run_ref. by rewrite foldl_app. Qed.

Definition clients_of (calls : list arrival) : gset str := list_to_set calls.*1.

Lemma run_ref_dom calls : dom (run_ref calls).2 ⊆ clients_of calls.
Proof.
  induction calls as [|a calls IH] using rev_ind; [cbn; rewrite dom_empty_L; done|]. rewrite run_ref_snoc. unfold step_ref.
  destruct (run_ref calls) as [log ws]. cbn in IH. unfold clients_of in *. rewrite fmap_app, list_to_set_app_L. cbn.
  unfold ref_admit. destruct (ws !! a.1) as [[s u]|]; [destruct (_ <? _); [destruct (_ <=? _)|]|]; cbn; rewrite ?dom_insert_L; set_solver.
Qed.

Lemma tracked_admit_ref client now t :
  (windows t !! client = None -> Z.of_nat (size (windows t)) < CLIENTS_TRACKED) ->
  let '(r, t') := tracked_admit limit window client now t in ref_admit client now (windows t) = (r, windows t').
Proof.
  intros Hs. unfold tracked_admit, ref_admit, open_window. destruct (windows t !! client) as [[s u]|].
  - destruct (_ <? _); [by destruct (_ <=? _)|]. by rewrite compact_windows.
  - destruct (Z.leb_spec CLIENTS_TRACKED (Z.of_nat (size (windows t)))); [specialize (Hs eq_refl); lia|]. by rewrite compact_windows.
Qed.

Lemma run_tracked_ref calls :
  Z.of_nat (size (clients_of calls)) <= CLIENTS_TRACKED ->
  (run_tracked limit window calls).1 = (run_ref calls).1 /\ windows (run_tracked limit window calls).2 = (run_ref calls).2.
Proof.
  induction calls as [|a calls IH] using rev_ind; intros Hs; [done|].
  assert (clients_of (calls ++ [a]) = clients_of calls ∪ {[a.1]}) as Hc.
  { unfold clients_of. rewrite fmap_app, list_to_set_app_L. cbn. set_solver. }
  rewrite Hc in Hs. destruct IH as [IH1 IH2].
  { pose proof (subseteq_size (clients_of calls) (clients_of calls ∪ {[a.1]}) ltac:(set_solver)). lia. }
  pose proof (run_ref_dom calls) as Hdom. rewrite run_tracked_snoc, run_ref_snoc. unfold step_tracked, step_ref.
  destruct (run_tracked limit window calls) as [log t], (run_ref calls) as [log' ws]. cbn in *. subst log' ws.
  pose proof (tracked_admit_ref a.1 a.2 t) as Ht. destruct (tracked_admit limit window a.1 a.2 t) as [r t'].
  rewrite Ht; [done|]. intros Hn%not_elem_of_dom.
  assert (size (dom (windows t)) < size (clients_of calls ∪ {[a.1]}))%nat as Hlt by (apply subset_size; set_solver).
  rewrite size_dom in Hlt. lia.
Qed.

(** A client's window as a counter. *)
Definition entry_at (w : option (Z * Z)) (now : Z) : option rentry :=
  match w with
  | Some (started, used) => if since now started <? window then Some (used, Some (started + window)) else None
  | None => None
  end.

Lemma entry_fades w now now' : now <= now' -> faded (entry_at w now) (entry_at w now') now'.
Proof.
  intros Hn. destruct w as [[s u]|]; [|by left]. unfold faded. cbn. unfold since.
  destruct (Z.ltb_spec (Z.max 0 (now' - s)) window), (Z.ltb_spec (Z.max 0 (now - s)) window); try (by left); try lia.
  right. exists u, (s + window). split_and!; [done|lia|done].
Qed.

(** A window opened now holds the request that opened it. *)
Lemma entry_opened h now :
  0 < window -> counter_inv window (Z.max 1 limit) h None now ->
  counter_inv window (Z.max 1 limit) ((now, 1) :: h) (entry_at (Some (now, 1)) now) now.
Proof.
  intros Hw Hi. unfold entry_at, since. rewrite Z.sub_diag, Z.max_id. destruct (Z.ltb_spec 0 window); [|lia].
  apply (counter_inv_spend _ _ _ None); [done..|cbn; lia].
Qed.

Fixpoint admitted_of (client : str) (log : list (arrival * bool)) : history :=
  match log with
  | [] => []
  | (a, ok) :: log' =>
      if (ok : bool) && bool_decide (a.1 = client) then (a.2, 1) :: admitted_of client log' else admitted_of client log'
  end.

Lemma ref_counter calls client now :
  0 < window -> arrivals_sorted calls -> Forall (fun a => a.2 <= now) calls ->
  counter_inv window (Z.max 1 limit) (admitted_of client (run_ref calls).1) (entry_at ((run_ref calls).2 !! client) now) now.
Proof.
  intros Hw. revert now. induction calls as [|a calls IH] using rev_ind; intros now Hs Hn.
  - cbn. rewrite lookup_empty. apply counter_inv_start. lia.
  - apply StronglySorted_app in Hs as (Hle & Hs & _). rewrite Forall_app, Forall_singleton in Hn. destruct Hn as [_ Hn].
    assert (Forall (fun x => x.2 <= a.2) calls) as Ha by (apply Forall_forall; intros x Hx; apply Hle; set_solver).
    specialize (IH a.2 Hs Ha). rewrite run_ref_snoc. unfold step_ref. destruct (run_ref calls) as [log ws].
    destruct a as [c t]. cbn in *. eapply counter_inv_later; [exact Hn|apply entry_fades, Hn|].
    unfold ref_admit. destruct (decide (c = client)) as [->|Hne].
    + destruct (ws !! client) as [[s u]|] eqn:E; cbn in IH.
      * destruct (since t s <? window) eqn:Et.
        -- destruct (Z.leb_spec limit u); cbn; [by rewrite E; cbn; rewrite Et|].
           rewrite bool_decide_true, lookup_insert_eq by done. cbn. rewrite Et. apply counter_inv_spend_live; [done..|lia].
        -- cbn. rewrite bool_decide_true, lookup_insert_eq by done. by apply entry_opened.
      * cbn. rewrite bool_decide_true, lookup_insert_eq by done. by apply entry_opened.
    + destruct (ws !! c) as [[s u]|]; [destruct (_ <? _); [destruct (_ <=? _)|]|]; cbn;
        rewrite ?bool_decide_false, ?lookup_insert_ne by done; done.
Qed.
End reference.

(** As long as no more clients come than are tracked, [Clients] is exactly one
    window per client, and no client gets more than twice its limit through in any
    stretch of one window (a limit of zero still lets the first request in). *)
Theorem clients_as_reference limit window calls :
  0 < window -> arrivals_sorted calls -> Z.of_nat (size (clients_of calls)) <= CLIENTS_TRACKED ->
  let log := (run_tracked limit window calls).1 in
  log = (run_ref limit window calls).1
  /\ forall client a, total (within a window) (admitted_of client log) <= 2 * Z.max 1 limit.
Proof.
  intros Hw Hs Hc log. destruct (run_tracked_ref limit window calls Hc) as [E _]. split; [done|]. unfold log. rewrite E.
  intros client a. set (now := foldr (fun x t => Z.max x.2 t) 0 calls).
  eapply counter_inv_bound, (ref_counter limit window calls client now); [done..|].
  unfold now. clear. induction calls as [|x calls IH]; cbn; constructor; [lia|]. eapply Forall_impl; [exact IH|]. cbn. lia.
Qed.

(** ** Witnesses *)

Module WindowSample.
Definition calls : list arrival := [([97], 0); ([98], second); ([97], 2 * second); ([97], 3 * second)].

Lemma window_calls_sorted : arrivals_sorted calls.
Proof. unfold calls. repeat constructor; vm_compute; congruence. Qed.

Lemma clients_as_reference_witness :
  total (within 0 AUTH_WINDOW) (admitted_of [97] (run_tracked 2 AUTH_WINDOW calls).1) = 2
  /\ (run_tracked 2 AUTH_WINDOW calls).1 = (run_ref 2 AUTH_WINDOW calls).1.
Proof.
  split; [vm_compute; reflexivity|].
  exact (proj1 (clients_as_reference 2 AUTH_WINDOW calls ltac:(reflexivity) window_calls_sorted ltac:(vm_compute; congruence))).
Defined.

Lemma clients_bounded_witness :
  size (windows (run_tracked 2 AUTH_WINDOW calls).2) = 2%nat
  /\ Z.of_nat (size (windows (run_tracked 2 AUTH_WINDOW calls).2)) <= CLIENTS_TRACKED.
Proof.
  split; [vm_compute; reflexivity|]. exact (proj1 (clients_bounded 2 AUTH_WINDOW calls window_calls_sorted)).
Defined.
End WindowSample.
