(* ===== verification/SealedGate.v ===== *)
(** * SealedGate: how sealed sign-in requests are let in

    Source: [api/src/modules/auth/sealed/]: [bucket.rs], [effort.rs], [gate.rs], and the
    errors of [chat/errors.rs].  A start of a login or of a link takes a free place of the
    minute or a proof of work; the work asked for follows the load.  Times are
    nanoseconds, [f64] the IEEE double of the Standard Library. *)

From Stdlib Require Import ZArith Lia String SpecFloat.
From stdpp Require Import base list numbers option tactics gmap.
From S2P Require Import Prelude Text LookupLane RedisClock NetAddress Windows.
Local Open Scope Z_scope.

(** ** Errors ([chat/errors.rs]) *)

Inductive BusySource :=
| ColdSession | ColdDevice | RedisPoolBusy | RedisCommand | PgPool | S3 | AuthGate | Rooms | ConversationCreate
| BackdropLock | StarCheck | MediaReserve | MediaCommit | LoadtestLease | AdminRooms | Channel.

Inductive ChatError :=
| NotMember | EpochStale | Muted (until : Z) | SlowMode (retry : Z) | ChatUnavailable | RequestLimit | DeviceCap
| SendLimited | ReadLimited | Busy (retry : Z) (source : BusySource) | ClockOff (server_now : Z) | Replay
| DeviceRevoked | ReloginRequired | SessionNotReplicated | SessionBoundOther | TooYoung | Disabled | SendPaused
| QuotaExceeded (used quota : Z) | MediaStarRequired | RoomStarRequired | BackdropStarRequired
| MediaUploadsPaused | MediaMissing (ids : list Z) | BackdropCooldown (until : Z) | MediaGone | Invalid
| ChatNotFound | ChatInternal.

Definition code (e : ChatError) : str :=
  match e with
  | NotMember => lit "chat_not_member" | EpochStale => lit "chat_epoch_stale" | Muted _ => lit "chat_muted"
  | SlowMode _ => lit "chat_slow_mode" | ChatUnavailable => lit "chat_unavailable"
  | RequestLimit => lit "chat_request_limit" | DeviceCap => lit "chat_device_cap"
  | SendLimited => lit "chat_send_limited" | ReadLimited => lit "chat_read_limited"
  | Busy _ _ => lit "chat_busy" | ClockOff _ => lit "chat_clock" | Replay => lit "chat_replay"
  | DeviceRevoked => lit "chat_device_revoked" | ReloginRequired => lit "chat_relogin_required"
  | SessionNotReplicated => lit "chat_session_not_replicated" | SessionBoundOther => lit "chat_session_bound_other"
  | TooYoung => lit "chat_too_young" | Disabled => lit "chat_disabled" | SendPaused => lit "chat_send_paused"
  | QuotaExceeded _ _ => lit "chat_quota_exceeded" | MediaStarRequired => lit "chat_media_star_required"
  | RoomStarRequired => lit "chat_room_star_required" | BackdropStarRequired => lit "chat_backdrop_star_required"
  | MediaUploadsPaused => lit "chat_media_uploads_paused" | MediaMissing _ => lit "chat_media_missing"
  | BackdropCooldown _ => lit "chat_backdrop_cooldown" | MediaGone => lit "chat_media_gone"
  | Invalid => lit "chat_invalid" | ChatNotFound => lit "chat_not_found" | ChatInternal => lit "chat_internal"
  end.

Definition chat_status (e : ChatError) : Z :=
  match e with
  | NotMember | Muted _ | ChatUnavailable | TooYoung | QuotaExceeded _ _ | DeviceCap | MediaStarRequired
  | RoomStarRequired | BackdropStarRequired | BackdropCooldown _ => 403
  | MediaGone => 410
  | EpochStale | Replay | SessionBoundOther | MediaMissing _ => 409
  | SlowMode _ | RequestLimit | SendLimited | ReadLimited => 429
  | ClockOff _ | DeviceRevoked | ReloginRequired => 401
  | Busy _ _ | SessionNotReplicated | Disabled | SendPaused | MediaUploadsPaused => 503
  | Invalid => 400
  | ChatNotFound => 404
  | ChatInternal => 500
  end.

Definition BUSY_RETRY_MS : Z := 1000.
Definition BUSY_JITTER_MS : Z := 2000.

(** [ChatError::busy], [random] being the [u64] it draws. *)
Definition busy_error (random : Z) (source : BusySource) : ChatError :=
  Busy (BUSY_RETRY_MS + random mod BUSY_JITTER_MS) source.

(** ** The token bucket *)

Definition f64_le (a b : f64) : bool := SFleb a b.

(** [f64::min] of two numbers. *)
Definition f64_min (a b : f64) : f64 := if f64_le a b then a else b.

Definition f64_1 : f64 := f64_of_Z 1.

(** [x.ceil() as u64]: a cast saturates, and [NaN] is zero. *)
Definition ceil_u64 (x : f64) : Z :=
  match x with
  | S754_finite s m e =>
      let n := if s then Z.neg m else Z.pos m in
      clampZ 0 u64_max (if 0 <=? e then n * 2 ^ e else - ((- n) / 2 ^ (- e)))
  | S754_infinity false => u64_max
  | _ => 0
  end.

Record Bucket := { per_second : f64; burst : f64; refilled_at : Z; tokens : f64 }.

Definition bucket_new (per_min burst now : Z) : Bucket :=
  let per_min := Z.max per_min 1 in
  let burst := f64_of_Z (Z.max (Z.min burst per_min) 1) in
  {| per_second := f64_div (f64_of_Z per_min) (f64_of_Z 60); burst := burst; refilled_at := now; tokens := burst |}.

Definition take_token (b : Bucket) (now : Z) : result unit Z * Bucket :=
  let elapsed := as_secs_f64 (since now (refilled_at b)) in
  let filled := f64_min (f64_add (tokens b) (f64_mul elapsed (per_second b))) (burst b) in
  let with_tokens t := {| per_second := per_second b; burst := burst b;
                          refilled_at := Z.max now (refilled_at b); tokens := t |} in
  if f64_le f64_1 filled then (Ok tt, with_tokens (f64_sub filled f64_1))
  else (Err (ceil_u64 (f64_mul (f64_div (f64_sub f64_1 filled) (per_second b)) (f64_of_Z 1000))), with_tokens filled).

(** ** How much work is asked for *)

Definition MINUTE_TICKS : nat := 6.

Record Effort := { floor_ : Z; cap_ : Z; budget : Z; used : Z; level : Z; ticks : list Z }.

Definition effort_new (floor cap per_min : Z) : Effort :=
  {| floor_ := floor; cap_ := cap; budget := per_min; used := 0; level := 0; ticks := [] |}.

Definition note_use (e : Effort) : Effort :=
  {| floor_ := floor_ e; cap_ := cap_ e; budget := budget e; used := wrap_u32 (used e + 1); level := level e;
     ticks := ticks e |}.

Definition current (e : Effort) : Z := Z.max (level e) (floor_ e).
Definition minimum (e : Effort) : Z := Z.max (current e / 2) (floor_ e).

Definition sat_mul_u32 (a b : Z) : Z := Z.min u32_max (a * b).

Definition recent (e : Effort) : list Z :=
  let t := ticks e ++ [used e] in if (MINUTE_TICKS <? length t)%nat then drop 1 t else t.

Definition sum (l : list Z) : Z := foldr Z.add 0 l.

Definition tick_effort (e : Effort) : Effort :=
  let minute := sum (recent e) in
  let level' :=
    if budget e <? minute * 2 then Z.min (sat_mul_u32 (Z.max (level e) (floor_ e)) 2) (cap_ e)
    else if minute * 10 <? budget e then level e / 2 else level e in
  {| floor_ := floor_ e; cap_ := cap_ e; budget := budget e; used := 0; level := level'; ticks := recent e |}.

(** ** The gate of a start *)

Definition FREE_LOGINS_PER_CLIENT : Z := 15.
Definition FREE_LINKS_PER_CLIENT : Z := 30.
Definition POW_PER_CLIENT : Z := 60.
Definition POW_BURST : Z := 50.
Definition NETWORK_V4_PER_MIN : Z := 120.
Definition NETWORK_V6_PER_MIN : Z := 60.
Definition LOGIN_POLLS_PER_CLIENT : Z := 120.
Definition LINK_POLLS_PER_CLIENT : Z := 120.
Definition LINK_CLAIMS_PER_CLIENT : Z := 30.
Definition TICK : Z := 10 * second.
Definition TICKS_CAUGHT_UP : nat := 6.

(** [SealedCfg]; the key directory and versions belong to the envelope. *)
Record SealedCfg := {
  cfg_plain : bool;
  cfg_pow : bool;
  free_per_min : Z;
  pow_per_min : Z;
  pow_floor : Z;
  pow_cap : Z
}.

Inductive Refused := Lane (retry : Z) | Capped (retry : Z).

Record StartGate := {
  free_window : Window;
  free_clients : Clients;
  pow_bucket : Bucket;
  pow_clients : Clients;
  v4_clients : Clients;
  v6_clients : Clients;
  effort : Effort;
  ticked : Z
}.

Definition start_gate (cfg : SealedCfg) (free_per_client now : Z) : StartGate :=
  {| free_window := window_new (free_per_min cfg) now;
     free_clients := clients_new free_per_client AUTH_WINDOW;
     pow_bucket := bucket_new (pow_per_min cfg) POW_BURST now;
     pow_clients := clients_new POW_PER_CLIENT AUTH_WINDOW;
     v4_clients := clients_new NETWORK_V4_PER_MIN AUTH_WINDOW;
     v6_clients := clients_new NETWORK_V6_PER_MIN AUTH_WINDOW;
     effort := effort_new (pow_floor cfg) (pow_cap cfg) (pow_per_min cfg);
     ticked := now |}.

Definition set_free_window x g := {| free_window := x; free_clients := free_clients g; pow_bucket := pow_bucket g; pow_clients := pow_clients g; v4_clients := v4_clients g; v6_clients := v6_clients g; effort := effort g; ticked := ticked g |}.
Definition set_free_clients x g := {| free_window := free_window g; free_clients := x; pow_bucket := pow_bucket g; pow_clients := pow_clients g; v4_clients := v4_clients g; v6_clients := v6_clients g; effort := effort g; ticked := ticked g |}.
Definition set_pow_bucket x g := {| free_window := free_window g; free_clients := free_clients g; pow_bucket := x; pow_clients := pow_clients g; v4_clients := v4_clients g; v6_clients := v6_clients g; effort := effort g; ticked := ticked g |}.
Definition set_pow_clients x g := {| free_window := free_window g; free_clients := free_clients g; pow_bucket := pow_bucket g; pow_clients := x; v4_clients := v4_clients g; v6_clients := v6_clients g; effort := effort g; ticked := ticked g |}.
Definition set_v4_clients x g := {| free_window := free_window g; free_clients := free_clients g; pow_bucket := pow_bucket g; pow_clients := pow_clients g; v4_clients := x; v6_clients := v6_clients g; effort := effort g; ticked := ticked g |}.
Definition set_v6_clients x g := {| free_window := free_window g; free_clients := free_clients g; pow_bucket := pow_bucket g; pow_clients := pow_clients g; v4_clients := v4_clients g; v6_clients := x; effort := effort g; ticked := ticked g |}.
Definition set_effort x g := {| free_window := free_window g; free_clients := free_clients g; pow_bucket := pow_bucket g; pow_clients := pow_clients g; v4_clients := v4_clients g; v6_clients := v6_clients g; effort := x; ticked := ticked g |}.
Definition set_ticked x g := {| free_window := free_window g; free_clients := free_clients g; pow_bucket := pow_bucket g; pow_clients := pow_clients g; v4_clients := v4_clients g; v6_clients := v6_clients g; effort := effort g; ticked := x |}.

(** A limiter of the gate, as an operation on the gate: [map_err] on what it answers. *)
Definition on_limiter {S} (op : S -> result unit Z * S) (get : StartGate -> S) (set : S -> StartGate -> StartGate)
    (refused : Z -> Refused) : ST StartGate Refused unit := fun g =>
  let '(r, x) := op (get g) in
  (match r with Ok _ => Ok tt | Err ms => Err (refused ms) end, set x g).

Section gate.
Context (hex_digest : bytes -> str).

Definition admit_network (client : IpAddr) (now : Z) : ST StartGate Refused unit :=
  let ask c := clients_admit c (subnet_identity hex_digest client) now in
  match to_canonical client with
  | V4 _ => on_limiter ask v4_clients set_v4_clients Capped
  | V6 _ => on_limiter ask v6_clients set_v6_clients Capped
  end.

Definition admit_free (client : IpAddr) (now : Z) : ST StartGate Refused unit :=
  on_limiter (fun c => clients_admit c (client_identity hex_digest client) now) free_clients set_free_clients Lane ≫= fun _ =>
  on_limiter (fun w => window_admit w now) free_window set_free_window Lane ≫= fun _ =>
  admit_network client now.

Definition admit_pow (client : IpAddr) (now : Z) : ST StartGate Refused unit :=
  on_limiter (fun c => clients_admit c (client_identity hex_digest client) now) pow_clients set_pow_clients Capped ≫= fun _ =>
  on_limiter (fun b => take_token b now) pow_bucket set_pow_bucket Lane ≫= fun _ =>
  modify (fun g => set_effort (note_use (effort g)) g) ≫= fun _ =>
  admit_network client now.
End gate.

(** The loop of [catch_up], at most [n] more turns. *)
Fixpoint catch_up_from (n : nat) (now : Z) (g : StartGate) : StartGate :=
  match n with
  | O => g
  | S n' =>
      if TICK <=? since now (ticked g) then
        catch_up_from n' now (set_effort (tick_effort (effort g)) (set_ticked (ticked g + TICK) g))
      else g
  end.

Definition catch_up (now : Z) (g : StartGate) : StartGate :=
  let g := catch_up_from TICKS_CAUGHT_UP now g in
  if TICK <=? since now (ticked g) then set_ticked now g else g.

(** The effort a client is told to expect. *)
Definition required_effort (g : StartGate) (now : Z) : Z :=
  if full (free_window g) now then current (effort g) else 0.

(** * Proofs of work and sealed requests are used once

    Source: [api/src/modules/auth/sealed/]: [claims.rs], [seed.rs], [kind.rs],
    [decide.rs], [prepare.rs], and [chat/channel/clock.rs].  The digest, the MAC of a
    seed, the check of a proof ([sc_chat_wire::pow::verify]) and of a request's
    signatures are parameters; a claim is a [SET NX EX] on a Redis with expiring keys.
    [Times] are the readings of the clocks during one request, in its order. *)

(** ** One-time claims *)

Definition ENC_TTL : Z := 300.
Definition SOLUTION_TTL : Z := 600.

(** How a Redis command can go: answered, no connection, or an error with the command
    run or not; the numbers are the jitter of the error. *)
Inductive Command := Done | NoConnection (random : Z) | CommandFailed (ran : bool) (random : Z).

Section sealed.
Context `{RedisClock db} (hex_digest : bytes -> str).

(** [hex::encode(&digest[..16])]: 32 characters. *)
Definition enc_key (enc : bytes) : str := lit "auth:x:enc:" ++ take 32 (hex_digest enc).
Definition solution_key (seed nonce auth_pub : bytes) : str :=
  lit "auth:x:pow:" ++ hex_digest (seed ++ nonce ++ auth_pub).

Definition claim (how : Command) (key : str) (ttl now : Z) : ST db ChatError unit := fun d =>
  match how with
  | NoConnection r => (Err (busy_error r RedisPoolBusy), d)
  | CommandFailed ran r =>
      (Err (busy_error r RedisCommand), if (ran : bool) then (set_nx_px key 1 (ttl * 1000) now d).2 else d)
  | Done =>
      let '(fresh, d) := set_nx_px key 1 (ttl * 1000) now d in
      (if (fresh : bool) then Ok tt else Err Replay, d)
  end.

(** ** Seeds *)

Definition EPOCH_SECONDS : Z := 300.

(** [epoch_now] at [seconds] of the wall clock. *)
Definition epoch_now (seconds : Z) : Z := (if seconds <? 0 then 0 else seconds) / EPOCH_SECONDS.

(** [Seeds::mac]: the HMAC of the epoch under the node's key. *)
Context (mac : Z -> bytes).

Definition seed_of (epoch : Z) : bytes := mac epoch.
Definition accepts (seed : bytes) (epoch : Z) : bool :=
  any (fun e => bool_decide (seed = mac e)) [epoch; sat_sub_u64 epoch 1].

(** ** Deciding *)

Inductive Kind := KLogin | KLoginStatus | KLinkCreate | KLinkClaim | KLinkStatus.

Definition kind_path (k : Kind) : str :=
  match k with
  | KLogin => lit "/auth/login"
  | KLoginStatus => lit "/auth/login/status"
  | KLinkCreate => lit "/auth/link/create"
  | KLinkClaim => lit "/auth/link/claim"
  | KLinkStatus => lit "/auth/link/status"
  end.

Definition kind_parse (path : str) : option Kind :=
  find (fun k => bool_decide (path = kind_path k)) [KLogin; KLoginStatus; KLinkCreate; KLinkClaim; KLinkStatus].

Definition starts (k : Kind) : bool := match k with KLogin | KLinkCreate => true | _ => false end.

Record Pow := { pow_seed : bytes; pow_effort : Z; pow_nonce : bytes; pow_solution : bytes }.

(** [sc_chat_wire::pow::verify]. *)
Context (verify : Pow -> bytes -> str -> bool).

Inductive Refusal := ChatRefusal (e : ChatError) | Required (seed : bytes) (effort : Z).

Definition outcome (r : result unit Refusal) : str :=
  match r with
  | Ok _ => lit "admitted"
  | Err (ChatRefusal e) => code e
  | Err (Required _ _) => lit "chat_pow_required"
  end.

Definition busy (retry : Z) : Refusal := ChatRefusal (Busy retry AuthGate).

Record Times := {
  wall_ms : Z;          (** [Utc::now] of the clock check *)
  caught_up_at : Z;     (** [Instant::now] of [catch_up] *)
  checked_s : Z;        (** [Utc::now] when the seed is checked *)
  solution_ms : Z;      (** Redis, when the solution is claimed *)
  gate_at : Z;          (** [Instant::now] of the gate or the poll *)
  answered_s : Z;       (** [Utc::now] when a seed is handed out *)
  enc_ms : Z;           (** Redis, when the envelope is claimed *)
  solution_claim : Command;
  enc_claim : Command
}.

Definition required (g : StartGate) (seconds : Z) : Refusal :=
  Required (seed_of (epoch_now seconds)) (current (effort g)).

(** A gate's answer turned into the caller's. *)
Definition lift_gate {A B S} (m : ST S A unit) (f : A -> S -> B) : S -> result unit B * S := fun g =>
  let '(r, g) := m g in (match r with Ok _ => Ok tt | Err e => Err (f e g) end, g).

Definition free (capable : bool) (client : IpAddr) (tm : Times) : ST StartGate Refusal unit :=
  lift_gate (admit_free hex_digest client (gate_at tm)) (fun e g =>
    match e with
    | Lane retry => if (capable : bool) then required g (answered_s tm) else busy retry
    | Capped retry => busy retry
    end).

(** Before a solution is spent: what refuses it. *)
Definition unsolved (g : StartGate) (path : str) (pow : Pow) (auth_pub : bytes) (tm : Times) : option Refusal :=
  if negb (accepts (pow_seed pow) (epoch_now (checked_s tm))) || (pow_effort pow <? minimum (effort g))
  then Some (required g (answered_s tm))
  else if verify pow auth_pub path then None else Some (ChatRefusal Invalid).

Definition solved (path : str) (pow : Pow) (auth_pub : bytes) (client : IpAddr) (tm : Times)
  : ST (StartGate * db) Refusal unit := fun '(g, d) =>
  match unsolved g path pow auth_pub tm with
  | Some e => (Err e, (g, d))
  | None =>
      let key := solution_key (pow_seed pow) (pow_nonce pow) auth_pub in
      match claim (solution_claim tm) key SOLUTION_TTL (solution_ms tm) d with
      | (Err e, d) => (Err (ChatRefusal e), (g, d))
      | (Ok _, d) =>
          let '(r, g) :=
            lift_gate (admit_pow hex_digest client (gate_at tm)) (fun e g =>
              match e with Lane _ => required g (answered_s tm) | Capped retry => busy retry end) g in
          (r, (g, d))
      end
  end.

Definition start (cfg : SealedCfg) (path : str) (pow : option Pow) (auth_pub : bytes) (client : IpAddr) (tm : Times)
  : ST (StartGate * db) Refusal unit := fun '(g, d) =>
  let g := catch_up (caught_up_at tm) g in
  let pow := if cfg_pow cfg then pow else None in
  match pow with
  | Some p =>
      if bool_decide (pow_solution p <> []) then solved path p auth_pub client tm (g, d)
      else let '(r, g) := free true client tm g in (r, (g, d))
  | None => let '(r, g) := free false client tm g in (r, (g, d))
  end.

Definition poll (client : IpAddr) (tm : Times) : ST Clients Refusal unit := fun c =>
  let '(r, c) := clients_admit c (client_identity hex_digest client) (gate_at tm) in
  (match r with Ok _ => Ok tt | Err ms => Err (busy ms) end, c).

(** ** Requests *)

Record Gates := {
  login_gate : StartGate;
  link_gate : StartGate;
  login_status : Clients;
  link_status : Clients;
  link_claim : Clients
}.

Definition gates_new (cfg : SealedCfg) (now : Z) : Gates :=
  {| login_gate := start_gate cfg FREE_LOGINS_PER_CLIENT now; link_gate := start_gate cfg FREE_LINKS_PER_CLIENT now;
     login_status := clients_new LOGIN_POLLS_PER_CLIENT AUTH_WINDOW;
     link_status := clients_new LINK_POLLS_PER_CLIENT AUTH_WINDOW;
     link_claim := clients_new LINK_CLAIMS_PER_CLIENT AUTH_WINDOW |}.

(** The inner request, decoded; [None] for its fields that were absent. *)
Record Inner := {
  inner_path : str;
  ts_ms : Z;
  auth_pub : option bytes;
  inner_pow : option Pow
}.

(** [SealedAuth::verify] of the request under its envelope. *)
Context (authentic : Inner -> bytes -> bool).

Definition CLOCK_SKEW_MS : Z := 120000.

Definition clock_check (ts now_ms : Z) : option ChatError :=
  let sent := Z.min ts i64_max in
  if CLOCK_SKEW_MS <? Z.abs (sent - now_ms) then Some (ClockOff now_ms) else None.

Definition admit_kind (cfg : SealedCfg) (k : Kind) (inner : Inner) (client : option IpAddr) (tm : Times)
  : ST (Gates * db) Refusal unit := fun '(gs, d) =>
  match client with
  | None => (Err (ChatRefusal ChatUnavailable), (gs, d))
  | Some client =>
      let key := default [] (auth_pub inner) in
      match k with
      | KLogin =>
          let '(r, (g, d)) := start cfg (kind_path k) (inner_pow inner) key client tm (login_gate gs, d) in
          (r, ({| login_gate := g; link_gate := link_gate gs; login_status := login_status gs;
                  link_status := link_status gs; link_claim := link_claim gs |}, d))
      | KLinkCreate =>
          let '(r, (g, d)) := start cfg (kind_path k) (inner_pow inner) key client tm (link_gate gs, d) in
          (r, ({| login_gate := login_gate gs; link_gate := g; login_status := login_status gs;
                  link_status := link_status gs; link_claim := link_claim gs |}, d))
      | KLoginStatus =>
          let '(r, c) := poll client tm (login_status gs) in
          (r, ({| login_gate := login_gate gs; link_gate := link_gate gs; login_status := c;
                  link_status := link_status gs; link_claim := link_claim gs |}, d))
      | KLinkStatus =>
          let '(r, c) := poll client tm (link_status gs) in
          (r, ({| login_gate := login_gate gs; link_gate := link_gate gs; login_status := login_status gs;
                  link_status := c; link_claim := link_claim gs |}, d))
      | KLinkClaim =>
          let '(r, c) := poll client tm (link_claim gs) in
          (r, ({| login_gate := login_gate gs; link_gate := link_gate gs; login_status := login_status gs;
                  link_status := link_status gs; link_claim := c |}, d))
      end
  end.

(** [Ok]: the inner request is dispatched.  [inner] is [None] when it did not decode. *)
Definition prepare (cfg : SealedCfg) (enc : bytes) (inner : option Inner) (client : option IpAddr) (tm : Times)
  : ST (Gates * db) Refusal Inner := fun '(gs, d) =>
  let refuse e := (Err (ChatRefusal e), (gs, d)) in
  match inner with
  | None => refuse Invalid
  | Some inner =>
      match kind_parse (inner_path inner) with
      | None => refuse ChatNotFound
      | Some k =>
          if cfg_plain cfg && starts k then refuse Disabled else
          match clock_check (ts_ms inner) (wall_ms tm) with
          | Some e => refuse e
          | None =>
              if negb (authentic inner enc) then refuse Invalid else
              match admit_kind cfg k inner client tm (gs, d) with
              | (Err e, s) => (Err e, s)
              | (Ok _, (gs, d)) =>
                  match claim (enc_claim tm) (enc_key enc) ENC_TTL (enc_ms tm) d with
                  | (Err e, d) => (Err (ChatRefusal e), (gs, d))
                  | (Ok _, d) => (Ok inner, (gs, d))
                  end
              end
          end
      end
  end.
End sealed.
