(* ===== verification/SealedFacts.v ===== *)
(** * SealedFacts: what the sealed sign-in guarantees

    Claims: a key that was claimed stays claimed for its whole time to live, whatever
    else happens to Redis ([claimed_stays]), so a proof of work and an envelope are good
    for one request ([solution_spent_once], [envelope_opened_once]).  Gates: free starts
    are bounded in every minute, and the work asked for follows the load. *)

From Stdlib Require Import ZArith Lia String.
From stdpp Require Import base list numbers option tactics sets sorting gmap.
From S2P Require Import Prelude Text LookupLane RedisClock NetAddress Windows SealedGate.
Local Open Scope Z_scope.

Section claims.
Context `{RedisClock db}.
Implicit Types d : db.

Definition claim_prefix : str := lit "auth:x:".

(** What can happen between two claims: time passes, and anybody does anything that
    leaves the claimed keys that are there alone. *)
Inductive evolves (d : db) (t : Z) : db -> Z -> Prop :=
| evolves_refl : evolves d t d t
| evolves_time d' t' t'' : evolves d t d' t' -> t' <= t'' -> evolves d t d' t''
| evolves_change d' t' d'' : evolves d t d' t' ->
    (forall k x, starts_with claim_prefix k = true -> peek d' t' k = Some x -> peek d'' t' k = Some x) ->
    evolves d t d'' t'.

Lemma evolves_time_le d t d' t' : evolves d t d' t' -> t <= t'.
Proof. induction 1; lia. Qed.

Lemma claimed_stays d t d' t' k n e :
  evolves d t d' t' -> starts_with claim_prefix k = true -> peek d t k = Some (n, Some e) -> t' < e ->
  peek d' t' k = Some (n, Some e).
Proof.
  intros Hev Hk Hp. induction Hev as [|d' t' t'' Hev IH Hle|d' t' d'' Hev IH Hc]; intros Ht; [done| |].
  - eapply peek_stays; [exact Hle|apply IH; lia|]. intros ? [= <-]. done.
  - apply Hc; [done|]. by apply IH.
Qed.

(** A claim is one of the things that can happen. *)
Lemma claim_evolves d t d' t' how k ttl :
  0 < ttl -> evolves d t d' t' -> evolves d t (claim how k ttl t' d').2 t'.
Proof.
  intros Httl Hev. unfold claim. destruct how as [|r|[] r]; try done.
  - pose proof (set_nx_law k 1 (ttl * 1000) t' d') as Hl. destruct (set_nx_px _ _ _ _ _) as [b d'']. cbn in *.
    eapply evolves_change; [exact Hev|]. intros k' x _ Hp. rewrite Hl by lia. case_decide as Hd; [|done]. destruct Hd; congruence.
  - cbn. eapply evolves_change; [exact Hev|]. intros k' x _ Hp. rewrite set_nx_law by lia.
    case_decide as Hd; [|done]. destruct Hd; congruence.
Qed.

Lemma claim_granted d t how k ttl d' :
  0 < ttl -> claim how k ttl t d = (Ok tt, d') -> peek d' t k = Some (1, Some (t + ttl * 1000)).
Proof.
  intros Httl. unfold claim. destruct how as [|r|ran r]; try done.
  pose proof (set_nx_law k 1 (ttl * 1000) t d k ltac:(lia)) as Hl. pose proof (set_nx_result k 1 (ttl * 1000) t d) as Hr.
  destruct (set_nx_px _ _ _ _ _) as [[] d'']; [|done]. cbn in *. intros [= <-]. rewrite Hl, decide_True; [done|].
  split; [done|]. symmetry in Hr. by apply bool_decide_eq_true in Hr.
Qed.

Lemma claim_refused d t how k ttl x : peek d t k = Some x -> (claim how k ttl t d).1 <> Ok tt.
Proof.
  intros Hp. unfold claim. destruct how as [|r|ran r]; try done. pose proof (set_nx_result k 1 (ttl * 1000) t d) as Hr.
  destruct (set_nx_px _ _ _ _ _) as [b d'']. cbn in *. subst b. rewrite bool_decide_false by congruence. done.
Qed.

(** A claim keeps every later one out until its time to live is over. *)
Lemma claim_excludes d t how k ttl d' d2 t2 how2 ttl2 :
  0 < ttl -> starts_with claim_prefix k = true -> claim how k ttl t d = (Ok tt, d') ->
  evolves d' t d2 t2 -> t2 < t + ttl * 1000 -> (claim how2 k ttl2 t2 d2).1 <> Ok tt.
Proof.
  intros Httl Hk Hc Hev Ht. eapply claim_refused, claimed_stays; [exact Hev|done|by eapply claim_granted|lia].
Qed.
End claims.

Lemma epoch_bounds s : 0 <= s -> 0 <= epoch_now s /\ 300 * epoch_now s <= s < 300 * (epoch_now s + 1).
Proof.
  intros Hs. unfold epoch_now, EPOCH_SECONDS. destruct (Z.ltb_spec s 0); [lia|]. Z.to_euclidean_division_equations. lia.
Qed.

Section once.
Context `{RedisClock db} (hex_digest : bytes -> str) (mac : Z -> bytes) (verify : Pow -> bytes -> str -> bool).

Lemma accepts_epoch seed seconds :
  0 <= seconds -> accepts mac seed (epoch_now seconds) = true ->
  exists e, seed = mac e /\ epoch_now seconds - 1 <= e <= epoch_now seconds.
Proof.
  unfold accepts. intros Hs (e & He & Hb)%any_spec. apply bool_decide_eq_true in Hb. exists e. split; [done|].
  pose proof (epoch_bounds _ Hs). unfold sat_sub_u64 in He. set_solver by lia.
Qed.

(** A start that was let in by its work was solved, and its solution was claimed. *)
Lemma solved_ok path pow auth_pub client tm g d g' d' :
  solved hex_digest mac verify path pow auth_pub client tm (g, d) = (Ok tt, (g', d')) ->
  accepts mac (pow_seed pow) (epoch_now (checked_s tm)) = true
  /\ claim (solution_claim tm) (solution_key hex_digest (pow_seed pow) (pow_nonce pow) auth_pub) SOLUTION_TTL (solution_ms tm) d
     = (Ok tt, d').
Proof.
  unfold solved, unsolved. destruct (accepts mac _ _); [|done]. cbn. destruct (_ <? _); [done|]. destruct (verify _ _ _); [|done].
  cbn. destruct (claim _ _ _ _ _) as [[[]|] d1]; [|done]. destruct (lift_gate _ _ _) as [r g1].
  intros [= -> -> ->]. done.
Qed.
End once.

(** A proof of work is good for one start.  Whatever happens in between, a solution
    that let a start in is refused from then on: while its seed is accepted its claim
    stands, and afterwards the seed is no longer accepted. *)
Theorem solution_spent_once `{RedisClock db} (hex_digest : bytes -> str) (mac : Z -> bytes) verify
    pow auth_pub path1 path2 client1 client2 tm1 tm2 g1 g2 (d1 d2 : db) s1 :
  (forall e e', mac e = mac e' -> e = e') ->
  solved hex_digest mac verify path1 pow auth_pub client1 tm1 (g1, d1) = (Ok tt, s1) ->
  evolves s1.2 (solution_ms tm1) d2 (solution_ms tm2) ->
  0 <= checked_s tm1 -> 1000 * checked_s tm1 <= solution_ms tm1 ->
  0 <= checked_s tm2 -> solution_ms tm2 < 1000 * EPOCH_SECONDS * (epoch_now (checked_s tm2) + 1) ->
  (solved hex_digest mac verify path2 pow auth_pub client2 tm2 (g2, d2)).1 <> Ok tt.
Proof.
  intros Hmac H1 Hev Hs1 Hr1 Hs2 Hr2 H2. destruct s1 as [g1' d1'].
  destruct (solved _ _ _ path2 _ _ _ _ _) as [r2 [g2' d2']] eqn:E2. cbn in H2, Hev. subst r2.
  apply solved_ok in H1 as [A1 C1], E2 as [A2 C2].
  apply accepts_epoch in A1 as (e1 & E1 & B1), A2 as (e2 & E2 & B2); [|done..].
  assert (e2 = e1) as -> by (apply Hmac; congruence).
  pose proof (epoch_bounds _ Hs1). pose proof (epoch_bounds _ Hs2). unfold EPOCH_SECONDS in Hr2.
  eapply (claim_excludes d1); [| |exact C1|exact Hev| |by rewrite C2]; [done|done|]. unfold SOLUTION_TTL. lia.
Qed.

Section envelopes.
Context `{RedisClock db} (hex_digest : bytes -> str) (mac : Z -> bytes) (verify : Pow -> bytes -> str -> bool).
Context (authentic : Inner -> bytes -> bool) (cfg : SealedCfg).

Lemma start_evolves d t path pow auth_pub client tm g d2 :
  evolves d t d2 (solution_ms tm) ->
  evolves d t (start hex_digest mac verify cfg path pow auth_pub client tm (g, d2)).2.2 (solution_ms tm).
Proof.
  intros Hev. unfold start. destruct (if cfg_pow cfg then pow else None) as [p|].
  - destruct (bool_decide _); [|by destruct (free _ _ _ _ _ _)]. unfold solved. destruct (unsolved _ _ _ _ _ _ _); [done|].
    pose proof (claim_evolves d t d2 (solution_ms tm) (solution_claim tm)
      (solution_key hex_digest (pow_seed p) (pow_nonce p) auth_pub) SOLUTION_TTL ltac:(done) Hev) as Hc.
    destruct (claim _ _ _ _ _) as [[[]|] d3]; [|done]. by destruct (lift_gate _ _ _).
  - by destruct (free _ _ _ _ _ _).
Qed.

Lemma admit_kind_evolves d t k inner client tm gs d2 :
  evolves d t d2 (solution_ms tm) ->
  evolves d t (admit_kind hex_digest mac verify cfg k inner client tm (gs, d2)).2.2 (solution_ms tm).
Proof.
  intros Hev. unfold admit_kind. destruct client as [client|]; [|done].
  destruct k; try (destruct (poll _ _ _ _); done);
    [pose proof (start_evolves d t (kind_path KLogin) (inner_pow inner) (default [] (auth_pub inner)) client tm (login_gate gs) d2 Hev) as Hs
    |pose proof (start_evolves d t (kind_path KLinkCreate) (inner_pow inner) (default [] (auth_pub inner)) client tm (link_gate gs) d2 Hev) as Hs];
    by destruct (start _ _ _ _ _ _ _ _ _ _) as [r [g d3]].
Qed.

(** What a request that is dispatched has passed. *)
Lemma prepare_ok enc inner client tm gs d inner' gs' d' :
  prepare hex_digest mac verify authentic cfg enc inner client tm (gs, d) = (Ok inner', (gs', d')) ->
  inner = Some inner' /\ clock_check (ts_ms inner') (wall_ms tm) = None /\ authentic inner' enc = true
  /\ exists k d2, kind_parse (inner_path inner') = Some k
     /\ d2 = (admit_kind hex_digest mac verify cfg k inner' client tm (gs, d)).2.2
     /\ claim (enc_claim tm) (enc_key hex_digest enc) ENC_TTL (enc_ms tm) d2 = (Ok tt, d').
Proof.
  unfold prepare. destruct inner as [inner|]; [|done]. destruct (kind_parse _) as [k|] eqn:Ek; [|done].
  destruct (_ && _); [done|]. destruct (clock_check _ _) eqn:Ec; [done|]. destruct (authentic _ _) eqn:Ea; [|done]. cbn [negb].
  destruct (admit_kind _ _ _ _ _ _ _ _ _) as [[[]|] [gs2 d2]] eqn:Ead; [|done].
  destruct (claim _ _ _ _ _) as [[[]|] d3] eqn:Ecl; [|done]. intros [= -> -> ->].
  split_and!; [done..|]. exists k, d2. by rewrite Ead.
Qed.
End envelopes.

(** A sealed request is dispatched once.  Whatever happens in between, a request
    whose envelope was opened and dispatched before is refused: the claim on the envelope
    outlives the time the server's clock check accepts its timestamp, as long as a request
    reaches its claim within the minute a request may take. *)
Theorem envelope_opened_once `{RedisClock db} (hex_digest : bytes -> str) (mac : Z -> bytes) verify authentic cfg
    enc inner client1 client2 tm1 tm2 gs1 gs2 (d1 d2 : db) s1 inner' :
  prepare hex_digest mac verify authentic cfg enc inner client1 tm1 (gs1, d1) = (Ok inner', s1) ->
  evolves s1.2 (enc_ms tm1) d2 (solution_ms tm2) ->
  wall_ms tm1 <= enc_ms tm1 -> solution_ms tm2 <= enc_ms tm2 -> enc_ms tm2 < wall_ms tm2 + 60000 ->
  exists e, (prepare hex_digest mac verify authentic cfg enc inner client2 tm2 (gs2, d2)).1 = Err e.
Proof.
  intros H1 Hev Hw1 Hs2 Hw2. destruct s1 as [gs1' d1'].
  destruct (prepare _ _ _ _ _ _ _ client2 _ _) as [[inner2|e] [gs2' d2']] eqn:E2; [exfalso|by exists e]. cbn in Hev.
  apply prepare_ok in H1 as (-> & K1 & _ & k1 & dc1 & _ & _ & C1), E2 as ([= <-] & K2 & _ & k2 & dc2 & _ & -> & C2).
  pose proof (admit_kind_evolves hex_digest mac verify cfg _ _ k2 inner' client2 tm2 gs2 d2 Hev) as Hev2.
  apply (evolves_time _ _ _ _ (enc_ms tm2)) in Hev2; [|done].
  unfold clock_check, CLOCK_SKEW_MS in K1, K2.
  destruct (Z.ltb_spec 120000 (Z.abs (Z.min (ts_ms inner') i64_max - wall_ms tm1))); [done|].
  destruct (Z.ltb_spec 120000 (Z.abs (Z.min (ts_ms inner') i64_max - wall_ms tm2))); [done|].
  eapply (claim_excludes dc1); [| |exact C1|exact Hev2| |by rewrite C2]; [done|done|]. unfold ENC_TTL. lia.
Qed.

(** ** The work asked for *)

Definition effort_ok (e : Effort) : Prop := 1 <= floor_ e <= cap_ e /\ cap_ e <= u32_max /\ 0 <= level e <= cap_ e.

(** The minute is over half its budget, or under a tenth of it. *)
Definition overloaded (e : Effort) : Prop := budget e < sum (recent e) * 2.
Definition quiet (e : Effort) : Prop := ~ overloaded e /\ sum (recent e) * 10 < budget e.

Lemma tick_effort_ok e : effort_ok e -> effort_ok (tick_effort e).
Proof.
  intros (Hf & Hc & Hl). unfold effort_ok, tick_effort, sat_mul_u32. cbn. split_and!; try done; try lia.
  - destruct (_ <? _); [|destruct (_ <? _)]; [lia|apply Z.div_pos; lia|lia].
  - destruct (_ <? _); [lia|]. destruct (_ <? _); [|lia]. Z.to_euclidean_division_equations. lia.
Qed.

(** The work asked of a start stays between its floor and its cap and follows the
    load: a minute over half the budget doubles it up to the cap, one under a tenth of it
    halves it down to the floor, anything else leaves it; work of half the current size
    is still taken, never less than the floor. *)
Theorem effort_follows_load e :
  effort_ok e ->
  let e' := tick_effort e in
  effort_ok e' /\ floor_ e <= minimum e <= current e /\ current e <= cap_ e
  /\ (overloaded e -> current e' = Z.min (2 * current e) (cap_ e))
  /\ (quiet e -> current e' = Z.max (level e / 2) (floor_ e) /\ current e' <= current e)
  /\ (~ overloaded e -> ~ quiet e -> current e' = current e).
Proof.
  intros Hok e'. pose proof Hok as (Hf & Hc & Hl). split; [by apply tick_effort_ok|].
  unfold minimum, current, overloaded, quiet, e', tick_effort, sat_mul_u32, overloaded. cbn.
  split_and!; try lia; try (Z.to_euclidean_division_equations; lia).
  - intros Ho. destruct (Z.ltb_spec (budget e) (sum (recent e) * 2)); lia.
  - intros [Hn Hq]. destruct (Z.ltb_spec (budget e) (sum (recent e) * 2)); [lia|].
    destruct (Z.ltb_spec (sum (recent e) * 10) (budget e)); [|lia]. split; [done|]. Z.to_euclidean_division_equations. lia.
  - intros Hn Hq. destruct (Z.ltb_spec (budget e) (sum (recent e) * 2)); [lia|].
    destruct (Z.ltb_spec (sum (recent e) * 10) (budget e)); [|done]. destruct Hq. lia.
Qed.

(** [catch_up] runs a tick for each ten seconds that passed, six at most, and is then
    less than ten seconds behind. *)
Lemma catch_up_from_spec n now g :
  ticked g <= now ->
  let k := Z.min (Z.of_nat n) ((now - ticked g) / TICK) in
  effort (catch_up_from n now g) = Nat.iter (Z.to_nat k) tick_effort (effort g)
  /\ ticked (catch_up_from n now g) = ticked g + k * TICK /\ free_window (catch_up_from n now g) = free_window g.
Proof.
  revert g. induction n as [|n IH]; intros g Hg.
  - assert (0 <= (now - ticked g) / TICK) by (apply Z.div_pos; unfold TICK, second; lia).
    cbn zeta. rewrite Z.min_l by lia. cbn. split_and!; [done|lia|done].
  - cbn [catch_up_from]. unfold since. rewrite Z.max_r by lia. destruct (Z.leb_spec TICK (now - ticked g)) as [Ht|Ht].
    + destruct (IH (set_effort (tick_effort (effort g)) (set_ticked (ticked g + TICK) g))) as (H1 & H2 & H3); [cbn; lia|].
      cbn [effort ticked free_window set_effort set_ticked] in H1, H2, H3. rewrite H1, H2, H3.
      replace (now - (ticked g + TICK)) with (now - ticked g + (-1) * TICK) by lia.
      rewrite Z.div_add by done. assert (1 <= (now - ticked g) / TICK) by (apply Z.div_le_lower_bound; unfold TICK, second in *; lia).
      set (q := (now - ticked g) / TICK) in *.
      replace (Z.min (Z.of_nat (S n)) q) with (Z.min (Z.of_nat n) (q + -1) + 1) by lia.
      split_and!; [|lia|done]. rewrite Z2Nat.inj_add by lia. change (Z.to_nat 1) with 1%nat.
      by rewrite Nat.add_1_r, Nat.iter_succ_r.
    + rewrite Z.div_small by lia. rewrite Z.min_r by lia. cbn. split_and!; [done|lia|done].
Qed.

(** ** Free starts *)

Section free_starts.
Context (hex_digest : bytes -> str).

Inductive gate_op := OpFree (client : IpAddr) (now : Z) | OpPow (client : IpAddr) (now : Z) | OpCatchUp (now : Z).

Definition op_time (o : gate_op) : Z := match o with OpFree _ t | OpPow _ t | OpCatchUp t => t end.

(** The free starts that were let in, newest first, and the gate. *)
Definition run_op (s : history * StartGate) (o : gate_op) : history * StartGate :=
  let '(h, g) := s in
  match o with
  | OpFree client now =>
      let '(r, g) := admit_free hex_digest client now g in (if is_ok r then (now, 1) :: h else h, g)
  | OpPow client now => (h, (admit_pow hex_digest client now g).2)
  | OpCatchUp now => (h, catch_up now g)
  end.

Lemma admit_network_window client now g : free_window (admit_network hex_digest client now g).2 = free_window g.
Proof. unfold admit_network, on_limiter. destruct (to_canonical client); by destruct (clients_admit _ _ _). Qed.

Lemma admit_pow_window client now g : free_window (admit_pow hex_digest client now g).2 = free_window g.
Proof.
  unfold admit_pow, on_limiter, mbind, ST_bind, modify. destruct (clients_admit _ _ _) as [[[]|] c]; [|done].
  destruct (take_token _ _) as [[[]|] b]; [|done]. by rewrite admit_network_window.
Qed.

Lemma catch_up_from_window n now g : free_window (catch_up_from n now g) = free_window g.
Proof. revert g. induction n as [|n IH]; intros g; cbn; [done|]. destruct (_ <=? _); [by rewrite IH|done]. Qed.

Lemma catch_up_window now g : free_window (catch_up now g) = free_window g.
Proof.
  unfold catch_up. pose proof (catch_up_from_window TICKS_CAUGHT_UP now g) as H.
  destruct (_ <=? _); [|done]. by destruct (catch_up_from TICKS_CAUGHT_UP now g).
Qed.

(** A free start was counted by the window, or never got to it. *)
Lemma admit_free_window client now g :
  let '(r, g') := admit_free hex_digest client now g in
  (free_window g' = free_window g /\ is_ok r = false)
  \/ exists rw, window_admit (free_window g) now = (rw, free_window g') /\ (is_ok r = true -> is_ok rw = true).
Proof.
  unfold admit_free, on_limiter, mbind, ST_bind. destruct (clients_admit _ _ _) as [[[]|] c]; [|by left].
  cbn [free_window set_free_clients]. destruct (window_admit (free_window g) now) as [[[]|] w]; [|by right; eexists].
  pose proof (admit_network_window client now (set_free_window w (set_free_clients c g))) as H.
  destruct (admit_network _ _ _ _) as [r g']. cbn in H. right. exists (Ok tt). by rewrite H.
Qed.

Definition window_entry (w : Window) (now : Z) : option rentry :=
  entry_at AUTH_WINDOW (Some (w_started w, w_used w)) now.

Lemma window_admit_counter w h now :
  0 <= w_limit w -> counter_inv AUTH_WINDOW (w_limit w) h (window_entry w now) now ->
  let '(r, w') := window_admit w now in
  w_limit w' = w_limit w
  /\ counter_inv AUTH_WINDOW (w_limit w) (if is_ok r then (now, 1) :: h else h) (window_entry w' now) now.
Proof.
  intros HL Hi. unfold window_admit, window_entry, entry_at in *. rewrite Z.leb_antisym.
  destruct (since now (w_started w) <? AUTH_WINDOW) eqn:E; cbn [negb].
  - destruct (Z.leb_spec (w_limit w) (w_used w)); cbn; rewrite E; (split; [done|]); [done|].
    apply counter_inv_spend_live; [done..|lia].
  - apply counter_inv_reopen in Hi; [|done..].
    assert ((since now now <? AUTH_WINDOW) = true) as E' by (unfold since; by rewrite Z.sub_diag).
    destruct (Z.leb_spec (w_limit w) 0); cbn; rewrite E'; (split; [done|]); [done|].
    apply (counter_inv_spend_live _ _ _ 0); [done..|lia].
Qed.

Definition free_inv (limit : Z) (s : history * StartGate) (now : Z) : Prop :=
  w_limit (free_window s.2) = limit
  /\ exists h, s.1 `sublist_of` h /\ counter_inv AUTH_WINDOW limit h (window_entry (free_window s.2) now) now.

Lemma free_inv_later limit s now now' : now <= now' -> free_inv limit s now -> free_inv limit s now'.
Proof.
  intros Hn (Hl & h & Hs & Hi). split; [done|]. exists h. split; [done|].
  eapply counter_inv_later; [exact Hn|apply entry_fades, Hn|exact Hi].
Qed.

Lemma free_inv_op limit s o : 0 <= limit -> free_inv limit s (op_time o) -> free_inv limit (run_op s o) (op_time o).
Proof.
  intros HL (Hl & h & Hs & Hi). destruct s as [h0 g]. cbn in Hl, Hs, Hi.
  destruct o as [client now|client now|now]; unfold free_inv; cbn in *.
  - pose proof (admit_free_window client now g) as Hf. destruct (admit_free _ _ _ _) as [r g'].
    destruct Hf as [[Hw Hr]|(rw & Hw & Hr)].
    + rewrite Hr. cbn. rewrite Hw. eauto.
    + subst limit. pose proof (window_admit_counter (free_window g) h now HL Hi) as Hc. rewrite Hw in Hc.
      destruct Hc as [Hl' Hc]. cbn. split; [done|]. exists (if is_ok rw then (now, 1) :: h else h). split; [|done].
      destruct (is_ok r); [rewrite Hr by done; by apply sublist_skip|]. destruct (is_ok rw); [by apply sublist_cons|done].
  - rewrite admit_pow_window. eauto.
  - rewrite catch_up_window. eauto.
Qed.

Lemma total_sublist p h h' : h `sublist_of` h' -> costs_ok h' -> total p h <= total p h'.
Proof.
  induction 1 as [|[t c] h h' Hs IH|[t c] h h' Hs IH]; intros Hc; cbn; [done|..]; inversion Hc; subst; cbn in *;
    specialize (IH ltac:(done)); destruct (p t); lia.
Qed.
End free_starts.

(** Free starts are bounded in every minute: whatever starts, proofs and ticks come,
    in any stretch of one minute a gate lets in at most twice as many free starts as it
    is configured for. *)
Theorem free_starts_bounded hex_digest cfg per_client_limit t0 ops a :
  0 <= free_per_min cfg -> StronglySorted (fun x y => op_time x <= op_time y) ops ->
  Forall (fun o => t0 <= op_time o) ops ->
  total (within a AUTH_WINDOW) (foldl (run_op hex_digest) ([], start_gate cfg per_client_limit t0) ops).1
  <= 2 * free_per_min cfg.
Proof.
  intros HL Hs Ht.
  assert (exists now, free_inv (free_per_min cfg)
            (foldl (run_op hex_digest) ([], start_gate cfg per_client_limit t0) ops) now) as (now & _ & h & Hsub & Hi).
  { assert (free_inv (free_per_min cfg) ([], start_gate cfg per_client_limit t0) t0) as H0.
    { split; [done|]. exists []. split; [done|]. unfold window_entry, entry_at, since. cbn. rewrite Z.sub_diag. cbn.
      apply counter_inv_reopen; [done|by apply counter_inv_start|done]. }
    remember (@nil (Z * Z), start_gate cfg per_client_limit t0) as s eqn:Es. clear Es. revert s t0 H0 Ht.
    induction ops as [|o ops IH]; intros s t0 H0 Ht; [by exists t0|].
    apply StronglySorted_cons in Hs as [Ho Hs]. inversion Ht; subst.
    apply (IH Hs _ (op_time o)); [|done]. apply free_inv_op; [done|]. by eapply free_inv_later. }
  etrans; [apply (total_sublist _ _ h Hsub), Hi|]. by eapply counter_inv_bound.
Qed.

(** A gate that catches up runs one tick per ten seconds that passed, six at most, and
    is then less than ten seconds behind. *)
Theorem catch_up_exact now g :
  ticked g <= now ->
  effort (catch_up now g)
    = Nat.iter (Z.to_nat (Z.min (Z.of_nat TICKS_CAUGHT_UP) ((now - ticked g) / TICK))) tick_effort (effort g)
  /\ now - TICK < ticked (catch_up now g) <= now.
Proof.
  intros Hg. destruct (catch_up_from_spec TICKS_CAUGHT_UP now g Hg) as (H1 & H2 & _). unfold catch_up.
  rewrite <- H1. assert (0 < TICK) by done.
  pose proof (Z.mul_div_le (now - ticked g) TICK ltac:(done)). pose proof (Z.mul_succ_div_gt (now - ticked g) TICK ltac:(done)).
  assert (ticked (catch_up_from TICKS_CAUGHT_UP now g) <= now) by (rewrite H2; nia).
  unfold since. destruct (Z.leb_spec TICK (Z.max 0 (now - ticked (catch_up_from TICKS_CAUGHT_UP now g)))); (split; [done|]);
    cbn [ticked set_ticked]; lia.
Qed.

(** ** Witnesses *)

Module SealedSample.
Definition digest (b : bytes) : str := b.
Definition mac (e : Z) : bytes := [e].
Definition verify (p : Pow) (a : bytes) (path : str) : bool := true.
Definition authentic (i : Inner) (enc : bytes) : bool := true.
Definition cfg : SealedCfg :=
  {| cfg_plain := false; cfg_pow := true; free_per_min := 120; pow_per_min := 1000; pow_floor := 100; pow_cap := 6000 |}.
Definition client : IpAddr := V4 3325256724.
Definition gate0 : StartGate := start_gate cfg 15 0.
Definition pow : Pow := {| pow_seed := [2]; pow_effort := 100; pow_nonce := [7]; pow_solution := [1] |}.
Definition times (s : Z) : Times :=
  {| wall_ms := 1000 * s; caught_up_at := s * second; checked_s := s; solution_ms := 1000 * s; gate_at := s * second;
     answered_s := s; enc_ms := 1000 * s; solution_claim := Done; enc_claim := Done |}.
Definition empty : gmap str rentry := ∅.
Definition run1 := solved digest mac verify (lit "/auth/login") pow [9] client (times 700) (gate0, empty).

Lemma solution_spent_once_witness :
  run1.1 = Ok tt
  /\ (solved digest mac verify (lit "/auth/login") pow [9] client (times 1100) (gate0, run1.2.2)).1 <> Ok tt.
Proof.
  split; [vm_compute; reflexivity|].
  apply (solution_spent_once digest mac verify pow [9] (lit "/auth/login") (lit "/auth/login") client client
           (times 700) (times 1100) gate0 gate0 empty run1.2.2 run1.2).
  - intros e e' H. injection H as H. exact H.
  - vm_compute. reflexivity.
  - apply (evolves_time _ _ _ (1000 * 700)); [apply evolves_refl|cbn; lia].
  - cbn. lia.
  - cbn. lia.
  - cbn. lia.
  - vm_compute. reflexivity.
Defined.

Definition inner : Inner :=
  {| inner_path := lit "/auth/login"; ts_ms := 700000; auth_pub := Some [9]; inner_pow := None |}.
Definition run2 := prepare digest mac verify authentic cfg [5] (Some inner) (Some client) (times 700) (gates_new cfg 0, empty).

Lemma envelope_opened_once_witness :
  run2.1 = Ok inner
  /\ exists e, (prepare digest mac verify authentic cfg [5] (Some inner) (Some client) (times 800) (run2.2.1, run2.2.2)).1 = Err e.
Proof.
  split; [vm_compute; reflexivity|].
  apply (envelope_opened_once digest mac verify authentic cfg [5] (Some inner) (Some client) (Some client)
           (times 700) (times 800) (gates_new cfg 0) run2.2.1 empty run2.2.2 run2.2 inner).
  - vm_compute. reflexivity.
  - apply (evolves_time _ _ _ (1000 * 700)); [apply evolves_refl|cbn; lia].
  - cbn. lia.
  - cbn. lia.
  - cbn. lia.
Defined.

Definition busy_effort : Effort :=
  {| floor_ := 100; cap_ := 6000; budget := 1000; used := 90; level := 200; ticks := [100; 100; 100; 100; 100] |}.

Lemma effort_follows_load_witness :
  effort_ok busy_effort /\ overloaded busy_effort /\ current (tick_effort busy_effort) = 400.
Proof.
  assert (effort_ok busy_effort) as Hok by (repeat split; vm_compute; congruence).
  assert (overloaded busy_effort) as Ho by (vm_compute; reflexivity).
  split; [exact Hok|]. split; [exact Ho|].
  destruct (effort_follows_load busy_effort Hok) as (_ & _ & _ & H & _). rewrite (H Ho). reflexivity.
Defined.

Definition ops : list gate_op :=
  [OpFree client second; OpCatchUp (20 * second); OpFree client (21 * second); OpPow client (22 * second)].

Lemma free_starts_bounded_witness :
  total (within 0 AUTH_WINDOW) (foldl (run_op digest) ([], start_gate cfg 15 0) ops).1 = 2
  /\ total (within 0 AUTH_WINDOW) (foldl (run_op digest) ([], start_gate cfg 15 0) ops).1 <= 2 * free_per_min cfg.
Proof.
  split; [vm_compute; reflexivity|].
  apply (free_starts_bounded digest cfg 15 0 ops 0).
  - cbn. lia.
  - unfold ops. repeat constructor; vm_compute; congruence.
  - unfold ops. repeat constructor; vm_compute; congruence.
Defined.
End SealedSample.
