(* ===== verification/Coalesce.v ===== *)
(** * Coalesce: one load for everyone who waits for a key

    Source: [Coalesce] and [KeyedCoalesce] of [api/src/cache/single_flight.rs].  Callers
    interleave between any two steps that do not hold a common lock; [step] is the
    transition of one caller and [None] when it is not enabled.  A caller can be
    cancelled wherever it awaits.  The strong count of a flight is the number of callers
    that hold its [Arc]; the body of [drop] runs before the [Arc] itself goes.  The
    [AtomicU64] counts loads and is taken not to wrap. *)

From Stdlib Require Import ZArith Lia String.
From stdpp Require Import base list numbers option tactics sets gmap fin_maps.
From S2P Require Import Prelude Text.
Local Open Scope nat_scope.

Section coalesce.
Context {T : Type}.

(** [Coalesce]; [loads] is every value published so far, in order, and [flight_key] the
    key it was made for. *)
Record Flight := {
  flight_key : str;
  gate_holder : option nat;
  completed : option (nat * T);
  completions : nat;
  loads : list T
}.

Definition new_flight (key : str) : Flight := {| flight_key := key; gate_holder := None; completed := None; completions := 0; loads := [] |}.

Definition set_gate (g : option nat) (f : Flight) : Flight :=
  {| flight_key := flight_key f; gate_holder := g; completed := completed f; completions := completions f; loads := loads f |}.

Definition completed_after (arrived : nat) (f : Flight) : option T :=
  match completed f with
  | Some (generation, value) => if arrived <? generation then Some value else None
  | None => None
  end.

(** [publish], its [fetch_add] and its store. *)
Definition count_load (v : T) (f : Flight) : Flight :=
  {| flight_key := flight_key f; gate_holder := gate_holder f; completed := completed f; completions := S (completions f); loads := loads f ++ [v] |}.
Definition store_load (generation : nat) (v : T) (f : Flight) : Flight :=
  {| flight_key := flight_key f; gate_holder := gate_holder f; completed := Some (generation, v); completions := completions f; loads := loads f |}.

(** Where a caller is.  A result is [None] for an error or a cancelled caller. *)
Inductive Phase :=
| Entered
| Waiting (arrived : nat)
| Holding (arrived : nat)
| Loading (arrived : nat)
| Loaded (arrived : nat) (v : T)
| Counted (arrived generation : nat) (v : T)
| Returning (arrived : nat) (r : option T)
| Leaving (arrived : nat) (r : option T)
| Dropping (arrived : nat) (r : option T).

Record Caller := { c_key : str; c_flight : nat; c_phase : Phase }.

Record State := {
  flights : gmap str nat;        (** [KeyedCoalesce::flights], a [Weak] as its flight's number *)
  memory : gmap nat Flight;
  next_flight : nat;
  callers : gmap nat Caller;
  returned : list (str * nat * nat * option T)   (** key, flight, arrival and result *)
}.

Definition start_state : State :=
  {| flights := ∅; memory := ∅; next_flight := 0; callers := ∅; returned := [] |}.

Definition holds (i : nat) (c : Caller) : bool := c_flight c =? i.

(** [Arc::strong_count]. *)
Definition strong_count (i : nat) (s : State) : nat := size (filter (fun x => holds i x.2 = true) (callers s)).

Inductive Event :=
| Enter (t : nat) (key : str)
| Arrive (t : nat) | Acquire (t : nat) | Look (t : nat) | LoadOk (t : nat) (v : T) | LoadErr (t : nat)
| Count (t : nat) | Store (t : nat) | Release (t : nat) | DropBody (t : nat) | DropArc (t : nat) | Cancel (t : nat).

Definition put_caller (t : nat) (c : Caller) (s : State) : State :=
  {| flights := flights s; memory := memory s; next_flight := next_flight s; callers := <[t := c]> (callers s);
     returned := returned s |}.

Definition put_flight (i : nat) (f : Flight) (s : State) : State :=
  {| flights := flights s; memory := <[i := f]> (memory s); next_flight := next_flight s; callers := callers s;
     returned := returned s |}.

Definition to_phase (t : nat) (c : Caller) (p : Phase) (s : State) : State :=
  put_caller t {| c_key := c_key c; c_flight := c_flight c; c_phase := p |} s.

(** [KeyedCoalesce::flight]. *)
Definition enter (t : nat) (key : str) (s : State) : State :=
  match flights s !! key with
  | Some i =>
      if 0 <? strong_count i s then put_caller t {| c_key := key; c_flight := i; c_phase := Entered |} s
      else {| flights := <[key := next_flight s]> (flights s); memory := <[next_flight s := new_flight key]> (memory s);
              next_flight := S (next_flight s);
              callers := <[t := {| c_key := key; c_flight := next_flight s; c_phase := Entered |}]> (callers s);
              returned := returned s |}
  | None => {| flights := <[key := next_flight s]> (flights s); memory := <[next_flight s := new_flight key]> (memory s);
               next_flight := S (next_flight s);
               callers := <[t := {| c_key := key; c_flight := next_flight s; c_phase := Entered |}]> (callers s);
               returned := returned s |}
  end.

(** [CoalesceFlight::drop]. *)
Definition drop_body (t : nat) (c : Caller) (arrived : nat) (r : option T) (s : State) : State :=
  let is_last := bool_decide (flights s !! c_key c = Some (c_flight c)) && (strong_count (c_flight c) s =? 1) in
  let s := to_phase t c (Dropping arrived r) s in
  if is_last then
    {| flights := delete (c_key c) (flights s); memory := memory s; next_flight := next_flight s;
       callers := callers s; returned := returned s |}
  else s.

Definition drop_arc (t : nat) (c : Caller) (arrived : nat) (r : option T) (s : State) : State :=
  {| flights := flights s; memory := memory s; next_flight := next_flight s; callers := delete t (callers s);
     returned := (c_key c, c_flight c, arrived, r) :: returned s |}.

(** One step of caller [t] in its phase, with its flight. *)
Definition step_caller (t : nat) (c : Caller) (f : Flight) (e : Event) (s : State) : option State :=
  let i := c_flight c in
  match e, c_phase c with
  | Arrive _, Entered => Some (to_phase t c (Waiting (completions f)) s)
  | Acquire _, Waiting a =>
      match gate_holder f with
      | None => Some (put_flight i (set_gate (Some t) f) (to_phase t c (Holding a) s))
      | Some _ => None
      end
  | Look _, Holding a =>
      match completed_after a f with
      | Some v => Some (to_phase t c (Returning a (Some v)) s)
      | None => Some (to_phase t c (Loading a) s)
      end
  | LoadOk _ v, Loading a => Some (to_phase t c (Loaded a v) s)
  | LoadErr _, Loading a => Some (to_phase t c (Returning a None) s)
  | Count _, Loaded a v => Some (put_flight i (count_load v f) (to_phase t c (Counted a (S (completions f)) v) s))
  | Store _, Counted a g v => Some (put_flight i (store_load g v f) (to_phase t c (Returning a (Some v)) s))
  | Release _, Returning a r => Some (put_flight i (set_gate None f) (to_phase t c (Leaving a r) s))
  | DropBody _, Leaving a r => Some (drop_body t c a r s)
  | DropArc _, Dropping a r => Some (drop_arc t c a r s)
  | Cancel _, Waiting a => Some (to_phase t c (Leaving a None) s)
  | Cancel _, Loading a => Some (put_flight i (set_gate None f) (to_phase t c (Leaving a None) s))
  | _, _ => None
  end.

Definition event_caller (e : Event) : nat :=
  match e with
  | Enter t _ | Arrive t | Acquire t | Look t | LoadOk t _ | LoadErr t | Count t | Store t | Release t | DropBody t
  | DropArc t | Cancel t => t
  end.

Definition step (s : State) (e : Event) : option State :=
  let t := event_caller e in
  match e with
  | Enter _ key => match callers s !! t with None => Some (enter t key s) | Some _ => None end
  | _ =>
      match callers s !! t with
      | Some c => match memory s !! c_flight c with Some f => step_caller t c f e s | None => None end
      | None => None
      end
  end.

Fixpoint run_events (s : State) (es : list Event) : option State :=
  match es with
  | [] => Some s
  | e :: es' => match step s e with Some s' => run_events s' es' | None => None end
  end.
End coalesce.
Arguments Flight : clear implicits.
Arguments Phase : clear implicits.
Arguments Caller : clear implicits.
Arguments State : clear implicits.
Arguments Event : clear implicits.

(** * Loads are shared and never stale

    [inv] is kept by every step of every caller: the gate of a flight has one holder,
    the active callers of a key use one flight, and a caller that loads knows that nothing
    was published since it arrived. *)

Section facts.
Context {T : Type}.
Implicit Types (s : State T) (f : Flight T) (c : Caller T) (p : Phase T).

Definition active p : bool := match p with Dropping _ _ => false | _ => true end.

Definition has_gate p : bool :=
  match p with Holding _ | Loading _ | Loaded _ _ | Counted _ _ _ | Returning _ _ => true | _ => false end.

Definition counted p : bool := match p with Counted _ _ _ => true | _ => false end.

(** A value a caller may get: published after it arrived. *)
Definition result_ok f (arrived : nat) (r : option T) : Prop :=
  forall v, r = Some v -> exists k, arrived <= k /\ loads f !! k = Some v.

Definition phase_ok f p : Prop :=
  match p with
  | Entered => True
  | Waiting a | Holding a => a <= completions f
  | Loading a | Loaded a _ => a = completions f
  | Counted a g v => g = S a /\ g = completions f /\ loads f !! a = Some v
  | Returning a r | Leaving a r | Dropping a r => result_ok f a r
  end.

Definition flight_ok f : Prop :=
  length (loads f) = completions f
  /\ forall g v, completed f = Some (g, v) -> exists k, g = S k /\ k < completions f /\ loads f !! k = Some v.

(** The value on offer is the last one published. *)
Definition settled f : Prop :=
  match completed f with Some (g, _) => g = completions f | None => completions f = 0 end.

Record inv s : Prop := {
  inv_caller t c : callers s !! t = Some c ->
    exists f, memory s !! c_flight c = Some f /\ flight_key f = c_key c /\ phase_ok f (c_phase c)
              /\ (has_gate (c_phase c) = true <-> gate_holder f = Some t);
  inv_gate i f t : memory s !! i = Some f -> gate_holder f = Some t ->
    exists c, callers s !! t = Some c /\ c_flight c = i /\ has_gate (c_phase c) = true;
  inv_active t c : callers s !! t = Some c -> active (c_phase c) = true -> flights s !! c_key c = Some (c_flight c);
  inv_flight i f : memory s !! i = Some f -> flight_ok f /\ i < next_flight s
    /\ (settled f \/ exists t c, callers s !! t = Some c /\ c_flight c = i /\ counted (c_phase c) = true);
  inv_key k i : flights s !! k = Some i -> exists f, memory s !! i = Some f /\ flight_key f = k;
  inv_returned k i a r : (k, i, a, r) ∈ returned s ->
    exists f, memory s !! i = Some f /\ flight_key f = k /\ result_ok f a r
}.

Lemma inv_start : inv start_state.
Proof. split; cbn; intros *; rewrite ?lookup_empty; try done. intros H. by apply elem_of_nil in H. Qed.

(** How a flight may change while [t] takes a step. *)
Definition flight_step (t : nat) f f' : Prop :=
  flight_key f' = flight_key f /\ loads f `prefix_of` loads f'
  /\ (completions f' = completions f \/ gate_holder f = Some t)
  /\ completions f <= completions f'
  /\ forall t', t' <> t -> gate_holder f' = Some t' <-> gate_holder f = Some t'.

Lemma result_mono f f' a r : loads f `prefix_of` loads f' -> result_ok f a r -> result_ok f' a r.
Proof.
  intros Hp H v Hv. destruct (H v Hv) as (k & Hk & Hl). exists k. split; [done|]. by eapply prefix_lookup_Some.
Qed.

Lemma phase_mono t t' f f' p :
  flight_step t f f' -> t' <> t -> (has_gate p = true <-> gate_holder f = Some t') -> phase_ok f p -> phase_ok f' p.
Proof.
  intros (_ & Hp & [Hc|Hg] & Hle & _) Hne Hgate H.
  - destruct p; cbn in *; rewrite ?Hc; try done; try (by eapply result_mono).
    destruct H as (H1 & H2 & H3). split_and!; [done..|]. by eapply prefix_lookup_Some.
  - assert (has_gate p = false) as Hno. { destruct (has_gate p) eqn:E; [|done]. destruct Hgate as [Hx _]. specialize (Hx eq_refl). congruence. }
    destruct p; cbn in *; try done; try lia; by eapply result_mono.
Qed.

(** A step of [t] from phase [c_phase c] to [p] that turns its flight [f] into [f']. *)
Lemma inv_update s t c f p f' :
  inv s -> callers s !! t = Some c -> memory s !! c_flight c = Some f -> flight_step t f f' -> flight_ok f' ->
  phase_ok f' p -> (has_gate p = true <-> gate_holder f' = Some t) ->
  (settled f' \/ counted p = true \/ (settled f -> settled f') /\ counted (c_phase c) = false) ->
  (active p = true -> active (c_phase c) = true) ->
  inv (put_flight (c_flight c) f' (to_phase t c p s)).
Proof.
  intros Hi Hc Hf Hst Hok Hp Hg Hset Hact. pose proof Hst as (Hkey & Hpre & _ & _ & Hother). split; cbn.
  - intros t' c'. rewrite lookup_insert_Some. intros [[<- <-]|[Hne Hc']]; cbn.
    + exists f'. rewrite lookup_insert_eq. destruct (inv_caller s Hi t c Hc) as (f0 & Hf0 & Hk0 & _). simplify_eq.
      split_and!; [done|congruence|done|done].
    + destruct (inv_caller s Hi t' c' Hc') as (f0 & Hf0 & Hk0 & Hp0 & Hg0).
      destruct (decide (c_flight c' = c_flight c)) as [E|E].
      * rewrite E in *. simplify_eq. exists f'. rewrite lookup_insert_eq. split_and!; [done|congruence| |].
        -- by eapply phase_mono.
        -- rewrite Hother by done. done.
      * exists f0. by rewrite lookup_insert_ne.
  - intros i f0 t'. rewrite lookup_insert_Some. intros [[<- <-]|[Hne Hf0]] Hg0.
    + destruct (decide (t' = t)) as [->|Ht].
      * exists {| c_key := c_key c; c_flight := c_flight c; c_phase := p |}. rewrite lookup_insert_eq. split_and!; [done..|]. by apply Hg.
      * rewrite lookup_insert_ne by done. apply (inv_gate s Hi _ f); [done|]. by apply Hother.
    + destruct (inv_gate s Hi i f0 t' Hf0 Hg0) as (c0 & Hc0 & Hi0 & Hgate0).
      exists c0. rewrite lookup_insert_ne; [done|]. intros ->. simplify_eq.
  - intros t' c'. rewrite lookup_insert_Some. intros [[<- <-]|[Hne Hc']]; cbn; [|by apply (inv_active s Hi t')].
    intros Ha. apply (inv_active s Hi t c Hc). by apply Hact.
  - intros i f0. rewrite lookup_insert_Some. intros [[<- <-]|[Hne Hf0]].
    + destruct (inv_flight s Hi _ f Hf) as (_ & Hn & Hs). split; [done|]. split; [done|].
      destruct Hset as [?|[Hcp|[Hsf Hnc]]]; [by left| |].
      * right. exists t. eexists. rewrite lookup_insert_eq. done.
      * destruct Hs as [Hs|(t0 & c0 & Hc0 & Hi0 & Hcc)]; [left; by apply Hsf|]. right. exists t0, c0.
        rewrite lookup_insert_ne; [done|]. intros ->. congruence.
    + destruct (inv_flight s Hi i f0 Hf0) as (H1 & H2 & Hs). split_and!; [done..|].
      destruct Hs as [Hs|(t0 & c0 & Hc0 & Hi0 & Hcc)]; [by left|]. right. exists t0, c0. rewrite lookup_insert_ne; [done|].
      intros ->. simplify_eq.
  - intros k i Hk. destruct (inv_key s Hi k i Hk) as (f0 & Hf0 & Hk0). destruct (decide (i = c_flight c)) as [->|E].
    + simplify_eq. exists f'. by rewrite lookup_insert_eq.
    + exists f0. by rewrite lookup_insert_ne.
  - intros k i a r Hr. destruct (inv_returned s Hi k i a r Hr) as (f0 & Hf0 & Hk0 & Hr0).
    destruct (decide (i = c_flight c)) as [->|E].
    + simplify_eq. exists f'. rewrite lookup_insert_eq. split_and!; [done..|]. by eapply result_mono.
    + exists f0. by rewrite lookup_insert_ne.
Qed.

Lemma put_flight_id i f s : memory s !! i = Some f -> put_flight i f s = s.
Proof. intros H. unfold put_flight. rewrite insert_id by done. by destruct s. Qed.

Lemma flight_step_refl t f : flight_step t f f.
Proof. split_and!; [done|done|by left|lia|done]. Qed.

(** A step that leaves the flight alone. *)
Lemma inv_phase s t c f p :
  inv s -> callers s !! t = Some c -> memory s !! c_flight c = Some f -> phase_ok f p ->
  has_gate p = has_gate (c_phase c) -> counted (c_phase c) = false -> (active p = true -> active (c_phase c) = true) ->
  inv (to_phase t c p s).
Proof.
  intros Hi Hc Hf Hp Hg Hn Ha. rewrite <- (put_flight_id (c_flight c) f (to_phase t c p s)) by done.
  destruct (inv_caller s Hi t c Hc) as (f0 & Hf0 & _ & _ & Hg0). simplify_eq.
  destruct (inv_flight s Hi _ f Hf) as (Hok & _). eapply inv_update; eauto using flight_step_refl. by rewrite Hg.
Qed.

(** A caller that holds the gate and is not in the middle of publishing finds the flight
    settled. *)
Lemma gate_settled s t c f :
  inv s -> callers s !! t = Some c -> memory s !! c_flight c = Some f -> has_gate (c_phase c) = true ->
  counted (c_phase c) = false -> settled f.
Proof.
  intros Hi Hc Hf Hg Hn. destruct (inv_flight s Hi _ f Hf) as (_ & _ & [Hs|(t0 & c0 & Hc0 & Hi0 & Hcc)]); [done|].
  destruct (inv_caller s Hi t c Hc) as (f1 & Hf1 & _ & _ & Hg1). destruct (inv_caller s Hi t0 c0 Hc0) as (f2 & Hf2 & _ & _ & Hg2).
  rewrite Hi0 in Hf2. simplify_eq. apply Hg1 in Hg.
  assert (gate_holder f = Some t0) as Hg' by (apply Hg2; by destruct (c_phase c0)). simplify_eq. congruence.
Qed.

Lemma look_result f a v : flight_ok f -> completed_after a f = Some v -> result_ok f a (Some v).
Proof.
  intros [_ Hc]. unfold completed_after. destruct (completed f) as [[g v']|]; [|done].
  destruct (Nat.ltb_spec a g); [|done]. intros [= ->] w [= <-]. destruct (Hc g v eq_refl) as (k & -> & _ & Hk).
  exists k. split; [lia|done].
Qed.

Lemma look_nothing f a : settled f -> a <= completions f -> completed_after a f = None -> a = completions f.
Proof.
  unfold settled, completed_after. destruct (completed f) as [[g v]|]; [|lia]. intros -> Hle.
  destruct (Nat.ltb_spec a (completions f)); [done|lia].
Qed.

Lemma count_ok f v : flight_ok f -> flight_ok (count_load v f).
Proof.
  intros [Hl Hc]. split; cbn; [rewrite length_app; cbn; lia|]. intros g v' H. destruct (Hc g v' H) as (k & -> & Hk & Hv).
  exists k. split_and!; [done|lia|]. by apply lookup_app_l_Some.
Qed.

Lemma gate_step_inv s t c f g p :
  inv s -> callers s !! t = Some c -> memory s !! c_flight c = Some f -> phase_ok f p ->
  gate_holder f = Some t \/ gate_holder f = None -> (g = Some t \/ g = None) -> (has_gate p = true <-> g = Some t) ->
  counted (c_phase c) = false -> (active p = true -> active (c_phase c) = true) ->
  inv (put_flight (c_flight c) (set_gate g f) (to_phase t c p s)).
Proof.
  intros Hi Hc Hf Hp Hgf Hg Hpg Hn Ha. destruct (inv_flight s Hi _ f Hf) as (Hok & _).
  eapply inv_update; [done..| |done| |done| |done].
  - split_and!; cbn; [done|done|by left|lia|]. intros t' Ht. destruct Hgf as [-> | ->], Hg as [-> | ->]; naive_solver.
  - by destruct p.
  - right. right. done.
Qed.

Lemma holds_gate s t c f : inv s -> callers s !! t = Some c -> memory s !! c_flight c = Some f ->
  phase_ok f (c_phase c) /\ flight_ok f /\ (has_gate (c_phase c) = true -> gate_holder f = Some t).
Proof.
  intros Hi Hc Hf. destruct (inv_caller s Hi t c Hc) as (f0 & Hf0 & _ & Hp & Hg). simplify_eq.
  destruct (inv_flight s Hi _ f Hf) as (Hok & _). split_and!; [done..|apply Hg].
Qed.

(** *** Flights *)

Lemma strong_count_pos i s t c : callers s !! t = Some c -> c_flight c = i -> 0 < strong_count i s.
Proof.
  intros Hc Hi. unfold strong_count. apply Nat.neq_0_lt_0. rewrite map_size_ne_0_lookup. exists t.
  rewrite map_lookup_filter, Hc. cbn. rewrite option_guard_True by (unfold holds; by apply Nat.eqb_eq). done.
Qed.

Lemma strong_count_one i s t t' c c' :
  strong_count i s = 1 -> callers s !! t = Some c -> c_flight c = i -> callers s !! t' = Some c' -> c_flight c' = i -> t' = t.
Proof.
  intros H1 Hc Hi Hc' Hi'. destruct (decide (t' = t)) as [|Hne]; [done|exfalso]. unfold strong_count in H1.
  set (m := filter _ _) in H1.
  assert (m !! t = Some c /\ delete t m !! t' = Some c') as [Ht Ht'].
  { rewrite lookup_delete_ne by done. split; apply map_lookup_filter_Some; (split; [done|]); unfold holds; by apply Nat.eqb_eq. }
  pose proof (map_size_delete_Some t m ltac:(by eexists)) as Hd.
  pose proof (map_size_ne_0_lookup_2 (delete t m) t' ltac:(by eexists)). lia.
Qed.

(** A caller of a flight made for it. *)
Lemma inv_new_flight s t key :
  inv s -> callers s !! t = None -> (forall u c, callers s !! u = Some c -> c_key c = key -> active (c_phase c) = false) ->
  inv {| flights := <[key := next_flight s]> (flights s); memory := <[next_flight s := new_flight key]> (memory s);
         next_flight := S (next_flight s);
         callers := <[t := {| c_key := key; c_flight := next_flight s; c_phase := Entered |}]> (callers s);
         returned := returned s |}.
Proof.
  intros Hi Ht Hno.
  assert (forall i f, memory s !! i = Some f -> next_flight s <> i) as Hfresh.
  { intros i f Hf. destruct (inv_flight s Hi i f Hf) as (_ & ? & _). lia. }
  split; cbn.
  - intros u c. rewrite lookup_insert_Some. intros [[<- <-]|[Hne Hc]]; cbn.
    + exists (new_flight key). rewrite lookup_insert_eq. done.
    + destruct (inv_caller s Hi u c Hc) as (f & Hf & H). exists f. rewrite lookup_insert_ne by eauto. done.
  - intros i f u. rewrite lookup_insert_Some. intros [[<- <-]|[Hne Hf]] Hg; [done|].
    destruct (inv_gate s Hi i f u Hf Hg) as (c & Hc & H). exists c. rewrite lookup_insert_ne; [done|congruence].
  - intros u c. rewrite lookup_insert_Some. intros [[<- <-]|[Hne Hc]] Ha; cbn; [by rewrite lookup_insert_eq|].
    rewrite lookup_insert_ne; [by apply (inv_active s Hi u)|]. intros Heq. by rewrite (Hno u c Hc (eq_sym Heq)) in Ha.
  - intros i f. rewrite lookup_insert_Some. intros [[<- <-]|[Hne Hf]].
    + split_and!; [by split|lia|by left].
    + destruct (inv_flight s Hi i f Hf) as (H1 & H2 & H3). split_and!; [done|lia|].
      destruct H3 as [?|(u & c & Hc & H)]; [by left|]. right. exists u, c. rewrite lookup_insert_ne; [done|congruence].
  - intros k i. rewrite lookup_insert_Some. intros [[<- <-]|[Hne Hk]].
    + exists (new_flight key). by rewrite lookup_insert_eq.
    + destruct (inv_key s Hi k i Hk) as (f & Hf & H). exists f. rewrite lookup_insert_ne by eauto. done.
  - intros k i a r Hr. destruct (inv_returned s Hi k i a r Hr) as (f & Hf & H). exists f. rewrite lookup_insert_ne by eauto. done.
Qed.

Lemma inv_join_flight s t key i :
  inv s -> callers s !! t = None -> flights s !! key = Some i ->
  inv (put_caller t {| c_key := key; c_flight := i; c_phase := Entered |} s).
Proof.
  intros Hi Ht Hk. destruct (inv_key s Hi key i Hk) as (f0 & Hf0 & Hk0). split; cbn.
  - intros u c. rewrite lookup_insert_Some. intros [[<- <-]|[Hne Hc]]; cbn; [|by apply (inv_caller s Hi)].
    exists f0. split_and!; [done..|]. split; [done|]. intros Hg. destruct (inv_gate s Hi i f0 t Hf0 Hg) as (c & Hc & _). congruence.
  - intros j f u Hf Hg. destruct (inv_gate s Hi j f u Hf Hg) as (c & Hc & H). exists c. rewrite lookup_insert_ne; [done|congruence].
  - intros u c. rewrite lookup_insert_Some. intros [[<- <-]|[Hne Hc]]; [done|by apply (inv_active s Hi u)].
  - intros j f Hf. destruct (inv_flight s Hi j f Hf) as (H1 & H2 & H3). split_and!; [done..|].
    destruct H3 as [?|(u & c & Hc & H)]; [by left|]. right. exists u, c. rewrite lookup_insert_ne; [done|congruence].
  - apply (inv_key s Hi).
  - apply (inv_returned s Hi).
Qed.

Lemma inv_enter s t key : inv s -> callers s !! t = None -> inv (enter t key s).
Proof.
  intros Hi Ht. unfold enter. destruct (flights s !! key) as [i|] eqn:Hk; [destruct (Nat.ltb_spec 0 (strong_count i s))|].
  - by apply inv_join_flight.
  - apply inv_new_flight; [done..|]. intros u c Hc Hkey. destruct (active (c_phase c)) eqn:Ha; [|done].
    apply (inv_active s Hi u c Hc) in Ha. rewrite Hkey, Hk in Ha. injection Ha as Ha.
    pose proof (strong_count_pos i s u c Hc ltac:(done)). lia.
  - apply inv_new_flight; [done..|]. intros u c Hc Hkey. destruct (active (c_phase c)) eqn:Ha; [|done].
    apply (inv_active s Hi u c Hc) in Ha. congruence.
Qed.

Lemma inv_drop_body s t c a r :
  inv s -> callers s !! t = Some c -> c_phase c = Leaving a r -> inv (drop_body t c a r s).
Proof.
  intros Hi Hc Hp. destruct (inv_caller s Hi t c Hc) as (f & Hf & Hkey & Hok & _). rewrite Hp in Hok.
  assert (inv (to_phase t c (Dropping a r) s)) as Hi' by (eapply inv_phase; rewrite ?Hp; done).
  unfold drop_body. case_bool_decide as Hfl; [|done]. destruct (Nat.eqb_spec (strong_count (c_flight c) s) 1) as [H1|]; [|done].
  cbn [andb]. split; cbn.
  - apply (inv_caller _ Hi').
  - apply (inv_gate _ Hi').
  - intros u c'. rewrite lookup_insert_Some. intros [[<- <-]|[Hne Hc']] Ha; [done|].
    pose proof (inv_active s Hi u c' Hc' Ha) as Hu. rewrite lookup_delete_ne; [done|]. intros Heq.
    apply Hne. symmetry. eapply (strong_count_one (c_flight c) s t u c c'); [done..|]. rewrite Heq in Hfl. congruence.
  - apply (inv_flight _ Hi').
  - intros k i [_ Hk]%lookup_delete_Some. by apply (inv_key s Hi).
  - apply (inv_returned _ Hi').
Qed.

Lemma inv_drop_arc s t c a r :
  inv s -> callers s !! t = Some c -> c_phase c = Dropping a r -> inv (drop_arc t c a r s).
Proof.
  intros Hi Hc Hp. destruct (inv_caller s Hi t c Hc) as (f & Hf & Hkey & Hok & Hg). rewrite Hp in Hok, Hg.
  assert (forall u d, callers s !! u = Some d -> has_gate (c_phase d) = true \/ counted (c_phase d) = true -> t <> u) as Hne.
  { intros u d Hd H ->. rewrite Hc in Hd. injection Hd as ->. rewrite Hp in H. cbn in H. naive_solver. }
  split; cbn.
  - intros u c' [_ Hu]%lookup_delete_Some. by apply (inv_caller s Hi).
  - intros i f0 u Hf0 Hg0. destruct (inv_gate s Hi i f0 u Hf0 Hg0) as (c0 & Hc0 & H0 & H1). exists c0.
    rewrite lookup_delete_ne by eauto. done.
  - intros u c' [_ Hu]%lookup_delete_Some. by apply (inv_active s Hi u).
  - intros i f0 Hf0. destruct (inv_flight s Hi i f0 Hf0) as (H1 & H2 & H3). split_and!; [done..|].
    destruct H3 as [?|(u & c0 & Hc0 & H & H')]; [by left|]. right. exists u, c0. rewrite lookup_delete_ne by eauto. done.
  - apply (inv_key s Hi).
  - intros k i a' r' [[= -> -> -> ->]|Hin]%elem_of_cons; [by exists f|by apply (inv_returned s Hi)].
Qed.

Lemma inv_step_caller s t c f e s' :
  inv s -> callers s !! t = Some c -> memory s !! c_flight c = Some f -> step_caller t c f e s = Some s' -> inv s'.
Proof.
  intros Hi Hc Hf Hstep. destruct (holds_gate s t c f Hi Hc Hf) as (Hp & Hok & Hg). unfold step_caller in Hstep.
  destruct e, (c_phase c) as [|a|a|a|a w|a g w|a r|a r|a r] eqn:Ep; try done; cbn in Hp, Hg.
  - injection Hstep as <-. apply (inv_phase s t c f); rewrite ?Ep; cbn; done || lia.
  - destruct (gate_holder f) eqn:E; [done|]. injection Hstep as <-. apply gate_step_inv; rewrite ?Ep; auto; done.
  - destruct (completed_after a f) as [v|] eqn:E; injection Hstep as <-; (apply (inv_phase s t c f); rewrite ?Ep; try done).
    + by apply look_result.
    + apply look_nothing; [|done..]. eapply gate_settled; rewrite ?Ep; done.
  - injection Hstep as <-. apply (inv_phase s t c f); rewrite ?Ep; cbn; done || lia.
  - injection Hstep as <-. apply (inv_phase s t c f); rewrite ?Ep; cbn; done || lia.
  - injection Hstep as <-. subst a. apply (inv_update s t c f); rewrite ?Ep; try done.
    + split_and!; cbn; [done|by apply prefix_app_r|right; by apply Hg|lia|done].
    + by apply count_ok.
    + cbn. split_and!; [done..|]. destruct Hok as [<- _]. by rewrite lookup_app_r, Nat.sub_diag by lia.
    + right. by left.
  - injection Hstep as <-. destruct Hp as (-> & Hcomp & Hl). apply (inv_update s t c f); rewrite ?Ep; try done.
    + split_and!; cbn; [done|done|by left|lia|done].
    + destruct Hok as [Hlen _]. split; [done|]. cbn. intros g v [= <- <-]. exists a. split_and!; [done|lia|done].
    + cbn. intros v [= <-]. by exists a.
    + left. done.
  - injection Hstep as <-. apply gate_step_inv; rewrite ?Ep; auto; done.
  - injection Hstep as <-. by apply inv_drop_body.
  - injection Hstep as <-. by apply inv_drop_arc.
  - injection Hstep as <-. apply (inv_phase s t c f); rewrite ?Ep; cbn; done || lia.
  - injection Hstep as <-. apply gate_step_inv; rewrite ?Ep; auto; done.
Qed.

Lemma inv_step s e s' : inv s -> step s e = Some s' -> inv s'.
Proof.
  intros Hi. unfold step. destruct e as [t key| | | | | | | | | | | ]; cbn [event_caller];
    try (destruct (callers s !! _) as [c|] eqn:Hc; [|done]; destruct (memory s !! c_flight c) as [f|] eqn:Hf; [|done];
         by eapply inv_step_caller).
  destruct (callers s !! t) eqn:Hc; [done|]. intros [= <-]. by apply inv_enter.
Qed.

Lemma inv_run es s s' : inv s -> run_events s es = Some s' -> inv s'.
Proof.
  revert s. induction es as [|e es IH]; cbn; intros s Hi H; [by injection H as <-|].
  destruct (step s e) as [s1|] eqn:E; [|done]. eapply IH; [|done]. by eapply inv_step.
Qed.
End facts.

Definition is_loading {T} (p : Phase T) : bool := match p with Loading _ => true | _ => false end.

(** C31: Loads are shared and never stale.  In every interleaving of callers, cancelled
    ones included, at most one caller per key is loading; it loads only when nothing was
    published since it arrived; and every value returned was published by a load of that
    key that finished after the caller had arrived. *)
Theorem coalesced_loads {T} (es : list (Event T)) (s : State T) :
  run_events start_state es = Some s ->
  (forall t1 t2 c1 c2, callers s !! t1 = Some c1 -> callers s !! t2 = Some c2 -> c_key c1 = c_key c2 ->
     is_loading (c_phase c1) = true -> is_loading (c_phase c2) = true -> t1 = t2)
  /\ (forall t c arrived, callers s !! t = Some c -> c_phase c = Loading arrived ->
        exists f, memory s !! c_flight c = Some f /\ length (loads f) = arrived)
  /\ (forall key i arrived v, (key, i, arrived, Some v) ∈ returned s ->
        exists f k, memory s !! i = Some f /\ flight_key f = key /\ arrived <= k /\ loads f !! k = Some v).
Proof.
  intros Hrun. apply inv_run in Hrun as Hi; [|apply inv_start]. split_and!.
  - intros t1 t2 c1 c2 H1 H2 Hk L1 L2.
    assert (flights s !! c_key c1 = Some (c_flight c1)) as F1 by (apply (inv_active s Hi t1); [done|by destruct (c_phase c1)]).
    assert (flights s !! c_key c2 = Some (c_flight c2)) as F2 by (apply (inv_active s Hi t2); [done|by destruct (c_phase c2)]).
    destruct (inv_caller s Hi t1 c1 H1) as (f1 & M1 & _ & _ & G1), (inv_caller s Hi t2 c2 H2) as (f2 & M2 & _ & _ & G2).
    rewrite Hk in F1. rewrite F1 in F2. injection F2 as F2. rewrite F2, M2 in M1. injection M1 as <-.
    assert (gate_holder f2 = Some t1) by (apply G1; by destruct (c_phase c1)).
    assert (gate_holder f2 = Some t2) by (apply G2; by destruct (c_phase c2)). congruence.
  - intros t c a Hc Hp. destruct (inv_caller s Hi t c Hc) as (f & Hf & _ & Hok & _). rewrite Hp in Hok. exists f. split; [done|].
    destruct (inv_flight s Hi _ f Hf) as ([-> _] & _). done.
  - intros key i a v Hr. destruct (inv_returned s Hi _ _ _ _ Hr) as (f & Hf & Hk & Hv). destruct (Hv v eq_refl) as (k & ? & ?).
    by exists f, k.
Qed.

Module CoalesceSample.
Definition key : str := lit "rec:user:1".

(** Two callers of a key: the second waits for the first and takes its value. *)
Definition shared : list (Event Z) :=
  [Enter 0 key; Enter 1 key; Arrive 0; Arrive 1; Acquire 0; Look 0; LoadOk 0 42%Z; Count 0; Store 0; Release 0;
   Acquire 1; Look 1; Release 1].

(** They leave one after the other, or both run the body of [drop] before either gives
    up its [Arc]. *)
Definition in_turn : list (Event Z) := [DropBody 0; DropArc 0; DropBody 1; DropArc 1].
Definition together : list (Event Z) := [DropBody 0; DropBody 1; DropArc 0; DropArc 1].

Definition final (es : list (Event Z)) : State Z := default start_state (run_events start_state es).

Lemma coalesced_loads_witness :
  run_events start_state (shared ++ in_turn) = Some (final (shared ++ in_turn))
  /\ returned (final (shared ++ in_turn)) = [(key, 0, 0, Some 42%Z); (key, 0, 0, Some 42%Z)]
  /\ exists f k, memory (final (shared ++ in_turn)) !! 0 = Some f /\ flight_key f = key /\ 0 <= k /\ loads f !! k = Some 42%Z.
Proof.
  assert (run_events start_state (shared ++ in_turn) = Some (final (shared ++ in_turn))) as Hrun by (vm_compute; reflexivity).
  assert (returned (final (shared ++ in_turn)) = [(key, 0, 0, Some 42%Z); (key, 0, 0, Some 42%Z)]) as Hr by (vm_compute; reflexivity).
  split; [exact Hrun|]. split; [exact Hr|].
  destruct (coalesced_loads (shared ++ in_turn) _ Hrun) as (_ & _ & H). apply (H key 0 0). rewrite Hr. left.
Defined.

(** C35: Two callers that leave together leave the entry of their key behind: each sees
    the other's [Arc] when it asks whether it is the last, so nobody removes it, although
    nobody holds the flight any more. *)
Theorem abandoned_entry :
  match run_events start_state (shared ++ in_turn), run_events start_state (shared ++ together) with
  | Some s1, Some s2 =>
      flights s1 !! key = None
      /\ flights s2 !! key = Some 0 /\ callers s2 = ∅ /\ strong_count 0 s2 = 0
  | _, _ => False
  end.
Proof. vm_compute. done. Qed.
End CoalesceSample.
