(* ===== verification/SyncEnqueue.v ===== *)
(** * SyncEnqueue: how the API queues what a user wants

    Source: [api/src/modules/sync_queue] ([service.rs], [status.rs]), its queries and the
    command [sync_queue.revive] of [0224_kinds_sync_queue.sql], over the table of
    [SyncRows].  A transaction is one step.  [row_id] is the id [scd_uuid] derives from a
    row's key; a generation from [scd_hlc] and the version the table's trigger gives an
    intent are arguments.  A statement that violates a constraint is [None]. *)

From Stdlib Require Import ZArith Lia String.
From stdpp Require Import base list numbers option tactics sets gmap relations.
From S2P Require Import Prelude Text EntityRef SyncRows SyncProgram SyncSystem.
Local Open Scope Z_scope.

Definition inverse (action : str) : option str :=
  if bool_decide (action = lit "like_track") then Some (lit "unlike_track")
  else if bool_decide (action = lit "unlike_track") then Some (lit "like_track")
  else if bool_decide (action = lit "like_playlist") then Some (lit "unlike_playlist")
  else if bool_decide (action = lit "unlike_playlist") then Some (lit "like_playlist")
  else if bool_decide (action = lit "follow_user") then Some (lit "unfollow_user")
  else if bool_decide (action = lit "unfollow_user") then Some (lit "follow_user")
  else None.

Definition TRACK_ACTIONS : list str := map lit ["like_track"; "unlike_track"; "track_update"; "track_delete"; "comment"]%string.
Definition PLAYLIST_ACTIONS : list str := map lit ["like_playlist"; "unlike_playlist"; "playlist_delete"; "playlist_update"]%string.
Definition USER_ACTIONS : list str := map lit ["follow_user"; "unfollow_user"]%string.

Definition canonical_target (action target : str) : str :=
  let entity := extract_sc_id target in
  if bool_decide (action ∈ TRACK_ACTIONS) then lit "soundcloud:tracks:" ++ entity
  else if bool_decide (action ∈ PLAYLIST_ACTIONS) then lit "soundcloud:playlists:" ++ entity
  else if bool_decide (action ∈ USER_ACTIONS) then lit "soundcloud:users:" ++ entity
  else target.

(** ** Statements *)

Definition has_key (user action target : str) (r : SyncRow) : bool :=
  bool_decide (user_id (intent r) = user) && bool_decide (action_type (intent r) = action)
  && bool_decide (target_urn (intent r) = target).

Definition find_row (user action target : str) (t : SyncTable) : option (Z * SyncRow) :=
  find (fun e => has_key user action target e.2) (map_to_list t).

(** jsonb [||]: objects are merged (their fields have no order), anything else is taken
    as an array and appended. *)
Definition concat_fields (a b : list (str * Value)) : list (str * Value) :=
  retain (fun f => negb (bool_decide (f.1 ∈ b.*1))) a ++ b.

Definition as_array (v : Value) : list Value := match v with VArray l => l | _ => [v] end.

Definition jsonb_concat (a b : Value) : Value :=
  match a, b with
  | VObject a, VObject b => VObject (concat_fields a b)
  | a, b => VArray (as_array a ++ as_array b)
  end.

(** [jsonb_build_object(k, coalesce(old->k, '{}') || (new->k))]. *)
Definition merged_payload (k : str) (old new : option Value) : Value :=
  match new ≫= field k with
  | None => VObject [(k, VNull)]
  | Some patch => VObject [(k, jsonb_concat (default (VObject []) (old ≫= field k)) patch)]
  end.

Definition renewed_payload (r : SyncRow) (new : option Value) : option Value :=
  let i := intent r in
  if cancelled i then new
  else if bool_decide (action_type i = lit "track_update") then Some (merged_payload (lit "track") (payload i) new)
  else if bool_decide (action_type i = lit "playlist_update") then Some (merged_payload (lit "playlist") (payload i) new)
  else new.

Section enqueue.
Context (row_id : str -> str -> str -> Z).

(** [enqueue.sql], with the generation [g] and the version [iv]. *)
Definition enqueue_sql (user action target : str) (new : option Value) (annuls : bool) (now g iv : Z) (t : SyncTable)
  : option SyncTable :=
  match find_row user action target t with
  | None =>
      let id := row_id user action target in
      match t !! id with
      | Some _ => None
      | None =>
          Some (<[id := {| intent := {| user_id := user; action_type := action; target_urn := target; payload := new;
                                        created_at := now; generation := g; cancelled := annuls; intent_v := iv |};
                           progress := fresh_progress now |}]> t)
      end
  | Some (id, r) =>
      if negb annuls || cancelled (intent r) then
        Some (<[id := {| intent := {| user_id := user; action_type := action; target_urn := target;
                                      payload := renewed_payload r new;
                                      created_at := if cancelled (intent r) then now else created_at (intent r);
                                      generation := g; cancelled := annuls; intent_v := iv |};
                         progress := progress r |}]> t)
      else Some t
  end.

(** A row that was queued and that no worker has touched. *)
Definition revocable (r : SyncRow) : bool := negb (cancelled (intent r)) && idle (progress r).

(** [cancel_inverse.sql]. *)
Definition cancel_sql (user action target : str) (t : SyncTable) : SyncTable :=
  match find_row user action target t with
  | Some (id, r) =>
      if revocable r then
        let i := intent r in
        <[id := {| intent := {| user_id := user_id i; action_type := action_type i; target_urn := target_urn i;
                                payload := payload i; created_at := created_at i; generation := generation i;
                                cancelled := true; intent_v := intent_v i |};
                   progress := progress r |}]> t
      else t
  | None => t
  end.

(** [lock_pair.sql]: whether the own row is locked first, and whether the inverse can
    still be taken back. *)
Definition lock_pair (user action inverse target : str) (t : SyncTable) : bool * bool :=
  let id_of a := match find_row user a target t with Some (id, _) => id | None => row_id user a target end in
  (id_of action <? id_of inverse,
   match find_row user inverse target t with Some (_, r) => revocable r | None => false end).

(** [sync_queue.generation] where a statement names none. *)
Definition GENERATION_DEFAULT : Z := 1.

(** The plain [INSERT] of a comment, under an id the table draws; every comment has the
    generation of the column's default. *)
Definition insert_comment (user target : str) (payload : option Value) (id now iv : Z) (t : SyncTable) : option SyncTable :=
  match t !! id with
  | Some _ => None
  | None =>
      Some (<[id := {| intent := {| user_id := user; action_type := lit "comment"; target_urn := target;
                                    payload := payload; created_at := now; generation := GENERATION_DEFAULT; cancelled := false;
                                    intent_v := iv |};
                       progress := fresh_progress now |}]> t)
  end.

(** [enqueue_on], for an error of a statement [None], which rolls the transaction back. *)
Definition enqueue_on (user action target : str) (payload : option Value) (id now g iv : Z) (t : SyncTable) : option SyncTable :=
  let user := extract_sc_id user in
  let target := canonical_target action target in
  if bool_decide (action = lit "comment") then insert_comment user target payload id now iv t
  else match inverse action with
       | None => enqueue_sql user action target payload false now g iv t
       | Some inv =>
           let '(own_first, annuls) := lock_pair user action inv target t in
           if (own_first : bool) then
             option_map (cancel_sql user inv target) (enqueue_sql user action target payload annuls now g iv t)
           else enqueue_sql user action target payload annuls now g iv (cancel_sql user inv target t)
       end.
End enqueue.

(** ** What the user sees of the queue ([pending_counts.sql]) *)

Definition HEALED : list str :=
  map lit ["like_track"; "unlike_track"; "like_playlist"; "unlike_playlist"; "follow_user"; "unfollow_user"]%string.

Definition days : Z := 24 * 60 * 60 * 1000.

Definition is_dead (r : SyncRow) : bool := dead (progress r) && negb (unadopted r).
Definition tries (r : SyncRow) : Z := if unadopted r then 0 else retry_count (progress r).

(** [hold] is the pause of the row's action for the application that writes. *)
Definition delayed_until (hold : str -> option Z) (now : Z) (r : SyncRow) : option Z :=
  if is_dead r then None
  else match hold (action_type (intent r)) with
       | Some until => Some (Z.max until now)
       | None =>
           if (tries r =? 0) && negb (unadopted r) && is_some (last_error (progress r)) then
             match next_run_at (progress r) with
             | Some at_ => if now <? at_ then Some at_ else None
             | None => None
             end
           else None
       end.

Definition counted_row (users : list str) (now : Z) (r : SyncRow) : bool :=
  bool_decide (user_id (intent r) ∈ users)
  && negb (cancelled (intent r) && idle (progress r))
  && negb (is_dead r && bool_decide (action_type (intent r) = lit "comment"))
  && (negb (is_dead r)
      || match failed_at (progress r) with Some at_ => now - 30 * days <? at_ | None => false end
      || bool_decide (action_type (intent r) ∈ HEALED)).

Definition is_pending (hold : str -> option Z) (now : Z) (r : SyncRow) : bool :=
  negb (is_dead r) && ((tries r =? 0) || is_some (delayed_until hold now r)).
Definition is_failed (hold : str -> option Z) (now : Z) (r : SyncRow) : bool :=
  is_dead r || ((0 <? tries r) && negb (is_some (delayed_until hold now r))).

Record Counts := { pending_count : nat; failed_count : nat; delayed_count : nat; dead_count : nat }.

Definition rows_of (t : SyncTable) : list SyncRow := (map_to_list t).*2.

Definition pending_counts (users : list str) (hold : str -> option Z) (now : Z) (t : SyncTable) : Counts :=
  let rows := retain (counted_row users now) (rows_of t) in
  {| pending_count := length (retain (is_pending hold now) rows);
     failed_count := length (retain (is_failed hold now) rows);
     delayed_count := length (retain (fun r => is_some (delayed_until hold now r)) rows);
     dead_count := length (retain (fun r => is_dead r && negb (bool_decide (action_type (intent r) ∈ HEALED))) rows) |}.

(** ** Reviving ([sync_queue.revive]) *)

Definition NOT_REVIVED : list str := lit "comment" :: HEALED ++ [lit "playlist_membership"].

Definition failed_within (at_ : Z) (p : Progress) : bool :=
  dead p && match failed_at p with
            | Some f => (f <? at_ - 2 * 60 * 1000) && (at_ - 30 * days <? f)
            | None => false
            end.

Definition targets (target : option str) (r : SyncRow) : bool :=
  match target with None => true | Some u => bool_decide (target_urn (intent r) = u) end.

Definition revived (users : list str) (target : option str) (at_ : Z) (r : SyncRow) : bool :=
  bool_decide (user_id (intent r) ∈ users) && failed_within at_ (progress r)
  && negb (bool_decide (action_type (intent r) ∈ NOT_REVIVED)) && targets target r.

Definition dropped (users : list str) (target : option str) (dropped_targets : list str) (at_ : Z) (r : SyncRow) : bool :=
  bool_decide (user_id (intent r) ∈ users) && failed_within at_ (progress r)
  && bool_decide (action_type (intent r) = lit "playlist_membership")
  && bool_decide (target_urn (intent r) ∈ dropped_targets) && targets target r.

Definition revive_row (at_ : Z) (r : SyncRow) : SyncRow :=
  let p := progress r in
  {| intent := intent r;
     progress := {| exec_generation := exec_generation p; lease_id := lease_id p; lease_generation := lease_generation p;
                    locked_at := locked_at p; retry_count := 0; last_error := None; next_run_at := Some at_; dead := false;
                    failed_at := None; remote_attempted_generation := remote_attempted_generation p;
                    remote_completed_generation := remote_completed_generation p; remote_result := remote_result p |} |}.

(** [scd_cmd_sync_queue_revive]; [scd_purge_intent] is taken to purge the row it is given. *)
Definition revive_sql (users : list str) (target : option str) (dropped_targets : list str) (at_ : Z) (t : SyncTable) : SyncTable :=
  omap (fun r => if revived users target at_ r then Some (revive_row at_ r)
                 else if dropped users target dropped_targets at_ r then None else Some r) t.

(** [revivable_count.sql]. *)
Definition revivable (users : list str) (target : option str) (reread : list str) (at_ : Z) (r : SyncRow) : bool :=
  bool_decide (user_id (intent r) ∈ users) && failed_within at_ (progress r) && targets target r
  && (negb (bool_decide (action_type (intent r) ∈ NOT_REVIVED))
      || (bool_decide (action_type (intent r) = lit "playlist_membership")
          && bool_decide (target_urn (intent r) ∈ reread))).

Definition revivable_count (users : list str) (target : option str) (reread : list str) (at_ : Z) (t : SyncTable) : nat :=
  length (retain (revivable users target reread at_) (rows_of t)).

(** * Queueing is a step of the system, and the last wish counts

    [enqueue_simulates]: everything the API does to the queue is a sequence of the steps
    that [SyncSystem] allows its environment, so what is shown of the workers there holds
    with this API.  [presses_refine]: what is queued for a reversible pair is what an
    abstract toggle holds after the same presses. *)

(** ** Rows by key *)

Definition comment_action : str := lit "comment".

Definition unique_keys (t : SyncTable) : Prop :=
  forall id1 r1 id2 r2 u a tg, t !! id1 = Some r1 -> t !! id2 = Some r2 -> has_key u a tg r1 = true ->
    has_key u a tg r2 = true -> a <> comment_action -> id1 = id2.

Lemma has_key_spec u a tg r :
  has_key u a tg r = true <-> user_id (intent r) = u /\ action_type (intent r) = a /\ target_urn (intent r) = tg.
Proof. unfold has_key. rewrite !andb_true_iff, !bool_decide_eq_true. tauto. Qed.

Lemma find_row_Some u a tg t id r : find_row u a tg t = Some (id, r) -> t !! id = Some r /\ has_key u a tg r = true.
Proof. intros [H1 H2]%find_Some. by apply elem_of_map_to_list in H1. Qed.

Lemma find_row_None u a tg t id r : find_row u a tg t = None -> t !! id = Some r -> has_key u a tg r = false.
Proof. intros H Hr. unfold find_row in H. rewrite find_None in H. apply (H (id, r)). by apply elem_of_map_to_list. Qed.

Lemma find_row_iff u a tg t id r :
  unique_keys t -> a <> comment_action ->
  find_row u a tg t = Some (id, r) <-> t !! id = Some r /\ has_key u a tg r = true.
Proof.
  intros Hu Ha. split; [apply find_row_Some|]. intros [Hr Hk]. destruct (find_row u a tg t) as [[id' r']|] eqn:E.
  - apply find_row_Some in E as [Hr' Hk']. assert (id' = id) as -> by (by eapply Hu). congruence.
  - by rewrite (find_row_None _ _ _ _ _ _ E Hr) in Hk.
Qed.

(** A row put in a table under its key, which no other row has. *)
Definition sole_key (u a tg : str) (id : Z) (t : SyncTable) : Prop :=
  forall id' r', t !! id' = Some r' -> has_key u a tg r' = true -> id' = id.

Lemma unique_insert u a tg id r t :
  unique_keys t -> has_key u a tg r = true -> sole_key u a tg id t -> unique_keys (<[id := r]> t).
Proof.
  intros Hu Hk Hs id1 r1 id2 r2 u' a' tg' H1 H2 K1 K2 Hc.
  assert (forall id' r', <[id := r]> t !! id' = Some r' -> has_key u' a' tg' r' = true -> id' <> id ->
            has_key u' a' tg' r = true -> False) as Hcl.
  { intros id' r' Hr' Hk' Hne Hkr. rewrite lookup_insert_ne in Hr' by done. apply Hne, (Hs id' r'); [done|].
    apply has_key_spec in Hk as (<- & <- & <-), Hk' as (? & ? & ?), Hkr as (? & ? & ?). apply has_key_spec. split_and!; congruence. }
  destruct (decide (id1 = id)) as [->|N1], (decide (id2 = id)) as [->|N2]; [done|exfalso..|].
  - rewrite lookup_insert_eq in H1. simplify_eq. by eapply (Hcl id2).
  - rewrite lookup_insert_eq in H2. simplify_eq. by eapply (Hcl id1).
  - rewrite lookup_insert_ne in H1, H2 by done. by eapply Hu.
Qed.

Lemma find_row_insert u a tg id r t :
  unique_keys t -> a <> comment_action -> has_key u a tg r = true -> sole_key u a tg id t ->
  find_row u a tg (<[id := r]> t) = Some (id, r).
Proof.
  intros Hu Ha Hk Hs. apply find_row_iff; [by eapply unique_insert|done|]. by rewrite lookup_insert_eq.
Qed.

(** Other keys see nothing of it. *)
Lemma find_row_insert_other u a a' tg id r t :
  unique_keys t -> a' <> comment_action -> a' <> a -> has_key u a tg r = true -> sole_key u a tg id t ->
  (forall r0, t !! id = Some r0 -> has_key u a tg r0 = true) ->
  find_row u a' tg (<[id := r]> t) = find_row u a' tg t.
Proof.
  intros Hu Ha Hne Hk Hs Hold. assert (unique_keys (<[id := r]> t)) as Hu' by (by eapply unique_insert).
  assert (forall id' r', find_row u a' tg (<[id := r]> t) = Some (id', r') <-> find_row u a' tg t = Some (id', r')) as Hiff.
  { intros id' r'. rewrite !find_row_iff by done. destruct (decide (id' = id)) as [->|N]; [|by rewrite lookup_insert_ne].
    rewrite lookup_insert_eq. apply has_key_spec in Hk as (_ & Hk & _). split.
    - intros [[= <-] (_ & H' & _)%has_key_spec]. congruence.
    - intros [H0 (_ & H' & _)%has_key_spec]. apply Hold, has_key_spec in H0 as (_ & H0 & _). congruence. }
  destruct (find_row u a' tg t) as [[i0 r0]|]; [by apply Hiff|].
  destruct (find_row u a' tg (<[id := r]> t)) as [[i1 r1]|]; [|done]. symmetry. by apply Hiff.
Qed.

Lemma found_sole u a tg id r t :
  unique_keys t -> a <> comment_action -> find_row u a tg t = Some (id, r) ->
  sole_key u a tg id t /\ forall r0, t !! id = Some r0 -> has_key u a tg r0 = true.
Proof.
  intros Hu Ha [Hr Hk]%find_row_Some. split.
  - intros id' r' Hr' Hk'. by eapply Hu.
  - intros r0 H0. by simplify_eq.
Qed.

Lemma missing_sole u a tg id t :
  find_row u a tg t = None -> t !! id = None -> sole_key u a tg id t /\ forall r0, t !! id = Some r0 -> has_key u a tg r0 = true.
Proof. intros Hf Hn. split; [|by rewrite Hn]. intros id' r' Hr' Hk'. by rewrite (find_row_None _ _ _ _ _ _ Hf Hr') in Hk'. Qed.

(** ** The statements *)

Section statements.
Context (row_id : str -> str -> str -> Z).

(** The row [enqueue_sql] leaves under its key, and that no other key notices. *)
Lemma enqueue_sql_effect u a tg new annuls now g iv t t' :
  unique_keys t -> a <> comment_action -> enqueue_sql row_id u a tg new annuls now g iv t = Some t' ->
  unique_keys t'
  /\ (forall a', a' <> comment_action -> a' <> a -> find_row u a' tg t' = find_row u a' tg t)
  /\ exists id r, find_row u a tg t' = Some (id, r)
       /\ match find_row u a tg t with
          | Some (_, r0) =>
              progress r = progress r0 /\ (cancelled (intent r) = false <-> annuls = false \/ cancelled (intent r0) = false)
          | None => progress r = fresh_progress now /\ cancelled (intent r) = annuls
          end.
Proof.
  intros Hu Ha. unfold enqueue_sql. destruct (find_row u a tg t) as [[id r0]|] eqn:Ef.
  - destruct (found_sole _ _ _ _ _ _ Hu Ha Ef) as [Hs Hold]. destruct (negb annuls || cancelled (intent r0)) eqn:Ec.
    + intros [= <-]. set (r := {| intent := _; progress := _ |}).
      assert (has_key u a tg r = true) as Hk by (by apply has_key_spec). split_and!.
      * by eapply unique_insert.
      * intros a' Hc Hne. by eapply find_row_insert_other.
      * exists id, r. split; [by eapply find_row_insert|]. split; [done|]. cbn. destruct annuls, (cancelled (intent r0)); cbn in *; naive_solver.
    + intros [= <-]. split_and!; [done|done|]. exists id, r0. split; [done|]. split; [done|].
      destruct annuls, (cancelled (intent r0)); cbn in *; naive_solver.
  - destruct (t !! row_id u a tg) eqn:En; [done|]. intros [= <-].
    destruct (missing_sole _ _ _ _ _ Ef En) as [Hs Hold]. set (r := {| intent := _; progress := _ |}).
    assert (has_key u a tg r = true) as Hk by (by apply has_key_spec). split_and!.
    + by eapply unique_insert.
    + intros a' Hc Hne. by eapply find_row_insert_other.
    + exists (row_id u a tg), r. split; [by eapply find_row_insert|done].
Qed.

Lemma cancel_sql_effect u a tg t :
  unique_keys t -> a <> comment_action ->
  unique_keys (cancel_sql u a tg t)
  /\ (forall a', a' <> comment_action -> a' <> a -> find_row u a' tg (cancel_sql u a tg t) = find_row u a' tg t)
  /\ match find_row u a tg t with
     | None => find_row u a tg (cancel_sql u a tg t) = None
     | Some (id, r) => exists r', find_row u a tg (cancel_sql u a tg t) = Some (id, r') /\ progress r' = progress r
         /\ cancelled (intent r') = cancelled (intent r) || idle (progress r)
     end.
Proof.
  intros Hu Ha. unfold cancel_sql. destruct (find_row u a tg t) as [[id r]|] eqn:Ef; [|by rewrite Ef].
  destruct (found_sole _ _ _ _ _ _ Hu Ha Ef) as [Hs Hold]. unfold revocable. destruct (negb _ && _) eqn:Er.
  - set (r' := {| intent := _; progress := progress r |}).
    assert (has_key u a tg r' = true) as Hk. { apply find_row_Some in Ef as [_ Hk]. apply has_key_spec in Hk. by apply has_key_spec. }
    split_and!; [by eapply unique_insert|intros; by eapply find_row_insert_other|].
    exists r'. split; [by eapply find_row_insert|]. split; [done|]. cbn. destruct (cancelled _), (idle _); done.
  - split_and!; [done..|]. exists r. split; [done|]. split; [done|]. destruct (cancelled _), (idle _); done.
Qed.
End statements.

(** ** Pairs of actions *)

Lemma inverse_pair a b : inverse a = Some b -> inverse b = Some a /\ a <> b /\ a <> comment_action /\ b <> comment_action.
Proof.
  unfold inverse. repeat (case_bool_decide; [subst a; intros [= <-]; vm_compute; done|]). done.
Qed.

Section pairs.
Context (row_id : str -> str -> str -> Z) (user target : str).

(** What is queued and not taken back. *)
Definition live (a : str) (t : SyncTable) : bool :=
  match find_row user a target t with Some (_, r) => negb (cancelled (intent r)) | None => false end.

Definition untouched (a : str) (t : SyncTable) : Prop :=
  forall id r, find_row user a target t = Some (id, r) -> idle (progress r) = true.

(** Nothing is in flight for the pair, and at most one side is queued. *)
Definition pair_ok (a b : str) (t : SyncTable) : Prop :=
  unique_keys t /\ untouched a t /\ untouched b t /\ live a t && live b t = false.

(** The wish a toggle holds, and a press of [a], whose inverse is [b]. *)
Definition wish (a b : str) (t : SyncTable) : option str :=
  if live a t then Some a else if live b t then Some b else None.
Definition press (a b : str) (w : option str) : option str :=
  if bool_decide (w = Some b) then None else Some a.

Lemma live_find a t t' : find_row user a target t' = find_row user a target t -> live a t' = live a t.
Proof. unfold live. by intros ->. Qed.

Lemma cancel_live a t : unique_keys t -> a <> comment_action -> untouched a t -> live a (cancel_sql user a target t) = false.
Proof.
  intros Hu Ha Hi. destruct (cancel_sql_effect user a target t Hu Ha) as (_ & _ & H). unfold live.
  destruct (find_row user a target t) as [[id r]|] eqn:E; [|by rewrite H]. destruct H as (r' & -> & _ & ->).
  by rewrite (Hi _ _ E), orb_true_r.
Qed.

Lemma cancel_untouched a t : unique_keys t -> a <> comment_action -> untouched a t -> untouched a (cancel_sql user a target t).
Proof.
  intros Hu Ha Hi id r Hf. destruct (cancel_sql_effect user a target t Hu Ha) as (_ & _ & H).
  destruct (find_row user a target t) as [[id0 r0]|] eqn:E; [|congruence]. destruct H as (r' & Hf' & Hp & _).
  rewrite Hf' in Hf. simplify_eq. rewrite Hp. by eapply Hi.
Qed.

Lemma enqueue_live a new annuls now g iv t t' :
  unique_keys t -> a <> comment_action -> untouched a t -> enqueue_sql row_id user a target new annuls now g iv t = Some t' ->
  untouched a t' /\ live a t' = negb annuls || live a t.
Proof.
  intros Hu Ha Hi He. destruct (enqueue_sql_effect row_id _ _ _ _ _ _ _ _ _ _ Hu Ha He) as (_ & _ & id & r & Hf & H).
  destruct (find_row user a target t) as [[id0 r0]|] eqn:E.
  - destruct H as [Hp Hc]. split; [intros i x Hx; rewrite Hf in Hx; simplify_eq; rewrite Hp; by eapply Hi|].
    unfold live. rewrite Hf, E. destruct (cancelled (intent r)), (cancelled (intent r0)), annuls; cbn in *; naive_solver.
  - destruct H as [Hp Hc]. split; [intros i x Hx; rewrite Hf in Hx; simplify_eq; by rewrite Hp|].
    unfold live. rewrite Hf, E, Hc. by destruct annuls.
Qed.

(** The statements of a press, in the order of the row locks. *)
Definition press_sql (a b : str) (own_first annuls : bool) (new : option Value) (now g iv : Z) (t : SyncTable) : option SyncTable :=
  if own_first then option_map (cancel_sql user b target) (enqueue_sql row_id user a target new annuls now g iv t)
  else enqueue_sql row_id user a target new annuls now g iv (cancel_sql user b target t).

Lemma press_effect a b own_first new now g iv t t' :
  inverse a = Some b -> pair_ok a b t -> press_sql a b own_first (live b t) new now g iv t = Some t' ->
  pair_ok a b t' /\ wish a b t' = press a b (wish a b t).
Proof.
  intros Hinv (Hu & Ia & Ib & Hone) Hp. destruct (inverse_pair a b Hinv) as (_ & Hne & Ca & Cb).
  assert (unique_keys t' /\ untouched a t' /\ untouched b t' /\ live a t' = negb (live b t) || live a t /\ live b t' = false)
    as (Hu' & Ia' & Ib' & La & Lb).
  { unfold press_sql in Hp. destruct own_first.
    - apply fmap_Some in Hp as (t1 & He & ->).
      destruct (enqueue_sql_effect row_id _ _ _ _ _ _ _ _ _ _ Hu Ca He) as (Hu1 & Hother & _).
      destruct (enqueue_live _ _ _ _ _ _ _ _ Hu Ca Ia He) as [Ia1 La1].
      assert (untouched b t1) as Ib1 by (intros i x Hx; rewrite (Hother b) in Hx by done; by eapply Ib).
      destruct (cancel_sql_effect user b target t1 Hu1 Cb) as (Hu2 & Hother2 & _).
      split_and!; [done| |by apply cancel_untouched| |by apply cancel_live].
      + intros i x Hx. rewrite (Hother2 a) in Hx by done. by eapply Ia1.
      + rewrite <- La1. apply live_find. by apply Hother2.
    - destruct (cancel_sql_effect user b target t Hu Cb) as (Hu1 & Hother & _).
      assert (untouched a (cancel_sql user b target t)) as Ia1 by (intros i x Hx; rewrite (Hother a) in Hx by done; by eapply Ia).
      destruct (enqueue_sql_effect row_id _ _ _ _ _ _ _ _ _ _ Hu1 Ca Hp) as (Hu2 & Hother2 & _).
      destruct (enqueue_live _ _ _ _ _ _ _ _ Hu1 Ca Ia1 Hp) as [Ia2 La2].
      split_and!; [done|done| | |].
      + intros i x Hx. rewrite (Hother2 b) in Hx by done. exact (cancel_untouched b t Hu Cb Ib i x Hx).
      + rewrite La2. f_equal. apply live_find. by apply Hother.
      + rewrite (live_find b (cancel_sql user b target t)); [by apply cancel_live|]. by apply Hother2. }
  split; [split_and!; [done..|by rewrite Lb, andb_false_r]|].
  unfold wish, press. rewrite La, Lb. destruct (live a t), (live b t); cbn in *; try done.
  - by rewrite bool_decide_false by congruence.
  - by rewrite bool_decide_true by done.
Qed.
End pairs.

(** ** Presses one after the other *)

Lemma canonical_pair a b target : inverse a = Some b -> canonical_target b target = canonical_target a target.
Proof.
  unfold inverse. repeat (case_bool_decide; [subst a; intros [= <-]; reflexivity|]). done.
Qed.

Section presses.
Context (row_id : str -> str -> str -> Z) (user0 target0 a b : str).
Hypothesis a_inverse : inverse a = Some b.
Let user := extract_sc_id user0.
Let target := canonical_target a target0.
Hypothesis ids_differ : row_id user a target <> row_id user b target.

(** The id derived from a key is free or taken by the row of that key. *)
Definition id_ok (x : str) (t : SyncTable) : Prop :=
  forall r, t !! row_id user x target = Some r -> has_key user x target r = true.

Definition queue_ok (t : SyncTable) : Prop := pair_ok user target a b t /\ id_ok a t /\ id_ok b t.

Lemma id_ok_insert x y id r t :
  id_ok x t -> has_key user y target r = true -> (x = y \/ id <> row_id user x target) -> id_ok x (<[id := r]> t).
Proof.
  intros Hx Hr Hor r' Hr'. destruct (decide (id = row_id user x target)) as [->|Hne].
  - rewrite lookup_insert_eq in Hr'. simplify_eq. destruct Hor as [->|]; done.
  - rewrite lookup_insert_ne in Hr' by done. by apply Hx.
Qed.

(** The row of another key of the pair is not where [x] belongs. *)
Lemma found_elsewhere x y id r t : id_ok x t -> find_row user y target t = Some (id, r) -> x = y \/ id <> row_id user x target.
Proof.
  intros Hx [Hr (_ & Ha & _)%has_key_spec]%find_row_Some. destruct (decide (x = y)) as [|Hne]; [by left|right].
  intros ->. apply Hx, has_key_spec in Hr as (_ & Ha' & _). congruence.
Qed.

Lemma cancel_id_ok x y t : id_ok x t -> id_ok x (cancel_sql user y target t).
Proof.
  intros Hx. unfold cancel_sql. destruct (find_row user y target t) as [[id r]|] eqn:Ef; [|done]. destruct (revocable r); [|done].
  eapply id_ok_insert; [done| |by eapply found_elsewhere]. apply find_row_Some in Ef as [_ Hk]. apply has_key_spec in Hk. by apply has_key_spec.
Qed.

Lemma enqueue_total y new annuls now g iv t :
  id_ok y t -> exists t', enqueue_sql row_id user y target new annuls now g iv t = Some t'
    /\ forall x, id_ok x t -> (x = y \/ row_id user y target <> row_id user x target) -> id_ok x t'.
Proof.
  intros Hy. unfold enqueue_sql. destruct (find_row user y target t) as [[id r]|] eqn:Ef.
  - destruct (_ || _); [|by eauto]. eexists. split; [done|]. intros x Hx _.
    eapply id_ok_insert; [done| |by eapply found_elsewhere]. by apply has_key_spec.
  - destruct (t !! row_id user y target) as [r|] eqn:Er.
    + specialize (Hy r Er). by rewrite (find_row_None _ _ _ _ _ _ Ef Er) in Hy.
    + eexists. split; [done|]. intros x Hx Hd. eapply id_ok_insert; [done| |done]. by apply has_key_spec.
Qed.

Lemma press_total y z own_first annuls new now g iv t :
  (y = a /\ z = b \/ y = b /\ z = a) -> id_ok a t -> id_ok b t ->
  exists t', press_sql row_id user target y z own_first annuls new now g iv t = Some t' /\ id_ok a t' /\ id_ok b t'.
Proof.
  intros Hyz Ha Hb. unfold press_sql. destruct own_first.
  - destruct (enqueue_total y new annuls now g iv t) as (t1 & -> & H1); [by destruct Hyz as [[-> _]|[-> _]]|].
    cbn. eexists. split; [done|]. split; apply cancel_id_ok, H1; try done; destruct Hyz as [[-> _]|[-> _]]; auto.
  - destruct (enqueue_total y new annuls now g iv (cancel_sql user z target t)) as (t1 & -> & H1);
      [destruct Hyz as [[-> _]|[-> _]]; by apply cancel_id_ok|].
    eexists. split; [done|]. split; (apply H1; [by apply cancel_id_ok|]); destruct Hyz as [[-> _]|[-> _]]; auto.
Qed.

(** Lock order and whether the inverse can be taken back, as [lock_pair] finds them. *)
Lemma enqueue_on_press y z new id now g iv t :
  (y = a /\ z = b \/ y = b /\ z = a) -> untouched user target z t ->
  enqueue_on row_id user0 y target0 new id now g iv t
  = press_sql row_id user target y z (lock_pair row_id user y z target t).1 (live user target z t) new now g iv t.
Proof.
  intros Hyz Hz. destruct (inverse_pair a b a_inverse) as (Hba & _ & Ca & Cb).
  assert (inverse y = Some z /\ y <> comment_action /\ canonical_target y target0 = target) as (Hi & Cy & Ht).
  { destruct Hyz as [[-> ->]|[-> ->]]; split_and!; try done. by apply canonical_pair. }
  unfold enqueue_on. rewrite bool_decide_false by done. rewrite Hi, Ht. fold user. unfold press_sql.
  assert ((lock_pair row_id user y z target t).2 = live user target z t) as Hl.
  { unfold lock_pair, live, revocable. cbn. destruct (find_row user z target t) as [[i r]|] eqn:E; [|done].
    by rewrite (Hz _ _ E), andb_true_r. }
  destruct (lock_pair row_id user y z target t) as [own annuls]. cbn in Hl |- *. by rewrite Hl.
Qed.

Lemma pair_ok_swap t : pair_ok user target a b t <-> pair_ok user target b a t.
Proof. unfold pair_ok. rewrite andb_comm. tauto. Qed.

Lemma wish_swap t : pair_ok user target a b t -> wish user target b a t = wish user target a b t.
Proof. intros (_ & _ & _ & H). unfold wish. by destruct (live user target a t), (live user target b t). Qed.

(** A press of one of the two buttons, with what the database gives the row. *)
Record Press := { pressed : bool; row_fresh : Z; at_time : Z; new_generation : Z; new_version : Z }.
Definition button (p : Press) : str := if pressed p then a else b.

Definition press_queue (p : Press) (t : SyncTable) : option SyncTable :=
  enqueue_on row_id user0 (button p) target0 None (row_fresh p) (at_time p) (new_generation p) (new_version p) t.

Fixpoint run_presses (ps : list Press) (t : SyncTable) : option SyncTable :=
  match ps with [] => Some t | p :: ps' => match press_queue p t with Some t' => run_presses ps' t' | None => None end end.

Definition toggle (w : option str) (p : Press) : option str :=
  if pressed p then press a b w else press b a w.

Lemma press_queue_refines p t :
  queue_ok t -> exists t', press_queue p t = Some t' /\ queue_ok t' /\ wish user target a b t' = toggle (wish user target a b t) p.
Proof.
  intros (Hp & Ha & Hb). destruct (inverse_pair a b a_inverse) as (Hba & _). pose proof Hp as (_ & Ia & Ib & _).
  unfold press_queue, toggle, button. destruct (pressed p).
  - rewrite (enqueue_on_press a b) by auto.
    destruct (press_total a b (lock_pair row_id user a b target t).1 (live user target b t) None (at_time p)
      (new_generation p) (new_version p) t) as (t' & He & Ha' & Hb'); [by left|done..|].
    exists t'. split; [done|]. destruct (press_effect _ _ _ _ _ _ _ _ _ _ _ _ a_inverse Hp He) as [Hp' Hw]. done.
  - rewrite (enqueue_on_press b a) by auto.
    destruct (press_total b a (lock_pair row_id user b a target t).1 (live user target a t) None (at_time p)
      (new_generation p) (new_version p) t) as (t' & He & Ha' & Hb'); [by right|done..|].
    exists t'. split; [done|].
    destruct (press_effect _ _ _ _ _ _ _ _ _ _ _ _ Hba (proj1 (pair_ok_swap t) Hp) He) as [Hp'%pair_ok_swap Hw].
    split; [done|]. rewrite wish_swap in Hw by done. rewrite wish_swap in Hw by done. done.
Qed.
End presses.

(** The last wish counts.  As long as no worker has taken them up, what is queued for
    a pair of opposite actions (like and unlike, follow and unfollow) is what a toggle
    holds after the same presses: one action, or nothing when a press took back a wish
    that was only queued.  Every press succeeds, whatever was queued before. *)
Theorem presses_refine row_id user0 target0 a b ps t :
  inverse a = Some b ->
  row_id (extract_sc_id user0) a (canonical_target a target0) <> row_id (extract_sc_id user0) b (canonical_target a target0) ->
  queue_ok row_id user0 target0 a b t ->
  exists t', run_presses row_id user0 target0 a b ps t = Some t' /\ queue_ok row_id user0 target0 a b t'
    /\ wish (extract_sc_id user0) (canonical_target a target0) a b t'
       = foldl (toggle a b) (wish (extract_sc_id user0) (canonical_target a target0) a b t) ps.
Proof.
  intros Hinv Hids. revert t. induction ps as [|p ps IH]; intros t Hq; [by exists t|]. cbn.
  destruct (press_queue_refines row_id user0 target0 a b Hinv Hids p t Hq) as (t1 & -> & Hq1 & Hw1).
  destruct (IH t1 Hq1) as (t' & Hr & Hq' & Hw'). exists t'. by rewrite <- Hw1.
Qed.

(** ** Queueing as a step of the system *)

Section simulation.
Context (row_id : str -> str -> str -> Z) (execute : ClaimedMutation -> prog (result unit unit)) (lease_ms : Z).

Abbreviation system_steps := (rtc (sync_queue_step execute lease_ms)).

(** The system with another table, the rest but the generations handed out alike. *)
Definition same_workers (s s' : Sys) : Prop := procs s' = procs s /\ log s' = log s /\ leases s' = leases s.

(** What the database draws for the row is new: the id of a comment (of which no generation was
    handed out yet), the generation [scd_hlc] gives any other action. *)
Definition drawn (action : str) (id g : Z) (s : Sys) : Prop :=
  if bool_decide (action = comment_action) then forall h, issued s !! (id, h) = None
  else forall i, issued s !! (i, g) = None.

(** No other generation was handed out. *)
Definition hands_out (action : str) (id g : Z) (s s' : Sys) : Prop :=
  forall i h, issued s' !! (i, h) <> issued s !! (i, h) ->
    if bool_decide (action = comment_action) then i = id /\ h = GENERATION_DEFAULT else h = g.

Lemma enqueue_sql_steps u a tg new annuls now g iv s t' :
  (forall i, issued s !! (i, g) = None) -> enqueue_sql row_id u a tg new annuls now g iv (table s) = Some t' ->
  exists s', system_steps s s' /\ table s' = t' /\ same_workers s s'
    /\ forall i h, issued s' !! (i, h) <> issued s !! (i, h) -> h = g.
Proof.
  intros Hg. unfold enqueue_sql.
  assert (forall id (x : str) i h, <[(id, g) := x]> (issued s) !! (i, h) <> issued s !! (i, h) -> h = g) as Hnew.
  { intros id x i h. destruct (decide ((id, g) = (i, h))) as [[= _ <-]|Hne]; [done|by rewrite lookup_insert_ne]. }
  destruct (find_row u a tg (table s)) as [[id r]|] eqn:Ef.
  - destruct (_ || _); [|intros [= <-]; exists s; by split_and!]. apply find_row_Some in Ef as [Hr _]. intros [= <-].
    eexists. split; [apply rtc_once; eapply (step_renew _ _ s now id r {| user_id := u; action_type := a; target_urn := tg; payload := renewed_payload r new;
      created_at := if cancelled (intent r) then now else created_at (intent r); generation := g; cancelled := annuls;
      intent_v := iv |} false); [done|apply Hg]|]. split; [done|]. split; [done|apply Hnew].
  - destruct (table s !! _) eqn:En; [done|]. intros [= <-].
    eexists. split; [apply rtc_once; eapply (step_insert _ _ s now (row_id u a tg) {| user_id := u; action_type := a; target_urn := tg;
      payload := new; created_at := now; generation := g; cancelled := annuls; intent_v := iv |}); [done|apply Hg]|].
    split; [done|]. split; [done|apply Hnew].
Qed.

Lemma cancel_sql_steps u a tg s :
  exists s', system_steps s s' /\ table s' = cancel_sql u a tg (table s) /\ same_workers s s' /\ issued s' = issued s.
Proof.
  unfold cancel_sql. destruct (find_row u a tg (table s)) as [[id r]|] eqn:Ef; [|exists s; by split_and!].
  destruct (revocable r); [|exists s; by split_and!]. apply find_row_Some in Ef as [Hr _]. eexists.
  split; [apply rtc_once; eapply (step_row _ _ s 0 id r); [done|]; left; by exists true|]. done.
Qed.

Lemma same_workers_trans s1 s2 s3 : same_workers s1 s2 -> same_workers s2 s3 -> same_workers s1 s3.
Proof. intros (? & ? & ?) (? & ? & ?). split_and!; congruence. Qed.
End simulation.

(** C23: Queueing is a step of the system: whatever the API enqueues, with an id (of a comment)
    or a generation (of anything else) that was not drawn before, the new queue is reached
    from the old one by steps the workers' system allows its environment, with the workers
    where they were, and no generation handed out but the row's: a comment's first, which is
    every comment's generation, and otherwise the one drawn.  So all that is shown of the
    workers under any environment, like that a comment is sent at most once, holds with this
    API as their client. *)
Theorem enqueue_simulates row_id execute lease_ms user action target new id now g iv s t' :
  drawn action id g s -> enqueue_on row_id user action target new id now g iv (table s) = Some t' ->
  exists s', rtc (sync_queue_step execute lease_ms) s s' /\ table s' = t' /\ same_workers s s' /\ hands_out action id g s s'.
Proof.
  unfold drawn, hands_out, enqueue_on, comment_action. case_bool_decide as Hc; intros Hg.
  - unfold insert_comment. destruct (table s !! id) eqn:En; [done|]. intros [= <-].
    eexists. split; [apply rtc_once; eapply (step_insert _ _ s now id {| user_id := extract_sc_id user; action_type := lit "comment";
      target_urn := canonical_target action target; payload := new; created_at := now; generation := GENERATION_DEFAULT; cancelled := false;
      intent_v := iv |}); [done|apply Hg]|]. split; [done|]. split; [done|]. intros i h. cbn.
    destruct (decide ((id, GENERATION_DEFAULT) = (i, h))) as [[= <- <-]|Hne]; [done|by rewrite lookup_insert_ne].
  - destruct (inverse action) as [inv|]; [|by eapply enqueue_sql_steps].
    destruct (lock_pair _ _ _ _ _ _) as [[] annuls].
    + destruct (enqueue_sql _ _ _ _ _ _ _ _ _ _) as [t1|] eqn:E; [|done]. intros [= <-].
      destruct (enqueue_sql_steps row_id execute lease_ms _ _ _ _ _ _ _ _ _ _ Hg E) as (s1 & H1 & <- & W1 & I1).
      destruct (cancel_sql_steps execute lease_ms (extract_sc_id user) inv (canonical_target action target) s1) as (s2 & H2 & H2t & W2 & I2).
      exists s2. split; [by etrans|]. split; [done|]. split; [by eapply same_workers_trans|]. by rewrite I2.
    + intros E. destruct (cancel_sql_steps execute lease_ms (extract_sc_id user) inv (canonical_target action target) s) as (s1 & H1 & H1t & W1 & I1).
      rewrite <- H1t in E.
      destruct (enqueue_sql_steps row_id execute lease_ms _ _ _ _ _ _ _ _ s1 _ ltac:(intros i; rewrite I1; apply Hg) E) as (s2 & H2 & <- & W2 & I2).
      exists s2. split; [by etrans|]. split; [done|]. split; [by eapply same_workers_trans|]. by rewrite <- I1.
Qed.

(** ** What the user is told *)

Lemma retain_partition {A} (p q : A -> bool) l :
  (forall x, x ∈ l -> q x = negb (p x)) -> (length (retain p l) + length (retain q l) = length l)%nat.
Proof.
  unfold retain. induction l as [|x l IH]; cbn; intros H; [done|]. rewrite (H x) by set_solver.
  specialize (IH ltac:(set_solver)). destruct (p x); cbn; lia.
Qed.

Lemma retain_or_length {A} (p q : A -> bool) l :
  (forall x, p x && q x = false) -> (length (retain (fun x => p x || q x) l) = length (retain p l) + length (retain q l))%nat.
Proof. unfold retain. intros H. induction l as [|x l IH]; cbn; [done|]. specialize (H x). destruct (p x), (q x); cbn in *; try done; lia. Qed.

(** Every row the user has in the queue is reported exactly once, as pending or as
    failed, and a delayed one as pending. *)
Theorem counts_partition users hold now t :
  (forall id r, t !! id = Some r -> 0 <= retry_count (progress r)) ->
  let c := pending_counts users hold now t in
  (pending_count c + failed_count c = length (retain (counted_row users now) (rows_of t)))%nat
  /\ (delayed_count c <= pending_count c)%nat /\ (dead_count c <= failed_count c)%nat.
Proof.
  intros Hr. cbn.
  assert (forall r, r ∈ retain (counted_row users now) (rows_of t) -> 0 <= tries r) as Ht.
  { intros r [Hin _]%retain_In. unfold rows_of in Hin. apply list_elem_of_fmap in Hin as ([id r0] & -> & H%elem_of_map_to_list).
    unfold tries. cbn. destruct (unadopted r0); [done|]. by eapply Hr. }
  assert (forall (p q : SyncRow -> bool) l, (forall r, p r = true -> q r = true) -> (length (retain p l) <= length (retain q l))%nat) as Hle.
  { unfold retain. intros p q l Hpq. induction l as [|r l IH]; cbn; [done|]. specialize (Hpq r). destruct (p r), (q r); cbn; try lia; naive_solver. }
  split_and!.
  - apply retain_partition. intros r Hin. specialize (Ht r Hin). unfold is_failed, is_pending.
    destruct (is_dead r); [done|]. cbn. destruct (Z.eqb_spec (tries r) 0) as [->|]; [done|].
    destruct (Z.ltb_spec 0 (tries r)); [|lia]. by destruct (is_some _).
  - apply Hle. intros r Hd. unfold is_pending. rewrite Hd, orb_true_r, andb_true_r. unfold delayed_until in Hd. by destruct (is_dead r).
  - apply Hle. intros r [Hd _]%andb_true_iff. unfold is_failed. by rewrite Hd.
Qed.

Lemma revivable_split users target reread at_ r :
  revivable users target reread at_ r = revived users target at_ r || dropped users target reread at_ r.
Proof.
  unfold revivable, revived, dropped. destruct (bool_decide (user_id (intent r) ∈ users)), (failed_within at_ (progress r)); try done. cbn.
  destruct (targets target r); rewrite ?andb_true_r, ?andb_false_r; done.
Qed.

Lemma revived_not_dropped users target reread at_ r :
  revived users target at_ r && dropped users target reread at_ r = false.
Proof.
  apply not_true_iff_false. rewrite andb_true_iff. unfold revived, dropped. rewrite !andb_true_iff.
  intros [[[_ H] _] [[[_ H'] _] _]]. apply negb_true_iff, bool_decide_eq_false in H. apply bool_decide_eq_true in H'.
  apply H. rewrite H'. by apply (bool_decide_unpack _).
Qed.

(** The number of failed writes the user is told were revived is the number of rows
    that were put back to work or given up to a fresh reading of their playlist; those
    are due at once with their tries counted anew, comments and reversible actions are
    left alone, and no other row changes. *)
Theorem revive_exact users target reread at_ t :
  let t' := revive_sql users target reread at_ t in
  revivable_count users target reread at_ t
    = (length (retain (revived users target at_) (rows_of t)) + length (retain (dropped users target reread at_) (rows_of t)))%nat
  /\ (forall id r, t !! id = Some r ->
        t' !! id = if revived users target at_ r then Some (revive_row at_ r)
                   else if dropped users target reread at_ r then None else Some r)
  /\ (forall id, t !! id = None -> t' !! id = None)
  /\ (forall r, revived users target at_ r = true ->
        action_type (intent r) ∉ lit "comment" :: HEALED
        /\ (unadopted r = false -> claimable at_ 0 (revive_row at_ r)
             = lease_over at_ 0 (progress r) && negb (cancelled (intent r) && idle (progress r)))).
Proof.
  cbn. split_and!.
  - unfold revivable_count. rewrite <- retain_or_length by (intros; apply revived_not_dropped).
    f_equal. induction (rows_of t) as [|r l IH]; cbn; [done|]. rewrite revivable_split. unfold retain in *. by rewrite IH.
  - intros id r Hr. unfold revive_sql. by rewrite lookup_omap, Hr.
  - intros id Hr. unfold revive_sql. by rewrite lookup_omap, Hr.
  - intros r Hr. unfold revived in Hr. apply andb_true_iff in Hr as [[[_ _]%andb_true_iff Hn]%andb_true_iff _].
    apply negb_true_iff, bool_decide_eq_false in Hn. split; [unfold NOT_REVIVED in Hn; set_solver|].
    intros Hu. unfold claimable. cbn. rewrite Z.leb_refl.
    replace (unadopted (revive_row at_ r)) with (unadopted r) by done. rewrite Hu, andb_true_r. done.
Qed.

(** ** A like that is taken back, and pressed again *)

Module EnqueueSample.
Definition sample_id (u a tg : str) : Z := Z.of_nat (length a).
Definition like : str := lit "like_track".
Definition unlike : str := lit "unlike_track".
Definition presses : list Press :=
  [{| pressed := true; row_fresh := 0; at_time := 10; new_generation := 1; new_version := 1 |};
   {| pressed := false; row_fresh := 0; at_time := 20; new_generation := 2; new_version := 2 |};
   {| pressed := true; row_fresh := 0; at_time := 30; new_generation := 3; new_version := 3 |}].

Lemma presses_refine_witness :
  exists t', run_presses sample_id (lit "7") (lit "42") like unlike presses ∅ = Some t'
    /\ queue_ok sample_id (lit "7") (lit "42") like unlike t'
    /\ wish (extract_sc_id (lit "7")) (canonical_target like (lit "42")) like unlike t' = Some like.
Proof.
  destruct (presses_refine sample_id (lit "7") (lit "42") like unlike presses ∅) as (t' & Hr & Hq & Hw);
    [vm_compute; reflexivity|vm_compute; discriminate| |exists t'; split_and!; [exact Hr|exact Hq|rewrite Hw; vm_compute; reflexivity]].
  split; [split; [|split; [|split; [|reflexivity]]]|split].
  - intros ??????? H. by rewrite lookup_empty in H.
  - intros ?? H. vm_compute in H. discriminate.
  - intros ?? H. vm_compute in H. discriminate.
  - intros ? H. by rewrite lookup_empty in H.
  - intros ? H. by rewrite lookup_empty in H.
Defined.

(** One comment is queued, another follows: both have the generation 1. *)
Definition first_comment : SyncTable :=
  default ∅ (enqueue_on sample_id (lit "7") (lit "comment") (lit "42") None 500 10 0 1 ∅).
Definition commented : Sys :=
  {| table := first_comment; procs := ∅; log := []; leases := ∅; issued := {[(500, 1) := lit "comment"]} |}.

Lemma enqueue_simulates_witness :
  exists s', rtc (sync_queue_step SyncSystem.Sample.worker 1000) commented s'
    /\ enqueue_on sample_id (lit "7") (lit "comment") (lit "42") None 501 20 0 2 first_comment = Some (table s')
    /\ same_workers commented s' /\ issued s' !! (502, 1) = None.
Proof.
  destruct (enqueue_on sample_id (lit "7") (lit "comment") (lit "42") None 501 20 0 2 first_comment) as [t'|] eqn:E;
    [|vm_compute in E; discriminate].
  destruct (enqueue_simulates sample_id SyncSystem.Sample.worker 1000 (lit "7") (lit "comment") (lit "42") None 501 20 0 2 commented t')
    as (s' & Hs & Ht & Hw & Hi); [intros h; by apply lookup_singleton_None; intros [=]|exact E|].
  exists s'. split; [exact Hs|]. split; [congruence|]. split; [exact Hw|].
  destruct (issued s' !! (502, 1)) eqn:E'; [|done]. destruct (Hi 502 1) as [[=] _]. by rewrite E'.
Defined.
End EnqueueSample.
