(* ===== verification/StreamTarget.v ===== *)
(** * StreamTarget: where the streaming service may send requests, and what it accepts

    Source: [streaming/src/stream/target.rs] and [validate.rs].  The [url] crate is a
    parameter: [parse_url] and [join_url] are [Url::parse] and [Url::join], of a [Url] the
    service reads the parts below.  The classes of addresses are those of [std::net]. *)

From Stdlib Require Import ZArith Lia String.
From stdpp Require Import base list numbers option tactics sets gmap.
From S2P Require Import Prelude Text NetAddress.
Local Open Scope Z_scope.

Inductive Host := Domain (name : str) | HostV4 (a : Z) | HostV6 (groups : list Z).

Record Url := {
  url_str : str; scheme : str; username : str; password : option str; host : option Host; host_str : option str }.

Definition MAX_URL_LEN : Z := 4096.

Definition SOUNDCLOUD_PAGE_HOSTS : list str :=
  map lit ["soundcloud.com"; "www.soundcloud.com"; "m.soundcloud.com"; "on.soundcloud.com"]%string.
Definition SOUNDCLOUD_API_HOSTS : list str := map lit ["api-v2.soundcloud.com"; "api.soundcloud.com"]%string.
Definition LOCAL_SUFFIXES : list str :=
  map lit [".localhost"; ".local"; ".internal"; ".home.arpa"; ".localdomain"]%string.

(** ** Addresses ([std::net::Ipv4Addr], [Ipv6Addr]) *)

Definition octet (i : nat) (a : Z) : Z := nth i (v4_octets a) 0.

Definition v4_is_loopback (a : Z) : bool := octet 0 a =? 127.
Definition v4_is_private (a : Z) : bool :=
  (octet 0 a =? 10)
  || ((octet 0 a =? 172) && (16 <=? octet 1 a) && (octet 1 a <=? 31))
  || ((octet 0 a =? 192) && (octet 1 a =? 168)).
Definition v4_is_link_local (a : Z) : bool := (octet 0 a =? 169) && (octet 1 a =? 254).
Definition v4_is_unspecified (a : Z) : bool := a =? 0.
Definition v4_is_broadcast (a : Z) : bool := a =? 4294967295.
Definition v4_is_documentation (a : Z) : bool :=
  ((octet 0 a =? 192) && (octet 1 a =? 0) && (octet 2 a =? 2))
  || ((octet 0 a =? 198) && (octet 1 a =? 51) && (octet 2 a =? 100))
  || ((octet 0 a =? 203) && (octet 1 a =? 0) && (octet 2 a =? 113)).
Definition v4_is_multicast (a : Z) : bool := (224 <=? octet 0 a) && (octet 0 a <=? 239).

Definition routes_off_this_machine_v4 (a : Z) : bool :=
  negb (v4_is_loopback a || v4_is_private a || v4_is_link_local a || v4_is_unspecified a || v4_is_broadcast a
        || v4_is_documentation a || v4_is_multicast a
        || (octet 0 a =? 0)
        || ((octet 0 a =? 100) && (64 <=? octet 1 a) && (octet 1 a <? 128))
        || (240 <=? octet 0 a)).

Definition segment (i : nat) (g : list Z) : Z := nth i g 0.
Definition v6_is_loopback (g : list Z) : bool := bool_decide (g = [0; 0; 0; 0; 0; 0; 0; 1]).
Definition v6_is_unspecified (g : list Z) : bool := bool_decide (g = [0; 0; 0; 0; 0; 0; 0; 0]).
Definition v6_is_multicast (g : list Z) : bool := Z.land (segment 0 g) 65280 =? 65280.

Definition routes_off_this_machine_v6 (g : list Z) : bool :=
  match to_ipv4_mapped g with
  | Some mapped => routes_off_this_machine_v4 mapped
  | None =>
      negb (v6_is_loopback g || v6_is_unspecified g || v6_is_multicast g
            || (Z.land (segment 0 g) 65024 =? 64512)
            || (Z.land (segment 0 g) 65472 =? 65152))
  end.

(** ** Names *)

(** [trim_end_matches(c)]. *)
Definition trim_end_char (c : char) (s : str) : str := rev (drop_while (Z.eqb c) (rev s)).

Definition ends_with (suffix s : str) : bool := is_some (strip_suffix suffix s).

Definition names_our_own_network (name : str) : bool :=
  let name := map to_ascii_lowercase (trim_end_char 46 name) in
  bool_decide (name = lit "localhost")
  || negb (contains_char 46 name)
  || existsb (fun suffix => ends_with suffix name) LOCAL_SUFFIXES.

(** ** Targets *)

Section targets.
Context (parse_url : str -> option Url).

Definition outside_host (h : Host) : bool :=
  match h with
  | Domain name => negb (names_our_own_network name)
  | HostV4 a => routes_off_this_machine_v4 a
  | HostV6 g => routes_off_this_machine_v6 g
  end.

Definition reachable (url : str) : option Url :=
  if MAX_URL_LEN <? str_len url then None
  else match parse_url url with
       | None => None
       | Some parsed =>
           if negb (bool_decide (username parsed = [])) || is_some (password parsed) then None
           else match host parsed with
                | None => None
                | Some h => if outside_host h then Some parsed else None
                end
       end.

(** A page or the API of SoundCloud: [https] on one of [hosts]. *)
Definition soundcloud_on (hosts : list str) (url : str) : option Url :=
  match reachable url with
  | None => None
  | Some parsed =>
      match host_str parsed with
      | None => None
      | Some named =>
          if bool_decide (scheme parsed = lit "https") && bool_decide (named ∈ hosts) then Some parsed else None
      end
  end.

Definition soundcloud_page (url : str) : option Url := soundcloud_on SOUNDCLOUD_PAGE_HOSTS url.
Definition soundcloud_api (url : str) : option Url := soundcloud_on SOUNDCLOUD_API_HOSTS url.

Definition public_media (url : str) : option Url :=
  match reachable url with
  | None => None
  | Some parsed =>
      if bool_decide (scheme parsed = lit "http") || bool_decide (scheme parsed = lit "https") then Some parsed else None
  end.
End targets.

(** ** Bodies ([validate.rs]) *)

(** [u8::is_ascii_whitespace]: space, tab, line feed, form feed, carriage return. *)
Definition is_ascii_whitespace (b : Z) : bool := (b =? 32) || (b =? 9) || (b =? 10) || (b =? 12) || (b =? 13).

Definition trim_ascii_start (b : bytes) : bytes := drop_while is_ascii_whitespace b.

Definition looks_like_error_doc (b : bytes) : bool :=
  match trim_ascii_start b with
  | x :: _ => (x =? 123) || (x =? 91) || (x =? 60)
  | [] => false
  end.

Definition is_valid_audio (b : bytes) : bool := negb (bool_decide (b = [])) && negb (looks_like_error_doc b).

(** [haystack.windows(n).any(..)] for a needle. *)
Fixpoint has_window (needle haystack : bytes) : bool :=
  match haystack with
  | [] => bool_decide (needle = [])
  | _ :: rest => starts_with needle haystack || has_window needle rest
  end.

Definition moov : bytes := lit "moov".

(** A box of [is_encrypted_mp4] at [at_], the loop with [fuel] iterations left: [None]
    when they do not suffice. *)
Fixpoint boxes_encrypted (fuel : nat) (b : bytes) (at_ : nat) : option bool :=
  match fuel with
  | O => None
  | S fuel =>
      let header := take 8 (drop at_ b) in
      if (length header <? 8)%nat then Some false
      else
        let size := Z.to_nat (from_be_bytes (take 4 header)) in
        if ((1 <=? size) && (size <=? 7))%nat then Some false
        else
          let end_ := if (size =? 0)%nat then length b else ((at_ + size) `min` length b)%nat in
          if bool_decide (drop 4 header = moov) then
            let box := take (end_ - at_) (drop at_ b) in
            Some (has_window (lit "enca") box || has_window (lit "encv") box || has_window (lit "sinf") box)
          else boxes_encrypted fuel b end_
  end.

(** Each iteration moves on by eight bytes at least. *)
Definition is_encrypted_mp4 (b : bytes) : bool := default false (boxes_encrypted (S (length b)) b 0).

(** ** [String::from_utf8_lossy] *)

Definition continuation (b : Z) : bool := (128 <=? b) && (b <=? 191).
Definition REPLACEMENT : char := 65533.

(** The first two bytes of a sequence of three or four. *)
Definition second_of_three (x y : Z) : bool :=
  if x =? 224 then (160 <=? y) && (y <=? 191)
  else if x =? 237 then (128 <=? y) && (y <=? 159) else continuation y.
Definition second_of_four (x y : Z) : bool :=
  if x =? 240 then (144 <=? y) && (y <=? 191)
  else if x =? 244 then (128 <=? y) && (y <=? 143) else continuation y.

(** A well-formed sequence or the longest prefix of one, and how many bytes it takes. *)
Definition lossy_char (b : bytes) : char * nat :=
  match b with
  | [] => (REPLACEMENT, 1%nat)
  | x :: rest =>
      if x <? 128 then (x, 1%nat)
      else if (194 <=? x) && (x <=? 223) then
        match rest with
        | y :: _ => if continuation y then ((x - 192) * 64 + (y - 128), 2%nat) else (REPLACEMENT, 1%nat)
        | [] => (REPLACEMENT, 1%nat)
        end
      else if (224 <=? x) && (x <=? 239) then
        match rest with
        | y :: rest' =>
            if second_of_three x y then
              match rest' with
              | z :: _ =>
                  if continuation z then ((x - 224) * 4096 + (y - 128) * 64 + (z - 128), 3%nat) else (REPLACEMENT, 2%nat)
              | [] => (REPLACEMENT, 2%nat)
              end
            else (REPLACEMENT, 1%nat)
        | [] => (REPLACEMENT, 1%nat)
        end
      else if (240 <=? x) && (x <=? 244) then
        match rest with
        | y :: rest' =>
            if second_of_four x y then
              match rest' with
              | z :: rest'' =>
                  if continuation z then
                    match rest'' with
                    | w :: _ =>
                        if continuation w then
                          ((x - 240) * 262144 + (y - 128) * 4096 + (z - 128) * 64 + (w - 128), 4%nat)
                        else (REPLACEMENT, 3%nat)
                    | [] => (REPLACEMENT, 3%nat)
                    end
                  else (REPLACEMENT, 2%nat)
              | [] => (REPLACEMENT, 2%nat)
              end
            else (REPLACEMENT, 1%nat)
        | [] => (REPLACEMENT, 1%nat)
        end
      else (REPLACEMENT, 1%nat)
  end.

Fixpoint utf8_lossy_from (fuel : nat) (b : bytes) : str :=
  match fuel, b with
  | O, _ | _, [] => []
  | S fuel, _ => let '(c, n) := lossy_char b in c :: utf8_lossy_from fuel (drop n b)
  end.
Definition from_utf8_lossy (b : bytes) : str := utf8_lossy_from (length b) b.

(** [str::contains] and [str::find] of a pattern: what follows its first occurrence. *)
Fixpoint after_first (pat s : str) : option str :=
  match strip_prefix pat s with
  | Some rest => Some rest
  | None => match s with [] => None | _ :: s' => after_first pat s' end
  end.
Definition contains_str (pat s : str) : bool := is_some (after_first pat s).

Definition is_valid_m3u8 (b : bytes) : bool :=
  if bool_decide (b = []) then false
  else contains_str (lit "#EXTM3U") (from_utf8_lossy (take 64 b)).
