(* ===== verification/StreamFetch.v ===== *)
(** * StreamFetch: how the streaming service reads a URL

    Source: [streaming/src/stream/proxy.rs], with [keeps_tag] and [steered] of
    [egress.rs].  A request goes to SoundCloud directly, through the proxy, or through a
    relay that runs on a user's desktop; a request to the proxy and one to the relay may
    race.  Fetching is a program over [Net]: sending a request and its answer are separate
    effects, so the racing requests overlap as they like.  An error is its message.  The
    [url] crate and base64 are parameters. *)

From Stdlib Require Import ZArith Lia String.
From stdpp Require Import base list numbers option tactics sets gmap.
From S2P Require Import Prelude Text StreamTarget.
Local Open Scope Z_scope.

Abbreviation Headers := (gmap str str).

Record Request := { req_url : str; req_headers : Headers; req_post : option bytes }.

(** A response: its status, its headers and its body, which may fail to arrive. *)
Record Reply := { status : Z; reply_headers : Headers; reply_body : result bytes str }.
Record RelayReply := { relay_status : Z; relay_headers : Headers; relay_body : bytes }.

Inductive Net : Type -> Type :=
| SendRequest (r : Request) : Net unit
| Answered : Net (result Reply str)
| RelayRequest (r : Request) : Net unit
| RelayAnswered : Net (result RelayReply str)
| Sleep (ms : Z) : Net unit
(** Which of two racing futures goes on ([true]: the first), and whether a timer ended. *)
| Turn : Net bool
| TimerOver (ms : Z) : Net bool.

Abbreviation net := (program Net).
Abbreviation FetchResult := (result (bytes * Headers) str).
Abbreviation BodyValidator := (bytes -> Headers -> bool).

(** ** Futures *)

(** [tokio::select!] of two futures: the first that is done is handed to its branch with
    what is left of the other. *)
Fixpoint select {A B C} (p : net A) (f : A -> net B -> net C) (g : B -> net A -> net C) : net B -> net C :=
  fix inner (q : net B) : net C :=
    Vis Turn (fun first : bool =>
      if first then match p with Ret a => f a q | Vis e k => Vis e (fun x => select (k x) f g q) end
      else match q with Ret b => g b p | Vis e k => Vis e (fun y => inner (k y)) end).

(** [tokio::time::timeout]. *)
Fixpoint timeout {A} (ms : Z) (p : net A) : net (option A) :=
  Vis (TimerOver ms) (fun over : bool =>
    if over then Ret None
    else match p with Ret a => Ret (Some a) | Vis e k => Vis e (fun x => timeout ms (k x)) end).

(** ** Requests *)

Definition MAX_RETRIES : nat := 3.
Definition RETRY_DELAYS : list Z := [300; 800; 2000].
Definition RACE_BOUNDED_GRACE : Z := 15000.
Definition RELAY_MAX_RETRIES : nat := 1.

Definition TAG_HEADER : str := lit "x-egress-tag".
Definition API_V2_HOST : str := lit "api-v2.soundcloud.com".

Definition steered (region : option str) : Headers :=
  match region with Some region => {[TAG_HEADER := region]} | None => ∅ end.

(** [authorization.get(..7)]: the characters before byte 7, when it is a boundary. *)
Fixpoint get_prefix (n : Z) (s : str) : option str :=
  if n =? 0 then Some []
  else match s with
       | [] => None
       | c :: s' => if n <? len_utf8 c then None else option_map (cons c) (get_prefix (n - len_utf8 c) s')
       end.

Definition is_track_license (authorization : str) : bool :=
  match get_prefix 7 authorization with
  | Some scheme => eq_ignore_ascii_case scheme (lit "bearer ")
  | None => false
  end.

Definition carries_credentials (headers : Headers) : bool :=
  existsb (fun h =>
    eq_ignore_ascii_case h.1 (lit "cookie")
    || (eq_ignore_ascii_case h.1 (lit "authorization") && negb (is_track_license h.2)))
  (map_to_list headers).

Definition is_retryable_status (status : Z) : bool :=
  (status =? 421) || (status =? 429) || ((500 <=? status) && (status <=? 599)).

Definition status_message (status : Z) : str := lit "status " ++ to_string status.

(** What one response comes to: the result, or the error the loop keeps. *)
Inductive Attempt := Finished (r : FetchResult) | Again (e : str).

Definition read_answer (validate : BodyValidator) (r : result Reply str) : Attempt :=
  match r with
  | Ok resp =>
      if (200 <=? status resp) && (status resp <? 400) then
        match reply_body resp with
        | Ok body =>
            if validate body (reply_headers resp) then Finished (Ok (body, reply_headers resp))
            else Again (lit "invalid response body")
        | Err e => Again e
        end
      else if is_retryable_status (status resp) then Again (status_message (status resp))
      else Finished (Err (status_message (status resp)))
  | Err e => Again e
  end.

(** [http_get_bytes] and [http_post_bytes] from attempt [attempt] on, with [more] retries
    left.  Every attempt that does not end the loop sets [last_err]. *)
Fixpoint http_bytes_from (r : Request) (validate : BodyValidator) (attempt more : nat) : net FetchResult :=
  _ ← trigger (SendRequest r);
  answer ← trigger Answered;
  match read_answer validate answer with
  | Finished res => mret res
  | Again e =>
      match more with
      | O => mret (Err e)
      | S more => _ ← trigger (Sleep (nth attempt RETRY_DELAYS 2000)); http_bytes_from r validate (S attempt) more
      end
  end.

Definition http_get_bytes (url : str) (headers : Headers) (validate : BodyValidator) (retries : nat) : net FetchResult :=
  http_bytes_from {| req_url := url; req_headers := headers; req_post := None |} validate 0 retries.

Definition http_post_bytes (url : str) (headers : Headers) (body : bytes) (validate : BodyValidator) : net FetchResult :=
  http_bytes_from {| req_url := url; req_headers := headers; req_post := Some body |} validate 0 MAX_RETRIES.

Definition read_relay (validate : BodyValidator) (r : result RelayReply str) : Attempt :=
  match r with
  | Ok resp =>
      if (200 <=? relay_status resp) && (relay_status resp <? 400) then
        if validate (relay_body resp) (relay_headers resp) then Finished (Ok (relay_body resp, relay_headers resp))
        else Again (lit "relay invalid response body")
      else Again (lit "relay " ++ status_message (relay_status resp))
  | Err e => Again e
  end.

Fixpoint relay_from (r : Request) (validate : BodyValidator) (more : nat) : net FetchResult :=
  _ ← trigger (RelayRequest r);
  answer ← trigger RelayAnswered;
  match read_relay validate answer with
  | Finished res => mret res
  | Again e =>
      match more with
      | O => mret (Err e)
      | S more => _ ← trigger (Sleep 500); relay_from r validate more
      end
  end.

Definition via_relay (target_url : str) (extra : Headers) (validate : BodyValidator) : net FetchResult :=
  relay_from {| req_url := target_url; req_headers := extra; req_post := None |} validate RELAY_MAX_RETRIES.

Definition via_relay_post (target_url : str) (extra : Headers) (body : bytes) (validate : BodyValidator) : net FetchResult :=
  relay_from {| req_url := target_url; req_headers := extra; req_post := Some body |} validate RELAY_MAX_RETRIES.

Definition via_direct (target_url : str) (extra : Headers) (validate : BodyValidator) : net FetchResult :=
  http_get_bytes target_url extra validate MAX_RETRIES.

Definition await_other_with_grace (other : net FetchResult) (grace : Z) (original_err : str) : net FetchResult :=
  r ← timeout grace other;
  mret (match r with Some (Ok v) => Ok v | _ => Err original_err end).

Definition accept_non_empty : BodyValidator := fun b _ => negb (bool_decide (b = [])).

Section fetch.
Context (parse_url : str -> option Url) (base64 : str -> str).
(** Whether a relay was installed, and the proxy's URL, empty for none. *)
Context (relay_installed : bool) (proxy_url : str).

Definition names_api_v2 (target_url : str) : bool :=
  match parse_url target_url with
  | Some url => bool_decide (host_str url = Some API_V2_HOST)
  | None => false
  end.

Definition keeps_tag (headers : Headers) (target_url : str) (proxy_set : bool) : bool * Headers :=
  match headers !! TAG_HEADER with
  | None => (false, headers)
  | Some _ =>
      if proxy_set && names_api_v2 target_url then (true, headers) else (false, delete TAG_HEADER headers)
  end.

Definition proxy_set : bool := negb (bool_decide (proxy_url = [])).

Definition proxy_target (target_url : str) (extra : Headers) : str * Headers :=
  if proxy_set then (proxy_url, <[lit "X-Target" := base64 target_url]> extra) else (target_url, extra).

Definition via_proxy (target_url : str) (extra : Headers) (validate : BodyValidator) : net FetchResult :=
  let '(url, headers) := proxy_target target_url extra in http_get_bytes url headers validate MAX_RETRIES.

Definition via_one_region (target_url : str) (extra : Headers) (validate : BodyValidator) : net FetchResult :=
  let '(url, headers) := proxy_target target_url extra in http_get_bytes url headers validate 0.

Definition race_relay_proxy (target_url : str) (extra : Headers) (validate : BodyValidator) : net FetchResult :=
  select (via_relay target_url extra validate)
    (fun relay_res proxy_fut =>
       match relay_res with
       | Ok v => mret (Ok v)
       | Err relay_err => await_other_with_grace proxy_fut RACE_BOUNDED_GRACE relay_err
       end)
    (fun proxy_res relay_fut =>
       match proxy_res with
       | Ok v => mret (Ok v)
       | Err proxy_err =>
           if bool_decide (proxy_err = lit "status 502") then
             r ← relay_fut; mret (match r with Ok v => Ok v | Err _ => Err proxy_err end)
           else await_other_with_grace relay_fut RACE_BOUNDED_GRACE proxy_err
       end)
    (via_proxy target_url extra validate).

Definition fetch_get_validated (target_url : str) (extra : Headers) (allow_direct : bool) (validate : BodyValidator)
  : net FetchResult :=
  let '(steered, extra) := keeps_tag extra target_url proxy_set in
  let relay := relay_installed && negb (carries_credentials extra) && negb steered in
  if steered then via_one_region target_url extra validate
  else if proxy_set then
    if relay then race_relay_proxy target_url extra validate else via_proxy target_url extra validate
  else if allow_direct then
    r ← via_direct target_url extra validate;
    match r with
    | Ok v => mret (Ok v)
    | Err e => if relay then via_relay target_url extra validate else mret (Err e)
    end
  else if relay then via_relay target_url extra validate
  else mret (Err (lit "no proxy/relay available and direct disallowed")).

Definition fetch_post_bytes (target_url : str) (extra : Headers) (body : bytes) : net FetchResult :=
  let extra := (keeps_tag extra target_url false).2 in
  let validate := accept_non_empty in
  let relay := relay_installed && negb (carries_credentials extra) in
  let through_proxy :=
    if proxy_set then
      let '(url, headers) := proxy_target target_url extra in http_post_bytes url headers body validate
    else mret (Err (lit "no proxy/relay available for POST")) in
  if relay then
    r ← via_relay_post target_url extra body validate;
    match r with
    | Ok v => mret (Ok v)
    | Err e => if proxy_set then through_proxy else mret (Err e)
    end
  else through_proxy.

Definition fetch_get_bytes (target_url : str) (extra : Headers) (allow_direct : bool) : net FetchResult :=
  fetch_get_validated target_url extra allow_direct accept_non_empty.

Definition fetch_direct_validated (target_url : str) (extra : Headers) (validate : BodyValidator) : net FetchResult :=
  via_direct target_url extra validate.

Definition fetch_get_text (target_url : str) (extra : Headers) (allow_direct : bool) : net (result (str * Headers) str) :=
  r ←? fetch_get_bytes target_url extra allow_direct; mret (Ok (from_utf8_lossy r.1, r.2)).

(** [from_slice] decodes the JSON of a [T]; its error is a message. *)
Definition fetch_get_json {T} (from_slice : bytes -> result T str) (target_url : str) (extra : Headers)
    (allow_direct : bool) : net (result T str) :=
  r ←? fetch_get_validated target_url extra allow_direct
         (fun b _ => match from_slice b with Ok _ => true | Err _ => false end);
  mret (from_slice r.1).
End fetch.

(** * A fetch is discreet, bounded and validated

    Whatever the network answers, and however the relay and the proxy race, a fetch keeps
    to a protocol: what it may still send to the web and to the relay, who may see which
    headers, and which bodies were received. *)

Local Close Scope Z_scope.


Global Instance net_answers : Answers Net := fun _ _ _ => True.

(** What may still be sent, and the bodies that came with a success. *)
Record Sent := { http_left : nat; relay_left : nat; got : list (bytes * Headers) }.

Definition received (r : result Reply str) : list (bytes * Headers) :=
  match r with
  | Ok {| status := st; reply_headers := h; reply_body := Ok b |} => if ((200 <=? st) && (st <? 400))%Z then [(b, h)] else []
  | _ => []
  end.
Definition relay_received (r : result RelayReply str) : list (bytes * Headers) :=
  match r with
  | Ok resp => if ((200 <=? relay_status resp) && (relay_status resp <? 400))%Z then [(relay_body resp, relay_headers resp)] else []
  | Err _ => []
  end.

Definition add_got (l : list (bytes * Headers)) (s : Sent) : Sent :=
  {| http_left := http_left s; relay_left := relay_left s; got := l ++ got s |}.

(** The tag of a region is for the proxy and for requests to the API only; the relay sees
    neither it nor credentials. *)
Definition fetch_protocol (parse_url : str -> option Url) (proxy_url target : str) : Protocol Net Sent := {|
  permits := fun s A (e : Net A) =>
    match e with
    | SendRequest r =>
        0 < http_left s
        /\ (is_Some (req_headers r !! TAG_HEADER) -> req_url r = proxy_url /\ proxy_url <> [] /\ names_api_v2 parse_url target = true)
    | RelayRequest r =>
        0 < relay_left s /\ req_url r = target
        /\ carries_credentials (req_headers r) = false /\ req_headers r !! TAG_HEADER = None
    | _ => True
    end;
  after := fun s A (e : Net A) =>
    match e in Net A return A -> Sent with
    | SendRequest _ => fun _ => {| http_left := pred (http_left s); relay_left := relay_left s; got := got s |}
    | RelayRequest _ => fun _ => {| http_left := http_left s; relay_left := pred (relay_left s); got := got s |}
    | Answered => fun r => add_got (received r) s
    | RelayAnswered => fun r => add_got (relay_received r) s
    | _ => fun _ => s
    end |}.

Definition within (s s' : Sent) : Prop :=
  http_left s <= http_left s' /\ relay_left s <= relay_left s' /\ got s ⊆ got s'.
Infix "⊑s" := within (at level 70).

Definition pool (s1 s2 : Sent) : Sent :=
  {| http_left := http_left s1 + http_left s2; relay_left := relay_left s1 + relay_left s2; got := got s1 ++ got s2 |}.

Global Instance within_preorder : PreOrder within.
Proof. split; [intros s; split_and!; by try lia|]. intros s1 s2 s3 (?&?&?) (?&?&?). split_and!; [lia..|set_solver]. Qed.

Definition stable {A} (Q : Sent -> A -> Prop) : Prop := forall s s' r, s ⊑s s' -> Q s r -> Q s' r.

Lemma within_first s1 s2 : s1 ⊑s pool s1 s2.
Proof. split_and!; cbn; [lia..|set_solver]. Qed.
Lemma within_second s1 s2 : s2 ⊑s pool s1 s2.
Proof. split_and!; cbn; [lia..|set_solver]. Qed.

(** A result, if it is one, was received and passed the check. *)
Definition genuine (validate : BodyValidator) (s : Sent) (r : FetchResult) : Prop :=
  forall b h, r = Ok (b, h) -> validate b h = true /\ (b, h) ∈ got s.

Lemma genuine_stable validate : stable (genuine validate).
Proof. intros s s' r (_&_&Hg) H b h E. destruct (H b h E). split; [done|set_solver]. Qed.

Lemma genuine_err validate s e : genuine validate s (Err e).
Proof. by intros b h. Qed.

Lemma read_answer_genuine validate answer res s :
  read_answer validate answer = Finished res -> genuine validate (add_got (received answer) s) res.
Proof.
  destruct answer as [[st h body]|e]; cbn; [|done]. destruct (_ && _)%bool eqn:Est.
  - destruct body as [b|e]; [|done]. destruct (validate b h) eqn:Ev; [|done]. intros [= <-] b' h' [= <- <-].
    split; [done|]. cbn. set_solver.
  - destruct (is_retryable_status st); [done|]. by intros [= <-].
Qed.

Lemma read_relay_genuine validate answer res s :
  read_relay validate answer = Finished res -> genuine validate (add_got (relay_received answer) s) res.
Proof.
  destruct answer as [resp|e]; cbn; [|done]. destruct (_ && _)%bool eqn:Est; [|done].
  destruct (validate _ _) eqn:Ev; [|done]. intros [= <-] b' h' [= <- <-].
  split; [done|]. cbn. set_solver.
Qed.

Section fetches.
Context (parse_url : str -> option Url) (proxy_url target : str).

#[local] Instance the_protocol : Protocol Net Sent := fetch_protocol parse_url proxy_url target.

Lemma permits_within s s' {A} (e : Net A) : s ⊑s s' -> permits s e -> permits s' e.
Proof. intros (H1&H2&H3) He. destruct e; cbn in *; try done; intuition lia. Qed.

Lemma after_within s s' {A} (e : Net A) a : s ⊑s s' -> after s e a ⊑s after s' e a.
Proof. intros (H1&H2&H3). destruct e; cbn in *; split_and!; cbn; try lia; try done; set_solver. Qed.

Lemma keeps_within {A} s s' (p : net A) Q : stable Q -> s ⊑s s' -> keeps s p Q -> keeps s' p Q.
Proof.
  intros HQ. revert s s'. induction p as [r|B e k IH]; intros s s' Hs; cbn -[permits after]; [by apply HQ|].
  intros [Hp H]. split; [by eapply permits_within|]. intros a _. eapply IH; [by apply after_within|by apply H].
Qed.

Lemma pool_first s1 s2 {A} (e : Net A) a : permits s1 e -> pool (after s1 e a) s2 ⊑s after (pool s1 s2) e a.
Proof. intros He. destruct e; cbn in *; split_and!; cbn; try lia; set_solver. Qed.

Lemma pool_second s1 s2 {A} (e : Net A) a : permits s2 e -> pool s1 (after s2 e a) ⊑s after (pool s1 s2) e a.
Proof. intros He. destruct e; cbn in *; split_and!; cbn; try lia; set_solver. Qed.

(** Two racing futures share what both may send. *)
Lemma keeps_select {A B C} (f : A -> net B -> net C) (g : B -> net A -> net C) Q1 Q2 Q :
  stable Q ->
  (forall s1 s2 a q, Q1 s1 a -> keeps s2 q Q2 -> keeps (pool s1 s2) (f a q) Q) ->
  (forall s1 s2 b p, Q2 s2 b -> keeps s1 p Q1 -> keeps (pool s1 s2) (g b p) Q) ->
  forall p q s1 s2, keeps s1 p Q1 -> keeps s2 q Q2 -> keeps (pool s1 s2) (select p f g q) Q.
Proof.
  intros HQ Hf Hg. induction p as [a|X e k IHp]; intros q; induction q as [b|Y e' k' IHq]; intros s1 s2 Hp Hq;
    (split; [done|]); intros [] _.
  - by apply Hf.
  - by apply Hg.
  - by apply Hf.
  - destruct Hq as [Hq1 Hq2]. split; [by eapply permits_within, Hq1; apply within_second|]. intros y _.
    eapply keeps_within; [done|by apply pool_second|]. apply IHq; [done|by apply Hq2].
  - destruct Hp as [Hp1 Hp2]. split; [by eapply permits_within, Hp1; apply within_first|]. intros x _.
    eapply keeps_within; [done|by apply pool_first|]. apply IHp; [by apply Hp2|done].
  - by apply Hg.
  - destruct Hp as [Hp1 Hp2]. split; [by eapply permits_within, Hp1; apply within_first|]. intros x _.
    eapply keeps_within; [done|by apply pool_first|]. apply IHp; [by apply Hp2|done].
  - destruct Hq as [Hq1 Hq2]. split; [by eapply permits_within, Hq1; apply within_second|]. intros y _.
    eapply keeps_within; [done|by apply pool_second|]. apply IHq; [done|by apply Hq2].
Qed.

Lemma keeps_timeout {A} ms (p : net A) s Q (Q' : Sent -> option A -> Prop) :
  (forall s, Q' s None) -> (forall s a, Q s a -> Q' s (Some a)) -> keeps s p Q -> keeps s (timeout ms p) Q'.
Proof.
  intros HN HS. revert s. induction p as [a|X e k IH]; intros s Hp; (split; [done|]); intros [] _; [apply HN|by apply HS|apply HN|].
  destruct Hp as [Hp1 Hp2]. split; [done|]. intros x _. by apply IH, Hp2.
Qed.

(** A future run before another one leaves what is set aside for it. *)
Lemma keeps_then {A B} (p : net A) (f : A -> net B) s1 s2 Q1 Q :
  stable Q -> keeps s1 p Q1 -> (forall s1' a, Q1 s1' a -> keeps (pool s1' s2) (f a) Q) -> keeps (pool s1 s2) (p ≫= f) Q.
Proof.
  intros HQ Hp Hf. revert s1 Hp. induction p as [a|X e k IH]; intros s1 Hp; [by apply Hf|]. destruct Hp as [Hp1 Hp2].
  split; [by eapply permits_within, Hp1; apply within_first|]. intros x _.
  eapply keeps_within; [done|by apply pool_first|]. by apply IH, Hp2.
Qed.

(** Whom a request's headers may go to. *)
Definition http_discreet (url : str) (headers : Headers) : Prop :=
  is_Some (headers !! TAG_HEADER) -> url = proxy_url /\ proxy_url <> [] /\ names_api_v2 parse_url target = true.

Lemma keeps_http r validate attempt more s :
  http_discreet (req_url r) (req_headers r) -> more < http_left s ->
  keeps s (http_bytes_from r validate attempt more) (genuine validate).
Proof.
  intros Hd. revert attempt s. induction more as [|more IH]; intros attempt s Hl; cbn [http_bytes_from];
    apply keeps_bind; (split; [split; [lia|done]|]); intros ? _; cbn [keeps trigger];
    apply keeps_bind; (split; [done|]); intros answer _; cbn -[read_answer];
    destruct (read_answer validate answer) as [res|e] eqn:E; cbn; try (by eapply read_answer_genuine); [apply genuine_err|].
  split; [done|]. intros ? _. apply IH. cbn. lia.
Qed.

Lemma keeps_relay r validate more s :
  req_url r = target -> carries_credentials (req_headers r) = false -> req_headers r !! TAG_HEADER = None ->
  more < relay_left s -> keeps s (relay_from r validate more) (genuine validate).
Proof.
  intros Hu Hc Ht. revert s. induction more as [|more IH]; intros s Hl; cbn [relay_from];
    apply keeps_bind; (split; [cbn; split_and!; [lia|done..]|]); intros ? _; cbn [keeps trigger];
    apply keeps_bind; (split; [done|]); intros answer _; cbn -[read_relay];
    destruct (read_relay validate answer) as [res|e] eqn:E; cbn; try (by eapply read_relay_genuine); [apply genuine_err|].
  split; [done|]. intros ? _. apply IH. cbn. lia.
Qed.

Lemma keeps_grace other grace e validate s :
  keeps s other (genuine validate) -> keeps s (await_other_with_grace other grace e) (genuine validate).
Proof.
  intros H. apply keeps_bind.
  apply keeps_timeout with (Q := genuine validate); [intros s'; apply genuine_err| |done].
  intros s' [v|e'] Hr; [exact Hr|apply genuine_err].
Qed.
End fetches.

(** ** Headers *)

Definition credential (n v : str) : bool :=
  eq_ignore_ascii_case n (lit "cookie") || (eq_ignore_ascii_case n (lit "authorization") && negb (is_track_license v)).

Lemma carries_credentials_spec h :
  carries_credentials h = true <-> exists n v, h !! n = Some v /\ credential n v = true.
Proof.
  unfold carries_credentials. rewrite existsb_exists. split.
  - intros ([n v] & Hin & Hc). exists n, v. split; [|done]. by apply elem_of_map_to_list, list_elem_of_In.
  - intros (n & v & Hin & Hc). exists (n, v). split; [|done]. by apply list_elem_of_In, elem_of_map_to_list.
Qed.

Lemma carries_credentials_untagged h : carries_credentials (delete TAG_HEADER h) = carries_credentials h.
Proof.
  apply eq_true_iff_eq. rewrite !carries_credentials_spec. split; intros (n & v & Hin & Hc); exists n, v; (split; [|done]).
  - by apply lookup_delete_Some in Hin as [_ ?].
  - apply lookup_delete_Some. split; [|done]. by intros <-.
Qed.

Lemma tag_not_target : lit "X-Target" <> TAG_HEADER.
Proof. by vm_compute. Qed.

Section sends.
Context (parse_url : str -> option Url) (base64 : str -> str) (relay_installed : bool) (proxy_url target : str).

Abbreviation tagged := (keeps_tag parse_url).
Abbreviation has_proxy := (proxy_set proxy_url).
#[local] Instance sends_protocol : Protocol Net Sent := fetch_protocol parse_url proxy_url target.

Lemma keeps_tag_cases extra b :
  let '(kept, extra') := tagged extra target b in
  carries_credentials extra' = carries_credentials extra
  /\ (if kept then b = true /\ names_api_v2 parse_url target = true else extra' !! TAG_HEADER = None).
Proof.
  unfold keeps_tag. destruct (extra !! TAG_HEADER) eqn:E; [|done]. destruct (b && _)%bool eqn:Eb.
  - apply andb_true_iff in Eb. done.
  - split; [apply carries_credentials_untagged|]. by rewrite lookup_delete_eq.
Qed.

(** A request to the proxy or straight to the target, with headers that have a tag only
    when [keeps_tag] kept it. *)
Lemma keeps_proxied extra validate retries s :
  (is_Some (extra !! TAG_HEADER) -> has_proxy = true /\ names_api_v2 parse_url target = true) -> retries < http_left s ->
  keeps s (let '(url, headers) := proxy_target base64 proxy_url target extra in http_get_bytes url headers validate retries)
    (genuine validate).
Proof.
  intros Ht Hl. unfold proxy_target, proxy_set in *. case_bool_decide as Hp; cbn [negb] in *.
  - apply keeps_http; [|done]. intros Hx. by destruct (Ht Hx).
  - apply keeps_http; [|done]. intros Hx. cbn in Hx. rewrite lookup_insert_ne in Hx by apply tag_not_target.
    destruct (Ht Hx). done.
Qed.

Lemma keeps_proxied_post extra body validate s :
  extra !! TAG_HEADER = None -> MAX_RETRIES < http_left s ->
  keeps s (let '(url, headers) := proxy_target base64 proxy_url target extra in http_post_bytes url headers body validate)
    (genuine validate).
Proof.
  intros Ht Hl. unfold proxy_target, proxy_set. case_bool_decide as Hp; cbn [negb]; apply keeps_http; try done; cbn; intros Hx.
  - rewrite Ht in Hx. by destruct Hx.
  - rewrite lookup_insert_ne, Ht in Hx by apply tag_not_target. by destruct Hx.
Qed.

Lemma keeps_race extra validate s :
  extra !! TAG_HEADER = None -> carries_credentials extra = false -> 3 < http_left s -> 1 < relay_left s ->
  keeps s (race_relay_proxy base64 proxy_url target extra validate) (genuine validate).
Proof.
  intros Ht Hc Hh Hr.
  apply (keeps_within parse_url proxy_url target
           (pool {| http_left := 0; relay_left := 2; got := [] |} {| http_left := 4; relay_left := 0; got := [] |}));
    [apply genuine_stable|split_and!; cbn; [lia..|set_solver]|].
  unfold race_relay_proxy. apply (keeps_select parse_url proxy_url target _ _ (genuine validate) (genuine validate)).
  - apply genuine_stable.
  - intros s1 s2 [v|e] q Ha Hq; [cbn; eapply genuine_stable, Ha; apply within_first|].
    apply keeps_grace. eapply keeps_within; [apply genuine_stable|apply within_second|exact Hq].
  - intros s1 s2 [v|e] p Hb Hp; [cbn; eapply genuine_stable, Hb; apply within_second|].
    assert (keeps (pool s1 s2) p (genuine validate)) as Hp'.
    { eapply keeps_within; [apply genuine_stable|apply within_first|exact Hp]. }
    case_bool_decide; [|by apply keeps_grace]. apply keeps_bind. eapply keeps_impl, Hp'.
    intros s' [v|e'] Hv; [exact Hv|apply genuine_err].
  - apply keeps_relay; try done; unfold RELAY_MAX_RETRIES; cbn; lia.
  - apply keeps_proxied; [|unfold MAX_RETRIES; cbn; lia]. rewrite Ht. by intros [].
Qed.

(** What a fetch may send: one request to the proxy for a tagged one, four otherwise, and
    two to the relay, none when the request has credentials or a tag. *)
Definition get_budget (extra : Headers) (allow_direct : bool) : Sent :=
  let steered := (tagged extra target has_proxy).1 in
  {| http_left := if steered then 1 else if has_proxy || allow_direct then 4 else 0;
     relay_left := if relay_installed && negb (carries_credentials extra) && negb steered then 2 else 0;
     got := [] |}.

Definition post_budget (extra : Headers) : Sent :=
  {| http_left := if has_proxy then 4 else 0;
     relay_left := if relay_installed && negb (carries_credentials extra) then 2 else 0;
     got := [] |}.
End sends.

(** C22: A fetch is discreet.  Whatever the network answers and however the relay and the
    proxy race: an account's cookie or token is never sent to the relay, which runs on a
    user's desktop; the tag of a region is only sent to our proxy, for requests to the
    API; at most four requests go out and two to the relay, one in all for a tagged
    request; and a body that is returned was received with a success and passed the
    caller's check. *)
Theorem fetch_discreet parse_url base64 relay_installed proxy_url target extra allow_direct validate :
  @keeps Net _ Sent (fetch_protocol parse_url proxy_url target) _
    (get_budget parse_url relay_installed proxy_url target extra allow_direct)
    (fetch_get_validated parse_url base64 relay_installed proxy_url target extra allow_direct validate)
    (genuine validate).
Proof.
  unfold fetch_get_validated, get_budget. pose proof (keeps_tag_cases parse_url target extra (proxy_set proxy_url)) as Ht.
  destruct (keeps_tag parse_url extra target (proxy_set proxy_url)) as [steered extra']. destruct Ht as [<- Ht]. cbn [fst].
  destruct steered.
  { destruct Ht as [Hp Hn]. apply keeps_proxied; [by intros _|cbn; lia]. }
  assert (is_Some (extra' !! TAG_HEADER) -> proxy_set proxy_url = true /\ names_api_v2 parse_url target = true) as Ht'.
  { rewrite Ht. by intros []. }
  rewrite andb_true_r. destruct (proxy_set proxy_url) eqn:Hp; cbn [orb].
  - destruct (relay_installed && _)%bool eqn:Er; [|by apply keeps_proxied; [rewrite Hp|unfold MAX_RETRIES; cbn; lia]].
    apply andb_true_iff in Er as [_ Er%negb_true_iff]. by apply keeps_race; cbn; try lia.
  - assert (forall s, (relay_installed && negb (carries_credentials extra'))%bool = true -> 1 < relay_left s ->
      @keeps Net _ Sent (fetch_protocol parse_url proxy_url target) _ s (via_relay target extra' validate) (genuine validate)) as Hrelay.
    { intros s [_ Er%negb_true_iff]%andb_true_iff Hl. by apply keeps_relay. }
    destruct allow_direct.
    + set (r := if (_ && _)%bool then 2 else 0).
      apply (keeps_within parse_url proxy_url target
               (pool {| http_left := 4; relay_left := 0; got := [] |} {| http_left := 0; relay_left := r; got := [] |}));
        [apply genuine_stable|split_and!; cbn; [lia..|set_solver]|].
      eapply keeps_then; [apply genuine_stable|apply keeps_http; [intros Hx; by destruct (Ht' Hx)|unfold MAX_RETRIES; cbn; lia]|].
      intros s1 [v|e] Hv; [eapply genuine_stable, Hv; apply within_first|].
      destruct (relay_installed && _)%bool eqn:Er; [apply Hrelay; [done|cbn; lia]|apply genuine_err].
    + destruct (relay_installed && _)%bool eqn:Er; [apply Hrelay; [done|cbn; lia]|apply genuine_err].
Qed.

(** A request that is posted keeps to the same rules: credentials never reach the
    relay and a region's tag nobody; at most two requests to the relay and four to the
    proxy; the answer that is returned was received and is not empty. *)
Theorem post_discreet parse_url base64 relay_installed proxy_url target extra body :
  @keeps Net _ Sent (fetch_protocol parse_url proxy_url target) _
    (post_budget relay_installed proxy_url extra)
    (fetch_post_bytes parse_url base64 relay_installed proxy_url target extra body)
    (genuine accept_non_empty).
Proof.
  unfold fetch_post_bytes, post_budget. pose proof (keeps_tag_cases parse_url target extra false) as Ht.
  destruct (keeps_tag parse_url extra target false) as [steered extra']. destruct Ht as [<- Ht]. cbn [snd].
  assert (extra' !! TAG_HEADER = None) as Htag by (by destruct steered; [destruct Ht|]). clear Ht.
  set (h := if proxy_set proxy_url then 4 else 0).
  assert (forall s, h <= http_left s -> @keeps Net _ Sent (fetch_protocol parse_url proxy_url target) _ s
    (if proxy_set proxy_url then
       let '(url, headers) := proxy_target base64 proxy_url target extra' in http_post_bytes url headers body accept_non_empty
     else mret (Err (lit "no proxy/relay available for POST"))) (genuine accept_non_empty)) as Hproxy.
  { intros s Hs. unfold h in Hs. destruct (proxy_set proxy_url) eqn:Hp; [|apply genuine_err].
    apply keeps_proxied_post; [done|unfold MAX_RETRIES; lia]. }
  destruct (relay_installed && _)%bool eqn:Er; [|by apply Hproxy].
  apply andb_true_iff in Er as [_ Er%negb_true_iff].
  apply (keeps_within parse_url proxy_url target
           (pool {| http_left := 0; relay_left := 2; got := [] |} {| http_left := h; relay_left := 0; got := [] |}));
    [apply genuine_stable|split_and!; cbn; [lia..|set_solver]|].
  eapply keeps_then; [apply genuine_stable|apply keeps_relay; try done; unfold RELAY_MAX_RETRIES; cbn; lia|].
  intros s1 [v|e] Hv; [eapply genuine_stable, Hv; apply within_first|].
  destruct (proxy_set proxy_url) eqn:Hp; [apply Hproxy; cbn; lia|apply genuine_err].
Qed.
