(* ===== verification/HlsDownload.v ===== *)
(** * HlsDownload: a track downloaded segment by segment

    Source: [streaming/src/stream/hls.rs], with [audio_via_relay] of [proxy.rs].  A
    download is a program over [Hls]; what [Fetch] may answer is what a run of
    [fetch_validated] returns.  Of a batch, [buffer_unordered] keeps three requests in
    flight, and [NextDone] is the next of them to finish.  The caller's [refresher] is an
    effect, the [url] crate a parameter. *)

From Stdlib Require Import ZArith Lia String.
From stdpp Require Import base list numbers option tactics sets gmap.
From S2P Require Import Prelude Text NetAddress StreamTarget StreamFetch.

Definition HLS_CONCURRENCY : nat := 3.
Definition MAX_M3U8_REFRESH : nat := 2.

Abbreviation SegmentSource := (option str * list str)%type.

(** ** Playlists *)

(** [str::lines]. *)
Definition strip_cr (line : str) : str := default line (strip_suffix [13%Z] line).
Definition lines (content : str) : list str :=
  let parts := split_char 10 content in
  match rev parts with
  | [] => []
  | last :: rest => rev (map strip_cr rest) ++ (if bool_decide (last = []) then [] else [last])
  end.

Definition MAP_TAG : str := lit "#EXT-X-MAP:URI=" ++ [34%Z].

Section playlists.
Context (parse_url : str -> option Url) (join_url : Url -> str -> option Url).

Definition resolve_url (url : str) (base : Url) : option str :=
  match join_url base url with
  | None => None
  | Some absolute => option_map url_str (public_media parse_url (url_str absolute))
  end.

Fixpoint read_lines (base : Url) (ls : list str) (init_url : option str) (segment_urls : list str) : SegmentSource :=
  match ls with
  | [] => (init_url, segment_urls)
  | line :: ls =>
      let line := trim line in
      match after_first MAP_TAG line with
      | Some rest =>
          match split_once 34 rest with
          | Some (uri, _) => read_lines base ls (resolve_url uri base) segment_urls
          | None => read_lines base ls init_url segment_urls
          end
      | None =>
          if starts_with (lit "#") line || bool_decide (line = []) then read_lines base ls init_url segment_urls
          else match resolve_url line base with
               | None => (None, [])
               | Some segment => read_lines base ls init_url (segment_urls ++ [segment])
               end
      end
  end.

Definition parse_m3u8 (content base_url : str) : SegmentSource :=
  match public_media parse_url base_url with
  | None => (None, [])
  | Some base => read_lines base (lines content) None []
  end.
End playlists.

Definition mime_to_content_type (mime : str) : str :=
  if bool_decide (mime = lit "audio/mpeg") || bool_decide (mime = lit "audio/mpegurl") then lit "audio/mpeg"
  else if contains_str (lit "mp4a") mime then lit "audio/mp4"
  else if contains_str (lit "opus") mime then lit "audio/ogg"
  else lit "application/octet-stream".

(** ** Effects *)

(** The validators of this file. *)
Inductive Check := AudioBody | PlaylistBody.
Definition checked (c : Check) : BodyValidator :=
  fun b _ => match c with AudioBody => is_valid_audio b | PlaylistBody => is_valid_m3u8 b end.

Inductive Hls : Type -> Type :=
| Fetch (url : str) (headers : Headers) (direct_only : bool) (check : Check) : Hls (result bytes str)
(** The audio a relay method answered with, as bytes. *)
| RelayMethod (url : str) : Hls (option bytes)
(** Which of the requests in flight, segments by number and URL, is done next. *)
| NextDone (direct_only : bool) (in_flight : list (nat * str)) : Hls (nat * result bytes str)
| Refresh : Hls (result SegmentSource str).

Abbreviation hls := (program Hls).

(** The results a program can come to. *)
Fixpoint outcome {E : Type -> Type} {A} (p : program E A) (r : A) : Prop :=
  match p with Ret a => a = r | Vis e k => exists x, outcome (k x) r end.

Section downloads.
Context (parse_url : str -> option Url) (join_url : Url -> str -> option Url) (base64 : str -> str).
Context (relay_installed : bool) (proxy_url : str).

Definition fetch_validated (target_url : str) (headers : Headers) (direct_only : bool) (validate : BodyValidator)
  : net (result bytes str) :=
  r ←? (if direct_only then fetch_direct_validated target_url headers validate
        else fetch_get_validated parse_url base64 relay_installed proxy_url target_url headers false validate);
  mret (Ok r.1).

Definition hls_answers : Answers Hls := fun A e =>
  match e in Hls A return A -> Prop with
  | Fetch url headers direct_only check => outcome (fetch_validated url headers direct_only (checked check))
  | NextDone direct_only in_flight => fun d =>
      exists idx url, in_flight !! d.1 = Some (idx, url) /\ outcome (fetch_validated url ∅ direct_only (checked AudioBody)) d.2
  | _ => fun _ => True
  end.

Definition audio_via_relay (url : str) : hls (option bytes) :=
  if relay_installed then
    audio ← trigger (RelayMethod url);
    mret (match audio with
          | Some audio => if is_encrypted_mp4 audio then None else Some audio
          | None => None
          end)
  else mret None.

Definition fetch_m3u8_source (m3u8_url : str) (m3u8_headers : Headers) (direct_only : bool) : hls (result SegmentSource str) :=
  data ←? trigger (Fetch m3u8_url m3u8_headers direct_only PlaylistBody);
  let source := parse_m3u8 parse_url join_url (from_utf8_lossy data) m3u8_url in
  mret (if bool_decide (source.2 = []) then Err (lit "no segments found in m3u8") else Ok source).

(** Audio does not begin as a document does. *)
Definition begins_as_audio (audio : bytes) : bool :=
  match audio with
  | b :: _ => negb (bool_decide (b ∈ [123; 91; 60; 32]%Z))
  | [] => false
  end.

Definition download_progressive (url mime_type : str) (extra_headers : Headers) (direct_only : bool)
  : hls (result (bytes * str) str) :=
  relayed ← (if direct_only then mret None else audio_via_relay url);
  match relayed with
  | Some audio =>
      if begins_as_audio audio && negb (is_encrypted_mp4 audio) then mret (Ok (audio, mime_to_content_type mime_type))
      else data ←? trigger (Fetch url extra_headers direct_only AudioBody); mret (Ok (data, mime_to_content_type mime_type))
  | None => data ←? trigger (Fetch url extra_headers direct_only AudioBody); mret (Ok (data, mime_to_content_type mime_type))
  end.

(** The stream of [fetch_segment_batch] with [n] requests still to finish: those of
    [in_flight], and [waiting], of which one is sent whenever one is done. *)
Fixpoint batch_from (direct_only : bool) (n : nat) (in_flight waiting : list (nat * str)) (results : list (option bytes))
    (failed : list nat) : hls (list (option bytes) * list nat) :=
  match n with
  | O => mret (results, failed)
  | S n =>
      d ← trigger (NextDone direct_only in_flight);
      match in_flight !! d.1 with
      | None => mret (results, failed)
      | Some (idx, _) =>
          let next := batch_from direct_only n (delete d.1 in_flight ++ take 1 waiting) (drop 1 waiting) in
          match d.2 with
          | Ok data => next (<[idx := Some data]> results) failed
          | Err _ => next results (failed ++ [idx])
          end
      end
  end.

(** The indices are below the length of [results], which is that of [segment_urls]. *)
Definition fetch_segment_batch (segment_urls : list str) (indices : list nat) (direct_only : bool)
    (results : list (option bytes)) : hls (list (option bytes) * list nat) :=
  let requests := map (fun idx => (idx, nth idx segment_urls [])) indices in
  batch_from direct_only (length indices) (take HLS_CONCURRENCY requests) (drop HLS_CONCURRENCY requests) results [].

Definition pending (results : list (option bytes)) : list nat :=
  retain (fun i => match results !! i with Some None => true | _ => false end) (seq 0 (length results)).

(** The loop of [download_hls] with [fuel] iterations left, [None] when they run out. *)
Fixpoint segments_loop (fuel : nat) (direct_only has_refresher : bool) (segment_urls : list str)
    (results : list (option bytes)) (refreshes_used : nat) : hls (option (result (list (option bytes)) str)) :=
  match fuel with
  | O => mret None
  | S fuel =>
      if bool_decide (pending results = []) then mret (Some (Ok results))
      else
        b ← fetch_segment_batch segment_urls (pending results) direct_only results;
        let '(results, failed) := b in
        if bool_decide (failed = []) then segments_loop fuel direct_only has_refresher segment_urls results refreshes_used
        else if negb has_refresher then
          mret (Some (Err (lit "hls: " ++ to_string (Z.of_nat (length failed)) ++ lit " segment(s) unrecoverable")))
        else if (MAX_M3U8_REFRESH <=? refreshes_used)%nat then
          mret (Some (Err (lit "hls: segments still failing after m3u8 refresh")))
        else
          r ← trigger Refresh;
          match r with
          | Err e => mret (Some (Err e))
          | Ok (_, fresh_segments) =>
              if (length fresh_segments =? length segment_urls)%nat then
                segments_loop fuel direct_only has_refresher fresh_segments results (S refreshes_used)
              else mret (Some (Err (lit "hls: refreshed playlist has a different segment count")))
          end
  end.

Definition flatten (results : list (option bytes)) : bytes := concat (omap id results).

Definition download_segments (fuel : nat) (mime_type : str) (direct_only has_refresher : bool) (buf : bytes)
    (segment_urls : list str) : hls (option (result (bytes * str) str)) :=
  r ← segments_loop fuel direct_only has_refresher segment_urls (replicate (length segment_urls) None) 0;
  mret (match r with
        | None => None
        | Some (Err e) => Some (Err e)
        | Some (Ok results) => Some (Ok (buf ++ flatten results, mime_to_content_type mime_type))
        end).

Definition download_hls (fuel : nat) (m3u8_url mime_type : str) (m3u8_headers : Headers) (direct_only has_refresher : bool)
  : hls (option (result (bytes * str) str)) :=
  relayed ← (if direct_only then mret None else audio_via_relay m3u8_url);
  match (match relayed with Some audio => if begins_as_audio audio then Some audio else None | None => None end) with
  | Some audio => mret (Some (Ok (audio, mime_to_content_type mime_type)))
  | None =>
      source ← fetch_m3u8_source m3u8_url m3u8_headers direct_only;
      match source with
      | Err e => mret (Some (Err e))
      | Ok (None, segment_urls) => download_segments fuel mime_type direct_only has_refresher [] segment_urls
      | Ok (Some init, segment_urls) =>
          data ← trigger (Fetch init ∅ direct_only AudioBody);
          match data with
          | Err e => mret (Some (Err e))
          | Ok data =>
              if is_encrypted_mp4 data then mret (Some (Err (lit "unsupported stream")))
              else download_segments fuel mime_type direct_only has_refresher data segment_urls
          end
      end
  end.
End downloads.
