(* ===== verification/HlsFacts.v ===== *)
(** * HlsFacts: what a playlist names is outside our network, and a download ends

    Whatever a playlist contains, its URLs stay outside our network, and encrypted tracks are
    told from plain ones.  Whatever the network, the relay and the caller's refresher answer,
    and in whatever order the requests of a batch finish, a download ends and what it returns
    is the whole track. *)

From Stdlib Require Import ZArith Lia String.
From stdpp Require Import base list numbers option tactics sets gmap.
From S2P Require Import Prelude Text NetAddress StreamTarget StreamFetch HlsDownload.
Local Open Scope Z_scope.

(** ** Networks *)

(** The address [a] is one of the addresses of the network [net]/[bits]. *)
Definition in_network (a : Z) (net : list Z) (bits : Z) : Prop :=
  from_be_bytes net <= a < from_be_bytes net + 2 ^ (32 - bits).

(** This host, private use, shared address space, loopback, link local, documentation,
    multicast, reserved and broadcast. *)
Definition INNER_NETWORKS : list (list Z * Z) :=
  [([0; 0; 0; 0], 8); ([10; 0; 0; 0], 8); ([100; 64; 0; 0], 10); ([127; 0; 0; 0], 8); ([169; 254; 0; 0], 16);
   ([172; 16; 0; 0], 12); ([192; 0; 2; 0], 24); ([192; 168; 0; 0], 16); ([198; 51; 100; 0], 24);
   ([203; 0; 113; 0], 24); ([224; 0; 0; 0], 4); ([240; 0; 0; 0], 4)].

Definition outer_v4 (a : Z) : Prop := ~ Exists (fun n => in_network a n.1 n.2) INNER_NETWORKS.

Lemma octets_of a :
  0 <= a < 4294967296 ->
  exists o0 o1 o2 o3, a = ((o0 * 256 + o1) * 256 + o2) * 256 + o3
    /\ 0 <= o0 < 256 /\ 0 <= o1 < 256 /\ 0 <= o2 < 256 /\ 0 <= o3 < 256
    /\ octet 0 a = o0 /\ octet 1 a = o1 /\ octet 2 a = o2.
Proof.
  intros Ha. exists (a / 16777216), (a / 65536 mod 256), (a / 256 mod 256), (a mod 256).
  unfold octet, v4_octets. cbn. split_and!; Z.to_euclidean_division_equations; lia.
Qed.

(** Finds the disjunct that arithmetic proves. *)
Ltac some_exists := first [apply Exists_cons_hd; unfold in_network; cbn; lia | apply Exists_cons_tl; some_exists].
Ltac some_orb := first [apply orb_true_iff; right; lia | apply orb_true_iff; left; some_orb | lia].

Lemma routes_off_v4 a : 0 <= a < 4294967296 -> routes_off_this_machine_v4 a = true <-> outer_v4 a.
Proof.
  intros Ha. destruct (octets_of a Ha) as (o0 & o1 & o2 & o3 & E & B0 & B1 & B2 & B3 & O0 & O1 & O2). unfold outer_v4.
  rewrite <- not_false_iff_true.
  unfold routes_off_this_machine_v4, v4_is_loopback, v4_is_private, v4_is_link_local, v4_is_unspecified, v4_is_broadcast,
    v4_is_documentation, v4_is_multicast. rewrite O0, O1, O2, negb_false_iff. apply not_iff_compat. split.
  - rewrite !orb_true_iff. intros H. repeat destruct H as [H|H]; unfold INNER_NETWORKS; some_exists.
  - unfold INNER_NETWORKS. rewrite !Exists_cons, Exists_nil. unfold in_network. cbn. intros H.
    repeat destruct H as [H|H]; [some_orb..|done].
Qed.

Lemma land_high s k : 0 <= s < 65536 -> 0 <= k -> Z.land s (Z.ldiff 65535 (Z.ones k)) = s / 2 ^ k * 2 ^ k.
Proof.
  intros Hs Hk. rewrite Z.ldiff_land, Z.land_assoc, <- Z.ldiff_land. change 65535 with (Z.ones 16).
  rewrite Z.land_ones by lia. rewrite (Z.mod_small s) by (change (2 ^ 16) with 65536; lia).
  by rewrite Z.ldiff_ones_r, Z.shiftl_mul_pow2, Z.shiftr_div_pow2.
Qed.

(** Not loopback or unspecified, not multicast [ff00::/8], not unique local [fc00::/7],
    not link local [fe80::/10]; a mapped address counts as the IPv4 address it is. *)
Definition outer_v6 (g : list Z) : Prop :=
  match to_ipv4_mapped g with
  | Some a => outer_v4 a
  | None =>
      g <> [0; 0; 0; 0; 0; 0; 0; 1] /\ g <> [0; 0; 0; 0; 0; 0; 0; 0]
      /\ ~ (65280 <= segment 0 g) /\ ~ (64512 <= segment 0 g < 65024) /\ ~ (65152 <= segment 0 g < 65216)
  end.

Lemma routes_off_v6 g : ip_ok (V6 g) -> routes_off_this_machine_v6 g = true <-> outer_v6 g.
Proof.
  intros Hg. unfold routes_off_this_machine_v6, outer_v6. destruct (to_ipv4_mapped g) as [a|] eqn:E.
  { apply routes_off_v4. by eapply mapped_ok. }
  assert (0 <= segment 0 g < 65536) as Hs.
  { destruct g as [|x g]; cbn; [lia|]. destruct Hg as [_ Hg]. by apply Forall_cons in Hg as [? _]. }
  unfold v6_is_multicast. change 65280 with (Z.ldiff 65535 (Z.ones 8)) at 1. change 65024 with (Z.ldiff 65535 (Z.ones 9)) at 1.
  change 65472 with (Z.ldiff 65535 (Z.ones 6)) at 1. rewrite !land_high by lia.
  unfold v6_is_loopback, v6_is_unspecified. rewrite negb_true_iff, !orb_false_iff, !bool_decide_eq_false, !Z.eqb_neq.
  cbn -[segment Z.div Z.mul]. split.
  - intros [[[[? ?] ?] ?] ?]. split_and!; try done; Z.to_euclidean_division_equations; lia.
  - intros (? & ? & ? & ? & ?). split_and!; try done; Z.to_euclidean_division_equations; lia.
Qed.

(** A name with a dot that is not a name for this machine or its network. *)
Definition outer_name (name : str) : Prop :=
  let plain := map to_ascii_lowercase (trim_end_char 46 name) in
  46 ∈ plain /\ forall suffix, suffix ∈ LOCAL_SUFFIXES -> ~ suffix `suffix_of` plain.

Definition outer_host (h : Host) : Prop :=
  match h with Domain name => outer_name name | HostV4 a => outer_v4 a | HostV6 g => outer_v6 g end.

Lemma ends_with_spec suffix s : ends_with suffix s = true <-> suffix `suffix_of` s.
Proof.
  unfold ends_with, strip_suffix. destruct (strip_prefix (rev suffix) (rev s)) as [r|] eqn:E; cbn.
  - apply strip_prefix_Some in E. split; [|done]. intros _. exists (rev r).
    by rewrite <- (rev_involutive s), E, rev_app_distr, rev_involutive.
  - split; [done|]. intros [r ->]. rewrite rev_app_distr, strip_prefix_app in E. done.
Qed.

Lemma names_outside name : names_our_own_network name = false -> outer_name name.
Proof.
  unfold names_our_own_network, outer_name. rewrite !orb_false_iff, negb_false_iff, contains_char_spec.
  intros [[_ Hdot] Hs]. split; [done|]. intros suffix Hin Hsuf%ends_with_spec.
  rewrite <- not_true_iff_false, existsb_exists in Hs. apply Hs. exists suffix. by rewrite <- list_elem_of_In.
Qed.

(** ** Playlists *)

(** What the [url] crate promises of [Url::parse]: the text of a parsed URL parses to it
    again, and addresses are addresses. *)
Class UrlLaws (parse_url : str -> option Url) : Prop := {
  parse_again : forall s u, parse_url s = Some u -> parse_url (url_str u) = Some u;
  parsed_host : forall s u, parse_url s = Some u ->
    match host u with
    | Some (HostV4 a) => 0 <= a < 4294967296
    | Some (HostV6 g) => ip_ok (V6 g)
    | _ => True
    end }.

(** A web address outside our network, without credentials. *)
Definition outer_url (u : Url) : Prop :=
  (scheme u = lit "http" \/ scheme u = lit "https") /\ username u = [] /\ password u = None
  /\ exists h, host u = Some h /\ outer_host h.

Section playlists.
Context (parse_url : str -> option Url) (join_url : Url -> str -> option Url) `{!UrlLaws parse_url}.

Lemma outside_outer s u h : parse_url s = Some u -> host u = Some h -> outside_host h = true -> outer_host h.
Proof.
  intros Hp Hh. pose proof (parsed_host s u Hp) as Hok. rewrite Hh in Hok. destruct h as [name|a|g]; cbn.
  - intros H%negb_true_iff. by apply names_outside.
  - by apply routes_off_v4.
  - by apply routes_off_v6.
Qed.

Lemma public_media_outer s u : public_media parse_url s = Some u -> parse_url s = Some u /\ outer_url u.
Proof.
  unfold public_media, reachable. destruct (_ <? _); [done|]. destruct (parse_url s) as [u'|] eqn:Hp; [|done].
  destruct (negb _ || _) eqn:Ec; [done|]. apply orb_false_iff in Ec as [Hu%negb_false_iff%bool_decide_eq_true Hw].
  destruct (host u') as [h|] eqn:Hh; [|done]. destruct (outside_host h) eqn:Ho; [|done].
  destruct (_ || _) eqn:Es; [|done]. intros [= <-]. split; [done|].
  apply orb_true_iff in Es. rewrite !bool_decide_eq_true in Es. split_and!; [done|done|by destruct (password u')|].
  exists h. split; [done|]. by eapply outside_outer.
Qed.

(** The text names an outer URL. *)
Definition names_outer (s : str) : Prop := exists u, parse_url s = Some u /\ outer_url u.

Lemma resolve_url_outer url base s : resolve_url parse_url join_url url base = Some s -> names_outer s.
Proof.
  unfold resolve_url. destruct (join_url base url) as [a|]; [|done]. destruct (public_media _ _) as [u|] eqn:E; [|done].
  intros [= <-]. apply public_media_outer in E as [Hp Ho]. exists u. split; [by eapply parse_again|done].
Qed.

Lemma read_lines_outer base ls init segs init' segs' :
  (forall s, init = Some s -> names_outer s) -> Forall names_outer segs ->
  read_lines parse_url join_url base ls init segs = (init', segs') ->
  (forall s, init' = Some s -> names_outer s) /\ Forall names_outer segs'.
Proof.
  revert init segs. induction ls as [|line ls IH]; intros init segs Hi Hs; cbn; [by intros [= <- <-]|].
  destruct (after_first _ _) as [rest|].
  { destruct (split_once 34 rest) as [[uri tail]|]; apply IH; try done. intros s E. by eapply resolve_url_outer. }
  destruct (_ || _); [by apply IH|]. destruct (resolve_url _ _ _ _) as [seg|] eqn:E; [|by intros [= <- <-]].
  apply IH; [done|]. apply Forall_app. split; [done|]. apply Forall_singleton. by eapply resolve_url_outer.
Qed.
End playlists.

(** C30: Nothing a playlist says makes the service call into its own network: every URL
    read from it, whatever it contains, is an http or https URL without credentials whose
    host is a public name or an address outside the private, loopback, link-local, shared,
    multicast and reserved networks, also when mapped into IPv6. *)
Theorem playlist_stays_outside parse_url join_url `{!UrlLaws parse_url} content base_url init segs url :
  parse_m3u8 parse_url join_url content base_url = (init, segs) -> init = Some url \/ url ∈ segs ->
  exists u, parse_url url = Some u /\ outer_url u.
Proof.
  unfold parse_m3u8. destruct (public_media parse_url base_url) as [base|]; [|by intros [= <- <-] [|?%elem_of_nil]].
  intros H Hurl. apply read_lines_outer in H as [Hi Hs]; [|done|done|done].
  destruct Hurl as [->|Hin]; [by apply Hi|]. rewrite Forall_forall in Hs. by apply Hs.
Qed.

Module TargetSample.
Definition cdn (path : str) : Url :=
  {| url_str := lit "https://cdn.example.com/" ++ path; scheme := lit "https"; username := []; password := None;
     host := Some (Domain (lit "cdn.example.com")); host_str := Some (lit "cdn.example.com") |}.
Definition inside : Url :=
  {| url_str := lit "http://10.0.0.5/"; scheme := lit "http"; username := []; password := None;
     host := Some (HostV4 167772165); host_str := Some (lit "10.0.0.5") |}.

Definition parse_sample (s : str) : option Url :=
  if bool_decide (s = url_str inside) then Some inside
  else match strip_prefix (lit "https://cdn.example.com/") s with Some path => Some (cdn path) | None => None end.
Definition join_sample (base : Url) (s : str) : option Url :=
  if is_some (parse_sample s) then parse_sample s else Some (cdn s).

Global Instance sample_laws : UrlLaws parse_sample.
Proof.
  split; intros s u; unfold parse_sample.
  - case_bool_decide; [by intros [= <-]|]. destruct (strip_prefix _ s) as [p|] eqn:E; [|done]. intros [= <-].
    apply strip_prefix_Some in E. cbn [url_str cdn]. rewrite <- E. rewrite bool_decide_false by done. by rewrite E, strip_prefix_app.
  - case_bool_decide; [by intros [= <-]|]. destruct (strip_prefix _ s); [|done]. by intros [= <-].
Qed.

Definition manifest (segment : str) : str := lit "#EXTM3U" ++ [10] ++ lit "#EXTINF:6.0," ++ [10] ++ segment ++ [10].
Definition manifest_url : str := lit "https://cdn.example.com/p.m3u8".

Lemma playlist_stays_outside_witness :
  parse_m3u8 parse_sample join_sample (manifest (lit "s0.m4s")) manifest_url = (None, [lit "https://cdn.example.com/s0.m4s"])
  /\ exists u, parse_sample (lit "https://cdn.example.com/s0.m4s") = Some u /\ outer_url u.
Proof.
  split; [vm_compute; reflexivity|].
  apply (playlist_stays_outside parse_sample join_sample (manifest (lit "s0.m4s")) manifest_url None [lit "https://cdn.example.com/s0.m4s"]);
    [vm_compute; reflexivity|right; left].
Defined.

Example hostile_playlist : parse_m3u8 parse_sample join_sample (manifest (lit "http://10.0.0.5/")) manifest_url = (None, []).
Proof. vm_compute. reflexivity. Qed.
End TargetSample.

(** ** Boxes *)

(** The walk over the boxes ends: enough iterations for the bytes that are left. *)
Lemma boxes_end fuel b at_ : (length b - at_ < fuel)%nat -> is_Some (boxes_encrypted fuel b at_).
Proof.
  revert at_. induction fuel as [|fuel IH]; intros at_ Hf; [lia|]. cbn [boxes_encrypted].
  destruct (Nat.ltb_spec (length (take 8 (drop at_ b))) 8) as [|Hl]; [by eexists|].
  destruct (_ && _)%bool eqn:Es; [by eexists|]. case_bool_decide; [by eexists|]. apply IH.
  rewrite length_take, length_drop in Hl. set (size := Z.to_nat _) in *. destruct (Nat.eqb_spec size 0); [lia|].
  apply andb_false_iff in Es as [Es%Nat.leb_gt|Es%Nat.leb_gt]; lia.
Qed.

(** A box of an MP4 file. *)
Definition mp4_box (kind body : bytes) : bytes := to_be_bytes 4 (Z.of_nat (length body) + 8) ++ kind ++ body.
Definition box_ok (x : bytes * bytes) : Prop := length x.1 = 4%nat /\ Z.of_nat (length x.2) + 8 < 4294967296.

Definition marked (box : bytes) : bool :=
  has_window (lit "enca") box || has_window (lit "encv") box || has_window (lit "sinf") box.

Lemma mp4_box_length x : length x.1 = 4%nat -> length (mp4_box x.1 x.2) = (8 + length x.2)%nat.
Proof. intros H. unfold mp4_box. rewrite !length_app, to_be_bytes_length, H. lia. Qed.

(** One iteration at a well-formed box. *)
Lemma boxes_step fuel pre x rest :
  box_ok x ->
  boxes_encrypted (S fuel) (pre ++ mp4_box x.1 x.2 ++ rest) (length pre)
  = if bool_decide (x.1 = moov) then Some (marked (mp4_box x.1 x.2))
    else boxes_encrypted fuel (pre ++ mp4_box x.1 x.2 ++ rest) (length pre + length (mp4_box x.1 x.2)).
Proof.
  intros [Hk Hs]. set (b := pre ++ mp4_box x.1 x.2 ++ rest). pose proof (mp4_box_length x Hk) as Hl.
  assert (drop (length pre) b = mp4_box x.1 x.2 ++ rest) as Hd by (unfold b; by rewrite drop_app_length).
  assert (length b = length pre + (8 + length x.2) + length rest)%nat as Hb by (unfold b; rewrite !length_app; lia).
  assert (take 8 (drop (length pre) b) = to_be_bytes 4 (Z.of_nat (length x.2) + 8) ++ x.1) as Hh.
  { rewrite Hd. unfold mp4_box. rewrite app_assoc, <- (app_assoc _ _ rest), take_app_length'; [done|]. rewrite length_app, to_be_bytes_length, Hk. done. }
  cbn [boxes_encrypted]. rewrite Hh, length_app, to_be_bytes_length, Hk. cbn [Nat.ltb Nat.leb Nat.add].
  rewrite take_app_length', drop_app_length' by (by rewrite to_be_bytes_length).
  rewrite from_to_be_small by (change (256 ^ Z.of_nat 4) with 4294967296; lia).
  replace (Z.to_nat (Z.of_nat (length x.2) + 8)) with (8 + length x.2)%nat by lia.
  cbn [Nat.eqb Nat.leb Nat.add andb]. replace (S (S (S (S (S (S (S (S (length x.2)))))))) <=? 7)%nat with false by (symmetry; apply Nat.leb_gt; lia).
  replace (_ `min` length b)%nat with (length pre + length (mp4_box x.1 x.2))%nat by lia.
  case_bool_decide; [|done]. rewrite Hd. do 2 f_equal. rewrite Nat.add_comm, Nat.add_sub, take_app_length. done.
Qed.

Lemma boxes_walk boxes pre body rest fuel :
  Forall (fun x => box_ok x /\ x.1 <> moov) boxes -> box_ok (moov, body) -> (length boxes < fuel)%nat ->
  let box := mp4_box moov body in
  boxes_encrypted fuel (pre ++ concat (map (fun x => mp4_box x.1 x.2) boxes) ++ box ++ rest) (length pre) = Some (marked box).
Proof.
  intros Hf Hm. revert pre fuel. induction boxes as [|x boxes IH]; intros pre fuel Hl box; destruct fuel as [|fuel]; try (cbn in Hl; lia).
  - cbn [map concat]. rewrite app_nil_l. etransitivity; [exact (boxes_step fuel pre (moov, body) rest Hm)|].
    done.
  - apply Forall_cons in Hf as [[Hx Hne] Hf]. cbn [map concat]. rewrite <- app_assoc, boxes_step by done.
    rewrite bool_decide_false by done. rewrite (app_assoc pre), <- length_app. apply (IH Hf). cbn in Hl. lia.
Qed.

(** Whether a file is encrypted is read from its [moov] box and from nothing else: of
    a sequence of boxes before it, of any kind and contents, none counts, nor does what
    follows it, and the walk over the boxes always ends. *)
Theorem encrypted_exact boxes body rest :
  Forall (fun x => box_ok x /\ x.1 <> moov) boxes -> box_ok (moov, body) ->
  (forall b, is_Some (boxes_encrypted (S (length b)) b 0))
  /\ is_encrypted_mp4 (concat (map (fun x => mp4_box x.1 x.2) boxes) ++ mp4_box moov body ++ rest) = marked (mp4_box moov body).
Proof.
  intros Hf Hm. split; [intros b; apply boxes_end; lia|]. unfold is_encrypted_mp4.
  rewrite (boxes_walk boxes [] body rest); [done..|].
  pose proof (mp4_box_length (moov, body) eq_refl) as Hl. cbn [fst snd] in Hl. rewrite !length_app, Hl. assert (length boxes <= length (concat (map (fun x : bytes * bytes => mp4_box x.1 x.2) boxes)))%nat; [|lia].
  clear -Hf. induction Hf as [|x boxes [[Hk _] _] _ IH]; cbn [map concat length]; [done|]. rewrite length_app, mp4_box_length by done. lia.
Qed.

Module BoxSample.
Definition ftyp : bytes * bytes := (lit "ftyp", lit "iso6mp41").
Definition mdat : bytes * bytes := (lit "mdat", lit "enca in the audio").

Lemma encrypted_exact_witness :
  is_encrypted_mp4 (concat (map (fun x => mp4_box x.1 x.2) [ftyp; mdat]) ++ mp4_box moov (lit "..mp4a..") ++ []) = false
  /\ is_encrypted_mp4 (concat (map (fun x => mp4_box x.1 x.2) [ftyp]) ++ mp4_box moov (lit "..enca..") ++ []) = true.
Proof.
  split; (etransitivity;
    [refine (proj2 (encrypted_exact _ _ _ _ _)); [repeat constructor; vm_compute; congruence|split; vm_compute; reflexivity]
    |vm_compute; reflexivity]).
Defined.
End BoxSample.

Local Close Scope Z_scope.

(** * Downloads *)

(** ** Outcomes of a fetch *)

Lemma outcome_bind {E : Type -> Type} {A B} (p : program E A) (f : A -> program E B) r :
  outcome (p ≫= f) r <-> exists a, outcome p a /\ outcome (f a) r.
Proof.
  induction p as [a|X e k IH]; cbn.
  - split; [by exists a|]. by intros (a' & -> & H).
  - split.
    + intros [x [a [H1 H2]]%IH]. exists a. split; [by exists x|done].
    + intros (a & [x Hx] & H2). exists x. apply IH. by exists a.
Qed.

Lemma outcome_keeps {A} `{!Protocol Net Sent} (p : net A) s Q r : keeps s p Q -> outcome p r -> exists s', Q s' r.
Proof.
  revert s. induction p as [a|X e k IH]; intros s Hk Ho; cbn in *; [by subst a; exists s|].
  destruct Hk as [_ Hk], Ho as [x Ho]. by eapply IH; [apply (Hk x)|].
Qed.

Lemma http_valid r validate attempt more b h :
  outcome (http_bytes_from r validate attempt more) (Ok (b, h)) -> validate b h = true.
Proof.
  assert (forall answer res, read_answer validate answer = Finished res -> res = Ok (b, h) -> validate b h = true) as Hread.
  { intros answer res E ->. by destruct (read_answer_genuine _ _ _ {| http_left := 0; relay_left := 0; got := [] |} E b h). }
  revert attempt. induction more as [|more IH]; intros attempt; cbn -[read_answer]; intros (_ & answer & H);
    destruct (read_answer validate answer) as [res|e] eqn:E; cbn -[read_answer] in H; try done; try by eapply Hread.
  destruct H as [_ H]. by eapply IH.
Qed.

Section facts.
Context (parse_url : str -> option Url) (join_url : Url -> str -> option Url) (base64 : str -> str).
Context (relay_installed : bool) (proxy_url : str).

Lemma fetch_validated_ok url headers direct_only check data :
  outcome (fetch_validated parse_url base64 relay_installed proxy_url url headers direct_only (checked check)) (Ok data) ->
  checked check data ∅ = true.
Proof.
  unfold fetch_validated, try. intros [r [Hr Hd]]%outcome_bind. destruct r as [[b h]|e]; [|done]. cbn in Hd. injection Hd as ->.
  change (checked check data h = true). destruct direct_only; [by eapply http_valid|].
  destruct (outcome_keeps _ _ _ _ (fetch_discreet parse_url base64 relay_installed proxy_url url headers false (checked check)) Hr)
    as [s' Hs']. by destruct (Hs' data h eq_refl).
Qed.

(** ** What a download may do and has received *)

Record Download := {
  init_url : option str;
  segments : list str;
  asked : nat;
  refreshed : nat;
  arrived : list (nat * bytes);
  read : list (str * bytes);
  relayed : list bytes }.

Definition started : Download :=
  {| init_url := None; segments := []; asked := 0; refreshed := 0; arrived := []; read := []; relayed := [] |}.

(** At most three requests are in flight, for different segments of the current playlist
    that have not arrived; all in all no more than three for each segment, and two
    refreshed playlists. *)
Definition may_ask (s : Download) (in_flight : list (nat * str)) : Prop :=
  1 <= length in_flight <= HLS_CONCURRENCY /\ asked s < 3 * length (segments s) /\ NoDup in_flight.*1
  /\ Forall (fun x => segments s !! x.1 = Some x.2 /\ x.1 ∉ (arrived s).*1) in_flight.

Definition hls_protocol : Protocol Hls Download := {|
  permits := fun s A (e : Hls A) =>
    match e with
    | NextDone _ in_flight => may_ask s in_flight
    | Refresh => refreshed s < MAX_M3U8_REFRESH
    | _ => True
    end;
  after := fun s A (e : Hls A) =>
    match e in Hls A return A -> Download with
    | Fetch url _ _ check => fun r =>
        match r with
        | Ok data =>
            let source := match check with
                          | PlaylistBody => parse_m3u8 parse_url join_url (from_utf8_lossy data) url
                          | AudioBody => (init_url s, segments s)
                          end in
            {| init_url := source.1; segments := source.2; asked := asked s; refreshed := refreshed s;
               arrived := arrived s; read := (url, data) :: read s; relayed := relayed s |}
        | Err _ => s
        end
    | RelayMethod _ => fun a =>
        match a with
        | Some audio => {| init_url := init_url s; segments := segments s; asked := asked s; refreshed := refreshed s;
                           arrived := arrived s; read := read s; relayed := audio :: relayed s |}
        | None => s
        end
    | NextDone _ in_flight => fun d =>
        {| init_url := init_url s; segments := segments s; asked := S (asked s); refreshed := refreshed s;
           arrived := match in_flight !! d.1, d.2 with
                      | Some (idx, _), Ok data => (idx, data) :: arrived s
                      | _, _ => arrived s
                      end;
           read := read s; relayed := relayed s |}
    | Refresh => fun r =>
        {| init_url := init_url s; segments := match r with Ok (_, fresh) => fresh | Err _ => segments s end;
           asked := asked s; refreshed := S (refreshed s); arrived := arrived s; read := read s; relayed := relayed s |}
    end |}.

#[local] Instance the_answers : Answers Hls := hls_answers parse_url base64 relay_installed proxy_url.
#[local] Instance the_hls_protocol : Protocol Hls Download := hls_protocol.

(** ** A batch *)

(** The results are what has arrived. *)
Definition synced (s : Download) (results : list (option bytes)) : Prop :=
  length results = length (segments s)
  /\ (forall i c, results !! i = Some (Some c) <-> (i, c) ∈ arrived s)
  /\ Forall (fun x => is_valid_audio x.2 = true) (arrived s).

(** The requests of a batch: for segments that have not arrived. *)
Definition requests_ok (s : Download) (results : list (option bytes)) (reqs : list (nat * str)) : Prop :=
  NoDup reqs.*1 /\ Forall (fun x => segments s !! x.1 = Some x.2 /\ results !! x.1 = Some None) reqs.

(** What the batch leaves alone. *)
Definition same_playlist (s s' : Download) : Prop :=
  init_url s' = init_url s /\ segments s' = segments s /\ refreshed s' = refreshed s /\ read s' = read s /\ relayed s' = relayed s.

Lemma synced_arrival s results idx data url in_flight direct i :
  synced s results -> in_flight !! i = Some (idx, url) -> results !! idx = Some None -> is_valid_audio data = true ->
  synced (after s (NextDone direct in_flight) (i, Ok data)) (<[idx := Some data]> results).
Proof.
  intros (Hl & Ha & Hv) Hi Hn Hd. unfold synced. cbn. rewrite Hi. split_and!; [by rewrite length_insert| |by constructor].
  intros j c. rewrite elem_of_cons, <- Ha. destruct (decide (j = idx)) as [->|Hne].
  - rewrite list_lookup_insert_eq by (by eapply lookup_lt_Some). split; [intros [= ->]; by left|].
    intros [[= ->]|H]; [done|congruence].
  - rewrite list_lookup_insert_ne by done. split; [by right|]. by intros [[= ]|].
Qed.

Lemma requests_done s results reqs1 x reqs2 r direct in_flight i :
  requests_ok s results (reqs1 ++ x :: reqs2) ->
  requests_ok (after s (NextDone direct in_flight) (i, r)) (match r with Ok data => <[x.1 := Some data]> results | Err _ => results end)
    (reqs1 ++ reqs2).
Proof.
  intros [Hn Hf]. rewrite fmap_app, fmap_cons in Hn. apply NoDup_app in Hn as (N1 & N12 & [Nx N2]%NoDup_cons). split.
  - rewrite fmap_app. apply NoDup_app. split_and!; [done| |done]. intros y Hy Hy2. by apply (N12 y Hy), elem_of_cons; right.
  - apply Forall_app in Hf as [F1 F2%Forall_cons]. destruct F2 as [_ F2].
    assert (Forall (fun y : nat * str => y.1 <> x.1) (reqs1 ++ reqs2)) as Hne.
    { apply Forall_forall. intros y [Hy|Hy]%elem_of_app E.
      - apply (N12 y.1); [by apply list_elem_of_fmap_2|rewrite E; by left].
      - apply Nx. rewrite <- E. by apply list_elem_of_fmap_2. }
    assert (Forall (fun y : nat * str => segments s !! y.1 = Some y.2 /\ results !! y.1 = Some None) (reqs1 ++ reqs2)) as Hf by by apply Forall_app.
    eapply Forall_impl; [apply Forall_and; split; [exact Hne|exact Hf]|]. cbn. intros y (Hy & H1 & H2). split; [done|].
    destruct r; [|done]. by rewrite list_lookup_insert_ne by done.
Qed.
(** How a batch with [n] requests left stands. *)
Record batch_ok (s : Download) (bound n : nat) (in_flight waiting : list (nat * str)) (results : list (option bytes))
    (failed : list nat) : Prop := {
  batch_synced : synced s results;
  batch_requests : requests_ok s results (in_flight ++ waiting);
  batch_count : length in_flight + length waiting = n;
  batch_full : length in_flight = HLS_CONCURRENCY \/ (length in_flight < HLS_CONCURRENCY /\ waiting = []);
  batch_missing : forall i, results !! i = Some None -> i ∈ (in_flight ++ waiting).*1 \/ i ∈ failed;
  batch_asked : asked s + n <= bound }.

Lemma batch_may_ask s bound n in_flight waiting results failed :
  batch_ok s bound (S n) in_flight waiting results failed -> bound <= 3 * length (segments s) -> may_ask s in_flight.
Proof.
  intros [(Hl & Ha & Hv) [Hn Hf] Hc Hfull Hm Has] Hb. rewrite fmap_app in Hn. apply NoDup_app in Hn as [Hn _].
  apply Forall_app in Hf as [Hf _]. split_and!.
  - destruct Hfull as [?|[? ->]]; unfold HLS_CONCURRENCY in *; cbn in *; lia.
  - destruct Hfull as [?|[? _]]; lia.
  - lia.
  - done.
  - eapply Forall_impl; [exact Hf|]. cbn. intros x [H1 H2]. split; [done|].
    intros ([j c] & Hx & Hin%Ha)%list_elem_of_fmap. cbn in Hx. subst j. congruence.
Qed.

Lemma batch_step s bound n in_flight waiting results failed direct i idx url r :
  batch_ok s bound (S n) in_flight waiting results failed -> in_flight !! i = Some (idx, url) ->
  (forall data, r = Ok data -> is_valid_audio data = true) ->
  batch_ok (after s (NextDone direct in_flight) (i, r)) bound n (delete i in_flight ++ take 1 waiting) (drop 1 waiting)
    (match r with Ok data => <[idx := Some data]> results | Err _ => results end)
    (match r with Ok _ => failed | Err _ => failed ++ [idx] end).
Proof.
  intros [Hs Hr Hc Hfull Hm Has] Hi Hvalid. pose proof (lookup_lt_Some _ _ _ Hi) as Hlt.
  assert (delete i in_flight = take i in_flight ++ drop (S i) in_flight) as Hdel by apply delete_take_drop.
  assert (in_flight = take i in_flight ++ (idx, url) :: drop (S i) in_flight) as Hsplit by (by rewrite take_drop_middle).
  assert ((delete i in_flight ++ take 1 waiting) ++ drop 1 waiting = take i in_flight ++ (drop (S i) in_flight ++ waiting)) as Hrest.
  { rewrite <- app_assoc, take_drop, Hdel, <- app_assoc. done. }
  assert (in_flight ++ waiting = take i in_flight ++ (idx, url) :: (drop (S i) in_flight ++ waiting)) as Hall.
  { rewrite Hsplit at 1. by rewrite <- app_assoc. }
  assert (results !! idx = Some None) as Hnone.
  { destruct Hr as [_ [Hf _]%Forall_app]. by destruct (Forall_lookup_1 _ _ _ _ Hf Hi). }
  assert (length (delete i in_flight) = length in_flight - 1) as Hld by (by apply length_delete).
  split.
  - destruct r as [data|e]; [by eapply synced_arrival; eauto|]. destruct Hs as (? & ? & ?). split_and!; try done; cbn; rewrite Hi; done.
  - rewrite Hrest. rewrite Hall in Hr. by apply (requests_done s results _ (idx, url) _ r direct in_flight i) in Hr.
  - rewrite length_app, length_take, length_drop. lia.
  - rewrite length_app, length_take. destruct waiting as [|w waiting]; cbn.
    + right. split; [destruct Hfull as [?|[? _]]; lia|done].
    + destruct Hfull as [?|[_ [=]]]. left. lia.
  - intros j Hj. rewrite Hrest. destruct (decide (j = idx)) as [->|Hne].
    + destruct r as [data|e]; [by rewrite list_lookup_insert_eq in Hj by (by eapply lookup_lt_Some)|]. right. set_solver.
    + assert (results !! j = Some None) as Hj' by (destruct r; [by rewrite list_lookup_insert_ne in Hj|done]).
      apply Hm in Hj'. rewrite Hall in Hj'. destruct Hj' as [Hj'|Hj'].
      * left. rewrite fmap_app, fmap_cons in Hj'. rewrite fmap_app. set_solver.
      * right. destruct r; set_solver.
  - cbn. lia.
Qed.

Lemma keeps_batch direct n s bound in_flight waiting results failed Q :
  batch_ok s bound n in_flight waiting results failed -> bound <= 3 * length (segments s) ->
  (forall s' results' failed', batch_ok s' bound 0 [] [] results' failed' -> same_playlist s s' ->
     Q s' (results', failed')) ->
  keeps s (batch_from direct n in_flight waiting results failed) Q.
Proof.
  revert s in_flight waiting results failed. induction n as [|n IH]; intros s in_flight waiting results failed Hb Hle HQ.
  - pose proof (batch_count _ _ _ _ _ _ _ Hb). destruct in_flight, waiting; cbn in *; try lia. by apply HQ.
  - split; [by eapply batch_may_ask|]. intros [i r] (idx & url & Hi & Ho). cbn in Hi, Ho.
    assert (forall data, r = Ok data -> is_valid_audio data = true) as Hvalid.
    { intros data ->. by apply fetch_validated_ok in Ho. }
    pose proof (batch_step _ _ _ _ _ _ _ direct _ _ _ _ Hb Hi Hvalid) as Hb'. cbn [fst snd]. cbn -[after batch_from].
    rewrite Hi. destruct r as [data|e]; cbn -[after batch_from]; (eapply IH; [exact Hb'|done|]);
      intros s' results' failed' Hs' Hsame; (apply HQ; [done|]); destruct Hsame as (?&?&?&?&?); done.
Qed.
(** ** The loop *)

Lemma pending_spec results i : i ∈ pending results <-> results !! i = Some None.
Proof.
  unfold pending. rewrite retain_In, elem_of_seq. destruct (results !! i) as [[c|]|] eqn:E; split; try (by intros [_ ?]); try done.
  intros _. apply lookup_lt_Some in E. split; [lia|done].
Qed.

Lemma pending_NoDup results : NoDup (pending results).
Proof. unfold pending, retain. apply NoDup_ListNoDup, List.NoDup_filter, NoDup_ListNoDup, NoDup_seq. Qed.

Lemma pending_length results : length (pending results) <= length results.
Proof. unfold pending. rewrite retain_length. by rewrite length_seq. Qed.

Lemma batch_start s results bound :
  synced s results -> asked s + length (pending results) <= bound ->
  let requests := map (fun idx => (idx, nth idx (segments s) [])) (pending results) in
  batch_ok s bound (length (pending results)) (take HLS_CONCURRENCY requests) (drop HLS_CONCURRENCY requests) results [].
Proof.
  intros Hs Hb requests.
  assert (requests.*1 = pending results) as Hfst.
  { unfold requests. generalize (pending results). induction l as [|x l IH]; cbn; [done|]. by rewrite IH. }
  assert (length requests = length (pending results)) as Hlen by apply length_map.
  split; [done| | | | |done].
  - rewrite take_drop. split; [rewrite Hfst; apply pending_NoDup|]. apply Forall_forall. intros [i u] Hin.
    unfold requests in Hin. apply list_elem_of_In, in_map_iff in Hin as (j & [= <- <-] & Hj%list_elem_of_In%pending_spec). cbn.
    split; [|done]. destruct Hs as [Hl _]. apply lookup_lt_Some in Hj. destruct (lookup_lt_is_Some_2 (segments s) j) as [x Hx]; [lia|].
    by rewrite Hx, (nth_lookup_Some _ _ _ _ Hx).
  - rewrite length_take, length_drop. lia.
  - rewrite length_take. destruct (decide (HLS_CONCURRENCY <= length requests)); [left; lia|]. right. split; [lia|].
    apply drop_ge. lia.
  - intros i Hi. left. by rewrite take_drop, Hfst, pending_spec.
Qed.

Definition loop_result (s s' : Download) (r : option (result (list (option bytes)) str)) : Prop :=
  init_url s' = init_url s /\ read s' = read s
  /\ exists res, r = Some res /\ forall results, res = Ok results -> synced s' results /\ pending results = [].

(** With [fuel] iterations left after [u] refreshed playlists. *)
Definition loop_ok (fuel u : nat) (s : Download) (results : list (option bytes)) : Prop :=
  synced s results /\ refreshed s = u
  /\ ((pending results = [] /\ 1 <= fuel) \/ (u <= MAX_M3U8_REFRESH /\ asked s <= u * length (segments s) /\ 4 - u <= fuel)).

Lemma keeps_loop fuel direct has_refresher s0 s results u :
  init_url s = init_url s0 -> read s = read s0 -> loop_ok fuel u s results ->
  keeps s (segments_loop fuel direct has_refresher (segments s) results u) (loop_result s0).
Proof.
  revert s results u. induction fuel as [|fuel IH]; intros s results u Hi Hr (Hs & Hu & Hf).
  { unfold MAX_M3U8_REFRESH in Hf. lia. }
  cbn [segments_loop]. case_bool_decide as Hp.
  { split_and!; [done..|]. exists (Ok results). split; [done|]. by intros ? [= <-]. }
  destruct Hf as [[? _]|(Hu2 & Ha & Hf)]; [done|]. unfold MAX_M3U8_REFRESH in *.
  assert (length (pending results) <= length (segments s)) as Hlen by (destruct Hs as [<- _]; apply pending_length).
  apply keeps_bind. eapply (keeps_batch _ _ s ((u + 1) * length (segments s)));
    [apply batch_start; [done|lia]|nia|].
  intros s' results' failed [Hs' _ _ _ Hm Ha'] (Hi' & Hseg & Href & Hread & _). rewrite Nat.add_0_r in Ha'.
  assert (failed = [] -> pending results' = []) as Hnone.
  { intros ->. apply elem_of_nil_inv. intros x Hx%pending_spec%Hm. set_solver. }
  assert (forall s2 e, init_url s2 = init_url s' -> read s2 = read s' -> loop_result s0 s2 (Some (Err e))) as Herr.
  { intros s2 e ??. split_and!; [congruence..|]. by exists (Err e). }
  case_bool_decide as Hfail.
  { rewrite <- Hseg. apply IH; [congruence..|]. split_and!; [done|congruence|]. left. split; [by apply Hnone|lia]. }
  destruct has_refresher; cbn [negb]; [|by apply Herr]. destruct (Nat.leb_spec 2 u); [by apply Herr|].
  apply keeps_bind. split; [cbn; unfold MAX_M3U8_REFRESH; lia|]. intros [[fi fresh]|e] _; cbn [keeps]; [|by apply Herr].
  destruct (Nat.eqb_spec (length fresh) (length (segments s))) as [El|]; [|by apply Herr].
  set (s2 := after s' Refresh (Ok (fi, fresh))). change fresh with (segments s2). apply (IH s2); cbn; [congruence..|]. split_and!; cbn; [|congruence|].
  - destruct Hs' as (H1 & H2 & H3). split_and!; cbn; [congruence|done..].
  - right. rewrite El. unfold MAX_M3U8_REFRESH. split_and!; [lia| |lia]. clear -Ha'. lia.
Qed.

Lemma all_arrived results : pending results = [] -> exists chunks, results = Some <$> chunks.
Proof.
  intros Hp. exists (omap id results). apply list_eq. intros i. rewrite list_lookup_fmap.
  assert (forall i, results !! i <> Some None) as Hn. { intros j Hj%pending_spec. rewrite Hp in Hj. by apply elem_of_nil in Hj. }
  clear Hp. revert i Hn. induction results as [|[c|] results IH]; intros i Hn; cbn.
  - done.
  - destruct i; [done|]. apply IH. intros j. apply (Hn (S j)).
  - by destruct (Hn 0).
Qed.

(** ** What is returned *)

(** Audio from the relay, or the parts of the playlist in its order: the head it names,
    and for every segment a body that came for it. *)
Definition whole_track (s : Download) (body : bytes) : Prop :=
  (body ∈ relayed s /\ is_encrypted_mp4 body = false)
  \/ exists init chunks, body = init ++ concat chunks /\ length chunks = length (segments s)
       /\ (forall i c, chunks !! i = Some c -> (i, c) ∈ arrived s /\ is_valid_audio c = true)
       /\ match init_url s with
          | None => init = []
          | Some url => (url, init) ∈ read s /\ is_valid_audio init = true /\ is_encrypted_mp4 init = false
          end.

Definition track_result (s : Download) (r : option (result (bytes * str) str)) : Prop :=
  exists res, r = Some res /\ forall body content_type, res = Ok (body, content_type) -> whole_track s body.

Lemma keeps_segments fuel mime direct has_refresher buf s :
  MAX_M3U8_REFRESH + 2 <= fuel -> asked s = 0 -> refreshed s = 0 -> arrived s = [] ->
  match init_url s with
  | None => buf = []
  | Some url => (url, buf) ∈ read s /\ is_valid_audio buf = true /\ is_encrypted_mp4 buf = false
  end ->
  keeps s (download_segments fuel mime direct has_refresher buf (segments s)) track_result.
Proof.
  intros Hf Ha Hr Harr Hbuf. apply keeps_bind. eapply keeps_impl; [|apply (keeps_loop _ _ _ s); [done..|]].
  - intros s' r (Hi & Hrd & res & -> & Hres). exists (match res with Ok results => Ok (buf ++ flatten results, mime_to_content_type mime) | Err e => Err e end).
    split; [by destruct res|]. intros body ct Hok. destruct res as [results|e]; [|done]. injection Hok as <- _.
    destruct (Hres results eq_refl) as [(Hl & Har & Hv) Hp]. apply all_arrived in Hp as [chunks ->]. right. exists buf, chunks. split_and!.
    + f_equal. unfold flatten. f_equal. clear. induction chunks as [|c chunks IH]; cbn; [done|]. by rewrite IH.
    + by rewrite length_fmap in Hl.
    + intros i c Hc. assert ((i, c) ∈ arrived s') as Hin by (apply Har; by rewrite list_lookup_fmap, Hc). split; [done|].
      by rewrite Forall_forall in Hv; apply (Hv (i, c)).
    + by rewrite Hi, Hrd.
  - split_and!; [|done|right; unfold MAX_M3U8_REFRESH in *; lia]. split_and!; [by rewrite length_replicate| |by rewrite Harr].
    intros i c. rewrite Harr. split; [intros [[=] _]%lookup_replicate|by intros []%elem_of_nil].
Qed.
Lemma keeps_playlist fuel m3u8_url mime headers direct has_refresher s :
  MAX_M3U8_REFRESH + 2 <= fuel -> asked s = 0 -> refreshed s = 0 -> arrived s = [] ->
  keeps s
    (source ← fetch_m3u8_source parse_url join_url m3u8_url headers direct;
     match source with
     | Err e => mret (Some (Err e))
     | Ok (None, segment_urls) => download_segments fuel mime direct has_refresher [] segment_urls
     | Ok (Some init, segment_urls) =>
         data ← trigger (Fetch init ∅ direct AudioBody);
         match data with
         | Err e => mret (Some (Err e))
         | Ok data =>
             if is_encrypted_mp4 data then mret (Some (Err (lit "unsupported stream")))
             else download_segments fuel mime direct has_refresher data segment_urls
         end
     end) track_result.
Proof.
  intros Hf Ha Hr Harr. assert (forall s e, track_result s (Some (Err e))) as Herr by (intros s' e; by exists (Err e)).
  apply keeps_bind, keeps_try. split; [done|]. intros [text|e] _; cbn -[download_segments parse_m3u8 is_encrypted_mp4]; [|apply Herr].
  case_bool_decide; [apply Herr|].
  destruct (parse_m3u8 parse_url join_url (from_utf8_lossy text) m3u8_url) as [[init|] segs] eqn:E; cbn -[download_segments is_encrypted_mp4].
  - split; [done|]. intros [data|e] Hdata; cbn -[download_segments is_encrypted_mp4]; [|apply Herr]. destruct (is_encrypted_mp4 data) eqn:Ee; [exact (Herr _ _)|].
    apply fetch_validated_ok in Hdata.
    refine (keeps_segments fuel mime direct has_refresher data
              {| init_url := Some init; segments := segs; asked := asked s; refreshed := refreshed s; arrived := arrived s;
                 read := (init, data) :: (m3u8_url, text) :: read s; relayed := relayed s |} Hf Ha Hr Harr _).
    cbn -[is_encrypted_mp4]. split_and!; [left|exact Hdata|exact Ee].
  - exact (keeps_segments fuel mime direct has_refresher []
             {| init_url := None; segments := segs; asked := asked s; refreshed := refreshed s; arrived := arrived s;
                read := (m3u8_url, text) :: read s; relayed := relayed s |} Hf Ha Hr Harr eq_refl).
Qed.
End facts.

(** C21: A download always ends, and what it returns is the whole track.  Whatever the
    network, the relay and the refreshed playlists answer and in whatever order requests
    finish, the loop ends within four rounds: never more than three requests in flight,
    each for a segment that has not arrived, at most three per segment and two refreshed
    playlists.  A body it returns is what the relay gave, not encrypted, or the head the
    playlist names followed by exactly one received piece of audio per segment, in order. *)
Theorem download_ends parse_url join_url base64 relay_installed proxy_url more m3u8_url mime headers direct_only has_refresher :
  @keeps Hls (hls_answers parse_url base64 relay_installed proxy_url) Download (hls_protocol parse_url join_url) _ started
    (download_hls parse_url join_url relay_installed (MAX_M3U8_REFRESH + 2 + more) m3u8_url mime headers direct_only has_refresher)
    track_result.
Proof.
  unfold download_hls, audio_via_relay. set (fuel := MAX_M3U8_REFRESH + 2 + more).
  assert (MAX_M3U8_REFRESH + 2 <= fuel) as Hf by (unfold fuel; lia).
  destruct direct_only; [by apply keeps_playlist|]. destruct relay_installed; [|by apply keeps_playlist].
  apply keeps_bind, keeps_bind. split; [done|]. intros [audio|] _; cbn [keeps mret program_ret trigger]; [|by apply keeps_playlist].
  destruct (is_encrypted_mp4 audio) eqn:Ee; [by apply keeps_playlist|].
  destruct (begins_as_audio audio) eqn:Eb; [|by apply keeps_playlist].
  eexists. split; [done|]. intros body ct [= <- _]. left. split; [left|done].
Qed.

(** ** A run *)

Module HlsSample.
Import TargetSample.

(** A result reached with possible answers. *)
Fixpoint reaches {E : Type -> Type} `{!Answers E} {A} (p : program E A) (r : A) : Prop :=
  match p with Ret a => a = r | Vis e k => exists x, possible e x /\ reaches (k x) r end.

Lemma direct_outcome url headers check data :
  checked check data ∅ = true ->
  outcome (fetch_validated parse_sample id false [] url headers true (checked check)) (Ok data).
Proof.
  intros Hc. exists tt, (Ok {| status := 200; reply_headers := ∅; reply_body := Ok data |}).
  cbn -[checked]. rewrite Hc. done.
Qed.

#[local] Instance sample_answers : Answers Hls := hls_answers parse_sample id false [].

(** A playlist of two segments, the second done first, and the first only when it is
    asked for again from a refreshed playlist. *)
Example downloaded_out_of_order :
  reaches (download_hls parse_sample join_sample false (MAX_M3U8_REFRESH + 2) manifest_url (lit "audio/mpeg") ∅ true true)
    (Some (Ok (lit "ID3 one" ++ lit "ID3 two", lit "audio/mpeg"))).
Proof.
  exists (Ok (lit "#EXTM3U" ++ [10%Z] ++ lit "a.mp3" ++ [10%Z] ++ lit "b.mp3")). split; [by apply direct_outcome|].
  exists (1, Ok (lit "ID3 two")). split; [exists 1, (url_str (cdn (lit "b.mp3"))); split; [done|by apply direct_outcome]|].
  exists (0, Err (lit "status 403")). split.
  { exists 0, (url_str (cdn (lit "a.mp3"))). split; [done|]. exists tt, (Ok {| status := 403; reply_headers := ∅; reply_body := Ok [] |}). done. }
  exists (Ok (None, [url_str (cdn (lit "c.mp3")); url_str (cdn (lit "d.mp3"))])). split; [done|].
  exists (0, Ok (lit "ID3 one")). split; [exists 0, (url_str (cdn (lit "c.mp3"))); split; [done|by apply direct_outcome]|].
  vm_compute. done.
Qed.
End HlsSample.
