(* ===== verification/StreamSlots.v ===== *)
(** * StreamSlots: what the streaming service keeps count of

    Source: [streaming/src/stream/free_hq.rs] (slots for free listeners and the tracks
    that had no better copy), [upload_slots.rs], and the memory of [egress.rs] (which
    region sees a track).  An instant is a number of milliseconds; a mutex makes an
    operation one step; dropping a slot is an operation of its own. *)

From Stdlib Require Import ZArith Lia String.
From stdpp Require Import base list numbers option tactics sets gmap.
From S2P Require Import Prelude Text Sequences NetAddress.
Local Open Scope Z_scope.

(** [Instant::duration_since], which saturates. *)
Definition since (now at_ : Z) : Z := Z.max 0 (now - at_).

(** ** Free slots *)

Definition BUSY_RETRY_AFTER : Z := 30000.
Definition SHUT_RETRY_AFTER : Z := 600000.
Definition SLOTS_PER_SESSION : nat := 2.
Definition MISS_KEPT_FOR : Z := 15 * 60 * 1000.
Definition MISS_SWEEP_EVERY : Z := 60 * 1000.
Definition MISSES_AT_MOST : nat := Z.to_nat 50000.

Record Held := { total : nat; by_session : gmap str nat }.
Record Pool := { pool_size : nat; held : Held }.
Record Misses := { at_times : gmap str Z; swept : option Z }.
Record FreeHq := { streams : Pool; downloads : Pool; misses : Misses }.

Inductive Gate := Open (slot : bool) | Busy (retry_after : Z) | MissedLately.

Definition pool_new (n : nat) : Pool := {| pool_size := n; held := {| total := 0; by_session := ∅ |} |}.
Definition free_hq_new (fetches : nat) : FreeHq :=
  {| streams := pool_new fetches; downloads := pool_new fetches; misses := {| at_times := ∅; swept := None |} |}.

Definition take_slot (p : Pool) (session : str) : bool * Pool :=
  let mine := default 0%nat (by_session (held p) !! session) in
  if ((pool_size p <=? total (held p)) || (SLOTS_PER_SESSION <=? mine))%nat then (false, p)
  else (true, {| pool_size := pool_size p;
                 held := {| total := S (total (held p)); by_session := <[session := S mine]> (by_session (held p)) |} |}).

Definition retry_after (p : Pool) : Z := if (pool_size p =? 0)%nat then SHUT_RETRY_AFTER else BUSY_RETRY_AFTER.

(** The [Drop] of a slot; [total] is a [usize]. *)
Definition drop_slot (p : Pool) (session : str) : Pool :=
  {| pool_size := pool_size p;
     held := {| total := pred (total (held p));
                by_session := match by_session (held p) !! session with
                              | Some mine => if (pred mine =? 0)%nat then delete session (by_session (held p))
                                             else <[session := pred mine]> (by_session (held p))
                              | None => by_session (held p)
                              end |} |}.

Definition missed_lately (m : Misses) (track_urn : str) (now : Z) : bool :=
  match at_times m !! track_urn with Some at_ => since now at_ <? MISS_KEPT_FOR | None => false end.

Definition sweep_due (swept : option Z) (every now : Z) : bool :=
  match swept with Some at_ => every <=? since now at_ | None => true end.

Definition note_miss_at (m : Misses) (track_urn : str) (now : Z) : Misses :=
  let m := if (MISSES_AT_MOST <=? size (at_times m))%nat && sweep_due (swept m) MISS_SWEEP_EVERY now then
             {| at_times := filter (fun e => since now e.2 < MISS_KEPT_FOR) (at_times m); swept := Some now |}
           else m in
  if (size (at_times m) <? MISSES_AT_MOST)%nat then
    {| at_times := <[track_urn := now]> (at_times m); swept := swept m |}
  else m.

Definition open_pool (f : FreeHq) (p : Pool) (track_urn session : str) (now : Z) : Gate * Pool :=
  if missed_lately (misses f) track_urn now then (MissedLately, p)
  else let '(taken, p') := take_slot p session in
       if taken then (Open true, p') else (Busy (retry_after p), p').

Definition gate (f : FreeHq) (track_urn session : str) (is_premium : bool) (now : Z) : Gate * FreeHq :=
  if is_premium then (Open false, f)
  else let '(g, p) := open_pool f (streams f) track_urn session now in
       (g, {| streams := p; downloads := downloads f; misses := misses f |}).

Definition download_gate (f : FreeHq) (track_urn session : str) (now : Z) : Gate * FreeHq :=
  let '(g, p) := open_pool f (downloads f) track_urn session now in
  (g, {| streams := streams f; downloads := p; misses := misses f |}).

Definition note_miss (f : FreeHq) (track_urn : str) (now : Z) : FreeHq :=
  {| streams := streams f; downloads := downloads f; misses := note_miss_at (misses f) track_urn now |}.

Definition drop_stream (f : FreeHq) (session : str) : FreeHq :=
  {| streams := drop_slot (streams f) session; downloads := downloads f; misses := misses f |}.
Definition drop_download (f : FreeHq) (session : str) : FreeHq :=
  {| streams := streams f; downloads := drop_slot (downloads f) session; misses := misses f |}.

(** ** Upload slots *)

Record UploadSlots := { uploads : nat; running : gset str }.

Definition half_free (u : UploadSlots) : bool := (size (running u) * 2 <=? uploads u)%nat.

Definition take_upload (u : UploadSlots) (track_urn : str) : bool * UploadSlots :=
  if (uploads u <=? size (running u))%nat then (false, u)
  else if bool_decide (track_urn ∈ running u) then (false, u)
  else (true, {| uploads := uploads u; running := {[track_urn]} ∪ running u |}).

Definition drop_upload (u : UploadSlots) (track_urn : str) : UploadSlots :=
  {| uploads := uploads u; running := running u ∖ {[track_urn]} |}.

(** ** Regions *)

Definition REGION_KEPT_FOR : Z := 24 * 60 * 60 * 1000.
Definition NOWHERE_KEPT_FOR : Z := 60 * 60 * 1000.
Definition SWEEP_EVERY : Z := 60 * 1000.
Definition TRACKS_AT_MOST : nat := Z.to_nat 50000.

Inductive Known := Unknown | Region (region : str) | Nowhere.
Global Instance Known_eq_dec : EqDecision Known.
Proof. solve_decision. Defined.

Record Seen := { tracks : gmap str (Z * option nat); seen_swept : option Z }.
Record Egress := { regions : list str; seen : Seen }.

Definition egress_new (regions : list str) : Egress :=
  {| regions := regions; seen := {| tracks := ∅; seen_swept := None |} |}.

Definition kept_for (region : option nat) : Z :=
  match region with Some _ => REGION_KEPT_FOR | None => NOWHERE_KEPT_FOR end.

Definition known_at (e : Egress) (track_id : str) (now : Z) : Known :=
  match tracks (seen e) !! track_id with
  | Some (at_, region) =>
      if since now at_ <? kept_for region then
        match region with
        | Some index => match regions e !! index with Some r => Region r | None => Unknown end
        | None => Nowhere
        end
      else Unknown
  | None => Unknown
  end.

Definition note_at (e : Egress) (track_id : str) (region : option nat) (now : Z) : Egress :=
  let s := seen e in
  let s := if (TRACKS_AT_MOST <=? size (tracks s))%nat && sweep_due (seen_swept s) SWEEP_EVERY now then
             {| tracks := filter (fun x => since now x.2.1 < kept_for x.2.2) (tracks s); seen_swept := Some now |}
           else s in
  {| regions := regions e;
     seen := if (size (tracks s) <? TRACKS_AT_MOST)%nat || bool_decide (is_Some (tracks s !! track_id)) then
               {| tracks := <[track_id := (now, region)]> (tracks s); seen_swept := seen_swept s |}
             else s |}.

Definition remember (e : Egress) (track_id region : str) (now : Z) : Egress :=
  match position (fun r => bool_decide (r = region)) (regions e) with
  | Some index => note_at e track_id (Some index) now
  | None => e
  end.

Definition remember_nowhere (e : Egress) (track_id : str) (now : Z) : Egress := note_at e track_id None now.

Definition forget (e : Egress) (track_id : str) : Egress :=
  {| regions := regions e;
     seen := {| tracks := delete track_id (tracks (seen e)); seen_swept := seen_swept (seen e) |} |}.

Definition readable_tag (tag : str) : bool :=
  negb (bool_decide (tag = []))
  && forallb (fun c => is_ascii_digit c || is_ascii_lowercase c || is_ascii_uppercase c || (c =? 45) || (c =? 95)) tag.

Definition parse_regions (raw : str) : list str :=
  foldl (fun regions tag =>
    let tag := map to_ascii_lowercase (trim tag) in
    if readable_tag tag && negb (bool_decide (tag ∈ regions)) then regions ++ [tag] else regions)
  [] (split_char 44 raw).

(** * Slots are counted exactly, memories are bounded and honest *)

Local Close Scope Z_scope.

(** ** A pool and the slots out of it *)

Definition held_by (session : str) (out : list str) : nat := length (retain (fun s => bool_decide (s = session)) out).

(** [out] are the sessions of the slots that were taken and not dropped. *)
Definition pool_ok (out : list str) (p : Pool) : Prop :=
  total (held p) = length out /\ length out <= pool_size p
  /\ forall s, by_session (held p) !! s = (if held_by s out =? 0 then None else Some (held_by s out))
               /\ held_by s out <= SLOTS_PER_SESSION.

#[local] Arguments held_by : simpl never.

Lemma held_by_cons s x out : held_by s (x :: out) = (if bool_decide (x = s) then 1 else 0) + held_by s out.
Proof. unfold held_by, retain. cbn. by case_bool_decide. Qed.

Lemma held_by_delete s i x out : out !! i = Some x -> held_by s out = (if bool_decide (x = s) then 1 else 0) + held_by s (delete i out).
Proof.
  intros H. pose proof (delete_Permutation _ _ _ H) as Hp. rewrite <- held_by_cons. unfold held_by, retain. clear H. induction Hp; cbn; repeat case_bool_decide; cbn; try done; lia.
Qed.

Lemma by_session_default p out s : pool_ok out p -> default 0 (by_session (held p) !! s) = held_by s out.
Proof. intros (_ & _ & H). destruct (H s) as [-> _]. by destruct (Nat.eqb_spec (held_by s out) 0). Qed.

Lemma take_slot_spec p out s :
  pool_ok out p ->
  match take_slot p s with
  | (true, p') => length out < pool_size p /\ held_by s out < SLOTS_PER_SESSION /\ pool_ok (s :: out) p' /\ pool_size p' = pool_size p
  | (false, p') => p' = p /\ (length out = pool_size p \/ held_by s out = SLOTS_PER_SESSION)
  end.
Proof.
  intros Hok. unfold take_slot. rewrite (by_session_default p out s Hok). pose proof Hok as (Ht & Hl & Hs). rewrite Ht.
  destruct (Hs s) as [_ Hmine]. destruct (Nat.leb_spec (pool_size p) (length out)); cbn [orb]; [split; [done|left; lia]|].
  destruct (Nat.leb_spec SLOTS_PER_SESSION (held_by s out)); [split; [done|right; lia]|].
  split_and!; [lia|lia| |done]. split_and!; cbn; [lia|lia|]. intros s'. rewrite held_by_cons.
  destruct (Hs s') as [Hb Hm]. case_bool_decide as E; [subst s'|].
  - rewrite lookup_insert_eq. split; [done|lia].
  - rewrite lookup_insert_ne by done. done.
Qed.

Lemma drop_slot_spec p out i s : pool_ok out p -> out !! i = Some s -> pool_ok (delete i out) (drop_slot p s).
Proof.
  intros (Ht & Hl & Hs) Hi. pose proof (lookup_lt_Some _ _ _ Hi). unfold drop_slot. split_and!; cbn.
  - rewrite length_delete by done. lia.
  - rewrite length_delete by done. lia.
  - intros s'. pose proof (held_by_delete s' i s out Hi) as Hd. destruct (Hs s') as [Hb Hm], (Hs s) as [Hb' _].
    split; [|lia]. rewrite Hb'. pose proof (held_by_delete s i s out Hi) as Hd'. rewrite bool_decide_true in Hd' by done.
    destruct (Nat.eqb_spec (held_by s out) 0); [lia|]. case_bool_decide as E.
    + subst s'. rewrite Hd'. cbn [pred Nat.add].
      destruct (Nat.eqb_spec (held_by s (delete i out)) 0); [by rewrite lookup_delete_eq|by rewrite lookup_insert_eq].
    + destruct (Nat.eqb_spec (pred (held_by s out)) 0); [rewrite lookup_delete_ne by done|rewrite lookup_insert_ne by done];
        rewrite Hb; by replace (held_by s' (delete i out)) with (held_by s' out) by lia.
Qed.

(** ** The service's use of them *)

Inductive Event :=
| Play (track session : str) (premium : bool) (now : Z)
| Save (track session : str) (now : Z)
| NoHq (track : str) (now : Z)
| PlayEnds (i : nat)
| SaveEnds (i : nat).

(** The sessions of the slots out, of streams and of downloads. *)
Record Running := { service : FreeHq; playing : list str; saving : list str }.

Definition took (g : Gate) (session : str) (out : list str) : list str :=
  match g with Open true => session :: out | _ => out end.

Definition happen (r : Running) (e : Event) : Running :=
  match e with
  | Play track session premium now =>
      let '(g, f) := gate (service r) track session premium now in
      {| service := f; playing := took g session (playing r); saving := saving r |}
  | Save track session now =>
      let '(g, f) := download_gate (service r) track session now in
      {| service := f; playing := playing r; saving := took g session (saving r) |}
  | NoHq track now => {| service := note_miss (service r) track now; playing := playing r; saving := saving r |}
  | PlayEnds i =>
      match playing r !! i with
      | Some s => {| service := drop_stream (service r) s; playing := delete i (playing r); saving := saving r |}
      | None => r
      end
  | SaveEnds i =>
      match saving r !! i with
      | Some s => {| service := drop_download (service r) s; playing := playing r; saving := delete i (saving r) |}
      | None => r
      end
  end.

Definition at_start (fetches : nat) : Running := {| service := free_hq_new fetches; playing := []; saving := [] |}.

Definition counted (fetches : nat) (r : Running) : Prop :=
  pool_ok (playing r) (streams (service r)) /\ pool_ok (saving r) (downloads (service r))
  /\ pool_size (streams (service r)) = fetches /\ pool_size (downloads (service r)) = fetches
  /\ size (at_times (misses (service r))) <= MISSES_AT_MOST.

Lemma pool_new_ok n : pool_ok [] (pool_new n).
Proof. split_and!; cbn; [done|lia|]. intros s. unfold held_by. split; [done|cbn; lia]. Qed.

Lemma note_miss_bounded m track now : size (at_times m) <= MISSES_AT_MOST -> size (at_times (note_miss_at m track now)) <= MISSES_AT_MOST.
Proof.
  intros H. unfold note_miss_at. set (m' := if (_ && _)%bool then _ else m).
  assert (size (at_times m') <= MISSES_AT_MOST) as Hm'.
  { unfold m'. destruct (_ && _)%bool; [|done]. cbn. etrans; [apply map_size_filter|done]. }
  destruct (Nat.ltb_spec (size (at_times m')) MISSES_AT_MOST); [|done]. cbn. rewrite map_size_insert. by destruct (at_times m' !! track).
Qed.

Lemma open_pool_spec f p out track session now :
  pool_ok out p ->
  let '(g, p') := open_pool f p track session now in
  pool_ok (took g session out) p' /\ pool_size p' = pool_size p
  /\ g = if missed_lately (misses f) track now then MissedLately
         else if (length out <? pool_size p) && (held_by session out <? SLOTS_PER_SESSION) then Open true
         else Busy (if pool_size p =? 0 then SHUT_RETRY_AFTER else BUSY_RETRY_AFTER).
Proof.
  intros Hok. unfold open_pool. destruct (missed_lately _ _ _); [done|]. pose proof (take_slot_spec p out session Hok) as H.
  pose proof Hok as (_ & Hl & _).
  destruct (take_slot p session) as [[] p'].
  - destruct H as (H1 & H2 & H3 & H4). split_and!; [done|done|].
    by rewrite (proj2 (Nat.ltb_lt _ _) H1), (proj2 (Nat.ltb_lt _ _) H2).
  - destruct H as [-> H]. split_and!; [done|done|]. unfold retry_after. destruct H as [E|E]; rewrite E, ?Nat.ltb_irrefl, ?andb_false_r; done.
Qed.

Lemma counted_step fetches r e : counted fetches r -> counted fetches (happen r e).
Proof.
  intros (Hp & Hd & Sp & Sd & Hm). destruct e as [track session premium now|track session now|track now|i|i]; cbn.
  - unfold gate. destruct premium; [by destruct r|].
    pose proof (open_pool_spec (service r) _ _ track session now Hp) as H. destruct (open_pool _ _ _ _ _) as [g p].
    destruct H as (H1 & H2 & _). split_and!; cbn; try done. congruence.
  - unfold download_gate. pose proof (open_pool_spec (service r) _ _ track session now Hd) as H.
    destruct (open_pool _ _ _ _ _) as [g p]. destruct H as (H1 & H2 & _). split_and!; cbn; try done. congruence.
  - split_and!; cbn; try done. by apply note_miss_bounded.
  - destruct (playing r !! i) as [s|] eqn:E; [|done]. split_and!; cbn; try done. by apply drop_slot_spec.
  - destruct (saving r !! i) as [s|] eqn:E; [|done]. split_and!; cbn; try done. by apply drop_slot_spec.
Qed.

(** Free listeners get exactly their share.  After any plays, downloads, misses and
    endings, the counters are the slots that are out, of streams and of downloads apart:
    never more than configured and never more than two for a session, and nothing is kept
    of a session without slots; at most [MISSES_AT_MOST] misses are remembered.  A free
    play opens exactly when the track was not found without a better copy lately, a slot
    is free and the session has fewer than two; if not, it is told when to come back. *)
Theorem free_slots_counted fetches es :
  let r := foldl happen (at_start fetches) es in
  counted fetches r
  /\ forall track session now,
       (gate (service r) track session false now).1
       = if missed_lately (misses (service r)) track now then MissedLately
         else if (length (playing r) <? fetches) && (held_by session (playing r) <? SLOTS_PER_SESSION) then Open true
         else Busy (if fetches =? 0 then SHUT_RETRY_AFTER else BUSY_RETRY_AFTER).
Proof.
  intros r. assert (counted fetches r) as Hr.
  { unfold r. assert (counted fetches (at_start fetches)) as H0.
    { split_and!; try apply pool_new_ok; done. }
    generalize (at_start fetches) H0. clear. induction es as [|e es IH]; intros r Hr; [done|]. cbn [foldl]. by apply IH, counted_step. }
  split; [done|]. intros track session now. destruct Hr as (Hp & _ & Sp & _ & _).
  unfold gate. pose proof (open_pool_spec (service r) _ _ track session now Hp) as H.
  destruct (open_pool _ _ _ _ _) as [g p]. destruct H as (_ & _ & ->). by rewrite Sp.
Qed.

(** ** Uploads *)

Inductive UploadEvent := Begin (track : str) | End_ (i : nat).

(** The slots of running uploads. *)
Definition upload_event (s : UploadSlots * list str) (e : UploadEvent) : UploadSlots * list str :=
  match e with
  | Begin track => let '(taken, u) := take_upload s.1 track in (u, if taken then track :: s.2 else s.2)
  | End_ i => match s.2 !! i with Some track => (drop_upload s.1 track, delete i s.2) | None => s end
  end.

Lemma NoDup_size_list (out : list str) : NoDup out -> size (list_to_set out : gset str) = length out.
Proof. apply size_list_to_set. Qed.

(** A track is uploaded at most once at a time, and never more tracks than there are
    slots: after any uploads begun and ended, the running ones are different tracks,
    exactly those the slots remember.  An upload begins exactly when a slot is free and
    its track is not being uploaded; background work waits once half the slots are taken. *)
Theorem uploads_exact n es :
  let '(u, out) := foldl upload_event ({| uploads := n; running := ∅ |}, []) es in
  NoDup out /\ length out <= n /\ (forall t, t ∈ running u <-> t ∈ out)
  /\ (forall t, (take_upload u t).1 = true <-> length out < n /\ t ∉ out)
  /\ (half_free u = true <-> length out * 2 <= n).
Proof.
  assert (forall s, uploads s.1 = n -> NoDup s.2 -> length s.2 <= n -> running s.1 = list_to_set s.2 ->
            let s' := foldl upload_event s es in
            uploads s'.1 = n /\ NoDup s'.2 /\ length s'.2 <= n /\ running s'.1 = list_to_set s'.2) as Hinv.
  { induction es as [|e es IH]; intros [u out] Hu Hn Hl Hr; cbn in *; [done|]. subst n. apply IH; destruct e as [t|i]; cbn.
    - unfold take_upload. destruct (_ <=? _); [done|]. by case_bool_decide.
    - by destruct (out !! i).
    - unfold take_upload. destruct (_ <=? _); [done|]. case_bool_decide as Ht; [done|]. constructor; [|done]. set_solver.
    - destruct (out !! i); [|done]. cbn. eapply sublist_NoDup; [done|apply sublist_delete].
    - unfold take_upload. destruct (Nat.leb_spec (uploads u) (size (running u))) as [|Hs]; [done|]. case_bool_decide; [done|].
      rewrite Hr, NoDup_size_list in Hs by done. cbn. lia.
    - destruct (out !! i) eqn:E; [|done]. cbn. rewrite length_delete by done. lia.
    - unfold take_upload. destruct (_ <=? _); [done|]. case_bool_decide; [done|]. cbn. by rewrite Hr.
    - destruct (out !! i) as [t|] eqn:E; [|done]. cbn. rewrite Hr. apply set_eq. intros x.
      rewrite elem_of_difference, !elem_of_list_to_set, elem_of_singleton.
      pose proof (delete_Permutation _ _ _ E) as Hp. rewrite Hp in Hn. apply NoDup_cons in Hn as [Hn _].
      rewrite Hp at 1. rewrite elem_of_cons. split; [intros [[->|?] ?]; done|]. intros Hx. split; [by right|by intros ->]. }
  specialize (Hinv ({| uploads := n; running := ∅ |}, [])). destruct (foldl upload_event _ es) as [u out]. cbn in Hinv.
  destruct Hinv as (Hu & Hn & Hl & Hr); [done|constructor|lia|done|].
  assert (size (running u) = length out) as Hs by (by rewrite Hr, NoDup_size_list). split_and!; [done|done| | |].
  - intros t. by rewrite Hr, elem_of_list_to_set.
  - intros t. unfold take_upload. rewrite Hs, Hu. destruct (Nat.leb_spec n (length out)); cbn; [split; [done|lia]|].
    case_bool_decide as Ht; rewrite Hr, elem_of_list_to_set in Ht; cbn; split; try done; naive_solver.
  - unfold half_free. by rewrite Hs, Hu, Nat.leb_le.
Qed.

(** ** Regions *)

Inductive Note :=
| Saw (track region : str) (at_ : Z)
| SawNowhere (track : str) (at_ : Z)
| Forgot (track : str).

Definition noted (e : Egress) (n : Note) : Egress :=
  match n with
  | Saw track region at_ => remember e track region at_
  | SawNowhere track at_ => remember_nowhere e track at_
  | Forgot track => forget e track
  end.

Definition note_track (n : Note) : str := match n with Saw t _ _ | SawNowhere t _ | Forgot t => t end.

(** Whether it is about [track]; a region that is not configured says nothing. *)
Definition concerns (regions : list str) (track : str) (n : Note) : bool :=
  bool_decide (note_track n = track) && match n with Saw _ r _ => bool_decide (r ∈ regions) | _ => true end.

(** The last note about [track]. *)
Definition last_note (regions : list str) (track : str) (ns : list Note) : option Note :=
  last (retain (concerns regions track) ns).

Definition entry_of (regions : list str) (x : Z * option nat) (track : str) (n : Note) : Prop :=
  match x.2 with
  | Some i => exists r, regions !! i = Some r /\ n = Saw track r x.1
  | None => n = SawNowhere track x.1
  end.

Definition memory_ok (regs : list str) (ns : list Note) (e : Egress) : Prop :=
  regions e = regs /\ size (tracks (seen e)) <= TRACKS_AT_MOST
  /\ forall track x, tracks (seen e) !! track = Some x ->
       exists n, last_note regs track ns = Some n /\ entry_of regs x track n.

Lemma last_note_snoc regs track ns n :
  last_note regs track (ns ++ [n]) = if concerns regs track n then Some n else last_note regs track ns.
Proof. unfold last_note. rewrite retain_app. cbn. destruct (concerns regs track n); cbn; [by rewrite last_snoc|by rewrite app_nil_r]. Qed.

Lemma note_at_ok regs ns e track region now n :
  memory_ok regs ns e -> note_track n = track -> concerns regs track n = true -> entry_of regs (now, region) track n ->
  memory_ok regs (ns ++ [n]) (note_at e track region now).
Proof.
  intros (Hr & Hs & Hm) Ht Hc Hn. unfold note_at. set (s := if (_ && _)%bool then _ else seen e).
  assert (size (tracks s) <= TRACKS_AT_MOST /\ forall t x, tracks s !! t = Some x -> tracks (seen e) !! t = Some x) as [Hs' Hsub].
  { unfold s. destruct (_ && _)%bool; [|done]. cbn. split; [etrans; [apply map_size_filter|done]|].
    intros t x [? _]%map_lookup_filter_Some. done. }
  assert (forall t x, t <> track -> tracks s !! t = Some x ->
            exists n0, last_note regs t (ns ++ [n]) = Some n0 /\ entry_of regs x t n0) as Hother.
  { intros t x Hne Hx. apply Hsub, Hm in Hx. rewrite last_note_snoc. unfold concerns. rewrite Ht.
    by rewrite (bool_decide_false (track = t)). }
  assert (last_note regs track (ns ++ [n]) = Some n) as Hlast by (by rewrite last_note_snoc, Hc).
  split_and!; [done|..]; cbn.
  - destruct (_ || _)%bool eqn:E; [|done]. cbn. rewrite map_size_insert. destruct (tracks s !! track) eqn:Et; [done|].
    apply orb_true_iff in E as [E%Nat.ltb_lt|E%bool_decide_eq_true]; [done|]. by destruct E.
  - intros t x. destruct (_ || _)%bool eqn:E; cbn.
    + destruct (decide (t = track)) as [->|Hne].
      * rewrite lookup_insert_eq. intros [= <-]. by exists n.
      * rewrite lookup_insert_ne by done. by apply Hother.
    + destruct (decide (t = track)) as [->|Hne]; [|by apply Hother]. intros Hx. apply orb_false_iff in E as [_ E%bool_decide_eq_false].
      rewrite Hx in E. destruct E. by eexists.
Qed.

Lemma noted_ok regs ns e n : memory_ok regs ns e -> memory_ok regs (ns ++ [n]) (noted e n).
Proof.
  intros Hok. pose proof Hok as (Hr & Hs & Hm). destruct n as [track region now|track now|track]; cbn.
  - unfold remember. rewrite Hr. destruct (position _ regs) as [i|] eqn:E.
    + apply position_Some in E as (r & Hi & Hb%bool_decide_eq_true & _). subst r. apply note_at_ok; [done|done| |].
      * unfold concerns. cbn. rewrite !bool_decide_true; [done|by eapply list_elem_of_lookup_2|done].
      * by exists region.
    + split_and!; [done..|]. intros t x Hx. rewrite last_note_snoc. unfold concerns. cbn.
      rewrite (bool_decide_false (region ∈ regs)), andb_false_r; [by apply Hm|].
      intros Hin. rewrite position_None in E. specialize (E region Hin). by apply bool_decide_eq_false in E.
  - apply note_at_ok; [done|done| |done]. unfold concerns. cbn. by rewrite bool_decide_true.
  - split_and!; cbn; [done| |].
    + rewrite map_size_delete. destruct (_ !! _); cbn; lia.
    + intros t x [Hne Hx]%lookup_delete_Some. rewrite last_note_snoc. unfold concerns. cbn.
      rewrite (bool_decide_false (track = t)) by done. by apply Hm.
Qed.

(** What is remembered of regions is bounded and honest.  After any notes the memory
    holds at most [TRACKS_AT_MOST] tracks, and what it says of a track is what was noted
    last: a configured region that saw it within the last day, or that no region did
    within the last hour.  Older knowledge, and a track it was told to forget, are unknown. *)
Theorem region_memory_honest regs ns track now :
  let e := foldl noted (egress_new regs) ns in
  size (tracks (seen e)) <= TRACKS_AT_MOST
  /\ match known_at e track now with
     | Region r => r ∈ regs /\ exists at_, last_note regs track ns = Some (Saw track r at_) /\ (since now at_ < REGION_KEPT_FOR)%Z
     | Nowhere => exists at_, last_note regs track ns = Some (SawNowhere track at_) /\ (since now at_ < NOWHERE_KEPT_FOR)%Z
     | Unknown => True
     end.
Proof.
  intros e. assert (memory_ok regs ns e) as (Hr & Hs & Hm).
  { unfold e. change ns with ([] ++ ns) at 1. assert (memory_ok regs [] (egress_new regs)) as H0.
    { split_and!; [done|cbn; rewrite map_size_empty; unfold TRACKS_AT_MOST; lia|]. intros t x Hx. cbn in Hx. by rewrite lookup_empty in Hx. }
    generalize (egress_new regs) (@nil Note) H0. clear. induction ns as [|n ns IH]; intros e ns0 H; cbn; [by rewrite app_nil_r|].
    rewrite cons_middle, app_assoc. by apply IH, noted_ok. }
  split; [done|]. unfold known_at. destruct (tracks (seen e) !! track) as [[at_ region]|] eqn:E; [|done].
  destruct (Hm _ _ E) as (n & Hn & He). destruct (Z.ltb_spec (since now at_) (kept_for region)) as [Ht|]; [|done].
  unfold entry_of in He. cbn in He. destruct region as [i|].
  - destruct He as (r & Hi & ->). rewrite Hr, Hi. split; [by eapply list_elem_of_lookup_2|]. by exists at_.
  - subst n. by exists at_.
Qed.
