(* ===== verification/Transcodings.v ===== *)
(** * Transcodings: which copy of a track is tried, and in which order

    Source: [streaming/src/stream/quality.rs], the choice of encrypted copies in
    [restricted.rs], of plain copies in [cookies.rs] ([plain_in_order]) and [anon.rs]
    ([ranked_transcodings]), and [hq_upgrade/tiers.rs].  Where the source compares
    references ([ptr::eq]) a transcoding is taken with its position in the list. *)

From Stdlib Require Import ZArith Lia String.
From stdpp Require Import base list numbers option tactics sets gmap sorting.
From S2P Require Import Prelude Text Sequences StreamTarget.
Local Open Scope Z_scope.

Record TranscodingFormat := { protocol : option str; mime_type : option str }.
Record Transcoding := {
  tc_url : str; preset : option str; snipped : option bool; tc_quality : option str; format : option TranscodingFormat }.

Definition SQ : str := lit "sq".
Definition HQ : str := lit "hq".
Definition UQ : str := lit "uq".

Definition of_transcoding (t : Transcoding) : str :=
  let p := default [] (preset t) in
  if bool_decide (tc_quality t = Some (lit "hq")) || starts_with (lit "aac_256") p then UQ
  else if bool_decide (p = lit "aac_160k") then HQ
  else SQ.

Definition quality_parse (label : str) : option str :=
  if bool_decide (label = UQ) then Some UQ
  else if bool_decide (label = HQ) then Some HQ
  else if bool_decide (label = SQ) then Some SQ
  else None.

Definition rank (quality : str) : Z :=
  if bool_decide (quality = UQ) then 2 else if bool_decide (quality = HQ) then 1 else 0.

Definition tier (t : Transcoding) : Z := rank (of_transcoding t).

Definition protocol_of (t : Transcoding) : option str := format t ≫= protocol.
Definition is_progressive (t : Transcoding) : bool := bool_decide (protocol_of t = Some (lit "progressive")).
Definition is_snipped (t : Transcoding) : bool := default false (snipped t).

(** [max_by_key]: the last of the greatest. *)
Fixpoint max_by_key {A} (f : A -> Z) (l : list A) : option A :=
  match l with
  | [] => None
  | x :: l' => match max_by_key f l' with Some y => Some (if f x <=? f y then y else x) | None => Some x end
  end.

(** ** Encrypted copies *)

Abbreviation Ref := (nat * Transcoding)%type.
Definition refs (l : list Transcoding) : list Ref := zip (seq 0 (length l)) l.

Definition is_full_encrypted (t : Transcoding) : bool :=
  bool_decide (protocol_of t = Some (lit "ctr-encrypted-hls")) && negb (is_snipped t).

Definition best_encrypted (full : list Ref) (allow_uq : bool) : option Ref :=
  max_by_key (fun x => tier x.2)
    (retain (fun x => allow_uq || negb (bool_decide (of_transcoding x.2 = UQ)))
       (retain (fun x => negb (bool_decide (tc_quality x.2 = Some (lit "lq")))) full)).

Definition or_else {A} (a b : option A) : option A := match a with Some x => Some x | None => b end.

Definition pick_encrypted (l : list Transcoding) (uq_first : bool) (at_least : str) : option Ref :=
  let full := retain (fun x => is_full_encrypted x.2) (refs l) in
  match or_else (best_encrypted full uq_first) (or_else (best_encrypted full true) (head full)) with
  | Some x => if rank at_least <=? tier x.2 then Some x else None
  | None => None
  end.

(** The sort key [(!uq_first && tier == UQ, Reverse(rank(tier)))]. *)
Definition rest_le (uq_first : bool) (x y : Ref) : bool :=
  let late (z : Ref) := negb uq_first && bool_decide (of_transcoding z.2 = UQ) in
  match then_cmp (bool_cmp (late x) (late y)) (Z.compare (tier y.2) (tier x.2)) with Gt => false | _ => true end.

Definition encrypted_in_order (l : list Transcoding) (uq_first : bool) (at_least : str) : list Ref :=
  match pick_encrypted l uq_first at_least with
  | None => []
  | Some first =>
      let rest := retain (fun x => rank at_least <=? tier x.2)
                    (retain (fun x => is_full_encrypted x.2 && negb (x.1 =? first.1)%nat) (refs l)) in
      first :: sort_by (rest_le uq_first) rest
  end.

Definition content_type_from_mime (mime : option str) : str :=
  let main := option_map (fun m => trim (match split_once 59 m with Some (a, _) => a | None => m end)) mime in
  if bool_decide (main = Some (lit "audio/mpeg")) then lit "audio/mpeg"
  else if bool_decide (main = Some (lit "audio/ogg")) then lit "audio/ogg"
  else lit "audio/mp4".

(** ** Plain copies *)

Definition is_encrypted (t : Transcoding) : bool :=
  match protocol_of t with Some p => contains_str (lit "encrypted") p | None => false end.

Definition is_full (t : Transcoding) : bool := negb (is_snipped t) && negb (contains_str (lit "/preview") (tc_url t)).

Definition is_hq (t : Transcoding) : bool := bool_decide (tc_quality t = Some (lit "hq")).

Definition plain_in_order (full : list Transcoding) (hq_only : bool) : list Transcoding :=
  let plain := retain (fun t => negb (is_encrypted t)) full in
  retain (fun t => is_hq t && is_progressive t) plain
  ++ retain (fun t => is_hq t && negb (is_progressive t)) plain
  ++ (if hq_only then []
      else retain (fun t => negb (is_hq t) && is_progressive t) plain
           ++ retain (fun t => negb (is_hq t) && negb (is_progressive t)) plain).

Definition PRESET_ORDER : list str := map lit ["mp3_1_0"; "aac_160k"; "opus_0_0"; "abr_sq"]%string.

Definition has_preset (p : str) (x : Ref) : bool := bool_decide (preset x.2 = Some p).
Definition among (ordered : list Ref) (x : Ref) : bool := existsb (fun o => (o.1 =? x.1)%nat) ordered.

(** The two loops over presets, and over the candidates that are not there yet. *)
Definition push_presets (wanted : Ref -> bool) (candidates ordered : list Ref) : list Ref :=
  foldl (fun ordered p =>
    match find (fun x => wanted x && has_preset p x) candidates with
    | Some x => ordered ++ [x]
    | None => ordered
    end) ordered PRESET_ORDER.

Definition push_rest (wanted : Ref -> bool) (candidates ordered : list Ref) : list Ref :=
  foldl (fun ordered x => if wanted x && negb (among ordered x) then ordered ++ [x] else ordered) ordered candidates.

Definition plain_candidates (l : list Transcoding) (at_least : str) : list Ref :=
  retain (fun x => rank at_least <=? tier x.2)
    (retain (fun x => negb (is_encrypted x.2) && negb (is_snipped x.2) && negb (contains_str (lit "/preview") (tc_url x.2)))
       (refs l)).

Definition tier_le (x y : Ref) : bool := tier y.2 <=? tier x.2.

Definition ranked_transcodings (l : list Transcoding) (at_least : str) : list Ref :=
  let candidates := plain_candidates l at_least in
  let progressive (x : Ref) := is_progressive x.2 in
  let ordered := push_presets progressive candidates [] in
  let ordered := push_rest progressive candidates ordered in
  let ordered := push_presets (fun x => negb (progressive x)) candidates ordered in
  let ordered := push_rest (fun _ => true) candidates ordered in
  if rank SQ <? rank at_least then sort_by tier_le ordered else ordered.

(** ** Tiers of upgrades *)

Inductive UpgradeTier := StarLiked | Liked | Rest.
Global Instance UpgradeTier_eq_dec : EqDecision UpgradeTier.
Proof. solve_decision. Defined.

Definition LEADS : list UpgradeTier := [StarLiked; StarLiked; Liked; Rest].
Definition ORDER : list UpgradeTier := [StarLiked; Liked; Rest].

(** [turn] counts from 0. *)
Definition for_turn (turn : Z) : list UpgradeTier :=
  let lead := nth (Z.to_nat (turn mod 4)) LEADS StarLiked in
  lead :: retain (fun t => negb (bool_decide (t = lead))) ORDER.

(** ** Facts *)

Lemma rank_range q : 0 <= rank q <= 2.
Proof. unfold rank. repeat case_bool_decide; lia. Qed.

Lemma refs_NoDup l : NoDup (refs l).*1.
Proof. unfold refs. rewrite fst_zip by (rewrite length_seq; lia). apply NoDup_seq. Qed.

Lemma retain_fst_NoDup (p : Ref -> bool) (l : list Ref) : NoDup l.*1 -> NoDup (retain p l).*1.
Proof.
  induction l as [|x l IH]; cbn; [done|]. intros [Hx Hl]%NoDup_cons. destruct (p x); cbn; [|by apply IH].
  constructor; [|by apply IH]. intros (y & Hy & [Hin _]%retain_In)%list_elem_of_fmap. apply Hx. rewrite Hy. by apply list_elem_of_fmap_2.
Qed.

Lemma ref_inj (l : list Ref) x y : NoDup l.*1 -> x ∈ l -> y ∈ l -> x.1 = y.1 -> x = y.
Proof.
  intros Hn [i Hi]%list_elem_of_lookup [j Hj]%list_elem_of_lookup E.
  assert (i = j) as ->; [|congruence]. eapply NoDup_lookup; [exact Hn| |]; rewrite list_lookup_fmap; [by rewrite Hi|by rewrite Hj, E].
Qed.

Lemma max_by_key_in {A} (f : A -> Z) l x : max_by_key f l = Some x -> x ∈ l /\ forall y, y ∈ l -> f y <= f x.
Proof.
  revert x. induction l as [|z l IH]; intros x; cbn; [done|]. destruct (max_by_key f l) as [y|] eqn:E.
  - destruct (IH y eq_refl) as [Hin Hmax]. destruct (Z.leb_spec (f z) (f y)); intros [= <-]; (split; [set_solver|]);
      intros w [->|Hw]%elem_of_cons; try done; specialize (Hmax w Hw); lia.
  - intros [= <-]. split; [left|]. intros w [->|Hw]%elem_of_cons; [done|]. destruct l as [|a l]; [by apply elem_of_nil in Hw|].
    cbn in E. by destruct (max_by_key f l).
Qed.

(** ** Encrypted copies in order *)

Lemma rest_le_total uq x y : rest_le uq x y = false -> rest_le uq y x = true.
Proof.
  unfold rest_le. rewrite (Z.compare_antisym (tier x.2) (tier y.2)).
  destruct (negb uq && bool_decide (of_transcoding x.2 = UQ)), (negb uq && bool_decide (of_transcoding y.2 = UQ)), (tier x.2 ?= tier y.2); done.
Qed.

Lemma rest_le_trans uq x y z : rest_le uq x y = true -> rest_le uq y z = true -> rest_le uq x z = true.
Proof.
  unfold rest_le. set (late := fun r : Ref => negb uq && bool_decide (of_transcoding r.2 = UQ)). fold (late x) (late y) (late z).
  destruct (late x), (late y), (late z); cbn; try done; destruct (Z.compare_spec (tier y.2) (tier x.2)), (Z.compare_spec (tier z.2) (tier y.2)),
    (Z.compare_spec (tier z.2) (tier x.2)); try done; lia.
Qed.

(** A copy that may be taken for [at_least]. *)
Definition acceptable (l : list Transcoding) (at_least : str) (x : Ref) : Prop :=
  x ∈ refs l /\ is_full_encrypted x.2 = true /\ rank at_least <= tier x.2.

Lemma best_encrypted_spec full allow_uq x :
  best_encrypted full allow_uq = Some x ->
  x ∈ full /\ forall y, y ∈ full -> tc_quality y.2 <> Some (lit "lq") -> allow_uq = true \/ of_transcoding y.2 <> UQ -> tier y.2 <= tier x.2.
Proof.
  intros [[[Hin _]%retain_In _]%retain_In Hmax]%max_by_key_in. split; [done|]. intros y Hy Hq Hu. apply Hmax, retain_In. split.
  - apply retain_In. split; [done|]. by rewrite bool_decide_false.
  - destruct Hu as [->|Hu]; [done|]. by rewrite bool_decide_false, orb_true_r.
Qed.

Lemma best_encrypted_None full y :
  best_encrypted full true = None -> y ∈ full -> tc_quality y.2 = Some (lit "lq").
Proof.
  intros H Hy. destruct (decide (tc_quality y.2 = Some (lit "lq"))) as [|Hne]; [done|]. exfalso. unfold best_encrypted in H.
  assert (y ∈ retain (fun x => true || negb (bool_decide (of_transcoding x.2 = UQ)))
    (retain (fun x => negb (bool_decide (tc_quality x.2 = Some (lit "lq")))) full)) as Hin.
  { apply retain_In. split; [|done]. apply retain_In. by rewrite bool_decide_false. }
  destruct (retain _ (retain _ full)) as [|a l]; [by apply elem_of_nil in Hin|]. cbn in H. by destruct (max_by_key _ l).
Qed.

Lemma pick_encrypted_Some l uq at_least x : pick_encrypted l uq at_least = Some x -> acceptable l at_least x.
Proof.
  unfold pick_encrypted. set (full := retain _ (refs l)).
  assert (forall y, y ∈ full -> y ∈ refs l /\ is_full_encrypted y.2 = true) as Hfull by (intros y [? ?]%retain_In; done).
  assert (forall y, or_else (best_encrypted full uq) (or_else (best_encrypted full true) (head full)) = Some y -> y ∈ full) as Hin.
  { intros y. destruct (best_encrypted full uq) as [a|] eqn:E1; cbn; [intros [= <-]; by apply best_encrypted_spec in E1 as [? _]|].
    destruct (best_encrypted full true) as [a|] eqn:E2; cbn; [intros [= <-]; by apply best_encrypted_spec in E2 as [? _]|].
    destruct full; [done|]. intros [= <-]. left. }
  destruct (or_else _ _) as [y|]; [|done]. destruct (Z.leb_spec (rank at_least) (tier y.2)); [|done]. intros [= <-].
  destruct (Hfull y (Hin y eq_refl)). done.
Qed.

(** The encrypted copies of a track are tried in the right order.  Unless none is
    tried, those tried are exactly the copies that are whole, encrypted and of the wanted
    tier or better, each once; after the first they go from better to worse, the best
    last for someone who should be served economically.  When the best may come first, or
    any tier will do, some copy is tried whenever there is one, and then the first is the
    best of those that are not low quality. *)
Theorem encrypted_order_exact l uq_first at_least :
  let r := encrypted_in_order l uq_first at_least in
  (r = [] \/ (NoDup r.*1 /\ forall x, x ∈ r <-> acceptable l at_least x))
  /\ StronglySorted (fun x y => rest_le uq_first x y = true) (tail r)
  /\ (uq_first = true -> forall y, acceptable l at_least y -> tc_quality y.2 <> Some (lit "lq") ->
        exists x, head r = Some x /\ tier y.2 <= tier x.2)
  /\ (rank at_least = 0 -> (exists y, acceptable l at_least y) -> r <> []).
Proof.
  intros r. unfold r, encrypted_in_order. split_and!.
  - destruct (pick_encrypted l uq_first at_least) as [first|] eqn:Ep; [|by left]. right. apply pick_encrypted_Some in Ep as (Hin & Hf & Ht).
    set (rest := retain _ _).
    assert (forall x, x ∈ rest <-> acceptable l at_least x /\ x.1 <> first.1) as Hrest.
    { intros x. unfold rest, acceptable. rewrite !retain_In, andb_true_iff, negb_true_iff, Nat.eqb_neq, Z.leb_le. tauto. }
    split.
    + rewrite fmap_cons. constructor; [|].
      * rewrite (sort_by_perm (rest_le uq_first) rest). intros (x & Hx & [_ Hne]%Hrest)%list_elem_of_fmap. by rewrite Hx in Hne.
      * rewrite (sort_by_perm (rest_le uq_first) rest). by do 2 apply retain_fst_NoDup; apply refs_NoDup.
    + intros x. rewrite elem_of_cons, (sort_by_perm (rest_le uq_first) rest), Hrest. split; [intros [->|[? _]]; done|].
      intros Hx. destruct (decide (x.1 = first.1)) as [E|]; [left|by right].
      eapply ref_inj; [apply refs_NoDup|apply Hx|done|done].
  - destruct (pick_encrypted l uq_first at_least); cbn; [|constructor]. apply sort_by_sorted; [apply rest_le_total|apply rest_le_trans].
  - intros -> y (Hy & Hf & Ht) Hq. unfold pick_encrypted. set (full := retain _ (refs l)).
    assert (y ∈ full) as Hy' by (by apply retain_In). destruct (best_encrypted full true) as [x|] eqn:E.
    + apply best_encrypted_spec in E as [_ Hmax]. specialize (Hmax y Hy' Hq (or_introl eq_refl)). cbn.
      destruct (Z.leb_spec (rank at_least) (tier x.2)); [|lia]. by exists x.
    + by eapply best_encrypted_None in E.
  - intros H0 (y & Hy & Hf & _). unfold pick_encrypted. set (full := retain _ (refs l)). rewrite H0.
    assert (y ∈ full) as Hy' by (by apply retain_In). destruct (or_else _ _) as [x|] eqn:E.
    + pose proof (rank_range (of_transcoding x.2)). unfold tier. destruct (Z.leb_spec 0 (rank (of_transcoding x.2))); [done|lia].
    + destruct (best_encrypted full uq_first), (best_encrypted full true); try done. destruct full; [by apply elem_of_nil in Hy'|done].
Qed.

Module TranscodingSample.
Definition encrypted_copy (preset quality : string) : Transcoding :=
  {| tc_url := lit "https://api-v2.soundcloud.com/media/x"; preset := Some (lit preset); snipped := Some false;
     tc_quality := Some (lit quality); format := Some {| protocol := Some (lit "ctr-encrypted-hls"); mime_type := None |} |}.
Definition uq_copy : Transcoding := encrypted_copy "aac_256k" "hq".
Definition sq_copy : Transcoding := encrypted_copy "abr_sq" "sq".

(** C36: A worse copy hides a better one: for someone served economically who asks for the
    middle tier, the best copy is tried when it is the only one, and not when there is
    also a copy below the wanted tier, for then nothing is tried. *)
Theorem worse_copy_hides_better :
  encrypted_in_order [uq_copy] false HQ = [(0%nat, uq_copy)]
  /\ acceptable [uq_copy; sq_copy] HQ (0%nat, uq_copy)
  /\ encrypted_in_order [uq_copy; sq_copy] false HQ = [].
Proof. split_and!; [vm_compute; done| |vm_compute; done]. split_and!; [left|vm_compute; done|vm_compute; congruence]. Qed.
End TranscodingSample.

(** ** Plain copies in order *)

(** [new] was added to [ordered]: wanted candidates that were not there. *)
Definition extends (wanted : Ref -> bool) (candidates ordered result : list Ref) : Prop :=
  exists new, result = ordered ++ new /\ NoDup result.*1 /\ Forall (fun x => x ∈ candidates /\ wanted x = true) new.

Lemma pushed_refl wanted candidates ordered : NoDup ordered.*1 -> extends wanted candidates ordered ordered.
Proof. intros H. exists []. by rewrite app_nil_r. Qed.

Lemma extends_snoc wanted candidates ordered result x :
  extends wanted candidates ordered result -> x ∈ candidates -> wanted x = true -> x.1 ∉ result.*1 ->
  extends wanted candidates ordered (result ++ [x]).
Proof.
  intros (new & -> & Hn & Hf) Hx Hw Hfresh. exists (new ++ [x]). split_and!.
  - by rewrite app_assoc.
  - rewrite fmap_app. apply NoDup_app. split_and!; [done| |apply NoDup_singleton]. set_solver.
  - apply Forall_app. split; [done|]. by apply Forall_singleton.
Qed.

Lemma push_presets_extends wanted candidates ordered :
  NoDup candidates.*1 -> NoDup ordered.*1 -> ordered ⊆ candidates -> Forall (fun x => wanted x = false) ordered ->
  extends wanted candidates ordered (push_presets wanted candidates ordered).
Proof.
  intros Hc Ho Hsub Hnot. unfold push_presets.
  assert (forall ps done_ result, NoDup (done_ ++ ps) -> extends wanted candidates ordered result ->
    (forall x, x ∈ result -> wanted x = true -> exists p, p ∈ done_ /\ preset x.2 = Some p) ->
    extends wanted candidates ordered (foldl (fun ordered p => match find (fun x => wanted x && has_preset p x) candidates with
      | Some x => ordered ++ [x] | None => ordered end) result ps)) as H.
  { induction ps as [|p ps IH]; intros done_ result Hnd Hext Hp; [done|]. cbn. rewrite cons_middle, app_assoc in Hnd.
    destruct (find _ candidates) as [x|] eqn:E.
    - apply find_some in E as [Hx%list_elem_of_In [Hw Hpr%bool_decide_eq_true]%andb_true_iff]. apply (IH (done_ ++ [p])); [done| |].
      + apply extends_snoc; [done..|]. intros (y & Hxy & Hy)%list_elem_of_fmap.
        assert (y = x) as ->.
        { destruct Hext as (new & -> & _ & Hf). rewrite Forall_forall in Hf. eapply ref_inj; [exact Hc| |done|done].
          apply elem_of_app in Hy as [Hy|Hy]; [by apply Hsub|by apply Hf]. }
        destruct (Hp x Hy Hw) as (q & Hq & Hqx). rewrite Hpr in Hqx. injection Hqx as <-.
        apply NoDup_app in Hnd as [Hnd _]. apply NoDup_app in Hnd as (_ & Hd & _). apply (Hd _ Hq). left.
      + intros y [Hy| ->%list_elem_of_singleton]%elem_of_app Hwy; [destruct (Hp y Hy Hwy) as (q & ? & ?); exists q; set_solver|].
        exists p. set_solver.
    - apply (IH (done_ ++ [p])); [done|done|]. intros y Hy Hwy. destruct (Hp y Hy Hwy) as (q & ? & ?). exists q. set_solver. }
  apply (H PRESET_ORDER []); [|by apply pushed_refl|].
  - apply (bool_decide_unpack _). vm_compute. done.
  - intros x Hx Hw. rewrite Forall_forall in Hnot. by rewrite (Hnot x Hx) in Hw.
Qed.

Lemma among_spec ordered x : among ordered x = true <-> x.1 ∈ ordered.*1.
Proof.
  unfold among. rewrite existsb_exists, list_elem_of_fmap. setoid_rewrite <- list_elem_of_In. setoid_rewrite Nat.eqb_eq. naive_solver.
Qed.

Lemma push_rest_extends wanted candidates ordered :
  NoDup ordered.*1 ->
  extends wanted candidates ordered (push_rest wanted candidates ordered)
  /\ forall x, x ∈ candidates -> wanted x = true -> x.1 ∈ (push_rest wanted candidates ordered).*1.
Proof.
  intros Ho. unfold push_rest.
  assert (forall cs result, cs ⊆ candidates -> extends wanted candidates ordered result ->
    let r := foldl (fun ordered x => if wanted x && negb (among ordered x) then ordered ++ [x] else ordered) result cs in
    extends wanted candidates ordered r /\ result.*1 ⊆ r.*1 /\ forall x, x ∈ cs -> wanted x = true -> x.1 ∈ r.*1) as H.
  { induction cs as [|x cs IH]; intros result Hcs Hext; cbn; [split_and!; [done|done|by intros x ?%elem_of_nil]|].
    set (result' := if (wanted x && negb (among result x)) then _ else _).
    assert (extends wanted candidates ordered result' /\ result.*1 ⊆ result'.*1 /\ (wanted x = true -> x.1 ∈ result'.*1)) as (H1 & H2 & H3).
    { unfold result'. destruct (wanted x) eqn:Ew; cbn; [|done]. destruct (among result x) eqn:Ea; cbn; [by apply among_spec in Ea|].
      rewrite fmap_app. split_and!; [|set_solver|set_solver]. apply extends_snoc; [done|set_solver|done|].
      intros Hin%among_spec. congruence. }
    destruct (IH result') as (I1 & I2 & I3); [set_solver|done|]. split_and!; [done|set_solver|].
    intros y [->|Hy]%elem_of_cons Hw; [by apply I2, H3|by apply I3]. }
  destruct (H candidates ordered) as (H1 & _ & H3); [done|by apply pushed_refl|]. done.
Qed.

Lemma extends_subseteq wanted candidates ordered result :
  extends wanted candidates ordered result -> ordered ⊆ candidates -> result ⊆ candidates.
Proof. intros (new & -> & _ & Hf) Ho x [?|Hx]%elem_of_app; [by apply Ho|]. rewrite Forall_forall in Hf. by apply Hf. Qed.

(** The plain copies tried are exactly the candidates, each once: not encrypted, not
    a preview or snippet, of the wanted tier or better.  Without a wanted tier those in
    one file come before those in segments; with one they go from better to worse. *)
Theorem plain_order_exact l at_least :
  let r := ranked_transcodings l at_least in
  NoDup r.*1 /\ (forall x, x ∈ r <-> x ∈ plain_candidates l at_least)
  /\ (rank at_least = 0 -> exists one_file segments, r = one_file ++ segments
        /\ Forall (fun x => is_progressive x.2 = true) one_file /\ Forall (fun x => is_progressive x.2 = false) segments)
  /\ (0 < rank at_least -> StronglySorted (fun x y => tier y.2 <= tier x.2) r).
Proof.
  intros r. set (candidates := plain_candidates l at_least). set (progressive := fun x : Ref => is_progressive x.2).
  assert (NoDup candidates.*1) as Hc by (by do 2 apply retain_fst_NoDup; apply refs_NoDup).
  set (o1 := push_presets progressive candidates []). set (o2 := push_rest progressive candidates o1).
  set (o3 := push_presets (fun x => negb (progressive x)) candidates o2). set (o4 := push_rest (fun _ => true) candidates o3).
  destruct (push_presets_extends progressive candidates []) as (n1 & E1 & N1 & F1); [done|constructor|set_solver|constructor|].
  fold o1 in E1, N1. destruct (push_rest_extends progressive candidates o1 N1) as [(n2 & E2 & N2 & F2) C2]. fold o2 in E2, N2, C2.
  assert (Forall (fun x => x ∈ candidates /\ progressive x = true) o2) as F12 by (rewrite E2, E1; by apply Forall_app).
  destruct (push_presets_extends (fun x => negb (progressive x)) candidates o2) as (n3 & E3 & N3 & F3);
    [done|done|intros x Hx; rewrite Forall_forall in F12; by apply F12|eapply Forall_impl; [exact F12|]; intros x [_ Hx]; by rewrite Hx|].
  fold o3 in E3, N3. destruct (push_rest_extends (fun _ => true) candidates o3 N3) as [(n4 & E4 & N4 & F4) C4]. fold o4 in E4, N4, C4.
  assert (o4 = o2 ++ (n3 ++ n4)) as E by (by rewrite E4, E3, app_assoc).
  assert (forall x, x ∈ o4 <-> x ∈ candidates) as Hall.
  { assert (forall x, x ∈ o4 -> x ∈ candidates) as Hin.
    { intros x. rewrite E, !elem_of_app. rewrite !Forall_forall in F12, F3, F4. intros [Hx|[Hx|Hx]]; [by apply F12|by apply F3|by apply F4]. }
    intros x. split; [apply Hin|]. intros Hx. destruct (list_elem_of_fmap_1 _ _ _ (C4 x Hx eq_refl)) as (y & Hxy & Hy).
    by rewrite (ref_inj candidates x y) by auto. }
  assert (r = if rank SQ <? rank at_least then sort_by tier_le o4 else o4) as -> by done. change (rank SQ) with 0. split_and!.
  - destruct (0 <? rank at_least); [|done]. by rewrite (sort_by_perm tier_le o4).
  - intros x. destruct (0 <? rank at_least); [|apply Hall]. rewrite (sort_by_perm tier_le o4). apply Hall.
  - intros ->. cbn. exists o2, (n3 ++ n4). split_and!; [done|eapply Forall_impl; [exact F12|]; by intros x [_ Hx]|].
    apply Forall_app. split; [eapply Forall_impl; [exact F3|]; by intros x [_ Hx%negb_true_iff]|].
    apply Forall_forall. intros x Hx. fold (progressive x). apply not_true_iff_false. intros Hp.
    rewrite Forall_forall in F4. specialize (C2 x (proj1 (F4 x Hx)) Hp). rewrite E4, E3, !fmap_app in N4.
    rewrite NoDup_app in N4. destruct N4 as (_ & N4 & _). apply (N4 x.1); [set_solver|by apply list_elem_of_fmap_2].
  - intros H0. destruct (Z.ltb_spec 0 (rank at_least)); [|lia].
    eapply StronglySorted_weaken; [|apply (sort_by_sorted tier_le)]; unfold tier_le; intros *; rewrite ?Z.leb_le, ?Z.leb_gt; lia.
Qed.

(** * Accounts tried in turn

    Source: [streaming/src/stream/cookies_pool.rs].  A rotation is one step; [op] is what
    the operation answers for each account, an error its message.  Instants are
    milliseconds, [uq_seen_at] is in seconds. *)

Definition RATE_LIMIT_COOLDOWN : Z := 30 * 1000.
Definition REJECTED_COOLDOWN : Z := 600 * 1000.
Definition UQ_MEMORY : Z := 6 * 60 * 60.
Definition PREVIEWS_ONLY : str := lit "cookies: previews only".

Record CookiesPool := { cooldown_until : list (option Z); cursor : nat; uq_seen_at : Z }.

Definition is_rate_limited (msg : str) : bool :=
  ends_with (lit "status 429") msg || contains_str (lit "too many requests") (map to_ascii_lowercase msg).
Definition is_rejected (msg : str) : bool := ends_with (lit "status 401") msg.

Definition recently (seen_at now : Z) : bool := (0 <? seen_at) && (sat_sub_u64 now seen_at <? UQ_MEMORY).

Definition serves_uq (p : CookiesPool) (now_secs : Z) : bool := recently (uq_seen_at p) now_secs.

Definition note_quality (p : CookiesPool) (seen : str) (now_secs : Z) : CookiesPool :=
  if bool_decide (seen = UQ) then {| cooldown_until := cooldown_until p; cursor := cursor p; uq_seen_at := now_secs |} else p.

(** How long an account rests after an error that is its own. *)
Definition cooldown_of (authed : bool) (msg : str) : option Z :=
  if is_rate_limited msg then Some RATE_LIMIT_COOLDOWN
  else if authed && is_rejected msg then Some REJECTED_COOLDOWN
  else None.

Definition cooling (p : list (option Z)) (now : Z) (idx : nat) : bool :=
  match p !! idx with Some (Some until) => now <? until | _ => false end.

Section rotate.
Context {T : Type} (authed : bool) (op : nat -> result T str) (now : Z).

(** The loop over the accounts of [idxs]; [calls] are the accounts that were asked. *)
Fixpoint rotate_from (idxs : list nat) (cooldowns : list (option Z)) (cursor : nat) (last_err : option str) (calls : list nat)
  : result T str * (list (option Z) * nat) * list nat :=
  match idxs with
  | [] => (Err (default (lit "all cookies clients cooling down") last_err), (cooldowns, cursor), calls)
  | idx :: idxs =>
      if cooling cooldowns now idx then rotate_from idxs cooldowns cursor last_err calls
      else
        let calls := calls ++ [idx] in
        match op idx with
        | Ok v => (Ok v, (<[idx := None]> cooldowns, idx), calls)
        | Err msg =>
            if bool_decide (msg = PREVIEWS_ONLY) then rotate_from idxs cooldowns cursor (Some msg) calls
            else match cooldown_of authed msg with
                 | Some cooldown => rotate_from idxs (<[idx := Some (now + cooldown)]> cooldowns) cursor (Some msg) calls
                 | None => (Err msg, (cooldowns, cursor), calls)
                 end
        end
  end.

Definition rotation (n start : nat) : list nat := map (fun off => (start + off) mod n)%nat (seq 0 n).

Definition try_rotate (p : CookiesPool) : result T str * CookiesPool * list nat :=
  let n := length (cooldown_until p) in
  if (n =? 0)%nat then (Err (lit "cookies pool empty"), p, [])
  else
    let start := (cursor p mod n)%nat in
    let '(r, (cooldowns, cur), calls) := rotate_from (rotation n start) (cooldown_until p) (cursor p) None [] in
    (r, {| cooldown_until := cooldowns; cursor := cur; uq_seen_at := uq_seen_at p |}, calls).

(** ** What a rotation does *)

(** An answer that makes the rotation go on to the next account. *)
Definition passes (r : result T str) : bool :=
  match r with
  | Ok _ => false
  | Err msg => bool_decide (msg = PREVIEWS_ONLY) || is_some (cooldown_of authed msg)
  end.

(** The cooldown of an account that was asked. *)
Definition rested (idx : nat) (before : option Z) : option Z :=
  match op idx with
  | Ok _ => None
  | Err msg => if bool_decide (msg = PREVIEWS_ONLY) then before
               else match cooldown_of authed msg with Some c => Some (now + c) | None => before end
  end.

(** Asked in turn: those that pass, up to the first that does not. *)
Fixpoint asked_of (idxs : list nat) : list nat :=
  match idxs with [] => [] | i :: idxs => i :: if passes (op i) then asked_of idxs else [] end.

Definition awake (cooldowns : list (option Z)) (idxs : list nat) : list nat :=
  retain (fun i => negb (cooling cooldowns now i)) idxs.

Definition answer_of (asked : list nat) (last_err : option str) : result T str :=
  match last asked with
  | Some i => op i
  | None => Err (default (lit "all cookies clients cooling down") last_err)
  end.

Lemma cooling_insert cooldowns i j x : i <> j -> cooling (<[i := x]> cooldowns) now j = cooling cooldowns now j.
Proof. intros H. unfold cooling. by rewrite list_lookup_insert_ne. Qed.

Lemma awake_insert cooldowns i x idxs : i ∉ idxs -> awake (<[i := x]> cooldowns) idxs = awake cooldowns idxs.
Proof. intros Hi. apply retain_ext. intros j Hj. by rewrite cooling_insert by (by intros ->). Qed.

Lemma last_cons_default (i : nat) l : last (i :: l) = Some (default i (last l)).
Proof. rewrite last_cons. by destruct (last l). Qed.

Lemma answer_cons i l msg last_err :
  op i = Err msg -> answer_of (i :: l) last_err = answer_of l (Some msg).
Proof. intros Hm. unfold answer_of. rewrite last_cons_default. destruct (last l); [done|]. cbn. by rewrite Hm. Qed.

Lemma asked_subseteq idxs : asked_of idxs ⊆ idxs.
Proof. induction idxs as [|i idxs IH]; cbn; [done|]. destruct (passes (op i)); set_solver. Qed.

Lemma awake_subseteq cooldowns idxs : awake cooldowns idxs ⊆ idxs.
Proof. intros i [? _]%retain_In. done. Qed.

Definition rotated (asked : list nat) (cur : nat) (cooldowns : list (option Z)) (last_err : option str) (calls : list nat)
    (out : result T str * (list (option Z) * nat) * list nat) : Prop :=
  let '(r, (cooldowns', cur'), calls') := out in
  calls' = calls ++ asked
  /\ r = answer_of asked last_err
  /\ cur' = (match r, last asked with Ok _, Some i => i | _, _ => cur end)
  /\ length cooldowns' = length cooldowns
  /\ forall i c, cooldowns !! i = Some c -> cooldowns' !! i = Some (if bool_decide (i ∈ asked) then rested i c else c).

(** One account is asked and the rotation goes on. *)
Lemma rotated_cons idx asked cur cooldowns cooldowns1 msg last_err calls out :
  op idx = Err msg -> idx ∉ asked -> length cooldowns1 = length cooldowns ->
  (forall i c, cooldowns !! i = Some c -> cooldowns1 !! i = Some (if bool_decide (i = idx) then rested i c else c)) ->
  rotated asked cur cooldowns1 (Some msg) (calls ++ [idx]) out -> rotated (idx :: asked) cur cooldowns last_err calls out.
Proof.
  destruct out as [[r [cooldowns' cur']] calls']. intros Hm Hi Hl Hc (H1 & H2 & H3 & H4 & H5). split_and!.
  - by rewrite H1, <- app_assoc.
  - by rewrite (answer_cons _ _ _ _ Hm).
  - rewrite H3, last_cons_default. destruct r as [v|e] eqn:Er; [|done]. destruct (last asked) as [j|] eqn:El; [done|].
    unfold answer_of in H2. by rewrite El in H2.
  - congruence.
  - intros i c Hic. rewrite (H5 _ _ (Hc i c Hic)). do 2 f_equal. repeat case_bool_decide; try done; set_solver.
Qed.

Lemma rotate_from_spec idxs cooldowns cur last_err calls :
  NoDup idxs -> rotated (asked_of (awake cooldowns idxs)) cur cooldowns last_err calls (rotate_from idxs cooldowns cur last_err calls).
Proof.
  revert cooldowns last_err calls. induction idxs as [|idx idxs IH]; intros cooldowns last_err calls Hn; cbn [rotate_from].
  { cbn. rewrite app_nil_r. split_and!; done. }
  apply NoDup_cons in Hn as [Hi Hn]. unfold awake. cbn [retain List.filter]. fold (retain (fun i => negb (cooling cooldowns now i)) idxs).
  fold (awake cooldowns idxs). destruct (cooling cooldowns now idx) eqn:Ec; cbn [negb]; [by apply IH|].
  assert (idx ∉ asked_of (awake cooldowns idxs)) as Hfresh by (intros H; apply Hi; eapply awake_subseteq, asked_subseteq, H).
  cbn [asked_of]. unfold passes. destruct (op idx) as [v|msg] eqn:Eop.
  - split_and!; [done|by cbn|done|by rewrite length_insert|]. intros i c Hc.
    destruct (decide (i = idx)) as [->|Hne]; [|].
    + rewrite list_lookup_insert_eq by (by eapply lookup_lt_Some). rewrite bool_decide_true by set_solver. unfold rested. by rewrite Eop.
    + rewrite list_lookup_insert_ne by done. rewrite bool_decide_false by set_solver. done.
  - case_bool_decide as Ep; cbn [orb].
    + eapply rotated_cons; [done..| |by apply IH]. intros i c Hc. rewrite Hc. case_bool_decide; [|done]. subst i. unfold rested. rewrite Eop.
      by rewrite bool_decide_true.
    + destruct (cooldown_of authed msg) as [c0|] eqn:E0; cbn [is_some].
      * rewrite <- (awake_insert cooldowns idx (Some (now + c0)) idxs Hi). eapply rotated_cons; [done| |by rewrite length_insert| |by apply IH].
        { by rewrite awake_insert. }
        intros i c Hc. case_bool_decide as E; [subst i|by rewrite list_lookup_insert_ne].
        rewrite list_lookup_insert_eq by (by eapply lookup_lt_Some). unfold rested. by rewrite Eop, bool_decide_false, E0.
      * split_and!; [done|by cbn; rewrite Eop|done|done|]. intros i c Hc. rewrite Hc. case_bool_decide as E; [|done].
        apply list_elem_of_singleton in E as ->. unfold rested. by rewrite Eop, bool_decide_false, E0.
Qed.
End rotate.

Lemma rotation_split n start : (start < n)%nat -> rotation n start = seq start (n - start) ++ seq 0 start.
Proof.
  intros H. unfold rotation.
  replace (seq 0 n) with (seq 0 (n - start) ++ seq (0 + (n - start)) start) by (rewrite <- seq_app; f_equal; lia).
  rewrite map_app. f_equal.
  - rewrite <- (Nat.add_0_r start) at 2. rewrite <- fmap_add_seq. apply map_ext_in. intros k Hk%in_seq. apply Nat.mod_small. lia.
  - rewrite Nat.add_0_l, <- (Nat.add_0_r (n - start)), <- fmap_add_seq, <- list_fmap_compose. rewrite <- (list_fmap_id (seq 0 start)) at 2.
    apply map_ext_in. intros k Hk%in_seq. cbn. replace (start + (n - start + k))%nat with (k + 1 * n)%nat by lia.
    rewrite Nat.Div0.mod_add. apply Nat.mod_small. lia.
Qed.

Lemma rotation_all n start : (start < n)%nat -> NoDup (rotation n start) /\ forall i, i ∈ rotation n start <-> (i < n)%nat.
Proof.
  intros H. rewrite rotation_split by done. split.
  - apply NoDup_app. split_and!; [apply NoDup_seq| |apply NoDup_seq]. intros i Hi%elem_of_seq Hi'%elem_of_seq. lia.
  - intros i. rewrite elem_of_app, !elem_of_seq. lia.
Qed.

(** Accounts are tried in turn, from the one that answered last: a rotation asks
    exactly the accounts that are not resting, each once, until one gives an answer or an
    error that is not its own.  Accounts that saw only previews are left as they are,
    limited ones rest for thirty seconds, rejected ones for ten minutes when the operation
    is authenticated; the one that answered is rested no more and will be asked first. *)
Theorem rotation_exact {T} authed (op : nat -> result T str) now p :
  (0 < length (cooldown_until p))%nat ->
  let n := length (cooldown_until p) in
  let order := awake now (cooldown_until p) (rotation n (cursor p mod n)) in
  let '(r, p', calls) := try_rotate authed op now p in
  (forall i, i ∈ order <-> (i < n)%nat /\ cooling (cooldown_until p) now i = false)
  /\ NoDup calls /\ calls = asked_of authed op order /\ r = answer_of op calls None
  /\ cursor p' = (match r, last calls with Ok _, Some i => i | _, _ => cursor p end)
  /\ forall i c, cooldown_until p !! i = Some c ->
       cooldown_until p' !! i = Some (if bool_decide (i ∈ calls) then rested authed op now i c else c).
Proof.
  intros Hn n order. unfold try_rotate. fold n. destruct (Nat.eqb_spec n 0); [lia|].
  assert (cursor p mod n < n)%nat as Hs by (apply Nat.mod_upper_bound; lia). destruct (rotation_all n _ Hs) as [Hnd Hall].
  pose proof (rotate_from_spec authed op now (rotation n (cursor p mod n)) (cooldown_until p) (cursor p) None [] Hnd) as H.
  destruct (rotate_from _ _ _ _ _ _ _ _) as [[r [cooldowns cur]] calls]. cbn. destruct H as (H1 & H2 & H3 & H4 & H5). cbn in H1.
  split_and!.
  - intros i. unfold order, awake. by rewrite retain_In, negb_true_iff, Hall.
  - rewrite H1. assert (NoDup order) as Ho by (by apply retain_NoDup).
    revert Ho. fold order. generalize order. clear. induction 1 as [|i l Hi Hl IH]; cbn; [constructor|]. destruct (passes authed (op i)); [|apply NoDup_singleton].
    constructor; [|done]. intros Hin. by apply Hi, (asked_subseteq authed op l).
  - done.
  - by rewrite H1.
  - by rewrite H3, H1.
  - rewrite H1. exact H5.
Qed.

Module PoolSample.
(** Three accounts: the first is resting, the second is limited, the third answers. *)
Definition pool : CookiesPool := {| cooldown_until := [Some 5000; None; None]; cursor := 0; uq_seen_at := 0 |}.
Definition answers (i : nat) : result nat str := if (i =? 1)%nat then Err (lit "status 429") else Ok i.

Lemma rotation_exact_witness :
  try_rotate true answers 1000 pool
    = (Ok 2%nat, {| cooldown_until := [Some 5000; Some 31000; None]; cursor := 2; uq_seen_at := 0 |}, [1; 2]%nat)
  /\ NoDup [1; 2]%nat.
Proof.
  split; [vm_compute; reflexivity|].
  pose proof (rotation_exact true answers 1000 pool ltac:(cbn; lia)) as H.
  vm_compute in H. apply H.
Defined.
End PoolSample.
