(* ===== verification/RemoteDevices.v ===== *)
(** * RemoteDevices: who listens for remote commands

    Source: the types of [backend-contracts/src/remote.rs], [devices.rs] (which device
    of a user is the one to obey) and [waits.rs] (how many of them may wait, and which
    wait of a device is the current one) of [api/src/modules/remote].  A [Notify] is a
    number, drawn by the caller for each wait. *)

From Stdlib Require Import ZArith Lia String.
From stdpp Require Import base list numbers option tactics sets gmap fin_maps.
From S2P Require Import Prelude Text AppError RoomModel RoomInvariant SyncProgram.
Local Open Scope Z_scope.
Local Open Scope rust_scope.

(** ** The contract *)

Definition WAIT_HOLD_SECS : Z := 20.
Definition CONFIRM_HOLD_SECS : Z := 60.
Definition MAX_DEVICES_PER_USER : nat := 3.

Inductive LinkProvider := Alice | Salut.

Global Instance LinkProvider_eq_dec : EqDecision LinkProvider.
Proof. solve_decision. Defined.

Module LinkProviders.
Definition as_str (p : LinkProvider) : str :=
  match p with Alice => lit "alice" | Salut => lit "salut" end.

Definition parse (raw : str) : option LinkProvider :=
  if bool_decide (raw = lit "alice") then Some Alice
  else if bool_decide (raw = lit "salut") then Some Salut else None.
End LinkProviders.

Inductive CommandKind := Utterance | LinkConfirmKind.

Record RemoteCommand := {
  rc_id : Z;
  rc_kind : CommandKind;
  rc_seq : Z;
  rc_user : str;
  rc_source : str;
  rc_text : str;
  rc_hint : option str;
  rc_created_at : Z;
  rc_expires_at : Z }.

Record RemoteReply := {
  rr_id : Z;
  rr_ok : bool;
  rr_speech : str;
  rr_display : str;
  rr_state : option value }.

Record ReplyEnvelope := { re_user : str; re_reply : RemoteReply }.

Record WaitResponse := {
  wr_cursor : Z;
  wr_commands : list RemoteCommand;
  wr_active_device : option str }.

(** ** [devices.rs] *)

Definition DEVICE_TTL_MS : Z := 45000.

Record Seen := { sn_device : str; sn_active : Z; sn_at_ms : Z }.

(** [Devices], its [seen]. *)
Abbreviation Devices := (list Seen).

Definition fresh (seen : Seen) (now_ms : Z) : bool := (now_ms -i64 sn_at_ms seen) <? DEVICE_TTL_MS.

(** [Vec::swap_remove], for an index in range. *)
Definition swap_remove {A} (i : nat) (l : list A) : list A :=
  match last l with
  | Some x => take (length l - 1) (<[i := x]> l)
  | None => l
  end.

(** The index [min_by_key] finds: the first of the smallest. *)
Definition oldest_index (seen : list Seen) : option nat :=
  fst <$> min_by_key (fun x => sn_at_ms x.2) (zip (seq 0 (length seen)) seen).

Definition note (devices : Devices) (device : str) (active now_ms : Z) : Devices :=
  let seen := retain (fun s => fresh s now_ms && negb (str_eqb (sn_device s) device)) devices in
  let seen := if (MAX_DEVICES_PER_USER <=? length seen)%nat
              then match oldest_index seen with Some oldest => swap_remove oldest seen | None => seen end
              else seen in
  seen ++ [{| sn_device := device; sn_active := active; sn_at_ms := now_ms |}].

(** [(a.active, &a.device).cmp(&(b.active, &b.device))]. *)
Definition seen_cmp (a b : Seen) : comparison :=
  match sn_active a ?= sn_active b with Eq => str_cmp (sn_device a) (sn_device b) | c => c end.

(** [Iterator::max_by]: the last of the greatest elements. *)
Definition max_by {A} (cmp : A -> A -> comparison) (l : list A) : option A :=
  match l with
  | [] => None
  | x :: l' => Some (foldl (fun best y => match cmp best y with Gt => best | _ => y end) x l')
  end.

Definition winner (devices : Devices) (now_ms : Z) : option str :=
  sn_device <$> max_by seen_cmp (retain (fun s => fresh s now_ms) devices).

Definition is_target (devices : Devices) (device : str) (now_ms : Z) : bool :=
  match winner devices now_ms with Some w => str_eqb w device | None => true end.

(** ** [waits.rs] *)

Record Waits := {
  held : gmap str (gmap str nat);
  notified : gset nat   (** the [Notify]s with a permit *) }.

Record WaitSlot := { ws_replaced : nat; ws_user : str; ws_device : str }.

Definition enter (user device : str) (replaced : nat) (w : Waits) : option WaitSlot * Waits :=
  let devices := default ∅ (held w !! user) in
  if negb (bool_decide (is_Some (devices !! device))) && (MAX_DEVICES_PER_USER <=? size devices)%nat
  then (None, {| held := <[user := devices]> (held w); notified := notified w |})
  else (Some {| ws_replaced := replaced; ws_user := user; ws_device := device |},
        {| held := <[user := <[device := replaced]> devices]> (held w);
           notified := match devices !! device with Some previous => {[previous]} ∪ notified w | None => notified w end |}).

(** [Slot::drop]. *)
Definition drop_slot (slot : WaitSlot) (w : Waits) : Waits :=
  match held w !! ws_user slot with
  | None => w
  | Some devices =>
      let devices := if bool_decide (devices !! ws_device slot = Some (ws_replaced slot))
                     then delete (ws_device slot) devices else devices in
      {| held := if bool_decide (devices = ∅) then delete (ws_user slot) (held w)
                 else <[ws_user slot := devices]> (held w);
         notified := notified w |}
  end.

(** ** Which device is obeyed *)

Lemma swap_remove_perm {A} i (l : list A) x : l !! i = Some x -> l ≡ₚ x :: swap_remove i l.
Proof.
  intros Hi. unfold swap_remove. destruct (last l) as [y|] eqn:Hl; [|by apply last_None in Hl as ->].
  apply last_Some in Hl as [l' ->]. rewrite length_app. cbn [length].
  replace (length l' + 1 - 1)%nat with (length l') by lia.
  apply lookup_app_Some in Hi as [Hi|[Hge Hi]].
  - rewrite insert_app_l by (by eapply lookup_lt_Some).
    rewrite take_app_length' by (by rewrite length_insert).
    rewrite Permutation_app_comm. cbn.
    rewrite (delete_Permutation l' i x Hi) at 1. rewrite (insert_take_drop _ _ _ (lookup_lt_Some _ _ _ Hi)).
    rewrite delete_take_drop. rewrite <- Permutation_middle. by constructor.
  - destruct (i - length l')%nat eqn:E; cbn in Hi; [|done]. simplify_eq.
    rewrite insert_app_r_alt by lia. rewrite take_app_length. by rewrite Permutation_app_comm.
Qed.

Section max_by.
Context {A} (cmp : A -> A -> comparison).
Context (cmp_refl : forall x, cmp x x <> Gt).
Context (cmp_total : forall x y, cmp x y = Gt -> cmp y x <> Gt).
Context (cmp_trans : forall x y z, cmp x y <> Gt -> cmp y z <> Gt -> cmp x z <> Gt).

Lemma max_by_spec l m : max_by cmp l = Some m -> m ∈ l /\ forall x, x ∈ l -> cmp x m <> Gt.
Proof.
  destruct l as [|x l]; [done|]. cbn. intros [= <-]. revert x. induction l as [|y l IH]; intros x; cbn.
  - split; [set_solver|]. intros z Hz. apply list_elem_of_singleton in Hz as ->. apply cmp_refl.
  - destruct (IH x) as [Hx1 Hx2], (IH y) as [Hy1 Hy2].
    destruct (cmp x y) eqn:E.
    3: { split; [set_solver|]. intros z [->|[->|Hz]%elem_of_cons]%elem_of_cons; [apply Hx2; set_solver| |apply Hx2; set_solver].
         apply (cmp_trans _ x); [by apply cmp_total|apply Hx2; set_solver]. }
    all: split; [set_solver|]; intros z [->|Hz]%elem_of_cons; [|by apply Hy2];
      apply (cmp_trans _ y); [congruence|apply Hy2; set_solver].
Qed.
End max_by.

Lemma max_by_None {A} cmp (l : list A) : max_by cmp l = None <-> l = [].
Proof. by destruct l. Qed.

(** [a] gives way to [b]. *)
Definition yields (a b : Seen) : Prop :=
  sn_active a < sn_active b \/ (sn_active a = sn_active b /\ str_cmp (sn_device a) (sn_device b) <> Gt).

Lemma yields_cmp a b : yields a b <-> seen_cmp a b <> Gt.
Proof.
  unfold yields, seen_cmp.
  destruct (Z.compare_spec (sn_active a) (sn_active b)) as [E|E|E]; split; try done; try lia; try (by left); auto.
  by intros [?|[_ ?]]; [lia|].
Qed.

Lemma yields_total a b : seen_cmp a b = Gt -> seen_cmp b a <> Gt.
Proof.
  unfold seen_cmp. rewrite (Z.compare_antisym (sn_active a)), (str_cmp_opp (sn_device a)).
  destruct (sn_active a ?= sn_active b); cbn; try done. by intros ->.
Qed.

Lemma yields_trans a b c : yields a b -> yields b c -> yields a c.
Proof.
  unfold yields. intros [H1|[H1 H1']] [H2|[H2 H2']]; try (left; lia). right. split; [lia|].
  by apply (str_cmp_trans _ (sn_device b)).
Qed.

Lemma winner_spec devices now d :
  winner devices now = Some d ->
  exists s, s ∈ devices /\ fresh s now = true /\ sn_device s = d
            /\ forall s', s' ∈ devices -> fresh s' now = true -> yields s' s.
Proof.
  unfold winner. intros (s & H & ->)%fmap_Some. apply max_by_spec in H as [Hin Hmax].
  - apply retain_In in Hin as [Hin Hf]. exists s. split_and!; auto.
    intros s' Hs' Hf'. apply yields_cmp, Hmax. by apply retain_In.
  - intros x. apply yields_cmp. right. by rewrite str_cmp_refl.
  - apply yields_total.
  - intros x y z. rewrite <- !yields_cmp. apply yields_trans.
Qed.

Lemma winner_None devices now : winner devices now = None <-> forall s, s ∈ devices -> fresh s now = false.
Proof.
  unfold winner. split.
  - intros H%fmap_None%max_by_None s Hs. destruct (fresh s now) eqn:E; [|done].
    assert (s ∈ retain (fun s => fresh s now) devices) as Hin by (by apply retain_In). rewrite H in Hin. set_solver.
  - intros H. apply fmap_None, max_by_None, elem_of_nil_inv.
    intros s [Hs Hf]%retain_In. specialize (H s Hs). congruence.
Qed.

(** ** What is remembered of the devices *)

Lemma min_by_key_spec {A} (f : A -> Z) l x : min_by_key f l = Some x -> x ∈ l /\ forall y, y ∈ l -> f x <= f y.
Proof.
  revert x. induction l as [|z l IH]; intros x; cbn; [done|].
  destruct (min_by_key f l) as [w|] eqn:E.
  - specialize (IH w eq_refl) as [H1 H2]. intros [= <-]. destruct (Z.ltb_spec (f w) (f z)).
    + split; [set_solver|]. intros y [->|Hy]%elem_of_cons; [lia|auto].
    + split; [set_solver|]. intros y [->|Hy]%elem_of_cons; [lia|]. specialize (H2 y Hy). lia.
  - intros [= <-]. destruct l as [|a l]; [|cbn in E; by destruct (min_by_key f l)].
    split; [set_solver|]. intros y ->%list_elem_of_singleton. lia.
Qed.

Lemma oldest_index_spec seen i :
  oldest_index seen = Some i ->
  exists s, seen !! i = Some s /\ forall s', s' ∈ seen -> sn_at_ms s <= sn_at_ms s'.
Proof.
  unfold oldest_index. intros ([j s] & H & ->)%fmap_Some. apply min_by_key_spec in H as [Hin Hmin].
  exists s. apply list_elem_of_lookup in Hin as [k Hk]. apply lookup_zip_Some in Hk as [Hj Hk].
  apply lookup_seq in Hj as [-> ?]. split; [done|].
  intros s' Hs'. apply list_elem_of_lookup in Hs' as [n Hn].
  apply (Hmin (n, s')). apply list_elem_of_lookup. exists n. apply lookup_zip_Some. split; [|done].
  apply lookup_seq. split; [done|]. by eapply lookup_lt_Some.
Qed.

Lemma oldest_index_some seen : seen <> [] -> is_Some (oldest_index seen).
Proof.
  destruct seen as [|s l]; [done|]. intros _. unfold oldest_index. rewrite fmap_is_Some. cbn.
  destruct (min_by_key _ _); eauto.
Qed.

(** What a device's message leaves of the others. *)
Definition kept (devices : Devices) (device : str) (now : Z) : Devices :=
  retain (fun s => fresh s now && negb (str_eqb (sn_device s) device)) devices.

Lemma kept_In devices device now s :
  s ∈ kept devices device now <-> s ∈ devices /\ fresh s now = true /\ sn_device s <> device.
Proof. unfold kept. rewrite retain_In, andb_true_iff, negb_true_iff, str_eqb_neq. done. Qed.

Lemma note_spec devices device active now :
  exists others,
    note devices device active now = others ++ [{| sn_device := device; sn_active := active; sn_at_ms := now |}]
    /\ ((length (kept devices device now) < MAX_DEVICES_PER_USER)%nat /\ others = kept devices device now
        \/ (MAX_DEVICES_PER_USER <= length (kept devices device now))%nat
           /\ exists evicted, kept devices device now ≡ₚ evicted :: others
              /\ forall s, s ∈ kept devices device now -> sn_at_ms evicted <= sn_at_ms s).
Proof.
  unfold note. fold (kept devices device now). set (k := kept devices device now).
  destruct (Nat.leb_spec MAX_DEVICES_PER_USER (length k)) as [Hk|Hk]; [|eauto 10].
  destruct (oldest_index_some k) as [i Hi]; [intros E; rewrite E in Hk; cbn in Hk; unfold MAX_DEVICES_PER_USER in *; lia|].
  rewrite Hi. eexists. split; [done|]. right. split; [done|].
  apply oldest_index_spec in Hi as (s & Hs & Hmin). exists s. split; [by apply swap_remove_perm|done].
Qed.

(** Each device at most once, and no more than the limit. *)
Definition devices_wf (devices : Devices) : Prop :=
  NoDup (sn_device <$> devices) /\ (length devices <= MAX_DEVICES_PER_USER)%nat.

Lemma note_wf devices device active now : devices_wf devices -> devices_wf (note devices device active now).
Proof.
  intros [Hnd Hlen]. destruct (note_spec devices device active now) as (others & -> & Ho).
  set (k := kept devices device now) in *.
  assert (NoDup (sn_device <$> k)) as Hk.
  { unfold k, kept. clear -Hnd. induction devices as [|s l IH]; cbn; [constructor|].
    cbn in Hnd. apply NoDup_cons in Hnd as [H1 H2]. specialize (IH H2).
    destruct (fresh s now && _); cbn; [|done]. constructor; [|done].
    intros (s' & E & [Hs' _]%retain_In)%list_elem_of_fmap. apply H1. rewrite E. apply list_elem_of_fmap. eauto. }
  assert (device ∉ (sn_device <$> k)) as Hd.
  { intros (s & E & Hs)%list_elem_of_fmap. apply kept_In in Hs. naive_solver. }
  assert (length k <= length devices)%nat as Hle by apply List.filter_length_le.
  assert (NoDup (sn_device <$> others) /\ device ∉ (sn_device <$> others) /\ (length others < MAX_DEVICES_PER_USER)%nat)
    as (H1 & H2 & H3).
  { destruct Ho as [[Hl ->]|[Hl (e & Hp & _)]]; [done|].
    pose proof (fmap_Permutation sn_device _ _ Hp) as Hf. cbn in Hf. rewrite Hf in Hk, Hd.
    apply NoDup_cons in Hk as [_ ?]. split_and!; [done|set_solver|].
    apply Permutation_length in Hp. cbn in Hp. lia. }
  split; [|rewrite length_app; cbn; lia]. rewrite fmap_app. cbn. apply NoDup_app. split_and!; [done|set_solver|].
  by apply NoDup_singleton.
Qed.

Lemma str_cmp_antisym a b : str_cmp a b <> Gt -> str_cmp b a <> Gt -> a = b.
Proof. rewrite (str_cmp_opp a b). intros H1 H2. apply str_cmp_eq. by destruct (str_cmp a b). Qed.

Lemma yields_antisym a b : yields a b -> yields b a -> sn_device a = sn_device b.
Proof. intros [?|[? ?]] [?|[? ?]]; try lia. by apply str_cmp_antisym. Qed.

(** After any message of a device the memory of a user's devices still names each of
    them once and no more than three; the device that spoke is in it with what it said,
    and only devices heard of within the last 45 seconds are besides it; a device heard of
    in that time is missing only when three others were, none of which was silent for
    longer.  At any time the device to obey is the one active last among those heard of
    in time (the greater name on a tie), and there is none exactly when all are silent. *)
Theorem device_to_obey devices device active now t :
  devices_wf devices ->
  let devices' := note devices device active now in
  devices_wf devices'
  /\ {| sn_device := device; sn_active := active; sn_at_ms := now |} ∈ devices'
  /\ (forall s, s ∈ devices' -> sn_device s <> device -> s ∈ devices /\ fresh s now = true)
  /\ (forall s, s ∈ devices -> fresh s now = true -> sn_device s <> device ->
        s ∈ devices'
        \/ (MAX_DEVICES_PER_USER <= length (kept devices device now))%nat
           /\ forall s', s' ∈ kept devices device now -> sn_at_ms s <= sn_at_ms s')
  /\ (forall d, winner devices' t = Some d <->
        exists s, s ∈ devices' /\ fresh s t = true /\ sn_device s = d
                  /\ forall s', s' ∈ devices' -> fresh s' t = true -> yields s' s)
  /\ (winner devices' t = None <-> forall s, s ∈ devices' -> fresh s t = false).
Proof.
  intros Hwf devices'. split; [by apply note_wf|].
  destruct (note_spec devices device active now) as (others & E & Ho). fold devices' in E.
  assert (forall s, s ∈ others -> s ∈ kept devices device now) as Hsub.
  { intros s Hs. destruct Ho as [[_ ->]|[_ (e & Hp & _)]]; [done|]. rewrite Hp. set_solver. }
  split_and!.
  - rewrite E. set_solver.
  - intros s. rewrite E. intros [Hs| ->%list_elem_of_singleton]%elem_of_app; [|done].
    intros _. apply Hsub, kept_In in Hs. naive_solver.
  - intros s Hs Hf Hd. assert (s ∈ kept devices device now) as Hk by (by apply kept_In).
    destruct Ho as [[_ ->]|[Hl (e & Hp & Hmin)]]; [left; rewrite E; set_solver|].
    pose proof Hk as Hk'. rewrite Hp in Hk'. apply elem_of_cons in Hk' as [->|Hk']; [by right|left; rewrite E; set_solver].
  - intros d. split; [apply winner_spec|]. intros (s & Hs & Hf & <- & Hmax).
    destruct (winner devices' t) as [w|] eqn:Hw; [|rewrite winner_None in Hw; specialize (Hw s Hs); congruence].
    apply winner_spec in Hw as (s' & Hs' & Hf' & <- & Hmax'). f_equal. by apply yields_antisym; auto.
  - apply winner_None.
Qed.

Lemma device_to_obey_witness :
  devices_wf [{| sn_device := lit "phone"; sn_active := 5; sn_at_ms := 1000 |}]
  /\ winner (note [{| sn_device := lit "phone"; sn_active := 5; sn_at_ms := 1000 |}] (lit "desk") 9 2000) 2000
     = Some (lit "desk").
Proof.
  assert (devices_wf [{| sn_device := lit "phone"; sn_active := 5; sn_at_ms := 1000 |}]) as Hwf.
  { split; [apply NoDup_singleton|cbn; unfold MAX_DEVICES_PER_USER; lia]. }
  split; [exact Hwf|].
  apply (device_to_obey _ (lit "desk") 9 2000 2000 Hwf).
  exists {| sn_device := lit "desk"; sn_active := 9; sn_at_ms := 2000 |}.
  split; [vm_compute; set_solver|]. split; [reflexivity|]. split; [reflexivity|].
  intros s' Hs' _. vm_compute in Hs'. apply elem_of_cons in Hs' as [->|Hs']; [left; reflexivity|].
  apply list_elem_of_singleton in Hs' as ->. right. split; [reflexivity|by vm_compute].
Defined.

(** ** Waits

    Waits begin with a [Notify] of their own and end once. *)

Record Waiting := {
  the_waits : Waits;
  slots : gmap nat WaitSlot;         (** the waits that have not ended, by their [Notify] *)
  newest : gmap (str * str) nat;     (** the last wait let in of each device *)
  drawn : nat }.

Inductive WaitEvent := Begins (user device : str) | Ends (n : nat).

Definition wait_event (s : Waiting) (e : WaitEvent) : Waiting :=
  match e with
  | Begins user device =>
      let '(slot, w) := enter user device (drawn s) (the_waits s) in
      match slot with
      | Some slot => {| the_waits := w; slots := <[drawn s := slot]> (slots s);
                        newest := <[(user, device) := drawn s]> (newest s); drawn := S (drawn s) |}
      | None => {| the_waits := w; slots := slots s; newest := newest s; drawn := S (drawn s) |}
      end
  | Ends n =>
      match slots s !! n with
      | Some slot => {| the_waits := drop_slot slot (the_waits s); slots := delete n (slots s);
                        newest := newest s; drawn := drawn s |}
      | None => s
      end
  end.

Definition no_waits : Waiting :=
  {| the_waits := {| held := ∅; notified := ∅ |}; slots := ∅; newest := ∅; drawn := 0 |}.

Definition holds (w : Waits) (user device : str) : option nat := held w !! user ≫= fun ds => ds !! device.

Record waiting_ok (s : Waiting) : Prop := {
  ok_bounded u ds : held (the_waits s) !! u = Some ds -> ds <> ∅ /\ (size ds <= MAX_DEVICES_PER_USER)%nat;
  ok_slots n slot : slots s !! n = Some slot -> ws_replaced slot = n /\ (n < drawn s)%nat;
  ok_newest u d n : newest s !! (u, d) = Some n -> (n < drawn s)%nat
    /\ forall slot, slots s !! n = Some slot -> slot = {| ws_replaced := n; ws_user := u; ws_device := d |};
  ok_known n slot : slots s !! n = Some slot -> is_Some (newest s !! (ws_user slot, ws_device slot));
  ok_held u d n : holds (the_waits s) u d = Some n <-> newest s !! (u, d) = Some n /\ is_Some (slots s !! n);
  ok_told n slot : slots s !! n = Some slot ->
    holds (the_waits s) (ws_user slot) (ws_device slot) = Some n <-> n ∉ notified (the_waits s);
  ok_told_old n : n ∈ notified (the_waits s) -> (n < drawn s)%nat
}.

Lemma holds_insert w u ds u' d' :
  holds {| held := <[u := ds]> (held w); notified := notified w |} u' d'
  = if decide (u' = u) then ds !! d' else holds w u' d'.
Proof.
  unfold holds. cbn. case_decide as E; [subst; by rewrite lookup_insert_eq|by rewrite lookup_insert_ne].
Qed.

Lemma enter_holds u d n w u' d' :
  holds (enter u d n w).2 u' d'
  = if decide ((u', d') = (u, d) /\ is_Some (enter u d n w).1) then Some n else holds w u' d'.
Proof.
  unfold enter, holds. destruct (_ && _) eqn:E; cbn.
  - rewrite decide_False by (intros [_ [? ?]]; done).
    destruct (decide (u' = u)) as [->|Hu]; [rewrite lookup_insert_eq; cbn|by rewrite lookup_insert_ne].
    by destruct (held w !! u).
  - destruct (decide (u' = u)) as [->|Hu]; [rewrite lookup_insert_eq; cbn|].
    + destruct (decide (d' = d)) as [->|Hd]; [by rewrite lookup_insert_eq, decide_True by (split; eauto)|].
      rewrite lookup_insert_ne, decide_False by naive_solver. by destruct (held w !! u).
    + by rewrite lookup_insert_ne, decide_False by naive_solver.
Qed.

Lemma drop_holds slot w u d :
  (forall u ds, held w !! u = Some ds -> ds <> ∅) ->
  holds (drop_slot slot w) u d
  = if decide ((u, d) = (ws_user slot, ws_device slot) /\ holds w u d = Some (ws_replaced slot)) then None
    else holds w u d.
Proof.
  intros Hne. unfold drop_slot. destruct (held w !! ws_user slot) as [ds|] eqn:Hu.
  2: { rewrite decide_False; [done|]. intros [[= -> ->] H]. unfold holds in H. by rewrite Hu in H. }
  set (ds' := if bool_decide (ds !! ws_device slot = Some (ws_replaced slot)) then delete (ws_device slot) ds else ds).
  assert (forall d', ds' !! d' = if decide (d' = ws_device slot /\ ds !! d' = Some (ws_replaced slot)) then None else ds !! d') as Hds.
  { intros d'. unfold ds'. case_bool_decide as E.
    - destruct (decide (d' = ws_device slot)) as [->|Hd]; [by rewrite lookup_delete_eq, decide_True|].
      by rewrite lookup_delete_ne, decide_False by naive_solver.
    - rewrite decide_False by naive_solver. done. }
  unfold holds at 1. cbn. case_bool_decide as E.
  - destruct (decide (u = ws_user slot)) as [->|Hn].
    + rewrite lookup_delete_eq. cbn. specialize (Hds d). rewrite E, lookup_empty in Hds. unfold holds. rewrite Hu. cbn.
      repeat case_decide; naive_solver.
    + by rewrite lookup_delete_ne, decide_False by naive_solver.
  - destruct (decide (u = ws_user slot)) as [->|Hn].
    + rewrite lookup_insert_eq. cbn. rewrite Hds. unfold holds. rewrite Hu. cbn. repeat case_decide; naive_solver.
    + by rewrite lookup_insert_ne, decide_False by naive_solver.
Qed.

Lemma enter_bounded u d n w :
  (forall u ds, held w !! u = Some ds -> ds <> ∅ /\ (size ds <= MAX_DEVICES_PER_USER)%nat) ->
  forall u' ds, held (enter u d n w).2 !! u' = Some ds -> ds <> ∅ /\ (size ds <= MAX_DEVICES_PER_USER)%nat.
Proof.
  intros H u' ds. unfold enter. set (ds0 := default ∅ (held w !! u)).
  assert (size ds0 <= MAX_DEVICES_PER_USER)%nat as H0.
  { unfold ds0. destruct (held w !! u) as [x|] eqn:E; cbn; [by apply (H u)|rewrite map_size_empty; lia]. }
  destruct (_ && _) eqn:E; cbn; intros [[-> <-]|[_ Hu]]%lookup_insert_Some; try (by apply (H u')).
  - apply andb_true_iff in E as [_ E%Nat.leb_le]. split; [|done].
    intros Hz. rewrite Hz, map_size_empty in E. unfold MAX_DEVICES_PER_USER in E. lia.
  - split; [apply insert_non_empty|]. destruct (ds0 !! d) as [x|] eqn:Hd.
    + rewrite map_size_insert_Some by eauto. done.
    + rewrite map_size_insert_None by done. apply andb_false_iff in E as [E|E%Nat.leb_gt]; [|lia].
      apply negb_false_iff, bool_decide_eq_true in E as [? ?]. congruence.
Qed.

Lemma drop_bounded slot w :
  (forall u ds, held w !! u = Some ds -> ds <> ∅ /\ (size ds <= MAX_DEVICES_PER_USER)%nat) ->
  forall u ds, held (drop_slot slot w) !! u = Some ds -> ds <> ∅ /\ (size ds <= MAX_DEVICES_PER_USER)%nat.
Proof.
  intros H u ds. unfold drop_slot. destruct (held w !! ws_user slot) as [ds0|] eqn:Hu; [|apply H]. cbn.
  destruct (H _ _ Hu) as [Hn0 Hs0].
  destruct (bool_decide (ds0 !! ws_device slot = Some (ws_replaced slot))); case_bool_decide as E;
    intros Hd; try (apply lookup_delete_Some in Hd as [_ Hd]; by apply (H u));
    (apply lookup_insert_Some in Hd as [[_ <-]|[_ Hd]]; [split; [done|]|by apply (H u)]); [|done].
  etrans; [apply map_subseteq_size, delete_subseteq|done].
Qed.

Lemma enter_slot u d n w slot : (enter u d n w).1 = Some slot -> slot = {| ws_replaced := n; ws_user := u; ws_device := d |}.
Proof. unfold enter. by destruct (_ && _); cbn; intros [= <-]. Qed.

Lemma enter_notified u d n w :
  notified (enter u d n w).2
  = match (enter u d n w).1, holds w u d with Some _, Some previous => {[previous]} ∪ notified w | _, _ => notified w end.
Proof.
  unfold enter, holds. destruct (_ && _); cbn; [done|]. by destruct (held w !! u) as [ds|]; cbn; [|rewrite lookup_empty].
Qed.

Lemma drop_notified slot w : notified (drop_slot slot w) = notified w.
Proof. unfold drop_slot. by destruct (held w !! _). Qed.

Lemma wait_refused_ok s w n :
  waiting_ok s -> (drawn s <= n)%nat ->
  (forall u ds, held w !! u = Some ds -> ds <> ∅ /\ (size ds <= MAX_DEVICES_PER_USER)%nat) ->
  (forall u d, holds w u d = holds (the_waits s) u d) -> notified w = notified (the_waits s) ->
  waiting_ok {| the_waits := w; slots := slots s; newest := newest s; drawn := n |}.
Proof.
  intros [] Hn Hb Hsame Hno. split; cbn; auto.
  - intros m slot H. apply ok_slots0 in H. lia.
  - intros u d m H. apply ok_newest0 in H as [? ?]. split; [lia|done].
  - intros. by rewrite Hsame.
  - intros m slot H. rewrite Hsame, Hno. by apply ok_told0.
  - intros m. rewrite Hno. intros H. apply ok_told_old0 in H. lia.
Qed.

Section let_in.
Context (s : Waiting) (u d : str) (w : Waits) (Hok : waiting_ok s).
Context (Hh : forall u' d', holds w u' d' = if decide ((u', d') = (u, d)) then Some (drawn s) else holds (the_waits s) u' d').
Context (Hn : notified w = match holds (the_waits s) u d with
                           | Some previous => {[previous]} ∪ notified (the_waits s) | None => notified (the_waits s) end).

Lemma let_in_previous m : holds (the_waits s) u d = Some m -> (m < drawn s)%nat.
Proof. intros [H _]%(ok_held s Hok). by apply (ok_newest s Hok) in H as [? _]. Qed.

Lemma let_in_told_old n : n ∈ notified w -> (n < drawn s)%nat.
Proof.
  rewrite Hn. destruct (holds (the_waits s) u d) as [m|] eqn:Em; [|apply (ok_told_old s Hok)].
  intros [->%elem_of_singleton|H]%elem_of_union; [by apply let_in_previous|by apply (ok_told_old s Hok)].
Qed.

Lemma let_in_told n x :
  slots s !! n = Some x -> holds w (ws_user x) (ws_device x) = Some n <-> n ∉ notified w.
Proof.
  intros H. pose proof (ok_told s Hok _ _ H) as Ht. pose proof (ok_slots s Hok _ _ H) as [_ Hlt].
  rewrite Hh, Hn. case_decide as Ex.
  - injection Ex as Ex1 Ex2. rewrite Ex1, Ex2 in Ht. split; [intros [= ?]; lia|]. intros Hm. exfalso.
    destruct (holds (the_waits s) u d) as [m|] eqn:Em; [|by apply Ht in Hm].
    assert (n ∉ notified (the_waits s)) as Hk%Ht by set_solver. set_solver.
  - rewrite Ht. destruct (holds (the_waits s) u d) as [m|] eqn:Em; [|done].
    assert (n <> m); [|set_solver]. intros <-. apply (ok_held s Hok) in Em as [Em _].
    apply (ok_newest s Hok) in Em as [_ Em]. apply Em in H as ->. by apply Ex.
Qed.
End let_in.

Lemma wait_let_in_ok s u d w :
  waiting_ok s ->
  (forall u ds, held w !! u = Some ds -> ds <> ∅ /\ (size ds <= MAX_DEVICES_PER_USER)%nat) ->
  (forall u' d', holds w u' d' = if decide ((u', d') = (u, d)) then Some (drawn s) else holds (the_waits s) u' d') ->
  notified w = match holds (the_waits s) u d with
               | Some previous => {[previous]} ∪ notified (the_waits s) | None => notified (the_waits s) end ->
  waiting_ok {| the_waits := w; slots := <[drawn s := {| ws_replaced := drawn s; ws_user := u; ws_device := d |}]> (slots s);
                newest := <[(u, d) := drawn s]> (newest s); drawn := S (drawn s) |}.
Proof.
  intros Hok Hb Hh Hn. split; cbn; [done|..].
  - intros n x [[<- <-]|[? H]]%lookup_insert_Some; cbn; [lia|]. apply (ok_slots s Hok) in H. lia.
  - intros u' d' n [[[= <- <-] <-]|[Hne H]]%lookup_insert_Some.
    + split; [lia|]. intros x. rewrite lookup_insert_eq. congruence.
    + pose proof (ok_newest s Hok _ _ _ H) as [? ?]. split; [lia|]. intros x. rewrite lookup_insert_ne by lia. auto.
  - intros n x [[<- <-]|[? H]]%lookup_insert_Some; cbn; [rewrite lookup_insert_eq; eauto|].
    apply (ok_known s Hok) in H. destruct (decide ((u, d) = (ws_user x, ws_device x))) as [<-|?];
      [rewrite lookup_insert_eq; eauto|by rewrite lookup_insert_ne].
  - intros u' d' n. rewrite Hh. case_decide as Hne.
    + injection Hne as -> ->. rewrite lookup_insert_eq. split; [|by intros [? _]].
      intros [= <-]. split; [done|]. rewrite lookup_insert_eq. eauto.
    + rewrite lookup_insert_ne by done. rewrite (ok_held s Hok).
      destruct (decide (n = drawn s)) as [->|Hn']; [|by rewrite lookup_insert_ne].
      split; [intros [H _]|intros [H _]]; apply (ok_newest s Hok) in H; lia.
  - intros n x [[<- <-]|[Hne H]]%lookup_insert_Some; cbn; [|by apply let_in_told with s u d].
    rewrite Hh, decide_True by done. split; [|done]. intros _ H%(let_in_told_old s u d w Hok Hn). lia.
  - intros n H%(let_in_told_old s u d w Hok Hn). lia.
Qed.

Lemma wait_begins_ok s u d : waiting_ok s -> waiting_ok (wait_event s (Begins u d)).
Proof.
  intros Hok. cbn. destruct (enter u d (drawn s) (the_waits s)) as [o w] eqn:E.
  pose proof (enter_bounded u d (drawn s) _ (ok_bounded s Hok)) as Hb.
  pose proof (enter_holds u d (drawn s) (the_waits s)) as Hh.
  pose proof (enter_notified u d (drawn s) (the_waits s)) as Hn.
  rewrite E in Hb, Hh, Hn. cbn in Hb, Hh, Hn. destruct o as [slot|].
  - replace slot with {| ws_replaced := drawn s; ws_user := u; ws_device := d |}
      by (symmetry; apply (enter_slot u d (drawn s) (the_waits s)); by rewrite E).
    apply wait_let_in_ok; auto. intros. rewrite Hh. repeat case_decide; naive_solver.
  - apply wait_refused_ok; auto. intros u' d'. rewrite Hh, decide_False; [done|]. by intros [_ [? ?]].
Qed.

Lemma wait_ends_ok s n : waiting_ok s -> waiting_ok (wait_event s (Ends n)).
Proof.
  intros Hok. cbn. destruct (slots s !! n) as [slot|] eqn:En; [|done].
  destruct (ok_slots s Hok _ _ En) as [Hr Hlt].
  pose proof (drop_holds slot (the_waits s)) as Hh. rewrite Hr in Hh.
  assert (forall u ds, held (the_waits s) !! u = Some ds -> ds <> ∅) as Hne by (intros u ds; apply (ok_bounded s Hok)).
  assert (forall u d m, m <> n -> holds (drop_slot slot (the_waits s)) u d = Some m <-> holds (the_waits s) u d = Some m) as Hkeep.
  { intros u d m Hm. rewrite Hh by done. case_decide; naive_solver. }
  split; cbn.
  - apply drop_bounded, (ok_bounded s Hok).
  - intros m x [_ H]%lookup_delete_Some. by apply (ok_slots s Hok).
  - intros u d m H. apply (ok_newest s Hok) in H as [? Hs]. split; [done|]. intros x [_ Hx]%lookup_delete_Some. auto.
  - intros m x [_ H]%lookup_delete_Some. by eapply (ok_known s Hok).
  - intros u d m. destruct (decide (m = n)) as [->|Hm].
    + rewrite lookup_delete_eq. split; [|by intros [_ [? ?]]]. rewrite Hh by done. case_decide as Hc; [done|].
      intros H. exfalso. apply Hc. split; [|done]. apply (ok_held s Hok) in H as [H _].
      apply (ok_newest s Hok) in H as [_ H]. by apply H in En as ->.
    + rewrite Hkeep, lookup_delete_ne by done. apply (ok_held s Hok).
  - intros m x [? H]%lookup_delete_Some. rewrite Hkeep, drop_notified by done. by apply (ok_told s Hok).
  - intros m. rewrite drop_notified. apply (ok_told_old s Hok).
Qed.

(** Whatever waits begin and end, no user has more than three devices waiting and
    nothing is kept of one who has none; a device is held by exactly its newest wait, as
    long as that lasts, and of the waits that last exactly the replaced ones are told to
    stop, so the end of a replaced wait leaves the newer one in place. *)
Theorem waits_current events :
  let s := foldl wait_event no_waits events in
  (forall u ds, held (the_waits s) !! u = Some ds -> ds <> ∅ /\ (size ds <= MAX_DEVICES_PER_USER)%nat)
  /\ (forall u d n, holds (the_waits s) u d = Some n <-> newest s !! (u, d) = Some n /\ is_Some (slots s !! n))
  /\ (forall n slot, slots s !! n = Some slot ->
        n ∈ notified (the_waits s) <-> newest s !! (ws_user slot, ws_device slot) <> Some n).
Proof.
  cbn zeta. assert (waiting_ok (foldl wait_event no_waits events)) as Hok.
  { induction events as [|e events IH] using rev_ind.
    - split; cbn; try done. intros u d n. unfold holds. cbn. rewrite !lookup_empty. naive_solver.
    - rewrite foldl_snoc. destruct e; [by apply wait_begins_ok|by apply wait_ends_ok]. }
  split_and!; [apply ok_bounded, Hok|apply ok_held, Hok|].
  intros n slot H. pose proof (ok_told _ Hok _ _ H) as Ht. rewrite (ok_held _ Hok) in Ht.
  destruct (decide (n ∈ notified (the_waits (foldl wait_event no_waits events)))) as [Hd|Hd]; naive_solver.
Qed.
