(* ===== verification/RemoteStore.v ===== *)
(** * RemoteStore: commands, replies, devices and claims in NATS

    Source: [api/src/modules/remote/store.rs].  NATS is not part of the repository: a
    request to it is an effect that waits for its answer, and the bucket and stream
    configurations are arguments of the effects that create them.  A request that
    [in_budget] gives up on is answered [NoAnswer].  The other effects of the hub (its
    clocks, its slot, its caches and subscriptions) are here too, and [Until] is an
    effect awaited under [tokio::time::timeout_at].  The encoding of JSON is a class:
    a command reads back as it was written, an envelope reads back as it was written or
    not at all (a state nested too deep). *)

From Stdlib Require Import ZArith Lia String.
From stdpp Require Import base list numbers option tactics.
From S2P Require Import Prelude Text RoomModel SyncProgram RemoteDevices.
Local Open Scope Z_scope.
Local Open Scope rust_scope.

(** Durations and instants are in milliseconds. *)
Definition COMMANDS_AGE : Z := 120000.
Definition COMMANDS_PER_USER : Z := 64.
Definition SCAN_LIMIT : nat := 64.
Definition COMMANDS_BYTES : Z := 64 * 1024 * 1024.
Definition MAX_COMMAND_BYTES : Z := 4 * 1024.
Definition REPLIES_AGE : Z := 600000.
Definition REPLIES_BYTES : Z := 64 * 1024 * 1024.
Definition MAX_REPLY_VALUE : Z := 16 * 1024.
Definition DEVICES_AGE : Z := 90000.
Definition DEVICES_BYTES : Z := 16 * 1024 * 1024.
Definition MAX_DEVICES_VALUE : Z := 4 * 1024.
Definition CLAIMS_BYTES : Z := 16 * 1024 * 1024.
Definition MAX_CLAIM_VALUE : Z := 512.
Definition DEVICE_WRITE_TRIES : nat := 4.
Definition REQUEST_BUDGET : Z := 2000.
Definition MISSING_MARKERS : list str :=
  [lit "stream not found"; lit "no stream found"; lit "does not exist"; lit "no responders"].

(** ** Effects *)

Inductive Bucket := Replies | DeviceLists | Claims.

Global Instance Bucket_eq_dec : EqDecision Bucket.
Proof. solve_decision. Defined.

Record StreamConfig := {
  sc_name : str; sc_subjects : list str; sc_max_age : Z; sc_max_messages_per_subject : Z; sc_max_bytes : Z;
  sc_max_message_size : Z; sc_discard_old : bool; sc_duplicate_window : Z; sc_allow_direct : bool }.

Record BucketConfig := { bc_name : str; bc_history : Z; bc_max_age : Z; bc_max_bytes : Z; bc_max_value_size : Z }.

(** [None] is an operation other than [Put]. *)
Record Entry := { en_value : option str; en_revision : Z }.

(** A request under a budget: no answer in time, an error with its chain of sources, or
    the answer. *)
Inductive Answer (A : Type) := NoAnswer | Broken (chain : list str) | Given (a : A).
Arguments NoAnswer {A}.
Arguments Broken {A} chain.
Arguments Given {A} a.

(** The outcome of a create, the error [AlreadyExists] with its chain apart from others. *)
Inductive Creation := Created | AlreadyExists (chain : list str).

Inductive Cached := Open (store : nat) | Failing | Unknown.

Inductive Woken := Message | WakeClosed | ReplacedWait | Slept.

Inductive Nats : Type -> Type :=
(** the clocks and ids: [now_ms], [Instant::now], [Uuid::now_v7] *)
| Now : Nats Z
| InstantNow : Nats Z
| NewId : Nats Z
(** the hub's connection and slot *)
| Connected : Nats bool
| WaitConnected (budget : Z) : Nats bool
| SlotCached : Nats Cached
| LockOpening : Nats unit
| UnlockOpening : Nats unit
| SlotOpened : Nats nat
| SlotFailed : Nats unit
| SlotForget (store : nat) : Nats unit
(** the hub's memory of announced devices, and its waits *)
| AnnouncedGet (user device : str) : Nats (option (Z * Z))
| AnnouncedPut (user device : str) (active at_ : Z) : Nats unit
| AnnouncedForget (user device : str) : Nats unit
| WaitsEnter (user device : str) : Nats (option nat)
| WaitsLeave (slot : nat) : Nats unit
(** requests to NATS *)
| EnsureStream (c : StreamConfig) : Nats (Answer unit)
| GetStream (name : str) : Nats (Answer unit)
| EnsureBucket (c : BucketConfig) : Nats (Answer unit)
| StreamInfo : Nats (Answer Z)
| NextFor (subject : str) (from : Z) : Nats (Answer (option (Z * str)))
| SendCommand (subject msg_id body : str) : Nats (result unit (list str))
| AwaitAck : Nats (result unit (list str))
| CorePublish (subject body : str) : Nats (result unit (list str))
| Subscribe (subject : str) : Nats (result unit (list str))
| NextReply (subject : str) : Nats (option str)
| Select (recheck : Z) : Nats Woken
| KvGet (b : Bucket) (key : str) : Nats (Answer (option str))
| KvEntry (b : Bucket) (key : str) : Nats (Answer (option Entry))
| KvCreate (b : Bucket) (key value : str) : Nats (Answer Creation)
| KvUpdate (b : Bucket) (key value : str) (revision : Z) : Nats (Answer unit)
| Until (deadline : Z) (A : Type) (e : Nats A) : Nats (option A).
Arguments Until deadline {A} e.

Abbreviation prog := (program Nats).

(** [tokio::time::timeout_at]: every wait of the program ends at the deadline. *)
Fixpoint timeout_at {R} (deadline : Z) (p : prog R) : prog (option R) :=
  match p with
  | Ret r => Ret (Some r)
  | Vis e k => Vis (Until deadline e)
      (fun o => match o with Some a => timeout_at deadline (k a) | None => Ret None end)
  end.

(** ** JSON *)

Class RemoteCodec := {
  encode_command : RemoteCommand -> str;
  decode_command : str -> option RemoteCommand;
  encode_envelope : ReplyEnvelope -> str;
  decode_envelope : str -> option ReplyEnvelope;
  encode_devices : Devices -> str;
  decode_devices : str -> option Devices;

  decode_encode_command c : decode_command (encode_command c) = Some c;
  decode_encode_envelope e : decode_envelope (encode_envelope e) = Some e \/ decode_envelope (encode_envelope e) = None;
  decode_encode_devices d : decode_devices (encode_devices d) = Some d
}.

(** ** Errors *)

Record StoreError := { missing : bool; message : str }.

Section store.
Context (to_lowercase : str -> str) `{RemoteCodec} (prefix : str).

Definition failed (what : str) (chain : list str) : StoreError :=
  let text := join (lit ": ") chain in
  {| missing := existsb (fun marker => contains_str marker (to_lowercase text)) MISSING_MARKERS;
     message := lit "remote " ++ what ++ lit ": " ++ text |}.

Definition out_of_budget (what : str) : StoreError :=
  {| missing := false;
     message := lit "remote " ++ what ++ lit ": no answer in " ++ to_string REQUEST_BUDGET ++ lit " ms" |}.

(** [in_budget(what, request).await?.map_err(|error| failed(what, error))]. *)
Definition asked {A} (what : str) (a : Answer A) : result A StoreError :=
  match a with
  | NoAnswer => Err (out_of_budget what)
  | Broken chain => Err (failed what chain)
  | Given x => Ok x
  end.

Definition ask {A} (what : str) (e : Nats (Answer A)) : prog (result A StoreError) :=
  a ← trigger e; mret (asked what a).

Definition told {A} (what : str) (e : Nats (result A (list str))) : prog (result A StoreError) :=
  r ← trigger e; mret (match r with Ok x => Ok x | Err chain => Err (failed what chain) end).

(** ** Opening *)

Definition commands_stream : str := prefix ++ lit "_commands".
Definition bucket_name (kind : str) : str := prefix ++ lit "_" ++ kind.

Definition commands_config : StreamConfig :=
  {| sc_name := commands_stream; sc_subjects := [prefix ++ lit ".cmd.*"]; sc_max_age := COMMANDS_AGE;
     sc_max_messages_per_subject := COMMANDS_PER_USER; sc_max_bytes := COMMANDS_BYTES;
     sc_max_message_size := MAX_COMMAND_BYTES; sc_discard_old := true; sc_duplicate_window := COMMANDS_AGE;
     sc_allow_direct := true |}.

Definition bucket_of (b : Bucket) : BucketConfig :=
  match b with
  | Replies => {| bc_name := bucket_name (lit "replies"); bc_history := 1; bc_max_age := REPLIES_AGE;
                  bc_max_bytes := REPLIES_BYTES; bc_max_value_size := MAX_REPLY_VALUE |}
  | DeviceLists => {| bc_name := bucket_name (lit "devices"); bc_history := 1; bc_max_age := DEVICES_AGE;
                      bc_max_bytes := DEVICES_BYTES; bc_max_value_size := MAX_DEVICES_VALUE |}
  | Claims => {| bc_name := bucket_name (lit "claims"); bc_history := 1; bc_max_age := COMMANDS_AGE;
                 bc_max_bytes := CLAIMS_BYTES; bc_max_value_size := MAX_CLAIM_VALUE |}
  end.

Definition open_bucket (b : Bucket) : prog (result unit StoreError) :=
  ask (lit "bucket") (EnsureBucket (bucket_of b)).

Definition open_store : prog (result unit StoreError) :=
  _ ←? ask (lit "commands stream") (EnsureStream commands_config);
  _ ←? ask (lit "commands stream") (GetStream commands_stream);
  _ ←? open_bucket Replies;
  _ ←? open_bucket DeviceLists;
  open_bucket Claims.

(** ** Commands *)

Definition command_subject (user : str) : str := prefix ++ lit ".cmd." ++ user.
Definition reply_subject (id : Z) : str := prefix ++ lit ".reply." ++ uuid_to_string id.
Definition command_key (user : str) (id : Z) : str := user ++ lit "." ++ uuid_to_string id.

Definition store_publish (c : RemoteCommand) : prog (result unit StoreError) :=
  _ ←? told (lit "command publish")
         (SendCommand (command_subject (rc_user c)) (uuid_to_string (rc_id c)) (encode_command c));
  told (lit "command ack") AwaitAck.

Definition last_seq : prog (result Z StoreError) := ask (lit "commands info") StreamInfo.

Definition with_seq (seq : Z) (c : RemoteCommand) : RemoteCommand :=
  {| rc_id := rc_id c; rc_kind := rc_kind c; rc_seq := seq; rc_user := rc_user c; rc_source := rc_source c;
     rc_text := rc_text c; rc_hint := rc_hint c; rc_created_at := rc_created_at c; rc_expires_at := rc_expires_at c |}.

(** [Stored]: the sequence and the command, when it can be read. *)
Definition next_after (user : str) (seq : Z) : prog (result (option (Z * option RemoteCommand)) StoreError) :=
  r ←? ask (lit "command read") (NextFor (command_subject user) (seq +u64 1));
  mret (Ok (match r with
            | Some (sequence, payload) =>
                Some (sequence, with_seq (wrap_i64 sequence) <$> decode_command payload)
            | None => None
            end)).

Definition wake (user : str) : prog (result unit StoreError) :=
  told (lit "wake subscription") (Subscribe (command_subject user)).

Definition replies_to (id : Z) : prog (result unit StoreError) :=
  told (lit "reply subscription") (Subscribe (reply_subject id)).

(** ** Replies *)

Definition record_reply (e : ReplyEnvelope) : prog (result unit StoreError) :=
  let body := encode_envelope e in
  let key := command_key (re_user e) (rr_id (re_reply e)) in
  created ←? ask (lit "reply store") (KvCreate Replies key body);
  first ←? (match created with
            | Created => mret (Ok (Some body))
            | AlreadyExists _ => ask (lit "reply read") (KvGet Replies key)
            end);
  match first with
  | Some body => told (lit "reply publish") (CorePublish (reply_subject (rr_id (re_reply e))) body)
  | None => mret (Ok tt)
  end.

Definition reply_for (user : str) (id : Z) : prog (result (option ReplyEnvelope) StoreError) :=
  stored ←? ask (lit "reply read") (KvGet Replies (command_key user id));
  mret (Ok (match stored ≫= decode_envelope with
            | Some e => if str_eqb (re_user e) user && (rr_id (re_reply e) =? id) then Some e else None
            | None => None
            end)).

(** ** Claims *)

Definition claim (user : str) (id : Z) (device : str) : prog (result bool StoreError) :=
  created ←? ask (lit "claim") (KvCreate Claims (command_key user id) device);
  match created with
  | Created => mret (Ok true)
  | AlreadyExists _ =>
      holder ←? ask (lit "claim read") (KvGet Claims (command_key user id));
      mret (Ok (match holder with Some h => str_eqb h device | None => false end))
  end.

Definition claimed (user : str) (id : Z) : prog (result bool StoreError) :=
  holder ←? ask (lit "claim read") (KvGet Claims (command_key user id));
  mret (Ok (is_some holder)).

(** ** Devices *)

Definition read_devices (user : str) : prog (result Devices StoreError) :=
  stored ←? ask (lit "devices read") (KvGet DeviceLists user);
  mret (Ok (default [] (stored ≫= decode_devices))).

Fixpoint note_device_tries (tries : nat) (last : option StoreError) (user device : str) (active now_ms : Z)
  : prog (result unit StoreError) :=
  match tries with
  | O => mret (Err (default {| missing := false; message := lit "remote devices: the entry keeps changing" |} last))
  | S tries' =>
      entry ←? ask (lit "devices read") (KvEntry DeviceLists user);
      let '(devices, revision) :=
        match entry with
        | Some {| en_value := Some value; en_revision := revision |} =>
            (default [] (decode_devices value), Some revision)
        | Some {| en_value := None; en_revision := revision |} => ([], Some revision)
        | None => ([], None)
        end in
      let body := encode_devices (note devices device active now_ms) in
      (* a write past its budget returns at once, one that is refused is tried again *)
      written ← (match revision with
                 | Some revision => a ← trigger (KvUpdate DeviceLists user body revision);
                                    mret (match a with NoAnswer => None | Broken chain => Some (Err chain)
                                                     | Given _ => Some (Ok tt) end)
                 | None => a ← trigger (KvCreate DeviceLists user body);
                           mret (match a with NoAnswer => None
                                            | Broken chain | Given (AlreadyExists chain) => Some (Err chain)
                                            | Given Created => Some (Ok tt) end)
                 end);
      match written with
      | None => mret (Err (out_of_budget (lit "devices write")))
      | Some (Ok _) => mret (Ok tt)
      | Some (Err chain) =>
          let error := failed (lit "devices write") chain in
          if missing error then mret (Err error) else note_device_tries tries' (Some error) user device active now_ms
      end
  end.

Definition note_device (user device : str) (active now_ms : Z) : prog (result unit StoreError) :=
  note_device_tries DEVICE_WRITE_TRIES None user device active now_ms.
End store.
