(* ===== verification/RemoteHub.v ===== *)
(** * RemoteHub: asking a device and answering for it

    Source: [api/src/modules/remote/hub.rs] and the reading of requests in [handlers.rs].
    Each operation of the hub is a program of the effects of [RemoteStore].  The reading
    of a version 7 uuid is a class.  Two loops of the source last as long as something
    arrives: listening for a reply and waiting for a wake; [messages] and [rounds] bound
    how many arrive before the deadline, and the theorems are about all bounds. *)

From Stdlib Require Import ZArith Lia String.
From stdpp Require Import base list numbers option tactics.
From S2P Require Import Prelude Text AppError RoomModel RemoteDevices RemoteStore.
Local Open Scope Z_scope.
Local Open Scope rust_scope.

Definition PUBLISH_BUDGET : Z := 1000.
Definition ANNOUNCE_BUDGET : Z := 1000.
Definition CONNECT_BUDGET : Z := 2000.
Definition LATE_ANSWER_BUDGET : Z := 50.
Definition REOPEN_AFTER : Z := 5000.
Definition RECHECK_AFTER : Z := 50.
Definition EXPIRY_MARGIN_MS : Z := 1000.
Definition REPLY_WINDOW_MARGIN_MS : Z := 30000.
Definition REPLY_CLOCK_SKEW_MS : Z := 30000.
Definition PRESENCE_REFRESH : Z := DEVICE_TTL_MS / 2.

Inductive Asked := AskedReply (r : RemoteReply) | AskedOffline | AskedSilent | AskedBusy.
Inductive Refused := TooManyDevices | RefusedUnavailable.
Inductive Unreached := UnreachedOffline | UnreachedBusy.
Inductive Replied := Recorded | ReplyUnknown | ReplyBusy.
Inductive Published := PublishSent | PublishUnsure | PublishFailed.

Record Draft := { df_kind : CommandKind; df_source : str; df_text : str; df_hint : option str }.

Record Scan := { sc_from : Z; sc_ready : list RemoteCommand; sc_devices : Devices; sc_presence_ok : bool }.

(** [Uuid::get_version] being [SortRand], and [get_timestamp] with [to_unix]: the seconds
    and nanoseconds of a 48-bit count of milliseconds. *)
Class UuidTime := {
  sorts_by_time : Z -> bool;
  unix_time : Z -> option (Z * Z);
  unix_time_range id seconds nanos : unix_time id = Some (seconds, nanos) ->
    0 <= seconds <= 281474976710 /\ 0 <= nanos < 1000000000
}.

(** ** The slot of the store *)

Record StoreSlot := { slot_store : option nat; slot_failed_at : option Z }.

Definition cached (now : Z) (slot : StoreSlot) : Cached :=
  match slot_store slot with
  | Some store => Open store
  | None => match slot_failed_at slot with
            | Some at_ => if now - at_ <? REOPEN_AFTER then Failing else Unknown
            | None => Unknown
            end
  end.

(** [Attempt::drop], and the error branch of [store]. *)
Definition slot_fail (now : Z) (slot : StoreSlot) : StoreSlot :=
  {| slot_store := slot_store slot; slot_failed_at := Some now |}.

Definition slot_open (store : nat) (slot : StoreSlot) : StoreSlot :=
  {| slot_store := Some store; slot_failed_at := None |}.

(** [forget]; whether the announced devices are forgotten too. *)
Definition forget (store : nat) (slot : StoreSlot) : StoreSlot * bool :=
  if bool_decide (slot_store slot = Some store)
  then ({| slot_store := None; slot_failed_at := slot_failed_at slot |}, true) else (slot, false).

(** What the effects on the slot do to it. *)
Inductive SlotEvent := Attempted (store : option nat) | Forgotten (store : nat).

Definition slot_event (now : Z) (slot : StoreSlot) (e : SlotEvent) : StoreSlot :=
  match e with
  | Attempted (Some store) => slot_open store slot
  | Attempted None => slot_fail now slot
  | Forgotten store => (forget store slot).1
  end.

(** A store that is open stays the one in use until it is forgotten itself: what is said
    of an older store does not close a newer one. *)
Lemma open_until_forgotten now slot store events :
  slot_store slot = Some store -> Forall (fun e => match e with Forgotten other => other <> store | Attempted o => o = None end) events ->
  cached now (foldl (slot_event now) slot events) = Open store.
Proof.
  revert slot. induction events as [|e events IH]; intros slot Hs He; [unfold cached; cbn; by rewrite Hs|].
  inversion He as [|? ? He1 Hes]; subst. cbn. apply IH; [|done]. destruct e as [o|other]; cbn.
  - by rewrite He1.
  - unfold forget. rewrite bool_decide_false; [done|]. congruence.
Qed.

(** After a failed attempt the store is not tried again for five seconds. *)
Lemma failed_attempt_waits now slot later_ :
  slot_store slot = None -> now <= later_ < now + REOPEN_AFTER -> cached later_ (slot_event now slot (Attempted None)) = Failing.
Proof. intros Hs Hl. unfold cached. cbn. rewrite Hs. by destruct (Z.ltb_spec (later_ - now) REOPEN_AFTER); [|lia]. Qed.

(** ** Requests, [handlers.rs] *)

Definition MAX_DEVICE_LEN : nat := 64.

(** [number]; [Err] is a bad request. *)
Definition number (raw : option str) : result (option Z) unit :=
  match trim <$> raw with
  | None | Some [] => Ok None
  | Some text => match parse_i64 text with Some n => Ok (Some n) | None => Err tt end
  end.

(** The device a request names. *)
Definition request_device (device : option str) : str := take MAX_DEVICE_LEN (default [] device).

(** What a reply shows, in the request's newer field or its older one. *)
Definition request_display (display text : str) : str := if bool_decide (display = []) then text else display.

(** ** Checks *)

Definition is_ascii_alphanumeric (c : char) : bool :=
  is_ascii_digit c || is_ascii_lowercase c || is_ascii_uppercase c.

Definition subject_safe (user : str) : bool :=
  negb (bool_decide (user = [])) && forallb (fun c => is_ascii_alphanumeric c || (c =? 45) || (c =? 95)) user.

Section hub.
Context (to_lowercase : str -> str) `{RemoteCodec} `{UuidTime} (prefix : str) (has_nats : bool).

Definition fresh_command_id (id now_ms : Z) : bool :=
  if negb (sorts_by_time id) then false
  else match unix_time id with
       | None => false
       | Some (seconds, nanos) =>
           let created_ms := seconds * 1000 +i64 nanos / 1000000 in
           let window_ms := COMMANDS_AGE + REPLY_WINDOW_MARGIN_MS in
           (created_ms <=? (now_ms +i64 REPLY_CLOCK_SKEW_MS)) && ((now_ms -i64 created_ms) <=? window_ms)
       end.

(** ** The store *)

Definition hub_store : prog (option nat) :=
  if negb has_nats then mret None else
  connected ← trigger Connected;
  if negb (connected : bool) then mret None else
  c ← trigger SlotCached;
  match c with
  | Open store => mret (Some store)
  | Failing => mret None
  | Unknown =>
      _ ← trigger LockOpening;
      c ← trigger SlotCached;
      match c with
      | Open store => _ ← trigger UnlockOpening; mret (Some store)
      | Failing => _ ← trigger UnlockOpening; mret None
      | Unknown =>
          opened ← open_store to_lowercase prefix;
          r ← (match opened with
               | Ok _ => store ← trigger SlotOpened; mret (Some store)
               | Err _ => _ ← trigger SlotFailed; mret None
               end);
          _ ← trigger UnlockOpening;
          mret r
      end
  end.

(** [checked]. *)
Definition checked {A} (store : nat) (r : result A StoreError) : prog (option A) :=
  match r with
  | Ok a => mret (Some a)
  | Err e => if missing e then _ ← trigger (SlotForget store); mret None else mret None
  end.

Definition prepare : prog bool :=
  connected ← (if has_nats then trigger (WaitConnected CONNECT_BUDGET) else mret true);
  if negb (connected : bool) then mret false else
  s ← hub_store; mret (is_some s).

Definition reachable (user : str) : prog (result nat Unreached) :=
  if negb (subject_safe user) then mret (Err UnreachedOffline) else
  s ← hub_store;
  match s with
  | None => mret (Err UnreachedBusy)
  | Some store =>
      r ← read_devices to_lowercase user;
      devices ← checked store r;
      match devices with
      | None => mret (Err UnreachedBusy)
      | Some devices =>
          now ← trigger Now;
          mret (match winner devices now with Some _ => Ok store | None => Err UnreachedOffline end)
      end
  end.

(** ** Asking *)

Definition new_command (user : str) (draft : Draft) (deadline : Z) : prog RemoteCommand :=
  created_at ← trigger Now;
  now ← trigger InstantNow;
  id ← trigger NewId;
  let budget := Z.max 0 (deadline - now) in
  mret {| rc_id := id; rc_kind := df_kind draft; rc_seq := 0; rc_user := user; rc_source := df_source draft;
          rc_text := df_text draft; rc_hint := df_hint draft; rc_created_at := created_at;
          rc_expires_at := (created_at +i64 wrap_i64 budget) +i64 EXPIRY_MARGIN_MS |}.

Definition publish (store : nat) (c : RemoteCommand) (until : Z) : prog Published :=
  r ← timeout_at until (store_publish to_lowercase prefix c);
  match r with
  | Some r => o ← checked store r; mret (match o with Some _ => PublishSent | None => PublishFailed end)
  | None => mret PublishUnsure
  end.

Definition answer (user : str) (id : Z) : prog (option RemoteReply) :=
  if negb (subject_safe user) then mret None else
  s ← hub_store;
  match s with
  | None => mret None
  | Some store =>
      r ← reply_for to_lowercase user id;
      o ← checked store r;
      mret (re_reply <$> (o ≫= fun e => e))
  end.

(** The loop over the replies that are heard. *)
Fixpoint listen (messages : nat) (user : str) (id : Z) : prog (option RemoteReply) :=
  match messages with
  | O => mret None
  | S messages' =>
      m ← trigger (NextReply (reply_subject prefix id));
      match m with
      | None => mret None
      | Some payload =>
          match decode_envelope payload with
          | Some e => if str_eqb (re_user e) user && (rr_id (re_reply e) =? id) then mret (Some (re_reply e))
                      else listen messages' user id
          | None => listen messages' user id
          end
      end
  end.

Definition dispatch (messages : nat) (user : str) (kind : CommandKind) (source text : str) (deadline : Z)
  : prog Asked :=
  reached ← timeout_at deadline (reachable user);
  match reached with
  | Some (Err UnreachedOffline) => mret AskedOffline
  | Some (Err UnreachedBusy) | None => mret AskedBusy
  | Some (Ok store) =>
      let draft := {| df_kind := kind; df_source := source; df_text := text; df_hint := None |} in
      command ← new_command user draft deadline;
      r ← replies_to to_lowercase prefix (rc_id command);
      subscribed ← checked store r;
      match subscribed with
      | None => mret AskedBusy
      | Some _ =>
          now ← trigger InstantNow;
          sent ← publish store command (Z.min (now + PUBLISH_BUDGET) deadline);
          match sent with
          | PublishFailed => mret AskedBusy
          | PublishSent | PublishUnsure =>
              let listen_until := if LATE_ANSWER_BUDGET <=? deadline then deadline - LATE_ANSWER_BUDGET else deadline in
              heard ← timeout_at listen_until (listen messages user (rc_id command));
              match heard with
              | Some (Some reply) => mret (AskedReply reply)
              | _ =>
                  late ← timeout_at deadline (answer user (rc_id command));
                  mret (match late with Some (Some reply) => AskedReply reply | _ => AskedSilent end)
              end
          end
      end
  end.

Definition link_confirm (user : str) (provider : LinkProvider) (hint : str) : prog (result RemoteCommand Unreached) :=
  r ← reachable user;
  match r with
  | Err e => mret (Err e)
  | Ok _ =>
      let draft := {| df_kind := LinkConfirmKind; df_source := LinkProviders.as_str provider; df_text := [];
                      df_hint := Some hint |} in
      now ← trigger InstantNow;
      c ← new_command user draft (now + CONFIRM_HOLD_SECS * 1000);
      mret (Ok c)
  end.

Definition post (c : RemoteCommand) : prog bool :=
  s ← hub_store;
  match s with
  | None => mret false
  | Some store =>
      now ← trigger InstantNow;
      p ← publish store c (now + PUBLISH_BUDGET);
      mret (match p with PublishFailed => false | _ => true end)
  end.

Definition reply (user : str) (r : RemoteReply) : prog Replied :=
  if negb (subject_safe user) then mret ReplyUnknown else
  now ← trigger Now;
  if negb (fresh_command_id (rr_id r) now) then mret ReplyUnknown else
  s ← hub_store;
  match s with
  | None => mret ReplyBusy
  | Some store =>
      c ← claimed to_lowercase user (rr_id r);
      was_claimed ← checked store c;
      match was_claimed with
      | None => mret ReplyBusy
      | Some false => mret ReplyUnknown
      | Some true =>
          w ← record_reply to_lowercase prefix {| re_user := user; re_reply := r |};
          recorded ← checked store w;
          mret (match recorded with Some _ => Recorded | None => ReplyBusy end)
      end
  end.

(** ** Waiting for commands *)

Definition presence_due (user device : str) (active now : Z) : prog bool :=
  sent ← trigger (AnnouncedGet user device);
  let due := match sent with
             | Some (sent_active, sent_at) => negb (sent_active =? active) || (PRESENCE_REFRESH <=? now - sent_at)
             | None => true
             end in
  if due then _ ← trigger (AnnouncedPut user device active now); mret true else mret false.

Definition announce (store : nat) (user device : str) (active : Z) : prog bool :=
  now ← trigger InstantNow;
  due ← presence_due user device active now;
  if negb (due : bool) then mret true else
  ms ← trigger Now;
  at_ ← trigger InstantNow;
  written ← timeout_at (at_ + ANNOUNCE_BUDGET) (note_device to_lowercase user device active ms);
  noted ← (match written with
           | Some r => o ← checked store r; mret (is_some o)
           | None => mret false
           end);
  if (noted : bool) then mret true else _ ← trigger (AnnouncedForget user device); mret false.

Definition active_device (user : str) : prog (option str) :=
  if negb (subject_safe user) then mret None else
  s ← hub_store;
  match s with
  | None => mret None
  | Some store =>
      r ← read_devices to_lowercase user;
      devices ← checked store r;
      match devices with
      | None => mret None
      | Some devices => now ← trigger Now; mret (winner devices now)
      end
  end.

Definition deliverable (store : nat) (c : RemoteCommand) (device : str) : prog (option bool) :=
  r ← reply_for to_lowercase (rc_user c) (rc_id c);
  answered ← checked store r;
  match answered with
  | None => mret None
  | Some (Some _) => mret (Some false)
  | Some None =>
      r ← claim to_lowercase (rc_user c) (rc_id c) device;
      checked store r
  end.

Definition advance (seq : Z) (s : Scan) : Scan :=
  {| sc_from := seq; sc_ready := sc_ready s; sc_devices := sc_devices s; sc_presence_ok := sc_presence_ok s |}.
Definition push_ready (c : RemoteCommand) (s : Scan) : Scan :=
  {| sc_from := sc_from s; sc_ready := sc_ready s ++ [c]; sc_devices := sc_devices s; sc_presence_ok := sc_presence_ok s |}.

(** [scan]: the loop of [scan_once] under the deadline.  The scan is what was reached
    when the deadline cuts it off, so each of its calls is awaited under the deadline. *)
Fixpoint scan_commands (limit : nat) (deadline : Z) (store : nat) (user device : str) (now : Z) (s : Scan)
  : prog Scan :=
  match limit with
  | O => mret s
  | S limit' =>
      read ← timeout_at deadline (r ← next_after to_lowercase prefix user (sc_from s); checked store r);
      match read with
      | Some (Some (Some (seq, command))) =>
          match command with
          | Some c =>
              if negb (now <? rc_expires_at c) then scan_commands limit' deadline store user device now (advance seq s)
              else if is_target (sc_devices s) device now then
                d ← timeout_at deadline (deliverable store c device);
                match d with
                | Some (Some true) =>
                    scan_commands limit' deadline store user device now (advance seq (push_ready c s))
                | Some (Some false) => scan_commands limit' deadline store user device now (advance seq s)
                | Some None | None => mret s
                end
              else if negb (sc_presence_ok s) then mret s
              else scan_commands limit' deadline store user device now (advance seq s)
          | None => scan_commands limit' deadline store user device now (advance seq s)
          end
      | _ => mret s
      end
  end.

Definition scan (deadline : Z) (store : nat) (user device : str) (s : Scan) : prog Scan :=
  d ← timeout_at deadline (r ← read_devices to_lowercase user; checked store r);
  match d with
  | Some (Some devices) =>
      now ← trigger Now;
      scan_commands SCAN_LIMIT deadline store user device now
        {| sc_from := sc_from s; sc_ready := sc_ready s; sc_devices := devices; sc_presence_ok := sc_presence_ok s |}
  | _ => mret s
  end.

Fixpoint settle_rounds (rounds : nat) (pause : option Z) (deadline : Z) (store : nat) (user device : str) (s : Scan)
  : prog Scan :=
  match rounds with
  | O => mret s
  | S rounds' =>
      if negb (bool_decide (sc_ready s = [])) then mret s else
      now ← trigger InstantNow;
      if negb (now <? deadline) then mret s else
      recheck ← (match pause with
                 | Some pause => at_ ← trigger InstantNow; mret (Z.min (at_ + pause) deadline)
                 | None => mret deadline
                 end);
      woke ← trigger (Select recheck);
      match woke with
      | Message =>
          s ← scan deadline store user device s;
          settle_rounds rounds' (Some RECHECK_AFTER) deadline store user device s
      | WakeClosed | ReplacedWait => mret s
      | Slept =>
          match pause with
          | Some current =>
              s ← scan deadline store user device s;
              settle_rounds rounds' (Some (current * 2)) deadline store user device s
          | None => mret s
          end
      end
  end.

Definition settle (rounds : nat) (deadline : Z) (store : nat) (user device : str) (s : Scan) : prog Scan :=
  s ← scan deadline store user device s;
  settle_rounds rounds None deadline store user device s.

(** The end of a [Slot] of [waits.rs]. *)
Definition leave (slot : option nat) : prog unit :=
  match slot with Some n => trigger (WaitsLeave n) | None => mret tt end.

(** [wait] once its slot is taken; the slot is dropped on every way out. *)
Definition wait_in_slot (rounds : nat) (deadline : Z) (store : nat) (user device : str) (active : Z) (since : option Z)
    (slot : option nat) : prog (result WaitResponse Refused) :=
  presence_ok ← announce store user device active;
  r ← last_seq to_lowercase;
  last ← checked store r;
  match last with
  | None => _ ← leave slot; mret (Err RefusedUnavailable)
  | Some last =>
      match (since ≫= fun n => let n := Z.max 0 n in if n <=? last then Some n else None), slot with
      | Some n, Some _ =>
          r ← wake to_lowercase prefix user;
          woken ← checked store r;
          match woken with
          | None => _ ← leave slot; mret (Err RefusedUnavailable)
          | Some _ =>
              sc ← settle rounds deadline store user device
                     {| sc_from := n; sc_ready := []; sc_devices := []; sc_presence_ok := presence_ok |};
              now ← trigger Now;
              _ ← leave slot;
              mret (Ok {| wr_cursor := wrap_i64 (sc_from sc); wr_commands := sc_ready sc;
                          wr_active_device := winner (sc_devices sc) now |})
          end
      | _, _ =>
          _ ← leave slot;
          active ← active_device user;
          mret (Ok {| wr_cursor := wrap_i64 last; wr_commands := []; wr_active_device := active |})
      end
  end.

Definition hub_wait (rounds : nat) (user device : str) (active : Z) (since : option Z) (hold : Z)
  : prog (result WaitResponse Refused) :=
  now ← trigger InstantNow;
  if negb (subject_safe user) then mret (Err RefusedUnavailable) else
  s ← hub_store;
  match s with
  | None => mret (Err RefusedUnavailable)
  | Some store =>
      match since with
      | None => wait_in_slot rounds (now + hold) store user device active since None
      | Some _ =>
          slot ← trigger (WaitsEnter user device);
          match slot with
          | None => mret (Err TooManyDevices)
          | Some _ => wait_in_slot rounds (now + hold) store user device active since slot
          end
      end
  end.
End hub.
