(* ===== verification/RemoteSystem.v ===== *)
(** * RemoteSystem: the hubs of all nodes at work on one NATS

    Waits, questions, replies and confirmations run as the programs of [RemoteHub], one
    effect at a time and interleaved in any order; a request may fail after it took
    effect, or take effect late, and a worker may stop anywhere.  A bucket of NATS is a
    parameter whose laws state that a create succeeds exactly on a key that is not
    there and that an entry stays until its age is over; [gmap_kv] shows that they can
    hold.  Messages may be lost or seen late: a read finds any command ever sent to its
    subject, or none.  The clocks of the nodes agree with the server's up to [skew], and
    a worker's requests take effect within [patience] of its beginning. *)

From Stdlib Require Import ZArith Lia String.
From stdpp Require Import base list numbers option tactics sets gmap fin_maps relations.
From S2P Require Import Prelude Text RoomModel RemoteDevices RemoteStore RemoteHub.
Local Open Scope Z_scope.

(** ** A bucket of NATS, its entries with the time they were written *)

Class Kv (db : Type) (age : Z) := {
  kv_at : db -> Z -> str -> option (str * Z);
  kv_create : str -> str -> Z -> db -> bool * db;

  kv_later d now now' k : now <= now' ->
    kv_at d now' k = kv_at d now k
    \/ exists v w, kv_at d now k = Some (v, w) /\ w + age <= now' /\ kv_at d now' k = None;
  kv_create_result k v now d : (kv_create k v now d).1 = bool_decide (kv_at d now k = None);
  kv_create_law k v now d k' :
    kv_at (kv_create k v now d).2 now k'
    = if decide (k' = k /\ kv_at d now k = None) then Some (v, now) else kv_at d now k'
}.
Arguments kv_at {db} age {_}.
Arguments kv_create {db} age {_}.

Definition gmap_kv_at (age : Z) (d : gmap str (str * Z)) (now : Z) (k : str) : option (str * Z) :=
  match d !! k with Some (v, w) => if now <? w + Z.max 1 age then Some (v, w) else None | None => None end.

#[export] Program Instance gmap_kv age : Kv (gmap str (str * Z)) age := {|
  kv_at := gmap_kv_at age;
  kv_create k v now d :=
    match gmap_kv_at age d now k with Some _ => (false, d) | None => (true, <[k := (v, now)]> d) end
|}.
Next Obligation.
  unfold gmap_kv_at. intros age d now now' k Hn. destruct (d !! k) as [[v w]|]; [|by left].
  destruct (Z.ltb_spec now (w + Z.max 1 age)), (Z.ltb_spec now' (w + Z.max 1 age)); try (by left); try lia.
  right. exists v, w. split_and!; [done|lia|done].
Qed.
Next Obligation. intros age k v now d. cbn. by destruct (gmap_kv_at age d now k). Qed.
Next Obligation.
  intros age k v now d k'. cbn. destruct (gmap_kv_at age d now k) eqn:E; cbn.
  - by rewrite decide_False by naive_solver.
  - unfold gmap_kv_at. case_decide as Hk.
    + destruct Hk as [-> _]. rewrite lookup_insert_eq. by destruct (Z.ltb_spec now (now + Z.max 1 age)); [|lia].
    + by rewrite lookup_insert_ne by naive_solver.
Qed.

(** ** Jobs *)

Inductive Job :=
| JWait (user device : str) (active : Z) (since : option Z) (rounds : nat)
| JDispatch (user : str) (kind : CommandKind) (source text : str) (deadline : Z) (messages : nat)
| JReply (user : str) (r : RemoteReply)
| JAnswer (user : str) (id : Z)
| JConfirm (user : str) (provider : LinkProvider) (hint : str).

Inductive Outcome :=
| OWait (r : result WaitResponse Refused)
| OAsked (a : Asked)
| OReplied (r : Replied)
| OAnswer (r : option RemoteReply)
| OConfirm (posted : result bool Unreached).

Definition HOLD : Z := WAIT_HOLD_SECS * 1000.
(** No question is asked for longer than a confirmation. *)
Definition LONGEST_ASK : Z := CONFIRM_HOLD_SECS * 1000.
(** No time past this is a [DateTime<Utc>] of chrono. *)
Definition CLOCK_END : Z := 8300000000000000.
Definition uuid_end : Z := 2 ^ 128.

Section system.
Context {cdb rdb : Type} `{!Kv cdb COMMANDS_AGE} `{!Kv rdb REPLIES_AGE}.
Context (to_lowercase : str -> str) {codec : RemoteCodec} {uuids : UuidTime} (prefix : str) (has_nats : bool).
Context (skew patience : Z).

Definition job_program (j : Job) : prog Outcome :=
  match j with
  | JWait user device active since rounds =>
      r ← hub_wait to_lowercase prefix has_nats rounds user device active since HOLD; mret (OWait r)
  | JDispatch user kind source text deadline messages =>
      r ← dispatch to_lowercase prefix has_nats messages user kind source text deadline; mret (OAsked r)
  | JReply user r => r ← reply to_lowercase prefix has_nats user r; mret (OReplied r)
  | JAnswer user id => r ← answer to_lowercase prefix has_nats user id; mret (OAnswer r)
  | JConfirm user provider hint =>
      r ← link_confirm to_lowercase prefix has_nats user provider hint;
      match r with
      | Ok c => b ← post to_lowercase prefix has_nats c; mret (OConfirm (Ok b))
      | Err e => mret (OConfirm (Err e))
      end
  end.

(** ** What the effects may answer *)

Record World := {
  clock : Z;
  claims : cdb;
  replies : rdb;
  stream : list (str * str);      (** every command sent, its subject and body *)
  heard : list (str * str);       (** every reply published, its subject and body *)
  born : gmap Z Z;                (** the ids drawn, and when *)
  begun : list Job }.

Definition set_claims (d : cdb) (w : World) : World :=
  {| clock := clock w; claims := d; replies := replies w; stream := stream w; heard := heard w; born := born w; begun := begun w |}.
Definition set_replies (d : rdb) (w : World) : World :=
  {| clock := clock w; claims := claims w; replies := d; stream := stream w; heard := heard w; born := born w; begun := begun w |}.
Definition add_stream (x : str * str) (w : World) : World :=
  {| clock := clock w; claims := claims w; replies := replies w; stream := x :: stream w; heard := heard w; born := born w; begun := begun w |}.
Definition add_heard (x : str * str) (w : World) : World :=
  {| clock := clock w; claims := claims w; replies := replies w; stream := stream w; heard := x :: heard w; born := born w; begun := begun w |}.
Definition add_born (id : Z) (w : World) : World :=
  {| clock := clock w; claims := claims w; replies := replies w; stream := stream w; heard := heard w;
     born := <[id := clock w]> (born w); begun := begun w |}.
Definition add_begun (j : Job) (w : World) : World :=
  {| clock := clock w; claims := claims w; replies := replies w; stream := stream w; heard := heard w; born := born w; begun := j :: begun w |}.
Definition set_clock (t : Z) (w : World) : World :=
  {| clock := t; claims := claims w; replies := replies w; stream := stream w; heard := heard w; born := born w; begun := begun w |}.

Definition create_claim (k v : str) (w : World) : bool * World :=
  let '(b, d) := kv_create COMMANDS_AGE k v (clock w) (claims w) in (b, set_claims d w).
Definition create_reply (k v : str) (w : World) : bool * World :=
  let '(b, d) := kv_create REPLIES_AGE k v (clock w) (replies w) in (b, set_replies d w).

(** A create: it answers as it did, or fails with or without effect. *)
Definition creates (r : bool * World) (w : World) (a : Answer Creation) (w' : World) : Prop :=
  match a with
  | Given Created => r.1 = true /\ w' = r.2
  | Given (AlreadyExists _) => r.1 = false /\ w' = w
  | NoAnswer | Broken _ => w' = w \/ w' = r.2
  end.

Definition reads {A} (x : A) (w : World) (a : Answer A) (w' : World) : Prop :=
  w' = w /\ match a with Given y => y = x | _ => True end.

Definition sends (w1 w : World) (a : result unit (list str)) (w' : World) : Prop :=
  match a with Ok _ => w' = w1 | Err _ => w' = w \/ w' = w1 end.

Fixpoint serve (w : World) {A} (e : Nats A) : A -> World -> Prop :=
  match e in Nats A return A -> World -> Prop with
  | Now => fun a w' => w' = w /\ clock w - skew <= a <= clock w + skew
  | InstantNow => fun a w' => w' = w /\ a = clock w
  | NewId => fun a w' => born w !! a = None /\ 0 <= a < uuid_end /\ w' = add_born a w
  | NextFor subject _ => fun a w' =>
      w' = w /\ match a with Given (Some (_, p)) => (subject, p) ∈ stream w | _ => True end
  | SendCommand subject _ body => sends (add_stream (subject, body) w) w
  | CorePublish subject body => sends (add_heard (subject, body) w) w
  | NextReply subject => fun a w' => w' = w /\ match a with Some p => (subject, p) ∈ heard w | None => True end
  | KvGet b k =>
      match b with
      | Claims => reads (fst <$> kv_at COMMANDS_AGE (claims w) (clock w) k) w
      | Replies => reads (fst <$> kv_at REPLIES_AGE (replies w) (clock w) k) w
      | DeviceLists => fun _ w' => w' = w
      end
  | KvCreate b k v =>
      match b with
      | Claims => creates (create_claim k v w) w
      | Replies => creates (create_reply k v w) w
      | DeviceLists => fun _ w' => w' = w
      end
  | Until d e' => fun o w' =>
      match o with
      | Some a => clock w <= d /\ serve w e' a w'
      | None => w' = w \/ exists a, serve w e' a w'
      end
  | _ => fun _ w' => w' = w
  end.

(** ** Steps *)

Record Worker := { w_job : Job; w_start : Z; w_prog : prog Outcome }.

Record Sys := { world : World; workers : gmap nat Worker; finished : list (Job * Outcome) }.

(** A uuid has 128 bits; no question is asked for longer than [LONGEST_ASK]. *)
Definition job_allowed (now : Z) (j : Job) : Prop :=
  match j with
  | JDispatch _ _ _ _ deadline _ => deadline <= now + LONGEST_ASK
  | JReply _ r => 0 <= rr_id r < uuid_end
  | _ => True
  end.

(** A reply that was sent in time may land as late as this. *)
Definition created_ms (id : Z) : Z :=
  match unix_time id with Some (seconds, nanos) => seconds * 1000 + nanos / 1000000 | None => 0 end.
Definition reply_end (id : Z) : Z := created_ms id + COMMANDS_AGE + REPLY_WINDOW_MARGIN_MS + skew + patience.
Definition reply_begin (id : Z) : Z := created_ms id - REPLY_CLOCK_SKEW_MS - skew.

Inductive remote_step (s : Sys) : Sys -> Prop :=
| step_tick t :
    clock (world s) <= t <= CLOCK_END ->
    remote_step s {| world := set_clock t (world s); workers := workers s; finished := finished s |}
| step_begin n j :
    workers s !! n = None -> job_allowed (clock (world s)) j ->
    remote_step s
      {| world := add_begun j (world s);
         workers := <[n := {| w_job := j; w_start := clock (world s); w_prog := job_program j |}]> (workers s);
         finished := finished s |}
| step_effect n j start A (e : Nats A) k a w' :
    workers s !! n = Some {| w_job := j; w_start := start; w_prog := Vis e k |} ->
    clock (world s) <= start + patience -> serve (world s) e a w' ->
    remote_step s
      {| world := w'; workers := <[n := {| w_job := j; w_start := start; w_prog := k a |}]> (workers s);
         finished := finished s |}
| step_finish n j start o :
    workers s !! n = Some {| w_job := j; w_start := start; w_prog := Ret o |} ->
    remote_step s {| world := world s; workers := delete n (workers s); finished := (j, o) :: finished s |}
| step_stop n :
    remote_step s {| world := world s; workers := delete n (workers s); finished := finished s |}
| step_late_claim c device :
    (command_subject prefix (rc_user c), encode_command c) ∈ stream (world s) ->
    remote_step s
      {| world := (create_claim (command_key (rc_user c) (rc_id c)) device (world s)).2;
         workers := workers s; finished := finished s |}
| step_late_reply user r :
    JReply user r ∈ begun (world s) -> reply_begin (rr_id r) <= clock (world s) <= reply_end (rr_id r) ->
    (exists c, (command_subject prefix user, encode_command c) ∈ stream (world s) /\ rc_user c = user /\ rc_id c = rr_id r) ->
    subject_safe user = true ->
    remote_step s
      {| world := (create_reply (command_key user (rr_id r)) (encode_envelope {| re_user := user; re_reply := r |})
                     (world s)).2;
         workers := workers s; finished := finished s |}.

Definition no_commands (t : Z) (c : cdb) (r : rdb) : Sys :=
  {| world := {| clock := t; claims := c; replies := r; stream := []; heard := []; born := ∅; begun := [] |};
     workers := ∅; finished := [] |}.
End system.
Arguments World : clear implicits.
Arguments Sys : clear implicits.
