(* ===== verification/RemoteProtocol.v ===== *)
(** * RemoteProtocol: what a worker of the hub may do, given what it was told

    A [Ghost] is what a worker learned so far.  [permit] says which effects that
    allows: a claim is made, or its holder asked, only for a command that was read and
    that had not run out when the scan began, and under a deadline; a reply is recorded
    only for a claimed command that is young enough; a command is sent with an id of its
    own and a bounded life; what is published is what is stored.  The programs of
    [RemoteHub] keep to it ([keeps_job]), and what they return is what they learned. *)

From Stdlib Require Import ZArith Lia String.
From stdpp Require Import base list numbers option tactics sets gmap fin_maps relations.
From S2P Require Import Prelude Text RoomModel RoomInvariant RemoteDevices RemoteStore RemoteHub RemoteSystem.
Local Open Scope Z_scope.

Create HintDb remote.

Record Ghost := {
  g_job : Job;
  g_instants : list Z;                       (** latest first, the beginning last *)
  g_nows : list (list Z * Z);                (** times told, with the instants before *)
  g_ids : list (Z * list Z * list Z);        (** ids drawn, with the times and instants before *)
  g_read : list (str * str);                 (** commands read: subject and body *)
  g_claimed : list str;                      (** keys seen to be claimed *)
  g_bodies : list (str * str);               (** replies known to be stored *)
  g_holders : list (str * str);              (** claims known in time *)
  g_heard : list (str * str) }.

Definition ghost_of (j : Job) (start : Z) : Ghost :=
  {| g_job := j; g_instants := [start]; g_nows := []; g_ids := []; g_read := []; g_claimed := []; g_bodies := [];
     g_holders := []; g_heard := [] |}.

Record extends (g g' : Ghost) : Prop := {
  ex_job : g_job g' = g_job g;
  ex_instants : g_instants g ⊆ g_instants g';
  ex_nows : g_nows g ⊆ g_nows g';
  ex_ids : g_ids g ⊆ g_ids g';
  ex_read : g_read g ⊆ g_read g';
  ex_claimed : g_claimed g ⊆ g_claimed g';
  ex_bodies : g_bodies g ⊆ g_bodies g';
  ex_holders : g_holders g ⊆ g_holders g';
  ex_heard : g_heard g ⊆ g_heard g' }.

Global Instance extends_preorder : PreOrder extends.
Proof.
  split.
  - intros g. by split.
  - intros g1 g2 g3 [] []. split; [congruence|etrans; eassumption..].
Qed.

Definition add_instant (i : Z) (g : Ghost) : Ghost :=
  {| g_job := g_job g; g_instants := i :: g_instants g; g_nows := g_nows g; g_ids := g_ids g; g_read := g_read g;
     g_claimed := g_claimed g; g_bodies := g_bodies g; g_holders := g_holders g; g_heard := g_heard g |}.
Definition add_now (v : Z) (g : Ghost) : Ghost :=
  {| g_job := g_job g; g_instants := g_instants g; g_nows := (g_instants g, v) :: g_nows g; g_ids := g_ids g;
     g_read := g_read g; g_claimed := g_claimed g; g_bodies := g_bodies g; g_holders := g_holders g; g_heard := g_heard g |}.
Definition add_id (a : Z) (g : Ghost) : Ghost :=
  {| g_job := g_job g; g_instants := g_instants g; g_nows := g_nows g;
     g_ids := (a, snd <$> g_nows g, g_instants g) :: g_ids g;
     g_read := g_read g; g_claimed := g_claimed g; g_bodies := g_bodies g; g_holders := g_holders g; g_heard := g_heard g |}.
Definition add_read (x : str * str) (g : Ghost) : Ghost :=
  {| g_job := g_job g; g_instants := g_instants g; g_nows := g_nows g; g_ids := g_ids g; g_read := x :: g_read g;
     g_claimed := g_claimed g; g_bodies := g_bodies g; g_holders := g_holders g; g_heard := g_heard g |}.
Definition add_claimed (k : str) (g : Ghost) : Ghost :=
  {| g_job := g_job g; g_instants := g_instants g; g_nows := g_nows g; g_ids := g_ids g; g_read := g_read g;
     g_claimed := k :: g_claimed g; g_bodies := g_bodies g; g_holders := g_holders g; g_heard := g_heard g |}.
Definition add_body (x : str * str) (g : Ghost) : Ghost :=
  {| g_job := g_job g; g_instants := g_instants g; g_nows := g_nows g; g_ids := g_ids g; g_read := g_read g;
     g_claimed := g_claimed g; g_bodies := x :: g_bodies g; g_holders := g_holders g; g_heard := g_heard g |}.
Definition add_holder (x : str * str) (g : Ghost) : Ghost :=
  {| g_job := g_job g; g_instants := g_instants g; g_nows := g_nows g; g_ids := g_ids g; g_read := g_read g;
     g_claimed := g_claimed g; g_bodies := g_bodies g; g_holders := x :: g_holders g; g_heard := g_heard g |}.
Definition add_heard_by (x : str * str) (g : Ghost) : Ghost :=
  {| g_job := g_job g; g_instants := g_instants g; g_nows := g_nows g; g_ids := g_ids g; g_read := g_read g;
     g_claimed := g_claimed g; g_bodies := g_bodies g; g_holders := g_holders g; g_heard := x :: g_heard g |}.

Section protocol.
Context (to_lowercase : str -> str) {codec : RemoteCodec} {uuids : UuidTime} (prefix : str) (has_nats : bool).

(** ** What is permitted *)

(** The key of a command that was read and had not run out, for a wait that ends by [d]. *)
Definition in_time (g : Ghost) (d : Z) (k : str) : Prop :=
  exists subject p c ins v i, (subject, p) ∈ g_read g /\ decode_command p = Some c
    /\ k = command_key (rc_user c) (rc_id c) /\ (ins, v) ∈ g_nows g /\ v < rc_expires_at c
    /\ i ∈ ins /\ d <= i + HOLD.

Definition sendable (g : Ghost) (c : RemoteCommand) : Prop :=
  subject_safe (rc_user c) = true
  /\ exists vs v i ins i0, (rc_id c, vs, i :: ins) ∈ g_ids g /\ v ∈ vs /\ i0 ∈ ins
     /\ rc_expires_at c <= v + EXPIRY_MARGIN_MS + Z.max 0 (i0 + LONGEST_ASK - i).

Definition recordable (g : Ghost) (k body : str) : Prop :=
  exists user r ins v, g_job g = JReply user r /\ body = encode_envelope {| re_user := user; re_reply := r |}
    /\ k = command_key user (rr_id r) /\ subject_safe user = true
    /\ (ins, v) ∈ g_nows g /\ fresh_command_id (rr_id r) v = true /\ k ∈ g_claimed g.

Fixpoint permit (od : option Z) (g : Ghost) {A} (e : Nats A) : Prop :=
  match e with
  | SendCommand subject _ body =>
      exists c, subject = command_subject prefix (rc_user c) /\ body = encode_command c /\ sendable g c
  | CorePublish subject body =>
      exists user id, subject = reply_subject prefix id /\ subject_safe user = true
        /\ (command_key user id, body) ∈ g_bodies g
  | KvCreate Claims k _ => match od with Some d => in_time g d k | None => False end
  | KvCreate Replies k body => recordable g k body
  | KvGet Claims k => match od with Some d => in_time g d k | None => True end
  | Until d e' => match od with None => permit (Some d) g e' | Some _ => False end
  | _ => True
  end.

Fixpoint follow (od : option Z) (g : Ghost) {A} (e : Nats A) : A -> Ghost :=
  match e in Nats A return A -> Ghost with
  | Now => fun v => add_now v g
  | InstantNow => fun i => add_instant i g
  | NewId => fun a => add_id a g
  | NextFor subject _ => fun a => match a with Given (Some (_, p)) => add_read (subject, p) g | _ => g end
  | NextReply subject => fun a => match a with Some p => add_heard_by (subject, p) g | None => g end
  | KvGet Claims k => fun a =>
      match a with
      | Given (Some h) => match od with Some _ => add_holder (k, h) g | None => add_claimed k g end
      | _ => g
      end
  | KvGet Replies k => fun a => match a with Given (Some b) => add_body (k, b) g | _ => g end
  | KvCreate Claims k v => fun a =>
      match a with Given Created => match od with Some _ => add_holder (k, v) g | None => g end | _ => g end
  | KvCreate Replies k b => fun a => match a with Given Created => add_body (k, b) g | _ => g end
  | Until d e' => fun o => match o with Some a => follow (Some d) g e' a | None => g end
  | _ => fun _ => g
  end.

Definition prot (od : option Z) : Protocol Nats Ghost := {| permits g A e := permit od g e; after g A e a := follow od g e a |}.

(** The clocks tell times of chrono's calendar. *)
Fixpoint nats_possible {A} (e : Nats A) : A -> Prop :=
  match e in Nats A return A -> Prop with
  | Now => fun v => - CLOCK_END <= v <= 2 * CLOCK_END
  | InstantNow => fun i => 0 <= i <= CLOCK_END
  | Until _ e' => fun o => match o with Some a => nats_possible e' a | None => True end
  | _ => fun _ => True
  end.

Local Instance nats_answers : Answers Nats := fun A e a => nats_possible e a.

Definition obeys {R} (od : option Z) (g : Ghost) (p : prog R) (Q : Ghost -> R -> Prop) : Prop :=
  keeps (Protocol0 := prot od) g p Q.

Lemma follow_extends od g {A} (e : Nats A) a : extends g (follow od g e a).
Proof.
  revert od. induction e; intros od; cbn; repeat case_match; try done; try apply IHe;
    split; cbn; try done; set_solver.
Qed.

Lemma obeys_bind {R T} od g (p : prog R) (f : R -> prog T) Q :
  obeys od g p (fun g' r => obeys od g' (f r) Q) -> obeys od g (p ≫= f) Q.
Proof. apply keeps_bind. Qed.

Lemma obeys_impl {R} od g (p : prog R) (Q Q' : Ghost -> R -> Prop) :
  obeys od g p Q -> (forall g' r, Q g' r -> Q' g' r) -> obeys od g p Q'.
Proof. intros H1 H2. by eapply keeps_impl. Qed.

Lemma obeys_extends {R} od g (p : prog R) Q :
  obeys od g p Q -> obeys od g p (fun g' r => extends g g' /\ Q g' r).
Proof.
  unfold obeys. revert g. induction p as [r|A e k IH]; intros g; cbn; [done|].
  intros [Hp Hk]. split; [done|]. intros a Ha. eapply keeps_impl; [|apply IH, Hk, Ha].
  cbn. intros g' r [He HQ]. split; [|done]. etrans; [apply follow_extends|exact He].
Qed.

Lemma obeys_timeout {R} d g (p : prog R) Q Q' :
  obeys (Some d) g p Q ->
  (forall g' r, extends g g' -> Q g' r -> Q' g' (Some r)) -> (forall g', extends g g' -> Q' g' None) ->
  obeys None g (timeout_at d p) Q'.
Proof.
  unfold obeys. revert g. induction p as [r|A e k IH]; intros g; cbn; [intros HQ H1 _; by apply H1|].
  intros [Hp Hk] H1 H2. split; [done|]. intros [a|] Ha; cbn; [|by apply H2].
  apply IH; [by apply Hk| |].
  - intros g' r He. apply H1. etrans; [apply follow_extends|exact He].
  - intros g' He. apply H2. etrans; [apply follow_extends|exact He].
Qed.

(** ** Programs without any effect that needs permission *)

Definition calm {R} (od : option Z) (p : prog R) : Prop := forall g, obeys od g p (fun _ _ => True).

Lemma calm_mret {R} od (r : R) : calm od (mret r).
Proof. by intros g. Qed.
Lemma calm_trigger od {A} (e : Nats A) : (forall g, permit od g e) -> calm od (trigger e).
Proof. intros H g. by split; [apply H|]. Qed.
Lemma calm_then {R T} od (p : prog R) (f : R -> prog T) : calm od p -> (forall r, calm od (f r)) -> calm od (p ≫= f).
Proof. intros H1 H2 g. apply obeys_bind. eapply obeys_impl; [apply H1|]. intros g' r _. apply H2. Qed.
Lemma calm_timeout {R} d (p : prog R) : calm (Some d) p -> calm None (timeout_at d p).
Proof. intros H g. by eapply obeys_timeout. Qed.
Lemma calm_try {A B X} od (p : prog (result A X)) (f : A -> prog (result B X)) :
  calm od p -> (forall a, calm od (f a)) -> calm od (try p f).
Proof. intros H1 H2. apply calm_then; [done|]. intros [a|x]; [apply H2|apply calm_mret]. Qed.
Lemma calm_checked {A} od store (r : result A StoreError) : calm od (checked store r).
Proof.
  unfold checked. destruct r; [apply calm_mret|]. destruct (missing e); [|apply calm_mret].
  apply calm_then; [by apply calm_trigger|]. intros. apply calm_mret.
Qed.
Ltac calmly :=
  repeat first
    [ by eauto with remote | apply calm_then; [|intros ?] | apply calm_try; [|intros ?] | apply calm_mret | apply calm_checked
    | apply calm_timeout | by apply calm_trigger
    | match goal with |- calm _ (match ?x with _ => _ end) => destruct x end
    | match goal with |- calm _ (if ?x then _ else _) => destruct x end
    | progress cbn beta iota ].

Lemma calm_ask {A} od what (e : Nats (Answer A)) : (forall g, permit od g e) -> calm od (ask to_lowercase what e).
Proof. intros H. unfold ask. calmly. Qed.
Lemma calm_told {A} od what (e : Nats (result A (list str))) : (forall g, permit od g e) -> calm od (told to_lowercase what e).
Proof. intros H. unfold told. calmly. Qed.
Hint Extern 1 (calm _ (ask _ _ _)) => apply calm_ask; done : remote.
Hint Extern 1 (calm _ (told _ _ _)) => apply calm_told; done : remote.

Lemma calm_hub_store od : calm od (hub_store to_lowercase prefix has_nats).
Proof. unfold hub_store, open_store, open_bucket. calmly. Qed.
Hint Resolve calm_hub_store : remote.
Lemma calm_read_devices od user : calm od (read_devices to_lowercase user).
Proof. unfold read_devices. calmly. Qed.
Hint Resolve calm_read_devices : remote.
Lemma calm_reachable od user : calm od (reachable to_lowercase prefix has_nats user).
Proof. unfold reachable. calmly. Qed.
Lemma calm_active_device od user : calm od (active_device to_lowercase prefix has_nats user).
Proof. unfold active_device. calmly. Qed.
Lemma calm_note_device od user device active now : calm od (note_device to_lowercase user device active now).
Proof.
  unfold note_device. generalize (@None StoreError). induction DEVICE_WRITE_TRIES as [|tries IH]; intros last; cbn [note_device_tries].
  - apply calm_mret.
  - calmly.
Qed.
Hint Resolve calm_reachable calm_active_device calm_note_device : remote.
Lemma calm_announce store user device active : calm None (announce to_lowercase store user device active).
Proof. unfold announce, presence_due. calmly. Qed.
Lemma calm_last_seq od : calm od (last_seq to_lowercase).
Proof. unfold last_seq. calmly. Qed.
Lemma calm_wake od user : calm od (wake to_lowercase prefix user).
Proof. unfold wake. calmly. Qed.
Lemma calm_replies_to od id : calm od (replies_to to_lowercase prefix id).
Proof. unfold replies_to. calmly. Qed.
Lemma calm_leave od slot : calm od (leave slot).
Proof. unfold leave. calmly. Qed.
Hint Resolve calm_announce calm_last_seq calm_wake calm_replies_to calm_leave : remote.
(** ** The others *)

Lemma obeys_calm {R T} od g (p : prog R) (f : R -> prog T) Q :
  calm od p -> (forall g' r, extends g g' -> obeys od g' (f r) Q) -> obeys od g (p ≫= f) Q.
Proof.
  intros H1 H2. apply obeys_bind. eapply obeys_impl; [apply obeys_extends, H1|]. intros g' r [He _]. by apply H2.
Qed.

Lemma obeys_calm_end {R} od g (p : prog R) (Q : Ghost -> R -> Prop) :
  calm od p -> (forall g' r, extends g g' -> Q g' r) -> obeys od g p Q.
Proof. intros H1 H2. eapply obeys_impl; [apply obeys_extends, H1|]. intros g' r [He _]. by apply H2. Qed.

Lemma obeys_then {R T} od g (p : prog R) (f : R -> prog T) Q Q' :
  obeys od g p Q' -> (forall g' r, extends g g' -> Q' g' r -> obeys od g' (f r) Q) -> obeys od g (p ≫= f) Q.
Proof.
  intros H1 H2. apply obeys_bind. eapply obeys_impl; [apply obeys_extends, H1|]. intros g' r [He HQ]. by apply H2.
Qed.

Lemma obeys_ret {R} od g (r : R) (Q : Ghost -> R -> Prop) : Q g r -> obeys od g (mret r) Q.
Proof. done. Qed.

Lemma obeys_trigger {A T} od g (e : Nats A) (f : A -> prog T) Q :
  permit od g e -> (forall a, nats_possible e a -> obeys od (follow od g e a) (f a) Q) -> obeys od g (trigger e ≫= f) Q.
Proof. intros Hp Hf. by split. Qed.

Lemma sendable_extends g g' c : extends g g' -> sendable g c -> sendable g' c.
Proof.
  intros He [Hs (vs & v & i & ins & i0 & H1 & H2)]. split; [done|]. exists vs, v, i, ins, i0. split; [by apply (ex_ids _ _ He)|done].
Qed.

Lemma in_time_extends g g' d k : extends g g' -> in_time g d k -> in_time g' d k.
Proof.
  intros He (s & p & c & ins & v & i & H1 & H2 & H3 & H4 & H5 & H6 & H7). exists s, p, c, ins, v, i.
  split_and!; try done; [by apply (ex_read _ _ He)|by apply (ex_nows _ _ He)].
Qed.

(** *** Sending *)

Lemma expires_bound created budget :
  - CLOCK_END <= created <= 2 * CLOCK_END -> 0 <= budget <= 2 * CLOCK_END ->
  wrap_i64 (wrap_i64 (created + wrap_i64 budget) + EXPIRY_MARGIN_MS) = created + budget + EXPIRY_MARGIN_MS.
Proof.
  unfold CLOCK_END, EXPIRY_MARGIN_MS. intros H1 H2.
  rewrite (wrap_i64_small budget) by (unfold in_i64, i64_min, i64_max; lia).
  rewrite (wrap_i64_small (created + budget)) by (unfold in_i64, i64_min, i64_max; lia).
  apply wrap_i64_small. unfold in_i64, i64_min, i64_max. lia.
Qed.

Lemma obeys_new_command od g user draft deadline i0 :
  subject_safe user = true -> i0 ∈ g_instants g -> deadline <= i0 + LONGEST_ASK -> i0 <= CLOCK_END ->
  obeys od g (new_command user draft deadline) (fun g' c => sendable g' c /\ rc_user c = user).
Proof.
  intros Hs Hi Hd Hc. unfold new_command.
  apply obeys_trigger; [done|]. intros v Hv. apply obeys_trigger; [done|]. intros i Hin.
  apply obeys_trigger; [done|]. intros id _. apply obeys_ret. split; [|done]. split; [done|]. cbn.
  eexists _, v, i, (g_instants g), i0. split_and!; [by left|by left|done|]. cbn in Hv, Hin.
  rewrite expires_bound; unfold LONGEST_ASK, CONFIRM_HOLD_SECS, CLOCK_END in *; lia.
Qed.

Lemma obeys_publish g store c until :
  sendable g c -> obeys None g (publish to_lowercase prefix store c until) (fun _ _ => True).
Proof.
  intros Hs. unfold publish. eapply (obeys_then _ _ _ _ _ (fun _ _ => True)).
  - eapply obeys_timeout with (Q := fun _ _ => True); [|done..].
    unfold store_publish, try. eapply obeys_then with (Q' := fun _ _ => True).
    + unfold told. apply obeys_trigger; [by exists c|]. done.
    + intros g' [u|x] _ _; [|done]. apply obeys_calm_end; [eauto with remote|done].
  - intros g' r _ _. apply obeys_calm_end; [|done]. calmly.
Qed.

(** *** Answers *)

(** The envelope is what a stored reply reads as. *)
Definition stored_answer (g : Ghost) (user : str) (id : Z) (e : ReplyEnvelope) : Prop :=
  exists b, (command_key user id, b) ∈ g_bodies g /\ decode_envelope b = Some e /\ re_user e = user /\ rr_id (re_reply e) = id.
Definition heard_answer (g : Ghost) (user : str) (id : Z) (e : ReplyEnvelope) : Prop :=
  exists b, (reply_subject prefix id, b) ∈ g_heard g /\ decode_envelope b = Some e /\ re_user e = user /\ rr_id (re_reply e) = id.

Lemma stored_answer_extends g g' user id e : extends g g' -> stored_answer g user id e -> stored_answer g' user id e.
Proof. intros He (b & Hb & ?). exists b. split; [by apply (ex_bodies _ _ He)|done]. Qed.
Lemma heard_answer_extends g g' user id e : extends g g' -> heard_answer g user id e -> heard_answer g' user id e.
Proof. intros He (b & Hb & ?). exists b. split; [by apply (ex_heard _ _ He)|done]. Qed.

Lemma same_envelope e user id : str_eqb (re_user e) user && (rr_id (re_reply e) =? id) = true ->
  re_user e = user /\ rr_id (re_reply e) = id.
Proof. intros [H1%str_eqb_eq H2%Z.eqb_eq]%andb_true_iff. done. Qed.

Lemma obeys_reply_for od g user id :
  obeys od g (reply_for to_lowercase user id)
    (fun g' r => match r with Ok (Some e) => stored_answer g' user id e | _ => True end).
Proof.
  unfold reply_for, try, ask. apply obeys_bind. apply obeys_trigger; [done|].
  intros [|chain|[b|]] _; try done. apply obeys_ret. cbn.
  destruct (decode_envelope b) as [e|] eqn:E; [|done]. destruct (_ && _) eqn:E'; [|done].
  apply same_envelope in E' as [? ?]. exists b. split_and!; try done. by left.
Qed.

Lemma obeys_checked {A} od g store (r : result A StoreError) (Q : Ghost -> option A -> Prop) :
  (forall g' a, extends g g' -> r = Ok a -> Q g' (Some a)) -> (forall g', extends g g' -> Q g' None) ->
  obeys od g (checked store r) Q.
Proof.
  intros H1 H2. unfold checked. destruct r as [a|x]; [apply obeys_ret; by apply H1|].
  destruct (missing x); [|by apply obeys_ret, H2]. apply obeys_trigger; [done|]. intros u _. by apply obeys_ret, H2.
Qed.

Lemma obeys_answer od g user id :
  obeys od g (answer to_lowercase prefix has_nats user id)
    (fun g' r => match r with Some r => exists e, stored_answer g' user id e /\ r = re_reply e | None => True end).
Proof.
  unfold answer. destruct (negb _); [done|]. apply obeys_calm; [eauto with remote|].
  intros g1 [store|] _; [|done]. eapply obeys_then; [apply obeys_reply_for|]. intros g2 r _ Hr. cbn in Hr.
  eapply obeys_then.
  { apply (obeys_checked _ _ _ _ (fun g' o => match o with Some (Some e) => stored_answer g' user id e | _ => True end)); [|done].
    intros g' [e|] He ->; [|done]. by eapply stored_answer_extends. }
  intros g3 [[e|]|] _ Ho; try done. apply obeys_ret. by exists e.
Qed.

Lemma obeys_listen od g messages user id :
  obeys od g (listen prefix messages user id)
    (fun g' r => match r with Some r => exists e, heard_answer g' user id e /\ r = re_reply e | None => True end).
Proof.
  revert g. induction messages as [|messages IH]; intros g; [done|]. cbn [listen].
  apply obeys_trigger; [done|]. intros [b|] _; [|done]. destruct (decode_envelope b) as [e|] eqn:E; [|apply IH].
  destruct (_ && _) eqn:E'; [|apply IH]. apply obeys_ret. exists e. split; [|done].
  apply same_envelope in E' as [? ?]. exists b. split_and!; try done. by left.
Qed.

Definition answers_as (g : Ghost) (user : str) (r : RemoteReply) : Prop :=
  exists e, (stored_answer g user (rr_id r) e \/ heard_answer g user (rr_id r) e) /\ r = re_reply e.

Lemma stored_answers_as g user id e : stored_answer g user id e -> answers_as g user (re_reply e).
Proof. intros He. pose proof He as (b & _ & _ & _ & E). exists e. rewrite E. auto. Qed.
Lemma heard_answers_as g user id e : heard_answer g user id e -> answers_as g user (re_reply e).
Proof. intros He. pose proof He as (b & _ & _ & _ & E). exists e. rewrite E. auto. Qed.

Lemma obeys_asking g messages store user c deadline :
  sendable g c ->
  obeys None g
    (r ← replies_to to_lowercase prefix (rc_id c);
     subscribed ← checked store r;
     match subscribed with
     | None => mret AskedBusy
     | Some _ =>
         now ← trigger InstantNow;
         sent ← publish to_lowercase prefix store c (Z.min (now + PUBLISH_BUDGET) deadline);
         match sent with
         | PublishFailed => mret AskedBusy
         | PublishSent | PublishUnsure =>
             let listen_until := if LATE_ANSWER_BUDGET <=? deadline then deadline - LATE_ANSWER_BUDGET else deadline in
             heard ← timeout_at listen_until (listen prefix messages user (rc_id c));
             match heard with
             | Some (Some reply) => mret (AskedReply reply)
             | _ =>
                 late ← timeout_at deadline (answer to_lowercase prefix has_nats user (rc_id c));
                 mret (match late with Some (Some reply) => AskedReply reply | _ => AskedSilent end)
             end
         end
     end)
    (fun g' a => match a with AskedReply r => answers_as g' user r | _ => True end).
Proof.
  intros Hs. apply obeys_calm; [eauto with remote|]. intros g1 r He1. apply obeys_calm; [apply calm_checked|].
  intros g2 [[]|] He2; [|done]. apply obeys_trigger; [done|]. intros now _.
  eapply obeys_then.
  { apply obeys_publish. eapply sendable_extends; [|exact Hs].
    etrans; [exact He1|]. etrans; [exact He2|]. apply (follow_extends None _ InstantNow). }
  intros g3 sent _ _. destruct sent; [| |done].
  all: cbn zeta; eapply obeys_then.
  1, 3: eapply obeys_timeout with
    (Q' := fun g' o => match o with Some (Some r) => answers_as g' user r | _ => True end); [apply obeys_listen| |done];
    intros g' [x|] _; [|done]; cbn; intros (e & He & ->); by eapply heard_answers_as.
  all: intros g4 [[x|]|] _ Hh; [exact Hh|..]; eapply obeys_then.
  1, 3, 5, 7: eapply obeys_timeout with
    (Q' := fun g' o => match o with Some (Some r) => answers_as g' user r | _ => True end); [apply obeys_answer| |done];
    intros g' [x|] _; [|done]; cbn; intros (e & He & ->); by eapply stored_answers_as.
  all: intros g5 [[x|]|] _ Hl; exact Hl.
Qed.

Lemma obeys_reachable od g user :
  obeys od g (reachable to_lowercase prefix has_nats user)
    (fun _ r => match r with Ok _ => subject_safe user = true | Err _ => True end).
Proof.
  destruct (subject_safe user) eqn:E; [apply obeys_calm_end; [eauto with remote|by intros ? []]|].
  unfold reachable. rewrite E. done.
Qed.

Lemma obeys_dispatch g messages user kind source text deadline i0 :
  i0 ∈ g_instants g -> deadline <= i0 + LONGEST_ASK -> i0 <= CLOCK_END ->
  obeys None g (dispatch to_lowercase prefix has_nats messages user kind source text deadline)
    (fun g' a => match a with AskedReply r => answers_as g' user r | _ => True end).
Proof.
  intros Hi Hd Hc. unfold dispatch. eapply obeys_then
    with (Q' := fun _ o => match o with Some (Ok _) => subject_safe user = true | _ => True end).
  { eapply obeys_timeout; [apply obeys_reachable|done..]. }
  intros g1 [[store|[]]|] He1 Hs; try done.
  eapply obeys_then; [apply (obeys_new_command _ _ _ _ _ i0); [done|by apply (ex_instants _ _ He1)|done..]|].
  intros g2 c _ [Hc2 _]. by apply obeys_asking.
Qed.

Lemma obeys_confirm g user provider hint :
  obeys None g (job_program to_lowercase prefix has_nats (JConfirm user provider hint)) (fun _ _ => True).
Proof.
  cbn [job_program]. eapply obeys_then
    with (Q' := fun g' r => match r with Ok c => sendable g' c | Err _ => True end).
  - unfold link_confirm. eapply obeys_then; [apply obeys_reachable|]. intros g1 [store|e] _ Hs; [|done].
    apply obeys_trigger; [done|]. intros i Hi. cbn in Hi. eapply obeys_then.
    { apply (obeys_new_command _ _ _ _ _ i); [done|by left|done|lia]. }
    intros g2 c _ [Hc _]. done.
  - intros g1 [c|e] _ Hc; [|done]. unfold post.
    eapply obeys_then with (Q' := fun _ _ => True); [|done].
    apply obeys_calm; [eauto with remote|]. intros g2 [store|] He2; [|done].
    apply obeys_trigger; [done|]. intros now _. eapply obeys_then; [apply obeys_publish|done].
    eapply sendable_extends; [|exact Hc]. etrans; [exact He2|]. apply (follow_extends None _ InstantNow).
Qed.
(** *** Replying *)

Lemma obeys_claimed g user id :
  obeys None g (claimed to_lowercase user id)
    (fun g' r => match r with Ok true => command_key user id ∈ g_claimed g' | _ => True end).
Proof.
  unfold claimed, try, ask. apply obeys_bind. apply obeys_trigger; [done|].
  intros [|chain|[b|]] _; try done. apply obeys_ret. by left.
Qed.

Lemma obeys_record_reply g user r ins v :
  g_job g = JReply user r -> subject_safe user = true -> (ins, v) ∈ g_nows g ->
  fresh_command_id (rr_id r) v = true -> command_key user (rr_id r) ∈ g_claimed g ->
  obeys None g (record_reply to_lowercase prefix {| re_user := user; re_reply := r |}) (fun _ _ => True).
Proof.
  intros Hj Hs Hv Hf Hc. unfold record_reply, try. cbn [re_user re_reply]. eapply obeys_then
    with (Q' := fun g' c => match c with
       | Ok Created => (command_key user (rr_id r), encode_envelope {| re_user := user; re_reply := r |}) ∈ g_bodies g'
       | _ => True end).
  { unfold ask. apply obeys_trigger; [by exists user, r, ins, v|]. intros [|chain|[]] _; try done. apply obeys_ret. by left. }
  intros g1 [[|chain]|x] _ Hb; [| |done].
  - apply obeys_bind, obeys_ret. unfold told. apply obeys_trigger; [|done]. exists user, (rr_id r). done.
  - eapply obeys_then with (Q' := fun g' b => match b with
       | Ok (Some b) => (command_key user (rr_id r), b) ∈ g_bodies g' | _ => True end).
    { unfold ask. apply obeys_trigger; [done|]. intros [|c|[b|]] _; try done. apply obeys_ret. by left. }
    intros g2 [[b|]|x] _ Hb2; try done. unfold told. apply obeys_trigger; [|done]. exists user, (rr_id r). done.
Qed.

Lemma obeys_reply g user r :
  g_job g = JReply user r -> obeys None g (reply to_lowercase prefix has_nats user r) (fun _ _ => True).
Proof.
  intros Hj. unfold reply. destruct (subject_safe user) eqn:Hs; [|done]. cbn [negb].
  apply obeys_trigger; [done|]. intros v _. destruct (fresh_command_id (rr_id r) v) eqn:Hf; [|done]. cbn [negb].
  apply obeys_calm; [eauto with remote|]. intros g1 [store|] He1; [|done].
  eapply obeys_then; [apply obeys_claimed|]. intros g2 c He2 Hc. eapply obeys_then
    with (Q' := fun g' o => match o with Some true => command_key user (rr_id r) ∈ g_claimed g' | _ => True end).
  { apply obeys_checked; [|done]. intros g' [] He ->; [|done]. by apply (ex_claimed _ _ He). }
  intros g3 [[]|] He3 Hc3; try done.
  assert (extends (add_now v g) g3) as He by (etrans; [exact He1|]; etrans; [exact He2|exact He3]).
  eapply obeys_then; [apply (obeys_record_reply _ _ _ (g_instants g) v)|intros; apply obeys_calm_end; [calmly|done]]; try done.
  - by rewrite (ex_job _ _ He).
  - apply (ex_nows _ _ He). by left.
Qed.

(** *** Delivering *)

Lemma obeys_claim g d user id device :
  in_time g d (command_key user id) ->
  obeys (Some d) g (claim to_lowercase user id device)
    (fun g' r => match r with Ok true => (command_key user id, device) ∈ g_holders g' | _ => True end).
Proof.
  intros Ht. unfold claim, try. eapply obeys_then
    with (Q' := fun g' c => match c with Ok Created => (command_key user id, device) ∈ g_holders g' | _ => True end).
  { unfold ask. apply obeys_trigger; [done|]. intros [|chain|[]] _; try done. apply obeys_ret. by left. }
  intros g1 [[|chain]|x] He1 Hb; [done| |done]. eapply obeys_then
    with (Q' := fun g' h => match h with Ok (Some h) => (command_key user id, h) ∈ g_holders g' | _ => True end).
  { unfold ask. apply obeys_trigger; [by eapply in_time_extends|]. intros [|c|[h|]] _; try done. apply obeys_ret. by left. }
  intros g2 [[h|]|x] _ Hh; try done. apply obeys_ret. destruct (str_eqb h device) eqn:E; [|done].
  apply str_eqb_eq in E as ->. done.
Qed.

Lemma obeys_deliverable g d store c device :
  in_time g d (command_key (rc_user c) (rc_id c)) ->
  obeys (Some d) g (deliverable to_lowercase store c device)
    (fun g' r => match r with Some true => (command_key (rc_user c) (rc_id c), device) ∈ g_holders g' | _ => True end).
Proof.
  intros Ht. unfold deliverable. eapply obeys_then; [apply obeys_reply_for|]. intros g1 r He1 _.
  apply obeys_calm; [apply calm_checked|]. intros g2 [[e|]|] He2; try done. eapply obeys_then.
  { apply obeys_claim. eapply in_time_extends; [|exact Ht]. by etrans. }
  intros g3 r3 _ Hr. apply obeys_checked; [|done]. intros g4 [] He4 ->; [|done]. by apply (ex_holders _ _ He4).
Qed.

(** A command that was handed to the device of the user. *)
Definition delivered (g : Ghost) (user device : str) (c : RemoteCommand) : Prop :=
  exists p c0 seq, (command_subject prefix user, p) ∈ g_read g /\ decode_command p = Some c0 /\ c = with_seq seq c0
    /\ (command_key (rc_user c) (rc_id c), device) ∈ g_holders g.

Lemma delivered_extends g g' user device c : extends g g' -> delivered g user device c -> delivered g' user device c.
Proof.
  intros He (p & c0 & seq & H1 & H2 & H3 & H4). exists p, c0, seq.
  split_and!; try done; [by apply (ex_read _ _ He)|by apply (ex_holders _ _ He)].
Qed.

Definition all_delivered (user device : str) (g : Ghost) (s : Scan) : Prop :=
  forall c, c ∈ sc_ready s -> delivered g user device c.

Lemma all_delivered_extends g g' user device s :
  extends g g' -> all_delivered user device g s -> all_delivered user device g' s.
Proof. intros He H c Hc. by eapply delivered_extends; [|apply H]. Qed.

Lemma obeys_next_after od g user seq :
  obeys od g (next_after to_lowercase prefix user seq)
    (fun g' r => match r with
       | Ok (Some (_, Some c)) => exists p c0 seq, (command_subject prefix user, p) ∈ g_read g' /\ decode_command p = Some c0 /\ c = with_seq seq c0
       | _ => True end).
Proof.
  unfold next_after, try, ask. apply obeys_bind. apply obeys_trigger; [done|].
  intros [|chain|[[n p]|]] _; try done. apply obeys_ret. cbn. destruct (decode_command p) as [c|] eqn:E; [|done].
  exists p, c, (wrap_i64 n). split_and!; try done. by left.
Qed.

Lemma obeys_scan_commands limit g d store user device now ins i s :
  (ins, now) ∈ g_nows g -> i ∈ ins -> d <= i + HOLD -> all_delivered user device g s ->
  obeys None g (scan_commands to_lowercase prefix limit d store user device now s) (all_delivered user device).
Proof.
  intros Hn Hi Hd. revert g s Hn. induction limit as [|limit IH]; intros g s Hn Hs; [done|]. cbn [scan_commands].
  eapply obeys_then with (Q' := fun g' r => match r with
       | Some (Some (Some (_, Some c))) =>
           exists p c0 seq, (command_subject prefix user, p) ∈ g_read g' /\ decode_command p = Some c0 /\ c = with_seq seq c0
       | _ => True end).
  { eapply obeys_timeout; [|by intros g' r _ Hr; exact Hr|done].
    eapply obeys_then; [apply obeys_next_after|]. intros g1 r _ Hr. apply obeys_checked; [|done].
    intros g2 [[n [c|]]|] He ->; try done. destruct Hr as (p & c0 & seq & H1 & H2). exists p, c0, seq.
    split; [by apply (ex_read _ _ He)|done]. }
  intros g1 r He1 Hr.
  assert (all_delivered user device g1 s) as Hs1 by (by eapply all_delivered_extends).
  assert ((ins, now) ∈ g_nows g1) as Hn1 by (by apply (ex_nows _ _ He1)).
  destruct r as [[[[n [c|]]|]|]|]; try (by apply obeys_ret); [|by apply IH].
  destruct (Z.ltb_spec now (rc_expires_at c)) as [Hlt|Hge]; cbn [negb]; [|by apply IH].
  destruct (is_target _ _ _); [|by destruct (sc_presence_ok s); [apply IH|apply obeys_ret]].
  destruct Hr as (p & c0 & seq & Hp & Hc0 & Hc). eapply obeys_then with (Q' := fun g' o =>
    match o with Some (Some true) => (command_key (rc_user c) (rc_id c), device) ∈ g_holders g' | _ => True end).
  { eapply obeys_timeout; [apply obeys_deliverable| |]; [|by intros g' r _ Hr; exact Hr|done].
    exists (command_subject prefix user), p, c0, ins, now, i. rewrite Hc in *. done. }
  intros g2 o He2 Ho. assert ((ins, now) ∈ g_nows g2) as Hn2 by (by apply (ex_nows _ _ He2)).
  assert (all_delivered user device g2 s) as Hs2 by (by eapply all_delivered_extends).
  destruct o as [[[]|]|]; try (by apply obeys_ret); [|by apply IH].
  apply IH; [done|]. intros x [Hx| ->%list_elem_of_singleton]%elem_of_app; [by apply Hs2|].
  exists p, c0, seq. split_and!; try done. by apply (ex_read _ _ He2).
Qed.

Lemma obeys_scan g d store user device i s :
  i ∈ g_instants g -> d <= i + HOLD -> all_delivered user device g s ->
  obeys None g (scan to_lowercase prefix d store user device s) (all_delivered user device).
Proof.
  intros Hi Hd Hs. unfold scan. apply obeys_calm.
  { apply calm_timeout. calmly. }
  intros g1 o He1. assert (all_delivered user device g1 s) as Hs1 by (by eapply all_delivered_extends).
  destruct o as [[devices|]|]; [|done..].
  apply obeys_trigger; [done|]. intros now _. eapply (obeys_scan_commands _ _ _ _ _ _ _ (g_instants g1) i).
  - by left.
  - by apply (ex_instants _ _ He1).
  - done.
  - eapply (all_delivered_extends g1); [apply (follow_extends None _ Now)|exact Hs1].
Qed.

Lemma obeys_settle_rounds rounds g pause d store user device i s :
  i ∈ g_instants g -> d <= i + HOLD -> all_delivered user device g s ->
  obeys None g (settle_rounds to_lowercase prefix rounds pause d store user device s) (all_delivered user device).
Proof.
  intros Hi Hd. revert g pause s Hi. induction rounds as [|rounds IH]; intros g pause s Hi Hs; [done|]. cbn [settle_rounds].
  destruct (negb _); [done|]. apply obeys_calm; [calmly|]. intros g1 now He1.
  assert (all_delivered user device g1 s) as Hs1 by (by eapply all_delivered_extends).
  destruct (negb _); [done|]. apply obeys_calm; [calmly|]. intros g2 recheck He2.
  apply obeys_calm; [calmly|]. intros g3 woke He3.
  assert (extends g g3) as He by (do 2 (etrans; [eassumption|]); done).
  assert (i ∈ g_instants g3) as Hi3 by (by apply (ex_instants _ _ He)).
  assert (all_delivered user device g3 s) as Hs3 by (by eapply all_delivered_extends).
  destruct woke; try done; [|destruct pause; [|done]].
  all: eapply obeys_then; [by eapply obeys_scan|]; intros g4 s4 He4 Hs4; apply IH; [by apply (ex_instants _ _ He4)|done].
Qed.

Lemma obeys_wait g rounds user device active since :
  obeys None g (hub_wait to_lowercase prefix has_nats rounds user device active since HOLD)
    (fun g' r => match r with Ok r => forall c, c ∈ wr_commands r -> delivered g' user device c | Err _ => True end).
Proof.
  unfold hub_wait. apply obeys_trigger; [done|]. intros i _. destruct (negb _); [done|].
  assert (forall g store slot, i ∈ g_instants g ->
    obeys None g (wait_in_slot to_lowercase prefix has_nats rounds (i + HOLD) store user device active since slot)
      (fun g' r => match r with Ok r => forall c, c ∈ wr_commands r -> delivered g' user device c | Err _ => True end)) as Hw.
  { clear g. intros g store slot Hi. unfold wait_in_slot. apply obeys_calm; [eauto with remote|]. intros g1 ok He1.
    apply obeys_calm; [eauto with remote|]. intros g2 r He2. apply obeys_calm; [apply calm_checked|].
    intros g3 [last|] He3; [|apply obeys_calm; [eauto with remote|done]].
    assert (i ∈ g_instants g3) as Hi3 by (apply (ex_instants _ _ He3), (ex_instants _ _ He2), (ex_instants _ _ He1), Hi).
    destruct (since ≫= _) as [n|]; [destruct slot as [slot|]|].
    2, 3: apply obeys_calm; [eauto with remote|]; intros; apply obeys_calm; [eauto with remote|]; intros; apply obeys_ret; cbn; set_solver.
    apply obeys_calm; [eauto with remote|]. intros g4 w He4. apply obeys_calm; [apply calm_checked|].
    intros g5 [[]|] He5; [|apply obeys_calm; [eauto with remote|done]].
    assert (i ∈ g_instants g5) as Hi5 by (apply (ex_instants _ _ He5), (ex_instants _ _ He4), Hi3).
    eapply obeys_then with (Q' := all_delivered user device).
    { unfold settle. eapply obeys_then; [apply (obeys_scan _ _ _ _ _ i); [done|lia|intros c; cbn; set_solver]|].
      intros g6 s6 He6 Hs6. eapply obeys_settle_rounds; [by apply (ex_instants _ _ He6)|lia|done]. }
    intros g6 s6 _ Hs6. apply obeys_calm; [calmly|]. intros g7 now He7. apply obeys_calm; [eauto with remote|].
    intros g8 [] He8. apply obeys_ret. cbn. intros c Hc. eapply delivered_extends; [|apply Hs6, Hc]. by etrans. }
  apply obeys_calm; [eauto with remote|]. intros g1 [store|] He1; [|done].
  assert (i ∈ g_instants g1) as Hi1 by (apply (ex_instants _ _ He1); by left).
  destruct since; [|by apply Hw]. apply obeys_calm; [calmly|]. intros g2 [slot|] He2; [|done].
  apply Hw. by apply (ex_instants _ _ He2).
Qed.
(** ** Every job *)

(** What a job returns is what it learned. *)
Definition learned (j : Job) (g : Ghost) (o : Outcome) : Prop :=
  match j, o with
  | JWait user device _ _ _, OWait (Ok r) => forall c, c ∈ wr_commands r -> delivered g user device c
  | JDispatch user _ _ _ _ _, OAsked (AskedReply r) => answers_as g user r
  | JAnswer user id, OAnswer (Some r) => exists e, stored_answer g user id e /\ r = re_reply e
  | _, _ => True
  end.

Lemma keeps_job j start :
  0 <= start <= CLOCK_END -> job_allowed start j ->
  obeys None (ghost_of j start) (job_program to_lowercase prefix has_nats j) (learned j).
Proof.
  intros Hs Ha. destruct j as [user device active since rounds|user kind source text deadline messages|user r|user id|u p h].
  5: { eapply obeys_impl; [apply obeys_confirm|]. by intros g' []. }
  all: cbn [job_program]; eapply obeys_then.
  1: apply obeys_wait.
  2: { apply (obeys_dispatch _ _ _ _ _ _ _ start); [by left|done|lia]. }
  3: by apply obeys_reply.
  4: apply obeys_answer.
  - intros g' [r|] _ Hr; done.
  - intros g' [r| | |] _ Hr; done.
  - done.
  - intros g' [r|] _ Hr; done.
Qed.
End protocol.
