(* ===== verification/RemoteFacts.v ===== *)
(** * RemoteFacts: one device for each command, one answer

    The invariant of the system of [RemoteSystem] and what follows: a command is handed
    to one device, of the user it was sent to, and everyone who asks gets the same
    answer to it, the first one recorded.  At the end the system is run with
    concrete parameters. *)

From Stdlib Require Import ZArith Lia String.
From stdpp Require Import base list numbers option tactics sets gmap fin_maps relations sorting.
From S2P Require Import Prelude Text RoomModel RoomInvariant RemoteDevices RemoteStore RemoteHub RemoteSystem RemoteProtocol.
Local Open Scope Z_scope.

(** ** Keys *)

Lemma hex_digit_inj a b : 0 <= a < 16 -> 0 <= b < 16 -> hex_digit a = hex_digit b -> a = b.
Proof. unfold hex_digit. intros Ha Hb. destruct (Z.ltb_spec a 10), (Z.ltb_spec b 10); lia. Qed.

Lemma hex_digits_inj n u u' : hex_digits n u = hex_digits n u' -> u mod 2 ^ (4 * Z.of_nat n) = u' mod 2 ^ (4 * Z.of_nat n).
Proof.
  induction n as [|n IH]; [by rewrite !Z.mod_1_r|]. cbn [hex_digits]. intros [= Hd Ht]. specialize (IH Ht).
  rewrite !(Z.land_ones _ 4) in Hd by lia. rewrite !Z.shiftr_div_pow2 in Hd by lia.
  apply hex_digit_inj in Hd; [|apply Z.mod_pos_bound; lia..].
  replace (4 * Z.of_nat (S n)) with (4 * Z.of_nat n + 4) by lia. rewrite Z.pow_add_r by lia.
  rewrite !Z.rem_mul_r by lia. by rewrite IH, Hd.
Qed.

Definition uuid_digits (s : str) : str :=
  take 8 s ++ take 4 (drop 9 s) ++ take 4 (drop 14 s) ++ take 4 (drop 19 s) ++ drop 24 s.

Lemma uuid_digits_of u : uuid_digits (uuid_to_string u) = hex_digits 32 u.
Proof. unfold uuid_to_string. cbn [hex_digits]. reflexivity. Qed.

Lemma uuid_to_string_inj u u' :
  0 <= u < uuid_end -> 0 <= u' < uuid_end -> uuid_to_string u = uuid_to_string u' -> u = u'.
Proof.
  intros Hu Hu' E. apply (f_equal uuid_digits) in E. rewrite !uuid_digits_of in E.
  apply hex_digits_inj in E. change (2 ^ (4 * Z.of_nat 32)) with uuid_end in E. by rewrite !Z.mod_small in E.
Qed.

Lemma subject_safe_nodot u : subject_safe u = true -> 46 ∉ u.
Proof.
  unfold subject_safe. intros [_ H]%andb_true_iff Hin. rewrite forallb_forall in H.
  apply list_elem_of_In, H in Hin. done.
Qed.

Lemma command_key_inj u id u' id' :
  subject_safe u = true -> subject_safe u' = true -> 0 <= id < uuid_end -> 0 <= id' < uuid_end ->
  command_key u id = command_key u' id' -> u = u' /\ id = id'.
Proof.
  intros Hs%subject_safe_nodot Hs'%subject_safe_nodot Hi Hi' E. unfold command_key in E.
  change (lit ".") with [46] in E. cbn [app] in E.
  assert (split_once 46 (u ++ 46 :: uuid_to_string id) = Some (u, uuid_to_string id)) as H1 by (apply split_once_Some; by split).
  assert (split_once 46 (u' ++ 46 :: uuid_to_string id') = Some (u', uuid_to_string id')) as H2 by (apply split_once_Some; by split).
  rewrite E, H2 in H1. apply Some_inj, pair_equal_spec in H1 as [Eu E2]. split; [by symmetry|]. symmetry. by apply uuid_to_string_inj.
Qed.

Section facts.
Context {cdb rdb : Type} `{!Kv cdb COMMANDS_AGE} `{!Kv rdb REPLIES_AGE}.
Context (to_lowercase : str -> str) {codec : RemoteCodec} {uuids : UuidTime} (prefix : str) (has_nats : bool).
Context (skew patience : Z).
Implicit Types (w : World cdb rdb) (H R : gmap str str) (g : Ghost).

(** A claim outlives every scan that can still see its command, and a reply outlives
    every reply that may still be recorded. *)
Context (skew_nonneg : 0 <= skew) (patience_nonneg : 0 <= patience).
Context (skew_small : 2 * skew <= 39000) (patience_small : 2 * skew + patience < 420000).

Definition was_sent w (c : RemoteCommand) : Prop :=
  (command_subject prefix (rc_user c), encode_command c) ∈ stream w.

Definition claim_at w k := kv_at COMMANDS_AGE (claims w) (clock w) k.
Definition reply_at w k := kv_at REPLIES_AGE (replies w) (clock w) k.

(** ** The invariant

    [H] is the device each command was first known to be handed to, [R] the first reply
    recorded for it. *)

Record world_ok w H R : Prop := {
  wo_clock : 0 <= clock w <= CLOCK_END;
  wo_born id b : born w !! id = Some b -> b <= clock w /\ 0 <= id < uuid_end;
  wo_stream subject p : (subject, p) ∈ stream w ->
    exists c b, p = encode_command c /\ subject = command_subject prefix (rc_user c)
      /\ subject_safe (rc_user c) = true /\ born w !! rc_id c = Some b
      /\ rc_expires_at c <= b + skew + EXPIRY_MARGIN_MS + LONGEST_ASK;
  wo_claims k v t : claim_at w k = Some (v, t) ->
    exists c b, was_sent w c /\ k = command_key (rc_user c) (rc_id c) /\ born w !! rc_id c = Some b /\ b <= t;
  wo_holders k h : H !! k = Some h ->
    exists c b, was_sent w c /\ k = command_key (rc_user c) (rc_id c) /\ born w !! rc_id c = Some b
      /\ (clock w < b + COMMANDS_AGE -> exists t, claim_at w k = Some (h, t) /\ b <= t);
  wo_recorded k b : R !! k = Some b ->
    exists user r, JReply user r ∈ begun w /\ b = encode_envelope {| re_user := user; re_reply := r |}
      /\ k = command_key user (rr_id r) /\ subject_safe user = true
      /\ (exists c, was_sent w c /\ rc_user c = user /\ rc_id c = rr_id r)
      /\ (clock w <= reply_end skew patience (rr_id r) ->
          exists t, reply_at w k = Some (b, t) /\ reply_begin skew (rr_id r) <= t);
  wo_replies k b t : reply_at w k = Some (b, t) -> R !! k = Some b;
  wo_heard subject b : (subject, b) ∈ heard w ->
    exists user id, subject = reply_subject prefix id /\ subject_safe user = true /\ R !! command_key user id = Some b;
  wo_begun user r : JReply user r ∈ begun w -> 0 <= rr_id r < uuid_end }.

Record ghost_ok w H R (start : Z) g : Prop := {
  go_start : 0 <= start <= clock w;
  go_job user r : g_job g = JReply user r -> JReply user r ∈ begun w;
  go_instants i : i ∈ g_instants g -> i <= clock w;
  go_sorted : StronglySorted Z.ge (g_instants g);
  go_nows ins v : (ins, v) ∈ g_nows g ->
    (forall i, i ∈ ins -> i - skew <= v) /\ start - skew <= v <= clock w + skew;
  go_ids id vs ins : (id, vs, ins) ∈ g_ids g ->
    exists b, born w !! id = Some b /\ (forall v, v ∈ vs -> v <= b + skew) /\ StronglySorted Z.ge ins;
  go_read subject p : (subject, p) ∈ g_read g -> (subject, p) ∈ stream w;
  go_claimed k : k ∈ g_claimed g -> exists c, was_sent w c /\ k = command_key (rc_user c) (rc_id c);
  go_bodies k b : (k, b) ∈ g_bodies g -> R !! k = Some b;
  go_holders k h : (k, h) ∈ g_holders g -> H !! k = Some h;
  go_heard subject b : (subject, b) ∈ g_heard g -> (subject, b) ∈ heard w }.

Record world_le w w' : Prop := {
  wl_clock : clock w <= clock w';
  wl_born : born w ⊆ born w';
  wl_stream : stream w ⊆ stream w';
  wl_heard : heard w ⊆ heard w';
  wl_begun : begun w ⊆ begun w' }.

Global Instance world_le_preorder : PreOrder world_le.
Proof.
  split; [by intros w; split|]. intros w1 w2 w3 [] []. split; [lia|etrans; eassumption..].
Qed.

Lemma was_sent_le w w' c : world_le w w' -> was_sent w c -> was_sent w' c.
Proof. intros Hle. apply (wl_stream _ _ Hle). Qed.

Lemma ghost_ok_le w w' H H' R R' start g :
  world_le w w' -> H ⊆ H' -> R ⊆ R' -> ghost_ok w H R start g -> ghost_ok w' H' R' start g.
Proof.
  intros Hle HH HR [].
  assert (clock w <= clock w') by apply Hle.
  split; try done.
  - lia.
  - intros user r Hj. by apply (wl_begun _ _ Hle), go_job0.
  - intros i Hi. apply go_instants0 in Hi. lia.
  - intros ins v Hv. apply go_nows0 in Hv as [? ?]. split; [done|lia].
  - intros id vs ins Hi. apply go_ids0 in Hi as (b & Hb & ?). exists b. split; [|done]. by eapply lookup_weaken, Hle.
  - intros s p Hp. by apply (wl_stream _ _ Hle), go_read0.
  - intros k Hk. apply go_claimed0 in Hk as (c & Hc & ?). exists c. split; [|done]. by eapply was_sent_le.
  - intros k b Hb. eapply lookup_weaken; [by apply go_bodies0|done].
  - intros k b Hb. eapply lookup_weaken; [by apply go_holders0|done].
  - intros s p Hp. by apply (wl_heard _ _ Hle), go_heard0.
Qed.

Lemma sent_ok w H R c :
  world_ok w H R -> was_sent w c ->
  subject_safe (rc_user c) = true
  /\ exists b, born w !! rc_id c = Some b /\ b <= clock w /\ 0 <= rc_id c < uuid_end
     /\ rc_expires_at c <= b + skew + EXPIRY_MARGIN_MS + LONGEST_ASK.
Proof.
  intros Hw Hs. apply (wo_stream _ _ _ Hw) in Hs as (c' & b & E & _ & Hsafe & Hb & He).
  assert (c' = c) as ->.
  { apply Some_inj. rewrite <- (decode_encode_command c), <- (decode_encode_command c'). by rewrite E. }
  split; [done|]. exists b. destruct (wo_born _ _ _ Hw _ _ Hb). done.
Qed.

(** A command is known by its key. *)
Lemma same_key w H R c c' b b' :
  world_ok w H R -> was_sent w c -> was_sent w c' ->
  command_key (rc_user c) (rc_id c) = command_key (rc_user c') (rc_id c') ->
  born w !! rc_id c = Some b -> born w !! rc_id c' = Some b' -> b = b'.
Proof.
  intros Hw Hc Hc' E Hb Hb'. apply (sent_ok _ _ _ _ Hw) in Hc as (? & ? & ? & ? & ? & ?).
  apply (sent_ok _ _ _ _ Hw) in Hc' as (? & ? & ? & ? & ? & ?). apply command_key_inj in E as [_ E]; try done.
  rewrite E in Hb. congruence.
Qed.

(** ** Time passes *)

Lemma tick_ok w H R t :
  world_ok w H R -> clock w <= t <= CLOCK_END -> world_ok (set_clock t w) H R /\ world_le w (set_clock t w).
Proof.
  intros Hw Ht. split; [|split; cbn; [lia|done..]].
  assert (forall k, claim_at (set_clock t w) k = claim_at w k
    \/ exists v u, claim_at w k = Some (v, u) /\ u + COMMANDS_AGE <= t /\ claim_at (set_clock t w) k = None) as Hc
    by (intros k; apply kv_later; cbn; lia).
  assert (forall k, reply_at (set_clock t w) k = reply_at w k
    \/ exists v u, reply_at w k = Some (v, u) /\ u + REPLIES_AGE <= t /\ reply_at (set_clock t w) k = None) as Hr
    by (intros k; apply kv_later; cbn; lia).
  destruct Hw. split; cbn; try done.
  - lia.
  - intros id b Hb. apply wo_born0 in Hb. lia.
  - intros k v u Hk. apply (wo_claims0 k v u). destruct (Hc k) as [<-|(? & ? & _ & _ & ?)]; [done|congruence].
  - intros k h Hk. apply wo_holders0 in Hk as (c & b & H1 & H2 & H3 & H4). exists c, b. split_and!; try done.
    intros Hlt. destruct H4 as (u & Hu & Hbu); [lia|]. exists u. split; [|done].
    destruct (Hc k) as [->|(v' & u' & Hu' & Hle & _)]; [done|]. rewrite Hu in Hu'. simplify_eq. lia.
  - intros k b Hk. apply wo_recorded0 in Hk as (user & r & H1 & H2 & H3 & H4 & H5 & H6). exists user, r. split_and!; try done.
    intros Hle. destruct H6 as (u & Hu & Hbu); [lia|]. exists u. split; [|done].
    destruct (Hr k) as [->|(v' & u' & Hu' & Hl & _)]; [done|]. rewrite Hu in Hu'. simplify_eq.
    unfold reply_end, reply_begin, REPLIES_AGE, COMMANDS_AGE, REPLY_WINDOW_MARGIN_MS, REPLY_CLOCK_SKEW_MS in *. lia.
  - intros k b u Hk. apply (wo_replies0 k b u). destruct (Hr k) as [<-|(? & ? & _ & _ & ?)]; [done|congruence].
Qed.

(** ** Claims *)

Lemma create_claim_at k v w k' :
  claim_at (create_claim k v w).2 k' = if decide (k' = k /\ claim_at w k = None) then Some (v, clock w) else claim_at w k'.
Proof.
  unfold create_claim, claim_at. pose proof (kv_create_law k v (clock w) (claims w) k') as E.
  destruct (kv_create COMMANDS_AGE k v (clock w) (claims w)) as [b d]. exact E.
Qed.

Lemma create_claim_made k v w : (create_claim k v w).1 = bool_decide (claim_at w k = None).
Proof.
  unfold create_claim, claim_at. pose proof (kv_create_result k v (clock w) (claims w)) as E.
  by destruct (kv_create COMMANDS_AGE k v (clock w) (claims w)) as [b d].
Qed.

Lemma create_claim_same k v w :
  exists d, (create_claim k v w).2 = set_claims d w.
Proof. unfold create_claim. destruct (kv_create COMMANDS_AGE k v (clock w) (claims w)) as [b d]. by exists d. Qed.

Lemma claim_lands w H R c v :
  world_ok w H R -> was_sent w c ->
  let w' := (create_claim (command_key (rc_user c) (rc_id c)) v w).2 in world_ok w' H R /\ world_le w w'.
Proof.
  intros Hw Hs. cbn zeta. set (k := command_key _ _). pose proof (create_claim_at k v w) as Ha.
  destruct (create_claim_same k v w) as [d E]. rewrite E in Ha |- *. clear E. split; [|by split; cbn].
  pose proof (sent_ok _ _ _ _ Hw Hs) as (_ & b & Hb & Hle & _).
  destruct Hw. split; cbn; try done.
  - intros k' v' t'. rewrite Ha. case_decide as E; [|apply wo_claims0]. intros [= <- <-]. destruct E as [-> _]. by exists c, b.
  - intros k' h Hk. apply wo_holders0 in Hk as (c' & b' & H1 & H2 & H3 & H4). exists c', b'. split_and!; try done.
    intros Hlt. destruct (H4 Hlt) as (t & Ht & ?). exists t. split; [|done]. rewrite Ha, decide_False; [done|].
    intros [-> E]. congruence.
Qed.

(** A claim seen in time tells who the command was handed to. *)
Lemma holder_learned w H R c b k h t :
  world_ok w H R -> was_sent w c -> k = command_key (rc_user c) (rc_id c) -> born w !! rc_id c = Some b ->
  clock w < b + COMMANDS_AGE -> claim_at w k = Some (h, t) -> b <= t ->
  exists H', H ⊆ H' /\ H' !! k = Some h /\ world_ok w H' R.
Proof.
  intros Hw Hs Hk Hb Hlt Ht Hbt. destruct (H !! k) as [h0|] eqn:E.
  - exists H. split_and!; [done| |done]. pose proof (wo_holders _ _ _ Hw _ _ E) as (c' & b' & H1 & H2 & H3 & H4).
    assert (b' = b) as -> by (apply (same_key w H R c' c b' b Hw H1 Hs); [by rewrite <- H2, <- Hk|done|done]).
    destruct (H4 Hlt) as (t' & Ht' & _). rewrite Ht in Ht'. congruence.
  - exists (<[k := h]> H). split_and!; [by apply insert_subseteq|by rewrite lookup_insert_eq|].
    destruct Hw. split; try done. intros k' h' [[<- <-]|[_ Hh]]%lookup_insert_Some; [|by apply wo_holders0].
    exists c, b. split_and!; try done. by exists t.
Qed.

Lemma in_time_bound w H R start g d k :
  world_ok w H R -> ghost_ok w H R start g -> in_time g d k -> clock w <= d ->
  exists c b, was_sent w c /\ k = command_key (rc_user c) (rc_id c) /\ born w !! rc_id c = Some b
              /\ clock w < b + COMMANDS_AGE.
Proof.
  intros Hw Hg (s & p & c & ins & v & i & H1 & H2 & H3 & H4 & H5 & H6 & H7) Hd.
  apply (go_read _ _ _ _ _ Hg) in H1. pose proof (wo_stream _ _ _ Hw _ _ H1) as (c' & b & -> & -> & _ & Hb & He).
  rewrite decode_encode_command in H2. injection H2 as ->. exists c, b. split_and!; try done.
  apply (go_nows _ _ _ _ _ Hg) in H4 as [Hi _]. apply Hi in H6.
  unfold HOLD, WAIT_HOLD_SECS, COMMANDS_AGE, EXPIRY_MARGIN_MS, LONGEST_ASK, CONFIRM_HOLD_SECS in *. lia.
Qed.

Lemma in_time_sent w H R start g d k :
  world_ok w H R -> ghost_ok w H R start g -> in_time g d k ->
  exists c, was_sent w c /\ k = command_key (rc_user c) (rc_id c).
Proof.
  intros Hw Hg (s & p & c & ins & v & i & H1 & H2 & H3 & _).
  apply (go_read _ _ _ _ _ Hg) in H1. pose proof (wo_stream _ _ _ Hw _ _ H1) as (c' & b & -> & -> & _).
  rewrite decode_encode_command in H2. injection H2 as ->. by exists c.
Qed.

(** ** Replies *)

Lemma fresh_window id v :
  - CLOCK_END <= v <= 2 * CLOCK_END -> fresh_command_id id v = true ->
  created_ms id - REPLY_CLOCK_SKEW_MS <= v <= created_ms id + COMMANDS_AGE + REPLY_WINDOW_MARGIN_MS.
Proof.
  unfold fresh_command_id, created_ms, CLOCK_END, REPLY_CLOCK_SKEW_MS, COMMANDS_AGE, REPLY_WINDOW_MARGIN_MS.
  intros Hv. destruct (negb _); [done|]. destruct (unix_time id) as [[seconds nanos]|] eqn:E; [|done].
  apply unix_time_range in E as [Hs Hn]. assert (0 <= nanos / 1000000 < 1000) as Hd.
  { split; [apply Z.div_pos; lia|apply Z.div_lt_upper_bound; lia]. }
  rewrite (wrap_i64_small (seconds * 1000 + nanos / 1000000)) by (unfold in_i64, i64_min, i64_max; lia).
  rewrite !wrap_i64_small by (unfold in_i64, i64_min, i64_max; lia).
  intros [H1%Z.leb_le H2%Z.leb_le]%andb_true_iff. lia.
Qed.

Lemma create_reply_at k v w k' :
  reply_at (create_reply k v w).2 k' = if decide (k' = k /\ reply_at w k = None) then Some (v, clock w) else reply_at w k'.
Proof.
  unfold create_reply, reply_at. pose proof (kv_create_law k v (clock w) (replies w) k') as E.
  destruct (kv_create REPLIES_AGE k v (clock w) (replies w)) as [b d]. exact E.
Qed.

Lemma create_reply_made k v w : (create_reply k v w).1 = bool_decide (reply_at w k = None).
Proof.
  unfold create_reply, reply_at. pose proof (kv_create_result k v (clock w) (replies w)) as E.
  by destruct (kv_create REPLIES_AGE k v (clock w) (replies w)) as [b d].
Qed.

Lemma create_reply_same k v w : exists d, (create_reply k v w).2 = set_replies d w.
Proof. unfold create_reply. destruct (kv_create REPLIES_AGE k v (clock w) (replies w)) as [b d]. by exists d. Qed.

(** While a reply may still land, the first one is there. *)
Lemma recorded_there w H R user r :
  world_ok w H R -> JReply user r ∈ begun w -> subject_safe user = true ->
  clock w <= reply_end skew patience (rr_id r) -> reply_at w (command_key user (rr_id r)) = None ->
  R !! command_key user (rr_id r) = None.
Proof.
  intros Hw Hj Hs Hc Hn. destruct (R !! _) as [b|] eqn:E; [|done].
  apply (wo_recorded _ _ _ Hw) in E as (user' & r' & H1 & _ & H3 & H4 & _ & H6).
  apply command_key_inj in H3 as [_ Hid]; [|done|done|by eapply (wo_begun _ _ _ Hw)..].
  rewrite <- Hid in H6. destruct (H6 Hc) as (t & Ht & _). congruence.
Qed.

Lemma reply_lands w H R user r :
  world_ok w H R -> JReply user r ∈ begun w -> subject_safe user = true ->
  (exists c, was_sent w c /\ rc_user c = user /\ rc_id c = rr_id r) ->
  reply_begin skew (rr_id r) <= clock w <= reply_end skew patience (rr_id r) ->
  let k := command_key user (rr_id r) in
  let body := encode_envelope {| re_user := user; re_reply := r |} in
  let res := create_reply k body w in
  exists R', R ⊆ R' /\ (res.1 = true -> R' !! k = Some body) /\ world_ok res.2 H R' /\ world_le w res.2.
Proof.
  intros Hw Hj Hs Hc Ht. cbn zeta. set (k := command_key _ _). set (body := encode_envelope _).
  pose proof (create_reply_at k body w) as Ha. pose proof (create_reply_made k body w) as Hm.
  destruct (create_reply_same k body w) as [d E]. rewrite E in Ha |- *. clear E.
  assert (world_le w (set_replies d w)) as Hle by (by split; cbn).
  destruct (reply_at w k) as [x|] eqn:Ek.
  { exists R. split_and!; [done|by rewrite Hm| |done].
    assert (forall k', reply_at (set_replies d w) k' = reply_at w k') as Hsame by (intros k'; rewrite Ha, decide_False; [done|naive_solver]).
    destruct Hw. split; cbn; try done.
    - intros k' b. rewrite Hsame. apply wo_recorded0.
    - intros k' b t. rewrite Hsame. apply wo_replies0. }
  assert (R !! k = None) as HR by (by eapply recorded_there; [exact Hw|..]; try done; lia).
  exists (<[k := body]> R). split_and!; [by apply insert_subseteq|by rewrite lookup_insert_eq| |done].
  destruct Hw. split; cbn; try done.
  - intros k' b [[<- <-]|[Hne Hb]]%lookup_insert_Some.
    + exists user, r. split_and!; try done. intros _. exists (clock w). rewrite Ha, decide_True by done. split; [done|lia].
    + apply wo_recorded0 in Hb as (u' & r' & H1 & H2 & H3 & H4 & H5 & H6). exists u', r'. split_and!; try done.
      intros Hl. destruct (H6 Hl) as (t & Hu & ?). exists t. by rewrite Ha, decide_False by naive_solver.
  - intros k' b t. rewrite Ha. case_decide as E'.
    + intros [= <- <-]. destruct E' as [-> _]. by rewrite lookup_insert_eq.
    + intros Hk. destruct (decide (k' = k)) as [->|Hne]; [congruence|]. rewrite lookup_insert_ne by done. by eapply wo_replies0.
  - intros subject b Hb. apply wo_heard0 in Hb as (u' & id & H1 & H2 & H3). exists u', id. split_and!; try done.
    rewrite lookup_insert_ne; [done|]. intros E. rewrite <- E in H3. congruence.
Qed.

(** ** Commands, ids and what is published *)

Lemma send_ok w H R start g c :
  world_ok w H R -> ghost_ok w H R start g -> sendable g c ->
  let w' := add_stream (command_subject prefix (rc_user c), encode_command c) w in world_ok w' H R /\ world_le w w'.
Proof.
  intros Hw Hg [Hs (vs & v & i & ins & i0 & Hid & Hv & Hi & He)]. cbn zeta.
  assert (world_le w (add_stream (command_subject prefix (rc_user c), encode_command c) w)) as Hle
    by (split; cbn; try done; set_solver).
  split; [|done]. apply (go_ids _ _ _ _ _ Hg) in Hid as (b & Hb & Hvs & Hsort). apply Hvs in Hv.
  apply StronglySorted_inv in Hsort as [_ Hsort]. rewrite Forall_forall in Hsort. apply Hsort in Hi.
  destruct Hw. split; try done.
  - intros subject p [[= -> ->]|Hp]%elem_of_cons; [|by apply wo_stream0]. exists c, b. split_and!; try done.
    unfold LONGEST_ASK, CONFIRM_HOLD_SECS in *. lia.
  - intros k x t Hk. apply wo_claims0 in Hk as (c' & b' & ? & ?). exists c', b'. split; [|done]. by eapply was_sent_le.
  - intros k x Hk. apply wo_holders0 in Hk as (c' & b' & ? & ?). exists c', b'. split; [|done]. by eapply was_sent_le.
  - intros k x Hk. apply wo_recorded0 in Hk as (u & r & H1 & H2 & H3 & H4 & (c' & H5 & H5') & H6).
    exists u, r. split_and!; try done. exists c'. split; [|done]. by eapply was_sent_le.
Qed.

Lemma publish_ok w H R start g user id body :
  world_ok w H R -> ghost_ok w H R start g -> subject_safe user = true -> (command_key user id, body) ∈ g_bodies g ->
  let w' := add_heard (reply_subject prefix id, body) w in world_ok w' H R /\ world_le w w'.
Proof.
  intros Hw Hg Hs Hb. cbn zeta. split; [|split; cbn; try done; set_solver].
  destruct Hw. split; try done. intros subject p [[= -> ->]|Hp]%elem_of_cons; [|by apply wo_heard0].
  exists user, id. split_and!; try done. by apply (go_bodies _ _ _ _ _ Hg).
Qed.

Lemma born_ok w H R id :
  world_ok w H R -> born w !! id = None -> 0 <= id < uuid_end -> world_ok (add_born id w) H R /\ world_le w (add_born id w).
Proof.
  intros Hw Hn Hid. assert (world_le w (add_born id w)) as Hle.
  { split; cbn; try done. by apply insert_subseteq. }
  split; [|done]. assert (forall i b, born w !! i = Some b -> born (add_born id w) !! i = Some b) as Hb
    by (intros i b Hi; exact (lookup_weaken _ _ _ _ Hi (wl_born _ _ Hle))).
  destruct Hw. split; try done.
  - cbn. intros i b [[<- <-]|[_ Hi]]%lookup_insert_Some; [lia|by apply wo_born0].
  - intros s p Hp. apply wo_stream0 in Hp as (c & b & H1 & H2 & H3 & H4 & H5). exists c, b. split_and!; auto.
  - intros k x t Hk. apply wo_claims0 in Hk as (c & b & H1 & H2 & H3 & H4). exists c, b. split_and!; auto.
  - intros k x Hk. apply wo_holders0 in Hk as (c & b & H1 & H2 & H3 & H4). exists c, b. split_and!; auto.
Qed.

Lemma begun_ok w H R j :
  world_ok w H R -> job_allowed (clock w) j -> world_ok (add_begun j w) H R /\ world_le w (add_begun j w).
Proof.
  intros Hw Hj. split; [|split; cbn; try done; set_solver]. destruct Hw. split; try done.
  - intros k b Hb. apply wo_recorded0 in Hb as (u & r & H1 & H2). exists u, r. split; [|done]. by right.
  - intros user r [<-|Hr]%elem_of_cons; [done|by eapply wo_begun0].
Qed.

(** ** Each effect *)

Definition effect_ok w H R start (od : option Z) g {A} (e : Nats A) (a : A) w' : Prop :=
  exists R', R ⊆ R' /\ world_le w w' /\ world_ok w' H R'
    /\ ((forall d, od = Some d -> clock w <= d) ->
        exists H', H ⊆ H' /\ world_ok w' H' R' /\ ghost_ok w' H' R' start (follow od g e a)).

Lemma effect_quiet w H R start od g {A} (e : Nats A) a :
  world_ok w H R -> ghost_ok w H R start (follow od g e a) -> effect_ok w H R start od g e a w.
Proof. intros Hw Hg. exists R. split_and!; try done. intros _. by exists H. Qed.

Lemma effect_now w H R start od g v :
  world_ok w H R -> ghost_ok w H R start g -> clock w - skew <= v <= clock w + skew ->
  effect_ok w H R start od g Now v w.
Proof.
  intros Hw Hg Hv. apply effect_quiet; [done|]. destruct Hg. split; try done.
  intros ins x [[= -> ->]|Hx]%elem_of_cons; [|by apply go_nows0].
  split; [|lia]. intros i Hi. apply go_instants0 in Hi. lia.
Qed.

Lemma effect_instant w H R start od g :
  world_ok w H R -> ghost_ok w H R start g -> effect_ok w H R start od g InstantNow (clock w) w.
Proof.
  intros Hw Hg. apply effect_quiet; [done|]. destruct Hg. split; try done.
  - intros i [->|Hi]%elem_of_cons; [lia|by apply go_instants0].
  - cbn. constructor; [done|]. apply Forall_forall. intros i Hi%go_instants0. lia.
Qed.

Lemma effect_id w H R start od g id :
  world_ok w H R -> ghost_ok w H R start g -> born w !! id = None -> 0 <= id < uuid_end ->
  effect_ok w H R start od g NewId id (add_born id w).
Proof.
  intros Hw Hg Hn Hi. destruct (born_ok w H R id Hw Hn Hi) as [Hw' Hle]. exists R. split_and!; try done.
  intros _. exists H. split_and!; try done. pose proof (ghost_ok_le _ _ _ _ _ _ _ _ Hle ltac:(done) ltac:(done) Hg) as Hg'.
  pose proof (go_nows _ _ _ _ _ Hg) as Hnow. destruct Hg'. split; try done.
  intros i vs ins [[= -> -> ->]|Hx]%elem_of_cons; [|by eapply go_ids0].
  exists (clock w). cbn. rewrite lookup_insert_eq. split_and!; try done.
  intros v ([ins' v'] & -> & Hv)%list_elem_of_fmap. apply Hnow in Hv. cbn. lia.
Qed.

Lemma effect_read w H R start od g subject from a :
  world_ok w H R -> ghost_ok w H R start g ->
  match a with Given (Some (_, p)) => (subject, p) ∈ stream w | _ => True end ->
  effect_ok w H R start od g (NextFor subject from) a w.
Proof.
  intros Hw Hg Ha. apply effect_quiet; [done|]. cbn. destruct a as [| |[[n p]|]]; try done.
  destruct Hg. split; try done. intros s' p' [[= -> ->]|Hp]%elem_of_cons; [done|by apply go_read0].
Qed.

Lemma effect_next_reply w H R start od g subject a :
  world_ok w H R -> ghost_ok w H R start g ->
  match a with Some p => (subject, p) ∈ heard w | None => True end ->
  effect_ok w H R start od g (NextReply subject) a w.
Proof.
  intros Hw Hg Ha. apply effect_quiet; [done|]. cbn. destruct a as [p|]; [|done].
  destruct Hg. split; try done. intros s' p' [[= -> ->]|Hp]%elem_of_cons; [done|by apply go_heard0].
Qed.

Lemma effect_send w H R start od g subject id body a w' :
  world_ok w H R -> ghost_ok w H R start g -> permit prefix od g (SendCommand subject id body) ->
  serve skew w (SendCommand subject id body) a w' -> effect_ok w H R start od g (SendCommand subject id body) a w'.
Proof.
  intros Hw Hg (c & -> & -> & Hc) Hs. destruct (send_ok _ _ _ _ _ _ Hw Hg Hc) as [Hw' Hle].
  assert (w' = w \/ w' = add_stream (command_subject prefix (rc_user c), encode_command c) w) as [->| ->]
    by (destruct a; cbn in Hs; auto); [by apply effect_quiet|].
  exists R. split_and!; try done. intros _. exists H. split_and!; try done. by eapply ghost_ok_le.
Qed.

Lemma effect_publish w H R start od g subject body a w' :
  world_ok w H R -> ghost_ok w H R start g -> permit prefix od g (CorePublish subject body) ->
  serve skew w (CorePublish subject body) a w' -> effect_ok w H R start od g (CorePublish subject body) a w'.
Proof.
  intros Hw Hg (user & id & -> & Hsafe & Hb) Hs. destruct (publish_ok _ _ _ _ _ _ _ _ Hw Hg Hsafe Hb) as [Hw' Hle].
  assert (w' = w \/ w' = add_heard (reply_subject prefix id, body) w) as [->| ->]
    by (destruct a; cbn in Hs; auto); [by apply effect_quiet|].
  exists R. split_and!; try done. intros _. exists H. split_and!; try done. by eapply ghost_ok_le.
Qed.

Lemma with_body w H R start g k b :
  ghost_ok w H R start g -> R !! k = Some b -> ghost_ok w H R start (add_body (k, b) g).
Proof. intros [] HR. split; try done. intros k' b' [[= -> ->]|Hp]%elem_of_cons; [done|by apply go_bodies0]. Qed.

Lemma with_holder w H R start g k h :
  ghost_ok w H R start g -> H !! k = Some h -> ghost_ok w H R start (add_holder (k, h) g).
Proof. intros [] HR. split; try done. intros k' b' [[= -> ->]|Hp]%elem_of_cons; [done|by apply go_holders0]. Qed.

Lemma effect_get_reply w H R start od g k a w' :
  world_ok w H R -> ghost_ok w H R start g -> serve skew w (KvGet Replies k) a w' ->
  effect_ok w H R start od g (KvGet Replies k) a w'.
Proof.
  intros Hw Hg [-> Ha]. apply effect_quiet; [done|]. cbn. destruct a as [| |[b|]]; try done.
  apply with_body; [done|]. symmetry in Ha. apply fmap_Some in Ha as ([b' t] & Ht & ->). by apply (wo_replies _ _ _ Hw _ _ t).
Qed.

Lemma effect_get_claim w H R start od g k a w' :
  world_ok w H R -> ghost_ok w H R start g -> permit prefix od g (KvGet Claims k) ->
  serve skew w (KvGet Claims k) a w' -> effect_ok w H R start od g (KvGet Claims k) a w'.
Proof.
  intros Hw Hg Hp [-> Ha]. destruct a as [| |[h|]]; try (by apply effect_quiet).
  symmetry in Ha. apply fmap_Some in Ha as ([h' t] & Ht & ->). fold (claim_at w k) in Ht. cbn [fst].
  pose proof (wo_claims _ _ _ Hw _ _ _ Ht) as (c & b & Hs & Hk & Hb & Hbt). destruct od as [d|].
  - exists R. split_and!; try done. intros Hd. specialize (Hd d eq_refl).
    destruct (in_time_bound _ _ _ _ _ _ _ Hw Hg Hp Hd) as (c' & b' & Hs' & Hk' & Hb' & Hlt).
    assert (b' = b) as -> by (apply (same_key w H R c' c b' b Hw Hs' Hs); [by rewrite <- Hk', <- Hk|done|done]).
    destruct (holder_learned _ _ _ _ _ _ _ _ Hw Hs Hk Hb Hlt Ht Hbt) as (H' & HH & HH' & Hw').
    exists H'. split_and!; try done. cbn. apply with_holder; [|done]. by eapply ghost_ok_le.
  - apply effect_quiet; [done|]. cbn. destruct Hg. split; try done.
    intros k' [->|Hk']%elem_of_cons; [by exists c|by apply go_claimed0].
Qed.

Lemma effect_claim w H R start od g k v a w' :
  world_ok w H R -> ghost_ok w H R start g -> permit prefix od g (KvCreate Claims k v) ->
  serve skew w (KvCreate Claims k v) a w' -> effect_ok w H R start od g (KvCreate Claims k v) a w'.
Proof.
  intros Hw Hg Hp Hs. destruct od as [d|]; [|done]. cbn in Hp.
  destruct (in_time_sent _ _ _ _ _ _ _ Hw Hg Hp) as (c & Hc & Hk).
  destruct (claim_lands _ _ _ c v Hw Hc) as [Hw' Hle]. rewrite <- Hk in Hw', Hle.
  assert (w' = w /\ a <> Given Created \/ w' = (create_claim k v w).2) as [[-> Ha]| ->].
  { destruct a as [| |[]]; cbn in Hs; naive_solver. }
  { apply effect_quiet; [done|]. cbn. by destruct a as [| |[]]. }
  exists R. split_and!; try done. intros Hd. specialize (Hd d eq_refl).
  assert (ghost_ok (create_claim k v w).2 H R start g) as Hg' by (by eapply ghost_ok_le).
  destruct a as [| |[|]]; try (by exists H).
  destruct Hs as [Hm _]. rewrite create_claim_made in Hm. apply bool_decide_eq_true in Hm.
  destruct (in_time_bound _ _ _ _ _ _ _ Hw Hg Hp Hd) as (c' & b & Hs' & Hk' & Hb & Hlt).
  destruct (sent_ok _ _ _ _ Hw Hs') as (_ & b' & Hb' & Hbc & _). rewrite Hb in Hb'. injection Hb' as <-.
  pose proof (create_claim_at k v w k) as Hat. rewrite decide_True in Hat by done.
  destruct (create_claim_same k v w) as [db E]. rewrite E in *.
  destruct (holder_learned _ _ _ c' b k v (clock w) Hw') as (H' & HH & HH' & Hw''); try done.
  exists H'. split_and!; try done. cbn. apply with_holder; [|done]. by eapply ghost_ok_le.
Qed.

Lemma effect_reply w H R start od g k v a w' :
  world_ok w H R -> ghost_ok w H R start g -> clock w <= start + patience -> permit prefix od g (KvCreate Replies k v) ->
  serve skew w (KvCreate Replies k v) a w' -> effect_ok w H R start od g (KvCreate Replies k v) a w'.
Proof.
  intros Hw Hg Hpat (user & r & ins & x & Hj & -> & -> & Hsafe & Hx & Hf & Hc) Hs.
  set (k := command_key _ _) in *. set (v := encode_envelope _) in *.
  apply (go_job _ _ _ _ _ Hg) in Hj. pose proof (wo_begun _ _ _ Hw _ _ Hj) as Hid.
  apply (go_claimed _ _ _ _ _ Hg) in Hc as (c & Hc & Hk).
  destruct (sent_ok _ _ _ _ Hw Hc) as (Hcs & b & _ & _ & Hcid & _). apply command_key_inj in Hk as [Hu Hi]; try done.
  pose proof (wo_clock _ _ _ Hw) as Hclk. destruct (go_start _ _ _ _ _ Hg) as [Hs0 _].
  apply (go_nows _ _ _ _ _ Hg) in Hx as [_ Hx]. apply fresh_window in Hf; [|unfold CLOCK_END in *; lia].
  destruct (reply_lands w H R user r) as (R' & HR & HR' & Hw' & Hle); try done.
  { by exists c. }
  { unfold reply_begin, reply_end, CLOCK_END in *. lia. }
  fold k in HR', Hw', Hle. fold v in HR', Hw', Hle.
  assert (w' = w /\ a <> Given Created \/ w' = (create_reply k v w).2) as [[-> Ha]| ->].
  { destruct a as [| |[]]; cbn in Hs; naive_solver. }
  { apply effect_quiet; [done|]. cbn. by destruct a as [| |[]]. }
  exists R'. split_and!; try done. intros _. exists H. split_and!; try done.
  assert (ghost_ok (create_reply k v w).2 H R' start g) as Hg' by (by eapply ghost_ok_le).
  destruct a as [| |[|]]; try done. destruct Hs as [Hm _]. cbn. apply with_body; [done|]. by apply HR'.
Qed.

Lemma serve_ok w H R start od g {A} (e : Nats A) a w' :
  world_ok w H R -> ghost_ok w H R start g -> clock w <= start + patience ->
  permit prefix od g e -> serve skew w e a w' -> effect_ok w H R start od g e a w'.
Proof.
  intros Hw Hg Hpat. revert od w'.
  induction e; intros od w' Hp Hs; try (cbn in Hs; subst w'; by apply effect_quiet).
  - destruct Hs as [-> Ha]. by apply effect_now.
  - destruct Hs as [-> ->]. by apply effect_instant.
  - destruct Hs as (Hn & Hi & ->). by apply effect_id.
  - destruct Hs as [-> Ha]. by apply effect_read.
  - by apply effect_send.
  - by apply effect_publish.
  - destruct Hs as [-> Ha]. by apply effect_next_reply.
  - destruct b; [by apply effect_get_reply|cbn in Hs; subst w'; by apply effect_quiet|by apply effect_get_claim].
  - destruct b; [by apply effect_reply|cbn in Hs; subst w'; by apply effect_quiet|by apply effect_claim].
  - destruct od as [d|]; [done|]. cbn in Hp. destruct a as [a|].
    + destruct Hs as [Hd Hs]. destruct (IHe a (Some deadline) w' Hp Hs) as (R' & HR & Hle & Hw' & HH).
      exists R'. split_and!; try done. intros _. apply HH. by intros d [= <-].
    + destruct Hs as [->|[x Hx]]; [by apply effect_quiet|].
      destruct (IHe x (Some deadline) w' Hp Hx) as (R' & HR & Hle & Hw' & _).
      exists R'. split_and!; try done. intros _. exists H. split_and!; try done. cbn. by eapply ghost_ok_le.
Qed.

Lemma serve_possible w H R {A} (e : Nats A) a w' : world_ok w H R -> serve skew w e a w' -> nats_possible e a.
Proof.
  intros Hw. pose proof (wo_clock _ _ _ Hw) as Hc.
  induction e; cbn; try done.
  - unfold CLOCK_END in *. lia.
  - intros [_ ->]. done.
  - destruct a; [|done]. intros [_ Hs]. by apply IHe.
Qed.

(** ** The system *)

Definition sys_ok (s : Sys cdb rdb) : Prop :=
  exists H R, world_ok (world s) H R
    /\ (forall n wk, workers s !! n = Some wk ->
         exists g, ghost_ok (world s) H R (w_start wk) g /\ obeys prefix None g (w_prog wk) (learned prefix (w_job wk)))
    /\ (forall j o, (j, o) ∈ finished s -> exists start g, ghost_ok (world s) H R start g /\ learned prefix j g o).

(** The world changes and the workers stay. *)
Lemma sys_ok_world s w' H H' R R' :
  world_ok w' H' R' -> world_le (world s) w' -> H ⊆ H' -> R ⊆ R' ->
  (forall n wk, workers s !! n = Some wk ->
     exists g, ghost_ok (world s) H R (w_start wk) g /\ obeys prefix None g (w_prog wk) (learned prefix (w_job wk))) ->
  (forall j o, (j, o) ∈ finished s -> exists start g, ghost_ok (world s) H R start g /\ learned prefix j g o) ->
  (forall n wk, workers s !! n = Some wk ->
     exists g, ghost_ok w' H' R' (w_start wk) g /\ obeys prefix None g (w_prog wk) (learned prefix (w_job wk)))
  /\ (forall j o, (j, o) ∈ finished s -> exists start g, ghost_ok w' H' R' start g /\ learned prefix j g o).
Proof.
  intros Hw Hle HH HR Hwk Hfin. split.
  - intros n wk Hn. apply Hwk in Hn as (g & Hg & Ho). exists g. split; [|done]. by eapply ghost_ok_le.
  - intros j o Hj. apply Hfin in Hj as (start & g & Hg & Ho). exists start, g. split; [|done]. by eapply ghost_ok_le.
Qed.

Lemma step_ok s s' :
  sys_ok s -> remote_step to_lowercase prefix has_nats skew patience s s' -> sys_ok s'.
Proof.
  intros (H & R & Hw & Hwk & Hfin) Hstep. destruct Hstep as
    [t Ht|n j Hn Hj|n j start A e k a w' Hn Hpat Hs|n j start o Hn|n|c device Hc|user r Hj Ht Hc Hsafe].
  - destruct (tick_ok _ _ _ t Hw Ht) as [Hw' Hle]. exists H, R. split; [done|]. by apply (sys_ok_world s _ H H R R).
  - destruct (begun_ok _ _ _ j Hw Hj) as [Hw' Hle]. exists H, R. split; [done|].
    destruct (sys_ok_world s (add_begun j (world s)) H H R R) as [H1 H2]; try done. split; [|done]. cbn.
    intros m wk [[<- <-]|[_ Hm]]%lookup_insert_Some; [|by apply (H1 m)]. cbn.
    pose proof (wo_clock _ _ _ Hw) as Hc.
    exists (ghost_of j (clock (world s))). split; [|by apply keeps_job].
    split; cbn; try done; try set_solver. repeat constructor.
  - pose proof Hn as (g & Hg & [Hp Ho])%Hwk. cbn in Hg.
    destruct (serve_ok _ _ _ _ None _ e a w' Hw Hg Hpat Hp Hs) as (R' & HR & Hle & _ & HH).
    destruct HH as (H' & HH & Hw' & Hg'); [done|]. exists H', R'. split; [done|].
    destruct (sys_ok_world s w' H H' R R') as [H1 H2]; try done. split; [|done]. cbn.
    intros m wk [[<- <-]|[_ Hm]]%lookup_insert_Some; [|by apply (H1 m)]. cbn.
    exists (follow None g e a). split; [done|]. apply Ho. exact (serve_possible _ _ _ e a w' Hw Hs).
  - exists H, R. split; [done|]. split; cbn; [intros m wk [_ Hm]%lookup_delete_Some; by apply (Hwk m)|].
    intros j' o' [[= -> ->]|Hj]%elem_of_cons; [|by apply Hfin]. apply Hwk in Hn as (g & Hg & Ho). by exists start, g.
  - exists H, R. split; [done|]. split; [|done]. cbn. intros m wk [_ Hm]%lookup_delete_Some. by apply (Hwk m).
  - destruct (claim_lands _ _ _ c device Hw Hc) as [Hw' Hle]. exists H, R. split; [done|]. by apply (sys_ok_world s _ H H R R).
  - destruct (reply_lands _ H R user r Hw Hj Hsafe) as (R' & HR & _ & Hw' & Hle); [|done|].
    { destruct Hc as (c & Hc & Hu & Hi). exists c. split; [|done]. unfold was_sent. by rewrite Hu. }
    exists H, R'. split; [done|]. by apply (sys_ok_world s _ H H R R').
Qed.

Lemma start_ok t cd rd :
  (forall k, kv_at COMMANDS_AGE cd t k = None) -> (forall k, kv_at REPLIES_AGE rd t k = None) -> 0 <= t <= CLOCK_END ->
  sys_ok (no_commands t cd rd).
Proof.
  intros Hc Hr Ht. exists ∅, ∅. split; [|split; cbn; [done|set_solver]].
  split; cbn; try done; try set_solver.
  - intros k v u. unfold claim_at. cbn. by rewrite Hc.
  - intros k v u. unfold reply_at. cbn. by rewrite Hr.
Qed.

Lemma reachable_ok t cd rd s :
  (forall k, kv_at COMMANDS_AGE cd t k = None) -> (forall k, kv_at REPLIES_AGE rd t k = None) -> 0 <= t <= CLOCK_END ->
  rtc (remote_step to_lowercase prefix has_nats skew patience) (no_commands t cd rd) s -> sys_ok s.
Proof.
  intros Hc Hr Ht Hs. assert (sys_ok (no_commands t cd rd)) as H0 by (by apply start_ok).
  revert H0. induction Hs as [|s1 s2 s3 H12 _ IH]; [done|]. intros H1. apply IH. by eapply step_ok.
Qed.

(** *** What follows *)

Lemma delivered_to w H R start g user device c :
  world_ok w H R -> ghost_ok w H R start g -> delivered prefix g user device c ->
  rc_user c = user /\ H !! command_key user (rc_id c) = Some device.
Proof.
  intros Hw Hg (p & c0 & seq & Hp & Hd & -> & Hh). apply (go_holders _ _ _ _ _ Hg) in Hh.
  apply (go_read _ _ _ _ _ Hg), (wo_stream _ _ _ Hw) in Hp as (c1 & b & -> & Es & _).
  rewrite decode_encode_command in Hd. injection Hd as ->.
  unfold command_subject in Es. apply app_inv_head, app_inv_head in Es. cbn in *. by subst user.
Qed.

Lemma answers_recorded w H R start g user r :
  world_ok w H R -> ghost_ok w H R start g -> answers_as prefix g user r ->
  exists b, R !! command_key user (rr_id r) = Some b /\ decode_envelope b = Some {| re_user := user; re_reply := r |}.
Proof.
  intros Hw Hg (e & He & ->).
  assert (exists k b, R !! k = Some b /\ decode_envelope b = Some e /\ re_user e = user) as (k & b & Hk & Hd & Hu).
  { destruct He as [(b & Hb & Hd & Hu & _)|(b & Hb & Hd & Hu & _)].
    - apply (go_bodies _ _ _ _ _ Hg) in Hb. by eexists _, b.
    - apply (go_heard _ _ _ _ _ Hg), (wo_heard _ _ _ Hw) in Hb as (u & id & _ & _ & Hb). by eexists _, b. }
  exists b. pose proof (wo_recorded _ _ _ Hw _ _ Hk) as (u0 & r0 & _ & -> & Ek & _).
  destruct (decode_encode_envelope {| re_user := u0; re_reply := r0 |}) as [E|E]; rewrite E in Hd; [|done].
  injection Hd as <-. cbn in *. subst u0. by rewrite Ek in Hk.
Qed.

(** A reply that someone who asked was given. *)
Definition given_answer (s : Sys cdb rdb) (user : str) (r : RemoteReply) : Prop :=
  (exists kind source text deadline messages,
     (JDispatch user kind source text deadline messages, OAsked (AskedReply r)) ∈ finished s)
  \/ (exists id, (JAnswer user id, OAnswer (Some r)) ∈ finished s).

Lemma given_recorded s H R user r :
  world_ok (world s) H R ->
  (forall j o, (j, o) ∈ finished s -> exists start g, ghost_ok (world s) H R start g /\ learned prefix j g o) ->
  given_answer s user r ->
  exists b, R !! command_key user (rr_id r) = Some b /\ decode_envelope b = Some {| re_user := user; re_reply := r |}.
Proof.
  intros Hw Hfin [(kind & source & text & deadline & messages & Hj)|(id & Hj)];
    apply Hfin in Hj as (start & g & Hg & Hl); cbn in Hl.
  - by eapply answers_recorded.
  - destruct Hl as (e & He & ->). eapply answers_recorded; [done..|]. by eapply stored_answers_as.
Qed.

Section theorems.
Context (t : Z) (cd : cdb) (rd : rdb) (s : Sys cdb rdb).
Context (claims_empty : forall k, kv_at COMMANDS_AGE cd t k = None) (replies_empty : forall k, kv_at REPLIES_AGE rd t k = None).
Context (calendar : 0 <= t <= CLOCK_END).
Context (run : rtc (remote_step to_lowercase prefix has_nats skew patience) (no_commands t cd rd) s).

(** C6: under any interleaving of the hubs' work, with requests that fail, take effect
    late or not at all, a command is handed to one device only: two waits that returned
    it were of the same device (which may ask again), and it is a device of the user the
    command was sent to.  The claim that decides it runs out after two minutes, but by
    then no scan can still offer the command, as long as no clock is off by more than
    nineteen seconds. *)
Theorem command_one_device user device active since rounds r c user' device' active' since' rounds' r' c' :
  (JWait user device active since rounds, OWait (Ok r)) ∈ finished s -> c ∈ wr_commands r ->
  (JWait user' device' active' since' rounds', OWait (Ok r')) ∈ finished s -> c' ∈ wr_commands r' ->
  rc_user c = user /\ (rc_user c' = rc_user c -> rc_id c' = rc_id c -> device' = device).
Proof.
  intros Hj Hc Hj' Hc'. destruct (reachable_ok t cd rd s claims_empty replies_empty calendar run) as (H & R & Hw & _ & Hfin).
  apply Hfin in Hj as (start & g & Hg & Hl). apply Hfin in Hj' as (start' & g' & Hg' & Hl').
  destruct (delivered_to _ _ _ _ _ _ _ _ Hw Hg (Hl _ Hc)) as [Hu Hh].
  destruct (delivered_to _ _ _ _ _ _ _ _ Hw Hg' (Hl' _ Hc')) as [Hu' Hh'].
  split; [done|]. intros Eu Ei. rewrite Hu', Hu in Eu. subst user'. rewrite Ei in Hh'. congruence.
Qed.

(** Everyone who asks for the answer to a command, whether by waiting for it or by
    reading it later, is given the same reply; it is one that the command's own user
    sent in answer to a command that was sent to that user.  A stored reply runs out
    after ten minutes, but by then no other reply to the command is accepted, as long as
    the clocks agree and a reply is stored within minutes of being sent. *)
Theorem command_one_answer user r r' :
  given_answer s user r -> given_answer s user r' -> rr_id r = rr_id r' ->
  r' = r /\ JReply user r ∈ begun (world s)
  /\ exists c, was_sent (world s) c /\ rc_user c = user /\ rc_id c = rr_id r.
Proof.
  intros Hr Hr' Eid. destruct (reachable_ok t cd rd s claims_empty replies_empty calendar run) as (H & R & Hw & _ & Hfin).
  apply (given_recorded _ _ _ _ _ Hw Hfin) in Hr as (b & Hb & Hd).
  apply (given_recorded _ _ _ _ _ Hw Hfin) in Hr' as (b' & Hb' & Hd'). rewrite <- Eid, Hb in Hb'. injection Hb' as <-.
  split; [congruence|]. apply (wo_recorded _ _ _ Hw) in Hb as (u0 & r0 & Hj & -> & _ & _ & Hc & _).
  destruct (decode_encode_envelope {| re_user := u0; re_reply := r0 |}) as [E|E]; rewrite E in Hd; [|done].
  by injection Hd as -> ->.
Qed.
End theorems.
End facts.

(** * A run

    An executable choice of the answers of [RemoteSystem] ([drive]), with a codec made of
    countable encodings and the layout of version 7 uuids, and a scenario: a skill asks,
    a phone waits and is handed the command, waits again, answers, and the skill and a
    later reader get the answer.  The theorems are applied to it. *)

From stdpp Require Import countable.
From S2P Require Import AppError RoomStore.
Local Open Scope Z_scope.

(** ** The parameters *)

Abbreviation command_tuple := (Z * bool * Z * str * str * str * option str * Z * Z)%type.

Definition command_to (c : RemoteCommand) : command_tuple :=
  (rc_id c, match rc_kind c with Utterance => true | LinkConfirmKind => false end, rc_seq c, rc_user c, rc_source c,
   rc_text c, rc_hint c, rc_created_at c, rc_expires_at c).
Definition command_of (x : command_tuple) : RemoteCommand :=
  let '(id, kind, seq, user, source, text, hint, created, expires) := x in
  {| rc_id := id; rc_kind := if kind then Utterance else LinkConfirmKind; rc_seq := seq; rc_user := user;
     rc_source := source; rc_text := text; rc_hint := hint; rc_created_at := created; rc_expires_at := expires |}.

Abbreviation envelope_tuple := (str * Z * bool * str * str * option value)%type.

Definition envelope_to (e : ReplyEnvelope) : envelope_tuple :=
  (re_user e, rr_id (re_reply e), rr_ok (re_reply e), rr_speech (re_reply e), rr_display (re_reply e), rr_state (re_reply e)).
Definition envelope_of (x : envelope_tuple) : ReplyEnvelope :=
  let '(user, id, ok, speech, display, state) := x in
  {| re_user := user;
     re_reply := {| rr_id := id; rr_ok := ok; rr_speech := speech; rr_display := display; rr_state := state |} |}.

Definition text_of {A} `{Countable A} (x : A) : str := [Zpos (countable.encode x)].
Definition text_to {A} `{Countable A} (s : str) : option A := match s with [Zpos p] => countable.decode p | _ => None end.

Lemma text_to_of {A} `{Countable A} (x : A) : text_to (text_of x) = Some x.
Proof. apply countable.decode_encode. Qed.

Definition seen_to (x : Seen) : str * Z * Z := (sn_device x, sn_active x, sn_at_ms x).
Definition seen_of (x : str * Z * Z) : Seen := {| sn_device := x.1.1; sn_active := x.1.2; sn_at_ms := x.2 |}.

Lemma command_round c : option_map command_of (text_to (text_of (command_to c))) = Some c.
Proof. rewrite text_to_of. by destruct c as [? []]. Qed.
Lemma envelope_round e : option_map envelope_of (text_to (text_of (envelope_to e))) = Some e.
Proof. rewrite text_to_of. by destruct e as [? []]. Qed.
Lemma seen_round d : option_map (List.map seen_of) (text_to (text_of (List.map seen_to d))) = Some d.
Proof.
  rewrite text_to_of. cbn. rewrite List.map_map. f_equal. rewrite <- (List.map_id d) at 2.
  apply List.map_ext. by intros [].
Qed.

#[export] Instance sample_codec : RemoteCodec := {|
  encode_command c := text_of (command_to c);
  decode_command s := option_map command_of (text_to s);
  encode_envelope e := text_of (envelope_to e);
  decode_envelope s := option_map envelope_of (text_to s);
  encode_devices d := text_of (List.map seen_to d);
  decode_devices s := option_map (List.map seen_of) (text_to s);
  decode_encode_command := command_round;
  decode_encode_envelope e := or_introl (envelope_round e);
  decode_encode_devices := seen_round
|}.

#[export] Program Instance sample_uuids : UuidTime := {|
  sorts_by_time id := Z.land (Z.shiftr id 76) 15 =? 7;
  unix_time id := let ms := Z.shiftr id 80 mod 2 ^ 48 in Some (ms / 1000, ms mod 1000 * 1000000)
|}.
Next Obligation.
  cbn. intros id seconds nanos [= <- <-]. change (2 ^ 48) with 281474976710656. set (ms := Z.shiftr id 80 mod 281474976710656).
  assert (0 <= ms < 281474976710656) as Hms by (apply Z.mod_pos_bound; lia).
  assert (0 <= ms mod 1000 < 1000) by (apply Z.mod_pos_bound; lia).
  assert (0 <= ms / 1000) by (apply Z.div_pos; lia).
  assert (ms / 1000 < 281474976711) by (apply Z.div_lt_upper_bound; lia). lia.
Qed.

(** ** One choice of the answers *)

Abbreviation sample_db := (gmap str (str * Z)).
Abbreviation sample_world := (World sample_db sample_db).
Abbreviation sample_sys := (Sys sample_db sample_db).

(** The first message to the subject whose sequence is not before [from]. *)
Fixpoint find_from (seq : Z) (subject : str) (from : Z) (l : list (str * str)) : option (Z * str) :=
  match l with
  | [] => None
  | (s, p) :: l' => if bool_decide (s = subject) && (from <=? seq) then Some (seq, p) else find_from (seq + 1) subject from l'
  end.

Lemma find_from_in seq subject from l n p : find_from seq subject from l = Some (n, p) -> (subject, p) ∈ l.
Proof.
  revert seq. induction l as [|[s q] l IH]; intros seq; cbn; [done|]. destruct (_ && _) eqn:E.
  - intros [= <- <-]. apply andb_true_iff in E as [E%bool_decide_eq_true _]. subst. by left.
  - intros H. right. by eapply IH.
Qed.

Definition phones : Devices := [{| sn_device := lit "phone"; sn_active := 7; sn_at_ms := 1000 |}].

Definition next_id (w : sample_world) : Z := clock w * 2 ^ 80 + 7 * 2 ^ 76 + Z.of_nat (size (born w)).

Fixpoint answer_now (w : sample_world) {A} (e : Nats A) : option (A * sample_world) :=
  match e in Nats A return option (A * sample_world) with
  | Now => Some (clock w, w)
  | InstantNow => Some (clock w, w)
  | NewId => if bool_decide (born w !! next_id w = None) && (0 <=? next_id w) && (next_id w <? uuid_end)
             then Some (next_id w, add_born (next_id w) w) else None
  | Connected => Some (true, w)
  | WaitConnected _ => Some (true, w)
  | SlotCached => Some (Open 0, w)
  | LockOpening => Some (tt, w)
  | UnlockOpening => Some (tt, w)
  | SlotOpened => Some (0%nat, w)
  | SlotFailed => Some (tt, w)
  | SlotForget _ => Some (tt, w)
  | AnnouncedGet _ _ => Some (None, w)
  | AnnouncedPut _ _ _ _ => Some (tt, w)
  | AnnouncedForget _ _ => Some (tt, w)
  | WaitsEnter _ _ => Some (Some 0%nat, w)
  | WaitsLeave _ => Some (tt, w)
  | EnsureStream _ => Some (Given tt, w)
  | GetStream _ => Some (Given tt, w)
  | EnsureBucket _ => Some (Given tt, w)
  | StreamInfo => Some (Given (Z.of_nat (length (stream w))), w)
  | NextFor subject from => Some (Given (find_from 1 subject from (rev (stream w))), w)
  | SendCommand subject _ body => Some (Ok tt, add_stream (subject, body) w)
  | AwaitAck => Some (Ok tt, w)
  | CorePublish subject body => Some (Ok tt, add_heard (subject, body) w)
  | Subscribe _ => Some (Ok tt, w)
  | NextReply subject => Some (snd <$> find_from 1 subject 1 (heard w), w)
  | Select _ => Some (Slept, w)
  | KvGet Claims k => Some (Given (fst <$> kv_at COMMANDS_AGE (claims w) (clock w) k), w)
  | KvGet Replies k => Some (Given (fst <$> kv_at REPLIES_AGE (replies w) (clock w) k), w)
  | KvGet DeviceLists _ => Some (Given (Some (encode_devices phones)), w)
  | KvEntry _ _ => Some (Given None, w)
  | KvCreate Claims k v =>
      let r := create_claim k v w in Some (if r.1 then (Given Created, r.2) else (Given (AlreadyExists []), w))
  | KvCreate Replies k v =>
      let r := create_reply k v w in Some (if r.1 then (Given Created, r.2) else (Given (AlreadyExists []), w))
  | KvCreate DeviceLists _ _ => Some (Given Created, w)
  | KvUpdate _ _ _ _ => Some (Given tt, w)
  | Until d e' =>
      if clock w <=? d then match answer_now w e' with Some (a, w') => Some (Some a, w') | None => None end
      else Some (None, w)
  end.

Lemma answer_now_serves w {A} (e : Nats A) a w' : answer_now w e = Some (a, w') -> serve 0 w e a w'.
Proof.
  revert w'. induction e; intros w'; cbn; try (by intros [= <- <-]).
  - intros [= <- <-]. split; [done|lia].
  - destruct (_ && _) eqn:E; [|done]. intros [= <- <-].
    apply andb_true_iff in E as [[E1%bool_decide_eq_true E2%Z.leb_le]%andb_true_iff E3%Z.ltb_lt]. done.
  - intros [= <- <-]. split; [done|]. destruct (find_from _ _ _ _) as [[n p]|] eqn:E; [|done].
    apply find_from_in, list_elem_of_In in E. apply list_elem_of_In. by apply in_rev.
  - intros [= <- <-]. split; [done|]. destruct (find_from _ _ _ _) as [[n p]|] eqn:E; [|done]. by apply find_from_in in E.
  - destruct b; intros [= <- <-]; by split.
  - destruct b; cbn; try (by intros [= <- <-]).
    + destruct (create_reply key value w).1 eqn:E; intros [= <- <-]; by split.
    + destruct (create_claim key value w).1 eqn:E; intros [= <- <-]; by split.
  - destruct (Z.leb_spec (clock w) deadline); [|intros [= <- <-]; by left].
    destruct (answer_now w e) as [[x w1]|] eqn:E; [|done]. intros [= <- <-]. split; [done|]. by apply IHe.
Qed.

(** ** Driving the workers *)

Abbreviation sample_step := (remote_step (fun s : str => s) (lit "remote") true 0 60000).

Inductive Move :=
| Tick (t : Z)
| Begin (n : nat) (j : Job)
| Go (n : nat) (times : nat).

(** One effect of a worker, or its end. *)
Definition drive (n : nat) (s : sample_sys) : option sample_sys :=
  match workers s !! n with
  | Some {| w_job := j; w_start := start; w_prog := p |} =>
      match p with
      | Ret o => Some {| world := world s; workers := delete n (workers s); finished := (j, o) :: finished s |}
      | Vis e k =>
          if clock (world s) <=? start + 60000 then
            match answer_now (world s) e with
            | Some (a, w') => Some {| world := w';
                workers := <[n := {| w_job := j; w_start := start; w_prog := k a |}]> (workers s); finished := finished s |}
            | None => None
            end
          else None
      end
  | None => None
  end.

Fixpoint drive_for (times n : nat) (s : sample_sys) : sample_sys :=
  match times with
  | O => s
  | S times' => match drive n s with Some s' => drive_for times' n s' | None => s end
  end.

Definition allowed (now : Z) (j : Job) : bool :=
  match j with
  | JDispatch _ _ _ _ deadline _ => deadline <=? now + LONGEST_ASK
  | JReply _ r => (0 <=? rr_id r) && (rr_id r <? uuid_end)
  | _ => true
  end.

Definition move (m : Move) (s : sample_sys) : sample_sys :=
  match m with
  | Tick t => if (clock (world s) <=? t) && (t <=? CLOCK_END)
              then {| world := set_clock t (world s); workers := workers s; finished := finished s |} else s
  | Begin n j =>
      if negb (is_some (workers s !! n)) && allowed (clock (world s)) j then
        {| world := add_begun j (world s);
           workers := <[n := {| w_job := j; w_start := clock (world s);
                                w_prog := job_program (fun s => s) (lit "remote") true j |}]> (workers s);
           finished := finished s |}
      else s
  | Go n times => drive_for times n s
  end.

Lemma drive_steps n s s' : drive n s = Some s' -> sample_step s s'.
Proof.
  unfold drive. destruct (workers s !! n) as [[j start [o|A e k]]|] eqn:E; [| |done].
  - intros [= <-]. by apply (step_finish _ _ _ _ _ _ n j start o).
  - destruct (Z.leb_spec (clock (world s)) (start + 60000)); [|done].
    destruct (answer_now (world s) e) as [[a w']|] eqn:Ea; [|done]. intros [= <-].
    eapply (step_effect _ _ _ _ _ _ n j start A e k); [done|done|by apply answer_now_serves].
Qed.

Lemma drive_for_steps times n s : rtc sample_step s (drive_for times n s).
Proof.
  revert s. induction times as [|times IH]; intros s; cbn; [done|]. destruct (drive n s) as [s'|] eqn:E; [|done].
  eapply rtc_l; [by apply (drive_steps n)|apply IH].
Qed.

Lemma move_steps m s : rtc sample_step s (move m s).
Proof.
  destruct m as [t|n j|n times]; cbn; [| |apply drive_for_steps].
  - destruct (_ && _) eqn:E; [|done]. apply andb_true_iff in E as [E1%Z.leb_le E2%Z.leb_le]. by apply rtc_once, step_tick.
  - destruct (_ && _) eqn:E; [|done]. apply andb_true_iff in E as [E1 E2]. apply rtc_once, (step_begin _ _ _ _ _ _ n j).
    + by destruct (workers s !! n).
    + destruct j; cbn in *; try done; [by apply Z.leb_le|]. apply andb_true_iff in E2 as [E2%Z.leb_le E3%Z.ltb_lt]. done.
Qed.

Lemma moves_step moves s : rtc sample_step s (foldl (fun s m => move m s) s moves).
Proof.
  revert s. induction moves as [|m moves IH]; intros s; cbn; [done|]. etrans; [apply move_steps|apply IH].
Qed.

(** ** A scenario *)

Definition u1 : str := lit "u1".
Definition asked_id : Z := 1000 * 2 ^ 80 + 7 * 2 ^ 76.
Definition the_reply : RemoteReply :=
  {| rr_id := asked_id; rr_ok := true; rr_speech := lit "ok"; rr_display := []; rr_state := None |}.
Definition other_reply : RemoteReply :=
  {| rr_id := asked_id; rr_ok := false; rr_speech := lit "no"; rr_display := []; rr_state := None |}.

Definition skill : Job := JDispatch u1 Utterance (lit "alice") (lit "play") 20000 2.
Definition phone_waits : Job := JWait u1 (lit "phone") 7 (Some 0) 1.

Definition scenario : list Move :=
  [Begin 0 skill; Go 0 12;
   Begin 1 phone_waits; Go 1 100; Tick 3000; Begin 2 phone_waits; Go 2 100;
   Begin 3 (JReply u1 the_reply); Go 3 100; Begin 4 (JReply u1 other_reply); Go 4 100;
   Go 0 100; Begin 5 (JAnswer u1 asked_id); Go 5 100].

Definition sample_end : sample_sys := foldl (fun s m => move m s) (no_commands 1000 (∅ : sample_db) (∅ : sample_db)) scenario.

Definition the_command : RemoteCommand :=
  {| rc_id := asked_id; rc_kind := Utterance; rc_seq := 1; rc_user := u1; rc_source := lit "alice"; rc_text := lit "play";
     rc_hint := None; rc_created_at := 1000; rc_expires_at := 21000 |}.
Definition the_response : WaitResponse :=
  {| wr_cursor := 1; wr_commands := [the_command]; wr_active_device := Some (lit "phone") |}.

Lemma scenario_outcomes :
  finished sample_end =
    [(JAnswer u1 asked_id, OAnswer (Some the_reply)); (skill, OAsked (AskedReply the_reply));
     (JReply u1 other_reply, OReplied Recorded); (JReply u1 the_reply, OReplied Recorded);
     (phone_waits, OWait (Ok the_response)); (phone_waits, OWait (Ok the_response))].
Proof. vm_compute. reflexivity. Qed.

Lemma sample_reached : rtc sample_step (no_commands 1000 (∅ : sample_db) (∅ : sample_db)) sample_end.
Proof. apply moves_step. Qed.

Lemma empty_bucket age t k : kv_at age (∅ : sample_db) t k = None.
Proof. cbn. unfold gmap_kv_at. by rewrite lookup_empty. Qed.

Lemma command_one_device_witness :
  (phone_waits, OWait (Ok the_response)) ∈ finished sample_end /\ rc_user the_command = u1.
Proof.
  assert ((phone_waits, OWait (Ok the_response)) ∈ finished sample_end) as Hin by (rewrite scenario_outcomes; set_solver).
  split; [exact Hin|].
  apply (command_one_device (fun s => s) (lit "remote") true 0 60000 ltac:(lia) ltac:(lia) ltac:(lia) ltac:(lia)
    1000 (∅ : sample_db) (∅ : sample_db) sample_end (empty_bucket _ 1000) (empty_bucket _ 1000) ltac:(unfold CLOCK_END; lia) sample_reached
    u1 (lit "phone") 7 (Some 0) 1 the_response the_command u1 (lit "phone") 7 (Some 0) 1 the_response the_command Hin
    ltac:(by left) Hin ltac:(by left)).
Defined.

Lemma command_one_answer_witness : given_answer sample_end u1 the_reply /\ JReply u1 the_reply ∈ begun (world sample_end).
Proof.
  assert (given_answer sample_end u1 the_reply) as Hg.
  { right. exists asked_id. rewrite scenario_outcomes. set_solver. }
  split; [exact Hg|].
  apply (command_one_answer (fun s => s) (lit "remote") true 0 60000 ltac:(lia) ltac:(lia) ltac:(lia) ltac:(lia)
    1000 (∅ : sample_db) (∅ : sample_db) sample_end (empty_bucket _ 1000) (empty_bucket _ 1000) ltac:(unfold CLOCK_END; lia) sample_reached
    u1 the_reply the_reply Hg Hg eq_refl).
Defined.
