(* ===== verification/Links.v ===== *)
(** * Links: voice assistants linked to accounts

    Source: [api/src/modules/remote/links.rs], the codes and tokens of [secrets.rs], and
    the statements of [queries/remote] on the tables of migration 0322.  Each operation
    is a program whose effects are its statements; a statement is a function of the
    database's time and tables, refused as a whole when it would break a unique index.
    What is drawn at random is drawn with the statement that first uses it.  SHA-256 is
    a parameter, in hexadecimal ([sha_hex]) and in base64 ([sha_b64]).  Times are in
    milliseconds. *)

From Stdlib Require Import ZArith Lia String.
From stdpp Require Import base list numbers option tactics sets gmap fin_maps.
From S2P Require Import Prelude Text RoomModel RemoteDevices.
Local Open Scope Z_scope.

Definition LINK_CODE_DIGITS : nat := 6.
Definition LINK_CODE_TTL_SECS : Z := 600.
Definition AUTH_CODE_TTL_SECS : Z := 300.
Definition ACCESS_TTL_SECS : Z := 24 * 60 * 60.
Definition REFRESH_TTL_SECS : Z := 365 * 24 * 60 * 60.
Definition CODE_ATTEMPTS : nat := 8.
Definition REFRESH_GRACE_SECS : Z := 300.
Definition MIN_REVIEW_CODE_DIGITS : Z := 8.
Definition MAX_REVIEW_CODE_DIGITS : Z := 12.

(** ** Codes *)

(** [format!("{:0width$}", n, width = LINK_CODE_DIGITS)]. *)
Definition zero_padded (width : nat) (n : Z) : str :=
  let digits := to_string n in repeat 48 (width - length digits) ++ digits.

(** [random_code] and [random_hint], of the number drawn: below a million, and from ten
    to below a hundred. *)
Definition random_code (n : Z) : str := zero_padded LINK_CODE_DIGITS n.
Definition random_hint (n : Z) : str := to_string n.

Definition digits_of (raw : str) : str := retain is_ascii_digit raw.

Definition normalize_code (raw : str) : option str :=
  let digits := digits_of raw in if bool_decide (str_len digits = Z.of_nat LINK_CODE_DIGITS) then Some digits else None.

Definition valid_review_code (code : str) : bool :=
  (MIN_REVIEW_CODE_DIGITS <=? str_len code) && (str_len code <=? MAX_REVIEW_CODE_DIGITS) && forallb is_ascii_digit code.

(** ** The tables *)

Record CodeRow := { lc_user : str; lc_provider : str; lc_hash : str; lc_created_at : Z; lc_expires_at : Z }.

Record GrantRow := {
  gr_user : str;
  gr_provider : str;
  gr_client_id : str;
  gr_external_id : option str;
  gr_code_hash : option str;
  gr_code_redirect_uri : option str;
  gr_code_expires_at : option Z;
  gr_access_hash : option str;
  gr_access_expires_at : option Z;
  gr_refresh_hash : option str;
  gr_refresh_expires_at : option Z;
  gr_prev_refresh_hash : option str;
  gr_rotated_at : option Z;
  gr_rotation_seed : option str;
  gr_created_at : Z;
  gr_last_used_at : option Z }.

Abbreviation Grants := (gmap Z GrantRow).
Abbreviation Codes := (gmap Z CodeRow).

(** [expires > now()], which a null is not. *)
Definition later (t : option Z) (now : Z) : bool := match t with Some t => now <? t | None => false end.

Definition hash_is (h : option str) (x : str) : bool := bool_decide (h = Some x).

(** The three unique indexes. *)
Definition unique_hash (f : GrantRow -> option str) (t : Grants) : Prop :=
  forall i j r r' h, t !! i = Some r -> t !! j = Some r' -> f r = Some h -> f r' = Some h -> i = j.

Definition clashes (f : GrantRow -> option str) (t : Grants) : bool :=
  existsb (fun x => existsb (fun y => negb (x.1 =? y.1) && is_some (f x.2) && bool_decide (f x.2 = f y.2)) (map_to_list t))
    (map_to_list t).

Definition indexes_hold (t : Grants) : bool :=
  negb (clashes gr_code_hash t) && negb (clashes gr_access_hash t) && negb (clashes gr_refresh_hash t).

(** A write, refused when an index would break. *)
Definition written {A} (rows : A) (t' t : Grants) : result A unit * Grants :=
  if indexes_hold t' then (Ok rows, t') else (Err tt, t).

Definition ids_where (p : GrantRow -> bool) (t : Grants) : list Z := fst <$> List.filter (fun x => p x.2) (map_to_list t).

Definition update_where (p : GrantRow -> bool) (f : GrantRow -> GrantRow) (t : Grants) : Grants :=
  (fun r => if p r then f r else r) <$> t.

Definition delete_where (p : GrantRow -> bool) (t : Grants) : Grants := filter (fun x => p x.2 = false) t.

(** *** Statements on grants *)

(** [insert_auth_code.sql] *)
Definition auth_row (now : Z) (user provider client_id code_hash redirect_uri : str) : GrantRow :=
  {| gr_user := user; gr_provider := provider; gr_client_id := client_id; gr_external_id := None;
     gr_code_hash := Some code_hash; gr_code_redirect_uri := Some redirect_uri;
     gr_code_expires_at := Some (now + AUTH_CODE_TTL_SECS * 1000); gr_access_hash := None; gr_access_expires_at := None;
     gr_refresh_hash := None; gr_refresh_expires_at := None; gr_prev_refresh_hash := None; gr_rotated_at := None;
     gr_rotation_seed := None; gr_created_at := now; gr_last_used_at := None |}.

Definition insert_auth_code (now id : Z) (user provider client_id code_hash redirect_uri : str) (t : Grants)
  : result unit unit * Grants :=
  match t !! id with
  | Some _ => (Err tt, t)
  | None => written tt (<[id := auth_row now user provider client_id code_hash redirect_uri]> t) t
  end.

(** [redeem_auth_code.sql] *)
Definition redeemable (now : Z) (code_hash client_id redirect_uri : str) (r : GrantRow) : bool :=
  hash_is (gr_code_hash r) code_hash && negb (is_some (gr_access_hash r)) && str_eqb (gr_client_id r) client_id
  && hash_is (gr_code_redirect_uri r) redirect_uri && later (gr_code_expires_at r) now.

Definition redeemed_row (now : Z) (access_hash refresh_hash : str) (r : GrantRow) : GrantRow :=
  {| gr_user := gr_user r; gr_provider := gr_provider r; gr_client_id := gr_client_id r; gr_external_id := gr_external_id r;
     gr_code_hash := gr_code_hash r; gr_code_redirect_uri := None; gr_code_expires_at := None;
     gr_access_hash := Some access_hash; gr_access_expires_at := Some (now + ACCESS_TTL_SECS * 1000);
     gr_refresh_hash := Some refresh_hash; gr_refresh_expires_at := Some (now + REFRESH_TTL_SECS * 1000);
     gr_prev_refresh_hash := gr_prev_refresh_hash r; gr_rotated_at := gr_rotated_at r;
     gr_rotation_seed := gr_rotation_seed r; gr_created_at := gr_created_at r; gr_last_used_at := Some now |}.

Definition redeem_sql (now : Z) (code_hash access_hash refresh_hash client_id redirect_uri : str) (t : Grants)
  : result bool unit * Grants :=
  let p := redeemable now code_hash client_id redirect_uri in
  written (negb (bool_decide (ids_where p t = []))) (update_where p (redeemed_row now access_hash refresh_hash) t) t.

(** [revoke_redeemed_code.sql] *)
Definition revoke_redeemed_sql (code_hash : str) (t : Grants) : Grants :=
  delete_where (fun r => hash_is (gr_code_hash r) code_hash && is_some (gr_access_hash r)) t.

(** [rotate_refresh.sql] *)
Definition rotatable (now : Z) (refresh_hash client_id : str) (r : GrantRow) : bool :=
  hash_is (gr_refresh_hash r) refresh_hash && str_eqb (gr_client_id r) client_id && later (gr_refresh_expires_at r) now.

Definition rotated_row (now : Z) (access_hash next_hash seed : str) (r : GrantRow) : GrantRow :=
  {| gr_user := gr_user r; gr_provider := gr_provider r; gr_client_id := gr_client_id r; gr_external_id := gr_external_id r;
     gr_code_hash := gr_code_hash r; gr_code_redirect_uri := gr_code_redirect_uri r;
     gr_code_expires_at := gr_code_expires_at r; gr_access_hash := Some access_hash;
     gr_access_expires_at := Some (now + ACCESS_TTL_SECS * 1000); gr_refresh_hash := Some next_hash;
     gr_refresh_expires_at := Some (now + REFRESH_TTL_SECS * 1000); gr_prev_refresh_hash := gr_refresh_hash r;
     gr_rotated_at := Some now; gr_rotation_seed := Some seed; gr_created_at := gr_created_at r;
     gr_last_used_at := Some now |}.

Definition rotate_sql (now : Z) (refresh_hash access_hash next_hash client_id seed : str) (t : Grants)
  : result bool unit * Grants :=
  let p := rotatable now refresh_hash client_id in
  written (negb (bool_decide (ids_where p t = []))) (update_where p (rotated_row now access_hash next_hash seed) t) t.

(** [find_rotated.sql]: the rows, of which any may be the one. *)
Record Rotated := { ro_id : Z; ro_seed : str; ro_refresh_hash : str; ro_fresh : bool }.

Definition was_rotated (now : Z) (refresh_hash client_id : str) (r : GrantRow) : bool :=
  hash_is (gr_prev_refresh_hash r) refresh_hash && str_eqb (gr_client_id r) client_id && later (gr_refresh_expires_at r) now.

Definition find_rotated_sql (now : Z) (refresh_hash client_id : str) (t : Grants) : list Rotated :=
  map (fun x => {| ro_id := x.1; ro_seed := default [] (gr_rotation_seed x.2);
                   ro_refresh_hash := default [] (gr_refresh_hash x.2);
                   ro_fresh := later (gr_rotated_at x.2) (now - REFRESH_GRACE_SECS * 1000) |})
    (List.filter (fun x => was_rotated now refresh_hash client_id x.2) (map_to_list t)).

(** [find_by_access.sql], [touch_grant.sql] *)
Definition find_by_access_sql (now : Z) (access_hash : str) (t : Grants) : list (Z * GrantRow) :=
  List.filter (fun x => hash_is (gr_access_hash x.2) access_hash && later (gr_access_expires_at x.2) now) (map_to_list t).

Definition touched_row (now : Z) (r : GrantRow) : GrantRow :=
  {| gr_user := gr_user r; gr_provider := gr_provider r; gr_client_id := gr_client_id r; gr_external_id := gr_external_id r;
     gr_code_hash := gr_code_hash r; gr_code_redirect_uri := gr_code_redirect_uri r;
     gr_code_expires_at := gr_code_expires_at r; gr_access_hash := gr_access_hash r;
     gr_access_expires_at := gr_access_expires_at r; gr_refresh_hash := gr_refresh_hash r;
     gr_refresh_expires_at := gr_refresh_expires_at r; gr_prev_refresh_hash := gr_prev_refresh_hash r;
     gr_rotated_at := gr_rotated_at r; gr_rotation_seed := gr_rotation_seed r; gr_created_at := gr_created_at r;
     gr_last_used_at := Some now |}.

Definition touch_sql (now id : Z) (t : Grants) : Grants :=
  match t !! id with
  | Some r => if match gr_last_used_at r with None => true | Some u => u <? now - 300000 end
              then <[id := touched_row now r]> t else t
  | None => t
  end.

(** [delete_salut_binding.sql], [insert_salut_grant.sql], [find_salut.sql] *)
Definition salut_bound (sub : str) (r : GrantRow) : bool :=
  str_eqb (gr_provider r) (lit "salut") && hash_is (gr_external_id r) sub.

Definition salut_row (now : Z) (user sub : str) : GrantRow :=
  {| gr_user := user; gr_provider := lit "salut"; gr_client_id := []; gr_external_id := Some sub;
     gr_code_hash := None; gr_code_redirect_uri := None; gr_code_expires_at := None; gr_access_hash := None;
     gr_access_expires_at := None; gr_refresh_hash := None; gr_refresh_expires_at := None; gr_prev_refresh_hash := None;
     gr_rotated_at := None; gr_rotation_seed := None; gr_created_at := now; gr_last_used_at := Some now |}.

Definition insert_salut_sql (now id : Z) (user sub : str) (t : Grants) : result unit unit * Grants :=
  match t !! id with Some _ => (Err tt, t) | None => (Ok tt, <[id := salut_row now user sub]> t) end.

(** [list_grants.sql] *)
Definition listed (now : Z) (user : str) (r : GrantRow) : bool :=
  str_eqb (gr_user r) user
  && (is_some (gr_external_id r) || is_some (gr_access_hash r) && later (gr_refresh_expires_at r) now).

(** [revoke_grant.sql] *)
Definition revoke_sql (id : Z) (user : str) (t : Grants) : bool * Grants :=
  match t !! id with
  | Some r => if str_eqb (gr_user r) user then (true, delete id t) else (false, t)
  | None => (false, t)
  end.

(** *** Statements on codes *)

Definition code_in_use_sql (now : Z) (hash : str) (t : Codes) : bool :=
  existsb (fun x => str_eqb (lc_hash x.2) hash && (now <? lc_expires_at x.2)) (map_to_list t).

Definition delete_previous_sql (user provider : str) (t : Codes) : Codes :=
  filter (fun x => str_eqb (lc_user x.2) user && str_eqb (lc_provider x.2) provider = false) t.

Definition insert_code_sql (now id : Z) (user provider hash : str) (t : Codes) : result Z unit * Codes :=
  match t !! id with
  | Some _ => (Err tt, t)
  | None =>
      let expires := now + LINK_CODE_TTL_SECS * 1000 in
      (Ok expires, <[id := {| lc_user := user; lc_provider := provider; lc_hash := hash; lc_created_at := now;
                              lc_expires_at := expires |}]> t)
  end.

(** [find_code.sql], the rows before [ORDER BY created_at LIMIT 1]. *)
Definition find_code_sql (now : Z) (hash provider : str) (t : Codes) : list (Z * CodeRow) :=
  List.filter (fun x => str_eqb (lc_hash x.2) hash && str_eqb (lc_provider x.2) provider && (now <? lc_expires_at x.2))
    (map_to_list t).

Definition consume_code_sql (now id : Z) (t : Codes) : bool * Codes :=
  match t !! id with
  | Some r => if now <? lc_expires_at r then (true, delete id t) else (false, t)
  | None => (false, t)
  end.

(** ** Operations *)

Inductive Sql : Type -> Type :=
| DrawCode : Sql Z                         (** the number of [random_code] *)
| DeletePreviousCodes (user provider : str) : Sql (result unit unit)
| CodeInUse (hash : str) : Sql (result bool unit)
| InsertCode (user provider hash : str) : Sql (result Z unit)
| FindCode (hash provider : str) : Sql (result (option (Z * CodeRow)) unit)
| ConsumeCode (id : Z) : Sql (result bool unit)
(** with the random tokens drawn for the statement *)
| InsertAuthCode (user provider client_id redirect_uri : str) : Sql (str * result unit unit)
| Redeem (code_hash client_id redirect_uri : str) : Sql (str * str * result bool unit)
| RevokeRedeemed (code_hash : str) : Sql (result unit unit)
| Rotate (refresh_token client_id : str) : Sql (str * result bool unit)
| FindRotated (refresh_hash client_id : str) : Sql (result (option Rotated) unit)
| DeleteGrant (id : Z) : Sql (result unit unit)
| FindByAccess (access_hash : str) : Sql (result (option (Z * GrantRow)) unit)
| TouchGrant (id : Z) : Sql (result unit unit)
| DeleteSalut (sub : str) : Sql (result unit unit)
| InsertSalut (user sub : str) : Sql (result unit unit)
| FindSalut (sub : str) : Sql (result (option (Z * GrantRow)) unit)
| ListGrants (user : str) : Sql (result (list (Z * GrantRow)) unit)
| RevokeGrant (id : Z) (user : str) : Sql (result bool unit).

Abbreviation sqlprog := (program Sql).

Record Grant := { ga_id : Z; ga_user : str; ga_provider : LinkProvider }.
Record IssuedTokens := { it_access : str; it_refresh : str; it_expires_in : Z }.
Record LinkInfo := { li_id : Z; li_provider : LinkProvider; li_created_at : Z; li_last_used_at : option Z }.

Section links.
Context (sha_hex sha_b64 : str -> str).

Definition code_hash (provider : LinkProvider) (code : str) : str :=
  sha_hex (lit "voice-link-code:" ++ LinkProviders.as_str provider ++ lit ":" ++ code).

Definition token_hash (token : str) : str := sha_hex token.

Definition derive (label seed previous_refresh : str) : str :=
  sha_b64 (lit "voice-rotation:" ++ label ++ lit ":" ++ seed ++ lit ":" ++ previous_refresh).

Definition rotated_tokens (seed previous_refresh : str) : str * str :=
  (derive (lit "access") seed previous_refresh, derive (lit "refresh") seed previous_refresh).

(** [token_matches] and [review_code_matches], the comparison of digests. *)
Definition token_matches (provided expected : str) : bool :=
  if bool_decide (expected = []) then false else str_eqb (sha_hex provided) (sha_hex expected).

Definition review_code_matches (raw review_code : str) : bool :=
  valid_review_code review_code && token_matches (digits_of raw) review_code.

Definition provider_of (raw : str) : result LinkProvider unit :=
  match LinkProviders.parse raw with Some p => Ok p | None => Err tt end.

Definition tokens (access refresh : str) : IssuedTokens :=
  {| it_access := access; it_refresh := refresh; it_expires_in := ACCESS_TTL_SECS |}.

Fixpoint create_code_attempts (attempts : nat) (user : str) (provider : LinkProvider) : sqlprog (result (str * Z) unit) :=
  match attempts with
  | O => mret (Err tt)
  | S attempts' =>
      n ← trigger DrawCode;
      let code := random_code n in
      let hash := code_hash provider code in
      taken ←? trigger (CodeInUse hash);
      if (taken : bool) then create_code_attempts attempts' user provider
      else
        expires_at ←? trigger (InsertCode user (LinkProviders.as_str provider) hash);
        mret (Ok (code, expires_at))
  end.

Definition create_code (user : str) (provider : LinkProvider) : sqlprog (result (str * Z) unit) :=
  _ ←? trigger (DeletePreviousCodes user (LinkProviders.as_str provider));
  create_code_attempts CODE_ATTEMPTS user provider.

(** The id and the user of the code. *)
Definition find_code (provider : LinkProvider) (code : str) : sqlprog (result (option (Z * str)) unit) :=
  row ←? trigger (FindCode (code_hash provider code) (LinkProviders.as_str provider));
  mret (Ok (option_map (fun x => (x.1, lc_user x.2)) row)).

Definition consume_code (id : Z) : sqlprog (result bool unit) := trigger (ConsumeCode id).

Definition issue_auth_code (user : str) (provider : LinkProvider) (client_id redirect_uri : str)
  : sqlprog (result str unit) :=
  '(code, r) ← trigger (InsertAuthCode user (LinkProviders.as_str provider) client_id redirect_uri);
  mret (match r with Ok _ => Ok code | Err e => Err e end).

Definition redeem_auth_code (code client_id redirect_uri : str) : sqlprog (result (option IssuedTokens) unit) :=
  '(access_token, refresh_token, row) ← trigger (Redeem (token_hash code) client_id redirect_uri);
  match row with
  | Err e => mret (Err e)
  | Ok true => mret (Ok (Some (tokens access_token refresh_token)))
  | Ok false =>
      _ ←? trigger (RevokeRedeemed (token_hash code));
      mret (Ok None)
  end.

Definition repeat_rotation (refresh_token client_id : str) : sqlprog (result (option IssuedTokens) unit) :=
  row ←? trigger (FindRotated (token_hash refresh_token) client_id);
  match row with
  | None => mret (Ok None)
  | Some row =>
      if negb (ro_fresh row) then
        _ ←? trigger (DeleteGrant (ro_id row));
        mret (Ok None)
      else
        let '(access_token, next_refresh) := rotated_tokens (ro_seed row) refresh_token in
        if negb (str_eqb (token_hash next_refresh) (ro_refresh_hash row)) then mret (Ok None)
        else mret (Ok (Some (tokens access_token next_refresh)))
  end.

Definition rotate_refresh (refresh_token client_id : str) : sqlprog (result (option IssuedTokens) unit) :=
  '(seed, row) ← trigger (Rotate refresh_token client_id);
  match row with
  | Err e => mret (Err e)
  | Ok true =>
      let '(access_token, next_refresh) := rotated_tokens seed refresh_token in
      mret (Ok (Some (tokens access_token next_refresh)))
  | Ok false => repeat_rotation refresh_token client_id
  end.

Definition to_grant (x : Z * GrantRow) : result Grant unit :=
  match provider_of (gr_provider x.2) with
  | Ok p => Ok {| ga_id := x.1; ga_user := gr_user x.2; ga_provider := p |}
  | Err e => Err e
  end.

Definition authenticate (access_token : str) : sqlprog (result (option Grant) unit) :=
  row ←? trigger (FindByAccess (token_hash access_token));
  match row with
  | None => mret (Ok None)
  | Some x =>
      _ ←? trigger (TouchGrant x.1);
      mret (match to_grant x with Ok g => Ok (Some g) | Err e => Err e end)
  end.

Definition bind_salut (user sub : str) : sqlprog (result unit unit) :=
  _ ←? trigger (DeleteSalut sub);
  trigger (InsertSalut user sub).

Definition find_salut (sub : str) : sqlprog (result (option Grant) unit) :=
  row ←? trigger (FindSalut sub);
  mret (match row with
        | None => Ok None
        | Some x => match to_grant x with Ok g => Ok (Some g) | Err e => Err e end
        end).

Fixpoint link_infos (rows : list (Z * GrantRow)) : result (list LinkInfo) unit :=
  match rows with
  | [] => Ok []
  | x :: rows' =>
      match provider_of (gr_provider x.2), link_infos rows' with
      | Ok p, Ok l => Ok ({| li_id := x.1; li_provider := p; li_created_at := gr_created_at x.2;
                             li_last_used_at := gr_last_used_at x.2 |} :: l)
      | _, _ => Err tt
      end
  end.

Definition list_links (user : str) : sqlprog (result (list LinkInfo) unit) :=
  rows ←? trigger (ListGrants user);
  mret (link_infos rows).

Definition revoke (user : str) (id : Z) : sqlprog (result bool unit) := trigger (RevokeGrant id user).
End links.

(** * Requests about links, interleaved

    The operations of [Links] run one statement at a time, in any order, on one
    database; a statement may fail after it took effect, a worker may stop anywhere, the
    cleanup deletes rows at any time.  Random tokens and seeds are new ones, and a
    random token is not the digest of anything. *)

Inductive LinkJob :=
| LCreate (user : str) (provider : LinkProvider)
| LFind (provider : LinkProvider) (code : str)
| LConsume (id : Z)
| LIssue (user : str) (provider : LinkProvider) (client_id redirect_uri : str)
| LRedeem (code client_id redirect_uri : str)
| LRotate (refresh_token client_id : str)
| LAuthenticate (access_token : str)
| LBind (user sub : str)
| LFindSalut (sub : str)
| LList (user : str)
| LRevoke (user : str) (id : Z).

Inductive LinkOutcome :=
| LCreated (r : result (str * Z) unit)
| LFound (r : result (option (Z * str)) unit)
| LConsumed (r : result bool unit)
| LIssued (r : result str unit)
| LTokens (r : result (option IssuedTokens) unit)
| LGrant (r : result (option Grant) unit)
| LBound (r : result unit unit)
| LListed (r : result (list LinkInfo) unit)
| LRevoked (r : result bool unit).

Record LinkWorld := {
  l_now : Z;
  grants : Grants;
  codes : Codes;
  randoms : gset str;
  seeds : gset str }.

Definition set_grants (t : Grants) (w : LinkWorld) : LinkWorld :=
  {| l_now := l_now w; grants := t; codes := codes w; randoms := randoms w; seeds := seeds w |}.
Definition set_codes (t : Codes) (w : LinkWorld) : LinkWorld :=
  {| l_now := l_now w; grants := grants w; codes := t; randoms := randoms w; seeds := seeds w |}.
Definition draw (x : str) (w : LinkWorld) : LinkWorld :=
  {| l_now := l_now w; grants := grants w; codes := codes w; randoms := {[x]} ∪ randoms w; seeds := seeds w |}.
Definition draw_seed (x : str) (w : LinkWorld) : LinkWorld :=
  {| l_now := l_now w; grants := grants w; codes := codes w; randoms := randoms w; seeds := {[x]} ∪ seeds w |}.

(** A statement that answers [x] and leaves [w1], or fails with or without effect. *)
Definition does {A} (x : A) (w1 w : LinkWorld) (a : result A unit) (w' : LinkWorld) : Prop :=
  match a with Ok y => y = x /\ w' = w1 | Err _ => w' = w \/ w' = w1 end.

(** A write that an index may refuse. *)
Definition ran {A} (r : result A unit * Grants) (w : LinkWorld) (a : result A unit) (w' : LinkWorld) : Prop :=
  match r.1 with
  | Ok x => does x (set_grants r.2 w) w a w'
  | Err _ => a = Err tt /\ w' = w
  end.

(** One of the rows, none only when there is none. *)
Definition one_of {A} (l : list A) (a : result (option A) unit) : Prop :=
  match a with Ok (Some x) => x ∈ l | Ok None => l = [] | Err _ => True end.

Section system.
Context (sha_hex sha_b64 : str -> str).

Definition link_job (j : LinkJob) : sqlprog LinkOutcome :=
  match j with
  | LCreate user provider => r ← create_code sha_hex user provider; mret (LCreated r)
  | LFind provider code => r ← find_code sha_hex provider code; mret (LFound r)
  | LConsume id => r ← consume_code id; mret (LConsumed r)
  | LIssue user provider client_id redirect_uri => r ← issue_auth_code user provider client_id redirect_uri; mret (LIssued r)
  | LRedeem code client_id redirect_uri => r ← redeem_auth_code sha_hex code client_id redirect_uri; mret (LTokens r)
  | LRotate refresh_token client_id => r ← rotate_refresh sha_hex sha_b64 refresh_token client_id; mret (LTokens r)
  | LAuthenticate access_token => r ← authenticate sha_hex access_token; mret (LGrant r)
  | LBind user sub => r ← bind_salut user sub; mret (LBound r)
  | LFindSalut sub => r ← find_salut sub; mret (LGrant r)
  | LList user => r ← list_links user; mret (LListed r)
  | LRevoke user id => r ← revoke user id; mret (LRevoked r)
  end.

Definition new_random (x : str) (w : LinkWorld) : Prop :=
  x ∉ randoms w /\ forall label seed previous, x <> derive sha_b64 label seed previous.

(** Seeds are written in base64, without a colon. *)
Definition new_seed (x : str) (w : LinkWorld) : Prop := x ∉ seeds w /\ 58 ∉ x.

Definition link_serve (w : LinkWorld) {A} (e : Sql A) : A -> LinkWorld -> Prop :=
  match e in Sql A return A -> LinkWorld -> Prop with
  | DrawCode => fun n w' => 0 <= n < 1000000 /\ w' = w
  | DeletePreviousCodes user provider => does tt (set_codes (delete_previous_sql user provider (codes w)) w) w
  | CodeInUse hash => fun a w' => w' = w /\ match a with Ok b => b = code_in_use_sql (l_now w) hash (codes w) | Err _ => True end
  | InsertCode user provider hash => fun a w' => exists id,
      let r := insert_code_sql (l_now w) id user provider hash (codes w) in
      match r.1 with
      | Ok x => does x (set_codes r.2 w) w a w'
      | Err _ => a = Err tt /\ w' = w
      end
  | FindCode hash provider => fun a w' => w' = w /\ one_of (find_code_sql (l_now w) hash provider (codes w)) a
  | ConsumeCode id =>
      let r := consume_code_sql (l_now w) id (codes w) in does r.1 (set_codes r.2 w) w
  | InsertAuthCode user provider client_id redirect_uri => fun a w' =>
      new_random a.1 w /\ exists id,
        ran (insert_auth_code (l_now w) id user provider client_id (token_hash sha_hex a.1) redirect_uri (grants w))
          (draw a.1 w) a.2 w'
  | Redeem code_hash client_id redirect_uri => fun a w' =>
      new_random a.1.1 w /\ new_random a.1.2 (draw a.1.1 w)
      /\ ran (redeem_sql (l_now w) code_hash (token_hash sha_hex a.1.1) (token_hash sha_hex a.1.2) client_id redirect_uri (grants w))
           (draw a.1.2 (draw a.1.1 w)) a.2 w'
  | RevokeRedeemed code_hash => does tt (set_grants (revoke_redeemed_sql code_hash (grants w)) w) w
  | Rotate refresh_token client_id => fun a w' =>
      new_seed a.1 w
      /\ let '(access, next) := rotated_tokens sha_b64 a.1 refresh_token in
         ran (rotate_sql (l_now w) (token_hash sha_hex refresh_token) (token_hash sha_hex access) (token_hash sha_hex next)
                client_id a.1 (grants w))
           (draw_seed a.1 w) a.2 w'
  | FindRotated refresh_hash client_id => fun a w' =>
      w' = w /\ one_of (find_rotated_sql (l_now w) refresh_hash client_id (grants w)) a
  | DeleteGrant id => does tt (set_grants (delete id (grants w)) w) w
  | FindByAccess access_hash => fun a w' => w' = w /\ one_of (find_by_access_sql (l_now w) access_hash (grants w)) a
  | TouchGrant id => does tt (set_grants (touch_sql (l_now w) id (grants w)) w) w
  | DeleteSalut sub => does tt (set_grants (delete_where (salut_bound sub) (grants w)) w) w
  | InsertSalut user sub => fun a w' => exists id, ran (insert_salut_sql (l_now w) id user sub (grants w)) w a w'
  | FindSalut sub => fun a w' => w' = w /\ one_of (List.filter (fun x => salut_bound sub x.2) (map_to_list (grants w))) a
  | ListGrants user => fun a w' => w' = w /\
      match a with Ok l => l ≡ₚ List.filter (fun x => listed (l_now w) user x.2) (map_to_list (grants w)) | Err _ => True end
  | RevokeGrant id user => let r := revoke_sql id user (grants w) in does r.1 (set_grants r.2 w) w
  end.

Record LinkSys := {
  l_world : LinkWorld;
  l_workers : gmap nat (LinkJob * sqlprog LinkOutcome);
  l_finished : list (LinkJob * LinkOutcome) }.

Inductive link_step (s : LinkSys) : LinkSys -> Prop :=
| link_tick t :
    l_now (l_world s) <= t ->
    link_step s
      {| l_world := {| l_now := t; grants := grants (l_world s); codes := codes (l_world s);
                       randoms := randoms (l_world s); seeds := seeds (l_world s) |};
         l_workers := l_workers s; l_finished := l_finished s |}
| link_begin n j :
    l_workers s !! n = None ->
    link_step s {| l_world := l_world s; l_workers := <[n := (j, link_job j)]> (l_workers s); l_finished := l_finished s |}
| link_statement n j A (e : Sql A) k a w' :
    l_workers s !! n = Some (j, Vis e k) -> link_serve (l_world s) e a w' ->
    link_step s {| l_world := w'; l_workers := <[n := (j, k a)]> (l_workers s); l_finished := l_finished s |}
| link_finish n j o :
    l_workers s !! n = Some (j, Ret o) ->
    link_step s {| l_world := l_world s; l_workers := delete n (l_workers s); l_finished := (j, o) :: l_finished s |}
| link_stop n :
    link_step s {| l_world := l_world s; l_workers := delete n (l_workers s); l_finished := l_finished s |}
| link_cleanup id :
    link_step s
      {| l_world := set_codes (delete id (codes (l_world s))) (set_grants (delete id (grants (l_world s))) (l_world s));
         l_workers := l_workers s; l_finished := l_finished s |}.

Definition no_links (t : Z) : LinkSys :=
  {| l_world := {| l_now := t; grants := ∅; codes := ∅; randoms := ∅; seeds := ∅ |}; l_workers := ∅; l_finished := [] |}.
End system.
