(* ===== verification/LinkFacts.v ===== *)
(** * LinkFacts: tokens are given out once and never change hands

    The invariant of the system of [Links] and what follows for the tokens of linked assistants,
    and what [rotate_refresh] and [redeem_auth_code] do, on every branch, when they run
    by themselves. *)

From Stdlib Require Import ZArith Lia String.
From stdpp Require Import base list numbers option tactics sets gmap fin_maps relations.
From S2P Require Import Prelude Text RoomModel RoomInvariant RemoteDevices Links.
Local Open Scope Z_scope.

(** ** Tables *)

Lemma clashes_false f t : clashes f t = false -> unique_hash f t.
Proof.
  intros Hc i j r r' h Hi Hj Hr Hr'. destruct (Z.eqb_spec i j) as [|Hne]; [done|]. exfalso.
  assert (clashes f t = true); [|congruence]. unfold clashes. apply existsb_exists. exists (i, r).
  split; [by apply list_elem_of_In, elem_of_map_to_list|]. apply existsb_exists. exists (j, r').
  split; [by apply list_elem_of_In, elem_of_map_to_list|]. cbn. apply Z.eqb_neq in Hne. rewrite Hne, Hr, Hr'. cbn.
  by rewrite bool_decide_true.
Qed.

Lemma indexes_hold_unique t : indexes_hold t = true ->
  unique_hash gr_code_hash t /\ unique_hash gr_access_hash t /\ unique_hash gr_refresh_hash t.
Proof.
  unfold indexes_hold. intros [[H1%negb_true_iff H2%negb_true_iff]%andb_true_iff H3%negb_true_iff]%andb_true_iff.
  split_and!; by apply clashes_false.
Qed.

Lemma unique_subseteq f t t' : t' ⊆ t -> unique_hash f t -> unique_hash f t'.
Proof. intros Hs Hu i j r r' h Hi Hj. apply (Hu i j r r' h); by eapply lookup_weaken. Qed.

Lemma update_where_lookup p f t id r' :
  update_where p f t !! id = Some r' -> exists r, t !! id = Some r /\ r' = if p r then f r else r.
Proof. unfold update_where. rewrite lookup_fmap. intros (r & Hr & ->)%fmap_Some. eauto. Qed.

Lemma ids_where_none p t : ids_where p t = [] <-> forall id r, t !! id = Some r -> p r = false.
Proof.
  unfold ids_where. split.
  - intros H id r Hr. destruct (p r) eqn:E; [|done].
    assert (id ∈ (fst <$> List.filter (fun x => p x.2) (map_to_list t))) as Hin; [|rewrite H in Hin; set_solver].
    apply list_elem_of_fmap. exists (id, r). split; [done|]. apply list_elem_of_In, filter_In. split; [|done].
    by apply list_elem_of_In, elem_of_map_to_list.
  - intros H. apply elem_of_nil_inv. intros id ([i r] & -> & Hin)%list_elem_of_fmap.
    apply list_elem_of_In, filter_In in Hin as [Hin Hp]. apply list_elem_of_In, elem_of_map_to_list in Hin.
    specialize (H i r Hin). cbn in Hp. congruence.
Qed.

Lemma filter_rows {A} (p : A -> bool) (t : gmap Z A) id r :
  (id, r) ∈ List.filter (fun x => p x.2) (map_to_list t) <-> t !! id = Some r /\ p r = true.
Proof. by rewrite list_elem_of_In, filter_In, <- list_elem_of_In, elem_of_map_to_list. Qed.

Lemma hash_is_true h x : hash_is h x = true <-> h = Some x.
Proof. unfold hash_is. by rewrite bool_decide_eq_true. Qed.

Section facts.
Context (sha_hex sha_b64 : str -> str) `{!Inj (=) (=) sha_hex} `{!Inj (=) (=) sha_b64}.
Abbreviation hash := (token_hash sha_hex).
Abbreviation access_of := (derive sha_b64 (lit "access")).
Abbreviation refresh_of := (derive sha_b64 (lit "refresh")).

Lemma derive_seed label s p label' s' p' :
  label = lit "access" \/ label = lit "refresh" -> label' = lit "access" \/ label' = lit "refresh" ->
  58 ∉ s -> 58 ∉ s' -> derive sha_b64 label s p = derive sha_b64 label' s' p' -> label = label' /\ s = s' /\ p = p'.
Proof.
  intros Hl Hl' Hs Hs' E. unfold derive in E. apply (inj sha_b64) in E. apply app_inv_head in E.
  assert (label = label' /\ s ++ lit ":" ++ p = s' ++ lit ":" ++ p') as [-> E'].
  { destruct Hl as [->| ->], Hl' as [->| ->]; try (vm_compute in E; discriminate E).
    all: by apply app_inv_head, app_inv_head in E. }
  split; [done|]. change (lit ":") with [58] in E'. cbn [app] in E'.
  assert (split_once 58 (s ++ 58 :: p) = Some (s, p)) as H1 by (apply split_once_Some; by split).
  assert (split_once 58 (s' ++ 58 :: p') = Some (s', p')) as H2 by (apply split_once_Some; by split).
  rewrite E', H2 in H1. by injection H1 as -> ->.
Qed.

(** ** The invariant

    [R]: the seed a refresh token was rotated with; [O]: whom a token or code belongs
    to; [D]: the tokens given for a code, by the hash of the code. *)

Definition token_known (w : LinkWorld) (x : str) : Prop :=
  x ∈ randoms w
  \/ exists label seed previous, (label = lit "access" \/ label = lit "refresh") /\ seed ∈ seeds w /\ 58 ∉ seed
     /\ x = derive sha_b64 label seed previous.

Record row_ok (R O : gmap str str) (D : gmap str IssuedTokens) (r : GrantRow) : Prop := {
  rk_code h : gr_code_hash r = Some h ->
    (exists c, h = hash c /\ O !! c = Some (gr_user r)) /\ (is_Some (D !! h) -> gr_access_hash r <> None);
  rk_access h : gr_access_hash r = Some h -> exists a, h = hash a /\ O !! a = Some (gr_user r);
  rk_refresh h : gr_refresh_hash r = Some h -> exists x, h = hash x /\ O !! x = Some (gr_user r) /\ R !! x = None;
  rk_prev h : gr_prev_refresh_hash r = Some h ->
    exists p s, h = hash p /\ R !! p = Some s /\ gr_rotation_seed r = Some s;
  rk_null : gr_access_hash r = None -> gr_refresh_hash r = None /\ gr_prev_refresh_hash r = None }.

Record links_ok (w : LinkWorld) (R O : gmap str str) (D : gmap str IssuedTokens) : Prop := {
  lk_code : unique_hash gr_code_hash (grants w);
  lk_refresh : unique_hash gr_refresh_hash (grants w);
  lk_rows id r : grants w !! id = Some r -> row_ok R O D r;
  lk_owned x u : O !! x = Some u -> token_known w x;
  lk_rotated x s : R !! x = Some s -> s ∈ seeds w /\ 58 ∉ s
    /\ exists u, O !! x = Some u /\ O !! access_of s x = Some u /\ O !! refresh_of s x = Some u;
  lk_redeemed h t : D !! h = Some t ->
    exists c u, h = hash c /\ O !! c = Some u /\ O !! it_access t = Some u /\ O !! it_refresh t = Some u;
  lk_randoms x : x ∈ randoms w -> forall label seed previous, x <> derive sha_b64 label seed previous;
  lk_seeds s : s ∈ seeds w -> 58 ∉ s }.

Lemma row_ok_keep R O D r r' :
  row_ok R O D r -> gr_user r' = gr_user r -> gr_code_hash r' = gr_code_hash r -> gr_access_hash r' = gr_access_hash r ->
  gr_refresh_hash r' = gr_refresh_hash r -> gr_prev_refresh_hash r' = gr_prev_refresh_hash r ->
  gr_rotation_seed r' = gr_rotation_seed r -> row_ok R O D r'.
Proof. intros [] Hu Hc Ha Hr Hp Hs. split; rewrite ?Hu, ?Hc, ?Ha, ?Hr, ?Hp, ?Hs; auto. Qed.

(** Rows go. *)
Lemma links_ok_fewer w R O D t w' :
  links_ok w R O D -> t ⊆ grants w -> grants w' = t -> randoms w' = randoms w -> seeds w' = seeds w -> links_ok w' R O D.
Proof.
  intros [] Ht Hg Hr Hs. split; rewrite ?Hg, ?Hs; try done.
  - by eapply unique_subseteq.
  - by eapply unique_subseteq.
  - intros id r Hid. eapply lk_rows0, lookup_weaken; [exact Hid|done].
  - intros x u Hx. specialize (lk_owned0 x u Hx). unfold token_known in *. by rewrite Hr, Hs.
  - by rewrite Hr.
Qed.

Lemma token_known_more w w' x :
  randoms w ⊆ randoms w' -> seeds w ⊆ seeds w' -> token_known w x -> token_known w' x.
Proof.
  intros Hr Hs [Hx|(l & s & p & H1 & H2 & H3 & H4)]; [left; set_solver|right]. exists l, s, p. split_and!; try done. set_solver.
Qed.

(** More is drawn. *)
Lemma links_ok_drawn w R O D x : links_ok w R O D -> new_random sha_b64 x w -> links_ok (draw x w) R O D.
Proof.
  intros [] [_ Hx]. split; try done.
  - intros y u Hy. eapply token_known_more, lk_owned0, Hy; [set_solver|done].
  - cbn. intros y [->%elem_of_singleton|Hy]%elem_of_union; auto.
Qed.

Lemma links_ok_seed w R O D x : links_ok w R O D -> 58 ∉ x -> links_ok (draw_seed x w) R O D.
Proof.
  intros [] Hx. split; try done.
  - intros y u Hy. eapply token_known_more, lk_owned0, Hy; [done|set_solver].
  - intros y s Hy. destruct (lk_rotated0 y s Hy) as (? & ? & ?). split_and!; try done. set_solver.
  - cbn. intros s [->%elem_of_singleton|Hs]%elem_of_union; auto.
Qed.

(** A new random token belongs to nobody, and neither do the tokens of a new seed. *)
Lemma random_unowned w R O D x : links_ok w R O D -> new_random sha_b64 x w -> O !! x = None.
Proof.
  intros Hw [Hx Hd]. destruct (O !! x) as [u|] eqn:E; [|done]. apply (lk_owned _ _ _ _ Hw) in E as [E|(l & s & p & _ & _ & _ & E)];
    [done|]. by apply Hd in E.
Qed.

Lemma derived_unowned w R O D label s p :
  links_ok w R O D -> new_seed s w -> label = lit "access" \/ label = lit "refresh" -> O !! derive sha_b64 label s p = None.
Proof.
  intros Hw [Hs Hc] Hl. destruct (O !! _) as [u|] eqn:E; [|done]. exfalso.
  apply (lk_owned _ _ _ _ Hw) in E as [E|(l & s' & p' & Hl' & Hs' & Hc' & E)].
  - by apply (lk_randoms _ _ _ _ Hw _ E label s p).
  - apply derive_seed in E as (_ & -> & _); done.
Qed.

Lemma rotated_owned w R O D x s : links_ok w R O D -> R !! x = Some s -> is_Some (O !! x).
Proof. intros Hw Hx. apply (lk_rotated _ _ _ _ Hw) in Hx as (_ & _ & u & Hu & _). eauto. Qed.

Lemma row_ok_owners R O O' D r : O ⊆ O' -> row_ok R O D r -> row_ok R O' D r.
Proof.
  intros HO []. split; try done.
  - intros h Hh. destruct (rk_code0 h Hh) as [(c & Hc & Ho) Hd]. split; [|done]. exists c. split; [done|]. by eapply lookup_weaken.
  - intros h Hh. destruct (rk_access0 h Hh) as (a & Ha & Ho). exists a. split; [done|]. by eapply lookup_weaken.
  - intros h Hh. destruct (rk_refresh0 h Hh) as (a & Ha & Ho & Hr). exists a. split_and!; [done| |done]. by eapply lookup_weaken.
Qed.

(** *** A code is issued *)
Lemma issue_ok w R O D id user provider client code redirect t' :
  links_ok w R O D -> new_random sha_b64 code w ->
  insert_auth_code (l_now w) id user provider client (hash code) redirect (grants w) = (Ok tt, t') ->
  exists O', O ⊆ O' /\ O' !! code = Some user /\ links_ok (set_grants t' (draw code w)) R O' D.
Proof.
  intros Hw Hn Hi. pose proof (random_unowned _ _ _ _ _ Hw Hn) as Hfree.
  unfold insert_auth_code in Hi. destruct (grants w !! id) as [|] eqn:Hid; [done|]. unfold written in Hi.
  destruct (indexes_hold _) eqn:Hix; [|done]. injection Hi as <-. apply indexes_hold_unique in Hix as (Hu1 & _ & Hu3).
  assert (O ⊆ <[code := user]> O) as HO by (by apply insert_subseteq).
  exists (<[code := user]> O). split_and!; [done|by rewrite lookup_insert_eq|].
  apply (links_ok_drawn _ _ _ _ code) in Hw; [|done]. destruct Hw. split; try done; cbn.
  - intros i r [[<- <-]|[_ Hr]]%lookup_insert_Some; [|eapply row_ok_owners, lk_rows0, Hr; done].
    split; cbn; try done. intros h [= <-]. split; [exists code; split; [done|by rewrite lookup_insert_eq]|].
    intros [t Ht]. destruct (lk_redeemed0 _ _ Ht) as (c & u & Hc & Ho & _). apply (inj sha_hex) in Hc as <-. congruence.
  - intros x u [[<- <-]|[_ Hx]]%lookup_insert_Some; [left; cbn; set_solver|by eapply lk_owned0].
  - intros x s Hx. destruct (lk_rotated0 x s Hx) as (? & ? & u & H1 & H2 & H3). split_and!; try done.
    exists u. split_and!; by eapply lookup_weaken.
  - intros h t Ht. destruct (lk_redeemed0 h t Ht) as (c & u & H1 & H2 & H3 & H4). exists c, u.
    split_and!; [done|..]; by eapply lookup_weaken.
Qed.

Lemma update_where_none p f t : (forall id r, t !! id = Some r -> p r = false) -> update_where p f t = t.
Proof.
  intros Hp. unfold update_where. apply map_eq. intros i. rewrite lookup_fmap. destruct (t !! i) as [r|] eqn:E; [|done].
  cbn. by rewrite (Hp i r E).
Qed.

(** Tokens that become someone's. *)
Lemma links_ok_owned w R O D x u :
  links_ok w R O D -> O !! x = None -> token_known w x -> links_ok w R (<[x := u]> O) D.
Proof.
  intros Hw Hx Hk. assert (O ⊆ <[x := u]> O) as HO by (by apply insert_subseteq). destruct Hw. split; try done.
  - intros i r Hr. eapply row_ok_owners, lk_rows0, Hr. done.
  - intros y v [[<- <-]|[_ Hy]]%lookup_insert_Some; [done|by eapply lk_owned0].
  - intros y s Hy. destruct (lk_rotated0 y s Hy) as (? & ? & v & H1 & H2 & H3). split_and!; try done.
    exists v. split_and!; by eapply lookup_weaken.
  - intros h t Ht. destruct (lk_redeemed0 h t Ht) as (c & v & H1 & H2 & H3 & H4). exists c, v.
    split_and!; [done|..]; by eapply lookup_weaken.
Qed.

Lemma links_ok_pair w R O D x y u :
  links_ok w R O D -> O !! x = None -> O !! y = None -> token_known w x -> token_known w y ->
  exists O', O ⊆ O' /\ O' !! x = Some u /\ O' !! y = Some u /\ links_ok w R O' D.
Proof.
  intros Hw Hx Hy Kx Ky. pose proof (links_ok_owned _ _ _ _ x u Hw Hx Kx) as Hw1.
  destruct (decide (x = y)) as [<-|Hne].
  - exists (<[x := u]> O). split_and!; try done; [by apply insert_subseteq|by rewrite lookup_insert_eq..].
  - pose proof (links_ok_owned _ _ _ _ y u Hw1) as Hw2. rewrite lookup_insert_ne in Hw2 by done.
    exists (<[y := u]> (<[x := u]> O)). split_and!; [| |by rewrite lookup_insert_eq|by apply Hw2].
    + etrans; [by apply (insert_subseteq O x u)|]. apply insert_subseteq. by rewrite lookup_insert_ne.
    + by rewrite lookup_insert_ne, lookup_insert_eq by done.
Qed.

Lemma matched_row p (t : Grants) : ids_where p t <> [] -> exists id r, t !! id = Some r /\ p r = true.
Proof.
  intros Hids. destruct (ids_where p t) as [|i l] eqn:E; [done|]. assert (i ∈ ids_where p t) as Hi by (rewrite E; by left).
  apply list_elem_of_fmap in Hi as ([i' r] & -> & Hi). apply filter_rows in Hi. eauto.
Qed.

(** *** A code is redeemed *)
Lemma redeem_row_ok w R O D now h client redirect a rf id0 r0 :
  links_ok w R O D -> grants w !! id0 = Some r0 -> redeemable now h client redirect r0 = true ->
  O !! a = Some (gr_user r0) -> O !! rf = Some (gr_user r0) -> R !! rf = None ->
  forall id r, grants w !! id = Some r ->
    row_ok R O (<[h := tokens a rf]> D)
      (if redeemable now h client redirect r then redeemed_row now (hash a) (hash rf) r else r).
Proof.
  intros Hw H0 Hp0 Ha Hrf HR id r Hr. pose proof (lk_rows _ _ _ _ Hw id r Hr) as Hok.
  pose proof Hp0 as Hc0. unfold redeemable in Hc0.
  apply andb_true_iff in Hc0 as [[[[Hc0%hash_is_true _]%andb_true_iff _]%andb_true_iff _]%andb_true_iff _].
  destruct (redeemable now h client redirect r) eqn:Hp.
  - unfold redeemable in Hp. apply andb_true_iff in Hp as [[[[Hc%hash_is_true Hn]%andb_true_iff _]%andb_true_iff _]%andb_true_iff _].
    assert (id = id0) as -> by (by apply (lk_code _ _ _ _ Hw id id0 r r0 h)). rewrite H0 in Hr. injection Hr as <-.
    destruct Hok. apply negb_true_iff in Hn. assert (gr_access_hash r0 = None) as Hna by (by destruct (gr_access_hash r0)).
    destruct (rk_null0 Hna) as [_ Hprev]. split; cbn; try done.
    + intros h' Hh'. destruct (rk_code0 h' Hh') as [Hc' _]. done.
    + intros h' [= <-]. eauto.
    + intros h' [= <-]. eauto.
  - destruct Hok. split; try done. intros h' Hh'. destruct (rk_code0 h' Hh') as [Hc' Hd]. split; [done|].
    rewrite lookup_insert_is_Some. intros [<-|[_ Hs]]; [|by apply Hd].
    assert (id = id0) as -> by (by apply (lk_code _ _ _ _ Hw id id0 r r0 h)). rewrite H0 in Hr. injection Hr as <-.
    congruence.
Qed.

Lemma redeem_ok w R O D h client redirect a rf b t' :
  links_ok w R O D -> new_random sha_b64 a w -> new_random sha_b64 rf (draw a w) ->
  redeem_sql (l_now w) h (hash a) (hash rf) client redirect (grants w) = (Ok b, t') ->
  exists O' D', O ⊆ O' /\ D ⊆ D' /\ (b = true -> D' !! h = Some (tokens a rf))
    /\ links_ok (set_grants t' (draw rf (draw a w))) R O' D'.
Proof.
  intros Hw Ha Hrf Hs. pose proof (links_ok_drawn _ _ _ _ _ Hw Ha) as Hw1.
  pose proof (links_ok_drawn _ _ _ _ _ Hw1 Hrf) as Hw2.
  unfold redeem_sql, written in Hs. destruct (indexes_hold _) eqn:Hix; [|done]. injection Hs as <- <-.
  set (p := redeemable (l_now w) h client redirect) in *.
  case_bool_decide as Hids.
  { exists O, D. split_and!; [done|done|done|]. rewrite update_where_none by (by apply ids_where_none). by eapply links_ok_fewer. }
  destruct (matched_row _ _ Hids) as (id0 & r0 & H0 & Hp0).
  apply indexes_hold_unique in Hix as (Hu1 & _ & Hu3).
  pose proof (random_unowned _ _ _ _ _ Hw Ha) as Hfa. pose proof (random_unowned _ _ _ _ _ Hw1 Hrf) as Hfr.
  destruct (links_ok_pair _ _ _ _ a rf (gr_user r0) Hw2 Hfa Hfr) as (O' & HO & HOa & HOr & Hw3); [left; cbn; set_solver..|].
  assert (R !! rf = None) as HRr. { destruct (R !! rf) eqn:E; [|done]. apply (rotated_owned _ _ _ _ _ _ Hw) in E as [? ?]. congruence. }
  pose proof Hp0 as Hp0'. unfold p, redeemable in Hp0'.
  apply andb_true_iff in Hp0' as [[[[Hc0%hash_is_true Hn0]%andb_true_iff _]%andb_true_iff _]%andb_true_iff _].
  destruct (rk_code _ _ _ _ (lk_rows _ _ _ _ Hw _ _ H0) h Hc0) as [(c & -> & Hc) Hd].
  assert (D !! hash c = None) as HD.
  { destruct (D !! hash c) eqn:E; [|done]. destruct (gr_access_hash r0) eqn:E'; [done|]. by destruct Hd. }
  exists O', (<[hash c := tokens a rf]> D). split_and!; [done|by apply insert_subseteq|by rewrite lookup_insert_eq|].
  pose proof (redeem_row_ok _ _ _ _ (l_now w) (hash c) client redirect a rf id0 r0 Hw3 H0 Hp0 HOa HOr HRr) as Hrows.
  destruct Hw3. split; try done; cbn.
  - intros i r (r1 & Hr1 & ->)%update_where_lookup. by eapply Hrows.
  - intros h' t [[<- <-]|[_ Ht]]%lookup_insert_Some; [|by apply lk_redeemed0]. exists c, (gr_user r0).
    split_and!; try done. by eapply lookup_weaken.
Qed.

(** *** A refresh token is rotated *)
Lemma rotate_row_ok w R O D now tok client s id0 r0 :
  links_ok w R O D -> grants w !! id0 = Some r0 -> rotatable now (hash tok) client r0 = true ->
  O !! access_of s tok = Some (gr_user r0) -> O !! refresh_of s tok = Some (gr_user r0) ->
  R !! tok = None -> R !! refresh_of s tok = None -> refresh_of s tok <> tok ->
  forall id r, grants w !! id = Some r ->
    row_ok (<[tok := s]> R) O D
      (if rotatable now (hash tok) client r then rotated_row now (hash (access_of s tok)) (hash (refresh_of s tok)) s r else r).
Proof.
  intros Hw H0 Hp0 Ha Hn HR HRn Hne id r Hr. pose proof (lk_rows _ _ _ _ Hw id r Hr) as Hok.
  pose proof Hp0 as Hc0. unfold rotatable in Hc0. apply andb_true_iff in Hc0 as [[Hc0%hash_is_true _]%andb_true_iff _].
  assert (gr_refresh_hash r = Some (hash tok) -> r = r0) as Hsame.
  { intros Hh. assert (id = id0) as -> by (by apply (lk_refresh _ _ _ _ Hw id id0 r r0 (hash tok))). congruence. }
  destruct (rotatable now (hash tok) client r) eqn:Hp.
  - unfold rotatable in Hp. apply andb_true_iff in Hp as [[Hh%hash_is_true _]%andb_true_iff _].
    apply Hsame in Hh as ->. destruct Hok. split; cbn; try done.
    + intros h' Hh'. destruct (rk_code0 h' Hh') as [Hc' _]. done.
    + intros h' [= <-]. eauto.
    + intros h' [= <-]. exists (refresh_of s tok). split_and!; try done. by rewrite lookup_insert_ne.
    + intros h' Hh'. rewrite Hc0 in Hh'. injection Hh' as <-. exists tok, s. by rewrite lookup_insert_eq.
  - destruct Hok. split; try done.
    + intros h' Hh'. destruct (rk_refresh0 h' Hh') as (x & -> & Hx & HRx). exists x. split_and!; try done.
      rewrite lookup_insert_ne; [done|]. intros <-. pose proof (Hsame Hh') as ->. congruence.
    + intros h' Hh'. destruct (rk_prev0 h' Hh') as (p & s' & H1 & H2 & H3). exists p, s'. split_and!; try done.
      rewrite lookup_insert_ne; [done|congruence].
Qed.

Lemma rotate_ok w R O D tok client s b t' :
  links_ok w R O D -> new_seed s w ->
  rotate_sql (l_now w) (hash tok) (hash (access_of s tok)) (hash (refresh_of s tok)) client s (grants w) = (Ok b, t') ->
  exists R' O', R ⊆ R' /\ O ⊆ O' /\ (b = true -> R' !! tok = Some s)
    /\ links_ok (set_grants t' (draw_seed s w)) R' O' D.
Proof.
  intros Hw Hs Hr. pose proof (links_ok_seed _ _ _ _ s Hw (proj2 Hs)) as Hw1.
  unfold rotate_sql, written in Hr. destruct (indexes_hold _) eqn:Hix; [|done]. injection Hr as <- <-.
  set (p := rotatable (l_now w) (hash tok) client) in *. case_bool_decide as Hids.
  { exists R, O. split_and!; [done|done|done|]. rewrite update_where_none by (by apply ids_where_none). by eapply links_ok_fewer. }
  destruct (matched_row _ _ Hids) as (id0 & r0 & H0 & Hp0). apply indexes_hold_unique in Hix as (Hu1 & _ & Hu3).
  assert (forall label, label = lit "access" \/ label = lit "refresh" -> token_known (draw_seed s w) (derive sha_b64 label s tok)) as Hk.
  { intros label Hl. right. exists label, s, tok. split_and!; try done; [cbn; set_solver|apply Hs]. }
  pose proof (derived_unowned _ _ _ _ (lit "access") s tok Hw Hs (or_introl eq_refl)) as Hfa.
  pose proof (derived_unowned _ _ _ _ (lit "refresh") s tok Hw Hs (or_intror eq_refl)) as Hfr.
  destruct (links_ok_pair _ _ _ _ _ _ (gr_user r0) Hw1 Hfa Hfr) as (O' & HO & HOa & HOr & Hw2); [auto..|].
  pose proof Hp0 as Hc0. unfold p, rotatable in Hc0. apply andb_true_iff in Hc0 as [[Hc0%hash_is_true _]%andb_true_iff _].
  destruct (rk_refresh _ _ _ _ (lk_rows _ _ _ _ Hw _ _ H0) _ Hc0) as (x & Hx & HOx & HR). apply (inj sha_hex) in Hx as <-.
  assert (refresh_of s tok <> tok) as Hne by congruence.
  assert (R !! refresh_of s tok = None) as HRn.
  { destruct (R !! refresh_of s tok) eqn:E; [|done]. apply (rotated_owned _ _ _ _ _ _ Hw) in E as [? ?]. congruence. }
  exists (<[tok := s]> R), O'. split_and!; [by apply insert_subseteq|done|by rewrite lookup_insert_eq|].
  pose proof (rotate_row_ok _ _ _ _ (l_now w) tok client s id0 r0 Hw2 H0 Hp0 HOa HOr HR HRn Hne) as Hrows.
  destruct Hw2. split; try done; cbn.
  - intros i r (r1 & Hr1 & ->)%update_where_lookup. by eapply Hrows.
  - intros y s' [[<- <-]|[_ Hy]]%lookup_insert_Some; [|by apply lk_rotated0]. split_and!; [set_solver|apply Hs|].
    exists (gr_user r0). split_and!; try done. by eapply lookup_weaken.
Qed.

(** ** What a worker is told *)

Inductive LinkFact :=
| KIssued (code user : str)
| KRedeemed (code_hash : str) (t : IssuedTokens)
| KRotated (tok seed : str)
| KFound (refresh_hash seed : str)
| KAccess (access_hash user : str).

Definition fact_true (R O : gmap str str) (D : gmap str IssuedTokens) (f : LinkFact) : Prop :=
  match f with
  | KIssued code user => O !! code = Some user
  | KRedeemed h t => D !! h = Some t
  | KRotated tok seed => R !! tok = Some seed
  | KFound h seed => forall tok, h = hash tok -> R !! tok = Some seed
  | KAccess h user => forall a, h = hash a -> O !! a = Some user
  end.

Lemma fact_true_more R R' O O' D D' f :
  R ⊆ R' -> O ⊆ O' -> D ⊆ D' -> fact_true R O D f -> fact_true R' O' D' f.
Proof.
  intros HR HO HD. destruct f; cbn; intros H; try (intros x Hx; apply H in Hx; by eapply lookup_weaken); by eapply lookup_weaken.
Qed.

Definition told {A} (e : Sql A) : A -> list LinkFact :=
  match e in Sql A return A -> list LinkFact with
  | InsertAuthCode user _ _ _ => fun a => match a.2 with Ok _ => [KIssued a.1 user] | Err _ => [] end
  | Redeem h _ _ => fun a => match a.2 with Ok true => [KRedeemed h (tokens a.1.1 a.1.2)] | _ => [] end
  | Rotate tok _ => fun a => match a.2 with Ok true => [KRotated tok a.1] | _ => [] end
  | FindRotated h _ => fun a => match a with Ok (Some row) => [KFound h (ro_seed row)] | _ => [] end
  | FindByAccess h => fun a => match a with Ok (Some x) => [KAccess h (gr_user x.2)] | _ => [] end
  | _ => fun _ => []
  end.

Local Instance sql_answers : Answers Sql := fun A e a => True.
Local Instance sql_protocol : Protocol Sql (list LinkFact) :=
  {| permits g A e := True; after g A e a := told e a ++ g |}.

(** What a job returns is what it was told. *)
Definition told_outcome (j : LinkJob) (g : list LinkFact) (o : LinkOutcome) : Prop :=
  match j, o with
  | LIssue user _ _ _, LIssued (Ok code) => KIssued code user ∈ g
  | LRedeem code _ _, LTokens (Ok (Some t)) => KRedeemed (hash code) t ∈ g
  | LRotate tok _, LTokens (Ok (Some t)) =>
      exists seed, t = tokens (access_of seed tok) (refresh_of seed tok)
                   /\ (KRotated tok seed ∈ g \/ KFound (hash tok) seed ∈ g)
  | LAuthenticate a, LGrant (Ok (Some gr)) => KAccess (hash a) (ga_user gr) ∈ g
  | _, _ => True
  end.

Lemma keeps_anything {T} g (p : sqlprog T) : keeps g p (fun _ _ => True).
Proof. revert g. induction p as [r|A e k IH]; intros g; cbn; [done|]. split; [done|]. intros a _. apply IH. Qed.

Lemma job_told j : keeps [] (link_job sha_hex sha_b64 j) (told_outcome j).
Proof.
  destruct j; try (eapply keeps_impl; [|apply keeps_anything]; by intros ? []).
  - cbn. split; [done|]. intros [code [u|e]] _; cbn; [by left|done].
  - cbn. split; [done|]. intros [[a rf] [[]|e]] _; cbn; [by left| |done]. split; [done|]. by intros [] _.
  - cbn. split; [done|]. intros [seed [[]|e]] _; cbn; [exists seed; split; [done|left; by left]| |done].
    split; [done|]. intros [[row|]|e] _; cbn; [|done..]. destruct (ro_fresh row); cbn.
    + destruct (str_eqb _ _); cbn; [|done]. exists (ro_seed row). split; [done|right; by left].
    + split; [done|]. by intros [] _.
  - cbn. split; [done|]. intros [[x|]|e] _; cbn; [|done..]. split; [done|]. intros [u|e] _; cbn; [|done].
    unfold to_grant. destruct (provider_of _); [|done]. cbn. by left.
Qed.

(** ** Statements *)

Definition statement_ok R O D g {A} (e : Sql A) (a : A) (w' : LinkWorld) : Prop :=
  exists R' O' D', R ⊆ R' /\ O ⊆ O' /\ D ⊆ D' /\ links_ok w' R' O' D'
    /\ forall f, f ∈ told e a ++ g -> fact_true R' O' D' f.

Lemma statement_quiet R O D g {A} (e : Sql A) a w' :
  links_ok w' R O D -> (forall f, f ∈ g -> fact_true R O D f) -> (forall f, f ∈ told e a -> fact_true R O D f) ->
  statement_ok R O D g e a w'.
Proof. intros Hw Hg He. exists R, O, D. split_and!; try done. intros f [Hf|Hf]%elem_of_app; auto. Qed.

Lemma statement_more R R' O O' D D' g {A} (e : Sql A) a w' :
  R ⊆ R' -> O ⊆ O' -> D ⊆ D' -> links_ok w' R' O' D' -> (forall f, f ∈ g -> fact_true R O D f) ->
  (forall f, f ∈ told e a -> fact_true R' O' D' f) -> statement_ok R O D g e a w'.
Proof.
  intros HR HO HD Hw Hg He. exists R', O', D'. split_and!; try done. intros f [Hf|Hf]%elem_of_app; [auto|].
  by eapply fact_true_more, Hg.
Qed.

(** A statement that deletes rows or leaves the grants alone. *)
Lemma statement_fewer {A} w R O D g (e : Sql A) a w' :
  links_ok w R O D -> (forall f, f ∈ g -> fact_true R O D f) -> (forall x, told e x = []) ->
  grants w' ⊆ grants w -> randoms w' = randoms w -> seeds w' = seeds w -> statement_ok R O D g e a w'.
Proof.
  intros Hw Hg He Ht Hr Hs. apply statement_quiet; [by eapply links_ok_fewer|done|]. rewrite He. set_solver.
Qed.

Lemma does_grants {A} (x : A) t w a w' : does x (set_grants t w) w a w' -> grants w' = grants w \/ grants w' = t.
Proof. destruct a; cbn; naive_solver. Qed.

Lemma delete_where_sub p (t : Grants) : delete_where p t ⊆ t.
Proof. apply map_filter_subseteq. Qed.

Lemma touch_ok w R O D id :
  links_ok w R O D -> links_ok (set_grants (touch_sql (l_now w) id (grants w)) w) R O D.
Proof.
  intros Hw. unfold touch_sql. destruct (grants w !! id) as [r|] eqn:E; [|by eapply links_ok_fewer].
  destruct (match gr_last_used_at r with None => true | Some u => u <? l_now w - 300000 end); [|by eapply links_ok_fewer].
  assert (forall f, f (touched_row (l_now w) r) = f r -> unique_hash f (grants w) ->
                    unique_hash f (<[id := touched_row (l_now w) r]> (grants w))) as Hu.
  { intros f Hf Hu i j r1 r2 h [[<- <-]|[_ H1]]%lookup_insert_Some [[<- <-]|[_ H2]]%lookup_insert_Some; try done.
    - rewrite Hf. by apply (Hu id j r r2 h).
    - rewrite Hf. by apply (Hu i id r1 r h).
    - by apply (Hu i j r1 r2 h). }
  destruct Hw. split; try done; cbn; [by apply Hu|by apply Hu|].
  intros i r' [[<- <-]|[_ Hr]]%lookup_insert_Some; [|by eapply lk_rows0]. by eapply (row_ok_keep _ _ _ r); [eapply lk_rows0|..].
Qed.

Lemma salut_ok w R O D id user sub t' :
  links_ok w R O D -> insert_salut_sql (l_now w) id user sub (grants w) = (Ok tt, t') -> links_ok (set_grants t' w) R O D.
Proof.
  intros Hw Hi. unfold insert_salut_sql in Hi. destruct (grants w !! id) eqn:E; [done|]. injection Hi as <-.
  assert (forall f, f (salut_row (l_now w) user sub) = None -> unique_hash f (grants w) ->
                    unique_hash f (<[id := salut_row (l_now w) user sub]> (grants w))) as Hu.
  { intros f Hf Hu i j r1 r2 h [[<- <-]|[_ H1]]%lookup_insert_Some [[<- <-]|[_ H2]]%lookup_insert_Some; try congruence.
    by apply (Hu i j r1 r2 h). }
  destruct Hw. split; try done; cbn; [by apply Hu|by apply Hu|].
  intros i r [[<- <-]|[_ Hr]]%lookup_insert_Some; [|by eapply lk_rows0]. by split.
Qed.

Lemma ran_cases {A} (r : result A unit * Grants) w a w' :
  ran r w a w' ->
  (w' = w /\ exists e, a = Err e) \/ (exists x, r.1 = Ok x /\ w' = set_grants r.2 w /\ (a = Ok x \/ exists e, a = Err e)).
Proof.
  unfold ran. destruct r as [[x|e] t]; cbn; [|intros [-> ->]; left; eauto].
  destruct a as [y|e]; cbn; [intros [-> ->]; right; eauto|]. intros [->| ->]; [left|right]; eauto 6.
Qed.

Lemma statement_issue w R O D g user provider client redirect a w' :
  links_ok w R O D -> (forall f, f ∈ g -> fact_true R O D f) ->
  link_serve sha_hex sha_b64 w (InsertAuthCode user provider client redirect) a w' ->
  statement_ok R O D g (InsertAuthCode user provider client redirect) a w'.
Proof.
  intros Hw Hg (Hn & id & [[-> [e He]]|([] & Hr & -> & Ha)]%ran_cases); destruct a as [code r]; cbn in *.
  - apply statement_quiet; [by apply links_ok_drawn|done|]. cbn. rewrite He. set_solver.
  - destruct (insert_auth_code _ _ _ _ _ _ _ _) as [x t'] eqn:Ei. cbn in Hr. subst x.
    destruct (issue_ok _ _ _ _ _ _ _ _ _ _ _ Hw Hn Ei) as (O' & HO & Hc & Hw'). eapply (statement_more R R O O' D D); try done.
    cbn. destruct Ha as [->|[e ->]]; [|set_solver]. by intros f ->%list_elem_of_singleton.
Qed.

Lemma statement_redeem w R O D g h client redirect a w' :
  links_ok w R O D -> (forall f, f ∈ g -> fact_true R O D f) ->
  link_serve sha_hex sha_b64 w (Redeem h client redirect) a w' -> statement_ok R O D g (Redeem h client redirect) a w'.
Proof.
  intros Hw Hg (Ha & Hrf & [[-> [e He]]|(b & Hr & -> & Hres)]%ran_cases); destruct a as [[ac rf] r]; cbn in *.
  - apply statement_quiet; [by apply links_ok_drawn; [apply links_ok_drawn|]|done|]. cbn. rewrite He. set_solver.
  - destruct (redeem_sql _ _ _ _ _ _ _) as [x t'] eqn:Ei. cbn in Hr. subst x.
    destruct (redeem_ok _ _ _ _ _ _ _ _ _ _ _ Hw Ha Hrf Ei) as (O' & D' & HO & HD & Hb & Hw').
    eapply (statement_more R R O O' D D'); try done. cbn. destruct Hres as [->|[e ->]]; [|set_solver].
    destruct b; [|set_solver]. intros f ->%list_elem_of_singleton. by apply Hb.
Qed.

Lemma statement_rotate w R O D g tok client a w' :
  links_ok w R O D -> (forall f, f ∈ g -> fact_true R O D f) ->
  link_serve sha_hex sha_b64 w (Rotate tok client) a w' -> statement_ok R O D g (Rotate tok client) a w'.
Proof.
  intros Hw Hg (Hs & [[-> [e He]]|(b & Hr & -> & Hres)]%ran_cases); destruct a as [seed r]; cbn in *.
  - apply statement_quiet; [apply links_ok_seed; [done|apply Hs]|done|]. cbn. rewrite He. set_solver.
  - destruct (rotate_sql _ _ _ _ _ _ _) as [x t'] eqn:Ei. cbn in Hr. subst x.
    destruct (rotate_ok _ _ _ _ _ _ _ _ _ Hw Hs Ei) as (R' & O' & HR & HO & Hb & Hw').
    eapply (statement_more R R' O O' D D); try done. cbn. destruct Hres as [->|[e ->]]; [|set_solver].
    destruct b; [|set_solver]. intros f ->%list_elem_of_singleton. by apply Hb.
Qed.

Lemma statement_find_rotated w R O D g h client a w' :
  links_ok w R O D -> (forall f, f ∈ g -> fact_true R O D f) ->
  link_serve sha_hex sha_b64 w (FindRotated h client) a w' -> statement_ok R O D g (FindRotated h client) a w'.
Proof.
  intros Hw Hg [-> Ha]. apply statement_quiet; [done|done|]. cbn. destruct a as [[row|]|e]; try set_solver.
  intros f ->%list_elem_of_singleton tok ->. cbn in Ha. unfold find_rotated_sql in Ha.
  apply list_elem_of_In, in_map_iff in Ha as ([id r] & <- & Hin%list_elem_of_In%filter_rows). destruct Hin as [Hr Hp]. cbn.
  unfold was_rotated in Hp. apply andb_true_iff in Hp as [[Hp%hash_is_true _]%andb_true_iff _].
  destruct (rk_prev _ _ _ _ (lk_rows _ _ _ _ Hw _ _ Hr) _ Hp) as (p & s & Hh & HR & ->). by apply (inj sha_hex) in Hh as <-.
Qed.

Lemma statement_find_access w R O D g h a w' :
  links_ok w R O D -> (forall f, f ∈ g -> fact_true R O D f) ->
  link_serve sha_hex sha_b64 w (FindByAccess h) a w' -> statement_ok R O D g (FindByAccess h) a w'.
Proof.
  intros Hw Hg [-> Ha]. apply statement_quiet; [done|done|]. cbn. destruct a as [[[id r]|]|e]; try set_solver.
  intros f ->%list_elem_of_singleton tok ->. cbn in Ha |- *. unfold find_by_access_sql in Ha.
  apply list_elem_of_In, filter_In in Ha as [Hr Hp]. apply list_elem_of_In, elem_of_map_to_list in Hr. cbn in Hp.
  apply andb_true_iff in Hp as [Hp%hash_is_true _].
  destruct (rk_access _ _ _ _ (lk_rows _ _ _ _ Hw _ _ Hr) _ Hp) as (x & Hh & HO). by apply (inj sha_hex) in Hh as <-.
Qed.

Lemma statement_serve w R O D g {A} (e : Sql A) a w' :
  links_ok w R O D -> (forall f, f ∈ g -> fact_true R O D f) -> link_serve sha_hex sha_b64 w e a w' ->
  statement_ok R O D g e a w'.
Proof.
  intros Hw Hg Hs. destruct e.
  - destruct Hs as [_ ->]. by apply (statement_fewer w).
  - destruct a; cbn in Hs; [destruct Hs as [_ ->]|destruct Hs as [->| ->]]; by apply (statement_fewer w).
  - destruct Hs as [-> _]. by apply (statement_fewer w).
  - destruct Hs as [id Hs]. destruct (insert_code_sql _ _ _ _ _ _) as [[x|x] t]; cbn in Hs; [|destruct Hs as [_ ->]; by apply (statement_fewer w)].
    destruct a; cbn in Hs; [destruct Hs as [_ ->]|destruct Hs as [->| ->]]; by apply (statement_fewer w).
  - destruct Hs as [-> _]. by apply (statement_fewer w).
  - destruct a; cbn in Hs; [destruct Hs as [_ ->]|destruct Hs as [->| ->]]; by apply (statement_fewer w).
  - by apply (statement_issue w).
  - by apply (statement_redeem w).
  - destruct a; cbn in Hs; [destruct Hs as [_ ->]|destruct Hs as [->| ->]]; apply (statement_fewer w); try done; apply delete_where_sub.
  - by apply (statement_rotate w).
  - by apply (statement_find_rotated w).
  - destruct a; cbn in Hs; [destruct Hs as [_ ->]|destruct Hs as [->| ->]]; apply (statement_fewer w); try done; apply delete_subseteq.
  - by apply (statement_find_access w).
  - destruct a; cbn in Hs; [destruct Hs as [_ ->]|destruct Hs as [->| ->]]; apply statement_quiet; try done; try (by apply touch_ok); set_solver.
  - destruct a; cbn in Hs; [destruct Hs as [_ ->]|destruct Hs as [->| ->]]; apply (statement_fewer w); try done; apply delete_where_sub.
  - destruct Hs as (id & [[-> _]|([] & Hr & -> & _)]%ran_cases); [by apply (statement_fewer w)|].
    apply statement_quiet; [|done|set_solver]. destruct (insert_salut_sql _ _ _ _ _) as [x t'] eqn:E. cbn in Hr |- *. subst x. by eapply salut_ok.
  - destruct Hs as [-> _]. by apply (statement_fewer w).
  - destruct Hs as [-> _]. by apply (statement_fewer w).
  - assert ((revoke_sql id user (grants w)).2 ⊆ grants w) as Hsub.
    { unfold revoke_sql. destruct (grants w !! id) as [r|]; [|done]. destruct (str_eqb _ _); [apply delete_subseteq|done]. }
    destruct a; cbn in Hs; [destruct Hs as [_ ->]|destruct Hs as [->| ->]]; by apply (statement_fewer w).
Qed.

(** ** The system *)

Definition links_sys_ok (s : LinkSys) : Prop :=
  exists R O D, links_ok (l_world s) R O D
    /\ (forall n j p, l_workers s !! n = Some (j, p) ->
         exists g, (forall f, f ∈ g -> fact_true R O D f) /\ keeps g p (told_outcome j))
    /\ (forall j o, (j, o) ∈ l_finished s -> exists g, (forall f, f ∈ g -> fact_true R O D f) /\ told_outcome j g o).

Lemma link_step_ok s s' : links_sys_ok s -> link_step sha_hex sha_b64 s s' -> links_sys_ok s'.
Proof.
  intros (R & O & D & Hw & Hwk & Hfin) Hstep. destruct Hstep as [t Ht|n j Hn|n j A e k a w' Hn Hs|n j o Hn|n|id].
  - exists R, O, D. split; [by eapply links_ok_fewer|done].
  - exists R, O, D. split_and!; try done. cbn. intros m j' p [[<- [= <- <-]]|[_ Hm]]%lookup_insert_Some; [|by eapply Hwk].
    exists []. split; [set_solver|apply job_told].
  - pose proof Hn as (g & Hg & [_ Ho])%Hwk.
    destruct (statement_serve _ _ _ _ _ _ _ _ Hw Hg Hs) as (R' & O' & D' & HR & HO & HD & Hw' & Hg').
    assert (forall g : list LinkFact, (forall f, f ∈ g -> fact_true R O D f) -> forall f, f ∈ g -> fact_true R' O' D' f) as Hmore
      by (intros g0 H0 f Hf; eapply fact_true_more, H0; done).
    exists R', O', D'. split_and!; try done; cbn.
    + intros m j' p [[<- [= <- <-]]|[_ Hm]]%lookup_insert_Some; [exists (told e a ++ g); split; [done|by apply Ho]|].
      apply Hwk in Hm as (g0 & H0 & H1). eauto.
    + intros j' o Hj. apply Hfin in Hj as (g0 & H0 & H1). eauto.
  - exists R, O, D. split_and!; try done; cbn.
    + intros m j' p [_ Hm]%lookup_delete_Some. by eapply Hwk.
    + intros j' o' [[= -> ->]|Hj]%elem_of_cons; [|by apply Hfin]. apply Hwk in Hn as (g & Hg & Ho). eauto.
  - exists R, O, D. split_and!; try done. cbn. intros m j' p [_ Hm]%lookup_delete_Some. by eapply Hwk.
  - exists R, O, D. split; [|done]. eapply links_ok_fewer; [done| |done..]. apply delete_subseteq.
Qed.

Lemma links_reachable_ok t s : rtc (link_step sha_hex sha_b64) (no_links t) s -> links_sys_ok s.
Proof.
  intros Hs. assert (links_sys_ok (no_links t)) as H0.
  { exists ∅, ∅, ∅. split_and!; cbn; [|done|set_solver]. split; cbn; try done; try set_solver. }
  revert H0. induction Hs as [|s1 s2 s3 H12 _ IH]; [done|]. intros H1. apply IH. by eapply link_step_ok.
Qed.

Lemma redeemed_tokens s R O D code client redirect t :
  links_ok (l_world s) R O D ->
  (forall j o, (j, o) ∈ l_finished s -> exists g, (forall f, f ∈ g -> fact_true R O D f) /\ told_outcome j g o) ->
  (LRedeem code client redirect, LTokens (Ok (Some t))) ∈ l_finished s -> D !! hash code = Some t.
Proof. intros Hw Hfin Hj. apply Hfin in Hj as (g & Hg & Ho). by apply Hg in Ho. Qed.

Lemma rotated_with s R O D tok client t :
  links_ok (l_world s) R O D ->
  (forall j o, (j, o) ∈ l_finished s -> exists g, (forall f, f ∈ g -> fact_true R O D f) /\ told_outcome j g o) ->
  (LRotate tok client, LTokens (Ok (Some t))) ∈ l_finished s ->
  exists seed, R !! tok = Some seed /\ t = tokens (access_of seed tok) (refresh_of seed tok).
Proof.
  intros Hw Hfin Hj. apply Hfin in Hj as (g & Hg & seed & -> & Ho). exists seed. split; [|done].
  destruct Ho as [Ho|Ho]; apply Hg in Ho; [done|]. by apply Ho.
Qed.

(** C14: under any interleaving of requests, with statements that fail after they took
    effect and workers that stop anywhere, a code of an assistant is exchanged for one
    pair of tokens only, and so is a refresh token: whoever presents it again, at the
    same time or later, is given the very same pair or nothing. *)
Theorem tokens_once t0 s :
  rtc (link_step sha_hex sha_b64) (no_links t0) s ->
  (forall code client client' redirect redirect' t t',
     (LRedeem code client redirect, LTokens (Ok (Some t))) ∈ l_finished s ->
     (LRedeem code client' redirect', LTokens (Ok (Some t'))) ∈ l_finished s -> t' = t)
  /\ (forall tok client client' t t',
     (LRotate tok client, LTokens (Ok (Some t))) ∈ l_finished s ->
     (LRotate tok client', LTokens (Ok (Some t'))) ∈ l_finished s -> t' = t).
Proof.
  intros (R & O & D & Hw & _ & Hfin)%links_reachable_ok. split.
  - intros code c c' re re' t t' H1 H2. apply (redeemed_tokens _ _ _ _ _ _ _ _ Hw Hfin) in H1.
    apply (redeemed_tokens _ _ _ _ _ _ _ _ Hw Hfin) in H2. congruence.
  - intros tok c c' t t' H1 H2. apply (rotated_with _ _ _ _ _ _ _ Hw Hfin) in H1 as (sd & Hs & ->).
    apply (rotated_with _ _ _ _ _ _ _ Hw Hfin) in H2 as (sd' & Hs' & ->). congruence.
Qed.

(** Whatever is requested and in whatever order, every code and token has one owner:
    the user a code was issued for owns the tokens it is exchanged for and every token
    they are renewed to, and a request that is let in with an access token acts for the
    owner of that token. *)
Theorem tokens_keep_owner t0 s :
  rtc (link_step sha_hex sha_b64) (no_links t0) s ->
  exists owner : gmap str str,
    (forall user provider client redirect code,
       (LIssue user provider client redirect, LIssued (Ok code)) ∈ l_finished s -> owner !! code = Some user)
    /\ (forall code client redirect t, (LRedeem code client redirect, LTokens (Ok (Some t))) ∈ l_finished s ->
         exists u, owner !! code = Some u /\ owner !! it_access t = Some u /\ owner !! it_refresh t = Some u)
    /\ (forall tok client t, (LRotate tok client, LTokens (Ok (Some t))) ∈ l_finished s ->
         exists u, owner !! tok = Some u /\ owner !! it_access t = Some u /\ owner !! it_refresh t = Some u)
    /\ (forall access g, (LAuthenticate access, LGrant (Ok (Some g))) ∈ l_finished s -> owner !! access = Some (ga_user g)).
Proof.
  intros (R & O & D & Hw & _ & Hfin)%links_reachable_ok. exists O. split_and!.
  - intros user provider client redirect code (g & Hg & Ho)%Hfin. by apply Hg in Ho.
  - intros code client redirect t H1. apply (redeemed_tokens _ _ _ _ _ _ _ _ Hw Hfin) in H1.
    apply (lk_redeemed _ _ _ _ Hw) in H1 as (c & u & Hc & H2). apply (inj sha_hex) in Hc as <-. eauto.
  - intros tok client t H1. apply (rotated_with _ _ _ _ _ _ _ Hw Hfin) in H1 as (sd & Hs & ->).
    apply (lk_rotated _ _ _ _ Hw) in Hs as (_ & _ & u & H2). eauto.
  - intros access gr (g & Hg & Ho)%Hfin. apply Hg in Ho. by apply Ho.
Qed.
End facts.

(** * A link from its code to its end

    What [rotate_refresh] does when nothing else happens meanwhile ([alone] answers each
    statement at once), and a run of the system of [Links] with concrete parameters:
    a code is issued and redeemed, two requests rotate the same refresh token, and the
    access token is used.  The theorems of [LinkFacts] are applied to it. *)

Section alone.
Context (sha_hex sha_b64 : str -> str).
Abbreviation hash := (token_hash sha_hex).
Abbreviation access_of := (derive sha_b64 (lit "access")).
Abbreviation refresh_of := (derive sha_b64 (lit "refresh")).

(** The statements of a rotation, on their own. *)
Definition alone (now : Z) (seed : str) {A} (e : Sql A) (t : Grants) : option (A * Grants) :=
  match e in Sql A return option (A * Grants) with
  | Rotate tok client =>
      let '(access, next) := rotated_tokens sha_b64 seed tok in
      let r := rotate_sql now (hash tok) (hash access) (hash next) client seed t in Some ((seed, r.1), r.2)
  | FindRotated h client => Some (Ok (head (find_rotated_sql now h client t)), t)
  | DeleteGrant id => Some (Ok tt, delete id t)
  | _ => None
  end.

Fixpoint run_alone {T} (now : Z) (seed : str) (p : sqlprog T) (t : Grants) : option (T * Grants) :=
  match p with
  | Ret r => Some (r, t)
  | Vis e k => match alone now seed e t with Some (a, t') => run_alone now seed (k a) t' | None => None end
  end.

Definition rotation now seed tok client t := run_alone now seed (rotate_refresh sha_hex sha_b64 tok client) t.

(** The tokens a seed makes of a refresh token. *)
Definition made (seed tok : str) : IssuedTokens := tokens (access_of seed tok) (refresh_of seed tok).

Lemma rotate_sql_at now tok seed client t id r :
  t !! id = Some r -> rotatable now (hash tok) client r = true -> unique_hash gr_refresh_hash t ->
  update_where (rotatable now (hash tok) client) (rotated_row now (hash (access_of seed tok)) (hash (refresh_of seed tok)) seed) t
  = <[id := rotated_row now (hash (access_of seed tok)) (hash (refresh_of seed tok)) seed r]> t.
Proof.
  intros Hr Hp Hu. apply map_eq. intros i. unfold update_where. rewrite lookup_fmap.
  destruct (decide (i = id)) as [->|Hne]; [by rewrite lookup_insert_eq, Hr; cbn; rewrite Hp|].
  rewrite lookup_insert_ne by done. destruct (t !! i) as [r'|] eqn:E; [|done]. cbn.
  destruct (rotatable now (hash tok) client r') eqn:Hp'; [|done]. exfalso. apply Hne. unfold rotatable in Hp, Hp'.
  apply andb_true_iff in Hp as [[Hp%hash_is_true _]%andb_true_iff _].
  apply andb_true_iff in Hp' as [[Hp'%hash_is_true _]%andb_true_iff _]. by apply (Hu i id r' r (hash tok)).
Qed.

Lemma rotation_first now seed tok client t id r :
  t !! id = Some r -> rotatable now (hash tok) client r = true -> unique_hash gr_refresh_hash t ->
  let t1 := <[id := rotated_row now (hash (access_of seed tok)) (hash (refresh_of seed tok)) seed r]> t in
  indexes_hold t1 = true -> rotation now seed tok client t = Some (Ok (Some (made seed tok)), t1).
Proof.
  intros Hr Hp Hu t1 Hix. unfold rotation, rotate_refresh. cbn -[derive token_hash rotate_sql lit find_rotated_sql]. unfold rotate_sql.
  rewrite (rotate_sql_at now tok seed client t id r) by done. fold t1. unfold written. rewrite Hix. cbn.
  rewrite bool_decide_false; [done|]. rewrite ids_where_none. intros Hn. specialize (Hn id r Hr). congruence.
Qed.

(** A token that no grant has as its current one, and one grant as its previous one. *)
Lemma rotation_again now seed tok client t id r s :
  t !! id = Some r -> (forall i r', t !! i = Some r' -> gr_refresh_hash r' <> Some (hash tok)) ->
  (forall i r', t !! i = Some r' -> gr_prev_refresh_hash r' = Some (hash tok) -> i = id) ->
  gr_prev_refresh_hash r = Some (hash tok) -> gr_client_id r = client -> later (gr_refresh_expires_at r) now = true ->
  gr_rotation_seed r = Some s -> gr_refresh_hash r = Some (hash (refresh_of s tok)) -> indexes_hold t = true ->
  rotation now seed tok client t
  = if later (gr_rotated_at r) (now - REFRESH_GRACE_SECS * 1000) then Some (Ok (Some (made s tok)), t)
    else Some (Ok None, delete id t).
Proof.
  intros Hr Hcur Hone Hprev Hcl Hlater Hseed Hnext Hix. unfold rotation, rotate_refresh. cbn -[derive token_hash rotate_sql lit find_rotated_sql]. unfold rotate_sql.
  assert (forall i r', t !! i = Some r' -> rotatable now (hash tok) client r' = false) as Hno.
  { intros i r' Hi. unfold rotatable. destruct (hash_is (gr_refresh_hash r') (hash tok)) eqn:E; [|done].
    apply hash_is_true in E. by apply (Hcur i r' Hi) in E. }
  rewrite update_where_none by done. unfold written. rewrite Hix. cbn.
  rewrite bool_decide_true by (by apply ids_where_none). cbn.
  assert (forall x, x ∈ find_rotated_sql now (hash tok) client t <->
    x = {| ro_id := id; ro_seed := s; ro_refresh_hash := hash (refresh_of s tok);
           ro_fresh := later (gr_rotated_at r) (now - REFRESH_GRACE_SECS * 1000) |}) as Hfind.
  { intros x. unfold find_rotated_sql. rewrite list_elem_of_In, in_map_iff. split.
    - intros ([i r'] & <- & [Hi Hp]%list_elem_of_In%filter_rows). unfold was_rotated in Hp.
      apply andb_true_iff in Hp as [[Hp%hash_is_true _]%andb_true_iff _]. pose proof (Hone i r' Hi Hp) as ->.
      rewrite Hr in Hi. injection Hi as <-. cbn. by rewrite Hseed, Hnext.
    - intros ->. exists (id, r). cbn. rewrite Hseed, Hnext. split; [done|]. apply list_elem_of_In, filter_rows.
      split; [done|]. unfold was_rotated. rewrite (proj2 (hash_is_true _ _) Hprev), Hcl, str_eqb_refl, Hlater. done. }
  destruct (find_rotated_sql now (hash tok) client t) as [|x l]; [exfalso; eapply not_elem_of_nil, (proj2 (Hfind _) eq_refl)|].
  rewrite (proj1 (Hfind x)) by (by left). cbn. destruct (later (gr_rotated_at r) _); cbn; [|done].
  by rewrite str_eqb_refl.
Qed.

(** A refresh token that a grant has as its current one is exchanged for new tokens,
    which replace it.  Presented again within five minutes, when the answer may have been
    lost, it is exchanged for the same tokens and nothing changes; presented later, it
    must have been stolen, and the grant is revoked. *)
Theorem rotation_grace now seed tok client t id r now' seed' :
  t !! id = Some r -> rotatable now (hash tok) client r = true -> unique_hash gr_refresh_hash t ->
  (forall i r', t !! i = Some r' -> gr_prev_refresh_hash r' <> Some (hash tok)) ->
  hash (refresh_of seed tok) <> hash tok ->
  let t1 := <[id := rotated_row now (hash (access_of seed tok)) (hash (refresh_of seed tok)) seed r]> t in
  indexes_hold t1 = true -> now <= now' < now + REFRESH_TTL_SECS * 1000 ->
  rotation now seed tok client t = Some (Ok (Some (made seed tok)), t1)
  /\ rotation now' seed' tok client t1
     = if now' <? now + REFRESH_GRACE_SECS * 1000 then Some (Ok (Some (made seed tok)), t1) else Some (Ok None, delete id t1).
Proof.
  intros Hr Hp Hu Hprev Hne t1 Hix Hnow. split; [by apply (rotation_first _ _ _ _ _ id r)|].
  pose proof Hp as Hp'. unfold rotatable in Hp'.
  apply andb_true_iff in Hp' as [[Hc%hash_is_true Hcl%str_eqb_eq]%andb_true_iff _].
  rewrite (rotation_again now' seed' tok client t1 id
    (rotated_row now (hash (access_of seed tok)) (hash (refresh_of seed tok)) seed r) seed); try done.
  - cbn. destruct (Z.ltb_spec (now' - REFRESH_GRACE_SECS * 1000) now), (Z.ltb_spec now' (now + REFRESH_GRACE_SECS * 1000)); try done; lia.
  - unfold t1. by rewrite lookup_insert_eq.
  - intros i r' [[<- <-]|[Hni Hi]]%lookup_insert_Some; [intros E; apply Hne; apply Some_inj, E|]. intros Hh. apply Hni. symmetry.
    by apply (Hu i id r' r (hash tok)).
  - intros i r' [[<- <-]|[Hni Hi]]%lookup_insert_Some; [done|]. intros Hh. by apply Hprev in Hi.
  - cbn. apply Z.ltb_lt. lia.
Qed.
End alone.

(** ** A run

    The digests are the identity; random tokens are single characters. *)

Module LinkSample.
Definition id_sha (s : str) : str := s.

#[local] Instance id_sha_inj : Inj (=) (=) id_sha.
Proof. by intros x y. Qed.

Abbreviation sample_link_step := (link_step id_sha id_sha).

Definition next_random (w : LinkWorld) : str := [Z.of_nat (size (randoms w))].
Definition next_seed (w : LinkWorld) : str := [200 + Z.of_nat (size (seeds w))].

(** What a worker is answered when nothing fails. *)
Definition answer_sql (w : LinkWorld) {A} (e : Sql A) : option (A * LinkWorld) :=
  match e in Sql A return option (A * LinkWorld) with
  | InsertAuthCode user provider client redirect =>
      let code := next_random w in
      if bool_decide (code ∈ randoms w) then None else
      let r := insert_auth_code (l_now w) 1 user provider client (token_hash id_sha code) redirect (grants w) in
      match r.1 with Ok x => Some ((code, Ok x), set_grants r.2 (draw code w)) | Err _ => None end
  | Redeem h client redirect =>
      let a := next_random w in
      let w1 := draw a w in
      let rf := next_random w1 in
      if bool_decide (a ∈ randoms w) || bool_decide (rf ∈ randoms w1) then None else
      let r := redeem_sql (l_now w) h (token_hash id_sha a) (token_hash id_sha rf) client redirect (grants w) in
      match r.1 with Ok x => Some ((a, rf, Ok x), set_grants r.2 (draw rf w1)) | Err _ => None end
  | Rotate tok client =>
      let seed := next_seed w in
      if bool_decide (seed ∈ seeds w) || bool_decide (58 ∈ seed) then None else
      let r := rotate_sql (l_now w) (token_hash id_sha tok) (token_hash id_sha (derive id_sha (lit "access") seed tok))
                 (token_hash id_sha (derive id_sha (lit "refresh") seed tok)) client seed (grants w) in
      match r.1 with Ok x => Some ((seed, Ok x), set_grants r.2 (draw_seed seed w)) | Err _ => None end
  | FindRotated h client => Some (Ok (head (find_rotated_sql (l_now w) h client (grants w))), w)
  | FindByAccess h => Some (Ok (head (find_by_access_sql (l_now w) h (grants w))), w)
  | TouchGrant id => Some (Ok tt, set_grants (touch_sql (l_now w) id (grants w)) w)
  | _ => None
  end.

Lemma derived_long label seed previous x : [x] <> derive id_sha label seed previous.
Proof. unfold derive, id_sha. intros E. apply (f_equal length) in E. rewrite !length_app in E. cbn in E. lia. Qed.

Lemma head_one_of {A} (l : list A) : one_of l (Ok (head l)).
Proof. destruct l; cbn; [done|by left]. Qed.

Lemma answer_sql_serves w {A} (e : Sql A) a w' : answer_sql w e = Some (a, w') -> link_serve id_sha id_sha w e a w'.
Proof.
  destruct e; cbn -[derive lit find_rotated_sql find_by_access_sql insert_auth_code redeem_sql rotate_sql touch_sql]; try done.
  - case_bool_decide as E; [done|]. destruct (insert_auth_code _ _ _ _ _ _ _ _) as [[x|x] t] eqn:Er; [|done].
    intros [= <- <-]. split; [split; [done|intros; apply derived_long]|]. exists 1. cbn [fst snd] in *. rewrite Er. by cbn.
  - destruct (_ || _) eqn:E; [done|]. apply orb_false_iff in E as [E1%bool_decide_eq_false E2%bool_decide_eq_false].
    destruct (redeem_sql _ _ _ _ _ _ _) as [[x|x] t] eqn:Er; [|done]. intros [= <- <-].
    split_and!; [split; [done|intros; apply derived_long]|split; [done|intros; apply derived_long]|].
    cbn [fst snd]. rewrite Er. by cbn.
  - destruct (_ || _) eqn:E; [done|]. apply orb_false_iff in E as [E1%bool_decide_eq_false E2%bool_decide_eq_false].
    destruct (rotate_sql _ _ _ _ _ _ _) as [[x|x] t] eqn:Er; [|done]. intros [= <- <-]. split; [done|].
    cbn [fst snd rotated_tokens]. rewrite Er. by cbn.
  - intros [= <- <-]. split; [done|apply head_one_of].
  - intros [= <- <-]. split; [done|apply head_one_of].
  - intros [= <- <-]. by split.
Qed.

(** The worker [n] begins a job and goes on until it ends. *)
Fixpoint finish_job (fuel n : nat) (s : LinkSys) : LinkSys :=
  match fuel with
  | O => s
  | S fuel' =>
      match l_workers s !! n with
      | Some (j, Ret o) => {| l_world := l_world s; l_workers := delete n (l_workers s); l_finished := (j, o) :: l_finished s |}
      | Some (j, Vis e k) =>
          match answer_sql (l_world s) e with
          | Some (a, w') => finish_job fuel' n {| l_world := w'; l_workers := <[n := (j, k a)]> (l_workers s); l_finished := l_finished s |}
          | None => s
          end
      | None => s
      end
  end.

Definition begin_job (n : nat) (j : LinkJob) (s : LinkSys) : LinkSys :=
  match l_workers s !! n with
  | None => {| l_world := l_world s; l_workers := <[n := (j, link_job id_sha id_sha j)]> (l_workers s); l_finished := l_finished s |}
  | Some _ => s
  end.

Lemma begin_job_steps n j s : rtc sample_link_step s (begin_job n j s).
Proof. unfold begin_job. destruct (l_workers s !! n) eqn:E; [done|]. by apply rtc_once, link_begin. Qed.

Lemma finish_job_steps fuel n s : rtc sample_link_step s (finish_job fuel n s).
Proof.
  revert s. induction fuel as [|fuel IH]; intros s; cbn; [done|]. destruct (l_workers s !! n) as [[j [o|A e k]]|] eqn:E; [| |done].
  - by apply rtc_once, link_finish.
  - destruct (answer_sql (l_world s) e) as [[a w']|] eqn:Ea; [|done]. eapply rtc_l; [|apply IH].
    eapply link_statement; [done|by apply answer_sql_serves].
Qed.

Definition do (n : nat) (j : LinkJob) (s : LinkSys) : LinkSys := finish_job 5 n (begin_job n j s).

Definition first_tokens : IssuedTokens := tokens [1] [2].
Definition renewed : IssuedTokens := made id_sha [200] [2].

(** Both rotations have begun before either runs. *)
Definition link_end : LinkSys :=
  do 4 (LAuthenticate (it_access renewed))
    (finish_job 5 3 (finish_job 5 2 (begin_job 3 (LRotate [2] (lit "alice")) (begin_job 2 (LRotate [2] (lit "alice"))
      (do 1 (LRedeem [0] (lit "alice") (lit "https://a")) (do 0 (LIssue (lit "u1") Alice (lit "alice") (lit "https://a")) (no_links 0))))))).

Lemma then_begin n j s s0 : rtc sample_link_step s0 s -> rtc sample_link_step s0 (begin_job n j s).
Proof. intros H. etrans; [exact H|apply begin_job_steps]. Qed.
Lemma then_finish fuel n s s0 : rtc sample_link_step s0 s -> rtc sample_link_step s0 (finish_job fuel n s).
Proof. intros H. etrans; [exact H|apply finish_job_steps]. Qed.

Lemma link_end_reached : rtc sample_link_step (no_links 0) link_end.
Proof.
  unfold link_end, do.
  apply then_finish, then_begin, then_finish, then_finish, then_begin, then_begin, then_finish, then_begin, then_finish, then_begin.
  apply rtc_refl.
Qed.

Lemma link_end_outcomes :
  l_finished link_end =
    [(LAuthenticate (it_access renewed), LGrant (Ok (Some {| ga_id := 1; ga_user := lit "u1"; ga_provider := Alice |})));
     (LRotate [2] (lit "alice"), LTokens (Ok (Some renewed))); (LRotate [2] (lit "alice"), LTokens (Ok (Some renewed)));
     (LRedeem [0] (lit "alice") (lit "https://a"), LTokens (Ok (Some first_tokens)));
     (LIssue (lit "u1") Alice (lit "alice") (lit "https://a"), LIssued (Ok [0]))].
Proof. vm_compute. reflexivity. Qed.

Lemma tokens_once_witness :
  (LRotate [2] (lit "alice"), LTokens (Ok (Some renewed))) ∈ l_finished link_end /\ renewed = renewed.
Proof.
  assert ((LRotate [2] (lit "alice"), LTokens (Ok (Some renewed))) ∈ l_finished link_end) as Hin.
  { rewrite link_end_outcomes. right. by left. }
  split; [exact Hin|].
  exact (proj2 (tokens_once id_sha id_sha 0 link_end link_end_reached) [2] (lit "alice") (lit "alice") renewed renewed Hin Hin).
Defined.

Lemma tokens_keep_owner_witness :
  rtc sample_link_step (no_links 0) link_end /\ exists owner : gmap str str, owner !! it_access renewed = Some (lit "u1").
Proof.
  split; [exact link_end_reached|].
  destruct (tokens_keep_owner id_sha id_sha 0 link_end link_end_reached) as (owner & _ & _ & _ & Ha).
  exists owner. refine (Ha (it_access renewed) {| ga_id := 1; ga_user := lit "u1"; ga_provider := Alice |} _).
  rewrite link_end_outcomes. by left.
Defined.

(** A grant with the refresh token [2] alone in the table. *)
Definition one_grant : GrantRow := redeemed_row 0 [1] [2] (auth_row 0 (lit "u1") (lit "alice") (lit "alice") [0] (lit "https://a")).

Lemma rotation_grace_witness :
  rotation id_sha id_sha 1000 [200] [2] (lit "alice") {[1 := one_grant]}
    = Some (Ok (Some renewed), {[1 := rotated_row 1000 (it_access renewed) (it_refresh renewed) [200] one_grant]})
  /\ rotation id_sha id_sha 400000 [201] [2] (lit "alice")
      {[1 := rotated_row 1000 (it_access renewed) (it_refresh renewed) [200] one_grant]} = Some (Ok None, ∅).
Proof.
  assert (forall i r, ({[1 := one_grant]} : Grants) !! i = Some r -> i = 1 /\ r = one_grant) as Hone
    by (intros i r [<- <-]%lookup_singleton_Some; done).
  destruct (rotation_grace id_sha id_sha 1000 [200] [2] (lit "alice") {[1 := one_grant]} 1 one_grant 400000 [201]) as [H1 H2].
  - reflexivity.
  - reflexivity.
  - intros i j r r' h [-> _]%Hone [-> _]%Hone _ _. reflexivity.
  - intros i r [_ ->]%Hone. discriminate.
  - vm_compute. discriminate.
  - vm_compute. reflexivity.
  - vm_compute. split; [discriminate|reflexivity].
  - rewrite insert_singleton_eq in H1, H2. split; [exact H1|]. refine (eq_trans H2 _). vm_compute. reflexivity.
Defined.
End LinkSample.
