(* ===== verification/ChatTables.v ===== *)
(** * ChatTables: conversations, their members, keys, messages and invitations

    Source: [api/src/modules/chat]: [model.rs], [members/roles.rs], [members/access.rs],
    [epochs.rs], [history_gate.rs] and the statements of [api/queries/chat] on the tables
    of migration 0281.  Every statement of these operations names one conversation, so
    [Conv] is one conversation with its rows of the five tables; a statement is a function
    of the transaction's time and of [Conv].  The columns [kind], [role], [state] and
    [class] hold the variants their names stand for ([role_named] and the like).  Times
    are microseconds, ids numbers, and ids of users are compared by code points.  What the
    media tables hold is not part of [Conv], except that a trim of them is queued. *)

From Stdlib Require Import ZArith Lia String.
From stdpp Require Import base list numbers option tactics sets gmap fin_maps.
From S2P Require Import Prelude Text AppError SealedGate.
Local Open Scope Z_scope.

(** ** Kinds, roles and states ([model.rs], [roles.rs]) *)

Inductive ConversationKind := Direct | Group | RoomChat | PublicChat | Saved.
Inductive MemberRole := Owner | Admin | Member.
Inductive MemberState := Active | Invited | Left | Kicked | Banned.
(** The classes of [sc_chat_wire::msg]. *)
Inductive Class := Post | Edit | React | Pin | Meta | System.

Global Instance ConversationKind_eq : EqDecision ConversationKind. Proof. solve_decision. Defined.
Global Instance MemberRole_eq : EqDecision MemberRole. Proof. solve_decision. Defined.
Global Instance MemberState_eq : EqDecision MemberState. Proof. solve_decision. Defined.
Global Instance Class_eq : EqDecision Class. Proof. solve_decision. Defined.

Definition GROUP_MEMBERS_MAX : Z := 200.
Definition DISAPPEARING_TTLS : list Z := [3600; 86400; 604800].

Definition kind_name (k : ConversationKind) : str :=
  match k with
  | Direct => lit "direct" | Group => lit "group" | RoomChat => lit "room" | PublicChat => lit "public"
  | Saved => lit "self"
  end.

Definition parse_kind (raw : str) : result ConversationKind ChatError :=
  if bool_decide (raw = lit "direct") then Ok Direct
  else if bool_decide (raw = lit "group") then Ok Group
  else if bool_decide (raw = lit "room") then Ok RoomChat
  else if bool_decide (raw = lit "public") then Ok PublicChat
  else if bool_decide (raw = lit "self") then Ok Saved
  else Err ChatInternal.

Definition role_name (r : MemberRole) : str :=
  match r with Owner => lit "owner" | Admin => lit "admin" | Member => lit "member" end.

Definition parse_role (raw : str) : result MemberRole ChatError :=
  if bool_decide (raw = lit "owner") then Ok Owner
  else if bool_decide (raw = lit "admin") then Ok Admin
  else if bool_decide (raw = lit "member") then Ok Member
  else Err ChatInternal.

Definition state_name (s : MemberState) : str :=
  match s with
  | Active => lit "active" | Invited => lit "invited" | Left => lit "left" | Kicked => lit "kicked"
  | Banned => lit "banned"
  end.

Definition parse_state (raw : str) : result MemberState ChatError :=
  if bool_decide (raw = lit "active") then Ok Active
  else if bool_decide (raw = lit "invited") then Ok Invited
  else if bool_decide (raw = lit "left") then Ok Left
  else if bool_decide (raw = lit "kicked") then Ok Kicked
  else if bool_decide (raw = lit "banned") then Ok Banned
  else Err ChatInternal.

(** A column that holds a variant reads back as it. *)
Lemma kind_named k : parse_kind (kind_name k) = Ok k. Proof. by destruct k. Qed.
Lemma role_named r : parse_role (role_name r) = Ok r. Proof. by destruct r. Qed.
Lemma state_named s : parse_state (state_name s) = Ok s. Proof. by destruct s. Qed.

Definition is_admin (r : MemberRole) : bool := match r with Owner | Admin => true | Member => false end.

Definition may_remove (actor target : MemberRole) : bool :=
  match actor with
  | Owner => negb (bool_decide (target = Owner))
  | Admin => bool_decide (target = Member)
  | Member => false
  end.

Definition may_set_ttl (k : ConversationKind) (r : MemberRole) : result unit ChatError :=
  match k with
  | Direct => Ok tt
  | Group => if is_admin r then Ok tt else Err NotMember
  | RoomChat | PublicChat | Saved => Err Invalid
  end.

Definition may_delete_for_everyone (k : ConversationKind) (r : MemberRole) : result unit ChatError :=
  match k with
  | Direct | Saved => Ok tt
  | Group => if bool_decide (r = Owner) then Ok tt else Err NotMember
  | RoomChat | PublicChat => Err Invalid
  end.

(** [state IN ('active', 'invited')] *)
Definition live (s : MemberState) : bool := match s with Active | Invited => true | _ => false end.

(** ** Settings ([GroupSettings]) *)

Record GroupSettings := { admins_only : bool; history_visible : bool; slow_mode_s : Z }.

Definition default_settings : GroupSettings := {| admins_only := false; history_visible := true; slow_mode_s := 0 |}.

(** A key of the object; serde takes the default of a missing one and fails on a value
    of another type. *)
Definition setting {A} (key : str) (read : value -> option A) (missing : A) (raw : list (str * value)) : option A :=
  match find (fun kv => bool_decide (kv.1 = key)) raw with
  | None => Some missing
  | Some kv => read kv.2
  end.

Definition as_bool (v : value) : option bool := match v with Bool b => Some b | _ => None end.
Definition as_u32 (v : value) : option Z :=
  match v with Number (PosInt n) => if n <=? u32_max then Some n else None | _ => None end.

Definition settings_of (raw : list (str * value)) : GroupSettings :=
  match setting (lit "admins_only") as_bool false raw, setting (lit "history_visible") as_bool true raw,
        setting (lit "slow_mode_s") as_u32 0 raw with
  | Some a, Some h, Some s => {| admins_only := a; history_visible := h; slow_mode_s := s |}
  | _, _, _ => default_settings
  end.

(** [settings || $2] of [jsonb] objects. *)
Definition merge_settings (patch raw : list (str * value)) : list (str * value) :=
  patch ++ List.filter (fun kv => negb (existsb (fun p => bool_decide (p.1 = kv.1)) patch)) raw.

(** [(settings ->> 'history_visible') IS DISTINCT FROM 'false'] *)
Definition sql_history_visible (raw : list (str * value)) : bool :=
  match find (fun kv => bool_decide (kv.1 = lit "history_visible")) raw with
  | Some (_, Bool false) => false
  | Some (_, VString s) => negb (bool_decide (s = lit "false"))
  | _ => true
  end.

(** ** Rows *)

Record MemberRow := {
  m_role : MemberRole;
  m_state : MemberState;
  m_accepted : bool;
  m_joined_seq : Z;
  m_joined_epoch : Z;
  m_last_read_seq : Z;
  m_muted_until : option Z;
  m_notify : str;
  m_pinned_at : option Z;
  m_archived : bool;
  m_hidden_before_seq : Z;
  m_invited_by : option str;
  m_updated_at : Z }.

Record StoredKey := { k_wrapped : bytes; k_kek_version : Z; k_created_at : Z }.

Record MessageRow := {
  g_seq : Z;
  g_client_id : Z;
  g_sender_user : str;
  g_sender_device : option Z;
  g_class : Class;
  g_epoch : Z;
  g_target_seq : option Z;
  g_body : option bytes;
  g_created_at : Z;
  g_expires_at : option Z }.

Record Invite := { i_created_by : str; i_expires_at : Z; i_uses_left : option Z; i_revoked_at : option Z }.

(** The columns that say which key is in use. *)
Record Epoch := { key_epoch : Z; epoch_messages : Z; epoch_started_at : Z; rekey : bool }.

Record Conversation := {
  c_kind : ConversationKind;
  c_dm_key : option str;
  c_created_by : str;
  c_last_seq : Z;
  c_last_at : Z;
  c_epoch : Epoch;
  c_meta_ct : option bytes;
  c_meta_epoch : option Z;
  c_settings : list (str * value);
  c_member_count : Z;
  c_ttl_s : option Z;
  c_deleted_at : option Z }.

Record Conv := {
  row : Conversation;
  members : gmap str MemberRow;
  keys : gmap Z StoredKey;
  messages : gmap Z MessageRow;
  invites : gmap bytes Invite;
  trim_queued : bool }.

Definition set_row (r : Conversation) (c : Conv) : Conv :=
  {| row := r; members := members c; keys := keys c; messages := messages c; invites := invites c;
     trim_queued := trim_queued c |}.
Definition set_members (m : gmap str MemberRow) (c : Conv) : Conv :=
  {| row := row c; members := m; keys := keys c; messages := messages c; invites := invites c;
     trim_queued := trim_queued c |}.
Definition set_keys (k : gmap Z StoredKey) (c : Conv) : Conv :=
  {| row := row c; members := members c; keys := k; messages := messages c; invites := invites c;
     trim_queued := trim_queued c |}.
Definition set_messages (g : gmap Z MessageRow) (c : Conv) : Conv :=
  {| row := row c; members := members c; keys := keys c; messages := g; invites := invites c;
     trim_queued := trim_queued c |}.
Definition set_invites (i : gmap bytes Invite) (c : Conv) : Conv :=
  {| row := row c; members := members c; keys := keys c; messages := messages c; invites := i;
     trim_queued := trim_queued c |}.

Definition with_epoch (e : Epoch) (r : Conversation) : Conversation :=
  {| c_kind := c_kind r; c_dm_key := c_dm_key r; c_created_by := c_created_by r; c_last_seq := c_last_seq r;
     c_last_at := c_last_at r; c_epoch := e; c_meta_ct := c_meta_ct r; c_meta_epoch := c_meta_epoch r;
     c_settings := c_settings r; c_member_count := c_member_count r; c_ttl_s := c_ttl_s r;
     c_deleted_at := c_deleted_at r |}.
Definition with_count (n : Z) (r : Conversation) : Conversation :=
  {| c_kind := c_kind r; c_dm_key := c_dm_key r; c_created_by := c_created_by r; c_last_seq := c_last_seq r;
     c_last_at := c_last_at r; c_epoch := c_epoch r; c_meta_ct := c_meta_ct r; c_meta_epoch := c_meta_epoch r;
     c_settings := c_settings r; c_member_count := n; c_ttl_s := c_ttl_s r; c_deleted_at := c_deleted_at r |}.
Definition with_seq (seq at_ : Z) (r : Conversation) : Conversation :=
  {| c_kind := c_kind r; c_dm_key := c_dm_key r; c_created_by := c_created_by r; c_last_seq := seq;
     c_last_at := at_; c_epoch := c_epoch r; c_meta_ct := c_meta_ct r; c_meta_epoch := c_meta_epoch r;
     c_settings := c_settings r; c_member_count := c_member_count r; c_ttl_s := c_ttl_s r;
     c_deleted_at := c_deleted_at r |}.
Definition with_meta (ct : bytes) (epoch : Z) (r : Conversation) : Conversation :=
  {| c_kind := c_kind r; c_dm_key := c_dm_key r; c_created_by := c_created_by r; c_last_seq := c_last_seq r;
     c_last_at := c_last_at r; c_epoch := c_epoch r; c_meta_ct := Some ct; c_meta_epoch := Some epoch;
     c_settings := c_settings r; c_member_count := c_member_count r; c_ttl_s := c_ttl_s r;
     c_deleted_at := c_deleted_at r |}.
Definition with_settings (s : list (str * value)) (r : Conversation) : Conversation :=
  {| c_kind := c_kind r; c_dm_key := c_dm_key r; c_created_by := c_created_by r; c_last_seq := c_last_seq r;
     c_last_at := c_last_at r; c_epoch := c_epoch r; c_meta_ct := c_meta_ct r; c_meta_epoch := c_meta_epoch r;
     c_settings := s; c_member_count := c_member_count r; c_ttl_s := c_ttl_s r; c_deleted_at := c_deleted_at r |}.
Definition with_ttl (t : option Z) (r : Conversation) : Conversation :=
  {| c_kind := c_kind r; c_dm_key := c_dm_key r; c_created_by := c_created_by r; c_last_seq := c_last_seq r;
     c_last_at := c_last_at r; c_epoch := c_epoch r; c_meta_ct := c_meta_ct r; c_meta_epoch := c_meta_epoch r;
     c_settings := c_settings r; c_member_count := c_member_count r; c_ttl_s := t; c_deleted_at := c_deleted_at r |}.
Definition with_deleted (t : Z) (r : Conversation) : Conversation :=
  {| c_kind := c_kind r; c_dm_key := None; c_created_by := c_created_by r; c_last_seq := c_last_seq r;
     c_last_at := c_last_at r; c_epoch := c_epoch r; c_meta_ct := c_meta_ct r; c_meta_epoch := c_meta_epoch r;
     c_settings := c_settings r; c_member_count := c_member_count r; c_ttl_s := c_ttl_s r; c_deleted_at := Some t |}.

Definition m_with (role : MemberRole) (state : MemberState) (accepted : bool) (now : Z) (m : MemberRow) : MemberRow :=
  {| m_role := role; m_state := state; m_accepted := accepted; m_joined_seq := m_joined_seq m;
     m_joined_epoch := m_joined_epoch m; m_last_read_seq := m_last_read_seq m; m_muted_until := m_muted_until m;
     m_notify := m_notify m; m_pinned_at := m_pinned_at m; m_archived := m_archived m;
     m_hidden_before_seq := m_hidden_before_seq m; m_invited_by := m_invited_by m; m_updated_at := now |}.

Definition is_deleted (c : Conv) : bool := is_some (c_deleted_at (row c)).

(** ** Transactions

    The body of a transaction ends early with an answer for the caller and is then rolled
    back, as when a statement fails: the database answers an error and the caller sees
    [Internal].  The first statement of each locks the conversation's row until it ends,
    so a transaction is one step. *)
Abbreviation Tx S R := (ST S (result R ChatError)).
Abbreviation TX R := (Tx Conv R).

Definition bail {S R A} (e : ChatError) : Tx S R A := throw (Err e).
Definition rolled_back {S R A} (r : R) : Tx S R A := throw (Ok r).
Definition db_error {S R A} : Tx S R A := bail ChatInternal.

Definition sql {S R A} (f : S -> A * S) : Tx S R A := fun c => let '(a, c') := f c in (Ok a, c').

Definition transaction {S R} (body : Tx S R R) (c : S) : result R ChatError * S :=
  match body c with
  | (Ok r, c') => (Ok r, c')
  | (Err r, _) => (r, c)
  end.

(** ** Statements on members ([queries/chat/members]) *)

Fixpoint str_le (a b : str) : bool :=
  match a, b with
  | [], _ => true
  | _ :: _, [] => false
  | x :: a', y :: b' => (x <? y) || ((x =? y) && str_le a' b')
  end.

Definition member_count_where (p : MemberState -> bool) (c : Conv) : Z :=
  Z.of_nat (size (filter (fun x : str * MemberRow => p (m_state x.2) = true) (members c))).

Definition is_active (s : MemberState) : bool := bool_decide (s = Active).

(** [live_total.sql], [state_of.sql], [membership.sql] *)
Definition live_total (c : Conv) : Z := member_count_where live c.
Definition state_of (user : str) (c : Conv) : option (MemberRole * MemberState) :=
  m ← members c !! user; Some (m_role m, m_state m).

(** [recount.sql] of the conversations: the active members.  [recount.sql] of the
    invitations: the live ones. *)
Definition recount (c : Conv) : Z * Conv :=
  let n := member_count_where is_active c in (n, set_row (with_count n (row c)) c).
Definition invites_recount (c : Conv) : Conv := set_row (with_count (member_count_where live c) (row c)) c.

(** [set_state.sql]: the role of the row it changed. *)
Definition set_state (now : Z) (user : str) (s : MemberState) (from : list MemberState) (c : Conv)
  : option MemberRole * Conv :=
  match members c !! user with
  | Some m =>
      if bool_decide (m_state m ∈ from)
      then (Some (m_role m), set_members (<[user := m_with (m_role m) s (m_accepted m) now m]> (members c)) c)
      else (None, c)
  | None => (None, c)
  end.

(** [accept.sql] *)
Definition activate (now : Z) (user : str) (from : list MemberState) (c : Conv) : bool * Conv :=
  match members c !! user with
  | Some m =>
      if bool_decide (m_state m ∈ from)
      then (true, set_members (<[user := m_with (m_role m) Active true now m]> (members c)) c)
      else (false, c)
  | None => (false, c)
  end.

(** [set_role.sql], [step_down.sql] *)
Definition set_role_sql (now : Z) (user : str) (role : MemberRole) (c : Conv) : bool * Conv :=
  match members c !! user with
  | Some m =>
      if is_active (m_state m)
      then (true, set_members (<[user := m_with role (m_state m) (m_accepted m) now m]> (members c)) c)
      else (false, c)
  | None => (false, c)
  end.

Definition step_down (now : Z) (owner : str) (c : Conv) : bool * Conv :=
  match members c !! owner with
  | Some m =>
      if bool_decide (m_role m = Owner) && is_active (m_state m)
      then (true, set_members (<[owner := m_with Admin (m_state m) (m_accepted m) now m]> (members c)) c)
      else (false, c)
  | None => (false, c)
  end.

(** [successor.sql] *)
Definition heir_le (a b : str * MemberRow) : bool :=
  let admin x := bool_decide (m_role x.2 = Admin) in
  match bool_cmp (admin b) (admin a) with
  | Lt => true
  | Gt => false
  | Eq => (m_joined_seq a.2 <? m_joined_seq b.2)
          || ((m_joined_seq a.2 =? m_joined_seq b.2) && str_le a.1 b.1)
  end.

Definition successor (leaving : str) (c : Conv) : option str :=
  fst <$> head (sort_by heir_le
    (List.filter (fun x => is_active (m_state x.2) && negb (bool_decide (x.1 = leaving))) (map_to_list (members c)))).

(** [mark_accepted.sql], [hide.sql], [prefs.sql] *)
Definition mark_accepted (now : Z) (user : str) (c : Conv) : Conv :=
  match members c !! user with
  | Some m =>
      if is_active (m_state m) && negb (m_accepted m)
      then set_members (<[user := m_with (m_role m) (m_state m) true now m]> (members c)) c
      else c
  | None => c
  end.

Definition hide_sql (now : Z) (user : str) (c : Conv) : option Z * Conv :=
  match members c !! user with
  | Some m =>
      if live (m_state m)
      then let floor := c_last_seq (row c) in
           (Some floor,
            set_members (<[user := {|
              m_role := m_role m; m_state := m_state m; m_accepted := m_accepted m; m_joined_seq := m_joined_seq m;
              m_joined_epoch := m_joined_epoch m; m_last_read_seq := m_last_read_seq m;
              m_muted_until := m_muted_until m; m_notify := m_notify m; m_pinned_at := m_pinned_at m;
              m_archived := m_archived m; m_hidden_before_seq := floor; m_invited_by := m_invited_by m;
              m_updated_at := now |}]> (members c)) c)
      else (None, c)
  | None => (None, c)
  end.

Definition prefs_sql (now : Z) (user : str) (set_mute : bool) (muted_until : option Z) (notify : option str)
    (pinned archived : option bool) (c : Conv) : bool * Conv :=
  match members c !! user with
  | Some m =>
      if live (m_state m)
      then (true,
            set_members (<[user := {|
              m_role := m_role m; m_state := m_state m; m_accepted := m_accepted m; m_joined_seq := m_joined_seq m;
              m_joined_epoch := m_joined_epoch m; m_last_read_seq := m_last_read_seq m;
              m_muted_until := (if set_mute then muted_until else m_muted_until m);
              m_notify := default (m_notify m) notify;
              m_pinned_at := match pinned with
                             | None => m_pinned_at m
                             | Some true => Some (default now (m_pinned_at m))
                             | Some false => None
                             end;
              m_archived := default (m_archived m) archived; m_hidden_before_seq := m_hidden_before_seq m;
              m_invited_by := m_invited_by m; m_updated_at := now |}]> (members c)) c)
      else (false, c)
  | None => (false, c)
  end.

(** [join_many.sql]: a new row, or a row of somebody who left or was kicked. *)
Record Joining := { j_user_id : str; j_role : MemberRole; j_state : MemberState; j_accepted : bool }.

Definition joined_row (now joined_seq joined_epoch : Z) (invited_by : str) (j : Joining) (old : option MemberRow)
  : MemberRow :=
  {| m_role := j_role j; m_state := j_state j; m_accepted := j_accepted j; m_joined_seq := joined_seq;
     m_joined_epoch := joined_epoch; m_last_read_seq := from_option m_last_read_seq 0 old;
     m_muted_until := old ≫= m_muted_until; m_notify := from_option m_notify (lit "all") old;
     m_pinned_at := old ≫= m_pinned_at; m_archived := from_option m_archived false old;
     m_hidden_before_seq := from_option m_hidden_before_seq 0 old;
     m_invited_by := (if bool_decide (invited_by = j_user_id j) then None else Some invited_by);
     m_updated_at := now |}.

Definition may_join (from : list MemberState) (old : option MemberRow) : bool :=
  match old with None => true | Some m => bool_decide (m_state m ∈ from) end.

Definition join_one (now joined_seq joined_epoch : Z) (invited_by : str) (j : Joining) (c : Conv)
  : list (str * MemberState) * Conv :=
  let old := members c !! j_user_id j in
  if may_join [Left; Kicked] old
  then ([(j_user_id j, j_state j)],
        set_members (<[j_user_id j := joined_row now joined_seq joined_epoch invited_by j old]> (members c)) c)
  else ([], c).

Fixpoint join_all (now joined_seq joined_epoch : Z) (invited_by : str) (js : list Joining) (c : Conv)
  : list (str * MemberState) * Conv :=
  match js with
  | [] => ([], c)
  | j :: js' =>
      let '(l, c1) := join_one now joined_seq joined_epoch invited_by j c in
      let '(l', c2) := join_all now joined_seq joined_epoch invited_by js' c1 in
      (l ++ l', c2)
  end.

(** One statement cannot touch a row twice. *)
Definition join_many {R} (now joined_seq joined_epoch : Z) (invited_by : str) (js : list Joining)
  : TX R (list (str * MemberState)) :=
  if bool_decide (NoDup (j_user_id <$> js))
  then sql (join_all now joined_seq joined_epoch invited_by js)
  else db_error.

(** ** Statements on the conversation ([queries/chat/conversations], [queries/chat/keys]) *)

Record Locked := { l_last_seq : Z; l_key_epoch : Z; l_settings : GroupSettings; l_member_count : Z }.

(** [lock.sql], and [lock_group.sql] of the invitations, which wants a group. *)
Definition lock (c : Conv) : option Locked :=
  if is_deleted c then None
  else Some {| l_last_seq := c_last_seq (row c); l_key_epoch := key_epoch (c_epoch (row c));
               l_settings := settings_of (c_settings (row c)); l_member_count := c_member_count (row c) |}.
Definition lock_group (c : Conv) : option Locked :=
  if bool_decide (c_kind (row c) = Group) then lock c else None.

(** [mark_rekey.sql], and [rekey_user.sql] for a conversation of the user, on the row the
    statement reads. *)
Definition mark_rekey (c : Conv) : Conv :=
  if is_deleted c then c
  else let e := c_epoch (row c) in
       set_row (with_epoch {| key_epoch := key_epoch e; epoch_messages := epoch_messages e;
                              epoch_started_at := epoch_started_at e; rekey := true |} (row c)) c.
Definition rekey_user (user : str) (c : Conv) : Conv :=
  match members c !! user with
  | Some m => if live (m_state m) && negb (rekey (c_epoch (row c))) then mark_rekey c else c
  | None => c
  end.

Definition EPOCH_MESSAGES_MAX : Z := 10000.
Definition EPOCH_DAYS_MAX : Z := 30.
Definition PUBLIC_EPOCH_DAYS_MAX : Z := 7.
Definition i32_max : Z := 2147483647.
Definition DAY_US : Z := 86400 * 1000000.

Record Limits := { lim_messages : Z; lim_days : Z }.

Definition epoch_limits (k : ConversationKind) : Limits :=
  match k with
  | PublicChat => {| lim_messages := i32_max; lim_days := PUBLIC_EPOCH_DAYS_MAX |}
  | _ => {| lim_messages := EPOCH_MESSAGES_MAX; lim_days := EPOCH_DAYS_MAX |}
  end.

(** The epoch [next], begun at [now]. *)
Definition begun (next now : Z) : Epoch :=
  {| key_epoch := next; epoch_messages := 0; epoch_started_at := now; rekey := false |}.

(** [rotate_epoch.sql]; an [integer] does not go past its maximum. *)
Definition rotate_epoch {R} (now epoch : Z) (lim : Limits) : TX R (option Z) := fun c =>
  let e := c_epoch (row c) in
  if bool_decide (key_epoch e = epoch) && negb (is_deleted c)
     && (rekey e || (lim_messages lim <=? epoch_messages e) || (epoch_started_at e <=? now - lim_days lim * DAY_US))
  then if key_epoch e =? i32_max then (Err (Err ChatInternal), c)
       else (Ok (Some (key_epoch e + 1)), set_row (with_epoch (begun (key_epoch e + 1) now) (row c)) c)
  else (Ok None, c).

(** [keys/insert.sql], [keys/advance.sql] *)
Definition insert_key (epoch : Z) (k : StoredKey) (c : Conv) : Conv :=
  match keys c !! epoch with Some _ => c | None => set_keys (<[epoch := k]> (keys c)) c end.
Definition advance_key (now epoch : Z) (c : Conv) : Conv := set_row (with_epoch (begun epoch now) (row c)) c.

(** [keys/list.sql], [keys/by_epoch.sql]: the keys from an epoch on, oldest first. *)
Definition epoch_le (a b : Z * StoredKey) : bool := a.1 <=? b.1.
Definition list_keys (floor : Z) (limit : nat) (c : Conv) : list (Z * StoredKey) :=
  take limit (sort_by epoch_le (List.filter (fun x => floor <=? x.1) (map_to_list (keys c)))).
Definition key_by_epoch (epoch : Z) (c : Conv) : option (Z * StoredKey) := k ← keys c !! epoch; Some (epoch, k).

(** [first_epoch_after.sql]: the first key stored after a time, the current epoch when
    there is none. *)
Definition first_epoch_after (t : Z) (c : Conv) : Z :=
  match sort_by epoch_le (List.filter (fun x => t <? k_created_at x.2) (map_to_list (keys c))) with
  | x :: _ => x.1
  | [] => key_epoch (c_epoch (row c))
  end.

(** [delete.sql] and [shred_keys.sql], as [shred] runs them. *)
Definition shred (now : Z) (c : Conv) : bool * Conv :=
  if is_deleted c then (false, c) else (true, set_keys ∅ (set_row (with_deleted now (row c)) c)).

(** [set_ttl.sql], [merge_settings.sql], [set_meta.sql], [queue_trim.sql] *)
Definition set_ttl_sql (ttl : option Z) (c : Conv) : bool * Conv :=
  if is_deleted c || bool_decide (c_ttl_s (row c) = ttl) then (false, c) else (true, set_row (with_ttl ttl (row c)) c).
Definition merge_settings_sql (patch : list (str * value)) (c : Conv) : bool * Conv :=
  if is_deleted c then (false, c) else (true, set_row (with_settings (merge_settings patch (c_settings (row c))) (row c)) c).
Definition set_meta_sql (ct : bytes) (epoch : Z) (c : Conv) : bool * Conv :=
  if is_deleted c then (false, c) else (true, set_row (with_meta ct epoch (row c)) c).
Definition queue_trim (c : Conv) : Conv :=
  {| row := row c; members := members c; keys := keys c; messages := messages c; invites := invites c;
     trim_queued := true |}.

(** ** Statements on messages ([queries/chat/messages]) *)

Record Advanced := { a_last_seq : Z; a_ttl_s : option Z; a_key_epoch : Z; a_at : Z }.

Definition advanced (now : Z) (r : Conversation) : Advanced :=
  {| a_last_seq := c_last_seq r; a_ttl_s := c_ttl_s r; a_key_epoch := key_epoch (c_epoch r); a_at := now |}.

(** [advance.sql]: the conversation takes a message of its current epoch. *)
Definition takes_messages (now epoch : Z) (lim : Limits) (c : Conv) : bool :=
  let e := c_epoch (row c) in
  negb (is_deleted c) && bool_decide (key_epoch e = epoch) && negb (rekey e)
  && (epoch_messages e <? lim_messages lim) && (now - lim_days lim * DAY_US <? epoch_started_at e).

Definition advance {R} (now epoch : Z) (class : Class) (body : bytes) (lim : Limits) : TX R (option Advanced) := fun c =>
  if takes_messages now epoch lim c
  then if c_last_seq (row c) =? i64_max then (Err (Err ChatInternal), c)
       else
         let e := c_epoch (row c) in
         let r1 := with_epoch {| key_epoch := key_epoch e; epoch_messages := epoch_messages e + 1;
                                 epoch_started_at := epoch_started_at e; rekey := rekey e |}
                     (with_seq (c_last_seq (row c) + 1) now (row c)) in
         let r2 := if bool_decide (class = Meta) then with_meta body epoch r1 else r1 in
         (Ok (Some (advanced now r2)), set_row r2 c)
  else (Ok None, c).

(** [advance_system.sql] *)
Definition advance_system {R} (now : Z) : TX R (option Advanced) := fun c =>
  if is_deleted c then (Ok None, c)
  else if c_last_seq (row c) =? i64_max then (Err (Err ChatInternal), c)
  else let r := with_seq (c_last_seq (row c) + 1) now (row c) in (Ok (Some (advanced now r)), set_row r c).

(** [by_client.sql] *)
Definition by_client (client_id : Z) (c : Conv) : option MessageRow :=
  snd <$> List.find (fun x => g_client_id x.2 =? client_id) (map_to_list (messages c)).

(** [insert.sql]: nothing when the client's id is taken; the primary key refuses a
    sequence number that is. *)
Definition insert_message {R} (g : MessageRow) : TX R bool := fun c =>
  if is_some (by_client (g_client_id g) c) then (Ok false, c)
  else match messages c !! g_seq g with
       | Some _ => (Err (Err ChatInternal), c)
       | None => (Ok true, set_messages (<[g_seq g := g]> (messages c)) c)
       end.

(** [target.sql] *)
Record Target := {
  t_sender_user : str; t_class : Class; t_created_at : Z; t_expires_at : option Z; t_deleted : bool }.

Definition target_sql (seq : Z) (c : Conv) : option Target :=
  g ← messages c !! seq;
  Some {| t_sender_user := g_sender_user g; t_class := g_class g; t_created_at := g_created_at g;
          t_expires_at := g_expires_at g; t_deleted := negb (is_some (g_body g)) |}.

(** [posts_by.sql] *)
Definition posts_by (user : str) (except : Z) (c : Conv) : Z :=
  Z.of_nat (length (List.filter
    (fun x => bool_decide (g_sender_user x.2 = user) && bool_decide (g_class x.2 = Post) && negb (g_client_id x.2 =? except))
    (map_to_list (messages c)))).

(** [redact.sql] *)
Definition redacts (seq : Z) (g : MessageRow) : bool :=
  (seq <=? g_seq g)
  && ((g_seq g =? seq) || (bool_decide (g_target_seq g = Some seq) && bool_decide (g_class g = Edit)))
  && is_some (g_body g).

Definition redacted_row (g : MessageRow) : MessageRow :=
  {| g_seq := g_seq g; g_client_id := g_client_id g; g_sender_user := g_sender_user g;
     g_sender_device := g_sender_device g; g_class := g_class g; g_epoch := g_epoch g; g_target_seq := g_target_seq g;
     g_body := None; g_created_at := g_created_at g; g_expires_at := g_expires_at g |}.

Definition redact_sql (seq : Z) (c : Conv) : list MessageRow * Conv :=
  (redacted_row <$> (snd <$> List.filter (fun x => redacts seq x.2) (map_to_list (messages c))),
   set_messages ((fun g => if redacts seq g then redacted_row g else g) <$> messages c) c).

(** [after.sql], [before.sql]: what has not expired, from one side. *)
Definition unexpired (now : Z) (g : MessageRow) : bool := match g_expires_at g with None => true | Some t => now <? t end.

Definition seq_le (a b : MessageRow) : bool := g_seq a <=? g_seq b.
Definition seq_ge (a b : MessageRow) : bool := g_seq b <=? g_seq a.

Definition rows_of (c : Conv) : list MessageRow := snd <$> map_to_list (messages c).

Definition after_sql (now after_ : Z) (limit : nat) (c : Conv) : list MessageRow :=
  take limit (sort_by seq_le (List.filter (fun g => (after_ <? g_seq g) && unexpired now g) (rows_of c))).
Definition before_sql (now before floor : Z) (limit : nat) (c : Conv) : list MessageRow :=
  take limit (sort_by seq_ge (List.filter (fun g => (g_seq g <? before) && (floor <? g_seq g) && unexpired now g) (rows_of c))).

(** ** Statements on invitations ([queries/chat/invites]) *)

(** [insert.sql], with the hash of a new secret: [NULLIF($5, 0)]. *)
Definition insert_invite {R} (hash : bytes) (user : str) (expires_at uses : Z) : TX R unit := fun c =>
  match invites c !! hash with
  | Some _ => (Err (Err ChatInternal), c)
  | None =>
      (Ok tt, set_invites (<[hash := {| i_created_by := user; i_expires_at := expires_at;
                                        i_uses_left := (if uses =? 0 then None else Some uses);
                                        i_revoked_at := None |}]> (invites c)) c)
  end.

Definition invite_open (now : Z) (i : Invite) : bool := negb (is_some (i_revoked_at i)) && (now <? i_expires_at i).

(** [find.sql]: the maker must still run the group. *)
Definition find_invite (now : Z) (hash : bytes) (c : Conv) : option Invite :=
  i ← invites c !! hash;
  m ← members c !! i_created_by i;
  if invite_open now i && bool_decide (c_kind (row c) = Group) && negb (is_deleted c)
     && is_active (m_state m) && is_admin (m_role m)
  then Some i else None.

(** [consume.sql] *)
Definition used_once (i : Invite) : Invite :=
  {| i_created_by := i_created_by i; i_expires_at := i_expires_at i; i_uses_left := Z.pred <$> i_uses_left i;
     i_revoked_at := i_revoked_at i |}.

Definition consume (now : Z) (hash : bytes) (c : Conv) : option Invite * Conv :=
  match invites c !! hash with
  | Some i =>
      if invite_open now i && match i_uses_left i with None => true | Some n => 0 <? n end
      then (Some i, set_invites (<[hash := used_once i]> (invites c)) c)
      else (None, c)
  | None => (None, c)
  end.

(** [add_member.sql] *)
Definition add_member (now : Z) (user : str) (joined_seq joined_epoch : Z) (invited_by : str) (c : Conv) : bool * Conv :=
  let old := members c !! user in
  if may_join [Left; Kicked; Invited] old
  then let r := joined_row now joined_seq joined_epoch invited_by
                  {| j_user_id := user; j_role := Member; j_state := Active; j_accepted := true |} old in
       (true, set_members (<[user := {|
          m_role := m_role r; m_state := m_state r; m_accepted := m_accepted r; m_joined_seq := m_joined_seq r;
          m_joined_epoch := m_joined_epoch r; m_last_read_seq := m_last_read_seq r; m_muted_until := m_muted_until r;
          m_notify := m_notify r; m_pinned_at := m_pinned_at r; m_archived := m_archived r;
          m_hidden_before_seq := m_hidden_before_seq r; m_invited_by := Some invited_by; m_updated_at := now |}]> (members c)) c)
  else (false, c).

(** [revoke.sql] *)
Definition revoke_sql (now : Z) (hash : bytes) (user : str) (c : Conv) : bool * Conv :=
  match invites c !! hash with
  | Some i =>
      let runs := match members c !! user with
                  | Some m => is_active (m_state m) && is_admin (m_role m)
                  | None => false
                  end in
      if negb (is_some (i_revoked_at i)) && (bool_decide (i_created_by i = user) || runs)
      then (true, set_invites (<[hash := {| i_created_by := i_created_by i; i_expires_at := i_expires_at i;
                                            i_uses_left := i_uses_left i; i_revoked_at := Some now |}]> (invites c)) c)
      else (false, c)
  | None => (false, c)
  end.

(** ** The sweeps ([queries/chat/sweeps]) *)

(** [expired_delete.sql] for the messages [seqs] it picked. *)
Definition expire_sql (now : Z) (seqs : list Z) (c : Conv) : Conv :=
  set_messages (filter (fun x : Z * MessageRow => negb (bool_decide (x.1 ∈ seqs) && negb (unexpired now x.2)) = true)
                  (messages c)) c.

(** [flush_read_marks.sql]: a mark only grows. *)
Definition flush_mark (user : str) (seq : Z) (c : Conv) : Conv :=
  match members c !! user with
  | Some m =>
      if m_last_read_seq m <? seq
      then set_members (<[user := {|
             m_role := m_role m; m_state := m_state m; m_accepted := m_accepted m; m_joined_seq := m_joined_seq m;
             m_joined_epoch := m_joined_epoch m; m_last_read_seq := seq; m_muted_until := m_muted_until m;
             m_notify := m_notify m; m_pinned_at := m_pinned_at m; m_archived := m_archived m;
             m_hidden_before_seq := m_hidden_before_seq m; m_invited_by := m_invited_by m;
             m_updated_at := m_updated_at m |}]> (members c)) c
      else c
  | None => c
  end.

(** [purge_invites.sql], [purge_keys.sql], [purge_members.sql] and [purge_messages.sql],
    all for a deleted conversation. *)
Definition purge_invites (c : Conv) : Conv := if is_deleted c then set_invites ∅ c else c.
Definition purge_keys (c : Conv) : Conv := if is_deleted c then set_keys ∅ c else c.
Definition purge_members (c : Conv) : Conv := if is_deleted c then set_members ∅ c else c.
Definition purge_messages (seqs : list Z) (c : Conv) : Conv :=
  if is_deleted c then set_messages (filter (fun x : Z * MessageRow => x.1 ∉ seqs) (messages c)) c else c.
