(* ===== verification/ChatOps.v ===== *)
(** * ChatOps: what members do in a conversation

    Source: [api/src/modules/chat]: [members/access.rs], [members/changes.rs],
    [members/store.rs], [invites.rs], [conversations/] ([patch.rs], [remove.rs], [ttl.rs],
    [keys.rs]), [messages/] ([rules.rs], [store.rs], [system.rs], [redact.rs]),
    [keys/rotate.rs] and [epochs.rs], over the statements of [ChatTables].  An operation
    takes the [Access] the handler loaded earlier, which may be out of date when its
    transaction runs.  The JSON of a system event is a parameter; what a transaction draws
    (ids, the new key under its wrapping) and the outcome of the media tables, which can
    only make it fail, come with [Env]. *)

From Stdlib Require Import ZArith Lia String.
From stdpp Require Import base list numbers option tactics sets gmap fin_maps.
From S2P Require Import Prelude Text AppError SealedGate ChatTables.
Local Open Scope Z_scope.

(** ** Keys of direct conversations ([conversations/keys.rs]) *)

Definition SEPARATOR : char := 47.
Definition ID_DIGITS_MAX : Z := 20.
Definition USER_PREFIX : str := lit "lt:".

Definition dm_key (user other : str) : str :=
  let '(low, high) := if str_le user other then (user, other) else (other, user) in low ++ [SEPARATOR] ++ high.

Definition saved_key (user : str) : str := lit "self" ++ [SEPARATOR] ++ user.

Definition peer_of (key user : str) : option str :=
  '(low, high) ← split_once SEPARATOR key;
  if bool_decide (low = lit "self") then None
  else match bool_decide (low = user), bool_decide (high = user) with
       | true, false => Some high
       | false, true => Some low
       | _, _ => None
       end.

Definition valid_user_id (id : str) (synthetic_allowed : bool) : bool :=
  let ok digits := negb (bool_decide (digits = [])) && (str_len digits <=? ID_DIGITS_MAX) && forallb is_ascii_digit digits in
  match strip_prefix USER_PREFIX id with
  | Some rest => if synthetic_allowed then ok rest else false
  | None => ok id
  end.

(** ** Access ([members/access.rs]) *)

Record Access := {
  a_user_id : str;
  a_kind : ConversationKind;
  a_peer : option str;
  a_last : Z;
  a_settings : GroupSettings;
  a_role : MemberRole;
  a_state : MemberState;
  a_accepted : bool;
  a_joined_seq : Z;
  a_hidden_before_seq : Z;
  a_peer_state : option MemberState;
  a_recipients : list str;
  a_public_room : bool }.

Definition recipients_sql (c : Conv) : list str :=
  sort_by str_le (fst <$> List.filter (fun x => live (m_state x.2)) (map_to_list (members c))).

(** [access::load] with [access.sql]. *)
Definition load (user : str) (c : Conv) : result Access ChatError :=
  match (if is_deleted c then None else members c !! user) with
  | None => Err NotMember
  | Some m =>
      let r := row c in
      Ok {| a_user_id := user; a_kind := c_kind r;
            a_peer := match c_kind r with Direct => c_dm_key r ≫= fun key => peer_of key user | _ => None end;
            a_last := c_last_seq r; a_settings := settings_of (c_settings r);
            a_role := m_role m; a_state := m_state m; a_accepted := m_accepted m; a_joined_seq := m_joined_seq m;
            a_hidden_before_seq := m_hidden_before_seq m;
            a_peer_state := (if bool_decide (c_kind r = Direct)
                             then (m_state ∘ snd) <$> List.find (fun x => negb (bool_decide (x.1 = user))) (map_to_list (members c))
                             else None);
            a_recipients := (if bool_decide (c_kind r = PublicChat) then [] else recipients_sql c);
            a_public_room := false |}
  end.

Definition a_is_admin (a : Access) : bool := is_admin (a_role a).
Definition is_group (a : Access) : bool := bool_decide (a_kind a = Group).
Definition is_room (a : Access) : bool := bool_decide (a_kind a = RoomChat).
Definition is_public (a : Access) : bool := bool_decide (a_kind a = PublicChat).

Definition active (a : Access) : result Access ChatError :=
  match a_state a with Active => Ok a | _ => Err NotMember end.
Definition readable (a : Access) : result Access ChatError :=
  match a_state a with Active | Invited => Ok a | _ => Err NotMember end.
Definition admin (a : Access) : result Access ChatError :=
  if is_group a && a_is_admin a then Ok a else Err NotMember.
Definition moderates (a : Access) : bool := (is_group a || is_room a || is_public a) && a_is_admin a.

Definition history_floor (a : Access) : Z :=
  let from_join := is_room a || (is_group a && negb (history_visible (a_settings a))) in
  Z.max (if from_join then a_joined_seq a else 0) (a_hidden_before_seq a).

Definition recipients_with (a : Access) (extra : str) : list str :=
  if existsb (fun u => bool_decide (u = extra)) (a_recipients a) then a_recipients a else a_recipients a ++ [extra].

(** ** System messages ([messages/system.rs]) *)

Inductive SystemEvent :=
| Created (actor : str)
| Added (actor : str) (targets : list str)
| Joined (actor : str)
| LeftE (actor : str)
| KickedE (actor target : str)
| BannedE (actor target : str)
| RoleE (actor target : str) (role : MemberRole)
| Renamed (actor : str)
| Ttl (actor : str) (ttl_s : option Z)
| DeletedE (actor : str).

Definition event_actor (e : SystemEvent) : str :=
  match e with
  | Created a | Added a _ | Joined a | LeftE a | KickedE a _ | BannedE a _ | RoleE a _ _ | Renamed a | Ttl a _
  | DeletedE a => a
  end.

(** What a transaction is given: the time it began, the time of its clock, two new ids and
    the outcome of the media tables. *)
Record Env := { e_now : Z; e_clock : Z; e_id : Z; e_id' : Z; e_media : result unit ChatError }.

(** ** Messages to be ([messages/rules.rs]) *)

Definition BODY_MAX : Z := 48 * 1024.
Definition META_MAX : Z := 8 * 1024.
Definition PINGS_MAX : Z := 5.
Definition ALBUM_MAX : Z := 10.
Definition META_MEDIA_MAX : Z := 2.
Definition EDIT_WINDOW_HOURS : Z := 48.
Definition HOUR_US : Z := 3600 * 1000000.

Record SendMessage := {
  s_client_id : Z; s_class : str; s_epoch : Z; s_target_seq : option Z; s_body : bytes; s_media : list Z; s_pings : list str }.

Record Outgoing := {
  o_client_id : Z; o_class : Class; o_epoch : Z; o_target_seq : option Z; o_body : bytes; o_media : list Z; o_pings : list str }.

Definition needs_target (k : Class) : bool := match k with Edit | React | Pin => true | _ => false end.

(** [BTreeSet]: sorted, each once. *)
Fixpoint dedup (l : list str) : list str :=
  match l with
  | x :: ((y :: _) as l') => if bool_decide (x = y) then dedup l' else x :: dedup l'
  | _ => l
  end.
Definition btree_set (l : list str) : list str := dedup (sort_by str_le l).

Definition admit_pings (k : Class) (pings : list str) : result (list str) ChatError :=
  if negb (bool_decide (k = Post)) then Ok []
  else let unique := btree_set pings in if PINGS_MAX <? Z.of_nat (length unique) then Err Invalid else Ok unique.

Definition admit_media (k : Class) (media : list Z) : result unit ChatError :=
  let max := match k with Post => ALBUM_MAX | Meta => META_MEDIA_MAX | _ => 0 end in
  if (max <? Z.of_nat (length media)) || negb (bool_decide (NoDup media)) then Err Invalid else Ok tt.

Definition outgoing (parse_class : str -> option Class) (input : SendMessage) : result Outgoing ChatError :=
  match parse_class (s_class input) with
  | None => Err Invalid
  | Some k =>
      let cap := if bool_decide (k = Meta) then META_MAX else BODY_MAX in
      if bool_decide (k = System) || bool_decide (s_body input = []) || (cap <? Z.of_nat (length (s_body input))) then Err Invalid
      else if (s_epoch input <? 0) || match s_target_seq input with Some seq => seq <? 1 | None => false end then Err Invalid
      else if negb (Bool.eqb (needs_target k) (is_some (s_target_seq input))) then Err Invalid
      else match admit_media k (s_media input) with
           | Err e => Err e
           | Ok _ =>
               match admit_pings k (s_pings input) with
               | Err e => Err e
               | Ok pings =>
                   Ok {| o_client_id := s_client_id input; o_class := k; o_epoch := s_epoch input;
                         o_target_seq := s_target_seq input; o_body := s_body input; o_media := s_media input;
                         o_pings := pings |}
               end
           end
  end.

Definition may_post (a : Access) (k : Class) : result unit ChatError :=
  if negb (bool_decide (a_state a = Active)) then Err NotMember
  else match k with
       | Meta | Pin => if (is_group a || is_room a || is_public a) && negb (a_is_admin a) then Err NotMember else Ok tt
       | Post => if admins_only (a_settings a) && is_group a && negb (a_is_admin a) then Err NotMember else Ok tt
       | System => Err Invalid
       | _ => Ok tt
       end.

Definition inherited_expiry (k : Class) (user : str) (target : option Target) (now : Z)
  : result (option Z) ChatError :=
  if negb (needs_target k) then Ok None
  else match target with
       | None => Err ChatNotFound
       | Some t =>
           if negb (bool_decide (t_class t = Post)) then Err Invalid
           else if t_deleted t || match t_expires_at t with Some x => x <=? now | None => false end then Err ChatNotFound
           else if bool_decide (k = Edit) && negb (bool_decide (t_sender_user t = user)) then Err NotMember
           else if bool_decide (k = Edit) && (t_created_at t + EDIT_WINDOW_HOURS * HOUR_US <? now) then Err Invalid
           else Ok (t_expires_at t)
       end.

Definition expiry (k : Class) (ttl_s : option Z) (inherited : option Z) (at_ : Z) : option Z :=
  match k with
  | Post => (fun s => at_ + s * 1000000) <$> ttl_s
  | Edit | React | Pin => inherited
  | Meta | System => None
  end.

(** [store::visible_target], [store::existing] *)
Definition visible_target (a : Access) (seq : option Z) (c : Conv) : option Target :=
  match seq with
  | Some s => if history_floor a <? s then target_sql s c else None
  | None => None
  end.

Definition existing (client_id : Z) (user : str) (c : Conv) : result (option MessageRow) ChatError :=
  match by_client client_id c with
  | Some g => if bool_decide (g_sender_user g = user) then Ok (Some g) else Err Invalid
  | None => Ok None
  end.

(** ** Changes *)

Record Change := {
  ch_rows : list MessageRow; ch_recipients : list str; ch_added : list str; ch_deleted : bool; ch_requests : list str }.

Definition change_to (recipients : list str) : Change :=
  {| ch_rows := []; ch_recipients := recipients; ch_added := []; ch_deleted := false; ch_requests := [] |}.
Definition with_rows (rows : list MessageRow) (ch : Change) : Change :=
  {| ch_rows := ch_rows ch ++ rows; ch_recipients := ch_recipients ch; ch_added := ch_added ch;
     ch_deleted := ch_deleted ch; ch_requests := ch_requests ch |}.
Definition with_requests (requests : list str) (ch : Change) : Change :=
  {| ch_rows := ch_rows ch; ch_recipients := ch_recipients ch; ch_added := ch_added ch; ch_deleted := ch_deleted ch;
     ch_requests := requests |}.

Definition LIVE : list MemberState := [Active; Invited].

Definition placed (p : str * MemberState) : Joining :=
  {| j_user_id := p.1; j_role := Member; j_state := p.2; j_accepted := false |}.

Definition saturating_inc (n : Z) : Z := Z.min i32_max (n + 1).

(** [?] on a check that needs no database. *)
Definition after_check {A B} (r : result A ChatError) (f : A -> Conv -> result B ChatError * Conv)
  : Conv -> result B ChatError * Conv :=
  fun c => match r with Ok a => f a c | Err e => (Err e, c) end.

Section operations.
Context (encode : SystemEvent -> bytes) (env : Env).

Definition insert_until {R} (id : Z) (event : SystemEvent) (target_seq expires_at : option Z) : TX R MessageRow :=
  a ← advance_system (e_now env);
  match a with
  | None => bail ChatNotFound
  | Some a =>
      let g := {| g_seq := a_last_seq a; g_client_id := id; g_sender_user := event_actor event; g_sender_device := None;
                  g_class := System; g_epoch := a_key_epoch a; g_target_seq := target_seq; g_body := Some (encode event);
                  g_created_at := a_at a; g_expires_at := expires_at |} in
      ok ← insert_message g;
      if ok : bool then mret g else bail ChatInternal
  end.

Definition insert_system {R} (id : Z) (event : SystemEvent) : TX R MessageRow := insert_until id event None None.

Definition lock_chat {R} : TX R Locked :=
  l ← gets lock;
  match l with Some l => mret l | None => bail ChatNotFound end.

(** *** Members ([members/changes.rs]) *)

Definition hand_over {R} (a : Access) : TX R (list MessageRow) :=
  heir ← gets (successor (a_user_id a));
  match heir with
  | None => mret []
  | Some heir =>
      _ ← sql (set_role_sql (e_now env) heir Owner);
      g ← insert_system (e_id' env) (RoleE (a_user_id a) heir Owner);
      mret [g]
  end.

Definition leave (a : Access) : Conv -> result Change ChatError * Conv :=
  let me := a_user_id a in
  let change := change_to (recipients_with a me) in
  after_check (if is_group a then Ok tt else Err Invalid) (fun _ => transaction (
    _ ← lock_chat;
    role ← sql (set_state (e_now env) me Left LIVE);
    match role with
    | None => rolled_back change
    | Some role =>
        let requests := if bool_decide (a_state a = Invited) then [me] else [] in
        n ← sql recount;
        if n =? 0 then
          deleted ← sql (shred (e_now env));
          mret {| ch_rows := []; ch_recipients := ch_recipients change; ch_added := []; ch_deleted := deleted;
                  ch_requests := ch_recipients change |}
        else
          handed ← (if bool_decide (role = Owner) then hand_over a else mret []);
          _ ← modify mark_rekey;
          _ ← modify queue_trim;
          g ← insert_system (e_id env) (LeftE me);
          mret (with_rows (handed ++ [g]) (with_requests requests change))
    end)).

Definition remove (a : Access) (target : str) (ban : bool) : Conv -> result Change ChatError * Conv :=
  after_check (match active a with Ok a => admin a | Err e => Err e end) (fun actor =>
  after_check (if bool_decide (target = a_user_id actor) then Err Invalid else Ok tt) (fun _ =>
    let change := change_to (recipients_with actor target) in
    transaction (
      _ ← lock_chat;
      standing ← gets (state_of target);
      match standing with
      | None => bail ChatNotFound
      | Some (role, state) =>
          if negb (may_remove (a_role actor) role) then bail NotMember
          else
            let '(next, from) := if ban then (Banned, [Active; Invited; Left; Kicked]) else (Kicked, LIVE) in
            done ← sql (set_state (e_now env) target next from);
            match done with
            | None => if bool_decide (state = next) then rolled_back change else bail ChatNotFound
            | Some _ =>
                _ ← modify (if live state then mark_rekey else id);
                let requests := if bool_decide (state = Invited) then [target] else [] in
                g ← insert_system (e_id env)
                      (if ban then BannedE (a_user_id actor) target else KickedE (a_user_id actor) target);
                _ ← sql recount;
                _ ← modify queue_trim;
                mret (with_rows [g] (with_requests requests change))
            end
      end))).

Definition unban (a : Access) (target : str) : Conv -> result Change ChatError * Conv :=
  after_check (match active a with Ok a => admin a | Err e => Err e end) (fun actor c =>
    (Ok (change_to [a_user_id actor]), (set_state (e_now env) target Left [Banned] c).2)).

Definition set_role (a : Access) (target : str) (role : MemberRole) : Conv -> result Change ChatError * Conv :=
  after_check (match active a with Ok a => admin a | Err e => Err e end) (fun actor =>
  after_check (if negb (bool_decide (a_role actor = Owner)) || bool_decide (target = a_user_id actor) then Err NotMember
               else Ok tt) (fun _ =>
    transaction (
      _ ← lock_chat;
      _ ← (if bool_decide (role = Owner)
           then down ← sql (step_down (e_now env) (a_user_id actor)); if down : bool then mret tt else bail NotMember
           else mret tt);
      done ← sql (set_role_sql (e_now env) target role);
      if negb done then bail ChatNotFound
      else
        g ← insert_system (e_id env) (RoleE (a_user_id actor) target role);
        mret (with_rows [g] (change_to (a_recipients actor)))))).

Definition accept (a : Access) : Conv -> result Change ChatError * Conv :=
  let me := a_user_id a in
  let change := change_to (a_recipients a) in
  transaction (
    _ ← lock_chat;
    done ← sql (activate (e_now env) me [Invited]);
    if negb done then (match a_state a with Active => rolled_back change | _ => bail NotMember end)
    else
      rows ← (if is_group a then g ← insert_system (e_id env) (Joined me); mret [g] else mret []);
      _ ← sql recount;
      mret (with_rows rows (with_requests [me] change))).

Definition decline (a : Access) : Conv -> result Change ChatError * Conv :=
  let me := a_user_id a in
  let change := with_requests [me] (change_to [me]) in
  transaction (
    _ ← lock_chat;
    done ← sql (set_state (e_now env) me Left [Invited]);
    match done with
    | None => match a_state a with Left => rolled_back change | _ => bail NotMember end
    | Some _ =>
        _ ← modify queue_trim;
        mret change
    end).

Definition add (a : Access) (people : list (str * MemberState)) : Conv -> result Change ChatError * Conv :=
  after_check (match active a with Ok a => admin a | Err e => Err e end) (fun actor =>
    let joining := placed <$> people in
    let change := change_to (a_recipients actor) in
    if bool_decide (joining = []) then fun c => (Ok change, c)
    else transaction (
      l ← lock_chat;
      let hidden := negb (history_visible (l_settings l)) in
      let joined_epoch := if hidden then saturating_inc (l_key_epoch l) else 0 in
      total ← gets live_total;
      if GROUP_MEMBERS_MAX <? total + Z.of_nat (length joining) then bail Invalid
      else
        joined ← join_many (e_now env) (l_last_seq l) joined_epoch (a_user_id actor) joining;
        if bool_decide (joined = []) then rolled_back change
        else
          _ ← modify (if hidden then mark_rekey else id);
          let requests := fst <$> List.filter (fun j => bool_decide (j.2 = Invited)) joined in
          let targets := fst <$> joined in
          g ← insert_system (e_id env) (Added (a_user_id actor) targets);
          _ ← sql recount;
          mret {| ch_rows := [g]; ch_recipients := a_recipients actor ++ targets; ch_added := targets;
                  ch_deleted := false; ch_requests := requests |})).

(** *** Invitations ([invites.rs]) *)

Definition DEFAULT_TTL_SECS : Z := 7 * 86400.
Definition MIN_TTL_SECS : Z := 300.
Definition MAX_TTL_SECS : Z := 30 * 86400.
Definition USES_MAX : Z := 1000.

Definition require_group_admin (user : str) (c : Conv) : result unit ChatError :=
  match members c !! user with
  | None => Err NotMember
  | Some m =>
      if is_deleted c || negb (is_active (m_state m)) then Err NotMember
      else if negb (bool_decide (c_kind (row c) = Group)) || negb (is_admin (m_role m)) then Err Invalid
      else Ok tt
  end.

Definition checked_invite (expires_in_s uses : option Z) : result Z ChatError :=
  let ttl := default DEFAULT_TTL_SECS expires_in_s in
  if negb ((MIN_TTL_SECS <=? ttl) && (ttl <=? MAX_TTL_SECS)) then Err Invalid
  else if match uses with Some n => negb ((1 <=? n) && (n <=? USES_MAX)) | None => false end then Err Invalid
  else Ok ttl.

Definition admit_member (hash : bytes) (user : str) : Conv -> result MessageRow ChatError * Conv :=
  transaction (
    used ← sql (consume (e_now env) hash);
    match used with
    | None => bail ChatNotFound
    | Some i =>
        g ← gets lock_group;
        match g with
        | None => bail ChatNotFound
        | Some g =>
            if GROUP_MEMBERS_MAX <=? l_member_count g then bail ChatUnavailable
            else
              let hidden := negb (history_visible (l_settings g)) in
              let joined_epoch := if hidden then saturating_inc (l_key_epoch g) else 0 in
              added ← sql (add_member (e_now env) user (l_last_seq g) joined_epoch (i_created_by i));
              if negb added then bail ChatUnavailable
              else
                _ ← modify (if hidden then queue_trim ∘ mark_rekey else id);
                m ← insert_system (e_id env) (Joined user);
                _ ← modify invites_recount;
                mret m
        end
    end).

(** *** The conversation ([conversations/patch.rs], [remove.rs], [ttl.rs]) *)

Record SettingsPatch := { p_admins_only : option bool; p_history_visible : option bool }.

Definition merged (p : SettingsPatch) : list (str * value) :=
  match p_admins_only p with Some on => [(lit "admins_only", Bool on)] | None => [] end
  ++ match p_history_visible p with Some on => [(lit "history_visible", Bool on)] | None => [] end.

Definition meta_of (meta_ct : option bytes) (meta_epoch : option Z) : result (option (bytes * Z)) ChatError :=
  match meta_ct, meta_epoch with
  | None, None => Ok None
  | Some ct, Some epoch =>
      if negb (bool_decide (ct = [])) && (Z.of_nat (length ct) <=? META_MAX) && (0 <=? epoch) then Ok (Some (ct, epoch))
      else Err Invalid
  | _, _ => Err Invalid
  end.

Definition patch (a : Access) (meta_ct : option bytes) (meta_epoch : option Z) (settings : option SettingsPatch)
  : Conv -> result (option MessageRow) ChatError * Conv :=
  after_check (match active a with Ok a => admin a | Err e => Err e end) (fun actor =>
  after_check (meta_of meta_ct meta_epoch) (fun meta =>
    let hides := match settings with Some p => bool_decide (p_history_visible p = Some false) | None => false end in
    let changed := from_option merged [] settings in
  after_check (if negb (is_some meta) && bool_decide (changed = []) then Err Invalid else Ok tt) (fun _ =>
    transaction (
      _ ← (if hides then _ ← lock_chat; modify queue_trim else mret tt);
      _ ← (if bool_decide (changed = []) then mret tt
           else ok ← sql (merge_settings_sql changed); if ok : bool then mret tt else bail ChatNotFound);
      match meta with
      | None => mret None
      | Some (ct, epoch) =>
          ok ← sql (set_meta_sql ct epoch);
          if negb ok then bail ChatNotFound
          else g ← insert_system (e_id env) (Renamed (a_user_id actor)); mret (Some g)
      end)))).

Definition hide (a : Access) : Conv -> result Z ChatError * Conv :=
  transaction (
    l ← gets lock;
    match l with
    | None => bail NotMember
    | Some _ =>
        floor ← sql (hide_sql (e_now env) (a_user_id a));
        match floor with
        | None => bail NotMember
        | Some floor => _ ← modify queue_trim; mret floor
        end
    end).

Definition delete_for_everyone (a : Access) : Conv -> result bool ChatError * Conv :=
  after_check (if bool_decide (a_state a = Active) then Ok tt else Err NotMember) (fun _ =>
  after_check (may_delete_for_everyone (a_kind a) (a_role a)) (fun _ =>
    if bool_decide (a_kind a = Saved)
    then fun c => match hide a c with (Ok _, c') => (Ok false, c') | (Err e, c') => (Err e, c') end
    else transaction (sql (shred (e_now env))))).

Definition checked_ttl (ttl : option Z) : result (option Z) ChatError :=
  match ttl with
  | Some s => if existsb (Z.eqb s) DISAPPEARING_TTLS then Ok ttl else Err Invalid
  | None => Ok ttl
  end.

Definition set_ttl (a : Access) (ttl : option Z) : Conv -> result (option MessageRow) ChatError * Conv :=
  after_check (if bool_decide (a_state a = Active) then Ok tt else Err NotMember) (fun _ =>
  after_check (may_set_ttl (a_kind a) (a_role a)) (fun _ =>
  after_check (checked_ttl ttl) (fun ttl =>
    transaction (
      changed ← sql (set_ttl_sql ttl);
      if negb changed then rolled_back None
      else g ← insert_system (e_id env) (Ttl (a_user_id a) ttl); mret (Some g))))).

(** *** Messages ([messages/store.rs], [redact.rs]) *)

(** How the transaction of [store] ended. *)
Inductive Stored := SStored (g : MessageRow) | SStale | SDuplicate.

Definition store (a : Access) (device : Z) (out : Outgoing) (inherited : option Z)
  : Conv -> result Stored ChatError * Conv :=
  let lim := epoch_limits (a_kind a) in
  transaction (
    adv ← advance (e_now env) (o_epoch out) (o_class out) (o_body out) lim;
    match adv with
    | None => rolled_back SStale
    | Some adv =>
        let g := {| g_seq := a_last_seq adv; g_client_id := o_client_id out; g_sender_user := a_user_id a;
                    g_sender_device := Some device; g_class := o_class out; g_epoch := o_epoch out;
                    g_target_seq := o_target_seq out; g_body := Some (o_body out); g_created_at := a_at adv;
                    g_expires_at := expiry (o_class out) (a_ttl_s adv) inherited (a_at adv) |} in
        ok ← insert_message g;
        if negb ok then rolled_back SDuplicate
        else
          _ ← (match e_media env with Ok _ => mret tt | Err e => bail e end);
          _ ← modify (if negb (a_accepted a) && bool_decide (o_class out = Post)
                      then mark_accepted (e_now env) (a_user_id a) else id);
          mret (SStored g)
    end).

(** The transaction of [redact::for_everyone], for a target that was found. *)
Definition redact (a : Access) (seq : Z) (expires_at : option Z) : Conv -> result (list MessageRow) ChatError * Conv :=
  transaction (
    rows ← sql (redact_sql seq);
    if bool_decide (rows = []) then rolled_back []
    else
      g ← insert_until (e_id env) (DeletedE (a_user_id a)) (Some seq) expires_at;
      _ ← (match e_media env with Ok _ => mret tt | Err e => bail e end);
      mret (rows ++ [g])).

(** *** Keys ([keys/rotate.rs], [epochs.rs]) *)

(** [advance], [wrapped] being the new key under its wrapping, for the epoch it is for. *)
Definition ensure_current (wrapped : Z -> bytes) (kek_version : Z) : Conv -> result Z ChatError * Conv :=
  transaction (fun c =>
    let e := c_epoch (row c) in
    if is_deleted c then (Err (Err ChatNotFound), c)
    else if rekey e && (key_epoch e =? i32_max) then (Err (Err ChatInternal), c)
    else
      let epoch := if rekey e then key_epoch e + 1 else key_epoch e in
      let c1 := insert_key epoch {| k_wrapped := wrapped epoch; k_kek_version := kek_version; k_created_at := e_clock env |} c in
      (Ok epoch, if rekey e then advance_key (e_now env) epoch c1 else c1)).

Definition rotate_if_due (epoch : Z) (lim : Limits) : Conv -> result (option Z) ChatError * Conv :=
  transaction (rotate_epoch (e_now env) epoch lim).
End operations.

(** ** Keys of direct conversations name their two users *)

Lemma str_le_total a b : str_le a b = false -> str_le b a = true.
Proof.
  revert b. induction a as [|x a IH]; intros [|y b]; cbn; try done.
  destruct (Z.ltb_spec x y), (Z.eqb_spec x y), (Z.ltb_spec y x), (Z.eqb_spec y x); cbn; try done; try lia. apply IH.
Qed.

Lemma str_le_antisym a b : str_le a b = true -> str_le b a = true -> a = b.
Proof.
  revert b. induction a as [|x a IH]; intros [|y b]; cbn; try done.
  destruct (Z.ltb_spec x y), (Z.eqb_spec x y), (Z.ltb_spec y x), (Z.eqb_spec y x); cbn; try done; try lia.
  intros H1 H2. by f_equal; auto.
Qed.

Lemma valid_user_id_chars id : valid_user_id id true = true -> SEPARATOR ∉ id /\ id <> lit "self".
Proof.
  unfold valid_user_id. assert (forall l, forallb is_ascii_digit l = true -> SEPARATOR ∉ l) as Hd.
  { intros l Hl Hin%list_elem_of_In. rewrite forallb_forall in Hl. by specialize (Hl _ Hin). }
  destruct (strip_prefix USER_PREFIX id) as [rest|] eqn:E; intros H; bprop.
  - apply strip_prefix_Some in E as ->. split; [|done]. rewrite elem_of_app. intros [Hin|Hin]; [|by eapply Hd].
    revert Hin. apply (bool_decide_unpack (SEPARATOR ∉ USER_PREFIX)). done.
  - split; [by apply Hd|]. intros ->. done.
Qed.

(** Two users have one key between them, the same from either side; it names each one's
    peer and nobody else's, and no other pair of users has it. *)
Theorem direct_key user other :
  valid_user_id user true = true -> valid_user_id other true = true -> user <> other ->
  dm_key user other = dm_key other user
  /\ (forall u, peer_of (dm_key user other) u = if bool_decide (u = user) then Some other
                                                else if bool_decide (u = other) then Some user else None)
  /\ (forall a b, valid_user_id a true = true -> valid_user_id b true = true -> dm_key a b = dm_key user other ->
        (a = user /\ b = other) \/ (a = other /\ b = user)).
Proof.
  intros [Hu Hsu]%valid_user_id_chars [Ho Hso]%valid_user_id_chars Hne.
  assert (forall a b, dm_key a b = (if str_le a b then a ++ SEPARATOR :: b else b ++ SEPARATOR :: a)) as Hdef
    by (intros; unfold dm_key; by destruct (str_le a b)).
  assert (forall a b, SEPARATOR ∉ a -> a <> lit "self" -> a <> b -> forall u, peer_of (a ++ SEPARATOR :: b) u =
    if bool_decide (u = a) then Some b else if bool_decide (u = b) then Some a else None) as Hpeer.
  { intros a b Ha Hs Hab u. unfold peer_of. rewrite (proj2 (split_once_Some _ _ a b)) by done. cbn.
    rewrite bool_decide_false by done. destruct (decide (u = a)) as [->|Hua].
    - by rewrite !bool_decide_true, bool_decide_false by done.
    - rewrite (bool_decide_false (a = u)), (bool_decide_false (u = a)) by done. destruct (decide (u = b)) as [->|Hub].
      + by rewrite !bool_decide_true by done.
      + by rewrite !bool_decide_false by done. }
  assert (forall a b c d, SEPARATOR ∉ a -> SEPARATOR ∉ c -> a ++ SEPARATOR :: b = c ++ SEPARATOR :: d -> a = c /\ b = d) as Hinj.
  { intros a b c d Ha Hc E. assert (split_once SEPARATOR (a ++ SEPARATOR :: b) = Some (c, d)) as H by (by apply split_once_Some).
    rewrite (proj2 (split_once_Some _ _ a b)) in H by done. by injection H. }
  split_and!.
  - rewrite !Hdef. destruct (str_le user other) eqn:E1, (str_le other user) eqn:E2; try done.
    + by destruct Hne; apply str_le_antisym.
    + by rewrite (str_le_total _ _ E1) in E2.
  - intros u. rewrite Hdef. destruct (str_le user other); rewrite Hpeer by done; [done|].
    destruct (decide (u = user)) as [->|]; [|by rewrite (bool_decide_false (u = user))].
    by rewrite (bool_decide_false (user = other)), bool_decide_true by done.
  - intros a b [Ha _]%valid_user_id_chars [Hb _]%valid_user_id_chars. rewrite !Hdef.
    destruct (str_le a b), (str_le user other); intros [-> ->]%Hinj; auto.
Qed.

Lemma direct_key_witness :
  dm_key (lit "202") (lit "lt:7") = dm_key (lit "lt:7") (lit "202")
  /\ (forall u, peer_of (dm_key (lit "202") (lit "lt:7")) u
        = if bool_decide (u = lit "202") then Some (lit "lt:7") else if bool_decide (u = lit "lt:7") then Some (lit "202") else None)
  /\ (forall a b, valid_user_id a true = true -> valid_user_id b true = true -> dm_key a b = dm_key (lit "202") (lit "lt:7") ->
        (a = lit "202" /\ b = lit "lt:7") \/ (a = lit "lt:7" /\ b = lit "202")).
Proof. apply (direct_key (lit "202") (lit "lt:7")); [reflexivity|reflexivity|discriminate]. Defined.
