(* ===== verification/ChatSystem.v ===== *)
(** * ChatSystem: a conversation under any interleaving of its users

    Handlers load an [Access] and later run a transaction with it; other handlers, the
    devices that are revoked and the sweeps run in between.  [Sys] is a conversation with
    the accesses loaded so far, any of which may be used at any time, and a clock that does
    not go back; [sys_step] is one load, one transaction or one sweep.  A transaction is one step:
    the order of the steps is the order in which the database serialises them.  Conversations
    start as groups, direct or saved ones; the chats of rooms and the public chat, which other
    code creates and admits to, are not started here, so nothing is shown of them. *)

From Stdlib Require Import ZArith Lia String.
From stdpp Require Import base list numbers option tactics sets gmap fin_maps relations.
From S2P Require Import Prelude Text AppError SealedGate ChatTables ChatOps.
Local Open Scope Z_scope.

(** ** Transactions *)

Inductive Purge := PInvites | PKeys | PMembers | PMessages (seqs : list Z).

Definition purge (what : Purge) (c : Conv) : Conv :=
  match what with
  | PInvites => purge_invites c
  | PKeys => purge_keys c
  | PMembers => purge_members c
  | PMessages seqs => purge_messages seqs c
  end.

Inductive Transaction : Type -> Type :=
| TLeave (a : Access) : Transaction Change
| TRemove (a : Access) (target : str) (ban : bool) : Transaction Change
| TUnban (a : Access) (target : str) : Transaction Change
| TSetRole (a : Access) (target : str) (role : MemberRole) : Transaction Change
| TAccept (a : Access) : Transaction Change
| TDecline (a : Access) : Transaction Change
| TAdd (a : Access) (people : list (str * MemberState)) : Transaction Change
| TReopen (user : str) : Transaction bool
| TInvite (hash : bytes) (user : str) (expires_at : Z) (uses : option Z) : Transaction unit
| TRevoke (hash : bytes) (user : str) : Transaction bool
| TJoin (hash : bytes) (user : str) : Transaction MessageRow
| TPatch (a : Access) (meta_ct : option bytes) (meta_epoch : option Z) (settings : option SettingsPatch)
  : Transaction (option MessageRow)
| TPrefs (a : Access) (set_mute : bool) (muted_until : option Z) (notify : option str) (pinned archived : option bool)
  : Transaction bool
| THide (a : Access) : Transaction Z
| TDelete (a : Access) : Transaction bool
| TTtl (a : Access) (ttl : option Z) : Transaction (option MessageRow)
| TStore (a : Access) (device : Z) (out : Outgoing) (inherited : option Z) : Transaction Stored
| TRedact (a : Access) (seq : Z) (expires_at : option Z) : Transaction (list MessageRow)
| TEnsure (wrapped : Z -> bytes) (kek_version : Z) : Transaction Z
| TRotate (epoch : Z) (lim : Limits) : Transaction (option Z)
| TRekeyUser (user : str) : Transaction unit
| TExpire (seqs : list Z) : Transaction unit
| TFlush (user : str) (seq : Z) : Transaction unit
| TPurge (what : Purge) : Transaction unit.

(** [reopen], for a conversation found under its key: a direct one. *)
Definition reopen (now : Z) (user : str) (c : Conv) : bool * Conv :=
  match c_kind (row c) with Direct => activate now user [Invited; Left] c | _ => (false, c) end.

Definition plain {A} (p : A * Conv) : result A ChatError * Conv := (Ok p.1, p.2).

Section system.
Context (encode : SystemEvent -> bytes).

Definition run_tx (env : Env) {A} (t : Transaction A) : Conv -> result A ChatError * Conv :=
  match t in Transaction A return Conv -> result A ChatError * Conv with
  | TLeave a => leave encode env a
  | TRemove a target ban => remove encode env a target ban
  | TUnban a target => unban env a target
  | TSetRole a target role => set_role encode env a target role
  | TAccept a => accept encode env a
  | TDecline a => decline env a
  | TAdd a people => add encode env a people
  | TReopen user => fun c => plain (reopen (e_now env) user c)
  | TInvite hash user expires_at uses => transaction (insert_invite hash user expires_at (default 0 uses))
  | TRevoke hash user => fun c => plain (revoke_sql (e_now env) hash user c)
  | TJoin hash user => admit_member encode env hash user
  | TPatch a meta_ct meta_epoch settings => patch encode env a meta_ct meta_epoch settings
  | TPrefs a set_mute muted_until notify pinned archived => fun c =>
      plain (prefs_sql (e_now env) (a_user_id a) set_mute muted_until notify pinned archived c)
  | THide a => hide env a
  | TDelete a => delete_for_everyone env a
  | TTtl a ttl => set_ttl encode env a ttl
  | TStore a device out inherited => store env a device out inherited
  | TRedact a seq expires_at => redact encode env a seq expires_at
  | TEnsure wrapped kek_version => ensure_current env wrapped kek_version
  | TRotate epoch lim => rotate_if_due env epoch lim
  | TRekeyUser user => fun c => (Ok tt, rekey_user user c)
  | TExpire seqs => fun c => (Ok tt, expire_sql (e_now env) seqs c)
  | TFlush user seq => fun c => (Ok tt, flush_mark user seq c)
  | TPurge what => fun c => (Ok tt, purge what c)
  end.

(** The access a transaction was given. *)
Definition access_of {A} (t : Transaction A) : option Access :=
  match t with
  | TLeave a | TRemove a _ _ | TUnban a _ | TSetRole a _ _ | TAccept a | TDecline a | TAdd a _ | TPatch a _ _ _
  | TPrefs a _ _ _ _ _ | THide a | TDelete a | TTtl a _ | TStore a _ _ _ | TRedact a _ _ => Some a
  | _ => None
  end.

(** ** The system *)

Record Sys := { conv : Conv; loaded : list Access; s_clock : Z }.

Inductive sys_step (s : Sys) : Sys -> Prop :=
| sys_load user a :
    load user (conv s) = Ok a ->
    sys_step s {| conv := conv s; loaded := a :: loaded s; s_clock := s_clock s |}
| sys_tx A (t : Transaction A) env :
    (forall a, access_of t = Some a -> a ∈ loaded s) ->
    s_clock s <= e_clock env ->
    sys_step s {| conv := (run_tx env t (conv s)).2; loaded := loaded s; s_clock := e_clock env |}.

(** A group as [create::group] leaves it, for the people [contacts] placed. *)
Definition new_row (kind : ConversationKind) (key : option str) (creator : str) (meta : option (bytes * Z)) (now : Z) : Conversation :=
  {| c_kind := kind; c_dm_key := key; c_created_by := creator; c_last_seq := 0; c_last_at := now;
     c_epoch := {| key_epoch := 0; epoch_messages := 0; epoch_started_at := now; rekey := false |};
     c_meta_ct := fst <$> meta; c_meta_epoch := snd <$> meta; c_settings := []; c_member_count := 0; c_ttl_s := None;
     c_deleted_at := None |}.

Definition empty_conv (r : Conversation) : Conv :=
  {| row := r; members := ∅; keys := ∅; messages := ∅; invites := ∅; trim_queued := false |}.

Definition creator_joining (user : str) (role : MemberRole) : Joining :=
  {| j_user_id := user; j_role := role; j_state := Active; j_accepted := true |}.

Definition create_group (env : Env) (user : str) (people : list (str * MemberState)) (meta : option (bytes * Z))
  : result MessageRow ChatError * Conv :=
  transaction (
    _ ← join_many (e_now env) 0 0 user (creator_joining user Owner :: (placed <$> people));
    g ← insert_system encode env (e_id env) (Created user);
    _ ← sql recount;
    mret g) (empty_conv (new_row Group None user meta (e_now env))).

Definition create_direct (env : Env) (user peer : str) (peer_state : MemberState) : result unit ChatError * Conv :=
  transaction (
    _ ← join_many (e_now env) 0 0 user [creator_joining user Member; placed (peer, peer_state)];
    _ ← sql recount;
    mret tt) (empty_conv (new_row Direct (Some (dm_key user peer)) user None (e_now env))).

Definition create_saved (env : Env) (user : str) : result unit ChatError * Conv :=
  transaction (
    _ ← join_many (e_now env) 0 0 user [creator_joining user Owner];
    _ ← sql recount;
    mret tt) (empty_conv (new_row Saved (Some (saved_key user)) user None (e_now env))).

(** What conversations start as: a group, a direct or a saved one. *)
Inductive started : Conv -> Prop :=
| started_group env user people meta g c :
    create_group env user people meta = (Ok g, c) -> started c
| started_direct env user peer peer_state c :
    create_direct env user peer peer_state = (Ok tt, c) -> started c
| started_saved env user c :
    create_saved env user = (Ok tt, c) -> started c.

Definition reachable (s : Sys) : Prop :=
  exists s0, started (conv s0) /\ loaded s0 = [] /\ rtc sys_step s0 s.
End system.

(** ** How a conversation evolves

    [evolves c c'] is what no step takes back: sequence numbers and epochs grow, a pending
    rekey stays until the epoch moves, what is deleted stays deleted, messages keep their
    envelope, and a message of a user that is new was sent under an epoch that was current
    and not to be replaced.  It is a preorder, kept by every statement. *)

Definition same_envelope (g g' : MessageRow) : Prop :=
  g_seq g' = g_seq g /\ g_client_id g' = g_client_id g /\ g_class g' = g_class g /\ g_epoch g' = g_epoch g
  /\ g_sender_user g' = g_sender_user g.

Definition epoch_of (c : Conv) : Z := key_epoch (c_epoch (row c)).
Definition rekeying (c : Conv) : bool := rekey (c_epoch (row c)).

(** A message that was not there before [c]. *)
Definition new_message (c c' : Conv) (seq : Z) (g : MessageRow) : Prop :=
  is_deleted c = false /\ c_last_seq (row c) < seq <= c_last_seq (row c') /\ g_seq g = seq /\ g_epoch g <= epoch_of c'
  /\ (g_class g = System \/ (epoch_of c <= g_epoch g /\ (g_epoch g = epoch_of c -> rekeying c = false))).

(** An id of a client names one message. *)
Definition clients_unique (c : Conv) : Prop :=
  forall s s' g g', messages c !! s = Some g -> messages c !! s' = Some g' -> g_client_id g = g_client_id g' -> s = s'.

Record evolves (c c' : Conv) : Prop := {
  ev_kind : c_kind (row c') = c_kind (row c);
  ev_seq : c_last_seq (row c) <= c_last_seq (row c');
  ev_epoch : epoch_of c <= epoch_of c';
  ev_rekey : epoch_of c' = epoch_of c -> rekeying c = true -> rekeying c' = true;
  ev_deleted : is_deleted c = true -> is_deleted c' = true;
  ev_messages : forall seq g', messages c' !! seq = Some g' ->
    (exists g, messages c !! seq = Some g /\ same_envelope g g') \/ new_message c c' seq g';
  ev_keys : forall e k, keys c' !! e = Some k -> keys c !! e = Some k \/ epoch_of c <= e <= epoch_of c';
  ev_clients : clients_unique c -> clients_unique c' }.

Lemma same_envelope_refl g : same_envelope g g.
Proof. done. Qed.

Lemma same_envelope_trans g1 g2 g3 : same_envelope g1 g2 -> same_envelope g2 g3 -> same_envelope g1 g3.
Proof. unfold same_envelope. intuition congruence. Qed.

Global Instance evolves_preorder : PreOrder evolves.
Proof.
  split.
  - intros c. split; try done; [|auto]. intros seq g Hg. left. exists g. auto using same_envelope_refl.
  - intros c1 c2 c3 [K1 S1 E1 R1 D1 M1 Y1 C1] [K2 S2 E2 R2 D2 M2 Y2 C2]. split; [congruence|lia|lia| |auto| | |auto].
    + intros He Hr. apply R2; [lia|]. apply R1; [lia|done].
    + intros seq g Hg. destruct (M2 _ _ Hg) as [(g2 & Hg2 & Hs2)|(Hd & Hq & Hs & Hle & Hn)].
      * destruct (M1 _ _ Hg2) as [(g1 & Hg1 & Hs1)|(Hd & Hq & Hs & Hle & Hn)].
        -- left. exists g1. eauto using same_envelope_trans.
        -- right. destruct Hs2 as (Hs2 & _ & Hc2 & He2 & _). split_and!; [done|lia|lia|congruence|lia|].
           rewrite Hc2, He2. done.
      * right. split_and!; [by destruct (is_deleted c1); [rewrite D1 in Hd|]|lia|lia|done|lia|]. destruct Hn as [Hn|[Hn Hr]]; [by left|right].
        split; [lia|]. intros He. destruct (rekeying c1) eqn:Hc1; [|done].
        rewrite R1 in Hr by (done || lia). by discriminate Hr; lia.
    + intros e k Hk. destruct (Y2 _ _ Hk) as [Hk2|?]; [|right; lia].
      destruct (Y1 _ _ Hk2) as [?|?]; [by left|right; lia].
Qed.

(** Changes that leave the log alone. *)
Lemma evolves_frame c c' :
  messages c' = messages c -> keys c' = keys c -> c_kind (row c') = c_kind (row c) ->
  c_last_seq (row c') = c_last_seq (row c) -> epoch_of c' = epoch_of c ->
  (rekeying c = true -> rekeying c' = true) -> (is_deleted c = true -> is_deleted c' = true) ->
  evolves c c'.
Proof.
  intros Hm Hk Hkind Hs He Hr Hd. split; [done|lia|lia|auto|done| | |].
  - intros seq g Hg. left. exists g. rewrite <- Hm. auto using same_envelope_refl.
  - intros e k Hkey. left. by rewrite <- Hk.
  - unfold clients_unique. by rewrite Hm.
Qed.

Lemma evolves_members m c : evolves c (set_members m c).
Proof. by apply evolves_frame. Qed.

Lemma evolves_invites i c : evolves c (set_invites i c).
Proof. by apply evolves_frame. Qed.

Lemma evolves_keys k c : k ⊆ keys c -> evolves c (set_keys k c).
Proof.
  intros Hk. split; try done; try (unfold epoch_of; cbn; lia).
  - intros seq g Hg. left. exists g. auto using same_envelope_refl.
  - intros e x Hx. left. cbn in Hx. eapply lookup_weaken; eauto.
Qed.

Lemma evolves_messages ms c :
  (forall seq g', ms !! seq = Some g' -> exists g, messages c !! seq = Some g /\ same_envelope g g') ->
  evolves c (set_messages ms c).
Proof.
  intros H. split; try done; cbn; eauto. intros Hu s s' g g' Hg Hg' Hc.
  destruct (H _ _ Hg) as (? & ? & _ & E & _), (H _ _ Hg') as (? & ? & _ & E' & _). eapply Hu; eauto. congruence.
Qed.

(** ** Bodies that evolve *)

Definition grows {R A} (m : TX R A) : Prop := forall c, wp m (fun _ c' => evolves c c') (fun _ _ => True) c.

Lemma wp_sql {R A} (f : Conv -> A * Conv) Q F c : wp (sql (R := R) f) Q F c = Q (f c).1 (f c).2.
Proof. with_strategy transparent [wp] unfold wp, sql. by destruct (f c). Qed.

Lemma grows_bind {R A B} (m : TX R A) (k : A -> TX R B) : grows m -> (forall a, grows (k a)) -> grows (m ≫= k).
Proof.
  intros Hm Hk c. rewrite wp_bind. eapply wp_mono; [|done|apply Hm]. cbn. intros a c1 H1.
  eapply wp_mono; [|done|apply Hk]. cbn. intros b c2 H2. by etrans.
Qed.

Lemma grows_ret {R A} (a : A) : grows (R := R) (mret a).
Proof. intros c. by rewrite wp_ret. Qed.
Lemma grows_throw {R A} r : grows (R := R) (A := A) (throw r).
Proof. intros c. by rewrite wp_throw. Qed.
Lemma grows_gets {R A} (f : Conv -> A) : grows (R := R) (gets f).
Proof. intros c. by rewrite wp_gets. Qed.
Lemma grows_sql {R A} (f : Conv -> A * Conv) : (forall c, evolves c (f c).2) -> grows (R := R) (sql f).
Proof. intros H c. by rewrite wp_sql. Qed.
Lemma grows_modify {R} (f : Conv -> Conv) : (forall c, evolves c (f c)) -> grows (R := R) (modify f).
Proof. intros H c. by rewrite wp_modify. Qed.

Lemma transaction_grows {R} (body : TX R R) c : grows body -> evolves c (transaction body c).2.
Proof.
  intros H. specialize (H c). unfold transaction. with_strategy transparent [wp] unfold wp in H.
  destruct (body c) as [[r|r] c']; cbn in *; done.
Qed.

Lemma after_check_evolves {A B} (r : result A ChatError) (f : A -> Conv -> result B ChatError * Conv) c :
  (forall a, evolves c (f a c).2) -> evolves c (after_check r f c).2.
Proof. unfold after_check. destruct r; [auto|done]. Qed.

Create HintDb grows discriminated.
#[export] Hint Resolve grows_ret grows_throw grows_gets grows_sql grows_modify evolves_members evolves_invites : grows.
#[export] Hint Extern 1 (evolves ?c ?c) => reflexivity : grows.
