(* ===== verification/ChatDevices.v ===== *)
(** * ChatDevices: the devices of the users of the chat

    Source: [api/src/modules/chat]: [devices.rs] and [devices/] ([store.rs], [register.rs],
    [refresh.rs], [rules.rs], [bind.rs]), the pure part of [history_gate.rs],
    [sweeps/devices.rs] and the statements of [api/queries/chat/devices].  [Chats] is the
    table of devices with the conversations, because registering and revoking a device
    renews the keys of its user's conversations.  A handler is a program over [Dev]; what it
    looks up may come from a cache, so it is a row that was read at some earlier time.  The
    [dev_step]s are what handlers, sweeps and the conversations do in any order, and every
    run of a handler is a sequence of them ([register_steps] and the like).  The account of a
    session ([owner]) does not change; [sc_chat_wire::bind], uuids and SHA-256 are
    parameters. *)

From Stdlib Require Import ZArith Lia String.
From stdpp Require Import base list numbers option tactics sets gmap fin_maps relations.
From S2P Require Import Prelude Text AppError SealedGate ChatTables ChatOps ChatSystem.
Local Open Scope Z_scope.

(** ** Rows *)

Inductive DeviceStatus := DeviceActive | DeviceGone.
Global Instance DeviceStatus_eq : EqDecision DeviceStatus. Proof. solve_decision. Defined.

(** A row of [chat.devices]; [d_alive_checked_at] is a column that only the sweep reads. *)
Record DeviceRow := {
  d_id : Z;
  d_user_id : str;
  d_session_hash : bytes;
  d_status : DeviceStatus;
  d_auth_pub : bytes;
  d_box_pub : bytes;
  d_platform : str;
  d_name : str;
  d_app_version : str;
  d_caps : list str;
  d_tier : str;
  d_created_at : Z;
  d_history_unlocked_at : option Z;
  d_last_seen_at : Z;
  d_revoked_at : option Z;
  d_alive_checked_at : option Z }.

Definition device_active (d : DeviceRow) : bool := bool_decide (d_status d = DeviceActive).

(** The columns a statement sets, the rest as they are. *)
Definition with_status (s : DeviceStatus) (revoked : option Z) (d : DeviceRow) : DeviceRow :=
  {| d_id := d_id d; d_user_id := d_user_id d; d_session_hash := d_session_hash d; d_status := s;
     d_auth_pub := d_auth_pub d; d_box_pub := d_box_pub d; d_platform := d_platform d; d_name := d_name d;
     d_app_version := d_app_version d; d_caps := d_caps d; d_tier := d_tier d; d_created_at := d_created_at d;
     d_history_unlocked_at := d_history_unlocked_at d; d_last_seen_at := d_last_seen_at d; d_revoked_at := revoked;
     d_alive_checked_at := d_alive_checked_at d |}.
Definition with_times (unlocked : option Z) (seen : Z) (checked : option Z) (d : DeviceRow) : DeviceRow :=
  {| d_id := d_id d; d_user_id := d_user_id d; d_session_hash := d_session_hash d; d_status := d_status d;
     d_auth_pub := d_auth_pub d; d_box_pub := d_box_pub d; d_platform := d_platform d; d_name := d_name d;
     d_app_version := d_app_version d; d_caps := d_caps d; d_tier := d_tier d; d_created_at := d_created_at d;
     d_history_unlocked_at := unlocked; d_last_seen_at := seen; d_revoked_at := d_revoked_at d;
     d_alive_checked_at := checked |}.
Definition with_app (session : bytes) (platform name app_version : str) (caps : list str) (seen : Z) (d : DeviceRow) : DeviceRow :=
  {| d_id := d_id d; d_user_id := d_user_id d; d_session_hash := session; d_status := d_status d;
     d_auth_pub := d_auth_pub d; d_box_pub := d_box_pub d; d_platform := platform; d_name := name;
     d_app_version := app_version; d_caps := caps; d_tier := d_tier d; d_created_at := d_created_at d;
     d_history_unlocked_at := d_history_unlocked_at d; d_last_seen_at := seen; d_revoked_at := d_revoked_at d;
     d_alive_checked_at := d_alive_checked_at d |}.

Record Chats := { devices : gmap Z DeviceRow; convs : gmap Z Conv }.

Definition set_devices (t : gmap Z DeviceRow) (w : Chats) : Chats := {| devices := t; convs := convs w |}.
Definition set_convs (m : gmap Z Conv) (w : Chats) : Chats := {| devices := devices w; convs := m |}.

(** ** Statements ([devices/store.rs], [queries/chat/devices]) *)

(** [UPDATE chat.devices SET f WHERE id = $1 AND p]: the row it changed. *)
Definition update_device (id : Z) (p : DeviceRow -> bool) (f : DeviceRow -> DeviceRow) (w : Chats) : option DeviceRow * Chats :=
  match devices w !! id with
  | Some d => if p d then (Some (f d), set_devices (<[id := f d]> (devices w)) w) else (None, w)
  | None => (None, w)
  end.

Definition revoked_row (now : Z) (d : DeviceRow) : DeviceRow := with_status DeviceGone (Some now) d.

Definition revoke_device_sql (now id : Z) (w : Chats) : bool * Chats :=
  let '(r, w') := update_device id device_active (revoked_row now) w in (is_some r, w').

Definition unlock_history (now id : Z) (w : Chats) : Chats :=
  (update_device id (fun d => device_active d && negb (is_some (d_history_unlocked_at d)))
     (fun d => with_times (Some now) (d_last_seen_at d) (d_alive_checked_at d) d) w).2.

Definition touch_sql (now id : Z) : Chats -> option DeviceRow * Chats :=
  update_device id device_active (fun d => with_times (d_history_unlocked_at d) now (d_alive_checked_at d) d).

Definition refresh_sql (id : Z) (app_version : str) (caps : list str) : Chats -> option DeviceRow * Chats :=
  update_device id
    (fun d => device_active d && negb (bool_decide (d_app_version d = app_version) && bool_decide (d_caps d = caps)))
    (fun d => with_app (d_session_hash d) (d_platform d) (d_name d) app_version caps (d_last_seen_at d) d).

Definition count_live (user : str) (w : Chats) : Z :=
  Z.of_nat (size (filter (fun x : Z * DeviceRow => bool_decide (d_user_id x.2 = user) && device_active x.2 = true) (devices w))).

Definition holds_session (hash : bytes) (d : DeviceRow) : bool := device_active d && bool_decide (d_session_hash d = hash).

Definition session_held (hash : bytes) (w : Chats) : bool := existsb (fun x => holds_session hash x.2) (map_to_list (devices w)).

(** [revoke_session_holders.sql] *)
Definition revoke_session_holders (now : Z) (hash : bytes) (keep : Z) (w : Chats) : list Z * Chats :=
  let gone d := holds_session hash d && negb (d_id d =? keep) in
  (d_id <$> (snd <$> List.filter (fun x => gone x.2) (map_to_list (devices w))),
   set_devices ((fun d => if gone d then revoked_row now d else d) <$> devices w) w).

(** The unique index on the session of the active devices. *)
Definition session_taken (hash : bytes) (id : Z) (w : Chats) : bool :=
  existsb (fun x => holds_session hash x.2 && negb (x.1 =? id)) (map_to_list (devices w)).

(** [move_to_session.sql] *)
Definition move_to_session {R} (now id : Z) (hash : bytes) (platform name app_version : str) (caps : list str)
  : Tx Chats R (option DeviceRow) :=
  taken ← gets (session_taken hash id);
  held ← gets (fun w => from_option device_active false (devices w !! id));
  if held && taken then db_error
  else sql (update_device id device_active (with_app hash platform name app_version caps now)).

(** [insert.sql]: nothing when there is a device of the id. *)
Definition insert_device {R} (d : DeviceRow) : Tx Chats R (option DeviceRow) :=
  known ← gets (fun w => devices w !! d_id d);
  taken ← gets (session_taken (d_session_hash d) (d_id d));
  if is_some known then mret None
  else if taken : bool then db_error
  else _ ← modify (fun w : Chats => set_devices (<[d_id d := d]> (devices w)) w); mret (Some d).

(** [rekey_user.sql], [rekey_users.sql] *)
Definition rekey_conversations (users : list str) (w : Chats) : Chats :=
  set_convs ((fun c => foldr rekey_user c users) <$> convs w) w.

(** ** Rules ([rules.rs], [history_gate.rs]) *)

Definition UNLOCK_AFTER_HOURS : Z := 72.

Definition seasoned (created_at now : Z) : bool := UNLOCK_AFTER_HOURS * HOUR_US <=? now - created_at.
Definition is_unlocked (created_at : Z) (confirmed : bool) (now : Z) : bool := confirmed || seasoned created_at now.

Definition younger (device than : DeviceRow) : bool := d_created_at than <? d_created_at device.

Definition device_may_remove (actor target : DeviceRow) (now : Z) : bool :=
  younger target actor || seasoned (d_created_at actor) now.
Definition may_disown (actor target : DeviceRow) : bool := younger target actor.
Definition may_confirm (actor target : DeviceRow) (now : Z) : bool :=
  younger target actor && seasoned (d_created_at actor) now.

(** ** Requests ([register.rs], [refresh.rs], [bind.rs]) *)

Definition DEVICES_MAX : Z := 10.
Definition PLATFORM_MAX : Z := 32.
Definition NAME_MAX : Z := 64.
Definition APP_VERSION_MAX : Z := 32.
Definition CAPS_MAX : Z := 16.
Definition CAP_MAX : Z := 32.

Record RegisterDevice := { rq_platform : str; rq_name : str; rq_app_version : str; rq_caps : list str }.

Definition is_ascii_graphic (c : char) : bool := (33 <=? c) && (c <=? 126).

Definition token (value : str) (max : Z) : bool :=
  negb (bool_decide (value = [])) && (str_len value <=? max) && forallb is_ascii_graphic value.

Definition validated (q : RegisterDevice) : result RegisterDevice ChatError :=
  let name := trim (rq_name q) in
  if token (rq_platform q) PLATFORM_MAX && token (rq_app_version q) APP_VERSION_MAX && negb (bool_decide (name = []))
     && (Z.of_nat (length name) <=? NAME_MAX) && negb (existsb is_control name)
     && (Z.of_nat (length (rq_caps q)) <=? CAPS_MAX) && forallb (fun cap => token cap CAP_MAX) (rq_caps q)
  then Ok {| rq_platform := rq_platform q; rq_name := name; rq_app_version := rq_app_version q; rq_caps := rq_caps q |}
  else Err Invalid.

Definition refresh_validate (app_version : str) (caps : list str) : result unit ChatError :=
  if token app_version APP_VERSION_MAX && (Z.of_nat (length caps) <=? CAPS_MAX) && forallb (fun cap => token cap CAP_MAX) caps
  then Ok tt else Err Invalid.

(** [sc_chat_wire::proto::Tier] *)
Inductive Tier := TierRelay | TierPro | TierDirect | TierUnspecified.

Definition tier_name (t : Tier) : str :=
  match t with TierRelay => lit "relay" | TierPro => lit "pro" | TierDirect | TierUnspecified => lit "direct" end.

Record BoundDevice := { b_id : Z; b_auth_pub : bytes; b_box_pub : bytes }.

Definition holds (b : BoundDevice) (auth_pub box_pub : bytes) : bool :=
  bool_decide (b_auth_pub b = auth_pub) && bool_decide (b_box_pub b = box_pub).

Record SessionBind := { sb_chat_bind : option bytes; sb_soundcloud_user_id : option str }.

(** The message [sc_chat_wire::proto::Bind]. *)
Record Bind := { bi_device_id : str; bi_auth_pub : bytes; bi_box_pub : bytes }.

Definition key_of (raw : bytes) : result bytes ChatError :=
  if (length raw =? 32)%nat then Ok raw else Err ReloginRequired.

Section bind.
(** [Bind::decode], [verify_bind] and [Uuid::parse_str]. *)
Context (decode_bind : bytes -> option Bind) (verify_bind : Bind -> bool) (parse_uuid : str -> option Z).

Definition bound_device (chat_bind : option bytes) : result BoundDevice ChatError :=
  match chat_bind with
  | None => Err ReloginRequired
  | Some raw =>
      match decode_bind raw with
      | None => Err ReloginRequired
      | Some bind =>
          if negb (verify_bind bind) then Err ReloginRequired
          else match parse_uuid (bi_device_id bind) with
               | None => Err ReloginRequired
               | Some id =>
                   match key_of (bi_auth_pub bind), key_of (bi_box_pub bind) with
                   | Ok auth_pub, Ok box_pub => Ok {| b_id := id; b_auth_pub := auth_pub; b_box_pub := box_pub |}
                   | _, _ => Err ReloginRequired
                   end
               end
      end
  end.
End bind.

(** ** Transactions *)

Definition same_device (d : DeviceRow) (user : str) (b : BoundDevice) : result unit ChatError :=
  if negb (bool_decide (d_user_id d = user)) || negb (holds b (d_auth_pub d) (d_box_pub d)) then Err SessionBoundOther
  else if negb (device_active d) then Err DeviceRevoked
  else Ok tt.

Record Enrolled := { en_row : DeviceRow; en_evicted : list Z }.

Section transactions.
Context (env : Env).

Definition relogin {R} (hash : bytes) (b : BoundDevice) (q : RegisterDevice) : Tx Chats R DeviceRow :=
  moved ← move_to_session (e_now env) (b_id b) hash (rq_platform q) (rq_name q) (rq_app_version q) (rq_caps q);
  match moved with Some d => mret d | None => bail DeviceRevoked end.

(** The columns [insert.sql] leaves to their defaults included. *)
Definition new_device_row (user : str) (hash : bytes) (tier : Tier) (b : BoundDevice) (q : RegisterDevice) : DeviceRow :=
  {| d_id := b_id b; d_user_id := user; d_session_hash := hash; d_status := DeviceActive; d_auth_pub := b_auth_pub b;
     d_box_pub := b_box_pub b; d_platform := rq_platform q; d_name := rq_name q; d_app_version := rq_app_version q;
     d_caps := rq_caps q; d_tier := tier_name tier; d_created_at := e_now env; d_history_unlocked_at := None;
     d_last_seen_at := e_now env; d_revoked_at := None; d_alive_checked_at := None |}.

Definition first_login {R} (user : str) (hash : bytes) (tier : Tier) (b : BoundDevice) (q : RegisterDevice) : Tx Chats R DeviceRow :=
  live ← gets (count_live user);
  if DEVICES_MAX <=? live then bail DeviceCap
  else
    inserted ← insert_device (new_device_row user hash tier b q);
    match inserted with Some d => mret d | None => bail SessionBoundOther end.

Definition enroll (user : str) (hash : bytes) (tier : Tier) (b : BoundDevice) (q : RegisterDevice)
  : Chats -> result Enrolled ChatError * Chats :=
  transaction (
    known ← gets (fun w => devices w !! b_id b);
    _ ← (match known with
         | Some d => match same_device d user b with Ok _ => mret tt | Err e => bail e end
         | None => mret tt
         end);
    evicted ← sql (revoke_session_holders (e_now env) hash (b_id b));
    d ← (if is_some known then relogin hash b q else first_login user hash tier b q);
    _ ← modify (if negb (is_some known) || negb (bool_decide (evicted = [])) then rekey_conversations [user] else id);
    mret {| en_row := d; en_evicted := evicted |}).

(** [revoke] *)
Definition revoke (d : DeviceRow) : Chats -> result bool ChatError * Chats :=
  transaction (
    revoked ← sql (revoke_device_sql (e_now env) (d_id d));
    _ ← modify (if revoked : bool then rekey_conversations [d_user_id d] else id);
    mret revoked).

(** *** The sweep of devices whose session has ended ([sweeps/devices.rs]) *)

Definition SWEEP_BATCH_ROWS : nat := 1000.
Definition is_synthetic (user : str) : bool := is_some (strip_prefix USER_PREFIX user).

(** [NULLS FIRST], then by id. *)
Definition checked_le (a b : DeviceRow) : bool :=
  match d_alive_checked_at a, d_alive_checked_at b with
  | None, Some _ => true
  | Some _, None => false
  | None, None => d_id a <=? d_id b
  | Some x, Some y => (x <? y) || ((x =? y) && (d_id a <=? d_id b))
  end.

(** [stale_devices.sql], [locked] being the rows others hold. *)
Definition stale_devices (pass : Z) (locked : Z -> bool) (w : Chats) : list DeviceRow :=
  take SWEEP_BATCH_ROWS (sort_by checked_le (List.filter
    (fun d => device_active d && (d_last_seen_at d <? e_now env - HOUR_US) && negb (is_synthetic (d_user_id d))
              && match d_alive_checked_at d with None => true | Some t => t <? pass end && negb (locked (d_id d)))
    (snd <$> map_to_list (devices w)))).

(** [revoke_sessionless.sql], for the sessions that are alive. *)
Definition sessionless (ids : list Z) (alive : list bytes) (d : DeviceRow) : bool :=
  bool_decide (d_id d ∈ ids) && device_active d && negb (bool_decide (d_session_hash d ∈ alive)).

Definition revoke_sessionless (ids : list Z) (alive : list bytes) (w : Chats) : list DeviceRow * Chats :=
  (List.filter (sessionless ids alive) (snd <$> map_to_list (devices w)),
   set_devices ((fun d => if sessionless ids alive d then revoked_row (e_now env) d else d) <$> devices w) w).

(** [mark_alive_checked.sql] *)
Definition mark_alive_checked (ids : list Z) (pass : Z) (w : Chats) : Chats :=
  set_devices ((fun d => if bool_decide (d_id d ∈ ids) && device_active d
                         then with_times (d_history_unlocked_at d) (d_last_seen_at d) (Some pass) d else d) <$> devices w) w.

(** [check_batch]: how many were checked, and the devices revoked by user. *)
Definition check_batch (pass : Z) (locked : Z -> bool) (alive : list bytes)
  : Chats -> result (nat * gmap str (list Z)) ChatError * Chats :=
  transaction (
    stale ← gets (stale_devices pass locked);
    let ids := d_id <$> stale in
    rows ← sql (revoke_sessionless ids alive);
    _ ← modify (mark_alive_checked ids pass);
    let revoked := foldr (fun d m => <[d_user_id d := d_id d :: default [] (m !! d_user_id d)]> m) ∅ rows in
    _ ← modify (if bool_decide (rows = []) then id else rekey_conversations (fst <$> map_to_list revoked));
    mret (length stale, revoked)).
End transactions.

Inductive DeviceTx : Type -> Type :=
| XEnroll (user : str) (hash : bytes) (tier : Tier) (b : BoundDevice) (q : RegisterDevice) : DeviceTx Enrolled
| XRevoke (d : DeviceRow) : DeviceTx bool
| XUnlock (id : Z) : DeviceTx unit
| XTouch (id : Z) : DeviceTx (option DeviceRow)
| XRefresh (id : Z) (app_version : str) (caps : list str) : DeviceTx (option DeviceRow)
| XSweep (pass : Z) (locked : Z -> bool) (alive : list bytes) : DeviceTx (nat * gmap str (list Z)).

Definition run_device (env : Env) {A} (x : DeviceTx A) : Chats -> result A ChatError * Chats :=
  match x in DeviceTx A return Chats -> result A ChatError * Chats with
  | XEnroll user hash tier b q => enroll env user hash tier b q
  | XRevoke d => revoke env d
  | XUnlock id => fun w => (Ok tt, unlock_history (e_now env) id w)
  | XTouch id => fun w => let '(r, w') := touch_sql (e_now env) id w in (Ok r, w')
  | XRefresh id app_version caps => fun w => let '(r, w') := refresh_sql id app_version caps w in (Ok r, w')
  | XSweep pass locked alive => check_batch env pass locked alive
  end.

(** ** Handlers ([devices.rs]) *)

Record Caller := { cl_user_id : str; cl_session_id : Z; cl_device : option Z; cl_tier : Tier }.

Inductive DeviceQuestion :=
| AdmitDevice (user : str) | AdmitRefresh (user : str) | TouchUser (user : str)
| Changed (user : str) (ids : list Z).

Inductive DeviceNote :=
| Refund (user : str) | ForgetSession (hash : bytes) | CacheSeen (d : DeviceRow) | CacheForget (user : str) (ids : list Z).

(** [Lookup] and [LiveOf] may be answered by the cache. *)
Inductive Dev : Type -> Type :=
| SessionOf (session : Z) : Dev (result (option SessionBind) ChatError)
| Lookup (id : Z) : Dev (result (option DeviceRow) ChatError)
| LiveOf (user : str) : Dev (result (list DeviceRow) ChatError)
| ById (id : Z) : Dev (result (option DeviceRow) ChatError)
| SessionHeld (hash : bytes) : Dev (result bool ChatError)
| DeviceRun (A : Type) (x : DeviceTx A) : Dev (result A ChatError)
| DeviceAsk (q : DeviceQuestion) : Dev (result unit ChatError)
| EndSession (session : Z) (hash : bytes) : Dev (result bool ChatError)
| DeviceTell (n : DeviceNote) : Dev unit
| DeviceNow : Dev Z.
Arguments DeviceRun {A} x.

Abbreviation DevHandler R := (program Dev (result R ChatError)).

Definition deny {R} (e : ChatError) : DevHandler R := mret (Err e).
Definition grant {R} (r : R) : DevHandler R := mret (Ok r).
Definition some_or {A} (e : ChatError) (o : option A) : DevHandler A := match o with Some a => grant a | None => deny e end.

Section handlers.
Context (decode_bind : bytes -> option Bind) (verify_bind : Bind -> bool) (parse_uuid : str -> option Z).
Context (session_hash : Z -> bytes).

Definition session_device (cl : Caller) : DevHandler BoundDevice :=
  s ←? trigger (SessionOf (cl_session_id cl));
  s ←? some_or ReloginRequired s;
  if negb (bool_decide (sb_soundcloud_user_id s = Some (cl_user_id cl))) then deny SessionBoundOther
  else
    b ←? mret (bound_device decode_bind verify_bind parse_uuid (sb_chat_bind s));
    match cl_device cl with
    | Some device => if negb (device =? b_id b) then deny SessionBoundOther else grant b
    | None => grant b
    end.

Definition register (cl : Caller) (q : RegisterDevice) : DevHandler DeviceRow :=
  q ←? mret (validated q);
  b ←? session_device cl;
  known ←? trigger (Lookup (b_id b));
  let fresh := negb (is_some known) in
  _ ←? (if fresh then trigger (DeviceAsk (AdmitDevice (cl_user_id cl))) else grant tt);
  _ ←? trigger (DeviceAsk (TouchUser (cl_user_id cl)));
  enrolled ← trigger (DeviceRun (XEnroll (cl_user_id cl) (session_hash (cl_session_id cl)) (cl_tier cl) b q));
  match enrolled with
  | Ok en =>
      _ ←? trigger (DeviceAsk (Changed (cl_user_id cl) (en_evicted en ++ [d_id (en_row en)])));
      grant (en_row en)
  | Err DeviceCap => if fresh then _ ← trigger (DeviceTell (Refund (cl_user_id cl))); deny DeviceCap else deny DeviceCap
  | Err e => deny e
  end.

Definition require_device (cl : Caller) : DevHandler DeviceRow :=
  device ←? some_or DeviceRevoked (cl_device cl);
  d ←? trigger (Lookup device);
  d ←? some_or DeviceRevoked d;
  if negb (bool_decide (d_user_id d = cl_user_id cl)) || negb (device_active d) then deny DeviceRevoked else grant d.

Definition owned (user : str) (id : Z) : DevHandler DeviceRow :=
  d ←? trigger (Lookup id);
  match d with
  | Some d => if bool_decide (d_user_id d = user) then grant d else deny ChatNotFound
  | None => deny ChatNotFound
  end.

Definition revoke_device (d : DeviceRow) : DevHandler bool :=
  revoked ←? trigger (DeviceRun (XRevoke d));
  _ ←? trigger (DeviceAsk (Changed (d_user_id d) [d_id d]));
  grant revoked.

Definition sign_out (session : Z) (target : DeviceRow) : DevHandler unit :=
  held ←? trigger (SessionHeld (d_session_hash target));
  if held : bool then grant tt
  else
    ended ←? trigger (EndSession session (d_session_hash target));
    if ended : bool then _ ← trigger (DeviceTell (ForgetSession (d_session_hash target))); grant tt else grant tt.

Definition remove_device (cl : Caller) (id : Z) : DevHandler unit :=
  me ←? require_device cl;
  if id =? d_id me then _ ←? revoke_device me; grant tt
  else
    target ←? owned (cl_user_id cl) id;
    now ← trigger DeviceNow;
    if negb (device_may_remove me target now) then deny TooYoung
    else _ ←? revoke_device target; sign_out (cl_session_id cl) target.

Definition remove_me (cl : Caller) : DevHandler unit :=
  match cl_device cl with
  | None => grant tt
  | Some device =>
      d ←? trigger (Lookup device);
      match d with
      | Some d => if bool_decide (d_user_id d = cl_user_id cl) then _ ←? revoke_device d; grant tt else grant tt
      | None => grant tt
      end
  end.

Definition confirm (cl : Caller) (id : Z) : DevHandler unit :=
  me ←? require_device cl;
  target ←? owned (cl_user_id cl) id;
  if negb (device_active target) then deny ChatNotFound
  else
    now ← trigger DeviceNow;
    if negb (may_confirm me target now) then deny TooYoung
    else
      _ ←? trigger (DeviceRun (XUnlock (d_id target)));
      trigger (DeviceAsk (Changed (d_user_id target) [d_id target])).

Definition not_me (cl : Caller) (id : Z) : DevHandler unit :=
  me ←? require_device cl;
  target ←? owned (cl_user_id cl) id;
  if negb (may_disown me target) then deny TooYoung
  else _ ←? revoke_device target; sign_out (cl_session_id cl) target.

Definition refresh_me (cl : Caller) (app_version : str) (caps : list str) : DevHandler DeviceRow :=
  _ ←? mret (refresh_validate app_version caps);
  me ←? require_device cl;
  _ ←? trigger (DeviceAsk (AdmitRefresh (cl_user_id cl)));
  if bool_decide (d_app_version me = app_version) && bool_decide (d_caps me = caps) then grant me
  else
    d ←? trigger (DeviceRun (XRefresh (d_id me) app_version caps));
    match d with
    | None => d ←? trigger (ById (d_id me)); some_or DeviceRevoked d
    | Some d => _ ←? trigger (DeviceAsk (Changed (d_user_id d) [d_id d])); grant d
    end.

Definition TOUCH_EVERY_US : Z := 10 * 60 * 1000000.
Definition TOUCH_SPREAD_SECONDS : Z := 300.

(** [as_u128] of the id is the number it is. *)
Definition touch_after (id : Z) : Z := TOUCH_EVERY_US + id mod TOUCH_SPREAD_SECONDS * 1000000.

Definition touch_device (d : DeviceRow) : DevHandler unit :=
  now ← trigger DeviceNow;
  if now - d_last_seen_at d <? touch_after (d_id d) then grant tt
  else
    touched ←? trigger (DeviceRun (XTouch (d_id d)));
    _ ← trigger (DeviceTell (match touched with Some x => CacheSeen x | None => CacheForget (d_user_id d) [d_id d] end));
    grant tt.

Record DeviceView := {
  v_id : Z; v_platform : str; v_name : str; v_app_version : str; v_tier : str; v_status : DeviceStatus;
  v_created_at : Z; v_last_seen_at : Z; v_history_unlocked : bool; v_current : bool }.

Definition device_view (d : DeviceRow) (current : option Z) (now : Z) : DeviceView :=
  {| v_id := d_id d; v_platform := d_platform d; v_name := d_name d; v_app_version := d_app_version d; v_tier := d_tier d;
     v_status := d_status d; v_created_at := d_created_at d / 1000; v_last_seen_at := d_last_seen_at d / 1000;
     v_history_unlocked := is_unlocked (d_created_at d) (is_some (d_history_unlocked_at d)) now;
     v_current := bool_decide (current = Some (d_id d)) |}.

Definition list_devices (cl : Caller) : DevHandler (list DeviceView) :=
  me ←? require_device cl;
  now ← trigger DeviceNow;
  rows ←? trigger (LiveOf (cl_user_id cl));
  grant (map (fun d => device_view d (Some (d_id me)) now) rows).
End handlers.

(** ** The system

    The devices, the conversations with their accesses, and the rows of devices that were
    read so far, any of which may still be in a cache or in the hands of a handler. *)

Record DSys := { w_devices : gmap Z DeviceRow; chats : gmap Z Sys; seen : list DeviceRow }.

Definition world (s : DSys) : Chats := {| devices := w_devices s; convs := conv <$> chats s |}.

Definition see (d : DeviceRow) (s : DSys) : DSys := {| w_devices := w_devices s; chats := chats s; seen := d :: seen s |}.

Definition stamped (clock : Z) (c : Conv) (S : Sys) : Sys := {| conv := c; loaded := loaded S; s_clock := clock |}.

(** After a transaction that left [w]. *)
Definition settled (clock : Z) (w : Chats) (s : DSys) : DSys :=
  {| w_devices := devices w;
     chats := map_imap (fun i S => c ← convs w !! i; Some (stamped clock c S)) (chats s);
     seen := seen s |}.

Section system.
Context (encode : SystemEvent -> bytes).
(** The account a session is of, the times handlers read, the devices that confirm others
    and the times registrations begin. *)
Context (owner : bytes -> option str) (reads : Z -> Prop) (confirms : DeviceRow -> Prop) (begins : Z -> Prop).

(** What a handler has checked before it runs a transaction. *)
Definition may {A} (x : DeviceTx A) (s : DSys) : Prop :=
  match x with
  | XEnroll user hash _ _ _ => owner hash = Some user
  | XRevoke d => d ∈ seen s
  | XUnlock id =>
      exists me target now, me ∈ seen s /\ target ∈ seen s /\ d_id target = id /\ d_user_id me = d_user_id target
        /\ device_active me = true /\ reads now /\ may_confirm me target now = true /\ confirms me
  | _ => True
  end.

Definition in_time {A} (x : DeviceTx A) (env : Env) (s : DSys) : Prop :=
  (forall i S, chats s !! i = Some S -> s_clock S <= e_clock env)
  /\ match x with XEnroll _ _ _ _ _ => begins (e_now env) /\ e_now env <= e_clock env | _ => True end.

Inductive dev_step (s : DSys) : DSys -> Prop :=
| step_read id d : w_devices s !! id = Some d -> dev_step s (see d s)
| step_tx A (x : DeviceTx A) env :
    may x s -> in_time x env s -> dev_step s (settled (e_clock env) (run_device env x (world s)).2 s)
| step_conv i S S' :
    chats s !! i = Some S -> sys_step encode S S' ->
    dev_step s {| w_devices := w_devices s; chats := <[i := S']> (chats s); seen := seen s |}
| step_create i c clock :
    chats s !! i = None -> started encode c ->
    dev_step s {| w_devices := w_devices s; chats := <[i := {| conv := c; loaded := []; s_clock := clock |}]> (chats s);
                  seen := seen s |}.

Definition no_devices : DSys := {| w_devices := ∅; chats := ∅; seen := [] |}.
Definition dev_reachable (s : DSys) : Prop := rtc dev_step no_devices s.

(** *** Handlers run by these steps *)

Context (session_hash : Z -> bytes).

Definition failed {A E} (r : result A E) : Prop := match r with Ok _ => False | Err _ => True end.

Definition answer {A} (e : Dev A) (s : DSys) : A -> DSys -> Prop :=
  match e in Dev A return A -> DSys -> Prop with
  | SessionOf session => fun r s' =>
      s' = s /\ forall b, r = Ok (Some b) -> sb_soundcloud_user_id b = owner (session_hash session)
  | Lookup id => fun r s' =>
      (s' = s /\ (failed r \/ r = Ok None))
      \/ exists d, r = Ok (Some d) /\ d_id d = id /\ ((d ∈ seen s /\ s' = s) \/ (w_devices s !! id = Some d /\ s' = see d s))
  | DeviceRun x => fun r s' =>
      (s' = s /\ failed r)
      \/ exists env, in_time x env s /\ s' = settled (e_clock env) (run_device env x (world s)).2 s
           /\ (r = (run_device env x (world s)).1 \/ failed r)
  | DeviceNow => fun r s' => s' = s /\ reads r
  | _ => fun _ s' => s' = s
  end.

Abbreviation moves := (rtc dev_step).

Lemma dev_step_seen s s' : dev_step s s' -> seen s ⊆ seen s'.
Proof. destruct 1; cbn; set_solver. Qed.

Lemma moves_seen s s' d : moves s s' -> d ∈ seen s -> d ∈ seen s'.
Proof. intros H. revert d. induction H as [|? ? ? H1 _ IH]; [done|]. intros d Hd. by apply IH, (dev_step_seen _ _ H1). Qed.

(** *** Every run of a handler is a sequence of steps *)

Definition does {R} : DevHandler R -> DSys -> (R -> DSys -> Prop) -> Prop := run_says moves (@answer) moves.

Lemma does_impl {R} (p : DevHandler R) s (P P' : R -> DSys -> Prop) :
  (forall a s', moves s s' -> P a s' -> P' a s') -> does p s P -> does p s P'.
Proof. apply run_says_impl. Qed.
Lemma does_try {A R} (p : DevHandler A) (k : A -> DevHandler R) s P :
  does p s (fun a s' => does (k a) s' P) -> does (try p k) s P.
Proof. apply run_says_try, _. Qed.
Lemma does_ret {R} (r : result R ChatError) s (P : R -> DSys -> Prop) : (forall a, r = Ok a -> P a s) -> does (mret r) s P.
Proof. apply run_says_ret, _. Qed.
Lemma does_deny {R} e s (P : R -> DSys -> Prop) : does (deny e) s P.
Proof. by apply does_ret. Qed.
Lemma does_grant {R} (r : R) s (P : R -> DSys -> Prop) : P r s -> does (grant r) s P.
Proof. intros H. apply does_ret. by intros ? [= <-]. Qed.
Lemma does_some {R} e (o : option R) s (P : R -> DSys -> Prop) : (forall a, o = Some a -> P a s) -> does (some_or e o) s P.
Proof. intros H. destruct o; [apply does_grant; auto|apply does_deny]. Qed.

(** An effect that leaves the state alone. *)
Definition idle {A} (e : Dev A) : bool := match e with Lookup _ | DeviceRun _ => false | _ => true end.

Lemma idle_answer {A} (e : Dev A) s a s' : idle e = true -> answer e s a s' -> s' = s.
Proof. destruct e; cbn; try done; by intros _ []. Qed.

Lemma does_bind {A R} (e : Dev A) (k : A -> DevHandler R) s P :
  idle e = true -> (forall a s', moves s s' -> answer e s' a s' -> does (k a) s' P) -> does (trigger e ≫= k) s P.
Proof.
  intros He H. apply run_ends_bind. intros s1 a s2 H1 H2. pose proof (idle_answer _ _ _ _ He H2) as ->.
  eapply run_says_weaken; [apply _|exact H1|]. by apply H.
Qed.

Lemma does_idle {R} (e : Dev (result R ChatError)) s (P : R -> DSys -> Prop) :
  idle e = true -> (forall a s', moves s s' -> answer e s' (Ok a) s' -> P a s') -> does (trigger e) s P.
Proof.
  intros He H s1 r s2 H1 H2. pose proof (idle_answer _ _ _ _ He H2) as ->. split; [done|]. destruct r; [by apply H|done].
Qed.

Lemma does_lookup id s (P : option DeviceRow -> DSys -> Prop) :
  (forall s', moves s s' -> P None s') ->
  (forall d s', moves s s' -> d_id d = id -> d ∈ seen s' -> P (Some d) s') -> does (trigger (Lookup id)) s P.
Proof.
  intros Hn Hs s1 r s2 H1 [[-> [Hf| ->]]|(d & -> & Hd & [[Hin ->]|[Hd' ->]])].
  - split; [done|]. by destruct r.
  - split; [done|]. by apply Hn.
  - split; [done|]. by apply Hs.
  - assert (moves s (see d s1)) as Hm by (etrans; [exact H1|apply rtc_once; by eapply step_read]).
    split; [done|]. apply Hs; [done..|]. cbn. set_solver.
Qed.

Lemma does_then {A R} (x : DeviceTx A) (k : result A ChatError -> DevHandler R) s P :
  (forall s', moves s s' -> may x s') -> (forall r s', moves s s' -> does (k r) s' P) ->
  does (trigger (DeviceRun x) ≫= k) s P.
Proof.
  intros Hx Hk. apply run_ends_bind. intros s1 r s2 H1 H2. assert (moves s s2) as Hm.
  { destruct H2 as [[-> Hf]|(env & Ht & -> & _)]; [done|]. etrans; [exact H1|]. apply rtc_once, step_tx; auto. }
  eapply run_says_weaken; [apply _|exact Hm|]. by apply Hk.
Qed.

Lemma does_run {A R} (x : DeviceTx A) (k : A -> DevHandler R) s P :
  (forall s', moves s s' -> may x s') -> (forall a s', moves s s' -> does (k a) s' P) ->
  does (try (trigger (DeviceRun x)) k) s P.
Proof. intros Hx Hk. apply does_then; [done|]. intros [a|e] s' Hm; [by apply Hk|by apply does_ret]. Qed.

(** Steps of a handler about which nothing needs to be known. *)
Ltac walk_on :=
  repeat first
    [ apply does_deny
    | apply does_grant; exact I
    | apply does_idle; [reflexivity|done]
    | apply does_some; done
    | apply does_try; first
        [ apply does_idle; [reflexivity|intros ? ? ? ?]
        | apply does_some; intros ? ?
        | apply does_ret; intros ? ?
        | apply does_grant ]
    | apply does_bind; [reflexivity|intros ? ? ? ?]
    | match goal with
      | |- does (match ?x with _ => _ end) _ _ => destruct x
      | |- does (try (match ?x with _ => _ end) _) _ _ => destruct x
      end ].

Abbreviation anything := (fun _ _ => True).

Lemma require_device_seen cl s :
  does (require_device cl) s (fun d s' =>
    d ∈ seen s' /\ d_user_id d = cl_user_id cl /\ device_active d = true /\ cl_device cl = Some (d_id d)).
Proof.
  unfold require_device. apply does_try, does_some. intros id Hid. apply does_try, does_lookup; [intros; apply does_try, does_deny|].
  intros d s1 _ Hd Hs. apply does_try, does_grant. destruct (_ || _) eqn:E; [apply does_deny|].
  apply does_grant. bprop. split_and!; congruence || done.
Qed.

Lemma owned_seen user id s : does (owned user id) s (fun d s' => d ∈ seen s' /\ d_user_id d = user /\ d_id d = id).
Proof.
  unfold owned. apply does_try, does_lookup; [intros; apply does_deny|]. intros d s1 _ Hd Hs.
  destruct (bool_decide _) eqn:E; [|apply does_deny]. apply does_grant. bprop. auto.
Qed.

Lemma revoke_device_steps d s : d ∈ seen s -> does (revoke_device d) s anything.
Proof.
  intros Hd. unfold revoke_device. apply does_run; [intros s' Hm; by eapply moves_seen|]. intros b s1 _. walk_on.
Qed.

Lemma sign_out_steps session d s : does (sign_out session d) s anything.
Proof. unfold sign_out. walk_on. Qed.

Context (decode_bind : bytes -> option Bind) (verify_bind : Bind -> bool) (parse_uuid : str -> option Z).

Lemma register_steps cl q s :
  does (register decode_bind verify_bind parse_uuid session_hash cl q) s anything.
Proof.
  unfold register. apply does_try, does_ret. intros q' _. apply does_try. unfold session_device.
  apply does_try, does_idle; [reflexivity|]. intros sb s1 _ [_ Hsb]. apply does_try, does_some. intros b ->.
  specialize (Hsb b eq_refl). destruct (negb _) eqn:E; [apply does_deny|]. bprop. rewrite E in Hsb.
  eapply does_impl; [|instantiate (1 := anything); walk_on]. intros bd s2 _ _.
  apply does_try, does_lookup; intros; (walk_on; apply does_then; [done|]; intros [en|e] ? _; walk_on).
Qed.

Lemma remove_device_steps cl id s : does (remove_device cl id) s anything.
Proof.
  unfold remove_device. apply does_try. eapply does_impl; [|apply require_device_seen]. intros me s1 _ (Hme & _).
  destruct (id =? d_id me).
  - apply does_try. eapply does_impl; [|by apply revoke_device_steps]. intros ? ? _ _. walk_on.
  - apply does_try. eapply does_impl; [|apply owned_seen]. intros target s2 _ (Ht & _).
    apply does_bind; [reflexivity|]. intros now s3 Hm _. destruct (negb _); [apply does_deny|].
    apply does_try. eapply does_impl; [|apply revoke_device_steps; by eapply moves_seen]. intros ? ? _ _. apply sign_out_steps.
Qed.

Lemma remove_me_steps cl s : does (remove_me cl) s anything.
Proof.
  unfold remove_me. destruct (cl_device cl) as [id|]; [|walk_on]. apply does_try, does_lookup; [intros; walk_on|].
  intros d s1 _ _ Hd. destruct (bool_decide _); [|walk_on]. apply does_try.
  eapply does_impl; [|by apply revoke_device_steps]. intros ? ? _ _. walk_on.
Qed.

Lemma not_me_steps cl id s : does (not_me cl id) s anything.
Proof.
  unfold not_me. apply does_try. eapply does_impl; [|apply require_device_seen]. intros me s1 _ _.
  apply does_try. eapply does_impl; [|apply owned_seen]. intros target s2 _ (Ht & _). destruct (negb _); [apply does_deny|].
  apply does_try. eapply does_impl; [|by apply revoke_device_steps]. intros ? ? _ _. apply sign_out_steps.
Qed.

Lemma confirm_steps cl id s :
  (forall d, cl_device cl = Some (d_id d) -> confirms d) -> does (confirm cl id) s anything.
Proof.
  intros Hcl. unfold confirm. apply does_try. eapply does_impl; [|apply require_device_seen]. intros me s1 _ (Hme & Hmu & Hma & Hmd).
  apply does_try. eapply does_impl; [|apply owned_seen]. intros target s2 H2 (Ht & Htu & _).
  destruct (negb (device_active target)); [apply does_deny|]. apply does_bind; [reflexivity|]. intros now s3 H3 [_ Hnow].
  destruct (negb (may_confirm me target now)) eqn:E; [apply does_deny|]. bprop.
  apply does_run; [|intros; walk_on]. intros s4 H4. exists me, target, now.
  split_and!; try done; [| |congruence|by apply Hcl].
  - eapply moves_seen; [|exact Hme]. etrans; [exact H2|]. by etrans.
  - eapply moves_seen; [|exact Ht]. by etrans.
Qed.

Lemma refresh_me_steps cl app_version caps s : does (refresh_me cl app_version caps) s anything.
Proof.
  unfold refresh_me. apply does_try, does_ret. intros _ _. apply does_try. eapply does_impl; [|apply require_device_seen].
  intros me s1 _ _. apply does_try, does_idle; [reflexivity|]. intros ? s2 _ _. destruct (_ && _); [walk_on|].
  apply does_run; [done|]. intros [d|] s3 _; walk_on.
Qed.

Lemma touch_device_steps d s : does (touch_device d) s anything.
Proof.
  unfold touch_device. apply does_bind; [reflexivity|]. intros now s1 _ _. destruct (_ <? _); [walk_on|].
  apply does_run; [done|]. intros touched s2 _. walk_on.
Qed.

Lemma list_devices_steps cl s : does (list_devices cl) s anything.
Proof.
  unfold list_devices. apply does_try. eapply does_impl; [|apply require_device_seen]. intros me s1 _ _. walk_on.
Qed.

(** The handlers of the module; [confirm] for the devices that confirm. *)
Inductive device_handler : forall R, DevHandler R -> Prop :=
| h_register cl q : device_handler _ (register decode_bind verify_bind parse_uuid session_hash cl q)
| h_remove cl id : device_handler _ (remove_device cl id)
| h_remove_me cl : device_handler _ (remove_me cl)
| h_confirm cl id : (forall d, cl_device cl = Some (d_id d) -> confirms d) -> device_handler _ (confirm cl id)
| h_not_me cl id : device_handler _ (not_me cl id)
| h_refresh cl app_version caps : device_handler _ (refresh_me cl app_version caps)
| h_touch d : device_handler _ (touch_device d)
| h_list cl : device_handler _ (list_devices cl).

(** C10: Whatever a handler of devices is told by caches, services and the clock, and
    whatever others do between its requests, what it does is a sequence of steps of the
    system: it revokes only devices it has read, renews the key of every conversation of
    the user with it, registers a device only for the account of its session, and unlocks
    history only for who may confirm. *)
Theorem device_handlers_step R (p : DevHandler R) s :
  device_handler R p -> run_ends moves (@answer) p s (fun _ s' => moves s s').
Proof.
  intros H. assert (does p s anything) as Hd.
  { destruct H; auto using register_steps, remove_device_steps, remove_me_steps, confirm_steps, not_me_steps,
      refresh_me_steps, touch_device_steps, list_devices_steps. }
  eapply run_ends_impl; [|exact Hd]. by intros r s' [Hm _].
Qed.
End system.
