(* ===== verification/ChatFacts.v ===== *)
(** * ChatFacts: every step of a conversation

    [run_tx_evolves]: a transaction only takes the conversation forward.  On top of it: the
    log invariant of every reachable system, how members come and go, and what that means
    for keys: a key that was stored when somebody left opens nothing sent later
    ([departed_cannot_read]). *)

From Stdlib Require Import ZArith Lia String.
From stdpp Require Import base list numbers option tactics sets gmap fin_maps relations.
From S2P Require Import Prelude Text AppError SealedGate ChatTables ChatOps ChatSystem.
Local Open Scope Z_scope.

(** ** Statements *)

Lemma set_state_evolves now user s from c : evolves c (set_state now user s from c).2.
Proof. unfold set_state. split_ifs; cbn; eauto with grows. Qed.
Lemma activate_evolves now user from c : evolves c (activate now user from c).2.
Proof. unfold activate. split_ifs; cbn; eauto with grows. Qed.
Lemma set_role_sql_evolves now user role c : evolves c (set_role_sql now user role c).2.
Proof. unfold set_role_sql. split_ifs; cbn; eauto with grows. Qed.
Lemma step_down_evolves now user c : evolves c (step_down now user c).2.
Proof. unfold step_down. split_ifs; cbn; eauto with grows. Qed.
Lemma mark_accepted_evolves now user c : evolves c (mark_accepted now user c).
Proof. unfold mark_accepted. split_ifs; cbn; eauto with grows. Qed.
Lemma hide_sql_evolves now user c : evolves c (hide_sql now user c).2.
Proof. unfold hide_sql. split_ifs; cbn; eauto with grows. Qed.
Lemma prefs_sql_evolves now user a b n p r c : evolves c (prefs_sql now user a b n p r c).2.
Proof. unfold prefs_sql. split_ifs; cbn; eauto with grows. Qed.
Lemma add_member_evolves now user s e i c : evolves c (add_member now user s e i c).2.
Proof. unfold add_member. split_ifs; cbn; eauto with grows. Qed.
Lemma flush_mark_evolves user seq c : evolves c (flush_mark user seq c).
Proof. unfold flush_mark. split_ifs; cbn; eauto with grows. Qed.
Lemma consume_evolves now hash c : evolves c (consume now hash c).2.
Proof. unfold consume. split_ifs; cbn; eauto with grows. Qed.
Lemma revoke_sql_evolves now hash user c : evolves c (revoke_sql now hash user c).2.
Proof. unfold revoke_sql. split_ifs; cbn; eauto with grows. Qed.

Lemma join_all_evolves now s e i js c : evolves c (join_all now s e i js c).2.
Proof.
  revert c. induction js as [|j js IH]; intros c; cbn [join_all]; [done|].
  assert (evolves c (join_one now s e i j c).2) by (unfold join_one; split_ifs; cbn; eauto with grows).
  destruct (join_one now s e i j c) as [l c1]. specialize (IH c1).
  destruct (join_all now s e i js c1) as [l' c2]. cbn in *. by etrans.
Qed.

Lemma recount_evolves c : evolves c (recount c).2.
Proof. by apply evolves_frame. Qed.
Lemma invites_recount_evolves c : evolves c (invites_recount c).
Proof. by apply evolves_frame. Qed.
Lemma queue_trim_evolves c : evolves c (queue_trim c).
Proof. by apply evolves_frame. Qed.
Lemma mark_rekey_evolves c : evolves c (mark_rekey c).
Proof. unfold mark_rekey. destruct (is_deleted c); [done|]. by apply evolves_frame. Qed.
Lemma rekey_and_trim_evolves c : evolves c ((queue_trim ∘ mark_rekey) c).
Proof. etrans; [apply mark_rekey_evolves|apply queue_trim_evolves]. Qed.
Lemma rekey_user_evolves user c : evolves c (rekey_user user c).
Proof. unfold rekey_user. split_ifs; auto using mark_rekey_evolves; done. Qed.
Lemma set_ttl_sql_evolves t c : evolves c (set_ttl_sql t c).2.
Proof. unfold set_ttl_sql. destruct (_ || _); [done|]. by apply evolves_frame. Qed.
Lemma merge_settings_sql_evolves p c : evolves c (merge_settings_sql p c).2.
Proof. unfold merge_settings_sql. destruct (is_deleted c); [done|]. by apply evolves_frame. Qed.
Lemma set_meta_sql_evolves ct e c : evolves c (set_meta_sql ct e c).2.
Proof. unfold set_meta_sql. destruct (is_deleted c); [done|]. by apply evolves_frame. Qed.

Lemma shred_evolves now c : evolves c (shred now c).2.
Proof.
  unfold shred. destruct (is_deleted c) eqn:E; [done|]. cbn.
  transitivity (set_keys ∅ c); [apply evolves_keys, map_empty_subseteq|by apply evolves_frame].
Qed.

Lemma redact_sql_evolves seq c : evolves c (redact_sql seq c).2.
Proof.
  apply evolves_messages. intros s g'. rewrite lookup_fmap. destruct (messages c !! s) as [g|] eqn:E; [|done].
  intros [= <-]. exists g. split; [done|]. by destruct (redacts seq g).
Qed.

Lemma filter_messages_evolves (P : Z * MessageRow -> Prop) `{!forall x, Decision (P x)} c :
  evolves c (set_messages (filter P (messages c)) c).
Proof.
  apply evolves_messages. intros seq g [Hg _]%map_lookup_filter_Some. exists g. auto using same_envelope_refl.
Qed.

Lemma purge_evolves what c : evolves c (purge what c).
Proof.
  destruct what; cbn; unfold purge_invites, purge_keys, purge_members, purge_messages; destruct (is_deleted c);
    eauto using evolves_invites, evolves_members, filter_messages_evolves; try done.
  apply evolves_keys, map_empty_subseteq.
Qed.

#[export] Hint Resolve set_state_evolves activate_evolves set_role_sql_evolves step_down_evolves mark_accepted_evolves
  hide_sql_evolves prefs_sql_evolves add_member_evolves flush_mark_evolves consume_evolves revoke_sql_evolves
  join_all_evolves recount_evolves invites_recount_evolves queue_trim_evolves mark_rekey_evolves rekey_user_evolves rekey_and_trim_evolves
  set_ttl_sql_evolves merge_settings_sql_evolves set_meta_sql_evolves shred_evolves redact_sql_evolves
  filter_messages_evolves purge_evolves : grows.

(** ** Messages and epochs *)

(** [c'] has one message more than [c], the next one, under the epoch in use. *)
Definition appends (g : MessageRow) (c c' : Conv) : Prop :=
  messages c' = <[g_seq g := g]> (messages c) /\ g_seq g = c_last_seq (row c) + 1
  /\ c_last_seq (row c') = c_last_seq (row c) + 1 /\ g_epoch g = epoch_of c /\ is_deleted c = false
  /\ by_client (g_client_id g) c = None /\ messages c !! g_seq g = None
  /\ members c' = members c /\ keys c' = keys c /\ invites c' = invites c /\ c_kind (row c') = c_kind (row c)
  /\ epoch_of c' = epoch_of c /\ rekeying c' = rekeying c /\ is_deleted c' = is_deleted c
  /\ c_settings (row c') = c_settings (row c) /\ c_member_count (row c') = c_member_count (row c).

Lemma by_client_None id c seq g : by_client id c = None -> messages c !! seq = Some g -> g_client_id g <> id.
Proof.
  unfold by_client. intros H Hg Hid. destruct (List.find _ _) eqn:E; [done|].
  assert (In (seq, g) (map_to_list (messages c))) as Hin by (by apply list_elem_of_In, elem_of_map_to_list).
  pose proof (List.find_none _ _ E _ Hin) as Hf. cbn in Hf. lia.
Qed.

Lemma appends_evolves g c c' :
  appends g c c' -> g_class g = System \/ rekeying c = false -> evolves c c'.
Proof.
  intros (Hm & Hg & Hs & He & Hdel & Hb & Hn & Hmem & Hk & Hi & Hkind & Hep & Hre & Hde & _) Hc.
  split; [done|lia|lia|by rewrite Hre|by rewrite Hde| | |].
  - intros seq g'. rewrite Hm. intros [[<- <-]|[Hne Hl]]%lookup_insert_Some.
    + right. split_and!; try done; try lia. destruct Hc as [?|?]; [by left|right]. split; [lia|done].
    + left. exists g'. auto using same_envelope_refl.
  - intros e k. rewrite Hk. auto.
  - intros Hu s s' g1 g2. rewrite Hm. rewrite !lookup_insert_Some.
    intros [[<- <-]|[Hne H1]] [[<- <-]|[Hne' H2]] Heq; [done| | |by eapply Hu].
    + by destruct (by_client_None _ _ _ _ Hb H2).
    + by destruct (by_client_None _ _ _ _ Hb H1).
Qed.

Lemma wp_insert_message {R} g Q F c :
  wp (insert_message (R := R) g) Q F c =
  if is_some (by_client (g_client_id g) c) then Q false c
  else match messages c !! g_seq g with
       | Some _ => F (Err ChatInternal) c
       | None => Q true (set_messages (<[g_seq g := g]> (messages c)) c)
       end.
Proof.
  with_strategy transparent [wp] unfold wp, insert_message.
  destruct (is_some _); [done|]. by destruct (messages c !! g_seq g).
Qed.

Lemma is_some_false {A} (o : option A) : is_some o = false -> o = None.
Proof. by destruct o. Qed.

Lemma insert_until_spec {R} encode env id event target expires c :
  wp (insert_until (R := R) encode env id event target expires)
    (fun g c' => appends g c c' /\ g_class g = System) (fun _ _ => True) c.
Proof.
  unfold insert_until. rewrite wp_bind. with_strategy transparent [wp] unfold wp at 1. unfold advance_system.
  destruct (is_deleted c) eqn:Hdel; [done|]. destruct (_ =? _); [done|]. cbn beta iota.
  rewrite wp_bind, wp_insert_message. cbn -[by_client].
  set (c1 := set_row _ c).
  destruct (is_some (by_client id c1)) eqn:Hb; [done|]. cbn.
  destruct (messages c !! (c_last_seq (row c) + 1)) eqn:Hn; [done|].
  rewrite wp_ret. split; [|done]. apply is_some_false in Hb.
  repeat split; cbn; try done; lia.
Qed.

Lemma insert_until_grows {R} encode env id event target expires :
  grows (insert_until (R := R) encode env id event target expires).
Proof.
  intros c. eapply wp_mono; [| |apply insert_until_spec]; [|done]. cbn. intros g c' [Ha Hc].
  eapply appends_evolves; eauto.
Qed.

Lemma insert_system_grows {R} encode env id event : grows (insert_system (R := R) encode env id event).
Proof. apply insert_until_grows. Qed.

Lemma join_many_grows {R} now s e i js : grows (join_many (R := R) now s e i js).
Proof. unfold join_many. destruct (bool_decide _); [apply grows_sql; eauto with grows|apply grows_throw]. Qed.

Lemma wp_lock_chat {R} Q F c :
  wp (lock_chat (R := R)) Q F c = match lock c with Some l => Q l c | None => F (Err ChatNotFound) c end.
Proof. unfold lock_chat. rewrite wp_bind, wp_gets. by destruct (lock c). Qed.

Lemma lock_chat_grows {R} : grows (lock_chat (R := R)).
Proof. apply grows_bind; [apply grows_gets|]. intros [l|]; [apply grows_ret|apply grows_throw]. Qed.

#[export] Hint Resolve insert_until_grows insert_system_grows join_many_grows lock_chat_grows : grows.

(** Go through a body, one statement at a time. *)
Ltac grow :=
  repeat first
    [ progress cbn beta iota zeta
    | solve [eauto 4 with grows]
    | apply grows_bind; [|intros ?]
    | match goal with
      | |- grows (match ?x with _ => _ end) => destruct x
      | |- grows (modify (if ?b then _ else _)) => destruct b
      | |- grows (let '(_, _) := ?x in _) => destruct x
      | |- grows (bail _) => apply grows_throw
      | |- grows (rolled_back _) => apply grows_throw
      end
    | solve [apply grows_modify; intros ?; reflexivity] ].

Lemma store_spec env a device out inherited c r c' :
  store env a device out inherited c = (r, c') ->
  c' = c \/ exists g c1, r = Ok (SStored g) /\ appends g c c1 /\ rekeying c = false /\ g_client_id g = o_client_id out
                  /\ g_sender_user g = a_user_id a /\ g_epoch g = o_epoch out /\ g_class g = o_class out
                  /\ (c' = c1 \/ c' = mark_accepted (e_now env) (a_user_id a) c1).
Proof.
  unfold store, transaction, advance, mbind, ST_bind. cbn beta zeta.
  destruct (takes_messages _ _ _ c) eqn:Ht; [|intros [= <- <-]; by left].
  unfold takes_messages in Ht. bprop.
  destruct (_ =? _); [intros [= <- <-]; by left|]. cbn beta iota.
  set (c1 := set_row _ c). unfold insert_message at 1. cbn [g_client_id].
  destruct (is_some (by_client (o_client_id out) c1)) eqn:Hb; [intros [= <- <-]; by left|].
  assert (Hms : messages c1 = messages c) by done. cbn [g_seq]. rewrite Hms.
  set (seq := a_last_seq _). assert (Hseq : seq = c_last_seq (row c) + 1) by (subst seq; by destruct (bool_decide _)).
  clearbody seq.
  destruct (messages c !! seq) eqn:Hn; [intros [= <- <-]; by left|]. cbn beta iota zeta.
  apply is_some_false in Hb.
  destruct (e_media env) as [[]|e]; [|intros [= <- <-]; by left]. cbn beta iota. unfold modify, mret, ST_ret.
  intros [= <- <-]. right. eexists _, (set_messages _ c1). split; [done|]. split.
  { split_and!; cbn; try done; try lia; by destruct (bool_decide _). }
  split; [done|]. repeat (split; [done|]). destruct (_ && _); [by right|by left].
Qed.

Lemma store_evolves env a device out inherited c : evolves c (store env a device out inherited c).2.
Proof.
  destruct (store _ _ _ _ _ c) as [r c'] eqn:E.
  destruct (store_spec _ _ _ _ _ _ _ _ E) as [->|(g & c1 & _ & Ha & Hr & _ & _ & _ & _ & [->| ->])]; cbn; [done| |].
  - eapply appends_evolves; eauto.
  - etrans; [eapply appends_evolves; eauto|apply mark_accepted_evolves].
Qed.

Lemma insert_key_lookup epoch k c e k' :
  keys (insert_key epoch k c) !! e = Some k' -> keys c !! e = Some k' \/ (e = epoch /\ k' = k /\ keys c !! epoch = None).
Proof.
  unfold insert_key. destruct (keys c !! epoch) eqn:E; [auto|]. cbn. rewrite lookup_insert_Some.
  intros [[<- <-]|[_ ?]]; auto.
Qed.

Lemma insert_key_frame epoch k c :
  row (insert_key epoch k c) = row c /\ messages (insert_key epoch k c) = messages c
  /\ members (insert_key epoch k c) = members c.
Proof. unfold insert_key. by destruct (keys c !! epoch). Qed.

(** What [ensure_current] did, when it did not fail. *)
Lemma ensure_current_spec env wrapped v c r c' :
  ensure_current env wrapped v c = (r, c') ->
  c' = c \/ (is_deleted c = false /\ exists k, k_created_at k = e_clock env
    /\ c' = (if rekeying c then advance_key (e_now env) (epoch_of c + 1) (insert_key (epoch_of c + 1) k c)
             else insert_key (epoch_of c) k c)).
Proof.
  unfold ensure_current, transaction, rekeying, epoch_of. cbn beta zeta.
  destruct (is_deleted c); [intros [= <- <-]; by left|]. destruct (rekey _ && _); [intros [= <- <-]; by left|].
  cbn beta iota. intros [= <- <-]. right. split; [done|].
  destruct (rekey _); (eexists; split; [|reflexivity]; done).
Qed.

(** Storing a key of the epoch that is in use afterwards. *)
Lemma new_key_evolves epoch k c c' :
  messages c' = messages c -> keys c' = keys (insert_key epoch k c) -> c_kind (row c') = c_kind (row c) ->
  c_last_seq (row c') = c_last_seq (row c) -> epoch_of c' = epoch -> epoch_of c <= epoch ->
  (epoch = epoch_of c -> rekeying c = true -> rekeying c' = true) -> is_deleted c' = is_deleted c ->
  evolves c c'.
Proof.
  intros Hm Hk Hkind Hs He Hle Hr Hd. split; [done|lia|lia|rewrite He; auto|by rewrite Hd| | |unfold clients_unique; by rewrite Hm].
  - intros seq g Hg. left. exists g. rewrite <- Hm. auto using same_envelope_refl.
  - intros e k'. rewrite Hk. intros [?|(-> & _)]%insert_key_lookup; [by left|right; lia].
Qed.

Lemma insert_key_evolves k c : evolves c (insert_key (epoch_of c) k c).
Proof.
  destruct (insert_key_frame (epoch_of c) k c) as (Hr & Hm & _).
  eapply (new_key_evolves (epoch_of c) k); unfold rekeying, is_deleted; rewrite ?Hr; try done.
  unfold epoch_of at 1. by rewrite Hr.
Qed.

Lemma advance_key_evolves now k c :
  evolves c (advance_key now (epoch_of c + 1) (insert_key (epoch_of c + 1) k c)).
Proof.
  destruct (insert_key_frame (epoch_of c + 1) k c) as (Hr & Hm & _).
  eapply (new_key_evolves (epoch_of c + 1) k); unfold is_deleted; cbn; rewrite ?Hr; try done; lia.
Qed.

Lemma ensure_current_evolves env wrapped v c : evolves c (ensure_current env wrapped v c).2.
Proof.
  destruct (ensure_current _ _ _ c) as [r c'] eqn:E.
  destruct (ensure_current_spec _ _ _ _ _ _ E) as [->|(_ & k & _ & ->)]; cbn; [done|].
  destruct (rekeying c); [apply advance_key_evolves|apply insert_key_evolves].
Qed.

Lemma rotate_if_due_evolves env epoch lim c : evolves c (rotate_if_due env epoch lim c).2.
Proof.
  unfold rotate_if_due, transaction, rotate_epoch. cbn beta zeta.
  destruct (_ && _); [|done]. destruct (_ =? _); [done|]. cbn.
  split; unfold epoch_of, rekeying, is_deleted; cbn; auto; try lia.
  intros seq g Hg. left. exists g. auto using same_envelope_refl.
Qed.

(** ** Transactions *)

Section evolution.
Context (encode : SystemEvent -> bytes).

Lemma hand_over_grows {R} env a : grows (hand_over encode env a (R := R)).
Proof. unfold hand_over. grow. Qed.
#[local] Hint Resolve hand_over_grows : grows.

Ltac evolve := repeat (apply after_check_evolves; intros ?); cbn beta zeta; try apply transaction_grows; grow.

(** Every transaction takes the conversation forward. *)
Lemma run_tx_evolves env {A} (t : Transaction A) c : evolves c (run_tx encode env t c).2.
Proof.
  destruct t; cbn [run_tx plain snd]; eauto using store_evolves, ensure_current_evolves, rotate_if_due_evolves with grows.
  - unfold leave. evolve.
  - unfold remove. evolve.
  - unfold unban. apply after_check_evolves. intros actor. apply set_state_evolves.
  - unfold set_role. evolve.
  - unfold accept. evolve.
  - unfold decline. evolve.
  - unfold add. apply after_check_evolves. intros actor. cbn zeta. destruct (bool_decide _); [done|]. evolve.
  - unfold reopen. destruct (c_kind _); cbn; eauto with grows.
  - apply transaction_grows. intros c0. with_strategy transparent [wp] unfold wp, insert_invite.
    destruct (invites c0 !! hash); [done|]. apply evolves_invites.
  - unfold admit_member. evolve.
  - unfold patch. evolve.
  - unfold hide. evolve.
  - unfold delete_for_everyone. repeat (apply after_check_evolves; intros ?). destruct (bool_decide _).
    + enough (evolves c (hide env a c).2) as H by (by destruct (hide env a c) as [[?|?] ?]).
      unfold hide. evolve.
    + apply transaction_grows. grow.
  - unfold set_ttl. evolve.
  - unfold redact. evolve.
Qed.

Lemma sys_step_evolves s s' : sys_step encode s s' -> evolves (conv s) (conv s').
Proof. destruct 1; cbn; [done|apply run_tx_evolves]. Qed.

Lemma sys_steps_evolve s s' : rtc (sys_step encode) s s' -> evolves (conv s) (conv s').
Proof. induction 1; [done|]. etrans; [by eapply sys_step_evolves|done]. Qed.
End evolution.

(** ** Epochs that are over

    Nothing is sent under epoch [k] or an older one any more. *)
Definition barred (k : Z) (c : Conv) : Prop :=
  is_deleted c = true \/ k < epoch_of c \/ (epoch_of c = k /\ rekeying c = true).

Lemma barred_evolves k c c' : evolves c c' -> barred k c -> barred k c'.
Proof.
  intros [_ _ He Hr Hd _ _ _] [H|[H|[<- H]]]; [left; auto|right; left; lia|].
  destruct (decide (epoch_of c' = epoch_of c)) as [E|E]; [right; right; auto|right; left; lia].
Qed.

Lemma barred_le k k' c : k' <= k -> barred k c -> barred k' c.
Proof.
  intros Hk [H|[H|[<- H]]]; [by left|right; left; lia|].
  destruct (decide (epoch_of c = k')) as [E|E]; [right; right; auto|right; left; lia].
Qed.

Lemma barred_messages k c c' seq g :
  evolves c c' -> barred k c -> messages c' !! seq = Some g -> messages c !! seq = None -> g_class g <> System ->
  k < g_epoch g.
Proof.
  intros Hev Hb Hg Hn Hc. destruct (ev_messages _ _ Hev _ _ Hg) as [(? & ? & _)|(Hd & _ & _ & _ & [?|[Hle Hr]])];
    [congruence|done|].
  destruct Hb as [?|[?|[<- Hk]]]; [congruence|lia|].
  destruct (decide (g_epoch g = epoch_of c)) as [E|E]; [|lia]. rewrite Hr in Hk; done.
Qed.

Lemma mark_rekey_bars c : barred (epoch_of c) (mark_rekey c).
Proof. unfold mark_rekey. destruct (is_deleted c) eqn:E; [by left|]. right; right. done. Qed.

(** Bodies after which the epoch in use before is over. *)
Definition bars {R A} (m : TX R A) : Prop := forall c, wp m (fun _ c' => barred (epoch_of c) c') (fun _ _ => True) c.

Lemma bars_throw {R A} r : bars (R := R) (A := A) (throw r).
Proof. intros c. by rewrite wp_throw. Qed.

Lemma bars_mark {R} : bars (R := R) (modify mark_rekey).
Proof. intros c. rewrite wp_modify. apply mark_rekey_bars. Qed.

Lemma bars_shred {R} now : bars (R := R) (sql (shred now)).
Proof. intros c. rewrite wp_sql. unfold shred. destruct (is_deleted c) eqn:E; by left. Qed.

Lemma bars_then {R A B} (m : TX R A) (k : A -> TX R B) : bars m -> (forall a, grows (k a)) -> bars (m ≫= k).
Proof.
  intros Hm Hk c. rewrite wp_bind. eapply wp_mono; [|done|apply Hm]. cbn. intros a c1 H1.
  eapply wp_mono; [|done|apply Hk]. cbn. intros b c2 H2. by eapply barred_evolves.
Qed.

Lemma then_bars {R A B} (m : TX R A) (k : A -> TX R B) : grows m -> (forall a, bars (k a)) -> bars (m ≫= k).
Proof.
  intros Hm Hk c. rewrite wp_bind. eapply wp_mono; [|done|apply Hm]. cbn. intros a c1 H1.
  eapply wp_mono; [|done|apply Hk]. cbn. intros b c2 H2. eapply barred_le; [apply H1|done].
Qed.

Lemma transaction_barred {R} (body : TX R R) c :
  wp body (fun _ c' => barred (epoch_of c) c') (fun _ _ => True) c ->
  (transaction body c).2 = c \/ barred (epoch_of c) (transaction body c).2.
Proof.
  intros H. unfold transaction. with_strategy transparent [wp] unfold wp in H.
  destruct (body c) as [[r|r] c']; cbn in *; auto.
Qed.

Lemma transaction_bars {R} (body : TX R R) c :
  bars body -> (transaction body c).2 = c \/ barred (epoch_of c) (transaction body c).2.
Proof. intros H. apply transaction_barred, H. Qed.

(** ** Departures *)

Definition is_live (u : str) (c : Conv) : Prop := exists m, members c !! u = Some m /\ live (m_state m) = true.

Lemma rekey_user_bars u c : is_live u c -> barred (epoch_of c) (rekey_user u c).
Proof.
  intros (m & Hm & Hl). unfold rekey_user. rewrite Hm, Hl. destruct (rekey (c_epoch (row c))) eqn:E; [|apply mark_rekey_bars].
  right; right. by split.
Qed.

Lemma live_insert u x m c : is_live u c -> (x = u -> live (m_state m) = true) -> is_live u (set_members (<[x := m]> (members c)) c).
Proof.
  intros (m0 & Hm & Hl) Hx. destruct (decide (x = u)) as [->|Hne].
  - exists m. cbn. rewrite lookup_insert_eq. auto.
  - exists m0. cbn. rewrite lookup_insert_ne by done. auto.
Qed.

Lemma live_state u c m : is_live u c -> members c !! u = Some m -> live (m_state m) = true.
Proof. intros (m0 & Hm & Hl) ?. congruence. Qed.

Lemma barred_or_live {R} u (body : TX R R) c :
  is_live u c -> wp body (fun _ c' => barred (epoch_of c) c') (fun _ _ => True) c ->
  is_live u (transaction body c).2 \/ barred (epoch_of c) (transaction body c).2.
Proof. intros Hu H. destruct (transaction_barred body c H) as [->|?]; auto. Qed.

Lemma live_frame u c c' : members c' = members c -> is_live u c -> is_live u c'.
Proof. unfold is_live. by intros ->. Qed.

Lemma preserves_sql {R A} (I : Conv -> Prop) (f : Conv -> A * Conv) :
  (forall c, I c -> I (f c).2) -> preserves I (sql (R := R) f).
Proof. intros H c Hc. unfold sql. specialize (H c Hc). by destruct (f c). Qed.

Lemma transaction_preserves {R} (I : Conv -> Prop) (body : TX R R) c :
  preserves I body -> I c -> I (transaction body c).2.
Proof.
  intros H Hc. specialize (H c Hc). unfold transaction. by destruct (body c) as [[r|r] c'].
Qed.

Lemma after_check_preserves {A B} (I : Conv -> Prop) (r : result A ChatError) (f : A -> Conv -> result B ChatError * Conv) c :
  I c -> (forall a, I (f a c).2) -> I (after_check r f c).2.
Proof. unfold after_check. destruct r; auto. Qed.

(** Through the body of a transaction: [ins] is for a system message, [stmt] for a statement. *)
Ltac walk ins stmt :=
  repeat first
    [ progress cbn beta iota zeta
    | match goal with
      | |- preserves _ lock_chat => unfold lock_chat
      | |- preserves _ (hand_over _ _ _) => unfold hand_over
      | |- preserves _ (insert_system _ _ _ _) => unfold insert_system
      | |- preserves _ (insert_until _ _ _ _ _ _) => ins tt
      | |- preserves _ (_ ≫= _) => apply preserves_bind; [|intros ?]
      | |- preserves _ (match ?x with _ => _ end) => destruct x
      | |- preserves _ (modify (if ?b then _ else _)) => destruct b
      | |- preserves _ (bail _) => apply preserves_throw
      | |- preserves _ db_error => apply preserves_throw
      | |- preserves _ (rolled_back _) => apply preserves_throw
      | |- preserves _ (join_many _ _ _ _ _) => unfold join_many
      | |- preserves _ (mret _) => apply preserves_ret
      | |- preserves _ (gets _) => apply preserves_gets
      end
    | solve [apply preserves_sql; intros ? ?; stmt tt]
    | solve [apply preserves_modify; intros ? ?; stmt tt] ].

(** What depends on the members alone survives every other change. *)
Section frame.
Context (I : Conv -> Prop) (HI : forall c c', members c' = members c -> c_kind (row c') = c_kind (row c) -> I c -> I c').

Lemma frame_insert_until {R} encode env id event target expires :
  preserves I (insert_until (R := R) encode env id event target expires).
Proof.
  intros c Hc. unfold insert_until, advance_system, mbind, ST_bind.
  destruct (is_deleted c); [done|]. destruct (_ =? _); [done|]. cbn beta iota. unfold insert_message.
  destruct (is_some _); cbn; [by eapply HI, Hc|]. destruct (messages c !! _); cbn; by eapply HI, Hc.
Qed.

Lemma frame_lock_chat {R} : preserves I (lock_chat (R := R)).
Proof. intros c Hc. unfold lock_chat, mbind, ST_bind. cbn. by destruct (lock c). Qed.

Lemma frame_mark_rekey c : I c -> I (mark_rekey c).
Proof. unfold mark_rekey. destruct (is_deleted c); [done|]. by apply HI. Qed.
Lemma frame_rekey_user u c : I c -> I (rekey_user u c).
Proof. unfold rekey_user. split_ifs; auto using frame_mark_rekey. Qed.
Lemma frame_queue_trim c : I c -> I (queue_trim c).
Proof. by apply HI. Qed.
Lemma frame_recount c : I c -> I (recount c).2.
Proof. by apply HI. Qed.
Lemma frame_invites_recount c : I c -> I (invites_recount c).
Proof. by apply HI. Qed.
Lemma frame_consume now hash c : I c -> I (consume now hash c).2.
Proof. unfold consume. split_ifs; cbn; [by apply HI|done..]. Qed.
Lemma frame_revoke now hash user c : I c -> I (revoke_sql now hash user c).2.
Proof. unfold revoke_sql. split_ifs; cbn; first [done|by apply HI]. Qed.
Lemma frame_set_ttl t c : I c -> I (set_ttl_sql t c).2.
Proof. unfold set_ttl_sql. split_ifs; cbn; first [done|by apply HI]. Qed.
Lemma frame_merge p c : I c -> I (merge_settings_sql p c).2.
Proof. unfold merge_settings_sql. split_ifs; cbn; first [done|by apply HI]. Qed.
Lemma frame_set_meta ct e c : I c -> I (set_meta_sql ct e c).2.
Proof. unfold set_meta_sql. split_ifs; cbn; first [done|by apply HI]. Qed.
Lemma frame_shred now c : I c -> I (shred now c).2.
Proof. unfold shred. split_ifs; cbn; first [done|by apply HI]. Qed.
Lemma frame_redact seq c : I c -> I (redact_sql seq c).2.
Proof. by apply HI. Qed.
Lemma frame_invite {R} hash user expires uses : preserves I (insert_invite (R := R) hash user expires uses).
Proof. intros c Hc. unfold insert_invite. destruct (invites c !! hash); cbn; [done|by eapply HI, Hc]. Qed.

Lemma frame_ensure env wrapped v c : I c -> I (ensure_current env wrapped v c).2.
Proof.
  intros Hc. destruct (ensure_current _ _ _ c) as [r c'] eqn:E.
  destruct (ensure_current_spec _ _ _ _ _ _ E) as [->|(_ & k & _ & ->)]; cbn; [done|].
  destruct (rekeying c); (eapply HI; [| |exact Hc]); cbn; by apply insert_key_frame || (f_equal; apply insert_key_frame).
Qed.

Lemma frame_rotate env epoch lim c : I c -> I (rotate_if_due env epoch lim c).2.
Proof.
  intros Hc. unfold rotate_if_due, transaction, rotate_epoch. cbn beta zeta.
  destruct (_ && _); [|done]. destruct (_ =? _); [done|]. by eapply HI, Hc.
Qed.

(** [store] changes at most whether its sender has accepted. *)
Lemma frame_store env a device out inherited c :
  (forall c, I c -> I (mark_accepted (e_now env) (a_user_id a) c)) -> I c -> I (store env a device out inherited c).2.
Proof.
  intros Ha Hc. destruct (store _ _ _ _ _ c) as [r c'] eqn:E.
  destruct (store_spec _ _ _ _ _ _ _ _ E) as [->|(g & c1 & _ & Happ & _ & _ & _ & _ & _ & Hc')]; [done|].
  assert (I c1) by (destruct Happ as (_ & _ & _ & _ & _ & _ & _ & Hm & _ & _ & Hk & _); by eapply HI, Hc).
  destruct Hc' as [->| ->]; cbn; auto.
Qed.
End frame.

(** Who takes people out: the other transactions keep what the statements on members keep. *)
Definition departing {A} (t : Transaction A) : bool :=
  match t with TLeave _ | TRemove _ _ _ | TDecline _ | TPurge PMembers => true | _ => false end.

Definition declines {A} (t : Transaction A) : bool := match t with TDecline _ => true | _ => false end.

Section keeping.
Context (I : Conv -> Prop) (HI : forall c c', members c' = members c -> c_kind (row c') = c_kind (row c) -> I c -> I c').
Context (encode : SystemEvent -> bytes) (env : Env).
Context (Hactivate : forall u c, I c -> I (activate (e_now env) u [Invited] c).2).
Context (Hreopen : forall u c, I c -> I (reopen (e_now env) u c).2).
Context (Hunban : forall u c, I c -> I (set_state (e_now env) u Left [Banned] c).2).
Context (Haccept : forall u c, I c -> I (mark_accepted (e_now env) u c)).
Context (Hhide : forall u c, I c -> I (hide_sql (e_now env) u c).2).
Context (Hprefs : forall u m t n p r c, I c -> I (prefs_sql (e_now env) u m t n p r c).2).
Context (Hflush : forall u s c, I c -> I (flush_mark u s c)).

Ltac keep :=
  let ins _ := (apply (frame_insert_until I HI)) in
  let by_frame _ := first
    [ done | by auto | by eapply frame_recount | by eapply frame_consume | by eapply frame_set_ttl | by eapply frame_merge
    | by eapply frame_set_meta | by eapply frame_shred | by eapply frame_redact | by eapply frame_queue_trim
    | by eapply frame_mark_rekey | by eapply frame_invites_recount | by eapply frame_queue_trim, frame_mark_rekey ] in
  let stmt _ := first [by_frame tt | cbn; by_frame tt] in
  repeat first [ progress walk ins stmt | apply (frame_invite I HI) ].

Ltac kept := repeat (apply after_check_preserves; [done|intros ?]); cbn beta zeta;
  first [apply (transaction_preserves I); [|done]; keep | idtac].

Lemma hide_preserves a c : I c -> I (hide env a c).2.
Proof using HI Hhide. intros Hc. unfold hide. kept. Qed.

Lemma add_preserves a people c :
  (forall s e i c, I c -> I (join_all (e_now env) s e i (placed <$> people) c).2) -> I c -> I (add encode env a people c).2.
Proof using HI.
  intros Hjoin Hc. unfold add. apply after_check_preserves; [done|]. intros actor. cbn zeta.
  destruct (bool_decide _); [done|]. kept.
Qed.

Lemma admit_preserves hash u c :
  (forall s e i c, I c -> I (add_member (e_now env) u s e i c).2) -> I c -> I (admit_member encode env hash u c).2.
Proof using HI. intros Hadd Hc. unfold admit_member. kept. Qed.

Lemma run_tx_preserves {A} (t : Transaction A) c :
  departing t = false -> I c ->
  match t with TSetRole a u r => I (set_role encode env a u r c).2 | _ => True end ->
  (forall a people, I (add encode env a people c).2) -> (forall hash u, I (admit_member encode env hash u c).2) ->
  I (run_tx encode env t c).2.
Proof using HI Hactivate Hreopen Hunban Haccept Hhide Hprefs Hflush.
  intros Hd Hc Hrole Hadd Hjoin.
  destruct t; try discriminate Hd; cbn [run_tx plain snd]; auto using hide_preserves.
  - unfold unban. kept. by apply Hunban.
  - unfold accept. kept.
  - kept.
  - by eapply frame_revoke.
  - unfold patch. kept.
  - unfold delete_for_everyone. kept. destruct (bool_decide _).
    + enough (I (hide env a c).2) as H by (by destruct (hide env a c) as [[?|?] ?]). by apply hide_preserves.
    + kept.
  - unfold set_ttl. kept.
  - eapply frame_store; eauto.
  - unfold redact. kept.
  - by eapply frame_ensure.
  - by eapply frame_rotate.
  - by eapply frame_rekey_user.
  - by eapply HI, Hc.
  - destruct what; cbn; try discriminate Hd; unfold purge_invites, purge_keys, purge_messages; destruct (is_deleted c);
      try done; by eapply HI, Hc.
Qed.
End keeping.

(** ** Whoever goes takes no key along *)

Section departures.
Context (encode : SystemEvent -> bytes) (env : Env) (u : str).

Ltac stay := split_ifs; cbn; auto; try (apply live_insert; [done|intros ->; cbn; eauto using live_state]).

Lemma live_activate x from c : is_live u c -> is_live u (activate (e_now env) x from c).2.
Proof. intros H. unfold activate. stay. Qed.
Lemma live_reopen x c : is_live u c -> is_live u (reopen (e_now env) x c).2.
Proof. intros H. unfold reopen. destruct (c_kind _); cbn; auto using live_activate. Qed.
Lemma live_unban x c : is_live u c -> is_live u (set_state (e_now env) x Left [Banned] c).2.
Proof.
  intros H. unfold set_state. destruct (members c !! x) as [m|] eqn:Hm; [|done].
  destruct (bool_decide _) eqn:Hb; [|done]. bprop. apply list_elem_of_singleton in Hb.
  apply live_insert; [done|]. intros ->. pose proof (live_state _ _ _ H Hm) as Hl. by rewrite Hb in Hl.
Qed.
Lemma live_set_role_sql x r c : is_live u c -> is_live u (set_role_sql (e_now env) x r c).2.
Proof. intros H. unfold set_role_sql. stay. Qed.
Lemma live_step_down x c : is_live u c -> is_live u (step_down (e_now env) x c).2.
Proof. intros H. unfold step_down. stay. Qed.
Lemma live_mark_accepted x c : is_live u c -> is_live u (mark_accepted (e_now env) x c).
Proof. intros H. unfold mark_accepted. stay. Qed.
Lemma live_hide x c : is_live u c -> is_live u (hide_sql (e_now env) x c).2.
Proof. intros H. unfold hide_sql. stay. Qed.
Lemma live_prefs x m t n p r c : is_live u c -> is_live u (prefs_sql (e_now env) x m t n p r c).2.
Proof. intros H. unfold prefs_sql. stay. Qed.
Lemma live_flush x s c : is_live u c -> is_live u (flush_mark x s c).
Proof. intros H. unfold flush_mark. stay. Qed.
Lemma live_add_member x s e i c : is_live u c -> is_live u (add_member (e_now env) x s e i c).2.
Proof. intros H. unfold add_member. stay. Qed.

Lemma may_join_live from m : may_join from (Some m) = true -> Forall (fun s => live s = false) from -> live (m_state m) = false.
Proof. unfold may_join. intros Hj Hf. bprop. rewrite Forall_forall in Hf. auto. Qed.

Lemma live_join_all s e i js c : is_live u c -> is_live u (join_all (e_now env) s e i js c).2.
Proof.
  revert c. induction js as [|j js IH]; intros c H; cbn [join_all]; [done|].
  assert (H1 : is_live u (join_one (e_now env) s e i j c).2).
  { unfold join_one. destruct (may_join _ _) eqn:Hj; [|done]. apply live_insert; [done|]. intros E. rewrite E in Hj.
    destruct (members c !! u) as [m|] eqn:Hm; [|by destruct H as (? & ? & _); congruence].
    pose proof (live_state _ _ _ H Hm) as Hl. rewrite (may_join_live _ _ Hj) in Hl; [done|by repeat constructor]. }
  destruct (join_one _ _ _ _ j c) as [l c1]. specialize (IH c1 H1).
  by destruct (join_all _ _ _ _ js c1) as [l' c2].
Qed.

Lemma live_set_role a x r c : is_live u c -> is_live u (set_role encode env a x r c).2.
Proof.
  intros H. unfold set_role. do 2 (apply after_check_preserves; [done|intros ?]).
  apply (transaction_preserves (is_live u)); [|done].
  apply preserves_bind; [apply frame_lock_chat|intros _].
  apply preserves_bind.
  { destruct (bool_decide _); [|apply preserves_ret]. apply preserves_bind.
    - apply preserves_sql, live_step_down.
    - intros []; [apply preserves_ret|apply preserves_throw]. }
  intros _. apply preserves_bind; [apply preserves_sql, live_set_role_sql|]. intros [|]; [|apply preserves_throw].
  apply preserves_bind; [|intros; apply preserves_ret]. apply frame_insert_until. intros; by eapply live_frame.
Qed.

Lemma leave_bars a c : (leave encode env a c).2 = c \/ barred (epoch_of c) (leave encode env a c).2.
Proof.
  unfold leave, after_check. destruct (is_group a); [|by left].
  apply transaction_bars. apply then_bars; [apply lock_chat_grows|intros _].
  apply then_bars; [eauto with grows|]. intros [role|]; [|apply bars_throw]. cbn zeta.
  apply then_bars; [eauto with grows|]. intros n. destruct (n =? 0).
  - apply bars_then; [apply bars_shred|eauto with grows].
  - apply then_bars; [destruct (bool_decide _); eauto using hand_over_grows with grows|]. intros rows.
    apply bars_then; [apply bars_mark|]. intros _. grow.
Qed.

Lemma remove_departs a target ban c :
  is_live u c -> is_live u (remove encode env a target ban c).2 \/ barred (epoch_of c) (remove encode env a target ban c).2.
Proof.
  intros Hu. unfold remove, after_check.
  destruct (match active a with Ok a => admin a | Err e => Err e end) as [actor|e]; [|by left].
  destruct (bool_decide (target = _)); [by left|]. cbn zeta.
  destruct (decide (target = u)) as [->|Hne].
  - (* the member itself *)
    apply barred_or_live; [done|].
    rewrite wp_bind, wp_lock_chat. destruct (lock c); [|done]. rewrite wp_bind, wp_gets.
    destruct Hu as (m & Hm & Hlive). unfold state_of. rewrite Hm. cbn [mbind option_bind].
    destruct (negb _); [done|]. rewrite Hlive.
    destruct ban; (match goal with |- wp ?b _ _ _ => enough (bars b) as Hb by apply Hb end; apply then_bars; [eauto with grows|];
      intros [role|]; [|destruct (bool_decide _); apply bars_throw]; apply bars_then; [apply bars_mark|]; intros _; grow).
  - left. apply (transaction_preserves (is_live u)); [|done].
    apply preserves_bind; [apply frame_lock_chat|intros _]. apply preserves_bind; [apply preserves_gets|].
    intros [[role state]|]; [|apply preserves_throw]. destruct (negb _); [apply preserves_throw|].
    assert (Hset : forall next from, preserves (is_live u) (sql (R := Change) (set_state (e_now env) target next from))).
    { intros next from. apply preserves_sql. intros c0 H. unfold set_state.
      destruct (members c0 !! target); [|done]. destruct (bool_decide _); [|done]. by apply live_insert. }
    assert (HF : forall c0 c1, members c1 = members c0 -> c_kind (row c1) = c_kind (row c0) -> is_live u c0 -> is_live u c1)
      by (intros; by eapply live_frame).
    destruct ban; (apply preserves_bind; [apply Hset|]; intros [?|]; [|destruct (bool_decide _); apply preserves_throw]).
    all: apply preserves_bind; [apply preserves_modify; destruct (live state); intros; [by eapply frame_mark_rekey|done]|intros _].
    all: cbn zeta; apply preserves_bind; [by apply frame_insert_until|intros ?].
    all: apply preserves_bind; [by apply preserves_sql|intros ?]; apply preserves_bind; [by apply preserves_modify|intros _].
    all: apply preserves_ret.
Qed.

(** Whoever is in is still in after a transaction, unless the epoch is over; only a
    declined invitation is different. *)
Lemma departure_bars {A} (t : Transaction A) c :
  declines t = false ->
  is_live u c -> is_live u (run_tx encode env t c).2 \/ barred (epoch_of c) (run_tx encode env t c).2.
Proof.
  intros Ht Hu. destruct (departing t) eqn:Hd.
  - destruct t; try discriminate Hd; cbn [run_tx].
    + destruct (leave_bars a c) as [->|?]; auto.
    + by apply remove_departs.
    + discriminate Ht.
    + destruct what; try discriminate Hd. cbn. unfold purge_members. destruct (is_deleted c) eqn:E; [|by left].
      right. left. done.
  - assert (HF : forall c0 c1, members c1 = members c0 -> c_kind (row c1) = c_kind (row c0) -> is_live u c0 -> is_live u c1)
      by (intros; by eapply live_frame).
    left. apply (run_tx_preserves (is_live u) HF); auto using live_activate, live_reopen, live_unban, live_mark_accepted,
      live_hide, live_prefs, live_flush.
    + destruct t; auto using live_set_role.
    + intros. apply add_preserves; auto using live_join_all.
    + intros. apply admit_preserves; auto using live_add_member.
Qed.
End departures.

(** ** The log *)

Definition log_ok (c : Conv) : Prop :=
  0 <= c_last_seq (row c)
  /\ (forall seq g, messages c !! seq = Some g -> g_seq g = seq /\ 1 <= seq <= c_last_seq (row c) /\ g_epoch g <= epoch_of c)
  /\ (forall e k, keys c !! e = Some k -> e <= epoch_of c)
  /\ clients_unique c.

Lemma log_ok_evolves c c' : evolves c c' -> log_ok c -> log_ok c'.
Proof.
  intros [_ Hs He _ _ Hm Hk Hc] (H0 & Hl & Hy & Hu). split; [lia|]. split; [|split; [|auto]].
  - intros seq g Hg. destruct (Hm _ _ Hg) as [(g0 & Hg0 & (E1 & _ & _ & E2 & _))|(_ & ? & ? & ? & _)].
    + destruct (Hl _ _ Hg0) as (? & ? & ?). rewrite E1, E2. lia.
    + lia.
  - intros e k H. destruct (Hk _ _ H) as [?%Hy|?]; lia.
Qed.

Lemma log_ok_empty r : c_last_seq r = 0 -> log_ok (empty_conv r).
Proof.
  intros H. split; [cbn; lia|]. split_and!.
  - intros seq g Hg. cbn in Hg. by rewrite lookup_empty in Hg.
  - intros e k Hk. cbn in Hk. by rewrite lookup_empty in Hk.
  - intros s s' g g' Hg. cbn in Hg. by rewrite lookup_empty in Hg.
Qed.

(** A conversation starts with a run of its own. *)
Lemma started_evolves encode c :
  started encode c -> exists r, c_last_seq r = 0 /\ evolves (empty_conv r) c.
Proof.
  destruct 1 as [env user people meta g c E|env user peer st c E|env user c E].
  all: match type of E with ?f = (_, ?c) => assert (c = f.2) as -> by (by rewrite E) end.
  all: unfold create_group, create_direct, create_saved; eexists; (split; [|apply transaction_grows; grow]); done.
Qed.

Lemma reachable_log encode s : reachable encode s -> log_ok (conv s).
Proof.
  intros (s0 & H0 & _ & Hsteps). eapply log_ok_evolves; [by eapply sys_steps_evolve|].
  destruct (started_evolves _ _ H0) as (r & Hr & He). eapply log_ok_evolves; [done|]. by apply log_ok_empty.
Qed.

(** C7: Forward secrecy of a conversation.  When somebody leaves, is kicked or banned, or
    goes in any other way than by declining an invitation, no key that was stored until
    then (and so none that anybody was given) opens a message a user sends from then on,
    whatever else happens and however stale the sender's view of the conversation is. *)
Theorem departed_cannot_read encode s A (t : Transaction A) env u s' e seq g :
  reachable encode s ->
  (forall a, access_of t = Some a -> a ∈ loaded s) -> s_clock s <= e_clock env -> declines t = false ->
  is_live u (conv s) -> ~ is_live u (run_tx encode env t (conv s)).2 ->
  rtc (sys_step encode) {| conv := (run_tx encode env t (conv s)).2; loaded := loaded s; s_clock := e_clock env |} s' ->
  is_Some (keys (conv s) !! e) ->
  messages (conv s') !! seq = Some g -> messages (run_tx encode env t (conv s)).2 !! seq = None -> g_class g <> System ->
  e < g_epoch g.
Proof.
  intros Hr _ _ Ht Hu Hnu Hsteps [k Hk] Hg Hn Hc.
  destruct (reachable_log _ _ Hr) as (_ & _ & Hy & _). pose proof (Hy _ _ Hk).
  destruct (departure_bars encode env u t (conv s) Ht Hu) as [?|Hb]; [done|].
  pose proof (sys_steps_evolve _ _ _ Hsteps) as Hev. cbn [conv] in Hev.
  pose proof (barred_messages _ _ _ _ _ Hev Hb Hg Hn Hc). lia.
Qed.
