(* ===== verification/ChatGroups.v ===== *)
(** * ChatGroups: who runs a group, and who gets in

    A conversation has at most one owner among its live members, whatever the order of the
    requests ([one_owner]); a group keeps an owner as long as roles are set by its owner of
    that moment ([owner_kept]), which the code does not ensure; a link lets in no more people
    than it has uses ([link_uses]).  [ChatSample] has runs in which a group loses its owner
    and grows past its limit. *)

From Stdlib Require Import ZArith Lia String.
From stdpp Require Import base list numbers option tactics sets gmap fin_maps relations.
From S2P Require Import Prelude Text AppError SealedGate ChatTables ChatOps ChatSystem ChatFacts.
Local Open Scope Z_scope.

(** ** At most one owner *)

Definition owner_live (m : MemberRow) : Prop := m_role m = Owner /\ live (m_state m) = true.

Record owners_ok (c : Conv) : Prop := {
  ow_unique : forall u v mu mv, members c !! u = Some mu -> members c !! v = Some mv ->
    owner_live mu -> owner_live mv -> u = v;
  ow_direct : forall u m, c_kind (row c) = Direct -> members c !! u = Some m -> m_role m <> Owner;
  ow_invited : forall u m, members c !! u = Some m -> m_role m = Owner -> m_state m <> Invited }.

Lemma owners_frame c c' :
  members c' = members c -> c_kind (row c') = c_kind (row c) -> owners_ok c -> owners_ok c'.
Proof. intros Hm Hk [U D V]. by split; rewrite ?Hm, ?Hk. Qed.

Lemma owners_mark_rekey c : owners_ok c -> owners_ok (mark_rekey c).
Proof. apply frame_mark_rekey, owners_frame. Qed.
Lemma owners_queue_trim c : owners_ok c -> owners_ok (queue_trim c).
Proof. by apply owners_frame. Qed.
Lemma owners_recount c : owners_ok c -> owners_ok (recount c).2.
Proof. by apply owners_frame. Qed.

(** A row that is rewritten makes no new owner. *)
Lemma owners_insert u m c :
  owners_ok c ->
  (owner_live m -> forall v mv, members c !! v = Some mv -> owner_live mv -> v = u) ->
  (m_role m = Owner -> c_kind (row c) <> Direct /\ m_state m <> Invited) ->
  owners_ok (set_members (<[u := m]> (members c)) c).
Proof.
  intros [U D V] Hold Hrole. split; cbn.
  - intros a b ma mb [[<- <-]|[Ha Hma]]%lookup_insert_Some [[<- <-]|[Hb Hmb]]%lookup_insert_Some Hoa Hob; [done| | |by eapply U].
    + symmetry. by eapply Hold.
    + by eapply Hold.
  - intros a ma Hk [[<- <-]|[_ Hma]]%lookup_insert_Some; [|by eapply D]. intros Hr. by destruct (Hrole Hr).
  - intros a ma [[<- <-]|[_ Hma]]%lookup_insert_Some Hr; [by destruct (Hrole Hr)|by eapply V].
Qed.

(** In particular when it keeps its role, and stays in or goes. *)
Lemma owners_rewrite u m m' c :
  owners_ok c -> members c !! u = Some m -> m_role m' = m_role m ->
  (live (m_state m') = true -> live (m_state m) = true) -> (m_state m' = Invited -> m_state m = Invited) ->
  owners_ok (set_members (<[u := m']> (members c)) c).
Proof.
  intros H Hm Hr Hl Hi. apply owners_insert; [done| |].
  - intros [Hr' Hl'] v mv Hv Hov. eapply (ow_unique _ H); eauto. split; [congruence|auto].
  - intros Hr'. split; [intros Hk; eapply (ow_direct _ H); eauto; congruence|].
    intros Hs. eapply (ow_invited _ H); eauto. congruence.
Qed.

Lemma owners_member u m c :
  owners_ok c -> m_role m <> Owner -> owners_ok (set_members (<[u := m]> (members c)) c).
Proof. intros H Hr. apply owners_insert; [done|by intros []|done]. Qed.

Lemma owners_set_state now u s from c :
  live s = false -> owners_ok c -> owners_ok (set_state now u s from c).2.
Proof.
  intros Hs H. unfold set_state. destruct (members c !! u) eqn:Hm; [|done]. destruct (bool_decide _); [|done].
  eapply owners_rewrite; eauto; cbn; [by rewrite Hs|by intros ->].
Qed.

Lemma owners_activate now u c : owners_ok c -> owners_ok (activate now u [Invited] c).2.
Proof.
  intros H. unfold activate. destruct (members c !! u) as [m|] eqn:Hm; [|done].
  destruct (bool_decide _) eqn:Hb; [|done]. bprop. apply list_elem_of_singleton in Hb.
  eapply owners_rewrite; eauto; cbn; by rewrite Hb.
Qed.

Lemma owners_reopen now u c : owners_ok c -> owners_ok (reopen now u c).2.
Proof.
  intros H. unfold reopen. destruct (c_kind (row c)) eqn:Hk; cbn; auto. unfold activate.
  destruct (members c !! u) as [m|] eqn:Hm; [|done]. destruct (bool_decide _); [|done].
  apply owners_member; [done|]. cbn. by eapply (ow_direct _ H).
Qed.

Lemma owners_mark_accepted now u c : owners_ok c -> owners_ok (mark_accepted now u c).
Proof. intros H. unfold mark_accepted. split_ifs; auto. by eapply owners_rewrite. Qed.
Lemma owners_hide now u c : owners_ok c -> owners_ok (hide_sql now u c).2.
Proof. intros H. unfold hide_sql. split_ifs; cbn; auto. by eapply owners_rewrite. Qed.
Lemma owners_prefs now u m t n p r c : owners_ok c -> owners_ok (prefs_sql now u m t n p r c).2.
Proof. intros H. unfold prefs_sql. split_ifs; cbn; auto; by eapply owners_rewrite. Qed.
Lemma owners_flush u s c : owners_ok c -> owners_ok (flush_mark u s c).
Proof. intros H. unfold flush_mark. split_ifs; auto. by eapply owners_rewrite. Qed.
Lemma owners_add_member now u s e i c : owners_ok c -> owners_ok (add_member now u s e i c).2.
Proof. intros H. unfold add_member. split_ifs; cbn; auto; by apply owners_member. Qed.

Lemma owners_join_all now s e i js c :
  Forall (fun j => j_role j <> Owner) js -> owners_ok c -> owners_ok (join_all now s e i js c).2.
Proof.
  intros Hjs. revert c. induction Hjs as [|j js Hj _ IH]; intros c H; cbn [join_all]; [done|].
  assert (H1 : owners_ok (join_one now s e i j c).2).
  { unfold join_one. destruct (may_join _ _); [|done]. by apply owners_member. }
  destruct (join_one now s e i j c) as [l c1]. specialize (IH c1 H1). by destruct (join_all now s e i js c1).
Qed.

Lemma placed_members people : Forall (fun j => j_role j <> Owner) (placed <$> people).
Proof. apply Forall_fmap, Forall_true. done. Qed.

(** Nobody owns it. *)
Definition no_owner (c : Conv) : Prop := forall u m, members c !! u = Some m -> ~ owner_live m.

Lemma owners_crown now u c :
  owners_ok c -> no_owner c -> c_kind (row c) <> Direct -> owners_ok (set_role_sql now u Owner c).2.
Proof.
  intros H Hno Hk. unfold set_role_sql. destruct (members c !! u) as [m|] eqn:Hm; [|done].
  destruct (is_active (m_state m)) eqn:Ha; [|done]. apply owners_insert; [done| |].
  - intros _ v mv Hv Hov. by destruct (Hno _ _ Hv).
  - intros _. split; [done|]. cbn. unfold is_active in Ha. bprop. by rewrite Ha.
Qed.

Lemma owners_dethrone now u role c : role <> Owner -> owners_ok c -> owners_ok (set_role_sql now u role c).2.
Proof. intros Hr H. unfold set_role_sql. split_ifs; cbn; auto. by apply owners_member. Qed.

Lemma step_down_leaves now u c : owners_ok c -> (step_down now u c).1 = true ->
  owners_ok (step_down now u c).2 /\ no_owner (step_down now u c).2
  /\ c_kind (row (step_down now u c).2) = c_kind (row c).
Proof.
  intros H. unfold step_down. destruct (members c !! u) as [m|] eqn:Hm; [|done].
  destruct (_ && _) eqn:Hb; [|done]. bprop. intros _. cbn. unfold is_active in *. bprop.
  split; [by apply owners_member|]. split; [|done]. unfold no_owner. cbn.
  intros v mv [[<- <-]|[Hne Hv]]%lookup_insert_Some [Hr Hl]; [done|].
  apply Hne. eapply (ow_unique _ H); eauto; split; auto. by match goal with E : m_state m = _ |- _ => rewrite E end.
Qed.

Lemma left_behind now u s from c role :
  owners_ok c -> live s = false -> Forall (fun s => live s = true) from ->
  (set_state now u s from c).1 = Some role -> role = Owner ->
  no_owner (set_state now u s from c).2 /\ c_kind (row c) <> Direct.
Proof.
  intros H Hs Hf. unfold set_state. destruct (members c !! u) as [m|] eqn:Hm; [|done].
  destruct (bool_decide _) eqn:Hb; [|done]. bprop. rewrite Forall_forall in Hf. cbn. intros [= <-] Hr.
  split; [|intros Hk; by eapply (ow_direct _ H)]. unfold no_owner. cbn.
  intros v mv [[<- <-]|[Hne Hv]]%lookup_insert_Some [Hr' Hl]; [cbn in Hl; congruence|].
  apply Hne. eapply (ow_unique _ H); eauto; split; auto.
Qed.

Section owners.
Context (encode : SystemEvent -> bytes) (env : Env).

Lemma wp_preserves {R A} (I : Conv -> Prop) (m : TX R A) c :
  preserves I m -> I c -> wp m (fun _ => I) (fun _ _ => True) c.
Proof.
  intros H Hc. specialize (H c Hc). with_strategy transparent [wp] unfold wp. by destruct (m c) as [[]].
Qed.

Lemma transaction_wp {R} (I : Conv -> Prop) (body : TX R R) c :
  I c -> wp body (fun _ => I) (fun _ _ => True) c -> I (transaction body c).2.
Proof.
  unfold transaction. with_strategy transparent [wp] unfold wp. by destruct (body c) as [[]].
Qed.

Lemma tail_insert {R A} (I : Conv -> Prop) id event (k : MessageRow -> TX R A) c :
  (forall c c', members c' = members c -> c_kind (row c') = c_kind (row c) -> I c -> I c') ->
  (forall g, preserves I (k g)) -> I c -> wp (insert_system encode env id event ≫= k) (fun _ => I) (fun _ _ => True) c.
Proof.
  intros HI Hk Hc. apply wp_preserves; [|done]. apply preserves_bind; [by apply frame_insert_until|done].
Qed.

Lemma owners_set_role a u r c :
  a_kind a = c_kind (row c) -> owners_ok c -> owners_ok (set_role encode env a u r c).2.
Proof.
  intros Hkind H. unfold set_role, active, admin, after_check.
  destruct (a_state a); try done. destruct (is_group a && _) eqn:Hg; [|done]. bprop. unfold is_group in *. bprop.
  destruct (negb _ || _); [done|]. apply transaction_wp; [done|].
  rewrite wp_bind, wp_lock_chat. destruct (lock c); [|done]. rewrite wp_bind.
  destruct (bool_decide (r = Owner)) eqn:Hr; bprop.
  - subst r. rewrite wp_bind, wp_sql. destruct ((step_down _ _ c).1) eqn:Hd; [|done].
    destruct (step_down_leaves _ _ _ H Hd) as (D1 & D2 & D3). rewrite wp_ret, wp_bind, wp_sql.
    assert (owners_ok (set_role_sql (e_now env) u Owner (step_down (e_now env) (a_user_id a) c).2).2)
      by (apply owners_crown; congruence || done).
    destruct (negb _); [done|]. apply tail_insert; [apply owners_frame|intros; apply preserves_ret|done].
  - rewrite wp_ret, wp_bind, wp_sql. destruct (negb _); [done|].
    apply tail_insert; [apply owners_frame|intros; apply preserves_ret|by apply owners_dethrone].
Qed.

Lemma owners_leave a c : owners_ok c -> owners_ok (leave encode env a c).2.
Proof.
  intros H. unfold leave, after_check. destruct (is_group a); [|done]. apply transaction_wp; [done|].
  rewrite wp_bind, wp_lock_chat. destruct (lock c); [|done]. rewrite wp_bind, wp_sql.
  destruct ((set_state _ _ _ _ c).1) as [role|] eqn:Hs; [|done].
  assert (H1 : owners_ok (set_state (e_now env) (a_user_id a) Left LIVE c).2) by by apply owners_set_state.
  pose proof (left_behind _ _ Left LIVE _ _ H eq_refl ltac:(by repeat constructor) Hs) as Hlast.
  assert (c_kind (row (set_state (e_now env) (a_user_id a) Left LIVE c).2) = c_kind (row c)) as Hk
    by apply (ev_kind _ _ (set_state_evolves _ _ _ _ _)).
  set (c1 := (set_state _ _ _ _ c).2) in *. clearbody c1. cbn zeta. rewrite wp_bind, wp_sql.
  assert (Hrec : owners_ok (recount c1).2) by by apply owners_recount.
  destruct (_ =? 0).
  { apply wp_preserves; [|done]. apply preserves_bind; [|intros; apply preserves_ret].
    apply preserves_sql. intros. eapply frame_shred; [apply owners_frame|done]. }
  rewrite wp_bind. eapply wp_mono with (Q := fun _ => owners_ok) (F := fun _ _ => True); [|done|].
  { intros rows c2 H2. apply wp_preserves; [|done].
    apply preserves_bind; [apply preserves_modify, owners_mark_rekey|intros _].
    apply preserves_bind; [apply preserves_modify, owners_queue_trim|intros _].
    apply preserves_bind; [apply frame_insert_until, owners_frame|intros; apply preserves_ret]. }
  destruct (bool_decide (role = Owner)) eqn:Hr; [|by rewrite wp_ret]. bprop.
  destruct (Hlast Hr) as [Hno Hd]. unfold hand_over. rewrite wp_bind, wp_gets.
  destruct (successor _ _); [|by rewrite wp_ret]. rewrite wp_bind, wp_sql.
  apply tail_insert; [apply owners_frame|intros; apply preserves_ret|].
  apply owners_crown; [done| |cbn; congruence].
  intros x m Hm. cbn in Hm. by eapply Hno.
Qed.

Lemma owners_remove a target ban c : owners_ok c -> owners_ok (remove encode env a target ban c).2.
Proof.
  intros H. unfold remove. do 2 (apply after_check_preserves; [done|intros ?]). cbn zeta.
  apply (transaction_preserves owners_ok); [|done].
  apply preserves_bind; [apply frame_lock_chat|intros _]. apply preserves_bind; [apply preserves_gets|].
  intros [[role state]|]; [|apply preserves_throw]. destruct (negb _); [apply preserves_throw|].
  destruct ban; (apply preserves_bind; [apply preserves_sql; intros; by apply owners_set_state|]);
    (intros [?|]; [|destruct (bool_decide _); apply preserves_throw]).
  all: apply preserves_bind;
    [apply preserves_modify; destruct (live state); [apply owners_mark_rekey|done]|intros _].
  all: cbn zeta; apply preserves_bind; [apply frame_insert_until, owners_frame|intros ?].
  all: apply preserves_bind; [apply preserves_sql, owners_recount|intros ?].
  all: apply preserves_bind; [apply preserves_modify, owners_queue_trim|intros _]; apply preserves_ret.
Qed.

Lemma owners_run_tx {A} (t : Transaction A) c :
  (forall a, access_of t = Some a -> a_kind a = c_kind (row c)) -> owners_ok c -> owners_ok (run_tx encode env t c).2.
Proof.
  intros Ha H. destruct (departing t) eqn:Hd.
  - destruct t; try discriminate Hd; cbn [run_tx]; auto using owners_leave, owners_remove.
    + unfold decline. apply (transaction_preserves owners_ok); [|done].
      apply preserves_bind; [apply frame_lock_chat|intros _].
      apply preserves_bind; [apply preserves_sql; intros; by apply owners_set_state|].
      intros [?|]; [|destruct (a_state a); apply preserves_throw].
      apply preserves_bind; [apply preserves_modify, owners_queue_trim|intros; apply preserves_ret].
    + destruct what; try discriminate Hd. cbn. unfold purge_members. destruct (is_deleted c); [|done].
      split; cbn; intros *; by rewrite lookup_empty.
  - apply (run_tx_preserves owners_ok owners_frame); auto using owners_activate, owners_reopen, owners_mark_accepted,
      owners_hide, owners_prefs, owners_flush.
    + intros. by apply owners_set_state.
    + destruct t; auto. apply owners_set_role; auto.
    + intros. apply (add_preserves owners_ok owners_frame); auto. intros. apply owners_join_all; auto using placed_members.
    + intros. apply (admit_preserves owners_ok owners_frame); auto using owners_add_member.
Qed.
End owners.

(** ** Reachable systems *)

(** Accesses are of this conversation, whose kind stays. *)
Lemma loaded_kind encode s a : reachable encode s -> a ∈ loaded s -> a_kind a = c_kind (row (conv s)).
Proof.
  intros (s0 & _ & H0 & Hsteps). revert a. pattern s. eapply rtc_ind_r; [| |exact Hsteps]; cbn.
  - rewrite H0. set_solver.
  - intros s1 s2 _ Hstep IH a Ha. pose proof (sys_step_evolves _ _ _ Hstep) as Hev.
    destruct Hstep as [user b Hb|B t env Hacc Hclock]; cbn in *.
    + apply elem_of_cons in Ha as [->|Ha]; [|auto]. unfold load in Hb. destruct (if is_deleted _ then _ else _); by simplify_eq.
    + rewrite IH by done. symmetry. apply Hev.
Qed.

Lemma reachable_step encode s s' : reachable encode s -> sys_step encode s s' -> reachable encode s'.
Proof. intros (s0 & H0 & Hl & Hsteps) Hstep. exists s0. split_and!; [done|done|]. by eapply rtc_r. Qed.

Lemma owners_started encode c : started encode c -> owners_ok c.
Proof.
  assert (Hempty : forall r, owners_ok (empty_conv r)) by (intros; split; cbn; intros *; by rewrite lookup_empty).
  destruct 1 as [env user people meta g c E|env user peer st c E|env user c E].
  all: match type of E with ?f = (_, ?c) => assert (c = f.2) as -> by (by rewrite E) end; clear E.
  - unfold create_group. apply transaction_wp; [done|]. unfold join_many. rewrite wp_bind.
    destruct (bool_decide _) eqn:Hn; [|done]. bprop. rewrite wp_sql.
    apply wp_preserves; [apply preserves_bind; [apply frame_insert_until, owners_frame|intros ?];
      apply preserves_bind; [apply preserves_sql, owners_recount|intros; apply preserves_ret]|].
    cbn [join_all fmap list_fmap]. unfold join_one. cbn [members empty_conv j_user_id creator_joining].
    rewrite lookup_empty. cbn [may_join].
    match goal with |- context [join_all _ _ _ _ _ ?c1] => assert (owners_ok c1) as H1 end.
    { apply owners_insert; [done| |done]. intros _ v mv. cbn. by rewrite lookup_empty. }
    match goal with |- context [join_all ?a ?b ?d ?e ?f ?c1] =>
      pose proof (owners_join_all a b d e f c1 (placed_members people) H1) as H2; by destruct (join_all a b d e f c1) end.
  - unfold create_direct. apply transaction_wp; [done|]. unfold join_many. rewrite wp_bind.
    destruct (bool_decide _) eqn:Hn; [|done]. rewrite wp_sql.
    apply wp_preserves; [apply preserves_bind; [apply preserves_sql, owners_recount|intros; apply preserves_ret]|].
    apply owners_join_all; [by repeat constructor|done].
  - unfold create_saved. apply transaction_wp; [done|]. unfold join_many. rewrite wp_bind.
    destruct (bool_decide _) eqn:Hn; [|done]. rewrite wp_sql.
    apply wp_preserves; [apply preserves_bind; [apply preserves_sql, owners_recount|intros; apply preserves_ret]|].
    cbn [join_all]. unfold join_one. cbn [members empty_conv j_user_id creator_joining]. rewrite lookup_empty. cbn [may_join].
    apply owners_insert; [done| |done]. intros _ v mv. cbn. by rewrite lookup_empty.
Qed.

(** C12: At any time at most one live member of a conversation is its owner, however the
    requests interleave and however stale the roles they were admitted with are; in a
    direct conversation nobody is, and an invitation never makes one. *)
Theorem one_owner encode s u v mu mv :
  reachable encode s ->
  members (conv s) !! u = Some mu -> m_role mu = Owner -> live (m_state mu) = true ->
  members (conv s) !! v = Some mv -> m_role mv = Owner -> live (m_state mv) = true ->
  u = v /\ c_kind (row (conv s)) <> Direct /\ m_state mu = Active.
Proof.
  intros Hr Hu Ru Lu Hv Rv Lv.
  assert (owners_ok (conv s)) as H.
  { destruct Hr as (s0 & H0 & Hl & Hsteps).
    assert (Hgoal : reachable encode s /\ owners_ok (conv s)); [|apply Hgoal].
    clear Hu Hv. pattern s. eapply rtc_ind_r; [| |exact Hsteps]; cbn.
    - split; [by exists s0|by eapply owners_started].
    - intros s1 s2 _ Hstep [Hr1 H1]. split; [by eapply reachable_step|].
      destruct Hstep as [|B t env Hacc Hclock]; cbn; [done|]. apply owners_run_tx; [|done].
      intros a Ha. eapply loaded_kind; eauto. }
  split; [by eapply (ow_unique _ H)|]. split; [intros Hk; by eapply (ow_direct _ H)|].
  destruct (m_state mu) eqn:E; try discriminate Lu; [done|]. by destruct (ow_invited _ H _ _ Hu).
Qed.

(** ** A group keeps an owner *)

Definition owns (u : str) (c : Conv) : Prop :=
  exists m, members c !! u = Some m /\ m_role m = Owner /\ m_state m = Active.
Definition owned (c : Conv) : Prop := exists u, owns u c.

Lemma owns_frame u c c' : members c' = members c -> c_kind (row c') = c_kind (row c) -> owns u c -> owns u c'.
Proof. unfold owns. by intros ->. Qed.

Lemma owned_frame c c' : members c' = members c -> c_kind (row c') = c_kind (row c) -> owned c -> owned c'.
Proof. intros ? ? [u Hu]. exists u. by eapply owns_frame. Qed.

Lemma owns_insert u x m c :
  owns u c -> (x = u -> m_role m = Owner /\ m_state m = Active) -> owns u (set_members (<[x := m]> (members c)) c).
Proof.
  intros (m0 & Hm & Hr & Hs) Hx. destruct (decide (x = u)) as [->|Hne].
  - exists m. cbn. rewrite lookup_insert_eq. by destruct Hx.
  - exists m0. cbn. by rewrite lookup_insert_ne.
Qed.

(** A row of the owner is not touched by what takes other states. *)
Lemma owns_other u m (from : list MemberState) c : owns u c -> members c !! u = Some m -> bool_decide (m_state m ∈ from) = true -> Active ∈ from.
Proof. intros (m0 & Hm & _ & <-) ? ?. bprop. congruence. Qed.

Lemma owns_row u m c : owns u c -> members c !! u = Some m -> m_role m = Owner /\ m_state m = Active.
Proof. intros (m0 & Hm & ? & ?) ?. by simplify_eq. Qed.

Section owner.
Context (encode : SystemEvent -> bytes) (env : Env) (u : str).

Lemma owns_set_state x s from c : Active ∉ from -> owns u c -> owns u (set_state (e_now env) x s from c).2.
Proof.
  intros Hf H. unfold set_state. destruct (members c !! x) as [m|] eqn:Hm; [|done].
  destruct (bool_decide _) eqn:Hb; [|done]. apply owns_insert; [done|]. intros ->. by destruct Hf; eapply owns_other.
Qed.
Lemma owns_set_state_ne x s from c : x <> u -> owns u c -> owns u (set_state (e_now env) x s from c).2.
Proof. intros Hx H. unfold set_state. split_ifs; cbn; auto. by apply owns_insert. Qed.
Lemma owns_activate x from c : owns u c -> owns u (activate (e_now env) x from c).2.
Proof.
  intros H. unfold activate. destruct (members c !! x) as [m|] eqn:Hm; [|done].
  destruct (bool_decide _); [|done]. apply owns_insert; [done|]. intros ->. by destruct (owns_row _ _ _ H Hm).
Qed.
Lemma owns_reopen x c : owns u c -> owns u (reopen (e_now env) x c).2.
Proof. intros H. unfold reopen. destruct (c_kind _); cbn; auto using owns_activate. Qed.

Ltac same := split_ifs; cbn; auto; (apply owns_insert; [done|intros ->; cbn; eauto using owns_row]).

Lemma owns_mark_accepted x c : owns u c -> owns u (mark_accepted (e_now env) x c).
Proof. intros H. unfold mark_accepted. same. Qed.
Lemma owns_hide x c : owns u c -> owns u (hide_sql (e_now env) x c).2.
Proof. intros H. unfold hide_sql. same. Qed.
Lemma owns_prefs x m t n p r c : owns u c -> owns u (prefs_sql (e_now env) x m t n p r c).2.
Proof. intros H. unfold prefs_sql. same. Qed.
Lemma owns_flush x s c : owns u c -> owns u (flush_mark x s c).
Proof. intros H. unfold flush_mark. same. Qed.

Lemma owns_may_join from c : Active ∉ from -> owns u c -> may_join from (members c !! u) = false.
Proof. intros Hf (m & Hm & _ & Hs). rewrite Hm. cbn. by rewrite Hs, bool_decide_eq_false_2. Qed.

Lemma owns_add_member x s e i c : owns u c -> owns u (add_member (e_now env) x s e i c).2.
Proof.
  intros H. unfold add_member. destruct (may_join _ _) eqn:Hj; [|done]. apply owns_insert; [done|]. intros ->.
  rewrite owns_may_join in Hj; [done|set_solver|done].
Qed.

Lemma owns_join_all s e i js c : owns u c -> owns u (join_all (e_now env) s e i js c).2.
Proof.
  revert c. induction js as [|j js IH]; intros c H; cbn [join_all]; [done|].
  assert (H1 : owns u (join_one (e_now env) s e i j c).2).
  { unfold join_one. destruct (may_join _ _) eqn:Hj; [|done]. apply owns_insert; [done|]. intros E. rewrite E in Hj.
    rewrite owns_may_join in Hj; [done|set_solver|done]. }
  destruct (join_one _ _ _ _ j c) as [l c1]. specialize (IH c1 H1). by destruct (join_all _ _ _ _ js c1).
Qed.

Lemma owns_set_role_ne x r c : x <> u -> owns u c -> owns u (set_role_sql (e_now env) x r c).2.
Proof. intros Hx H. unfold set_role_sql. split_ifs; cbn; auto. by apply owns_insert. Qed.

Lemma owns_crown c : owns u c -> owns u (set_role_sql (e_now env) u Owner c).2.
Proof.
  intros (m & Hm & _ & Hs). unfold set_role_sql. rewrite Hm. unfold is_active. rewrite bool_decide_eq_true_2 by done.
  eexists. cbn. by rewrite lookup_insert_eq.
Qed.

(** The owner's own change of roles leaves an owner. *)
Lemma owned_set_role a x r c : a_user_id a = u -> owns u c -> owned (set_role encode env a x r c).2.
Proof.
  intros Ha H. unfold set_role, after_check.
  destruct (match active a with Ok a => admin a | Err e => Err e end) as [actor|e] eqn:Hact; [|by exists u].
  assert (actor = a) as ->.
  { unfold active, admin in Hact. destruct (a_state a); try done. destruct (_ && _); by simplify_eq. }
  destruct (negb _ || _) eqn:Hx; [by exists u|]. bprop. rewrite Ha in *.
  apply transaction_wp; [by exists u|]. rewrite wp_bind, wp_lock_chat. destruct (lock c); [|done]. rewrite wp_bind.
  destruct (bool_decide (r = Owner)) eqn:Hr; bprop.
  - subst r. rewrite wp_bind, wp_sql. destruct ((step_down _ _ c).1); [|done]. rewrite wp_ret, wp_bind, wp_sql.
    destruct (negb _) eqn:Hdone; [done|]. bprop.
    apply tail_insert; [apply owned_frame|intros; apply preserves_ret|].
    revert Hdone. unfold set_role_sql. destruct (members _ !! x) as [m|] eqn:Hm; [|done].
    destruct (is_active _) eqn:Hac; [|done]. intros _. exists x, (m_with Owner (m_state m) (m_accepted m) (e_now env) m).
    cbn. rewrite lookup_insert_eq. unfold is_active in Hac. bprop. auto.
  - rewrite wp_ret, wp_bind, wp_sql. destruct (negb _); [done|].
    apply tail_insert; [apply owned_frame|intros; apply preserves_ret|]. exists u. by apply owns_set_role_ne.
Qed.

Lemma owns_remove a target ban c : owns u c -> owns u (remove encode env a target ban c).2.
Proof.
  intros H. unfold remove. do 2 (apply after_check_preserves; [done|intros ?]). cbn zeta.
  apply transaction_wp; [done|]. rewrite wp_bind, wp_lock_chat. destruct (lock c); [|done]. rewrite wp_bind, wp_gets.
  destruct (state_of target c) as [[role state]|] eqn:Hst; [|done].
  destruct (negb _) eqn:Hmay; [done|]. bprop.
  assert (target <> u) as Hne.
  { intros ->. destruct H as (m & Hm & Hr & _). unfold state_of in Hst. rewrite Hm in Hst. cbn in Hst. simplify_eq.
    rewrite Hr in Hmay. by destruct (a_role _). }
  destruct ban; (apply wp_preserves; [|done]); (apply preserves_bind;
    [apply preserves_sql; intros; by apply owns_set_state_ne|]); (intros [?|]; [|destruct (bool_decide _); apply preserves_throw]).
  all: apply preserves_bind;
    [apply preserves_modify; destruct (live state); [apply frame_mark_rekey, owns_frame|done]|intros _].
  all: cbn zeta; apply preserves_bind; [apply frame_insert_until, owns_frame|intros ?].
  all: apply preserves_bind; [apply preserves_sql, frame_recount, owns_frame|intros ?].
  all: apply preserves_bind; [apply preserves_modify, frame_queue_trim, owns_frame|intros _]; apply preserves_ret.
Qed.

(** Somebody active is left to inherit. *)
Lemma successor_exists x c :
  (forall m, members c !! x = Some m -> m_state m <> Active) -> member_count_where is_active c <> 0 ->
  exists heir m, successor x c = Some heir /\ members c !! heir = Some m /\ m_state m = Active.
Proof.
  intros Hx Hn. unfold successor.
  set (l := List.filter _ _). pose proof (sort_by_perm heir_le l) as Hp.
  destruct (sort_by heir_le l) as [|[h m] l'] eqn:E.
  - apply Permutation_nil_l in Hp. exfalso. apply Hn. unfold member_count_where.
    assert (filter (fun y : str * MemberRow => is_active (m_state y.2) = true) (members c) = ∅) as ->; [|done].
    apply map_eq. intros y. rewrite lookup_empty. apply map_lookup_filter_None. right. intros my Hy Hact. cbn in Hact.
    assert ((y, my) ∈ l) as Hin; [|by rewrite <- Hp in Hin; apply not_elem_of_nil in Hin].
    subst l. apply list_elem_of_In, filter_In. split; [by apply list_elem_of_In, elem_of_map_to_list|].
    cbn. rewrite Hact. cbn. rewrite negb_true_iff, bool_decide_eq_false_2; [done|]. intros ->.
    apply (Hx _ Hy). unfold is_active in Hact. by bprop.
  - exists h, m. split; [done|].
    assert ((h, m) ∈ l) as Hin by (rewrite <- Hp; by left).
    apply list_elem_of_In, filter_In in Hin as [Hin Hact]. apply list_elem_of_In, elem_of_map_to_list in Hin.
    cbn in Hact. bprop. unfold is_active in *. by bprop.
Qed.

Lemma shred_deletes now c : is_deleted (shred now c).2 = true.
Proof. unfold shred. by destruct (is_deleted c) eqn:E. Qed.

Lemma owned_leave a c : owns u c -> owned (leave encode env a c).2 \/ is_deleted (leave encode env a c).2 = true.
Proof.
  intros H. unfold leave, after_check. destruct (is_group a); [|left; by exists u].
  apply (transaction_wp (fun c => owned c \/ is_deleted c = true)); [left; by exists u|].
  rewrite wp_bind, wp_lock_chat. destruct (lock c); [|done]. rewrite wp_bind, wp_sql.
  destruct ((set_state _ _ _ _ c).1) as [role|] eqn:Hs; [|done]. cbn zeta. rewrite wp_bind, wp_sql.
  destruct (_ =? 0) eqn:Hn.
  { rewrite wp_bind, wp_sql, wp_ret. right. apply shred_deletes. }
  rewrite wp_bind. eapply wp_mono with (Q := fun _ => owned) (F := fun _ _ => True); [|done|].
  { intros rows c2 H2. eapply wp_mono with (Q := fun _ => owned) (F := fun _ _ => True); [intros; by left|done|].
    apply wp_preserves; [|done].
    apply preserves_bind; [apply preserves_modify, frame_mark_rekey, owned_frame|intros _].
    apply preserves_bind; [apply preserves_modify, frame_queue_trim, owned_frame|intros _].
    apply preserves_bind; [apply frame_insert_until, owned_frame|intros; apply preserves_ret]. }
  unfold set_state in *. destruct (members c !! a_user_id a) as [m|] eqn:Hm; [|done].
  destruct (bool_decide _); [|done]. cbn in Hs. injection Hs as Hrole.
  destruct (decide (a_user_id a = u)) as [Hu|Hu].
  - rewrite Hu in *. destruct (owns_row _ _ _ H Hm) as [Hr _]. rewrite Hr in Hrole. subst role.
    rewrite bool_decide_eq_true_2 by done. unfold hand_over. rewrite wp_bind, wp_gets, Hu.
    match goal with |- context [recount ?c1] => set (c2 := recount c1) in * end.
    edestruct (successor_exists u c2.2) as (heir & mh & -> & Hh & Ha).
    { intros m1. cbn. rewrite lookup_insert_eq. by intros [= <-]. }
    { intros Hz. apply Z.eqb_neq in Hn. apply Hn. exact Hz. }
    rewrite wp_bind, wp_sql. apply tail_insert; [apply owned_frame|intros; apply preserves_ret|].
    unfold set_role_sql. rewrite Hh. unfold is_active. rewrite bool_decide_eq_true_2 by done. cbn.
    eexists heir, _. cbn. rewrite lookup_insert_eq. split; [done|]. auto.
  - assert (Hkeep : owns u (set_members (<[a_user_id a := m_with (m_role m) Left (m_accepted m) (e_now env) m]> (members c)) c))
      by by apply owns_insert.
    destruct (bool_decide (role = Owner)); [|rewrite wp_ret; exists u; by eapply owns_frame].
    unfold hand_over. rewrite wp_bind, wp_gets. destruct (successor _ _) as [heir|]; [|rewrite wp_ret; exists u; by eapply owns_frame].
    rewrite wp_bind, wp_sql. apply tail_insert; [apply owned_frame|intros; apply preserves_ret|].
    destruct (decide (heir = u)) as [->|Hne].
    + exists u. apply owns_crown. by eapply owns_frame.
    + exists u. apply owns_set_role_ne; [done|]. by eapply owns_frame.
Qed.
End owner.

(** Roles are set by who owns the group at that moment. *)
Definition owner_acts {A} (t : Transaction A) (c : Conv) : Prop :=
  match t with TSetRole a _ _ => owns (a_user_id a) c | _ => True end.

Inductive careful_step (encode : SystemEvent -> bytes) (s : Sys) : Sys -> Prop :=
| careful_load user a :
    load user (conv s) = Ok a ->
    careful_step encode s {| conv := conv s; loaded := a :: loaded s; s_clock := s_clock s |}
| careful_tx A (t : Transaction A) env :
    (forall a, access_of t = Some a -> a ∈ loaded s) -> s_clock s <= e_clock env -> owner_acts t (conv s) ->
    careful_step encode s {| conv := (run_tx encode env t (conv s)).2; loaded := loaded s; s_clock := e_clock env |}.

Lemma owned_run_tx encode env {A} (t : Transaction A) c :
  owned c -> owner_acts t c -> owned (run_tx encode env t c).2 \/ is_deleted (run_tx encode env t c).2 = true.
Proof.
  intros [u Hu] Hact. destruct (departing t) eqn:Hd.
  - destruct t; try discriminate Hd; cbn [run_tx].
    + by eapply owned_leave.
    + left. exists u. by apply owns_remove.
    + left. exists u. unfold decline. apply (transaction_preserves (owns u)); [|done].
      apply preserves_bind; [apply frame_lock_chat|intros _].
      apply preserves_bind; [apply preserves_sql; intros; apply owns_set_state; [set_solver|done]|].
      intros [?|]; [|destruct (a_state a); apply preserves_throw].
      apply preserves_bind; [apply preserves_modify, frame_queue_trim, owns_frame|intros; apply preserves_ret].
    + destruct what; try discriminate Hd. cbn. unfold purge_members. destruct (is_deleted c) eqn:E; [by right|left; by exists u].
  - left. destruct (match t with TSetRole _ _ _ => true | _ => false end) eqn:Hset.
    + destruct t; try discriminate Hset. by eapply owned_set_role.
    + exists u. apply (run_tx_preserves (owns u) (owns_frame u)); auto using owns_activate, owns_reopen, owns_mark_accepted,
        owns_hide, owns_prefs, owns_flush.
      * intros. apply owns_set_state; [set_solver|done].
      * by destruct t.
      * intros. apply (add_preserves (owns u) (owns_frame u)); auto using owns_join_all.
      * intros. apply (admit_preserves (owns u) (owns_frame u)); auto using owns_add_member.
Qed.

(** A body that ends early only to fail. *)
Definition fails_only {R A} (m : TX R A) : Prop :=
  forall c, wp m (fun _ _ => True) (fun r _ => exists e, r = Err e) c.

Lemma fails_only_bind {R A B} (m : TX R A) (k : A -> TX R B) :
  fails_only m -> (forall a, fails_only (k a)) -> fails_only (m ≫= k).
Proof. intros Hm Hk c. rewrite wp_bind. eapply wp_mono; [| |apply Hm]; [intros; apply Hk|auto]. Qed.

Lemma fails_only_until {R} encode env id event target expires :
  fails_only (insert_until (R := R) encode env id event target expires).
Proof.
  intros c. unfold insert_until. rewrite wp_bind. with_strategy transparent [wp] unfold wp at 1.
  unfold advance_system. destruct (is_deleted c); [by eexists|]. destruct (_ =? _); [by eexists|]. cbn beta iota.
  rewrite wp_bind, wp_insert_message. destruct (is_some _); [unfold bail; rewrite wp_throw; by eexists|].
  destruct (messages _ !! _); [by eexists|by rewrite wp_ret].
Qed.

Lemma fails_only_insert {R} encode env id event : fails_only (insert_system (R := R) encode env id event).
Proof. apply fails_only_until. Qed.

Lemma fails_only_bail {R A} e : fails_only (R := R) (A := A) (bail e).
Proof. intros c. unfold bail. rewrite wp_throw. by eexists. Qed.

Lemma transaction_Ok {R} (I : Conv -> Prop) (body : TX R R) c r c' :
  fails_only body -> wp body (fun _ => I) (fun _ _ => True) c -> transaction body c = (Ok r, c') -> I c'.
Proof.
  intros Hf H. specialize (Hf c). unfold transaction. with_strategy transparent [wp] unfold wp in *.
  destruct (body c) as [[a|x] c1]; [by intros [= _ <-]|]. destruct Hf as [e ->]. discriminate.
Qed.

Lemma owned_created encode env user people meta g c :
  create_group encode env user people meta = (Ok g, c) -> owned c.
Proof.
  unfold create_group. apply transaction_Ok.
  { apply fails_only_bind; [|intros _; apply fails_only_bind; [apply fails_only_insert|]].
    - intros c0. unfold join_many. destruct (bool_decide _); [by rewrite wp_sql|unfold db_error, bail; rewrite wp_throw; by eexists].
    - intros ?. apply fails_only_bind; [intros c0; by rewrite wp_sql|intros ? c0; by rewrite wp_ret]. }
  unfold join_many. rewrite wp_bind. destruct (bool_decide _); [|done]. rewrite wp_sql.
  apply wp_preserves; [apply preserves_bind; [apply frame_insert_until, owned_frame|intros ?];
    apply preserves_bind; [apply preserves_sql, frame_recount, owned_frame|intros; apply preserves_ret]|].
  exists user. cbn [join_all fmap list_fmap]. unfold join_one. cbn [members empty_conv j_user_id creator_joining].
  rewrite lookup_empty. cbn [may_join].
  match goal with |- context [join_all ?a ?b ?d ?e ?f ?c1] =>
    assert (owns user c1) as H1; [|pose proof (owns_join_all env user b d e f c1 H1) as H2; by destruct (join_all a b d e f c1)] end.
  eexists. cbn. by rewrite lookup_insert_eq.
Qed.

(** C24: A group that was created and not deleted always has an active owner, also when the
    owner leaves (the group is handed over, or goes with its last active member), as long as
    every change of a role is made by who owns the group when the change is committed. *)
Theorem owner_kept encode env user people meta g c s0 s :
  create_group encode env user people meta = (Ok g, c) -> conv s0 = c -> rtc (careful_step encode) s0 s ->
  is_deleted (conv s) = false -> exists u m, members (conv s) !! u = Some m /\ m_role m = Owner /\ m_state m = Active.
Proof.
  intros Hc <- Hsteps Hd.
  assert (owned (conv s) \/ is_deleted (conv s) = true) as [[u Hu]|?]; [|by exists u|congruence].
  clear Hd. pattern s. eapply rtc_ind_r; [| |exact Hsteps]; cbn.
  - left. by eapply owned_created.
  - intros s1 s2 _ Hstep [H|H].
    + destruct Hstep; cbn; [by left|by apply owned_run_tx].
    + right. destruct Hstep; cbn; [done|]. by eapply ev_deleted; [apply run_tx_evolves|].
Qed.

(** ** Links *)

Definition uses (hash : bytes) (c : Conv) : option Z := i ← invites c !! hash; i_uses_left i.

(** The use a link is put to. *)
Definition joins {A} (hash : bytes) (t : Transaction A) (r : result A ChatError) : bool :=
  match t in Transaction A return result A ChatError -> bool with
  | TJoin h _ => fun r => bool_decide (h = hash) && match r with Ok _ => true | Err _ => false end
  | _ => fun _ => false
  end r.

(** No other link has its secret. *)
Definition makes {A} (hash : bytes) (t : Transaction A) : bool :=
  match t with TInvite h _ _ _ => bool_decide (h = hash) | _ => false end.

Section links.
Context (encode : SystemEvent -> bytes).

(** How many people a link let in during a run. *)
Fixpoint let_in (hash : bytes) (l : list (Env * {A & Transaction A})) (c : Conv) : Z :=
  match l with
  | [] => 0
  | (env, existT _ t) :: l' =>
      let r := run_tx encode env t c in
      (if joins hash t r.1 then 1 else 0) + let_in hash l' r.2
  end.

Context (hash : bytes) (env : Env).

Definition left_with (n : Z) (c : Conv) : Prop :=
  forall i, invites c !! hash = Some i -> exists k, i_uses_left i = Some k /\ k <= n.

Lemma left_frame n c c' : invites c' = invites c -> left_with n c -> left_with n c'.
Proof. unfold left_with. by intros ->. Qed.

Lemma left_insert_until {R} n id event target expires :
  preserves (left_with n) (insert_until (R := R) encode env id event target expires).
Proof.
  intros c Hc. unfold insert_until, advance_system, mbind, ST_bind.
  destruct (is_deleted c); [done|]. destruct (_ =? _); [done|]. cbn beta iota. unfold insert_message.
  destruct (is_some _); cbn; [done|]. by destruct (messages c !! _).
Qed.

Lemma join_all_invites now s e i js c : invites (join_all now s e i js c).2 = invites c.
Proof.
  revert c. induction js as [|j js IH]; intros c; cbn [join_all]; [done|].
  assert (invites (join_one now s e i j c).2 = invites c) as H by (unfold join_one; by destruct (may_join _ _)).
  destruct (join_one now s e i j c) as [l c1]. specialize (IH c1). destruct (join_all now s e i js c1). cbn in *. congruence.
Qed.

Lemma step_invites now :
  (forall u s from c, invites (set_state now u s from c).2 = invites c)
  /\ (forall u from c, invites (activate now u from c).2 = invites c)
  /\ (forall u r c, invites (set_role_sql now u r c).2 = invites c)
  /\ (forall u c, invites (step_down now u c).2 = invites c)
  /\ (forall u c, invites (hide_sql now u c).2 = invites c)
  /\ (forall u s e i c, invites (add_member now u s e i c).2 = invites c)
  /\ (forall c, invites (shred now c).2 = invites c)
  /\ (forall t c, invites (set_ttl_sql t c).2 = invites c)
  /\ (forall p c, invites (merge_settings_sql p c).2 = invites c)
  /\ (forall ct e c, invites (set_meta_sql ct e c).2 = invites c)
  /\ (forall c, invites (mark_rekey c) = invites c).
Proof.
  split_and!; intros; unfold set_state, activate, set_role_sql, step_down, hide_sql, add_member, shred, set_ttl_sql,
    merge_settings_sql, set_meta_sql, mark_rekey; split_ifs; done.
Qed.

Ltac framed := destruct (step_invites (e_now env)) as (? & ? & ? & ? & ? & ? & ? & ? & ? & ? & ?).

Ltac left_keep :=
  let ins _ := (apply left_insert_until) in
  let stmt _ := (eapply left_frame; [|eassumption]; cbn; first [reflexivity|by auto|apply join_all_invites]) in
  walk ins stmt.

Ltac left_kept := repeat (apply after_check_preserves; [done|intros ?]); cbn beta zeta;
  first [apply (transaction_preserves (left_with _)); [|done]; left_keep | idtac].

Lemma left_hide n a c : left_with n c -> left_with n (hide env a c).2.
Proof. intros Hc. unfold hide. framed. left_kept. Qed.

Lemma left_run_tx n {A} (t : Transaction A) c :
  match t with TJoin _ _ => False | _ => True end -> makes hash t = false -> left_with n c ->
  left_with n (run_tx encode env t c).2.
Proof.
  intros Hj Hm Hc. framed. destruct t; try done; cbn [run_tx plain snd]; auto using left_hide.
  - unfold leave. left_kept.
  - unfold remove. left_kept.
  - unfold unban. left_kept. eapply left_frame; [|exact Hc]; cbn; auto.
  - unfold set_role. left_kept.
  - unfold accept. left_kept.
  - unfold decline. left_kept.
  - unfold add. apply after_check_preserves; [done|]. intros actor. cbn zeta. destruct (bool_decide _); [done|]. left_kept.
  - unfold reopen. destruct (c_kind _); try done. eapply left_frame; [|exact Hc]; cbn; auto.
  - cbn in Hm. bprop. unfold transaction, insert_invite. destruct (invites c !! hash0); [done|]. cbn.
    intros i. cbn. rewrite lookup_insert_ne by done. apply Hc.
  - unfold revoke_sql. destruct (invites c !! hash0) as [i|] eqn:Hi; [|done]. split_ifs; cbn; try done.
    all: intros i'; cbn; destruct (decide (hash0 = hash)) as [->|Hne];
      [rewrite lookup_insert_eq; intros [= <-]; cbn; by apply Hc|rewrite lookup_insert_ne by done; apply Hc].
  - unfold patch. left_kept.
  - unfold prefs_sql. split_ifs; done.
  - unfold delete_for_everyone. left_kept. destruct (bool_decide _).
    + enough (left_with n (hide env a c).2) as H' by (by destruct (hide env a c) as [[?|?] ?]). by apply left_hide.
    + left_kept.
  - unfold set_ttl. left_kept.
  - destruct (store _ _ _ _ _ c) as [r c'] eqn:E.
    destruct (store_spec _ _ _ _ _ _ _ _ E) as [->|(g & c1 & _ & Ha & _ & _ & _ & _ & _ & Hc')]; [done|].
    assert (invites c1 = invites c) by (by destruct Ha as (_ & _ & _ & _ & _ & _ & _ & _ & _ & ? & _)).
    destruct Hc' as [->| ->]; (eapply left_frame; [|exact Hc]); cbn; unfold mark_accepted; split_ifs; done.
  - unfold redact. left_kept.
  - destruct (ensure_current _ _ _ c) as [r c'] eqn:E.
    destruct (ensure_current_spec _ _ _ _ _ _ E) as [->|(_ & k & _ & ->)]; [done|].
    eapply left_frame; [|exact Hc]. cbn. unfold advance_key, insert_key. destruct (rekeying c); by destruct (keys c !! _).
  - unfold rotate_if_due, transaction, rotate_epoch. cbn beta zeta. destruct (_ && _); [|done]. by destruct (_ =? _).
  - eapply left_frame; [|exact Hc]. cbn. unfold rekey_user. split_ifs; auto.
  - eapply left_frame; [|exact Hc]. cbn. unfold flush_mark. by split_ifs.
  - destruct what; cbn; unfold purge_invites, purge_keys, purge_members, purge_messages; destruct (is_deleted c); try done.
Qed.

Lemma transaction_sql {R B} (f : Conv -> B * Conv) (k : B -> TX R R) c :
  transaction (sql f ≫= k) c =
  match k (f c).1 (f c).2 with (Ok r, c') => (Ok r, c') | (Err r, _) => (r, c) end.
Proof. unfold transaction, mbind, ST_bind, sql. by destruct (f c). Qed.

(** A join takes one use, or none of this link. *)
Lemma left_join n h u c :
  left_with n c ->
  match (admit_member encode env h u c).1 with
  | Ok _ => if bool_decide (h = hash) then 0 < n /\ left_with (n - 1) (admit_member encode env h u c).2
            else left_with n (admit_member encode env h u c).2
  | Err _ => left_with n (admit_member encode env h u c).2
  end.
Proof.
  intros Hc. framed. unfold admit_member. rewrite transaction_sql. unfold consume.
  destruct (invites c !! h) as [i|] eqn:Hi; [|done].
  destruct (invite_open _ _ && _) eqn:Hopen; [|done]. cbn [fst snd]. cbn beta iota.
  set (c1 := set_invites _ c).
  match goal with |- context [match ?b c1 with _ => _ end] => set (body := b) end.
  assert (Hbody : forall k, preserves (left_with k) body).
  { intros k. subst body. left_keep. }
  assert (Hcase : if bool_decide (h = hash) then 0 < n /\ left_with (n - 1) c1 else left_with n c1).
  { destruct (bool_decide (h = hash)) eqn:Hh; bprop.
    - subst h. destruct (Hc _ Hi) as (k & Hk & Hle). rewrite Hk in *. bprop. split; [lia|].
      intros i'. cbn. rewrite lookup_insert_eq. intros [= <-]. cbn. rewrite Hk. cbn. exists (Z.pred k). split; [done|lia].
    - intros i'. cbn. rewrite lookup_insert_ne by done. apply Hc. }
  assert (Hf : fails_only body).
  { subst body. apply fails_only_bind; [intros ?; by rewrite wp_gets|]. intros [g|]; [|apply fails_only_bail].
    destruct (_ <=? _); [apply fails_only_bail|]. apply fails_only_bind; [intros ?; by rewrite wp_sql|].
    intros []; [|apply fails_only_bail]. cbn. apply fails_only_bind; [intros ?; by rewrite wp_modify|intros _].
    apply fails_only_bind; [apply fails_only_insert|intros ?].
    apply fails_only_bind; [intros ?; by rewrite wp_modify|intros _ ?; by rewrite wp_ret]. }
  specialize (Hf c1). with_strategy transparent [wp] unfold wp in Hf.
  destruct (bool_decide (h = hash)).
  - destruct Hcase as [Hn Hl]. specialize (Hbody _ c1 Hl).
    destruct (body c1) as [[?|x] ?]; cbn in *; [done|]. destruct Hf as [? ->]. done.
  - specialize (Hbody _ c1 Hcase). destruct (body c1) as [[?|x] ?]; cbn in *; [done|]. destruct Hf as [? ->]. done.
Qed.

Lemma left_step n {A} (t : Transaction A) c :
  makes hash t = false -> left_with n c ->
  if joins hash t (run_tx encode env t c).1 then 0 < n /\ left_with (n - 1) (run_tx encode env t c).2
  else left_with n (run_tx encode env t c).2.
Proof.
  intros Hm Hc. destruct t; try (by apply left_run_tx).
  cbn [joins run_tx]. pose proof (left_join n hash0 user c Hc) as H.
  destruct (admit_member _ _ _ _ c).1; destruct (bool_decide _); cbn; done.
Qed.
End links.

(** A link with [n] uses lets in at most [n] people, whatever transactions run in
    whatever order: a use is taken in the transaction that adds the member, and every
    refusal gives it back. *)
Theorem link_uses encode hash l c n :
  uses hash c = Some n -> 0 <= n ->
  Forall (fun x : Env * {A & Transaction A} => makes hash (projT2 x.2) = false) l ->
  let_in encode hash l c <= n.
Proof.
  intros Hu Hn Hl. assert (left_with hash n c) as Hleft.
  { intros i Hi. unfold uses in Hu. rewrite Hi in Hu. cbn in Hu. exists n. split; [done|lia]. }
  clear Hu. revert c n Hn Hleft. induction Hl as [|[env [A t]] l Ht _ IH]; intros c n Hn Hc; cbn [let_in]; [lia|].
  cbn in Ht. pose proof (left_step encode hash env n t c Ht Hc) as Hs.
  destruct (joins hash t _); [destruct Hs as [? Hs]; specialize (IH _ (n - 1) ltac:(lia) Hs)|specialize (IH _ n Hn Hs)]; lia.
Qed.
