(* ===== verification/ChatHandlers.v ===== *)
(** * ChatHandlers: handing out keys, sending and reading messages

    Source: [api/src/modules/chat]: [keys.rs], [keys/access.rs], [history_gate.rs],
    [kek.rs], [members/access.rs] ([load_in]), [rooms/lookup.rs], [messages.rs] and
    [messages/] ([store.rs], [gate.rs], [redact.rs], [page.rs]), [limits/rooms.rs].  A
    handler is a program over [Chat]: reads and transactions of the conversation, with the
    other services it asks (devices, limits, restrictions, blocks, media, rooms, the public
    chat, publishing).  [ends] runs it in the system of [ChatSystem]: before each effect
    others take any steps, a statement may fail, and a transaction whose answer is lost may
    have been committed or not. *)

From Stdlib Require Import ZArith Lia String.
From stdpp Require Import base list numbers option tactics sets gmap fin_maps relations.
From S2P Require Import Prelude Text AppError RoomModel SealedGate ChatTables ChatOps ChatSystem ChatDevices.
Local Open Scope Z_scope.

(** ** Effects *)

(** [users::Scope] *)
Inductive Scope := ScopeAll | DmNew | ScopeMedia.

(** Requests that are answered, or refused. *)
Inductive Question :=
| LimitReadKeys | LimitReadMessages | LimitSend
| UserCheck (scope : Scope)
| MediaAdmits (a : Access) (out : Outgoing)
| PublicOpen (a : Access) (out : Outgoing)
| SlowModeHold (seconds : Z)
| ChargeRoomBytes (cost : Z) | ChargeRoomMeta
| Publish (rows : list MessageRow) (recipients : list str)
| PublishPublic (rows : list MessageRow)
| DeliverPings (g : MessageRow) (pings : list str).

Inductive Chat : Type -> Type :=
| Select (A : Type) (f : Conv -> A) : Chat (result A ChatError)
| Run (A : Type) (t : Transaction A) : Chat (result A ChatError)
| EnsureCurrent : Chat (result Z ChatError)
| Load (user : str) : Chat (result Access ChatError)
| Ask (q : Question) : Chat (result unit ChatError)
| RequireDevice : Chat (result DeviceRow ChatError)
| RoomOfChat : Chat (result (option Room) ChatError)
| BlockedBetween (user peer : str) : Chat (result bool ChatError)
| RandomBytes : Chat (result bytes ChatError)
| Now : Chat Z.
Arguments Select {A} f.
Arguments Run {A} t.

Abbreviation Handler R := (program Chat (result R ChatError)).

Definition refuse {R} (e : ChatError) : Handler R := mret (Err e).
Definition ok {R} (r : R) : Handler R := mret (Ok r).
Definition ask (q : Question) : Handler unit := trigger (Ask q).
Definition of_result {R} (r : result R ChatError) : Handler R := mret r.
Definition ok_or {A} (e : ChatError) (o : option A) : Handler A :=
  match o with Some a => ok a | None => refuse e end.
Definition timestamp_millis (t : Z) : Z := t / 1000.

(** ** Rooms ([rooms/lookup.rs], [limits/rooms.rs]) *)

Record RoomChatMember := {
  rc_user_id : str; rc_code : str; rc_chat_from_seq : Z; rc_joined_at : Z; rc_host : bool; rc_moderator : bool;
  rc_muted_until : option Z }.

Definition RoomChatMember_of (room : Room) (user : str) (now : Z) : option RoomChatMember :=
  m ← member room user;
  Some {| rc_user_id := m_user_id m; rc_code := RoomModel.code room; rc_chat_from_seq := m_chat_from_seq m;
          rc_joined_at := m_joined_at m; rc_host := is_host room user; rc_moderator := is_moderator room user;
          rc_muted_until := muted_until room user now |}.

Definition rc_can_moderate (m : RoomChatMember) : bool := rc_host m || rc_moderator m.

Definition gate_send (user : str) (k : Class) : Handler RoomChatMember :=
  room ←? trigger RoomOfChat;
  room ←? ok_or NotMember room;
  now ← trigger Now;
  member ←? ok_or NotMember (RoomChatMember_of room user (timestamp_millis now));
  if bool_decide (k = Meta) then (if rc_host member then ok member else refuse NotMember)
  else if negb (RoomModel.chat_enabled room) then refuse ChatUnavailable
  else match rc_muted_until member with
       | Some until => refuse (Muted until)
       | None =>
           _ ←? (if bool_decide (k = Post) && (0 <? slow_mode room) && negb (rc_can_moderate member)
                 then ask (SlowModeHold (slow_mode room)) else ok tt);
           ok member
       end.

Definition ROOM_NEWCOMER_SECS : Z := 600.
Definition ROOM_NEWCOMER_PLAINTEXT_MAX : Z := 2 * 256.

(** ** Access of rooms ([load_in], [load_room]) *)

Definition room_row (c : Conv) : option Z :=
  if bool_decide (c_kind (row c) = RoomChat) && negb (is_deleted c) then Some (c_last_seq (row c)) else None.

Definition load_room (user : str) : Handler Access :=
  last ←? trigger (Select room_row);
  last ←? ok_or NotMember last;
  room ←? trigger RoomOfChat;
  room ←? ok_or NotMember room;
  now ← trigger Now;
  member ←? ok_or NotMember (RoomChatMember_of room user (timestamp_millis now));
  ok {| a_user_id := user; a_kind := RoomChat; a_peer := None; a_last := last; a_settings := default_settings;
        a_role := (if rc_can_moderate member then Admin else Member); a_state := Active; a_accepted := true;
        a_joined_seq := rc_chat_from_seq member; a_hidden_before_seq := 0; a_peer_state := None;
        a_recipients := member_ids room; a_public_room := RoomModel.public room |}.

(** [guard] is [public_chat::guard], whether the public chat is on. *)
Definition load_in (guard : result unit ChatError) (user : str) : Handler Access :=
  _ ←? of_result guard;
  found ← trigger (Load user);
  match found with
  | Err NotMember => load_room user
  | found => of_result found
  end.

(** ** Keys *)

(** *** The ring of key encryption keys ([kek.rs]) *)

Record KekRing := { current : Z; reports_current : Z; keks : gmap Z bytes; reports : gmap Z bytes }.

Definition KekRing_new (cur rep : Z) (ks rs : gmap Z bytes) : option KekRing :=
  if is_some (ks !! cur) && is_some (rs !! rep)
  then Some {| current := cur; reports_current := rep; keks := ks; reports := rs |} else None.

Definition wire_epoch (epoch : Z) : result Z ChatError :=
  if (0 <=? epoch) && (epoch <=? u32_max) then Ok epoch else Err ChatInternal.

Definition or_internal {A} (o : option A) : result A ChatError :=
  match o with Some a => Ok a | None => Err ChatInternal end.

Section keys.
(** [sc_chat_wire::ck]: wrapping a key under a key encryption key, taking it out again and
    sealing it for a device. *)
Context (ck_wrap : bytes -> Z -> Z -> bytes -> bytes -> option bytes).
Context (ck_unwrap : bytes -> Z -> Z -> bytes -> option bytes).
Context (ck_seal : bytes -> Z -> Z -> bytes -> bytes -> option bytes).
Context (ring : KekRing).

Definition kek_wrap (epoch : Z) (ck nonce : bytes) : result bytes ChatError :=
  match keks ring !! current ring with
  | None => Err ChatInternal
  | Some kek =>
      match wire_epoch epoch with
      | Err e => Err e
      | Ok epoch => or_internal (ck_wrap kek (current ring) epoch ck nonce)
      end
  end.

Definition kek_unwrap (version epoch : Z) (wrapped : bytes) : result bytes ChatError :=
  match keks ring !! version with
  | None => Err ChatInternal
  | Some kek =>
      match wire_epoch epoch with
      | Err e => Err e
      | Ok epoch => or_internal (ck_unwrap kek version epoch wrapped)
      end
  end.

(** *** [keys.rs] *)

Definition KEYS_PAGE_MAX : Z := 64.
Definition SEALED_KEY_BYTES : Z := 160.

Definition page_size (max_bytes : Z) : Z := Z.min KEYS_PAGE_MAX (Z.max 1 (max_bytes / SEALED_KEY_BYTES)).

Record SealedKey := { sk_epoch : Z; sk_sealed : bytes }.

Definition unwrap_key (x : Z * StoredKey) : result bytes ChatError :=
  if k_kek_version x.2 <? 0 then Err ChatInternal else kek_unwrap (k_kek_version x.2) x.1 (k_wrapped x.2).

Definition sealed_with (device : DeviceRow) (x : Z * StoredKey) (ck ikm : bytes) : result SealedKey ChatError :=
  match wire_epoch x.1 with
  | Err e => Err e
  | Ok epoch =>
      match ck_seal (d_box_pub device) epoch (d_id device) ck ikm with
      | None => Err ChatInternal
      | Some sealed => Ok {| sk_epoch := x.1; sk_sealed := sealed |}
      end
  end.

Definition seal_for (device : DeviceRow) (x : Z * StoredKey) : Handler SealedKey :=
  ck ←? of_result (unwrap_key x);
  ikm ←? trigger RandomBytes;
  of_result (sealed_with device x ck ikm).

Fixpoint seal_all (device : DeviceRow) (l : list (Z * StoredKey)) : Handler (list SealedKey) :=
  match l with
  | [] => ok []
  | x :: l' => k ←? seal_for device x; ks ←? seal_all device l'; ok (k :: ks)
  end.

(** *** [history_gate.rs] *)

Definition first_visible_epoch (device : DeviceRow) : Handler Z :=
  now ← trigger Now;
  if is_unlocked (d_created_at device) (is_some (d_history_unlocked_at device)) now then ok 0
  else trigger (Select (first_epoch_after (d_created_at device))).

(** [room_first_epoch.sql] *)
Definition room_first_epoch (from_seq : Z) (c : Conv) : Z :=
  match sort_by seq_le (List.filter (fun g => from_seq <? g_seq g) (rows_of c)) with
  | g :: _ => g_epoch g
  | [] => key_epoch (c_epoch (row c))
  end.

(** *** [keys/access.rs] *)

Record KeysRow := {
  kr_kind : ConversationKind; kr_rekey : bool; kr_deleted : bool; kr_member_state : option MemberState;
  kr_joined_epoch : option Z; kr_history_visible : bool; kr_meta_epoch : option Z; kr_has_meta : bool; kr_current_key : bool }.

(** [keys/access.sql] *)
Definition keys_row (user : str) (c : Conv) : KeysRow :=
  let r := row c in
  {| kr_kind := c_kind r; kr_rekey := rekey (c_epoch r); kr_deleted := is_deleted c;
     kr_member_state := m_state <$> (members c !! user); kr_joined_epoch := m_joined_epoch <$> (members c !! user);
     kr_history_visible := sql_history_visible (c_settings r); kr_meta_epoch := c_meta_epoch r;
     kr_has_meta := is_some (c_meta_ct r); kr_current_key := is_some (keys c !! key_epoch (c_epoch r)) |}.

Record KeysAccess := { ka_public : bool; ka_needs_key : bool; ka_member_floor : Z; ka_meta_epoch : option Z }.

Definition member_floor (r : KeysRow) : result Z ChatError :=
  match kr_member_state r with
  | Some Active | Some Invited =>
      let hides_history := bool_decide (kr_kind r = Group) && negb (kr_history_visible r) in
      Ok (if hides_history then default 0 (kr_joined_epoch r) else 0)
  | _ => Err NotMember
  end.

Definition room_floor (user : str) : Handler (Z * bool) :=
  room ←? trigger RoomOfChat;
  room ←? ok_or NotMember room;
  now ← trigger Now;
  member ←? ok_or NotMember (RoomChatMember_of room user (timestamp_millis now));
  floor ←? trigger (Select (room_first_epoch (rc_chat_from_seq member)));
  ok (floor, is_some (image_shown room)).

Definition keys_access (guard : result unit ChatError) (user : str) : Handler KeysAccess :=
  _ ←? of_result guard;
  r ←? trigger (Select (keys_row user));
  if kr_deleted r then refuse ChatNotFound
  else
    floor ←? (if bool_decide (kr_kind r = RoomChat) then room_floor user
              else f ←? of_result (member_floor r); ok (f, false));
    let meta := if floor.2 && kr_has_meta r then kr_meta_epoch r else None in
    let public := bool_decide (kr_kind r = PublicChat) in
    _ ←? (if public then ask (UserCheck ScopeAll) else ok tt);
    ok {| ka_public := public; ka_needs_key := kr_rekey r || negb (kr_current_key r); ka_member_floor := floor.1;
          ka_meta_epoch := meta |}.

(** [keys::list] *)
Definition keys_list (guard : result unit ChatError) (user : str) (max_bytes : Z) (from_epoch : option Z)
  : Handler (list SealedKey) :=
  device ←? trigger RequireDevice;
  _ ←? ask LimitReadKeys;
  a ←? keys_access guard user;
  _ ←? (if ka_needs_key a then _ ←? trigger EnsureCurrent; ok tt else ok tt);
  gate ←? (if ka_public a then ok 0 else first_visible_epoch device);
  let asked := default 0 from_epoch in
  let floor := Z.max (Z.max asked (ka_member_floor a)) gate in
  let meta := e ← ka_meta_epoch a; if (asked <=? e) && (e <? floor) then Some e else None in
  stored ←? (match meta with
             | Some e => x ←? trigger (Select (key_by_epoch e)); ok (match x with Some x => [x] | None => [] end)
             | None => ok []
             end);
  let page := page_size max_bytes - Z.of_nat (length stored) in
  more ←? (if 0 <? page then trigger (Select (list_keys floor (Z.to_nat page))) else ok []);
  seal_all device (stored ++ more).
End keys.

(** ** Sending *)

(** [store::existing], on the database. *)
Definition find_existing (client_id : Z) (user : str) : Handler (option MessageRow) :=
  r ←? trigger (Select (existing client_id user));
  of_result r.

(** [store::store], with [stale] *)
Definition store_message (a : Access) (device : Z) (out : Outgoing) (inherited : option Z) : Handler MessageRow :=
  stored ←? trigger (Run (TStore a device out inherited));
  match stored with
  | SStored g => ok g
  | SDuplicate =>
      found ←? find_existing (o_client_id out) (a_user_id a);
      ok_or ChatInternal found
  | SStale =>
      found ←? find_existing (o_client_id out) (a_user_id a);
      match found with
      | Some g => ok g
      | None =>
          _ ←? trigger (Run (TRotate (o_epoch out) (epoch_limits (a_kind a))));
          refuse EpochStale
      end
  end.

(** [gate.rs] *)
Definition peer_open (a : Access) : result unit ChatError :=
  if negb (bool_decide (a_kind a = Direct)) then Ok tt
  else match a_peer_state a with Some Active | Some Invited => Ok tt | _ => Err ChatUnavailable end.

Definition MESSAGES_BEFORE_ACCEPT : Z := 3.

Definition request_room (a : Access) (out : Outgoing) : Handler unit :=
  if negb (bool_decide (o_class out = Post)) || negb (bool_decide (a_peer_state a = Some Invited)) then ok tt
  else
    sent ←? trigger (Select (posts_by (a_user_id a) (o_client_id out)));
    if MESSAGES_BEFORE_ACCEPT <=? sent then refuse RequestLimit else ok tt.

Definition sender_free (a : Access) : Handler unit :=
  ask (UserCheck (if bool_decide (a_peer_state a = Some Invited) then DmNew else ScopeAll)).

(** A message that was sent before is answered even when it would be refused now. *)
Definition unless_sent (open : Handler unit) (a : Access) (out : Outgoing) : Handler (option MessageRow) :=
  r ← open;
  match r with
  | Ok _ => ok None
  | Err refused =>
      found ←? find_existing (o_client_id out) (a_user_id a);
      match found with Some g => ok (Some g) | None => refuse refused end
  end.

Record SendAnswer := { sa_seq : Z; sa_ts : Z; sa_expires_at : option Z }.

Definition answer_of (g : MessageRow) : SendAnswer :=
  {| sa_seq := g_seq g; sa_ts := timestamp_millis (g_created_at g); sa_expires_at := timestamp_millis <$> g_expires_at g |}.

Section sending.
(** The length of a nonce of [sc_chat_wire::seal], and [Class::parse]. *)
Context (NONCE_LEN : Z) (parse_class : str -> option Class).

Definition ROOM_NEWCOMER_BODY_MAX : Z := NONCE_LEN + 16 + ROOM_NEWCOMER_PLAINTEXT_MAX.

Definition admit_room_post (public : bool) (member_for_secs body_len : Z) : Handler unit :=
  if negb public then ok tt
  else if (member_for_secs <? ROOM_NEWCOMER_SECS) && (ROOM_NEWCOMER_BODY_MAX <? body_len) then refuse SendLimited
  else ask (ChargeRoomBytes body_len).

Definition room_open (a : Access) (out : Outgoing) : Handler unit :=
  seat ←? gate_send (a_user_id a) (o_class out);
  if bool_decide (o_class out = Meta) then ask ChargeRoomMeta
  else
    now ← trigger Now;
    admit_room_post (a_public_room a) (Z.quot (timestamp_millis now - rc_joined_at seat) 1000)
      (Z.of_nat (length (o_body out))).

(** [deliver] *)
Definition deliver (send_paused : bool) (guard : result unit ChatError) (device : option Z) (user : str) (input : SendMessage)
  : Handler SendAnswer :=
  if send_paused then refuse SendPaused
  else
    device ←? ok_or Invalid device;
    out ←? of_result (outgoing parse_class input);
    _ ←? ask LimitSend;
    a ←? load_in guard user;
    _ ←? of_result (may_post a (o_class out));
    sent ←? unless_sent (ask (MediaAdmits a out)) a out;
    match sent with
    | Some g => ok (answer_of g)
    | None =>
        _ ←? sender_free a;
        in_room ←? (if is_room a then unless_sent (room_open a out) a out else ok None);
        match in_room with
        | Some g => _ ←? ask (Publish [g] (a_recipients a)); ok (answer_of g)
        | None =>
            in_public ←? (if is_public a then unless_sent (ask (PublicOpen a out)) a out else ok None);
            match in_public with
            | Some g => _ ←? ask (PublishPublic [g]); ok (answer_of g)
            | None =>
                _ ←? of_result (peer_open a);
                blocked ←? (match a_peer a with Some peer => trigger (BlockedBetween user peer) | None => ok false end);
                if blocked : bool then refuse ChatUnavailable
                else
                  _ ←? request_room a out;
                  target ←? (match o_target_seq out with
                             | Some seq => trigger (Select (visible_target a (Some seq)))
                             | None => ok None
                             end);
                  now ← trigger Now;
                  inherited ←? of_result (inherited_expiry (o_class out) user target now);
                  g ←? store_message a device out inherited;
                  _ ←? (if is_public a
                        then _ ←? ask (PublishPublic [g]); _ ← ask (DeliverPings g (o_pings out)); ok tt
                        else ask (Publish [g] (a_recipients a)));
                  ok (answer_of g)
            end
        end
    end.
End sending.

(** [redact::for_everyone] *)
Definition for_everyone (a : Access) (seq : Z) : Handler (list MessageRow) :=
  if negb (bool_decide (a_state a = Active)) then refuse NotMember
  else
    target ←? trigger (Select (visible_target a (Some seq)));
    target ←? ok_or ChatNotFound target;
    if negb (bool_decide (t_class target = Post)) then refuse Invalid
    else
      now ← trigger Now;
      if match t_expires_at target with Some at_ => at_ <=? now | None => false end then refuse ChatNotFound
      else if negb (bool_decide (t_sender_user target = a_user_id a)) && negb (moderates a) then refuse NotMember
      else if t_deleted target then ok []
      else trigger (Run (TRedact a seq (t_expires_at target))).

(** ** Runs of a handler *)

Section runs.
Context (encode : SystemEvent -> bytes).
(** The transactions the others may run, the times the handler may read, and the device it
    is for. *)
Context (allowed : forall A, Transaction A -> bool) (reads : Z -> Prop) (device : DeviceRow).

(** [sys_step] with such a transaction. *)
Inductive step_in (s : Sys) : Sys -> Prop :=
| in_load user a :
    load user (conv s) = Ok a ->
    step_in s {| conv := conv s; loaded := a :: loaded s; s_clock := s_clock s |}
| in_tx A (t : Transaction A) env :
    allowed _ t = true -> (forall a, access_of t = Some a -> a ∈ loaded s) -> s_clock s <= e_clock env ->
    step_in s {| conv := (run_tx encode env t (conv s)).2; loaded := loaded s; s_clock := e_clock env |}.

Lemma step_in_sys s s' : step_in s s' -> sys_step encode s s'.
Proof. destruct 1 as [user a Ha|A t env _ Ha Hc]; [by apply (sys_load _ _ user)|by apply (sys_tx _ _ A t env)]. Qed.

Lemma steps_in_sys s s' : rtc step_in s s' -> rtc (sys_step encode) s s'.
Proof. apply rtc_subrel. intros ? ?. apply step_in_sys. Qed.

Definition is_err {A E} (r : result A E) : Prop := match r with Ok _ => False | Err _ => True end.

Definition ran_tx {A} (t : Transaction A) (s : Sys) (a : result A ChatError) (s' : Sys) : Prop :=
  exists env, (forall x, access_of t = Some x -> x ∈ loaded s) /\ s_clock s <= e_clock env /\
    s' = {| conv := (run_tx encode env t (conv s)).2; loaded := loaded s; s_clock := e_clock env |} /\
    (a = (run_tx encode env t (conv s)).1 \/ is_err a).

(** How an effect is answered, in the state the others left. *)
Definition answered {A} (e : Chat A) (s : Sys) : A -> Sys -> Prop :=
  match e in Chat A return A -> Sys -> Prop with
  | Select f => fun a s' => s' = s /\ (a = Ok (f (conv s)) \/ is_err a)
  | Run t => fun a s' => ran_tx t s a s' \/ (s' = s /\ is_err a)
  | EnsureCurrent => fun a s' => (exists wrapped v, ran_tx (TEnsure wrapped v) s a s') \/ (s' = s /\ is_err a)
  | Load user => fun a s' =>
      (exists x, load user (conv s) = Ok x /\ a = Ok x /\ s' = {| conv := conv s; loaded := x :: loaded s; s_clock := s_clock s |})
      \/ (s' = s /\ is_err a)
  | RequireDevice => fun a s' => s' = s /\ (a = Ok device \/ is_err a)
  | Now => fun a s' => s' = s /\ reads a
  | _ => fun _ s' => s' = s
  end.

(** Every run of the handler ends with [Q]. *)
Definition ends {R} : program Chat R -> Sys -> (R -> Sys -> Prop) -> Prop := run_ends (rtc step_in) (@answered).

Lemma ends_bind {A R} (p : program Chat A) (k : A -> program Chat R) s Q :
  ends p s (fun a s' => ends (k a) s' Q) -> ends (p ≫= k) s Q.
Proof. apply run_ends_bind. Qed.

Lemma ends_impl {R} (p : program Chat R) s (Q Q' : R -> Sys -> Prop) :
  (forall r s', Q r s' -> Q' r s') -> ends p s Q -> ends p s Q'.
Proof. apply run_ends_impl. Qed.

Lemma ends_try {A R} (p : Handler A) (k : A -> Handler R) s Q :
  ends p s (fun r s' => match r with Ok a => ends (k a) s' Q | Err e => Q (Err e) s' end) -> ends (try p k) s Q.
Proof. apply run_ends_try. Qed.

Lemma ends_trigger {A} (e : Chat A) s (Q : A -> Sys -> Prop) :
  (forall s1 a s2, rtc step_in s s1 -> answered e s1 a s2 -> Q a s2) -> ends (trigger e) s Q.
Proof. done. Qed.

(** The transaction an effect is. *)
Definition within {A} (e : Chat A) : Prop :=
  match e with
  | Run t => allowed _ t = true
  | EnsureCurrent => forall wrapped v, allowed _ (TEnsure wrapped v) = true
  | _ => True
  end.

Lemma answered_steps {A} (e : Chat A) s a s' : within e -> answered e s a s' -> rtc step_in s s'.
Proof.
  intros He. assert (forall B (t : Transaction B) b, allowed _ t = true -> ran_tx t s b s' -> rtc step_in s s') as Htx.
  { intros B t b Ht (env & Ha & Hc & -> & _). apply rtc_once. by apply (in_tx _ B t env). }
  destruct e; cbn in *.
  - by intros [-> _].
  - intros [H|[-> _]]; [by eapply Htx|done].
  - intros [(wrapped & v & H)|[-> _]]; [by eapply Htx|done].
  - intros [(x & Hx & _ & ->)|[-> _]]; [|done]. apply rtc_once. by apply (in_load _ user).
  - by intros ->.
  - by intros [-> _].
  - by intros ->.
  - by intros ->.
  - by intros ->.
  - by intros [-> _].
Qed.
End runs.
