(* ===== verification/ChatSecrets.v ===== *)
(** * ChatSecrets: which keys are handed out

    Keys are stored by [ensure_current] alone, so they are stored in the order of their
    epochs ([timed]).  On every run of [keys_list]: who joined a group that hides its
    history gets no key of what was sent before ([hidden_history_sealed]), and a device
    that is not trusted yet gets none that was stored before it was registered
    ([locked_device_sealed]). *)

From Stdlib Require Import ZArith Lia String.
From stdpp Require Import base list numbers option tactics sets gmap fin_maps relations.
From S2P Require Import Prelude Text AppError RoomModel SealedGate ChatTables ChatOps ChatSystem ChatDevices ChatFacts ChatGroups ChatHandlers.
Local Open Scope Z_scope.

(** ** Who stores keys *)

(** The keys, the settings and whether the conversation is deleted. *)
Definition vault (c : Conv) : bool * list (str * value) * gmap Z StoredKey := (is_deleted c, c_settings (row c), keys c).

Lemma join_all_vault now s e i js c : vault (join_all now s e i js c).2 = vault c.
Proof.
  revert c. induction js as [|j js IH]; intros c; cbn [join_all]; [done|].
  assert (vault (join_one now s e i j c).2 = vault c) as H by (unfold join_one; by destruct (may_join _ _)).
  destruct (join_one now s e i j c) as [l c1]. specialize (IH c1). destruct (join_all now s e i js c1). cbn in *. congruence.
Qed.

Lemma statement_vault now :
  (forall u s from c, vault (set_state now u s from c).2 = vault c)
  /\ (forall u from c, vault (activate now u from c).2 = vault c)
  /\ (forall u r c, vault (set_role_sql now u r c).2 = vault c)
  /\ (forall u c, vault (step_down now u c).2 = vault c)
  /\ (forall u c, vault (hide_sql now u c).2 = vault c)
  /\ (forall u s e i c, vault (add_member now u s e i c).2 = vault c)
  /\ (forall h c, vault (consume now h c).2 = vault c)
  /\ (forall t c, vault (set_ttl_sql t c).2 = vault c)
  /\ (forall ct e c, vault (set_meta_sql ct e c).2 = vault c)
  /\ (forall c, vault (mark_rekey c) = vault c).
Proof.
  split_and!; intros; unfold set_state, activate, set_role_sql, step_down, hide_sql, add_member, consume, set_ttl_sql,
    set_meta_sql, mark_rekey; split_ifs; done.
Qed.

Lemma rekey_vault c : vault (mark_rekey c) = vault c.
Proof. apply (statement_vault 0). Qed.

Section storing.
Context (encode : SystemEvent -> bytes) (env : Env) (P : bool * list (str * value) * gmap Z StoredKey -> Prop).
Context (HP : forall d st k, P (d, st, k) -> P (true, st, ∅)).

Definition kept (c : Conv) : Prop := P (vault c).

Lemma kept_frame c c' : vault c' = vault c -> kept c -> kept c'.
Proof. unfold kept. by intros ->. Qed.

Lemma kept_insert_until {R} id event target expires :
  preserves kept (insert_until (R := R) encode env id event target expires).
Proof.
  intros c Hc. unfold insert_until, advance_system, mbind, ST_bind.
  destruct (is_deleted c); [done|]. destruct (_ =? _); [done|]. cbn beta iota. unfold insert_message.
  destruct (is_some _); cbn; [done|]. by destruct (messages c !! _).
Qed.

Lemma kept_shred now c : kept c -> kept (shred now c).2.
Proof. unfold shred. destruct (is_deleted c); [done|]. apply HP. Qed.

Ltac kept_walk :=
  let ins _ := (apply kept_insert_until) in
  let stmt _ := (first [by apply kept_shred
    |eapply kept_frame; [|eassumption]; first [apply join_all_vault|by auto|reflexivity|apply rekey_vault]]) in
  walk ins stmt.

Ltac kept_body := repeat (apply after_check_preserves; [done|intros ?]); cbn beta zeta;
  first [apply (transaction_preserves kept); [|done]; kept_walk | idtac].

Ltac same_vault := destruct (statement_vault (e_now env)) as (? & ? & ? & ? & ? & ? & ? & ? & ? & ?).

Lemma kept_hide a c : kept c -> kept (hide env a c).2.
Proof. intros Hc. same_vault. unfold hide. kept_body. Qed.

Definition ensures {A} (t : Transaction A) : bool := match t with TEnsure _ _ => true | _ => false end.

(** What merging the settings of [p] keeps. *)
Definition merges (p : SettingsPatch) : Prop :=
  forall d st k, P (d, st, k) -> P (d, merge_settings (merged p) st, k).

Definition patches {A} (t : Transaction A) : Prop :=
  match t with TPatch _ _ _ (Some p) => merges p | _ => True end.

Lemma all_patches {A} (t : Transaction A) : (forall p, merges p) -> patches t.
Proof. intros H. destruct t; cbn; try done. by destruct settings. Qed.

Lemma kept_patch a ct epoch settings c :
  match settings with Some p => merges p | None => True end -> kept c -> kept (patch encode env a ct epoch settings c).2.
Proof.
  intros Hm Hc. same_vault. unfold patch. repeat (apply after_check_preserves; [done|intros ?]). cbn beta zeta.
  apply (transaction_preserves kept); [|done].
  apply preserves_bind; [destruct (match settings with Some _ => _ | None => _ end); kept_walk|intros _].
  apply preserves_bind; [|intros _; kept_walk].
  destruct settings as [p|]; cbn [from_option]; [|rewrite bool_decide_true by done; kept_walk]. destruct (bool_decide _); [kept_walk|].
  apply preserves_bind; [|intros ?; kept_walk]. apply preserves_sql. intros c1 Hc1. unfold merge_settings_sql.
  destruct (is_deleted c1) eqn:E; [done|]. unfold kept, vault. cbn.
  replace (is_deleted (set_row _ c1)) with (is_deleted c1) by done. by apply Hm.
Qed.

Lemma kept_run_tx {A} (t : Transaction A) c :
  ensures t = false -> patches t -> kept c -> kept (run_tx encode env t c).2.
Proof.
  intros Ht Hpatch Hc. same_vault. destruct t; try discriminate Ht; cbn [run_tx plain snd]; auto using kept_hide.
  - unfold leave. kept_body.
  - unfold remove. kept_body.
  - unfold unban. kept_body. eapply kept_frame; [|exact Hc]; cbn; auto.
  - unfold set_role. kept_body.
  - unfold accept. kept_body.
  - unfold decline. kept_body.
  - unfold add. apply after_check_preserves; [done|]. intros actor. cbn zeta. destruct (bool_decide _); [done|]. kept_body.
  - unfold reopen. destruct (c_kind _); try done. eapply kept_frame; [|exact Hc]; cbn; auto.
  - unfold transaction, insert_invite. by destruct (invites c !! hash).
  - unfold revoke_sql. by split_ifs.
  - unfold admit_member. kept_body.
  - by apply kept_patch.
  - unfold prefs_sql. split_ifs; done.
  - unfold delete_for_everyone. kept_body. destruct (bool_decide _).
    + enough (kept (hide env a c).2) as H' by (by destruct (hide env a c) as [[?|?] ?]). by apply kept_hide.
    + kept_body.
  - unfold set_ttl. kept_body.
  - destruct (store _ _ _ _ _ c) as [r c'] eqn:E.
    destruct (store_spec _ _ _ _ _ _ _ _ E) as [->|(g & c1 & _ & Ha & _ & _ & _ & _ & _ & Hc')]; [done|].
    assert (vault c1 = vault c) by (unfold vault; destruct Ha as (_ & _ & _ & _ & _ & _ & _ & _ & -> & _ & _ & _ & _ & -> & -> & _); done).
    destruct Hc' as [->| ->]; (eapply kept_frame; [|exact Hc]); cbn; unfold mark_accepted; split_ifs; done.
  - unfold redact. kept_body.
  - unfold rotate_if_due, transaction, rotate_epoch. cbn beta zeta. destruct (_ && _); [|done]. by destruct (_ =? _).
  - eapply kept_frame; [|exact Hc]. cbn. unfold rekey_user. split_ifs; auto.
  - eapply kept_frame; [|exact Hc]. cbn. unfold flush_mark. by split_ifs.
  - destruct what; cbn; unfold purge_invites, purge_keys, purge_members, purge_messages; destruct (is_deleted c) eqn:E; try done.
    unfold kept, vault. replace (is_deleted (set_keys ∅ c)) with true. by eapply HP.
Qed.

Lemma kept_created user people meta peer st :
  P (false, [], ∅) ->
  kept (create_group encode env user people meta).2 /\ kept (create_direct env user peer st).2
  /\ kept (create_saved env user).2.
Proof.
  intros H0.
  split_and!; unfold create_group, create_direct, create_saved; apply (transaction_preserves kept); try exact H0;
    kept_walk.
Qed.
End storing.

(** A key is old, or new and of the epoch now in use. *)
Lemma run_tx_keys encode env {A} (t : Transaction A) c e k :
  keys (run_tx encode env t c).2 !! e = Some k ->
  keys c !! e = Some k \/ (k_created_at k = e_clock env /\ e = epoch_of (run_tx encode env t c).2).
Proof.
  destruct (ensures t) eqn:Ht.
  - destruct t; try discriminate Ht. cbn [run_tx]. destruct (ensure_current _ _ _ c) as [r c'] eqn:E.
    destruct (ensure_current_spec _ _ _ _ _ _ E) as [->|(_ & k' & Hk' & ->)]; [by left|]. cbn [snd].
    destruct (rekeying c).
    + change (keys (advance_key (e_now env) (epoch_of c + 1) (insert_key (epoch_of c + 1) k' c)))
        with (keys (insert_key (epoch_of c + 1) k' c)).
      intros H. apply insert_key_lookup in H as [?|(-> & -> & _)]; auto.
    + intros H. apply insert_key_lookup in H as [?|(-> & -> & _)]; [auto|]. right. split; [done|].
      unfold epoch_of. by destruct (insert_key_frame (key_epoch (c_epoch (row c))) k' c) as (-> & _).
  - intros Hk. left. eapply lookup_weaken; [exact Hk|]. apply (kept_run_tx encode env (fun x => x.2 ⊆ keys c)); [|done| |].
    + intros d st ? _. apply map_empty_subseteq.
    + apply all_patches. by intros ? ? ? ?.
    + by unfold kept.
Qed.

(** The keys of a deleted conversation are gone. *)
Definition shredded (c : Conv) : Prop := is_deleted c = true -> keys c = ∅.

Lemma shredded_run_tx encode env {A} (t : Transaction A) c : shredded c -> shredded (run_tx encode env t c).2.
Proof.
  intros Hc. destruct (ensures t) eqn:Ht.
  - destruct t; try discriminate Ht. cbn [run_tx]. destruct (ensure_current _ _ _ c) as [r c'] eqn:E.
    destruct (ensure_current_spec _ _ _ _ _ _ E) as [->|(Hd & k' & _ & ->)]; [done|]. cbn [snd]. unfold shredded.
    destruct (rekeying c); unfold is_deleted in *; cbn; by rewrite (proj1 (insert_key_frame _ _ _)), Hd.
  - apply (kept_run_tx encode env (fun x => x.1.1 = true -> x.2 = ∅)); try done. apply all_patches. by intros ? ? ? ?.
Qed.

(** ** Keys in time

    Keys are stored in the order of their epochs, by the clock that does not go back. *)

Record timed (s : Sys) : Prop := {
  tm_shredded : shredded (conv s);
  tm_epoch : forall e k, keys (conv s) !! e = Some k -> e <= epoch_of (conv s);
  tm_clock : forall e k, keys (conv s) !! e = Some k -> k_created_at k <= s_clock s;
  tm_order : forall e k e' k', keys (conv s) !! e = Some k -> keys (conv s) !! e' = Some k' -> e <= e' ->
    k_created_at k <= k_created_at k' }.

(** What is new at [s'] was stored after [s]. *)
Definition stored_since (s s' : Sys) : Prop :=
  s_clock s <= s_clock s' /\ evolves (conv s) (conv s') /\
  forall e k, keys (conv s') !! e = Some k -> keys (conv s) !! e = Some k \/ (epoch_of (conv s) <= e /\ s_clock s <= k_created_at k).

Global Instance stored_since_preorder : PreOrder stored_since.
Proof.
  split.
  - intros s. split; [lia|]. split; [done|auto].
  - intros s1 s2 s3 (C1 & E1 & K1) (C2 & E2 & K2). split; [lia|]. split; [by etrans|]. intros e k Hk.
    pose proof (ev_epoch _ _ E1). destruct (K2 _ _ Hk) as [Hk2|[? ?]]; [|right; lia].
    destruct (K1 _ _ Hk2) as [?|[? ?]]; [by left|right; lia].
Qed.

Section time.
Context (encode : SystemEvent -> bytes).

Lemma step_since s s' : sys_step encode s s' -> stored_since s s'.
Proof.
  intros Hstep. pose proof (sys_step_evolves _ _ _ Hstep) as Hev. destruct Hstep as [user a Ha|A t env Ha Hc]; cbn in *.
  - split; [cbn; lia|]. split; [done|]. cbn. auto.
  - split; [done|]. split; [done|]. cbn. intros e k [?|[Hk ->]]%run_tx_keys; [by left|right].
    split; [apply Hev|lia].
Qed.

Lemma steps_since s s' : rtc (sys_step encode) s s' -> stored_since s s'.
Proof. induction 1; [done|]. etrans; [by eapply step_since|done]. Qed.

Lemma timed_step s s' : sys_step encode s s' -> timed s -> timed s'.
Proof.
  intros Hstep [D E C O]. pose proof (sys_step_evolves _ _ _ Hstep) as Hev.
  destruct Hstep as [user a Ha|A t env Ha Hc]; [by split|]. cbn in *. split; cbn.
  - by apply shredded_run_tx.
  - intros e k [Hk|[_ ->]]%run_tx_keys; [|lia]. pose proof (ev_epoch _ _ Hev). specialize (E _ _ Hk). lia.
  - intros e k [Hk|[-> _]]%run_tx_keys; [|lia]. specialize (C _ _ Hk). lia.
  - intros e k e' k' Hk Hk' Hle.
    destruct (run_tx_keys _ _ _ _ _ _ Hk) as [H|[T He]], (run_tx_keys _ _ _ _ _ _ Hk') as [H'|[T' He']].
    + eauto.
    + specialize (C _ _ H). lia.
    + pose proof (ev_epoch _ _ Hev). pose proof (E _ _ H'). assert (e' = e) as -> by lia.
      rewrite Hk in Hk'. injection Hk' as <-. lia.
    + lia.
Qed.

Lemma started_keys c : started encode c -> keys c = ∅.
Proof.
  destruct 1 as [env user people meta g c E|env user peer st c E|env user c E].
  all: match type of E with ?f = (_, ?c) => assert (c = f.2) as -> by (by rewrite E) end.
  - by apply (kept_created encode env (fun x => x.2 = ∅) user people meta [] Active).
  - by apply (kept_created encode env (fun x => x.2 = ∅) user [] None peer st).
  - by apply (kept_created encode env (fun x => x.2 = ∅) user [] None [] Active).
Qed.

Lemma reachable_timed s : reachable encode s -> timed s.
Proof.
  intros (s0 & H0%started_keys & _ & Hsteps). pattern s. eapply rtc_ind_r; [| |exact Hsteps]; cbn.
  - split; unfold shredded; rewrite H0; try done; intros *; by rewrite lookup_empty.
  - eauto using timed_step.
Qed.
End time.

(** ** What [keys_list] hands out *)

Lemma ensure_current_Ok env wrapped v c n c' :
  ensure_current env wrapped v c = (Ok n, c') -> rekeying c' = false /\ is_Some (keys c' !! epoch_of c').
Proof.
  unfold ensure_current, transaction. cbn beta zeta. destruct (is_deleted c); [discriminate|].
  destruct (rekey (c_epoch (row c)) && _); [discriminate|]. intros H.
  assert (forall e k, is_Some (keys (insert_key e k c) !! e)) as Hi.
  { intros e k. unfold insert_key. destruct (keys c !! e) eqn:E; [by eexists|]. cbn. rewrite lookup_insert_eq. by eexists. }
  destruct (rekey (c_epoch (row c))) eqn:Hr; injection H as _ <-.
  - split; [done|]. apply (Hi (key_epoch (c_epoch (row c)) + 1)).
  - unfold rekeying, epoch_of. rewrite (proj1 (insert_key_frame _ _ _)). split; [done|apply Hi].
Qed.

Lemma list_keys_elem floor n c e k : (e, k) ∈ list_keys floor n c -> floor <= e /\ keys c !! e = Some k.
Proof.
  unfold list_keys. intros (i & Hi & _)%elem_of_take. apply list_elem_of_lookup_2 in Hi.
  rewrite elem_of_sort_by, elem_of_bool_filter, elem_of_map_to_list in Hi. cbn in Hi. destruct Hi. bprop. lia || (split; [lia|done]).
Qed.

Lemma first_epoch_after_spec t c e k :
  keys c !! e = Some k -> first_epoch_after t c <= e -> e <= epoch_of c ->
  e = epoch_of c \/ exists e' k', keys c !! e' = Some k' /\ e' <= e /\ t < k_created_at k'.
Proof.
  intros Hk Hf He. unfold first_epoch_after in Hf.
  destruct (sort_by epoch_le _) as [|[e' k'] l] eqn:E; [left; unfold epoch_of in *; lia|right].
  assert ((e', k') ∈ sort_by epoch_le (List.filter (fun x => t <? k_created_at x.2) (map_to_list (keys c)))) as Hin
    by (rewrite E; left).
  rewrite elem_of_sort_by, elem_of_bool_filter, elem_of_map_to_list in Hin. cbn in Hin. destruct Hin. bprop.
  exists e', k'. auto.
Qed.

(** The group hides what was said before somebody joined. *)
Definition hides (c : Conv) : Prop := c_kind (row c) = Group /\ history_visible (settings_of (c_settings (row c))) = false.

Lemma settings_hidden st :
  history_visible (settings_of st) = false <->
  setting (lit "history_visible") as_bool true st = Some false
  /\ is_Some (setting (lit "admins_only") as_bool false st) /\ is_Some (setting (lit "slow_mode_s") as_u32 0 st).
Proof.
  unfold settings_of. destruct (setting (lit "admins_only") _ _ _), (setting (lit "history_visible") _ _ _) as [[]|],
    (setting (lit "slow_mode_s") _ _ _); cbn; split; try done; try (by intros (? & [] & [])); eauto.
Qed.

(** What [settings_of] reads as hidden, the database does too. *)
Lemma hidden_sql st : history_visible (settings_of st) = false -> sql_history_visible st = false.
Proof.
  intros [H _]%settings_hidden. unfold sql_history_visible, setting in *.
  destruct (find _ st) as [[k v]|]; [|done]. destruct v; try done. by destruct b.
Qed.

Section handing.
Context (encode : SystemEvent -> bytes) (allowed : forall A, Transaction A -> bool) (reads : Z -> Prop) (device : DeviceRow).
Context (ck_unwrap : bytes -> Z -> Z -> bytes -> option bytes) (ck_seal : bytes -> Z -> Z -> bytes -> bytes -> option bytes).
Context (ring : KekRing) (user : str).
Context (Hens : forall wrapped v, allowed _ (TEnsure wrapped v) = true).
Abbreviation ends := (ends encode allowed reads device).
Abbreviation moves := (rtc (step_in encode allowed)).

(** [sk] is the key [k] sealed for the device. *)
Definition seals (k : StoredKey) (sk : SealedKey) : Prop :=
  exists ck ikm, unwrap_key ck_unwrap ring (sk_epoch sk, k) = Ok ck
    /\ sealed_with ck_seal device (sk_epoch sk, k) ck ikm = Ok sk.

Lemma ends_seal_all l s :
  ends (seal_all ck_unwrap ck_seal ring device l) s
    (fun r _ => match r with Ok ks => Forall2 (fun x sk => sk_epoch sk = x.1 /\ seals x.2 sk) l ks | Err _ => True end).
Proof.
  revert s. induction l as [|x l IH]; intros s; cbn [seal_all]; [constructor|].
  apply ends_try. unfold seal_for. apply ends_try. cbn [ends of_result].
  destruct (unwrap_key ck_unwrap ring x) as [ck|e] eqn:Hu; [|done].
  apply ends_try, ends_trigger. intros s1 [ikm|e] s2 _ _; [|done]. cbn [ends of_result].
  destruct (sealed_with ck_seal device x ck ikm) as [sk|e] eqn:Hs; cbn; [|done].
  apply ends_try. eapply ends_impl; [|apply IH]. intros [ks|e] s' Hks; cbn; [|done]. constructor; [|done].
  assert (sk_epoch sk = x.1) as He.
  { unfold sealed_with in Hs. destruct (wire_epoch _); [|done]. destruct (ck_seal _ _ _ _ _); by simplify_eq/=. }
  split; [done|]. exists ck, ikm. rewrite He. by destruct x.
Qed.

(** The gate of the device. *)
Definition opened (sc : Sys) (e : Z) : Prop :=
  (exists now, reads now /\ is_unlocked (d_created_at device) (is_some (d_history_unlocked_at device)) now = true)
  \/ first_epoch_after (d_created_at device) (conv sc) <= e.

(** How a key gets to a device: the row of the member is read, the current key is made
    sure of, the gate of the device is read, and the keys are. *)
Definition handed (s : Sys) (sk : SealedKey) : Prop :=
  exists sa sb sc sd m k,
    moves s sa /\ moves sa sb /\ moves sb sc /\ moves sc sd
    /\ is_deleted (conv sa) = false /\ members (conv sa) !! user = Some m /\ live (m_state m) = true
    /\ (hides (conv sa) -> m_joined_epoch m <= sk_epoch sk)
    /\ rekeying (conv sb) = false /\ is_Some (keys (conv sb) !! epoch_of (conv sb))
    /\ opened sc (sk_epoch sk)
    /\ keys (conv sd) !! sk_epoch sk = Some k /\ seals k sk.

Lemma steps_kind s s' : moves s s' -> c_kind (row (conv s')) = c_kind (row (conv s)).
Proof. intros H. apply (ev_kind _ _ (sys_steps_evolve encode _ _ (steps_in_sys _ _ _ _ H))). Qed.

Lemma is_some_true {A} (o : option A) : is_some o = true -> is_Some o.
Proof. destruct o; [by eexists|done]. Qed.

(** [keys_access] of a conversation of members. *)
Definition admitted (s : Sys) (a : KeysAccess) (s' : Sys) : Prop :=
  exists sa m, moves s sa /\ moves sa s' /\ is_deleted (conv sa) = false
    /\ members (conv sa) !! user = Some m /\ live (m_state m) = true
    /\ ka_public a = false /\ ka_meta_epoch a = None
    /\ (hides (conv sa) -> ka_member_floor a = m_joined_epoch m)
    /\ (ka_needs_key a = false -> rekeying (conv sa) = false /\ is_Some (keys (conv sa) !! epoch_of (conv sa))).

Lemma keys_access_admits s guard :
  c_kind (row (conv s)) <> RoomChat -> c_kind (row (conv s)) <> PublicChat ->
  ends (keys_access guard user) s (fun r s' => match r with Ok a => admitted s a s' | Err _ => True end).
Proof.
  intros Hroom Hpub. unfold keys_access. apply ends_try. cbn [ends of_result]. destruct guard as [[]|e]; [|done].
  apply ends_try, ends_trigger. intros s1 r s2 H1 [-> [->|He]]; [|by destruct r].
  cbn [kr_deleted kr_kind keys_row]. destruct (is_deleted (conv s1)) eqn:Hd; [done|].
  rewrite !(steps_kind _ _ H1), !bool_decide_false by done.
  apply ends_try, ends_try. cbn [ends of_result]. unfold member_floor. cbn [kr_member_state keys_row].
  destruct (members (conv s1) !! user) as [m|] eqn:Hm; [|done]. cbn [fmap option_fmap option_map].
  destruct (m_state m) eqn:Hs; try done; cbn [fst snd andb]; (apply ends_try; cbn).
  all: exists s1, m; split_and!; try done; [by rewrite Hs| |].
  1, 3: intros [Hk Hv%hidden_sql]; rewrite Hv, bool_decide_true by exact Hk; cbn; by rewrite Hm.
  all: intros [? ?%negb_false_iff%is_some_true]%orb_false_iff; done.
Qed.

(** Then the current key is stored, at some point. *)
Definition equipped (s : Sys) (a : KeysAccess) (s' : Sys) : Prop :=
  exists sa sb m, moves s sa /\ moves sa sb /\ moves sb s'
    /\ is_deleted (conv sa) = false /\ members (conv sa) !! user = Some m /\ live (m_state m) = true
    /\ (hides (conv sa) -> ka_member_floor a = m_joined_epoch m)
    /\ rekeying (conv sb) = false /\ is_Some (keys (conv sb) !! epoch_of (conv sb)).

Lemma ends_equip s a s' :
  admitted s a s' ->
  ends (if ka_needs_key a then _ ←? trigger EnsureCurrent; ok tt else ok tt) s'
    (fun r s'' => match r with Ok _ => equipped s a s'' | Err _ => True end).
Proof.
  intros (sa & m & H1 & H2 & Hd & Hm & Hl & _ & _ & Hf & Hn). destruct (ka_needs_key a).
  - apply ends_try, ends_trigger. intros s1 n s2 H3 [(wrapped & v & Hran)|[-> He]]; [|by destruct n].
    assert (moves s1 s2) as H4 by (apply (answered_steps encode allowed reads device EnsureCurrent s1 n); [done|left; eauto]).
    destruct n as [n|]; [|done]. cbn. destruct Hran as (env & _ & _ & -> & [Hn'|[]]). cbn [run_tx] in *.
    exists sa. eexists. exists m. split_and!; [done| |apply rtc_refl|done..| |]; [by repeat (etrans; [eassumption|])| |].
    all: destruct (ensure_current _ _ _ _) as [r c'] eqn:E; cbn in *; subst r; by eapply ensure_current_Ok.
  - cbn. exists sa, sa, m. destruct Hn as [? ?]; [done|]. split_and!; done.
Qed.

Lemma ends_gate s :
  ends (first_visible_epoch device) s (fun r s' =>
    match r with Ok gate => moves s s' /\ forall e, gate <= e -> opened s' e | Err _ => True end).
Proof.
  unfold first_visible_epoch. apply ends_bind, ends_trigger. intros s1 now s2 H1 [-> Hnow].
  destruct (is_unlocked _ _ now) eqn:Hu; [cbn; split; [done|]; left; eauto|].
  apply ends_trigger. intros s3 r s4 H3 [-> [->|He]]; [|by destruct r]. split; [by etrans|]. by right.
Qed.

Lemma keys_list_hands s guard max_bytes from_epoch :
  c_kind (row (conv s)) <> RoomChat -> c_kind (row (conv s)) <> PublicChat ->
  ends (keys_list ck_unwrap ck_seal ring guard user max_bytes from_epoch) s
    (fun r _ => match r with Ok ks => Forall (handed s) ks | Err _ => True end).
Proof.
  intros Hroom Hpub. unfold keys_list. apply ends_try, ends_trigger. intros s1 d s2 H1 [-> [->|He]]; [|by destruct d].
  apply ends_try, ends_trigger. intros s3 [[]|e] s4 H3 ->; [|done].
  assert (moves s s3) as H13 by (by etrans).
  apply ends_try. eapply ends_impl; [|apply keys_access_admits; by rewrite (steps_kind _ _ H13)].
  intros [a|e] s5 Ha; [|done]. apply ends_try. eapply ends_impl; [|by apply ends_equip].
  intros [[]|e] s6 Heq; [|done]. destruct Ha as (_ & _ & _ & _ & _ & _ & _ & -> & -> & _). apply ends_try.
  eapply ends_impl; [|apply ends_gate]. intros [gate|e] s7 Hg; [|done]. destruct Hg as [H7 Hgate]. cbn zeta. cbn [mbind option_bind].
  apply ends_try. cbn [ends ok mret program_ret]. apply ends_try.
  set (floor := Z.max _ gate).
  eapply (ends_impl _ _ _ _ _ _ (fun r s8 => match r with
    | Ok l => exists sd, moves s7 sd /\ forall e k, (e, k) ∈ l -> floor <= e /\ keys (conv sd) !! e = Some k
    | Err _ => True end)).
  - intros [l|e] s8; [|done]. intros (sd & H8 & Hl). cbn [app]. eapply ends_impl; [|apply ends_seal_all].
    intros [ks|e] s9 Hks; [|done]. clear s8 s9. apply Forall_forall. intros sk Hsk.
    apply list_elem_of_lookup in Hsk as [i Hi].
    destruct (Forall2_lookup_r _ _ _ _ _ Hks Hi) as ([e k] & Hin%list_elem_of_lookup_2 & He & Hseal). cbn in He, Hseal.
    destruct (Hl _ _ Hin) as [Hfl Hk]. destruct Heq as (sa & sb & m & Ha & Hb & Hc & Hd & Hm & Hlive & Hfloor & Hr & Hkey).
    exists sa, sb, s7, sd, m, k. rewrite He. split_and!; try done.
    + by etrans.
    + by etrans.
    + intros Hh. rewrite <- Hfloor by done. lia.
    + apply Hgate. lia.
  - destruct (0 <? _); [|cbn; exists s7; split; [done|]; intros e k Hin; by apply not_elem_of_nil in Hin].
    apply ends_trigger. intros s8 l s9 H8 [-> [->|He]]; [|by destruct l]. exists s8. split; [done|].
    intros e k. apply list_keys_elem.
Qed.
End handing.

(** ** A device that is not trusted yet *)

(** Once the epoch has moved on, what passes the gate was stored since. *)
Lemma gate_recent t s1 sc sd e k :
  timed s1 -> timed sc -> stored_since s1 sc -> stored_since sc sd -> epoch_of (conv s1) < epoch_of (conv sc) -> t <= s_clock s1 ->
  first_epoch_after t (conv sc) <= e -> keys (conv sd) !! e = Some k -> t <= k_created_at k.
Proof.
  intros T1 Tc (C1 & _ & K1) (_ & _ & K2) Hlt Ht Hfirst Hk.
  destruct (K2 _ _ Hk) as [Hkc|[_ ?]]; [|lia].
  destruct (first_epoch_after_spec _ _ _ _ Hkc Hfirst (tm_epoch _ Tc _ _ Hkc)) as [He|(e' & k' & Hk' & Hle & Hlater)].
  - destruct (K1 _ _ Hkc) as [Hk1|[_ ?]]; [|lia]. pose proof (tm_epoch _ T1 _ _ Hk1). lia.
  - pose proof (tm_order _ Tc _ _ _ _ Hk' Hkc Hle). lia.
Qed.

Lemma rekey_user_epoch user c : epoch_of (rekey_user user c) = epoch_of c.
Proof. unfold rekey_user, mark_rekey. by split_ifs. Qed.

Definition anything (A : Type) (t : Transaction A) : bool := true.

(** A device that was registered less than 72 hours ago, and that no other device
    confirmed, is handed no key of a conversation of its user that was stored before it was
    registered, whatever others do meanwhile: registering replaces the key of every
    conversation of the user, and only keys stored since pass the gate. *)
Theorem locked_device_sealed encode reads device ck_unwrap ck_seal ring user s env s2 guard max_bytes from_epoch :
  let s1 := {| conv := (run_tx encode env (TRekeyUser user) (conv s)).2; loaded := loaded s; s_clock := e_clock env |} in
  reachable encode s -> is_live user (conv s) -> s_clock s <= e_clock env -> e_now env <= e_clock env ->
  c_kind (row (conv s)) <> RoomChat -> c_kind (row (conv s)) <> PublicChat ->
  rtc (sys_step encode) s1 s2 ->
  d_created_at device = e_now env -> d_history_unlocked_at device = None ->
  (forall now, reads now -> now < d_created_at device + UNLOCK_AFTER_HOURS * HOUR_US) ->
  ends encode anything reads device (keys_list ck_unwrap ck_seal ring guard user max_bytes from_epoch) s2
    (fun r _ => match r with
                | Ok ks => Forall (fun sk => exists k, seals device ck_unwrap ck_seal ring k sk /\ d_created_at device <= k_created_at k) ks
                | Err _ => True
                end).
Proof.
  intros s1 Hr Hlive Hclock Hnow Hroom Hpub Hsteps Hcreated Hlocked Hreads.
  assert (sys_step encode s s1) as Hstep by (apply (sys_tx _ _ unit (TRekeyUser user) env); [done|done]).
  assert (forall s', rtc (sys_step encode) s1 s' -> reachable encode s') as Hreach.
  { intros s' Hs'. destruct Hr as (s0 & H0 & Hl & H). exists s0. split; [done|]. split; [done|].
    etrans; [exact H|]. by eapply rtc_l. }
  assert (barred (epoch_of (conv s)) (conv s1)) as Hbar.
  { by apply rekey_user_bars. }
  assert (c_kind (row (conv s2)) = c_kind (row (conv s))) as Hkind.
  { rewrite (ev_kind _ _ (sys_steps_evolve _ _ _ Hsteps)). apply (ev_kind _ _ (sys_step_evolves _ _ _ Hstep)). }
  eapply ends_impl; [|apply (keys_list_hands encode anything reads device ck_unwrap ck_seal ring user); [done|congruence..]].
  intros [ks|e] s3 Hks; [|done]. eapply Forall_impl; [exact Hks|]. clear ks Hks s3.
  intros sk (sa & sb & sc & sd & m & k & Ha%steps_in_sys & Hb%steps_in_sys & Hc%steps_in_sys & Hd%steps_in_sys & _ & _ & _ & _
    & Hrk & Hkey & Hopen & Hk & Hseal). exists k. split; [done|].
  assert (rtc (sys_step encode) s1 sb) as Hsb by (etrans; [exact Hsteps|]; by etrans).
  assert (rtc (sys_step encode) s1 sc) as Hsc by (by etrans).
  unfold opened in Hopen. rewrite Hcreated in *. destruct Hopen as [(now & Hn & Hu)|Hopen].
  { unfold is_unlocked, seasoned in Hu. rewrite Hlocked in Hu. cbn in Hu. bprop. specialize (Hreads _ Hn). lia. }
  apply (gate_recent (e_now env) s1 sc sd (sk_epoch sk));
    [apply (reachable_timed encode), Hreach, rtc_refl|by apply (reachable_timed encode), Hreach|by apply (steps_since encode)
    |by apply (steps_since encode)| |exact Hnow|exact Hopen|exact Hk].
  assert (epoch_of (conv s1) = epoch_of (conv s)) as -> by apply rekey_user_epoch.
  destruct (barred_evolves _ _ _ (sys_steps_evolve _ _ _ Hsb) Hbar) as [Hdel|[Hlt|[_ Hrek]]]; [|by eapply Z.lt_le_trans; [|apply (ev_epoch _ _ (sys_steps_evolve _ _ _ Hc))]|congruence].
  rewrite (tm_shredded _ (reachable_timed _ _ (Hreach _ Hsb)) Hdel), lookup_empty in Hkey. by destruct Hkey.
Qed.

(** ** A member who came later *)

(** Nobody makes the history visible again. *)
Definition quiet (A : Type) (t : Transaction A) : bool :=
  match t with TPatch _ _ _ (Some p) => negb (bool_decide (p_history_visible p = Some true)) | _ => true end.

Lemma find_app {A} (p : A -> bool) l l' : find p (l ++ l') = match find p l with Some x => Some x | None => find p l' end.
Proof. induction l as [|x l IH]; cbn; [done|]. by destruct (p x). Qed.

Lemma find_bool_filter {A} (p q : A -> bool) l : (forall x, p x = true -> q x = true) -> find p (List.filter q l) = find p l.
Proof.
  intros H. induction l as [|x l IH]; cbn; [done|]. destruct (q x) eqn:Hq; cbn; [by destruct (p x)|].
  destruct (p x) eqn:Hp; [|done]. by rewrite (H x Hp) in Hq.
Qed.

(** A key the patch does not have is read as before. *)
Lemma setting_merge {A} key (read : value -> option A) missing patch st :
  find (fun kv => bool_decide (kv.1 = key)) patch = None ->
  setting key read missing (merge_settings patch st) = setting key read missing st.
Proof.
  intros Hn. unfold setting, merge_settings. rewrite find_app, Hn, find_bool_filter; [done|].
  intros [k v] Hk. cbn in *. bprop. subst k. apply negb_true_iff, not_true_is_false. intros (x & Hin & Hx)%existsb_exists.
  pose proof (find_none _ _ Hn x Hin) as Hf. cbn in Hf. bprop. by rewrite Hx in Hf.
Qed.

Lemma quiet_merge p st :
  p_history_visible p <> Some true -> history_visible (settings_of st) = false ->
  history_visible (settings_of (merge_settings (merged p) st)) = false.
Proof.
  intros Hp (Hh & Ha & Hs)%settings_hidden. apply settings_hidden.
  assert (forall key, key <> lit "history_visible" -> key <> lit "admins_only" ->
    find (fun kv : str * value => bool_decide (kv.1 = key)) (merged p) = None) as Hother.
  { intros key H1 H2. unfold merged. destruct (p_admins_only p), (p_history_visible p); cbn; by rewrite ?bool_decide_false by done. }
  rewrite (setting_merge (lit "slow_mode_s")) by (by apply Hother). split_and!; [| |done].
  - destruct (p_history_visible p) as [[]|] eqn:E; [done| |].
    + unfold setting, merge_settings, merged. rewrite E. by destruct (p_admins_only p).
    + rewrite setting_merge; [done|]. unfold merged. rewrite E. by destruct (p_admins_only p).
  - destruct (p_admins_only p) as [b|] eqn:E.
    + unfold setting, merge_settings, merged. rewrite E. cbn. by eexists.
    + rewrite setting_merge; [done|]. unfold merged. rewrite E. by destruct (p_history_visible p).
Qed.

Lemma hides_run_tx encode env {A} (t : Transaction A) c :
  quiet A t = true -> hides c -> hides (run_tx encode env t c).2.
Proof.
  intros Hq [Hk Hh]. split; [by rewrite (ev_kind _ _ (run_tx_evolves encode env t c))|].
  destruct (ensures t) eqn:Ht.
  - destruct t; try discriminate Ht. cbn [run_tx]. destruct (ensure_current _ _ _ c) as [r c'] eqn:E.
    destruct (ensure_current_spec _ _ _ _ _ _ E) as [->|(_ & k' & _ & ->)]; [done|]. cbn [snd].
    destruct (rekeying c); cbn; by rewrite (proj1 (insert_key_frame _ _ _)).
  - apply (kept_run_tx encode env (fun x => history_visible (settings_of x.1.2) = false)); try done.
    destruct t; cbn; try done. destruct settings as [p|]; [|done]. intros ? ? ?. cbn in *. bprop. by apply quiet_merge.
Qed.

(** Whenever [u] is in, it joined after epoch [e]. *)
Section late.
Context (encode : SystemEvent -> bytes) (env : Env) (u : str) (e : Z).

Definition late (c : Conv) : Prop :=
  c_kind (row c) = Group /\ forall m, members c !! u = Some m -> live (m_state m) = true -> e < m_joined_epoch m.

Lemma late_frame c c' : members c' = members c -> c_kind (row c') = c_kind (row c) -> late c -> late c'.
Proof. unfold late. by intros -> ->. Qed.

Lemma late_insert x m c :
  late c -> (x = u -> live (m_state m) = true -> e < m_joined_epoch m) -> late (set_members (<[x := m]> (members c)) c).
Proof.
  intros [Hk H] Hm. split; [done|]. cbn. intros m' [[<- <-]|[_ Hm']]%lookup_insert_Some; [by apply Hm|by apply H].
Qed.

(** A row that keeps when it joined, and comes in only if it was in. *)
Lemma late_rewrite x m m' c :
  late c -> members c !! x = Some m -> m_joined_epoch m' = m_joined_epoch m ->
  (live (m_state m') = true -> live (m_state m) = true) -> late (set_members (<[x := m']> (members c)) c).
Proof. intros H Hm He Hl. apply late_insert; [done|]. intros -> Hlive. rewrite He. apply H; [done|auto]. Qed.

Ltac rewritten := intros H; cbn; split_ifs; cbn; try done; (eapply late_rewrite; [done|eassumption|done|]; cbn).

Lemma late_set_state x s from c : live s = false -> late c -> late (set_state (e_now env) x s from c).2.
Proof. intros Hs. unfold set_state. rewritten. congruence. Qed.

Lemma late_activate x c : late c -> late (activate (e_now env) x [Invited] c).2.
Proof. unfold activate. rewritten. apply bool_decide_eq_true in Hc. set_unfold in Hc. destruct Hc as [->|[]]. done. Qed.

Lemma late_reopen x c : late c -> late (reopen (e_now env) x c).2.
Proof. unfold reopen. intros H. pose proof H as [-> _]. done. Qed.
Lemma late_set_role_sql x r c : late c -> late (set_role_sql (e_now env) x r c).2.
Proof. unfold set_role_sql. by rewritten. Qed.
Lemma late_step_down x c : late c -> late (step_down (e_now env) x c).2.
Proof. unfold step_down. by rewritten. Qed.
Lemma late_mark_accepted x c : late c -> late (mark_accepted (e_now env) x c).
Proof. unfold mark_accepted. by rewritten. Qed.
Lemma late_hide x c : late c -> late (hide_sql (e_now env) x c).2.
Proof. unfold hide_sql. by rewritten. Qed.
Lemma late_prefs x m t n p r c : late c -> late (prefs_sql (e_now env) x m t n p r c).2.
Proof. unfold prefs_sql. by rewritten. Qed.
Lemma late_flush x s c : late c -> late (flush_mark x s c).
Proof. unfold flush_mark. by rewritten. Qed.

Lemma late_join_all s j i js c : e < j -> late c -> late (join_all (e_now env) s j i js c).2.
Proof.
  intros Hj. revert c. induction js as [|x js IH]; intros c H; cbn [join_all]; [done|].
  assert (late (join_one (e_now env) s j i x c).2) as H1.
  { unfold join_one. destruct (may_join _ _); [|done]. by apply late_insert. }
  destruct (join_one _ _ _ _ x c) as [l c1]. specialize (IH c1 H1). by destruct (join_all _ _ _ _ js c1).
Qed.

Lemma late_add_member x s j i c : e < j -> late c -> late (add_member (e_now env) x s j i c).2.
Proof. intros Hj H. unfold add_member. destruct (may_join _ _); [|done]. by apply late_insert. Qed.

Ltac late_walk :=
  let ins _ := (by apply frame_insert_until; apply late_frame) in
  let stmt _ := (first [done|by apply late_set_state|by apply late_set_role_sql|by apply late_step_down|by apply late_hide
    |by apply (frame_mark_rekey late late_frame)|by eapply late_frame
    |by eapply late_frame, (frame_mark_rekey late late_frame); [done|done|eassumption]
    |by apply (frame_shred late late_frame)]) in
  walk ins stmt.

(** The epoch somebody joins in, when the history is hidden. *)
Lemma joined_late k : e <= k -> e < i32_max -> e < saturating_inc k.
Proof. unfold saturating_inc. lia. Qed.

Lemma late_add a people c :
  hides c -> e <= epoch_of c -> e < i32_max -> late c -> late (add encode env a people c).2.
Proof.
  intros [_ Hh] He Hmax Hc. unfold add. apply after_check_preserves; [done|]. intros actor. cbn zeta.
  destruct (bool_decide _); [done|]. apply transaction_wp; [done|]. rewrite wp_bind, wp_lock_chat. unfold lock.
  destruct (is_deleted c); [done|]. cbn [l_settings l_key_epoch l_last_seq]. rewrite Hh. cbn [negb].
  apply (wp_preserves late); [|done]. assert (Hj := joined_late _ He Hmax). fold (epoch_of c).
  apply preserves_bind; [apply preserves_gets|]. intros total. destruct (_ <? _); [apply preserves_throw|].
  apply preserves_bind; [|intros joined; late_walk]. unfold join_many.
  destruct (bool_decide _); [apply preserves_sql; intros; by apply late_join_all|apply preserves_throw].
Qed.
Lemma late_admit hash x c :
  hides c -> e <= epoch_of c -> e < i32_max -> late c -> late (admit_member encode env hash x c).2.
Proof.
  intros [Hk Hh] He Hmax Hc. unfold admit_member. apply transaction_wp; [done|]. rewrite wp_bind, wp_sql.
  assert (vault (consume (e_now env) hash c).2 = vault c) as Hv by apply (statement_vault (e_now env)).
  assert (row (consume (e_now env) hash c).2 = row c) as Hrow by (unfold consume; by split_ifs).
  pose proof (frame_consume late late_frame (e_now env) hash c Hc) as Hc1.
  destruct (consume (e_now env) hash c) as [used c1]. cbn [fst snd] in *. destruct used as [i|]; [|done].
  rewrite wp_bind, wp_gets. unfold lock_group, lock. rewrite Hrow, Hk, bool_decide_true by done.
  destruct (is_deleted c1); [done|]. cbn [l_settings l_key_epoch l_last_seq l_member_count]. rewrite Hh. cbn [negb].
  apply (wp_preserves late); [|done]. assert (Hj := joined_late _ He Hmax). fold (epoch_of c).
  destruct (_ <=? _); [apply preserves_throw|].
  apply preserves_bind; [apply preserves_sql; intros; by apply late_add_member|]. intros added. late_walk.
Qed.

Lemma late_set_role a x r c : late c -> late (set_role encode env a x r c).2.
Proof.
  intros Hc. unfold set_role. repeat (apply after_check_preserves; [done|intros ?]).
  apply (transaction_preserves late); [|done]. late_walk.
Qed.

Lemma late_departing {A} (t : Transaction A) c : departing t = true -> late c -> late (run_tx encode env t c).2.
Proof.
  intros Hd Hc. destruct t; try discriminate Hd; cbn [run_tx].
  - unfold leave. apply after_check_preserves; [done|]. intros _. apply (transaction_preserves late); [|done]. late_walk.
  - unfold remove. repeat (apply after_check_preserves; [done|intros ?]). cbn zeta.
    apply (transaction_preserves late); [|done]. destruct ban; late_walk.
  - unfold decline. apply (transaction_preserves late); [|done]. late_walk.
  - destruct what; try discriminate Hd. cbn. unfold purge_members. destruct (is_deleted c); [|done].
    split; [apply Hc|]. cbn. intros m. by rewrite lookup_empty.
Qed.

Lemma late_run_tx {A} (t : Transaction A) c :
  hides c -> e <= epoch_of c -> e < i32_max -> late c -> late (run_tx encode env t c).2.
Proof.
  intros Hh He Hmax Hc. destruct (departing t) eqn:Hd; [by apply late_departing|].
  apply (run_tx_preserves late late_frame);
    auto using late_activate, late_reopen, late_mark_accepted, late_hide, late_prefs, late_flush, late_add, late_admit.
  - intros. by apply late_set_state.
  - destruct t; auto using late_set_role.
Qed.
End late.

(** The history stays hidden, and [u] a late comer. *)
Record aside (u : str) (e : Z) (s : Sys) : Prop := {
  as_hides : hides (conv s);
  as_epoch : e <= epoch_of (conv s);
  as_late : late u e (conv s) }.

Lemma aside_steps encode u e s s' : e < i32_max -> rtc (step_in encode quiet) s s' -> aside u e s -> aside u e s'.
Proof.
  intros He. induction 1 as [|s1 s2 s3 Hstep _ IH]; [done|]. intros [H E L]. apply IH.
  destruct Hstep as [user a Ha|A t env Ht Ha Hc]; [by split|]. split; cbn.
  - by apply hides_run_tx.
  - etrans; [exact E|]. apply (ev_epoch _ _ (run_tx_evolves encode env t (conv s1))).
  - by apply late_run_tx.
Qed.

(** C11: Who joins a group that hides its history, by an invitation, by a link or again after
    having left, is never handed a key that opens a message sent before, as long as nobody
    makes the history visible: members who join are given epochs from the next one on, and
    the key is replaced. *)
Theorem hidden_history_sealed encode reads device ck_unwrap ck_seal ring user s s2 guard max_bytes from_epoch :
  reachable encode s -> hides (conv s) -> ~ is_live user (conv s) -> epoch_of (conv s) < i32_max ->
  rtc (step_in encode quiet) s s2 ->
  ends encode quiet reads device (keys_list ck_unwrap ck_seal ring guard user max_bytes from_epoch) s2
    (fun r _ => match r with
                | Ok ks => forall sk seq g, sk ∈ ks -> messages (conv s) !! seq = Some g -> g_epoch g < sk_epoch sk
                | Err _ => True
                end).
Proof.
  intros Hr Hh Hout Hmax Hsteps. assert (aside user (epoch_of (conv s)) s) as Ha.
  { split; [done..|]. split; [apply Hh|]. intros m Hm Hl. destruct Hout. by exists m. }
  pose proof (aside_steps _ _ _ _ _ Hmax Hsteps Ha) as Ha2. pose proof (as_hides _ _ _ Ha2) as [Hk _].
  eapply ends_impl; [|apply (keys_list_hands encode quiet reads device ck_unwrap ck_seal ring user); [done|congruence..]].
  intros [ks|e] s3 Hks; [|done]. intros sk seq g Hsk Hg.
  destruct (proj1 (Forall_forall _ _) Hks sk Hsk) as (sa & _ & _ & _ & m & _ & Hsa & _ & _ & _ & _ & Hm & Hl & Hfloor & _).
  destruct (aside_steps _ _ _ _ _ Hmax Hsa Ha2) as [Hhides _ [_ Hlate]].
  specialize (Hfloor Hhides). specialize (Hlate _ Hm Hl).
  destruct (reachable_log _ _ Hr) as (_ & Hlog & _). destruct (Hlog _ _ Hg) as (_ & _ & ?). lia.
Qed.
