(* ===== verification/ChatDeviceFacts.v ===== *)
(** * ChatDeviceFacts: what registering, confirming and revoking devices ensures

    Every transaction on devices keeps the table in order ([devices_in_order]) and does to
    the conversations nothing but renewing keys ([run_device_rekeys]), so the theorems about
    conversations hold with devices around.  A device registered by an intruder is handed no
    older key for three days, however many devices it registers ([intruder_sealed]), and
    what is sent after a device was revoked is under new keys ([revoked_cannot_read]). *)

From Stdlib Require Import ZArith Lia String.
From stdpp Require Import base list numbers option tactics sets gmap fin_maps relations.
From S2P Require Import Prelude Text AppError SealedGate ChatTables ChatOps ChatSystem ChatDevices ChatFacts ChatHandlers ChatSecrets.
Local Open Scope Z_scope.

(** ** Rows *)

(** What no statement changes of a device. *)
Definition same_identity (d d' : DeviceRow) : Prop :=
  d_id d' = d_id d /\ d_user_id d' = d_user_id d /\ d_created_at d' = d_created_at d /\ d_auth_pub d' = d_auth_pub d
  /\ d_box_pub d' = d_box_pub d.

(** A change that gives a device neither a session nor life. *)
Definition tame (d d' : DeviceRow) : Prop :=
  same_identity d d' /\ d_session_hash d' = d_session_hash d /\ (device_active d' = true -> device_active d = true).

Global Instance same_identity_preorder : PreOrder same_identity.
Proof. split; unfold same_identity; repeat intro; intuition congruence. Qed.
Global Instance tame_preorder : PreOrder tame.
Proof.
  split; [by intros d|]. intros x y z (H1 & E1 & A1) (H2 & E2 & A2). split_and!; [by etrans|congruence|auto].
Qed.

(** Row by row. *)
Definition rows_change (R : DeviceRow -> DeviceRow -> Prop) (t t' : gmap Z DeviceRow) : Prop :=
  forall id, option_Forall2 R (t !! id) (t' !! id).

Lemma rows_change_refl R `{!Reflexive R} t : rows_change R t t.
Proof. intros id. destruct (t !! id); by constructor. Qed.

Lemma rows_change_trans R `{!Transitive R} t1 t2 t3 : rows_change R t1 t2 -> rows_change R t2 t3 -> rows_change R t1 t3.
Proof.
  intros H1 H2 id. specialize (H1 id). specialize (H2 id). destruct H1 as [x y Hxy|]; inversion H2; subst; constructor. by etrans.
Qed.

Lemma rows_change_fmap (R : DeviceRow -> DeviceRow -> Prop) f t : (forall d, R d (f d)) -> rows_change R t (f <$> t).
Proof. intros H id. rewrite lookup_fmap. destruct (t !! id); by constructor. Qed.

Lemma rows_change_insert (R : DeviceRow -> DeviceRow -> Prop) `{!Reflexive R} t id d d' :
  t !! id = Some d -> R d d' -> rows_change R t (<[id := d']> t).
Proof.
  intros Hd H j. destruct (decide (j = id)) as [->|Hne]; [rewrite Hd, lookup_insert_eq; by constructor|].
  rewrite lookup_insert_ne by done. destruct (t !! j); by constructor.
Qed.

Lemma rows_change_Some R t t' id d' : rows_change R t t' -> t' !! id = Some d' -> exists d, t !! id = Some d /\ R d d'.
Proof. intros H E. specialize (H id). rewrite E in H. inversion H; subst. eauto. Qed.

Lemma rows_change_lookup R t t' id d : rows_change R t t' -> t !! id = Some d -> exists d', t' !! id = Some d' /\ R d d'.
Proof. intros H E. specialize (H id). rewrite E in H. inversion H; subst. eauto. Qed.

Lemma update_device_rows (R : DeviceRow -> DeviceRow -> Prop) `{!Reflexive R} id p f w :
  (forall d, p d = true -> R d (f d)) -> rows_change R (devices w) (devices (update_device id p f w).2).
Proof.
  intros H. unfold update_device. destruct (devices w !! id) as [d|] eqn:E; [|by apply rows_change_refl].
  destruct (p d) eqn:Hp; [|by apply rows_change_refl]. apply (rows_change_insert _ _ _ d); auto.
Qed.

Lemma update_device_convs id p f w : convs (update_device id p f w).2 = convs w.
Proof. unfold update_device. by split_ifs. Qed.

Lemma tame_revoked now d : tame d (revoked_row now d).
Proof. done. Qed.

(** ** The table *)

Section table.
Context (owner : bytes -> option str).

Record devices_ok (t : gmap Z DeviceRow) : Prop := {
  dk_keyed id d : t !! id = Some d -> d_id d = id;
  dk_session i j d e : t !! i = Some d -> t !! j = Some e -> device_active d = true -> device_active e = true ->
    d_session_hash d = d_session_hash e -> i = j;
  dk_cap user m : count_live user {| devices := t; convs := m |} <= DEVICES_MAX;
  dk_owner id d : t !! id = Some d -> owner (d_session_hash d) = Some (d_user_id d) }.

Lemma count_live_tame user t t' m m' :
  rows_change tame t t' -> count_live user {| devices := t'; convs := m' |} <= count_live user {| devices := t; convs := m |}.
Proof.
  intros H. unfold count_live. cbn [devices]. rewrite <- !(size_dom (D := gset Z)).
  apply Nat2Z.inj_le, subseteq_size. intros id. rewrite !elem_of_dom. intros [d' Hd'].
  apply map_lookup_filter_Some in Hd' as [Hd' Hp]. cbn in Hp. bprop.
  destruct (rows_change_Some _ _ _ _ _ H Hd') as (d & Hd & (_ & Hu & _) & _ & Ha).
  exists d. apply map_lookup_filter_Some. split; [done|]. cbn. rewrite bool_decide_true by congruence. auto.
Qed.

Lemma devices_ok_tame t t' : rows_change tame t t' -> devices_ok t -> devices_ok t'.
Proof.
  intros H [Hk Hs Hc Ho]. split.
  - intros id d' Hd'. destruct (rows_change_Some _ _ _ _ _ H Hd') as (d & Hd & (-> & _) & _). eauto.
  - intros i j d' e' Hd' He' Ad Ae E.
    destruct (rows_change_Some _ _ _ _ _ H Hd') as (d & Hd & _ & Hds & Hda).
    destruct (rows_change_Some _ _ _ _ _ H He') as (e & He & _ & Hes & Hea). eapply Hs; eauto. congruence.
  - intros user m. etrans; [apply (count_live_tame user t t' m m H)|apply Hc].
  - intros id d' Hd'. destruct (rows_change_Some _ _ _ _ _ H Hd') as (d & Hd & (_ & -> & _) & -> & _). eauto.
Qed.

Lemma session_taken_false hash id w d j :
  session_taken hash id w = false -> devices w !! j = Some d -> device_active d = true -> d_session_hash d = hash -> j = id.
Proof.
  intros H Hd Ha Hh. destruct (decide (j = id)) as [|Hne]; [done|]. exfalso.
  assert (session_taken hash id w = true) as Ht; [|congruence]. unfold session_taken. apply existsb_exists.
  exists (j, d). split; [by apply list_elem_of_In, elem_of_map_to_list|]. cbn. unfold holds_session.
  rewrite Ha, bool_decide_true by done. by destruct (Z.eqb_spec j id).
Qed.

(** A row that is new or moved to a session which is free. *)
Lemma devices_ok_place t id d m :
  devices_ok t -> d_id d = id -> owner (d_session_hash d) = Some (d_user_id d) ->
  session_taken (d_session_hash d) id {| devices := t; convs := m |} = false ->
  (forall d0, t !! id = Some d0 -> device_active d0 = true /\ d_user_id d0 = d_user_id d) ->
  (t !! id = None -> count_live (d_user_id d) {| devices := t; convs := m |} < DEVICES_MAX) ->
  devices_ok (<[id := d]> t).
Proof.
  intros [Hk Hs Hc Ho] Hid Hown Hfree Hold Hnew. split.
  - intros j e. rewrite lookup_insert_Some. intros [[<- <-]|[_ He]]; eauto.
  - intros i j e e'. rewrite !lookup_insert_Some. intros [[<- <-]|[Hi He]] [[<- <-]|[Hj He']] Ae Ae' E.
    + done.
    + symmetry. by eapply (session_taken_false _ _ _ e' j Hfree).
    + by eapply (session_taken_false _ _ _ e i Hfree).
    + eauto.
  - intros user m'. unfold count_live. cbn [devices]. rewrite map_filter_insert. cbn [snd].
    destruct (decide _) as [Hp|Hp].
    + apply andb_prop in Hp as [Hu%bool_decide_eq_true_1 Ha]. destruct (t !! id) as [d0|] eqn:E.
      * destruct (Hold _ eq_refl) as [Ha0 Hu0]. rewrite map_size_insert.
        rewrite (proj2 (map_lookup_filter_Some _ _ id d0)); [apply (Hc user m)|].
        split; [done|]. cbn. rewrite bool_decide_true by congruence. done.
      * specialize (Hnew eq_refl). rewrite map_size_insert.
        rewrite (proj2 (map_lookup_filter_None _ _ id)); [|by left]. unfold count_live in Hnew. cbn [devices] in Hnew.
        rewrite Hu in Hnew. lia.
    + etrans; [|apply (Hc user m)]. unfold count_live. cbn [devices]. apply Nat2Z.inj_le.
      rewrite map_filter_delete. apply map_subseteq_size, delete_subseteq.
  - intros j e. rewrite lookup_insert_Some. intros [[<- <-]|[_ He]]; eauto.
Qed.
End table.

(** ** Transactions *)

Section enrolling.
Context (env : Env) (user : str) (hash : bytes) (tier : Tier) (b : BoundDevice) (q : RegisterDevice) (w : Chats).
Abbreviation r := (enroll env user hash tier b q w).
Abbreviation evicted := (revoke_session_holders (e_now env) hash (b_id b) w).

Definition enrolled_new : Prop :=
  devices w !! b_id b = None /\ count_live user evicted.2 < DEVICES_MAX
  /\ devices r.2 = <[b_id b := new_device_row env user hash tier b q]> (devices evicted.2)
  /\ convs r.2 = convs (rekey_conversations [user] w).

Definition enrolled_again : Prop :=
  exists d0 d, devices w !! b_id b = Some d0 /\ d_user_id d0 = user
  /\ devices evicted.2 !! b_id b = Some d /\ device_active d = true
  /\ devices r.2 = <[b_id b := with_app hash (rq_platform q) (rq_name q) (rq_app_version q) (rq_caps q) (e_now env) d]> (devices evicted.2)
  /\ (convs r.2 = convs (rekey_conversations [user] w) \/ (evicted.1 = [] /\ convs r.2 = convs w)).

Lemma enroll_spec :
  (r.2 = w /\ failed r.1) \/ (session_taken hash (b_id b) evicted.2 = false /\ (enrolled_new \/ enrolled_again)).
Proof.
  unfold enrolled_new, enrolled_again.
  assert (convs evicted.2 = convs w) as Hc by done. remember evicted as ev eqn:Ev.
  cbv beta iota zeta delta [enroll transaction mbind ST_bind gets sql mret ST_ret modify relogin first_login move_to_session
    insert_device update_device bail db_error throw].
  destruct (devices w !! b_id b) as [d0|] eqn:Hd; cbn [is_some negb orb].
  - destruct (same_device d0 user b) eqn:Hs; [|by left]. cbn beta iota zeta. rewrite <- !Ev. clear Ev.
    destruct ev as [ids w1]. cbn [fst snd] in *.
    assert (d_user_id d0 = user) as Hu.
    { unfold same_device in Hs. destruct (_ || _) eqn:E; [done|]. by bprop. }
    destruct (from_option device_active false _ && _) eqn:Htaken; [by left|]. cbn beta iota zeta.
    destruct (devices w1 !! b_id b) as [d|] eqn:Hd1; [|by left]. destruct (device_active d) eqn:Ha; [|by left].
    cbn [from_option] in Htaken. rewrite Ha in Htaken. cbn [andb] in Htaken. cbn beta iota zeta.
    right. split; [done|]. right. exists d0, d.
    destruct (bool_decide (ids = [])) eqn:Eids; cbn; rewrite Hc; bprop; split_and!; auto.
  - cbn beta iota zeta. rewrite <- !Ev. clear Ev. destruct ev as [ids w1]. cbn [fst snd] in *.
    destruct (DEVICES_MAX <=? count_live user w1) eqn:Hcap; [by left|]. cbn beta iota zeta.
    destruct (is_some _) eqn:Hd1; [by left|]. destruct (session_taken _ _ _) eqn:Htaken; [by left|].
    right. split; [done|]. left. cbn. rewrite Hc. bprop. split_and!; done || lia.
Qed.
End enrolling.

Lemma failed_ok {A E} (a : A) : ~ failed (Ok (E := E) a).
Proof. by intros []. Qed.

Lemma snd_let_pair {A B C} (f : A -> C) (p : A * B) : (let '(r, w) := p in (f r, w)).2 = p.2.
Proof. by destruct p. Qed.

Lemma rekey_none w : convs (rekey_conversations [] w) = convs w.
Proof. cbn. apply map_fmap_id. Qed.

(** What the handler knows when it runs the transaction, as the table is then. *)
Definition knows {A} (owner : bytes -> option str) (x : DeviceTx A) (w : Chats) : Prop :=
  match x with
  | XEnroll user hash _ _ _ => owner hash = Some user
  | XRevoke d0 => exists d, devices w !! d_id d0 = Some d /\ same_identity d0 d
  | _ => True
  end.

(** [us] are the users whose conversations get new keys. *)
Definition rekeys (us : list str) (w w' : Chats) : Prop :=
  convs w' = convs (rekey_conversations us w)
  /\ forall id d d', devices w !! id = Some d -> devices w' !! id = Some d' ->
       device_active d = true -> device_active d' = false -> d_user_id d ∈ us.

Lemma rekeys_none w w' :
  convs w' = convs w -> rows_change (fun d d' => device_active d' = device_active d) (devices w) (devices w') -> rekeys [] w w'.
Proof.
  intros Hc H. split; [by rewrite rekey_none|]. intros id d d' Hd Hd' A A'.
  destruct (rows_change_lookup _ _ _ _ _ H Hd) as (d1 & Hd1 & E). congruence.
Qed.

Lemma holders_gone now hash keep w id d d' :
  devices w !! id = Some d -> devices (revoke_session_holders now hash keep w).2 !! id = Some d' ->
  device_active d = true -> device_active d' = false ->
  d_session_hash d = hash /\ (revoke_session_holders now hash keep w).1 <> [].
Proof.
  unfold revoke_session_holders. cbn [fst snd devices set_devices]. intros Hd. rewrite lookup_fmap, Hd. cbn. intros [= <-] A A'.
  destruct (_ && _) eqn:E; [|congruence].
  assert (In (id, d) (List.filter (fun x => holds_session hash x.2 && negb (d_id x.2 =? keep)) (map_to_list (devices w)))) as Hin.
  { apply filter_In. split; [by apply list_elem_of_In, elem_of_map_to_list|]. done. }
  unfold holds_session in E. bprop. split; [done|]. intros Hnil.
  apply (f_equal length) in Hnil. rewrite !length_fmap in Hnil. apply nil_length_inv in Hnil. by rewrite Hnil in Hin.
Qed.

Lemma swept_user d rows :
  d ∈ rows ->
  d_user_id d ∈ fst <$> map_to_list (foldr (fun d m => <[d_user_id d := d_id d :: default [] (m !! d_user_id d)]> m) (∅ : gmap str (list Z)) rows).
Proof.
  intros Hd. assert (is_Some (foldr (fun d m => <[d_user_id d := d_id d :: default [] (m !! d_user_id d)]> m) (∅ : gmap str (list Z)) rows !! d_user_id d)) as [ids H].
  { induction rows as [|e rows IH]; [by apply elem_of_nil in Hd|]. cbn [foldr]. apply lookup_insert_is_Some.
    destruct (decide (d_user_id e = d_user_id d)) as [->|Hne]; [by left|right]. split; [done|]. apply IH.
    apply elem_of_cons in Hd as [->|?]; done. }
  apply list_elem_of_fmap. exists (d_user_id d, ids). split; [done|]. by apply elem_of_map_to_list.
Qed.

Lemma enroll_rekeys owner env user hash tier b q w :
  devices_ok owner (devices w) -> owner hash = Some user -> exists us, rekeys us w (enroll env user hash tier b q w).2.
Proof.
  intros Hok Hown. destruct (enroll_spec env user hash tier b q w) as [[-> _]|[_ [(Hn & _ & Ht & Hc)|(d0 & d & Hd0 & Hu & Hd & Ha & Ht & Hc)]]].
  - exists []. apply rekeys_none; [done|]. by apply rows_change_refl.
  - exists [user]. split; [done|]. rewrite Ht. intros id x x' Hx. rewrite lookup_insert_ne by congruence. intros Hx' A A'.
    destruct (holders_gone _ _ _ _ _ _ _ Hx Hx' A A') as [Hs _]. pose proof (dk_owner _ _ Hok _ _ Hx). set_solver.
  - destruct Hc as [Hc|[Hnil Hc]]; [exists [user]|exists []]; (split; [by rewrite ?rekey_none|]); rewrite Ht.
    all: intros id x x' Hx Hx' A A'; apply lookup_insert_Some in Hx' as [[<- <-]|[Hne Hx']];
      [exfalso; revert A'; unfold device_active in *; cbn; by rewrite Ha|].
    all: destruct (holders_gone _ _ _ _ _ _ _ Hx Hx' A A') as [Hs Hne'].
    + pose proof (dk_owner _ _ Hok _ _ Hx). set_solver.
    + by destruct Hne'.
Qed.

Lemma revoke_rekeys env d0 d w :
  devices w !! d_id d0 = Some d -> same_identity d0 d -> exists us, rekeys us w (revoke env d0 w).2.
Proof.
  intros Hd (_ & Hu & _).
  cbv beta iota zeta delta [revoke transaction mbind ST_bind sql mret ST_ret modify revoke_device_sql update_device]. rewrite Hd.
  destruct (device_active d) eqn:Ha; cbn [is_some fst snd].
  - exists [d_user_id d0]. split; [done|]. cbn. intros id x x' Hx Hx' A A'.
    apply lookup_insert_Some in Hx' as [[<- _]|[_ Hx']]; [|congruence]. assert (x = d) as -> by congruence. set_solver.
  - exists []. apply rekeys_none; [done|]. by apply rows_change_refl.
Qed.

Lemma sweep_rekeys env pass locked alive w : exists us, rekeys us w (check_batch env pass locked alive w).2.
Proof.
  cbv beta iota zeta delta [check_batch transaction mbind ST_bind gets sql mret ST_ret modify revoke_sessionless]. cbn [fst snd].
  set (ids := d_id <$> _). clearbody ids. set (rows := List.filter _ _). set (m := foldr _ _ rows).
  exists (if bool_decide (rows = []) then [] else fst <$> map_to_list m). split.
  - destruct (bool_decide _); [by rewrite rekey_none|]. done.
  - intros id d d' Hd Hd' A A'.
    assert (devices w !! id = Some d /\ sessionless ids alive d = true) as [_ Hs].
    { split; [done|]. assert (devices (mark_alive_checked ids pass (set_devices ((fun d => if sessionless ids alive d then revoked_row (e_now env) d else d) <$> devices w) w)) !! id = Some d') as H
        by (by destruct (bool_decide (rows = []))).
      clear Hd'. cbn in H. rewrite !lookup_fmap, Hd in H. cbn in H. destruct (sessionless ids alive d) eqn:E; [done|exfalso].
      injection H as <-. assert (device_active d = false); [|congruence].
      revert A'. destruct (bool_decide _ && _); intros A'; exact A'. }
    assert (d ∈ rows) as Hin.
    { apply list_elem_of_In, filter_In. split; [|done]. apply list_elem_of_In, list_elem_of_fmap. exists (id, d).
      split; [done|]. by apply elem_of_map_to_list. }
    rewrite bool_decide_false by (intros E; rewrite E in Hin; by apply elem_of_nil in Hin). by apply swept_user.
Qed.

(** Devices are revoked with new keys for the conversations of their user, and nothing else
    is done to conversations. *)
Lemma run_device_rekeys owner env A (x : DeviceTx A) w :
  devices_ok owner (devices w) -> knows owner x w -> exists us, rekeys us w (run_device env x w).2.
Proof.
  intros Hok Hx. destruct x as [user hash tier b q|d0|id|id|id app_version caps|pass locked alive]; cbn [run_device].
  - by eapply enroll_rekeys.
  - destruct Hx as (d & Hd & Hs). by eapply revoke_rekeys.
  - exists []. apply rekeys_none; [apply update_device_convs|]. by apply update_device_rows; [intros ?|].
  - exists []. rewrite snd_let_pair. apply rekeys_none; [apply update_device_convs|]. by apply update_device_rows; [intros ?|].
  - exists []. rewrite snd_let_pair. apply rekeys_none; [apply update_device_convs|]. by apply update_device_rows; [intros ?|].
  - apply sweep_rekeys.
Qed.

(** Statements of the other transactions change rows tamely. *)
Definition registers {A} (x : DeviceTx A) : bool := match x with XEnroll _ _ _ _ _ => true | _ => false end.
Definition unlocks {A} (x : DeviceTx A) : bool := match x with XUnlock _ => true | _ => false end.

(** What a transaction other than unlocking keeps of a device. *)
Definition kept {A} (x : DeviceTx A) (d d' : DeviceRow) : Prop :=
  same_identity d d' /\ (unlocks x = false -> d_history_unlocked_at d' = d_history_unlocked_at d).

Definition tamely {A} (x : DeviceTx A) (d d' : DeviceRow) : Prop := tame d d' /\ kept x d d'.

Global Instance tamely_preorder {A} (x : DeviceTx A) : PreOrder (tamely x).
Proof.
  split; [by intros d|]. intros u v w (T1 & I1 & K1) (T2 & I2 & K2). split; [by etrans|]. split; [by etrans|].
  intros Hx. by rewrite K2, K1.
Qed.

Lemma run_device_tame env A (x : DeviceTx A) w :
  registers x = false -> rows_change (tamely x) (devices w) (devices (run_device env x w).2).
Proof.
  intros Hx. destruct x as [user hash tier b q|d0|id|id|id app_version caps|pass locked alive]; cbn [run_device]; [done|..].
  - cbv beta iota zeta delta [revoke transaction mbind ST_bind sql mret ST_ret modify revoke_device_sql].
    pose proof (update_device_rows (tamely (XRevoke d0)) (d_id d0) device_active (revoked_row (e_now env)) w (fun d _ => ltac:(done))) as H.
    destruct (update_device _ _ _ w) as [r w1]. cbn [snd] in *. by destruct (is_some r).
  - by apply update_device_rows; [apply _|].
  - rewrite snd_let_pair. by apply update_device_rows; [apply _|].
  - rewrite snd_let_pair. by apply update_device_rows; [apply _|].
  - cbv beta iota zeta delta [check_batch transaction mbind ST_bind gets sql mret ST_ret modify revoke_sessionless]. cbn [fst snd].
    match goal with |- rows_change ?R _ (devices ((if ?b then _ else _) ?w1)) =>
      assert (rows_change R (devices w) (devices w1)) as H; [|by destruct b] end.
    eapply (rows_change_trans _); [|apply rows_change_fmap; intros d; by destruct (bool_decide _ && _)].
    cbn [devices set_devices]. apply rows_change_fmap. intros d. by destruct (sessionless _ _ d).
Qed.

Lemma tamely_tame {A} (x : DeviceTx A) t t' : rows_change (tamely x) t t' -> rows_change tame t t'.
Proof. intros H id. destruct (H id) as [d d' []|]; by constructor. Qed.

Lemma holders_tamely {A} (x : DeviceTx A) now hash keep w :
  rows_change (tamely x) (devices w) (devices (revoke_session_holders now hash keep w).2).
Proof. apply rows_change_fmap. intros d. by destruct (_ && _). Qed.

Lemma enroll_ok owner env user hash tier b q w :
  devices_ok owner (devices w) -> owner hash = Some user -> devices_ok owner (devices (enroll env user hash tier b q w).2).
Proof.
  intros Hok Hown. pose proof (tamely_tame _ _ _ (holders_tamely (XEnroll user hash tier b q) (e_now env) hash (b_id b) w)) as Ht.
  pose proof (devices_ok_tame _ _ _ Ht Hok) as Hok1.
  destruct (enroll_spec env user hash tier b q w) as [[-> _]|[Hfree H]]; [done|].
  destruct (revoke_session_holders _ _ _ _) as [ids [t1 m1]] eqn:Ev. cbn [snd devices] in *.
  destruct H as [(Hn & Hcap & E & _)|(d0 & d & Hd0 & Hu & Hd & Ha & E & _)]; rewrite Ev in *; cbn [snd devices] in *; rewrite E.
  - apply (devices_ok_place _ _ _ _ m1); try done. intros d1 Hd1.
    destruct (rows_change_Some _ _ _ _ _ Ht Hd1) as (? & ? & _). congruence.
  - destruct (rows_change_Some _ _ _ _ _ Ht Hd) as (d0' & Hd0' & (Hid & Hu' & _) & _). assert (d0' = d0) as -> by congruence.
    apply (devices_ok_place _ _ _ _ m1); try done.
    + cbn. rewrite Hid. by apply (dk_keyed _ _ Hok).
    + cbn. congruence.
    + intros d1 Hd1. assert (d1 = d) as -> by congruence. done.
    + congruence.
Qed.

Lemma run_device_ok owner env A (x : DeviceTx A) w :
  devices_ok owner (devices w) -> knows owner x w -> devices_ok owner (devices (run_device env x w).2).
Proof.
  intros Hok Hx. destruct (registers x) eqn:Hr.
  - destruct x; try discriminate Hr. by apply enroll_ok.
  - eapply devices_ok_tame; [|exact Hok]. by eapply tamely_tame, run_device_tame.
Qed.

(** Nothing is done to the identity of a device that there is, and a new one is as
    [enroll] makes it. *)
Lemma run_device_kept env A (x : DeviceTx A) w id d :
  devices w !! id = Some d -> exists d', devices (run_device env x w).2 !! id = Some d' /\ kept x d d'.
Proof.
  intros Hd. destruct (registers x) eqn:Hr.
  - destruct x as [user hash tier b q| | | | |]; try discriminate Hr. cbn [run_device].
    destruct (enroll_spec env user hash tier b q w) as [[-> _]|[_ H]]; [by exists d|].
    destruct (rows_change_lookup _ _ _ _ _ (holders_tamely (XEnroll user hash tier b q) (e_now env) hash (b_id b) w) Hd)
      as (d1 & Hd1 & _ & K1).
    destruct H as [(Hn & _ & -> & _)|(d0 & d2 & _ & _ & Hd2 & _ & -> & _)].
    + exists d1. rewrite lookup_insert_ne by congruence. done.
    + destruct (decide (id = b_id b)) as [->|Hne]; [|exists d1; by rewrite lookup_insert_ne].
      rewrite lookup_insert_eq. eexists. split; [done|]. assert (d2 = d1) as -> by congruence. exact K1.
  - destruct (rows_change_lookup _ _ _ _ _ (run_device_tame env _ x w Hr) Hd) as (d' & Hd' & _ & K). eauto.
Qed.

Lemma run_device_new env A (x : DeviceTx A) w id d' :
  devices (run_device env x w).2 !! id = Some d' -> devices w !! id = None ->
  match x with XEnroll user hash tier b q => d' = new_device_row env user hash tier b q /\ id = b_id b | _ => False end.
Proof.
  intros Hd' Hn. destruct (registers x) eqn:Hr.
  - destruct x as [user hash tier b q| | | | |]; try discriminate Hr. cbn [run_device] in *.
    pose proof (tamely_tame _ _ _ (holders_tamely (XEnroll user hash tier b q) (e_now env) hash (b_id b) w)) as Ht.
    destruct (enroll_spec env user hash tier b q w) as [[E _]|[_ H]]; [rewrite E in Hd'; congruence|].
    destruct H as [(_ & _ & E & _)|(d0 & d2 & Hd0 & _ & _ & _ & E & _)]; rewrite E in Hd'.
    all: apply lookup_insert_Some in Hd' as [[<- <-]|[_ Hd']]; [|destruct (rows_change_Some _ _ _ _ _ Ht Hd') as (? & ? & _); congruence].
    + done.
    + congruence.
  - destruct (rows_change_Some _ _ _ _ _ (run_device_tame env _ x w Hr) Hd') as (? & ? & _). congruence.
Qed.

(** ** The system *)

Lemma expire_nothing now c : expire_sql now [] c = c.
Proof.
  unfold expire_sql. assert (filter (fun x : Z * MessageRow => negb (bool_decide (x.1 ∈ []) && negb (unexpired now x.2)) = true)
    (messages c) = messages c) as ->; [|by destruct c].
  apply map_filter_id. intros i g _. cbn. by rewrite bool_decide_false by apply not_elem_of_nil.
Qed.

(** For a conversation, what happens to devices is a sequence of steps of its own. *)
Lemma rekey_moves encode us S clock :
  s_clock S <= clock -> rtc (sys_step encode) S (stamped clock (foldr rekey_user (conv S) us) S).
Proof.
  intros Hc. set (env := {| e_now := 0; e_clock := clock; e_id := 0; e_id' := 0; e_media := Ok tt |}).
  induction us as [|u us IH]; cbn [foldr].
  - apply rtc_once. pose proof (sys_tx encode S unit (TExpire []) env ltac:(done) Hc) as H.
    cbn in H. by rewrite expire_nothing in H.
  - eapply rtc_r; [exact IH|].
    exact (sys_tx encode (stamped clock (foldr rekey_user (conv S) us) S) unit (TRekeyUser u) env ltac:(done) ltac:(cbn; lia)).
Qed.

Lemma settled_chat clock us w' s i :
  convs w' = convs (rekey_conversations us (world s)) ->
  chats (settled clock w' s) !! i = (fun S => stamped clock (foldr rekey_user (conv S) us) S) <$> chats s !! i.
Proof.
  intros H. unfold settled. cbn [chats]. rewrite map_lookup_imap, H. cbn. rewrite !lookup_fmap.
  by destruct (chats s !! i).
Qed.

Section system.
Context (encode : SystemEvent -> bytes) (owner : bytes -> option str).

Record dsys_ok (s : DSys) : Prop := {
  do_devices : devices_ok owner (w_devices s);
  do_seen d : d ∈ seen s -> exists d', w_devices s !! d_id d = Some d' /\ same_identity d d';
  do_chats i S : chats s !! i = Some S -> reachable encode S }.

Lemma reachable_more S S' : reachable encode S -> rtc (sys_step encode) S S' -> reachable encode S'.
Proof. intros (S0 & H0 & Hl & H) H'. exists S0. split_and!; [done..|by etrans]. Qed.

Context (reads : Z -> Prop) (confirms : DeviceRow -> Prop) (begins : Z -> Prop).
Abbreviation step := (dev_step encode owner reads confirms begins).

Lemma may_knows A (x : DeviceTx A) s : dsys_ok s -> may owner reads confirms x s -> knows owner x (world s).
Proof. intros Hok Hx. destruct x; cbn in *; try done. by apply (do_seen _ Hok). Qed.

Lemma dev_step_ok s s' : step s s' -> dsys_ok s -> dsys_ok s'.
Proof.
  intros Hstep Hok. pose proof Hok as [Hd Hs Hc]. destruct Hstep as [id d Hd'|A x env Hx Ht|i S S' HS Hstep|i c clock Hn Hc'].
  - split; [done| |done]. intros e. cbn. rewrite elem_of_cons. intros [->|He]; [|auto].
    exists d. rewrite (dk_keyed _ _ Hd _ _ Hd'). done.
  - pose proof (may_knows _ _ _ Hok Hx) as Hk. split.
    + by apply run_device_ok.
    + intros d Hin. destruct (Hs d Hin) as (d1 & Hd1 & I1).
      destruct (run_device_kept env _ x (world s) _ _ Hd1) as (d2 & Hd2 & I2 & _). exists d2. split; [done|by etrans].
    + destruct (run_device_rekeys owner env _ x (world s) Hd Hk) as (us & Hus & _).
      intros i S' HS'. rewrite (settled_chat _ us) in HS' by done.
      destruct (chats s !! i) as [S|] eqn:HS; [|done]. cbn in HS'. injection HS' as <-.
      eapply reachable_more; [by eapply Hc|]. apply rekey_moves. destruct Ht as [Ht _]. by eapply Ht.
  - split; [done..|]. intros j T. cbn. rewrite lookup_insert_Some. intros [[<- <-]|[_ HT]]; [|eauto].
    eapply reachable_more; [by eapply Hc|]. by apply rtc_once.
  - split; [done..|]. intros j T. cbn. rewrite lookup_insert_Some. intros [[<- <-]|[_ HT]]; [|eauto].
    exists {| conv := c; loaded := []; s_clock := clock |}. split_and!; [exact Hc'|done|apply rtc_refl].
Qed.

Lemma dev_steps_ok s s' : rtc step s s' -> dsys_ok s -> dsys_ok s'.
Proof. induction 1; eauto using dev_step_ok. Qed.

Lemma no_devices_ok : dsys_ok no_devices.
Proof.
  split; [split|..]; cbn [w_devices chats seen no_devices]; try (intros; by simplify_map_eq).
  intros d Hd. by apply elem_of_nil in Hd.
Qed.

(** A conversation on its own. *)
Lemma dev_step_chat s s' i S :
  step s s' -> dsys_ok s -> chats s !! i = Some S -> exists S', chats s' !! i = Some S' /\ rtc (sys_step encode) S S'.
Proof.
  intros Hstep Hok HS. destruct Hstep as [id d Hd'|A x env Hx Ht|j T T' HT Hstep|j c clock Hn Hc'].
  - by exists S.
  - destruct (run_device_rekeys owner env _ x (world s) (do_devices _ Hok) (may_knows _ _ _ Hok Hx)) as (us & Hus & _).
    rewrite (settled_chat _ us) by done. rewrite HS. cbn. eexists. split; [done|]. apply rekey_moves.
    destruct Ht as [Ht _]. by eapply Ht.
  - cbn. destruct (decide (i = j)) as [->|Hne]; [|exists S; by rewrite lookup_insert_ne].
    rewrite lookup_insert_eq. exists T'. split; [done|]. assert (T = S) as -> by congruence. by apply rtc_once.
  - cbn. exists S. rewrite lookup_insert_ne by congruence. done.
Qed.

Lemma dev_steps_chat s s' i S :
  rtc step s s' -> dsys_ok s -> chats s !! i = Some S -> exists S', chats s' !! i = Some S' /\ rtc (sys_step encode) S S'.
Proof.
  intros H. revert S. induction H as [s|s s1 s' H1 H2 IH]; intros S Hok HS; [by exists S|].
  destruct (dev_step_chat _ _ _ _ H1 Hok HS) as (S1 & HS1 & M1).
  destruct (IH S1 (dev_step_ok _ _ H1 Hok) HS1) as (S2 & HS2 & M2). exists S2. split; [done|by etrans].
Qed.

(** And the other way round. *)
Lemma chat_moves s i S S' :
  chats s !! i = Some S -> rtc (sys_step encode) S S' ->
  rtc step s {| w_devices := w_devices s; chats := <[i := S']> (chats s); seen := seen s |}.
Proof.
  intros HS H. revert s HS. induction H as [S|S S1 S' H1 H2 IH]; intros s HS; [rewrite insert_id by done; by destruct s|].
  eapply rtc_l; [by eapply step_conv|].
  specialize (IH {| w_devices := w_devices s; chats := <[i := S1]> (chats s); seen := seen s |} ltac:(apply lookup_insert_eq)).
  cbn in IH. by rewrite insert_insert_eq in IH.
Qed.

(** Devices stay, with their identity. *)
Lemma dev_steps_row s s' id d :
  rtc step s s' -> w_devices s !! id = Some d -> exists d', w_devices s' !! id = Some d' /\ same_identity d d'.
Proof.
  intros H. revert d. induction H as [s|s s1 s' H1 H2 IH]; intros d Hd; [by exists d|].
  assert (exists d1, w_devices s1 !! id = Some d1 /\ same_identity d d1) as (d1 & Hd1 & I1).
  { destruct H1; try (by exists d). destruct (run_device_kept env _ x (world s) _ _ Hd) as (d1 & Hd1 & I1 & _). eauto. }
  destruct (IH _ Hd1) as (d2 & Hd2 & I2). exists d2. split; [done|by etrans].
Qed.
End system.

(** ** Theorems *)

(** C25: However registrations, logins, removals and sweeps interleave, a user has at most
    ten active devices, a session has at most one, and a device's session is of the account
    the device is of. *)
Theorem devices_in_order encode owner reads confirms begins s :
  dev_reachable encode owner reads confirms begins s ->
  (forall user, count_live user (world s) <= 10)
  /\ (forall id d, w_devices s !! id = Some d -> owner (d_session_hash d) = Some (d_user_id d))
  /\ (forall i j d e, w_devices s !! i = Some d -> w_devices s !! j = Some e ->
        device_active d = true -> device_active e = true -> d_session_hash d = d_session_hash e -> i = j).
Proof.
  intros H. destruct (dev_steps_ok encode owner _ _ _ _ _ H (no_devices_ok encode owner)) as [[Hk Hs Hc Ho] _ _].
  split_and!; [|done..]. intros user. apply (Hc user (conv <$> chats s)).
Qed.

Lemma rekey_user_frame u c : members (rekey_user u c) = members c /\ messages (rekey_user u c) = messages c.
Proof.
  unfold rekey_user, mark_rekey. destruct (members c !! u) as [m|]; [|done]. destruct (_ && _); [|done]. by destruct (is_deleted c).
Qed.

Lemma rekey_users_frame us c :
  members (foldr rekey_user c us) = members c /\ messages (foldr rekey_user c us) = messages c
  /\ epoch_of (foldr rekey_user c us) = epoch_of c.
Proof.
  induction us as [|v us (IHm & IHg & IHe)]; [done|]. cbn [foldr]. rewrite rekey_user_epoch.
  destruct (rekey_user_frame v (foldr rekey_user c us)) as [-> ->]. done.
Qed.

Lemma rekey_users_bar u us c : u ∈ us -> is_live u c -> barred (epoch_of c) (foldr rekey_user c us).
Proof.
  intros Hin Hu. induction us as [|v us IH]; [by apply elem_of_nil in Hin|]. cbn [foldr].
  destruct (rekey_users_frame us c) as (Hmem & _ & He). apply elem_of_cons in Hin as [<-|Hin].
  - rewrite <- He. apply rekey_user_bars. by eapply live_frame.
  - eapply barred_evolves; [|by apply IH]. apply (run_tx_evolves (fun _ => []) {| e_now := 0; e_clock := 0; e_id := 0; e_id' := 0;
      e_media := Ok tt |} (TRekeyUser v)).
Qed.

(** C9: When a device is revoked, by its user, by another device, by a login that takes
    over its session or because its session has ended, no key of a conversation of its user
    that was stored until then opens a message a user sends from then on, in the order in
    which the database serialises the transactions. *)
Theorem revoked_cannot_read encode owner reads confirms begins s A (x : DeviceTx A) env id d d' s2 i S S2 e seq g :
  let s1 := settled (e_clock env) (run_device env x (world s)).2 s in
  dev_reachable encode owner reads confirms begins s ->
  may owner reads confirms x s -> in_time begins x env s ->
  w_devices s !! id = Some d -> device_active d = true -> w_devices s1 !! id = Some d' -> device_active d' = false ->
  chats s !! i = Some S -> is_live (d_user_id d) (conv S) -> is_Some (keys (conv S) !! e) ->
  rtc (dev_step encode owner reads confirms begins) s1 s2 -> chats s2 !! i = Some S2 ->
  messages (conv S2) !! seq = Some g -> messages (conv S) !! seq = None -> g_class g <> System ->
  e < g_epoch g.
Proof.
  intros s1 Hr Hx Ht Hd Ha Hd' Ha' HS Hu [k Hk] Hsteps HS2 Hg Hn Hcl.
  pose proof (dev_steps_ok encode owner _ _ _ _ _ Hr (no_devices_ok encode owner)) as Hok.
  pose proof (dev_step_ok encode owner _ _ _ _ _ (step_tx encode owner reads confirms begins s A x env Hx Ht) Hok) as Hok1.
  destruct (run_device_rekeys owner env _ x (world s) (do_devices _ _ _ Hok) (may_knows encode owner _ _ _ _ _ Hok Hx)) as (us & Hus & Hgone).
  specialize (Hgone id d d' Hd Hd' Ha Ha').
  assert (chats s1 !! i = Some (stamped (e_clock env) (foldr rekey_user (conv S) us) S)) as HS1
    by (unfold s1; rewrite (settled_chat _ us), HS by done; done).
  destruct (dev_steps_chat encode owner _ _ _ _ _ _ _ Hsteps Hok1 HS1) as (S2' & HS2' & M2). assert (S2' = S2) as -> by congruence.
  destruct (reachable_log _ _ (do_chats _ _ _ Hok _ _ HS)) as (_ & _ & Hy & _). pose proof (Hy _ _ Hk).
  pose proof (rekey_users_bar _ _ _ Hgone Hu) as Hb.
  destruct (rekey_users_frame us (conv S)) as (_ & Hm & _).
  pose proof (barred_messages _ _ _ seq g (sys_steps_evolve _ _ _ M2) Hb Hg) as Hlt. cbn in Hlt. rewrite Hm in Hlt.
  specialize (Hlt Hn Hcl). lia.
Qed.

Section intruder.
Context (encode : SystemEvent -> bytes) (owner : bytes -> option str) (reads : Z -> Prop) (T : Z) (s0 : DSys).
Hypothesis Hreads : forall now, reads now -> now < T + UNLOCK_AFTER_HOURS * HOUR_US.

Definition registered_since (d : DeviceRow) : Prop := w_devices s0 !! d_id d = None.

Abbreviation step := (dev_step encode owner reads registered_since (fun t => T <= t)).

(** The devices registered since, as they are and as they were read. *)
Definition all_locked (s : DSys) : Prop :=
  forall d, d ∈ seen s \/ w_devices s !! d_id d = Some d -> registered_since d ->
    T <= d_created_at d /\ d_history_unlocked_at d = None.

Lemma nobody_confirms s A (x : DeviceTx A) : all_locked s -> may owner reads registered_since x s -> unlocks x = false.
Proof.
  intros Hl Hx. destruct x; try done. destruct Hx as (me & target & now & Hme & _ & _ & _ & _ & Hnow & Hmay & Hnew).
  destruct (Hl me (or_introl Hme) Hnew) as [HT _]. unfold may_confirm, seasoned in Hmay. bprop. specialize (Hreads _ Hnow). lia.
Qed.

Lemma step_locked s s' : step s s' -> dsys_ok encode owner s -> all_locked s -> all_locked s'.
Proof.
  intros Hstep Hok Hl. destruct Hstep as [id d Hd|A x env Hx [_ Ht]| |]; [| |done..].
  - intros e [He|He] Hn; [|by apply Hl; [right|]]. cbn in He. apply elem_of_cons in He as [->|He]; [|by apply Hl; [left|]].
    apply Hl; [right|done]. by rewrite (dk_keyed _ _ (do_devices _ _ _ Hok) _ _ Hd).
  - intros d [Hd|Hd] Hn; [by apply Hl; [left|]|]. cbn [w_devices settled] in Hd. destruct (w_devices s !! d_id d) as [d0|] eqn:Hd0.
    + destruct (run_device_kept env _ x (world s) _ _ Hd0) as (d' & Hd' & (Hid & _ & Hcr & _) & Hun). assert (d' = d) as -> by congruence.
      rewrite Hcr, (Hun (nobody_confirms _ _ x Hl Hx)). apply Hl; [right|].
      * by rewrite (dk_keyed _ _ (do_devices _ _ _ Hok) _ _ Hd0).
      * unfold registered_since in *. by rewrite <- Hid.
    + pose proof (run_device_new env _ x (world s) _ _ Hd Hd0) as Hnew. destruct x; try done.
      destruct Hnew as [-> _]. cbn. by destruct Ht.
Qed.

Lemma steps_locked s s' : rtc step s s' -> dsys_ok encode owner s -> all_locked s -> all_locked s'.
Proof. induction 1; eauto using step_locked, dev_step_ok. Qed.

Lemma start_locked : dsys_ok encode owner s0 -> all_locked s0.
Proof.
  intros Hok d [Hd|Hd] Hn; unfold registered_since in Hn; [|congruence].
  destruct (do_seen _ _ _ Hok _ Hd) as (d' & Hd' & _). congruence.
Qed.
End intruder.

(** C8: Suppose that from a moment [T] on none of the devices registered before then confirms
    another.  Then, until 72 hours after [T], a device registered since is handed, in the direct,
    saved and group conversations its user was in when the device was registered, no key that was
    stored before it was registered: whoever registers it, however many other devices are
    registered and whatever all of them do, with rows of devices as stale as caches may hold
    them.  Nothing is said of rooms and the public chat, nor of a conversation the user joins
    later. *)
Theorem intruder_sealed encode owner reads T s0 s user hash tier b q env s2 i S S2 d ck_unwrap ck_seal ring guard max_bytes from_epoch :
  let step := dev_step encode owner reads (registered_since s0) (fun t => T <= t) in
  let x := XEnroll user hash tier b q in
  dev_reachable encode owner (fun _ => True) (fun _ => True) (fun _ => True) s0 ->
  (forall now, reads now -> now < T + UNLOCK_AFTER_HOURS * HOUR_US) ->
  rtc step s0 s -> may owner reads (registered_since s0) x s -> in_time (fun t => T <= t) x env s ->
  w_devices s !! b_id b = None -> (exists en, (run_device env x (world s)).1 = Ok en) ->
  chats s !! i = Some S -> is_live user (conv S) -> c_kind (row (conv S)) <> RoomChat -> c_kind (row (conv S)) <> PublicChat ->
  rtc step (settled (e_clock env) (run_device env x (world s)).2 s) s2 ->
  chats s2 !! i = Some S2 -> d_id d = b_id b -> (d ∈ seen s2 \/ w_devices s2 !! d_id d = Some d) ->
  ends encode anything reads d (keys_list ck_unwrap ck_seal ring guard user max_bytes from_epoch) S2
    (fun r _ => match r with
                | Ok ks => Forall (fun sk => exists k, seals d ck_unwrap ck_seal ring k sk /\ d_created_at d <= k_created_at k) ks
                | Err _ => True
                end).
Proof.
  intros step x Hr Hreads Hrun Hmay Htime Hfresh [en Hen] HS Hlive Hroom Hpub Hrun2 HS2 Hid Hd.
  pose proof (dev_steps_ok encode owner _ _ _ _ _ Hr (no_devices_ok encode owner)) as Hok0.
  pose proof (dev_steps_ok encode owner _ _ _ _ _ Hrun Hok0) as Hok.
  pose proof (step_tx encode owner reads (registered_since s0) (fun t => T <= t) s _ x env Hmay Htime) as Hstep.
  pose proof (dev_step_ok encode owner _ _ _ _ _ Hstep Hok) as Hok1.
  pose proof (dev_steps_ok encode owner _ _ _ _ _ Hrun2 Hok1) as Hok2.
  destruct (enroll_spec env user hash tier b q (world s)) as [[_ Hf]|[_ [(_ & _ & Ht & Hc)|(d0 & _ & Hd0 & _)]]].
  { cbn [run_device x] in Hen. rewrite Hen in Hf. destruct Hf. }
  2: { cbn in Hd0. congruence. }
  destruct Htime as [Hclock [HT Hnow]].
  assert (registered_since s0 d) as Hnew.
  { unfold registered_since. rewrite Hid. destruct (w_devices s0 !! b_id b) as [y|] eqn:Hy; [|done].
    destruct (dev_steps_row encode owner _ _ _ _ _ _ _ Hrun Hy) as (? & ? & _). congruence. }
  assert (d_created_at d = e_now env) as Hcreated.
  { destruct (dev_steps_row encode owner _ _ _ _ _ (b_id b) (new_device_row env user hash tier b q) Hrun2) as (d2 & Hd2 & _ & _ & E & _).
    { cbn [w_devices settled run_device x]. rewrite Ht. apply lookup_insert_eq. }
    destruct Hd as [Hd|Hd]; [|rewrite Hid in Hd; cbn in E; congruence].
    destruct (do_seen _ _ _ Hok2 _ Hd) as (d3 & Hd3 & _ & _ & E3 & _). rewrite Hid in Hd3. cbn in E. congruence. }
  pose proof (steps_locked encode owner reads T s0 Hreads _ _ (transitivity Hrun (rtc_l _ _ _ _ Hstep Hrun2)) Hok0
    (start_locked encode owner T s0 Hok0)) as Hlocked.
  destruct (Hlocked d Hd Hnew) as [HTd Hun].
  assert (chats (settled (e_clock env) (run_device env x (world s)).2 s) !! i = Some (stamped (e_clock env) (rekey_user user (conv S)) S)) as HS1
    by (by rewrite (settled_chat _ [user]), HS).
  destruct (dev_steps_chat encode owner _ _ _ _ _ _ _ Hrun2 Hok1 HS1) as (S2' & HS2' & M2). assert (S2' = S2) as -> by congruence.
  apply (locked_device_sealed encode reads d ck_unwrap ck_seal ring user S env S2); try done.
  - by apply (do_chats _ _ _ Hok i).
  - by apply (Hclock i).
  - intros now Hn. specialize (Hreads _ Hn). lia.
Qed.
