(* ===== verification/ChatMessages.v ===== *)
(** * ChatMessages: sending again, reading pages, and the cache of recent messages

    Source: [api/src/modules/chat]: [messages.rs], [messages/store.rs], [messages/page.rs]
    and [hot_cache.rs].  A message that is sent again is answered with its first sequence
    number ([resent_message]); pages read back to back give every message once and fit
    their byte cap ([pages_complete], [page_fits]); what the cache answers is what the
    database would ([cache_agrees]). *)

From Stdlib Require Import ZArith Lia String Sorted.
From stdpp Require Import base list numbers option tactics sets gmap fin_maps relations.
From S2P Require Import Prelude Text AppError RoomModel SealedGate ChatTables ChatOps ChatSystem ChatDevices ChatFacts ChatGroups ChatHandlers.
Local Open Scope Z_scope.

(** ** Sending again *)

Lemma outgoing_client parse_class input out : outgoing parse_class input = Ok out -> o_client_id out = s_client_id input.
Proof.
  unfold outgoing. destruct (parse_class _) as [k|]; [|done]. cbn zeta.
  destruct (_ || _ || _); [done|]. destruct (_ || _); [done|]. destruct (negb _); [done|].
  destruct (admit_media _ _); [|done]. destruct (admit_pings _ _); by intros [= <-].
Qed.

Lemma store_stored env a dev out inherited c g :
  (store env a dev out inherited c).1 = Ok (SStored g) ->
  messages (store env a dev out inherited c).2 !! g_seq g = Some g /\ g_client_id g = o_client_id out /\ g_sender_user g = a_user_id a.
Proof.
  unfold store, transaction, advance, mbind, ST_bind. cbn beta zeta.
  destruct (takes_messages _ _ _ c); [|done]. destruct (_ =? _); [done|]. cbn beta iota. set (c1 := set_row _ c).
  unfold insert_message. cbn [g_client_id g_seq]. destruct (is_some _); [done|]. destruct (messages c1 !! _) eqn:Hn; [done|].
  cbn beta iota zeta. destruct (e_media env) as [[]|e]; [|done]. cbn beta iota. unfold modify, mret, ST_ret.
  intros [= <-]. cbn [g_seq g_client_id g_sender_user]. split; [|done].
  destruct (negb (a_accepted a) && _); cbn; [unfold mark_accepted; split_ifs; cbn|]; by rewrite lookup_insert_eq.
Qed.

Section sends.
Context (encode : SystemEvent -> bytes) (reads : Z -> Prop) (device : DeviceRow).

Definition all_transactions (A : Type) (t : Transaction A) : bool := true.
Abbreviation ends := (ends encode all_transactions reads device).
Abbreviation moves := (rtc (sys_step encode)).

Lemma all_within {A} (e : Chat A) : within all_transactions e.
Proof. by destruct e. Qed.

Lemma moves_trans s1 s2 s3 : moves s1 s2 -> moves s2 s3 -> moves s1 s3.
Proof. intros. by etrans. Qed.

(** When the handler succeeds, [P] holds. *)
Definition says {R} : Handler R -> Sys -> (R -> Sys -> Prop) -> Prop :=
  run_says (rtc (step_in encode all_transactions)) (@answered encode reads device) moves.

Lemma says_weaken {R} (p : Handler R) s s' P : moves s s' -> says p s' P ->
  ends p s' (fun r s'' => moves s s'' /\ match r with Ok a => P a s'' | Err _ => True end).
Proof. by apply run_says_weaken, _. Qed.

Lemma says_impl {R} (p : Handler R) s (P P' : R -> Sys -> Prop) :
  (forall a s', moves s s' -> P a s' -> P' a s') -> says p s P -> says p s P'.
Proof. apply run_says_impl. Qed.

Lemma says_try {A R} (p : Handler A) (k : A -> Handler R) s P :
  says p s (fun a s' => says (k a) s' P) -> says (try p k) s P.
Proof. apply run_says_try, _. Qed.

Lemma effect_moves {A} (e : Chat A) s s1 a s2 :
  rtc (step_in encode all_transactions) s s1 -> answered encode reads device e s1 a s2 -> moves s s1 /\ moves s1 s2.
Proof.
  intros H1 H2. split; [by eapply steps_in_sys|]. eapply steps_in_sys, answered_steps, H2. apply all_within.
Qed.

Lemma says_bind {A R} (e : Chat A) (k : A -> Handler R) s P :
  (forall a s', moves s s' -> says (k a) s' P) -> says (trigger e ≫= k) s P.
Proof.
  intros H. apply ends_bind, ends_trigger. intros s1 a s2 H1 H2. destruct (effect_moves _ _ _ _ _ H1 H2).
  apply says_weaken; [|apply H]; by etrans.
Qed.

Lemma says_effect {R} (e : Chat (result R ChatError)) s P :
  (forall s1 a s2, moves s s1 -> answered encode reads device e s1 (Ok a) s2 -> moves s1 s2 -> P a s2) -> says (trigger e) s P.
Proof.
  intros H. apply ends_trigger. intros s1 r s2 H1 H2. destruct (effect_moves _ _ _ _ _ H1 H2). split; [by etrans|].
  destruct r; [by eapply H|done].
Qed.

Lemma says_any {R} (e : Chat (result R ChatError)) s : says (trigger e) s (fun _ _ => True).
Proof. by apply says_effect. Qed.

Lemma says_true {R} (p : Handler R) s : says p s (fun _ _ => True).
Proof.
  revert s. induction p as [r|A e k IH]; intros s; [by destruct r|].
  intros s1 a s2 H1 H2. destruct (effect_moves _ _ _ _ _ H1 H2). apply says_weaken; [by etrans|apply IH].
Qed.

Lemma says_ok {R} (r : R) s (P : R -> Sys -> Prop) : P r s -> says (ok r) s P.
Proof. by split. Qed.
Lemma says_refuse {R} e s (P : R -> Sys -> Prop) : says (refuse e) s P.
Proof. by split. Qed.
Lemma says_result {R} (r : result R ChatError) s (P : R -> Sys -> Prop) :
  (forall a, r = Ok a -> P a s) -> says (of_result r) s P.
Proof. intros H. split; [done|]. destruct r; auto. Qed.
Lemma says_ok_or {R} e (o : option R) s (P : R -> Sys -> Prop) : (forall a, o = Some a -> P a s) -> says (ok_or e o) s P.
Proof. intros H. destruct o; [apply says_ok; auto|apply says_refuse]. Qed.

(** A message of the user under the client's id that was stored at some point of the run. *)
Context (start : Sys) (client : Z) (user : str).
Hypothesis Hstart : reachable encode start.

Definition stored (g : MessageRow) (s : Sys) : Prop :=
  g_client_id g = client /\ g_sender_user g = user /\
  exists sx, moves start sx /\ moves sx s /\ messages (conv sx) !! g_seq g = Some g.

Lemma stored_moves g s s' : moves s s' -> stored g s -> stored g s'.
Proof. intros H (Hc & Hu & sx & H1 & H2 & Hg). split_and!; [done..|]. exists sx. split_and!; [done|by etrans|done]. Qed.

Lemma reachable_moves s : moves start s -> reachable encode s.
Proof. destruct Hstart as (s0 & H0 & Hl & H). intros Hm. exists s0. split_and!; [done..|by etrans]. Qed.

Lemma by_client_Some id c g : by_client id c = Some g -> g_client_id g = id /\ exists seq, messages c !! seq = Some g.
Proof.
  unfold by_client. destruct (List.find _ _) as [[seq g']|] eqn:E; [|done]. cbn. intros [= <-].
  apply List.find_some in E as [Hin Hid]. bprop. split; [done|]. exists seq.
  by apply list_elem_of_In, elem_of_map_to_list in Hin.
Qed.

Lemma says_existing s :
  moves start s -> says (find_existing client user) s (fun o s' => forall g, o = Some g -> stored g s').
Proof.
  intros Hs. unfold find_existing. apply says_try, says_effect. intros s1 r s2 H1 [-> [Hr|[]]] _. injection Hr as ->.
  apply says_result. intros o Ho g ->. unfold existing in Ho. destruct (by_client _ _) as [g'|] eqn:Hb; [|done].
  destruct (bool_decide _) eqn:Hu; [|done]. injection Ho as ->. bprop. destruct (by_client_Some _ _ _ Hb) as (Hc & seq & Hg).
  split_and!; [done..|]. exists s1. assert (moves start s1) as Hm by (by etrans). split_and!; [done..|].
  destruct (reachable_log _ _ (reachable_moves _ Hm)) as (_ & Hlog & _). by destruct (Hlog _ _ Hg) as (-> & _).
Qed.

Lemma says_store a dev out inherited s :
  a_user_id a = user -> o_client_id out = client -> moves start s -> says (store_message a dev out inherited) s stored.
Proof.
  intros Ha Ho Hs. unfold store_message. apply says_try, says_effect.
  intros s1 x s2 H1 Hx H2. assert (moves start s2) as Hs2 by (etrans; [exact Hs|]; by etrans).
  destruct x as [g| |].
  - apply says_ok. destruct Hx as [(env & _ & _ & -> & [Hr|[]])|[_ []]]. cbn [run_tx] in Hr.
    destruct (store_stored _ _ _ _ _ _ _ (eq_sym Hr)) as (Hg & Hc & Hu). split_and!; [congruence..|].
    eexists. split_and!; [exact Hs2|apply rtc_refl|exact Hg].
  - apply says_try. rewrite Ho, Ha. eapply says_impl; [|by apply says_existing]. intros [g|] s' Hm Hst.
    + apply says_ok. by apply Hst.
    + apply says_try. eapply says_impl; [|apply says_any]. intros; apply says_refuse.
  - apply says_try. rewrite Ho, Ha. eapply says_impl; [|by apply says_existing]. intros o s' Hm Hst.
    by apply says_ok_or.
Qed.

Lemma says_unless_sent open a out s :
  a_user_id a = user -> o_client_id out = client -> says open s (fun _ _ => True) -> moves start s ->
  says (unless_sent open a out) s (fun o s' => forall g, o = Some g -> stored g s').
Proof.
  intros Ha Ho Hopen Hs. unfold unless_sent. apply ends_bind. eapply ends_impl; [|exact Hopen].
  intros [[]|refused] s' [Hm _]; [by split|]. apply says_weaken; [done|]. apply says_try. rewrite Ho, Ha.
  eapply says_impl; [|apply says_existing; by etrans]. intros [g|] s'' _ Hst; [|apply says_refuse].
  apply says_ok. intros g' [= <-]. by apply Hst.
Qed.

Lemma says_load_in guard s : says (load_in guard user) s (fun a _ => a_user_id a = user).
Proof.
  unfold load_in. apply says_try, says_result. intros _ _.
  apply ends_bind, ends_trigger. intros s1 r s2 H1 H2. destruct (effect_moves _ _ _ _ _ H1 H2) as [Hm1 Hm2].
  apply says_weaken; [by etrans|].
  assert (forall x, says (of_result (Err x)) s2 (fun a : Access => fun _ => a_user_id a = user)) as Herr by (intros; apply says_result; done).
  destruct r as [a|e].
  - apply says_result. intros ? [= <-]. destruct H2 as [(x & Hx & [= <-] & _)|[_ []]]. unfold load in Hx.
    destruct (if is_deleted _ then _ else _); by simplify_eq/=.
  - destruct e; try apply Herr. unfold load_room. apply says_try, (says_impl _ _ (fun _ _ => True)); [|apply says_any].
    intros last s3 _ _. apply says_try, says_ok_or. intros last' _. apply says_try, (says_impl _ _ (fun _ _ => True)); [|apply says_any].
    intros room s4 _ _. apply says_try, says_ok_or. intros room' _. apply says_bind. intros now s5 _.
    apply says_try, says_ok_or. intros member _. by apply says_ok.
Qed.

Lemma says_gate (b : bool) open a out s :
  a_user_id a = user -> o_client_id out = client -> moves start s ->
  says (if b then unless_sent open a out else ok None) s (fun o s' => forall g, o = Some g -> stored g s').
Proof.
  intros Ha Ho Hs. destruct b; [apply says_unless_sent; auto using says_true|]. by apply says_ok.
Qed.

Definition sent (ans : SendAnswer) (s : Sys) : Prop := exists g, stored g s /\ ans = answer_of g.

Lemma says_published (p : Handler unit) g s : stored g s -> says (_ ←? p; ok (answer_of g)) s sent.
Proof.
  intros Hg. apply says_try. eapply says_impl; [|apply says_true]. intros [] s' Hm _. apply says_ok.
  exists g. split; [by eapply stored_moves|done].
Qed.

(** Every step of [deliver] leads on, or refuses. *)
Ltac next x s' H := apply says_try; eapply says_impl; [|apply says_true]; intros x s' H _.

Lemma says_deliver NONCE_LEN parse_class paused guard dev input :
  s_client_id input = client ->
  says (deliver NONCE_LEN parse_class paused guard dev user input) start sent.
Proof.
  intros Hin. unfold deliver. destruct paused; [apply says_refuse|].
  apply says_try, says_ok_or. intros d _. apply says_try, says_result. intros out Hout.
  assert (o_client_id out = client) as Ho by (rewrite <- Hin; by eapply outgoing_client).
  next x0 s0 M0. apply says_try. eapply says_impl; [|apply says_load_in]. cbn beta. intros acc s1 M1%(moves_trans _ _ _ M0) Hacc.
  apply says_try, says_result. intros _ _. apply says_try.
  eapply says_impl; [|apply says_unless_sent; auto using says_true]. intros [g|] s2 M2%(moves_trans _ _ _ M1) Hst.
  { apply says_ok. exists g. auto. }
  next x3 s3 M3. apply (moves_trans _ _ _ M2) in M3.
  apply says_try. eapply says_impl; [|by apply says_gate]. intros [g|] s4 M4%(moves_trans _ _ _ M3) Hst4; [by apply says_published, Hst4|].
  apply says_try. eapply says_impl; [|by apply says_gate]. intros [g|] s5 M5%(moves_trans _ _ _ M4) Hst5; [by apply says_published, Hst5|].
  next x6 s6 M6. apply (moves_trans _ _ _ M5) in M6. next x7 s7 M7. apply (moves_trans _ _ _ M6) in M7.
  destruct x7; [apply says_refuse|]. next x8 s8 M8. apply (moves_trans _ _ _ M7) in M8.
  next x9 s9 M9. apply (moves_trans _ _ _ M8) in M9. apply says_bind. intros now s10 M10%(moves_trans _ _ _ M9).
  next x11 s11 M11. apply (moves_trans _ _ _ M10) in M11.
  apply says_try. eapply says_impl; [|by apply says_store]. intros g s12 _ Hg. by apply says_published.
Qed.
End sends.

(** ** Idempotence *)

(** A message that is still there was there all along. *)
Lemma message_stays encode s sx s' seq g g' :
  reachable encode s -> rtc (sys_step encode) s sx -> rtc (sys_step encode) sx s' ->
  messages (conv s) !! seq = Some g -> messages (conv s') !! seq = Some g' ->
  exists gx, messages (conv sx) !! seq = Some gx /\ same_envelope g gx /\ same_envelope gx g'.
Proof.
  intros Hr H1%sys_steps_evolve H2%sys_steps_evolve Hg Hg'. destruct (reachable_log _ _ Hr) as (_ & Hlog & _).
  destruct (Hlog _ _ Hg) as (_ & Hseq & _). pose proof (ev_seq _ _ H1).
  destruct (ev_messages _ _ H2 _ _ Hg') as [(gx & Hgx & He)|(_ & Hn & _)]; [|lia].
  destruct (ev_messages _ _ H1 _ _ Hgx) as [(g0 & Hg0 & He0)|(_ & Hn & _)]; [|lia].
  rewrite Hg in Hg0. injection Hg0 as <-. eauto.
Qed.

(** *** It is answered

    Runs whose statements do not fail, and in which the questions about the sender and the
    publication are answered favourably; the gates for media, rooms and the public chat may
    refuse ([unless_sent] answers a message that was sent before). *)

Definition is_gate (q : Question) : bool :=
  match q with MediaAdmits _ _ | PublicOpen _ _ | SlowModeHold _ | ChargeRoomBytes _ | ChargeRoomMeta => true | _ => false end.

Section answers.
Context (encode : SystemEvent -> bytes) (reads : Z -> Prop) (device : DeviceRow).
Abbreviation moves := (rtc (sys_step encode)).

Definition granted {A} (e : Chat A) (s : Sys) : A -> Sys -> Prop :=
  match e in Chat A return A -> Sys -> Prop with
  | Select f => fun a s' => s' = s /\ a = Ok (f (conv s))
  | Run t => fun a s' =>
      exists env, (forall x, access_of t = Some x -> x ∈ loaded s) /\ s_clock s <= e_clock env /\
        s' = {| conv := (run_tx encode env t (conv s)).2; loaded := loaded s; s_clock := e_clock env |} /\
        a = (run_tx encode env t (conv s)).1
  | EnsureCurrent => fun a s' => answered encode reads device EnsureCurrent s a s'
  | Load user => fun a s' => a = load user (conv s) /\ answered encode reads device (Load user) s a s'
  | Ask q => fun a s' => s' = s /\ (is_gate q = false -> a = Ok tt)
  | RequireDevice => fun a s' => s' = s /\ a = Ok device
  | RoomOfChat => fun a s' => s' = s /\ ~ is_err a
  | BlockedBetween _ _ => fun a s' => s' = s /\ ~ is_err a
  | RandomBytes => fun a s' => s' = s
  | Now => fun a s' => s' = s /\ reads a
  end.

Lemma granted_answered {A} (e : Chat A) s a s' : granted e s a s' -> answered encode reads device e s a s'.
Proof.
  destruct e; cbn; try tauto. intros (env & Ha & Hc & -> & ->). left. exists env. auto.
Qed.

Context (start : Sys) (seq : Z) (g : MessageRow) (Hstart : reachable encode start)
  (Hg : messages (conv start) !! seq = Some g).
Context (out : Outgoing) (Hout : o_client_id out = g_client_id g).

(** The message is still there, and the conversation can number another. *)
Definition present (s : Sys) : Prop := is_Some (messages (conv s) !! seq) /\ c_last_seq (row (conv s)) < i64_max.

#[local] Instance present_dec s : Decision (present s).
Proof. unfold present. apply _. Defined.

Lemma present_before s s' : moves start s -> moves s s' -> present s' -> present s.
Proof.
  intros H1 H2 [[g' Hg'] Hlast]. destruct (message_stays encode start s s' seq g g') as (gx & Hgx & _); [done..|].
  split; [by eexists|]. apply sys_steps_evolve in H2. pose proof (ev_seq _ _ H2). lia.
Qed.

(** The row of the client's id is that one, of the same sender. *)
Lemma present_client s : moves start s -> present s ->
  exists gx, by_client (g_client_id g) (conv s) = Some gx /\ g_seq gx = seq /\ g_sender_user gx = g_sender_user g.
Proof.
  intros Hm [[g' Hg'] _]. destruct (message_stays encode start start s seq g g') as (g0 & Hg0 & _ & (_ & Hc & _ & _ & Hu)); [done|apply rtc_refl|done..|].
  rewrite Hg in Hg0. injection Hg0 as <-.
  pose proof (reachable_log _ _ (reachable_moves encode start Hstart s Hm)) as Hok.
  assert (clients_unique (conv s)) as Huniq by apply Hok. destruct Hok as (_ & Hlog & _).
  destruct (by_client (g_client_id g) (conv s)) as [gx|] eqn:Hb.
  - destruct (by_client_Some _ _ _ Hb) as (Hcx & seqx & Hx). exists gx. split; [done|].
    assert (seqx = seq) as -> by (eapply Huniq; eauto; congruence). rewrite Hg' in Hx. injection Hx as <-.
    destruct (Hlog _ _ Hg') as (-> & _). by split.
  - exfalso. unfold by_client in Hb. destruct (List.find _ _) as [|] eqn:E; [done|].
    assert (In (seq, g') (map_to_list (messages (conv s)))) as Hin by (by apply list_elem_of_In, elem_of_map_to_list).
    apply (List.find_none _ _ E), Z.eqb_neq in Hin. done.
Qed.

(** What may still turn the sender away: no longer a member or not allowed to post, a peer that is
    gone or blocks, too many posts of a request, or a target that takes no such message now. *)
Definition turned_away (user : str) (e : ChatError) : Prop :=
  e = NotMember \/ e = ChatUnavailable \/ (o_class out = Post /\ e = RequestLimit)
  \/ (exists a, may_post a (o_class out) = Err e) \/ exists t now, inherited_expiry (o_class out) user t now = Err e.

Context (user : str) (Huser : g_sender_user g = user).

(** While the message is there the handler gets on, or turns the sender away. *)
Definition goes {R} (p : Handler R) (s : Sys) (P : R -> Sys -> Prop) : Prop :=
  run_ends (rtc (step_in encode all_transactions)) (@granted) p s (fun r s' =>
    moves s s' /\ (present s' -> match r with Ok a => P a s' | Err e => turned_away user e end)).

Lemma granted_moves {A} (e : Chat A) s s1 a s2 :
  rtc (step_in encode all_transactions) s s1 -> granted e s1 a s2 -> moves s s1 /\ moves s1 s2.
Proof. intros H1 H2%granted_answered. by eapply effect_moves. Qed.

Lemma runs_move {R} (p : program Chat R) s :
  run_ends (rtc (step_in encode all_transactions)) (@granted) p s (fun _ s' => moves s s').
Proof.
  revert s. induction p as [r|A e k IH]; intros s; cbn; [apply rtc_refl|]. intros s1 a s2 H1 H2.
  destruct (granted_moves _ _ _ _ _ H1 H2). eapply run_ends_impl; [|apply IH]. intros r s' H'. do 2 (etrans; [eassumption|]). done.
Qed.

Lemma goes_gone {R} (p : Handler R) s P : moves start s -> ~ present s -> goes p s P.
Proof.
  intros Hs Hn. eapply run_ends_impl; [|apply runs_move]. intros r s' Hm. split; [done|]. intros Hp.
  destruct Hn. by apply (present_before s s').
Qed.

Lemma goes_from {R} (p : Handler R) s s' P : moves s s' -> goes p s' P ->
  run_ends (rtc (step_in encode all_transactions)) (@granted) p s' (fun r s'' =>
    moves s s'' /\ (present s'' -> match r with Ok a => P a s'' | Err e => turned_away user e end)).
Proof. intros Hm. apply run_ends_impl. intros r s'' [H ?]. split; [by etrans|done]. Qed.

Lemma goes_try {A R} (p : Handler A) (k : A -> Handler R) s (P : R -> Sys -> Prop) :
  moves start s -> goes p s (fun a s' => goes (k a) s' P) -> goes (try p k) s P.
Proof.
  intros Hs H. apply run_ends_try. eapply run_ends_impl; [|exact H]. intros [a|e] s' [Hm Hk]; [|done].
  apply goes_from; [done|]. destruct (decide (present s')) as [Hp|Hp]; [by apply Hk|].
  apply goes_gone; [by etrans|done].
Qed.

Lemma goes_ok {R} (r : R) s (P : R -> Sys -> Prop) : P r s -> goes (ok r) s P.
Proof. by repeat split. Qed.

Lemma goes_away {R} e s (P : R -> Sys -> Prop) : turned_away user e -> goes (refuse e) s P.
Proof. by repeat split. Qed.

Lemma goes_result {R} (r : result R ChatError) s (P : R -> Sys -> Prop) :
  match r with Ok a => P a s | Err e => turned_away user e end -> goes (of_result r) s P.
Proof. by split. Qed.

(** An effect, in the state the others leave; the message may be taken to be there. *)
Lemma goes_effect {A R} (e : Chat A) (k : A -> Handler R) s P :
  moves start s ->
  (forall s1 a s2, moves start s1 -> present s1 -> granted e s1 a s2 -> moves start s2 -> goes (k a) s2 P) ->
  goes (trigger e ≫= k) s P.
Proof.
  intros Hs H. apply run_ends_bind. intros s1 a s2 H1 H2. destruct (granted_moves _ _ _ _ _ H1 H2) as [M1 M2].
  assert (moves start s1) as Hs1 by (by etrans). assert (moves start s2) as Hs2 by (by etrans).
  apply goes_from; [by etrans|]. destruct (decide (present s1)) as [Hp|Hp]; [by apply (H s1 a s2)|].
  apply goes_gone; [done|]. intros Hp2. apply Hp. by apply (present_before s1 s2).
Qed.

Lemma goes_ask {R} q (k : unit -> Handler R) s P :
  is_gate q = false -> moves start s -> (forall s', moves start s' -> goes (k tt) s' P) -> goes (try (ask q) k) s P.
Proof. intros Hq Hs H. apply goes_effect; [done|]. intros s1 a s2 _ _ [_ Ha] H2. rewrite (Ha Hq). by apply H. Qed.

Lemma goes_existing {R} (k : option MessageRow -> Handler R) s P :
  moves start s -> (forall gx s', g_seq gx = seq -> moves start s' -> goes (k (Some gx)) s' P) ->
  goes (try (find_existing (o_client_id out) user) k) s P.
Proof.
  intros Hs H. unfold find_existing. apply goes_try; [done|]. apply goes_effect; [done|].
  intros s1 r s2 H1 Hp [-> ->] H2. apply goes_result. unfold existing. rewrite Hout.
  destruct (present_client s1 H1 Hp) as (gx & -> & Hq & Hu). rewrite bool_decide_eq_true_2 by congruence. by apply H.
Qed.

Lemma goes_unless {R} open a (k : option MessageRow -> Handler R) s P :
  a_user_id a = user -> moves start s ->
  (forall o s', (forall gx, o = Some gx -> g_seq gx = seq) -> moves start s' -> goes (k o) s' P) ->
  goes (try (unless_sent open a out) k) s P.
Proof.
  intros Ha Hs H. apply goes_try; [done|]. unfold unless_sent. apply run_ends_bind.
  eapply run_ends_impl; [|apply runs_move]. intros [[]|e] s' Hm; assert (moves start s') as Hs' by (by etrans).
  - split; [done|]. intros _. by apply H.
  - apply goes_from; [done|]. rewrite Ha. apply goes_existing; [done|]. intros gx s'' Hq Hs''. apply goes_ok.
    apply H; [by intros ? [= <-]|done].
Qed.

Lemma goes_gate {R} (b : bool) open a (k : option MessageRow -> Handler R) s P :
  a_user_id a = user -> moves start s ->
  (forall o s', (forall gx, o = Some gx -> g_seq gx = seq) -> moves start s' -> goes (k o) s' P) ->
  goes (try (if b then unless_sent open a out else ok None) k) s P.
Proof. intros Ha Hs H. destruct b; [by eapply goes_unless|]. apply goes_try; [done|]. apply goes_ok. by apply H. Qed.

Lemma away_member : turned_away user NotMember.
Proof. by left. Qed.
#[local] Hint Resolve away_member : core.

Lemma goes_member {A R} (o : option A) (k : A -> Handler R) s P :
  moves start s -> (forall a, goes (k a) s P) -> goes (try (ok_or NotMember o) k) s P.
Proof. intros Hs H. apply goes_try; [done|]. destruct o; [by apply goes_ok|by apply goes_away]. Qed.

Lemma goes_load {R} (k : Access -> Handler R) s P :
  moves start s -> (forall a s', a_user_id a = user -> moves start s' -> goes (k a) s' P) ->
  goes (try (load_in (Ok tt) user) k) s P.
Proof.
  intros Hs H. apply goes_try; [done|]. unfold load_in. apply goes_try; [done|]. apply goes_result.
  apply goes_effect; [done|]. intros s1 r s2 _ _ [-> _] H2. unfold load.
  destruct (if is_deleted (conv s1) then None else _) as [m|]; [by apply goes_result, H|].
  unfold load_room. apply goes_effect; [done|]. intros s3 r3 s4 _ _ [_ ->] H4. cbn beta iota.
  apply goes_member; [done|]. intros last. apply goes_effect; [done|]. intros s5 [room|] s6 _ _ [_ Hroom] H6; [|by destruct Hroom].
  apply goes_member; [done|]. intros r0. apply goes_effect; [done|]. intros s7 now s8 _ _ _ H8.
  apply goes_member; [done|]. intros m. apply goes_ok. by apply H.
Qed.

(** A stale epoch and a message stored before both end with the row that is there. *)
Lemma store_present env a dev inherited c :
  is_some (by_client (o_client_id out) c) = true -> c_last_seq (row c) < i64_max ->
  (store env a dev out inherited c).1 = Ok SStale \/ (store env a dev out inherited c).1 = Ok SDuplicate.
Proof.
  intros Hb Hlast. unfold store, transaction, advance, mbind, ST_bind. cbn beta zeta.
  destruct (takes_messages _ _ _ c); [|by left]. destruct (Z.eqb_spec (c_last_seq (row c)) i64_max); [lia|]. cbn beta iota.
  unfold insert_message. cbn [g_client_id g_seq]. right.
  assert (forall r, by_client (o_client_id out) (set_row r c) = by_client (o_client_id out) c) as -> by done. by rewrite Hb.
Qed.

Lemma goes_store {R} a dev inherited (k : MessageRow -> Handler R) s P :
  a_user_id a = user -> moves start s -> (forall gx s', g_seq gx = seq -> moves start s' -> goes (k gx) s' P) ->
  goes (try (store_message a dev out inherited) k) s P.
Proof.
  intros Ha Hs H. apply goes_try; [done|]. unfold store_message. apply goes_effect; [done|].
  intros s1 r s2 H1 Hp (env & _ & _ & _ & Hr) H2. cbn [run_tx] in Hr.
  destruct (store_present env a dev inherited (conv s1)) as [E|E].
  - destruct (present_client s1 H1 Hp) as (gx & Hb & _). by rewrite Hout, Hb.
  - apply Hp.
  - rewrite Hr, E, Ha. apply goes_existing; [done|]. intros gx s3 Hq H3. apply goes_ok. by apply H.
  - rewrite Hr, E, Ha. apply goes_existing; [done|]. intros gx s3 Hq H3. apply goes_ok. by apply H.
Qed.

Lemma goes_published q gx s :
  is_gate q = false -> g_seq gx = seq -> moves start s ->
  goes (_ ←? ask q; ok (answer_of gx)) s (fun ans _ => sa_seq ans = seq).
Proof. intros Hq Hx Hs. apply goes_ask; [done..|]. intros s' _. by apply goes_ok. Qed.

Lemma goes_requests {R} a (k : unit -> Handler R) s P :
  moves start s -> (forall s', moves start s' -> goes (k tt) s' P) -> goes (try (request_room a out) k) s P.
Proof.
  intros Hs H. apply goes_try; [done|]. unfold request_room. destruct (_ || _) eqn:Ec; [by apply goes_ok, H|].
  apply orb_false_iff in Ec as [Ec _]. apply negb_false_iff, bool_decide_eq_true in Ec.
  apply goes_effect; [done|]. intros s1 r s2 _ _ [_ ->] H2. cbn beta iota. destruct (_ <=? _); [|by apply goes_ok, H].
  apply goes_away. right; right; left. by split.
Qed.

(** A part that does not refuse, whatever it answers. *)
Lemma goes_next {A R} (p : Handler A) (k : A -> Handler R) s P :
  moves start s -> goes p s (fun _ _ => True) -> (forall a s', moves start s' -> goes (k a) s' P) -> goes (try p k) s P.
Proof.
  intros Hs Hp H. apply goes_try; [done|]. eapply run_ends_impl; [|exact Hp]. intros [a|e] s' [Hm Hx]; split; auto.
  intros _. apply H. by etrans.
Qed.

Lemma goes_trigger {A} (e : Chat (result A ChatError)) s :
  (forall s1 r s2, granted e s1 r s2 -> ~ is_err r) -> goes (trigger e) s (fun _ _ => True).
Proof.
  intros H s1 r s2 H1 H2. destruct (granted_moves _ _ _ _ _ H1 H2). split; [by etrans|]. intros _.
  apply H in H2. by destruct r.
Qed.

Lemma goes_deliver NONCE_LEN parse_class dev input :
  outgoing parse_class input = Ok out ->
  goes (deliver NONCE_LEN parse_class false (Ok tt) (Some dev) user input) start (fun ans _ => sa_seq ans = seq).
Proof.
  intros Ho. assert (moves start start) as H0 by apply rtc_refl. unfold deliver.
  apply goes_try; [done|]. apply goes_ok. rewrite Ho. apply goes_try; [done|]. apply goes_result.
  apply goes_ask; [done..|]. intros s1 H1. apply goes_load; [done|]. intros a s2 Ha H2.
  apply goes_try; [done|]. apply goes_result. destruct (may_post a (o_class out)) eqn:Em; [|right; right; right; left; by exists a].
  apply goes_unless; [done..|]. intros [gx|] s3 Hx H3; [apply goes_ok; by apply Hx|].
  apply goes_ask; [by unfold sender_free; case_bool_decide|done|]. intros s4 H4.
  apply goes_gate; [done..|]. intros [gx|] s5 Hx5 H5; [by apply goes_published; auto|].
  apply goes_gate; [done..|]. intros [gx|] s6 Hx6 H6; [by apply goes_published; auto|].
  apply goes_try; [done|]. apply goes_result. destruct (peer_open a) as [[]|e] eqn:Ep.
  2: { right; left. unfold peer_open in Ep. destruct (negb _); [done|]. by destruct (a_peer_state a) as [[]|]; simplify_eq. }
  apply goes_next; [done|destruct (a_peer a); [apply goes_trigger; by intros ??? [_ ?]|by apply goes_ok]|].
  intros [] s7 H7; [apply goes_away; by right; left|]. apply goes_requests; [done|]. intros s8 H8.
  apply goes_next; [done|destruct (o_target_seq out); [apply goes_trigger; intros ??? [_ ->] []|by apply goes_ok]|].
  intros target s9 H9. apply goes_effect; [done|]. intros s10 now s11 _ _ _ H11.
  apply goes_try; [done|]. apply goes_result.
  destruct (inherited_expiry _ _ _ _) eqn:Ei; [|right; right; right; right; eauto].
  apply goes_store; [done..|]. intros gx s12 Hx12 H12. destruct (is_public a); [|by apply goes_published].
  apply goes_try; [done|]. apply goes_ask; [done..|]. intros s13 H13.
  apply goes_effect; [done|]. intros s14 r s15 _ _ _ _. apply goes_ok. by apply goes_ok.
Qed.
End answers.


(** ** Pages of history ([messages/page.rs]) *)

Record MessageView := {
  v_seq : Z; v_client_id : Z; v_sender : str; v_sender_device : option Z; v_class : Class; v_epoch : Z;
  v_target_seq : option Z; v_body : option bytes; v_ts : Z; v_expires_at : option Z }.

Definition view_of (g : MessageRow) : MessageView :=
  {| v_seq := g_seq g; v_client_id := g_client_id g; v_sender := g_sender_user g; v_sender_device := g_sender_device g;
     v_class := g_class g; v_epoch := g_epoch g; v_target_seq := g_target_seq g; v_body := g_body g;
     v_ts := timestamp_millis (g_created_at g); v_expires_at := timestamp_millis <$> g_expires_at g |}.

Record HistoryQuery := { q_after : option Z; q_before : option Z; q_limit : option Z }.
Record HistoryPage := { p_messages : list MessageView; p_more : bool }.

Definition PAGE_ROWS_MAX : Z := 200.
Definition PAGE_ROWS_DEFAULT : Z := 50.
Definition PAGE_BYTES_MAX : Z := 256 * 1024.
Definition PAGE_BYTES_MAX_PRO : Z := 24 * 1024.
(** The length of an empty page that says there is no more. *)
Definition PAGE_FRAME : Z := 28.

Definition byte_cap (pro : bool) (max_bytes : Z) : Z :=
  let tier_cap := if pro then PAGE_BYTES_MAX_PRO else PAGE_BYTES_MAX in
  if 0 <? max_bytes then Z.min tier_cap max_bytes else tier_cap.

Definition rows_limit (asked : option Z) : Z :=
  match asked with
  | Some limit => if 0 <? limit then Z.min limit PAGE_ROWS_MAX else PAGE_ROWS_DEFAULT
  | None => PAGE_ROWS_DEFAULT
  end.

Section pages.
(** The JSON of a view, of which only the length matters. *)
Context (json_len : MessageView -> option nat).

Definition view_size (v : MessageView) : Z := match json_len v with Some n => Z.of_nat n | None => u64_max end.

(** The loop of [fit]: the views, whether it broke off, and the bytes used. *)
Fixpoint fit_from (rows : list MessageRow) (cap used : Z) (first : bool) : list MessageView * bool * Z :=
  match rows with
  | [] => ([], false, used)
  | g :: rows' =>
      let after := sat_add_u64 (sat_add_u64 used (view_size (view_of g))) (if first then 0 else 1) in
      if negb first && (cap <? after) then ([], true, used)
      else let '(l, cut, total) := fit_from rows' cap after false in (view_of g :: l, cut, total)
  end.

Definition fit (rows : list MessageRow) (limit : nat) (cap : Z) : HistoryPage :=
  let '(l, cut, _) := fit_from (take limit rows) cap PAGE_FRAME true in
  {| p_messages := l; p_more := (limit <? length rows)%nat || cut |}.

(** [page::read], on the conversation as the statement finds it. *)
Definition page_read (now : Z) (a : Access) (q : HistoryQuery) (cap : Z) (c : Conv) : result HistoryPage ChatError :=
  let limit := Z.to_nat (rows_limit (q_limit q)) in
  let floor := history_floor a in
  match q_after q, q_before q with
  | Some _, Some _ => Err Invalid
  | Some after_, None => Ok (fit (after_sql now (Z.max after_ floor) (S limit) c) limit cap)
  | None, before =>
      let rows := before_sql now (default i64_max before) floor (S limit) c in
      let rows' := take limit rows in
      let page := fit rows' (length rows') cap in
      Ok {| p_messages := rev (p_messages page); p_more := p_more page || (limit <? length rows)%nat |}
  end.

(** [history] *)
Definition history (now : Z) (guard : result unit ChatError) (user : str) (pro : bool) (max_bytes : Z) (q : HistoryQuery)
  : Handler HistoryPage :=
  _ ←? ask LimitReadMessages;
  a ←? load_in guard user;
  a ←? of_result (readable a);
  _ ←? (if is_public a then ask (UserCheck ScopeAll) else ok tt);
  page ←? trigger (Select (page_read now a q (byte_cap pro max_bytes)));
  of_result page.

(** *** A page is a prefix, and fits *)

Lemma fit_from_prefix rows cap used first :
  exists k, (fit_from rows cap used first).1.1 = view_of <$> take k rows
    /\ (fit_from rows cap used first).1.2 = (k <? length rows)%nat /\ (k <= length rows)%nat
    /\ (first = true -> rows <> [] -> (1 <= k)%nat).
Proof.
  revert used first. induction rows as [|g rows IH]; intros used first; cbn [fit_from]; [by exists 0%nat|].
  destruct (negb first && _) eqn:E.
  - exists 0%nat. bprop. destruct first; [done|]. cbn. split_and!; [done|done|lia|done].
  - destruct (IH (sat_add_u64 (sat_add_u64 used (view_size (view_of g))) (if first then 0 else 1)) false)
      as (k & Hl & Hc & Hk & _).
    destruct (fit_from rows _ _ _) as [[l cut] total]. cbn in *. exists (S k). cbn. rewrite Hl, Hc.
    split_and!; [done|done|lia|lia].
Qed.

(** The bytes of the views with the commas between them. *)
Fixpoint views_size (first : bool) (l : list MessageView) : Z :=
  match l with [] => 0 | v :: l' => (if first then 0 else 1) + view_size v + views_size false l' end.

Definition page_bytes (p : HistoryPage) : Z := PAGE_FRAME - (if p_more p then 1 else 0) + views_size true (p_messages p).

Lemma view_size_nonneg v : 0 <= view_size v.
Proof. unfold view_size, u64_max. destruct (json_len v); lia. Qed.

Lemma fit_rest_size rows cap used :
  0 <= used -> cap < u64_max ->
  let l := (fit_from rows cap used false).1.1 in l = [] \/ used + views_size false l <= cap.
Proof.
  intros Hused Hcap. revert used Hused. induction rows as [|g rows IH]; intros used Hused; cbn [fit_from]; [by left|].
  set (after := sat_add_u64 _ _). destruct (negb false && (cap <? after)) eqn:E; [by left|right].
  cbn in E. bprop. pose proof (view_size_nonneg (view_of g)).
  assert (after = used + view_size (view_of g) + 1) as Ha by (subst after; unfold sat_add_u64 in *; lia).
  specialize (IH after ltac:(lia)). destruct (fit_from rows cap after false) as [[l cut] total]. cbn in *.
  destruct IH as [->|IH]; cbn; lia.
Qed.

Lemma fit_size rows limit cap :
  cap < u64_max -> (2 <= length (p_messages (fit rows limit cap)))%nat -> page_bytes (fit rows limit cap) <= cap.
Proof.
  intros Hcap. unfold fit, page_bytes. destruct (take limit rows) as [|g rows']; cbn [fit_from negb andb]; [cbn; lia|].
  set (after := sat_add_u64 _ _). assert (0 <= after) as Hpos.
  { subst after. unfold sat_add_u64, PAGE_FRAME, u64_max. pose proof (view_size_nonneg (view_of g)). lia. }
  pose proof (fit_rest_size rows' cap after Hpos Hcap) as H. destruct (fit_from rows' cap after false) as [[l cut] total].
  cbn in *. intros Hl. destruct H as [->|H]; [cbn in Hl; lia|].
  assert (after = PAGE_FRAME + view_size (view_of g)) as Ha.
  { assert (0 <= views_size false l) as Hv.
    { clear. induction l as [|v l IH]; cbn; [lia|]. pose proof (view_size_nonneg v). lia. }
    subst after. unfold sat_add_u64 in *. lia. }
  destruct (_ || _); lia.
Qed.

Lemma views_size_sum first l :
  views_size first l = foldr (fun v n => view_size v + n) 0 l + Z.of_nat (length l) - (if first then Z.min 1 (Z.of_nat (length l)) else 0).
Proof.
  revert first. induction l as [|v l IH]; intros first; cbn [views_size foldr length]; [by destruct first|].
  rewrite IH. destruct first; lia.
Qed.

Lemma views_size_rev l : views_size true (rev l) = views_size true l.
Proof.
  rewrite !views_size_sum, length_rev. f_equal. f_equal. induction l as [|v l IH]; [done|]. cbn.
  rewrite foldr_app. cbn. rewrite <- IH. clear IH. generalize (rev l). intros k. induction k as [|x k IH]; cbn; lia.
Qed.

Lemma rows_limit_range asked : 1 <= rows_limit asked <= PAGE_ROWS_MAX.
Proof. unfold rows_limit, PAGE_ROWS_MAX, PAGE_ROWS_DEFAULT. destruct asked as [n|]; [|lia]. destruct (Z.ltb_spec 0 n); lia. Qed.

Lemma fit_prefix rows n cap :
  exists k, p_messages (fit rows n cap) = view_of <$> take k rows /\ (k <= n)%nat /\ (k <= length rows)%nat
    /\ p_more (fit rows n cap) = (k <? length rows)%nat /\ ((0 < n)%nat -> rows <> [] -> (1 <= k)%nat).
Proof.
  unfold fit. destruct (fit_from_prefix (take n rows) cap PAGE_FRAME true) as (k & Hl & Hc & Hk & H1).
  destruct (fit_from _ _ _ _) as [[l cut] total]. cbn [fst snd p_messages p_more] in *. rewrite length_take in *. exists k. split_and!.
  - rewrite Hl, take_take. do 2 f_equal. lia.
  - lia.
  - lia.
  - rewrite Hc. destruct (Nat.ltb_spec n (length rows)), (Nat.ltb_spec k (n `min` length rows)), (Nat.ltb_spec k (length rows)); first [done|lia].
  - intros Hn Hr. apply H1; [done|]. by destruct rows, n; try lia.
Qed.

(** Whatever the messages, a page has at most 200 of them and no more than asked for,
    and two or more only if all of the answer fits the byte cap; it has one, however long,
    whenever it says there are more. *)
Theorem page_fits now a q cap c p :
  cap < u64_max -> page_read now a q cap c = Ok p ->
  Z.of_nat (length (p_messages p)) <= rows_limit (q_limit q) <= PAGE_ROWS_MAX
  /\ ((2 <= length (p_messages p))%nat -> page_bytes p <= cap)
  /\ (p_more p = true -> p_messages p <> []).
Proof.
  intros Hcap. pose proof (rows_limit_range (q_limit q)) as Hlim. set (limit := rows_limit (q_limit q)) in *.
  unfold page_read. fold limit. destruct (q_after q) as [after_|]; [destruct (q_before q); [done|]|].
  - intros [= <-]. set (rows := after_sql _ _ _ _). destruct (fit_prefix rows (Z.to_nat limit) cap) as (k & Hl & Hk & _ & Hm & H1).
    split_and!; [rewrite Hl, length_fmap, length_take; lia|lia|by apply fit_size|].
    rewrite Hm, Hl. intros Hlt%Nat.ltb_lt. assert (rows <> []) as Hne by (intros ->; cbn in Hlt; lia).
    specialize (H1 ltac:(lia) Hne). by destruct rows, k; try lia.
  - intros [= <-]. set (rows := before_sql _ _ _ _ _). set (rows' := take _ rows). cbn [p_messages p_more].
    destruct (fit_prefix rows' (length rows') cap) as (k & Hl & Hk & _ & Hm & H1).
    assert (length rows' <= Z.to_nat limit)%nat as Hr by (subst rows'; rewrite length_take; lia).
    split_and!; [rewrite length_rev, Hl, length_fmap, length_take; lia|lia| |].
    + rewrite length_rev. intros H2. pose proof (fit_size rows' (length rows') cap Hcap H2) as Hs. unfold page_bytes in *.
      cbn [p_messages p_more]. rewrite views_size_rev. revert Hs. destruct (p_more (fit _ _ _)); cbn [orb]; [lia|]. destruct (Z.to_nat limit <? length rows)%nat; lia.
    + intros Hmore. assert (rows' <> []) as Hne.
      { intros E. assert (rows = []) as E' by (subst rows'; destruct rows, (Z.to_nat limit) eqn:El; by try lia).
        rewrite Hm, E, E' in Hmore. cbn in Hmore. by destruct (Z.to_nat limit). }
      rewrite Hl. specialize (H1 ltac:(destruct rows'; cbn; [done|lia]) Hne). destruct rows', k; try done; try lia.
      cbn. intros E%app_eq_nil. by destruct E.
Qed.

(** *** Pages one after the other *)

(** A client that goes back through the history (the loop is the client's, not the server's):
    each page is asked for before the oldest message of the one before, as long as there are
    more. *)
Fixpoint read_back (fuel : nat) (now : Z) (a : Access) (limit : option Z) (cap : Z) (before : option Z) (c : Conv)
  : option (list MessageView) :=
  match fuel with
  | O => None
  | S fuel' =>
      match page_read now a {| q_after := None; q_before := before; q_limit := limit |} cap c with
      | Err _ => None
      | Ok p =>
          if p_more p then
            match p_messages p with
            | [] => None
            | v :: _ => l ← read_back fuel' now a limit cap (Some (v_seq v)) c; Some (l ++ p_messages p)
            end
          else Some (p_messages p)
      end
  end.

(** One page: the next messages going back. *)
Lemma page_back now a before limit cap c :
  let rows := sort_by seq_ge (List.filter
    (fun g => (g_seq g <? default i64_max before) && (history_floor a <? g_seq g) && unexpired now g) (rows_of c)) in
  exists k p, page_read now a {| q_after := None; q_before := before; q_limit := limit |} cap c = Ok p
    /\ p_messages p = view_of <$> rev (take k rows) /\ p_more p = (k <? length rows)%nat /\ (k <= length rows)%nat
    /\ (rows <> [] -> (1 <= k)%nat).
Proof.
  intros rows. pose proof (rows_limit_range limit) as Hlim. unfold page_read. cbn [q_after q_before q_limit].
  set (n := Z.to_nat (rows_limit limit)). unfold before_sql. fold rows.
  rewrite take_take. replace (n `min` S n)%nat with n by lia.
  destruct (fit_prefix (take n rows) (length (take n rows)) cap) as (k & Hl & Hk & _ & Hm & H1).
  exists k. eexists. split; [done|]. cbn [p_messages p_more]. rewrite length_take in *. split_and!.
  - rewrite Hl, take_take. replace (k `min` n)%nat with k by lia. symmetry. apply (map_rev view_of).
  - rewrite Hm, length_take.
    destruct (Nat.ltb_spec k (n `min` length rows)), (Nat.ltb_spec n (S n `min` length rows)), (Nat.ltb_spec k (length rows));
      first [done|lia].
  - lia.
  - intros Hr. apply H1; destruct rows, n eqn:En; try done; cbn; lia.
Qed.
End pages.

(** *** Sorted lists *)

Lemma filter_insert_sorted {A} (le : A -> A -> bool) (p : A -> bool) x l :
  (forall x y z, le x y = true -> le y z = true -> le x z = true) ->
  StronglySorted (fun x y => le x y = true) l ->
  List.filter p (insert_sorted le x l) = if p x then insert_sorted le x (List.filter p l) else List.filter p l.
Proof.
  intros Htrans. induction 1 as [|y l Hl IH Hy]; cbn; [by destruct (p x)|]. destruct (le x y) eqn:E; cbn.
  - destruct (p x) eqn:Hx; [|done]. destruct (p y); cbn; [by rewrite E|].
    destruct (List.filter p l) as [|z k] eqn:Ef; [done|]. cbn. assert (le x z = true) as ->; [|done].
    apply (Htrans _ y); [done|]. rewrite Forall_forall in Hy. apply Hy. apply list_elem_of_In.
    assert (In z (List.filter p l)) as [Hz _]%filter_In by (rewrite Ef; by left). exact Hz.
  - rewrite IH. destruct (p y) eqn:Hpy, (p x); cbn; rewrite ?E; done.
Qed.

Lemma filter_sort_by {A} (le : A -> A -> bool) (p : A -> bool) l :
  (forall x y, le x y = false -> le y x = true) ->
  (forall x y z, le x y = true -> le y z = true -> le x z = true) ->
  List.filter p (sort_by le l) = sort_by le (List.filter p l).
Proof.
  intros Htot Htrans. induction l as [|x l IH]; [done|]. cbn [sort_by foldr].
  rewrite filter_insert_sorted; [|done|by apply sort_by_sorted]. fold (sort_by le l). rewrite IH. cbn. by destruct (p x).
Qed.

(** Going back in a strictly descending list. *)
Lemma filter_below (l r : list MessageRow) g :
  StronglySorted (fun x y => g_seq y < g_seq x) (l ++ g :: r) ->
  List.filter (fun x => g_seq x <? g_seq g) (l ++ g :: r) = r.
Proof.
  induction l as [|x l IH]; cbn; intros Hs; apply StronglySorted_inv in Hs as [Hs Hx].
  - rewrite Z.ltb_irrefl. clear Hs. induction Hx as [|y r Hy _ IH]; [done|]. cbn.
    destruct (Z.ltb_spec (g_seq y) (g_seq g)); [|lia]. by rewrite IH.
  - rewrite Forall_forall in Hx. specialize (Hx g ltac:(set_solver)). cbn in Hx.
    destruct (Z.ltb_spec (g_seq x) (g_seq g)); [lia|]. by apply IH.
Qed.

Lemma StronglySorted_filter_bool {A} (R : A -> A -> Prop) (p : A -> bool) l :
  StronglySorted R l -> StronglySorted R (List.filter p l).
Proof.
  induction 1 as [|x l Hs IH Hx]; cbn; [constructor|]. destruct (p x); [|done]. constructor; [done|].
  rewrite Forall_forall in *. intros y Hy%list_elem_of_In%filter_In. apply Hx, list_elem_of_In. by destruct Hy.
Qed.

Lemma StronglySorted_rev {A} (R : A -> A -> Prop) l : StronglySorted (flip R) l -> StronglySorted R (rev l).
Proof.
  induction 1 as [|x l Hs IH Hx]; cbn; [constructor|]. clear Hs. revert Hx. rewrite Forall_forall. intros Hx.
  assert (forall y, In y (rev l) -> R y x) as H by (intros y Hy%in_rev; apply (Hx y), list_elem_of_In, Hy). clear Hx.
  induction (rev l) as [|y k IHk]; cbn; [repeat constructor|]. apply StronglySorted_inv in IH as [Hk Hy]. constructor.
  - apply IHk; [done|]. intros z Hz. apply H. by right.
  - apply Forall_app. split; [done|]. constructor; [|done]. apply H. by left.
Qed.

Lemma seq_ge_total x y : seq_ge x y = false -> seq_ge y x = true.
Proof. unfold seq_ge. lia. Qed.
Lemma seq_ge_trans x y z : seq_ge x y = true -> seq_ge y z = true -> seq_ge x z = true.
Proof. unfold seq_ge. lia. Qed.

Lemma bool_filter_filter {A} (p q : A -> bool) l : List.filter p (List.filter q l) = List.filter (fun x => p x && q x) l.
Proof.
  induction l as [|x l IH]; [done|]. cbn. destruct (q x); cbn; [destruct (p x); cbn; by rewrite IH|].
  rewrite andb_false_r. done.
Qed.

(** The messages a reader may see, newest first. *)
Definition descending (now floor : Z) (c : Conv) : list MessageRow :=
  sort_by seq_ge (List.filter (fun g => (floor <? g_seq g) && unexpired now g) (rows_of c)).

Lemma rows_of_elem c g : log_ok c -> g ∈ rows_of c <-> messages c !! g_seq g = Some g.
Proof.
  intros (_ & Hl & _). unfold rows_of. rewrite list_elem_of_fmap. split.
  - intros ([seq g'] & -> & Hin%elem_of_map_to_list). cbn. by destruct (Hl _ _ Hin) as (-> & _).
  - intros H. exists (g_seq g, g). split; [done|by apply elem_of_map_to_list].
Qed.

Lemma rows_of_NoDup c : log_ok c -> NoDup (g_seq <$> rows_of c).
Proof.
  intros (_ & Hl & _). unfold rows_of. rewrite <- list_fmap_compose.
  assert (g_seq ∘ snd <$> map_to_list (messages c) = fst <$> map_to_list (messages c)) as ->; [|apply NoDup_fst_map_to_list].
  apply list_fmap_ext. intros i [seq g] Hin%list_elem_of_lookup_2%elem_of_map_to_list. cbn. by destruct (Hl _ _ Hin).
Qed.

(** The rows, sorted by a statement: no two have the same number. *)
Lemma sorted_rows (le : MessageRow -> MessageRow -> bool) (R : MessageRow -> MessageRow -> Prop) p c :
  (forall x y, le x y = false -> le y x = true) ->
  (forall x y z, le x y = true -> le y z = true -> le x z = true) ->
  (forall x y, le x y = true -> g_seq x <> g_seq y -> R x y) ->
  log_ok c -> StronglySorted R (sort_by le (List.filter p (rows_of c))).
Proof.
  intros Htot Htrans HR Hlog. set (rows := List.filter p (rows_of c)).
  assert (NoDup (g_seq <$> sort_by le rows)) as Hnd.
  { rewrite sort_by_perm. subst rows. pose proof (rows_of_NoDup c Hlog) as H. induction (rows_of c) as [|x l IH]; [done|].
    cbn in *. apply NoDup_cons in H as [Hx Hl]. destruct (p x); [|auto]. cbn. apply NoDup_cons. split; [|auto].
    rewrite list_elem_of_fmap in *. intros (y & E & Hy). apply Hx. exists y. split; [done|]. by apply elem_of_bool_filter in Hy as [? _]. }
  pose proof (sort_by_sorted le rows Htot Htrans) as Hs. induction Hs as [|x l Hs IH Hx]; [constructor|]. cbn in Hnd.
  apply NoDup_cons in Hnd as [Hne Hnd]. constructor; [by apply IH|]. rewrite Forall_forall in *. intros y Hy.
  apply HR; [by apply Hx|]. intros E. apply Hne. rewrite E. by apply list_elem_of_fmap_2.
Qed.

Lemma descending_sorted now floor c : log_ok c -> StronglySorted (fun x y => g_seq y < g_seq x) (descending now floor c).
Proof. apply sorted_rows; [apply seq_ge_total|apply seq_ge_trans|]. intros x y. unfold seq_ge. lia. Qed.

Lemma read_back_rest json_len fuel now a limit cap before c :
  log_ok c -> let rows := List.filter (fun g => g_seq g <? default i64_max before) (descending now (history_floor a) c) in
  (length rows < fuel)%nat -> read_back json_len fuel now a limit cap before c = Some (view_of <$> rev rows).
Proof.
  intros Hlog. revert before. induction fuel as [|fuel IH]; intros before rows Hfuel; [lia|]. cbn [read_back].
  destruct (page_back json_len now a before limit cap c) as (k & p & -> & Hp & Hm & Hk & H1).
  assert (sort_by seq_ge (List.filter (fun g => (g_seq g <? default i64_max before) && (history_floor a <? g_seq g)
    && unexpired now g) (rows_of c)) = rows) as E.
  { subst rows. unfold descending. rewrite filter_sort_by by (apply seq_ge_total || apply seq_ge_trans).
    rewrite bool_filter_filter. f_equal. apply filter_ext. intros g. by rewrite andb_assoc. }
  rewrite E in *. clear E. rewrite Hm, Hp. destruct (Nat.ltb_spec k (length rows)) as [Hlt|Hge].
  - assert (rows <> []) as Hne by (intros ->; cbn in Hlt; lia). specialize (H1 Hne).
    destruct (rev (take k rows)) as [|g l] eqn:Er.
    { apply (f_equal (@length _)) in Er. rewrite length_rev, length_take in Er. cbn in Er. lia. }
    apply (f_equal (@rev _)) in Er. rewrite rev_involutive in Er. cbn in Er.
    assert (rows = rev l ++ g :: drop k rows) as Hrows by (rewrite <- (take_drop k rows) at 1; by rewrite Er, <- app_assoc).
    cbn [fmap list_fmap v_seq view_of].
    assert (List.filter (fun x => g_seq x <? g_seq g) (descending now (history_floor a) c) = drop k rows) as Hrest.
    { assert (StronglySorted (fun x y => g_seq y < g_seq x) rows) as Hs by (apply StronglySorted_filter_bool, descending_sorted, Hlog).
      assert (g_seq g < default i64_max before) as Hb.
      { assert (In g rows) as [_ Hg]%filter_In by (rewrite Hrows; apply in_or_app; right; by left). bprop. done. }
      rewrite Hrows in Hs at 1. rewrite <- (filter_below _ _ _ Hs), <- Hrows. subst rows. rewrite bool_filter_filter.
      apply filter_ext. intros x. destruct (Z.ltb_spec (g_seq x) (g_seq g)); [|done]. cbn. symmetry. apply Z.ltb_lt. lia. }
    specialize (IH (Some (g_seq g))). cbv zeta in IH. change (default i64_max (Some (g_seq g))) with (g_seq g) in IH.
    rewrite Hrest in IH. rewrite IH by (rewrite length_drop; lia). cbn. f_equal.
    rewrite Hrows at 2. rewrite rev_app_distr. cbn. by rewrite rev_involutive, <- app_assoc, fmap_app.
  - by rewrite take_ge.
Qed.

(** C26: A reader who goes back through the history page by page, whatever the size of the
    pages, comes to an end and has seen exactly the messages it may see, in order and each
    once, when the history does not change meanwhile. *)
Theorem pages_complete encode json_len s now a limit cap fuel :
  reachable encode s -> c_last_seq (row (conv s)) < i64_max -> (size (messages (conv s)) < fuel)%nat ->
  exists rows, read_back json_len fuel now a limit cap None (conv s) = Some (view_of <$> rows)
    /\ StronglySorted (fun x y => g_seq x < g_seq y) rows
    /\ forall g, g ∈ rows <-> messages (conv s) !! g_seq g = Some g /\ history_floor a < g_seq g /\ unexpired now g = true.
Proof.
  intros Hr Hmax Hfuel. pose proof (reachable_log _ _ Hr) as Hlog. set (c := conv s) in *.
  exists (rev (descending now (history_floor a) c)).
  assert (forall g, g ∈ descending now (history_floor a) c <->
    messages c !! g_seq g = Some g /\ history_floor a < g_seq g /\ unexpired now g = true) as Helem.
  { intros g. unfold descending. rewrite elem_of_sort_by, elem_of_bool_filter, rows_of_elem by done.
    rewrite andb_true_iff, Z.ltb_lt. done. }
  assert (List.filter (fun g => g_seq g <? i64_max) (descending now (history_floor a) c) = descending now (history_floor a) c) as Hall.
  { apply forallb_filter_id, forallb_forall. intros g Hg%list_elem_of_In%Helem. destruct Hg as (Hg & _).
    destruct Hlog as (_ & Hl & _). destruct (Hl _ _ Hg) as (_ & ? & _). apply Z.ltb_lt. lia. }
  split_and!.
  - rewrite (read_back_rest json_len fuel now a limit cap None c Hlog); cbn [default from_option]; rewrite Hall; [done|].
    unfold descending. rewrite (sort_by_perm seq_ge). eapply Nat.le_lt_trans; [|exact Hfuel].
    etrans; [apply filter_length_le|]. unfold rows_of. by rewrite length_fmap, length_map_to_list.
  - apply StronglySorted_rev, descending_sorted, Hlog.
  - intros g. rewrite <- Helem. rewrite !list_elem_of_In. symmetry. apply in_rev.
Qed.

(** ** The cache of recent messages ([hot_cache.rs])

    The tail of a conversation, as long as the cache has it: it may drop it at any time.
    The stripes make [put] atomic. *)

Definition TAIL_ROWS : nat := 256.
Definition TAIL_BYTES : Z := 512 * 1024.
Definition ROW_OVERHEAD : Z := 160.

Record Tail := { t_rows : list MessageRow; t_bytes : Z }.

Definition weight (g : MessageRow) : Z :=
  ROW_OVERHEAD + str_len (g_sender_user g) + from_option (fun b => Z.of_nat (length b)) 0 (g_body g).

Definition weights (rows : list MessageRow) : Z := foldr (fun g n => weight g + n) 0 rows.

(** [binary_search_by_key] in a list sorted by it. *)
Fixpoint search (seq : Z) (rows : list MessageRow) : result nat nat :=
  match rows with
  | [] => Err 0%nat
  | g :: rows' =>
      if g_seq g =? seq then Ok 0%nat
      else if seq <? g_seq g then Err 0%nat
      else match search seq rows' with Ok i => Ok (S i) | Err i => Err (S i) end
  end.

(** The loop that makes room. *)
Fixpoint trim (rows : list MessageRow) (bytes : Z) : Tail :=
  match rows with
  | [] => {| t_rows := []; t_bytes := bytes |}
  | g :: rows' =>
      if (TAIL_ROWS <? length rows)%nat || ((TAIL_BYTES <? bytes) && (1 <? length rows)%nat)
      then trim rows' (bytes - weight g)
      else {| t_rows := rows; t_bytes := bytes |}
  end.

Definition put (g : MessageRow) (t : option Tail) : option Tail :=
  let rows := from_option t_rows [] t in
  match search (g_seq g) rows with
  | Ok at_ => let rows := <[at_ := g]> rows in Some (trim rows (weights rows))
  | Err at_ =>
      if (at_ =? 0)%nat && negb (bool_decide (rows = [])) then t
      else let rows := take at_ rows ++ g :: drop at_ rows in Some (trim rows (weights rows))
  end.

Fixpoint newer_from (expected now : Z) (rows : list MessageRow) : option (list MessageRow) :=
  match rows with
  | [] => Some []
  | g :: rows' =>
      if negb (g_seq g =? expected) then None
      else l ← newer_from (expected + 1) now rows'; Some (if unexpired now g then g :: l else l)
  end.

Definition hot_after (now seq : Z) (t : option Tail) : option (list MessageRow) :=
  tail ← t;
  oldest ← head (t_rows tail);
  if seq =? i64_max then None
  else if seq + 1 <? g_seq oldest then None
  else newer_from (seq + 1) now (List.filter (fun g => seq <? g_seq g) (t_rows tail)).

(** [fanout::publish], as far as the cache is concerned. *)
Definition publish (rows : list MessageRow) (t : option Tail) : option Tail := foldl (fun t g => put g t) t rows.

(** *** The shape of a tail *)

Abbreviation ascending := (StronglySorted (fun x y => g_seq x < g_seq y)).

Record tail_ok (t : Tail) : Prop := {
  tl_sorted : ascending (t_rows t);
  tl_some : t_rows t <> [];
  tl_bytes : t_bytes t = weights (t_rows t);
  tl_rows : (length (t_rows t) <= TAIL_ROWS)%nat;
  tl_size : t_bytes t <= TAIL_BYTES \/ length (t_rows t) = 1%nat }.

Lemma trim_ok rows : ascending rows -> rows <> [] -> tail_ok (trim rows (weights rows)).
Proof.
  induction rows as [|g rows IH]; [done|]. intros Hs _. cbn [trim]. destruct ((TAIL_ROWS <? _)%nat || _) eqn:E.
  - replace (weights (g :: rows) - weight g) with (weights rows) by (unfold weights; cbn; lia). apply IH; [by inversion Hs|].
    intros ->. by rewrite andb_false_r in E.
  - apply orb_false_iff in E as [E1%Nat.ltb_ge E2]. split; cbn [t_rows t_bytes]; try done.
    apply andb_false_iff in E2 as [E2%Z.ltb_ge|E2%Nat.ltb_ge]; [by left|right]. cbn in *. lia.
Qed.

Lemma trim_suffix rows bytes : exists k, t_rows (trim rows bytes) = drop k rows.
Proof.
  revert bytes. induction rows as [|g rows IH]; intros bytes; cbn [trim]; [by exists 0%nat|].
  destruct (_ || _); [|by exists 0%nat]. destruct (IH (bytes - weight g)) as [k Hk]. by exists (S k).
Qed.

Lemma search_spec seq rows :
  ascending rows ->
  match search seq rows with
  | Ok i => exists l g r, rows = l ++ g :: r /\ length l = i /\ g_seq g = seq
  | Err i => exists l r, rows = l ++ r /\ length l = i /\ Forall (fun g => g_seq g < seq) l /\ Forall (fun g => seq < g_seq g) r
  end.
Proof.
  induction 1 as [|g rows Hs IH Hg]; cbn [search]; [by exists [], []|].
  destruct (Z.eqb_spec (g_seq g) seq) as [E|E]; [by exists [], g, rows|].
  destruct (Z.ltb_spec seq (g_seq g)) as [Hlt|Hge].
  - exists [], (g :: rows). split_and!; [done..|]. constructor; [done|]. eapply Forall_impl; [exact Hg|]. cbn. lia.
  - destruct (search seq rows) as [i|i].
    + destruct IH as (l & g' & r & -> & <- & Hseq). by exists (g :: l), g', r.
    + destruct IH as (l & r & -> & <- & Hl & Hr). exists (g :: l), r. split_and!; try done. constructor; [lia|done].
Qed.

Lemma ascending_app l r :
  ascending (l ++ r) <-> ascending l /\ ascending r /\ forall x y, x ∈ l -> y ∈ r -> g_seq x < g_seq y.
Proof.
  induction l as [|x l IH]; cbn; [split; [|by intros (_ & ? & _)]; intros; split_and!; [constructor|done|set_solver]|].
  split.
  - intros [H1 Hx]%StronglySorted_inv. apply IH in H1 as (Hl & Hr & Hlr). rewrite Forall_forall in Hx. split_and!; [|done|].
    + constructor; [done|]. apply Forall_forall. set_solver.
    + intros a b [->|Ha]%elem_of_cons Hb; [apply Hx; set_solver|eauto].
  - intros ([Hl Hx]%StronglySorted_inv & Hr & Hlr). constructor; [apply IH; split_and!; [done..|set_solver]|].
    rewrite Forall_app. split; [done|]. apply Forall_forall. set_solver.
Qed.

(** What [put] makes of a tail: [g] in its place, perhaps without the oldest rows. *)
Lemma put_rows g t :
  (forall x, t = Some x -> tail_ok x) ->
  (put g t = t /\ forall y, y ∈ from_option t_rows [] t -> g_seq y <> g_seq g)
  \/ exists rows k x, put g t = Some x /\ tail_ok x /\ t_rows x = drop k rows /\ ascending rows
    /\ forall y, y ∈ rows <-> y = g \/ (y ∈ from_option t_rows [] t /\ g_seq y <> g_seq g).
Proof.
  intros Ht. set (old := from_option t_rows [] t).
  assert (ascending old) as Hold by (subst old; destruct t as [x|]; [by apply (Ht x)|constructor]).
  assert (forall rows, ascending rows -> rows <> [] -> (forall y, y ∈ rows <-> y = g \/ (y ∈ old /\ g_seq y <> g_seq g)) ->
    exists rows' k x, Some (trim rows (weights rows)) = Some x /\ tail_ok x /\ t_rows x = drop k rows' /\ ascending rows'
    /\ forall y, y ∈ rows' <-> y = g \/ (y ∈ old /\ g_seq y <> g_seq g)) as Hnew.
  { intros rows Hs Hne Hin. destruct (trim_suffix rows (weights rows)) as [k Hk].
    exists rows, k. eexists. split_and!; [done|by apply trim_ok|done..]. }
  unfold put. fold old. clearbody old. pose proof (search_spec (g_seq g) old Hold) as Hsearch. destruct (search _ old) as [i|i].
  - destruct Hsearch as (l & g' & r & E & <- & Hseq). right. subst old. rewrite insert_app_r_alt, Nat.sub_diag by lia. cbn.
    apply ascending_app in Hold as (Hl & [Hr Hg']%StronglySorted_inv & Hlr). rewrite Forall_forall in Hg'.
    apply Hnew; [|by destruct l|].
    + apply ascending_app. split_and!; [done| |].
      * constructor; [done|]. apply Forall_forall. rewrite <- Hseq. done.
      * intros x y Hx [->|Hy]%elem_of_cons; [rewrite <- Hseq|]; apply Hlr; set_solver.
    + intros y. rewrite !elem_of_app, !elem_of_cons. split.
      * intros [Hy|[->|Hy]]; [right|by left|right]; (split; [auto|]).
        -- specialize (Hlr y g' Hy ltac:(set_solver)). lia.
        -- specialize (Hg' y Hy). lia.
      * intros [->|[[Hy|[->|Hy]] Hne]]; [auto..|done|auto].
  - destruct Hsearch as (l & r & E & <- & Hl & Hr). rewrite Forall_forall in Hl, Hr. subst old.
    destruct ((length l =? 0)%nat && _) eqn:El; [left; split; [done|]|right].
    { apply andb_true_iff in El as [El%Nat.eqb_eq _]. apply nil_length_inv in El as ->. intros y Hy. specialize (Hr y Hy). lia. }
    rewrite take_app_length, drop_app_length.
    apply ascending_app in Hold as (Hsl & Hsr & Hlr). apply Hnew; [|by destruct l|].
    + apply ascending_app. split_and!; [done| |].
      * constructor; [done|]. by apply Forall_forall.
      * intros x y Hx [->|Hy]%elem_of_cons; auto.
    + intros y. rewrite !elem_of_app, !elem_of_cons. split.
      * intros [Hy|[->|Hy]]; [right|by left|right]; (split; [auto|]); [specialize (Hl y Hy)|specialize (Hr y Hy)]; lia.
      * intros [->|[[Hy|Hy] Hne]]; auto.
Qed.

(** *** The tail and the database *)

(** A row of the database, or one that expired and was swept. *)
Definition current_row (now : Z) (c : Conv) (g : MessageRow) : Prop :=
  messages c !! g_seq g = Some g \/ (messages c !! g_seq g = None /\ unexpired now g = false).

(** Commits that are published in their order: the rows a commit wrote are put, and what
    else changes are messages that expired by [now].  The cache may lose the tail at any
    time. *)
Inductive cached (now : Z) : Conv -> option Tail -> Prop :=
| cached_none c : cached now c None
| cached_publish c c' t rows :
    cached now c t ->
    (forall g, g ∈ rows -> messages c' !! g_seq g = Some g) ->
    (forall seq, seq ∈ (g_seq <$> rows) \/ messages c' !! seq = messages c !! seq
       \/ (messages c' !! seq = None /\ forall g, messages c !! seq = Some g -> unexpired now g = false)) ->
    cached now c' (publish rows t).

Definition tail_current (now : Z) (c : Conv) (t : option Tail) : Prop :=
  forall x, t = Some x -> tail_ok x /\ forall g, g ∈ t_rows x -> current_row now c g.

(** Rows that are put replace the ones that changed. *)
Lemma publish_current now c rows t (stale : Z -> Prop) :
  (forall x, t = Some x -> tail_ok x /\ forall g, g ∈ t_rows x -> current_row now c g \/ stale (g_seq g)) ->
  (forall g, g ∈ rows -> messages c !! g_seq g = Some g) ->
  forall x, publish rows t = Some x -> tail_ok x /\ forall g, g ∈ t_rows x ->
    current_row now c g \/ (stale (g_seq g) /\ g_seq g ∉ (g_seq <$> rows)).
Proof.
  revert t stale. induction rows as [|r rows IH]; intros t stale Ht Hrows x.
  { cbn. intros ->. destruct (Ht x eq_refl) as [Hok Hcur]. split; [done|]. intros g Hg.
    destruct (Hcur g Hg) as [?|?]; [by left|right; split; [done|set_solver]]. }
  cbn [publish foldl]. intros Hx.
  destruct (IH (put r t) (fun seq => stale seq /\ seq <> g_seq r)) with (x := x) as [Hok Hcur]; [|set_solver|done|].
  - clear x Hx. intros x Hx. destruct (put_rows r t) as [[E Hno]|(new & k & x' & E & Hok & Hk & Hs & Hin)]; [by intros y Hy; apply Ht| |].
    + rewrite E in Hx. destruct (Ht x Hx) as [Hok Hcur]. split; [done|]. intros g Hg. subst t.
      destruct (Hcur g Hg) as [?|?]; [by left|right]. split; [done|]. by apply Hno.
    + rewrite E in Hx. injection Hx as ->. split; [done|]. intros g Hg. rewrite Hk in Hg.
      apply (subseteq_drop k) in Hg. apply Hin in Hg as [->|[Hg Hne]]; [left; left; apply Hrows; set_solver|].
      destruct t as [y|]; [|by apply not_elem_of_nil in Hg]. destruct (Ht y eq_refl) as [_ Hcur].
      destruct (Hcur g Hg) as [?|?]; auto.
  - split; [done|]. intros g Hg. destruct (Hcur g Hg) as [?|[[? ?] ?]]; [by left|right]. split; [done|]. cbn. set_solver.
Qed.

Lemma cached_current now c t : cached now c t -> tail_current now c t.
Proof.
  induction 1 as [c|c c' t rows _ IH Hrows Hsame]; [done|]. intros x Hx.
  destruct (publish_current now c' rows t (fun seq => seq ∈ (g_seq <$> rows))) with (x := x) as [Hok Hcur]; [|done..|].
  - clear x Hx. intros x Hx. destruct (IH x Hx) as [Hok Hcur]. split; [done|]. intros g Hg.
    destruct (Hsame (g_seq g)) as [Hin|[Hsm|[Hn He]]]; [by right|left|left].
    + destruct (Hcur g Hg) as [H|[H1 H2]]; [left|right]; by rewrite Hsm.
    + right. split; [done|]. destruct (Hcur g Hg) as [H|[_ H]]; [by apply He|done].
  - split; [done|]. intros g Hg. destruct (Hcur g Hg) as [?|[? ?]]; done.
Qed.

(** The rows [deliver] and [delete] publish are the ones their transactions wrote. *)
Lemma store_cached now env a dev out inherited c g c' t :
  store env a dev out inherited c = (Ok (SStored g), c') -> cached now c t -> cached now c' (publish [g] t).
Proof.
  intros E Hc. destruct (store_stored env a dev out inherited c g) as (Hg & _); [by rewrite E|]. rewrite E in Hg. cbn in Hg.
  apply (cached_publish now c c' t [g] Hc); [by intros x ->%list_elem_of_singleton|]. intros seq.
  destruct (decide (seq = g_seq g)) as [->|Hne]; [left; set_solver|right; left].
  destruct (store_spec _ _ _ _ _ _ _ _ E) as [->|(g' & c1 & [= <-] & Ha & _ & _ & _ & _ & _ & Hc')]; [done|].
  assert (messages c' = messages c1) as ->.
  { destruct Hc' as [->| ->]; [done|]. unfold mark_accepted. by split_ifs. }
  destruct Ha as (-> & _). by rewrite lookup_insert_ne.
Qed.

Lemma redact_spec encode env a seq expires c rows c' :
  redact encode env a seq expires c = (Ok rows, c') -> (rows = [] /\ c' = c) \/
  exists g, rows = (redacted_row <$> (snd <$> List.filter (fun x => redacts seq x.2) (map_to_list (messages c)))) ++ [g]
    /\ appends g (set_messages ((fun g => if redacts seq g then redacted_row g else g) <$> messages c) c) c'.
Proof.
  unfold redact, transaction, sql, mbind, ST_bind, redact_sql. cbn beta iota.
  set (gone := redacted_row <$> _). set (c1 := set_messages _ c).
  destruct (bool_decide (gone = [])); [cbn; intros [= <- <-]; by left|].
  pose proof (insert_until_spec (R := list MessageRow) encode env (e_id env) (DeletedE (a_user_id a)) (Some seq) expires c1) as Hspec.
  pose proof (fails_only_until (R := list MessageRow) encode env (e_id env) (DeletedE (a_user_id a)) (Some seq) expires c1) as Hfail.
  with_strategy transparent [wp] unfold wp in Hspec, Hfail.
  destruct (insert_until _ _ _ _ _ _ c1) as [[g|x] c2]; [|destruct Hfail as [e ->]; discriminate].
  destruct (e_media env); [|discriminate]. cbn. intros [= <- <-]. right. exists g. by destruct Hspec.
Qed.

Lemma redact_cached now encode env a seq expires c rows c' t :
  log_ok c -> redact encode env a seq expires c = (Ok rows, c') -> cached now c t -> cached now c' (publish rows t).
Proof.
  intros (_ & Hlog & _) [[-> ->]|(g & -> & Ha)]%redact_spec Hc; [done|].
  destruct Ha as (Hms & _ & _ & _ & _ & _ & Hnew & _). cbn in Hms, Hnew. rewrite lookup_fmap in Hnew.
  assert (forall x s, messages c !! s = Some x -> s <> g_seq g) as Hold.
  { intros x s Hx ->. by rewrite Hx in Hnew. }
  apply (cached_publish now c c' t _ Hc).
  - intros x [Hx| ->%list_elem_of_singleton]%elem_of_app; [|by rewrite Hms, lookup_insert_eq].
    apply list_elem_of_fmap in Hx as (y & -> & ([s y'] & -> & [Hy Hr]%elem_of_bool_filter)%list_elem_of_fmap).
    apply elem_of_map_to_list in Hy. destruct (Hlog _ _ Hy) as (Hseq & _). cbn in *. rewrite Hms, Hseq.
    rewrite lookup_insert_ne by (intros E; by eapply Hold). by rewrite lookup_fmap, Hy; cbn; rewrite Hr.
  - intros s. rewrite fmap_app, elem_of_app. destruct (decide (s = g_seq g)) as [->|Hne]; [left; right; set_solver|].
    rewrite Hms, lookup_insert_ne, lookup_fmap by done. destruct (messages c !! s) as [y|] eqn:Hy; [|right; by left]. cbn.
    destruct (redacts seq y) eqn:Hr; [left; left|right; by left].
    destruct (Hlog _ _ Hy) as (<- & _). change (g_seq y) with (g_seq (redacted_row y)). do 2 apply list_elem_of_fmap_2.
    apply list_elem_of_fmap. exists (g_seq y, y). split; [done|]. apply elem_of_bool_filter. split; [by apply elem_of_map_to_list|done].
Qed.

Lemma newer_from_spec expected now rows l :
  newer_from expected now rows = Some l ->
  l = List.filter (unexpired now) rows /\ forall i g, rows !! i = Some g -> g_seq g = expected + Z.of_nat i.
Proof.
  revert expected l. induction rows as [|r rows IH]; intros expected l; cbn [newer_from]; [intros [= <-]; split; [done|]; by intros []|].
  destruct (Z.eqb_spec (g_seq r) expected) as [E|]; [|done]. cbn [negb].
  destruct (newer_from (expected + 1) now rows) as [l'|] eqn:El; [|done]. cbn. intros [= <-].
  destruct (IH _ _ El) as [-> Hi]. split; [by destruct (unexpired now r)|]. intros [|i] g; cbn; [intros [= <-]; lia|].
  intros Hg. rewrite (Hi _ _ Hg). lia.
Qed.

(** Ascending lists with the same rows are the same. *)
Lemma ascending_ext l l' : ascending l -> ascending l' -> (forall g, g ∈ l <-> g ∈ l') -> l = l'.
Proof.
  intros Hl. revert l'. induction Hl as [|x l Hl IH Hx]; intros l' Hl' H.
  - destruct l' as [|y l']; [done|]. specialize (H y). set_solver.
  - destruct Hl' as [|y l' Hl' Hy]; [specialize (H x); set_solver|]. rewrite Forall_forall in Hx, Hy.
    assert (x = y) as ->.
    { assert (x ∈ y :: l') as [|Hxy]%elem_of_cons by (apply H; left); [done|].
      assert (y ∈ x :: l) as [|Hyx]%elem_of_cons by (apply H; left); [done|]. specialize (Hx y Hyx). specialize (Hy x Hxy). lia. }
    f_equal. apply IH; [done|]. intros g. specialize (H g). rewrite !elem_of_cons in H. split; intros Hg.
    + destruct (proj1 H (or_intror Hg)) as [->|]; [specialize (Hx y Hg); lia|done].
    + destruct (proj2 H (or_intror Hg)) as [->|]; [specialize (Hy y Hg); lia|done].
Qed.

(** C27: When the commits of a conversation are published in their order, the cache answers
    what the database would: exactly the messages after [seq] that have not expired, in
    order, as far as the newest message it knows; it is silent rather than incomplete. *)
Theorem cache_agrees now c t seq l :
  log_ok c -> cached now c (Some t) -> hot_after now seq (Some t) = Some l ->
  l = List.filter (fun g => existsb (fun r => g_seq g <=? g_seq r) (t_rows t)) (after_sql now seq (size (messages c)) c).
Proof.
  intros Hlog Hc. destruct (cached_current _ _ _ Hc t eq_refl) as [[Hs _ _ _ _] Hcur].
  cbn. destruct (head (t_rows t)) as [oldest|]; [|done]. cbn. destruct (seq =? i64_max); [done|]. destruct (_ <? _); [done|].
  set (newer := List.filter (fun g => seq <? g_seq g) (t_rows t)). intros [-> Hconsec]%newer_from_spec.
  assert (forall g, g ∈ newer <-> g ∈ t_rows t /\ seq < g_seq g) as Hnew.
  { intros g. subst newer. by rewrite elem_of_bool_filter, Z.ltb_lt. }
  assert (after_sql now seq (size (messages c)) c = sort_by seq_le (List.filter (fun g => (seq <? g_seq g) && unexpired now g) (rows_of c))) as ->.
  { unfold after_sql. apply take_ge. rewrite (sort_by_perm seq_le). etrans; [apply filter_length_le|].
    unfold rows_of. by rewrite length_fmap, length_map_to_list. }
  apply ascending_ext.
  - by apply StronglySorted_filter_bool, StronglySorted_filter_bool.
  - apply StronglySorted_filter_bool, sorted_rows; [..|done]; intros *; unfold seq_le; lia.
  - intros g. rewrite !elem_of_bool_filter, elem_of_sort_by, elem_of_bool_filter, Hnew, rows_of_elem by done.
    rewrite existsb_exists, andb_true_iff, Z.ltb_lt. split.
    + intros [[Hg Hlt] Hu]. destruct (Hcur g Hg) as [Hm|[_ Hn]]; [|congruence]. split_and!; try done.
      exists g. split; [by apply list_elem_of_In|]. apply Z.leb_refl.
    + intros ((Hm & Hlt & Hu) & r & Hr%list_elem_of_In & Hle%Z.leb_le). split; [|done]. split; [|done].
      assert (r ∈ newer) as Hrn by (apply Hnew; split; [done|lia]).
      apply list_elem_of_lookup in Hrn as [i Hi]. pose proof (Hconsec _ _ Hi) as Hri.
      destruct (lookup_lt_is_Some_2 newer (Z.to_nat (g_seq g - (seq + 1)))) as [g' Hg'].
      { apply lookup_lt_Some in Hi. lia. }
      pose proof (Hconsec _ _ Hg') as Hseq. apply list_elem_of_lookup_2, Hnew in Hg' as [Hg' _].
      assert (g_seq g' = g_seq g) as E by lia. destruct (Hcur g' Hg') as [H|[H _]]; rewrite E, Hm in H; [by injection H as <-|done].
Qed.
