(* ===== verification/ChatSample.v ===== *)
(** * ChatSample: runs of a group

    Executable drivers of [ChatSystem] and of the handlers, and runs of them: members, keys,
    links, messages, pages and devices to which the theorems apply, and three runs that the code
    allows against its intent ([ownerless_group], [full_group_grows], [declined_keeps_key]). *)

From Stdlib Require Import ZArith Lia String Sorted.
From stdpp Require Import base list numbers option tactics sets gmap fin_maps relations.
From S2P Require Import Prelude Text AppError RoomModel SealedGate ChatTables ChatOps ChatSystem ChatDevices ChatFacts ChatGroups ChatHandlers ChatSecrets ChatDeviceFacts ChatMessages.
Local Open Scope Z_scope.

Global Instance GroupSettings_eq : EqDecision GroupSettings. Proof. solve_decision. Defined.
Global Instance Access_eq : EqDecision Access. Proof. solve_decision. Defined.

Module ChatSample.

Definition encode (e : SystemEvent) : bytes := event_actor e.

Definition env_at (n : Z) : Env := {| e_now := n; e_clock := n; e_id := 1000 + n; e_id' := 2000 + n; e_media := Ok tt |}.

(** One move: load the access of a user, or run a transaction made from the accesses
    loaded so far, at a time. *)
Inductive Move :=
| MLoad (user : str)
| MTx (A : Type) (t : list Access -> Transaction A) (n : Z).
Arguments MTx {A} t n.

Definition play1 (m : Move) (s : Sys) : option Sys :=
  match m with
  | MLoad user =>
      match load user (conv s) with
      | Ok a => Some {| conv := conv s; loaded := a :: loaded s; s_clock := s_clock s |}
      | Err _ => None
      end
  | MTx t n =>
      if match access_of (t (loaded s)) with None => true | Some a => bool_decide (a ∈ loaded s) end && (s_clock s <=? n)
      then Some {| conv := (run_tx encode (env_at n) (t (loaded s)) (conv s)).2; loaded := loaded s; s_clock := n |}
      else None
  end.

Fixpoint play (ms : list Move) (s : Sys) : option Sys :=
  match ms with [] => Some s | m :: ms' => play1 m s ≫= play ms' end.

Lemma play_steps ms s s' : play ms s = Some s' -> rtc (sys_step encode) s s'.
Proof.
  revert s. induction ms as [|m ms IH]; intros s; cbn [play]; [by intros [= <-]|].
  destruct (play1 m s) as [s1|] eqn:E; [|done]. cbn. intros Hp. eapply rtc_l; [|by apply IH].
  destruct m as [user|A t n]; cbn in E.
  - destruct (load user (conv s)) as [a|] eqn:Hl; [|done]. injection E as <-. by apply (sys_load _ _ user).
  - destruct (_ && _) eqn:Hb; [|done]. bprop. injection E as <-. apply (sys_tx _ _ A (t (loaded s)) (env_at n)); [|done].
    intros a Ha. rewrite Ha in *. by bprop.
Qed.

Definition no_access : Access :=
  {| a_user_id := []; a_kind := Saved; a_peer := None; a_last := 0; a_settings := default_settings; a_role := Member;
     a_state := Left; a_accepted := false; a_joined_seq := 0; a_hidden_before_seq := 0; a_peer_state := None;
     a_recipients := []; a_public_room := false |}.

(** The access loaded [k] loads ago. *)
Definition acc (k : nat) (l : list Access) : Access := default no_access (l !! k).

Definition group (people : list (str * MemberState)) : Sys :=
  {| conv := (create_group encode (env_at 0) (lit "101") people None).2; loaded := []; s_clock := 0 |}.

(** A run that ends, as a value. *)
Definition played (ms : list Move) (s : Sys) : Sys := default s (play ms s).

Lemma played_steps ms s : is_some (play ms s) = true -> rtc (sys_step encode) s (played ms s).
Proof. unfold played. destruct (play ms s) as [s'|] eqn:E; [|done]. intros _. by eapply play_steps. Qed.

Lemma group_started people :
  is_ok (create_group encode (env_at 0) (lit "101") people None).1 = true -> started encode (conv (group people)).
Proof.
  unfold group. cbn [conv]. destruct (create_group encode (env_at 0) (lit "101") people None) as [[g|e] c] eqn:E; [|done].
  intros _. by eapply started_group.
Qed.

Lemma group_reachable people ms :
  is_ok (create_group encode (env_at 0) (lit "101") people None).1 = true -> is_some (play ms (group people)) = true ->
  reachable encode (played ms (group people)).
Proof.
  intros Hok Hp. exists (group people). split; [by apply group_started|]. split; [done|]. by apply played_steps.
Qed.

Lemma held {A} (t : Transaction A) (l : list Access) :
  match access_of t with None => true | Some a => bool_decide (a ∈ l) end = true -> forall a, access_of t = Some a -> a ∈ l.
Proof. intros H a Ha. rewrite Ha in H. by bprop. Qed.

Lemma live_bool u c : is_live u c <-> match members c !! u with Some m => live (m_state m) | None => false end = true.
Proof.
  unfold is_live. split; [by intros (m & -> & H)|]. destruct (members c !! u) as [m|]; [eauto|done].
Qed.

Definition post (client epoch : Z) : Outgoing :=
  {| o_client_id := client; o_class := Post; o_epoch := epoch; o_target_seq := None; o_body := [1]; o_media := []; o_pings := [] |}.

(** The current key of a conversation is stored. *)
Definition ensure (n : Z) : Move := MTx (fun _ => TEnsure (fun e => [e]) 1) n.

(** ** Somebody is kicked *)

Definition friends : list (str * MemberState) := [(lit "202", Active); (lit "303", Active)].

Definition before_kick : Sys :=
  played [ensure 1; MLoad (lit "202"); MLoad (lit "101"); MTx (fun l => TStore (acc 0 l) 5 (post 1 0) None) 2] (group friends).

Definition kick : Transaction Change := TRemove (acc 0 (loaded before_kick)) (lit "202") false.

Definition after_kick : Sys :=
  {| conv := (run_tx encode (env_at 3) kick (conv before_kick)).2; loaded := loaded before_kick; s_clock := 3 |}.

(** The old epoch is refused, the next one is not. *)
Definition after_moves : list Move :=
  [MTx (fun l => TStore (acc 1 l) 6 (post 2 0) None) 4; ensure 5; MTx (fun l => TStore (acc 0 l) 5 (post 3 1) None) 6].
Definition later : Sys := played after_moves after_kick.

(** The kicked member could have the key of epoch 0; the message sent later is under
    epoch 1. *)
Lemma departed_cannot_read_witness :
  exists g, messages (conv later) !! 4 = Some g /\ g_class g = Post /\ 0 < g_epoch g.
Proof.
  eexists. split; [vm_compute; reflexivity|]. split; [reflexivity|].
  eapply (departed_cannot_read encode before_kick Change kick (env_at 3) (lit "202") later 0 4).
  - apply group_reachable; vm_compute; reflexivity.
  - apply held. vm_compute. reflexivity.
  - vm_compute. discriminate.
  - reflexivity.
  - apply live_bool. vm_compute. reflexivity.
  - rewrite live_bool. vm_compute. discriminate.
  - apply (played_steps after_moves after_kick). vm_compute. reflexivity.
  - eexists. vm_compute. reflexivity.
  - vm_compute. reflexivity.
  - vm_compute. reflexivity.
  - discriminate.
Defined.

(** ** The group changes hands *)

Definition handed : Sys :=
  played [MLoad (lit "101"); MTx (fun l => TSetRole (acc 0 l) (lit "202") Owner) 1] (group friends).

Lemma one_owner_witness :
  exists m, members (conv handed) !! lit "202" = Some m
    /\ c_kind (row (conv handed)) <> Direct /\ m_state m = Active.
Proof.
  eexists. split; [vm_compute; reflexivity|].
  eapply (one_owner encode handed (lit "202") (lit "202")); try (vm_compute; reflexivity).
  apply group_reachable; vm_compute; reflexivity.
Defined.

Definition default_row (r : result MessageRow ChatError) : MessageRow :=
  match r with
  | Ok g => g
  | Err _ => {| g_seq := 0; g_client_id := 0; g_sender_user := []; g_sender_device := None; g_class := Post; g_epoch := 0;
                g_target_seq := None; g_body := None; g_created_at := 0; g_expires_at := None |}
  end.

(** The owner leaves and the next in line takes over. *)
Definition owner_access : Access :=
  match load (lit "101") (conv (group friends)) with Ok a => a | Err _ => no_access end.
Definition owner_in : Sys := {| conv := conv (group friends); loaded := [owner_access]; s_clock := 0 |}.
Definition owner_out : Sys :=
  {| conv := (run_tx encode (env_at 1) (TLeave owner_access) (conv owner_in)).2; loaded := loaded owner_in; s_clock := 1 |}.

Lemma owner_kept_witness :
  is_live (lit "101") (conv owner_in) /\ ~ is_live (lit "101") (conv owner_out) /\
  exists u m, members (conv owner_out) !! u = Some m /\ m_role m = Owner /\ m_state m = Active.
Proof.
  split; [apply live_bool; vm_compute; reflexivity|].
  split; [rewrite live_bool; vm_compute; discriminate|].
  apply (owner_kept encode (env_at 0) (lit "101") friends None
           (default_row (create_group encode (env_at 0) (lit "101") friends None).1) (conv (group friends))
           (group friends) owner_out); [vm_compute; reflexivity|reflexivity| |vm_compute; reflexivity].
  apply (rtc_l _ _ owner_in); [|apply rtc_once].
  - apply (careful_load encode (group friends) (lit "101") owner_access). vm_compute. reflexivity.
  - apply (careful_tx encode owner_in Change (TLeave owner_access) (env_at 1)); [|vm_compute; discriminate|exact I].
    apply held. vm_compute. reflexivity.
Defined.

(** ** A link is used twice *)

Definition linked : Conv :=
  (run_tx encode (env_at 1) (TInvite [9] (lit "101") 300000000 (Some 1)) (conv (group friends))).2.

Definition comers : list (Env * {A & Transaction A}) :=
  [(env_at 2, @existT Type Transaction MessageRow (TJoin [9] (lit "404"))); (env_at 3, @existT Type Transaction MessageRow (TJoin [9] (lit "505")))].

Lemma link_uses_witness : let_in encode [9] comers linked = 1 /\ let_in encode [9] comers linked <= 1.
Proof.
  split; [vm_compute; reflexivity|]. apply (link_uses encode [9] comers linked 1); [vm_compute; reflexivity|lia|].
  repeat constructor.
Defined.

(** ** Keys are handed out

    A run of a handler in which nothing fails and nobody else does anything. *)

Definition respond (d : DeviceRow) (now : Z) {A} (e : Chat A) (s : Sys) : option (A * Sys) :=
  match e in Chat A return option (A * Sys) with
  | Select f => Some (Ok (f (conv s)), s)
  | Run t =>
      if match access_of t with None => true | Some a => bool_decide (a ∈ loaded s) end
      then let r := run_tx encode (env_at (s_clock s)) t (conv s) in
           Some (r.1, {| conv := r.2; loaded := loaded s; s_clock := s_clock s |})
      else None
  | EnsureCurrent =>
      let r := run_tx encode (env_at (s_clock s)) (TEnsure (fun e => [e]) 1) (conv s) in
      Some (r.1, {| conv := r.2; loaded := loaded s; s_clock := s_clock s |})
  | Load user =>
      match load user (conv s) with
      | Ok x => Some (Ok x, {| conv := conv s; loaded := x :: loaded s; s_clock := s_clock s |})
      | Err e => Some (Err e, s)
      end
  | Ask _ => Some (Ok tt, s)
  | RequireDevice => Some (Ok d, s)
  | RoomOfChat => Some (Ok None, s)
  | BlockedBetween _ _ => Some (Ok false, s)
  | RandomBytes => Some (Ok [7], s)
  | Now => Some (now, s)
  end.

Fixpoint perform {R} (d : DeviceRow) (now : Z) (p : program Chat R) (s : Sys) : option (R * Sys) :=
  match p with
  | Ret r => Some (r, s)
  | Vis e k => '(a, s') ← respond d now e s; perform d now (k a) s'
  end.

Lemma respond_answered (reads : Z -> Prop) d now {A} (e : Chat A) s a s' :
  reads now -> respond d now e s = Some (a, s') -> answered encode reads d e s a s'.
Proof.
  intros Hnow. destruct e; cbn; intros H; simplify_eq; auto.
  - destruct (match access_of t with None => true | Some a => bool_decide (a ∈ loaded s) end) eqn:Hb; [|done].
    injection H as <- <-. left. exists (env_at (s_clock s)). split; [by apply held|]. cbn. split; [lia|auto].
  - left. exists (fun e => [e]), 1, (env_at (s_clock s)). split; [done|]. cbn. split; [lia|auto].
  - destruct (load user (conv s)) as [x|e] eqn:E; simplify_eq; [left; eauto|by right].
Qed.

Lemma perform_ends allowed (reads : Z -> Prop) d now {R} (p : program Chat R) s Q r s' :
  reads now -> ends encode allowed reads d p s Q -> perform d now p s = Some (r, s') -> Q r s'.
Proof.
  intros Hnow. revert s. induction p as [r0|A e k IH]; intros s; cbn; [by intros ? [= <- <-]|].
  intros H. destruct (respond d now e s) as [[a s1]|] eqn:E; [|done]. cbn. intros Hp.
  eapply IH; [|exact Hp]. eapply H; [apply rtc_refl|]. by eapply respond_answered.
Qed.

(** Wrapping and sealing are the identity. *)
Definition plain_unwrap (kek : bytes) (version epoch : Z) (wrapped : bytes) : option bytes := Some wrapped.
Definition plain_seal (box_pub : bytes) (epoch id : Z) (ck ikm : bytes) : option bytes := Some ck.
Definition plain_ring : KekRing := {| current := 1; reports_current := 1; keks := {[1 := []]}; reports := {[1 := []]} |}.
Abbreviation hand_out user := (keys_list plain_unwrap plain_seal plain_ring (Ok tt) user 4096 None).

Definition new_device : DeviceRow :=
  new_device_row (env_at 5) (lit "202") [7] TierDirect {| b_id := 9; b_auth_pub := []; b_box_pub := [] |}
    {| rq_platform := lit "linux"; rq_name := lit "desk"; rq_app_version := lit "1"; rq_caps := [] |}.

Definition given (d : DeviceRow) (user : str) (s : Sys) : list SealedKey :=
  match perform d 6 (hand_out user) s with Some (Ok ks, _) => ks | _ => [] end.

Definition soon (now : Z) : Prop := now < 5 + UNLOCK_AFTER_HOURS * HOUR_US.

(** ** Devices

    A member has a device; somebody who got hold of the account registers another one at
    time 5.  It is given the key stored after that, and nothing older.  Then the first
    device is revoked, and a message is sent under a new key. *)

Definition account (hash : bytes) : option str := if bool_decide (hash ∈ [[7]; [8]]) then Some (lit "202") else None.
Definition enrolls (n : Z) (hash : bytes) : DeviceTx Enrolled :=
  XEnroll (lit "202") hash TierDirect {| b_id := n; b_auth_pub := []; b_box_pub := [] |}
    {| rq_platform := lit "linux"; rq_name := lit "desk"; rq_app_version := lit "1"; rq_caps := [] |}.

Definition in_chat (S : Sys) (s : DSys) : DSys := {| w_devices := w_devices s; chats := <[1 := S]> (chats s); seen := seen s |}.
Definition ran {A} (x : DeviceTx A) (n : Z) (s : DSys) : DSys := settled n (run_device (env_at n) x (world s)).2 s.
Definition talk (ms : list Move) (s : DSys) : DSys := in_chat (played ms (default (group []) (chats s !! 1))) s.

Definition founded : DSys := {| w_devices := ∅; chats := {[1 := group friends]}; seen := [] |}.
Definition old_device : DSys := ran (enrolls 8 [8]) 2 (talk [ensure 1] founded).
Definition intruded : DSys := ran (enrolls 9 [7]) 5 old_device.
Definition key_renewed : DSys := talk [ensure 6] intruded.

Lemma talk_moves owner reads confirms begins ms s S :
  chats s !! 1 = Some S -> is_some (play ms S) = true -> rtc (dev_step encode owner reads confirms begins) s (talk ms s).
Proof. intros HS Hp. unfold talk. rewrite HS. cbn [default]. apply (chat_moves encode owner _ _ _ _ _ _ _ HS). by apply played_steps. Qed.

Lemma founded_reachable owner reads confirms begins : dev_reachable encode owner reads confirms begins founded.
Proof.
  apply rtc_once. apply (step_create _ _ _ _ _ no_devices 1 (conv (group friends)) 0); [done|].
  apply group_started. vm_compute. reflexivity.
Qed.

(** The clocks of the conversations, as a boolean. *)
Lemma clocks_le (s : DSys) n :
  forallb (fun x => s_clock x.2 <=? n) (map_to_list (chats s)) = true -> forall i S, chats s !! i = Some S -> s_clock S <= n.
Proof.
  intros H i S HS. rewrite forallb_forall in H. apply Z.leb_le, (H (i, S)). by apply list_elem_of_In, elem_of_map_to_list.
Qed.

Lemma ran_step owner reads confirms begins {A} (x : DeviceTx A) n s :
  may owner reads confirms x s -> forallb (fun x => s_clock x.2 <=? n) (map_to_list (chats s)) = true ->
  begins n -> dev_step encode owner reads confirms begins s (ran x n s).
Proof.
  intros Hx Hc Hb. apply (step_tx _ _ _ _ _ s A x (env_at n)); [done|]. split; [by apply clocks_le|]. by destruct x.
Qed.

Lemma old_device_reachable reads confirms begins :
  begins 2 -> dev_reachable encode account reads confirms begins old_device.
Proof.
  intros Hb. eapply rtc_r; [etrans; [apply founded_reachable|]|].
  - apply (talk_moves _ _ _ _ [ensure 1] founded (group friends)); vm_compute; reflexivity.
  - by apply ran_step; [reflexivity|vm_compute; reflexivity|].
Qed.

Definition theirs : DeviceRow := default new_device (w_devices key_renewed !! 9).

Lemma intruder_sealed_witness :
  given theirs (lit "202") (default (group []) (chats key_renewed !! 1)) = [{| sk_epoch := 1; sk_sealed := [1] |}] /\
  ends encode anything soon theirs (hand_out (lit "202")) (default (group []) (chats key_renewed !! 1))
    (fun r _ => match r with
                | Ok ks => Forall (fun sk => exists k, seals theirs plain_unwrap plain_seal plain_ring k sk
                                                       /\ d_created_at theirs <= k_created_at k) ks
                | Err _ => True
                end).
Proof.
  split; [vm_compute; reflexivity|].
  apply (intruder_sealed encode account soon 5 old_device old_device (lit "202") [7] TierDirect
    {| b_id := 9; b_auth_pub := []; b_box_pub := [] |}
    {| rq_platform := lit "linux"; rq_name := lit "desk"; rq_app_version := lit "1"; rq_caps := [] |}
    (env_at 5) key_renewed 1 (default (group []) (chats old_device !! 1))).
  - by apply old_device_reachable.
  - intros now. exact id.
  - apply rtc_refl.
  - reflexivity.
  - split; [apply clocks_le; vm_compute; reflexivity|]. by split; vm_compute.
  - vm_compute. reflexivity.
  - eexists. vm_compute. reflexivity.
  - vm_compute. reflexivity.
  - apply live_bool. vm_compute. reflexivity.
  - vm_compute. discriminate.
  - vm_compute. discriminate.
  - apply (talk_moves _ _ _ _ [ensure 6] intruded (default (group []) (chats intruded !! 1))); vm_compute; reflexivity.
  - vm_compute. reflexivity.
  - vm_compute. reflexivity.
  - right. vm_compute. reflexivity.
Defined.

(** The first device has been read, and is revoked at time 7. *)
Definition first_device : DeviceRow := default new_device (w_devices key_renewed !! 8).
Definition read_first : DSys := see first_device key_renewed.
Definition first_revoked : DSys := ran (XRevoke first_device) 7 read_first.
Definition sent_later : DSys :=
  talk [ensure 8; MLoad (lit "101"); MTx (fun l => TStore (acc 0 l) 5 (post 3 2) None) 9] first_revoked.

Lemma read_first_reachable :
  dev_reachable encode account (fun _ => True) (fun _ => True) (fun _ => True) read_first.
Proof.
  eapply rtc_r; [|apply (step_read _ _ _ _ _ key_renewed 8); vm_compute; reflexivity].
  etrans; [eapply rtc_r; [by apply old_device_reachable|apply (ran_step account _ _ _ (enrolls 9 [7]) 5)]|].
  - reflexivity.
  - vm_compute. reflexivity.
  - exact I.
  - apply (talk_moves _ _ _ _ [ensure 6] intruded (default (group []) (chats intruded !! 1))); vm_compute; reflexivity.
Qed.

Lemma revoked_cannot_read_witness :
  exists S g, chats sent_later !! 1 = Some S /\ messages (conv S) !! 2 = Some g /\ g_class g = Post /\ 1 < g_epoch g.
Proof.
  exists (default (group []) (chats sent_later !! 1)). eexists.
  split; [vm_compute; reflexivity|]. split; [vm_compute; reflexivity|]. split; [reflexivity|].
  eapply (revoked_cannot_read encode account (fun _ => True) (fun _ => True) (fun _ => True) read_first bool (XRevoke first_device)
    (env_at 7) 8 first_device (revoked_row 7 first_device) sent_later 1 (default (group []) (chats read_first !! 1))
    (default (group []) (chats sent_later !! 1)) 1 2).
  - exact read_first_reachable.
  - left.
  - split; [apply clocks_le; vm_compute; reflexivity|exact I].
  - vm_compute. reflexivity.
  - reflexivity.
  - vm_compute. reflexivity.
  - reflexivity.
  - vm_compute. reflexivity.
  - apply live_bool. vm_compute. reflexivity.
  - eexists. vm_compute. reflexivity.
  - apply (talk_moves _ _ _ _ [ensure 8; MLoad (lit "101"); MTx (fun l => TStore (acc 0 l) 5 (post 3 2) None) 9] first_revoked
      (default (group []) (chats first_revoked !! 1))); vm_compute; reflexivity.
  - vm_compute. reflexivity.
  - vm_compute. reflexivity.
  - vm_compute. reflexivity.
  - discriminate.
Defined.

Lemma devices_in_order_witness :
  count_live (lit "202") (world read_first) = 2 /\ (forall user, count_live user (world read_first) <= 10).
Proof.
  split; [vm_compute; reflexivity|].
  exact (proj1 (devices_in_order encode account (fun _ => True) (fun _ => True) (fun _ => True) read_first read_first_reachable)).
Defined.

(** The intruder tries to confirm its device with itself; nothing comes of it. *)
Definition intruder : Caller := {| cl_user_id := lit "202"; cl_session_id := 7; cl_device := Some 9; cl_tier := TierDirect |}.

Lemma device_handlers_step_witness :
  run_ends (rtc (dev_step encode account soon (fun d => d_id d = 9) (fun _ => True)))
    (@answer account soon (fun _ => True) (fun session => [session])) (confirm intruder 9) intruded
    (fun _ s' => rtc (dev_step encode account soon (fun d => d_id d = 9) (fun _ => True)) intruded s').
Proof.
  apply (device_handlers_step encode account soon (fun d => d_id d = 9) (fun _ => True) (fun session => [session])
    (fun _ => None) (fun _ => true) (fun _ => None) unit (confirm intruder 9) intruded).
  constructor. intros d Hd. injection Hd as <-. reflexivity.
Defined.

(** A group hides its history; somebody joins by a link and is given epoch 1. *)
Definition hidden_group : Sys :=
  played [ensure 1; MLoad (lit "101");
          MTx (fun l => TPatch (acc 0 l) None None (Some {| p_admins_only := None; p_history_visible := Some false |})) 2;
          MTx (fun l => TStore (acc 0 l) 5 (post 1 0) None) 3; MTx (fun _ => TInvite [9] (lit "101") 300000000 None) 4] (group friends).
Definition newcomer : Sys :=
  {| conv := (run_tx encode (env_at 5) (TJoin [9] (lit "404")) (conv hidden_group)).2; loaded := loaded hidden_group; s_clock := 5 |}.

Lemma hidden_history_sealed_witness :
  g_epoch <$> messages (conv hidden_group) !! 2 = Some 0 /\
  given new_device (lit "404") newcomer = [{| sk_epoch := 1; sk_sealed := [1] |}] /\
  ends encode quiet (fun _ => True) new_device (hand_out (lit "404")) newcomer
    (fun r _ => match r with
                | Ok ks => forall sk seq g, sk ∈ ks -> messages (conv hidden_group) !! seq = Some g -> g_epoch g < sk_epoch sk
                | Err _ => True
                end).
Proof.
  split; [vm_compute; reflexivity|]. split; [vm_compute; reflexivity|].
  apply (hidden_history_sealed encode (fun _ => True) new_device plain_unwrap plain_seal plain_ring (lit "404") hidden_group newcomer).
  - apply group_reachable; vm_compute; reflexivity.
  - vm_compute. split; reflexivity.
  - rewrite live_bool. vm_compute. discriminate.
  - vm_compute. reflexivity.
  - apply rtc_once. apply (in_tx encode quiet hidden_group MessageRow (TJoin [9] (lit "404")) (env_at 5)).
    + reflexivity.
    + apply held. reflexivity.
    + vm_compute. discriminate.
Defined.

(** ** A message is sent again, read and cached *)

Definition first_class (s : str) : option Class := if bool_decide (s = lit "post") then Some Post else None.

(** Under the same id, with another text. *)
Definition again : SendMessage :=
  {| s_client_id := 1; s_class := lit "post"; s_epoch := 0; s_target_seq := None; s_body := [2; 3]; s_media := []; s_pings := [] |}.

Definition first_sent : MessageRow := default (default_row (Err ChatInternal)) (messages (conv before_kick) !! 2).

Abbreviation send_again := (deliver 24 first_class false (Ok tt) (Some 5) (lit "101") again).

Definition outgoing_again : Outgoing :=
  match outgoing first_class again with
  | Ok out => out
  | Err _ => {| o_client_id := 0; o_class := System; o_epoch := 0; o_target_seq := None; o_body := []; o_media := []; o_pings := [] |}
  end.


(** Every view takes 100 bytes; two of them and the frame do not fit in 220. *)
Definition hundred (v : MessageView) : option nat := Some 100%nat.
Definition reader : Access := acc 0 (loaded before_kick).
Definition whole : HistoryQuery := {| q_after := None; q_before := None; q_limit := None |}.
Definition small_page : HistoryPage :=
  match page_read hundred 6 reader whole 220 (conv before_kick) with Ok p => p | Err _ => {| p_messages := []; p_more := false |} end.

Lemma page_fits_witness :
  (length (p_messages small_page), p_more small_page) = (1%nat, true) /\
  Z.of_nat (length (p_messages small_page)) <= 50 <= PAGE_ROWS_MAX
  /\ ((2 <= length (p_messages small_page))%nat -> page_bytes hundred small_page <= 220)
  /\ (p_more small_page = true -> p_messages small_page <> []).
Proof.
  split; [vm_compute; reflexivity|]. apply (page_fits hundred 6 reader whole 220 (conv before_kick) small_page); vm_compute; reflexivity.
Defined.

Lemma pages_complete_witness :
  exists rows, read_back hundred 3 6 reader None 220 None (conv before_kick) = Some (view_of <$> rows)
    /\ StronglySorted (fun x y => g_seq x < g_seq y) rows
    /\ forall g, g ∈ rows <-> messages (conv before_kick) !! g_seq g = Some g /\ history_floor reader < g_seq g /\ unexpired 6 g = true.
Proof.
  apply (pages_complete encode hundred before_kick 6 reader None 220 3).
  - apply group_reachable; vm_compute; reflexivity.
  - vm_compute. reflexivity.
  - vm_compute. lia.
Defined.

Definition hot : option Tail := publish [first_sent] None.
Definition hot_tail : Tail := default {| t_rows := []; t_bytes := 0 |} hot.

Lemma cache_agrees_witness :
  hot_after 6 1 (Some hot_tail) = Some [first_sent] /\
  [first_sent] = List.filter (fun g => existsb (fun r => g_seq g <=? g_seq r) (t_rows hot_tail))
                   (after_sql 6 1 (size (messages (conv before_kick))) (conv before_kick)).
Proof.
  split; [vm_compute; reflexivity|]. apply (cache_agrees 6 (conv before_kick) hot_tail 1 [first_sent]).
  - apply (reachable_log encode). apply group_reachable; vm_compute; reflexivity.
  - apply (cached_publish 6 (conv before_kick) (conv before_kick) None [first_sent]); [constructor| |auto].
    intros g ->%list_elem_of_singleton. vm_compute. reflexivity.
  - vm_compute. reflexivity.
Defined.

(** ** Runs the code allows against its intent *)

(** The owner's request to demote somebody was admitted before the owner handed the group
    over to them. *)
Definition demoted : Sys :=
  played [MLoad (lit "101"); MTx (fun l => TSetRole (acc 0 l) (lit "202") Owner) 1;
          MTx (fun l => TSetRole (acc 0 l) (lit "202") Member) 2] (group friends).

(** C39: A group can lose its owner: with two requests of the owner in flight, one
    that hands the group over and one that demotes the same member, the second does not
    check under the lock that its sender still owns the group, and demotes the new owner. *)
Theorem ownerless_group :
  exists s, reachable encode s /\ is_deleted (conv s) = false /\ c_member_count (row (conv s)) = 3
    /\ forall u m, members (conv s) !! u = Some m -> m_role m <> Owner.
Proof.
  exists demoted. split; [apply group_reachable; vm_compute; reflexivity|].
  split; [vm_compute; reflexivity|]. split; [vm_compute; reflexivity|].
  apply (map_Forall_to_list (fun _ m => m_role m <> Owner)). vm_compute. repeat constructor; discriminate.
Qed.

(** The people of a group: [n] active ones and [m] invited ones. *)
Definition people_of (n m : nat) : list (str * MemberState) :=
  ((fun i => ([Z.of_nat i], Active)) <$> seq 0 n) ++ ((fun i => ([Z.of_nat i], Invited)) <$> seq n m).

(** C40: A group can have more than [GROUP_MEMBERS_MAX] live members: a link compares the
    limit with the stored count, which the other operations keep as the number of active
    members, while adding people counts the invited ones too. *)
Theorem full_group_grows :
  exists s, reachable encode s /\ GROUP_MEMBERS_MAX < live_total (conv s).
Proof.
  exists (played [MTx (fun _ => TInvite [9] (lit "101") 300000000 (Some 1)) 1; MTx (fun _ => TJoin [9] (lit "404")) 2]
            (group (people_of 99 100))).
  split; [apply group_reachable; vm_compute; reflexivity|]. vm_compute. reflexivity.
Qed.

(** Somebody invited declines; the group goes on under the same key. *)
Definition invited_one : Sys :=
  played [ensure 1; MLoad (lit "202"); MLoad (lit "101")] (group [(lit "202", Invited); (lit "303", Active)]).
Definition invitee : Access := acc 1 (loaded invited_one).
Definition declined : Sys :=
  {| conv := (run_tx encode (env_at 2) (TDecline invitee) (conv invited_one)).2; loaded := loaded invited_one; s_clock := 2 |}.
Definition after_declined : Sys := played [MTx (fun l => TStore (acc 0 l) 5 (post 1 0) None) 3] declined.

(** C38: Who declines an invitation keeps the key of the conversation: an invited member is
    handed its keys, and unlike the other ways to go, declining does not replace the key, so
    a message sent afterwards is under an epoch whose key the member was given. *)
Theorem declined_keeps_key :
  exists s a env s' seq g,
    let c := (run_tx encode env (TDecline a) (conv s)).2 in
    reachable encode s /\ a ∈ loaded s /\ is_live (a_user_id a) (conv s) /\ ~ is_live (a_user_id a) c
    /\ rtc (sys_step encode) {| conv := c; loaded := loaded s; s_clock := e_clock env |} s'
    /\ messages c !! seq = None /\ messages (conv s') !! seq = Some g /\ g_class g = Post
    /\ ~ ends encode anything (fun _ => True) new_device (hand_out (a_user_id a)) s
          (fun r _ => match r with Ok ks => forall sk, sk ∈ ks -> sk_epoch sk <> g_epoch g | Err _ => True end).
Proof.
  exists invited_one, invitee, (env_at 2), after_declined, 2,
    (default (default_row (Err ChatInternal)) (messages (conv after_declined) !! 2)). cbv zeta.
  split; [apply group_reachable; vm_compute; reflexivity|].
  split; [apply (held (TDecline invitee)); [vm_compute; reflexivity|done]|].
  split; [apply live_bool; vm_compute; reflexivity|].
  split; [rewrite live_bool; vm_compute; discriminate|].
  split; [apply (played_steps _ declined); vm_compute; reflexivity|].
  do 3 (split; [vm_compute; reflexivity|]). intros H.
  destruct (perform new_device 6 (hand_out (a_user_id invitee)) invited_one) as [[r s']|] eqn:E; [|vm_compute in E; discriminate E].
  apply (perform_ends _ _ _ 6 _ _ _ _ _ I H) in E as HQ. vm_compute in E. injection E as <- _.
  eapply HQ; [left|]. vm_compute. reflexivity.
Qed.

End ChatSample.
